(* ===== verification/_CoqProject ===== *)
-Q . S2P
Prelude.v
Flow.v
IdSet.v
DrbdSize.v
Api.v
Object.v
Storage.v
Client.v
Pipeline.v
PipelineTheory.v
Scheduling.v
SchedulingTheory.v
ZoneTheory.v
Dmte.v
DmteSteps.v
DmteTermination.v
DmteInvariants.v
DmteFinalize.v
DmteBoundary.v
Context.v
Tracker.v
TrackerSpec.v
Helpers.v
Guards.v
Network.v
Quorum.v
Attachment.v
Membership.v
Layout.v
Datamesh.v
Rollout.v
Requests.v
Replicas.v
RvaStatus.v
RvrBase.v
BackingVolume.v
DrbdResource.v
RvrStatus.v
RvrConditions.v
RvrController.v
PoolController.v
ClassStatus.v
ClassController.v
DrbdUtils.v
Drbdr.v
DrbdrController.v
Lifecycle.v
Formation.v
FormationSteps.v
Controller.v
Frame.v
Plans.v
Effects.v
Contexts.v
System.v
Provenance.v
AttachSafety.v
Quiet.v
AttachCycle.v
QuorumTheory.v
MembershipTheory.v
GuardTheory.v
NetworkTheory.v
LayoutTheory.v
DispatchTheory.v
Scenario.v
LifecycleTheory.v
FormationTheory.v
ConvergenceTheory.v
RolloutTheory.v
RvaTheory.v
PoolTheory.v
ClassTheory.v
RvrTheory.v
RvrSafety.v
DrbdrTheory.v
DrbdrSafety.v
Examples.v
ExamplesTheory.v
ExamplesRvr.v
