(* ===== verification/Prelude.v ===== *)
(** * Verification of the sds-replicated-volume control plane

    The program (src/, Go) is a set of Kubernetes controllers that keep replicated DRBD volumes.  A
    ReplicatedVolume owns a "datamesh": the members (replicas with an ID 0..31 and a type), their
    network addresses, the quorum, the size and the attachments.  Every change of the datamesh is a
    transition: a registered plan of steps, each applied to the datamesh, then confirmed by the
    replicas before the next one starts.  This library models the logic that decides and executes
    those transitions, the volume controller around it (one pass of Reconcile end to end, with every
    API call as an event), the controllers of replicas, storage classes, pools and nodes, the one that
    places replicas on nodes, the agent that configures DRBD on a node, and the packages they use.

    ** The parts and how they interact

    - ProcessTransitions (rv_controller/datamesh/datamesh.go) builds the contexts of a cycle from the
      volume, its replicas and attachments (context.go), runs the engine on them and writes the
      members, requests, transitions and effective layout back.
    - The engine (rv_controller/dmte) is generic: it settles the active transitions, asks the
      dispatchers for decisions, checks slots, the concurrency tracker and guards, and creates
      transitions, until nothing changes.
    - The dispatchers, guards, plans, apply and confirm callbacks of the datamesh package are what the
      engine calls; the concurrency tracker decides which transitions may run together.
    - The volume controller (rv_controller/reconciler*.go) reads the volume with its replicas,
      attachments, storage class and pool; forms new volumes step by step, or adopts existing replicas;
      runs ProcessTransitions on formed ones; creates and deletes Access replicas, converges the layout
      towards the intended one, rolls configurations out under a budget, reports on attachments, and
      holds finalizers until everything below is gone.
    - The scheduling controller (rvr_scheduling_controller) gives every replica of a volume a node and a
      volume group, through a pipeline of candidates scored by the scheduler extender.
    - The replica controller (rvr_controller) turns each replica into a logical volume and a DRBD resource
      on its node, reports on them in the status of the replica, and asks the datamesh to let the replica
      join, leave or change.
    - The pool controller (rsp_controller) lists in the status of a pool the nodes on which volumes may live;
      the node controller (node_controller) labels those nodes for the agent; the class controller
      (rsc_controller) keeps a pool and a Kubernetes StorageClass for each storage class, accepts its
      configuration when the nodes of the pool suffice, and reports how far its volumes follow it.
    - The agent (images/agent) runs on every node.  Its drbdr controller compares what drbdsetup shows of a
      DRBD resource with what the DRBDResource asks for and runs the commands that take it there, holds
      finalizers on the logical volumes it uses, gives out ports, and reports; a scanner follows the events
      of DRBD and queues the resources they name; the drbdrop controller runs single operations.
    - idset and drbd_size are the bit sets and size computations they use; flow is the outcome algebra
      every reconciler returns.

    ** Files

    - Prelude: outcomes of Go code ([outcome]: value, panic, exhausted fuel), machine integers, generic
      lemmas, tactics and hints.
    - Flow: src/lib/go/common/reconciliation/flow/flow.go, module [flow].
    - IdSet: images/controller/internal/idset/idset.go, module [idset].
    - DrbdSize: images/controller/internal/drbd_size/drbd_size.go, module [drbd_size].
    - Api: api/v1alpha1 and the condition checks of api/objutilv1, module [v1alpha1].
    - Dmte: rv_controller/dmte (step.go, plan.go, registry.go, message.go, adapt.go, engine.go), module
      [dmte].  The engine state is the record [Engine]; pointers to transitions are addresses in a
      memory shared by the shadow index, the slots and the tracker.
    - Context (context.go, slots.go), Tracker (concurrency_tracker.go), Helpers (helpers_*.go,
      membership_helpers*.go, quorum_helpers.go, tiebreaker_readiness.go), Guards
      (membership_helpers_guards.go), Network, Quorum (quorum and resize), Attachment, Membership
      (the plans and dispatchers of those groups), Datamesh (effective_layout.go, datamesh.go): the
      rv_controller/datamesh package.
    - DmteSteps, DmteTermination, DmteInvariants, DmteFinalize, DmteBoundary: the theory of
      the engine for any registry, tracker, slots and dispatchers, stated against the classes
      [RegistryLaws], [TrackerLaws], [SlotLaws] and [Terminating].
    - Frame, Plans, Effects, Contexts, Provenance, System, AttachSafety, AttachCycle, Quiet: the laws
      discharged for the datamesh, and the theorems on whole cycles.
    - TrackerSpec, QuorumTheory, MembershipTheory, GuardTheory, NetworkTheory, LayoutTheory,
      DispatchTheory: the theorems on one component each.
    - Pipeline: rvr_scheduling_controller/scheduling_pipeline.go and rvr_llv_name, module [pipeline];
      Scheduling: rvr_scheduling_controller/reconciler.go, module [scheduling], with the API server, the
      scheduler extender, the clock and the map order as the class [Env]; PipelineTheory,
      SchedulingTheory, ZoneTheory: their theorems; Examples: a concrete pool.
    - Object: api/objutilv1, module [objutilv1], with interfaces as classes; Storage: pools, storage
      classes, DRBD resources and operations, and logical volumes of api/v1alpha1.
    - Client: the API calls of rv_controller/reconciler.go.  A computation [M] runs on the world of the
      class [Server] and leaves the list of its calls; [triple] and [calls] are its program logic.
    - Layout, Requests, Replicas, Lifecycle, Controller (reconciler.go, reconciler_access_replicas.go),
      Rollout (reconciler_rollout.go and reconcileRVConfiguration), RvaStatus (reconciler_rva.go),
      Formation and FormationSteps (reconciler_formation.go): the volume controller.
    - ConvergenceTheory, RolloutTheory, RvaTheory, LifecycleTheory, FormationTheory: its theorems.
    - RvrBase (reconciler.go), BackingVolume
      (reconciler_backing_volume.go), DrbdResource (reconciler_drbd_resource.go), RvrStatus
      (reconciler_status.go), RvrConditions (reconciler_conditions.go), RvrController (Reconcile
      and the composition): the rvr_controller package.
    - RvrTheory (peers, names, requests, eligibility, phase), RvrSafety (panics, the reported revision,
      what a pass takes away): its theorems.
    - PoolController (rsp_controller and node_controller: reconciler.go, controller.go, predicates.go),
      modules [rsp_controller] and [node_controller]; ClassStatus (rsc_controller/reconciler.go: views,
      validation, summary, phase, pool name, ensure helpers; predicates.go), ClassController
      (rsc_controller/reconciler.go: Reconcile, migrations, pools, StorageClasses, deletion; controller.go).
    - PoolTheory, ClassTheory: their theorems.
    - DrbdUtils (images/agent/pkg/drbdutils: the drbdsetup and drbdmeta commands, events and minors), module
      [drbdutils]; Drbdr (images/agent/internal/controllers/drbdr: actual_drbd_state.go,
      intended_drbd_state.go, target_drbd_state.go, and lib/go/common/maps), modules [maps] and [drbdr];
      DrbdrController (the rest of drbdr: reconciler*.go, drbd_actions.go, port caches, scanner.go,
      report_state.go, predicates.go; and drbdrop), modules [port_cache] and [drbdr_controller].
      DrbdrTheory, DrbdrSafety: their theorems.
    - Scenario, Examples, ExamplesTheory, ExamplesRvr: a concrete volume at which the theorems
      are instantiated, and concrete cycles and passes that go wrong.

    ** What the theorems show

    - Whole cycles (System, AttachCycle, Quiet): a cycle terminates on every input; stored transitions
      keep the shape Completed* Active Pending*, valid names and no conflicting pair; without
      multiattach at most one replica is attached or being attached; a cycle that reports no change
      changed nothing but cancelled transitions.
    - Concurrency (TrackerSpec): the bitmask tracker refines a specification on the list of active
      transitions.
    - Plans (MembershipTheory, QuorumTheory, NetworkTheory): every prefix of a membership
      plan keeps the quorum at the majority of the voters; plans end at the requested type, quorum,
      networks or size, after which their dispatcher is quiet; quorums intersect.
    - Guards and layout (GuardTheory, NetworkTheory, LayoutTheory): guards that pass keep the configured
      redundancy, also after the loss of a zone, and leave room for a resize; the zone counters and
      the effective layout count what they are named after.
    - Contexts, confirmation and dispatch (Contexts, DispatchTheory): the ID index holds
      the input objects, writeback holds the members of the contexts, steps are confirmed by exactly
      the replicas that report them, decisions are executable.
    - Packages (IdSet, DrbdSize, Api, Flow): enumeration, printing and allocation of IDs; convergence
      and round trip of size computations; names round trip; outcomes can be merged in stages.
    - Scheduling (PipelineTheory, SchedulingTheory, ZoneTheory): placements are safe and distinct for any
      environment; TransZonal zones stay balanced; the score join, the zone map and the preferred
      zones are what they are meant to be; a replica with a node but no volume group can be stuck.
    - The volume controller (LifecycleTheory): which calls a pass can make on a formed
      volume, and under which conditions it creates, deletes and lets go of replicas and of the volume.
    - Formation (FormationTheory): a formation ends only with its data in place, is
      restarted only after its timeout and then completely; creating the missing replicas ends; excess
      ones are dropped from the back; an adoption of an empty listing verifies nothing.
    - Layout and rollout (ConvergenceTheory, RolloutTheory): the convergence decision agrees with the
      guards of the engine and with its condition, is safe and not repeated; the rollout budget holds
      under stale listings; configuration and generation stay together.
    - Reports (RvaTheory, Requests, FormationTheory): what is written to attachments and requests, and where
      the controller never settles; the view of the pool holds the nodes the volume needs.
    - The replica controller (RvrTheory, RvrSafety): the connections of the datamesh are the same
      from both ends; requests, phases and the reported revision mean what they should; logical volumes and
      replicas are given up only when dispensable; a pass does not panic unless a logical volume is larger
      than intended and not in order.
    - Pools and nodes (PoolTheory): a pool lists exactly the selected nodes within their grace period, with
      exactly its volume groups on them; a pass writes only the status, with a new revision for new nodes;
      events reach the pools and nodes they concern; the label of the agent follows the need for it; and a
      pass that panics, and an event that is missed.
    - Storage classes (ClassTheory): a configuration is accepted exactly when the nodes suffice; the minimum
      numbers of zones let the loss of one be survived, but for four copies; counters partition the volumes;
      Ready means ready; the name of the pool is a hash of exactly the storage; a pass takes finalizers and
      pools only when unused, but replaces a StorageClass that belongs to someone else.
    - The agent (DrbdrTheory): a free minor is found in two rounds; device UUIDs read back;
      the paths of a peer converge without an established connection losing its last path; peers are
      reported one for each connection; every resource that an event names is queued.
    - The agent (DrbdrSafety): a disk of another resource is never written or attached; maintenance changes
      nothing on the node; the finalizers of logical volumes are recorded before they are taken and are
      released only when recorded; the first free port is given out; and three passes that
      go wrong when a probe or a lookup fails.
    - Error behaviour (Examples, ExamplesTheory, ExamplesRvr): concrete cycles that lose a reported change or
      panic, and concrete passes over a replica that panic, lose a replaced volume, or report a quorum as lost
      that was never there.

    ** Bounds and fuel

    Loops that Go bounds syntactically are structural.  The settle loop, the convergence loop of
    Process and the fixed-point loop of LowerVolumeSize have fuel; [OutOfFuel] is a value of its own,
    and ProcessTransitions_terminates and LowerVolumeSize_converges show that it does not occur.  The
    binary search has one step more of fuel than the slice has elements.
    The loop that creates missing replicas has fuel 33 and is shown to end within it; trimming has fuel
    32, one per ID.  Time is a count of nanoseconds; durations are 64-bit and saturate as in package time.
    The search for a free device minor has fuel; two rounds are enough unless drbdsetup refuses a minor that is
    free, and then Go retries for ever.
    A pass over a class that visits the zones of its pool does so in the order of a rank the server draws.
    Replica IDs are 0..31, counters are bytes that wrap, sizes are 64-bit integers.

    ** Not modelled

    Parameters of the model: k8s resource.Quantity and meta.FindStatusCondition (class [K8s]),
    meta.SetStatusCondition and RemoveStatusCondition (class [MetaApi]), the clock, and the results of
    API calls: class [Env] for scheduling, class [Server] for the other controllers, which also draws the
    shared secret and the order of map ranges and sets owner references; the selectors of apimachinery and
    the look-up of a node condition: class [LabelsApi]; processes, files and the memory that goroutines of the
    agent share are calls of [Server] too ([hostcall]), and what encoding/json reads from the output of
    drbdsetup is the class [TextApi].

    Not modelled: logging, metrics and watches, and the predicates of the volume, replica and scheduling
    controllers; of the agent the controller of device-mapper devices (drbdm), the forwarder of kernel messages
    (drbdkmsg) and the process set-up; the CSI driver, webhooks, hooks, the legacy LINSTOR controller and its migration; test
    programs and generated deep copies. *)

From Stdlib Require Import ZArith Lia String Ascii DecimalString Sorted OrderedTypeEx.
From stdpp Require Import base decidable sets list numbers strings option relations.

#[global] Open Scope Z_scope.

(** ** Outcomes: values, Go panics, exhausted fuel

    A Go function that may panic returns an [outcome].  [OutOfFuel] is only produced by
    loops the source leaves unbounded; the theorems show it never is. *)
Inductive outcome (A : Type) : Type :=
| Ok (a : A)
| Panic (msg : string)
| OutOfFuel.
Arguments Ok {A} _.
Arguments Panic {A} _%_string.
Arguments OutOfFuel {A}.

#[export] Instance outcome_ret : MRet outcome := λ A a, Ok a.
#[export] Instance outcome_bind : MBind outcome := λ A B f m,
  match m with Ok a => f a | Panic s => Panic s | OutOfFuel => OutOfFuel end.
#[export] Instance outcome_fmap : FMap outcome := λ A B f m,
  match m with Ok a => Ok (f a) | Panic s => Panic s | OutOfFuel => OutOfFuel end.

(** Dereference of a Go pointer: [None] is nil. *)
Definition deref {A} (p : option A) : outcome A :=
  match p with
  | Some a => Ok a
  | None => Panic "invalid memory address or nil pointer dereference"
  end.

(** Slice indexing. *)
Definition index {A} (l : list A) (i : nat) : outcome A :=
  match l !! i with
  | Some a => Ok a
  | None => Panic "index out of range"
  end.

Lemma bind_Ok {A B} (f : A → outcome B) (m : outcome A) b :
  m ≫= f = Ok b ↔ ∃ a, m = Ok a ∧ f a = Ok b.
Proof. destruct m; simpl; split; try (intros (?&?&?)); naive_solver. Qed.

Lemma bind_not_fuel {A B} (f : A → outcome B) (m : outcome A) :
  m ≠ OutOfFuel → (∀ a, m = Ok a → f a ≠ OutOfFuel) → m ≫= f ≠ OutOfFuel.
Proof. destruct m; simpl; naive_solver. Qed.

Lemma index_Ok {A} (l : list A) i a : index l i = Ok a ↔ l !! i = Some a.
Proof. unfold index. destruct (l !! i); naive_solver. Qed.

Lemma index_not_fuel {A} (l : list A) i : index l i ≠ OutOfFuel.
Proof. unfold index. by destruct (l !! i). Qed.

Lemma deref_Ok {A} (p : option A) a : deref p = Ok a ↔ p = Some a.
Proof. destruct p; simpl; naive_solver. Qed.

Lemma deref_not_fuel {A} (p : option A) : deref p ≠ OutOfFuel.
Proof. by destruct p. Qed.

(** Decompose a successful monadic computation in the hypotheses. *)
Ltac inv_ok :=
  repeat match goal with
  | H : (_ ≫= _) = Ok _ |- _ =>
      apply bind_Ok in H; let a := fresh "r" in let E := fresh "E" in
      destruct H as (a & E & H)
  | H : Ok _ = Ok _ |- _ => injection H as H
  | H : mret _ = Ok _ |- _ => injection H as H
  | H : Panic _ = Ok _ |- _ => discriminate H
  | H : OutOfFuel = Ok _ |- _ => discriminate H
  | H : index _ _ = Ok _ |- _ => apply index_Ok in H
  | H : deref _ = Ok _ |- _ => apply deref_Ok in H
  | H : (_, _) = (_, _) |- _ => injection H as H
  | p : (_ * _)%type |- _ => destruct p
  end; simplify_eq/=.

(** Expose the first bound value of a successful computation. *)
Tactic Notation "bok" hyp(H) "as" simple_intropattern(x) simple_intropattern(E) :=
  apply bind_Ok in H as (x & E & H); simpl in H.

(** ** Record update

    [r <| field := v |>] is the record [r] with one field replaced: a Go assignment to a field.  A
    record type registers how it is rebuilt from its own fields ([Rebuild]); the update of a field is
    found by instance search. *)
Class Rebuild (R : Type) := rebuild : R → R.
Class FieldUpdate {R E : Type} (field : R → E) := field_update : (E → E) → R → R.
Arguments field_update {R E} field {FieldUpdate} f r.
Ltac derive_update R field :=
  let f := fresh "f" in let r := fresh "r" in
  unfold FieldUpdate; intros f r;
  let body := eval hnf in (@rebuild R _ r) in
  let abstracted := eval pattern (field r) in body in
  lazymatch abstracted with
  | ?build _ => let updated := eval cbv beta in (build (f (field r))) in exact updated
  end.
#[export] Hint Extern 0 (@FieldUpdate ?R _ ?field) => derive_update R field : typeclass_instances.
Notation "r <| field := v |>" := (field_update field (λ _, v) r)
  (at level 12, left associativity, field constr at level 10, v constr at level 200) : stdpp_scope.

(** ** Machine integers

    Go's [byte]/[uint8], [uint32], [uint64], [int8] and [int64] are kept as [Z] with their
    wrap-around written out. *)
Definition wrap8 (x : Z) : Z := x mod 2 ^ 8.
Definition wrap32 (x : Z) : Z := x mod 2 ^ 32.
Definition wrap64 (x : Z) : Z := x mod 2 ^ 64.
Definition wrapS8 (x : Z) : Z := (x + 2 ^ 7) mod 2 ^ 8 - 2 ^ 7.
Definition wrapS64 (x : Z) : Z := (x + 2 ^ 63) mod 2 ^ 64 - 2 ^ 63.

Declare Scope go_scope.
Delimit Scope go_scope with go.
(** Byte arithmetic. *)
Notation "a +b b" := (wrap8 (a + b)) (at level 50, left associativity) : go_scope.
Notation "a -b b" := (wrap8 (a - b)) (at level 50, left associativity) : go_scope.
#[global] Open Scope go_scope.

Lemma wrap8_small x : 0 ≤ x < 256 → wrap8 x = x.
Proof. intros. unfold wrap8. apply Z.mod_small. lia. Qed.
Lemma wrap8_range x : 0 ≤ wrap8 x < 256.
Proof. unfold wrap8. apply Z.mod_pos_bound. lia. Qed.
Lemma wrapS8_small x : -128 ≤ x < 128 → wrapS8 x = x.
Proof. intros. unfold wrapS8. rewrite Z.mod_small; lia. Qed.
Lemma wrapS64_small x : -2 ^ 63 ≤ x < 2 ^ 63 → wrapS64 x = x.
Proof. intros. unfold wrapS64. rewrite Z.mod_small; lia. Qed.
Lemma wrap64_small x : 0 ≤ x < 2 ^ 64 → wrap64 x = x.
Proof. intros. unfold wrap64. by apply Z.mod_small. Qed.
Lemma wrap32_small x : 0 ≤ x < 2 ^ 32 → wrap32 x = x.
Proof. intros. unfold wrap32. by apply Z.mod_small. Qed.

Create HintDb go.
Create Rewrite HintDb go.
#[export] Hint Rewrite wrap8_small using lia : go.
#[export] Hint Rewrite wrapS8_small using lia : go.
#[export] Hint Resolve index_not_fuel deref_not_fuel : go.

(** ** Strings *)

(** strconv.Itoa / FormatInt base 10. *)
Definition itoa (z : Z) : string := NilZero.string_of_int (Z.to_int z).

(** strings.Join. *)
Fixpoint join (sep : string) (l : list string) : string :=
  match l with
  | [] => ""
  | [s] => s
  | s :: l => s +:+ sep +:+ join sep l
  end.

Lemma app_assoc_s (a b c : string) : (a +:+ b) +:+ c = a +:+ b +:+ c.
Proof. induction a as [|x a IH]; [done|]. apply (f_equal (String x)), IH. Qed.
Lemma app_nil_r_s (a : string) : a +:+ "" = a.
Proof. induction a as [|x a IH]; [done|]. apply (f_equal (String x)), IH. Qed.
Lemma join_cons sep s l :
  join sep (s :: l) = s +:+ match l with [] => "" | _ => sep +:+ join sep l end.
Proof. destruct l; simpl; [by rewrite app_nil_r_s|done]. Qed.

(** The double quote character, as a string. *)
Definition dquote : string := String (ascii_of_nat 34) "".

(** fmt's [%q] on printable text: double quotes, with the quote and the backslash escaped. *)
Fixpoint escape (s : string) : string :=
  match s with
  | EmptyString => EmptyString
  | String c s =>
      if decide (nat_of_ascii c = 34 ∨ nat_of_ascii c = 92)%nat
      then String (ascii_of_nat 92) (String c (escape s))
      else String c (escape s)
  end.
Definition quote (s : string) : string := dquote +:+ escape s +:+ dquote.

(** fmt's [%v] on a []string. *)
Definition fmt_strings (l : list string) : string := "[" +:+ join " " l +:+ "]".

(** strings.ToLower on ASCII text. *)
Fixpoint ToLower (s : string) : string :=
  match s with
  | EmptyString => EmptyString
  | String c s =>
      let n := nat_of_ascii c in
      String (if decide (65 ≤ n ≤ 90)%nat then ascii_of_nat (n + 32) else c) (ToLower s)
  end.

(** cmp.Compare on strings (bytewise), as a boolean [<=]. *)
Definition string_leb (a b : string) : bool :=
  match String.compare a b with Gt => false | _ => true end.

Definition slices_Contains (l : list string) (s : string) : bool :=
  bool_decide (s ∈ l).
(** slices.Compact: the first of each run of equal elements. *)
Fixpoint Compact (l : list string) : list string :=
  match l with
  | x :: ((y :: _) as l') => if String.eqb x y then Compact l' else x :: Compact l'
  | _ => l
  end.

(** ** Counting *)

(** Number of elements satisfying a boolean predicate. *)
Definition countb {A} (f : A → bool) (l : list A) : Z :=
  Z.of_nat (length (List.filter f l)).

Lemma countb_nil {A} (f : A → bool) : countb f [] = 0.
Proof. done. Qed.
Lemma countb_cons {A} (f : A → bool) x l :
  countb f (x :: l) = Z.b2z (f x) + countb f l.
Proof. unfold countb. simpl. destruct (f x); simpl; lia. Qed.
Lemma countb_app {A} (f : A → bool) l k :
  countb f (l ++ k) = countb f l + countb f k.
Proof. unfold countb. rewrite List.filter_app, length_app. lia. Qed.
Lemma countb_nonneg {A} (f : A → bool) l : 0 ≤ countb f l.
Proof. unfold countb. lia. Qed.
Lemma countb_le_length {A} (f : A → bool) l : countb f l ≤ Z.of_nat (length l).
Proof. unfold countb. pose proof (List.filter_length_le f l). lia. Qed.
Lemma countb_ext {A} (f g : A → bool) l :
  (∀ x, x ∈ l → f x = g x) → countb f l = countb g l.
Proof.
  induction l as [|x l IH]; intros H; [done|].
  rewrite !countb_cons, IH, (H x); set_solver.
Qed.
Lemma countb_mono {A} (f g : A → bool) l :
  (∀ x, x ∈ l → f x = true → g x = true) → countb f l ≤ countb g l.
Proof.
  induction l as [|x l IH]; intros H; [done|]. rewrite !countb_cons.
  assert (Hx := H x ltac:(set_solver)).
  specialize (IH ltac:(set_solver)). destruct (f x), (g x); simpl; naive_solver lia.
Qed.
(** Replacing one element changes the count by the difference of the two indicators. *)
Lemma countb_insert {A} (f : A → bool) l i x y :
  l !! i = Some x →
  countb f (<[i:=y]> l) = countb f l - Z.b2z (f x) + Z.b2z (f y).
Proof.
  revert i. induction l as [|a l IH]; intros [|i] H; simplify_eq/=.
  - rewrite !countb_cons. lia.
  - rewrite !countb_cons, IH by done. lia.
Qed.
Lemma countb_pos {A} (f : A → bool) l x : x ∈ l → f x = true → 0 < countb f l.
Proof.
  induction 1 as [y l|y z l H IH]; intros Hf; rewrite countb_cons.
  - rewrite Hf. pose proof (countb_nonneg f l). simpl. lia.
  - specialize (IH Hf). destruct (f z); simpl; lia.
Qed.
Lemma countb_zero {A} (f : A → bool) l : countb f l = 0 ↔ ∀ x, x ∈ l → f x = false.
Proof.
  split.
  - intros H x Hx. destruct (f x) eqn:E; [|done].
    pose proof (countb_pos f l x Hx E). lia.
  - intros H. erewrite (countb_ext _ (λ _, false)) by done.
    clear H. induction l as [|y l IH]; [done|]. rewrite countb_cons, IH. done.
Qed.
Lemma countb_filter_nil {A} (f : A → bool) l : countb f l = 0 ↔ List.filter f l = [].
Proof. unfold countb. destruct (List.filter f l); simpl; split; intros; [done|done|lia|done]. Qed.
Lemma countb_split {A} (f g : A → bool) l :
  countb f l = countb (λ x, f x && g x) l + countb (λ x, f x && negb (g x)) l.
Proof.
  induction l as [|x l IH]; [done|]. rewrite !countb_cons, IH.
  destruct (f x), (g x); simpl; lia.
Qed.

(** ** Sums *)

Lemma sum_list_with_le {A} (f h : A → nat) l : (∀ x, x ∈ l → f x ≤ h x)%nat →
  (sum_list_with f l ≤ sum_list_with h l)%nat.
Proof.
  induction l as [|x l IH]; intros H; simpl; [lia|].
  pose proof (H x ltac:(set_solver)). specialize (IH ltac:(set_solver)). lia.
Qed.
Lemma sum_list_with_lt {A} (f h : A → nat) l y : (∀ x, x ∈ l → f x ≤ h x)%nat →
  y ∈ l → (f y < h y)%nat → (sum_list_with f l < sum_list_with h l)%nat.
Proof.
  intros H [i Hi]%list_elem_of_lookup Hy. revert i Hi.
  induction l as [|x l IH]; intros [|i] Hi; simplify_eq/=.
  - pose proof (sum_list_with_le f h l ltac:(set_solver)). lia.
  - pose proof (H x ltac:(set_solver)). specialize (IH ltac:(set_solver) i Hi). lia.
Qed.

(** ** Sorting

    slices.Sort / slices.SortFunc; the order of equal elements is not observable where the code
    sorts (strings, and records with distinct keys). *)
Fixpoint insert_by {A} (leb : A → A → bool) (x : A) (l : list A) : list A :=
  match l with
  | [] => [x]
  | y :: l => if leb x y then x :: y :: l else y :: insert_by leb x l
  end.
Definition sort_by {A} (leb : A → A → bool) (l : list A) : list A := foldr (insert_by leb) [] l.

Lemma insert_by_perm {A} (leb : A → A → bool) x l : insert_by leb x l ≡ₚ x :: l.
Proof.
  induction l as [|y l IH]; simpl; [done|]. destruct (leb x y); [done|].
  rewrite IH. apply Permutation_swap.
Qed.
Lemma sort_by_perm {A} (leb : A → A → bool) l : sort_by leb l ≡ₚ l.
Proof. induction l as [|x l IH]; simpl; [done|]. by rewrite insert_by_perm, IH. Qed.

Section sorting.
Context {A : Type} (leb : A → A → bool).
Hypothesis leb_total : ∀ x y, leb x y = true ∨ leb y x = true.
Local Definition le (x y : A) : Prop := leb x y = true.

Lemma insert_by_sorted x l : Sorted le l → Sorted le (insert_by leb x l).
Proof using leb_total.
  induction l as [|y l IH]; intros H; simpl; [by repeat constructor|].
  destruct (leb x y) eqn:E; [by constructor; [|constructor]|]. inversion H as [|? ? Hl Hd]; subst.
  constructor; [by apply IH|]. destruct l as [|z l]; simpl.
  - constructor. by destruct (leb_total x y); [congruence|].
  - destruct (leb x z); constructor; [by destruct (leb_total x y); [congruence|]|by inversion Hd].
Qed.
Lemma sort_by_sorted l : Sorted le (sort_by leb l).
Proof using leb_total. induction l as [|x l IH]; [constructor|]. by apply insert_by_sorted. Qed.
End sorting.

Lemma string_leb_total a b : string_leb a b = true ∨ string_leb b a = true.
Proof.
  unfold string_leb. rewrite (String.compare_antisym a b). destruct (String.compare b a); simpl; auto.
Qed.

(** ** Keys with a total order given by a comparison function *)
Class KeyOrder {K : Type} (cmp : K → K → comparison) : Prop := {
  cmp_eq a b : cmp a b = Eq ↔ a = b;
  cmp_flip a b : cmp a b = CompOpp (cmp b a);
  cmp_lt_trans a b c : cmp a b = Lt → cmp b c = Lt → cmp a c = Lt;
}.
#[export] Instance string_key_order : KeyOrder String.compare.
Proof.
  split.
  - intros a b. split; [apply String.compare_eq_iff|intros ->].
    pose proof (String.compare_antisym b b). by destruct (String.compare b b).
  - apply String.compare_antisym.
  - intros a b c. rewrite !(String_as_OT.cmp_lt _ _ : String.compare _ _ = Lt ↔ _). apply String_as_OT.lt_trans.
Qed.
Definition cmp_leb {K} (cmp : K → K → comparison) (a b : K) : bool := match cmp a b with Gt => false | _ => true end.

Section keys.
Context {K : Type} (cmp : K → K → comparison) {O : KeyOrder cmp}.
Context {A : Type} (key : A → K).
Definition below (x y : A) : Prop := cmp (key x) (key y) = Lt.

Lemma cmp_refl a : cmp a a = Eq.
Proof using O. by apply cmp_eq. Qed.
Lemma cmp_leb_total a b : cmp_leb cmp a b = true ∨ cmp_leb cmp b a = true.
Proof using O. unfold cmp_leb. rewrite (cmp_flip a b). destruct (cmp b a); simpl; auto. Qed.
Lemma below_strict x y z : below x y → cmp_leb cmp (key y) (key z) = true → below x z.
Proof using O.
  unfold below, cmp_leb. intros Hxy Hyz. destruct (cmp (key y) (key z)) eqn:E; [|by eapply cmp_lt_trans|done].
  apply cmp_eq in E. by rewrite <-E.
Qed.
(** Sorting by distinct keys gives a strictly increasing list. *)
Lemma sort_by_strict l : NoDup (map key l) → StronglySorted below (sort_by (λ x y, cmp_leb cmp (key x) (key y)) l).
Proof using O.
  intros Hd. set (s := sort_by _ l). assert (HP : s ≡ₚ l) by apply sort_by_perm.
  assert (HS : Sorted (λ x y, cmp_leb cmp (key x) (key y) = true) s) by (apply sort_by_sorted; intros; apply cmp_leb_total).
  assert (Hn : NoDup (map key s)) by (by rewrite HP). clear HP Hd. clearbody s.
  apply Sorted_StronglySorted; [intros x y z; apply cmp_lt_trans|].
  induction HS as [|x s HS IH Hx]; [constructor|]. apply NoDup_cons in Hn as [Hx' Hn]. constructor; [by apply IH|].
  destruct Hx as [|y s Hxy]; constructor. unfold below, cmp_leb in *. destruct (cmp (key x) (key y)) eqn:E; try done.
  apply cmp_eq in E. simpl in Hx'. set_solver.
Qed.
End keys.

