(* ===== verification/Flow.v ===== *)
(** * lib/go/common/reconciliation/flow: outcomes of reconciliation phases

    Source: lib/go/common/reconciliation/flow/flow.go.  An [error] is the tree Go's wrapping builds:
    a leaf (classified by apierrors.IsConflict), fmt.Errorf's [%w], or errors.Join.  Phase logging
    has no effect on the outcome except [errorLogged]. *)

From Stdlib Require Import ZArith Lia String.
From stdpp Require Import base list numbers strings option relations.
From S2P Require Import Prelude.

Module flow.

Inductive error :=
| Leaf (msg : string) (conflict : bool)
| Wrapped (prefix : string) (e : error)
| Joined (es : list error).

(** errors.Join on the non-nil errors. *)
Definition errors_Join (es : list error) : option error :=
  match es with [] => None | _ => Some (Joined es) end.
(** err.Error(); errors.Join separates by newlines. *)
Definition newline : string := String (Ascii.ascii_of_nat 10) "".
Fixpoint errorString (e : error) : string :=
  match e with
  | Leaf msg _ => msg
  | Wrapped prefix e => prefix +:+ ": " +:+ errorString e
  | Joined es => join newline (map errorString es)
  end.
Definition Wrapf (e : option error) (msg : string) : option error := Wrapped msg <$> e.

Fixpoint isTransient (e : error) : bool :=
  match e with
  | Leaf _ conflict => conflict
  | Wrapped _ e => isTransient e
  | Joined es => match es with [] => false | _ => forallb isTransient es end
  end.
Definition isExpectedTransientError (e : option error) : bool :=
  match e with Some e => isTransient e | None => false end.

(** ctrl.Result; durations are nanoseconds. *)
Record Result := { Requeue : bool; RequeueAfter : Z }.
Record ReconcileOutcome := {
  terminal : bool; requeueIntent : option Result; err : option error; errorLogged : bool; changed : bool;
}.
Definition zeroOutcome : ReconcileOutcome :=
  {| terminal := false; requeueIntent := None; err := None; errorLogged := false; changed := false |}.
Definition mkOutcome (t : bool) (r : option Result) (e : option error) : ReconcileOutcome :=
  {| terminal := t; requeueIntent := r; err := e; errorLogged := false; changed := false |}.

Definition Continue : ReconcileOutcome := mkOutcome false None None.
Definition Done : ReconcileOutcome := mkOutcome true None None.
Definition DoneAndRequeue : ReconcileOutcome :=
  mkOutcome true (Some {| Requeue := true; RequeueAfter := 0 |}) None.
Definition DoneAndRequeueAfter (d : Z) : outcome ReconcileOutcome :=
  if d <=? 0 then Panic "flow: DoneAndRequeueAfter: duration must be > 0"
  else Ok (mkOutcome true (Some {| Requeue := false; RequeueAfter := d |}) None).
Definition ContinueAndRequeue : ReconcileOutcome :=
  mkOutcome false (Some {| Requeue := true; RequeueAfter := 0 |}) None.
Definition ContinueAndRequeueAfter (d : Z) : outcome ReconcileOutcome :=
  if d <=? 0 then Panic "flow: ContinueAndRequeueAfter: duration must be > 0"
  else Ok (mkOutcome false (Some {| Requeue := false; RequeueAfter := d |}) None).
(** What [Fail] returns for an error that is not nil. *)
Definition failed (e : error) : ReconcileOutcome := mkOutcome true None (Some e).
Definition Fail_ (e : option error) : outcome ReconcileOutcome :=
  match e with Some e => Ok (failed e) | None => Panic "flow: Fail: nil error" end.
Definition Failf (e : option error) (msg : string) : outcome ReconcileOutcome := Fail_ (Wrapf e msg).
Definition DoneOrFail (e : option error) : ReconcileOutcome :=
  match e with Some e => failed e | None => Done end.

Definition ShouldReturn (o : ReconcileOutcome) : bool := terminal o.
Definition Enrichf (o : ReconcileOutcome) (msg : string) : ReconcileOutcome :=
  {| terminal := terminal o; requeueIntent := requeueIntent o; err := Wrapf (err o) msg;
     errorLogged := errorLogged o; changed := changed o |}.
Definition ReportChangedIf (o : ReconcileOutcome) (cond : bool) : ReconcileOutcome :=
  {| terminal := terminal o; requeueIntent := requeueIntent o; err := err o;
     errorLogged := errorLogged o; changed := changed o || cond |}.
(** The deferred phase end handler: an error is logged once. *)
Definition OnEnd (o : ReconcileOutcome) : ReconcileOutcome :=
  {| terminal := terminal o; requeueIntent := requeueIntent o; err := err o;
     errorLogged := match err o with Some _ => true | None => errorLogged o end; changed := changed o |}.

Definition requeueDelay (r : option Result) : Z :=
  match r with
  | None => -1
  | Some r => if Requeue r then 0 else if 0 <? RequeueAfter r then RequeueAfter r else -1
  end.
Definition delayToRequeueIntent (d : Z) : option Result :=
  if d <? 0 then None
  else if d =? 0 then Some {| Requeue := true; RequeueAfter := 0 |}
  else Some {| Requeue := false; RequeueAfter := d |}.

(** The loop of MergeReconciles. *)
Record mergeState := {
  ms_errs : list error; ms_allLogged : bool; ms_changed : bool; ms_terminal : bool;
  ms_terminalDelay : Z; ms_nonTerminalDelay : Z;
}.
Definition minDelay (acc delay : Z) : Z :=
  if (0 <=? delay) && ((acc <? 0) || (delay <? acc)) then delay else acc.
Definition mergeStep (s : mergeState) (o : ReconcileOutcome) : mergeState :=
  let delay := requeueDelay (requeueIntent o) in {|
  ms_errs := match err o with Some e => ms_errs s ++ [e] | None => ms_errs s end;
  ms_allLogged := match err o with Some _ => ms_allLogged s && errorLogged o | None => ms_allLogged s end;
  ms_changed := ms_changed s || changed o;
  ms_terminal := ms_terminal s || terminal o;
  ms_terminalDelay := if terminal o then minDelay (ms_terminalDelay s) delay else ms_terminalDelay s;
  ms_nonTerminalDelay := if terminal o then ms_nonTerminalDelay s else minDelay (ms_nonTerminalDelay s) delay |}.
Definition mergeInit : mergeState :=
  {| ms_errs := []; ms_allLogged := true; ms_changed := false; ms_terminal := false;
     ms_terminalDelay := -1; ms_nonTerminalDelay := -1 |}.
Definition mergeResult (s : mergeState) : ReconcileOutcome :=
  match errors_Join (ms_errs s) with
  | Some e => {| terminal := true; requeueIntent := None; err := Some e; errorLogged := ms_allLogged s;
                 changed := ms_changed s |}
  | None =>
      if ms_terminal s
      then {| terminal := true; requeueIntent := delayToRequeueIntent (ms_terminalDelay s); err := None;
              errorLogged := false; changed := ms_changed s |}
      else {| terminal := false; requeueIntent := delayToRequeueIntent (ms_nonTerminalDelay s); err := None;
              errorLogged := false; changed := ms_changed s |}
  end.
Definition MergeReconciles (outcomes : list ReconcileOutcome) : ReconcileOutcome :=
  match outcomes with
  | [] => zeroOutcome
  | _ => mergeResult (foldl mergeStep mergeInit outcomes)
  end.
Definition Merge (o : ReconcileOutcome) (others : list ReconcileOutcome) : ReconcileOutcome :=
  MergeReconciles (o :: others).

Definition ToCtrl (o : ReconcileOutcome) : Result * option error :=
  if isExpectedTransientError (err o) then ({| Requeue := true; RequeueAfter := 0 |}, None)
  else match requeueIntent o with
       | Some r => (r, err o)
       | None => ({| Requeue := false; RequeueAfter := 0 |}, err o)
       end.
Definition MustToCtrl (o : ReconcileOutcome) : outcome (Result * option error) :=
  if negb (terminal o) && bool_decide (requeueIntent o = None)
  then Panic "flow: ReconcileOutcome.MustToCtrl: called on Continue (non-terminal without requeue)"
  else Ok (ToCtrl o).
Definition reconcileOutcomeKind (o : ReconcileOutcome) : string * Z :=
  match err o with
  | Some e => if isTransient e then ("Conflict", 0) else ("Fail", 0)
  | None =>
      let prefix := if terminal o then "Done" else "Continue" in
      let delay := requeueDelay (requeueIntent o) in
      if delay <? 0 then (prefix, 0)
      else if delay =? 0 then (prefix +:+ "AndRequeue", 0)
      else (prefix +:+ "AndRequeueAfter", delay)
  end.

(** ** EnsureOutcome *)
Record EnsureOutcome := { eo_err : option error; eo_changed : bool }.
Definition eo_Enrichf (o : EnsureOutcome) (msg : string) : EnsureOutcome :=
  {| eo_err := Wrapf (eo_err o) msg; eo_changed := eo_changed o |}.
Definition eo_ReportChangedIf (o : EnsureOutcome) (cond : bool) : EnsureOutcome :=
  {| eo_err := eo_err o; eo_changed := eo_changed o || cond |}.
Definition MergeEnsures (outcomes : list EnsureOutcome) : EnsureOutcome :=
  {| eo_err := errors_Join (omap eo_err outcomes); eo_changed := existsb eo_changed outcomes |}.
Definition WithChangeFrom (o : ReconcileOutcome) (eo : EnsureOutcome) : ReconcileOutcome :=
  ReportChangedIf o (eo_changed eo).
Definition MergeSteps (errs : list (option error)) : option error := errors_Join (omap id errs).
End flow.
Import flow.

(** ** Merging in stages *)

(** The leaves of an error, left to right. *)
Fixpoint leaves (e : error) : list (string * bool) :=
  match e with
  | Leaf msg conflict => [(msg, conflict)]
  | Wrapped _ e => leaves e
  | Joined es => concat (map leaves es)
  end.
Definition leavesOf (e : option error) : list (string * bool) := from_option leaves [] e.
(** No error is an empty join. *)
Fixpoint proper (e : error) : bool :=
  match e with
  | Leaf _ _ => true
  | Wrapped _ e => proper e
  | Joined es => match es with [] => false | _ => forallb proper es end
  end.
Definition proper_o (o : ReconcileOutcome) : Prop :=
  match err o with Some e => proper e = true | None => True end.

Section error_ind.
Variable P : error → Prop.
Hypothesis HL : ∀ m c, P (Leaf m c).
Hypothesis HW : ∀ p e, P e → P (Wrapped p e).
Hypothesis HJ : ∀ es, Forall P es → P (Joined es).
Fixpoint error_ind' (e : error) : P e :=
  match e with
  | Leaf m c => HL m c
  | Wrapped p e => HW p e (error_ind' e)
  | Joined es => HJ es ((fix go l : Forall P l :=
      match l with [] => Forall_nil_2 P | e :: l => Forall_cons_2 P e l (error_ind' e) (go l) end) es)
  end.
End error_ind.

(** Whether an error is transient depends on its leaves only. *)
Lemma transient_leaves e : proper e = true →
  isTransient e = forallb snd (leaves e) ∧ leaves e ≠ [].
Proof.
  induction e as [m c|p e IH|es IH] using error_ind'; simpl; [by rewrite andb_true_r|done|].
  intros H. destruct es as [|e0 es]; [done|].
  assert (HF : Forall (λ e, isTransient e = forallb snd (leaves e) ∧ leaves e ≠ []) (e0 :: es)).
  { change (forallb proper (e0 :: es) = true) in H. rewrite forallb_forall in H. apply Forall_forall. intros x Hx. rewrite Forall_forall in IH.
    apply IH; [done|]. by apply H, list_elem_of_In. }
  split.
  - clear H IH. induction HF as [|e l [He _] _ IHl]; [done|]. cbn [forallb map concat]. by rewrite forallb_app, He, IHl.
  - apply Forall_cons in HF as [[_ H0] _]. simpl. intros [E _]%app_eq_nil. done.
Qed.

Lemma minDelay_assoc a b c : minDelay (minDelay a b) c = minDelay a (minDelay b c).
Proof.
  unfold minDelay. destruct (Z.leb_spec 0 b), (Z.leb_spec 0 c), (Z.ltb_spec a 0), (Z.ltb_spec b a), (Z.ltb_spec b 0),
    (Z.ltb_spec c b); simpl; try lia;
    repeat match goal with
    | |- context [?x <=? ?y] => destruct (Z.leb_spec x y); simpl
    | |- context [?x <? ?y] => destruct (Z.ltb_spec x y); simpl
    end; lia.
Qed.
Lemma minDelay_none a : minDelay a (-1) = a.
Proof. done. Qed.
Lemma none_minDelay d : -1 ≤ d → minDelay (-1) d = d.
Proof. intros H. unfold minDelay. simpl. destruct (Z.leb_spec 0 d); simpl; lia. Qed.
Lemma minDelay_ge a d : -1 ≤ a → -1 ≤ minDelay a d.
Proof. intros H. unfold minDelay. destruct (Z.leb_spec 0 d), (Z.ltb_spec a 0), (Z.ltb_spec d a); simpl; lia. Qed.

(** The state of a loop that ran on both parts. *)
Definition combine_ms (s u : mergeState) : mergeState :=
  {| ms_errs := ms_errs s ++ ms_errs u; ms_allLogged := ms_allLogged s && ms_allLogged u;
     ms_changed := ms_changed s || ms_changed u; ms_terminal := ms_terminal s || ms_terminal u;
     ms_terminalDelay := minDelay (ms_terminalDelay s) (ms_terminalDelay u);
     ms_nonTerminalDelay := minDelay (ms_nonTerminalDelay s) (ms_nonTerminalDelay u) |}.
Lemma mergeStep_combine s u o : mergeStep (combine_ms s u) o = combine_ms s (mergeStep u o).
Proof.
  unfold mergeStep, combine_ms. simpl. destruct (err o), (terminal o); simpl;
    by rewrite ?app_assoc, ?andb_assoc, ?orb_assoc, ?minDelay_assoc.
Qed.
Lemma fold_combine s u ys : foldl mergeStep (combine_ms s u) ys = combine_ms s (foldl mergeStep u ys).
Proof. revert u. induction ys as [|y ys IH]; intros u; simpl; [done|]. by rewrite mergeStep_combine, IH. Qed.
Lemma combine_init s : combine_ms s mergeInit = s.
Proof. unfold combine_ms. destruct s. simpl. by rewrite app_nil_r, andb_true_r, !orb_false_r, !minDelay_none. Qed.
Definition run_ms (xs : list ReconcileOutcome) : mergeState := foldl mergeStep mergeInit xs.
Lemma run_app xs ys : run_ms (xs ++ ys) = combine_ms (run_ms xs) (run_ms ys).
Proof. unfold run_ms. rewrite foldl_app. by rewrite <-(combine_init (foldl _ _ xs)) at 1; rewrite fold_combine. Qed.
Lemma run_delays xs : -1 ≤ ms_terminalDelay (run_ms xs) ∧ -1 ≤ ms_nonTerminalDelay (run_ms xs).
Proof.
  unfold run_ms. rewrite <-(rev_involutive xs). induction (rev xs) as [|x l IH]; [done|]. simpl. rewrite foldl_app. simpl.
  destruct (terminal x); split; try apply IH; apply minDelay_ge, IH.
Qed.
Lemma merge_run xs : MergeReconciles xs = mergeResult (run_ms xs).
Proof. by destruct xs. Qed.
Lemma run_logged xs : ms_errs (run_ms xs) = [] → ms_allLogged (run_ms xs) = true.
Proof.
  unfold run_ms. rewrite <-(rev_involutive xs). induction (rev xs) as [|x l IH]; [done|]. simpl. rewrite foldl_app. simpl.
  destruct (err x); [|done]. by intros [_ ?]%app_eq_nil.
Qed.
Lemma run_terminal xs : ms_terminal (run_ms xs) = false → ms_terminalDelay (run_ms xs) = -1.
Proof.
  unfold run_ms. rewrite <-(rev_involutive xs). induction (rev xs) as [|x l IH]; [done|]. simpl. rewrite foldl_app. simpl.
  intros [H ->]%orb_false_iff. by apply IH.
Qed.
(** Keeping only the result of a part. *)
Definition collapse (s : mergeState) : mergeState := run_ms [mergeResult s].
Lemma requeueDelay_intent d : -1 ≤ d → requeueDelay (delayToRequeueIntent d) = d.
Proof.
  intros H. unfold delayToRequeueIntent. destruct (Z.ltb_spec d 0); simpl; [lia|]. destruct (Z.eqb_spec d 0); simpl; [lia|].
  destruct (Z.ltb_spec 0 d); lia.
Qed.
Lemma collapse_err s e es : ms_errs s = e :: es → collapse s =
  {| ms_errs := [Joined (e :: es)]; ms_allLogged := ms_allLogged s; ms_changed := ms_changed s; ms_terminal := true;
     ms_terminalDelay := -1; ms_nonTerminalDelay := -1 |}.
Proof. intros E. unfold collapse, run_ms, mergeResult. rewrite E. done. Qed.
Lemma collapse_ok s : ms_errs s = [] → ms_allLogged s = true → -1 ≤ ms_terminalDelay s → -1 ≤ ms_nonTerminalDelay s →
  collapse s = {| ms_errs := []; ms_allLogged := true; ms_changed := ms_changed s; ms_terminal := ms_terminal s;
     ms_terminalDelay := if ms_terminal s then ms_terminalDelay s else -1;
     ms_nonTerminalDelay := if ms_terminal s then -1 else ms_nonTerminalDelay s |}.
Proof.
  intros E L Ht Hn. unfold collapse, run_ms, mergeResult. rewrite E. simpl. unfold mergeStep.
  destruct (ms_terminal s); simpl; by rewrite requeueDelay_intent, none_minDelay.
Qed.

(** Outcomes that agree on everything but the nesting of errors. *)
Record same_outcome (o u : ReconcileOutcome) : Prop := {
  so_terminal : terminal o = terminal u; so_requeue : requeueIntent o = requeueIntent u;
  so_changed : changed o = changed u; so_logged : errorLogged o = errorLogged u;
  so_fails : err o = None ↔ err u = None; so_leaves : leavesOf (err o) = leavesOf (err u);
}.
Lemma merge_collapse xs ys : let s := run_ms xs in let u := run_ms ys in
  same_outcome (mergeResult (combine_ms s u)) (mergeResult (combine_ms (collapse s) (collapse u))).
Proof.
  intros s u. destruct (run_delays xs) as [S1 S2]. destruct (run_delays ys) as [U1 U2].
  pose proof (run_logged xs) as SL. pose proof (run_logged ys) as UL. fold s in S1, S2, SL. fold u in U1, U2, UL.
  pose proof (run_terminal xs) as ST. pose proof (run_terminal ys) as UT. fold s in ST. fold u in UT.
  destruct (ms_errs s) as [|e es] eqn:Es, (ms_errs u) as [|f fs] eqn:Eu.
  - rewrite (collapse_ok s), (collapse_ok u) by auto. unfold mergeResult, combine_ms. simpl. rewrite Es, Eu. simpl.
    destruct (ms_terminal s), (ms_terminal u); simpl; split; simpl; try done; rewrite ?ST, ?UT by done; rewrite ?none_minDelay by lia; done.
  - rewrite (collapse_ok s), (collapse_err u f fs) by auto. unfold mergeResult, combine_ms. simpl. rewrite Es, Eu, SL by done.
    simpl. split; simpl; try done. by rewrite app_nil_r.
  - rewrite (collapse_err s e es), (collapse_ok u) by auto. unfold mergeResult, combine_ms. simpl. rewrite Es, Eu, UL by done.
    simpl. split; simpl; try done. by rewrite !app_nil_r.
  - rewrite (collapse_err s e es), (collapse_err u f fs) by auto. unfold mergeResult, combine_ms. simpl. rewrite Es, Eu.
    simpl. split; simpl; try done. by rewrite map_app, concat_app, !app_nil_r, app_assoc.
Qed.

(** Merging keeps errors proper. *)
Lemma run_proper xs : Forall proper_o xs → forallb proper (ms_errs (run_ms xs)) = true.
Proof.
  unfold run_ms. rewrite <-(rev_involutive xs). induction (rev xs) as [|x l IH]; [done|]. simpl.
  intros [Hl [Hx _]%Forall_cons]%Forall_app. rewrite foldl_app. simpl. unfold proper_o in Hx. destruct (err x) in Hx |- *; [|by apply IH].
  rewrite forallb_app, IH by done. simpl. by rewrite Hx.
Qed.
Lemma merge_proper xs : Forall proper_o xs → proper_o (MergeReconciles xs).
Proof.
  intros H%run_proper. rewrite merge_run. unfold mergeResult, proper_o.
  destruct (ms_errs (run_ms xs)); simpl; [by destruct (ms_terminal _)|done].
Qed.
Lemma same_transient o u : same_outcome o u → proper_o o → proper_o u →
  isExpectedTransientError (err o) = isExpectedTransientError (err u).
Proof.
  intros [_ _ _ _ Hf Hl] Ho Hu. unfold proper_o in *. destruct (err o) as [e|], (err u) as [f|]; simpl in *;
    [|by specialize (proj2 Hf eq_refl)|by specialize (proj1 Hf eq_refl)|done].
  by rewrite (proj1 (transient_leaves e Ho)), (proj1 (transient_leaves f Hu)), Hl.
Qed.

(** Outcomes can be merged in stages.  Merging two groups of outcomes and then the two results
    gives the outcome of merging all at once, up to the nesting of joined errors, and the result
    handed to controller-runtime is the same: the same requeue, and an error in the same cases (in
    particular a conflict is retried silently in the same cases). *)
Theorem merge_in_stages (xs ys : list ReconcileOutcome) :
  Forall proper_o xs → Forall proper_o ys →
  let whole := MergeReconciles (xs ++ ys) in
  let staged := Merge (MergeReconciles xs) [MergeReconciles ys] in
  same_outcome whole staged ∧ (ToCtrl whole).1 = (ToCtrl staged).1 ∧
  ((ToCtrl whole).2 = None ↔ (ToCtrl staged).2 = None).
Proof.
  intros Hx Hy whole staged.
  assert (HS : same_outcome whole staged).
  { unfold whole, staged, Merge. rewrite (merge_run (xs ++ ys)), run_app, (merge_run [_; _]).
    change [MergeReconciles xs; MergeReconciles ys] with ([MergeReconciles xs] ++ [MergeReconciles ys]).
    rewrite run_app, !merge_run. apply merge_collapse. }
  assert (HT : isExpectedTransientError (err whole) = isExpectedTransientError (err staged)).
  { apply same_transient; [done|apply merge_proper; by apply Forall_app|].
    apply merge_proper. repeat constructor; by apply merge_proper. }
  split; [done|]. destruct HS as [_ Hr _ _ Hf _]. unfold ToCtrl. rewrite HT, Hr.
  clear HT Hr. destruct (isExpectedTransientError (err staged)); [by split|]. by destruct (requeueIntent staged); split.
Qed.
Lemma merge_in_stages_witness :
  let conflict := failed (Leaf "the object has been modified" true) in
  (ToCtrl (Merge (MergeReconciles [ContinueAndRequeue; conflict]) [MergeReconciles [conflict; Continue]])).1 =
  {| Requeue := true; RequeueAfter := 0 |}.
Proof.
  intros conflict. refine (eq_trans (eq_sym (proj1 (proj2 (merge_in_stages [ContinueAndRequeue; conflict] [conflict; Continue] _ _)))) _);
    [by repeat constructor|by repeat constructor|vm_compute; reflexivity].
Defined.
