(* ===== verification/IdSet.v ===== *)
(** * internal/idset: the 32-bit replica-ID set

    [IDSet] is Go's [type IDSet uint32]; every operation is the bit expression of idset.go on a
    [Z] kept below 2^32.  The file first models the package, then gives the reference view the
    other components use: a set is determined by [Contains] on 0..31, the iterator [All] is the
    ascending list of members, and [Len] is its length. *)

From Stdlib Require Import ZArith Lia Sorted.
From stdpp Require Import base sets list numbers strings.
From S2P Require Import Prelude.

(** ** Go's math/bits, on uint32 *)
Module bits.

Definition ids : list Z := Z.of_nat <$> seq 0 32.

(** bits.OnesCount32. *)
Definition OnesCount32 (x : Z) : Z := countb (Z.testbit x) ids.

(** bits.TrailingZeros32: 32 for zero. *)
Definition TrailingZeros32 (x : Z) : Z :=
  match List.filter (Z.testbit x) ids with i :: _ => i | [] => 32 end.

(** bits.LeadingZeros32: 32 for zero. *)
Definition LeadingZeros32 (x : Z) : Z :=
  match last (List.filter (Z.testbit x) ids) with Some i => 31 - i | None => 32 end.

End bits.

Module idset.

(** idStr: the lookup table of ID representations. *)
Definition idStr : list string :=
  ["0"; "1"; "2"; "3"; "4"; "5"; "6"; "7"; "8"; "9";
   "10"; "11"; "12"; "13"; "14"; "15"; "16"; "17"; "18"; "19";
   "20"; "21"; "22"; "23"; "24"; "25"; "26"; "27"; "28"; "29";
   "30"; "31"].

Definition IDSet : Type := Z.

(** The constant [All IDSet = 0xFFFF_FFFF]. *)
Definition AllIDs : IDSet := 4294967295.

(** [1 << id] on uint32: zero once the shift count reaches the width. *)
Definition bit (id : Z) : IDSet := wrap32 (Z.shiftl 1 id).

Definition Add (s : IDSet) (id : Z) : IDSet := Z.lor s (bit id).
Definition Remove (s : IDSet) (id : Z) : IDSet := Z.ldiff s (bit id).
Definition Contains (s : IDSet) (id : Z) : bool := negb (Z.land s (bit id) =? 0).
Definition IsEmpty (s : IDSet) : bool := s =? 0.
Definition Len (s : IDSet) : Z := bits.OnesCount32 s.

(** [Of]: s |= 1 << id for each argument. *)
Definition Of (ids : list Z) : IDSet := foldl (λ s id, Z.lor s (bit id)) 0 ids.

Definition Min (s : IDSet) : Z := wrap8 (bits.TrailingZeros32 s).
Definition Max (s : IDSet) : Z := wrap8 (31 - bits.LeadingZeros32 s).

(** [MinMissing]: inverted set, smallest bit; (0, false) when full. *)
Definition MinMissing (s : IDSet) : Z * bool :=
  let inv := Z.lxor s AllIDs in
  if inv =? 0 then (0, false) else (wrap8 (bits.TrailingZeros32 inv), true).

(** [All]: the iterator, as the list of yielded IDs.  The Go loop runs while x != 0 and clears
    the lowest set bit each time: 32 iterations always suffice. *)
Fixpoint All_loop (fuel : nat) (x : IDSet) : list Z :=
  match fuel with
  | O => []
  | S fuel =>
      if x =? 0 then [] else
      let i := bits.TrailingZeros32 x in
      i :: All_loop fuel (Z.ldiff x (bit i))
  end.
Definition All (s : IDSet) : list Z := All_loop 32 s.

Definition AppendTo (s : IDSet) (dst : list Z) : list Z := dst ++ All s.

(** [AppendString]: the loop with its [first] flag; idStr[i] is in range for i < 32. *)
Fixpoint AppendString_loop (fuel : nat) (x : IDSet) (first : bool) (buf : string) : string :=
  match fuel with
  | O => buf
  | S fuel =>
      if x =? 0 then buf else
      let buf := if first then buf else buf +:+ ", " in
      let i := bits.TrailingZeros32 x in
      let buf := (buf +:+ "#") +:+ default "" (idStr !! Z.to_nat i) in
      AppendString_loop fuel (Z.ldiff x (bit i)) false buf
  end.
Definition AppendString (s : IDSet) (buf : string) : string := AppendString_loop 32 s true buf.
Definition String (s : IDSet) : string := if s =? 0 then "" else AppendString s "".

(** Set algebra. *)
Definition Union (s t : IDSet) : IDSet := Z.lor s t.
Definition Intersect (s t : IDSet) : IDSet := Z.land s t.
Definition Difference (s t : IDSet) : IDSet := Z.ldiff s t.
Definition SymDiff (s t : IDSet) : IDSet := Z.lxor s t.
Definition IsSubsetOf (s t : IDSet) : bool := Z.ldiff s t =? 0.
Definition Equals (s t : IDSet) : bool := s =? t.
Definition Overlaps (s t : IDSet) : bool := negb (Z.land s t =? 0).
Definition IsDisjointWith (s t : IDSet) : bool := Z.land s t =? 0.

(** Helpers for collections: [FromAll], [FromWhere], [FromFunc] over a slice. *)
Definition FromAll {T} (ID : T → Z) (items : list T) : IDSet :=
  foldl (λ s x, Add s (ID x)) 0 items.
Definition FromWhere {T} (ID : T → Z) (items : list T) (pred : T → bool) : IDSet :=
  foldl (λ s x, if pred x then Add s (ID x) else s) 0 items.
Definition FromFunc {T} (items : list T) (fn : T → Z * bool) : IDSet :=
  foldl (λ s x, let '(id, ok) := fn x in if ok then Add s id else s) 0 items.

End idset.
Import idset.

(** ** The reference view *)

(** A replica ID is one of 0..31; a well-formed set fits in 32 bits. *)
Definition valid_id (id : Z) : Prop := 0 ≤ id < 32.
Definition wf_set (s : IDSet) : Prop := 0 ≤ s < 2 ^ 32.

(** The candidate IDs, in iteration order; opaque from here on, so that simplification never
    enumerates the 32 positions. *)
Lemma elem_of_ids i : i ∈ bits.ids ↔ valid_id i.
Proof.
  unfold bits.ids, valid_id. rewrite list_elem_of_fmap. setoid_rewrite elem_of_seq. split.
  - intros (n & -> & ?). lia.
  - intros. exists (Z.to_nat i). lia.
Qed.

Lemma ids_NoDup : NoDup bits.ids.
Proof. apply NoDup_fmap_2; [intros ??; lia|]. apply NoDup_seq. Qed.

Lemma ids_length : length bits.ids = 32%nat.
Proof. done. Qed.
#[global] Opaque bits.ids.

Section theory.

Lemma wf_set_bits s i : wf_set s → 32 ≤ i → Z.testbit s i = false.
Proof.
  intros [??] ?. destruct (decide (s = 0)) as [->|]; [apply Z.testbit_0_l|].
  apply Z.bits_above_log2; [lia|].
  assert (Z.log2 s < 32) by (apply Z.log2_lt_pow2; lia). lia.
Qed.

Lemma wf_set_of_bits s : 0 ≤ s → (∀ i, 32 ≤ i → Z.testbit s i = false) → wf_set s.
Proof.
  intros Hs H. split; [done|]. destruct (decide (s = 0)) as [->|]; [lia|].
  apply Z.log2_lt_pow2; [lia|]. destruct (decide (Z.log2 s < 32)); [done|].
  assert (Z.testbit s (Z.log2 s) = true) as E by (apply Z.bit_log2; lia).
  by rewrite H in E by lia.
Qed.

Lemma bit_testbit id j : 0 ≤ id → Z.testbit (bit id) j = (j =? id) && (id <? 32).
Proof.
  intros Hid. unfold bit, wrap32. rewrite Z.shiftl_1_l.
  destruct (Z.leb_spec 32 id).
  - rewrite (proj2 (Z.ltb_ge id 32)), andb_false_r by lia.
    replace (2 ^ id) with (2 ^ (id - 32) * 2 ^ 32)
      by (rewrite <-Z.pow_add_r by lia; f_equal; lia).
    rewrite Z.mod_mul by lia. apply Z.testbit_0_l.
  - rewrite (proj2 (Z.ltb_lt id 32)), andb_true_r by lia.
    rewrite Z.mod_small by (split; [lia|apply Z.pow_lt_mono_r; lia]).
    rewrite Z.pow2_bits_eqb by lia. apply Z.eqb_sym.
Qed.

Lemma bit_wf id : 0 ≤ id → wf_set (bit id).
Proof. intros. unfold bit, wrap32. apply Z.mod_pos_bound. lia. Qed.

Lemma land_eqb0 s id : valid_id id → (Z.land s (bit id) =? 0) = negb (Z.testbit s id).
Proof.
  intros [Hlo Hhi]. destruct (Z.testbit s id) eqn:E; simpl.
  - apply Z.eqb_neq. intros H.
    assert (Z.testbit (Z.land s (bit id)) id = true) as H'.
    { rewrite Z.land_spec, E, bit_testbit by lia. lia. }
    by rewrite H, Z.testbit_0_l in H'.
  - apply Z.eqb_eq, Z.bits_inj_0. intros j.
    rewrite Z.land_spec, bit_testbit by lia.
    destruct (Z.eqb_spec j id) as [->|]; [by rewrite E|]. by rewrite andb_false_r.
Qed.

Lemma Contains_testbit s id : valid_id id → Contains s id = Z.testbit s id.
Proof. intros. unfold Contains. rewrite land_eqb0 by done. by rewrite negb_involutive. Qed.

(** Extensionality: two well-formed sets with the same members are the same word. *)
Lemma set_ext s t : wf_set s → wf_set t →
  (∀ id, valid_id id → Contains s id = Contains t id) → s = t.
Proof.
  intros Hs Ht H. apply Z.bits_inj. intros i.
  destruct (Z.ltb_spec i 0); [by rewrite !Z.testbit_neg_r|].
  destruct (Z.ltb_spec i 32).
  - rewrite <-!Contains_testbit by done. by apply H.
  - by rewrite !wf_set_bits.
Qed.

Lemma wf_empty : wf_set 0.
Proof. unfold wf_set. lia. Qed.
Lemma wf_Union s t : wf_set s → wf_set t → wf_set (Union s t).
Proof.
  intros Hs Ht. apply wf_set_of_bits; [apply Z.lor_nonneg; unfold wf_set in *; lia|].
  intros. unfold Union. by rewrite Z.lor_spec, !wf_set_bits.
Qed.
Lemma wf_Intersect s t : wf_set s → wf_set t → wf_set (Intersect s t).
Proof.
  intros Hs Ht. apply wf_set_of_bits; [apply Z.land_nonneg; unfold wf_set in *; lia|].
  intros. unfold Intersect. by rewrite Z.land_spec, !wf_set_bits.
Qed.
Lemma wf_Difference s t : wf_set s → wf_set (Difference s t).
Proof.
  intros Hs. apply wf_set_of_bits; [apply Z.ldiff_nonneg; unfold wf_set in *; lia|].
  intros. unfold Difference. by rewrite Z.ldiff_spec, wf_set_bits.
Qed.
Lemma wf_Add s id : wf_set s → 0 ≤ id → wf_set (Add s id).
Proof. intros. apply wf_Union; [done|by apply bit_wf]. Qed.
Lemma wf_Remove s id : wf_set s → wf_set (Remove s id).
Proof. intros. by apply wf_Difference. Qed.

Lemma Contains_empty id : valid_id id → Contains 0 id = false.
Proof. intros. by rewrite Contains_testbit, Z.testbit_0_l. Qed.
Lemma Contains_Add s id j : valid_id j → 0 ≤ id →
  Contains (Add s id) j = Contains s j || (j =? id).
Proof.
  intros Hj Hid. rewrite !Contains_testbit by done. unfold Add.
  rewrite Z.lor_spec, bit_testbit by lia. unfold valid_id in *. f_equal.
  destruct (Z.eqb_spec j id); [|done]. lia.
Qed.
Lemma Contains_Remove s id j : valid_id j → 0 ≤ id →
  Contains (Remove s id) j = Contains s j && negb (j =? id).
Proof.
  intros Hj Hid. rewrite !Contains_testbit by done. unfold Remove.
  rewrite Z.ldiff_spec, bit_testbit by lia. unfold valid_id in *. f_equal.
  destruct (Z.eqb_spec j id); [|done]. lia.
Qed.
Lemma Contains_Union s t j : valid_id j →
  Contains (Union s t) j = Contains s j || Contains t j.
Proof. intros. rewrite !Contains_testbit by done. apply Z.lor_spec. Qed.
Lemma Contains_Intersect s t j : valid_id j →
  Contains (Intersect s t) j = Contains s j && Contains t j.
Proof. intros. rewrite !Contains_testbit by done. apply Z.land_spec. Qed.
Lemma Contains_Difference s t j : valid_id j →
  Contains (Difference s t) j = Contains s j && negb (Contains t j).
Proof. intros. rewrite !Contains_testbit by done. apply Z.ldiff_spec. Qed.

Lemma Of_wf l : Forall (Z.le 0) l → wf_set (Of l).
Proof.
  unfold Of. cut (∀ s, wf_set s → Forall (Z.le 0) l → wf_set (foldl (λ s id, Z.lor s (bit id)) s l)).
  { intros H ?. apply H; [apply wf_empty|done]. }
  induction l as [|x l IH]; intros s Hs Hl; [done|].
  inversion_clear Hl. simpl. apply IH; [|done]. by apply wf_Add.
Qed.
Lemma Contains_Of1 id j : valid_id j → 0 ≤ id → Contains (Of [id]) j = (j =? id).
Proof.
  intros. change (Of [id]) with (Add 0 id). rewrite Contains_Add by done.
  by rewrite Contains_empty.
Qed.

(** *** The iterator *)

Lemma Len_countb s : Len s = countb (Contains s) bits.ids.
Proof.
  unfold Len, bits.OnesCount32. apply countb_ext. intros i Hi%elem_of_ids.
  by rewrite Contains_testbit.
Qed.

Lemma Len_pos s : 0 < Len s ↔ ∃ id, valid_id id ∧ Contains s id = true.
Proof.
  rewrite Len_countb. split.
  - intros H. destruct (decide (countb (Contains s) bits.ids = 0)) as [|Hn]; [lia|].
    rewrite countb_zero in Hn.
    destruct (decide (Exists (λ x, Contains s x = true) bits.ids)) as [He|He].
    + apply Exists_exists in He as (x & Hx%elem_of_ids & ?). eauto.
    + destruct Hn. intros x Hx. rewrite <-Forall_Exists_neg, Forall_forall in He.
      specialize (He x Hx). by destruct (Contains s x).
  - intros (id & Hv & Hc). apply (countb_pos _ _ id); [by apply elem_of_ids|done].
Qed.

Lemma empty_iff s : wf_set s → s = 0 ↔ ∀ id, valid_id id → Contains s id = false.
Proof.
  intros Hs. split; [intros -> id ?; by apply Contains_empty|].
  intros H. apply set_ext; [done|apply wf_empty|].
  intros. by rewrite H, Contains_empty.
Qed.

Lemma Len_zero s : wf_set s → Len s = 0 ↔ s = 0.
Proof.
  intros Hs. rewrite empty_iff by done. rewrite Len_countb, countb_zero.
  setoid_rewrite elem_of_ids. done.
Qed.

Lemma Len_nonneg s : 0 ≤ Len s ≤ 32.
Proof.
  rewrite Len_countb. split; [apply countb_nonneg|].
  etrans; [apply countb_le_length|]. by rewrite ids_length.
Qed.

Lemma Len_mono s t : (∀ j, valid_id j → Contains s j = true → Contains t j = true) → Len s ≤ Len t.
Proof. intros H. rewrite !Len_countb. apply countb_mono. intros j Hj%elem_of_ids. auto. Qed.
(** A set whose members are all equal has at most one, and conversely. *)
Lemma Len_single s id : (∀ j, valid_id j → Contains s j = true → j = id) → Len s ≤ 1.
Proof.
  intros H. rewrite Len_countb. etrans; [apply (countb_mono _ (λ j, bool_decide (j = id)))|].
  - intros j Hj%elem_of_ids HC. apply bool_decide_eq_true. auto.
  - pose proof ids_NoDup as Hn. induction Hn as [|x l Hx _ IH]; [rewrite countb_nil; lia|].
    rewrite countb_cons. case_bool_decide as E; [subst x|simpl; lia].
    rewrite (proj2 (countb_zero _ l)); [simpl; lia|]. intros y Hy. apply bool_decide_eq_false. by intros ->.
Qed.
Lemma Len_unique s i j : Len s ≤ 1 → valid_id i → valid_id j →
  Contains s i = true → Contains s j = true → i = j.
Proof.
  intros HL Hi Hj Ci Cj. destruct (decide (i = j)) as [|Hne]; [done|]. exfalso.
  rewrite Len_countb in HL. apply elem_of_ids in Hi, Hj.
  apply list_elem_of_split in Hi as (l & r & E). rewrite E in HL, Hj.
  rewrite countb_app, countb_cons, Ci in HL.
  pose proof (countb_nonneg (Contains s) l). pose proof (countb_nonneg (Contains s) r).
  apply elem_of_app in Hj as [Hj|[?|Hj]%elem_of_cons]; [|done|];
    pose proof (countb_pos _ _ _ Hj Cj); simpl in HL; lia.
Qed.

(** *** [All] is the ascending list of members *)

Lemma filter_andb {A} (f g : A → bool) l :
  List.filter (λ x, f x && g x) l = List.filter g (List.filter f l).
Proof.
  induction l as [|x l IH]; [done|]. simpl. destruct (f x) eqn:?; simpl; by rewrite IH.
Qed.

Lemma members_NoDup f : NoDup (List.filter f bits.ids).
Proof. apply NoDup_ListNoDup, List.NoDup_filter, NoDup_ListNoDup, ids_NoDup. Qed.

Lemma ids_filter_sorted f : StronglySorted Z.lt (List.filter f bits.ids).
Proof.
  assert (H : StronglySorted Z.lt bits.ids) by
    (change bits.ids with (Z.of_nat <$> seq 0 32);
     repeat (constructor; [|repeat constructor]); constructor).
  induction H as [|x l Hl IH Hx]; simpl; [constructor|].
  destruct (f x); [|done]. constructor; [done|].
  rewrite Forall_forall in *. intros y Hy%list_elem_of_In%List.filter_In.
  apply Hx, list_elem_of_In. by destruct Hy.
Qed.

Lemma first_member s i rest : List.filter (Contains s) bits.ids = i :: rest →
  valid_id i ∧ Contains s i = true ∧ ∀ j, 0 ≤ j < i → Contains s j = false.
Proof.
  intros E. assert (In i (List.filter (Contains s) bits.ids)) as Hin by (rewrite E; by left).
  apply List.filter_In in Hin as [Hv%list_elem_of_In%elem_of_ids Hc].
  split_and!; [done|done|]. intros j Hj. destruct (Contains s j) eqn:Ej; [|done].
  assert (In j (List.filter (Contains s) bits.ids)) as Hin.
  { apply List.filter_In. rewrite <-list_elem_of_In, elem_of_ids. unfold valid_id in *.
    split; [lia|done]. }
  pose proof (ids_filter_sorted (Contains s)) as Hs. rewrite E in *.
  inversion_clear Hs as [|?? _ Hf]. destruct Hin as [->|Hin]; [lia|].
  rewrite Forall_forall in Hf. apply list_elem_of_In in Hin. specialize (Hf j Hin). lia.
Qed.

Lemma members_clear x i rest :
  List.filter (Z.testbit x) bits.ids = i :: rest →
  List.filter (Z.testbit (Z.ldiff x (bit i))) bits.ids = rest.
Proof.
  intros H.
  assert (Hi : valid_id i).
  { apply elem_of_ids, list_elem_of_In.
    eapply (proj1 (List.filter_In (Z.testbit x) i bits.ids)). rewrite H. by left. }
  pose proof (members_NoDup (Z.testbit x)) as Hnd. rewrite H in Hnd.
  apply NoDup_cons in Hnd as [Hni _].
  transitivity (List.filter (λ j, Z.testbit x j && negb (j =? i)) bits.ids).
  - apply List.filter_ext_in. intros j [Hj ?]%list_elem_of_In%elem_of_ids.
    unfold valid_id in *. rewrite Z.ldiff_spec, bit_testbit by lia.
    by rewrite (proj2 (Z.ltb_lt i 32)), andb_true_r by lia.
  - rewrite filter_andb, H. simpl. rewrite Z.eqb_refl. simpl.
    clear -Hni. induction rest as [|j rest IH]; [done|]. simpl.
    destruct (Z.eqb_spec j i); [set_solver|]. simpl. f_equal. apply IH. set_solver.
Qed.

Lemma zero_iff_no_member x : wf_set x →
  x = 0 ↔ List.filter (Z.testbit x) bits.ids = [].
Proof.
  intros Hx. rewrite empty_iff, <-countb_filter_nil, countb_zero by done.
  setoid_rewrite elem_of_ids.
  split; intros H i Hi; specialize (H i Hi); by rewrite Contains_testbit in *.
Qed.

Lemma All_loop_spec fuel x :
  wf_set x → (length (List.filter (Z.testbit x) bits.ids) ≤ fuel)%nat →
  All_loop fuel x = List.filter (Z.testbit x) bits.ids.
Proof.
  revert x. induction fuel as [|fuel IH]; intros x Hx Hl; simpl.
  - by destruct (List.filter _ _); simpl in *; [|lia].
  - destruct (Z.eqb_spec x 0) as [E|Hne].
    + symmetry. by apply zero_iff_no_member.
    + unfold bits.TrailingZeros32.
      destruct (List.filter (Z.testbit x) bits.ids) as [|i rest] eqn:E.
      { destruct Hne. by apply zero_iff_no_member. }
      apply members_clear in E as E'. f_equal. rewrite <-E'. apply IH.
      * by apply wf_Difference.
      * rewrite E'. simpl in Hl. lia.
Qed.

Lemma All_spec s : wf_set s → All s = List.filter (Contains s) bits.ids.
Proof.
  intros Hs. unfold All. rewrite All_loop_spec; [|done|].
  - apply List.filter_ext_in. intros i Hi%list_elem_of_In%elem_of_ids.
    by rewrite Contains_testbit.
  - etrans; [apply List.filter_length_le|]. by rewrite ids_length.
Qed.

Lemma elem_of_All s id : wf_set s → id ∈ All s ↔ valid_id id ∧ Contains s id = true.
Proof.
  intros. rewrite All_spec by done. rewrite list_elem_of_In, List.filter_In.
  by rewrite <-list_elem_of_In, elem_of_ids.
Qed.

Lemma Len_All s : wf_set s → Len s = Z.of_nat (length (All s)).
Proof. intros. by rewrite All_spec, Len_countb. Qed.

(** *** Collections *)

Lemma FromWhere_wf {T} (ID : T → Z) l p :
  Forall (λ x, 0 ≤ ID x) l → wf_set (FromWhere ID l p).
Proof.
  unfold FromWhere. cut (∀ s, wf_set s → Forall (λ x, 0 ≤ ID x) l →
    wf_set (foldl (λ s x, if p x then Add s (ID x) else s) s l)).
  { intros H ?. apply H; [apply wf_empty|done]. }
  induction l as [|x l IH]; intros s Hs Hl; [done|].
  inversion_clear Hl. simpl. apply IH; [|done]. destruct (p x); [by apply wf_Add|done].
Qed.

Lemma Contains_fold {T} (ID : T → Z) (p : T → bool) l s j :
  valid_id j → Forall (λ x, 0 ≤ ID x) l →
  Contains (foldl (λ s x, if p x then Add s (ID x) else s) s l) j =
  Contains s j || existsb (λ x, p x && (j =? ID x)) l.
Proof.
  intros Hj. revert s. induction l as [|x l IH]; intros s Hl; simpl; [by rewrite orb_false_r|].
  inversion_clear Hl. rewrite IH by done. destruct (p x); simpl.
  - rewrite Contains_Add by done. by rewrite orb_assoc.
  - done.
Qed.

Lemma Contains_FromWhere {T} (ID : T → Z) (p : T → bool) l j :
  valid_id j → Forall (λ x, 0 ≤ ID x) l →
  Contains (FromWhere ID l p) j = existsb (λ x, p x && (j =? ID x)) l.
Proof. intros. unfold FromWhere. by rewrite Contains_fold, Contains_empty. Qed.

(** *** Rendering *)

Lemma idStr_itoa i : valid_id i → default "" (idStr !! Z.to_nat i) = itoa i.
Proof.
  intros [Hlo Hhi].
  assert (Forall (λ n, default "" (idStr !! n) = itoa (Z.of_nat n)) (seq 0 32)) as H
    by (repeat constructor).
  rewrite Forall_forall in H. specialize (H (Z.to_nat i)).
  rewrite elem_of_seq, Z2Nat.id in H by lia. apply H. lia.
Qed.

Lemma AppendString_loop_spec fuel x first buf :
  wf_set x → (length (List.filter (Z.testbit x) bits.ids) ≤ fuel)%nat →
  AppendString_loop fuel x first buf =
    match List.filter (Z.testbit x) bits.ids with
    | [] => buf
    | m => buf +:+ (if first then "" else ", ") +:+ join ", " ((λ i, "#" +:+ itoa i) <$> m)
    end.
Proof.
  revert x first buf. induction fuel as [|fuel IH]; intros x first buf Hx Hl; simpl.
  - by destruct (List.filter _ _); simpl in *; [|lia].
  - destruct (Z.eqb_spec x 0) as [E|Hne].
    + by rewrite (proj1 (zero_iff_no_member x Hx) E).
    + unfold bits.TrailingZeros32.
      destruct (List.filter (Z.testbit x) bits.ids) as [|i rest] eqn:E.
      { destruct Hne. by apply zero_iff_no_member. }
      assert (Hi : valid_id i).
      { apply elem_of_ids, list_elem_of_In.
        eapply (proj1 (List.filter_In (Z.testbit x) i bits.ids)). rewrite E. by left. }
      apply members_clear in E as E'. rewrite idStr_itoa, IH, E' by
        (first [done|by apply wf_Difference|rewrite E'; simpl in Hl; lia]).
      destruct first, rest; csimpl; rewrite ?join_cons, ?app_assoc_s, ?app_nil_r_s;
        rewrite ?app_assoc_s; done.
Qed.

(** *** Properties of the package *)

(** The members, ascending. *)
Definition members (s : IDSet) : list Z := List.filter (Contains s) bits.ids.

(** For every 32-bit set, the iterator [All] (lowest-bit clearing loop) terminates within the
    32 iterations of the model and yields exactly the members, each once, in ascending order;
    [Len] is their number, and [AppendTo] appends them. *)
Theorem All_enumerates (s : IDSet) (dst : list Z) : wf_set s →
  All s = members s ∧ NoDup (All s) ∧ StronglySorted Z.lt (All s) ∧
  (∀ id, id ∈ All s ↔ valid_id id ∧ Contains s id = true) ∧
  Len s = Z.of_nat (length (All s)) ∧ AppendTo s dst = dst ++ members s.
Proof.
  intros Hs. unfold AppendTo, members. split_and!.
  - by apply All_spec.
  - rewrite All_spec by done. apply members_NoDup.
  - rewrite All_spec by done. apply ids_filter_sorted.
  - intros id. by apply elem_of_All.
  - by apply Len_All.
  - by rewrite All_spec.
Qed.
Lemma All_enumerates_witness :
  wf_set 165 ∧ All 165 = members 165 ∧ members 165 = [0; 2; 5; 7].
Proof.
  assert (H : wf_set 165) by (unfold wf_set; lia).
  split; [exact H|]. destruct (All_enumerates 165 [] H) as [-> _]. split; vm_compute; reflexivity.
Defined.

(** The printed form of a set is the comma-separated list of its members, each as its decimal
    number with a # prefix. *)
Theorem String_lists_members (s : IDSet) : wf_set s →
  idset.String s = join ", " ((λ i, "#" +:+ itoa i) <$> members s).
Proof.
  intros Hs. unfold idset.String, AppendString, members.
  rewrite (List.filter_ext_in (Contains s) (Z.testbit s)) by
    (intros i ?%list_elem_of_In%elem_of_ids; by rewrite Contains_testbit).
  destruct (Z.eqb_spec s 0) as [E|Hne].
  - by rewrite (proj1 (zero_iff_no_member s Hs) E).
  - rewrite AppendString_loop_spec; [|done|].
    + by destruct (List.filter _ _).
    + etrans; [apply List.filter_length_le|]. by rewrite ids_length.
Qed.
Lemma String_lists_members_witness :
  wf_set 137 ∧ idset.String 137 = "#0, #3, #7".
Proof.
  assert (H : wf_set 137) by (unfold wf_set; lia).
  split; [exact H|]. rewrite (String_lists_members 137 H). vm_compute. reflexivity.
Defined.

Lemma MinMissing_props (s : IDSet) : wf_set s →
  match MinMissing s with
  | (id, true) => valid_id id ∧ Contains s id = false ∧
                  ∀ j, 0 ≤ j < id → Contains s j = true
  | (id, false) => id = 0 ∧ ∀ j, valid_id j → Contains s j = true
  end.
Proof.
  intros Hs. unfold MinMissing.
  assert (Hinv : wf_set (Z.lxor s AllIDs)).
  { apply wf_set_of_bits; [apply Z.lxor_nonneg; unfold wf_set, AllIDs in *; lia|].
    intros i Hi. rewrite Z.lxor_spec, wf_set_bits, (wf_set_bits AllIDs); done. }
  assert (Hc : ∀ j, valid_id j → Contains (Z.lxor s AllIDs) j = negb (Contains s j)).
  { intros j [? ?]. rewrite !Contains_testbit by done. rewrite Z.lxor_spec.
    change AllIDs with (Z.ones 32). rewrite Z.ones_spec_low by lia. apply xorb_true_r. }
  destruct (Z.eqb_spec (Z.lxor s AllIDs) 0) as [E|Hne].
  - split; [done|]. intros j Hj. apply negb_false_iff. rewrite <-Hc by done.
    rewrite E. by apply Contains_empty.
  - unfold bits.TrailingZeros32.
    rewrite (List.filter_ext_in (Z.testbit _) (Contains (Z.lxor s AllIDs))) by
      (intros i ?%list_elem_of_In%elem_of_ids; by rewrite Contains_testbit).
    fold (members (Z.lxor s AllIDs)). destruct (members _) as [|i rest] eqn:E.
    { destruct Hne. apply zero_iff_no_member; [done|].
      rewrite <-E. apply List.filter_ext_in.
      intros i ?%list_elem_of_In%elem_of_ids. by rewrite Contains_testbit. }
    destruct (first_member _ _ _ E) as (Hv & Hin & Hlt).
    rewrite wrap8_small by (unfold valid_id in *; lia).
    split_and!; [done| |].
    + rewrite Hc in Hin by done. by destruct (Contains s i).
    + intros j Hj. assert (valid_id j) by (unfold valid_id in *; lia).
      specialize (Hlt j Hj). rewrite Hc in Hlt by done. by destruct (Contains s j).
Qed.

(** [MinMissing] returns the smallest ID that is not in the set, and reports failure exactly
    when all 32 IDs are present. *)
Theorem MinMissing_smallest (s : IDSet) : wf_set s →
  match MinMissing s with
  | (id, true) => valid_id id ∧ Contains s id = false ∧
                  ∀ j, 0 ≤ j < id → Contains s j = true
  | (id, false) => id = 0 ∧ ∀ j, valid_id j → Contains s j = true
  end.
Proof. apply MinMissing_props. Qed.
Lemma MinMissing_smallest_witness :
  wf_set 23 ∧ MinMissing 23 = (3, true) ∧ Contains 23 3 = false.
Proof.
  assert (H : wf_set 23) by (unfold wf_set; lia).
  pose proof (MinMissing_smallest 23 H) as Hm.
  change (MinMissing 23) with (3, true) in *. split; [exact H|]. split; [reflexivity|].
  exact (proj1 (proj2 Hm)).
Defined.

End theory.

#[export] Hint Resolve wf_empty wf_Union wf_Intersect wf_Difference wf_Add wf_Remove : go.
#[export] Hint Rewrite Contains_Add Contains_Remove Contains_Union Contains_Intersect
  Contains_Difference Contains_empty using (unfold valid_id in *; first [done|lia]) : go.
