(* ===== verification/DrbdSize.v ===== *)
(** * internal/drbd_size: DRBD metadata size calculations

    The package computes on [uint64] sectors taken from a [resource.Quantity].  [Quantity] is
    code of k8s.io/apimachinery: it is a parameter here ([QuantityApi]) with the documented
    behaviour the package relies on as named laws ([QuantityLaws]).  All sector arithmetic keeps
    Go's 64-bit wrap-around; the bounds in the theorems say where it does not occur. *)

From Stdlib Require Import ZArith Lia.
From stdpp Require Import base list numbers strings.
From S2P Require Import Prelude.

(** ** resource.Quantity, as used by the repository *)
Class QuantityApi := {
  Quantity : Type;
  q_Value : Quantity → Z;          (* Value() int64 *)
  NewQuantity : Z → Quantity;      (* *NewQuantity(int64, BinarySI) *)
  q_Cmp : Quantity → Quantity → Z; (* Cmp: -1, 0, 1 *)
  q_Equal : Quantity → Quantity → bool;
  q_String : Quantity → string;
}.

Definition int64 (x : Z) : Prop := -2 ^ 63 ≤ x < 2 ^ 63.

(** Documented behaviour: the value of a quantity built from an int64 is that int64, and
    comparison of integral quantities is comparison of their values. *)
Class QuantityLaws `{QuantityApi} := {
  q_Value_New v : int64 v → q_Value (NewQuantity v) = v;
  q_Cmp_New a b : int64 a → int64 b →
    q_Cmp (NewQuantity a) (NewQuantity b) =
      match a ?= b with Lt => -1 | Eq => 0 | Gt => 1 end;
  q_Equal_New a b : int64 a → int64 b →
    q_Equal (NewQuantity a) (NewQuantity b) = (a =? b);
}.

(** A concrete instance: quantities as their integral byte value. *)
Definition ZQuantity : QuantityApi := {|
  Quantity := Z; q_Value := id; NewQuantity := id;
  q_Cmp a b := match a ?= b with Lt => -1 | Eq => 0 | Gt => 1 end;
  q_Equal := Z.eqb; q_String := itoa;
|}.
Lemma ZQuantity_laws : @QuantityLaws ZQuantity.
Proof. by split. Qed.

Module drbd_size.

Definition maxPeers : Z := 7.
Definition sectorSize : Z := 512.
Definition bmSectPerBit : Z := 8.
Definition superblockSectors : Z := 8.
Definition alSizeSectors : Z := 64.

(** align rounds up x to the nearest multiple of a: (x + a - 1) &^ (a - 1). *)
Definition align (x a : Z) : Z := Z.ldiff (wrap64 (x + a - 1)) (a - 1).

Definition bitmapSectors (capacitySectors : Z) : Z :=
  let bits := align (align capacitySectors bmSectPerBit / bmSectPerBit) 64 in
  align (wrap64 (bits / 8 * maxPeers)) 4096 / sectorSize.

Definition metadataSectors (lowerSectors : Z) : Z :=
  wrap64 (bitmapSectors lowerSectors + superblockSectors + alSizeSectors).

Section quantity.
Context `{QuantityApi}.

Definition UsableSize (lowerSize : Quantity) : Quantity :=
  let lowerSectors := wrap64 (q_Value lowerSize) / sectorSize in
  let usableSectors := wrap64 (lowerSectors - metadataSectors lowerSectors) in
  NewQuantity (wrapS64 (wrap64 (usableSectors * sectorSize))).

Definition AlignTo4Ki (size : Quantity) : Quantity :=
  let bytes := wrap64 (q_Value size) in
  let aligned := align bytes 4096 in
  NewQuantity (wrapS64 aligned).

(** The fixed-point loop: at most [n] iterations, then the panic after the loop. *)
Fixpoint LowerVolumeSize_loop (n : nat) (usableSectors lowerSectors : Z) : outcome Quantity :=
  match n with
  | O => Panic "drbd_size: LowerVolumeSize failed to converge"
  | S n =>
      let required := align (wrap64 (usableSectors + metadataSectors lowerSectors)) 8 in
      if required <=? lowerSectors
      then Ok (NewQuantity (wrapS64 (wrap64 (required * sectorSize))))
      else LowerVolumeSize_loop n usableSectors required
  end.

Definition LowerVolumeSize (usableSize : Quantity) : outcome Quantity :=
  let usableSectors := wrap64 (q_Value usableSize) / sectorSize in
  LowerVolumeSize_loop 10 usableSectors usableSectors.

End quantity.
End drbd_size.
Import drbd_size.

(** ** Closed forms *)

(** Rounding-up division. *)
Definition cdiv (x a : Z) : Z := (x + a - 1) / a.

Lemma align_pow2 x k : 0 ≤ k → 0 ≤ x → x + 2 ^ k ≤ 2 ^ 64 →
  align x (2 ^ k) = 2 ^ k * cdiv x (2 ^ k).
Proof.
  intros Hk Hx Hb. unfold align, cdiv.
  assert (0 < 2 ^ k) by lia.
  rewrite wrap64_small by lia. rewrite Z.sub_1_r with (n := 2 ^ k), <-Z.ones_equiv.
  rewrite Z.ldiff_ones_r by lia. rewrite Z.shiftl_mul_pow2, Z.shiftr_div_pow2 by lia. lia.
Qed.

Lemma align_4096 x : 0 ≤ x → x ≤ 2 ^ 63 → align x 4096 = 4096 * cdiv x 4096.
Proof. intros. apply (align_pow2 x 12); lia. Qed.
Lemma align_64 x : 0 ≤ x → x ≤ 2 ^ 63 → align x 64 = 64 * cdiv x 64.
Proof. intros. apply (align_pow2 x 6); lia. Qed.
Lemma align_8 x : 0 ≤ x → x ≤ 2 ^ 63 → align x 8 = 8 * cdiv x 8.
Proof. intros. apply (align_pow2 x 3); lia. Qed.

(** Bitmap size in 4Ki blocks for a capacity of [m] 4Ki blocks. *)
Definition bitmapBlocks (m : Z) : Z := cdiv (7 * cdiv m 64) 512.

Lemma cdiv_nonneg x a : 0 ≤ x → 0 < a → 0 ≤ cdiv x a.
Proof. intros. unfold cdiv. apply Z.div_pos; lia. Qed.
Lemma cdiv_bounds x a : 0 < a → x ≤ a * cdiv x a < x + a.
Proof.
  intros. unfold cdiv. pose proof (Z.div_mod (x + a - 1) a).
  pose proof (Z.mod_pos_bound (x + a - 1) a). lia.
Qed.
Lemma cdiv_le_iff x a k : 0 < a → cdiv x a ≤ k ↔ x ≤ a * k.
Proof. intros Ha. pose proof (cdiv_bounds x a Ha). split; nia. Qed.
Lemma cdiv_mul x a : 0 < a → cdiv (a * x) a = x.
Proof. intros Ha. pose proof (cdiv_bounds (a * x) a Ha). nia. Qed.

Lemma metadataSectors_blocks x : 0 ≤ x → x ≤ 2 ^ 56 →
  metadataSectors x = 8 * (bitmapBlocks (cdiv x 8) + 9).
Proof.
  intros Hx Hb. unfold metadataSectors, bitmapSectors, bmSectPerBit, maxPeers, sectorSize,
    superblockSectors, alSizeSectors, bitmapBlocks.
  rewrite align_8 by lia. rewrite (Z.mul_comm 8 (cdiv x 8)), Z.div_mul by lia.
  pose proof (cdiv_bounds x 8 ltac:(lia)). pose proof (cdiv_nonneg x 8 Hx ltac:(lia)).
  set (m := cdiv x 8) in *. rewrite align_64 by lia.
  pose proof (cdiv_bounds m 64 ltac:(lia)). pose proof (cdiv_nonneg m 64 ltac:(lia) ltac:(lia)).
  set (n := cdiv m 64) in *.
  replace (64 * n / 8) with (8 * n) by (apply Z.div_unique_exact; lia).
  rewrite (wrap64_small (8 * n * 7)) by lia. rewrite align_4096 by lia.
  replace (cdiv (8 * n * 7) 4096) with (cdiv (7 * n) 512).
  2:{ apply Z.le_antisymm; rewrite cdiv_le_iff by lia;
      pose proof (cdiv_bounds (7 * n) 512 ltac:(lia));
      pose proof (cdiv_bounds (8 * n * 7) 4096 ltac:(lia)); lia. }
  pose proof (cdiv_bounds (7 * n) 512 ltac:(lia)). set (b := cdiv (7 * n) 512) in *.
  replace (4096 * b / 512) with (8 * b) by (apply Z.div_unique_exact; lia).
  rewrite wrap64_small by lia. lia.
Qed.

Lemma bitmapBlocks_mono a b : a ≤ b → bitmapBlocks a ≤ bitmapBlocks b.
Proof.
  intros. unfold bitmapBlocks. apply cdiv_le_iff; [lia|].
  pose proof (cdiv_bounds (7 * cdiv b 64) 512 ltac:(lia)).
  assert (cdiv a 64 ≤ cdiv b 64) by (apply cdiv_le_iff; [lia|];
    pose proof (cdiv_bounds b 64 ltac:(lia)); lia). lia.
Qed.
Lemma bitmapBlocks_subadd a b :
  bitmapBlocks (a + b) ≤ bitmapBlocks a + bitmapBlocks b.
Proof.
  unfold bitmapBlocks. apply cdiv_le_iff; [lia|].
  pose proof (cdiv_bounds (7 * cdiv a 64) 512 ltac:(lia)).
  pose proof (cdiv_bounds (7 * cdiv b 64) 512 ltac:(lia)).
  assert (cdiv (a + b) 64 ≤ cdiv a 64 + cdiv b 64) by (apply cdiv_le_iff; [lia|];
    pose proof (cdiv_bounds a 64 ltac:(lia)); pose proof (cdiv_bounds b 64 ltac:(lia)); lia).
  lia.
Qed.
Lemma bitmapBlocks_nonneg a : 0 ≤ a → 0 ≤ bitmapBlocks a.
Proof. intros. unfold bitmapBlocks. pose proof (cdiv_nonneg a 64). apply cdiv_nonneg; lia. Qed.

(** ** Convergence of the fixed-point iteration

    In units of 4Ki blocks the loop iterates [m ↦ A + bitmapBlocks m] from [m0 = ⌈U/8⌉] with
    [A = m0 + 9].  The increments shrink by a factor of about 4681 until they are at most one
    block, and two consecutive one-block increments cannot be followed by a third. *)
Section convergence.
Context `{QuantityApi}.
Variable U : Z.
Hypothesis HU : 0 ≤ U ≤ 2 ^ 53.

Definition blocks0 : Z := cdiv U 8.
Definition nextBlocks (m : Z) : Z := blocks0 + 9 + bitmapBlocks m.

Lemma blocks0_bounds : 0 ≤ blocks0 ≤ 2 ^ 50.
Proof.
  unfold blocks0. pose proof (cdiv_nonneg U 8 ltac:(lia) ltac:(lia)).
  split; [lia|]. apply cdiv_le_iff; lia.
Qed.

(** Every iterate of interest stays below 2^51 blocks. *)
Lemma nextBlocks_bounds m : 0 ≤ m ≤ 2 ^ 51 → blocks0 ≤ nextBlocks m < 2 ^ 51.
Proof.
  intros Hm. unfold nextBlocks. pose proof blocks0_bounds.
  pose proof (bitmapBlocks_nonneg m ltac:(lia)).
  pose proof (bitmapBlocks_mono m (2 ^ 51) ltac:(lia)) as Hb.
  assert (bitmapBlocks (2 ^ 51) ≤ 2 ^ 40) by (vm_compute; discriminate). lia.
Qed.

(** One loop iteration, in blocks. *)
Lemma loop_step n x m : cdiv x 8 = m → 0 ≤ x → x ≤ 8 * 2 ^ 51 →
  LowerVolumeSize_loop (S n) U x =
    if 8 * nextBlocks m <=? x then Ok (NewQuantity (512 * (8 * nextBlocks m)))
    else LowerVolumeSize_loop n U (8 * nextBlocks m).
Proof.
  intros Hm Hx Hb. cbn [LowerVolumeSize_loop].
  rewrite metadataSectors_blocks by lia. rewrite Hm.
  assert (0 ≤ m ≤ 2 ^ 51).
  { subst m. split; [apply cdiv_nonneg; lia|apply cdiv_le_iff; lia]. }
  pose proof (nextBlocks_bounds m ltac:(done)). pose proof blocks0_bounds.
  pose proof (bitmapBlocks_nonneg m ltac:(lia)).
  assert (8 * (bitmapBlocks m + 9) ≤ 2 ^ 60) by (unfold nextBlocks in *; lia).
  rewrite (wrap64_small (U + _)) by lia. rewrite align_8 by lia.
  replace (cdiv (U + 8 * (bitmapBlocks m + 9)) 8) with (nextBlocks m).
  2:{ unfold nextBlocks, blocks0. apply Z.le_antisymm.
      - pose proof (cdiv_bounds (U + 8 * (bitmapBlocks m + 9)) 8 ltac:(lia)).
        pose proof (cdiv_bounds U 8 ltac:(lia)). lia.
      - apply cdiv_le_iff; [lia|]. pose proof (cdiv_bounds U 8 ltac:(lia)). lia. }
  unfold sectorSize. rewrite wrap64_small by lia. rewrite wrapS64_small by lia.
  by rewrite (Z.mul_comm _ 512).
Qed.

Fixpoint iterBlocks (k : nat) : Z :=
  match k with O => blocks0 | S k => nextBlocks (iterBlocks k) end.

Lemma iterBlocks_bounds k : 0 ≤ iterBlocks k ≤ 2 ^ 51.
Proof.
  induction k as [|k IH]; simpl; [pose proof blocks0_bounds; lia|].
  pose proof (nextBlocks_bounds _ IH). pose proof blocks0_bounds. lia.
Qed.
Lemma iterBlocks_mono k : iterBlocks k ≤ iterBlocks (S k).
Proof.
  induction k as [|k IH].
  - simpl. unfold nextBlocks. pose proof (bitmapBlocks_nonneg blocks0).
    pose proof blocks0_bounds. lia.
  - change (nextBlocks (iterBlocks k) ≤ nextBlocks (iterBlocks (S k))). unfold nextBlocks.
    pose proof (bitmapBlocks_mono _ _ IH). lia.
Qed.
Lemma iterBlocks_incr k d : iterBlocks (S k) - iterBlocks k ≤ d →
  iterBlocks (S (S k)) - iterBlocks (S k) ≤ bitmapBlocks d.
Proof.
  intros Hd.
  pose proof (bitmapBlocks_subadd (iterBlocks k) (iterBlocks (S k) - iterBlocks k)) as Hs.
  replace (iterBlocks k + (iterBlocks (S k) - iterBlocks k)) with (iterBlocks (S k)) in Hs by lia.
  pose proof (bitmapBlocks_mono _ _ Hd).
  change (nextBlocks (iterBlocks (S k)) - nextBlocks (iterBlocks k) ≤ bitmapBlocks d).
  unfold nextBlocks. lia.
Qed.

(** The sixth increment is already zero. *)
Lemma iterBlocks_fix : iterBlocks 7 = iterBlocks 6.
Proof.
  pose proof blocks0_bounds.
  assert (I0 : iterBlocks 1 - iterBlocks 0 ≤ 2 ^ 40).
  { cbn [iterBlocks]. unfold nextBlocks. pose proof (bitmapBlocks_mono blocks0 (2 ^ 50) ltac:(lia)).
    assert (bitmapBlocks (2 ^ 50) ≤ 2 ^ 39) by (vm_compute; discriminate). lia. }
  apply iterBlocks_incr in I0 as I1.
  assert (E1 : bitmapBlocks (2 ^ 40) ≤ 2 ^ 28) by (vm_compute; discriminate).
  apply (Z.le_trans _ _ _ I1), iterBlocks_incr in E1 as I2.
  assert (E2 : bitmapBlocks (2 ^ 28) ≤ 2 ^ 16) by (vm_compute; discriminate).
  apply (Z.le_trans _ _ _ I2), iterBlocks_incr in E2 as I3.
  assert (E3 : bitmapBlocks (2 ^ 16) ≤ 20) by (vm_compute; discriminate).
  apply (Z.le_trans _ _ _ I3), iterBlocks_incr in E3 as I4.
  assert (E4 : bitmapBlocks 20 ≤ 1) by (vm_compute; discriminate).
  apply (Z.le_trans _ _ _ I4), iterBlocks_incr in E4 as I5.
  assert (E5 : bitmapBlocks 1 ≤ 1) by (vm_compute; discriminate).
  apply (Z.le_trans _ _ _ I5), iterBlocks_incr in E5 as I6.
  pose proof (iterBlocks_mono 5) as M5. pose proof (iterBlocks_mono 4) as M4.
  pose proof (iterBlocks_mono 6) as M6.
  destruct (decide (iterBlocks 6 = iterBlocks 5)) as [E|Hne].
  { cbn [iterBlocks] in *. by rewrite E. }
  (* a full step at 5: then the increment at 5 plus the increment at 6 is at most one *)
  pose proof (bitmapBlocks_subadd (iterBlocks 4) (iterBlocks 6 - iterBlocks 4)) as Hs.
  replace (iterBlocks 4 + (iterBlocks 6 - iterBlocks 4)) with (iterBlocks 6) in Hs by lia.
  pose proof (bitmapBlocks_mono (iterBlocks 6 - iterBlocks 4) 2 ltac:(lia)) as Hm.
  assert (E6 : bitmapBlocks 2 ≤ 1) by (vm_compute; discriminate).
  assert (iterBlocks 7 - iterBlocks 5 = bitmapBlocks (iterBlocks 6) - bitmapBlocks (iterBlocks 4)) as Hd.
  { change (iterBlocks 7) with (nextBlocks (iterBlocks 6)).
    change (iterBlocks 5) with (nextBlocks (iterBlocks 4)) at 1. unfold nextBlocks. lia. }
  lia.
Qed.

Lemma loop_iter n k : (k + n = 10)%nat → (0 < k)%nat →
  LowerVolumeSize_loop n U (8 * iterBlocks k) =
    match n with
    | O => Panic "drbd_size: LowerVolumeSize failed to converge"
    | S n' => if decide (iterBlocks (S k) = iterBlocks k)
              then Ok (NewQuantity (512 * (8 * iterBlocks k)))
              else LowerVolumeSize_loop n' U (8 * iterBlocks (S k))
    end.
Proof.
  intros Hk Hpos. destruct n as [|n]; [done|].
  pose proof (iterBlocks_bounds k). pose proof (iterBlocks_mono k).
  rewrite (loop_step n _ (iterBlocks k)) by (rewrite ?cdiv_mul; lia).
  change (nextBlocks (iterBlocks k)) with (iterBlocks (S k)).
  case_decide as E; destruct (Z.leb_spec (8 * iterBlocks (S k)) (8 * iterBlocks k)); try lia.
  - by rewrite E.
  - done.
Qed.

(** The loop returns the first iterate that is a fixed point. *)
Lemma loop_result : ∃ m, LowerVolumeSize_loop 10 U U = Ok (NewQuantity (512 * (8 * m))) ∧
  nextBlocks m = m ∧ blocks0 ≤ m ≤ 2 ^ 51 ∧
  (∀ m', blocks0 ≤ m' → nextBlocks m' ≤ m' → m ≤ m').
Proof.
  assert (Hleast : ∀ k m', blocks0 ≤ m' → nextBlocks m' ≤ m' → iterBlocks k ≤ m').
  { induction k as [|k IH]; intros m' H1 H2; [done|]. simpl.
    specialize (IH m' H1 H2). pose proof (bitmapBlocks_mono _ _ IH). unfold nextBlocks in *. lia. }
  assert (Hgoal : ∀ n k, (k + n = 10)%nat → (0 < k ≤ 6)%nat →
    ∃ m, LowerVolumeSize_loop n U (8 * iterBlocks k) = Ok (NewQuantity (512 * (8 * m))) ∧
      nextBlocks m = m ∧ ∃ j, m = iterBlocks j).
  { induction n as [|n IH]; intros k Hk Hb; [lia|].
    rewrite loop_iter by lia. case_decide as E.
    - exists (iterBlocks k). split_and!; [done|done|]. by eexists.
    - apply IH; [lia|]. destruct (decide (k = 6%nat)) as [->|]; [|lia].
      by destruct E; apply iterBlocks_fix. }
  pose proof blocks0_bounds. pose proof (iterBlocks_mono 0).
  rewrite (loop_step 9 U blocks0) by (try done; lia).
  change (nextBlocks blocks0) with (iterBlocks 1).
  destruct (Z.leb_spec (8 * iterBlocks 1) U) as [Hle|Hgt].
  { exfalso. pose proof (cdiv_bounds U 8 ltac:(lia)).
    assert (blocks0 + 9 ≤ iterBlocks 1).
    { cbn [iterBlocks]. unfold nextBlocks. pose proof (bitmapBlocks_nonneg blocks0). lia. }
    unfold blocks0 in *. lia. }
  destruct (Hgoal 9%nat 1%nat) as (m & -> & Hfix & j & ->); [lia|lia|].
  exists (iterBlocks j). pose proof (iterBlocks_bounds j).
  split_and!; [done|done| |lia|intros; by apply Hleast].
  pose proof (nextBlocks_bounds (iterBlocks j) ltac:(lia)). lia.
Qed.
End convergence.

(** ** Properties of the package *)
Section properties.
Context `{QuantityLaws}.

(** The usable size of a lower volume of [8 m] sectors. *)
Lemma UsableSize_blocks m : 0 ≤ m ≤ 2 ^ 51 → bitmapBlocks m + 9 ≤ m → m < 2 ^ 51 →
  q_Value (UsableSize (NewQuantity (512 * (8 * m)))) = 4096 * (m - bitmapBlocks m - 9).
Proof.
  intros Hm Hmeta Hlt. unfold UsableSize, sectorSize.
  rewrite (q_Value_New (512 * _)) by (unfold int64; lia).
  rewrite (wrap64_small (512 * _)) by lia.
  replace (512 * (8 * m) / 512) with (8 * m) by (apply Z.div_unique_exact; lia).
  rewrite metadataSectors_blocks, cdiv_mul by lia.
  pose proof (bitmapBlocks_nonneg m ltac:(lia)).
  rewrite (wrap64_small (8 * m - _)) by lia.
  rewrite wrap64_small by lia. rewrite wrapS64_small by lia.
  rewrite q_Value_New by (unfold int64; lia). lia.
Qed.

Lemma LowerVolumeSize_blocks v : 0 ≤ q_Value v ≤ 2 ^ 62 → ∃ m,
  let U := q_Value v / 512 in
  LowerVolumeSize v = Ok (NewQuantity (512 * (8 * m))) ∧
  m = cdiv U 8 + 9 + bitmapBlocks m ∧ 0 ≤ m < 2 ^ 51 ∧
  (∀ m', cdiv U 8 ≤ m' → cdiv U 8 + 9 + bitmapBlocks m' ≤ m' → m ≤ m').
Proof.
  intros Hv. unfold LowerVolumeSize, sectorSize. rewrite wrap64_small by lia.
  assert (HU : 0 ≤ q_Value v / 512 ≤ 2 ^ 53).
  { split; [apply Z.div_pos; lia|]. apply Z.div_le_upper_bound; lia. }
  destruct (loop_result _ HU) as (m & -> & Hfix & Hb & Hl). exists m.
  unfold nextBlocks, blocks0 in *.
  pose proof (nextBlocks_bounds _ HU m) as Hn. unfold nextBlocks, blocks0 in Hn.
  pose proof (cdiv_nonneg (q_Value v / 512) 8 ltac:(lia) ltac:(lia)).
  split_and!; [done|lia|lia|lia|done].
Qed.

(** LowerVolumeSize converges for every size up to 2^62 bytes (the loop's panic is
    unreachable): it returns a 4Ki multiple whose usable capacity is at least the requested
    number of whole sectors, and no smaller 4Ki multiple (down to the data itself) leaves room
    for the data and the metadata. *)
Theorem LowerVolumeSize_converges (v : Quantity) : 0 ≤ q_Value v ≤ 2 ^ 62 →
  ∃ m, LowerVolumeSize v = Ok (NewQuantity (4096 * m)) ∧
    q_Value v / 512 * 512 ≤ q_Value (UsableSize (NewQuantity (4096 * m))) ∧
    (∀ m', cdiv (q_Value v / 512) 8 ≤ m' < m →
       512 * (8 * m' - metadataSectors (8 * m')) < q_Value v / 512 * 512).
Proof.
  intros Hv. destruct (LowerVolumeSize_blocks v Hv) as (m & HL & Hfix & Hb & Hl).
  set (U := q_Value v / 512) in *. exists m.
  replace (4096 * m) with (512 * (8 * m)) by lia.
  pose proof (cdiv_bounds U 8 ltac:(lia)).
  assert (0 ≤ U) by (apply Z.div_pos; lia).
  pose proof (cdiv_nonneg U 8 ltac:(lia) ltac:(lia)).
  split_and!; [done| |].
  - rewrite UsableSize_blocks by lia. lia.
  - intros m' Hm'. rewrite metadataSectors_blocks, cdiv_mul by lia.
    destruct (decide (cdiv U 8 + 9 + bitmapBlocks m' ≤ m')) as [Hge|Hlt].
    + specialize (Hl m' ltac:(lia) Hge). lia.
    + lia.
Qed.

(** round trip: for a 4Ki-aligned usable size up to 2^62 bytes, the usable capacity of the
    computed lower volume is exactly the requested size. *)
Theorem UsableSize_LowerVolumeSize (v : Quantity) :
  0 ≤ q_Value v ≤ 2 ^ 62 → q_Value v mod 4096 = 0 →
  ∃ lower, LowerVolumeSize v = Ok lower ∧ q_Value (UsableSize lower) = q_Value v.
Proof.
  intros Hv Hmod. destruct (LowerVolumeSize_blocks v Hv) as (m & HL & Hfix & Hb & Hl).
  eexists. split; [exact HL|].
  assert (E : q_Value v = 4096 * (q_Value v / 4096)) by (apply Z.div_exact; lia).
  set (k := q_Value v / 4096) in *.
  assert (EU : q_Value v / 512 = 8 * k) by (rewrite E; symmetry; apply Z.div_unique_exact; lia).
  rewrite EU, cdiv_mul in * by lia.
  assert (0 ≤ k) by lia. rewrite UsableSize_blocks by lia. lia.
Qed.

(** AlignTo4Ki returns the least multiple of 4096 that is at least the given size. *)
Theorem AlignTo4Ki_least (v : Quantity) : 0 ≤ q_Value v ≤ 2 ^ 62 →
  let a := q_Value (AlignTo4Ki v) in
  a mod 4096 = 0 ∧ q_Value v ≤ a ∧ ∀ b, b mod 4096 = 0 → q_Value v ≤ b → a ≤ b.
Proof.
  intros Hv. unfold AlignTo4Ki. rewrite wrap64_small by lia.
  rewrite align_4096 by lia. pose proof (cdiv_bounds (q_Value v) 4096 ltac:(lia)).
  rewrite wrapS64_small by lia. rewrite q_Value_New by (unfold int64; lia).
  split_and!; [by rewrite Z.mul_comm, Z.mod_mul by lia|lia|].
  intros b Hb Hle. apply Z.div_exact in Hb; [|lia]. rewrite Hb.
  apply Z.mul_le_mono_nonneg_l; [lia|]. apply cdiv_le_iff; lia.
Qed.
End properties.

(** Witnesses, with quantities as integers. *)
Lemma LowerVolumeSize_converges_witness :
  0 ≤ @q_Value ZQuantity (2 ^ 40) ≤ 2 ^ 62 ∧
  ∃ m, @LowerVolumeSize ZQuantity (2 ^ 40) = Ok (4096 * m).
Proof.
  assert (Hr : 0 ≤ @q_Value ZQuantity (2 ^ 40) ≤ 2 ^ 62) by (simpl; lia).
  split; [exact Hr|].
  destruct (@LowerVolumeSize_converges ZQuantity ZQuantity_laws (2 ^ 40) Hr) as (m & Hm & _).
  exists m. exact Hm.
Defined.
Lemma UsableSize_LowerVolumeSize_witness :
  @LowerVolumeSize ZQuantity 1073741824 = Ok 1074012160 ∧
  ∃ lower, @LowerVolumeSize ZQuantity 1073741824 = Ok lower ∧
           @q_Value ZQuantity (@UsableSize ZQuantity lower) = 1073741824.
Proof.
  split; [vm_compute; reflexivity|].
  refine (@UsableSize_LowerVolumeSize ZQuantity ZQuantity_laws 1073741824 _ _).
  - simpl. lia.
  - vm_compute. reflexivity.
Defined.
Lemma AlignTo4Ki_least_witness :
  @q_Value ZQuantity (@AlignTo4Ki ZQuantity 4097) = 8192 ∧
  @q_Value ZQuantity (@AlignTo4Ki ZQuantity 4097) mod 4096 = 0.
Proof.
  split; [vm_compute; reflexivity|].
  refine (proj1 (@AlignTo4Ki_least ZQuantity ZQuantity_laws 4097 _)). simpl. lia.
Defined.
