(* ===== verification/Api.v ===== *)
(** * api/v1alpha1: the objects the datamesh controller works on

    Enumerations of the API (Go string types) are inductive types with the source's constants as
    constructors and [..Other s] for any other string, records carry the fields the modelled code
    reads or writes, and each method is a function of the same name.  Times are integers ([0] is
    the zero time).  apimachinery code ([resource.Quantity], [meta.FindStatusCondition]) is the
    class parameter [K8s] with its documented behaviour in [K8sLaws]. *)

From Stdlib Require Import ZArith Lia String Ascii.
From stdpp Require Import base gmap list numbers strings option.
From S2P Require Import Prelude IdSet DrbdSize.

Definition Time : Type := Z.

(** ** metav1.Condition *)
Record Condition := {
  c_Type : string; c_Status : string; c_ObservedGeneration : Z; c_LastTransitionTime : Time;
  c_Reason : string; c_Message : string;
}.
Definition ConditionTrue : string := "True".
Definition ConditionFalse : string := "False".

Class K8s := {
  k8s_quantity :: QuantityApi;
  FindStatusCondition : list Condition → string → option Condition;
}.
Class K8sLaws `{K8s} := {
  k8s_quantity_laws :: QuantityLaws;
  (* "finds the conditionType in conditions": the first condition of that type, or nil *)
  FindStatusCondition_spec cs ty :
    FindStatusCondition cs ty = List.find (λ c, String.eqb (c_Type c) ty) cs;
}.
Definition K8s_concrete : K8s := {|
  k8s_quantity := ZQuantity;
  FindStatusCondition cs ty := List.find (λ c, String.eqb (c_Type c) ty) cs;
|}.
Lemma K8s_concrete_laws : @K8sLaws K8s_concrete.
Proof. split; [apply ZQuantity_laws|done]. Qed.

Module v1alpha1.

(** ** common_helpers.go *)

(** [name[i] - '0'] on bytes; names of API objects are validated to end in -0 .. -31, so both
    positions exist. *)
Definition digitAt (name : string) (i : nat) : Z :=
  match String.get i name with
  | Some c => wrap8 (Z.of_nat (Ascii.nat_of_ascii c) - 48)
  | None => 0
  end.

Definition idFromName (name : string) : Z :=
  let l := String.length name in
  let last := digitAt name (l - 1) in
  let prev := digitAt name (l - 2) in
  let isDigit := Z.lxor 1 (wrap8 (Z.shiftr (prev + 246) 8)) in
  wrap8 (last + wrap8 (wrap8 (prev * 10) * isDigit)).

(** ** rvr_types.go: names *)
Definition idSuffixes : list string :=
  ["-0"; "-1"; "-2"; "-3"; "-4"; "-5"; "-6"; "-7";
   "-8"; "-9"; "-10"; "-11"; "-12"; "-13"; "-14"; "-15";
   "-16"; "-17"; "-18"; "-19"; "-20"; "-21"; "-22"; "-23";
   "-24"; "-25"; "-26"; "-27"; "-28"; "-29"; "-30"; "-31"].

Definition FormatReplicatedVolumeReplicaName (rvName : string) (id : Z) : outcome string :=
  if 31 <? id then Panic "id must be in range 0-31"
  else suffix ← index idSuffixes (Z.to_nat id); Ok (rvName +:+ suffix).

(** ** Enumerations *)
Inductive ReplicaType :=
| ReplicaTypeDiskful | ReplicaTypeTieBreaker | ReplicaTypeShadowDiskful | ReplicaTypeAccess
| ReplicaTypeOther (s : string).

Inductive DatameshMemberType :=
| MemberTypeDiskful | MemberTypeLiminalDiskful
| MemberTypeShadowDiskful | MemberTypeLiminalShadowDiskful
| MemberTypeTieBreaker | MemberTypeAccess
| MemberTypeOther (s : string).

Inductive TransitionType :=
| Formation | AddReplica | Attach | ChangeQuorum | ChangeReplicaType | ChangeSystemNetworks
| Detach | DisableMultiattach | EnableMultiattach | ForceDetach | ForceRemoveReplica
| RemoveReplica | RepairNetworkAddresses | ResizeVolume
| TransitionTypeOther (s : string).

Inductive TransitionGroup :=
| GroupFormation | GroupVotingMembership | GroupNonVotingMembership | GroupQuorum
| GroupAttachment | GroupMultiattach | GroupNetwork | GroupResize | GroupEmergency
| GroupOther (s : string).

Inductive StepStatus := StepPending | StepActive | StepCompleted | StepStatusOther (s : string).

Inductive RequestOperation :=
| OpJoin | OpLeave | OpForceLeave | OpForceDetach | OpChangeRole | OpChangeBackingVolume
| OpOther (s : string).

Inductive Topology := TopologyTransZonal | TopologyZonal | TopologyIgnored | TopologyOther (s : string).
Inductive VolumeAccess :=
| VolumeAccessLocal | VolumeAccessPreferablyLocal | VolumeAccessEventuallyLocal | VolumeAccessAny
| VolumeAccessOther (s : string).

#[export] Instance ReplicaType_eq_dec : EqDecision ReplicaType.
Proof. solve_decision. Defined.
#[export] Instance DatameshMemberType_eq_dec : EqDecision DatameshMemberType.
Proof. solve_decision. Defined.
#[export] Instance TransitionType_eq_dec : EqDecision TransitionType.
Proof. solve_decision. Defined.
#[export] Instance TransitionGroup_eq_dec : EqDecision TransitionGroup.
Proof. solve_decision. Defined.
#[export] Instance StepStatus_eq_dec : EqDecision StepStatus.
Proof. solve_decision. Defined.
#[export] Instance RequestOperation_eq_dec : EqDecision RequestOperation.
Proof. solve_decision. Defined.
#[export] Instance Topology_eq_dec : EqDecision Topology.
Proof. solve_decision. Defined.
#[export] Instance VolumeAccess_eq_dec : EqDecision VolumeAccess.
Proof. solve_decision. Defined.

Definition TransitionType_String (t : TransitionType) : string :=
  match t with
  | Formation => "Formation" | AddReplica => "AddReplica" | Attach => "Attach"
  | ChangeQuorum => "ChangeQuorum" | ChangeReplicaType => "ChangeReplicaType"
  | ChangeSystemNetworks => "ChangeSystemNetworks" | Detach => "Detach"
  | DisableMultiattach => "DisableMultiattach" | EnableMultiattach => "EnableMultiattach"
  | ForceDetach => "ForceDetach" | ForceRemoveReplica => "ForceRemoveReplica"
  | RemoveReplica => "RemoveReplica" | RepairNetworkAddresses => "RepairNetworkAddresses"
  | ResizeVolume => "ResizeVolume" | TransitionTypeOther s => s
  end.

Definition DatameshMemberType_String (t : DatameshMemberType) : string :=
  match t with
  | MemberTypeDiskful => "Diskful" | MemberTypeLiminalDiskful => "LiminalDiskful"
  | MemberTypeShadowDiskful => "ShadowDiskful"
  | MemberTypeLiminalShadowDiskful => "LiminalShadowDiskful"
  | MemberTypeTieBreaker => "TieBreaker" | MemberTypeAccess => "Access"
  | MemberTypeOther s => s
  end.

(** The Go conversion [DatameshMemberType(replicaType)]. *)
Definition MemberTypeOfReplicaType (t : ReplicaType) : DatameshMemberType :=
  match t with
  | ReplicaTypeDiskful => MemberTypeDiskful
  | ReplicaTypeTieBreaker => MemberTypeTieBreaker
  | ReplicaTypeShadowDiskful => MemberTypeShadowDiskful
  | ReplicaTypeAccess => MemberTypeAccess
  | ReplicaTypeOther s => MemberTypeOther s
  end.

Definition IsVoter (t : DatameshMemberType) : bool :=
  match t with MemberTypeDiskful | MemberTypeLiminalDiskful => true | _ => false end.

Definition HasBackingVolume (t : DatameshMemberType) : bool :=
  match t with MemberTypeDiskful | MemberTypeShadowDiskful => true | _ => false end.

Definition NeedsBackingVolume (t : DatameshMemberType) : bool :=
  match t with
  | MemberTypeDiskful | MemberTypeLiminalDiskful
  | MemberTypeShadowDiskful | MemberTypeLiminalShadowDiskful => true
  | _ => false
  end.

Definition ToLiminal (t : DatameshMemberType) : outcome DatameshMemberType :=
  match t with
  | MemberTypeDiskful => Ok MemberTypeLiminalDiskful
  | MemberTypeShadowDiskful => Ok MemberTypeLiminalShadowDiskful
  | _ => Panic ("no liminal variant for " +:+ DatameshMemberType_String t)
  end.

Definition ConnectsToAllPeers (t : DatameshMemberType) : bool :=
  match t with
  | MemberTypeDiskful | MemberTypeLiminalDiskful
  | MemberTypeShadowDiskful | MemberTypeLiminalShadowDiskful => true
  | _ => false
  end.

(** DiskState, ConnectionState and ReplicationState stay raw strings, as the agent reports them. *)
Definition DiskStateUpToDate : string := "UpToDate".
Definition ConnectionStateConnected : string := "Connected".
Definition IsSyncingState (s : string) : bool :=
  bool_decide (s ∈ ["SyncSource"; "SyncTarget"; "StartingSyncS"; "StartingSyncT";
    "PausedSyncS"; "PausedSyncT"; "WFBitMapS"; "WFBitMapT"; "WFSyncUUID"]).

(** ** Datamesh objects *)
Record DRBDResourceAddressStatus := { a_SystemNetworkName : string; a_Address : string * Z }.

#[export] Instance Address_eq_dec : EqDecision DRBDResourceAddressStatus.
Proof. solve_decision. Defined.

Record DatameshMember := {
  m_Name : string; m_Type : DatameshMemberType; m_NodeName : string; m_Zone : string;
  m_Addresses : list DRBDResourceAddressStatus;
  m_LVMVolumeGroupName : string; m_LVMVolumeGroupThinPoolName : string;
  m_Attached : bool;
}.
Definition m_ID (m : DatameshMember) : Z := idFromName (m_Name m).

Record DatameshMembershipRequest := {
  mr_Operation : RequestOperation; mr_Type : ReplicaType;
  mr_LVMVolumeGroupName : string; mr_ThinPoolName : string;
}.
Record DatameshReplicaRequest := {
  rq_Name : string; rq_Message : string; rq_Request : DatameshMembershipRequest; rq_FirstObservedAt : Time;
}.
Definition rq_ID (r : DatameshReplicaRequest) : Z := idFromName (rq_Name r).

Record TransitionStep := {
  s_Name : string; s_Status : StepStatus; s_DatameshRevision : Z;
  s_StartedAt : option Time; s_CompletedAt : option Time; s_Message : string;
}.

Record Transition := {
  t_Type : TransitionType; t_ReplicaName : string;
  t_ReplicaType : ReplicaType; t_FromReplicaType : ReplicaType; t_ToReplicaType : ReplicaType;
  t_FromSystemNetworkNames : list string; t_ToSystemNetworkNames : list string;
  t_Group : TransitionGroup; t_PlanID : string; t_Steps : list TransitionStep;
}.

(** ReplicaID: explicit panic on a transition without a replica name. *)
Definition ReplicaID (t : Transition) : outcome Z :=
  if String.eqb (t_ReplicaName t) "" then
    Panic ("ReplicaID called on transition without replicaName (type: "
           +:+ TransitionType_String (t_Type t) +:+ ")")
  else Ok (idFromName (t_ReplicaName t)).

Definition step_completed (s : TransitionStep) : bool := bool_decide (s_Status s = StepCompleted).

(** CurrentStep: the first non-Completed step. *)
Definition CurrentStep (t : Transition) : option TransitionStep :=
  List.find (λ s, negb (step_completed s)) (t_Steps t).
Definition IsCompleted (t : Transition) : bool := forallb step_completed (t_Steps t).

Record Configuration := {
  cfg_ReplicatedStoragePoolName : string; cfg_Topology : Topology;
  cfg_FailuresToTolerate : Z; cfg_GuaranteedMinimumDataRedundancy : Z;
  cfg_VolumeAccess : VolumeAccess;
}.
Definition QuorumMinimumRedundancy (c : Configuration) : Z :=
  cfg_GuaranteedMinimumDataRedundancy c +b 1.
Definition IntendedDiskfulCount (ftt gmdr : Z) : Z := ftt + gmdr + 1.
Definition TieBreakersForDiskful (diskful ftt : Z) : Z :=
  if (0 <? diskful) && (Z.rem diskful 2 =? 0) && (ftt =? Z.quot diskful 2) then 1 else 0.
Definition IntendedLayout (c : Configuration) : Z * Z :=
  let diskful := IntendedDiskfulCount (cfg_FailuresToTolerate c)
                   (cfg_GuaranteedMinimumDataRedundancy c) in
  (diskful, TieBreakersForDiskful diskful (cfg_FailuresToTolerate c)).

Record EligibleNodeLVMVolumeGroup := {
  lvg_Name : string; lvg_ThinPoolName : string; lvg_Unschedulable : bool; lvg_Ready : bool;
}.
Record EligibleNode := {
  en_NodeName : string; en_ZoneName : string; en_LVMVolumeGroups : list EligibleNodeLVMVolumeGroup;
  en_Unschedulable : bool; en_NodeReady : bool; en_AgentReady : bool;
}.

Record EffectiveLayout := {
  el_FailuresToTolerate : option Z; el_GuaranteedMinimumDataRedundancy : option Z;
  el_TotalVoters : Z; el_ReachableVoters : Z; el_UpToDateVoters : Z;
  el_TotalTieBreakers : Z; el_ReachableTieBreakers : Z; el_StaleAgents : Z;
  el_Message : string;
}.

Record PeerStatus := {
  p_Name : string; p_Type : ReplicaType; p_Attached : bool; p_ConnectionEstablishedOn : list string;
  p_ConnectionState : string; p_BackingVolumeState : string; p_ReplicationState : string;
}.
Definition p_ID (p : PeerStatus) : Z := idFromName (p_Name p).

Inductive AttachmentPhase :=
| PhasePending | PhaseAttaching | PhaseAttached | PhaseDetaching | PhaseTerminating | PhaseOther (s : string).
#[export] Instance AttachmentPhase_eq_dec : EqDecision AttachmentPhase.
Proof. solve_decision. Defined.

(** Labels are a Go map that may be nil. *)
Definition Labels : Type := option (gmap string string).

Record ReplicatedVolumeAttachment := {
  rva_Name : string; rva_Generation : Z; rva_CreationTimestamp : Time; rva_DeletionTimestamp : option Time;
  rva_Finalizers : list string; rva_Labels : Labels;
  rva_Spec_ReplicatedVolumeName : string; rva_NodeName : string;
  rva_Conditions : list Condition; rva_Phase : AttachmentPhase; rva_Message : string;
  rva_DevicePath : string; rva_IOSuspended : option bool; rva_InUse : option bool;
}.
#[export] Instance rebuild_rva : Rebuild ReplicatedVolumeAttachment := λ r,
  {| rva_Name := rva_Name r; rva_Generation := rva_Generation r; rva_CreationTimestamp := rva_CreationTimestamp r;
     rva_DeletionTimestamp := rva_DeletionTimestamp r; rva_Finalizers := rva_Finalizers r; rva_Labels := rva_Labels r;
     rva_Spec_ReplicatedVolumeName := rva_Spec_ReplicatedVolumeName r; rva_NodeName := rva_NodeName r;
     rva_Conditions := rva_Conditions r; rva_Phase := rva_Phase r; rva_Message := rva_Message r;
     rva_DevicePath := rva_DevicePath r; rva_IOSuspended := rva_IOSuspended r; rva_InUse := rva_InUse r |}.

Inductive ConfigurationMode := ModeAuto | ModeManual | ModeOther (s : string).
#[export] Instance ConfigurationMode_eq_dec : EqDecision ConfigurationMode.
Proof. solve_decision. Defined.

Inductive DRBDResourceType := DRBDDiskful | DRBDDiskless | DRBDTypeOther (s : string).
#[export] Instance DRBDResourceType_eq_dec : EqDecision DRBDResourceType.
Proof. solve_decision. Defined.
Record QuorumSummary := {
  qs_ConnectedDiskfulPeers : Z; qs_ConnectedTieBreakerPeers : Z; qs_ConnectedUpToDatePeers : Z;
  qs_Quorum : option Z; qs_QuorumMinimumRedundancy : option Z;
}.
#[export] Instance QuorumSummary_eq_dec : EqDecision QuorumSummary.
Proof. solve_decision. Defined.
Record DRBDRReconciliationCache := {
  rc_DatameshRevision : Z; rc_DRBDRGeneration : Z; rc_TargetType : DatameshMemberType;
}.
#[export] Instance DRBDRReconciliationCache_eq_dec : EqDecision DRBDRReconciliationCache.
Proof. solve_decision. Defined.

Record AttachmentStatus := { at_DevicePath : string; at_IOSuspended : bool; at_InUse : bool }.
#[export] Instance AttachmentStatus_eq_dec : EqDecision AttachmentStatus.
Proof. solve_decision. Defined.

Section objects.
Context `{K8s}.

Record BackingVolumeStatus := {
  bv_State : string; bv_Size : option Quantity;
  bv_LVMVolumeGroupName : string; bv_LVMVolumeGroupThinPoolName : string;
}.

Record ReplicatedVolumeReplica := {
  rvr_Name : string; rvr_UID : string; rvr_Generation : Z; rvr_CreationTimestamp : Time; rvr_DeletionTimestamp : option Time;
  rvr_Finalizers : list string; rvr_Labels : Labels; rvr_Spec_ReplicatedVolumeName : string;
  rvr_Spec_NodeName : string; rvr_Spec_Type : ReplicaType;
  rvr_Spec_LVMVolumeGroupName : string; rvr_Spec_LVMVolumeGroupThinPoolName : string;
  rvr_Conditions : list Condition;
  rvr_DatameshRequest : option DatameshMembershipRequest; rvr_DatameshRevision : Z;
  rvr_DatameshRevisionObservedByAgent : Z;
  rvr_Addresses : list DRBDResourceAddressStatus;
  rvr_Quorum : option bool; rvr_Size : option Quantity; rvr_BackingVolume : option BackingVolumeStatus;
  rvr_Peers : list PeerStatus; rvr_Attachment : option AttachmentStatus;
  rvr_Phase : string; rvr_Message : string; rvr_Status_Type : DRBDResourceType;
  rvr_QuorumSummary : option QuorumSummary; rvr_InitialQuorumReachedAt : option Time;
  rvr_DRBDRReconciliationCache : DRBDRReconciliationCache;
}.
#[export] Instance rebuild_rvr : Rebuild ReplicatedVolumeReplica := λ r,
  {| rvr_Name := rvr_Name r; rvr_UID := rvr_UID r; rvr_Labels := rvr_Labels r; rvr_Generation := rvr_Generation r; rvr_CreationTimestamp := rvr_CreationTimestamp r;
     rvr_DeletionTimestamp := rvr_DeletionTimestamp r; rvr_Finalizers := rvr_Finalizers r;
     rvr_Spec_ReplicatedVolumeName := rvr_Spec_ReplicatedVolumeName r; rvr_Spec_NodeName := rvr_Spec_NodeName r;
     rvr_Spec_Type := rvr_Spec_Type r; rvr_Spec_LVMVolumeGroupName := rvr_Spec_LVMVolumeGroupName r;
     rvr_Spec_LVMVolumeGroupThinPoolName := rvr_Spec_LVMVolumeGroupThinPoolName r; rvr_Conditions := rvr_Conditions r;
     rvr_DatameshRequest := rvr_DatameshRequest r; rvr_DatameshRevision := rvr_DatameshRevision r;
     rvr_DatameshRevisionObservedByAgent := rvr_DatameshRevisionObservedByAgent r; rvr_Addresses := rvr_Addresses r;
     rvr_Quorum := rvr_Quorum r; rvr_Size := rvr_Size r; rvr_BackingVolume := rvr_BackingVolume r;
     rvr_Peers := rvr_Peers r; rvr_Attachment := rvr_Attachment r; rvr_Phase := rvr_Phase r; rvr_Message := rvr_Message r;
     rvr_Status_Type := rvr_Status_Type r; rvr_QuorumSummary := rvr_QuorumSummary r;
     rvr_InitialQuorumReachedAt := rvr_InitialQuorumReachedAt r;
     rvr_DRBDRReconciliationCache := rvr_DRBDRReconciliationCache r |}.
Definition rvr_ID (r : ReplicatedVolumeReplica) : Z := idFromName (rvr_Name r).
(** The zero object of Go. *)
Definition zeroRVR : ReplicatedVolumeReplica :=
  {| rvr_Name := ""; rvr_UID := ""; rvr_Labels := None; rvr_Generation := 0; rvr_CreationTimestamp := 0; rvr_DeletionTimestamp := None;
     rvr_Finalizers := []; rvr_Spec_ReplicatedVolumeName := ""; rvr_Spec_NodeName := "";
     rvr_Spec_Type := ReplicaTypeOther ""; rvr_Spec_LVMVolumeGroupName := "";
     rvr_Spec_LVMVolumeGroupThinPoolName := ""; rvr_Conditions := []; rvr_DatameshRequest := None;
     rvr_DatameshRevision := 0; rvr_DatameshRevisionObservedByAgent := 0; rvr_Addresses := []; rvr_Quorum := None;
     rvr_Size := None; rvr_BackingVolume := None; rvr_Peers := []; rvr_Attachment := None;
     rvr_Phase := ""; rvr_Message := ""; rvr_Status_Type := DRBDTypeOther ""; rvr_QuorumSummary := None;
     rvr_InitialQuorumReachedAt := None;
     rvr_DRBDRReconciliationCache := {| rc_DatameshRevision := 0; rc_DRBDRGeneration := 0; rc_TargetType := MemberTypeOther "" |} |}.

Record ReplicatedVolume := {
  rv_Name : string; rv_Generation : Z; rv_DeletionTimestamp : option Time;
  rv_Finalizers : list string; rv_Labels : Labels; rv_Annotations : gmap string string;
  rv_Spec_Size : Quantity; rv_Spec_MaxAttachments : option Z;
  rv_Spec_ReplicatedStorageClassName : string;
  rv_Spec_ConfigurationMode : ConfigurationMode; rv_Spec_ManualConfiguration : option Configuration;
  rv_Conditions : list Condition;
  rv_Configuration : option Configuration; rv_ConfigurationGeneration : Z; rv_ConfigurationObservedGeneration : Z;
  rv_Status_Size : option Quantity; rv_MembershipLayout : option string;
  rv_DatameshRevision : Z;
  rv_SharedSecret : string; rv_SharedSecretAlg : string;
  rv_Quorum : Z; rv_QuorumMinimumRedundancy : Z; rv_Multiattach : bool;
  rv_SystemNetworkNames : list string; rv_Size : Quantity;
  rv_Members : list DatameshMember;
  rv_BaselineGMDR : Z;
  rv_DatameshReplicaRequests : list DatameshReplicaRequest;
  rv_DatameshTransitions : list Transition;
  rv_EffectiveLayout : EffectiveLayout;
}.
#[export] Instance rebuild_rv : Rebuild ReplicatedVolume := λ rv,
  {| rv_Name := rv_Name rv; rv_Generation := rv_Generation rv; rv_DeletionTimestamp := rv_DeletionTimestamp rv;
     rv_Finalizers := rv_Finalizers rv; rv_Labels := rv_Labels rv; rv_Annotations := rv_Annotations rv;
     rv_Spec_Size := rv_Spec_Size rv; rv_Spec_MaxAttachments := rv_Spec_MaxAttachments rv;
     rv_Spec_ReplicatedStorageClassName := rv_Spec_ReplicatedStorageClassName rv;
     rv_Spec_ConfigurationMode := rv_Spec_ConfigurationMode rv;
     rv_Spec_ManualConfiguration := rv_Spec_ManualConfiguration rv; rv_Conditions := rv_Conditions rv;
     rv_Configuration := rv_Configuration rv; rv_ConfigurationGeneration := rv_ConfigurationGeneration rv;
     rv_ConfigurationObservedGeneration := rv_ConfigurationObservedGeneration rv; rv_Status_Size := rv_Status_Size rv;
     rv_MembershipLayout := rv_MembershipLayout rv; rv_DatameshRevision := rv_DatameshRevision rv;
     rv_SharedSecret := rv_SharedSecret rv; rv_SharedSecretAlg := rv_SharedSecretAlg rv; rv_Quorum := rv_Quorum rv;
     rv_QuorumMinimumRedundancy := rv_QuorumMinimumRedundancy rv; rv_Multiattach := rv_Multiattach rv;
     rv_SystemNetworkNames := rv_SystemNetworkNames rv; rv_Size := rv_Size rv; rv_Members := rv_Members rv;
     rv_BaselineGMDR := rv_BaselineGMDR rv; rv_DatameshReplicaRequests := rv_DatameshReplicaRequests rv;
     rv_DatameshTransitions := rv_DatameshTransitions rv; rv_EffectiveLayout := rv_EffectiveLayout rv |}.

(** ** objutilv1: fluent condition checks, as the three chains the code uses *)
Definition StatusCondition (r : ReplicatedVolumeReplica) (ty : string) : option Condition :=
  FindStatusCondition (rvr_Conditions r) ty.

(** StatusCondition(..).ReasonEqual(reason).Eval() *)
Definition condReasonEqual (r : ReplicatedVolumeReplica) (ty reason : string) : bool :=
  match StatusCondition r ty with Some c => String.eqb (c_Reason c) reason | None => false end.
(** StatusCondition(..).IsTrue().Eval() *)
Definition condIsTrue (r : ReplicatedVolumeReplica) (ty : string) : bool :=
  match StatusCondition r ty with Some c => String.eqb (c_Status c) ConditionTrue | None => false end.
(** StatusCondition(..).IsTrue().ObservedGenerationCurrent().Eval() *)
Definition condIsTrueCurrent (r : ReplicatedVolumeReplica) (ty : string) : bool :=
  match StatusCondition r ty with
  | Some c => String.eqb (c_Status c) ConditionTrue && (c_ObservedGeneration c =? rvr_Generation r)
  | None => false
  end.

(** ChooseNewName: the first ID not used by another replica of the same volume, or nil. *)
Definition ChooseNewName (rvName : string) (otherRVRs : list ReplicatedVolumeReplica) :
    outcome (option string) :=
  let reserved := foldl (λ s o, if String.eqb (rvr_Spec_ReplicatedVolumeName o) rvName
                                then Z.lor s (idset.bit (rvr_ID o)) else s) 0 otherRVRs in
  let free := Z.lxor reserved idset.AllIDs in
  if free =? 0 then Ok None
  else Some <$> FormatReplicatedVolumeReplicaName rvName (wrap8 (bits.TrailingZeros32 free)).

End objects.

(** Condition types and reasons. *)
Definition CondDRBDConfiguredType : string := "DRBDConfigured".
Definition CondReadyType : string := "Ready".
Definition ReasonAgentNotReady : string := "AgentNotReady".
Definition ReasonPendingDatameshJoin : string := "PendingDatameshJoin".

Module AttachedReason.
Definition Attached : string := "Attached".
Definition Attaching : string := "Attaching".
Definition Detached : string := "Detached".
Definition Detaching : string := "Detaching".
Definition VolumeAccessLocalityNotSatisfied : string := "VolumeAccessLocalityNotSatisfied".
Definition NodeNotEligible : string := "NodeNotEligible".
Definition Pending : string := "Pending".
Definition ReplicatedVolumeTerminating : string := "ReplicatedVolumeTerminating".
Definition WaitingForReplica : string := "WaitingForReplica".
End AttachedReason.

(** Struct updates used by the callbacks. *)
Definition set_m_Type (ty : DatameshMemberType) (m : DatameshMember) : DatameshMember :=
  {| m_Name := m_Name m; m_Type := ty; m_NodeName := m_NodeName m; m_Zone := m_Zone m;
     m_Addresses := m_Addresses m; m_LVMVolumeGroupName := m_LVMVolumeGroupName m;
     m_LVMVolumeGroupThinPoolName := m_LVMVolumeGroupThinPoolName m; m_Attached := m_Attached m |}.
Definition set_m_Zone (z : string) (m : DatameshMember) : DatameshMember :=
  {| m_Name := m_Name m; m_Type := m_Type m; m_NodeName := m_NodeName m; m_Zone := z;
     m_Addresses := m_Addresses m; m_LVMVolumeGroupName := m_LVMVolumeGroupName m;
     m_LVMVolumeGroupThinPoolName := m_LVMVolumeGroupThinPoolName m; m_Attached := m_Attached m |}.
Definition set_m_Addresses (a : list DRBDResourceAddressStatus) (m : DatameshMember) : DatameshMember :=
  {| m_Name := m_Name m; m_Type := m_Type m; m_NodeName := m_NodeName m; m_Zone := m_Zone m;
     m_Addresses := a; m_LVMVolumeGroupName := m_LVMVolumeGroupName m;
     m_LVMVolumeGroupThinPoolName := m_LVMVolumeGroupThinPoolName m; m_Attached := m_Attached m |}.
Definition set_m_Attached (b : bool) (m : DatameshMember) : DatameshMember :=
  {| m_Name := m_Name m; m_Type := m_Type m; m_NodeName := m_NodeName m; m_Zone := m_Zone m;
     m_Addresses := m_Addresses m; m_LVMVolumeGroupName := m_LVMVolumeGroupName m;
     m_LVMVolumeGroupThinPoolName := m_LVMVolumeGroupThinPoolName m; m_Attached := b |}.
Definition set_m_BackingVolume (vg tp : string) (m : DatameshMember) : DatameshMember :=
  {| m_Name := m_Name m; m_Type := m_Type m; m_NodeName := m_NodeName m; m_Zone := m_Zone m;
     m_Addresses := m_Addresses m; m_LVMVolumeGroupName := vg;
     m_LVMVolumeGroupThinPoolName := tp; m_Attached := m_Attached m |}.

Definition set_t_Steps (steps : list TransitionStep) (t : Transition) : Transition :=
  {| t_Type := t_Type t; t_ReplicaName := t_ReplicaName t; t_ReplicaType := t_ReplicaType t;
     t_FromReplicaType := t_FromReplicaType t; t_ToReplicaType := t_ToReplicaType t;
     t_FromSystemNetworkNames := t_FromSystemNetworkNames t;
     t_ToSystemNetworkNames := t_ToSystemNetworkNames t;
     t_Group := t_Group t; t_PlanID := t_PlanID t; t_Steps := steps |}.

(** The zero Transition. *)
Definition zeroTransition : Transition :=
  {| t_Type := TransitionTypeOther ""; t_ReplicaName := ""; t_ReplicaType := ReplicaTypeOther "";
     t_FromReplicaType := ReplicaTypeOther ""; t_ToReplicaType := ReplicaTypeOther "";
     t_FromSystemNetworkNames := []; t_ToSystemNetworkNames := [];
     t_Group := GroupOther ""; t_PlanID := ""; t_Steps := [] |}.

End v1alpha1.
Import idset v1alpha1.

(** ** Names and IDs *)

Lemma get_app_r (a b : string) n :
  String.get (String.length a + n) (a +:+ b) = String.get n b.
Proof. rewrite Nat.add_comm. symmetry. apply append_correct2. Qed.

Lemma length_app_s (a b : string) :
  String.length (a +:+ b) = (String.length a + String.length b)%nat.
Proof. induction a as [|c a IH]; [done|]. apply (f_equal S), IH. Qed.

Lemma digitAt_app (a b : string) n : digitAt (a +:+ b) (String.length a + n) = digitAt b n.
Proof. unfold digitAt. by rewrite get_app_r. Qed.

(** Only the last two bytes matter. *)
Lemma idFromName_app (a b : string) : (2 ≤ String.length b)%nat →
  idFromName (a +:+ b) = idFromName b.
Proof.
  intros Hb. unfold idFromName. rewrite length_app_s.
  replace (String.length a + String.length b - 1)%nat
    with (String.length a + (String.length b - 1))%nat by lia.
  replace (String.length a + String.length b - 2)%nat
    with (String.length a + (String.length b - 2))%nat by lia.
  by rewrite !digitAt_app.
Qed.

Lemma idFromName_nonneg n : 0 ≤ idFromName n.
Proof. apply wrap8_range. Qed.
Lemma idSuffixes_ok n s : idSuffixes !! n = Some s →
  (2 ≤ String.length s)%nat ∧ idFromName s = Z.of_nat n.
Proof.
  intros H. assert (Forall (λ p, (2 ≤ String.length p.2)%nat ∧ idFromName p.2 = Z.of_nat p.1)
    (zip (seq 0 32) idSuffixes)) as Hf by
    (repeat (constructor; [split; [simpl; lia|vm_compute; reflexivity]|]); constructor).
  rewrite Forall_lookup in Hf. apply (Hf n (n, s)).
  apply lookup_zip_with_Some. exists n, s. split_and!; [done| |done].
  apply lookup_seq. split; [done|]. apply lookup_lt_Some in H. exact H.
Qed.

Lemma idFromName_Format_props (rvName : string) (id : Z) : 0 ≤ id →
  match FormatReplicatedVolumeReplicaName rvName id with
  | Ok name => id ≤ 31 ∧ idFromName name = id
  | Panic msg => 31 < id ∧ msg = "id must be in range 0-31"
  | OutOfFuel => False
  end.
Proof.
  intros Hid. unfold FormatReplicatedVolumeReplicaName. destruct (Z.ltb_spec 31 id); [done|].
  unfold index. destruct (idSuffixes !! Z.to_nat id) as [s|] eqn:E.
  - apply idSuffixes_ok in E as [Hl E]. simpl. rewrite idFromName_app, E by done. lia.
  - apply lookup_ge_None in E. change (length idSuffixes) with 32%nat in E. lia.
Qed.

(** A replica name built for an ID in 0..31 parses back to that ID, whatever the volume name;
    for a larger ID the formatter panics. *)
Theorem idFromName_Format (rvName : string) (id : Z) : 0 ≤ id →
  match FormatReplicatedVolumeReplicaName rvName id with
  | Ok name => id ≤ 31 ∧ idFromName name = id
  | Panic msg => 31 < id ∧ msg = "id must be in range 0-31"
  | OutOfFuel => False
  end.
Proof. apply idFromName_Format_props. Qed.
Lemma idFromName_Format_witness :
  FormatReplicatedVolumeReplicaName "pvc-12" 30 = Ok "pvc-12-30" ∧ idFromName "pvc-12-30" = 30.
Proof.
  split; [vm_compute; reflexivity|].
  exact (proj2 (idFromName_Format "pvc-12" 30 ltac:(lia))).
Defined.

Section choose.
Context `{K8s}.

Lemma reserved_spec rvName (l : list ReplicatedVolumeReplica) s j :
  valid_id j → wf_set s → Forall (λ o, valid_id (rvr_ID o)) l →
  let r := foldl (λ s o, if String.eqb (rvr_Spec_ReplicatedVolumeName o) rvName
             then Z.lor s (idset.bit (rvr_ID o)) else s) s l in
  wf_set r ∧
  Contains r j = Contains s j || existsb (λ o, String.eqb (rvr_Spec_ReplicatedVolumeName o) rvName && (j =? rvr_ID o)) l.
Proof.
  intros Hj. revert s. induction l as [|o l IH]; intros s Hs Hl; simpl.
  { by rewrite orb_false_r. }
  inversion_clear Hl as [|?? [Ho ?] Hl']. destruct (String.eqb (rvr_Spec_ReplicatedVolumeName o) rvName); simpl.
  - fold (Add s (rvr_ID o)). destruct (IH (Add s (rvr_ID o))) as [? ->]; [by auto with go|done|].
    split; [done|]. rewrite Contains_Add by done. by rewrite orb_assoc.
  - apply IH; done.
Qed.

(** ChooseNewName returns a name of the volume whose ID no other replica of the same volume
    uses, the smallest such ID, and returns nothing exactly when all 32 IDs are taken; it never
    panics. *)
Theorem ChooseNewName_fresh rvName (others : list ReplicatedVolumeReplica) :
  Forall (λ o, valid_id (rvr_ID o)) others →
  let used id := ∃ o, o ∈ others ∧ rvr_Spec_ReplicatedVolumeName o = rvName ∧ rvr_ID o = id in
  match ChooseNewName rvName others with
  | Ok (Some name) => valid_id (idFromName name) ∧ ¬ used (idFromName name) ∧
                      ∀ j, 0 ≤ j < idFromName name → used j
  | Ok None => ∀ j, valid_id j → used j
  | _ => False
  end.
Proof.
  intros Hl used. unfold ChooseNewName.
  set (r := foldl _ 0 others).
  assert (Hr : wf_set r) by (apply (reserved_spec rvName others 0 0); auto with go; done).
  assert (Hu : ∀ j, valid_id j → Contains r j = true ↔ used j).
  { intros j Hj. unfold r. destruct (reserved_spec rvName others 0 j) as [_ ->]; [done|apply wf_empty|done|].
    rewrite Contains_empty by done. simpl. rewrite existsb_exists. unfold used.
    setoid_rewrite <-list_elem_of_In. split.
    - intros (o & ? & [?%String.eqb_eq ?]%andb_prop). exists o. split_and!; [done|done|lia].
    - intros (o & ? & E1 & E2). exists o. by rewrite E1, E2, String.eqb_refl, Z.eqb_refl. }
  pose proof (MinMissing_props r Hr) as HM. unfold MinMissing in HM. simpl.
  destruct (Z.lxor r AllIDs =? 0); simpl in *.
  - intros j Hj. by apply Hu, HM.
  - set (i := wrap8 _) in *. destruct HM as (Hv & Hn & Hlt).
    pose proof (idFromName_Format_props rvName i (proj1 Hv)) as HF.
    destruct (FormatReplicatedVolumeReplicaName rvName i) as [n| |]; simpl;
      unfold valid_id in *; [|lia|done].
    destruct HF as [_ ->]. split; [done|]. split.
    + rewrite <-Hu by done. by rewrite Hn.
    + intros j Hj. apply Hu; [unfold valid_id; lia|]. by apply Hlt.
Qed.
End choose.

(** A volume whose replicas 0 and 1 exist gets the name ending in -2. *)
Definition rvrOf `{K8s} (rvName name : string) : ReplicatedVolumeReplica :=
  zeroRVR <| rvr_Spec_ReplicatedVolumeName := rvName |> <| rvr_Name := name |>.
Lemma ChooseNewName_fresh_witness :
  let others := [@rvrOf K8s_concrete "v" "v-0"; @rvrOf K8s_concrete "w" "w-2"; @rvrOf K8s_concrete "v" "v-1"] in
  @ChooseNewName K8s_concrete "v" others = Ok (Some "v-2") ∧
  valid_id (idFromName "v-2").
Proof.
  intros others. assert (E : @ChooseNewName K8s_concrete "v" others = Ok (Some "v-2")) by (vm_compute; reflexivity).
  pose proof (@ChooseNewName_fresh K8s_concrete "v" others) as H. rewrite E in H. split; [exact E|].
  apply H. repeat (constructor; [vm_compute; split; congruence|]). constructor.
Defined.
