(* ===== verification/Object.v ===== *)
(** * api/objutilv1: finalizers, labels, annotations and conditions of API objects

    Go interfaces are type classes ([metav1.Object], [StatusConditionObject]) with their laws; the
    helpers are written against them.  apimachinery's [meta.SetStatusCondition] and
    [meta.RemoveStatusCondition] are the class parameter [MetaApi] with their documentation in
    [MetaLaws]. *)

From Stdlib Require Import ZArith Lia String Ascii.
From stdpp Require Import base gmap list numbers strings option.
From S2P Require Import Prelude IdSet DrbdSize Api.

Class MetaApi := {
  meta_SetStatusCondition : list Condition → Condition → bool * list Condition;
  meta_RemoveStatusCondition : list Condition → string → bool * list Condition;
}.

(** Two conditions that say the same, whatever the time of the last transition. *)
Definition sameVerdict (a b : Condition) : bool :=
  String.eqb (c_Type a) (c_Type b) && String.eqb (c_Status a) (c_Status b) &&
  String.eqb (c_Reason a) (c_Reason b) && String.eqb (c_Message a) (c_Message b) &&
  (c_ObservedGeneration a =? c_ObservedGeneration b).

(** "SetStatusCondition sets the corresponding condition in conditions to newCondition and returns true
    if the conditions are changed by this call"; RemoveStatusCondition "removes the corresponding
    conditionType from conditions if present. Returns true if it was present and got removed". *)
Class MetaLaws `{K8s} {M : MetaApi} : Prop := {
  set_this cs c : ∃ c', FindStatusCondition (meta_SetStatusCondition cs c).2 (c_Type c) = Some c' ∧ sameVerdict c' c = true;
  set_other cs c ty : ty ≠ c_Type c →
    FindStatusCondition (meta_SetStatusCondition cs c).2 ty = FindStatusCondition cs ty;
  set_unchanged cs c : (meta_SetStatusCondition cs c).1 = false → (meta_SetStatusCondition cs c).2 = cs;
  remove_this cs ty : FindStatusCondition (meta_RemoveStatusCondition cs ty).2 ty = None;
  remove_other cs ty ty' : ty' ≠ ty →
    FindStatusCondition (meta_RemoveStatusCondition cs ty).2 ty' = FindStatusCondition cs ty';
  remove_unchanged cs ty : (meta_RemoveStatusCondition cs ty).1 = false → (meta_RemoveStatusCondition cs ty).2 = cs;
}.

(** An implementation: the condition of the type is updated in place or appended. *)
Definition updated (old c : Condition) : Condition :=
  {| c_Type := c_Type c; c_Status := c_Status c; c_ObservedGeneration := c_ObservedGeneration c;
     c_LastTransitionTime := if String.eqb (c_Status old) (c_Status c) then c_LastTransitionTime old else c_LastTransitionTime c;
     c_Reason := c_Reason c; c_Message := c_Message c |}.
Fixpoint setIn (cs : list Condition) (c : Condition) : bool * list Condition :=
  match cs with
  | [] => (true, [c])
  | old :: rest =>
      if String.eqb (c_Type old) (c_Type c)
      then if sameVerdict old c then (false, cs) else (true, updated old c :: rest)
      else let '(changed, rest) := setIn rest c in (changed, old :: rest)
  end.
Definition MetaApi_concrete : MetaApi := {|
  meta_SetStatusCondition := setIn;
  meta_RemoveStatusCondition cs ty :=
    if existsb (λ c, String.eqb (c_Type c) ty) cs
    then (true, List.filter (λ c, negb (String.eqb (c_Type c) ty)) cs) else (false, cs);
|}.

Lemma sameVerdict_type a b : sameVerdict a b = true → c_Type a = c_Type b.
Proof. unfold sameVerdict. rewrite !andb_true_iff. intros [[[[?%String.eqb_eq ?] ?] ?] ?]. done. Qed.
Lemma sameVerdict_refl a : sameVerdict a a = true.
Proof. unfold sameVerdict. by rewrite !String.eqb_refl, Z.eqb_refl. Qed.
Lemma updated_verdict old c : sameVerdict (updated old c) c = true.
Proof. unfold sameVerdict. simpl. by rewrite !String.eqb_refl, Z.eqb_refl. Qed.

Notation find_type ty := (List.find (λ c, String.eqb (c_Type c) ty)).
Lemma setIn_this cs c : ∃ c', find_type (c_Type c) (setIn cs c).2 = Some c' ∧ sameVerdict c' c = true.
Proof.
  induction cs as [|old cs IH]; simpl.
  - exists c. by rewrite String.eqb_refl, sameVerdict_refl.
  - destruct (String.eqb (c_Type old) (c_Type c)) eqn:E.
    + destruct (sameVerdict old c) eqn:Ev; simpl.
      * exists old. by rewrite E.
      * exists (updated old c). by rewrite String.eqb_refl, updated_verdict.
    + destruct (setIn cs c) as [b rest]. simpl in *. by rewrite E.
Qed.
Lemma setIn_other cs c ty : ty ≠ c_Type c → find_type ty (setIn cs c).2 = find_type ty cs.
Proof.
  intros Hne. apply not_eq_sym, String.eqb_neq in Hne. induction cs as [|old cs IH]; simpl; [by rewrite Hne|].
  destruct (String.eqb (c_Type old) (c_Type c)) eqn:E.
  - apply String.eqb_eq in E. destruct (sameVerdict old c); simpl; [done|]. by rewrite E, Hne.
  - destruct (setIn cs c) as [b rest]. simpl in *. by rewrite IH.
Qed.
Lemma setIn_unchanged cs c : (setIn cs c).1 = false → (setIn cs c).2 = cs.
Proof.
  induction cs as [|old cs IH]; simpl; [done|].
  destruct (String.eqb _ _); [by destruct (sameVerdict old c)|].
  destruct (setIn cs c) as [b rest]. simpl in *. intros ->. by rewrite IH.
Qed.
Lemma find_filter_type ty ty' cs :
  find_type ty' (List.filter (λ c, negb (String.eqb (c_Type c) ty)) cs) =
  if String.eqb ty' ty then None else find_type ty' cs.
Proof.
  induction cs as [|c cs IH]; simpl; [by destruct (String.eqb ty' ty)|].
  destruct (String.eqb (c_Type c) ty) eqn:E; simpl; rewrite IH; destruct (String.eqb ty' ty) eqn:E'; try done.
  - apply String.eqb_eq in E as ->. by rewrite (String.eqb_sym ty ty'), E'.
  - apply String.eqb_eq in E' as ->. by rewrite E.
Qed.
Lemma MetaApi_concrete_laws : @MetaLaws K8s_concrete MetaApi_concrete.
Proof.
  split; cbn [meta_SetStatusCondition meta_RemoveStatusCondition MetaApi_concrete].
  - apply setIn_this.
  - apply setIn_other.
  - apply setIn_unchanged.
  - intros cs ty. cbn [FindStatusCondition K8s_concrete]. destruct (existsb _ cs) eqn:E; simpl.
    + by rewrite find_filter_type, String.eqb_refl.
    + induction cs as [|c cs IH]; simpl in *; [done|]. apply orb_false_iff in E as [-> E]. by apply IH.
  - intros cs ty ty' Hne. apply String.eqb_neq in Hne. cbn [FindStatusCondition K8s_concrete].
    destruct (existsb _ cs); simpl; [|done]. by rewrite find_filter_type, Hne.
  - intros cs ty. by destruct (existsb _ cs).
Qed.

Module objutilv1.

(** ** The interfaces *)
Class MetaObject (T : Type) := {
  GetName : T → string; GetGeneration : T → Z; GetDeletionTimestamp : T → option Time;
  GetFinalizers : T → list string; SetFinalizers : list string → T → T;
  GetLabels : T → v1alpha1.Labels; SetLabels : v1alpha1.Labels → T → T;
}.
Class StatusConditionObject (T : Type) := {
  sco_object :: MetaObject T;
  GetStatusConditions : T → list Condition; SetStatusConditions : list Condition → T → T;
}.
Class StatusConditionLaws (T : Type) `{StatusConditionObject T} : Prop := {
  get_set_conditions cs (o : T) : GetStatusConditions (SetStatusConditions cs o) = cs;
  generation_set_conditions cs (o : T) : GetGeneration (SetStatusConditions cs o) = GetGeneration o;
}.

Section objects.
Import v1alpha1.
Context `{K8s}.
#[export] Instance rv_object : StatusConditionObject ReplicatedVolume := {|
  sco_object := {|
    GetName := rv_Name; GetGeneration := rv_Generation; GetDeletionTimestamp := rv_DeletionTimestamp;
    GetFinalizers := rv_Finalizers; SetFinalizers fs o := o <| rv_Finalizers := fs |>;
    GetLabels := rv_Labels; SetLabels ls o := o <| rv_Labels := ls |> |};
  GetStatusConditions := rv_Conditions; SetStatusConditions cs o := o <| rv_Conditions := cs |> |}.
#[export] Instance rvr_object : StatusConditionObject ReplicatedVolumeReplica := {|
  sco_object := {|
    GetName := rvr_Name; GetGeneration := rvr_Generation; GetDeletionTimestamp := rvr_DeletionTimestamp;
    GetFinalizers := rvr_Finalizers; SetFinalizers fs o := o <| rvr_Finalizers := fs |>;
    GetLabels := rvr_Labels; SetLabels ls o := o <| rvr_Labels := ls |> |};
  GetStatusConditions := rvr_Conditions; SetStatusConditions cs o := o <| rvr_Conditions := cs |> |}.
#[export] Instance rva_object : StatusConditionObject ReplicatedVolumeAttachment := {|
  sco_object := {|
    GetName := rva_Name; GetGeneration := rva_Generation; GetDeletionTimestamp := rva_DeletionTimestamp;
    GetFinalizers := rva_Finalizers; SetFinalizers fs o := o <| rva_Finalizers := fs |>;
    GetLabels := rva_Labels; SetLabels ls o := o <| rva_Labels := ls |> |};
  GetStatusConditions := rva_Conditions; SetStatusConditions cs o := o <| rva_Conditions := cs |> |}.
#[export] Instance rv_object_laws : StatusConditionLaws ReplicatedVolume.
Proof. by split. Qed.
#[export] Instance rvr_object_laws : StatusConditionLaws ReplicatedVolumeReplica.
Proof. by split. Qed.
#[export] Instance rva_object_laws : StatusConditionLaws ReplicatedVolumeAttachment.
Proof. by split. Qed.
End objects.

(** ** finalizers.go *)
Section finalizers.
Context {T : Type} `{MetaObject T}.
Implicit Types (o : T) (f : string).

Definition HasFinalizer o f : bool := slices_Contains (GetFinalizers o) f.
Definition AddFinalizer o f : bool * T :=
  if slices_Contains (GetFinalizers o) f then (false, o) else (true, SetFinalizers (GetFinalizers o ++ [f]) o).
(** slices.Index and slices.Delete of one element: the first occurrence. *)
Fixpoint removeFirst (f : string) (l : list string) : list string :=
  match l with
  | [] => []
  | x :: l => if String.eqb x f then l else x :: removeFirst f l
  end.
Definition RemoveFinalizer o f : bool * T :=
  if slices_Contains (GetFinalizers o) f then (true, SetFinalizers (removeFirst f (GetFinalizers o)) o) else (false, o).
Definition HasFinalizersOtherThan o (allowed : list string) : bool :=
  existsb (λ f, negb (slices_Contains allowed f)) (GetFinalizers o).

(** ** labels.go *)
Definition HasLabel o (key : string) : bool :=
  match GetLabels o with Some m => bool_decide (is_Some (m !! key)) | None => false end.
(** A missing key reads as the empty string, except in the nil map. *)
Definition HasLabelValue o (key value : string) : bool :=
  match GetLabels o with Some m => String.eqb (default "" (m !! key)) value | None => false end.
Definition SetLabel o (key value : string) : bool * T :=
  let m := default ∅ (GetLabels o) in
  match m !! key with
  | Some v => if String.eqb v value then (false, o) else (true, SetLabels (Some (<[key := value]> m)) o)
  | None => (true, SetLabels (Some (<[key := value]> m)) o)
  end.
Definition RemoveLabel o (key : string) : bool * T :=
  match GetLabels o with
  | Some m => if bool_decide (is_Some (m !! key)) then (true, SetLabels (Some (delete key m)) o) else (false, o)
  | None => (false, o)
  end.
End finalizers.

(** ** conditions.go *)
Definition optionRel {A} (eqv : A → A → bool) (a b : option A) : bool :=
  match a, b with
  | Some a, Some b => eqv a b
  | None, None => true
  | _, _ => false
  end.
Definition ConditionSemanticallyEqual (a b : option Condition) : bool := optionRel sameVerdict a b.
Definition ConditionEqualByStatus (a b : option Condition) : bool :=
  optionRel (λ a b, String.eqb (c_Type a) (c_Type b) && String.eqb (c_Status a) (c_Status b)) a b.

Section conditions.
Context {K : K8s} {M : MetaApi} {T : Type} `{StatusConditionObject T}.
Implicit Types (o : T).

(** The caller's types without repetition, or all types of both objects. *)
Definition conditionTypes (condTypes : list string) (aConds bConds : list Condition) : list string :=
  match condTypes with
  | [] => Compact (sort_by string_leb (map c_Type aConds ++ map c_Type bConds))
  | _ => foldl (λ types t, if slices_Contains types t then types else types ++ [t]) [] condTypes
  end.
Definition areConditionsEqual (a b : option T) (condTypes : list string)
    (eqv : option Condition → option Condition → bool) : bool :=
  match a, b with
  | Some a, Some b =>
      let aConds := GetStatusConditions a in
      let bConds := GetStatusConditions b in
      forallb (λ t, eqv (FindStatusCondition aConds t) (FindStatusCondition bConds t))
        (conditionTypes condTypes aConds bConds)
  | None, None => true
  | _, _ => false
  end.
Definition AreConditionsSemanticallyEqual (a b : option T) (condTypes : list string) : bool :=
  areConditionsEqual a b condTypes ConditionSemanticallyEqual.
Definition AreConditionsEqualByStatus (a b : option T) (condTypes : list string) : bool :=
  areConditionsEqual a b condTypes ConditionEqualByStatus.

Definition GetStatusCondition o (condType : string) : option Condition :=
  FindStatusCondition (GetStatusConditions o) condType.
Definition isStatusConditionPresentAndStatusEqual o (condType status : string) : bool :=
  match GetStatusCondition o condType with Some c => String.eqb (c_Status c) status | None => false end.
Definition IsStatusConditionPresentAndTrue o (condType : string) : bool :=
  isStatusConditionPresentAndStatusEqual o condType ConditionTrue.
Definition IsStatusConditionPresentAndFalse o (condType : string) : bool :=
  isStatusConditionPresentAndStatusEqual o condType ConditionFalse.
Definition HasStatusCondition o (condType : string) : bool :=
  bool_decide (is_Some (GetStatusCondition o condType)).

(** The clock is read exactly when the status changes. *)
Definition statusChanges o (cond : Condition) : bool :=
  match GetStatusCondition o (c_Type cond) with
  | Some old => negb (String.eqb (c_Status old) (c_Status cond))
  | None => true
  end.
Definition stamped o (cond : Condition) (now : Time) : Condition :=
  {| c_Type := c_Type cond; c_Status := c_Status cond; c_ObservedGeneration := GetGeneration o;
     c_LastTransitionTime := if statusChanges o cond then now else 0;
     c_Reason := c_Reason cond; c_Message := c_Message cond |}.
Definition SetStatusConditionAt (now : Time) o (cond : Condition) : bool * T :=
  let '(changed, conds) := meta_SetStatusCondition (GetStatusConditions o) (stamped o cond now) in
  (changed, if changed then SetStatusConditions conds o else o).
Definition RemoveStatusCondition o (condType : string) : bool * T :=
  let '(changed, conds) := meta_RemoveStatusCondition (GetStatusConditions o) condType in
  (changed, if changed then SetStatusConditions conds o else o).

(** *** The fluent checker *)
Record StatusConditionChecker := { chk_obj : T; chk_cond : option Condition; chk_result : bool }.
Definition StatusCondition o (condType : string) : StatusConditionChecker :=
  let c := GetStatusCondition o condType in
  {| chk_obj := o; chk_cond := c; chk_result := bool_decide (is_Some c) |}.
Definition Present (c : StatusConditionChecker) : StatusConditionChecker := c.
Definition Absent (c : StatusConditionChecker) : StatusConditionChecker :=
  {| chk_obj := chk_obj c; chk_cond := chk_cond c; chk_result := bool_decide (chk_cond c = None) |}.
(** [if c.result { c.result = test(c.cond) }]; a checker with a true result has a condition. *)
Definition checked (test : Condition → bool) (c : StatusConditionChecker) : StatusConditionChecker :=
  {| chk_obj := chk_obj c; chk_cond := chk_cond c;
     chk_result := chk_result c && match chk_cond c with Some x => test x | None => false end |}.
Definition StatusEqual (status : string) := checked (λ x, String.eqb (c_Status x) status).
Definition IsTrue := StatusEqual ConditionTrue.
Definition IsFalse := StatusEqual ConditionFalse.
Definition ReasonEqual (reason : string) := checked (λ x, String.eqb (c_Reason x) reason).
Definition ReasonNotEqual (reason : string) := checked (λ x, negb (String.eqb (c_Reason x) reason)).
Definition MessageEqual (message : string) := checked (λ x, String.eqb (c_Message x) message).
Definition ObservedGenerationCurrent (c : StatusConditionChecker) : StatusConditionChecker :=
  checked (λ x, c_ObservedGeneration x =? GetGeneration (chk_obj c)) c.
Definition chk_Eval (c : StatusConditionChecker) : bool := chk_result c.
End conditions.

End objutilv1.
