(* ===== verification/Storage.v ===== *)
(** * api/v1alpha1: storage pools, storage classes, DRBD resources and operations, logical volumes

    Source: rsp_types.go, rsc_types.go, drbdrop_types.go, drbdr_types.go, the LVMLogicalVolume and
    LVMVolumeGroup of sds-node-configurator, and the StorageClass, Node and Pod of Kubernetes, with the
    fields and methods the controllers use.  A slice or pointer whose nil the code tells apart is an
    option. *)

From Stdlib Require Import ZArith Lia String.
From stdpp Require Import base gmap list numbers strings option.
From S2P Require Import Prelude IdSet DrbdSize Api Object.
Import v1alpha1.

Module storage.

(** ** metav1.LabelSelector and labels.Requirement *)
Record LabelSelectorRequirement := { lr_Key : string; lr_Operator : string; lr_Values : list string }.
Record LabelSelector := { sel_MatchLabels : gmap string string; sel_MatchExpressions : list LabelSelectorRequirement }.
Record Requirement := { req_Key : string; req_Operator : string; req_Values : list string }.

(** ** rsp_types.go *)
Inductive ReplicatedStoragePoolType := PoolLVM | PoolLVMThin | PoolOther (s : string).
#[export] Instance ReplicatedStoragePoolType_eq_dec : EqDecision ReplicatedStoragePoolType.
Proof. solve_decision. Defined.
Record PoolLVMVolumeGroup := { pg_Name : string; pg_ThinPoolName : string }.
#[export] Instance PoolLVMVolumeGroup_eq_dec : EqDecision PoolLVMVolumeGroup.
Proof. solve_decision. Defined.
Inductive ReplicatedStoragePoolPhase :=
| PoolPhaseReady | PoolPhaseWaitingForLVMVolumeGroups | PoolPhaseInvalidConfiguration | PoolPhaseOther (s : string).
#[export] Instance ReplicatedStoragePoolPhase_eq_dec : EqDecision ReplicatedStoragePoolPhase.
Proof. solve_decision. Defined.

Record ReplicatedStoragePool := {
  rsp_Name : string; rsp_Generation : Z; rsp_DeletionTimestamp : option Time;
  rsp_Finalizers : list string; rsp_Labels : Labels;
  rsp_Spec_Type : ReplicatedStoragePoolType; rsp_Spec_LVMVolumeGroups : list PoolLVMVolumeGroup;
  rsp_Spec_Zones : list string; rsp_Spec_SystemNetworkNames : list string;
  rsp_Spec_NodeLabelSelector : option LabelSelector; rsp_Spec_NotReadyGracePeriod : Z;
  rsp_Conditions : list Condition; rsp_Phase : ReplicatedStoragePoolPhase; rsp_Message : string;
  rsp_EligibleNodesRevision : Z; rsp_EligibleNodes : list EligibleNode;
  rsp_UsedBy : list string;
}.
#[export] Instance rebuild_rsp : Rebuild ReplicatedStoragePool := λ r,
  {| rsp_Name := rsp_Name r; rsp_Generation := rsp_Generation r; rsp_DeletionTimestamp := rsp_DeletionTimestamp r;
     rsp_Finalizers := rsp_Finalizers r; rsp_Labels := rsp_Labels r; rsp_Spec_Type := rsp_Spec_Type r;
     rsp_Spec_LVMVolumeGroups := rsp_Spec_LVMVolumeGroups r; rsp_Spec_Zones := rsp_Spec_Zones r;
     rsp_Spec_SystemNetworkNames := rsp_Spec_SystemNetworkNames r;
     rsp_Spec_NodeLabelSelector := rsp_Spec_NodeLabelSelector r;
     rsp_Spec_NotReadyGracePeriod := rsp_Spec_NotReadyGracePeriod r; rsp_Conditions := rsp_Conditions r;
     rsp_Phase := rsp_Phase r; rsp_Message := rsp_Message r; rsp_EligibleNodesRevision := rsp_EligibleNodesRevision r;
     rsp_EligibleNodes := rsp_EligibleNodes r; rsp_UsedBy := rsp_UsedBy r |}.
Definition zeroRSP : ReplicatedStoragePool :=
  {| rsp_Name := ""; rsp_Generation := 0; rsp_DeletionTimestamp := None; rsp_Finalizers := []; rsp_Labels := None;
     rsp_Spec_Type := PoolOther ""; rsp_Spec_LVMVolumeGroups := []; rsp_Spec_Zones := [];
     rsp_Spec_SystemNetworkNames := []; rsp_Spec_NodeLabelSelector := None; rsp_Spec_NotReadyGracePeriod := 0; rsp_Conditions := [];
     rsp_Phase := PoolPhaseOther ""; rsp_Message := ""; rsp_EligibleNodesRevision := 0; rsp_EligibleNodes := [];
     rsp_UsedBy := [] |}.

(** ** rsc_types.go *)
Inductive ConfigurationRolloutType := RolloutRollingUpdate | RolloutNewVolumesOnly | RolloutOther (s : string).
#[export] Instance ConfigurationRolloutType_eq_dec : EqDecision ConfigurationRolloutType.
Proof. solve_decision. Defined.
(** RollingUpdate is a pointer to a record whose only field is MaxParallel. *)
Record ConfigurationRolloutStrategy := { rs_Type : ConfigurationRolloutType; rs_RollingUpdate_MaxParallel : option Z }.
Definition RolloutStrategy_GetType (s : option ConfigurationRolloutStrategy) : ConfigurationRolloutType :=
  match s with None => RolloutRollingUpdate | Some s => rs_Type s end.

Inductive EligibleNodesConflictResolutionType := ResolutionManual | ResolutionRollingRepair | ResolutionOther (s : string).
#[export] Instance EligibleNodesConflictResolutionType_eq_dec : EqDecision EligibleNodesConflictResolutionType.
Proof. solve_decision. Defined.
(** RollingRepair is a pointer to a record whose only field is MaxParallel. *)
Record EligibleNodesConflictResolutionStrategy := {
  cr_Type : EligibleNodesConflictResolutionType; cr_RollingRepair_MaxParallel : option Z;
}.
Definition ConflictResolutionStrategy_GetType (s : option EligibleNodesConflictResolutionStrategy) : EligibleNodesConflictResolutionType :=
  match s with None => ResolutionRollingRepair | Some s => cr_Type s end.

Inductive Replication :=
| ReplicationNone | ReplicationAvailability | ReplicationConsistency | ReplicationConsistencyAndAvailability
| ReplicationOther (s : string).
Definition replicationToFTTGMDR (r : Replication) : Z * Z :=
  match r with
  | ReplicationNone => (0, 0)
  | ReplicationAvailability => (1, 0)
  | ReplicationConsistency => (0, 1)
  | ReplicationConsistencyAndAvailability | ReplicationOther _ => (1, 1)
  end.

Record ClassStorage := { cs_Type : ReplicatedStoragePoolType; cs_LVMVolumeGroups : list PoolLVMVolumeGroup }.
Record VolumesSummary := {
  vs_Total : option Z; vs_PendingObservation : option Z; vs_Aligned : option Z;
  vs_InConflictWithEligibleNodes : option Z; vs_StaleConfiguration : option Z; vs_UsedStoragePoolNames : list string;
}.
#[export] Instance VolumesSummary_eq_dec : EqDecision VolumesSummary.
Proof. solve_decision. Defined.
Inductive ReplicatedStorageClassPhase :=
| ClassReady | ClassWaitingForStoragePool | ClassInsufficientNodes | ClassInvalidConfiguration | ClassRollingOut
| ClassPartiallyAligned | ClassTerminating | ClassPhaseOther (s : string).
#[export] Instance ReplicatedStorageClassPhase_eq_dec : EqDecision ReplicatedStorageClassPhase.
Proof. solve_decision. Defined.

(** EligibleNodesPolicy is a pointer to a record whose only field is NotReadyGracePeriod. *)
Record ReplicatedStorageClass := {
  rsc_Name : string; rsc_Generation : Z; rsc_DeletionTimestamp : option Time; rsc_Finalizers : list string;
  rsc_Labels : Labels;
  rsc_Spec_StoragePool : string; rsc_Spec_Storage : option ClassStorage; rsc_Spec_ReclaimPolicy : string;
  rsc_Spec_Replication : Replication; rsc_Spec_FailuresToTolerate : option Z;
  rsc_Spec_GuaranteedMinimumDataRedundancy : option Z; rsc_Spec_VolumeAccess : VolumeAccess;
  rsc_Spec_Topology : Topology; rsc_Spec_Zones : list string; rsc_Spec_NodeLabelSelector : option LabelSelector;
  rsc_Spec_SystemNetworkNames : option (list string);
  rsc_ConfigurationRolloutStrategy : option ConfigurationRolloutStrategy;
  rsc_Spec_ConflictResolutionStrategy : option EligibleNodesConflictResolutionStrategy;
  rsc_Spec_NotReadyGracePeriod : option Z;
  rsc_Conditions : list Condition; rsc_Phase : ReplicatedStorageClassPhase; rsc_Message : string;
  rsc_ConfigurationGeneration : Z; rsc_Configuration : option Configuration;
  rsc_StoragePoolEligibleNodesRevision : Z; rsc_StoragePoolBasedOnGeneration : Z; rsc_StoragePoolName : string;
  rsc_Volumes : VolumesSummary;
}.
#[export] Instance rebuild_rsc : Rebuild ReplicatedStorageClass := λ c,
  {| rsc_Name := rsc_Name c; rsc_Generation := rsc_Generation c; rsc_DeletionTimestamp := rsc_DeletionTimestamp c;
     rsc_Finalizers := rsc_Finalizers c; rsc_Labels := rsc_Labels c; rsc_Spec_StoragePool := rsc_Spec_StoragePool c;
     rsc_Spec_Storage := rsc_Spec_Storage c; rsc_Spec_ReclaimPolicy := rsc_Spec_ReclaimPolicy c;
     rsc_Spec_Replication := rsc_Spec_Replication c; rsc_Spec_FailuresToTolerate := rsc_Spec_FailuresToTolerate c;
     rsc_Spec_GuaranteedMinimumDataRedundancy := rsc_Spec_GuaranteedMinimumDataRedundancy c;
     rsc_Spec_VolumeAccess := rsc_Spec_VolumeAccess c; rsc_Spec_Topology := rsc_Spec_Topology c;
     rsc_Spec_Zones := rsc_Spec_Zones c; rsc_Spec_NodeLabelSelector := rsc_Spec_NodeLabelSelector c;
     rsc_Spec_SystemNetworkNames := rsc_Spec_SystemNetworkNames c;
     rsc_ConfigurationRolloutStrategy := rsc_ConfigurationRolloutStrategy c;
     rsc_Spec_ConflictResolutionStrategy := rsc_Spec_ConflictResolutionStrategy c;
     rsc_Spec_NotReadyGracePeriod := rsc_Spec_NotReadyGracePeriod c;
     rsc_Conditions := rsc_Conditions c; rsc_Phase := rsc_Phase c; rsc_Message := rsc_Message c;
     rsc_ConfigurationGeneration := rsc_ConfigurationGeneration c; rsc_Configuration := rsc_Configuration c;
     rsc_StoragePoolEligibleNodesRevision := rsc_StoragePoolEligibleNodesRevision c;
     rsc_StoragePoolBasedOnGeneration := rsc_StoragePoolBasedOnGeneration c;
     rsc_StoragePoolName := rsc_StoragePoolName c; rsc_Volumes := rsc_Volumes c |}.
Definition zeroVolumes : VolumesSummary :=
  {| vs_Total := None; vs_PendingObservation := None; vs_Aligned := None; vs_InConflictWithEligibleNodes := None;
     vs_StaleConfiguration := None; vs_UsedStoragePoolNames := [] |}.
Definition zeroRSC : ReplicatedStorageClass :=
  {| rsc_Name := ""; rsc_Generation := 0; rsc_DeletionTimestamp := None; rsc_Finalizers := []; rsc_Labels := None;
     rsc_Spec_StoragePool := ""; rsc_Spec_Storage := None; rsc_Spec_ReclaimPolicy := "";
     rsc_Spec_Replication := ReplicationOther ""; rsc_Spec_FailuresToTolerate := None;
     rsc_Spec_GuaranteedMinimumDataRedundancy := None; rsc_Spec_VolumeAccess := VolumeAccessOther "";
     rsc_Spec_Topology := TopologyOther ""; rsc_Spec_Zones := []; rsc_Spec_NodeLabelSelector := None;
     rsc_Spec_SystemNetworkNames := None; rsc_ConfigurationRolloutStrategy := None;
     rsc_Spec_ConflictResolutionStrategy := None; rsc_Spec_NotReadyGracePeriod := None;
     rsc_Conditions := []; rsc_Phase := ClassPhaseOther ""; rsc_Message := ""; rsc_ConfigurationGeneration := 0;
     rsc_Configuration := None; rsc_StoragePoolEligibleNodesRevision := 0; rsc_StoragePoolBasedOnGeneration := 0;
     rsc_StoragePoolName := ""; rsc_Volumes := zeroVolumes |}.
Definition GetFTT (c : ReplicatedStorageClass) : Z :=
  match rsc_Spec_FailuresToTolerate c with
  | Some n => n | None => (replicationToFTTGMDR (rsc_Spec_Replication c)).1
  end.
Definition GetGMDR (c : ReplicatedStorageClass) : Z :=
  match rsc_Spec_GuaranteedMinimumDataRedundancy c with
  | Some n => n | None => (replicationToFTTGMDR (rsc_Spec_Replication c)).2
  end.

(** ** storage.k8s.io StorageClass, core Node and Pod, LVMVolumeGroup *)
Record StorageClass := {
  sc_Name : string; sc_DeletionTimestamp : option Time; sc_Finalizers : list string; sc_Labels : Labels;
  sc_Annotations : Labels; sc_Provisioner : string; sc_Parameters : Labels; sc_ReclaimPolicy : option string;
  sc_AllowVolumeExpansion : option bool; sc_VolumeBindingMode : option string;
}.
#[export] Instance rebuild_sc : Rebuild StorageClass := λ c,
  {| sc_Name := sc_Name c; sc_DeletionTimestamp := sc_DeletionTimestamp c; sc_Finalizers := sc_Finalizers c;
     sc_Labels := sc_Labels c; sc_Annotations := sc_Annotations c; sc_Provisioner := sc_Provisioner c;
     sc_Parameters := sc_Parameters c; sc_ReclaimPolicy := sc_ReclaimPolicy c;
     sc_AllowVolumeExpansion := sc_AllowVolumeExpansion c; sc_VolumeBindingMode := sc_VolumeBindingMode c |}.
(** maps.Equal: a nil map equals an empty one. *)
Definition maps_Equal (a b : Labels) : bool := bool_decide (default ∅ a = default ∅ b).

Record NodeCondition := { nc_Type : string; nc_Status : string; nc_LastTransitionTime : Time }.
Record Node := { no_Name : string; no_Labels : Labels; no_Unschedulable : bool; no_Conditions : list NodeCondition;
  no_Addresses : list (string * string) (* type, address *) }.
Record Pod := { po_Namespace : string; po_Labels : Labels; po_NodeName : string; po_Conditions : list (string * string) }.
Record LVMVolumeGroup := {
  vg_Name : string; vg_Generation : Z; vg_Annotations : Labels; vg_NodeName : string; vg_Spec_ThinPools : list string;
  vg_Spec_ActualVGNameOnTheNode : string;
  vg_Status_ThinPools : list (string * bool); vg_Conditions : list Condition;
}.

(** ** drbdrop_types.go *)
Inductive DRBDResourceOperationType := OperationCreateNewUUID | OperationOther (s : string).
#[export] Instance DRBDResourceOperationType_eq_dec : EqDecision DRBDResourceOperationType.
Proof. solve_decision. Defined.
Inductive DRBDOperationPhase :=
| OperationPending | OperationRunning | OperationSucceeded | OperationFailed | OperationPhaseOther (s : string).
#[export] Instance DRBDOperationPhase_eq_dec : EqDecision DRBDOperationPhase.
Proof. solve_decision. Defined.
Record CreateNewUUIDParams := { cu_ClearBitmap : bool; cu_ForceResync : bool }.
#[export] Instance CreateNewUUIDParams_eq_dec : EqDecision CreateNewUUIDParams.
Proof. solve_decision. Defined.
Record DRBDResourceOperation := {
  op_Name : string; op_CreationTimestamp : Time; op_DeletionTimestamp : option Time;
  op_NodeName : string; op_DRBDResourceName : string; op_Type : DRBDResourceOperationType;
  op_CreateNewUUID : option CreateNewUUIDParams;
  op_Phase : DRBDOperationPhase; op_Message : string; op_StartedAt : option Time; op_CompletedAt : option Time;
}.
#[export] Instance rebuild_op : Rebuild DRBDResourceOperation := λ o,
  {| op_Name := op_Name o; op_CreationTimestamp := op_CreationTimestamp o; op_DeletionTimestamp := op_DeletionTimestamp o;
     op_NodeName := op_NodeName o; op_DRBDResourceName := op_DRBDResourceName o; op_Type := op_Type o;
     op_CreateNewUUID := op_CreateNewUUID o; op_Phase := op_Phase o; op_Message := op_Message o;
     op_StartedAt := op_StartedAt o; op_CompletedAt := op_CompletedAt o |}.

End storage.

Import v1alpha1 objutilv1 storage.

(** ** The objects as the helpers of objutilv1 see them *)
#[export] Instance rsp_object : StatusConditionObject ReplicatedStoragePool := {|
  sco_object := {|
    GetName := rsp_Name; GetGeneration := rsp_Generation; GetDeletionTimestamp := rsp_DeletionTimestamp;
    GetFinalizers := rsp_Finalizers; SetFinalizers fs o := o <| rsp_Finalizers := fs |>;
    GetLabels := rsp_Labels; SetLabels ls o := o <| rsp_Labels := ls |> |};
  GetStatusConditions := rsp_Conditions; SetStatusConditions cs o := o <| rsp_Conditions := cs |> |}.
#[export] Instance rsc_object : StatusConditionObject ReplicatedStorageClass := {|
  sco_object := {|
    GetName := rsc_Name; GetGeneration := rsc_Generation; GetDeletionTimestamp := rsc_DeletionTimestamp;
    GetFinalizers := rsc_Finalizers; SetFinalizers fs o := o <| rsc_Finalizers := fs |>;
    GetLabels := rsc_Labels; SetLabels ls o := o <| rsc_Labels := ls |> |};
  GetStatusConditions := rsc_Conditions; SetStatusConditions cs o := o <| rsc_Conditions := cs |> |}.
#[export] Instance rsp_object_laws : StatusConditionLaws ReplicatedStoragePool.
Proof. by split. Qed.
#[export] Instance rsc_object_laws : StatusConditionLaws ReplicatedStorageClass.
Proof. by split. Qed.
#[export] Instance sc_object : MetaObject StorageClass := {|
  GetName := sc_Name; GetGeneration _ := 0; GetDeletionTimestamp := sc_DeletionTimestamp;
  GetFinalizers := sc_Finalizers; SetFinalizers fs o := o <| sc_Finalizers := fs |>;
  GetLabels := sc_Labels; SetLabels ls o := o <| sc_Labels := ls |> |}.

Module drbd.

Definition DRBDResourceStateUp : string := "Up".
Definition DRBDRolePrimary : string := "Primary".
Definition DRBDRoleSecondary : string := "Secondary".
Definition DRBDProtocolC : string := "C".

(** ** Owner references *)
Record OwnerReference := { or_UID : string; or_Controller : bool }.
(** metav1.IsControlledBy: the first controller reference has the owner's UID. *)
Definition IsControlledBy (refs : list OwnerReference) (uid : string) : bool :=
  match List.find or_Controller refs with Some ref => String.eqb (or_UID ref) uid | None => false end.

(** ** drbdr_types.go *)
Record DRBDResourcePath := { pa_SystemNetworkName : string; pa_Address : string * Z }.
#[export] Instance DRBDResourcePath_eq_dec : EqDecision DRBDResourcePath.
Proof. solve_decision. Defined.
Record DRBDResourcePeer := {
  dp_Name : string; dp_Type : DRBDResourceType; dp_AllowRemoteRead : bool; dp_NodeID : Z; dp_Protocol : string;
  dp_SharedSecret : string; dp_SharedSecretAlg : string; dp_PauseSync : bool; dp_Paths : list DRBDResourcePath;
}.
#[export] Instance DRBDResourcePeer_eq_dec : EqDecision DRBDResourcePeer.
Proof. solve_decision. Defined.
Record DRBDResourcePathStatus := { ps_SystemNetworkName : string; ps_Address : string * Z; ps_Established : bool }.
#[export] Instance DRBDResourcePathStatus_eq_dec : EqDecision DRBDResourcePathStatus.
Proof. solve_decision. Defined.
Record DRBDResourcePeerStatus := {
  dps_Name : string; dps_Type : DRBDResourceType; dps_Role : string; dps_NodeID : Z; dps_Paths : list DRBDResourcePathStatus;
  dps_ConnectionState : string; dps_DiskState : string; dps_ReplicationState : string;
}.
#[export] Instance DRBDResourcePeerStatus_eq_dec : EqDecision DRBDResourcePeerStatus.
Proof. solve_decision. Defined.
Record DRBDResourceActiveConfiguration := {
  ac_Quorum : option Z; ac_QuorumMinimumRedundancy : option Z; ac_State : string; ac_Role : string;
  ac_AllowTwoPrimaries : option bool; ac_NonVoting : option bool; ac_Type : DRBDResourceType;
  ac_LVMLogicalVolumeName : string; ac_LLVFinalizersToRelease : list string;
}.
#[export] Instance DRBDResourceActiveConfiguration_eq_dec : EqDecision DRBDResourceActiveConfiguration.
Proof. solve_decision. Defined.
#[export] Instance rebuild_ac : Rebuild DRBDResourceActiveConfiguration := λ c,
  {| ac_Quorum := ac_Quorum c; ac_QuorumMinimumRedundancy := ac_QuorumMinimumRedundancy c; ac_State := ac_State c;
     ac_Role := ac_Role c; ac_AllowTwoPrimaries := ac_AllowTwoPrimaries c; ac_NonVoting := ac_NonVoting c;
     ac_Type := ac_Type c; ac_LVMLogicalVolumeName := ac_LVMLogicalVolumeName c;
     ac_LLVFinalizersToRelease := ac_LLVFinalizersToRelease c |}.
Definition zeroAC : DRBDResourceActiveConfiguration :=
  {| ac_Quorum := None; ac_QuorumMinimumRedundancy := None; ac_State := ""; ac_Role := ""; ac_AllowTwoPrimaries := None;
     ac_NonVoting := None; ac_Type := DRBDTypeOther ""; ac_LVMLogicalVolumeName := ""; ac_LLVFinalizersToRelease := [] |}.

Section objects.
Context `{K8s}.

Record DRBDResourceSpec := {
  ds_ActualNameOnTheNode : string; ds_State : string; ds_NodeName : string; ds_SystemNetworks : list string;
  ds_Quorum : Z; ds_QuorumMinimumRedundancy : Z; ds_Size : option Quantity; ds_Role : string;
  ds_AllowTwoPrimaries : bool; ds_NonVoting : bool; ds_Type : DRBDResourceType; ds_LVMLogicalVolumeName : string;
  ds_NodeID : Z; ds_Peers : list DRBDResourcePeer; ds_Maintenance : string;
}.
#[export] Instance rebuild_spec : Rebuild DRBDResourceSpec := λ s,
  {| ds_ActualNameOnTheNode := ds_ActualNameOnTheNode s; ds_State := ds_State s; ds_NodeName := ds_NodeName s;
     ds_SystemNetworks := ds_SystemNetworks s; ds_Quorum := ds_Quorum s;
     ds_QuorumMinimumRedundancy := ds_QuorumMinimumRedundancy s; ds_Size := ds_Size s; ds_Role := ds_Role s;
     ds_AllowTwoPrimaries := ds_AllowTwoPrimaries s; ds_NonVoting := ds_NonVoting s; ds_Type := ds_Type s;
     ds_LVMLogicalVolumeName := ds_LVMLogicalVolumeName s; ds_NodeID := ds_NodeID s; ds_Peers := ds_Peers s;
     ds_Maintenance := ds_Maintenance s |}.
Definition zeroSpec : DRBDResourceSpec :=
  {| ds_ActualNameOnTheNode := ""; ds_State := ""; ds_NodeName := ""; ds_SystemNetworks := []; ds_Quorum := 0;
     ds_QuorumMinimumRedundancy := 0; ds_Size := None; ds_Role := ""; ds_AllowTwoPrimaries := false;
     ds_NonVoting := false; ds_Type := DRBDTypeOther ""; ds_LVMLogicalVolumeName := ""; ds_NodeID := 0; ds_Peers := [];
     ds_Maintenance := "" |}.
(** equality.Semantic.DeepEqual on specs: quantities are compared by value, and an empty list equals an
    absent one. *)
Definition specEqual (a b : DRBDResourceSpec) : bool :=
  String.eqb (ds_ActualNameOnTheNode a) (ds_ActualNameOnTheNode b) && String.eqb (ds_State a) (ds_State b) &&
  String.eqb (ds_NodeName a) (ds_NodeName b) && bool_decide (ds_SystemNetworks a = ds_SystemNetworks b) &&
  (ds_Quorum a =? ds_Quorum b) && (ds_QuorumMinimumRedundancy a =? ds_QuorumMinimumRedundancy b) &&
  optionRel (λ q q', q_Cmp q q' =? 0) (ds_Size a) (ds_Size b) && String.eqb (ds_Role a) (ds_Role b) &&
  Bool.eqb (ds_AllowTwoPrimaries a) (ds_AllowTwoPrimaries b) && Bool.eqb (ds_NonVoting a) (ds_NonVoting b) &&
  bool_decide (ds_Type a = ds_Type b) && String.eqb (ds_LVMLogicalVolumeName a) (ds_LVMLogicalVolumeName b) &&
  (ds_NodeID a =? ds_NodeID b) && bool_decide (ds_Peers a = ds_Peers b) && String.eqb (ds_Maintenance a) (ds_Maintenance b).

Record DRBDResource := {
  dr_Name : string; dr_Generation : Z; dr_DeletionTimestamp : option Time; dr_Finalizers : list string;
  dr_Labels : Labels; dr_OwnerReferences : list OwnerReference; dr_Spec : DRBDResourceSpec;
  dr_Device : string; dr_DeviceIOSuspended : option bool; dr_DeviceOpen : option bool; dr_Size : option Quantity;
  dr_Addresses : list DRBDResourceAddressStatus; dr_ActiveConfiguration : option DRBDResourceActiveConfiguration;
  dr_Peers : list DRBDResourcePeerStatus; dr_DiskState : string; dr_Quorum : option bool; dr_DeviceUUID : string;
  dr_Conditions : list Condition;
}.
#[export] Instance rebuild_drbdr : Rebuild DRBDResource := λ d,
  {| dr_Name := dr_Name d; dr_Generation := dr_Generation d; dr_DeletionTimestamp := dr_DeletionTimestamp d;
     dr_Finalizers := dr_Finalizers d; dr_Labels := dr_Labels d; dr_OwnerReferences := dr_OwnerReferences d;
     dr_Spec := dr_Spec d; dr_Device := dr_Device d; dr_DeviceIOSuspended := dr_DeviceIOSuspended d;
     dr_DeviceOpen := dr_DeviceOpen d; dr_Size := dr_Size d; dr_Addresses := dr_Addresses d;
     dr_ActiveConfiguration := dr_ActiveConfiguration d; dr_Peers := dr_Peers d; dr_DiskState := dr_DiskState d;
     dr_Quorum := dr_Quorum d; dr_DeviceUUID := dr_DeviceUUID d; dr_Conditions := dr_Conditions d |}.
Definition zeroDRBDR : DRBDResource :=
  {| dr_Name := ""; dr_Generation := 0; dr_DeletionTimestamp := None; dr_Finalizers := []; dr_Labels := None;
     dr_OwnerReferences := []; dr_Spec := zeroSpec; dr_Device := ""; dr_DeviceIOSuspended := None; dr_DeviceOpen := None;
     dr_Size := None; dr_Addresses := []; dr_ActiveConfiguration := None; dr_Peers := []; dr_DiskState := "";
     dr_Quorum := None; dr_DeviceUUID := ""; dr_Conditions := [] |}.
#[export] Instance drbdr_object : StatusConditionObject DRBDResource := {|
  sco_object := {|
    GetName := dr_Name; GetGeneration := dr_Generation; GetDeletionTimestamp := dr_DeletionTimestamp;
    GetFinalizers := dr_Finalizers; SetFinalizers fs o := o <| dr_Finalizers := fs |>;
    GetLabels := dr_Labels; SetLabels ls o := o <| dr_Labels := ls |> |};
  GetStatusConditions := dr_Conditions; SetStatusConditions cs o := o <| dr_Conditions := cs |> |}.

(** ** LVMLogicalVolume *)
Record LLVStatus := { ls_Phase : string; ls_ActualSize : Quantity }.
Record LVMLogicalVolume := {
  llv_Name : string; llv_DeletionTimestamp : option Time; llv_Finalizers : list string; llv_Labels : Labels;
  llv_OwnerReferences : list OwnerReference; llv_ActualLVNameOnTheNode : string; llv_Type : string;
  llv_LVMVolumeGroupName : string; llv_Size : string; llv_Thin : option string; llv_Status : option LLVStatus;
}.
#[export] Instance rebuild_llv : Rebuild LVMLogicalVolume := λ l,
  {| llv_Name := llv_Name l; llv_DeletionTimestamp := llv_DeletionTimestamp l; llv_Finalizers := llv_Finalizers l;
     llv_Labels := llv_Labels l; llv_OwnerReferences := llv_OwnerReferences l;
     llv_ActualLVNameOnTheNode := llv_ActualLVNameOnTheNode l; llv_Type := llv_Type l;
     llv_LVMVolumeGroupName := llv_LVMVolumeGroupName l; llv_Size := llv_Size l; llv_Thin := llv_Thin l;
     llv_Status := llv_Status l |}.
#[export] Instance llv_object : MetaObject LVMLogicalVolume := {|
  GetName := llv_Name; GetGeneration _ := 0; GetDeletionTimestamp := llv_DeletionTimestamp;
  GetFinalizers := llv_Finalizers; SetFinalizers fs o := o <| llv_Finalizers := fs |>;
  GetLabels := llv_Labels; SetLabels ls o := o <| llv_Labels := ls |> |}.
End objects.

End drbd.

(** ** The output of drbdsetup: images/agent/pkg/drbdutils/status.go and show.go

    The fields the agent reads. *)
Module drbdstatus.
Record Host := { h_Address : string; h_Port : Z }.
Record Path := { pt_ThisHost : Host; pt_RemoteHost : Host; pt_Established : bool }.
Record PeerDevice := { pd_ReplicationState : string; pd_PeerDiskState : string }.
Record Connection := {
  cn_PeerNodeID : Z; cn_Name : string; cn_ConnectionState : string; cn_Paths : list Path; cn_PeerDevices : list PeerDevice;
}.
Record Device := {
  dv_Volume : Z; dv_Minor : Z; dv_DiskState : string; dv_Open : bool; dv_Quorum : bool; dv_Size : Z (* KiB *);
}.
Record Resource := {
  rs_Name : string; rs_NodeID : Z; rs_Role : string; rs_Suspended : bool; rs_Devices : list Device;
  rs_Connections : list Connection;
}.

Record ShowOptions := {
  so_AutoPromote : bool; so_Quorum : string; so_QuorumMinimumRedundancy : string; so_OnNoQuorum : string;
  so_OnNoDataAccessible : string; so_OnSuspendedPrimaryOutdated : string; so_QuorumDynamicVoters : bool;
}.
Record ShowVolumeDisk := {
  sd_IsNone : bool; sd_DiscardZeroesIfAligned : bool; sd_RSDiscardGranularity : string; sd_NonVoting : bool;
}.
Record ShowVolume := { sv_VolumeNr : Z; sv_BackingDisk : string; sv_Disk : ShowVolumeDisk }.
Record ShowThisHost := { sh_NodeID : Z; sh_Volumes : list ShowVolume }.
Record ShowNet := {
  sn_Protocol : string; sn_AllowTwoPrimaries : bool; sn_CRAMHMACAlg : string; sn_SharedSecret : string;
  sn_VerifyAlg : string; sn_AllowRemoteRead : bool;
}.
Record ShowConnectionVolumeDisk := {
  cd_CPlanAhead : string; cd_CDelayTarget : string; cd_CFillTarget : string; cd_CMaxRate : string; cd_CMinRate : string;
  cd_Bitmap : bool;
}.
Record ShowConnection := { sc_PeerNodeID : Z; sc_Net : ShowNet; sc_Volumes : list ShowConnectionVolumeDisk }.
Record ShowResource := {
  sr_Resource : string; sr_Options : ShowOptions; sr_ThisHost : ShowThisHost; sr_Connections : list ShowConnection;
}.
End drbdstatus.
