(* ===== verification/Client.v ===== *)
(** * rv_controller: the calls of the controller, and programs that make them

    The API server, the clock, the owner-reference helper of controller-runtime and the source of
    randomness are reached through [call]s, answered by the class parameter [Server].  A reconciler
    method is a program of the monad [M]: it runs in a [World], records every call it makes, in order,
    and may panic.  [triple ok P m Q] is its specification: every call of [m] satisfies [P], the result
    satisfies [Q], and [m] does not panic when [ok] holds.

    Source of the single-call helpers: rv_controller/reconciler.go, "Single-call I/O helpers". *)

From Stdlib Require Import ZArith Lia String.
From stdpp Require Import base gmap list numbers strings option.
From S2P Require Import Prelude IdSet DrbdSize Api Object Storage Flow.
Import v1alpha1 objutilv1 storage drbd flow.

Module host.
(** What the agent asks of its node: processes and files, the memory its goroutines share (the caches of
    drbdsetup output, the ports of the kernel, the pending ports, the next minor), and random bytes.
    Every access to shared memory is one call, as it is made under a lock. *)
Inductive hostcall : Type → Type :=
| Exec (command : string) (args : list string) : hostcall (string * option (error * Z)) (* output; error and exit code *)
| Readlink (path : string) : hostcall (option string)
| EvalSymlinks (path : string) : hostcall (option string)
| ReadFile (path : string) : hostcall (option string)
| ReadDir (path : string) : hostcall (error + list string)
| Remove (path : string) : hostcall (option (error * bool))      (* errors.Is(err, os.ErrNotExist) *)
| Symlink (target path : string) : hostcall (option error)
| Listen (address : string) : hostcall bool
| RandUUID : hostcall Z                                           (* eight random bytes, big-endian *)
| CachedStatus (name : string) : hostcall (option (option drbdstatus.Resource))
| StoreStatus (name : string) (v : option drbdstatus.Resource) : hostcall unit
| CachedShow (name : string) : hostcall (option (option drbdstatus.ShowResource))
| StoreShow (name : string) (v : option drbdstatus.ShowResource) : hostcall unit
| InvalidateCaches (name : string) : hostcall unit
| InvalidateAllCaches : hostcall unit
| WaitReady : hostcall (option error)
| GetUsedPorts (ip : string) : hostcall (error + list Z)
| LoadPending (ip : string) : hostcall (list (Z * Time))
| StorePending (ip : string) (entries : list (Z * Time)) : hostcall unit
| LoadNextMinor : hostcall Z
| StoreNextMinor (minor : Z) : hostcall unit.
(** A node without DRBD resources, on which every command succeeds silently. *)
Definition quietHost {A} (c : host.hostcall A) : A :=
  match c with
  | Exec _ _ => ("", None)
  | Readlink _ | EvalSymlinks _ | ReadFile _ => None
  | ReadDir _ => inr []
  | Remove _ => None
  | Symlink _ _ => None
  | Listen _ => true
  | RandUUID => 1
  | CachedStatus _ => Some None
  | CachedShow _ => Some None
  | StoreStatus _ _ | StoreShow _ _ | InvalidateCaches _ | InvalidateAllCaches | StorePending _ _ | StoreNextMinor _ => tt
  | WaitReady => None
  | GetUsedPorts _ => inr []
  | LoadPending _ => []
  | LoadNextMinor => 0
  end.
End host.

Module client.

(** What a call returns: a value, or an error of the class apierrors.IsNotFound, IsAlreadyExists or
    neither. *)
Inductive reply (A : Type) :=
| Replied (a : A) | NotFound (e : error) | AlreadyExists (e : error) | Refused (e : error).
Arguments Replied {A} _.
Arguments NotFound {A} _.
Arguments AlreadyExists {A} _.
Arguments Refused {A} _.
(** [(value, err)] *)
Definition answer {A} (r : reply A) : error + A :=
  match r with Replied a => inr a | NotFound e | AlreadyExists e | Refused e => inl e end.
(** client.IgnoreNotFound on a read: nil for an object that does not exist. *)
Definition orNil {A} (r : reply A) : error + option A :=
  match r with Replied a => inr (Some a) | NotFound _ => inr None | AlreadyExists e | Refused e => inl e end.

(** An answer of the class apierrors.IsInvalid: the error and the causes of its details, each a field and
    a message; or another answer. *)
Inductive validated (A : Type) := Invalid (e : error) (causes : list (string * string)) | Valid (r : reply A).
Arguments Invalid {A} _ _.
Arguments Valid {A} _.

Section client.
Context {K : K8s}.

Inductive call : Type → Type :=
| Now : call Time
| Readings : call (nat → Time)           (* the clock, as often as a transition cycle reads it *)
| SpareCapacity : call (list Transition) (* a slice between its length and its capacity *)
| RandRead : call (error + string)
| ControllerRef (obj : ReplicatedVolumeReplica) (owner : ReplicatedVolume) : call (option error)
| ControllerRefOp (obj : DRBDResourceOperation) (owner : ReplicatedVolume) : call (option error)
| GetRV (name : string) : call (reply ReplicatedVolume)
| GetRSC (name : string) : call (reply ReplicatedStorageClass)
| GetRSP (name : string) : call (reply ReplicatedStoragePool)
| GetDRBDROp (name : string) : call (reply DRBDResourceOperation)
| ListRVsByRSC (name : string) : call (reply (list ReplicatedVolume))
| ListRVRs (rvName : string) : call (reply (list ReplicatedVolumeReplica))
| ListRVAs (rvName : string) : call (reply (list ReplicatedVolumeAttachment))
| PatchRV (base obj : ReplicatedVolume) : call (reply ReplicatedVolume)
| PatchRVStatus (base obj : ReplicatedVolume) : call (reply ReplicatedVolume)
| CreateRVR (obj : ReplicatedVolumeReplica) : call (reply ReplicatedVolumeReplica)
| PatchRVR (base obj : ReplicatedVolumeReplica) : call (reply ReplicatedVolumeReplica)
| DeleteRVR (obj : ReplicatedVolumeReplica) : call (reply unit)
| PatchRVA (base obj : ReplicatedVolumeAttachment) : call (reply ReplicatedVolumeAttachment)
| PatchRVAStatus (base obj : ReplicatedVolumeAttachment) : call (reply ReplicatedVolumeAttachment)
| CreateDRBDROp (obj : DRBDResourceOperation) : call (reply DRBDResourceOperation)
| DeleteDRBDROp (obj : DRBDResourceOperation) : call (reply unit)
(* the replica controller *)
| SetControllerReference (refs : list OwnerReference) (owner : string) : call (error + list OwnerReference)
| GetRVR (name : string) : call (reply ReplicatedVolumeReplica)
| PatchRVRStatus (base obj : ReplicatedVolumeReplica) : call (reply ReplicatedVolumeReplica)
| GetDRBDR (name : string) : call (reply DRBDResource)
| CreateDRBDR (obj : DRBDResource) : call (reply DRBDResource)
| PatchDRBDR (base obj : DRBDResource) : call (reply DRBDResource)
| DeleteDRBDR (obj : DRBDResource) : call (reply unit)
| ListLLVs (rvrName : string) : call (reply (list LVMLogicalVolume))
| GetLLV (name : string) : call (reply LVMLogicalVolume)
| CreateLLV (obj : LVMLogicalVolume) : call (validated LVMLogicalVolume)
| PatchLLV (base obj : LVMLogicalVolume) : call (validated LVMLogicalVolume)
| DeleteLLV (obj : LVMLogicalVolume) : call (reply unit)
| GetNodeReady (nodeName : string) : call (reply bool)            (* the Ready condition of the node *)
| ListAgentPods (nodeName : string) : call (reply (list bool))    (* which of the agent pods are ready *)
(* the controllers of pools, classes and nodes *)
| MapOrder : call (string → Z)                                    (* in which order a range visits the keys of a map *)
| ListLVGs : call (reply (list LVMVolumeGroup))
| ListNodes (selector : list Requirement) : call (reply (list Node))
| ListPods (namespace app : string) : call (reply (list Pod))     (* label app *)
| ListRSPsByUsedBy (rscName : string) : call (reply (list ReplicatedStoragePool))
| ListRSPsByEligibleNode (nodeName : string) : call (reply (list ReplicatedStoragePool))
| ListDRBDRsByNode (nodeName : string) : call (reply (list DRBDResource))
| CreateRSP (obj : ReplicatedStoragePool) : call (reply ReplicatedStoragePool)
| PatchRSP (base obj : ReplicatedStoragePool) : call (reply ReplicatedStoragePool)
| PatchRSPStatus (base obj : ReplicatedStoragePool) : call (reply ReplicatedStoragePool)
| DeleteRSP (obj : ReplicatedStoragePool) : call (reply unit)     (* with its UID and resource version *)
| PatchRSC (base obj : ReplicatedStorageClass) : call (reply ReplicatedStorageClass)
| PatchRSCStatus (base obj : ReplicatedStorageClass) : call (reply ReplicatedStorageClass)
| GetStorageClass (name : string) : call (reply StorageClass)
| CreateStorageClass (obj : StorageClass) : call (reply StorageClass)
| PatchStorageClass (base obj : StorageClass) : call (reply StorageClass)
| DeleteStorageClass (obj : StorageClass) : call (reply unit)
| GetNode (name : string) : call (reply Node)
| PatchNode (name patch : string) : call (reply unit)             (* a raw merge patch *)
(* the agent *)
| OnHost {A} (c : host.hostcall A) : call A
| PatchDRBDRStatus (base obj : DRBDResource) : call (reply DRBDResource)
| PatchDRBDROpStatus (base obj : DRBDResourceOperation) : call (reply DRBDResourceOperation)
| GetLVG (name : string) : call (reply LVMVolumeGroup)
| ListLVGsByNode (nodeName : string) : call (reply (list LVMVolumeGroup))
| ListLLVsByLVG (lvgName : string) : call (reply (list LVMLogicalVolume)).

Class Server := { World : Type; serve : ∀ {A}, call A → World → World * A }.
Context {S : Server}.
Set Default Proof Using "Type".

(** A call that was made. *)
Record event := Event { ev_type : Type; ev_call : call ev_type }.

(** ** Programs *)
Definition M (A : Type) : Type := World → World * (list event * outcome A).
#[export] Instance M_ret : MRet M := λ A a w, (w, ([], Ok a)).
#[export] Instance M_bind : MBind M := λ A B f m w,
  let '(w, (es, r)) := m w in
  match r with
  | Ok a => let '(w, (es', r)) := f a w in (w, (es ++ es', r))
  | Panic s => (w, (es, Panic s))
  | OutOfFuel => (w, (es, OutOfFuel))
  end.
#[export] Instance M_fmap : FMap M := λ A B f m, m ≫= λ a, mret (f a).
Definition lift {A} (o : outcome A) : M A := λ w, (w, ([], o)).
Definition do {A} (c : call A) : M A := λ w, let '(w, a) := serve c w in (w, ([Event A c], Ok a)).

(** [for _, x := range l] over objects that the body may change; [Some r] is [return r]. *)
Fixpoint rangeM {A R} (body : A → M (A * option R)) (l : list A) : M (list A * option R) :=
  match l with
  | [] => mret ([], None)
  | x :: l =>
      '(x, r) ← body x;
      match r with
      | Some r => mret (x :: l, Some r)
      | None => '(l, r) ← rangeM body l; mret (x :: l, r)
      end
  end.

(** ** Specifications *)
Definition triple {A} (ok : Prop) (P : event → Prop) (m : M A) (Q : A → Prop) : Prop :=
  ∀ w, Forall P (m w).2.1 ∧ match (m w).2.2 with Ok a => Q a | _ => ¬ ok end.

Lemma triple_ret {A} ok P (a : A) (Q : A → Prop) : Q a → triple ok P (mret a) Q.
Proof. intros HQ w. split; [constructor|done]. Qed.
Lemma triple_bind {A B} ok P (m : M A) (f : A → M B) (Q : A → Prop) (R : B → Prop) :
  triple ok P m Q → (∀ a, Q a → triple ok P (f a) R) → triple ok P (m ≫= f) R.
Proof.
  intros Hm Hf w. specialize (Hm w). unfold mbind, M_bind.
  destruct (m w) as [w' [es r]]; simpl in *. destruct Hm as [He Hr]. destruct r as [a|s|]; simpl; [|done..].
  specialize (Hf a Hr w'). destruct (f a w') as [w'' [es' r]]; simpl in *. destruct Hf. split; [|done].
  by apply Forall_app.
Qed.
Lemma triple_weaken {A} (ok : Prop) P (m : M A) (Q R : A → Prop) :
  triple ok P m Q → (∀ a, Q a → R a) → triple ok P m R.
Proof. intros Hm H w. specialize (Hm w) as [??]. split; [done|]. destruct (m w).2.2; auto. Qed.
Lemma triple_events {A} (ok : Prop) (P P' : event → Prop) (m : M A) (Q : A → Prop) :
  triple ok P m Q → (∀ e, P e → P' e) → triple ok P' m Q.
Proof. intros Hm H w. specialize (Hm w) as [He ?]. split; [|done]. by eapply Forall_impl. Qed.
Lemma triple_lift {A} ok P (o : outcome A) (Q : A → Prop) :
  (match o with Ok a => Q a | _ => ¬ ok end) → triple ok P (lift o) Q.
Proof. intros H w. split; [constructor|done]. Qed.
Lemma triple_do {A} ok (P : event → Prop) (c : call A) (Q : A → Prop) :
  P (Event A c) → (∀ a, Q a) → triple ok P (do c) Q.
Proof. intros HP HQ w. unfold do. destruct (serve c w). simpl. split; [by apply Forall_singleton|auto]. Qed.
Lemma triple_fmap {A B} ok P (f : A → B) (m : M A) (Q : B → Prop) :
  triple ok P m (λ a, Q (f a)) → triple ok P (f <$> m) Q.
Proof. intros H. eapply triple_bind; [exact H|]. intros. by apply triple_ret. Qed.
(** A loop: [I] holds of every element afterwards when the body establishes it. *)
Lemma triple_range {A R} ok P (body : A → M (A * option R)) (l : list A) (Q : A → Prop) (QR : R → Prop) :
  (∀ x, Q x → triple ok P (body x) (λ y, Q y.1 ∧ match y.2 with Some r => QR r | None => True end)) →
  Forall Q l →
  triple ok P (rangeM body l) (λ y, Forall Q y.1 ∧ match y.2 with Some r => QR r | None => True end).
Proof.
  intros Hb. induction l as [|x l IH]; intros Hl; simpl; [by apply triple_ret|].
  inversion_clear Hl as [|?? Hx Hl']. eapply triple_bind; [by apply Hb|].
  intros [y r] [Hy Hr]; simpl in *. destruct r as [r|].
  - apply triple_ret. simpl. auto.
  - eapply triple_bind; [by apply IH|]. intros [l' r'] [??]. apply triple_ret. simpl in *. auto.
Qed.

(** *** Calls only: what a program asks for, whatever it returns *)
Definition calls {A} (P : event → Prop) (m : M A) : Prop := ∀ w, Forall P (m w).2.1.
Lemma calls_ret {A} P (a : A) : calls P (mret a).
Proof. intros w. constructor. Qed.
Lemma calls_bind {A B} P (m : M A) (f : A → M B) : calls P m → (∀ a, calls P (f a)) → calls P (m ≫= f).
Proof.
  intros Hm Hf w. specialize (Hm w). unfold mbind, M_bind. destruct (m w) as [w' [es [a|s|]]]; simpl in *; [|done..].
  specialize (Hf a w'). destruct (f a w') as [w'' [es' r]]. simpl in *. by apply Forall_app.
Qed.
Lemma calls_do {A} (P : event → Prop) (c : call A) : P (Event A c) → calls P (do c).
Proof. intros HP w. unfold do. destruct (serve c w). by apply Forall_singleton. Qed.
Lemma calls_lift {A} P (o : outcome A) : calls P (lift o).
Proof. intros w. constructor. Qed.
Lemma calls_lift_bind {A B} P (o : outcome A) (f : A → M B) : (∀ a, o = Ok a → calls P (f a)) → calls P (lift o ≫= f).
Proof.
  intros H w. unfold mbind, M_bind, lift. destruct o as [a|s|]; simpl; [|constructor..].
  specialize (H a eq_refl w). by destruct (f a w) as [? [? ?]].
Qed.
Lemma calls_fmap {A B} P (f : A → B) (m : M A) : calls P m → calls P (f <$> m).
Proof. intros H. apply calls_bind; [done|]. intros. apply calls_ret. Qed.
Lemma calls_range {A R} P (body : A → M (A * option R)) (l : list A) : (∀ x, x ∈ l → calls P (body x)) → calls P (rangeM body l).
Proof.
  intros H. induction l as [|x l IH]; simpl; [apply calls_ret|]. apply calls_bind; [apply H; set_solver|].
  intros [y [r|]]; [apply calls_ret|]. apply calls_bind; [apply IH; set_solver|]. intros [? ?]. apply calls_ret.
Qed.
Lemma calls_weaken {A} (P Q : event → Prop) (m : M A) : calls P m → (∀ e, P e → Q e) → calls Q m.
Proof. intros H HPQ w. eapply List.Forall_impl; [exact HPQ|apply H]. Qed.

Lemma calls_ret_bind {A B} P (a : A) (f : A → M B) : calls P (f a) → calls P (mret a ≫= f).
Proof. intros H w. specialize (H w). unfold mbind, M_bind. simpl. by destruct (f a w) as [? [? ?]]. Qed.
(** What is known of the results of the first program. *)
Lemma calls_triple_bind {A B} P (m : M A) (f : A → M B) (Q : A → Prop) :
  triple False P m Q → (∀ a, Q a → calls P (f a)) → calls P (m ≫= f).
Proof.
  intros Hm Hf w. specialize (Hm w) as [He Hr]. unfold mbind, M_bind. destruct (m w) as [w' [es [a|s|]]]; simpl in *; [|done..].
  specialize (Hf a Hr w'). destruct (f a w') as [w'' [es' r]]. simpl in *. by apply Forall_app.
Qed.
Lemma triple_calls {A} P (m : M A) : triple False P m (λ _, True) ↔ calls P m.
Proof.
  split; intros H w; [apply H|]. split; [apply H|]. destruct (m w).2.2; tauto.
Qed.

(** ** Conditions: obju.SetStatusCondition reads the clock when the status changes *)
Definition SetStatusCondition `{MetaApi} {T} `{StatusConditionObject T} (o : T) (cond : Condition) : M (bool * T) :=
  if statusChanges o cond then now ← do Now; mret (SetStatusConditionAt now o cond)
  else mret (SetStatusConditionAt 0 o cond).
Lemma triple_condition `{MetaApi} {T} `{StatusConditionObject T} {B} ok (P : event → Prop) (o : T) cond
    (f : bool * T → M B) (Q : B → Prop) :
  P (Event Time Now) → (∀ b, triple ok P (f (b, o)) Q) → (∀ b cs, triple ok P (f (b, SetStatusConditions cs o)) Q) →
  triple ok P (SetStatusCondition o cond ≫= f) Q.
Proof.
  intros HP Ho Hc. apply (triple_bind _ _ _ _ (λ y, triple ok P (f y) Q)); [|done].
  assert (HQ : ∀ now, triple ok P (f (SetStatusConditionAt now o cond)) Q).
  { intros now. unfold SetStatusConditionAt. destruct (meta_SetStatusCondition _ _) as [[] cs]; auto. }
  unfold SetStatusCondition. destruct (statusChanges o cond); [|by apply triple_ret].
  eapply (triple_bind _ _ _ _ (λ _, True)); [by apply triple_do|]. intros now _. by apply triple_ret.
Qed.
Lemma calls_condition `{MetaApi} {T} `{StatusConditionObject T} (P : event → Prop) (o : T) cond :
  P (Event Time Now) → calls P (SetStatusCondition o cond).
Proof.
  intros HP. unfold SetStatusCondition. destruct (statusChanges o cond); [|apply calls_ret].
  apply calls_bind; [by apply calls_do|]. intros. apply calls_ret.
Qed.
Lemma calls_condition_bind `{MetaApi} {T} `{StatusConditionObject T} {B} (P : event → Prop) (o : T) cond (f : bool * T → M B) :
  P (Event Time Now) → (∀ now, calls P (f (SetStatusConditionAt now o cond))) → calls P (SetStatusCondition o cond ≫= f).
Proof.
  intros HP Hf w. unfold SetStatusCondition. destruct (statusChanges o cond).
  - revert w. assert (Hc : calls P ((now ← do Now; mret (SetStatusConditionAt now o cond)) ≫= f)); [|exact Hc].
    intros w. specialize (Hf (serve Now w).2 (serve Now w).1). unfold mbind, M_bind, do. destruct (serve Now w) as [w' now]. simpl in *.
    destruct (f (SetStatusConditionAt now o cond) w') as [w'' [es r]]. simpl in *. by constructor.
  - specialize (Hf 0 w). unfold mbind, M_bind. simpl. by destruct (f (SetStatusConditionAt 0 o cond) w) as [w'' [es r]].
Qed.
(** A call whose answer says nothing in advance. *)
Lemma triple_call {A B} ok (P : event → Prop) (c : call A) (f : A → M B) (Q : B → Prop) :
  P (Event A c) → (∀ a, triple ok P (f a) Q) → triple ok P (do c ≫= f) Q.
Proof. intros HP Hf. apply (triple_bind _ _ _ _ (λ _, True)); [by apply triple_do|auto]. Qed.
Lemma triple_fmap_call {A B C} ok (P : event → Prop) (c : call A) (g : A → B) (f : B → M C) (Q : C → Prop) :
  P (Event A c) → (∀ a, triple ok P (f (g a)) Q) → triple ok P ((g <$> do c) ≫= f) Q.
Proof.
  intros HP Hf. apply (triple_bind _ _ _ _ (λ b, ∃ a, b = g a)); [|by intros b [a ->]].
  apply triple_fmap, triple_do; [done|]. intros a. by exists a.
Qed.
(** The caller writes type, status, reason and message. *)
Definition verdict (ty status reason message : string) : Condition :=
  {| c_Type := ty; c_Status := status; c_ObservedGeneration := 0; c_LastTransitionTime := 0;
     c_Reason := reason; c_Message := message |}.

(** ** Outcomes *)
Definition fail (e : error) (msg : string) : ReconcileOutcome := failed (Wrapped msg e).
(** [defer rf.OnEnd(&outcome)] on a method that also returns the objects it changed. *)
Definition ended {A} (r : A * ReconcileOutcome) : A * ReconcileOutcome := (r.1, OnEnd r.2).

(** ** Single-call I/O helpers

    A patch or create writes the response into the object; a failed call leaves it as it is. *)
Definition stored {A} (obj : A) (r : reply A) : A * option error :=
  match answer r with inr a => (a, None) | inl e => (obj, Some e) end.

Definition getRV (name : string) : M (error + option ReplicatedVolume) := orNil <$> do (GetRV name).
Definition getRSC (name : string) : M (error + option ReplicatedStorageClass) := orNil <$> do (GetRSC name).
Definition getRVsByRSC (name : string) : M (error + list ReplicatedVolume) := answer <$> do (ListRVsByRSC name).
Definition patchRV (obj base : ReplicatedVolume) : M (ReplicatedVolume * option error) :=
  stored obj <$> do (PatchRV base obj).
Definition patchRVStatus (obj base : ReplicatedVolume) : M (ReplicatedVolume * option error) :=
  stored obj <$> do (PatchRVStatus base obj).
Definition getDRBDROp (name : string) : M (error + option DRBDResourceOperation) := orNil <$> do (GetDRBDROp name).
Definition deleteDRBDROp (obj : DRBDResourceOperation) : M (option error) :=
  match op_DeletionTimestamp obj with
  | Some _ => mret None
  | None => r ← do (DeleteDRBDROp obj); mret (match orNil r with inl e => Some e | inr _ => None end)
  end.
(** The zone count, or the reply that tells why there is none. *)
Definition getRSPZoneCount (name : string) : M (reply Z) :=
  r ← do (GetRSP name);
  mret (match r with
        | Replied rsp => Replied (Z.of_nat (length (rsp_Spec_Zones rsp)))
        | NotFound e => NotFound e | AlreadyExists e => AlreadyExists e | Refused e => Refused e
        end).
Definition patchRVA (obj base : ReplicatedVolumeAttachment) : M (ReplicatedVolumeAttachment * option error) :=
  stored obj <$> do (PatchRVA base obj).
(** NotFound is success. *)
Definition patchRVAStatus (obj base : ReplicatedVolumeAttachment) : M (ReplicatedVolumeAttachment * option error) :=
  r ← do (PatchRVAStatus base obj);
  mret (match orNil r with inr (Some a) => (a, None) | inr None => (obj, None) | inl e => (obj, Some e) end).
Definition createRVR (obj : ReplicatedVolumeReplica) : M (reply ReplicatedVolumeReplica) := do (CreateRVR obj).
Definition patchRVR (obj base : ReplicatedVolumeReplica) : M (reply ReplicatedVolumeReplica) := do (PatchRVR base obj).
Definition deleteRVR (obj : ReplicatedVolumeReplica) : M (ReplicatedVolumeReplica * option error) :=
  match rvr_DeletionTimestamp obj with
  | Some _ => mret (obj, None)
  | None =>
      r ← do (DeleteRVR obj);
      match orNil r with
      | inl e => mret (obj, Some e)
      | inr _ => now ← do Now; mret (obj <| rvr_DeletionTimestamp := Some now |>, None)
      end
  end.

Definition RVControllerFinalizer : string := "sds-replicated-volume.deckhouse.io/rv-controller".
Definition deleteRVRWithForcedFinalizerRemoval (obj : ReplicatedVolumeReplica) : M (ReplicatedVolumeReplica * option error) :=
  if HasFinalizer obj RVControllerFinalizer then
    let base := obj in
    let '(_, obj) := RemoveFinalizer obj RVControllerFinalizer in
    r ← patchRVR obj base;
    match r with
    | Replied obj => deleteRVR obj
    | NotFound _ => now ← do Now; mret (obj <| rvr_DeletionTimestamp := Some now |>, None)
    | AlreadyExists e | Refused e => mret (obj, Some (Wrapped "removing finalizer" e))
    end
  else deleteRVR obj.

(** The order of the listings. *)
Definition rvrSortedLeb (a b : ReplicatedVolumeReplica) : bool :=
  match String.compare (rvr_Spec_NodeName a) (rvr_Spec_NodeName b) with
  | Lt => true | Gt => false | Eq => rvr_ID a <=? rvr_ID b
  end.
Definition getRVRsSorted (rvName : string) : M (error + list ReplicatedVolumeReplica) :=
  r ← do (ListRVRs rvName);
  mret (match answer r with inl e => inl e | inr l => inr (sort_by rvrSortedLeb l) end).
Definition rvaSortedLeb (a b : ReplicatedVolumeAttachment) : bool :=
  match String.compare (rva_NodeName a) (rva_NodeName b) with
  | Lt => true | Gt => false
  | Eq => if rva_CreationTimestamp a =? rva_CreationTimestamp b then string_leb (rva_Name a) (rva_Name b)
          else rva_CreationTimestamp a <? rva_CreationTimestamp b
  end.
Definition getRVAsSorted (rvName : string) : M (error + list ReplicatedVolumeAttachment) :=
  r ← do (ListRVAs rvName);
  mret (match answer r with inl e => inl e | inr l => inr (sort_by rvaSortedLeb l) end).
Definition createDRBDROp (rv : ReplicatedVolume) (obj : DRBDResourceOperation) : M (reply DRBDResourceOperation) :=
  e ← do (ControllerRefOp obj rv);
  match e with Some e => mret (Refused e) | None => do (CreateDRBDROp obj) end.

(** A server for examples: it answers reads from fixed objects, accepts every write without
    remembering it, and its clock advances by one at each reading. *)
Record store := {
  st_rv : option ReplicatedVolume; st_rsc : option ReplicatedStorageClass; st_rsp : option ReplicatedStoragePool;
  st_op : option DRBDResourceOperation; st_rvs : list ReplicatedVolume; st_rvrs : list ReplicatedVolumeReplica;
  st_rvas : list ReplicatedVolumeAttachment; st_drbdr : option DRBDResource; st_llvs : list LVMLogicalVolume;
  st_agents : list bool; st_rsps : list ReplicatedStoragePool; st_sc : option StorageClass; st_lvgs : list LVMVolumeGroup;
  st_nodes : list Node; st_pods : list Pod; st_host : ∀ {A}, host.hostcall A → A;
}.
#[export] Instance rebuild_store : Rebuild store := λ s,
  {| st_rv := st_rv s; st_rsc := st_rsc s; st_rsp := st_rsp s; st_op := st_op s; st_rvs := st_rvs s; st_rvrs := st_rvrs s;
     st_rvas := st_rvas s; st_drbdr := st_drbdr s; st_llvs := st_llvs s; st_agents := st_agents s; st_rsps := st_rsps s;
     st_sc := st_sc s; st_lvgs := st_lvgs s; st_nodes := st_nodes s; st_pods := st_pods s;
     st_host := λ A, @st_host s A |}.
Definition found {A} (o : option A) : reply A := match o with Some a => Replied a | None => NotFound (Leaf "not found" false) end.
Definition store_server (st : store) : Server := {|
  World := Z;
  serve A c := match c in call T return Z → Z * T with
    | Now => λ w, (w + 1, w)
    | Readings => λ w, (w, λ n, w + Z.of_nat n)
    | SpareCapacity => λ w, (w, [])
    | RandRead => λ w, (w, inr "secret")
    | ControllerRef _ _ | ControllerRefOp _ _ => λ w, (w, None)
    | GetRV _ => λ w, (w, found (st_rv st))
    | GetRSC _ => λ w, (w, found (st_rsc st))
    | GetRSP _ => λ w, (w, found (st_rsp st))
    | GetDRBDROp _ => λ w, (w, found (st_op st))
    | ListRVsByRSC _ => λ w, (w, Replied (st_rvs st))
    | ListRVRs _ => λ w, (w, Replied (st_rvrs st))
    | ListRVAs _ => λ w, (w, Replied (st_rvas st))
    | PatchRV _ o | PatchRVStatus _ o => λ w, (w, Replied o)
    | CreateRVR o | PatchRVR _ o => λ w, (w, Replied o)
    | DeleteRVR _ | DeleteDRBDROp _ => λ w, (w, Replied tt)
    | PatchRVA _ o | PatchRVAStatus _ o => λ w, (w, Replied o)
    | CreateDRBDROp o => λ w, (w, Replied o)
    | SetControllerReference refs owner => λ w, (w, inr (refs ++ [{| or_UID := owner; or_Controller := true |}]))
    | GetRVR _ => λ w, (w, found (head (st_rvrs st)))
    | PatchRVRStatus _ o => λ w, (w, Replied o)
    | GetDRBDR _ => λ w, (w, found (st_drbdr st))
    | CreateDRBDR o | PatchDRBDR _ o => λ w, (w, Replied o)
    | DeleteDRBDR _ | DeleteLLV _ => λ w, (w, Replied tt)
    | ListLLVs _ => λ w, (w, Replied (st_llvs st))
    | GetLLV n => λ w, (w, found (List.find (λ l, String.eqb (llv_Name l) n) (st_llvs st)))
    | CreateLLV o | PatchLLV _ o => λ w, (w, Valid (Replied o))
    | GetNodeReady _ => λ w, (w, Replied true)
    | ListAgentPods _ => λ w, (w, Replied (st_agents st))
    | MapOrder => λ w, (w, λ _, 0)
    | ListLVGs => λ w, (w, Replied (st_lvgs st))
    | ListNodes _ => λ w, (w, Replied (st_nodes st))
    | ListPods _ _ => λ w, (w, Replied (st_pods st))
    | ListRSPsByUsedBy _ | ListRSPsByEligibleNode _ => λ w, (w, Replied (st_rsps st))
    | ListDRBDRsByNode _ => λ w, (w, Replied (match st_drbdr st with Some d => [d] | None => [] end))
    | CreateRSP o | PatchRSP _ o | PatchRSPStatus _ o => λ w, (w, Replied o)
    | DeleteRSP _ | DeleteStorageClass _ | PatchNode _ _ => λ w, (w, Replied tt)
    | PatchRSC _ o | PatchRSCStatus _ o => λ w, (w, Replied o)
    | GetStorageClass _ => λ w, (w, found (st_sc st))
    | CreateStorageClass o | PatchStorageClass _ o => λ w, (w, Replied o)
    | GetNode _ => λ w, (w, found (head (st_nodes st)))
    | OnHost c => λ w, (w, st_host st c)
    | PatchDRBDRStatus _ o => λ w, (w, Replied o)
    | PatchDRBDROpStatus _ o => λ w, (w, Replied o)
    | GetLVG n => λ w, (w, found (List.find (λ g, String.eqb (vg_Name g) n) (st_lvgs st)))
    | ListLVGsByNode _ => λ w, (w, Replied (st_lvgs st))
    | ListLLVsByLVG n => λ w, (w, Replied (List.filter (λ l, String.eqb (llv_LVMVolumeGroupName l) n) (st_llvs st)))
    end |}.
Definition zeroStore : store :=
  {| st_rv := None; st_rsc := None; st_rsp := None; st_op := None; st_rvs := []; st_rvrs := []; st_rvas := [];
     st_drbdr := None; st_llvs := []; st_agents := []; st_rsps := []; st_sc := None; st_lvgs := [];
     st_nodes := []; st_pods := []; st_host := @host.quietHost |}.
End client.
End client.

(** The calls of a program, by its structure. *)
Create HintDb calls.
Ltac step_calls :=
  match goal with
  | |- client.calls _ (mret _) => apply client.calls_ret
  | |- client.calls _ (client.do _) => apply client.calls_do; simpl; try done
  | |- client.calls _ (client.lift _) => apply client.calls_lift
  | |- client.calls _ (client.SetStatusCondition _ _) => apply client.calls_condition; simpl; try done
  | |- client.calls _ (client.lift _ ≫= _) => apply client.calls_lift_bind; intros ? ?
  | |- client.calls _ (_ <$> _) => apply client.calls_fmap
  | |- client.calls _ (_ ≫= _) => apply client.calls_bind; [|intros ?]
  | |- client.calls _ (client.rangeM _ _) => apply client.calls_range; intros ? ?
  | |- client.calls _ (if ?b then _ else _) => let E := fresh "E" in destruct b eqn:E
  | |- client.calls _ (match ?x with _ => _ end) => let E := fresh "E" in destruct x eqn:E
  | |- client.calls _ _ => solve [eauto with calls]
  end.
Ltac calls := repeat step_calls.

(** Programs are specified by structure: sequences, replies, branches. *)
Create HintDb programs.
#[export] Hint Resolve client.triple_ret client.triple_do : programs.
Ltac step_program :=
  match goal with
  | |- client.triple _ _ (mret _) _ => apply client.triple_ret
  | |- client.triple _ _ (client.do _) _ => apply client.triple_do
  | |- client.triple _ _ (client.lift _) _ => apply client.triple_lift
  | |- client.triple _ _ (_ <$> _) _ => apply client.triple_fmap
  | |- client.triple _ _ (client.SetStatusCondition _ _ ≫= _) _ => apply client.triple_condition
  | |- client.triple _ _ (client.do _ ≫= _) _ => apply client.triple_call
  | |- client.triple _ _ ((_ <$> client.do _) ≫= _) _ => apply client.triple_fmap_call
  | |- client.triple _ _ (if ?b then _ else _) _ => let E := fresh "E" in destruct b eqn:E
  | |- client.triple _ _ (match ?x with _ => _ end) _ => let E := fresh "E" in destruct x eqn:E
  | |- client.triple _ _ (let '(_, _) := ?x in _) _ => let E := fresh "E" in destruct x eqn:E
  end.
