(* ===== verification/Pipeline.v ===== *)
(** * rvr_scheduling_controller: the candidate pipeline

    Source: rvr_scheduling_controller/scheduling_pipeline.go, internal/scheduler_extender (the data
    exchanged with the extender) and internal/rvr_llv_name.

    A pipeline stage is its sequence of candidates and its summary.  The Go sequences are lazy, but
    the reconciler consumes each of them exactly once and to the end, so a stage is the value it
    has after that.  A candidate is referenced by one stage at a time; where a stage holds several
    references (groups), they are positions in its slice. *)

From Stdlib Require Import ZArith Lia String Ascii.
From stdpp Require Import base gmap list numbers strings option relations.
From S2P Require Import Prelude IdSet DrbdSize Api Flow.
Import v1alpha1.

Module pipeline.

(** ** scheduler_extender *)
Record LVMVolumeGroup := { q_LVGName : string; q_ThinPoolName : string }.
Record ScoredLVMVolumeGroup := { s_LVG : LVMVolumeGroup; s_Score : Z }.

(** ** rvr_llv_name: FNV-1a on 128 bits, in hexadecimal *)
Definition fnv128_offset : Z := 144066263297769815596495629667062367629.
Definition fnv128_prime : Z := 309485009821345068724781371.
Definition fnv128a_byte (h : Z) (b : Z) : Z := (Z.lxor h b * fnv128_prime) mod 2 ^ 128.
Fixpoint bytes (s : string) : list Z :=
  match s with EmptyString => [] | String c s => Z.of_nat (nat_of_ascii c) :: bytes s end.
Definition fnv128a (bs : list Z) : Z := foldl fnv128a_byte fnv128_offset bs.
Definition hexDigit (n : Z) : string :=
  String (ascii_of_nat (Z.to_nat (if n <? 10 then 48 + n else 87 + n))) "".
(** The [n] hexadecimal digits of [x], most significant first. *)
Fixpoint hex (n : nat) (x : Z) : string :=
  match n with O => "" | S n => hex n (x / 16) +:+ hexDigit (x mod 16) end.
Definition ComputeLLVName (rvrName lvgName thinPoolName : string) : string :=
  rvrName +:+ "-" +:+ hex 32 (fnv128a (bytes lvgName ++ [0] ++ bytes thinPoolName)).

(** ** Candidates *)
Record CandidateEntry := {
  ce_Node : EligibleNode; ce_LVG : option EligibleNodeLVMVolumeGroup; ce_ThinPool : option string; ce_Score : Z;
}.
Definition LVGName (e : CandidateEntry) : string :=
  match ce_LVG e with None => "" | Some g => lvg_Name g end.
Definition ThinPoolName (e : CandidateEntry) : string :=
  match ce_ThinPool e with None => "" | Some n => n end.
Definition set_Score (v : Z) (e : CandidateEntry) : CandidateEntry :=
  {| ce_Node := ce_Node e; ce_LVG := ce_LVG e; ce_ThinPool := ce_ThinPool e; ce_Score := v |}.
(** [e.Score += v] on a 64-bit int. *)
Definition addScore (v : Z) (e : CandidateEntry) : CandidateEntry := set_Score (wrapS64 (ce_Score e + v)) e.

Record SchedulingPipeline := { sp_Seq : list CandidateEntry; sp_Summary : string }.

(** ** candidateSource *)
Definition nodeEntry (n : EligibleNode) : CandidateEntry :=
  {| ce_Node := n; ce_LVG := None; ce_ThinPool := None; ce_Score := 0 |}.
Definition lvgEntry (n : EligibleNode) (g : EligibleNodeLVMVolumeGroup) : CandidateEntry :=
  {| ce_Node := n; ce_LVG := Some g;
     ce_ThinPool := if String.eqb (lvg_ThinPoolName g) "" then None else Some (lvg_ThinPoolName g); ce_Score := 0 |}.
Definition candidates (nodeOnly : bool) (nodes : list EligibleNode) : list CandidateEntry :=
  flat_map (λ n, if nodeOnly then [nodeEntry n] else map (lvgEntry n) (en_LVMVolumeGroups n)) nodes.
Definition candidateSource (nodeOnly : bool) (nodes : list EligibleNode) : SchedulingPipeline :=
  let es := candidates nodeOnly nodes in
  let total := itoa (Z.of_nat (length es)) in
  let count := itoa (Z.of_nat (length nodes)) in
  {| sp_Seq := es;
     sp_Summary := if nodeOnly then total +:+ " candidates from " +:+ count +:+ " eligible nodes"
                   else total +:+ " candidates (node×LVG) from " +:+ count +:+ " eligible nodes" |}.
Definition TakeLVGsFromEligibleNodes : list EligibleNode → SchedulingPipeline := candidateSource false.
Definition TakeOnlyNodesFromEligibleNodes : list EligibleNode → SchedulingPipeline := candidateSource true.

(** ** schedulingPredicate *)
(** The chain of messages: the own message only when something was excluded. *)
Definition chainSummary (upstream : string) (excluded : Z) (name : string) : string :=
  if excluded =? 0 then upstream
  else let own := itoa excluded +:+ " excluded: " +:+ name in
       if String.eqb upstream "" then own else upstream +:+ "; " +:+ own.
Definition WithPredicate (up : SchedulingPipeline) (name : string)
    (fn : CandidateEntry → option CandidateEntry) : SchedulingPipeline :=
  {| sp_Seq := omap fn (sp_Seq up);
     sp_Summary := chainSummary (sp_Summary up) (countb (λ e, bool_decide (fn e = None)) (sp_Seq up)) name |}.
(** A predicate that only excludes. *)
Definition keepIf (p : CandidateEntry → bool) (e : CandidateEntry) : option CandidateEntry :=
  if p e then Some e else None.

(** ** ScoringStep *)
Definition keyCompare (a b : string * string) : comparison :=
  match String.compare a.1 b.1 with Eq => String.compare a.2 b.2 | c => c end.
Definition entryKey (e : CandidateEntry) : string * string := (LVGName e, ThinPoolName e).
Definition scoredKey (s : ScoredLVMVolumeGroup) : string * string := (q_LVGName (s_LVG s), q_ThinPoolName (s_LVG s)).
Definition queriesOf (es : list CandidateEntry) : list LVMVolumeGroup :=
  omap (λ e, match ce_LVG e with
             | None => None
             | Some _ => Some {| q_LVGName := LVGName e; q_ThinPoolName := ThinPoolName e |}
             end) es.
(** Entries before a key are excluded. *)
Fixpoint skipBelow (k : string * string) (es : list CandidateEntry) (excluded : Z) : list CandidateEntry * Z :=
  match es with
  | e :: es' => match keyCompare (entryKey e) k with
                | Lt => skipBelow k es' (excluded + 1)
                | _ => (es, excluded)
                end
  | [] => ([], excluded)
  end.
(** The two-pointer join of sorted entries with sorted scores. *)
Fixpoint mergeJoin (scored : list ScoredLVMVolumeGroup) (es result : list CandidateEntry) (excluded : Z) :
    list CandidateEntry * Z :=
  match scored with
  | [] => (result, excluded + Z.of_nat (length es))
  | s :: scored' =>
      let '(es, excluded) := skipBelow (scoredKey s) es excluded in
      match es with
      | e :: es' => match keyCompare (entryKey e) (scoredKey s) with
                    | Eq => if 0 <? s_Score s
                            then mergeJoin scored' es' (result ++ [set_Score (s_Score s) e]) excluded
                            else mergeJoin scored' es' result (excluded + 1)
                    | _ => mergeJoin scored' es result excluded
                    end
      | [] => mergeJoin scored' es result excluded
      end
  end.
Definition joinScores (scored : list ScoredLVMVolumeGroup) (es : list CandidateEntry) : list CandidateEntry * Z :=
  mergeJoin (sort_by (λ a b, cmp_leb keyCompare (scoredKey a) (scoredKey b)) scored)
            (sort_by (λ a b, cmp_leb keyCompare (entryKey a) (entryKey b)) es) [] 0.
(** The step, for the response [extender queries] of the scheduler extender; without queries the
    extender is not called. *)
Definition scoringStep (up : SchedulingPipeline) (joined : list CandidateEntry * Z) : SchedulingPipeline :=
  {| sp_Seq := joined.1; sp_Summary := chainSummary (sp_Summary up) joined.2 "scoring (no capacity)" |}.
Definition FilteredAndScoredBySchedulerExtender {W} (up : SchedulingPipeline)
    (extender : list LVMVolumeGroup → W → W * (flow.error + list ScoredLVMVolumeGroup)) (w : W) :
    W * (flow.error + SchedulingPipeline) :=
  let es := sp_Seq up in
  match queriesOf es with
  | [] => (w, inr (scoringStep up ([], Z.of_nat (length es))))
  | queries =>
      match extender queries w with
      | (w, inl err) => (w, inl err)
      | (w, inr scored) => (w, inr (scoringStep up (joinScores scored es)))
      end
  end.

(** ** groupScoringStep *)
Definition addToGroup (k : string) (i : nat) (groups : list (string * list nat)) : list (string * list nat) :=
  match list_find (λ g, g.1 = k) groups with
  | Some (j, (_, l)) => <[j := (k, l ++ [i])]> groups
  | None => groups ++ [(k, [i])]
  end.
Definition groupEntries (keyFn : CandidateEntry → string) (all : list CandidateEntry) : list (string * list nat) :=
  foldl (λ groups ie, addToGroup (keyFn ie.2) ie.1 groups) [] (imap pair all).
Definition scoreGroup (scoreFn : string → list CandidateEntry → Z) (all : list CandidateEntry)
    (g : string * list nat) : list CandidateEntry :=
  let score := scoreFn g.1 (omap (λ i, all !! i) g.2) in
  if score =? 0 then all else foldl (λ all i, alter (addScore score) i all) all g.2.
Definition WithGroupScore (up : SchedulingPipeline) (keyFn : CandidateEntry → string)
    (scoreFn : string → list CandidateEntry → Z) : SchedulingPipeline :=
  {| sp_Seq := foldl (scoreGroup scoreFn) (sp_Seq up) (groupEntries keyFn (sp_Seq up)); sp_Summary := sp_Summary up |}.
Definition WithZoneScore (up : SchedulingPipeline) := WithGroupScore up (λ e, en_ZoneName (ce_Node e)).
Definition WithNodeScore (up : SchedulingPipeline) := WithGroupScore up (λ e, en_NodeName (ce_Node e)).

(** ** Best-candidate selection *)
Definition selectBest (isBetter : CandidateEntry → CandidateEntry → bool) (es : list CandidateEntry) :
    option CandidateEntry :=
  foldl (λ best e, match best with
                   | None => Some e
                   | Some b => if isBetter e b then Some e else best
                   end) None es.
Definition SelectBest (p : SchedulingPipeline) (isBetter : CandidateEntry → CandidateEntry → bool) :
    option CandidateEntry * string := (selectBest isBetter (sp_Seq p), sp_Summary p).
End pipeline.
