(* ===== verification/PipelineTheory.v ===== *)
(** * Theorems on the candidate pipeline

    The two-pointer join assigns every candidate the score of its volume group; the selection
    returns a candidate; scoring steps change nothing but scores. *)

From Stdlib Require Import ZArith Lia String Sorted.
From stdpp Require Import base gmap list numbers strings option relations.
From S2P Require Import Prelude IdSet DrbdSize Api Flow Pipeline.
Import v1alpha1 pipeline.

#[export] Instance keyCompare_order : KeyOrder keyCompare.
Proof.
  split; unfold keyCompare.
  - intros [a1 a2] [b1 b2]. simpl. destruct (String.compare a1 b1) eqn:E; [|split; [done|]..].
    + rewrite cmp_eq. apply cmp_eq in E as ->. split; congruence.
    + intros [= <- _]. by rewrite cmp_refl in E by apply _.
    + intros [= <- _]. by rewrite cmp_refl in E by apply _.
  - intros [a1 a2] [b1 b2]. simpl. rewrite (String.compare_antisym a1 b1), (String.compare_antisym a2 b2). by destruct (String.compare b1 a1).
  - intros [a1 a2] [b1 b2] [c1 c2]. simpl.
    destruct (String.compare a1 b1) eqn:E1, (String.compare b1 c1) eqn:E2; try done.
    + apply cmp_eq in E1 as ->. apply cmp_eq in E2 as ->. rewrite cmp_refl by apply _. apply cmp_lt_trans.
    + apply cmp_eq in E1 as ->. by rewrite E2.
    + apply cmp_eq in E2 as ->. by rewrite E1.
    + by rewrite (cmp_lt_trans (cmp:=String.compare) a1 b1 c1).
Qed.

Lemma omap_cons_eq {A B} (f : A → option B) x l :
  omap f (x :: l) = match f x with Some y => y :: omap f l | None => omap f l end.
Proof. done. Qed.

(** ** The merge join *)

(** Reference join: look every candidate up among the scores. *)
Definition scoreOf (scored : list ScoredLVMVolumeGroup) (e : CandidateEntry) : option Z :=
  s_Score <$> List.find (λ s, bool_decide (scoredKey s = entryKey e)) scored.
Definition scoreEntry (scored : list ScoredLVMVolumeGroup) (e : CandidateEntry) : option CandidateEntry :=
  match scoreOf scored e with
  | Some v => if 0 <? v then Some (set_Score v e) else None
  | None => None
  end.

Definition entriesSorted : list CandidateEntry → Prop := StronglySorted (below keyCompare entryKey).
Definition scoredSorted : list ScoredLVMVolumeGroup → Prop := StronglySorted (below keyCompare scoredKey).

Lemma scoreOf_skip s scored e : scoredKey s ≠ entryKey e → scoreEntry (s :: scored) e = scoreEntry scored e.
Proof. intros H. unfold scoreEntry, scoreOf. simpl. by rewrite bool_decide_false. Qed.
Lemma scoreOf_hit s scored e : scoredKey s = entryKey e →
  scoreEntry (s :: scored) e = if 0 <? s_Score s then Some (set_Score (s_Score s) e) else None.
Proof. intros H. unfold scoreEntry, scoreOf. simpl. by rewrite bool_decide_true. Qed.
Lemma scoreOf_below scored e : Forall (λ s, keyCompare (entryKey e) (scoredKey s) = Lt) scored →
  scoreEntry scored e = None.
Proof.
  induction 1 as [|s scored H _ IH]; [done|]. rewrite scoreOf_skip; [done|]. intros E. rewrite E in H.
  by rewrite cmp_refl in H by apply _.
Qed.
Lemma omap_skip s scored es : Forall (λ e, keyCompare (scoredKey s) (entryKey e) = Lt) es →
  omap (scoreEntry (s :: scored)) es = omap (scoreEntry scored) es.
Proof.
  induction 1 as [|e es H _ IH]; [done|]. rewrite !omap_cons_eq, IH, scoreOf_skip; [done|]. intros E. rewrite E in H.
  by rewrite cmp_refl in H by apply _.
Qed.

(** The skipped entries have no score; what is left starts at the key or above it. *)
Lemma skipBelow_spec s scored es n : entriesSorted es → scoredSorted (s :: scored) →
  ∃ rest, skipBelow (scoredKey s) es n = (rest, n + Z.of_nat (length es) - Z.of_nat (length rest)) ∧ entriesSorted rest ∧
    omap (scoreEntry (s :: scored)) es = omap (scoreEntry (s :: scored)) rest ∧
    match rest with [] => True | e :: _ => keyCompare (entryKey e) (scoredKey s) ≠ Lt end.
Proof.
  intros He Hs. revert n. induction He as [|e es He IH Hf]; intros n; cbn [skipBelow].
  - exists []. split; [f_equal; simpl; lia|]. by repeat constructor.
  - destruct (keyCompare (entryKey e) (scoredKey s)) eqn:E.
    + exists (e :: es). split; [f_equal; simpl; lia|]. repeat split; [by constructor|]. by rewrite E.
    + destruct (IH (n + 1)) as (rest & -> & Hr & Ho & Hh). exists rest. split; [f_equal; simpl; lia|]. repeat split; auto.
      rewrite <-Ho, omap_cons_eq, scoreOf_below; [done|]. constructor; [done|].
      apply StronglySorted_inv in Hs as [_ Hs]. eapply Forall_impl; [exact Hs|]. intros t Ht. by eapply cmp_lt_trans.
    + exists (e :: es). split; [f_equal; simpl; lia|]. repeat split; [by constructor|]. by rewrite E.
Qed.

Lemma mergeJoin_spec scored es result n : entriesSorted es → scoredSorted scored →
  let joined := omap (scoreEntry scored) es in
  mergeJoin scored es result n =
  (result ++ joined, n + Z.of_nat (length es) - Z.of_nat (length joined)).
Proof.
  intros He Hs. revert es result n He. induction scored as [|s scored IH]; intros es result n He; cbn [mergeJoin].
  { assert (omap (scoreEntry []) es = []) as ->; [by clear He; induction es|]. rewrite app_nil_r. f_equal. simpl. lia. }
  destruct (skipBelow_spec s scored es n He Hs) as (rest & -> & Hr & -> & Hh).
  apply StronglySorted_inv in Hs as [Hs' Hb].
  destruct rest as [|e rest]; [rewrite IH by (done || constructor); f_equal; simpl; lia|].
  apply StronglySorted_inv in Hr as Hr'. destruct Hr' as [Hrest Hf].
  destruct (keyCompare (entryKey e) (scoredKey s)) eqn:E; [|done|].
  - apply cmp_eq in E. rewrite omap_cons_eq, (scoreOf_hit s) by done.
    assert (Ho : omap (scoreEntry (s :: scored)) rest = omap (scoreEntry scored) rest).
    { apply omap_skip. unfold below in Hf. by rewrite <-E. }
    destruct (0 <? s_Score s); rewrite IH, Ho by done; f_equal; [by rewrite <-app_assoc| |]; simpl; lia.
  - rewrite IH by done. rewrite omap_skip; [f_equal; simpl; lia|].
    assert (Hlt : keyCompare (scoredKey s) (entryKey e) = Lt) by (rewrite cmp_flip, E; done).
    constructor; [done|]. eapply Forall_impl; [exact Hf|]. intros x Hx. by eapply cmp_lt_trans.
Qed.

(** The order of the response does not matter. *)
Lemma find_key_Some scored k s : NoDup (map scoredKey scored) →
  List.find (λ s, bool_decide (scoredKey s = k)) scored = Some s ↔ s ∈ scored ∧ scoredKey s = k.
Proof.
  intros Hd. split.
  - intros [Hin Hk]%find_some. apply bool_decide_eq_true in Hk. by rewrite list_elem_of_In.
  - intros [Hin Hk]. induction scored as [|t scored IH]; [set_solver|]. simpl in *. apply NoDup_cons in Hd as [Ht Hd].
    case_bool_decide as E.
    + apply elem_of_cons in Hin as [->|Hin]; [done|]. destruct Ht. rewrite E, <-Hk. by apply list_elem_of_fmap_2.
    + apply elem_of_cons in Hin as [->|Hin]; [done|]. by apply IH.
Qed.
Lemma scoreEntry_perm scored scored' e : scored ≡ₚ scored' → NoDup (map scoredKey scored) →
  scoreEntry scored e = scoreEntry scored' e.
Proof.
  intros HP Hd. assert (Hd' : NoDup (map scoredKey scored')) by (by rewrite <-HP).
  assert (Hf : List.find (λ s, bool_decide (scoredKey s = entryKey e)) scored =
               List.find (λ s, bool_decide (scoredKey s = entryKey e)) scored'); [|unfold scoreEntry, scoreOf; by rewrite Hf].
  apply option_eq. intros s. by rewrite !find_key_Some, HP.
Qed.
Lemma joinScores_spec scored es : NoDup (map entryKey es) → NoDup (map scoredKey scored) →
  (joinScores scored es).1 ≡ₚ omap (scoreEntry scored) es ∧
  (joinScores scored es).2 = Z.of_nat (length es) - Z.of_nat (length (joinScores scored es).1).
Proof.
  intros He Hs. unfold joinScores. set (sc := sort_by _ scored). set (sorted := sort_by _ es).
  assert (HPs : sc ≡ₚ scored) by apply sort_by_perm. assert (HPe : sorted ≡ₚ es) by apply sort_by_perm.
  rewrite mergeJoin_spec by (by apply sort_by_strict; [apply _|]). simpl. split.
  - rewrite HPe. assert (omap (scoreEntry sc) es = omap (scoreEntry scored) es) as ->; [|done].
    clear -HPs Hs. induction es as [|e es IH]; [done|]. rewrite !omap_cons_eq, IH, (scoreEntry_perm scored sc); done.
  - by rewrite (Permutation_length HPe).
Qed.

(** The scoring step joins the candidates with the response of the scheduler extender.  When the
    volume groups of the candidates and those of the response are distinct, the two-pointer join over
    sorted slices keeps exactly the candidates whose volume group has a positive score, with that
    score, and counts all others as excluded. *)
Theorem joinScores_join (scored : list ScoredLVMVolumeGroup) (es : list CandidateEntry) :
  NoDup (map entryKey es) → NoDup (map scoredKey scored) →
  let '(joined, excluded) := joinScores scored es in
  joined ≡ₚ omap (scoreEntry scored) es ∧
  excluded = Z.of_nat (length es) - Z.of_nat (length joined).
Proof. intros He Hs. pose proof (joinScores_spec scored es He Hs). by destruct (joinScores scored es). Qed.
Definition lvg (name : string) : EligibleNodeLVMVolumeGroup :=
  {| lvg_Name := name; lvg_ThinPoolName := ""; lvg_Unschedulable := false; lvg_Ready := true |}.
Definition eligibleNode (name zone : string) (lvgs : list string) : EligibleNode :=
  {| en_NodeName := name; en_ZoneName := zone; en_LVMVolumeGroups := map lvg lvgs; en_Unschedulable := false;
     en_NodeReady := true; en_AgentReady := true |}.
Definition scoredLVG (name : string) (v : Z) : ScoredLVMVolumeGroup :=
  {| s_LVG := {| q_LVGName := name; q_ThinPoolName := "" |}; s_Score := v |}.
Lemma joinScores_join_witness :
  let es := candidates false [eligibleNode "n2" "a" ["vg-c"; "vg-a"]; eligibleNode "n1" "b" ["vg-b"]] in
  let '(joined, excluded) := joinScores [scoredLVG "vg-b" 7; scoredLVG "vg-x" 9; scoredLVG "vg-a" 0] es in
  map LVGName joined = ["vg-b"] ∧ map ce_Score joined = [7] ∧ excluded = 2 ∧
  joined ≡ₚ omap (scoreEntry [scoredLVG "vg-b" 7; scoredLVG "vg-x" 9; scoredLVG "vg-a" 0]) es.
Proof.
  pose proof (joinScores_join [scoredLVG "vg-b" 7; scoredLVG "vg-x" 9; scoredLVG "vg-a" 0]
    (candidates false [eligibleNode "n2" "a" ["vg-c"; "vg-a"]; eligibleNode "n1" "b" ["vg-b"]])
    ltac:(apply NoDup_ListNoDup; vm_compute; repeat constructor; simpl; intuition congruence) ltac:(apply NoDup_ListNoDup; vm_compute; repeat constructor; simpl; intuition congruence)) as H.
  exact (conj eq_refl (conj eq_refl (conj eq_refl (proj1 H)))).
Defined.

(** ** Scoring changes scores only *)
Definition score_blind (Q : CandidateEntry → Prop) : Prop := ∀ v e, Q e → Q (set_Score v e).

Section blind.
Context (Q : CandidateEntry → Prop) (HQ : score_blind Q).

Lemma skipBelow_Forall k es n : Forall Q es → Forall Q (skipBelow k es n).1.
Proof using HQ.
  revert n. induction es as [|e es IH]; intros n H; simpl; [done|].
  destruct (keyCompare _ _); [done|apply IH; by apply Forall_cons in H as []|done].
Qed.
Lemma mergeJoin_Forall scored es result n : Forall Q es → Forall Q result →
  Forall Q (mergeJoin scored es result n).1.
Proof using HQ.
  revert es result n. induction scored as [|s scored IH]; intros es result n He Hr; cbn [mergeJoin]; [done|].
  pose proof (skipBelow_Forall (scoredKey s) es n He) as Hs. destruct (skipBelow _ es n) as [rest m]. simpl in Hs.
  destruct rest as [|e rest]; [by apply IH|]. pose proof Hs as [Hqe Hrest]%Forall_cons.
  destruct (keyCompare _ _); [|by apply IH..]. destruct (0 <? s_Score s); [|by apply IH].
  apply IH; [done|]. apply Forall_app. split; [done|]. constructor; [by apply HQ|done].
Qed.
Lemma joinScores_Forall scored es : Forall Q es → Forall Q (joinScores scored es).1.
Proof using HQ. intros H. apply mergeJoin_Forall; [|done]. by rewrite sort_by_perm. Qed.
Lemma addScore_Forall v l es : Forall Q es → Forall Q (foldl (λ all i, alter (addScore v) i all) es l).
Proof using HQ.
  revert es. induction l as [|i l IH]; intros es H; simpl; [done|]. apply IH. apply Forall_alter; [done|].
  intros x _ Hx. by apply HQ.
Qed.
Lemma WithGroupScore_Forall p keyFn scoreFn : Forall Q (sp_Seq p) → Forall Q (sp_Seq (WithGroupScore p keyFn scoreFn)).
Proof using HQ.
  unfold WithGroupScore. simpl. generalize (groupEntries keyFn (sp_Seq p)). intros gs.
  generalize (sp_Seq p) as es. induction gs as [|g gs IH]; intros es H; simpl; [done|]. apply IH.
  unfold scoreGroup. destruct (_ =? 0); [done|]. by apply addScore_Forall.
Qed.
Lemma WithPredicate_Forall p name fn : (∀ e e', Q e → fn e = Some e' → Q e') →
  Forall Q (sp_Seq p) → Forall Q (sp_Seq (WithPredicate p name fn)).
Proof using HQ.
  intros Hf H. apply Forall_forall. intros e (e0 & Hin & He)%list_elem_of_omap. rewrite Forall_forall in H. eauto.
Qed.
End blind.

(** A filter keeps the elements that satisfy it. *)
Lemma keepIf_elem p name f e : e ∈ sp_Seq (WithPredicate p name (keepIf f)) ↔ e ∈ sp_Seq p ∧ f e = true.
Proof.
  simpl. rewrite list_elem_of_omap. unfold keepIf. split.
  - intros (e0 & Hin & He). destruct (f e0) eqn:E; by simplify_eq.
  - intros [Hin He]. exists e. by rewrite He.
Qed.

(** ** Selection *)
Lemma selectBest_elem isBetter es b : selectBest isBetter es = Some b → b ∈ es.
Proof.
  revert b. induction es as [|e es IH] using rev_ind; intros b; [done|]. unfold selectBest in *. rewrite foldl_app. simpl.
  destruct (foldl _ None es) as [b'|]; [destruct (isBetter e b')|]; intros [= <-]; set_solver.
Qed.
