(* ===== verification/Scheduling.v ===== *)
(** * rvr_scheduling_controller: placing the replicas of a volume

    Source: rvr_scheduling_controller/reconciler.go and obju.SetStatusCondition.

    The API server, the scheduler extender, the clock and the order in which Go ranges over a map
    are the class [Env]: each call takes and returns a [World].  The spec patches sent to the API
    server are also recorded in order ([io_sent]), so that theorems can speak about them.  Replicas
    are mutated in place by the Go code: every operation on a replica returns it. *)

From Stdlib Require Import ZArith Lia String.
From stdpp Require Import base gmap list numbers strings option.
From S2P Require Import Prelude IdSet DrbdSize Api Object Storage Flow Pipeline.
Import idset v1alpha1 storage pipeline.

Module scheduling.
Import flow.

(** ** The environment *)
(** Result of an API call: the object, an error for which apierrors.IsNotFound holds, another error. *)
Inductive apiResult (A : Type) := ApiOk (a : A) | ApiNotFound | ApiError (e : error).
Arguments ApiOk {A} _.
Arguments ApiNotFound {A}.
Arguments ApiError {A} _.

Class Env `{K8s} := {
  World : Type;
  (* metav1.Now *)
  now : World → World * Time;
  (* the order of [range] over a map *)
  rangeMap : gmap string IDSet → World → World * list (string * IDSet);
  (* client.Client: reads and patches of a replica (base, object) *)
  getRV_ : string → World → World * apiResult ReplicatedVolume;
  getRSP_ : string → World → World * apiResult ReplicatedStoragePool;
  listRVRs : string → World → World * (error + list ReplicatedVolumeReplica);
  listRVAs : string → World → World * (error + list ReplicatedVolumeAttachment);
  Patch : ReplicatedVolumeReplica → ReplicatedVolumeReplica → World → World * apiResult ReplicatedVolumeReplica;
  StatusPatch : ReplicatedVolumeReplica → ReplicatedVolumeReplica → World → World * apiResult ReplicatedVolumeReplica;
  (* schext.Client: reservation ID, TTL in seconds, size, volume groups *)
  FilterAndScore : string → Z → Z → list LVMVolumeGroup → World → World * (error + list ScoredLVMVolumeGroup);
  NarrowReservation : string → Z → LVMVolumeGroup → World → World * option error;
  env_meta :: MetaApi;
}.

Section reconciler.
Context `{K : K8s} {E : Env}.
Set Default Proof Using "Type".

Record io := { io_world : World; io_sent : list (ReplicatedVolumeReplica * ReplicatedVolumeReplica) }.
Definition on_world {A} (f : World → World * A) (s : io) : io * A :=
  let '(w, a) := f (io_world s) in ({| io_world := w; io_sent := io_sent s |}, a).
Definition record_sent (base obj : ReplicatedVolumeReplica) (s : io) : io :=
  {| io_world := io_world s; io_sent := io_sent s ++ [(base, obj)] |}.

(** ** Conditions *)
Definition ConditionUnknown : string := "Unknown".
Definition CondScheduledType : string := "Scheduled".
Definition ReasonScheduled : string := "Scheduled".
Definition ReasonSchedulingFailed : string := "SchedulingFailed".
Definition ReasonExtenderUnavailable : string := "ExtenderUnavailable".
Definition ReasonWaitingForReplicatedVolume : string := "WaitingForReplicatedVolume".

Definition set_Conditions (cs : list Condition) (r : ReplicatedVolumeReplica) : ReplicatedVolumeReplica :=
  r <| rvr_Conditions := cs |>.

(** obju.SetStatusCondition, for the fields the caller sets. *)
Definition SetStatusCondition (r : ReplicatedVolumeReplica) (ty status reason message : string) (s : io) :
    io * (bool * ReplicatedVolumeReplica) :=
  let conds := rvr_Conditions r in
  let '(s, t) := match FindStatusCondition conds ty with
                 | Some old => if String.eqb (c_Status old) status then (s, 0) else on_world now s
                 | None => on_world now s
                 end in
  let '(changed, conds) := meta_SetStatusCondition conds
    {| c_Type := ty; c_Status := status; c_ObservedGeneration := rvr_Generation r; c_LastTransitionTime := t;
       c_Reason := reason; c_Message := message |} in
  (s, (changed, if changed then set_Conditions conds r else r)).
Definition RemoveStatusCondition (r : ReplicatedVolumeReplica) (ty : string) : bool * ReplicatedVolumeReplica :=
  let '(changed, conds) := meta_RemoveStatusCondition (rvr_Conditions r) ty in
  (changed, if changed then set_Conditions conds r else r).
Definition HasStatusCondition (r : ReplicatedVolumeReplica) (ty : string) : bool :=
  bool_decide (is_Some (FindStatusCondition (rvr_Conditions r) ty)).
(** StatusCondition(..).StatusEqual(..).ReasonEqual(..).MessageEqual(..).ObservedGenerationCurrent().Eval() *)
Definition condUpToDate (r : ReplicatedVolumeReplica) (ty status reason message : string) : bool :=
  match StatusCondition r ty with
  | Some c => String.eqb (c_Status c) status && String.eqb (c_Reason c) reason && String.eqb (c_Message c) message &&
              (c_ObservedGeneration c =? rvr_Generation r)
  | None => false
  end.

(** ** Single-call I/O helpers *)
(** The object after a patch: the response, or the local one when the call failed. *)
Definition patched (r : ReplicatedVolumeReplica) (res : apiResult ReplicatedVolumeReplica) :
    ReplicatedVolumeReplica * option error :=
  match res with ApiOk r' => (r', None) | ApiNotFound => (r, None) | ApiError e => (r, Some e) end.
Definition patchRVR (r base : ReplicatedVolumeReplica) (s : io) : io * (ReplicatedVolumeReplica * option error) :=
  let '(s, res) := on_world (Patch base r) (record_sent base r s) in (s, patched r res).
Definition patchRVRStatus (r base : ReplicatedVolumeReplica) (s : io) : io * (ReplicatedVolumeReplica * option error) :=
  let '(s, res) := on_world (StatusPatch base r) s in (s, patched r res).

Definition rvrLeb (a b : ReplicatedVolumeReplica) : bool :=
  let aDeleting := bool_decide (is_Some (rvr_DeletionTimestamp a)) in
  let bDeleting := bool_decide (is_Some (rvr_DeletionTimestamp b)) in
  if negb (Bool.eqb aDeleting bDeleting) then negb aDeleting
  else if negb (rvr_CreationTimestamp a =? rvr_CreationTimestamp b)
       then rvr_CreationTimestamp a <? rvr_CreationTimestamp b
       else string_leb (rvr_Name a) (rvr_Name b).
Definition orNil {A} (res : apiResult A) : error + option A :=
  match res with ApiOk a => inr (Some a) | ApiNotFound => inr None | ApiError e => inl e end.
Definition getRV (name : string) (s : io) : io * (error + option ReplicatedVolume) :=
  let '(s, res) := on_world (getRV_ name) s in (s, orNil res).
Definition getRSP (name : string) (s : io) : io * (error + option ReplicatedStoragePool) :=
  let '(s, res) := on_world (getRSP_ name) s in (s, orNil res).
Definition getRVRsByRVName (name : string) (s : io) : io * (error + list ReplicatedVolumeReplica) :=
  let '(s, res) := on_world (listRVRs name) s in
  (s, match res with inl e => inl e | inr l => inr (sort_by rvrLeb l) end).
Definition getIntendedAttachments (name : string) (s : io) : io * (error + list string) :=
  let '(s, res) := on_world (listRVAs name) s in
  (s, match res with inl e => inl e | inr l => inr (Compact (sort_by string_leb (map rva_NodeName l))) end).

(** ** rvr-condition, place-rvr *)
Definition reconcileRVRCondition (r : ReplicatedVolumeReplica) (status reason message : string) (s : io) :
    io * (ReplicatedVolumeReplica * ReconcileOutcome) :=
  if condUpToDate r CondScheduledType status reason message then (s, (r, OnEnd Continue))
  else
    let base := r in
    let '(s, (_, r)) := SetStatusCondition r CondScheduledType status reason message s in
    match patchRVRStatus r base s with
    | (s, (r, Some e)) => (s, (r, OnEnd (failed e)))
    | (s, (r, None)) => (s, (r, OnEnd Continue))
    end.

Definition set_Placement (node lvg thin : string) (r : ReplicatedVolumeReplica) : ReplicatedVolumeReplica :=
  r <| rvr_Spec_NodeName := node |> <| rvr_Spec_LVMVolumeGroupName := lvg |> <| rvr_Spec_LVMVolumeGroupThinPoolName := thin |>.
Definition applyPlacementFromEntry (r : ReplicatedVolumeReplica) (e : CandidateEntry) : bool * ReplicatedVolumeReplica :=
  let '(c1, node) := if String.eqb (rvr_Spec_NodeName r) (en_NodeName (ce_Node e))
                     then (false, rvr_Spec_NodeName r) else (true, en_NodeName (ce_Node e)) in
  let '(c2, lvg) := if String.eqb (rvr_Spec_LVMVolumeGroupName r) (LVGName e)
                    then (false, rvr_Spec_LVMVolumeGroupName r) else (true, LVGName e) in
  let '(c3, thin) := if String.eqb (rvr_Spec_LVMVolumeGroupThinPoolName r) (ThinPoolName e)
                     then (false, rvr_Spec_LVMVolumeGroupThinPoolName r) else (true, ThinPoolName e) in
  (c1 || c2 || c3, set_Placement node lvg thin r).
Definition reconcileRVRPlacement (r : ReplicatedVolumeReplica) (e : CandidateEntry) (s : io) :
    io * (ReplicatedVolumeReplica * ReconcileOutcome) :=
  let base := r in
  let '(changed, r) := applyPlacementFromEntry r e in
  let '(s, (r, err)) := if changed then patchRVR r base s else (s, (r, None)) in
  match err with
  | Some e => (s, (r, OnEnd (failed e)))
  | None => let '(s, (r, o)) := reconcileRVRCondition r ConditionTrue ReasonScheduled "Replica scheduled successfully" s in
            (s, (r, OnEnd o))
  end.

(** ** Loops over the replicas

    [for _, rvr := range rvrs]: replicas that are not selected are skipped; the outcome of the body
    is combined with the outcome so far, and a terminal outcome leaves the loop. *)
Fixpoint rangeRVRs {S} (sel : ReplicatedVolumeReplica → bool)
    (comb : ReconcileOutcome → ReconcileOutcome → ReconcileOutcome)
    (body : ReplicatedVolumeReplica → S → S * (ReplicatedVolumeReplica * ReconcileOutcome))
    (rvrs : list ReplicatedVolumeReplica) (o : ReconcileOutcome) (s : S) :
    S * (list ReplicatedVolumeReplica * ReconcileOutcome) :=
  match rvrs with
  | [] => (s, ([], o))
  | r :: rest =>
      if sel r then
        let '(s, (r, o')) := body r s in
        let o := comb o o' in
        if ShouldReturn o then (s, (r :: rest, o))
        else let '(s, (rest, o)) := rangeRVRs sel comb body rest o s in (s, (r :: rest, o))
      else let '(s, (rest, o)) := rangeRVRs sel comb body rest o s in (s, (r :: rest, o))
  end.
Definition mergeOne (o o' : ReconcileOutcome) : ReconcileOutcome := Merge o [o'].

Definition removeCondition (r : ReplicatedVolumeReplica) (s : io) : io * (ReplicatedVolumeReplica * ReconcileOutcome) :=
  if negb (HasStatusCondition r CondScheduledType) then (s, (r, Continue))
  else let base := r in
       let '(_, r) := RemoveStatusCondition r CondScheduledType in
       match patchRVRStatus r base s with
       | (s, (r, Some e)) => (s, (r, failed e))
       | (s, (r, None)) => (s, (r, Continue))
       end.
Definition reconcileRVRsConditionAbsent (rvrs : list ReplicatedVolumeReplica) (rvrIDs : IDSet) (s : io) :
    io * (list ReplicatedVolumeReplica * ReconcileOutcome) :=
  let '(s, (rvrs, o)) := rangeRVRs (λ r, Contains rvrIDs (rvr_ID r)) (λ _ o, o) removeCondition rvrs Continue s in
  (s, (rvrs, OnEnd (if ShouldReturn o then o else Continue))).
Definition reconcileRVRsCondition (rvrs : list ReplicatedVolumeReplica) (rvrIDs : IDSet) (status reason message : string)
    (s : io) : io * (list ReplicatedVolumeReplica * ReconcileOutcome) :=
  let body r s := let '(s, (r', o)) := reconcileRVRCondition r status reason message s in
                  (s, (r', Enrichf o ("setting condition on rvr " +:+ rvr_Name r'))) in
  let '(s, (rvrs, o)) := rangeRVRs (λ r, Contains rvrIDs (rvr_ID r)) mergeOne body rvrs zeroOutcome s in
  (s, (rvrs, OnEnd (if ShouldReturn o then o else Continue))).

(** ** The scheduling context *)
Record schedulingContext := {
  sc_ReservationID : string; sc_Size : Z;
  sc_EligibleNodes : list EligibleNode; sc_OccupiedNodes : gset string; sc_AttachToNodes : list string;
  sc_Topology : Topology; sc_ReplicasByZone : gmap string IDSet;
  sc_FailuresToTolerate : Z; sc_GuaranteedMinimumDataRedundancy : Z; sc_VolumeAccess : VolumeAccess;
  sc_All : IDSet; sc_Access : IDSet; sc_Diskful : IDSet; sc_TieBreaker : IDSet; sc_Scheduled : IDSet;
}.

Definition isReplicaScheduled (r : ReplicatedVolumeReplica) (poolType : ReplicatedStoragePoolType) : bool :=
  match rvr_Spec_Type r with
  | ReplicaTypeTieBreaker => true
  | ReplicaTypeAccess => false
  | _ => if String.eqb (rvr_Spec_LVMVolumeGroupName r) "" then false
         else match poolType with
              | PoolLVMThin => negb (String.eqb (rvr_Spec_LVMVolumeGroupThinPoolName r) "")
              | PoolLVM => String.eqb (rvr_Spec_LVMVolumeGroupThinPoolName r) ""
              | PoolOther _ => false
              end
  end.

(** slices.BinarySearchFunc: the position of the first element not below the target, and whether it
    equals it.  [fuel] bounds the halvings of the interval [i, j). *)
Fixpoint binarySearch_loop {A T} (cmp : A → T → comparison) (x : list A) (target : T) (fuel i j : nat) : nat :=
  match fuel with
  | O => i
  | S fuel =>
      if (i <? j)%nat then
        let h := ((i + j) / 2)%nat in
        match x !! h with
        | Some a => match cmp a target with
                    | Lt => binarySearch_loop cmp x target fuel (h + 1) j
                    | _ => binarySearch_loop cmp x target fuel i h
                    end
        | None => i
        end
      else i
  end.
Definition BinarySearchFunc {A T} (x : list A) (target : T) (cmp : A → T → comparison) : nat * bool :=
  let n := length x in
  let i := binarySearch_loop cmp x target (S n) 0 n in
  (i, match x !! i with Some a => bool_decide (cmp a target = Eq) | None => false end).

Definition zonesOf (eligibleNodes : list EligibleNode) : gmap string IDSet :=
  foldl (λ m n, match m !! en_ZoneName n with Some _ => m | None => <[en_ZoneName n := 0]> m end) ∅ eligibleNodes.
Definition addReplicaToZone (eligibleNodes : list EligibleNode) (m : gmap string IDSet) (r : ReplicatedVolumeReplica) :
    gmap string IDSet :=
  if String.eqb (rvr_Spec_NodeName r) "" then m
  else
    let '(idx, found) := BinarySearchFunc eligibleNodes (rvr_Spec_NodeName r)
                           (λ n name, String.compare (en_NodeName n) name) in
    if negb found then m
    else match eligibleNodes !! idx with
         | Some n => match m !! en_ZoneName n with
                     | Some s => <[en_ZoneName n := idset.Add s (rvr_ID r)]> m
                     | None => m
                     end
         | None => m
         end.
Definition computeReplicasByZone (eligibleNodes : list EligibleNode) (rvrs : list ReplicatedVolumeReplica) :
    gmap string IDSet :=
  foldl (addReplicaToZone eligibleNodes) (zonesOf eligibleNodes) rvrs.

Definition ReservationIDAnnotationKey : string :=
  "sds-replicated-volume.deckhouse.io/scheduling-reservation-id".
Definition computeSchedulingContext (rv : ReplicatedVolume) (cfg : Configuration)
    (rsp : ReplicatedStoragePool) (rvrs : list ReplicatedVolumeReplica) (attachToNodes : list string) :
    schedulingContext :=
  let eligibleNodes := sort_by (λ a b, cmp_leb String.compare (en_NodeName a) (en_NodeName b)) (rsp_EligibleNodes rsp) in
  let ofType ty := foldl (λ s r, if bool_decide (rvr_Spec_Type r = ty) then idset.Add s (rvr_ID r) else s) 0 rvrs in
  {| sc_ReservationID := default "" (rv_Annotations rv !! ReservationIDAnnotationKey);
     sc_Size := q_Value (rv_Spec_Size rv);
     sc_EligibleNodes := eligibleNodes;
     sc_OccupiedNodes := foldl (λ o r, if String.eqb (rvr_Spec_NodeName r) "" then o else {[rvr_Spec_NodeName r]} ∪ o) ∅ rvrs;
     sc_AttachToNodes := attachToNodes;
     sc_Topology := cfg_Topology cfg;
     sc_ReplicasByZone := computeReplicasByZone eligibleNodes rvrs;
     sc_FailuresToTolerate := cfg_FailuresToTolerate cfg;
     sc_GuaranteedMinimumDataRedundancy := cfg_GuaranteedMinimumDataRedundancy cfg;
     sc_VolumeAccess := cfg_VolumeAccess cfg;
     sc_All := foldl (λ s r, idset.Add s (rvr_ID r)) 0 rvrs;
     sc_Access := ofType ReplicaTypeAccess; sc_Diskful := ofType ReplicaTypeDiskful;
     sc_TieBreaker := ofType ReplicaTypeTieBreaker;
     sc_Scheduled := foldl (λ s r, if negb (String.eqb (rvr_Spec_NodeName r) "") && isReplicaScheduled r (rsp_Spec_Type rsp)
                                   then idset.Add s (rvr_ID r) else s) 0 rvrs |}.

Definition Update (sctx : schedulingContext) (r : ReplicatedVolumeReplica) (e : CandidateEntry) : schedulingContext :=
  let id := rvr_ID r in
  let zone := en_ZoneName (ce_Node e) in
  {| sc_ReservationID := sc_ReservationID sctx; sc_Size := sc_Size sctx; sc_EligibleNodes := sc_EligibleNodes sctx;
     sc_OccupiedNodes := {[en_NodeName (ce_Node e)]} ∪ sc_OccupiedNodes sctx; sc_AttachToNodes := sc_AttachToNodes sctx;
     sc_Topology := sc_Topology sctx;
     sc_ReplicasByZone := <[zone := idset.Add (default 0 (sc_ReplicasByZone sctx !! zone)) id]> (sc_ReplicasByZone sctx);
     sc_FailuresToTolerate := sc_FailuresToTolerate sctx;
     sc_GuaranteedMinimumDataRedundancy := sc_GuaranteedMinimumDataRedundancy sctx; sc_VolumeAccess := sc_VolumeAccess sctx;
     sc_All := sc_All sctx; sc_Access := sc_Access sctx; sc_Diskful := sc_Diskful sctx;
     sc_TieBreaker := sc_TieBreaker sctx; sc_Scheduled := idset.Add (sc_Scheduled sctx) id |}.

(** ** Preferred zones *)
Definition bestReplicas (compare : IDSet → IDSet → comparison) (zones : list (string * IDSet)) : option IDSet :=
  foldl (λ best z, match best with
                   | None => Some z.2
                   | Some b => match compare z.2 b with Gt => Some z.2 | _ => best end
                   end) None zones.
(** The map is ranged over twice: first for the best set, then for the zones equivalent to it. *)
Definition computePreferredZones (zones1 zones2 : list (string * IDSet)) (compare : IDSet → IDSet → comparison) :
    list string :=
  match bestReplicas compare zones1 with
  | None => []
  | Some best => omap (λ z, match compare z.2 best with Eq => Some z.1 | _ => None end) zones2
  end.
Definition preferredZones (m : gmap string IDSet) (compare : IDSet → IDSet → comparison) (s : io) : io * list string :=
  let '(s, zones1) := on_world (rangeMap m) s in
  let '(s, zones2) := on_world (rangeMap m) s in
  (s, computePreferredZones zones1 zones2 compare).
(** cmp.Compare on the number of replicas of a set. *)
Definition compareIn (t a b : IDSet) : comparison := Z.compare (Len (Intersect a t)) (Len (Intersect b t)).
Definition zonalCompare (sctx : schedulingContext) : IDSet → IDSet → comparison := compareIn (sc_Diskful sctx).
Definition transZonalCompare (sctx : schedulingContext) (isDiskful : bool) (a b : IDSet) : comparison :=
  if isDiskful then CompOpp (compareIn (sc_Diskful sctx) a b)
  else match compareIn (Union (sc_Diskful sctx) (sc_TieBreaker sctx)) a b with
       | Eq => CompOpp (compareIn (sc_TieBreaker sctx) a b)
       | c => CompOpp c
       end.

(** ** schedule-rvr *)
Definition nodeReady (e : CandidateEntry) : bool :=
  let n := ce_Node e in negb (en_Unschedulable n || negb (en_NodeReady n) || negb (en_AgentReady n)).
(** Only applied to candidates with a volume group. *)
Definition lvgReady (e : CandidateEntry) : bool :=
  match ce_LVG e with Some g => negb (lvg_Unschedulable g || negb (lvg_Ready g)) | None => false end.
Definition zoneFilter (p : SchedulingPipeline) (name : string) (m : gmap string IDSet)
    (compare : IDSet → IDSet → comparison) (s : io) : io * SchedulingPipeline :=
  let '(s, zones) := preferredZones m compare s in
  (s, if (length zones <? size m)%nat
      then WithPredicate p name (keepIf (λ e, slices_Contains zones (en_ZoneName (ce_Node e))))
      else p).
Definition filterCandidates (sctx : schedulingContext) (r : ReplicatedVolumeReplica) (isDiskful : bool) (s : io) :
    io * SchedulingPipeline :=
  let p := if isDiskful then TakeLVGsFromEligibleNodes (sc_EligibleNodes sctx)
           else TakeOnlyNodesFromEligibleNodes (sc_EligibleNodes sctx) in
  let p := WithPredicate p "node not ready" (keepIf nodeReady) in
  let p := if isDiskful then WithPredicate p "LVG not ready" (keepIf lvgReady) else p in
  let p := if String.eqb (rvr_Spec_NodeName r) ""
           then WithPredicate p "node occupied"
                  (keepIf (λ e, negb (bool_decide (en_NodeName (ce_Node e) ∈ sc_OccupiedNodes sctx))))
           else WithPredicate p "node mismatch (assigned)"
                  (keepIf (λ e, String.eqb (en_NodeName (ce_Node e)) (rvr_Spec_NodeName r))) in
  let '(s, p) := if bool_decide (sc_Topology sctx = TopologyZonal)
                 then zoneFilter p "zone (zonal majority)" (sc_ReplicasByZone sctx) (zonalCompare sctx) s
                 else (s, p) in
  if bool_decide (sc_Topology sctx = TopologyTransZonal)
  then zoneFilter p "zone (transZonal min replicas)" (sc_ReplicasByZone sctx) (transZonalCompare sctx isDiskful) s
  else (s, p).
Definition attachBonus (sctx : schedulingContext) (p : SchedulingPipeline) : SchedulingPipeline :=
  match sc_AttachToNodes sctx with
  | [] => p
  | nodes => WithPredicate p "attach-to bonus"
               (λ e, Some (if slices_Contains nodes (en_NodeName (ce_Node e)) then addScore 1000 e else e))
  end.
Definition multiLVGBonus (sctx : schedulingContext) (p : SchedulingPipeline) : SchedulingPipeline :=
  if bool_decide (sc_VolumeAccess sctx = VolumeAccessAny) then p
  else WithNodeScore p (λ _ group, if (1 <? length group)%nat then 2 else 0).
Definition zonePenalty (sctx : schedulingContext) (p : SchedulingPipeline) : SchedulingPipeline :=
  if bool_decide (sc_Topology sctx = TopologyZonal) then
    let required := IntendedDiskfulCount (sc_FailuresToTolerate sctx) (sc_GuaranteedMinimumDataRedundancy sctx) in
    let scheduled := Len (Intersect (sc_Scheduled sctx) (sc_Diskful sctx)) in
    let remaining := if required - scheduled <? 0 then 0 else required - scheduled in
    if 0 <? remaining
    then WithZoneScore p (λ _ group,
           let seen : gset string := list_to_set (map (λ e, en_NodeName (ce_Node e)) group) in
           if Z.of_nat (size seen) <? remaining then -800 else 0)
    else p
  else p.
Definition isBetterCandidate (a b : CandidateEntry) : bool :=
  if negb (ce_Score a =? ce_Score b) then ce_Score b <? ce_Score a
  else if negb (String.eqb (en_NodeName (ce_Node a)) (en_NodeName (ce_Node b)))
       then String.ltb (en_NodeName (ce_Node a)) (en_NodeName (ce_Node b))
       else String.ltb (LVGName a) (LVGName b).

Definition unavailable (r : ReplicatedVolumeReplica) (message : string) (err : error) (s : io) :
    io * (ReplicatedVolumeReplica * ReconcileOutcome) :=
  let '(s, (r, o)) := reconcileRVRCondition r ConditionFalse ReasonExtenderUnavailable message s in
  (s, (r, OnEnd (Merge o [failed err]))).
(** From the scored pipeline to the placement. *)
Definition placeBest (r : ReplicatedVolumeReplica) (isDiskful : bool) (reservationID : string) (p : SchedulingPipeline)
    (sctx : schedulingContext) (s : io) : (io * schedulingContext) * (ReplicatedVolumeReplica * ReconcileOutcome) :=
  match SelectBest p isBetterCandidate with
  | (None, summary) =>
      let '(s, (r, o)) := reconcileRVRCondition r ConditionFalse ReasonSchedulingFailed summary s in
      ((s, sctx), (r, OnEnd o))
  | (Some best, _) =>
      let '(s, err) := if isDiskful
                       then on_world (NarrowReservation reservationID 60
                              {| q_LVGName := LVGName best; q_ThinPoolName := ThinPoolName best |}) s
                       else (s, None) in
      match err with
      | Some err =>
          let '(s, res) := unavailable r
            "Scheduling is temporarily unavailable: failed to confirm capacity reservation" err s in
          ((s, sctx), res)
      | None =>
          let '(s, (r, o)) := reconcileRVRPlacement r best s in
          if ShouldReturn o then ((s, sctx), (r, OnEnd o))
          else ((s, Update sctx r best), (r, OnEnd Continue))
      end
  end.
Definition reconcileOneRVRScheduling (r : ReplicatedVolumeReplica) (st : io * schedulingContext) :
    (io * schedulingContext) * (ReplicatedVolumeReplica * ReconcileOutcome) :=
  let '(s, sctx) := st in
  let isDiskful := bool_decide (rvr_Spec_Type r = ReplicaTypeDiskful) in
  let '(s, p) := filterCandidates sctx r isDiskful s in
  let reservationID :=
    if String.eqb (sc_ReservationID sctx) ""
    then ComputeLLVName (rvr_Name r) (rvr_Spec_LVMVolumeGroupName r) (rvr_Spec_LVMVolumeGroupThinPoolName r)
    else sc_ReservationID sctx in
  if isDiskful then
    match FilteredAndScoredBySchedulerExtender p
            (λ queries, on_world (FilterAndScore reservationID 2 (sc_Size sctx) queries)) s with
    | (s, inl err) =>
        let '(s, res) := unavailable r
          "Scheduling is temporarily unavailable: capacity scoring service is unreachable" err s in
        ((s, sctx), res)
    | (s, inr p) => placeBest r isDiskful reservationID (zonePenalty sctx (multiLVGBonus sctx (attachBonus sctx p))) sctx s
    end
  else placeBest r isDiskful reservationID p sctx s.

(** ** Reconcile *)
Definition phase (sel : IDSet) (context : string) (rvrs : list ReplicatedVolumeReplica) (o : ReconcileOutcome)
    (st : io * schedulingContext) : (io * schedulingContext) * (list ReplicatedVolumeReplica * ReconcileOutcome) :=
  rangeRVRs (λ r, Contains sel (rvr_ID r)) mergeOne
    (λ r st, let '(st, (r, o)) := reconcileOneRVRScheduling r st in (st, (r, Enrichf o context))) rvrs o st.
(** The part of Reconcile after the reads: Access replicas, scheduled replicas, then the unscheduled
    Diskful and TieBreaker ones. *)
Definition scheduleReplicas (sctx : schedulingContext) (rvrs : list ReplicatedVolumeReplica) (s : io) :
    (io * schedulingContext) * (list ReplicatedVolumeReplica * ReconcileOutcome) :=
  let '(s, (rvrs, o)) := if 0 <? Len (sc_Access sctx) then reconcileRVRsConditionAbsent rvrs (sc_Access sctx) s
                         else (s, (rvrs, zeroOutcome)) in
  if (0 <? Len (sc_Access sctx)) && ShouldReturn o then ((s, sctx), (rvrs, o)) else
  let '(s, (rvrs, o)) :=
    if 0 <? Len (sc_Scheduled sctx)
    then let '(s, (rvrs, o')) := reconcileRVRsCondition rvrs (sc_Scheduled sctx) ConditionTrue ReasonScheduled
                                   "Replica scheduled successfully" s in
         (s, (rvrs, mergeOne o o'))
    else (s, (rvrs, o)) in
  if (0 <? Len (sc_Scheduled sctx)) && ShouldReturn o then ((s, sctx), (rvrs, o)) else
  if Difference (sc_Scheduled sctx) (sc_Access sctx) =? Difference (sc_All sctx) (sc_Access sctx)
  then ((s, sctx), (rvrs, Done)) else
  let unscheduled := Difference (sc_All sctx) (sc_Scheduled sctx) in
  let '(st, (rvrs, o)) := phase (Intersect unscheduled (sc_Diskful sctx)) "scheduling Diskful" rvrs o (s, sctx) in
  if ShouldReturn o then (st, (rvrs, o)) else
  phase (Intersect unscheduled (sc_TieBreaker sctx)) "scheduling TieBreaker" rvrs o st.

Definition waiting (rvrs : list ReplicatedVolumeReplica) (message context : string) (s : io) : io * (Result * option error) :=
  let '(s, (_, o)) := reconcileRVRsCondition rvrs (FromAll rvr_ID rvrs) ConditionUnknown ReasonWaitingForReplicatedVolume
                        message s in
  (s, ToCtrl (Enrichf o context)).
Definition Reconcile (name : string) (s : io) : io * (Result * option error) :=
  match getRV name s with
  | (s, inl err) => (s, ToCtrl (failed err))
  | (s, inr rv) =>
  match getRVRsByRVName name s with
  | (s, inl err) => (s, ToCtrl (failed err))
  | (s, inr rvrs) =>
  match rv with
  | None => waiting rvrs "ReplicatedVolume not found; waiting for it to be present"
              "setting WaitingForReplicatedVolume: RV not found" s
  | Some rv =>
  match rv_Configuration rv with
  | None => waiting rvrs "ReplicatedVolume has no configuration yet; waiting for it to appear"
              "setting WaitingForReplicatedVolume: RV has no configuration" s
  | Some cfg =>
  match getRSP (cfg_ReplicatedStoragePoolName cfg) s with
  | (s, inl err) => (s, ToCtrl (failed err))
  | (s, inr None) => waiting rvrs "ReplicatedStoragePool not found; waiting for it to be present"
      ("setting WaitingForReplicatedVolume: RSP " +:+ quote (cfg_ReplicatedStoragePoolName cfg) +:+ " not found") s
  | (s, inr (Some rsp)) =>
  match getIntendedAttachments name s with
  | (s, inl err) => (s, ToCtrl (failed err))
  | (s, inr attachToNodes) =>
      let '((s, _), (_, o)) :=
        scheduleReplicas (computeSchedulingContext rv cfg rsp rvrs attachToNodes) rvrs s in
      (s, ToCtrl o)
  end end end end end end.

End reconciler.
End scheduling.
