(* ===== verification/SchedulingTheory.v ===== *)
(** * Theorems on replica scheduling

    Every placement the scheduler sends is on a ready eligible node, on a ready volume group of that
    node, and no two replicas are sent to one node. *)

From Stdlib Require Import ZArith Lia String Sorted.
From stdpp Require Import base gmap list numbers strings option relations.
From S2P Require Import Prelude IdSet DrbdSize Api Object Storage Flow Pipeline PipelineTheory Scheduling.
Import idset v1alpha1 storage pipeline scheduling flow.

Set Default Proof Using "Type".

Section steps.
Context `{K : K8s} {E : Env}.
Implicit Types (r : ReplicatedVolumeReplica) (e : CandidateEntry) (s : io) (sctx : schedulingContext).

(** ** What the helpers leave alone *)
Lemma on_world_sent {A} (f : World → World * A) s : io_sent (on_world f s).1 = io_sent s.
Proof. unfold on_world. by destruct (f (io_world s)). Qed.

(** The placement of a replica on a candidate. *)
Definition placed r e : ReplicatedVolumeReplica :=
  set_Placement (en_NodeName (ce_Node e)) (LVGName e) (ThinPoolName e) r.
Lemma applyPlacement_placed r e : (applyPlacementFromEntry r e).2 = placed r e.
Proof.
  unfold applyPlacementFromEntry, placed.
  destruct (String.eqb_spec (rvr_Spec_NodeName r) (en_NodeName (ce_Node e))) as [->|];
  destruct (String.eqb_spec (rvr_Spec_LVMVolumeGroupName r) (LVGName e)) as [->|];
  by destruct (String.eqb_spec (rvr_Spec_LVMVolumeGroupThinPoolName r) (ThinPoolName e)) as [->|].
Qed.

(** A preorder on replicas that conditions and responses of the API server respect. *)
Section respecting.
Context (R : relation ReplicatedVolumeReplica) `{!PreOrder R}.
Hypothesis R_conditions : ∀ cs r, R r (set_Conditions cs r).
Hypothesis R_patch : ∀ base r w w' r', Patch base r w = (w', ApiOk r') → R r r'.
Hypothesis R_status : ∀ base r w w' r', StatusPatch base r w = (w', ApiOk r') → R r r'.
Set Default Proof Using "All".

Lemma SetStatusCondition_R r ty status reason message s :
  let '(s', (_, r')) := SetStatusCondition r ty status reason message s in io_sent s' = io_sent s ∧ R r r'.
Proof.
  unfold SetStatusCondition.
  destruct (match FindStatusCondition _ ty with Some old => _ | None => _ end) as [s1 t] eqn:Et.
  assert (H1 : io_sent s1 = io_sent s).
  { destruct (FindStatusCondition _ ty) as [old|]; [destruct (String.eqb _ _)|]; [by simplify_eq| |];
      by rewrite <-(on_world_sent now s), Et. }
  destruct (meta_SetStatusCondition _ _) as [[] cs]; split; auto; reflexivity.
Qed.
Lemma patchRVRStatus_R r base s :
  let '(s', (r', _)) := patchRVRStatus r base s in io_sent s' = io_sent s ∧ R r r'.
Proof.
  unfold patchRVRStatus. destruct (on_world (StatusPatch base r) s) as [s' res] eqn:Ew.
  pose proof (on_world_sent (StatusPatch base r) s) as Hs. rewrite Ew in Hs. unfold on_world in Ew.
  destruct (StatusPatch base r (io_world s)) as [w' res'] eqn:Ep. injection Ew as <- <-.
  destruct res' as [r'| |]; simpl in *; split; try done; by eapply R_status.
Qed.
Lemma reconcileRVRCondition_R r status reason message s :
  let '(s', (r', _)) := reconcileRVRCondition r status reason message s in io_sent s' = io_sent s ∧ R r r'.
Proof.
  unfold reconcileRVRCondition. destruct (condUpToDate _ _ _ _ _); [done|].
  pose proof (SetStatusCondition_R r CondScheduledType status reason message s) as H1.
  destruct (SetStatusCondition _ _ _ _ _ s) as [s1 [c r1]]. destruct H1 as [H1 HR1].
  pose proof (patchRVRStatus_R r1 r s1) as H2. destruct (patchRVRStatus r1 r s1) as [s2 [r2 [err|]]];
    destruct H2 as [H2 HR2]; (split; [congruence|by etrans]).
Qed.
Lemma patchRVR_R r base s :
  let '(s', (r', _)) := patchRVR r base s in io_sent s' = io_sent s ++ [(base, r)] ∧ R r r'.
Proof.
  unfold patchRVR. destruct (on_world (Patch base r) (record_sent base r s)) as [s' res] eqn:Ew.
  pose proof (on_world_sent (Patch base r) (record_sent base r s)) as Hs. rewrite Ew in Hs. unfold on_world in Ew.
  destruct (Patch base r _) as [w' res'] eqn:Ep. injection Ew as <- <-.
  destruct res' as [r'| |]; simpl in *; split; try done; by eapply R_patch.
Qed.

(** At most one patch, with the placement. *)
Definition sent_step r e s s' : Prop := io_sent s' = io_sent s ∨ io_sent s' = io_sent s ++ [(r, placed r e)].
Lemma reconcileRVRPlacement_R r e s :
  let '(s', (r', o)) := reconcileRVRPlacement r e s in sent_step r e s s' ∧ R (placed r e) r'.
Proof.
  unfold reconcileRVRPlacement. pose proof (applyPlacement_placed r e) as Hp.
  destruct (applyPlacementFromEntry r e) as [changed r1]. simpl in Hp. subst r1.
  assert (H1 : let '(s1, (r1, _)) := if changed then patchRVR (placed r e) r s else (s, (placed r e, None)) in
               sent_step r e s s1 ∧ R (placed r e) r1).
  { destruct changed; [|by split; [left|]]. pose proof (patchRVR_R (placed r e) r s) as H.
    destruct (patchRVR _ _ s) as [s1 [r1 err]]. destruct H as [Hs H]. split; [by right|done]. }
  destruct (if changed then _ else _) as [s1 [r1 [err|]]]; [done|].
  destruct H1 as [Hs HR]. pose proof (reconcileRVRCondition_R r1 ConditionTrue ReasonScheduled "Replica scheduled successfully" s1) as H2.
  destruct (reconcileRVRCondition _ _ _ _ s1) as [s2 [r2 o2]]. destruct H2 as [H2 HR2].
  split; [unfold sent_step in *; by rewrite H2|by etrans].
Qed.

(** ** Bonuses *)
Lemma attachBonus_Forall Q sctx p : score_blind Q → Forall Q (sp_Seq p) → Forall Q (sp_Seq (attachBonus sctx p)).
Proof using Type.
  intros HB H. unfold attachBonus. destruct (sc_AttachToNodes sctx); [done|]. apply WithPredicate_Forall; [done| |done].
  intros e e' He [= <-]. destruct (slices_Contains _ _); [by apply HB|done].
Qed.
Lemma multiLVGBonus_Forall Q sctx p : score_blind Q → Forall Q (sp_Seq p) → Forall Q (sp_Seq (multiLVGBonus sctx p)).
Proof using Type. intros HB H. unfold multiLVGBonus. case_bool_decide; [done|]. by apply WithGroupScore_Forall. Qed.
Lemma zonePenalty_Forall Q sctx p : score_blind Q → Forall Q (sp_Seq p) → Forall Q (sp_Seq (zonePenalty sctx p)).
Proof using Type.
  intros HB H. unfold zonePenalty. case_bool_decide; [|done]. destruct (0 <? _); [|done]. by apply WithGroupScore_Forall.
Qed.

(** ** One replica *)

(** What one run of schedule-rvr did: nothing, a placement that failed, or a recorded placement. *)
Inductive step_result (Q : CandidateEntry → Prop) r s sctx :
    (io * schedulingContext) * (ReplicatedVolumeReplica * ReconcileOutcome) → Prop :=
| step_none s' r' o : io_sent s' = io_sent s → R r r' → step_result Q r s sctx ((s', sctx), (r', o))
| step_failed e s' r' o : Q e → ShouldReturn o = true → sent_step r e s s' → R (placed r e) r' →
    step_result Q r s sctx ((s', sctx), (r', o))
| step_placed e s' r' o : Q e → sent_step r e s s' → R (placed r e) r' →
    step_result Q r s sctx ((s', Update sctx r' e), (r', o)).

Lemma unavailable_step Q r message err s0 s sctx : io_sent s = io_sent s0 →
  step_result Q r s0 sctx (let '(s, res) := unavailable r message err s in ((s, sctx), res)).
Proof.
  intros H0. unfold unavailable.
  pose proof (reconcileRVRCondition_R r ConditionFalse ReasonExtenderUnavailable message s) as H.
  destruct (reconcileRVRCondition _ _ _ _ s) as [s1 [r1 o1]]. destruct H as [H HR]. constructor; [congruence|done].
Qed.
Lemma placeBest_step Q r isDiskful reservationID p sctx s0 s : Forall Q (sp_Seq p) → io_sent s = io_sent s0 →
  step_result Q r s0 sctx (placeBest r isDiskful reservationID p sctx s).
Proof.
  intros HQ H0. unfold placeBest, SelectBest.
  destruct (selectBest isBetterCandidate (sp_Seq p)) as [best|] eqn:Eb.
  2: { pose proof (reconcileRVRCondition_R r ConditionFalse ReasonSchedulingFailed (sp_Summary p) s) as H.
       destruct (reconcileRVRCondition _ _ _ _ s) as [s1 [r1 o1]]. destruct H as [H HR]. constructor; [congruence|done]. }
  assert (Hq : Q best) by (rewrite Forall_forall in HQ; by eapply HQ, selectBest_elem).
  destruct (if isDiskful then _ else _) as [s1 err] eqn:Ew.
  assert (H1 : io_sent s1 = io_sent s0).
  { destruct isDiskful; [|by simplify_eq]. rewrite <-H0, <-(on_world_sent (NarrowReservation reservationID 60
      {| q_LVGName := LVGName best; q_ThinPoolName := ThinPoolName best |}) s). by rewrite Ew. }
  destruct err as [err|]; [by apply unavailable_step|].
  pose proof (reconcileRVRPlacement_R r best s1) as H2. destruct (reconcileRVRPlacement r best s1) as [s2 [r2 o2]].
  destruct H2 as [Hs HR]. unfold sent_step in Hs. rewrite H1 in Hs.
  destruct (ShouldReturn o2) eqn:Eo; [by eapply step_failed|by eapply step_placed].
Qed.

Lemma reconcileOne_step Q r s sctx : score_blind Q →
  let isDiskful := bool_decide (rvr_Spec_Type r = ReplicaTypeDiskful) in
  (let '(s', p) := filterCandidates sctx r isDiskful s in io_sent s' = io_sent s ∧ Forall Q (sp_Seq p)) →
  step_result Q r s sctx (reconcileOneRVRScheduling r (s, sctx)).
Proof.
  intros HB isDiskful Hf. unfold reconcileOneRVRScheduling. fold isDiskful.
  destruct (filterCandidates sctx r isDiskful s) as [s1 p]. destruct Hf as [Hs HQ].
  set (rid := if String.eqb (sc_ReservationID sctx) "" then _ else _). clearbody rid.
  destruct isDiskful; [|by apply placeBest_step].
  unfold FilteredAndScoredBySchedulerExtender. destruct (queriesOf (sp_Seq p)) as [|q qs].
  { apply placeBest_step; [|done]. by apply zonePenalty_Forall, multiLVGBonus_Forall, attachBonus_Forall; [..|constructor]. }
  destruct (on_world _ s1) as [s2 res] eqn:Ew.
  assert (H2 : io_sent s2 = io_sent s) by (rewrite <-Hs, <-(on_world_sent (FilterAndScore rid 2 (sc_Size sctx) (q :: qs)) s1), Ew; done).
  destruct res as [err|scored]; [by apply unavailable_step|].
  apply placeBest_step; [|done]. apply zonePenalty_Forall, multiLVGBonus_Forall, attachBonus_Forall; [done..|].
  by apply joinScores_Forall.
Qed.
End respecting.
Set Default Proof Using "Type".

(** ** Candidates *)
Definition cand_ok (nodes : list EligibleNode) (occupied : gset string) r (isDiskful : bool) e : Prop :=
  ce_Node e ∈ nodes ∧ nodeReady e = true ∧
  (if isDiskful
   then ∃ g, ce_LVG e = Some g ∧ g ∈ en_LVMVolumeGroups (ce_Node e) ∧ lvgReady e = true ∧ ThinPoolName e = lvg_ThinPoolName g
   else LVGName e = "" ∧ ThinPoolName e = "") ∧
  (if String.eqb (rvr_Spec_NodeName r) "" then en_NodeName (ce_Node e) ∉ occupied
   else en_NodeName (ce_Node e) = rvr_Spec_NodeName r).
Lemma cand_ok_blind nodes occupied r isDiskful : score_blind (cand_ok nodes occupied r isDiskful).
Proof. intros v e H. exact H. Qed.

Lemma zoneFilter_incl p name m compare s :
  let '(s', p') := zoneFilter p name m compare s in io_sent s' = io_sent s ∧ ∀ e, e ∈ sp_Seq p' → e ∈ sp_Seq p.
Proof.
  unfold zoneFilter, preferredZones. destruct (on_world (rangeMap m) s) as [s1 z1] eqn:E1.
  destruct (on_world (rangeMap m) s1) as [s2 z2] eqn:E2.
  pose proof (on_world_sent (rangeMap m) s) as H1. rewrite E1 in H1.
  pose proof (on_world_sent (rangeMap m) s1) as H2. rewrite E2 in H2. simpl in *. split; [congruence|].
  intros e. destruct (_ <? _)%nat; [|done]. by intros [? _]%keepIf_elem.
Qed.
Lemma candidates_elem nodeOnly nodes e : e ∈ candidates nodeOnly nodes →
  ce_Node e ∈ nodes ∧
  (if nodeOnly then LVGName e = "" ∧ ThinPoolName e = ""
   else ∃ g, ce_LVG e = Some g ∧ g ∈ en_LVMVolumeGroups (ce_Node e) ∧ ThinPoolName e = lvg_ThinPoolName g).
Proof.
  unfold candidates. rewrite list_elem_of_In, in_flat_map. intros (n & Hn & He). apply list_elem_of_In in Hn, He.
  destruct nodeOnly; [by apply list_elem_of_singleton in He as ->|].
  apply list_elem_of_fmap in He as (g & -> & Hg). split; [done|]. exists g. split; [done|]. split; [done|].
  unfold ThinPoolName. simpl. by destruct (String.eqb_spec (lvg_ThinPoolName g) "").
Qed.
Lemma filterCandidates_ok sctx r isDiskful s :
  let '(s', p) := filterCandidates sctx r isDiskful s in
  io_sent s' = io_sent s ∧
  Forall (cand_ok (sc_EligibleNodes sctx) (sc_OccupiedNodes sctx) r isDiskful) (sp_Seq p).
Proof.
  unfold filterCandidates. set (p1 := if String.eqb _ _ then WithPredicate _ "node occupied" _ else _).
  assert (H1 : Forall (cand_ok (sc_EligibleNodes sctx) (sc_OccupiedNodes sctx) r isDiskful) (sp_Seq p1)).
  { apply Forall_forall. intros e He. unfold p1 in He.
    assert (Hn : e ∈ sp_Seq (if isDiskful then WithPredicate (WithPredicate (TakeLVGsFromEligibleNodes (sc_EligibleNodes sctx))
                   "node not ready" (keepIf nodeReady)) "LVG not ready" (keepIf lvgReady)
                   else WithPredicate (TakeOnlyNodesFromEligibleNodes (sc_EligibleNodes sctx)) "node not ready" (keepIf nodeReady))
      ∧ if String.eqb (rvr_Spec_NodeName r) "" then en_NodeName (ce_Node e) ∉ sc_OccupiedNodes sctx
        else en_NodeName (ce_Node e) = rvr_Spec_NodeName r).
    { clear p1. destruct (String.eqb (rvr_Spec_NodeName r) ""); apply keepIf_elem in He as [He Hf].
      - split; [by destruct isDiskful|]. by apply negb_true_iff, bool_decide_eq_false in Hf.
      - split; [by destruct isDiskful|]. by apply String.eqb_eq in Hf. }
    clear He p1. destruct Hn as [He Hn]. unfold cand_ok. destruct isDiskful.
    - apply keepIf_elem in He as [[He Hr]%keepIf_elem Hl]. apply candidates_elem in He as (Hin & g & Hg & Hg' & Ht).
      split; [done|]. split; [done|]. split; [by exists g|done].
    - apply keepIf_elem in He as [He Hr]. by apply candidates_elem in He as (Hin & Hl). }
  clearbody p1.
  destruct (if bool_decide (sc_Topology sctx = TopologyZonal) then _ else _) as [s2 p2] eqn:E2.
  assert (H2 : io_sent s2 = io_sent s ∧ Forall (cand_ok (sc_EligibleNodes sctx) (sc_OccupiedNodes sctx) r isDiskful) (sp_Seq p2)).
  { case_bool_decide; [|by simplify_eq]. pose proof (zoneFilter_incl p1 "zone (zonal majority)" (sc_ReplicasByZone sctx) (zonalCompare sctx) s) as Hz.
    rewrite E2 in Hz. destruct Hz as [Hs Hi]. split; [done|]. rewrite Forall_forall in *. eauto. }
  destruct H2 as [Hs2 H2]. clear E2. case_bool_decide; [|by split].
  pose proof (zoneFilter_incl p2 "zone (transZonal min replicas)" (sc_ReplicasByZone sctx) (transZonalCompare sctx isDiskful) s2) as Hz.
  destruct (zoneFilter p2 _ _ _ s2) as [s3 p3]. destruct Hz as [Hs Hi]. split; [congruence|]. rewrite Forall_forall in *. eauto.
Qed.

(** ** Loops *)
Lemma rangeRVRs_inv {St} sel comb body (Inv Weak : list ReplicatedVolumeReplica → St → Prop) :
  (∀ l st, Inv l st → Weak l st) →
  (∀ before r rest st o, sel r = true → Inv (before ++ r :: rest) st →
     let '(st', (r', o')) := body r st in
     Weak (before ++ r' :: rest) st' ∧ (ShouldReturn (comb o o') = false → Inv (before ++ r' :: rest) st')) →
  ∀ rest before o st, Inv (before ++ rest) st →
    let '(st', (rest', o')) := rangeRVRs sel comb body rest o st in
    Weak (before ++ rest') st' ∧ (ShouldReturn o' = false → Inv (before ++ rest') st').
Proof.
  intros HW Hb rest. induction rest as [|r rest IH]; intros before o st HI; simpl; [by split; [apply HW|]|].
  destruct (sel r) eqn:Es.
  - specialize (Hb before r rest st o Es HI). destruct (body r st) as [st1 [r1 o1]]. destruct Hb as [Hw Hi].
    destruct (ShouldReturn (comb o o1)) eqn:Er; [by split; [|rewrite Er]|]. specialize (Hi eq_refl).
    specialize (IH (before ++ [r1]) (comb o o1) st1). rewrite <-app_assoc in IH. specialize (IH Hi).
    destruct (rangeRVRs _ _ _ rest _ st1) as [st2 [rest2 o2]]. by rewrite <-app_assoc in IH.
  - specialize (IH (before ++ [r]) o st). rewrite <-app_assoc in IH. specialize (IH HI).
    destruct (rangeRVRs _ _ _ rest o st) as [st2 [rest2 o2]]. by rewrite <-app_assoc in IH.
Qed.
Lemma mergeOne_returns o o' : ShouldReturn (mergeOne o o') = false → ShouldReturn o = false ∧ ShouldReturn o' = false.
Proof.
  unfold mergeOne, Merge, MergeReconciles, ShouldReturn, mergeResult. simpl.
  destruct (err o), (err o'); simpl; try done. destruct (terminal o), (terminal o'); by simpl.
Qed.

Section condition_loops.
Context (R : relation ReplicatedVolumeReplica) `{!PreOrder R}.
Hypothesis R_conditions : ∀ cs r, R r (set_Conditions cs r).
Hypothesis R_patch : ∀ base r w w' r', Patch base r w = (w', ApiOk r') → R r r'.
Hypothesis R_status : ∀ base r w w' r', StatusPatch base r w = (w', ApiOk r') → R r r'.
Set Default Proof Using "All".

Lemma rangeRVRs_R sel comb body rvrs o s :
  (∀ r s, let '(s', (r', _)) := body r s in io_sent s' = io_sent s ∧ R r r') →
  let '(s', (rvrs', _)) := rangeRVRs sel comb body rvrs o s in io_sent s' = io_sent s ∧ Forall2 R rvrs rvrs'.
Proof using PreOrder0.
  intros Hb. assert (Hrefl : ∀ l, Forall2 R l l) by (intros l; induction l; by constructor).
  revert o s. induction rvrs as [|r rvrs IH]; intros o s; simpl; [by split|]. destruct (sel r).
  - specialize (Hb r s). destruct (body r s) as [s1 [r1 o1]]. destruct Hb as [H1 HR].
    destruct (ShouldReturn _); [split; [done|by constructor]|]. specialize (IH (comb o o1) s1).
    destruct (rangeRVRs _ _ _ rvrs _ s1) as [s2 [l2 o2]]. destruct IH as [H2 HF]. split; [congruence|by constructor].
  - specialize (IH o s). destruct (rangeRVRs _ _ _ rvrs _ s) as [s2 [l2 o2]]. destruct IH as [H2 HF].
    split; [congruence|by constructor].
Qed.
Lemma conditionAbsent_R rvrs ids s :
  let '(s', (rvrs', _)) := reconcileRVRsConditionAbsent rvrs ids s in io_sent s' = io_sent s ∧ Forall2 R rvrs rvrs'.
Proof.
  unfold reconcileRVRsConditionAbsent.
  pose proof (rangeRVRs_R (λ r, Contains ids (rvr_ID r)) (λ _ o, o) removeCondition rvrs Continue s) as H.
  destruct (rangeRVRs _ _ _ rvrs Continue s) as [s1 [l o]]. apply H. clear H.
  intros r s'. unfold removeCondition. destruct (negb _); [by split|].
  destruct (RemoveStatusCondition r CondScheduledType) as [c r1] eqn:E1.
  assert (HR1 : R r r1) by (unfold RemoveStatusCondition in E1; destruct (meta_RemoveStatusCondition _ _) as [[] cs]; by simplify_eq).
  pose proof (patchRVRStatus_R R R_conditions R_patch R_status r1 r s') as H2.
  destruct (patchRVRStatus r1 r s') as [s2 [r2 [er|]]]; destruct H2 as [H2 HR2]; (split; [done|by etrans]).
Qed.
Lemma conditions_R rvrs ids status reason message s :
  let '(s', (rvrs', _)) := reconcileRVRsCondition rvrs ids status reason message s in
  io_sent s' = io_sent s ∧ Forall2 R rvrs rvrs'.
Proof.
  unfold reconcileRVRsCondition. set (body := λ r s, _).
  pose proof (rangeRVRs_R (λ r, Contains ids (rvr_ID r)) mergeOne body rvrs zeroOutcome s) as H.
  destruct (rangeRVRs _ _ _ rvrs zeroOutcome s) as [s1 [l o]]. apply H. clear H. unfold body. clear body.
  intros r s'. pose proof (reconcileRVRCondition_R R R_conditions R_patch R_status r status reason message s') as H2.
  by destruct (reconcileRVRCondition r status reason message s') as [s2 [r2 o2]].
Qed.

Lemma Contains_Intersect_r a b id : Contains (Intersect a b) id = true → Contains b id = true.
Proof using Type.
  unfold Contains, Intersect. rewrite !negb_true_iff, !Z.eqb_neq. intros H Hb. apply H. by rewrite <-Z.land_assoc, Hb, Z.land_0_r.
Qed.

(** scheduleReplicas: an invariant of the context and the replicas that survives condition updates
    and each scheduling step holds at the end, or its weak form when an error stopped the loop. *)
Lemma scheduleReplicas_inv sctx (Inv Weak : list ReplicatedVolumeReplica → io * schedulingContext → Prop) rvrs s :
  (∀ l st, Inv l st → Weak l st) →
  (∀ l l' st st', Inv l st → Forall2 R l l' → io_sent st'.1 = io_sent st.1 → st'.2 = st.2 → Inv l' st') →
  (∀ before r rest st, Contains (sc_Diskful sctx) (rvr_ID r) = true ∨ Contains (sc_TieBreaker sctx) (rvr_ID r) = true →
     Inv (before ++ r :: rest) st →
     let '(st', (r', o')) := reconcileOneRVRScheduling r st in
     Weak (before ++ r' :: rest) st' ∧ (ShouldReturn o' = false → Inv (before ++ r' :: rest) st')) →
  Inv rvrs (s, sctx) →
  let '(st', (rvrs', _)) := scheduleReplicas sctx rvrs s in Weak rvrs' st'.
Proof.
  intros HW HC HS HI. unfold scheduleReplicas.
  assert (HP : ∀ ids ctx l o st, (∀ id, Contains ids id = true → Contains (sc_Diskful sctx) id = true ∨ Contains (sc_TieBreaker sctx) id = true) →
    Inv l st → let '(st', (l', o')) := phase ids ctx l o st in Weak l' st' ∧ (ShouldReturn o' = false → Inv l' st')).
  { intros ids ctx l o st Hids HIl. unfold phase.
    apply (rangeRVRs_inv (λ r, Contains ids (rvr_ID r)) mergeOne _ Inv Weak HW) with (before := []); [|done].
    intros before r rest st0 o0 Hsel HI0. specialize (HS before r rest st0 (Hids _ Hsel) HI0).
    destruct (reconcileOneRVRScheduling r st0) as [st1 [r1 o1]]. destruct HS as [Hw Hi]. split; [done|].
    by intros [_ H]%mergeOne_returns; apply Hi. }
  destruct (if 0 <? Len (sc_Access sctx) then _ else _) as [s1 [l1 o1]] eqn:E1.
  assert (H1 : Inv l1 (s1, sctx)).
  { destruct (0 <? Len (sc_Access sctx)); [|by simplify_eq]. pose proof (conditionAbsent_R rvrs (sc_Access sctx) s) as H.
    rewrite E1 in H. destruct H. by eapply HC. }
  clear HI E1. destruct (_ && ShouldReturn o1); [by apply HW|].
  destruct (if 0 <? Len (sc_Scheduled sctx) then _ else _) as [s2 [l2 o2]] eqn:E2.
  assert (H2 : Inv l2 (s2, sctx)).
  { destruct (0 <? Len (sc_Scheduled sctx)); [|by simplify_eq].
    pose proof (conditions_R l1 (sc_Scheduled sctx) ConditionTrue ReasonScheduled "Replica scheduled successfully" s1) as H.
    destruct (reconcileRVRsCondition _ _ _ _ _ s1) as [s2' [l2' o2']]. simplify_eq. destruct H. by eapply HC. }
  clear H1 E2. destruct (_ && ShouldReturn o2); [by apply HW|]. destruct (_ =? _); [by apply HW|].
  set (unscheduled := Difference (sc_All sctx) (sc_Scheduled sctx)).
  pose proof (HP (Intersect unscheduled (sc_Diskful sctx)) "scheduling Diskful" l2 o2 (s2, sctx)
    ltac:(intros; left; by eapply Contains_Intersect_r) H2) as H3.
  destruct (phase _ _ l2 o2 _) as [st3 [l3 o3]]. destruct H3 as [H3w H3]. destruct (ShouldReturn o3) eqn:E3; [done|].
  pose proof (HP (Intersect unscheduled (sc_TieBreaker sctx)) "scheduling TieBreaker" l3 o3 st3
    ltac:(intros; right; by eapply Contains_Intersect_r) (H3 eq_refl)) as H4.
  destruct (phase _ _ l3 o3 _) as [st4 [l4 o4]]. apply H4.
Qed.
End condition_loops.
Set Default Proof Using "Type".

(** ** Placements *)
Definition node_ready (n : EligibleNode) : Prop :=
  en_Unschedulable n = false ∧ en_NodeReady n = true ∧ en_AgentReady n = true.
(** What a spec patch [(base, obj)] may do. *)
Definition placement_ok (nodes : list EligibleNode) (patch : ReplicatedVolumeReplica * ReplicatedVolumeReplica) : Prop :=
  let '(base, obj) := patch in
  rvr_Name obj = rvr_Name base ∧ rvr_Spec_Type obj = rvr_Spec_Type base ∧
  (rvr_Spec_NodeName base ≠ "" → rvr_Spec_NodeName obj = rvr_Spec_NodeName base) ∧
  ∃ n, n ∈ nodes ∧ rvr_Spec_NodeName obj = en_NodeName n ∧ node_ready n ∧
    if bool_decide (rvr_Spec_Type base = ReplicaTypeDiskful)
    then ∃ g, g ∈ en_LVMVolumeGroups n ∧ lvg_Unschedulable g = false ∧ lvg_Ready g = true ∧
              rvr_Spec_LVMVolumeGroupName obj = lvg_Name g ∧ rvr_Spec_LVMVolumeGroupThinPoolName obj = lvg_ThinPoolName g
    else rvr_Spec_LVMVolumeGroupName obj = "" ∧ rvr_Spec_LVMVolumeGroupThinPoolName obj = "".
(** The nodes given to replicas that had none. *)
Definition newNodes (sent : list (ReplicatedVolumeReplica * ReplicatedVolumeReplica)) : list string :=
  map (λ p, rvr_Spec_NodeName p.2) (List.filter (λ p, String.eqb (rvr_Spec_NodeName p.1) "") sent).

Lemma cand_placement_ok nodes occupied r e :
  cand_ok nodes occupied r (bool_decide (rvr_Spec_Type r = ReplicaTypeDiskful)) e → placement_ok nodes (r, placed r e).
Proof.
  intros (Hn & Hr & Hs & Ho). split; [done|]. split; [done|]. split.
  { intros Hne%String.eqb_neq. rewrite Hne in Ho. done. }
  exists (ce_Node e). split; [done|]. split; [done|]. unfold nodeReady in Hr.
  apply negb_true_iff, orb_false_iff in Hr as [[H1 H2]%orb_false_iff H3]. apply negb_false_iff in H2, H3. split; [done|].
  case_bool_decide; [|done]. destruct Hs as (g & Hg & Hin & Hlr & Ht). exists g. split; [done|].
  unfold lvgReady in Hlr. rewrite Hg in Hlr. apply negb_true_iff, orb_false_iff in Hlr as [H4 H5]. apply negb_false_iff in H5.
  simpl. unfold LVGName. by rewrite Hg.
Qed.

(** Safe placements so far; between steps, the nodes given out are marked occupied. *)
Definition safe_sent (nodes : list EligibleNode) (taken : list string) (s : io) : Prop :=
  Forall (placement_ok nodes) (io_sent s) ∧ NoDup (newNodes (io_sent s)) ∧ ∀ n, n ∈ newNodes (io_sent s) → n ∉ taken.
Definition safe_inv (nodes : list EligibleNode) (taken : list string) (st : io * schedulingContext) : Prop :=
  safe_sent nodes taken st.1 ∧ sc_EligibleNodes st.2 = nodes ∧
  (∀ n, n ∈ taken → n ∈ sc_OccupiedNodes st.2) ∧ (∀ n, n ∈ newNodes (io_sent st.1) → n ∈ sc_OccupiedNodes st.2).

Lemma newNodes_app sent r obj : newNodes (sent ++ [(r, obj)]) =
  newNodes sent ++ if String.eqb (rvr_Spec_NodeName r) "" then [rvr_Spec_NodeName obj] else [].
Proof. unfold newNodes. rewrite List.filter_app, map_app. simpl. by destruct (String.eqb _ _). Qed.
Lemma sent_step_safe nodes taken s s' sctx r e : safe_inv nodes taken (s, sctx) →
  cand_ok nodes (sc_OccupiedNodes sctx) r (bool_decide (rvr_Spec_Type r = ReplicaTypeDiskful)) e → sent_step r e s s' →
  safe_sent nodes taken s' ∧ ∀ n, n ∈ newNodes (io_sent s') → n = en_NodeName (ce_Node e) ∨ n ∈ sc_OccupiedNodes sctx.
Proof.
  intros ((HF & HN & HT) & _ & HO & HI) Hc [Hs|Hs]; unfold safe_sent; rewrite Hs; simpl in *; [naive_solver|].
  pose proof (cand_placement_ok _ _ _ _ Hc) as Hok. destruct Hc as (Hn & _ & _ & Ho). rewrite newNodes_app.
  split; [split; [by apply Forall_app; split; [|constructor]|]|].
  - destruct (String.eqb (rvr_Spec_NodeName r) ""); [|by rewrite app_nil_r]. split.
    + apply NoDup_app. split; [done|]. split; [|apply NoDup_singleton].
      intros n Hin ->%list_elem_of_singleton. apply Ho. by apply HI.
    + intros n [Hin|Hin]%elem_of_app; [by apply HT|]. apply list_elem_of_singleton in Hin as ->.
      intros Ht. by apply Ho, HO.
  - intros n [Hin|Hin]%elem_of_app; [right; by apply HI|]. left.
    destruct (String.eqb _ _); [by apply list_elem_of_singleton in Hin|by apply not_elem_of_nil in Hin].
Qed.

Lemma occupied_elem rvrs n :
  n ∈ foldl (λ (o : gset string) r, if String.eqb (rvr_Spec_NodeName r) "" then o else {[rvr_Spec_NodeName r]} ∪ o) ∅ rvrs ↔
  n ∈ List.filter (λ n, negb (String.eqb n "")) (map rvr_Spec_NodeName rvrs).
Proof.
  induction rvrs as [|r rvrs IH] using rev_ind; [set_solver|]. rewrite foldl_app, map_app, List.filter_app, elem_of_app, <-IH.
  simpl. destruct (String.eqb_spec (rvr_Spec_NodeName r) "") as [->|Hne]; simpl; [set_solver|].
  apply String.eqb_neq in Hne. set_solver.
Qed.
Lemma placement_ok_perm nodes nodes' p : nodes ≡ₚ nodes' → placement_ok nodes p → placement_ok nodes' p.
Proof.
  destruct p as [base obj]. intros HP (H1 & H2 & H3 & n & Hn & H4). do 3 (split; [done|]). exists n. by rewrite <-HP.
Qed.
(** No requirement on the responses of the API server. *)
Definition anyR : relation ReplicatedVolumeReplica := λ _ _, True.
#[local] Instance anyR_preorder : PreOrder anyR.
Proof. by split. Qed.
Lemma step_safe nodes taken r st :
  safe_inv nodes taken st →
  let '(st', (r', o')) := reconcileOneRVRScheduling r st in
  safe_sent nodes taken st'.1 ∧ (ShouldReturn o' = false → safe_inv nodes taken st').
Proof.
  destruct st as [s sctx]. intros HI. pose proof HI as (HS & HE & HO & HN). simpl in HS, HE, HO, HN.
  pose proof (reconcileOne_step anyR (λ _ _, I) (λ _ _ _ _ _ _, I) (λ _ _ _ _ _ _, I) _ r s sctx
    (cand_ok_blind _ _ r _) (filterCandidates_ok sctx r _ s)) as Hstep.
  rewrite HE in Hstep. remember (reconcileOneRVRScheduling r (s, sctx)) as res eqn:Er. clear Er.
  destruct Hstep as [s' r' o Hs _|e s' r' o Hq Ho Hs _|e s' r' o Hq Hs _]; simpl.
  - unfold safe_inv, safe_sent in *. simpl in *. by rewrite Hs.
  - destruct (sent_step_safe nodes taken s s' sctx r e HI Hq Hs) as [H _]. split; [done|congruence].
  - destruct (sent_step_safe nodes taken s s' sctx r e HI Hq Hs) as [H Hn]. split; [done|]. intros _.
    split; [done|]. split; [done|]. split; [set_solver|]. intros n Hin. simpl. specialize (Hn n Hin). set_solver.
Qed.

(** C29: scheduling is safe.  Whatever the API server, the scheduler extender, the clock and the map
    order do, every spec patch one reconciliation sends places a replica on an eligible, ready,
    schedulable node (a Diskful one on a ready, schedulable volume group of that node, any other one
    without a volume group), never moves a replica that already has a node, and gives replicas
    without a node distinct nodes on which the volume has no replica. *)
Theorem placements_safe rv cfg rsp rvrs attachToNodes w :
  let sctx := computeSchedulingContext rv cfg rsp rvrs attachToNodes in
  let sent := io_sent (scheduleReplicas sctx rvrs {| io_world := w; io_sent := [] |}).1.1 in
  Forall (placement_ok (rsp_EligibleNodes rsp)) sent ∧ NoDup (newNodes sent) ∧
  ∀ r, r ∈ rvrs → rvr_Spec_NodeName r ≠ "" → rvr_Spec_NodeName r ∉ newNodes sent.
Proof.
  intros sctx sent. set (taken := List.filter (λ n, negb (String.eqb n "")) (map rvr_Spec_NodeName rvrs)).
  assert (HS : safe_sent (sc_EligibleNodes sctx) taken (scheduleReplicas sctx rvrs {| io_world := w; io_sent := [] |}).1.1).
  { pose proof (scheduleReplicas_inv anyR (λ _ _, I) (λ _ _ _ _ _ _, I) (λ _ _ _ _ _ _, I) sctx
      (λ _, safe_inv (sc_EligibleNodes sctx) taken) (λ _ st, safe_sent (sc_EligibleNodes sctx) taken st.1) rvrs
      {| io_world := w; io_sent := [] |}) as H.
    destruct (scheduleReplicas sctx rvrs _) as [st' [rvrs' o]]. simpl in *. apply H; clear H.
    - by intros _ st [H _].
    - intros _ _ st0 st1 HI _ H1 H2. unfold safe_inv, safe_sent in *. by rewrite H1, H2.
    - intros before r rest st _. by apply step_safe.
    - repeat split; simpl; try (constructor || set_solver). intros n Hn. by apply occupied_elem. }
  destruct HS as (HF & HN & HT). split; [|split; [done|]].
  - eapply Forall_impl; [exact HF|]. intros p. apply placement_ok_perm. apply sort_by_perm.
  - intros r Hr Hne Hin. apply (HT _ Hin). unfold taken. apply list_elem_of_In, filter_In. split.
    + by apply in_map, list_elem_of_In.
    + by apply negb_true_iff, String.eqb_neq.
Qed.
End steps.
