(* ===== verification/ZoneTheory.v ===== *)
(** * Theorems on zones in scheduling

    The zone map holds the replicas of each zone, the preferred zones are the best ones whatever the
    order of the map, and TransZonal placement keeps the Diskful replicas evenly spread. *)

From Stdlib Require Import ZArith Lia String Sorted.
From stdpp Require Import base gmap list numbers strings option relations.
From S2P Require Import Prelude IdSet DrbdSize Api Object Storage Flow Pipeline PipelineTheory Scheduling SchedulingTheory.
Import idset v1alpha1 storage pipeline scheduling flow.

Set Default Proof Using "Type".

(** ** Binary search *)
Lemma StronglySorted_lookup {A} (R : A → A → Prop) l i j x y :
  StronglySorted R l → l !! i = Some x → l !! j = Some y → (i < j)%nat → R x y.
Proof.
  intros HS. revert i j. induction HS as [|a l HS IH HF]; intros i j Hi Hj Hlt; [done|].
  destruct j as [|j]; [lia|]. destruct i as [|i]; simpl in *; [|eapply IH; eauto; lia].
  simplify_eq. rewrite Forall_forall in HF. apply HF. by eapply list_elem_of_lookup_2.
Qed.

Section search.
Context {A T : Type} (cmp : A → T → comparison) (x : list A) (target : T).
(** Elements before [i] are below the target, elements from [j] on are not. *)
Definition splits (i j : nat) : Prop :=
  (∀ k a, (k < i)%nat → x !! k = Some a → cmp a target = Lt) ∧ (∀ k a, (j ≤ k)%nat → x !! k = Some a → cmp a target ≠ Lt).
Hypothesis prefix : ∀ i j a b, (i < j)%nat → x !! i = Some a → x !! j = Some b → cmp b target = Lt → cmp a target = Lt.

Lemma binarySearch_loop_splits fuel i j : (j - i < fuel)%nat → (i ≤ j ≤ length x)%nat → splits i j →
  let r := binarySearch_loop cmp x target fuel i j in splits r r.
Proof using prefix.
  revert i j. induction fuel as [|fuel IH]; intros i j Hf Hij Hs; [lia|]. simpl.
  destruct (Nat.ltb_spec i j) as [Hlt|Hge]; [|by assert (i = j) as -> by lia].
  assert (Hh : (i ≤ (i + j) / 2 < j)%nat).
  { split; [apply Nat.div_le_lower_bound; lia|apply Nat.Div0.div_lt_upper_bound; lia]. }
  set (h := ((i + j) / 2)%nat) in *. destruct Hs as [Hl Hr].
  destruct (lookup_lt_is_Some_2 x h ltac:(lia)) as [a Ha]. change (fst (Nat.divmod (i + j) 1 0 1)) with h. rewrite Ha.
  destruct (cmp a target) eqn:Ec; apply IH; try lia; split; auto.
  - intros k b Hk Hb Hlt'. destruct (decide (k = h)) as [->|]; [congruence|].
    rewrite (prefix h k a b) in Ec; auto; [done|lia].
  - intros k b Hk Hb. destruct (decide (k = h)) as [->|]; [congruence|]. apply (prefix k h b a); auto. lia.
  - intros k b Hk Hb Hlt'. destruct (decide (k = h)) as [->|]; [congruence|].
    rewrite (prefix h k a b) in Ec; auto; [done|lia].
Qed.
End search.

(** The zone of a node, by linear search; the empty name is no node. *)
Definition zoneOf (nodes : list EligibleNode) (name : string) : option string :=
  if String.eqb name "" then None else en_ZoneName <$> List.find (λ n, String.eqb (en_NodeName n) name) nodes.
Definition nodesSorted : list EligibleNode → Prop := StronglySorted (below String.compare en_NodeName).

Lemma zoneOf_elem nodes n : NoDup (map en_NodeName nodes) → n ∈ nodes → en_NodeName n ≠ "" →
  zoneOf nodes (en_NodeName n) = Some (en_ZoneName n).
Proof.
  intros Hd Hn Hne%String.eqb_neq. unfold zoneOf. rewrite Hne. induction nodes as [|m nodes IH]; [set_solver|]. simpl.
  apply NoDup_cons in Hd as [Hm Hd]. apply elem_of_cons in Hn as [->|Hn]; [by rewrite String.eqb_refl|].
  destruct (String.eqb_spec (en_NodeName m) (en_NodeName n)) as [E|]; [|by apply IH]. destruct Hm. rewrite E.
  by apply list_elem_of_fmap_2.
Qed.
Lemma zoneOf_Some nodes name z : zoneOf nodes name = Some z →
  ∃ n, n ∈ nodes ∧ en_NodeName n = name ∧ name ≠ "" ∧ en_ZoneName n = z.
Proof.
  unfold zoneOf. destruct (String.eqb_spec name "") as [|Hne]; [done|]. intros (n & Hf & ->)%fmap_Some.
  apply find_some in Hf as [Hin He%String.eqb_eq]. exists n. by rewrite list_elem_of_In.
Qed.
Lemma nodesSorted_NoDup nodes : nodesSorted nodes → NoDup (map en_NodeName nodes).
Proof.
  induction 1 as [|n nodes _ IH HF]; [constructor|]. simpl. apply NoDup_cons. split; [|done].
  intros (m & Hm & Hin)%list_elem_of_fmap. rewrite Forall_forall in HF. specialize (HF m Hin).
  unfold below in HF. rewrite Hm in HF. by rewrite cmp_refl in HF by apply _.
Qed.
Lemma search_zone nodes name : nodesSorted nodes → name ≠ "" →
  (let '(idx, found) := BinarySearchFunc nodes name (λ n name, String.compare (en_NodeName n) name) in
   if negb found then None else en_ZoneName <$> nodes !! idx) = zoneOf nodes name.
Proof.
  intros HS Hne. unfold BinarySearchFunc. set (cmp := λ n name, String.compare (en_NodeName n) name).
  assert (Hpre : ∀ i j a b, (i < j)%nat → nodes !! i = Some a → nodes !! j = Some b → cmp b name = Lt → cmp a name = Lt).
  { intros i j a b Hij Ha Hb Hc. pose proof (StronglySorted_lookup _ _ _ _ _ _ HS Ha Hb Hij) as Hab.
    exact (cmp_lt_trans (cmp:=String.compare) _ _ _ Hab Hc). }
  pose proof (binarySearch_loop_splits cmp nodes name Hpre (S (length nodes)) 0 (length nodes) ltac:(lia) ltac:(lia)) as H.
  specialize (H ltac:(split; [lia|intros k a Hk Ha%lookup_lt_Some; lia])). cbv zeta in H.
  set (r := binarySearch_loop _ _ _ _ _ _) in *. destruct H as [Hl Hr].
  destruct (nodes !! r) as [a|] eqn:Ea; [case_bool_decide as Ec|]; simpl.
  - apply (cmp_eq (cmp:=String.compare)) in Ec. rewrite <-Ec. symmetry. apply zoneOf_elem; [by apply nodesSorted_NoDup|by eapply list_elem_of_lookup_2|congruence].
  - destruct (zoneOf nodes name) as [z|] eqn:Ez; [|done]. exfalso. apply zoneOf_Some in Ez as (n & [k Hk]%list_elem_of_lookup & Hn & _).
    assert (Hc : cmp n name = Eq) by (by apply (cmp_eq (cmp:=String.compare))). destruct (Nat.lt_trichotomy k r) as [Hlt|[->|Hgt]].
    + by rewrite (Hl k n Hlt Hk) in Hc.
    + rewrite Ea in Hk. injection Hk as ->. by apply Ec.
    + apply (Hr r a); [lia|done|]. pose proof (StronglySorted_lookup _ _ _ _ _ _ HS Ea Hk Hgt) as Hb. unfold below in Hb. by rewrite Hn in Hb.
  - destruct (zoneOf nodes name) as [z|] eqn:Ez; [|done]. exfalso. apply zoneOf_Some in Ez as (n & [k Hk]%list_elem_of_lookup & Hn & _).
    assert (Hc : cmp n name = Eq) by (by apply (cmp_eq (cmp:=String.compare))). apply lookup_ge_None in Ea. pose proof (lookup_lt_Some _ _ _ Hk).
    by rewrite (Hl k n ltac:(lia) Hk) in Hc.
Qed.

(** ** The zone map *)
Section zones.
Context `{K : K8s}.
Implicit Types (r : ReplicatedVolumeReplica) (m : gmap string IDSet) (nodes : list EligibleNode).

Lemma addReplicaToZone_spec nodes m r : nodesSorted nodes →
  addReplicaToZone nodes m r =
  match zoneOf nodes (rvr_Spec_NodeName r) with
  | Some z => match m !! z with Some s => <[z := idset.Add s (rvr_ID r)]> m | None => m end
  | None => m
  end.
Proof.
  intros HS. unfold addReplicaToZone.
  destruct (String.eqb_spec (rvr_Spec_NodeName r) "") as [->|Hne]; [done|]. rewrite <-search_zone by done.
  destruct (BinarySearchFunc _ _ _) as [idx found]. destruct found; simpl; [|done]. by destruct (nodes !! idx).
Qed.
Lemma zonesOf_lookup nodes z : zonesOf nodes !! z = if bool_decide (z ∈ map en_ZoneName nodes) then Some 0 else None.
Proof.
  unfold zonesOf. revert z. induction nodes as [|n nodes IH] using rev_ind; intros z; [done|]. rewrite foldl_app, map_app. simpl.
  rewrite IH. case_bool_decide as Hn.
  - rewrite IH. repeat case_bool_decide; set_solver.
  - destruct (decide (z = en_ZoneName n)) as [->|Hne].
    + rewrite lookup_insert_eq. by rewrite bool_decide_true by set_solver.
    + rewrite lookup_insert_ne, IH by done. repeat case_bool_decide; set_solver.
Qed.
Lemma computeReplicasByZone_lookup nodes rvrs z : nodesSorted nodes →
  match computeReplicasByZone nodes rvrs !! z with
  | Some s => z ∈ map en_ZoneName nodes ∧ ∀ id, valid_id id →
      Contains s id = existsb (λ r, bool_decide (zoneOf nodes (rvr_Spec_NodeName r) = Some z) && (id =? rvr_ID r)) rvrs
  | None => z ∉ map en_ZoneName nodes
  end.
Proof.
  intros HS. unfold computeReplicasByZone. induction rvrs as [|r rvrs IH] using rev_ind.
  { simpl. rewrite zonesOf_lookup. case_bool_decide; [|done]. split; [done|]. intros id Hid. by rewrite Contains_empty. }
  rewrite foldl_app. simpl. rewrite addReplicaToZone_spec by done.
  set (m := foldl _ _ rvrs) in *. clearbody m.
  assert (Hkeep : zoneOf nodes (rvr_Spec_NodeName r) ≠ Some z →
    match m !! z with
    | Some s => z ∈ map en_ZoneName nodes ∧ ∀ id, valid_id id → Contains s id =
        existsb (λ r, bool_decide (zoneOf nodes (rvr_Spec_NodeName r) = Some z) && (id =? rvr_ID r)) (rvrs ++ [r])
    | None => z ∉ map en_ZoneName nodes
    end).
  { intros Hz. destruct (m !! z); [|done]. destruct IH as [H1 H2]. split; [done|]. intros id Hid.
    rewrite existsb_app, <-H2 by done. simpl. by rewrite bool_decide_false, orb_false_r. }
  destruct (zoneOf nodes (rvr_Spec_NodeName r)) as [z'|] eqn:Ez; [|by apply Hkeep].
  destruct (decide (z' = z)) as [->|Hne].
  - destruct (m !! z) as [s|] eqn:Em; [|by rewrite Em]. rewrite lookup_insert_eq. destruct IH as [H1 H2]. split; [done|].
    intros id Hid. rewrite Contains_Add by (done || apply idFromName_nonneg). rewrite existsb_app, H2 by done. simpl.
    by rewrite bool_decide_true, orb_false_r.
  - destruct (m !! z'); [rewrite lookup_insert_ne by done|]; apply Hkeep; congruence.
Qed.

(** The zone map of the scheduling context is exact.  Its keys are the zones of the eligible
    nodes, and a replica ID is in the set of a zone exactly when a replica with that ID is assigned
    to an eligible node of that zone; the node is found by binary search on the sorted nodes. *)
Theorem computeReplicasByZone_exact (eligible : list EligibleNode) (rvrs : list ReplicatedVolumeReplica) z id :
  NoDup (map en_NodeName eligible) → valid_id id →
  match computeReplicasByZone (sort_by (λ a b, cmp_leb String.compare (en_NodeName a) (en_NodeName b)) eligible) rvrs !! z with
  | Some s => z ∈ map en_ZoneName eligible ∧
      (Contains s id = true ↔ ∃ r n, r ∈ rvrs ∧ rvr_ID r = id ∧ rvr_Spec_NodeName r ≠ "" ∧
                                     n ∈ eligible ∧ en_NodeName n = rvr_Spec_NodeName r ∧ en_ZoneName n = z)
  | None => z ∉ map en_ZoneName eligible
  end.
Proof.
  intros Hd Hid. set (nodes := sort_by _ eligible). assert (HP : nodes ≡ₚ eligible) by apply sort_by_perm.
  assert (HS : nodesSorted nodes) by (by apply sort_by_strict; [apply _|]).
  pose proof (computeReplicasByZone_lookup nodes rvrs z HS) as H. clearbody nodes.
  destruct (computeReplicasByZone nodes rvrs !! z) as [s|]; [|by rewrite <-HP]. destruct H as [Hz H].
  split; [by rewrite <-HP|]. rewrite H, existsb_exists by done. split.
  - intros (r & Hin & [Hb%bool_decide_eq_true He%Z.eqb_eq]%andb_true_iff).
    apply zoneOf_Some in Hb as (n & Hn & Hnn & Hne & Hzn). exists r, n. rewrite HP in Hn. by rewrite list_elem_of_In.
  - intros (r & n & Hin & <- & Hne & Hn & Hnn & <-). exists r. rewrite <-list_elem_of_In. split; [done|].
    rewrite Z.eqb_refl, andb_true_r. apply bool_decide_eq_true. rewrite <-Hnn. rewrite <-HP in Hn.
    apply zoneOf_elem; [by rewrite HP|done|congruence].
Qed.
End zones.

(** ** Preferred zones *)

(** A comparison function that is a total preorder. *)
Class Preference (cmp : IDSet → IDSet → comparison) : Prop := {
  pref_flip a b : cmp a b = CompOpp (cmp b a);
  pref_trans a b c : cmp a b ≠ Lt → cmp b c ≠ Lt → cmp a c ≠ Lt;
}.
Lemma compareIn_flip t a b : compareIn t a b = CompOpp (compareIn t b a).
Proof. apply Z.compare_antisym. Qed.
Lemma compareIn_ge t a b : compareIn t a b ≠ Lt ↔ Len (Intersect b t) ≤ Len (Intersect a t).
Proof. unfold compareIn. rewrite Z.compare_lt_iff. lia. Qed.
#[export] Instance zonalCompare_preference sctx : Preference (zonalCompare sctx).
Proof. split; [intros; apply compareIn_flip|]. intros a b c. unfold zonalCompare. rewrite !compareIn_ge. lia. Qed.
Lemma transZonalCompare_ge sctx isDiskful a b : transZonalCompare sctx isDiskful a b ≠ Lt ↔
  if isDiskful then Len (Intersect a (sc_Diskful sctx)) ≤ Len (Intersect b (sc_Diskful sctx))
  else let u := Union (sc_Diskful sctx) (sc_TieBreaker sctx) in
       Len (Intersect a u) < Len (Intersect b u) ∨
       Len (Intersect a u) = Len (Intersect b u) ∧ Len (Intersect a (sc_TieBreaker sctx)) ≤ Len (Intersect b (sc_TieBreaker sctx)).
Proof.
  unfold transZonalCompare, compareIn. destruct isDiskful.
  - destruct (Z.compare_spec (Len (Intersect a (sc_Diskful sctx))) (Len (Intersect b (sc_Diskful sctx)))); simpl; split; (done || lia).
  - cbv zeta. destruct (Z.compare_spec (Len (Intersect a (Union (sc_Diskful sctx) (sc_TieBreaker sctx))))
      (Len (Intersect b (Union (sc_Diskful sctx) (sc_TieBreaker sctx))))); simpl; [|split; (done || lia)..].
    destruct (Z.compare_spec (Len (Intersect a (sc_TieBreaker sctx))) (Len (Intersect b (sc_TieBreaker sctx)))); simpl; split; (done || lia).
Qed.
#[export] Instance transZonalCompare_preference sctx isDiskful : Preference (transZonalCompare sctx isDiskful).
Proof.
  split.
  - intros a b. unfold transZonalCompare. destruct isDiskful; [by rewrite (compareIn_flip _ a b)|].
    rewrite (compareIn_flip (Union _ _) a b), (compareIn_flip (sc_TieBreaker sctx) a b).
    by destruct (compareIn (Union _ _) b a).
  - intros a b c. rewrite !transZonalCompare_ge. destruct isDiskful; [lia|]. cbv zeta. lia.
Qed.

Section preferred.
Context (cmp : IDSet → IDSet → comparison) {P : Preference cmp}.
Implicit Types (m : gmap string IDSet) (zones : list (string * IDSet)).

Lemma pref_refl a : cmp a a ≠ Lt.
Proof using P. intros H. pose proof (pref_flip (cmp:=cmp) a a) as Hf. by rewrite H in Hf. Qed.
Lemma pref_eq a b : cmp a b = Eq ↔ cmp a b ≠ Lt ∧ cmp b a ≠ Lt.
Proof using P. rewrite (pref_flip (cmp:=cmp) b a). destruct (cmp a b); simpl; naive_solver. Qed.

Lemma bestReplicas_max zones :
  match bestReplicas cmp zones with
  | None => zones = []
  | Some b => (∃ z, (z, b) ∈ zones) ∧ ∀ z s, (z, s) ∈ zones → cmp b s ≠ Lt
  end.
Proof using P.
  unfold bestReplicas. induction zones as [|[z s] zones IH] using rev_ind; [done|]. rewrite foldl_app. simpl.
  destruct (foldl _ None zones) as [b|].
  - destruct IH as [[zb Hb] Hm]. destruct (cmp s b) eqn:Es.
    + split; [exists zb; set_solver|]. intros z' s' [H|H]%elem_of_app; [by eapply Hm|].
      apply list_elem_of_singleton in H. simplify_eq. rewrite (pref_flip (cmp:=cmp)), Es. done.
    + split; [exists zb; set_solver|]. intros z' s' [H|H]%elem_of_app; [by eapply Hm|].
      apply list_elem_of_singleton in H. simplify_eq. rewrite (pref_flip (cmp:=cmp)), Es. done.
    + split; [exists z; set_solver|]. intros z' s' [H|H]%elem_of_app.
      * eapply pref_trans; [|by eapply Hm]. by rewrite Es.
      * apply list_elem_of_singleton in H. simplify_eq. apply pref_refl.
  - subst. split; [exists z; set_solver|]. intros z' s' H. apply list_elem_of_singleton in H. simplify_eq. apply pref_refl.
Qed.
Lemma preferred_spec m zones1 zones2 z : zones1 ≡ₚ map_to_list m → zones2 ≡ₚ map_to_list m →
  z ∈ computePreferredZones zones1 zones2 cmp ↔
  ∃ s, m !! z = Some s ∧ ∀ z' s', m !! z' = Some s' → cmp s s' ≠ Lt.
Proof using P.
  intros H1 H2. unfold computePreferredZones. pose proof (bestReplicas_max zones1) as Hb.
  destruct (bestReplicas cmp zones1) as [b|].
  - destruct Hb as [[zb Hb] Hm]. setoid_rewrite H1 in Hm. rewrite H1, elem_of_map_to_list in Hb.
    rewrite list_elem_of_omap. split.
    + intros ([z' s] & Hin & Hz). simpl in Hz. destruct (cmp s b) eqn:Es; simplify_eq. rewrite H2, elem_of_map_to_list in Hin.
      exists s. split; [done|]. intros z' s' Hz'. eapply pref_trans; [|apply (Hm z'), elem_of_map_to_list, Hz'].
      by rewrite Es.
    + intros (s & Hz & Hbest). exists (z, s). rewrite H2, elem_of_map_to_list. split; [done|]. simpl.
      rewrite (proj2 (pref_eq s b)); [done|]. split; [by eapply Hbest|]. apply (Hm z). by apply elem_of_map_to_list.
  - subst. symmetry in H1. apply Permutation_nil_r, map_to_list_empty_iff in H1 as ->. split; [set_solver|].
    intros (s & Hz & _). by rewrite lookup_empty in Hz.
Qed.
(** When no zone is left out, every zone is preferred. *)
Lemma preferred_all m zones1 zones2 z : zones1 ≡ₚ map_to_list m → zones2 ≡ₚ map_to_list m →
  (size m ≤ length (computePreferredZones zones1 zones2 cmp))%nat → is_Some (m !! z) →
  z ∈ computePreferredZones zones1 zones2 cmp.
Proof using P.
  intros H1 H2 Hl [s Hz]. set (pz := computePreferredZones _ _ _) in *.
  assert (Hn : NoDup pz).
  { assert (Hd : NoDup (map fst zones2)) by (rewrite H2; apply NoDup_fst_map_to_list). unfold pz, computePreferredZones.
    destruct (bestReplicas cmp zones1) as [b|]; [|constructor]. clear -Hd. induction zones2 as [|[z s] l IH]; [constructor|].
    apply NoDup_cons in Hd as [Hz Hd]. rewrite omap_cons_eq. simpl. specialize (IH Hd). destruct (cmp s b); try done.
    apply NoDup_cons. split; [|done]. intros ([z' s'] & Hin & He)%list_elem_of_omap. simpl in He.
    destruct (cmp s' b); simplify_eq. apply Hz. by apply (list_elem_of_fmap_2 fst _ (z, s')). }
  assert (Hi : incl pz (map fst (map_to_list m))).
  { intros x Hx%list_elem_of_In. apply (preferred_spec m) in Hx as (s' & Hx & _); [|done..].
    apply list_elem_of_In, (list_elem_of_fmap_2 fst _ (x, s')). by apply elem_of_map_to_list. }
  apply list_elem_of_In. refine (List.NoDup_length_incl _ _ Hi z _); [by apply NoDup_ListNoDup| |].
  - rewrite length_map, length_map_to_list. exact Hl.
  - apply list_elem_of_In, (list_elem_of_fmap_2 fst _ (z, s)). by apply elem_of_map_to_list.
Qed.
End preferred.

(** How the reconciler compares zones: for a Zonal pool, or for a TransZonal one and a Diskful or
    other replica. *)
Definition zoneCompare sctx (choice : option bool) : IDSet → IDSet → comparison :=
  match choice with None => zonalCompare sctx | Some isDiskful => transZonalCompare sctx isDiskful end.

(** The preferred zones are exactly the best ones: a zone is preferred when no zone of the map is
    strictly better (more Diskful replicas for a Zonal pool; for a TransZonal one fewer Diskful
    replicas, or for a tie-breaker fewer replicas and then fewer tie-breakers).  The result does not
    depend on the order in which the map is ranged over, even if the two loops use different orders. *)
Theorem preferredZones_best sctx choice (m : gmap string IDSet) zones1 zones2 z :
  zones1 ≡ₚ map_to_list m → zones2 ≡ₚ map_to_list m →
  z ∈ computePreferredZones zones1 zones2 (zoneCompare sctx choice) ↔
  ∃ s, m !! z = Some s ∧ ∀ z' s', m !! z' = Some s' → zoneCompare sctx choice s s' ≠ Lt.
Proof. intros H1 H2. destruct choice; by apply preferred_spec; [apply _|..]. Qed.

(** ** Balance *)
Section balance.
Context `{K : K8s} {E : Env}.
Implicit Types (r : ReplicatedVolumeReplica) (sctx : schedulingContext) (nodes : list EligibleNode).

(** What the scheduler reads of a replica. *)
Record same_spec r r' : Prop := {
  ss_Name : rvr_Name r' = rvr_Name r; ss_Type : rvr_Spec_Type r' = rvr_Spec_Type r;
  ss_NodeName : rvr_Spec_NodeName r' = rvr_Spec_NodeName r;
}.
#[local] Instance same_spec_preorder : PreOrder same_spec.
Proof. split; [done|]. intros r1 r2 r3 [] []. split; congruence. Qed.

(** Documented behaviour of the environment: ranging over a map visits every entry once; the
    response of a successful patch (with optimistic locking) is the patched object. *)
Class EnvLaws : Prop := {
  rangeMap_perm m w : (rangeMap m w).2 ≡ₚ map_to_list m;
  Patch_response base r w w' r' : Patch base r w = (w', ApiOk r') → same_spec r r';
  StatusPatch_response base r w w' r' : StatusPatch base r w = (w', ApiOk r') → same_spec r r';
}.

(** The zone of a candidate that passed the filter is a best one. *)
Definition best_zone (cmp : IDSet → IDSet → comparison) (m : gmap string IDSet) (e : CandidateEntry) : Prop :=
  ∀ s, m !! en_ZoneName (ce_Node e) = Some s → ∀ z' s', m !! z' = Some s' → cmp s s' ≠ Lt.
Lemma zoneFilter_best `{L : !EnvLaws} cmp `{!Preference cmp} p name m s :
  Forall (best_zone cmp m) (sp_Seq (zoneFilter p name m cmp s).2).
Proof.
  unfold zoneFilter, preferredZones. destruct (on_world (rangeMap m) s) as [s1 z1] eqn:E1.
  destruct (on_world (rangeMap m) s1) as [s2 z2] eqn:E2.
  assert (Hp : ∀ s s' l, on_world (rangeMap m) s = (s', l) → l ≡ₚ map_to_list m).
  { intros t t' l Hl. unfold on_world in Hl. pose proof (rangeMap_perm m (io_world t)) as HP.
    destruct (rangeMap m (io_world t)). by simplify_eq/=. }
  apply Hp in E1, E2. simpl. apply Forall_forall. intros e He zs Hz z' s' Hz'.
  assert (Hin : en_ZoneName (ce_Node e) ∈ computePreferredZones z1 z2 cmp).
  { destruct (Nat.ltb_spec (length (computePreferredZones z1 z2 cmp)) (size m)) as [Hl|Hl].
    - apply keepIf_elem in He as [_ He]. by apply bool_decide_eq_true in He.
    - by apply (preferred_all cmp m); [..|eauto]. }
  apply (preferred_spec cmp m) in Hin as (s0 & Hs0 & Hb); [|done..]. simplify_eq. by eapply Hb.
Qed.
Lemma filterCandidates_best `{L : !EnvLaws} sctx r isDiskful s : sc_Topology sctx = TopologyTransZonal →
  Forall (best_zone (transZonalCompare sctx isDiskful) (sc_ReplicasByZone sctx))
    (sp_Seq (filterCandidates sctx r isDiskful s).2).
Proof.
  intros Ht. unfold filterCandidates. rewrite Ht. rewrite bool_decide_false by done. rewrite bool_decide_true by done.
  apply zoneFilter_best, _.
Qed.

(** The Diskful replicas of a zone; balanced zones differ by at most one. *)
Definition inZone nodes z r : bool := bool_decide (zoneOf nodes (rvr_Spec_NodeName r) = Some z).
Definition diskfulIn nodes (rvrs : list ReplicatedVolumeReplica) z : Z :=
  countb (λ r, bool_decide (rvr_Spec_Type r = ReplicaTypeDiskful) && inZone nodes z r) rvrs.
Definition balanced nodes (rvrs : list ReplicatedVolumeReplica) : Prop :=
  ∀ z1 z2, z1 ∈ map en_ZoneName nodes → z2 ∈ map en_ZoneName nodes → diskfulIn nodes rvrs z1 ≤ diskfulIn nodes rvrs z2 + 1.

(** The scheduling context agrees with the replicas. *)
Record zone_sync nodes ids (rvrs : list ReplicatedVolumeReplica) (st : io * schedulingContext) : Prop := {
  zi_nodes : sc_EligibleNodes st.2 = nodes;
  zi_topology : sc_Topology st.2 = TopologyTransZonal;
  zi_ids : map rvr_ID rvrs = ids;
  zi_types : ∀ r, r ∈ rvrs → Contains (sc_Diskful st.2) (rvr_ID r) = bool_decide (rvr_Spec_Type r = ReplicaTypeDiskful);
  zi_zones : ∀ z, match sc_ReplicasByZone st.2 !! z with
                  | Some s => z ∈ map en_ZoneName nodes ∧
                      ∀ id, valid_id id → Contains s id = existsb (λ r, inZone nodes z r && (id =? rvr_ID r)) rvrs
                  | None => z ∉ map en_ZoneName nodes
                  end;
}.
Definition zone_inv nodes ids rvrs (st : io * schedulingContext) : Prop := zone_sync nodes ids rvrs st ∧ balanced nodes rvrs.

(** Everything depends on what [same_spec] keeps. *)
Lemma same_spec_forall l l' : Forall2 same_spec l l' →
  map rvr_ID l' = map rvr_ID l ∧ (∀ nodes z, diskfulIn nodes l' z = diskfulIn nodes l z) ∧
  (∀ nodes z id, existsb (λ r, inZone nodes z r && (id =? rvr_ID r)) l' = existsb (λ r, inZone nodes z r && (id =? rvr_ID r)) l) ∧
  (∀ r', r' ∈ l' → ∃ r, r ∈ l ∧ rvr_ID r' = rvr_ID r ∧ rvr_Spec_Type r' = rvr_Spec_Type r).
Proof.
  induction 1 as [|r r' l l' [Hn Ht Hd] HF (H1 & H2 & H3 & H4)]; [set_solver|].
  assert (Hid : rvr_ID r' = rvr_ID r) by (unfold rvr_ID; by rewrite Hn).
  assert (Hz : ∀ nodes z, inZone nodes z r' = inZone nodes z r) by (intros; unfold inZone; by rewrite Hd).
  split; [simpl; by rewrite Hid, H1|]. split; [|split].
  - intros nodes z. unfold diskfulIn in *. rewrite !countb_cons, H2, Ht, Hz. done.
  - intros nodes z id. simpl. by rewrite H3, Hid, Hz.
  - intros x [->|Hx]%elem_of_cons; [exists r; set_solver|]. destruct (H4 x Hx) as (y & Hy & ?). exists y. set_solver.
Qed.
Lemma zone_inv_same nodes ids l l' st st' : zone_inv nodes ids l st → Forall2 same_spec l l' →
  io_sent st'.1 = io_sent st.1 → st'.2 = st.2 → zone_inv nodes ids l' st'.
Proof.
  intros [[Hn Ht Hi Hty Hz] Hb] (H1 & H2 & H3 & H4)%same_spec_forall _ Hst. split; [split|]; rewrite ?Hst; try done.
  - congruence.
  - intros r' Hr'. destruct (H4 r' Hr') as (r & Hr & -> & ->). by apply Hty.
  - intros z. specialize (Hz z). destruct (sc_ReplicasByZone st.2 !! z); [|done]. setoid_rewrite H3. done.
  - intros z1 z2 Hz1 Hz2. rewrite !H2. by apply Hb.
Qed.

(** The size of a set of IDs of the replicas. *)
Lemma Len_count (rvrs : list ReplicatedVolumeReplica) s :
  NoDup (map rvr_ID rvrs) → Forall (λ r, valid_id (rvr_ID r)) rvrs →
  (∀ id, valid_id id → Contains s id = true → id ∈ map rvr_ID rvrs) →
  Len s = countb (λ r, Contains s (rvr_ID r)) rvrs.
Proof.
  intros Hd Hv Hs. rewrite Len_countb.
  assert (Hm : countb (λ r, Contains s (rvr_ID r)) rvrs = countb (Contains s) (map rvr_ID rvrs)).
  { clear. induction rvrs as [|r l IH]; [done|]. simpl. by rewrite !countb_cons, IH. }
  rewrite Hm. unfold countb. f_equal. apply Permutation_length, NoDup_Permutation.
  - apply NoDup_ListNoDup, List.NoDup_filter, NoDup_ListNoDup, ids_NoDup.
  - apply NoDup_ListNoDup, List.NoDup_filter. by apply NoDup_ListNoDup.
  - intros id. rewrite !list_elem_of_In, !filter_In, <-!list_elem_of_In, elem_of_ids. split; [naive_solver|].
    intros [(r & -> & Hr)%list_elem_of_fmap Hc]. rewrite Forall_forall in Hv. naive_solver.
Qed.

Lemma existsb_unique (f : ReplicatedVolumeReplica → bool) rvrs r : NoDup (map rvr_ID rvrs) → r ∈ rvrs →
  existsb (λ x, f x && (rvr_ID r =? rvr_ID x)) rvrs = f r.
Proof.
  intros Hd Hr. apply eq_bool_prop_intro. rewrite !Is_true_true, existsb_exists. split.
  - intros (r2 & Hr2%list_elem_of_In & [H2 He%Z.eqb_eq]%andb_true_iff). apply list_elem_of_lookup in Hr as [i Hi], Hr2 as [j Hj].
    assert (i = j) as <-; [|congruence]. eapply (NoDup_lookup (map rvr_ID rvrs)); [done|by rewrite list_lookup_fmap, Hi|].
    rewrite list_lookup_fmap, Hj. simpl. by rewrite He.
  - intros Hf. exists r. by rewrite Hf, Z.eqb_refl, <-list_elem_of_In.
Qed.
Lemma zone_count nodes ids rvrs st z s : zone_sync nodes ids rvrs st → NoDup ids → Forall valid_id ids →
  sc_ReplicasByZone st.2 !! z = Some s → Len (Intersect s (sc_Diskful st.2)) = diskfulIn nodes rvrs z.
Proof.
  intros HI Hd Hv Hz. pose proof (zi_zones _ _ _ _ HI z) as H. rewrite Hz in H. destruct H as [_ H].
  pose proof (zi_ids _ _ _ _ HI) as Hids. subst ids.
  assert (HV : Forall (λ r, valid_id (rvr_ID r)) rvrs) by (rewrite Forall_forall in Hv; apply Forall_forall; intros; by apply Hv, list_elem_of_fmap_2).
  rewrite (Len_count rvrs) by (try done; intros id Hid; rewrite Contains_Intersect, H by done;
    intros [(r & Hr & [_ ->%Z.eqb_eq]%andb_true_iff)%existsb_exists _]%andb_true_iff; apply list_elem_of_fmap_2, list_elem_of_In, Hr).
  apply countb_ext. intros r Hr. rewrite Forall_forall in HV. rewrite Contains_Intersect, H by (by apply HV).
  rewrite (zi_types _ _ _ _ HI r Hr), andb_comm. f_equal.
  by apply existsb_unique.
Qed.

Section step.
Context nodes ids (HS : nodesSorted nodes) (Hne : Forall (λ n, en_NodeName n ≠ "") nodes) (Hd : NoDup ids) (Hv : Forall valid_id ids).
Context (before rest : list ReplicatedVolumeReplica) (r r' : ReplicatedVolumeReplica) (e : CandidateEntry).
Context (s : io) (sctx : schedulingContext) (occupied : gset string).
Let isDiskful := bool_decide (rvr_Spec_Type r = ReplicaTypeDiskful).
Hypothesis HI : zone_inv nodes ids (before ++ r :: rest) (s, sctx).
Hypothesis Hc : cand_ok nodes occupied r isDiskful e.
Hypothesis Hb : best_zone (transZonalCompare sctx isDiskful) (sc_ReplicasByZone sctx) e.
Hypothesis HR : same_spec (placed r e) r'.
Let z := en_ZoneName (ce_Node e).
Set Default Proof Using "All".

Lemma placed_zone : zoneOf nodes (rvr_Spec_NodeName r') = Some z.
Proof.
  destruct Hc as (Hin & _). rewrite (ss_NodeName _ _ HR). simpl. rewrite Forall_forall in Hne.
  apply zoneOf_elem; [by apply nodesSorted_NoDup|done|by apply Hne].
Qed.
(** The replica had no zone, or already this one. *)
Lemma placed_before : zoneOf nodes (rvr_Spec_NodeName r) = None ∨ zoneOf nodes (rvr_Spec_NodeName r) = Some z.
Proof.
  pose proof placed_zone as Hz. rewrite (ss_NodeName _ _ HR) in Hz. simpl in Hz. destruct Hc as (_ & _ & _ & Ho).
  destruct (String.eqb_spec (rvr_Spec_NodeName r) "") as [E0|]; [left; by rewrite E0|right; by rewrite <-Ho].
Qed.
Lemma z_elem : z ∈ map en_ZoneName nodes.
Proof. destruct Hc as (Hin & _). by apply (list_elem_of_fmap_2 en_ZoneName). Qed.
Lemma diskfulIn_placed z' : diskfulIn nodes (before ++ r' :: rest) z' =
  diskfulIn nodes (before ++ r :: rest) z' +
  Z.b2z (isDiskful && bool_decide (z' = z) && bool_decide (zoneOf nodes (rvr_Spec_NodeName r) = None)).
Proof.
  unfold diskfulIn. rewrite !countb_app, !countb_cons, (ss_Type _ _ HR). simpl. fold isDiskful. unfold inZone.
  rewrite placed_zone. pose proof placed_before as Hpb. generalize isDiskful. intros d. destruct d; simpl; [|lia].
  destruct Hpb as [-> | ->]; repeat case_bool_decide; simplify_eq; simpl; lia.
Qed.
Lemma placed_balanced : balanced nodes (before ++ r' :: rest).
Proof.
  intros z1 z2 H1 H2. rewrite !diskfulIn_placed. pose proof (proj2 HI z1 z2 H1 H2) as Hbal.
  assert (Hbest : isDiskful = true → ∀ sz z2 sz2, sc_ReplicasByZone sctx !! z = Some sz → sc_ReplicasByZone sctx !! z2 = Some sz2 →
    Len (Intersect sz (sc_Diskful sctx)) ≤ Len (Intersect sz2 (sc_Diskful sctx))).
  { intros Ed sz z3 sz3 E1 E3. pose proof (Hb sz E1 z3 sz3 E3) as Hge. by rewrite Ed, transZonalCompare_ge in Hge. }
  revert Hbest. generalize isDiskful. intros d Hbest. destruct d; simpl; [|lia]. specialize (Hbest eq_refl).
  case_bool_decide as Ez; [|repeat case_bool_decide; simpl; lia]. subst z1.
  assert (Hmin : diskfulIn nodes (before ++ r :: rest) z ≤ diskfulIn nodes (before ++ r :: rest) z2).
  { pose proof (zi_zones _ _ _ _ (proj1 HI) z) as Hz. pose proof (zi_zones _ _ _ _ (proj1 HI) z2) as Hz2. simpl in Hz, Hz2.
    destruct (sc_ReplicasByZone sctx !! z) as [sz|] eqn:Esz; [|done].
    destruct (sc_ReplicasByZone sctx !! z2) as [sz2|] eqn:Esz2; [|done].
    rewrite <-(zone_count nodes ids _ (s, sctx) z sz), <-(zone_count nodes ids _ (s, sctx) z2 sz2) by (done || apply HI).
    by eapply Hbest. }
  repeat case_bool_decide; simpl; lia.
Qed.
Lemma placed_inv s' : zone_inv nodes ids (before ++ r' :: rest) (s', Update sctx r' e).
Proof.
  assert (Hid : rvr_ID r' = rvr_ID r) by (unfold rvr_ID; by rewrite (ss_Name _ _ HR)).
  pose proof placed_balanced as HB. pose proof placed_zone as Hpz. pose proof placed_before as Hpb. pose proof z_elem as Hze.
  destruct HI as [[Hn Ht Hids Hty Hz] _]. split; [split|]; simpl in *; try done.
  - rewrite <-Hids, !map_app. simpl. by rewrite Hid.
  - intros r0 [H0|[->|H0]%elem_of_cons]%elem_of_app; [apply Hty; set_solver| |apply Hty; set_solver].
    rewrite Hid, (ss_Type _ _ HR). simpl. apply Hty. set_solver.
  - intros z'. specialize (Hz z'). fold z.
    assert (Hr' : ∀ id, inZone nodes z' r' && (id =? rvr_ID r') = bool_decide (z' = z) && (id =? rvr_ID r)).
    { intros id. unfold inZone. rewrite Hpz, Hid. f_equal. apply bool_decide_ext. naive_solver. }
    assert (Hr : ∀ id, inZone nodes z' r && (id =? rvr_ID r) =
                       bool_decide (zoneOf nodes (rvr_Spec_NodeName r) = Some z) && bool_decide (z' = z) && (id =? rvr_ID r)).
    { intros id. unfold inZone. f_equal. destruct Hpb as [-> | ->]; repeat case_bool_decide; naive_solver. }
    destruct (decide (z' = z)) as [->|Hnz].
    + rewrite lookup_insert_eq. destruct (sc_ReplicasByZone sctx !! z) as [sz|]; [|done].
      destruct Hz as [H1 H2]. split; [done|]. intros id Hvid. simpl. rewrite Contains_Add by (done || apply idFromName_nonneg).
      rewrite H2, !existsb_app by done. simpl. rewrite Hr, Hr', Hid. rewrite (bool_decide_true (z = z)) by done.
      rewrite andb_true_r. generalize (existsb (λ r, inZone nodes z r && (id =? rvr_ID r)) before) (existsb (λ r, inZone nodes z r && (id =? rvr_ID r)) rest).
      intros b1 b2. destruct (id =? rvr_ID r), b1, b2; simpl; by rewrite ?orb_true_r, ?andb_false_r.
    + rewrite lookup_insert_ne by done. destruct (sc_ReplicasByZone sctx !! z'); [|done]. destruct Hz as [H1 H2].
      split; [done|]. intros id Hvid. rewrite H2, !existsb_app by done. simpl. rewrite Hr, Hr'. by rewrite !(bool_decide_false (z' = z)), andb_false_r by done.
Qed.
End step.
Set Default Proof Using "Type".

Lemma same_spec_refl l : Forall2 same_spec l l.
Proof. induction l; by constructor. Qed.
(** A candidate the pipeline of a TransZonal pool can yield. *)
Definition chosen sctx r e : Prop :=
  let isDiskful := bool_decide (rvr_Spec_Type r = ReplicaTypeDiskful) in
  cand_ok (sc_EligibleNodes sctx) (sc_OccupiedNodes sctx) r isDiskful e ∧
  best_zone (transZonalCompare sctx isDiskful) (sc_ReplicasByZone sctx) e.
Lemma chosen_step `{L : !EnvLaws} sctx r s : sc_Topology sctx = TopologyTransZonal →
  step_result same_spec (chosen sctx r) r s sctx (reconcileOneRVRScheduling r (s, sctx)).
Proof.
  intros Ht. apply reconcileOne_step; [apply _|by split|apply Patch_response|apply StatusPatch_response|intros v e H; exact H|].
  pose proof (filterCandidates_ok sctx r (bool_decide (rvr_Spec_Type r = ReplicaTypeDiskful)) s) as Hf.
  pose proof (filterCandidates_best sctx r (bool_decide (rvr_Spec_Type r = ReplicaTypeDiskful)) s Ht) as Hg.
  destruct (filterCandidates sctx r _ s) as [s1 p]. split; [apply Hf|]. apply Forall_and. by split; [apply Hf|].
Qed.
Lemma step_balanced `{L : !EnvLaws} nodes ids before r rest st :
  nodesSorted nodes → Forall (λ n, en_NodeName n ≠ "") nodes → NoDup ids → Forall valid_id ids →
  zone_inv nodes ids (before ++ r :: rest) st →
  let '(st', (r', o')) := reconcileOneRVRScheduling r st in
  balanced nodes (before ++ r' :: rest) ∧ (ShouldReturn o' = false → zone_inv nodes ids (before ++ r' :: rest) st').
Proof.
  intros HS Hne Hd Hv HI. destruct st as [s sctx]. pose proof (chosen_step sctx r s (zi_topology _ _ _ _ (proj1 HI))) as Hstep.
  unfold chosen in Hstep. rewrite (zi_nodes _ _ _ _ (proj1 HI) : sc_EligibleNodes sctx = nodes) in Hstep.
  remember (reconcileOneRVRScheduling r (s, sctx)) as res eqn:Er. clear Er.
  destruct Hstep as [s' r' o Hs HR|e s' r' o [Hc Hb] Ho Hs HR|e s' r' o [Hc Hb] Hs HR].
  - assert (H : zone_inv nodes ids (before ++ r' :: rest) (s', sctx)); [|by split; [apply H|]].
    eapply zone_inv_same; [exact HI| |done|done]. by apply Forall2_app; [|constructor; [done|]]; apply same_spec_refl.
  - split; [by eapply placed_balanced|congruence].
  - split; [by eapply placed_balanced|]. intros _. by eapply placed_inv.
Qed.
Lemma zoneOf_perm nodes nodes' name : nodes ≡ₚ nodes' → NoDup (map en_NodeName nodes) → zoneOf nodes name = zoneOf nodes' name.
Proof.
  intros HP Hd. apply option_eq. intros z. split; intros (n & Hn & <- & Hne & <-)%zoneOf_Some; apply zoneOf_elem; auto.
  - by rewrite <-HP.
  - by rewrite <-HP.
  - by rewrite HP.
Qed.
Lemma diskfulIn_perm nodes nodes' rvrs z : nodes ≡ₚ nodes' → NoDup (map en_NodeName nodes) →
  diskfulIn nodes rvrs z = diskfulIn nodes' rvrs z.
Proof. intros HP Hd. unfold diskfulIn, inZone. apply countb_ext. intros r _. by rewrite (zoneOf_perm nodes nodes'). Qed.
Lemma balanced_perm nodes nodes' rvrs : nodes ≡ₚ nodes' → NoDup (map en_NodeName nodes) → balanced nodes rvrs → balanced nodes' rvrs.
Proof.
  intros HP Hd Hb z1 z2 H1 H2. rewrite <-HP in H1, H2.
  rewrite <-!(diskfulIn_perm nodes nodes') by done. by apply Hb.
Qed.

(** The context is in sync when it is computed. *)
Lemma context_sync rv cfg rsp rvrs attachToNodes s :
  cfg_Topology cfg = TopologyTransZonal → NoDup (map en_NodeName (rsp_EligibleNodes rsp)) →
  NoDup (map rvr_ID rvrs) → Forall valid_id (map rvr_ID rvrs) →
  let sctx := computeSchedulingContext rv cfg rsp rvrs attachToNodes in
  zone_sync (sc_EligibleNodes sctx) (map rvr_ID rvrs) rvrs (s, sctx).
Proof.
  intros Ht Hd Hids Hv sctx. rewrite Forall_forall in Hv. split; try done.
  - intros r Hr. simpl. assert (Hid : valid_id (rvr_ID r)) by (by apply Hv, list_elem_of_fmap_2).
    rewrite Contains_fold by (done || (apply Forall_forall; intros; apply idFromName_nonneg)).
    rewrite Contains_empty by done. simpl. by apply existsb_unique.
  - intros z. apply computeReplicasByZone_lookup. by apply sort_by_strict; [apply _|].
Qed.

(** C30: TransZonal scheduling keeps the zones balanced.  If no zone of the storage pool has two
    Diskful replicas more than another one, then this still holds for the replicas as one
    reconciliation leaves them, whether it placed all of them or stopped at an error, for any map
    iteration order and any answers of the scheduler extender. *)
Theorem transZonal_balanced `{L : !EnvLaws} rv cfg rsp rvrs attachToNodes w :
  cfg_Topology cfg = TopologyTransZonal →
  NoDup (map en_NodeName (rsp_EligibleNodes rsp)) → Forall (λ n, en_NodeName n ≠ "") (rsp_EligibleNodes rsp) →
  NoDup (map rvr_ID rvrs) → Forall valid_id (map rvr_ID rvrs) →
  balanced (rsp_EligibleNodes rsp) rvrs →
  let sctx := computeSchedulingContext rv cfg rsp rvrs attachToNodes in
  balanced (rsp_EligibleNodes rsp) (scheduleReplicas sctx rvrs {| io_world := w; io_sent := [] |}).2.1.
Proof.
  intros Ht Hd Hne Hids Hv Hb sctx. set (nodes := sc_EligibleNodes sctx).
  assert (HP : nodes ≡ₚ rsp_EligibleNodes rsp) by apply sort_by_perm.
  assert (HS : nodesSorted nodes) by (by apply sort_by_strict; [apply _|]).
  apply (balanced_perm nodes); [done|by rewrite HP|].
  pose proof (scheduleReplicas_inv same_spec (λ _ _, ltac:(by split)) Patch_response StatusPatch_response sctx
    (zone_inv nodes (map rvr_ID rvrs)) (λ l _, balanced nodes l) rvrs {| io_world := w; io_sent := [] |}) as H.
  destruct (scheduleReplicas sctx rvrs _) as [st' [rvrs' o]]. apply H; clear H.
  - by intros l st [_ H].
  - intros. by eapply zone_inv_same.
  - intros before r rest st _ HI. apply step_balanced; try done. by rewrite HP.
  - split; [by apply context_sync|]. by apply (balanced_perm (rsp_EligibleNodes rsp)).
Qed.

(** a Diskful replica that already has a node in a TransZonal pool but no volume group is not
    placed while another zone has fewer Diskful replicas than its own, although its node is ready and
    only the volume group is to be chosen: the replica counts in its own zone, the zone filter keeps
    the zones with the fewest Diskful replicas, and the assigned-node filter keeps only its own node. *)
Theorem partial_transzonal_unplaced `{L : !EnvLaws} rv cfg rsp rvrs attachToNodes s r n z :
  cfg_Topology cfg = TopologyTransZonal →
  NoDup (map en_NodeName (rsp_EligibleNodes rsp)) → NoDup (map rvr_ID rvrs) → Forall valid_id (map rvr_ID rvrs) →
  r ∈ rvrs → rvr_Spec_Type r = ReplicaTypeDiskful →
  n ∈ rsp_EligibleNodes rsp → rvr_Spec_NodeName r = en_NodeName n → en_NodeName n ≠ "" →
  z ∈ map en_ZoneName (rsp_EligibleNodes rsp) →
  diskfulIn (rsp_EligibleNodes rsp) rvrs z < diskfulIn (rsp_EligibleNodes rsp) rvrs (en_ZoneName n) →
  let sctx := computeSchedulingContext rv cfg rsp rvrs attachToNodes in
  let '((s', sctx'), _) := reconcileOneRVRScheduling r (s, sctx) in io_sent s' = io_sent s ∧ sctx' = sctx.
Proof.
  intros Ht Hd Hids Hv Hr Hty Hn Hnn Hne Hz Hlt sctx. set (nodes := sc_EligibleNodes sctx).
  assert (HP : nodes ≡ₚ rsp_EligibleNodes rsp) by apply sort_by_perm.
  pose proof (context_sync rv cfg rsp rvrs attachToNodes s Ht Hd Hids Hv) as Hsync. fold sctx nodes in Hsync.
  pose proof (chosen_step sctx r s Ht) as Hstep.
  remember (reconcileOneRVRScheduling r (s, sctx)) as res eqn:Er. clear Er.
  assert (Hno : ∀ e, ¬ chosen sctx r e); [|by destruct Hstep as [s' r' o Hs _|e s' r' o Hch|e s' r' o Hch]; [|destruct (Hno e)..]].
  intros e [(Hin & _ & _ & Hnode) Hbest]. fold nodes in Hin.
  rewrite (proj2 (String.eqb_neq _ _)) in Hnode by congruence.
  assert (Hze : en_ZoneName (ce_Node e) = en_ZoneName n).
  { assert (Hn' : n ∈ nodes) by (by rewrite HP). assert (Hd' : NoDup (map en_NodeName nodes)) by (by rewrite HP).
    pose proof (zoneOf_elem nodes n Hd' Hn' Hne) as H1.
    pose proof (zoneOf_elem nodes _ Hd' Hin ltac:(congruence)) as H2. congruence. }
  assert (Hzn : en_ZoneName n ∈ map en_ZoneName nodes) by (rewrite HP; by apply list_elem_of_fmap_2). rewrite <-HP in Hz.
  pose proof (zi_zones _ _ _ _ Hsync (en_ZoneName n)) as H1. pose proof (zi_zones _ _ _ _ Hsync z) as H2. cbn [snd] in H1, H2.
  destruct (sc_ReplicasByZone sctx !! en_ZoneName n) as [s1|] eqn:E1; [|done].
  destruct (sc_ReplicasByZone sctx !! z) as [s2|] eqn:E2; [|done].
  unfold best_zone in Hbest. rewrite Hze in Hbest. pose proof (Hbest s1 E1 z s2 E2) as Hge.
  rewrite bool_decide_true, transZonalCompare_ge in Hge by done.
  cbv beta iota in Hge. pose proof (zone_count nodes _ rvrs _ (en_ZoneName n) s1 Hsync Hids Hv E1) as C1.
  pose proof (zone_count nodes _ rvrs _ z s2 Hsync Hids Hv E2) as C2. cbn [snd] in C1, C2.
  rewrite <-!(diskfulIn_perm nodes (rsp_EligibleNodes rsp)) in Hlt by (done || by rewrite HP). fold nodes in Hge, C1, C2. rewrite C1, C2 in Hge. apply (Zle_not_lt _ _ Hge), Hlt.
Qed.
End balance.
