(* ===== verification/Dmte.v ===== *)
(** * dmte: the generic datamesh transition engine

    Source: images/controller/internal/controllers/rv_controller/dmte (types.go, step.go, plan.go,
    registry.go, message.go, adapt.go, engine.go).

    The Go package is generic in the global context [G], the replica context [R] (a pointer type;
    nil is [None]) and the context provider.  Here [G] is the value of everything reachable from
    the global context, threaded through the callbacks, and [R] is a replica context pointer.
    Transition pointers are addresses ([nat]) in a flat memory of transitions ([tmem]), so the
    pointers kept by the shadow index, the replica slots and the tracker alias the same cells. *)

From Stdlib Require Import ZArith Lia String Ascii.
From stdpp Require Import base list numbers strings option.
From S2P Require Import Prelude IdSet DrbdSize Api.
Import v1alpha1.

(** Memory of transitions: the backing array of the caller's slice, then heap cells. *)
Notation tmem := (list Transition) (only parsing).
Notation ptr := nat (only parsing).

(** Opaque supplementary data ([any] in Go); only strings are ever passed. *)
Notation details := (option string).

Module dmte.

(** ** types.go *)
Notation PlanID := string (only parsing).

Inductive Scope := GlobalScope | ReplicaScope.
#[export] Instance Scope_eq_dec : EqDecision Scope.
Proof. solve_decision. Defined.

(** uint8 index of a replica slot. *)
Notation ReplicaSlotID := nat (only parsing).
Definition MaxReplicaSlots : nat := 2.

Record GuardResult := { gr_Blocked : bool; gr_Message : string; gr_Details : details }.
Definition zeroGuardResult : GuardResult :=
  {| gr_Blocked := false; gr_Message := ""; gr_Details := None |}.

Record ConfirmResult := { MustConfirm : Z; Confirmed : Z }.

Section engine.
Context {G R : Type}.

(** Replica context methods and the context provider. *)
Class ContextProvider := {
  cp_Replica : G → Z → outcome (option R);
  rctx_ID : G → R → Z;
  rctx_Name : G → R → string;
  rctx_Exists : G → R → bool;
  rctx_Generation : G → R → outcome Z;
  rctx_Conditions : G → R → outcome (list Condition);
}.

Record ReplicaSlotAccessor := {
  GetActiveTransition : G → R → option ptr;
  SetActiveTransition : G → R → option ptr → G;
  SetStatus : G → R → string → details → G;
}.

(** Add receives the pointer and the cell it points to. *)
Record Tracker := {
  trk_Add : ptr → Transition → G → outcome G;
  trk_Remove : Transition → G → outcome G;
  trk_CanAdmit : Transition → G → outcome (bool * string * details);
}.

Record DispatchDecision := {
  d_replicaCtx : option R;
  d_transitionType : TransitionType; d_planID : PlanID;
  d_replicaSlot : ReplicaSlotID; d_message : string; d_details : details;
}.
Definition DispatchReplica (rctx : R) (tt : TransitionType) (planID : PlanID) : DispatchDecision :=
  {| d_replicaCtx := Some rctx; d_transitionType := tt; d_planID := planID;
     d_replicaSlot := 0; d_message := ""; d_details := None |}.
Definition DispatchGlobal (tt : TransitionType) (planID : PlanID) : DispatchDecision :=
  {| d_replicaCtx := None; d_transitionType := tt; d_planID := planID;
     d_replicaSlot := 0; d_message := ""; d_details := None |}.
Definition NoDispatch (rctx : R) (slot : ReplicaSlotID) (msg : string) (det : details) :
    DispatchDecision :=
  {| d_replicaCtx := Some rctx; d_transitionType := TransitionTypeOther ""; d_planID := "";
     d_replicaSlot := slot; d_message := msg; d_details := det |}.

(** A push iterator: the engine handles each decision before the dispatcher resumes, so the
    continuation observes the state the engine left. *)
Inductive decisions :=
| Done
| Yield (d : DispatchDecision) (resume : tmem → G → outcome decisions).
Definition DispatchFunc : Type := tmem → G → outcome decisions.

Definition ReplicaGuardFunc : Type := tmem → G → option R → outcome (GuardResult * G).
Definition GlobalGuardFunc : Type := tmem → G → outcome (GuardResult * G).
Definition ReplicaOnCompleteFunc : Type := tmem → G → option R → outcome G.
Definition GlobalOnCompleteFunc : Type := tmem → G → outcome G.
Definition ReplicaInitFunc : Type := G → option R → Transition → outcome Transition.
Definition GlobalInitFunc : Type := G → Transition → outcome Transition.
Definition ReplicaApplyFunc : Type := tmem → G → option R → outcome (bool * G).
Definition GlobalApplyFunc : Type := tmem → G → outcome (bool * G).
Definition ReplicaConfirmFunc : Type := tmem → G → option R → Z → outcome ConfirmResult.
Definition GlobalConfirmFunc : Type := tmem → G → Z → outcome ConfirmResult.
Definition SkipErrorFunc : Type := G → R → Z → Condition → bool.

(** ** step.go *)
Record step := {
  st_name : string; st_scope : Scope;
  st_globalApply : option GlobalApplyFunc;
  st_globalConfirm : option GlobalConfirmFunc;
  st_globalOnComplete : option GlobalOnCompleteFunc;
  st_replicaApply : option ReplicaApplyFunc;
  st_replicaConfirm : option ReplicaConfirmFunc;
  st_replicaOnComplete : option ReplicaOnCompleteFunc;
  st_details : details;
  st_diagnosticConditionTypes : list string;
  st_diagnosticSkipError : option SkipErrorFunc;
}.

Definition step_apply (s : step) (mem : tmem) (g : G) (rctx : option R) : outcome (bool * G) :=
  match st_scope s with
  | GlobalScope => fn ← deref (st_globalApply s); fn mem g
  | ReplicaScope => fn ← deref (st_replicaApply s); fn mem g rctx
  end.

Definition step_confirm (s : step) (mem : tmem) (g : G) (rctx : option R) (stepRevision : Z) :
    outcome ConfirmResult :=
  match st_scope s with
  | GlobalScope => fn ← deref (st_globalConfirm s); fn mem g stepRevision
  | ReplicaScope => fn ← deref (st_replicaConfirm s); fn mem g rctx stepRevision
  end.

Definition step_callOnComplete (s : step) (mem : tmem) (g : G) (rctx : option R) : outcome G :=
  match st_scope s with
  | GlobalScope =>
      match st_globalOnComplete s with Some fn => fn mem g | None => Ok g end
  | ReplicaScope =>
      match st_replicaOnComplete s with Some fn => fn mem g rctx | None => Ok g end
  end.

Record ReplicaStepBuilder := {
  rsb_name : string; rsb_applyFn : ReplicaApplyFunc; rsb_confirmFn : ReplicaConfirmFunc;
  rsb_onCompleteFn : option ReplicaOnCompleteFunc; rsb_details : details;
  rsb_diagnosticConditionTypes : list string; rsb_diagnosticSkipError : option SkipErrorFunc;
}.
Definition ReplicaStep (name : string) (apply : option ReplicaApplyFunc)
    (confirm : option ReplicaConfirmFunc) : outcome ReplicaStepBuilder :=
  if String.eqb name "" then Panic "dmte.ReplicaStep: name must not be empty" else
  match apply, confirm with
  | None, _ => Panic "dmte.ReplicaStep: apply must not be nil"
  | _, None => Panic "dmte.ReplicaStep: confirm must not be nil"
  | Some a, Some c =>
      Ok {| rsb_name := name; rsb_applyFn := a; rsb_confirmFn := c; rsb_onCompleteFn := None;
            rsb_details := None; rsb_diagnosticConditionTypes := [];
            rsb_diagnosticSkipError := None |}
  end.
Definition rsb_Details (d : details) (b : ReplicaStepBuilder) : ReplicaStepBuilder :=
  {| rsb_name := rsb_name b; rsb_applyFn := rsb_applyFn b; rsb_confirmFn := rsb_confirmFn b;
     rsb_onCompleteFn := rsb_onCompleteFn b; rsb_details := d;
     rsb_diagnosticConditionTypes := rsb_diagnosticConditionTypes b;
     rsb_diagnosticSkipError := rsb_diagnosticSkipError b |}.
Definition rsb_DiagnosticConditions (types : list string) (b : ReplicaStepBuilder) :
    ReplicaStepBuilder :=
  {| rsb_name := rsb_name b; rsb_applyFn := rsb_applyFn b; rsb_confirmFn := rsb_confirmFn b;
     rsb_onCompleteFn := rsb_onCompleteFn b; rsb_details := rsb_details b;
     rsb_diagnosticConditionTypes := types;
     rsb_diagnosticSkipError := rsb_diagnosticSkipError b |}.
Definition rsb_DiagnosticSkipError (fn : SkipErrorFunc) (b : ReplicaStepBuilder) :
    ReplicaStepBuilder :=
  {| rsb_name := rsb_name b; rsb_applyFn := rsb_applyFn b; rsb_confirmFn := rsb_confirmFn b;
     rsb_onCompleteFn := rsb_onCompleteFn b; rsb_details := rsb_details b;
     rsb_diagnosticConditionTypes := rsb_diagnosticConditionTypes b;
     rsb_diagnosticSkipError := Some fn |}.
Definition rsb_OnComplete (fn : ReplicaOnCompleteFunc) (b : ReplicaStepBuilder) :
    ReplicaStepBuilder :=
  {| rsb_name := rsb_name b; rsb_applyFn := rsb_applyFn b; rsb_confirmFn := rsb_confirmFn b;
     rsb_onCompleteFn := Some fn; rsb_details := rsb_details b;
     rsb_diagnosticConditionTypes := rsb_diagnosticConditionTypes b;
     rsb_diagnosticSkipError := rsb_diagnosticSkipError b |}.
Definition rsb_build (b : ReplicaStepBuilder) : step :=
  {| st_name := rsb_name b; st_scope := ReplicaScope;
     st_globalApply := None; st_globalConfirm := None; st_globalOnComplete := None;
     st_replicaApply := Some (rsb_applyFn b); st_replicaConfirm := Some (rsb_confirmFn b);
     st_replicaOnComplete := rsb_onCompleteFn b; st_details := rsb_details b;
     st_diagnosticConditionTypes := rsb_diagnosticConditionTypes b;
     st_diagnosticSkipError := rsb_diagnosticSkipError b |}.

Record GlobalStepBuilder := {
  gsb_name : string; gsb_applyFn : GlobalApplyFunc; gsb_confirmFn : GlobalConfirmFunc;
  gsb_onCompleteFn : option GlobalOnCompleteFunc; gsb_details : details;
  gsb_diagnosticConditionTypes : list string;
}.
Definition GlobalStep (name : string) (apply : option GlobalApplyFunc)
    (confirm : option GlobalConfirmFunc) : outcome GlobalStepBuilder :=
  if String.eqb name "" then Panic "dmte.GlobalStep: name must not be empty" else
  match apply, confirm with
  | None, _ => Panic "dmte.GlobalStep: apply must not be nil"
  | _, None => Panic "dmte.GlobalStep: confirm must not be nil"
  | Some a, Some c =>
      Ok {| gsb_name := name; gsb_applyFn := a; gsb_confirmFn := c; gsb_onCompleteFn := None;
            gsb_details := None; gsb_diagnosticConditionTypes := [] |}
  end.
Definition gsb_Details (d : details) (b : GlobalStepBuilder) : GlobalStepBuilder :=
  {| gsb_name := gsb_name b; gsb_applyFn := gsb_applyFn b; gsb_confirmFn := gsb_confirmFn b;
     gsb_onCompleteFn := gsb_onCompleteFn b; gsb_details := d;
     gsb_diagnosticConditionTypes := gsb_diagnosticConditionTypes b |}.
Definition gsb_DiagnosticConditions (types : list string) (b : GlobalStepBuilder) :
    GlobalStepBuilder :=
  {| gsb_name := gsb_name b; gsb_applyFn := gsb_applyFn b; gsb_confirmFn := gsb_confirmFn b;
     gsb_onCompleteFn := gsb_onCompleteFn b; gsb_details := gsb_details b;
     gsb_diagnosticConditionTypes := types |}.
Definition gsb_OnComplete (fn : GlobalOnCompleteFunc) (b : GlobalStepBuilder) :
    GlobalStepBuilder :=
  {| gsb_name := gsb_name b; gsb_applyFn := gsb_applyFn b; gsb_confirmFn := gsb_confirmFn b;
     gsb_onCompleteFn := Some fn; gsb_details := gsb_details b;
     gsb_diagnosticConditionTypes := gsb_diagnosticConditionTypes b |}.
Definition buildGlobalStep (b : GlobalStepBuilder) : step :=
  {| st_name := gsb_name b; st_scope := GlobalScope;
     st_globalApply := Some (gsb_applyFn b); st_globalConfirm := Some (gsb_confirmFn b);
     st_globalOnComplete := gsb_onCompleteFn b;
     st_replicaApply := None; st_replicaConfirm := None; st_replicaOnComplete := None;
     st_details := gsb_details b;
     st_diagnosticConditionTypes := gsb_diagnosticConditionTypes b;
     st_diagnosticSkipError := None |}.

(** ** plan.go *)
Record plan := {
  pl_scope : Scope; pl_transitionType : TransitionType; pl_group : TransitionGroup;
  pl_displayName : string; pl_slot : ReplicaSlotID; pl_cancelActiveOnCreate : bool;
  pl_replicaGuards : list ReplicaGuardFunc; pl_globalGuards : list GlobalGuardFunc;
  pl_replicaInit : option ReplicaInitFunc; pl_globalInit : option GlobalInitFunc;
  pl_steps : list step;
  pl_replicaOnComplete : option ReplicaOnCompleteFunc;
  pl_globalOnComplete : option GlobalOnCompleteFunc;
}.

Definition plan_callOnComplete (p : plan) (mem : tmem) (g : G) (rctx : option R) : outcome G :=
  match pl_scope p with
  | GlobalScope => match pl_globalOnComplete p with Some fn => fn mem g | None => Ok g end
  | ReplicaScope => match pl_replicaOnComplete p with Some fn => fn mem g rctx | None => Ok g end
  end.

Definition plan_callInit (p : plan) (g : G) (rctx : option R) (t : Transition) :
    outcome Transition :=
  match pl_scope p with
  | GlobalScope => match pl_globalInit p with Some fn => fn g t | None => Ok t end
  | ReplicaScope => match pl_replicaInit p with Some fn => fn g rctx t | None => Ok t end
  end.

(** The first blocking guard wins; a guard may fill caches of the global context. *)
Fixpoint runGuards (guards : list (G → outcome (GuardResult * G))) (g : G) :
    outcome (GuardResult * G) :=
  match guards with
  | [] => Ok (zeroGuardResult, g)
  | guard :: guards =>
      '(result, g) ← guard g;
      if gr_Blocked result then Ok (result, g) else runGuards guards g
  end.
Definition plan_evaluateGuards (p : plan) (mem : tmem) (g : G) (rctx : option R) :
    outcome (GuardResult * G) :=
  match pl_scope p with
  | GlobalScope => runGuards (map (λ f g, f mem g) (pl_globalGuards p)) g
  | ReplicaScope => runGuards (map (λ f g, f mem g rctx) (pl_replicaGuards p)) g
  end.

(** planIDRegexp: [^[a-z0-9]+(-[a-z0-9]+)*/v[1-9][0-9]*$]. *)
Definition isAlnum (c : ascii) : bool :=
  let n := nat_of_ascii c in ((97 <=? n) && (n <=? 122) || (48 <=? n) && (n <=? 57))%nat.
Definition isDigitChar (c : ascii) : bool :=
  let n := nat_of_ascii c in ((48 <=? n) && (n <=? 57))%nat.
Fixpoint allDigits (s : string) : bool :=
  match s with EmptyString => true | String c s => isDigitChar c && allDigits s end.
Definition matchVersion (s : string) : bool :=
  match s with
  | String v (String d s) =>
      Ascii.eqb v "v" && isDigitChar d && negb (Ascii.eqb d "0") && allDigits s
  | _ => false
  end.
(** [inWord]: the previous character was alphanumeric. *)
Fixpoint matchName (inWord : bool) (s : string) : bool :=
  match s with
  | EmptyString => false
  | String c s =>
      if isAlnum c then matchName true s
      else if Ascii.eqb c "-" then inWord && matchName false s
      else Ascii.eqb c "/" && inWord && matchVersion s
  end.
Definition planIDRegexp_MatchString (s : string) : bool := matchName false s.

(** ** registry.go *)
Definition registryKey : Type := TransitionType * PlanID.
Record Registry := {
  reg_replicaSlotAccessors : list (option ReplicaSlotAccessor);
  reg_plans : list (registryKey * plan);
}.
Definition NewRegistry : Registry :=
  {| reg_replicaSlotAccessors := replicate MaxReplicaSlots None; reg_plans := [] |}.

Definition RegisterReplicaSlot (id : ReplicaSlotID) (accessor : option ReplicaSlotAccessor)
    (reg : Registry) : outcome Registry :=
  match accessor with
  | None => Panic "dmte.Registry.RegisterReplicaSlot: accessor must not be nil"
  | Some a =>
      if (MaxReplicaSlots <=? id)%nat then
        Panic ("dmte.Registry.RegisterReplicaSlot: slot ID " +:+ itoa (Z.of_nat id)
               +:+ " >= MaxReplicaSlots")
      else
        cur ← index (reg_replicaSlotAccessors reg) id;
        match cur with
        | Some _ => Panic ("dmte.Registry.RegisterReplicaSlot: slot " +:+ itoa (Z.of_nat id)
                           +:+ " already registered")
        | None => Ok {| reg_replicaSlotAccessors := <[id := Some a]> (reg_replicaSlotAccessors reg);
                        reg_plans := reg_plans reg |}
        end
  end.

Definition reg_get (reg : Registry) (tt : TransitionType) (id : PlanID) : option plan :=
  snd <$> List.find (λ e, bool_decide (e.1 = (tt, id))) (reg_plans reg).

Definition replicaSlotAccessor (reg : Registry) (id : ReplicaSlotID) : option ReplicaSlotAccessor :=
  if (MaxReplicaSlots <=? id)%nat then None
  else default None (reg_replicaSlotAccessors reg !! id).

Definition PlanStepCount (reg : Registry) (tt : TransitionType) (planID : PlanID) : Z :=
  match reg_get reg tt planID with
  | None => 0
  | Some p => Z.of_nat (length (pl_steps p))
  end.

Definition MaxPlanStepCount (reg : Registry) (tt : TransitionType) : Z :=
  foldl (λ m e, if bool_decide (e.1.1 = tt) && (m <? Z.of_nat (length (pl_steps e.2)))
                then Z.of_nat (length (pl_steps e.2)) else m) 0 (reg_plans reg).

Record RegisteredTransition := {
  rt_transitionType : TransitionType; rt_scope : Scope; rt_slot : ReplicaSlotID }.
Definition ReplicaTransition (tt : TransitionType) (slot : ReplicaSlotID) : RegisteredTransition :=
  {| rt_transitionType := tt; rt_scope := ReplicaScope; rt_slot := slot |}.
Definition GlobalTransition (tt : TransitionType) : RegisteredTransition :=
  {| rt_transitionType := tt; rt_scope := GlobalScope; rt_slot := 0 |}.

(** *** PlanBuilder: the arguments typed [any] in Go are tagged values, [..Other] for any other
    dynamic type. *)
Inductive rawStep :=
| RawReplicaStep (b : ReplicaStepBuilder) | RawGlobalStep (b : GlobalStepBuilder) | RawStepOther.
Inductive rawGuard :=
| RawReplicaGuard (f : ReplicaGuardFunc) | RawGlobalGuard (f : GlobalGuardFunc) | RawGuardOther.
Inductive rawInit :=
| RawReplicaInit (f : ReplicaInitFunc) | RawGlobalInit (f : GlobalInitFunc) | RawInitOther.
Inductive rawOnComplete :=
| RawReplicaOnComplete (f : ReplicaOnCompleteFunc) | RawGlobalOnComplete (f : GlobalOnCompleteFunc)
| RawOnCompleteOther.

(** [pb_group] is [""] until Group is called. *)
Record PlanBuilder := {
  pb_key : registryKey; pb_scope : Scope; pb_slot : ReplicaSlotID;
  pb_group : TransitionGroup; pb_displayName : string; pb_cancelActiveOnCreate : bool;
  pb_rawSteps : list rawStep; pb_rawGuards : list rawGuard;
  pb_rawInit : option rawInit; pb_rawOnComplete : option rawOnComplete;
}.
Definition Plan (rt : RegisteredTransition) (id : PlanID) : PlanBuilder :=
  {| pb_key := (rt_transitionType rt, id); pb_scope := rt_scope rt; pb_slot := rt_slot rt;
     pb_group := GroupOther ""; pb_displayName := ""; pb_cancelActiveOnCreate := false;
     pb_rawSteps := []; pb_rawGuards := []; pb_rawInit := None; pb_rawOnComplete := None |}.
Definition pb_Group (grp : TransitionGroup) (b : PlanBuilder) : PlanBuilder :=
  {| pb_key := pb_key b; pb_scope := pb_scope b; pb_slot := pb_slot b; pb_group := grp;
     pb_displayName := pb_displayName b; pb_cancelActiveOnCreate := pb_cancelActiveOnCreate b;
     pb_rawSteps := pb_rawSteps b; pb_rawGuards := pb_rawGuards b;
     pb_rawInit := pb_rawInit b; pb_rawOnComplete := pb_rawOnComplete b |}.
Definition pb_DisplayName (name : string) (b : PlanBuilder) : PlanBuilder :=
  {| pb_key := pb_key b; pb_scope := pb_scope b; pb_slot := pb_slot b; pb_group := pb_group b;
     pb_displayName := name; pb_cancelActiveOnCreate := pb_cancelActiveOnCreate b;
     pb_rawSteps := pb_rawSteps b; pb_rawGuards := pb_rawGuards b;
     pb_rawInit := pb_rawInit b; pb_rawOnComplete := pb_rawOnComplete b |}.
Definition pb_Guards (guards : list rawGuard) (b : PlanBuilder) : PlanBuilder :=
  {| pb_key := pb_key b; pb_scope := pb_scope b; pb_slot := pb_slot b; pb_group := pb_group b;
     pb_displayName := pb_displayName b; pb_cancelActiveOnCreate := pb_cancelActiveOnCreate b;
     pb_rawSteps := pb_rawSteps b; pb_rawGuards := pb_rawGuards b ++ guards;
     pb_rawInit := pb_rawInit b; pb_rawOnComplete := pb_rawOnComplete b |}.
Definition pb_Steps (steps : list rawStep) (b : PlanBuilder) : PlanBuilder :=
  {| pb_key := pb_key b; pb_scope := pb_scope b; pb_slot := pb_slot b; pb_group := pb_group b;
     pb_displayName := pb_displayName b; pb_cancelActiveOnCreate := pb_cancelActiveOnCreate b;
     pb_rawSteps := pb_rawSteps b ++ steps; pb_rawGuards := pb_rawGuards b;
     pb_rawInit := pb_rawInit b; pb_rawOnComplete := pb_rawOnComplete b |}.
Definition pb_OnComplete (fn : rawOnComplete) (b : PlanBuilder) : PlanBuilder :=
  {| pb_key := pb_key b; pb_scope := pb_scope b; pb_slot := pb_slot b; pb_group := pb_group b;
     pb_displayName := pb_displayName b; pb_cancelActiveOnCreate := pb_cancelActiveOnCreate b;
     pb_rawSteps := pb_rawSteps b; pb_rawGuards := pb_rawGuards b;
     pb_rawInit := pb_rawInit b; pb_rawOnComplete := Some fn |}.
Definition pb_Init (fn : rawInit) (b : PlanBuilder) : PlanBuilder :=
  {| pb_key := pb_key b; pb_scope := pb_scope b; pb_slot := pb_slot b; pb_group := pb_group b;
     pb_displayName := pb_displayName b; pb_cancelActiveOnCreate := pb_cancelActiveOnCreate b;
     pb_rawSteps := pb_rawSteps b; pb_rawGuards := pb_rawGuards b;
     pb_rawInit := Some fn; pb_rawOnComplete := pb_rawOnComplete b |}.
Definition pb_CancelActiveOnCreate (v : bool) (b : PlanBuilder) : PlanBuilder :=
  {| pb_key := pb_key b; pb_scope := pb_scope b; pb_slot := pb_slot b; pb_group := pb_group b;
     pb_displayName := pb_displayName b; pb_cancelActiveOnCreate := v;
     pb_rawSteps := pb_rawSteps b; pb_rawGuards := pb_rawGuards b;
     pb_rawInit := pb_rawInit b; pb_rawOnComplete := pb_rawOnComplete b |}.

Fixpoint buildSteps (id : PlanID) (sc : Scope) (i : Z) (raws : list rawStep) : outcome (list step) :=
  match raws with
  | [] => Ok []
  | raw :: raws =>
      s ← match raw with
          | RawReplicaStep b =>
              if bool_decide (sc = GlobalScope) then
                Panic ("dmte.PlanBuilder.Build: cannot add ReplicaStep to a global plan " +:+ id)
              else Ok (rsb_build b)
          | RawGlobalStep b => Ok (buildGlobalStep b)
          | RawStepOther =>
              Panic ("dmte.PlanBuilder.Build: unsupported step type at index " +:+ itoa i
                     +:+ " for plan " +:+ id)
          end;
      l ← buildSteps id sc (i + 1) raws; Ok (s :: l)
  end.
Fixpoint buildReplicaGuards (id : PlanID) (i : Z) (raws : list rawGuard) :
    outcome (list ReplicaGuardFunc) :=
  match raws with
  | [] => Ok []
  | RawReplicaGuard f :: raws => l ← buildReplicaGuards id (i + 1) raws; Ok (f :: l)
  | _ => Panic ("dmte.PlanBuilder.Build: guard at index " +:+ itoa i
                +:+ " is not ReplicaGuardFunc for replica plan " +:+ id)
  end.
Fixpoint buildGlobalGuards (id : PlanID) (i : Z) (raws : list rawGuard) :
    outcome (list GlobalGuardFunc) :=
  match raws with
  | [] => Ok []
  | RawGlobalGuard f :: raws => l ← buildGlobalGuards id (i + 1) raws; Ok (f :: l)
  | _ => Panic ("dmte.PlanBuilder.Build: guard at index " +:+ itoa i
                +:+ " is not GlobalGuardFunc for global plan " +:+ id)
  end.

Definition Build (b : PlanBuilder) (reg : Registry) : outcome Registry :=
  let id := (pb_key b).2 in
  if negb (planIDRegexp_MatchString id) then
    Panic ("dmte.PlanBuilder.Build: invalid PlanID format: " +:+ id
           +:+ " (must be {name}/v{N}, e.g. access/v1)")
  else if bool_decide (pb_group b = GroupOther "") then
    Panic ("dmte.PlanBuilder.Build: Group is required for plan " +:+ id)
  else if bool_decide (pb_rawSteps b = []) then
    Panic ("dmte.PlanBuilder.Build: no steps added for plan " +:+ id)
  else
    steps ← buildSteps id (pb_scope b) 0 (pb_rawSteps b);
    '(rguards, gguards) ← match pb_scope b with
      | ReplicaScope => l ← buildReplicaGuards id 0 (pb_rawGuards b); Ok (l, [])
      | GlobalScope => l ← buildGlobalGuards id 0 (pb_rawGuards b); Ok ([], l)
      end;
    '(rinit, ginit) ← match pb_rawInit b, pb_scope b with
      | None, _ => Ok (None, None)
      | Some (RawReplicaInit f), ReplicaScope => Ok (Some f, None)
      | Some (RawGlobalInit f), GlobalScope => Ok (None, Some f)
      | _, ReplicaScope => Panic ("dmte.PlanBuilder.Build: Init must be func(G, R, *Transition) for replica plan " +:+ id)
      | _, GlobalScope => Panic ("dmte.PlanBuilder.Build: Init must be func(G, *Transition) for global plan " +:+ id)
      end;
    '(rdone, gdone) ← match pb_rawOnComplete b, pb_scope b with
      | None, _ => Ok (None, None)
      | Some (RawReplicaOnComplete f), ReplicaScope => Ok (Some f, None)
      | Some (RawGlobalOnComplete f), GlobalScope => Ok (None, Some f)
      | _, ReplicaScope => Panic ("dmte.PlanBuilder.Build: OnComplete must be func(G, R) for replica plan " +:+ id)
      | _, GlobalScope => Panic ("dmte.PlanBuilder.Build: OnComplete must be func(G) for global plan " +:+ id)
      end;
    if pb_cancelActiveOnCreate b && bool_decide (pb_scope b = GlobalScope) then
      Panic ("dmte.PlanBuilder.Build: CancelActiveOnCreate is only valid for replica plans, not global plan " +:+ id)
    else if decide (is_Some (reg_get reg (pb_key b).1 id)) then
      Panic ("dmte.PlanBuilder.Build: duplicate plan: (" +:+ TransitionType_String (pb_key b).1
             +:+ ", " +:+ id +:+ ")")
    else
      Ok {| reg_replicaSlotAccessors := reg_replicaSlotAccessors reg;
            reg_plans := reg_plans reg ++ [(pb_key b,
              {| pl_scope := pb_scope b; pl_transitionType := (pb_key b).1;
                 pl_group := pb_group b; pl_displayName := pb_displayName b;
                 pl_slot := pb_slot b; pl_cancelActiveOnCreate := pb_cancelActiveOnCreate b;
                 pl_replicaGuards := rguards; pl_globalGuards := gguards;
                 pl_replicaInit := rinit; pl_globalInit := ginit; pl_steps := steps;
                 pl_replicaOnComplete := rdone; pl_globalOnComplete := gdone |})] |}.

(** ** adapt.go *)
Definition AdaptGlobalApply (fn : GlobalApplyFunc) : ReplicaApplyFunc := λ mem g _, fn mem g.
Definition AdaptGlobalConfirm (fn : GlobalConfirmFunc) : ReplicaConfirmFunc :=
  λ mem g _ rev, fn mem g rev.
Definition AdaptGlobalOnComplete (fn : GlobalOnCompleteFunc) : ReplicaOnCompleteFunc :=
  λ mem g _, fn mem g.
Definition AdaptApplyToOnComplete (fn : GlobalApplyFunc) : GlobalOnCompleteFunc :=
  λ mem g, '(_, g) ← fn mem g; Ok g.
Fixpoint ComposeGlobalApply (fns : list GlobalApplyFunc) : GlobalApplyFunc := λ mem g,
  match fns with
  | [] => Ok (false, g)
  | fn :: fns =>
      '(c, g) ← fn mem g; '(changed, g) ← ComposeGlobalApply fns mem g; Ok (c || changed, g)
  end.
Fixpoint ComposeReplicaApply (fns : list ReplicaApplyFunc) : ReplicaApplyFunc := λ mem g rctx,
  match fns with
  | [] => Ok (false, g)
  | fn :: fns =>
      '(c, g) ← fn mem g rctx; '(changed, g) ← ComposeReplicaApply fns mem g rctx;
      Ok (c || changed, g)
  end.
(** SetChanged: the new value and whether it differs. *)
Definition SetChanged {T} `{EqDecision T} (dst val : T) : bool * T :=
  if decide (dst = val) then (false, dst) else (true, val).

(** ** message.go *)
Definition findCondition (conditions : list Condition) (condType : string) : option Condition :=
  List.find (λ c, String.eqb (c_Type c) condType) conditions.

Definition composeProgressMessage (planName stepName : string) (stepIdx totalSteps : nat)
    (rawProgress : string) : string :=
  if (totalSteps <=? 1)%nat then planName +:+ ": " +:+ rawProgress
  else planName +:+ " (step " +:+ itoa (Z.of_nat stepIdx + 1) +:+ "/" +:+ itoa (Z.of_nat totalSteps)
       +:+ ": " +:+ stepName +:+ "): " +:+ rawProgress.

Definition composeBlocked (planName reason : string) : string :=
  planName +:+ " is blocked: " +:+ reason.

Definition composeBlockedByActive (newPlanName activePlanName : string)
    (activeStep : option TransitionStep) : string :=
  match activeStep with
  | Some s =>
      if String.eqb (s_Message s) ""
      then newPlanName +:+ ": waiting for " +:+ activePlanName +:+ " to complete"
      else newPlanName +:+ ": waiting for " +:+ activePlanName +:+ " to complete. " +:+ s_Message s
  | None => newPlanName +:+ ": waiting for " +:+ activePlanName +:+ " to complete"
  end.

(** The conditions of one unconfirmed replica: (replicaHasError, errorGroups, msg). *)
Fixpoint diagnoseReplica (g : G) (rctx : R) (id generation : Z) (conds : list Condition)
    (skipError : option SkipErrorFunc) (condTypes : list string)
    (hasErr : bool) (groups : Z) (msg : string) : Z * string :=
  match condTypes with
  | [] => (groups, msg)
  | condType :: condTypes =>
      match findCondition conds condType with
      | None => diagnoseReplica g rctx id generation conds skipError condTypes hasErr groups msg
      | Some cond =>
          if negb (String.eqb (c_Status cond) ConditionFalse)
             || negb (c_ObservedGeneration cond =? generation)
             || match skipError with Some skip => skip g rctx id cond | None => false end
          then diagnoseReplica g rctx id generation conds skipError condTypes hasErr groups msg
          else
            let '(groups, msg) :=
              if hasErr then (groups, msg +:+ ", ")
              else (groups + 1, msg +:+ (if groups =? 0 then ". Errors: " else " | ")
                                    +:+ "#" +:+ itoa id +:+ " ") in
            let msg := msg +:+ condType +:+ "/" +:+ c_Reason cond in
            let msg := if String.eqb (c_Message cond) "" then msg
                       else msg +:+ ": " +:+ c_Message cond in
            diagnoseReplica g rctx id generation conds skipError condTypes true groups msg
      end
  end.

Context `{ContextProvider}.

Fixpoint diagnoseAll (g : G) (condTypes : list string) (skipError : option SkipErrorFunc)
    (ids : list Z) (groups : Z) (msg : string) : outcome string :=
  match ids with
  | [] => Ok msg
  | id :: ids =>
      rctx ← cp_Replica g id;
      match rctx with
      | Some rc =>
          if rctx_Exists g rc then
            generation ← rctx_Generation g rc;
            conds ← rctx_Conditions g rc;
            let '(groups, msg) :=
              diagnoseReplica g rc id generation conds skipError condTypes false groups msg in
            diagnoseAll g condTypes skipError ids groups msg
          else
            diagnoseAll g condTypes skipError ids (groups + 1)
              (msg +:+ (if groups =? 0 then ". Errors: " else " | ") +:+ "#" +:+ itoa id
                   +:+ " replica not found")
      | None =>
          diagnoseAll g condTypes skipError ids (groups + 1)
            (msg +:+ (if groups =? 0 then ". Errors: " else " | ") +:+ "#" +:+ itoa id
                 +:+ " replica not found")
      end
  end.

Definition generateProgressMessage (g : G) (stepRevision : Z) (cr : ConfirmResult)
    (conditionTypes : list string) (skipError : option SkipErrorFunc) : outcome string :=
  let waiting := idset.Difference (MustConfirm cr) (Confirmed cr) in
  let msg := itoa (idset.Len (Confirmed cr)) +:+ "/" +:+ itoa (idset.Len (MustConfirm cr))
             +:+ " replicas confirmed revision " +:+ itoa stepRevision in
  if idset.IsEmpty waiting then Ok msg else
  let msg := msg +:+ ". Waiting: [" +:+ idset.String waiting +:+ "]" in
  match conditionTypes with
  | [] => Ok msg
  | _ => diagnoseAll g conditionTypes skipError (idset.All waiting) 0 msg
  end.

(** ** engine.go *)

(** metav1.Now(): the time returned by the n-th call. *)
Context (clock : nat → Time).

(** The engine of one reconciliation cycle.  Cells [0 .. e_origCap - 1] of the memory are the
    backing array of the caller's slice (of length [e_origLen]); [e_transitions] is the shadow
    index. *)
Record Engine := {
  e_registry : Registry; e_tracker : Tracker; e_dispatchers : list DispatchFunc;
  e_revision : Z; e_origLen : nat; e_origCap : nat;
  e_mem : tmem; e_transitions : list ptr; e_finalized : bool; e_ticks : nat;
  e_g : G;
}.
Definition set_revision (x : Z) (e : Engine) : Engine :=
  {| e_registry := e_registry e; e_tracker := e_tracker e; e_dispatchers := e_dispatchers e;
     e_revision := x; e_origLen := e_origLen e; e_origCap := e_origCap e; e_mem := e_mem e;
     e_transitions := e_transitions e; e_finalized := e_finalized e; e_ticks := e_ticks e;
     e_g := e_g e |}.
Definition set_mem (x : tmem) (e : Engine) : Engine :=
  {| e_registry := e_registry e; e_tracker := e_tracker e; e_dispatchers := e_dispatchers e;
     e_revision := e_revision e; e_origLen := e_origLen e; e_origCap := e_origCap e; e_mem := x;
     e_transitions := e_transitions e; e_finalized := e_finalized e; e_ticks := e_ticks e;
     e_g := e_g e |}.
Definition set_transitions (x : list ptr) (e : Engine) : Engine :=
  {| e_registry := e_registry e; e_tracker := e_tracker e; e_dispatchers := e_dispatchers e;
     e_revision := e_revision e; e_origLen := e_origLen e; e_origCap := e_origCap e;
     e_mem := e_mem e;
     e_transitions := x; e_finalized := e_finalized e; e_ticks := e_ticks e; e_g := e_g e |}.
Definition set_finalized (x : bool) (e : Engine) : Engine :=
  {| e_registry := e_registry e; e_tracker := e_tracker e; e_dispatchers := e_dispatchers e;
     e_revision := e_revision e; e_origLen := e_origLen e; e_origCap := e_origCap e;
     e_mem := e_mem e; e_transitions := e_transitions e;
     e_finalized := x; e_ticks := e_ticks e; e_g := e_g e |}.
Definition set_ticks (x : nat) (e : Engine) : Engine :=
  {| e_registry := e_registry e; e_tracker := e_tracker e; e_dispatchers := e_dispatchers e;
     e_revision := e_revision e; e_origLen := e_origLen e; e_origCap := e_origCap e;
     e_mem := e_mem e; e_transitions := e_transitions e;
     e_finalized := e_finalized e; e_ticks := x; e_g := e_g e |}.
Definition set_g (x : G) (e : Engine) : Engine :=
  {| e_registry := e_registry e; e_tracker := e_tracker e; e_dispatchers := e_dispatchers e;
     e_revision := e_revision e; e_origLen := e_origLen e; e_origCap := e_origCap e;
     e_mem := e_mem e; e_transitions := e_transitions e;
     e_finalized := e_finalized e; e_ticks := e_ticks e; e_g := x |}.

(** Cell access through a pointer. *)
Definition load (e : Engine) (a : ptr) : outcome Transition := index (e_mem e) a.
Definition store (a : ptr) (t : Transition) (e : Engine) : Engine := set_mem (<[a := t]> (e_mem e)) e.

(** Updates of one step of a transition. *)
Definition with_status (st : StepStatus) (s : TransitionStep) : TransitionStep :=
  {| s_Name := s_Name s; s_Status := st; s_DatameshRevision := s_DatameshRevision s;
     s_StartedAt := s_StartedAt s; s_CompletedAt := s_CompletedAt s; s_Message := s_Message s |}.
Definition with_started (at_ : Time) (s : TransitionStep) : TransitionStep :=
  {| s_Name := s_Name s; s_Status := s_Status s; s_DatameshRevision := s_DatameshRevision s;
     s_StartedAt := Some at_; s_CompletedAt := s_CompletedAt s; s_Message := s_Message s |}.
Definition with_completed (at_ : Time) (s : TransitionStep) : TransitionStep :=
  {| s_Name := s_Name s; s_Status := s_Status s; s_DatameshRevision := s_DatameshRevision s;
     s_StartedAt := s_StartedAt s; s_CompletedAt := Some at_; s_Message := s_Message s |}.
Definition with_revision (rev : Z) (s : TransitionStep) : TransitionStep :=
  {| s_Name := s_Name s; s_Status := s_Status s; s_DatameshRevision := rev;
     s_StartedAt := s_StartedAt s; s_CompletedAt := s_CompletedAt s; s_Message := s_Message s |}.
Definition with_message (msg : string) (s : TransitionStep) : TransitionStep :=
  {| s_Name := s_Name s; s_Status := s_Status s; s_DatameshRevision := s_DatameshRevision s;
     s_StartedAt := s_StartedAt s; s_CompletedAt := s_CompletedAt s; s_Message := msg |}.

(** [t.Steps[i] = f(t.Steps[i])]; panics out of range. *)
Definition update_step (i : nat) (f : TransitionStep → TransitionStep) (t : Transition) :
    outcome Transition :=
  s ← index (t_Steps t) i; Ok (set_t_Steps (<[i := f s]> (t_Steps t)) t).

(** findCurrentStepIdx: [None] for -1. *)
Fixpoint findStepIdx (steps : list TransitionStep) : option nat :=
  match steps with
  | [] => None
  | s :: steps => if step_completed s then S <$> findStepIdx steps else Some 0%nat
  end.
Definition findCurrentStepIdx (t : Transition) : option nat := findStepIdx (t_Steps t).

Definition advanceStep (a : ptr) (fromIdx : nat) (e : Engine) : outcome Engine :=
  let now := clock (e_ticks e) in
  t ← load e a;
  t ← update_step fromIdx (λ s, with_completed now (with_status StepCompleted s)) t;
  t ← update_step (S fromIdx) (λ s, with_started now (with_status StepActive s)) t;
  Ok (store a t (set_ticks (S (e_ticks e)) e)).

Definition deleteTransition (idx : nat) (e : Engine) : outcome Engine :=
  a ← index (e_transitions e) idx;
  t ← load e a;
  g ← trk_Remove (e_tracker e) t (e_g e);
  Ok (set_transitions (take idx (e_transitions e) ++ drop (S idx) (e_transitions e)) (set_g g e)).

(** SetStatus / SetActiveTransition when the slot and the replica context are non-nil. *)
Definition slot_SetStatus (slot : option ReplicaSlotAccessor) (rctx : option R) (msg : string)
    (det : details) (e : Engine) : Engine :=
  match slot, rctx with
  | Some sl, Some r => set_g (SetStatus sl (e_g e) r msg det) e
  | _, _ => e
  end.
Definition slot_SetActive (slot : option ReplicaSlotAccessor) (rctx : option R)
    (t : option ptr) (e : Engine) : Engine :=
  match slot, rctx with
  | Some sl, Some r => set_g (SetActiveTransition sl (e_g e) r t) e
  | _, _ => e
  end.
Definition slot_GetActive (slot : option ReplicaSlotAccessor) (rctx : option R) (e : Engine) :
    option ptr :=
  match slot, rctx with
  | Some sl, Some r => GetActiveTransition sl (e_g e) r
  | _, _ => None
  end.

(** [changed = None] is the nil *bool argument of confirmStep. *)
Definition confirmStep (p : plan) (a : ptr) (rctx : option R) (stepIdx : nat)
    (changed : option bool) (e : Engine) :
    outcome (ConfirmResult * string * option bool * Engine) :=
  s ← index (pl_steps p) stepIdx;
  t ← load e a;
  ts ← index (t_Steps t) stepIdx;
  cr ← step_confirm s (e_mem e) (e_g e) rctx (s_DatameshRevision ts);
  rawProgress ← generateProgressMessage (e_g e) (s_DatameshRevision ts) cr
                  (st_diagnosticConditionTypes s) (st_diagnosticSkipError s);
  let composed := composeProgressMessage (pl_displayName p) (st_name s) stepIdx
                    (length (pl_steps p)) rawProgress in
  match changed with
  | None =>
      t ← update_step stepIdx (with_message rawProgress) t;
      Ok (cr, composed, None, store a t e)
  | Some c =>
      if String.eqb (s_Message ts) rawProgress then Ok (cr, composed, Some c, e)
      else
        t ← update_step stepIdx (with_message rawProgress) t;
        Ok (cr, composed, Some true, store a t e)
  end.

Definition applyStep (p : plan) (a : ptr) (rctx : option R) (stepIdx : nat) (e : Engine) :
    outcome Engine :=
  s ← index (pl_steps p) stepIdx;
  '(changed, g) ← step_apply s (e_mem e) (e_g e) rctx;
  let e := set_g g e in
  let e := if changed : bool then set_revision (wrapS64 (e_revision e + 1)) e else e in
  t ← load e a;
  t ← update_step stepIdx (with_revision (e_revision e)) t;
  Ok (store a t e).

Definition newStep (name : string) : TransitionStep :=
  {| s_Name := name; s_Status := StepPending; s_DatameshRevision := 0;
     s_StartedAt := None; s_CompletedAt := None; s_Message := "" |}.

(** The zero transition with Type and Group set, as built by createTransition and dispatchOne. *)
Definition blankTransition (ty : TransitionType) (grp : TransitionGroup) (planID : PlanID)
    (replicaName : string) (steps : list TransitionStep) : Transition :=
  {| t_Type := ty; t_ReplicaName := replicaName;
     t_ReplicaType := ReplicaTypeOther ""; t_FromReplicaType := ReplicaTypeOther "";
     t_ToReplicaType := ReplicaTypeOther "";
     t_FromSystemNetworkNames := []; t_ToSystemNetworkNames := [];
     t_Group := grp; t_PlanID := planID; t_Steps := steps |}.

Definition createTransition (p : plan) (planID : PlanID) (rctx : option R) (e : Engine) :
    outcome (ptr * Engine) :=
  let now := clock (e_ticks e) in
  let e := set_ticks (S (e_ticks e)) e in
  let steps := map (λ s, newStep (st_name s)) (pl_steps p) in
  s0 ← index steps 0;
  let steps := <[0%nat := with_started now (with_status StepActive s0)]> steps in
  name ← match pl_scope p with
         | GlobalScope => Ok ""
         | ReplicaScope =>
             r ← deref rctx;
             let name := rctx_Name (e_g e) r in
             if String.eqb name "" then
               Panic ("dmte.Engine.createTransition: rctx.Name() returned empty for replica-scoped plan "
                      +:+ planID)
             else Ok name
         end;
  t ← plan_callInit p (e_g e) rctx
        (blankTransition (pl_transitionType p) (pl_group p) planID name steps);
  let a := length (e_mem e) in
  Ok (a, set_transitions (e_transitions e ++ [a]) (set_mem (e_mem e ++ [t]) e)).

Definition completeTransition (p : plan) (idx : nat) (rctx : option R)
    (slot : option ReplicaSlotAccessor) (e : Engine) : outcome Engine :=
  g ← plan_callOnComplete p (e_mem e) (e_g e) rctx;
  let e := slot_SetActive slot rctx None (set_g g e) in
  deleteTransition idx e.

(** *** settleTransitions *)

(** A confirmed step that is not the last one: complete it, activate and apply the next. *)
Definition settle_advance (p : plan) (a : ptr) (rctx : option R)
    (slot : option ReplicaSlotAccessor) (stepIdx : nat) (e : Engine) : outcome Engine :=
  e ← advanceStep a stepIdx e;
  e ← applyStep p a rctx (S stepIdx) e;
  '(_, advComposed, _, e) ← confirmStep p a rctx (S stepIdx) None e;
  s ← index (pl_steps p) (S stepIdx);
  Ok (slot_SetStatus slot rctx advComposed (st_details s) e).

(** Resolve the replica context and the slot of a transition. *)
Definition settle_resolve (p : plan) (t : Transition) (e : Engine) :
    outcome (option R * option ReplicaSlotAccessor) :=
  if bool_decide (pl_scope p = ReplicaScope) && negb (String.eqb (t_ReplicaName t) "")
  then id ← ReplicaID t; rctx ← cp_Replica (e_g e) id;
       Ok (rctx, replicaSlotAccessor (e_registry e) (pl_slot p))
  else Ok (None, None).

(** The body of the loop at index [i], pointing to cell [a]; returns the next index. *)
Definition settle_one (i : nat) (a : ptr) (changed progressed : bool) (e : Engine) :
    outcome (nat * bool * bool * Engine) :=
  t ← load e a;
  match reg_get (e_registry e) (t_Type t) (t_PlanID t) with
  | None => Ok (S i, changed, progressed, e)
  | Some p =>
      '(rctx, slot) ← settle_resolve p t e;
      match findCurrentStepIdx t with
      | None =>
          e ← completeTransition p i rctx slot e;
          Ok (i, true, true, e)
      | Some stepIdx =>
          '(cr, composed, ch, e) ← confirmStep p a rctx stepIdx (Some changed) e;
          let changed := default changed ch in
          s ← index (pl_steps p) stepIdx;
          let e := slot_SetStatus slot rctx composed (st_details s) e in
          let confirmed := idset.Intersect (Confirmed cr) (MustConfirm cr) in
          if negb (confirmed =? MustConfirm cr) then Ok (S i, changed, progressed, e)
          else
            g ← step_callOnComplete s (e_mem e) (e_g e) rctx;
            let e := set_g g e in
            if (S stepIdx <? length (t_Steps t))%nat then
              e ← settle_advance p a rctx slot stepIdx e;
              Ok (S i, true, true, e)
            else
              e ← completeTransition p i rctx slot e;
              Ok (i, true, true, e)
      end
  end.
Fixpoint settle_loop (fuel : nat) (i : nat) (changed progressed : bool) (e : Engine) :
    outcome (bool * bool * Engine) :=
  match fuel with
  | O => OutOfFuel
  | S fuel =>
      match e_transitions e !! i with
      | None => Ok (changed, progressed, e)
      | Some a =>
          '(i, changed, progressed, e) ← settle_one i a changed progressed e;
          settle_loop fuel i changed progressed e
      end
  end.
(** Every iteration advances the index or removes an element, so the length of the index plus the
    final test is enough fuel. *)
Definition settleTransitions (e : Engine) : outcome (bool * bool * Engine) :=
  settle_loop (S (length (e_transitions e))) 0 false false e.

(** *** dispatchOne *)
Definition indexOf (a : ptr) (l : list ptr) : option nat := fst <$> list_find (eq a) l.

Definition cancelActive (p : plan) (rctx : option R) (slot : option ReplicaSlotAccessor)
    (e : Engine) : outcome Engine :=
  if pl_cancelActiveOnCreate p then
    match slot_GetActive slot rctx e with
    | None => Ok e
    | Some active =>
        e ← match indexOf active (e_transitions e) with
            | Some j => deleteTransition j e
            | None => Ok e
            end;
        Ok (slot_SetActive slot rctx None e)
    end
  else Ok e.

(** What a new decision finds in its slot. *)
Inductive conflict :=
| NoConflict
| SameTypeActive
| BlockedBy (msg : string) (det : details).
Definition slotConflict (p : plan) (rctx : option R) (slot : option ReplicaSlotAccessor)
    (e : Engine) : outcome conflict :=
  match slot_GetActive slot rctx e with
  | None => Ok NoConflict
  | Some active =>
      t ← load e active;
      if bool_decide (t_Type t = pl_transitionType p) then Ok SameTypeActive
      else
        let activePlan := reg_get (e_registry e) (t_Type t) (t_PlanID t) in
        let name := match activePlan with Some ap => pl_displayName ap | None => "" end in
        let msg := composeBlockedByActive (pl_displayName p) name (CurrentStep t) in
        let det := match CurrentStep t, activePlan with
                   | Some _, Some ap =>
                       match findCurrentStepIdx t with
                       | Some i => match pl_steps ap !! i with Some s => st_details s | None => None end
                       | None => None
                       end
                   | _, _ => None
                   end in
        Ok (BlockedBy msg det)
  end.

(** Returns the created transition (nil if none) and the blocking reason. *)
Definition dispatchOne (p : plan) (planID : PlanID) (rctx : option R)
    (slot : option ReplicaSlotAccessor) (e : Engine) : outcome (option ptr * string * Engine) :=
  e ← cancelActive p rctx slot e;
  c ← slotConflict p rctx slot e;
  match c with
  | SameTypeActive => Ok (None, "", e)
  | BlockedBy msg det => Ok (None, msg, slot_SetStatus slot rctx msg det e)
  | NoConflict =>
      '(guardResult, g) ← plan_evaluateGuards p (e_mem e) (e_g e) rctx;
      let e := set_g g e in
      if gr_Blocked guardResult then
        let msg := composeBlocked (pl_displayName p) (gr_Message guardResult) in
        Ok (None, msg, slot_SetStatus slot rctx msg (gr_Details guardResult) e)
      else
        let name := match pl_scope p, rctx with
                    | ReplicaScope, Some r => rctx_Name (e_g e) r
                    | _, _ => ""
                    end in
        tempT ← plan_callInit p (e_g e) rctx
                  (blankTransition (pl_transitionType p) (pl_group p) "" name []);
        '(allowed, reason, det) ← trk_CanAdmit (e_tracker e) tempT (e_g e);
        if negb allowed then
          let msg := composeBlocked (pl_displayName p) reason in
          Ok (None, msg, slot_SetStatus slot rctx msg det e)
        else
          '(a, e) ← createTransition p planID rctx e;
          let e := slot_SetActive slot rctx (Some a) e in
          t ← load e a;
          g ← trk_Add (e_tracker e) a t (e_g e);
          let e := set_g g e in
          e ← applyStep p a rctx 0 e;
          '(_, composed, _, e) ← confirmStep p a rctx 0 None e;
          s0 ← index (pl_steps p) 0;
          Ok (Some a, "", slot_SetStatus slot rctx composed (st_details s0) e)
  end.

(** *** runDispatch: the body of the range loop, then the loop over the iterator. *)
Definition handleDecision (d : DispatchDecision) (e : Engine) : outcome (bool * Engine) :=
  if String.eqb (d_planID d) "" then
    Ok (false,
      match d_replicaCtx d with
      | Some r =>
          if String.eqb (d_message d) "" then e
          else slot_SetStatus (replicaSlotAccessor (e_registry e) (d_replicaSlot d)) (Some r)
                 (d_message d) (d_details d) e
      | None => e
      end)
  else
    match reg_get (e_registry e) (d_transitionType d) (d_planID d) with
    | None =>
        Panic ("dmte.Engine.runDispatch: unknown plan ("
               +:+ TransitionType_String (d_transitionType d) +:+ ", " +:+ d_planID d +:+ ")"
               +:+ match d_replicaCtx d with
                   | Some r => " for replica " +:+ rctx_Name (e_g e) r
                   | None => ""
                   end)
    | Some p =>
        '(rctx, slot) ←
          match pl_scope p with
          | ReplicaScope =>
              match d_replicaCtx d with
              | Some r => Ok (Some r, replicaSlotAccessor (e_registry e) (pl_slot p))
              | None => Panic "interface conversion: interface is nil"
              end
          | GlobalScope => Ok (None, None)
          end;
        '(t, _, e) ← dispatchOne p (d_planID d) rctx slot e;
        Ok (match t with Some _ => true | None => false end, e)
    end.

Fixpoint run_decisions (ds : decisions) (changed : bool) (e : Engine) {struct ds} :
    outcome (bool * Engine) :=
  match ds with
  | Done => Ok (changed, e)
  | Yield d resume =>
      match handleDecision d e with
      | Ok (c, e) =>
          match resume (e_mem e) (e_g e) with
          | Ok ds => run_decisions ds (changed || c) e
          | Panic m => Panic m
          | OutOfFuel => OutOfFuel
          end
      | Panic m => Panic m
      | OutOfFuel => OutOfFuel
      end
  end.
Definition runDispatch (dispatch : DispatchFunc) (e : Engine) : outcome (bool * Engine) :=
  ds ← dispatch (e_mem e) (e_g e); run_decisions ds false e.

(** *** Process *)

(** Upper bound on the number of settle passes that can make progress: each one advances or
    removes a transition. *)
Definition settle_bound (e : Engine) : nat :=
  sum_list_with (λ a, match e_mem e !! a with Some t => S (length (t_Steps t)) | None => 1%nat end)
    (e_transitions e).

Fixpoint settle_until_stable (fuel : nat) (changed : bool) (e : Engine) : outcome (bool * Engine) :=
  match fuel with
  | O => OutOfFuel
  | S fuel =>
      '(settleChanged, progressed, e) ← settleTransitions e;
      let changed := changed || settleChanged in
      if progressed : bool then settle_until_stable fuel changed e else Ok (changed, e)
  end.

Fixpoint run_dispatchers (ds : list DispatchFunc) (dispatched : bool) (e : Engine) :
    outcome (bool * Engine) :=
  match ds with
  | [] => Ok (dispatched, e)
  | d :: ds => '(c, e) ← runDispatch d e; run_dispatchers ds (dispatched || c) e
  end.

Definition maxOuter : nat := 10.
Fixpoint process_loop (n : nat) (changed : bool) (e : Engine) : outcome (bool * Engine) :=
  match n with
  | O => Ok (changed, e)
  | S n =>
      '(changed, e) ← settle_until_stable (S (settle_bound e)) changed e;
      '(dispatched, e) ← run_dispatchers (e_dispatchers e) false e;
      if dispatched : bool then process_loop n true e else Ok (changed, e)
  end.
Definition Process (e : Engine) : outcome (bool * Engine) :=
  if e_finalized e then Panic "dmte.Engine.Process: engine already finalized"
  else process_loop maxOuter false e.

(** *** NewEngine *)
Definition initSlot (reg : Registry) (a : ptr) (t : Transition) (g : G) : outcome G :=
  if String.eqb (t_ReplicaName t) "" then Ok g else
  match reg_get reg (t_Type t) (t_PlanID t) with
  | None => Ok g
  | Some p =>
      if negb (bool_decide (pl_scope p = ReplicaScope)) then Ok g else
      match replicaSlotAccessor reg (pl_slot p) with
      | None => Ok g
      | Some slot =>
          id ← ReplicaID t;
          rctx ← cp_Replica g id;
          match rctx with
          | None => Ok g
          | Some r => Ok (SetActiveTransition slot g r (Some a))
          end
      end
  end.
Fixpoint init_loop (reg : Registry) (trk : Tracker) (a : ptr) (ts : list Transition) (g : G) :
    outcome G :=
  match ts with
  | [] => Ok g
  | t :: ts =>
      g ← trk_Add trk a t g;
      g ← initSlot reg a t g;
      init_loop reg trk (S a) ts g
  end.
(** [spare] is the content of the backing array between the length and the capacity. *)
Definition NewEngine (registry : option Registry) (tracker : option Tracker)
    (dispatchers : list DispatchFunc) (revision : option Z)
    (transitions spare : list Transition) (g : G) : outcome Engine :=
  match registry, tracker, revision with
  | None, _, _ => Panic "dmte.NewEngine: registry must be non-nil"
  | _, None, _ => Panic "dmte.NewEngine: tracker must be non-nil"
  | _, _, None => Panic "dmte.NewEngine: revision must be non-nil"
  | Some reg, Some trk, Some rev =>
      g ← init_loop reg trk 0 transitions g;
      Ok {| e_registry := reg; e_tracker := trk; e_dispatchers := dispatchers;
            e_revision := rev;
            e_origLen := length transitions; e_origCap := length transitions + length spare;
            e_mem := transitions ++ spare; e_transitions := seq 0 (length transitions);
            e_finalized := false; e_ticks := 0; e_g := g |}
  end.

(** *** CreateReplicaTransition, CreateGlobalTransition *)
Definition CreateReplicaTransition (tt : TransitionType) (planID : PlanID) (replicaID : Z)
    (e : Engine) : outcome (option ptr * string * Engine) :=
  if e_finalized e then Panic "dmte.Engine.CreateReplicaTransition: engine already finalized" else
  match reg_get (e_registry e) tt planID with
  | None => Panic ("dmte.Engine.CreateReplicaTransition: unknown plan ("
                   +:+ TransitionType_String tt +:+ ", " +:+ planID +:+ ")")
  | Some p =>
      rctx ← cp_Replica (e_g e) replicaID;
      match rctx with
      | None => Panic "dmte.Engine.CreateReplicaTransition: unknown replica ID"
      | Some r => dispatchOne p planID (Some r) (replicaSlotAccessor (e_registry e) (pl_slot p)) e
      end
  end.
Definition CreateGlobalTransition (tt : TransitionType) (planID : PlanID) (e : Engine) :
    outcome (option ptr * string * Engine) :=
  if e_finalized e then Panic "dmte.Engine.CreateGlobalTransition: engine already finalized" else
  match reg_get (e_registry e) tt planID with
  | None => Panic ("dmte.Engine.CreateGlobalTransition: unknown plan ("
                   +:+ TransitionType_String tt +:+ ", " +:+ planID +:+ ")")
  | Some p => dispatchOne p planID None None e
  end.

(** *** Finalize *)
Fixpoint replaceInSlots (reg : Registry) (r : R) (oldPtr newPtr : ptr) (slots : list ReplicaSlotID)
    (g : G) : G :=
  match slots with
  | [] => g
  | id :: slots =>
      match replicaSlotAccessor reg id with
      | Some sl =>
          if bool_decide (GetActiveTransition sl g r = Some oldPtr)
          then SetActiveTransition sl g r (Some newPtr)
          else replaceInSlots reg r oldPtr newPtr slots g
      | None => replaceInSlots reg r oldPtr newPtr slots g
      end
  end.
Definition replaceSlotPointer (oldPtr newPtr : ptr) (e : Engine) : outcome Engine :=
  t ← load e oldPtr;
  if String.eqb (t_ReplicaName t) "" then Ok e else
  id ← ReplicaID t;
  rctx ← cp_Replica (e_g e) id;
  match rctx with
  | None => Ok e
  | Some r =>
      Ok (set_g (replaceInSlots (e_registry e) r oldPtr newPtr (seq 0 MaxReplicaSlots) (e_g e)) e)
  end.

(** slices.Grow(orig, n): keeps the array when its capacity suffices, otherwise copies it to a
    fresh, larger one.  Returns the base address of the array. *)
Definition growArray (n : nat) (e : Engine) : ptr * Engine :=
  if (n <=? e_origCap e - e_origLen e)%nat then (0%nat, e)
  else
    let base := length (e_mem e) in
    (base, set_mem (e_mem e ++ take (e_origCap e) (e_mem e)
                    ++ replicate (n - (e_origCap e - e_origLen e)) zeroTransition) e).

(** The copy loop over the positions [< minLen], then the append loop over the rest: the two
    differ in the order of the copy and the slot update. *)
Fixpoint finalize_loop (base minLen i : nat) (ptrs : list ptr) (e : Engine) : outcome Engine :=
  match ptrs with
  | [] => Ok e
  | a :: ptrs =>
      e ← (if (i <? minLen)%nat then
             if (a =? base + i)%nat then Ok e
             else
               e ← replaceSlotPointer a (base + i)%nat e;
               t ← load e a;
               Ok (store (base + i)%nat t e)
           else
             t ← load e a;
             replaceSlotPointer a (base + i)%nat (store (base + i)%nat t e));
      finalize_loop base minLen (S i) ptrs e
  end.
(** Returns the address range (base, length) of the resulting slice. *)
Definition Finalize (e : Engine) : outcome (ptr * nat * Engine) :=
  if e_finalized e then Panic "dmte.Engine.Finalize: engine already finalized" else
  let e := set_finalized true e in
  let n := length (e_transitions e) in
  let '(base, e) := if (e_origLen e <? n)%nat then growArray (n - e_origLen e) e else (0%nat, e) in
  let minLen := Nat.min (e_origLen e) n in
  e ← finalize_loop base minLen 0 (e_transitions e) e;
  Ok (base, n, e).
(** The transitions of the returned slice. *)
Definition finalSlice (res : ptr * nat * Engine) : list Transition :=
  let '(base, n, e) := res in take n (drop base (e_mem e)).

End engine.
Arguments ContextProvider : clear implicits.
Arguments ReplicaSlotAccessor : clear implicits.
Arguments Tracker : clear implicits.
Arguments DispatchDecision : clear implicits.
Arguments decisions : clear implicits.
Arguments DispatchFunc : clear implicits.
Arguments ReplicaGuardFunc : clear implicits.
Arguments GlobalGuardFunc : clear implicits.
Arguments ReplicaOnCompleteFunc : clear implicits.
Arguments GlobalOnCompleteFunc : clear implicits.
Arguments ReplicaInitFunc : clear implicits.
Arguments GlobalInitFunc : clear implicits.
Arguments ReplicaApplyFunc : clear implicits.
Arguments GlobalApplyFunc : clear implicits.
Arguments ReplicaConfirmFunc : clear implicits.
Arguments GlobalConfirmFunc : clear implicits.
Arguments SkipErrorFunc : clear implicits.
Arguments step : clear implicits.
Arguments plan : clear implicits.
Arguments Registry : clear implicits.
Arguments PlanBuilder : clear implicits.
Arguments Engine : clear implicits.
End dmte.
