(* ===== verification/DmteSteps.v ===== *)
(** * The engine as a transition system

    Every operation of the engine (settle, dispatch, create) is a sequence of the primitive steps
    of [estep].  Invariants of the engine are proved by rule induction on [estep] and hold after
    Process, CreateReplicaTransition and CreateGlobalTransition by [Process_steps] and
    [dispatchOne_steps]. *)

From Stdlib Require Import ZArith Lia String.
From stdpp Require Import base list numbers strings option relations.
From S2P Require Import Prelude IdSet DrbdSize Api Dmte.
Import v1alpha1 dmte.

Set Default Proof Using "Type".

(** ** The current step of a transition *)

Lemma update_message_status i msg (t t' : Transition) : update_step i (with_message msg) t = Ok t' →
  s_Status <$> t_Steps t' = s_Status <$> t_Steps t.
Proof.
  unfold update_step. intros H. inv_ok. simpl.  rewrite list_fmap_insert. simpl. apply list_insert_id. by rewrite list_lookup_fmap, E.
Qed.

Lemma findStepIdx_status l l' : s_Status <$> l = s_Status <$> l' → findStepIdx l = findStepIdx l'.
Proof.
  revert l'. induction l as [|s l IH]; intros [|s' l'] H; simplify_eq/=; [done|].
  unfold step_completed. rewrite H, (IH l') by done. done.
Qed.
Lemma findStepIdx_Some l i : findStepIdx l = Some i ↔
  (∃ s, l !! i = Some s ∧ step_completed s = false) ∧
  ∀ j s, (j < i)%nat → l !! j = Some s → step_completed s = true.
Proof.
  revert i. induction l as [|s l IH]; intros i; simpl.
  { split; [done|]. by intros [(? & ? & _) _]. }
  destruct (step_completed s) eqn:Es.
  - destruct i as [|i]; simpl.
    { split; [by destruct (findStepIdx l)|]. intros [(? & [= ->] & ?) _]. congruence. }
    transitivity (findStepIdx l = Some i); [destruct (findStepIdx l); naive_solver|].
    rewrite IH. split; intros [H1 H2]; split; try done.
    + intros [|j] s' ? ?; simplify_eq/=; [done|]. eapply H2; [|done]. lia.
    + intros j s' ? ?. apply (H2 (S j)); [lia|done].
  - split.
    + intros [= <-]. split; [by eauto|]. intros; lia.
    + intros [(s' & Hi & Hc) H2]. destruct i as [|i]; [done|].
      specialize (H2 0%nat s ltac:(lia) eq_refl). congruence.
Qed.
Lemma findStepIdx_None l : findStepIdx l = None ↔ Forall (λ s, step_completed s = true) l.
Proof.
  induction l as [|s l IHl]; simpl; [done|]. rewrite Forall_cons.
  destruct (step_completed s); [|naive_solver].
  rewrite <-IHl. destruct (findStepIdx l); naive_solver.
Qed.

(** After advanceStep the current step is the next one. *)
Lemma advance_current i now (t t' : Transition) : findCurrentStepIdx t = Some i →
  (t1 ← update_step i (λ s, with_completed now (with_status StepCompleted s)) t;
   update_step (S i) (λ s, with_started now (with_status StepActive s)) t1) = Ok t' →
  findCurrentStepIdx t' = Some (S i) ∧ length (t_Steps t') = length (t_Steps t).
Proof.
  unfold findCurrentStepIdx, update_step. rewrite findStepIdx_Some. intros [(s & Hs & Hc) Hlt] H.
  bok H as t1 H1. bok H1 as s1 Hs1%index_Ok. bok H as s2 Hs2%index_Ok. inv_ok.
  rewrite !length_insert. split; [|done]. apply findStepIdx_Some.
  apply lookup_lt_Some in Hs2. rewrite length_insert in Hs2. split.
  - rewrite list_lookup_insert_eq by (by rewrite length_insert). by eexists.
  - intros j s' Hj. rewrite list_lookup_insert_ne by lia. destruct (decide (i = j)) as [->|?].
    + rewrite list_lookup_insert_eq by lia. by intros [= <-].
    + rewrite list_lookup_insert_ne by done. apply Hlt. lia.
Qed.


Section steps.
Context {G R : Type} `{!ContextProvider G R} (clock : nat → Time).
Implicit Types (e : Engine G R) (p : plan G R) (t : Transition) (g : G).

(** A plan that can be looked up in the registry. *)
Definition registered (reg : Registry G R) p : Prop := ∃ tt id, reg_get reg tt id = Some p.

(** What the engine relies on about a registry: plans are filed under their own type, and Init
    callbacks only fill in metadata. *)
Class RegistryLaws (reg : Registry G R) : Prop := {
  rl_type tt id p : reg_get reg tt id = Some p → pl_transitionType p = tt;
  rl_init p g rctx t t' : registered reg p → plan_callInit p g rctx t = Ok t' →
    t_Type t' = t_Type t ∧ t_Group t' = t_Group t ∧ t_PlanID t' = t_PlanID t ∧
    t_ReplicaName t' = t_ReplicaName t ∧ t_Steps t' = t_Steps t;
}.

(** Changes of the global context made by the non-apply callbacks of a plan. *)
Inductive plan_effect p (mem : tmem) g : G → Prop :=
| pe_guards rctx res g' : plan_evaluateGuards p mem g rctx = Ok (res, g') → plan_effect p mem g g'
| pe_stepDone s rctx g' : s ∈ pl_steps p → step_callOnComplete s mem g rctx = Ok g' →
    plan_effect p mem g g'
| pe_planDone rctx g' : plan_callOnComplete p mem g rctx = Ok g' → plan_effect p mem g g'.

(** Changes made through a registered slot accessor. *)
Inductive slot_effect (reg : Registry G R) g : G → Prop :=
| se_status id sl r msg det : replicaSlotAccessor reg id = Some sl →
    slot_effect reg g (SetStatus sl g r msg det)
| se_active id sl r a : replicaSlotAccessor reg id = Some sl →
    slot_effect reg g (SetActiveTransition sl g r a).

Definition bump (changed : bool) (rev : Z) : Z := if changed then wrapS64 (rev + 1) else rev.

(** Steps of a settle pass.  [sprog] marks the ones that make progress. *)
Inductive sprog e : Engine G R → Prop :=
| Es_delete idx a t g' :
    e_transitions e !! idx = Some a → e_mem e !! a = Some t →
    trk_Remove (e_tracker e) t (e_g e) = Ok g' →
    sprog e (set_transitions (take idx (e_transitions e) ++ drop (S idx) (e_transitions e))
               (set_g g' e))
| Es_advance a i t t' now n :
    a ∈ e_transitions e → e_mem e !! a = Some t → findCurrentStepIdx t = Some i →
    (t1 ← update_step i (λ s, with_completed now (with_status StepCompleted s)) t;
     update_step (S i) (λ s, with_started now (with_status StepActive s)) t1) = Ok t' →
    sprog e (store a t' (set_ticks n e)).
Inductive sstep e : Engine G R → Prop :=
| Es_prog e' : sprog e e' → sstep e e'
| Es_effect p g' : registered (e_registry e) p → plan_effect p (e_mem e) (e_g e) g' →
    sstep e (set_g g' e)
| Es_slot g' : slot_effect (e_registry e) (e_g e) g' → sstep e (set_g g' e)
| Es_message a i msg t t' : a ∈ e_transitions e → e_mem e !! a = Some t →
    update_step i (with_message msg) t = Ok t' → sstep e (store a t' e)
| Es_apply p a i s rctx changed g' t t' :
    registered (e_registry e) p → pl_steps p !! i = Some s →
    step_apply s (e_mem e) (e_g e) rctx = Ok (changed, g') →
    a ∈ e_transitions e → e_mem e !! a = Some t → findCurrentStepIdx t = Some i →
    update_step i (with_revision (bump changed (e_revision e))) t = Ok t' →
    sstep e (store a t' (set_revision (bump changed (e_revision e)) (set_g g' e))).

(** A new transition: admitted by the tracker, appended to the shadow index at a fresh address,
    registered. *)
Inductive ecreate e : Engine G R → Prop :=
| Es_create p tt planID rctx name steps now tempT reason det t g1 g' n :
    reg_get (e_registry e) tt planID = Some p →
    match pl_scope p with
    | GlobalScope => name = ""
    | ReplicaScope => ∃ r, rctx = Some r ∧ rctx_Name (e_g e) r = name ∧ name ≠ ""
    end →
    plan_callInit p (e_g e) rctx
      (blankTransition (pl_transitionType p) (pl_group p) "" name []) = Ok tempT →
    trk_CanAdmit (e_tracker e) tempT (e_g e) = Ok (true, reason, det) →
    map (λ s, newStep (st_name s)) (pl_steps p) = steps →
    (s0 ← index steps 0;
     plan_callInit p (e_g e) rctx
       (blankTransition (pl_transitionType p) (pl_group p) planID name
          (<[0%nat := with_started now (with_status StepActive s0)]> steps))) = Ok t →
    rtc (slot_effect (e_registry e)) (e_g e) g1 →
    trk_Add (e_tracker e) (length (e_mem e)) t g1 = Ok g' →
    ecreate e (set_g g' (set_transitions (e_transitions e ++ [length (e_mem e)])
                 (set_mem (e_mem e ++ [t]) (set_ticks n e)))).

Inductive estep e : Engine G R → Prop :=
| Es_settle e' : sstep e e' → estep e e'
| Es_new e' : ecreate e e' → estep e e'.

Definition same_config e e' : Prop :=
  e_registry e' = e_registry e ∧ e_tracker e' = e_tracker e ∧
  e_dispatchers e' = e_dispatchers e ∧ e_origLen e' = e_origLen e ∧
  e_origCap e' = e_origCap e ∧ e_finalized e' = e_finalized e.

#[global] Instance same_config_preorder : PreOrder same_config.
Proof. split; [by intros ?|]. intros ??? (?&?&?&?&?&?) (?&?&?&?&?&?). repeat split; congruence. Qed.

Lemma sstep_config e e' : sstep e e' → same_config e e'.
Proof. by destruct 1 as [? []| | | |]. Qed.
Lemma estep_config e e' : estep e e' → same_config e e'.
Proof. destruct 1 as [? H|? []]; [by apply sstep_config|done]. Qed.
Lemma rtc_estep_config e e' : rtc estep e e' → same_config e e'.
Proof. induction 1 as [|??? H%estep_config _ IH]; [done|by etrans]. Qed.
Lemma rtc_sstep_config e e' : rtc sstep e e' → same_config e e'.
Proof. induction 1 as [|??? H%sstep_config _ IH]; [done|by etrans]. Qed.
Lemma rtc_sstep_estep e e' : rtc sstep e e' → rtc estep e e'.
Proof. apply rtc_subrel. intros ?? H. by apply Es_settle. Qed.

Lemma reg_get_registered reg tt id p : reg_get reg tt id = Some p → registered reg p.
Proof. by exists tt, id. Qed.

(** ** The operations as sequences of steps *)

Lemma set_g_id e : set_g (e_g e) e = e.
Proof. by destruct e. Qed.

Lemma slot_SetStatus_steps id rctx msg det e :
  rtc sstep e (slot_SetStatus (replicaSlotAccessor (e_registry e) id) rctx msg det e).
Proof.
  unfold slot_SetStatus. destruct (replicaSlotAccessor _ id) as [sl|] eqn:E, rctx; try done.
  apply rtc_once, Es_slot. by eapply se_status.
Qed.
Lemma slot_SetActive_steps id rctx a e :
  rtc sstep e (slot_SetActive (replicaSlotAccessor (e_registry e) id) rctx a e).
Proof.
  unfold slot_SetActive. destruct (replicaSlotAccessor _ id) as [sl|] eqn:E, rctx; try done.
  apply rtc_once, Es_slot. by eapply se_active.
Qed.

(** A slot as the engine resolves it: absent or registered. *)
Definition resolved e (slot : option (ReplicaSlotAccessor G R)) : Prop :=
  slot = None ∨ ∃ id, slot = replicaSlotAccessor (e_registry e) id.
Lemma resolved_config e e' slot : same_config e e' → resolved e slot → resolved e' slot.
Proof. intros (HR & _) [?|[id ->]]; [by left|right; exists id; by rewrite HR]. Qed.

Lemma SetStatus_steps slot rctx msg det e : resolved e slot →
  rtc sstep e (slot_SetStatus slot rctx msg det e).
Proof. intros [->|[id ->]]; [done|apply slot_SetStatus_steps]. Qed.
Lemma SetActive_steps slot rctx a e : resolved e slot →
  rtc sstep e (slot_SetActive slot rctx a e).
Proof. intros [->|[id ->]]; [done|apply slot_SetActive_steps]. Qed.

Lemma slot_SetActive_fields slot rctx a e :
  e_transitions (slot_SetActive slot rctx a e) = e_transitions e ∧
  e_mem (slot_SetActive slot rctx a e) = e_mem e ∧
  e_tracker (slot_SetActive slot rctx a e) = e_tracker e ∧
  e_registry (slot_SetActive slot rctx a e) = e_registry e ∧
  e_revision (slot_SetActive slot rctx a e) = e_revision e.
Proof. by destruct slot, rctx. Qed.
Lemma slot_SetStatus_fields slot rctx msg det e :
  e_transitions (slot_SetStatus slot rctx msg det e) = e_transitions e ∧
  e_mem (slot_SetStatus slot rctx msg det e) = e_mem e ∧
  e_registry (slot_SetStatus slot rctx msg det e) = e_registry e.
Proof. by destruct slot, rctx. Qed.

Lemma deleteTransition_steps idx e e' : deleteTransition idx e = Ok e' → sprog e e'.
Proof. unfold deleteTransition, load. intros H. inv_ok. by eapply Es_delete. Qed.

Lemma confirmStep_steps p a rctx i ch e cr msg ch' e' :
  a ∈ e_transitions e →
  confirmStep p a rctx i ch e = Ok (cr, msg, ch', e') →
  rtc sstep e e' ∧ e_transitions e' = e_transitions e ∧ e_g e' = e_g e ∧
  ∀ t, e_mem e !! a = Some t → ∃ t', e_mem e' !! a = Some t' ∧
    s_Status <$> t_Steps t' = s_Status <$> t_Steps t.
Proof.
  unfold confirmStep, load. intros Ha H. bok H as s _. bok H as t Ht%index_Ok.
  bok H as ts _. bok H as cr0 _. bok H as raw _.
  assert (Hm := update_message_status i raw t).
  assert (a < length (e_mem e))%nat by (by eapply lookup_lt_Some).
  destruct ch as [c|]; [destruct (String.eqb _ _)|]; inv_ok.
  - split_and!; try done. intros. eauto.
  - split_and!; [|done|done|].
    + apply rtc_once. by eapply Es_message.
    + intros ? ?; simplify_eq. simpl. rewrite list_lookup_insert_eq by done. eauto.
  - split_and!; [|done|done|].
    + apply rtc_once. by eapply Es_message.
    + intros ? ?; simplify_eq. simpl. rewrite list_lookup_insert_eq by done. eauto.
Qed.

Lemma advanceStep_steps a i e e' t : a ∈ e_transitions e → e_mem e !! a = Some t →
  findCurrentStepIdx t = Some i → advanceStep clock a i e = Ok e' →
  sprog e e' ∧ e_transitions e' = e_transitions e ∧
  ∃ t', e_mem e' !! a = Some t' ∧ findCurrentStepIdx t' = Some (S i).
Proof.
  unfold advanceStep, load. intros Ha Ht Hi H. bok H as t0 Ht0%index_Ok. simplify_eq.
  bok H as t1 H1. bok H as t2 H2. inv_ok.
  assert (H12 : (t1 ← update_step i (λ s, with_completed (clock (e_ticks e)) (with_status StepCompleted s)) t;
     update_step (S i) (λ s, with_started (clock (e_ticks e)) (with_status StepActive s)) t1) = Ok t2)
    by (rewrite H1; exact H2).
  split_and!; [by eapply Es_advance|done|]. exists t2. simpl.
  rewrite list_lookup_insert_eq by (by eapply lookup_lt_Some).
  split; [done|]. by eapply advance_current.
Qed.

Lemma applyStep_steps p a rctx i e e' t : registered (e_registry e) p →
  a ∈ e_transitions e → e_mem e !! a = Some t → findCurrentStepIdx t = Some i →
  applyStep p a rctx i e = Ok e' →
  rtc sstep e e' ∧ e_transitions e' = e_transitions e ∧
  ∃ t', e_mem e' !! a = Some t' ∧ findCurrentStepIdx t' = Some i.
Proof.
  unfold applyStep, load. intros Hp Ha Ht Hi H. bok H as s Hs%index_Ok.
  bok H as [changed g'] Hg. bok H as t0 Ht0%index_Ok.
  assert (t0 = t) as -> by (destruct changed; simpl in *; congruence).
  bok H as t1 Ht1. inv_ok.
  replace (store a t1 _) with
    (store a t1 (set_revision (bump changed (e_revision e)) (set_g g' e)))
    by (by destruct changed, e).
  split_and!.
  - apply rtc_once. eapply Es_apply; try done. revert Ht1. by destruct changed.
  - by destruct changed.
  - exists t1. simpl. rewrite list_lookup_insert_eq by (by eapply lookup_lt_Some). split; [done|].
    rewrite <-Hi. apply findStepIdx_status. unfold update_step in Ht1. inv_ok. simpl.
    rewrite list_fmap_insert. apply list_insert_id. by rewrite list_lookup_fmap, E.
Qed.

Lemma completeTransition_steps p idx rctx slot e e' : registered (e_registry e) p →
  resolved e slot → completeTransition p idx rctx slot e = Ok e' →
  ∃ e1, rtc sstep e e1 ∧ sprog e1 e' ∧ e_transitions e1 = e_transitions e.
Proof.
  unfold completeTransition. intros Hp Hs H. bok H as g Hg.
  exists (slot_SetActive slot rctx None (set_g g e)). split_and!.
  - eapply rtc_l; [apply (Es_effect _ p); [done|by eapply pe_planDone]|].
    apply SetActive_steps. by eapply resolved_config.
  - by eapply deleteTransition_steps.
  - by rewrite (proj1 (slot_SetActive_fields slot rctx None (set_g g e))).
Qed.

Definition progress e e' : Prop := ∃ e1 e2, rtc sstep e e1 ∧ sprog e1 e2 ∧ rtc sstep e2 e'.
Lemma progress_steps e e' : progress e e' → rtc sstep e e'.
Proof.
  intros (e1 & e2 & H1 & H2 & H3). etrans; [exact H1|]. eapply rtc_l; [by apply Es_prog|done].
Qed.
Lemma progress_l e e1 e' : rtc sstep e e1 → progress e1 e' → progress e e'.
Proof. intros H (x & y & H1 & H2 & H3). exists x, y. split_and!; try done. by etrans. Qed.
Lemma progress_r e e1 e' : progress e e1 → rtc sstep e1 e' → progress e e'.
Proof. intros (x & y & H1 & H2 & H3) H. exists x, y. split_and!; try done. by etrans. Qed.

Lemma advanceStep_frame a i e e' : advanceStep clock a i e = Ok e' →
  same_config e e' ∧ e_transitions e' = e_transitions e.
Proof. unfold advanceStep. intros H. by inv_ok. Qed.
Lemma applyStep_frame p a rctx i e e' : applyStep p a rctx i e = Ok e' →
  same_config e e' ∧ e_transitions e' = e_transitions e.
Proof.
  unfold applyStep. intros H. bok H as ? ?. bok H as [[] ?] ?; bok H as ? ?; bok H as ? ?; by inv_ok.
Qed.

(** Advancing a confirmed transition: advanceStep, applyStep, confirmStep, SetStatus. *)
Lemma settle_advance_steps p a rctx slot i e e' t :
  registered (e_registry e) p → resolved e slot →
  a ∈ e_transitions e → e_mem e !! a = Some t → findCurrentStepIdx t = Some i →
  settle_advance clock p a rctx slot i e = Ok e' →
  progress e e' ∧ e_transitions e' = e_transitions e.
Proof.
  intros Hp Hs Ha Ht Hi H. unfold settle_advance in H. bok H as e1 Hadv. bok H as e2 Happ.
  bok H as [[[cr msg] ch] e3] Hc. bok H as s _. injection H as <-.
  apply (advanceStep_steps a i e e1 t) in Hadv as (Hadv & Htr1 & t1 & Ht1 & Hi1); try done.
  assert (Hc1 : same_config e e1) by (by apply sstep_config, Es_prog).
  destruct (applyStep_steps p a rctx (S i) e1 e2 t1) as (H2 & Htr2 & t2 & Ht2 & Hi2); try done.
  { by rewrite (proj1 Hc1). } { by rewrite Htr1. }
  apply confirmStep_steps in Hc as (H3 & Htr3 & _); [|by rewrite Htr2, Htr1].
  split.
  - exists e, e1. split_and!; [done|done|]. etrans; [exact H2|]. etrans; [exact H3|].
    apply SetStatus_steps. eapply resolved_config; [|exact Hs]. etrans; [exact Hc1|].
    etrans; by apply rtc_sstep_config.
  - by rewrite (proj1 (slot_SetStatus_fields slot rctx msg (st_details s) e3)), Htr3, Htr2.
Qed.

Lemma settle_resolve_resolved p t e rctx slot :
  settle_resolve p t e = Ok (rctx, slot) → resolved e slot.
Proof.
  unfold settle_resolve. intros H. destruct (_ && _); [|inv_ok; by left].
  bok H as id _. bok H as r _. inv_ok. right. eauto.
Qed.

Lemma deleteTransition_length i a e e' : e_transitions e !! i = Some a →
  deleteTransition i e = Ok e' → S (length (e_transitions e')) = length (e_transitions e).
Proof.
  unfold deleteTransition. intros Hi%lookup_lt_Some H. inv_ok.
  rewrite length_app, length_take, length_drop. lia.
Qed.
Lemma completeTransition_length p i a rctx slot e e' : e_transitions e !! i = Some a →
  completeTransition p i rctx slot e = Ok e' → S (length (e_transitions e')) = length (e_transitions e).
Proof.
  unfold completeTransition. intros Hi H. bok H as g _.
  eapply deleteTransition_length in H;
    rewrite (proj1 (slot_SetActive_fields slot rctx None (set_g g e))) in *; done.
Qed.

(** One iteration of the settle loop: a sequence of steps; it reports progress only if it made
    some; and the distance to the end of the shadow index decreases. *)
Lemma settle_one_steps i a ch pr e i' ch' pr' e' :
  e_transitions e !! i = Some a → settle_one clock i a ch pr e = Ok (i', ch', pr', e') →
  rtc sstep e e' ∧ (pr' = true → pr = true ∨ progress e e') ∧
  (length (e_transitions e') - i' < length (e_transitions e) - i)%nat.
Proof.
  intros Hi H. unfold settle_one in H.
  assert (Ha : a ∈ e_transitions e) by (by eapply list_elem_of_lookup_2).
  pose proof (lookup_lt_Some _ _ _ Hi) as Hlt.
  bok H as t Ht%index_Ok.
  destruct (reg_get _ _ _) as [p|] eqn:Hp;
    [|injection H as <- <- <- <-; split_and!; [done|by left|lia]].
  apply reg_get_registered in Hp. bok H as [rctx slot] Hslot%settle_resolve_resolved.
  destruct (findCurrentStepIdx t) as [k|] eqn:Hk.
  - bok H as [[[cr msg] c1] e1] Hc. bok H as s Hs%index_Ok.
    apply confirmStep_steps in Hc as (H1 & Htr1 & Hg1 & Hm1); [|done].
    assert (Hcf : same_config e e1) by (by apply rtc_sstep_config).
    set (e2 := slot_SetStatus slot rctx msg (st_details s) e1) in *.
    assert (H2 : rtc sstep e e2)
      by (etrans; [exact H1|]; apply SetStatus_steps; by eapply resolved_config).
    destruct (slot_SetStatus_fields slot rctx msg (st_details s) e1) as (F1 & F2 & F3).
    destruct (Hm1 t Ht) as (t1 & Ht1 & Hst). apply findStepIdx_status in Hst.
    fold (findCurrentStepIdx t1) in Hst. fold (findCurrentStepIdx t) in Hst. rewrite Hk in Hst.
    fold e2 in F1, F2, F3. rewrite Htr1 in F1.
    destruct (negb _); [injection H as <- <- <- <-; split_and!; [done|by left|rewrite F1; lia]|].
    bok H as g Hg.
    assert (H3 : rtc sstep e (set_g g e2)).
    { etrans; [exact H2|]. apply rtc_once. eapply Es_effect; [by rewrite F3, (proj1 Hcf)|].
      eapply pe_stepDone; [by eapply list_elem_of_lookup_2|done]. }
    assert (Hcf3 : same_config e (set_g g e2)) by (by apply rtc_sstep_config).
    assert (Hp3 : registered (e_registry (set_g g e2)) p) by (by rewrite (proj1 Hcf3)).
    destruct (_ <? _)%nat; bok H as e3 H3'; injection H as <- <- <- <-.
    + eapply settle_advance_steps in H3' as [H4 Htr]; try done.
      * split_and!; [etrans; [exact H3|by apply progress_steps]| |rewrite Htr; simpl; rewrite F1; lia].
        intros _. right. by eapply progress_l.
      * by eapply resolved_config.
      * simpl. by rewrite F1.
      * simpl. rewrite F2. exact Ht1.
    + assert (Hi3 : e_transitions (set_g g e2) !! i = Some a) by (simpl; by rewrite F1).
      pose proof (completeTransition_length _ _ _ _ _ _ _ Hi3 H3') as Hl. simpl in Hl. rewrite F1 in Hl.
      apply completeTransition_steps in H3' as (e4 & H4 & H5 & _); [|done|by eapply resolved_config].
      assert (progress e e3) by (exists e4, e3; split_and!; [by etrans|done|done]).
      split_and!; [by apply progress_steps|by right|lia].
  - bok H as e1 He1. injection H as <- <- <- <-.
    pose proof (completeTransition_length _ _ _ _ _ _ _ Hi He1) as Hl.
    apply completeTransition_steps in He1 as (e2 & H1 & H2 & _); [|done|done].
    assert (progress e e1) by (by exists e2, e1).
    split_and!; [by apply progress_steps|by right|lia].
Qed.

Lemma settle_loop_steps fuel i ch pr e ch' pr' e' :
  settle_loop clock fuel i ch pr e = Ok (ch', pr', e') →
  rtc sstep e e' ∧ (pr' = true → pr = true ∨ progress e e').
Proof.
  revert i ch pr e. induction fuel as [|fuel IH]; intros i ch pr e H; simpl in H; [done|].
  destruct (e_transitions e !! i) as [a|] eqn:Hi;
    [|injection H as <- <- <-; split; [done|by left]].
  bok H as [[[i1 ch1] pr1] e1] H1. apply settle_one_steps in H1 as (H1 & HP & _); [|done].
  apply IH in H as [H2 HP2]. split; [by etrans|]. intros ->.
  destruct (HP2 eq_refl) as [->|Hpr]; [|right; by eapply progress_l].
  destruct (HP eq_refl); [by left|right; by eapply progress_r].
Qed.

Lemma settle_until_stable_steps fuel ch e ch' e' :
  settle_until_stable clock fuel ch e = Ok (ch', e') → rtc sstep e e'.
Proof.
  revert ch e. induction fuel as [|fuel IH]; intros ch e H; simpl in H; [done|].
  bok H as [[c pr] e1] He1. apply settle_loop_steps in He1 as [He1 _].
  destruct pr; [|by inv_ok]. etrans; [done|by eapply IH].
Qed.

Lemma rtc_slot_effect_SetActive slot rctx a e : resolved e slot →
  rtc (slot_effect (e_registry e)) (e_g e) (e_g (slot_SetActive slot rctx a e)).
Proof.
  intros [->|[id ->]]; [done|]. unfold slot_SetActive.
  destruct (replicaSlotAccessor _ id) as [sl|] eqn:E, rctx; try done.
  apply rtc_once. by eapply se_active.
Qed.

Lemma cancelActive_steps p rctx slot e e' : resolved e slot →
  cancelActive p rctx slot e = Ok e' → rtc sstep e e'.
Proof.
  unfold cancelActive. intros Hs H. destruct (pl_cancelActiveOnCreate p); [|by inv_ok].
  destruct (slot_GetActive _ _ _) as [act|]; [|by inv_ok]. bok H as e1 H1. inv_ok.
  assert (H1' : rtc sstep e e1).
  { destruct (indexOf _ _); [|by inv_ok]. apply rtc_once, Es_prog. by eapply deleteTransition_steps. }
  etrans; [exact H1'|]. apply SetActive_steps. eapply resolved_config; [|done].
  by apply rtc_sstep_config.
Qed.

(** The part of dispatchOne after admission. *)
Lemma createTransition_steps p tt planID rctx slot e e1 a tempT reason det t g :
  reg_get (e_registry e) tt planID = Some p → resolved e slot →
  plan_callInit p (e_g e) rctx
    (blankTransition (pl_transitionType p) (pl_group p) ""
       match pl_scope p, rctx with ReplicaScope, Some r => rctx_Name (e_g e) r | _, _ => "" end [])
    = Ok tempT →
  trk_CanAdmit (e_tracker e) tempT (e_g e) = Ok (true, reason, det) →
  createTransition clock p planID rctx e = Ok (a, e1) →
  let e2 := slot_SetActive slot rctx (Some a) e1 in
  load e2 a = Ok t → trk_Add (e_tracker e2) a t (e_g e2) = Ok g →
  ecreate e (set_g g e2) ∧ a ∈ e_transitions e2 ∧ (0 < length (pl_steps p))%nat ∧
  ∃ name s0, plan_callInit p (e_g e) rctx (blankTransition (pl_transitionType p) (pl_group p)
     planID name (<[0%nat := with_started (clock (e_ticks e)) (with_status StepActive s0)]>
                    (map (λ s, newStep (st_name s)) (pl_steps p)))) = Ok t ∧
     e_mem e2 !! a = Some t.
Proof.
  intros Hreg Hs Hinit Hadm Hc e2 Hl Hadd. unfold createTransition in Hc.
  bok Hc as s0 Hs0. bok Hc as name Hname. bok Hc as t1 Ht1. inv_ok.
  set (e1 := set_transitions _ _) in *. subst e2.
  destruct (slot_SetActive_fields slot rctx (Some (length (e_mem e))) e1) as (F1 & F2 & F3 & F4 & _).
  unfold load in Hl. rewrite F2 in Hl. simpl in Hl. inv_ok.
  rewrite lookup_app_r, Nat.sub_diag in Hl by lia. injection Hl as <-.
  assert (Hslot := rtc_slot_effect_SetActive slot rctx (Some (length (e_mem e))) e1 ltac:(done)).
  assert (Hpos : (0 < length (pl_steps p))%nat) by (by destruct (pl_steps p); [|simpl; lia]).
  split_and!.
  - replace (set_g g (slot_SetActive slot rctx (Some (length (e_mem e))) e1)) with
      (set_g g (set_transitions (e_transitions e ++ [length (e_mem e)])
                 (set_mem (e_mem e ++ [t1]) (set_ticks (S (e_ticks e)) e))))
      by (by destruct slot, rctx).
    eapply (Es_create e p tt planID rctx name _ (clock (e_ticks e)) tempT reason det); try done.
    + destruct (pl_scope p); [by inv_ok|]. bok Hname as r Hr%deref_Ok. subst rctx. exists r.
      destruct (String.eqb_spec (rctx_Name (e_g e) r) ""); [done|]. by inv_ok.
    + rewrite <-Hinit. destruct (pl_scope p); [by inv_ok|].
      bok Hname as r Hr%deref_Ok. subst rctx. destruct (String.eqb _ _); [done|].
      by injection Hname as <-.
    + simpl. rewrite (proj2 (index_Ok _ _ _) Hs0). exact Ht1.
    + rewrite F3 in Hadd. exact Hadd.
  - rewrite F1. simpl. apply elem_of_app. right. by apply list_elem_of_singleton.
  - done.
  - exists name, s0. split; [done|]. rewrite F2. simpl. by rewrite lookup_app_r, Nat.sub_diag by lia.
Qed.

Lemma dispatchOne_steps p tt planID rctx slot e res msg e' : RegistryLaws (e_registry e) →
  reg_get (e_registry e) tt planID = Some p → resolved e slot →
  dispatchOne clock p planID rctx slot e = Ok (res, msg, e') → rtc estep e e'.
Proof.
  intros HL Hreg Hs H. unfold dispatchOne in H. bok H as e1 H1.
  apply cancelActive_steps in H1; [|done].
  assert (Hc1 : same_config e e1) by (by apply rtc_sstep_config).
  assert (Hs1 : resolved e1 slot) by (by eapply resolved_config).
  apply rtc_sstep_estep in H1. rewrite <-(proj1 Hc1) in Hreg, HL. clear Hs.
  bok H as c _. destruct c; [|by inv_ok|].
  2:{ inv_ok. etrans; [done|]. by apply rtc_sstep_estep, SetStatus_steps. }
  bok H as [gr g2] Hg. etrans; [exact H1|]. clear H1 Hc1.
  assert (H2 : rtc estep e1 (set_g g2 e1)).
  { apply rtc_once, Es_settle. eapply Es_effect; [by eapply reg_get_registered|]. by eapply pe_guards. }
  etrans; [exact H2|]. clear H2. set (e2 := set_g g2 e1) in *.
  assert (Hs2 : resolved e2 slot) by done.
  destruct (gr_Blocked gr); [inv_ok; by apply rtc_sstep_estep, SetStatus_steps|].
  bok H as tempT Htemp. bok H as [[allowed reason] det] Hadm.
  destruct allowed; simpl in H; [|inv_ok; by apply rtc_sstep_estep, SetStatus_steps].
  bok H as [a e3] H3. bok H as t4 H4. bok H as g4 Hg4. bok H as e5 H5.
  bok H as [[[cr m6] c6] e6] H6. bok H as s0 _. inv_ok.
  destruct (createTransition_steps p tt planID rctx slot e2 e3 a tempT reason det t4 g4)
    as (Hcr & Ha & Hpos & name & s1 & Hini & Hmem); try done.
  set (e4 := set_g g4 _) in *.
  assert (Hc4 : same_config e2 e4) by (by apply estep_config, Es_new).
  apply rl_init in Hini as (_ & _ & _ & _ & Hst); [|by eapply reg_get_registered].
  destruct (applyStep_steps p a rctx 0 e4 e5 t4) as (H5' & Htr5 & t5 & Ht5 & Hi5); try done.
  { rewrite (proj1 Hc4). by eapply reg_get_registered. }
  { unfold findCurrentStepIdx. rewrite Hst. simpl. by destruct (pl_steps p); [simpl in Hpos; lia|]. }
  eapply rtc_l; [by apply Es_new|]. apply rtc_sstep_estep. etrans; [exact H5'|].
  apply confirmStep_steps in H6 as (H6 & _); [|by rewrite Htr5].
  etrans; [exact H6|]. apply SetStatus_steps. eapply resolved_config; [|exact Hs2].
  etrans; [exact Hc4|]. etrans; by apply rtc_sstep_config.
Qed.

Lemma handleDecision_steps d e c e' : RegistryLaws (e_registry e) →
  handleDecision clock d e = Ok (c, e') → rtc estep e e'.
Proof.
  unfold handleDecision. intros HL H. destruct (String.eqb (d_planID d) "").
  { inv_ok. destruct (d_replicaCtx d); [|done]. destruct (String.eqb _ _); [done|].
    apply rtc_sstep_estep, slot_SetStatus_steps. }
  destruct (reg_get _ _ _) as [p|] eqn:Hp; [|done].
  bok H as [rctx slot] Hrs. bok H as [[t m] e1] H1. inv_ok.
  eapply dispatchOne_steps; try done.
  destruct (pl_scope p); [inv_ok; by left|]. destruct (d_replicaCtx d); inv_ok. right. eauto.
Qed.

Lemma run_decisions_steps ds ch e ch' e' : RegistryLaws (e_registry e) →
  run_decisions clock ds ch e = Ok (ch', e') → rtc estep e e'.
Proof.
  revert ds ch e. fix IH 1. intros [|d resume] ch e HL H; simpl in H; [by inv_ok|].
  destruct (handleDecision clock d e) as [[c e1]| |] eqn:Hd; [|done|done].
  apply handleDecision_steps in Hd; [|done].
  destruct (resume (e_mem e1) (e_g e1)) as [ds| |]; [|done|done].
  etrans; [exact Hd|]. eapply IH; [|exact H].
  by rewrite (proj1 (rtc_estep_config _ _ Hd)).
Qed.

Lemma run_dispatchers_steps ds ch e ch' e' : RegistryLaws (e_registry e) →
  run_dispatchers clock ds ch e = Ok (ch', e') → rtc estep e e'.
Proof.
  revert ch e. induction ds as [|d ds IH]; intros ch e HL H; simpl in H; [by inv_ok|].
  bok H as [c e1] H1. unfold runDispatch in H1. bok H1 as dd _.
  apply run_decisions_steps in H1; [|done]. etrans; [exact H1|]. eapply IH; [|done].
  by rewrite (proj1 (rtc_estep_config _ _ H1)).
Qed.

Lemma Process_steps e ch e' : RegistryLaws (e_registry e) →
  Process clock e = Ok (ch, e') → rtc estep e e'.
Proof.
  unfold Process. intros HL H. destruct (e_finalized e); [done|]. revert H.
  generalize false, maxOuter. intros b n. revert e b HL.
  induction n as [|n IH]; intros e b HL H; cbn [process_loop] in H; [by inv_ok|].
  bok H as [c1 e1] H1. bok H as [dp e2] H2. cbn beta iota in H.
  apply settle_until_stable_steps, rtc_sstep_estep in H1.
  assert (HL1 : RegistryLaws (e_registry e1)) by (by rewrite (proj1 (rtc_estep_config _ _ H1))).
  apply run_dispatchers_steps in H2; [|done].
  assert (HL2 : RegistryLaws (e_registry e2)) by (by rewrite (proj1 (rtc_estep_config _ _ H2))).
  etrans; [exact H1|]. etrans; [exact H2|]. destruct dp; [by eapply IH|by inv_ok].
Qed.
End steps.
