(* ===== verification/DmteTermination.v ===== *)
(** * Termination of the engine

    The unbounded loops of engine.go (the index loop of settleTransitions and the convergence loop
    of Process) are modelled with fuel; here the fuel is shown to be enough, for every registry,
    tracker and dispatchers whose callbacks terminate. *)

From Stdlib Require Import ZArith Lia String.
From stdpp Require Import base list numbers strings option relations.
From S2P Require Import Prelude IdSet DrbdSize Api Dmte DmteSteps.
Import v1alpha1 dmte.

Set Default Proof Using "Type".

Section termination.
Context {G R : Type} `{!ContextProvider G R} (clock : nat → Time).
Implicit Types (e : Engine G R) (p : plan G R) (t : Transition) (g : G).

(** A dispatcher that yields finitely many decisions and always resumes. *)
Inductive finite_decisions : decisions G R → Prop :=
| fd_done : finite_decisions Done
| fd_yield d resume :
    (∀ mem g, resume mem g ≠ OutOfFuel) →
    (∀ mem g ds, resume mem g = Ok ds → finite_decisions ds) →
    finite_decisions (Yield d resume).

(** Callbacks never run out of fuel themselves. *)
Class ProviderTerminates : Prop := {
  tm_replica g id : cp_Replica g id ≠ OutOfFuel;
  tm_generation g r : rctx_Generation g r ≠ OutOfFuel;
  tm_conditions g r : rctx_Conditions g r ≠ OutOfFuel;
}.
Class Terminating (reg : Registry G R) (trk : Tracker G) (ds : list (DispatchFunc G R)) : Prop := {
  tm_apply p s mem g rctx : registered reg p → s ∈ pl_steps p →
    step_apply s mem g rctx ≠ OutOfFuel;
  tm_confirm p s mem g rctx rev : registered reg p → s ∈ pl_steps p →
    step_confirm s mem g rctx rev ≠ OutOfFuel;
  tm_stepDone p s mem g rctx : registered reg p → s ∈ pl_steps p →
    step_callOnComplete s mem g rctx ≠ OutOfFuel;
  tm_planDone p mem g rctx : registered reg p → plan_callOnComplete p mem g rctx ≠ OutOfFuel;
  tm_guards p mem g rctx : registered reg p → plan_evaluateGuards p mem g rctx ≠ OutOfFuel;
  tm_init p g rctx t : registered reg p → plan_callInit p g rctx t ≠ OutOfFuel;
  tm_add a t g : trk_Add trk a t g ≠ OutOfFuel;
  tm_remove t g : trk_Remove trk t g ≠ OutOfFuel;
  tm_admit t g : trk_CanAdmit trk t g ≠ OutOfFuel;
  tm_dispatch d mem g : d ∈ ds →
    d mem g ≠ OutOfFuel ∧ ∀ dd, d mem g = Ok dd → finite_decisions dd;
}.

(** ** The settle measure: remaining steps of every transition, plus one for its removal *)
Definition remaining (t : Transition) : nat :=
  match findCurrentStepIdx t with
  | Some i => S (length (t_Steps t) - i)
  | None => 1
  end.
Definition remaining_at (mem : tmem) (a : ptr) : nat :=
  match mem !! a with Some t => remaining t | None => 1%nat end.
Definition measure e : nat := sum_list_with (remaining_at (e_mem e)) (e_transitions e).

Lemma measure_bound e : (measure e ≤ settle_bound e)%nat.
Proof.
  apply sum_list_with_le. intros a _. unfold remaining_at, remaining.
  destruct (e_mem e !! a) as [t|]; [|done]. destruct (findCurrentStepIdx t); lia.
Qed.

Lemma remaining_store mem a t b t0 : mem !! a = Some t0 →
  remaining_at (<[a := t]> mem) b = if decide (a = b) then remaining t else remaining_at mem b.
Proof.
  intros Ha. unfold remaining_at. case_decide as Hd; subst.
  - by rewrite list_lookup_insert_eq by (by eapply lookup_lt_Some).
  - by rewrite list_lookup_insert_ne.
Qed.

Lemma sprog_measure e e' : sprog e e' → (measure e' < measure e)%nat.
Proof.
  destruct 1 as [idx a t g' Ha Ht _|a i t t' now n Ha Ht Hi H]; unfold measure; simpl.
  - rewrite sum_list_with_app.
    assert (E : e_transitions e = take idx (e_transitions e) ++ a :: drop (S idx) (e_transitions e))
      by (by rewrite take_drop_middle).
    rewrite E at 3. rewrite sum_list_with_app. simpl.
    assert (0 < remaining_at (e_mem e) a)%nat; [|lia].
    unfold remaining_at, remaining. rewrite Ht. destruct (findCurrentStepIdx t); lia.
  - destruct (advance_current _ _ _ _ Hi H) as [Hi' Hlen].
    assert (S i < length (t_Steps t))%nat.
    { rewrite <-Hlen. apply findStepIdx_Some in Hi' as [(s & Hs & _) _]. by eapply lookup_lt_Some. }
    assert (Hlt : (remaining t' < remaining t)%nat)
      by (unfold remaining; rewrite Hi, Hi', Hlen; lia).
    apply sum_list_with_lt with a; [|done|].
    + intros b _. erewrite remaining_store by done. case_decide; subst; [|done].
      unfold remaining_at at 1. rewrite Ht. lia.
    + erewrite remaining_store by done. rewrite decide_True by done. unfold remaining_at. by rewrite Ht.
Qed.

Lemma update_remaining i f t t' : (∀ s, s_Status (f s) = s_Status s) →
  update_step i f t = Ok t' → remaining t' = remaining t.
Proof.
  unfold update_step, remaining, findCurrentStepIdx. intros Hf H. inv_ok. simpl.
  rewrite length_insert, (findStepIdx_status (<[i:=f r]> (t_Steps t)) (t_Steps t)); [done|].
  rewrite list_fmap_insert. apply list_insert_id. by rewrite list_lookup_fmap, E, Hf.
Qed.

Lemma sstep_measure e e' : sstep e e' → (measure e' ≤ measure e)%nat.
Proof.
  assert (Hupd : ∀ (e0 : Engine G R) a i f t t', e_mem e0 !! a = Some t →
    (∀ s, s_Status (f s) = s_Status s) → update_step i f t = Ok t' →
    (sum_list_with (remaining_at (<[a:=t']> (e_mem e0))) (e_transitions e0) ≤ measure e0)%nat).
  { intros e0 a i f t t' Ht Hf Hu. apply sum_list_with_le. intros b _.
    erewrite remaining_store by done. case_decide; subst; [|done].
    unfold remaining_at. by rewrite Ht, (update_remaining _ _ _ _ Hf Hu). }
  destruct 1 as [? H%sprog_measure|??|??|a i msg t t' Ha Ht Hu|p a i s rctx c g' t t' ???? Ht ? Hu];
    try done; [lia| |]; apply (Hupd e a i _ t t' Ht) in Hu; done.
Qed.
Lemma rtc_sstep_measure e e' : rtc sstep e e' → (measure e' ≤ measure e)%nat.
Proof. induction 1 as [|??? H%sstep_measure _ IH]; lia. Qed.
Lemma progress_measure e e' : progress e e' → (measure e' < measure e)%nat.
Proof.
  intros (e1 & e2 & H1%rtc_sstep_measure & H2%sprog_measure & H3%rtc_sstep_measure). lia.
Qed.

(** ** No loop runs out of fuel *)

(** Reduce [m ≠ OutOfFuel] to the callbacks called by [m]. *)
Ltac nofuel :=
  repeat first
    [ progress intros
    | apply bind_not_fuel
    | discriminate
    | apply index_not_fuel | apply deref_not_fuel
    | match goal with |- (let '(_, _) := ?x in _) ≠ _ => destruct x end ].

Context (HPT : ProviderTerminates).

Lemma update_step_not_fuel i f t : update_step i f t ≠ OutOfFuel.
Proof. unfold update_step. nofuel. Qed.
Lemma ReplicaID_not_fuel t : ReplicaID t ≠ OutOfFuel.
Proof. unfold ReplicaID. by destruct (String.eqb _ _). Qed.

Lemma diagnoseAll_not_fuel g types skip ids n m : diagnoseAll g types skip ids n m ≠ OutOfFuel.
Proof using HPT.
  revert n m. induction ids as [|id ids IH]; intros n m; simpl; [done|].
  apply bind_not_fuel; [apply tm_replica|]. intros [r|] _; [|apply IH].
  destruct (rctx_Exists g r); [|apply IH].
  apply bind_not_fuel; [apply tm_generation|]. intros gen _.
  apply bind_not_fuel; [apply tm_conditions|]. intros conds _.
  destruct (diagnoseReplica _ _ _ _ _ _ _ _ _ _). apply IH.
Qed.
Lemma generateProgressMessage_not_fuel g rev cr types skip :
  generateProgressMessage g rev cr types skip ≠ OutOfFuel.
Proof using HPT.
  unfold generateProgressMessage. destruct (idset.IsEmpty _); [done|].
  destruct types; [done|]. apply diagnoseAll_not_fuel.
Qed.

Lemma confirmStep_not_fuel p a rctx i ch e : Terminating (e_registry e) (e_tracker e) (e_dispatchers e) →
  registered (e_registry e) p → confirmStep p a rctx i ch e ≠ OutOfFuel.
Proof using HPT.
  intros HT Hp. unfold confirmStep, load. apply bind_not_fuel; [apply index_not_fuel|].
  intros s Hs%index_Ok. nofuel.
  - eapply tm_confirm; [done|by eapply list_elem_of_lookup_2].
  - apply generateProgressMessage_not_fuel.
  - destruct ch as [c|]; [destruct (String.eqb _ _); [done|]|];
      (apply bind_not_fuel; [apply update_step_not_fuel|done]).
Qed.
Lemma applyStep_not_fuel p a rctx i e : Terminating (e_registry e) (e_tracker e) (e_dispatchers e) →
  registered (e_registry e) p → applyStep p a rctx i e ≠ OutOfFuel.
Proof.
  intros HT Hp. unfold applyStep, load. apply bind_not_fuel; [apply index_not_fuel|].
  intros s Hs%index_Ok. nofuel.
  eapply tm_apply; [done|by eapply list_elem_of_lookup_2].
Qed.
Lemma advanceStep_not_fuel a i e : advanceStep clock a i e ≠ OutOfFuel.
Proof. unfold advanceStep, load. nofuel. Qed.
Lemma deleteTransition_not_fuel i e : Terminating (e_registry e) (e_tracker e) (e_dispatchers e) →
  deleteTransition i e ≠ OutOfFuel.
Proof. intros HT. unfold deleteTransition, load. nofuel. apply HT. Qed.
Lemma completeTransition_not_fuel p i rctx slot e :
  Terminating (e_registry e) (e_tracker e) (e_dispatchers e) → registered (e_registry e) p →
  completeTransition p i rctx slot e ≠ OutOfFuel.
Proof.
  intros HT Hp. unfold completeTransition. apply bind_not_fuel; [by eapply tm_planDone|].
  intros g _. apply deleteTransition_not_fuel. by destruct slot, rctx.
Qed.

Definition all_terminate e : Prop := Terminating (e_registry e) (e_tracker e) (e_dispatchers e).
Lemma all_terminate_config e e' : same_config e e' → all_terminate e → all_terminate e'.
Proof. intros (H1 & H2 & H3 & _). unfold all_terminate. by rewrite H1, H2, H3. Qed.

Lemma settle_advance_not_fuel p a rctx slot i e : all_terminate e → registered (e_registry e) p →
  settle_advance clock p a rctx slot i e ≠ OutOfFuel.
Proof using HPT.
  intros HT Hp. unfold settle_advance.
  apply bind_not_fuel; [apply advanceStep_not_fuel|]. intros e1 [Hc1 _]%advanceStep_frame.
  assert (Hp1 : registered (e_registry e1) p) by (by rewrite (proj1 Hc1)).
  assert (HT1 : all_terminate e1) by (by eapply all_terminate_config).
  apply bind_not_fuel; [by apply applyStep_not_fuel|]. intros e2 [Hc2 _]%applyStep_frame.
  assert (Hp2 : registered (e_registry e2) p) by (by rewrite (proj1 Hc2)).
  assert (HT2 : all_terminate e2) by (by eapply all_terminate_config).
  apply bind_not_fuel; [by apply confirmStep_not_fuel|]. intros [[[cr msg] ch] e3] _.
  apply bind_not_fuel; [apply index_not_fuel|done].
Qed.
Lemma settle_resolve_not_fuel p t e : settle_resolve p t e ≠ OutOfFuel.
Proof using HPT.
  unfold settle_resolve. destruct (_ && _); [|done].
  apply bind_not_fuel; [apply ReplicaID_not_fuel|]. intros id _.
  apply bind_not_fuel; [apply tm_replica|done].
Qed.
Lemma settle_one_not_fuel i a ch pr e : all_terminate e → e_transitions e !! i = Some a →
  settle_one clock i a ch pr e ≠ OutOfFuel.
Proof using HPT.
  intros HT Hi. unfold settle_one. apply bind_not_fuel; [apply index_not_fuel|]. intros t _.
  destruct (reg_get _ _ _) as [p|] eqn:Hp; [|done]. apply reg_get_registered in Hp.
  apply bind_not_fuel; [apply settle_resolve_not_fuel|]. intros [rctx slot] Hs%settle_resolve_resolved.
  assert (Hcomp : ∀ e1, same_config e e1 →
    (x ← completeTransition p i rctx slot e1; Ok (i, true, true, x)) ≠ OutOfFuel).
  { intros e1 Hc. apply bind_not_fuel; [|done].
    apply completeTransition_not_fuel; [by eapply all_terminate_config|by rewrite (proj1 Hc)]. }
  destruct (findCurrentStepIdx t); [|by apply Hcomp].
  apply bind_not_fuel; [by apply confirmStep_not_fuel|]. intros [[[cr msg] c1] e1] Hc.
  apply confirmStep_steps in Hc as (H1 & _); [|by eapply list_elem_of_lookup_2].
  apply rtc_sstep_config in H1.
  apply bind_not_fuel; [apply index_not_fuel|]. intros s Hs'%index_Ok.
  set (e2 := slot_SetStatus _ _ _ _ _).
  assert (Hc2 : same_config e e2) by (etrans; [exact H1|by destruct slot, rctx]).
  destruct (negb (_ =? MustConfirm cr)); [done|].
  apply bind_not_fuel; [eapply (tm_stepDone (Terminating := HT)); [done|by eapply list_elem_of_lookup_2]|]. intros g _.
  destruct (_ <? _)%nat; [|by apply Hcomp].
  apply bind_not_fuel; [|done]. apply settle_advance_not_fuel.
  - by eapply all_terminate_config.
  - simpl. by rewrite (proj1 Hc2).
Qed.

Lemma settle_loop_not_fuel fuel i ch pr e : all_terminate e →
  (length (e_transitions e) - i < fuel)%nat → settle_loop clock fuel i ch pr e ≠ OutOfFuel.
Proof using HPT.
  revert i ch pr e. induction fuel as [|fuel IH]; intros i ch pr e HT Hf; [lia|]. simpl.
  destruct (e_transitions e !! i) as [a|] eqn:Hi; [|done].
  apply bind_not_fuel; [by apply settle_one_not_fuel|].
  intros [[[i1 ch1] pr1] e1] (H1 & _ & Hl)%settle_one_steps; [|done].
  apply IH; [|lia]. eapply all_terminate_config; [|exact HT]. by apply rtc_sstep_config.
Qed.

Lemma settle_until_stable_not_fuel fuel ch e : all_terminate e → (measure e < fuel)%nat →
  settle_until_stable clock fuel ch e ≠ OutOfFuel.
Proof using HPT.
  revert ch e. induction fuel as [|fuel IH]; intros ch e HT Hf; [lia|]. simpl.
  apply bind_not_fuel; [apply settle_loop_not_fuel; [done|lia]|].
  intros [[c pr] e1] [H1 HP]%settle_loop_steps. destruct pr; [|done].
  destruct (HP eq_refl) as [?|Hp]; [done|]. apply IH.
  - eapply all_terminate_config; [|exact HT]. by apply rtc_sstep_config.
  - apply progress_measure in Hp. lia.
Qed.

Lemma createTransition_not_fuel p planID rctx e : all_terminate e → registered (e_registry e) p →
  createTransition clock p planID rctx e ≠ OutOfFuel.
Proof.
  intros HT Hp. unfold createTransition. apply bind_not_fuel; [apply index_not_fuel|]. intros s0 _.
  apply bind_not_fuel.
  - destruct (pl_scope p); [done|]. apply bind_not_fuel; [apply deref_not_fuel|].
    intros r _. by destruct (String.eqb _ _).
  - intros name _. apply bind_not_fuel; [by eapply (tm_init (Terminating := HT))|done].
Qed.

Lemma dispatchOne_not_fuel p tt planID rctx slot e : RegistryLaws (e_registry e) → all_terminate e →
  reg_get (e_registry e) tt planID = Some p → resolved e slot →
  dispatchOne clock p planID rctx slot e ≠ OutOfFuel.
Proof using HPT.
  intros HL HT Hp Hs. unfold dispatchOne. apply reg_get_registered in Hp.
  apply bind_not_fuel.
  { unfold cancelActive. destruct (pl_cancelActiveOnCreate p); [|done].
    destruct (slot_GetActive _ _ _); [|done]. apply bind_not_fuel; [|done].
    destruct (indexOf _ _); [by apply deleteTransition_not_fuel|done]. }
  intros e1 H1%cancelActive_steps; [|done]. apply rtc_sstep_config in H1.
  assert (HT1 : all_terminate e1) by (by eapply all_terminate_config).
  rewrite <-(proj1 H1) in Hp. clear HL.
  apply bind_not_fuel.
  { unfold slotConflict. destruct (slot_GetActive _ _ _); [|done].
    apply bind_not_fuel; [apply index_not_fuel|]. intros t _. by destruct (bool_decide _). }
  intros [] _; [|done|done]. apply bind_not_fuel; [by eapply (tm_guards (Terminating := HT1))|]. intros [gr g] _.
  destruct (gr_Blocked gr); [done|]. apply bind_not_fuel; [by eapply (tm_init (Terminating := HT1))|]. intros tempT _.
  apply bind_not_fuel; [apply HT1|]. intros [[allowed reason] det] _. destruct (negb _); [done|].
  apply bind_not_fuel; [by apply createTransition_not_fuel|]. intros [a e2] H2.
  assert (Hc2 : same_config e1 e2).
  { unfold createTransition in H2. bok H2 as s0 _. bok H2 as nm _. bok H2 as t0 _. by inv_ok. }
  set (e3 := slot_SetActive _ _ _ _).
  assert (Hc3 : same_config e1 e3) by (etrans; [exact Hc2|by destruct slot, rctx]).
  apply bind_not_fuel; [apply index_not_fuel|]. intros t _.
  apply bind_not_fuel; [apply (all_terminate_config _ _ Hc3 HT1)|]. intros g' _.
  assert (HT4 : all_terminate (set_g g' e3)) by (by eapply all_terminate_config).
  assert (Hp4 : registered (e_registry (set_g g' e3)) p) by (simpl; by rewrite (proj1 Hc3)).
  apply bind_not_fuel; [by apply applyStep_not_fuel|]. intros e5 [Hc5 _]%applyStep_frame.
  apply bind_not_fuel.
  { apply confirmStep_not_fuel; [by eapply all_terminate_config|by rewrite (proj1 Hc5)]. }
  intros [[[cr m] c] e6] _. apply bind_not_fuel; [apply index_not_fuel|done].
Qed.

Lemma run_decisions_not_fuel ds ch e : RegistryLaws (e_registry e) → all_terminate e →
  finite_decisions ds → run_decisions clock ds ch e ≠ OutOfFuel.
Proof using HPT.
  intros HL HT Hf. revert ch e HL HT. induction Hf as [|d resume Hr Hd IH]; intros ch e HL HT; simpl; [done|].
  destruct (handleDecision clock d e) as [[c e1]| |] eqn:E; [|done|].
  - apply handleDecision_steps, rtc_estep_config in E; [|done].
    destruct (resume (e_mem e1) (e_g e1)) as [ds| |] eqn:Eds; [|done|by destruct (Hr (e_mem e1) (e_g e1))].
    eapply IH; [exact Eds| |by eapply all_terminate_config]. by rewrite (proj1 E).
  - intros _. revert E. change (handleDecision clock d e ≠ OutOfFuel). unfold handleDecision.
    destruct (String.eqb _ _); [done|]. destruct (reg_get _ _ _) as [p|] eqn:Hp; [|done].
    apply bind_not_fuel; [destruct (pl_scope p); [done|by destruct (d_replicaCtx d)]|].
    intros [rctx slot] Hrs. apply bind_not_fuel; [|by intros [[? ?] ?]].
    eapply dispatchOne_not_fuel; try done.
    destruct (pl_scope p); [inv_ok; by left|]. destruct (d_replicaCtx d); inv_ok. right. eauto.
Qed.

Lemma run_dispatchers_not_fuel ds ch e : RegistryLaws (e_registry e) → all_terminate e →
  (∀ d, d ∈ ds → d ∈ e_dispatchers e) → run_dispatchers clock ds ch e ≠ OutOfFuel.
Proof using HPT.
  revert ch e. induction ds as [|d ds IH]; intros ch e HL HT Hin; simpl; [done|].
  destruct (tm_dispatch d (e_mem e) (e_g e) (Terminating := HT)) as [Hd Hfd]; [apply Hin; set_solver|].
  unfold runDispatch. apply bind_not_fuel.
  - apply bind_not_fuel; [done|]. intros dd Hdd. apply run_decisions_not_fuel; [done|done|by apply Hfd].
  - intros [c e1] H1. bok H1 as dd _. apply run_decisions_steps, rtc_estep_config in H1; [|done].
    apply IH; [by rewrite (proj1 H1)|by eapply all_terminate_config|].
    destruct H1 as (_ & _ & -> & _). set_solver.
Qed.

Lemma Process_not_fuel e : RegistryLaws (e_registry e) → all_terminate e →
  Process clock e ≠ OutOfFuel.
Proof using HPT.
  unfold Process. destruct (e_finalized e); [done|]. generalize false, maxOuter.
  intros b n. revert b e. induction n as [|n IH]; intros b e HL HT; cbn [process_loop]; [done|].
  apply bind_not_fuel.
  { apply settle_until_stable_not_fuel; [done|]. pose proof (measure_bound e). lia. }
  intros [c e1] H1%settle_until_stable_steps. apply rtc_sstep_config in H1.
  assert (HT1 : all_terminate e1) by (by eapply all_terminate_config).
  assert (HL1 : RegistryLaws (e_registry e1)) by (by rewrite (proj1 H1)).
  apply bind_not_fuel; [by apply run_dispatchers_not_fuel|].
  intros [dp e2] H2%run_dispatchers_steps; [|done]. apply rtc_estep_config in H2.
  destruct dp; [|done]. apply IH; [by rewrite (proj1 H2)|by eapply all_terminate_config].
Qed.
End termination.
