(* ===== verification/DmteInvariants.v ===== *)
(** * Invariants of the engine

    Proved by rule induction on the step relation of DmteSteps:
    - the shadow index is a strictly increasing list of valid addresses ([index_wf]);
    - every active transition has the shape Completed* Active Pending* ([shaped]);
    - the tracker state describes the active transitions and admits no conflicting ones, for any
      tracker satisfying [TrackerLaws];
    - a preorder on global contexts that every callback, slot and tracker operation respects relates
      the context before and after any run; the replica names of the active transitions always come
      from the stored transitions or from replica contexts. *)

From Stdlib Require Import ZArith Lia String Sorted.
From stdpp Require Import base list numbers strings option relations sorting.
From S2P Require Import Prelude IdSet DrbdSize Api Dmte DmteSteps.
Import v1alpha1 dmte.

Set Default Proof Using "Type".

(** ** Shape of the steps *)
Fixpoint shape (l : list StepStatus) : bool :=
  match l with
  | StepCompleted :: l => shape l
  | StepActive :: l => forallb (λ s, bool_decide (s = StepPending)) l
  | _ => false
  end.
Definition shaped (t : Transition) : Prop := shape (s_Status <$> t_Steps t) = true.

Lemma shape_spec l : shape l = true ↔
  ∃ k m, l = replicate k StepCompleted ++ StepActive :: replicate m StepPending.
Proof.
  split.
  - induction l as [|[] l IH]; intros H; simpl in H; try done.
    + exists 0%nat, (length l). simpl. f_equal. clear IH. induction l as [|s l IH]; [done|].
      simpl in *. apply andb_prop in H as [?%bool_decide_eq_true H]. subst. f_equal. by apply IH.
    + destruct (IH H) as (k & m & ->). by exists (S k), m.
  - intros (k & m & ->). induction k as [|k IH]; simpl; [|done].
    by induction m as [|m IH].
Qed.

(** The current step of a shaped transition is its Active step. *)
Lemma shape_current steps : shape (s_Status <$> steps) = true →
  ∃ i s, findStepIdx steps = Some i ∧ steps !! i = Some s ∧ s_Status s = StepActive.
Proof.
  induction steps as [|s steps IH]; simpl; [done|]. unfold step_completed.
  destruct (s_Status s) eqn:Es; simpl; try done.
  - intros _. exists 0%nat, s. done.
  - intros H. destruct (IH H) as (i & s' & -> & ? & ?). by exists (S i), s'.
Qed.

(** Completing the Active step and activating the next keeps the shape. *)
Lemma shape_advance l i : shape l = true → l !! i = Some StepActive → (S i < length l)%nat →
  shape (<[S i := StepActive]> (<[i := StepCompleted]> l)) = true.
Proof.
  revert i. induction l as [|s l IH]; intros i H Hi Hlt; [done|].
  destruct i as [|i]; simpl in *.
  - simplify_eq. destruct l as [|s l]; simpl in *; [lia|]. by apply andb_prop in H as [_ H].
  - destruct s; simpl in *; try done; [|apply IH; [done|done|lia]].
    assert (E : bool_decide (StepActive = StepPending) = true); [|done].
    rewrite forallb_forall in H. apply H. apply list_elem_of_In. by eapply list_elem_of_lookup_2.
Qed.

Section invariants.
Context {G R : Type} `{!ContextProvider G R} (clock : nat → Time).
Implicit Types (e : Engine G R) (p : plan G R) (t : Transition) (g : G).

(** ** The shadow index *)
Record index_wf e : Prop := {
  iw_sorted : StronglySorted lt (e_transitions e);
  iw_bound : Forall (λ a, (a < length (e_mem e))%nat) (e_transitions e);
  iw_cap : (e_origLen e ≤ e_origCap e ≤ length (e_mem e))%nat;
  iw_region : Forall (λ a, (a < e_origLen e ∨ e_origCap e ≤ a)%nat) (e_transitions e);
}.

(** The active transitions: the cells the shadow index points to. *)
Definition cell e (a : ptr) : Transition := default zeroTransition (e_mem e !! a).
Definition active e : list (ptr * Transition) := (λ a, (a, cell e a)) <$> e_transitions e.

Lemma StronglySorted_app_last (l : list nat) n : StronglySorted lt l →
  Forall (λ a, (a < n)%nat) l → StronglySorted lt (l ++ [n]).
Proof.
  induction 1 as [|a l H IH Ha]; intros Hn; simpl; [by repeat constructor|].
  apply Forall_cons in Hn as [? ?]. constructor; [by apply IH|].
  apply Forall_app. split; [done|by repeat constructor].
Qed.
Lemma StronglySorted_delete (l : list nat) i : StronglySorted lt l →
  StronglySorted lt (take i l ++ drop (S i) l).
Proof.
  intros H. revert i. induction H as [|a l H IH Ha]; intros [|i]; simpl; [constructor|constructor|done|].
  constructor; [apply IH|]. apply Forall_app. split; [by apply Forall_take|by apply Forall_drop].
Qed.
Lemma Forall_delete_at {A} (P : A → Prop) l i : Forall P l → Forall P (take i l ++ drop (S i) l).
Proof. intros H. apply Forall_app. split; [by apply Forall_take|by apply Forall_drop]. Qed.

Lemma index_wf_estep e e' : estep e e' → index_wf e → index_wf e'.
Proof.
  intros H [Hs Hb Hc Hr]. destruct H as [e' H|e' H].
  - destruct H as [e' H| | |a i msg t t' ? ? ?|p a i s rctx c g' t t' ? ? ? ? ? ? ?]; try done.
    + destruct H; constructor; simpl; rewrite ?length_insert; try done;
        by (apply StronglySorted_delete || apply Forall_delete_at).
    + constructor; simpl; by rewrite ?length_insert.
    + constructor; simpl; by rewrite ?length_insert.
  - destruct H. constructor; simpl; rewrite ?length_app; simpl.
    + by apply StronglySorted_app_last.
    + apply Forall_app. split; [|apply Forall_singleton; simpl; lia].
      eapply Forall_impl; [exact Hb|]. simpl. intros. lia.
    + lia.
    + apply Forall_app. split; [done|]. apply Forall_singleton. lia.
Qed.
Lemma index_wf_steps e e' : rtc estep e e' → index_wf e → index_wf e'.
Proof. induction 1 as [|??? H _ IH]; [done|]. intros Hw. by eapply IH, index_wf_estep. Qed.

(** ** What a step does to the active transitions *)

(** Two transitions with the same identity and metadata (their steps may differ). *)
Definition same_meta t t' : Prop := set_t_Steps [] t = set_t_Steps [] t'.
Definition same_active (x y : ptr * Transition) : Prop := x.1 = y.1 ∧ same_meta x.2 y.2.

Lemma cell_store e a t b t0 : e_mem e !! a = Some t0 →
  cell (store a t e) b = if decide (a = b) then t else cell e b.
Proof.
  intros Ha. unfold cell. simpl. case_decide as Hd; subst.
  - by rewrite list_lookup_insert_eq by (by eapply lookup_lt_Some).
  - by rewrite list_lookup_insert_ne.
Qed.
Lemma update_step_meta i f t t' : update_step i f t = Ok t' → same_meta t t'.
Proof. unfold update_step. intros H. by inv_ok. Qed.

Lemma active_store e a t t0 : e_mem e !! a = Some t0 → same_meta t0 t →
  Forall2 same_active (active e) (active (store a t e)).
Proof.
  intros Ha Hm. unfold active. apply Forall2_fmap, Forall_Forall2_diag, Forall_forall.
  intros b _. split; [done|]. simpl. erewrite cell_store by done. case_decide; subst; [|done].
  unfold cell. by rewrite Ha.
Qed.

Lemma same_active_refl l : Forall2 same_active l l.
Proof. apply Forall_Forall2_diag, Forall_forall. by split. Qed.

Lemma active_delete e i g : active (set_transitions (take i (e_transitions e) ++ drop (S i) (e_transitions e)) (set_g g e))
  = take i (active e) ++ drop (S i) (active e).
Proof. unfold active. simpl. rewrite fmap_app, fmap_take, fmap_drop. done. Qed.

Lemma active_create e t g n : index_wf e →
  active (set_g g (set_transitions (e_transitions e ++ [length (e_mem e)])
                 (set_mem (e_mem e ++ [t]) (set_ticks n e)))) = active e ++ [(length (e_mem e), t)].
Proof.
  intros Hw. unfold active. simpl. rewrite fmap_app. simpl. f_equal.
  - apply list_fmap_ext. intros i a Ha. f_equal. unfold cell. simpl.
    pose proof (iw_bound e Hw) as Hb. rewrite Forall_lookup in Hb.
    by rewrite lookup_app_l by (by eapply Hb).
  - unfold cell. simpl. by rewrite lookup_app_r, Nat.sub_diag by lia.
Qed.

(** ** Shapes are preserved *)
Definition all_shaped e : Prop := Forall (λ x, shaped x.2) (active e).

Lemma Forall_active_store (P : Transition → Prop) e a t t0 : e_mem e !! a = Some t0 →
  Forall (λ x, P x.2) (active e) → (P t0 → P t) → a ∈ e_transitions e →
  Forall (λ x, P x.2) (active (store a t e)).
Proof.
  intros Ha HP Ht Hin. unfold active in *. rewrite Forall_fmap in *. rewrite Forall_forall in *.
  intros b Hb. simpl. erewrite cell_store by done. case_decide; [|by apply HP].
  specialize (HP a Hin). simpl in HP. unfold cell in HP. rewrite Ha in HP. by apply Ht.
Qed.

Lemma shaped_update i f t t' : (∀ s, s_Status (f s) = s_Status s) → update_step i f t = Ok t' →
  shaped t → shaped t'.
Proof.
  unfold update_step, shaped. intros Hf H. inv_ok. simpl. rewrite list_fmap_insert, Hf.
  rewrite list_insert_id; [done|]. by rewrite list_lookup_fmap, E.
Qed.

Lemma shaped_advance i now t t' : findCurrentStepIdx t = Some i →
  (t1 ← update_step i (λ s, with_completed now (with_status StepCompleted s)) t;
   update_step (S i) (λ s, with_started now (with_status StepActive s)) t1) = Ok t' →
  shaped t → shaped t'.
Proof.
  unfold shaped, update_step, findCurrentStepIdx. intros Hi H Hsh.
  destruct (shape_current _ Hsh) as (j & s & Hj & Hs & Hst). rewrite Hi in Hj. simplify_eq.
  assert (Hst' : (s_Status <$> t_Steps t) !! j = Some StepActive)
    by (by rewrite list_lookup_fmap, Hs; simpl; rewrite Hst).
  bok H as t1 H1. bok H1 as s1 Hs1%index_Ok. inv_ok. rewrite !list_fmap_insert. simpl.
  apply shape_advance; [done|done|].
  rewrite length_fmap. apply lookup_lt_Some in E. by rewrite length_insert in E.
Qed.

Lemma shaped_create steps s0 now (st : list (step G R)) : steps = map (λ s, newStep (st_name s)) st →
  steps !! 0%nat = Some s0 →
  shape (s_Status <$> <[0%nat := with_started now (with_status StepActive s0)]> steps) = true.
Proof.
  intros -> H. destruct st as [|s st]; [done|]. simpl. clear H.
  induction st as [|s' st IH]; simpl; [done|]. by rewrite IH.
Qed.

Lemma all_shaped_estep e e' : RegistryLaws (e_registry e) → index_wf e →
  estep e e' → all_shaped e → all_shaped e'.
Proof.
  intros HL Hw H Hs. unfold all_shaped in *. destruct H as [e' H|e' H].
  - destruct H as [e' H| | |a i msg t t' Ha Ht Hu|p a i s rctx c g' t t' ? ? ? Ha Ht ? Hu]; try done.
    + destruct H as [idx a t g' ? ? ?|a i t t' now n Ha Ht Hi Hadv].
      * rewrite active_delete. by apply Forall_delete_at.
      * apply (Forall_active_store shaped e a t' t); [done|done| |done].
        exact (shaped_advance i now t t' Hi Hadv).
    + apply (Forall_active_store shaped e a t' t); [done|done| |done].
      by eapply shaped_update; [|exact Hu].
    + apply (Forall_active_store shaped e a t' t); [done|done| |done].
      by eapply shaped_update; [|exact Hu].
  - destruct H as [p tt planID rctx name steps now tempT reason det t g1 g' n Hp Hn Hi Hadm <- Ht Hg Hadd].
    rewrite active_create by done. apply Forall_app. split; [done|]. repeat constructor. simpl.
    bok Ht as s0 Hs0%index_Ok. apply rl_init in Ht as (_ & _ & _ & _ & Ht); [|by eapply reg_get_registered].
    unfold shaped. rewrite Ht. simpl. by eapply shaped_create.
Qed.

Lemma all_shaped_steps e e' : RegistryLaws (e_registry e) → index_wf e →
  rtc estep e e' → all_shaped e → all_shaped e'.
Proof.
  intros HL Hw H. revert HL Hw. induction H as [|e e1 e' H _ IH]; intros HL Hw Hs; [done|].
  apply IH; [by rewrite (proj1 (estep_config _ _ H))|by eapply index_wf_estep|by eapply all_shaped_estep].
Qed.

(** The engine built by NewEngine satisfies the index invariant. *)
Lemma NewEngine_spec reg trk ds rev ts spare g e :
  NewEngine reg trk ds rev ts spare g = Ok e →
  index_wf e ∧ active e = imap pair ts ∧ reg = Some (e_registry e) ∧ trk = Some (e_tracker e) ∧
  ds = e_dispatchers e ∧ e_finalized e = false ∧
  init_loop (e_registry e) (e_tracker e) 0 ts g = Ok (e_g e) ∧ rev = Some (e_revision e).
Proof.
  unfold NewEngine. intros H. destruct reg as [reg|], trk as [trk|], rev as [rev|]; try done.
  bok H as g1 Hg. injection H as <-. split_and!; try done.
  - constructor; simpl.
    + generalize (length ts), 0%nat. intros n. induction n as [|n IH]; intros k; simpl; constructor; [apply IH|].
      apply Forall_forall. intros x Hx. apply elem_of_seq in Hx. lia.
    + apply Forall_forall. intros x Hx%elem_of_seq. rewrite length_app. lia.
    + rewrite length_app. lia.
    + apply Forall_forall. intros x Hx%elem_of_seq. lia.
  - unfold active. simpl. apply list_eq. intros i.
    rewrite list_lookup_fmap, list_lookup_imap. destruct (ts !! i) as [t|] eqn:E.
    + rewrite lookup_seq_lt by (by eapply lookup_lt_Some). simpl. unfold cell. simpl.
      by rewrite lookup_app_l, E by (by eapply lookup_lt_Some).
    + apply lookup_ge_None in E. by rewrite lookup_seq_ge.
Qed.
End invariants.

(** ** The contract between the engine and its tracker

    [tracks g l]: the tracker state in [g] describes the active transitions [l].
    [conflict t t']: the two must not be active together. *)
Class TrackerLaws {G R : Type} (reg : Registry G R) (trk : Tracker G)
    (tracks : G → list (ptr * Transition) → Prop)
    (conflict : Transition → Transition → Prop) : Prop := {
  tl_meta g l l' : Forall2 same_active l l' → tracks g l → tracks g l';
  tl_conflict_meta t1 t2 t1' t2' : same_meta t1 t1' → same_meta t2 t2' →
    conflict t1' t2' → conflict t1 t2;
  tl_sym t1 t2 : conflict t1 t2 → conflict t2 t1;
  tl_add a t g g' l : tracks g l → trk_Add trk a t g = Ok g' → tracks g' (l ++ [(a, t)]);
  tl_remove a t g g' l r : tracks g (l ++ (a, t) :: r) →
    (∀ x, x ∈ l ++ r → ¬ conflict x.2 t) → trk_Remove trk t g = Ok g' → tracks g' (l ++ r);
  (* the stub [t1] shown to CanAdmit stands for the transition [t2] that is created *)
  tl_admit p g rctx ty grp planID name steps t1 t2 a g1 g' l reason det : registered reg p →
    plan_callInit p g rctx (blankTransition ty grp "" name []) = Ok t1 →
    plan_callInit p g rctx (blankTransition ty grp planID name steps) = Ok t2 →
    tracks g l → trk_CanAdmit trk t1 g = Ok (true, reason, det) → trk_Add trk a t2 g1 = Ok g' →
    ∀ x, x ∈ l → ¬ conflict x.2 t2;
  (* plan callbacks and slots leave the tracker state alone *)
  tl_effect p mem g g' l : registered reg p → plan_effect p mem g g' → tracks g l → tracks g' l;
  tl_apply p s mem g rctx c g' l : registered reg p → s ∈ pl_steps p →
    step_apply s mem g rctx = Ok (c, g') → tracks g l → tracks g' l;
  tl_slot g g' l : slot_effect reg g g' → tracks g l → tracks g' l;
}.

Section tracking.
Context {G R : Type} `{!ContextProvider G R} (clock : nat → Time).
Context (tracks : G → list (ptr * Transition) → Prop) (conflict : Transition → Transition → Prop).
Implicit Types (e : Engine G R).

(** No two active transitions conflict. *)
Definition exclusive (l : list (ptr * Transition)) : Prop :=
  ∀ i j x y, i ≠ j → l !! i = Some x → l !! j = Some y → ¬ conflict x.2 y.2.

Definition tracked e : Prop := tracks (e_g e) (active e) ∧ exclusive (active e).

Context (reg : Registry G R) (trk : Tracker G) (HT : TrackerLaws reg trk tracks conflict).
Context (HL : RegistryLaws reg).

Lemma exclusive_meta l l' : Forall2 same_active l l' → exclusive l → exclusive l'.
Proof using HT.
  intros HF H i j x y Hij Hx Hy Hc.
  destruct (Forall2_lookup_r _ _ _ _ _ HF Hx) as (x0 & Hx0 & _ & Hmx).
  destruct (Forall2_lookup_r _ _ _ _ _ HF Hy) as (y0 & Hy0 & _ & Hmy).
  apply (H i j x0 y0 Hij Hx0 Hy0). by eapply tl_conflict_meta.
Qed.

Lemma exclusive_delete l x r : exclusive (l ++ x :: r) →
  exclusive (l ++ r) ∧ ∀ y, y ∈ l ++ r → ¬ conflict y.2 x.2.
Proof.
  intros H.
  assert (Hsk : ∀ i y, (l ++ r) !! i = Some y →
    (l ++ x :: r) !! (if decide (i < length l)%nat then i else S i) = Some y).
  { intros i y. case_decide.
    - by rewrite !lookup_app_l by lia.
    - rewrite !lookup_app_r by lia. replace (S i - length l)%nat with (S (i - length l)) by lia. done. }
  assert (Hmid : (l ++ x :: r) !! length l = Some x) by (by rewrite lookup_app_r, Nat.sub_diag by lia).
  split.
  - intros i j y z Hij Hy%Hsk Hz%Hsk. eapply H; [|exact Hy|exact Hz]. repeat case_decide; lia.
  - intros y [i Hy]%list_elem_of_lookup. apply Hsk in Hy. eapply H; [|exact Hy|exact Hmid].
    case_decide; lia.
Qed.

Lemma exclusive_snoc l x : exclusive l → (∀ y, y ∈ l → ¬ conflict y.2 x.2) → exclusive (l ++ [x]).
Proof using HT.
  intros H Hx i j y z Hij Hy Hz Hc.
  apply lookup_app_Some in Hy, Hz. destruct Hy as [Hy|[Hi Hy]], Hz as [Hz|[Hj Hz]].
  - by eapply H.
  - apply list_lookup_singleton_Some in Hz as [_ <-]. eapply Hx; [|done]. by eapply list_elem_of_lookup_2.
  - apply list_lookup_singleton_Some in Hy as [_ <-].
    eapply Hx; [by eapply list_elem_of_lookup_2|]. by eapply tl_sym.
  - apply list_lookup_singleton_Some in Hy as [? _]. apply list_lookup_singleton_Some in Hz as [? _]. lia.
Qed.

Lemma tracked_store e a t t0 : e_mem e !! a = Some t0 → same_meta t0 t → tracked e →
  tracked (store a t e).
Proof using HT.
  intros Ha Hm [H1 H2]. pose proof (active_store e a t t0 Ha Hm) as HF.
  split; [by eapply tl_meta|by eapply exclusive_meta].
Qed.

Lemma tracks_slots g g' l : rtc (slot_effect reg) g g' → tracks g l → tracks g' l.
Proof using HT. induction 1 as [|???? _ IH]; intros; [done|]. apply IH. by eapply tl_slot. Qed.

Lemma tracked_estep e e' : e_registry e = reg → e_tracker e = trk → index_wf e →
  estep e e' → tracked e → tracked e'.
Proof using HT HL.
  intros Hreg Htrk Hw H HTr. destruct H as [e' H|e' H].
  - destruct H as [e' H|p g' Hp Hg|g' Hg|a i msg t t' Ha Ht Hu|p a i s rctx c g' t t' Hp Hs Hg Ha Ht ? Hu].
    + destruct H as [idx a t g' Ha Ht Hr|a i t t' now n Ha Ht Hi Hadv].
      * destruct HTr as [H1 H2]. rewrite Htrk in Hr.
        assert (Hx : active e !! idx = Some (a, t))
          by (unfold active; rewrite list_lookup_fmap, Ha; simpl; unfold cell; by rewrite Ht).
        rewrite <-(take_drop_middle _ _ _ Hx) in H1, H2. apply exclusive_delete in H2 as [H2 H3].
        unfold tracked. rewrite active_delete. split; [|done]. by eapply (tl_remove (trk := trk)).
      * bok Hadv as t1 H1. apply (tracked_store _ a t' t); [done| |done].
        apply update_step_meta in H1. etrans; [exact H1|]. by eapply update_step_meta.
    + destruct HTr as [H1 H2]. rewrite Hreg in Hp. split; [|done]. by eapply tl_effect.
    + destruct HTr as [H1 H2]. rewrite Hreg in Hg. split; [|done]. by eapply tl_slot.
    + apply (tracked_store _ a t' t); [done| |done]. by eapply update_step_meta.
    + apply (tracked_store _ a t' t); [done|by eapply update_step_meta|].
      destruct HTr as [H1 H2]. rewrite Hreg in Hp. split; [|done].
      eapply tl_apply; [done| |exact Hg|done]. by eapply list_elem_of_lookup_2.
  - destruct H as [p tt planID rctx name steps now tempT reason det t g1 g' n Hp Hn Hi Hadm <- Ht Hg Hadd].
    destruct HTr as [H1 H2]. rewrite Hreg in Hp, Hg. rewrite Htrk in Hadm, Hadd.
    pose proof (tracks_slots _ _ _ Hg H1) as Hg1.
    bok Ht as s0 Hs0. unfold tracked. rewrite active_create by done. simpl. split.
    + by eapply tl_add.
    + apply exclusive_snoc; [done|]. intros y Hy. simpl.
      eapply (tl_admit (TrackerLaws := HT));
        [by eapply reg_get_registered|exact Hi|exact Ht|exact H1|exact Hadm|exact Hadd|exact Hy].
Qed.

Lemma tracked_steps e e' : e_registry e = reg → e_tracker e = trk → index_wf e →
  rtc estep e e' → tracked e → tracked e'.
Proof using HT HL.
  intros Hr Ht Hw H. revert Hr Ht Hw. induction H as [|e e1 e' H _ IH]; intros Hr Ht Hw Hs; [done|].
  pose proof (estep_config _ _ H) as (E1 & E2 & _).
  apply IH; [congruence|congruence|by eapply index_wf_estep|by eapply tracked_estep].
Qed.

(** NewEngine registers every stored transition. *)
Lemma init_loop_tracks ts a g g' l : init_loop reg trk a ts g = Ok g' → tracks g l →
  tracks g' (l ++ imap (λ i t, (a + i, t)%nat) ts).
Proof using HT.
  revert a g l. induction ts as [|t ts IH]; intros a g l H Hl; simpl in H.
  { inv_ok. by rewrite app_nil_r. }
  bok H as g1 H1. bok H as g2 H2. apply (tl_add (TrackerLaws := HT) _ _ _ _ l Hl) in H1.
  assert (H3 : tracks g2 (l ++ [(a, t)])).
  { unfold initSlot in H2. destruct (String.eqb _ _); [by inv_ok|].
    destruct (reg_get _ _ _) as [p|]; [|by inv_ok]. destruct (negb _); [by inv_ok|].
    destruct (replicaSlotAccessor _ _) as [sl|] eqn:Esl; [|by inv_ok].
    bok H2 as id _. bok H2 as r _. destruct r; [|by inv_ok]. inv_ok.
    eapply tl_slot; [|done]. by eapply se_active. }
  eapply IH in H; [|exact H3]. rewrite <-app_assoc in H. simpl in H. rewrite imap_cons, Nat.add_0_r.
  erewrite imap_ext; [exact H|]. intros i x _. simpl. f_equal. lia.
Qed.
End tracking.


Class ContextRelation {G R : Type} (reg : Registry G R) (trk : Tracker G) (rel : relation G) : Prop := {
  cr_pre :: PreOrder rel;
  cr_effect p mem g g' : registered reg p → plan_effect p mem g g' → rel g g';
  cr_apply p s mem g rctx c g' : registered reg p → s ∈ pl_steps p →
    step_apply s mem g rctx = Ok (c, g') → rel g g';
  cr_slot g g' : slot_effect reg g g' → rel g g';
  cr_add a t g g' : trk_Add trk a t g = Ok g' → rel g g';
  cr_remove t g g' : trk_Remove trk t g = Ok g' → rel g g';
}.

(** ** Replica names of the active transitions *)
Section names.
Context {G R : Type} `{!ContextProvider G R}.
Implicit Types (e : Engine G R) (t : Transition) (g : G).
Context (reg : Registry G R) (HL : RegistryLaws reg).
Lemma names_estep (N : string → Prop) e e' : e_registry e = reg → index_wf e → N "" →
  (∀ r, N (rctx_Name (e_g e) r)) → estep e e' →
  Forall (λ x, N (t_ReplicaName x.2)) (active e) → Forall (λ x, N (t_ReplicaName x.2)) (active e').
Proof using HL.
  intros Hreg Hw N0 Hr [e1 H|e1 H] HN.
  - assert (Hup : ∀ i f t t', update_step i f t = Ok t' → t_ReplicaName t' = t_ReplicaName t)
      by (intros i f t t' Hu; unfold update_step in Hu; bok Hu as s _; by inv_ok).
    assert (Hst : ∀ a t t', e_mem e !! a = Some t → t_ReplicaName t' = t_ReplicaName t →
      a ∈ e_transitions e → Forall (λ x, N (t_ReplicaName x.2)) (active (store a t' e))).
    { intros a t t' Ha E Hin. eapply (Forall_active_store (λ t, N (t_ReplicaName t))); [done|done| |done].
      by rewrite E. }
    destruct H as [e2 [idx a t g' ? ? ?|a i t t' now n Ha Ht Hi H]| | 
      |a i msg t t' Ha Ht Hu|p a i s rctx c g' t t' ? ? ? Ha Ht ? Hu]; try done.
    + rewrite active_delete. by apply Forall_delete_at.
    + bok H as t1 H1. apply (Hst a t t'); try done. rewrite (Hup _ _ _ _ H). by apply (Hup _ _ _ _ H1).
    + apply (Hst a t t'); try done. by eapply Hup.
    + apply (Hst a t t'); try done. by eapply Hup.
  - destruct H as [p ty planID rctx name steps now tempT reason det t g1 g' n Hp Hn Hi Hadm <- Ht Hg Hadd].
    rewrite active_create by done. apply Forall_app_2; [done|]. constructor; [|done]. simpl.
    bok Ht as s0 Hs0. rewrite Hreg in Hp.
    apply (rl_init (RegistryLaws := HL)) in Ht as (_ & _ & _ & En & _); [|by eapply reg_get_registered].
    simpl in En. rewrite En. destruct (pl_scope p); [by subst|]. destruct Hn as (r & -> & <- & _). apply Hr.
Qed.
End names.

(** ** The relation along a run *)
Section context.
Context {G R : Type} `{!ContextProvider G R}.
Implicit Types (e : Engine G R) (t : Transition) (g : G).
Context (reg : Registry G R) (trk : Tracker G) (rel : relation G) (HC : ContextRelation reg trk rel).

Lemma rel_slots g g' : rtc (slot_effect reg) g g' → rel g g'.
Proof using HC. induction 1 as [g|g1 g2 g3 H _ IH]; [done|]. etrans; [by apply cr_slot|done]. Qed.

Lemma rel_estep e e' : e_registry e = reg → e_tracker e = trk → estep e e' → rel (e_g e) (e_g e').
Proof using HC.
  intros Hreg Htrk [e1 [e2 [idx a t g' Ha Ht Hr|a i t t' now n Ha Ht Hi H]|p g' Hp Hg|g' Hg
    |a i msg t t' Ha Ht Hu|p a i s rctx c g' t t' Hp Hs Hg Ha Ht ? Hu]|e1 H]; simpl; try done.
  - eapply cr_remove. by rewrite <-Htrk.
  - eapply cr_effect; [|done]. by rewrite <-Hreg.
  - apply cr_slot. by rewrite <-Hreg.
  - eapply cr_apply; [|by eapply list_elem_of_lookup_2|done]. by rewrite <-Hreg.
  - destruct H as [p ty planID rctx name steps now tempT reason det t g1 g' n Hp Hn Hi Hadm Hs Ht Hg Hadd].
    simpl. rewrite Hreg in Hg. rewrite Htrk in Hadd. etrans; [by apply rel_slots|by eapply cr_add].
Qed.
Lemma rel_steps e e' : e_registry e = reg → e_tracker e = trk → rtc estep e e' → rel (e_g e) (e_g e').
Proof using HC.
  intros Hreg Htrk H. induction H as [|e e1 e' H _ IH]; [done|].
  pose proof (estep_config _ _ H) as (E1 & E2 & _).
  etrans; [by apply rel_estep|apply IH; congruence].
Qed.
Lemma rel_init_loop ts a g g' : init_loop reg trk a ts g = Ok g' → rel g g'.
Proof using HC.
  revert a g. induction ts as [|t ts IH]; intros a g H; simpl in H; [by inv_ok|].
  bok H as g1 H1. bok H as g2 H2. etrans; [by eapply cr_add|]. etrans; [|by eapply IH].
  unfold initSlot in H2. destruct (String.eqb _ _); [by inv_ok|].
  destruct (reg_get _ _ _) as [p|]; [|by inv_ok]. destruct (negb _); [by inv_ok|].
  destruct (replicaSlotAccessor _ _) as [sl|] eqn:Esl; [|by inv_ok].
  bok H2 as id _. bok H2 as r _. destruct r; [|by inv_ok]. inv_ok.
  apply cr_slot. by eapply se_active.
Qed.

Context (HL : RegistryLaws reg).
Lemma names_steps (N : string → Prop) e e' : e_registry e = reg → e_tracker e = trk → index_wf e → N "" →
  (∀ g, rel (e_g e) g → ∀ r, N (rctx_Name g r)) → rtc estep e e' →
  Forall (λ x, N (t_ReplicaName x.2)) (active e) → Forall (λ x, N (t_ReplicaName x.2)) (active e').
Proof using HC HL.
  intros Hreg Htrk Hw N0 Hr H. revert Hreg Htrk Hw Hr.
  induction H as [|e e1 e' H _ IH]; intros Hreg Htrk Hw Hr HN; [done|].
  pose proof (estep_config _ _ H) as (E1 & E2 & _).
  apply IH; [congruence|congruence|by eapply index_wf_estep| |].
  - intros g Hg. apply Hr. etrans; [by apply rel_estep|done].
  - eapply names_estep; try done. apply Hr. reflexivity.
Qed.
End context.
