(* ===== verification/DmteFinalize.v ===== *)
(** * Finalize: reconciling the shadow index with the caller's slice

    Finalize copies the cells of the shadow index into the backing array, in place when it has
    room.  The copies go forward and never overwrite a cell still to be read, because the index is
    strictly increasing; slot pointers follow the cells. *)

From Stdlib Require Import ZArith Lia String Sorted.
From stdpp Require Import base list numbers strings option relations.
From S2P Require Import Prelude IdSet DrbdSize Api Dmte DmteSteps DmteInvariants.
Import v1alpha1 dmte.

Set Default Proof Using "Type".

(** What Finalize relies on about slot accessors: they behave as fields of the replica contexts. *)
Class SlotLaws {G R : Type} `{!ContextProvider G R} (reg : Registry G R) : Prop := {
  sl_get_set id sl g r a : replicaSlotAccessor reg id = Some sl →
    is_Some (GetActiveTransition sl g r) →
    GetActiveTransition sl (SetActiveTransition sl g r a) r = a;
  sl_get_other id sl id' sl' g r r' a : replicaSlotAccessor reg id = Some sl →
    replicaSlotAccessor reg id' = Some sl' → id ≠ id' ∨ r ≠ r' →
    GetActiveTransition sl (SetActiveTransition sl' g r' a) r = GetActiveTransition sl g r;
  sl_replica id sl g r a rid : replicaSlotAccessor reg id = Some sl →
    cp_Replica (SetActiveTransition sl g r a) rid = cp_Replica g rid;
}.

Section finalize.
Context {G R : Type} `{!EqDecision R} `{!ContextProvider G R}.
Implicit Types (e : Engine G R) (t : Transition) (g : G).

Lemma sorted_lower (l : list nat) i a : StronglySorted lt l → l !! i = Some a → (i ≤ a)%nat.
Proof.
  intros H. revert i a. assert (Hgen : ∀ n, Forall (λ a, n ≤ a)%nat l → ∀ i a, l !! i = Some a → (n + i ≤ a)%nat).
  { induction H as [|x l H IH Hx]; intros n Hn i a Hi; [done|].
    apply Forall_cons in Hn as [Hn _]. destruct i as [|i]; simplify_eq/=; [lia|].
    specialize (IH (S n)). enough (S n + i ≤ a)%nat by lia. apply IH; [|done].
    eapply Forall_impl; [exact Hx|]. simpl. intros. lia. }
  intros i a Hi. apply (Hgen 0%nat) in Hi; [lia|]. apply Forall_forall. intros; lia.
Qed.
Lemma sorted_lookup_lt (l : list nat) i j a b : StronglySorted lt l → (i < j)%nat →
  l !! i = Some a → l !! j = Some b → (a < b)%nat.
Proof.
  intros H. revert i j. induction H as [|x l H IH Hx]; intros i j Hij Ha Hb; [done|].
  destruct j as [|j]; [lia|]. simpl in Hb. destruct i as [|i]; simplify_eq/=.
  - rewrite Forall_lookup in Hx. by eapply Hx.
  - eapply (IH i j); [lia|done|done].
Qed.

(** A replica ID the context provider can look up. *)
Definition known_id g t : Prop :=
  t_ReplicaName t ≠ "" → ∃ r, cp_Replica g (idFromName (t_ReplicaName t)) = Ok r.

(** The replica context of a transition, if any. *)
Definition rctx_of g t (r : R) : Prop :=
  t_ReplicaName t ≠ "" ∧ cp_Replica g (idFromName (t_ReplicaName t)) = Ok (Some r).

Context (reg : Registry G R) (HS : SlotLaws reg).

(** The slot of [r] whose active transition is at [a], the first one in slot order. *)
Definition points g (id : nat) (r : R) (a : ptr) : Prop :=
  (id < MaxReplicaSlots)%nat ∧
  ∃ sl, replicaSlotAccessor reg id = Some sl ∧ GetActiveTransition sl g r = Some a.

Lemma replaceInSlots_spec slots g r rid old new : NoDup slots → cp_Replica g rid = Ok (Some r) →
  let g' := replaceInSlots reg r old new slots g in
  (∀ x, cp_Replica g' x = cp_Replica g x) ∧
  (∀ id r' a, a ≠ old → points g id r' a → points g' id r' a) ∧
  (∀ id, id ∈ slots → points g id r old → (∀ id', id' ≠ id → ¬ points g id' r old) → points g' id r new) ∧
  (∀ id r' a, a ≠ new → points g' id r' a → points g id r' a).
Proof using HS EqDecision0.
  intros Hnd Hr. induction slots as [|s slots IH]; simpl.
  { split_and!; try done. intros id Hid. set_solver. }
  apply NoDup_cons in Hnd as [Hs Hnd]. specialize (IH Hnd).
  destruct (replicaSlotAccessor reg s) as [sl|] eqn:Esl.
  - destruct (bool_decide _) eqn:Ed.
    + apply bool_decide_eq_true in Ed. split_and!.
      * intros x. by eapply sl_replica.
      * intros id r' a Ha (Hid & sl' & Hsl' & Hget). split; [done|]. exists sl'. split; [done|].
        destruct (decide (id = s ∧ r' = r)) as [[-> ->]|Hne].
        { rewrite Esl in Hsl'. simplify_eq. }
        erewrite sl_get_other; [done|exact Hsl'|exact Esl|]. destruct (decide (id = s)); [right|by left].
        intros ->. by apply Hne.
      * intros id _ Hp Huniq. destruct (decide (id = s)) as [->|Hne].
        { split; [apply Hp|]. exists sl. split; [done|]. by eapply sl_get_set. }
        exfalso. apply (Huniq s); [done|]. split; [|by exists sl].
        unfold replicaSlotAccessor in Esl. destruct (Nat.leb_spec MaxReplicaSlots s); [done|lia].
      * intros id r' a Ha (Hid & sl' & Hsl' & Hget). split; [done|]. exists sl'. split; [done|].
        destruct (decide (id = s ∧ r' = r)) as [[-> ->]|Hne].
        { rewrite Esl in Hsl'. simplify_eq. erewrite sl_get_set in Hget by done. congruence. }
        erewrite sl_get_other in Hget; [done|exact Hsl'|exact Esl|].
        destruct (decide (id = s)); [right|by left]. intros ->. by apply Hne.
    + apply bool_decide_eq_false in Ed. destruct IH as (I1 & I2 & I3 & I4). split_and!; try done.
      intros id [->|Hid]%elem_of_cons Hp Hu; [|by apply I3].
      destruct Hp as (_ & sl' & Hsl' & Hget). rewrite Esl in Hsl'. simplify_eq.
  - destruct IH as (I1 & I2 & I3 & I4). split_and!; try done.
    intros id [->|Hid]%elem_of_cons Hp Hu; [|by apply I3].
    destruct Hp as (_ & sl' & Hsl' & Hget). congruence.
Qed.

(** replaceSlotPointer leaves the memory alone and moves the slot of the transition's replica. *)
Lemma replaceSlotPointer_spec e old new t : e_registry e = reg → e_mem e !! old = Some t →
  known_id (e_g e) t →
  ∃ g', replaceSlotPointer old new e = Ok (set_g g' e) ∧
    (∀ x, cp_Replica g' x = cp_Replica (e_g e) x) ∧
    (∀ id r' a, a ≠ old → points (e_g e) id r' a → points g' id r' a) ∧
    (∀ id r, rctx_of (e_g e) t r → points (e_g e) id r old →
       (∀ id', id' ≠ id → ¬ points (e_g e) id' r old) → points g' id r new) ∧
    (∀ id r' a, a ≠ new → points g' id r' a → points (e_g e) id r' a).
Proof using HS EqDecision0.
  intros Hreg Ht Hk. unfold replaceSlotPointer, load.
  rewrite (proj2 (index_Ok _ _ _) Ht). simpl. unfold ReplicaID.
  destruct (String.eqb_spec (t_ReplicaName t) "") as [E|E].
  { exists (e_g e). split_and!; try done; [by destruct e|]. by intros id r [? _]. }
  destruct (Hk E) as [[r|] Hr]; simpl; rewrite Hr; simpl.
  - rewrite Hreg.
    destruct (replaceInSlots_spec (seq 0 MaxReplicaSlots) (e_g e) r _ old new (NoDup_seq _ _) Hr) as (I1 & I2 & I3 & I4).
    eexists. split; [done|]. split_and!; [done|done| |done].
    intros id r' [_ Hr'] Hp Hu. rewrite Hr in Hr'. simplify_eq. apply I3; [|done|done].
    apply elem_of_seq. destruct Hp. lia.
  - exists (e_g e). split_and!; try done; [by destruct e|].
    intros id r' [_ Hr']. by rewrite Hr in Hr'.
Qed.

(** One position of the copy loop. *)
Definition finalize_one (base minLen i : nat) (a : ptr) e : outcome (Engine G R) :=
  if (i <? minLen)%nat then
    if (a =? base + i)%nat then Ok e
    else
      e ← replaceSlotPointer a (base + i)%nat e;
      t ← load e a;
      Ok (store (base + i)%nat t e)
  else
    t ← load e a;
    replaceSlotPointer a (base + i)%nat (store (base + i)%nat t e).

Lemma finalize_one_spec base minLen i a e t : e_registry e = reg →
  e_mem e !! a = Some t → known_id (e_g e) t → (base + i < length (e_mem e))%nat →
  ((minLen ≤ i)%nat → a ≠ base + i)%nat →
  ∃ e1, finalize_one base minLen i a e = Ok e1 ∧ e_registry e1 = reg ∧
    e_mem e1 = <[(base + i)%nat := t]> (e_mem e) ∧
    (∀ x, cp_Replica (e_g e1) x = cp_Replica (e_g e) x) ∧
    (∀ id r a', a' ≠ a → points (e_g e) id r a' → points (e_g e1) id r a') ∧
    (∀ id r, rctx_of (e_g e) t r → points (e_g e) id r a →
       (∀ id', id' ≠ id → ¬ points (e_g e) id' r a) → points (e_g e1) id r (base + i)%nat) ∧
    (∀ id r a', a' ≠ (base + i)%nat → points (e_g e1) id r a' → points (e_g e) id r a').
Proof using HS EqDecision0.
  intros Hreg Ht Hk Hlen Hne. unfold finalize_one. destruct (Nat.ltb_spec i minLen) as [Hlt|Hge].
  - destruct (Nat.eqb_spec a (base + i)) as [->|Hane].
    { exists e. split_and!; try done. by rewrite list_insert_id. }
    destruct (replaceSlotPointer_spec e a (base + i) t Hreg Ht Hk) as (g' & -> & I1 & I2 & I3 & I4).
    simpl. unfold load. simpl. rewrite (proj2 (index_Ok _ _ _) Ht). simpl. eexists. split; [done|].
    split_and!; done.
  - unfold load. rewrite (proj2 (index_Ok _ _ _) Ht). simpl. specialize (Hne Hge).
    destruct (replaceSlotPointer_spec (store (base + i) t e) a (base + i) t) as (g' & -> & I1 & I2 & I3 & I4).
    + done.
    + simpl. by rewrite list_lookup_insert_ne by done.
    + done.
    + eexists. split; [done|]. split_and!; done.
Qed.

(** The copy loop from position [i]: cell [base + i + k] receives what [ptrs !! k] points to, other
    cells keep their value, and slots follow. *)
Lemma finalize_loop_spec base minLen ptrs : ∀ i e,
  e_registry e = reg → NoDup ptrs →
  (∀ k j b, (k < j)%nat → ptrs !! j = Some b → b ≠ (base + i + k)%nat) →
  (∀ k b, ptrs !! k = Some b → (minLen ≤ i + k)%nat → b ≠ (base + i + k)%nat) →
  (base + i + length ptrs ≤ length (e_mem e))%nat →
  Forall (λ a, ∃ t, e_mem e !! a = Some t ∧ known_id (e_g e) t) ptrs →
  ∃ e', finalize_loop base minLen i ptrs e = Ok e' ∧
    length (e_mem e') = length (e_mem e) ∧
    (∀ k b, ptrs !! k = Some b → e_mem e' !! (base + i + k)%nat = e_mem e !! b) ∧
    (∀ c, (c < base + i)%nat → e_mem e' !! c = e_mem e !! c) ∧
    (∀ id r a, a ∉ ptrs → points (e_g e) id r a → points (e_g e') id r a) ∧
    (∀ k b t id r, ptrs !! k = Some b → e_mem e !! b = Some t → rctx_of (e_g e) t r →
       points (e_g e) id r b → (∀ id', id' ≠ id → ¬ points (e_g e) id' r b) →
       points (e_g e') id r (base + i + k)%nat).
Proof using HS EqDecision0.
  induction ptrs as [|a ptrs IH]; intros i e Hreg Hnd Hfwd Hmin Hlen Hok; simpl.
  { exists e. split_and!; try done; intros; done. }
  apply NoDup_cons in Hnd as [Ha Hnd]. apply Forall_cons in Hok as [(t & Ht & Hk) Hok].
  simpl in Hlen.
  destruct (finalize_one_spec base minLen i a e t) as (e1 & H1 & Hreg1 & Hm1 & I1 & I2 & I3 & I4);
    [done|done|done|lia|intros; rewrite <-(Nat.add_0_r (base + i)); apply (Hmin 0%nat); [done|lia]|].
  fold (finalize_one base minLen i a e). rewrite H1. simpl.
  assert (Hnotin : ∀ b, b ∈ ptrs → b ≠ (base + i)%nat ∧ e_mem e1 !! b = e_mem e !! b).
  { intros b [j Hj]%list_elem_of_lookup. assert (b ≠ (base + i)%nat)
      by (rewrite <-(Nat.add_0_r (base + i)); apply (Hfwd 0%nat (S j)); [lia|done]).
    split; [done|]. by rewrite Hm1, list_lookup_insert_ne. }
  assert (Hkn : ∀ t', known_id (e_g e1) t' ↔ known_id (e_g e) t')
    by (intros t'; unfold known_id; by setoid_rewrite I1).
  destruct (IH (S i) e1) as (e' & H' & Hlen' & J1 & J2 & J3 & J4); try done.
  - intros k j b Hkj Hj. replace (base + S i + k)%nat with (base + i + S k)%nat by lia.
    apply (Hfwd (S k) (S j)); [lia|done].
  - intros k b Hb Hle. replace (base + S i + k)%nat with (base + i + S k)%nat by lia.
    apply (Hmin (S k)); [done|lia].
  - rewrite Hm1, length_insert. lia.
  - apply Forall_forall. intros b Hb. rewrite Forall_forall in Hok.
    destruct (Hok b Hb) as (t' & ? & ?). exists t'. rewrite Hkn. split; [|done].
    by rewrite (proj2 (Hnotin b Hb)).
  - exists e'. split_and!; [done|by rewrite Hlen', Hm1, length_insert| | | |].
    + intros [|k] b Hb; simplify_eq/=.
      * rewrite Nat.add_0_r, J2, Hm1, list_lookup_insert_eq by lia. by rewrite Ht.
      * replace (base + i + S k)%nat with (base + S i + k)%nat by lia. rewrite (J1 k b Hb).
        apply Hnotin. by eapply list_elem_of_lookup_2.
    + intros c Hc. rewrite J2, Hm1, list_lookup_insert_ne by lia. done.
    + intros id r a' [Hne Hni]%not_elem_of_cons Hp. apply J3; [done|]. by apply I2.
    + intros [|k] b t' id r Hb Ht' Hr Hp Hu; simplify_eq/=.
      * rewrite Nat.add_0_r. apply J3; [|by apply I3]. intros Hin. by destruct (Hnotin _ Hin).
      * replace (base + i + S k)%nat with (base + S i + k)%nat by lia.
        assert (Hbin : b ∈ ptrs) by (by eapply list_elem_of_lookup_2).
        destruct (Hnotin b Hbin) as [Hbne Hbm].
        apply (J4 k b t'); [done|by rewrite Hbm|by destruct Hr; split; [|rewrite I1]| |].
        -- apply I2; [|done]. by intros ->.
        -- intros id' Hid' Hp'. apply (Hu id' Hid'). by apply I4.
Qed.

(** The array Finalize copies into: in place, or a fresh one past every active cell. *)
Definition target e : ptr * Engine G R :=
  let n := length (e_transitions e) in
  if (e_origLen e <? n)%nat then growArray (n - e_origLen e) e else (0%nat, e).

Lemma target_spec e : index_wf e →
  let '(base, e1) := target e in
  e_transitions e1 = e_transitions e ∧ e_g e1 = e_g e ∧ e_registry e1 = e_registry e ∧
  e_origLen e1 = e_origLen e ∧
  (base + length (e_transitions e) ≤ length (e_mem e1))%nat ∧
  (∀ a, (a < length (e_mem e))%nat → e_mem e1 !! a = e_mem e !! a) ∧
  (base = 0 ∨ base = length (e_mem e))%nat ∧
  (base = 0 → e_origLen e < length (e_transitions e) → length (e_transitions e) ≤ e_origCap e)%nat.
Proof.
  intros [_ Hbd Hcap _]. unfold target, growArray.
  destruct (Nat.ltb_spec (e_origLen e) (length (e_transitions e))) as [Hlt|Hge]; [|split_and!; try done; lia].
  destruct (Nat.leb_spec (length (e_transitions e) - e_origLen e) (e_origCap e - e_origLen e));
    [split_and!; try done; lia|].
  split_and!; simpl; try done.
  - rewrite !length_app, length_take, length_replicate. lia.
  - intros a Ha. by rewrite lookup_app_l.
  - by right.
  - intros Hz. destruct (e_transitions e) as [|a l]; simpl in *; [lia|].
    apply Forall_cons in Hbd as [? _]. lia.
Qed.

Lemma Finalize_props e : e_registry e = reg → index_wf e → e_finalized e = false →
  Forall (λ x, known_id (e_g e) x.2) (active e) →
  ∃ base n e', Finalize e = Ok (base, n, e') ∧
    finalSlice (base, n, e') = snd <$> active e ∧
    ∀ k a t id r, active e !! k = Some (a, t) → rctx_of (e_g e) t r → points (e_g e) id r a →
      (∀ id', id' ≠ id → ¬ points (e_g e) id' r a) → points (e_g e') id r (base + k)%nat.
Proof using HS EqDecision0.
  intros Hreg Hw Hfin Hk. unfold Finalize. rewrite Hfin.
  set (e0 := set_finalized true e).
  assert (Hw0 : index_wf e0) by (by destruct Hw; constructor).
  fold (target e0). pose proof (target_spec e0 Hw0) as Ht. destruct (target e0) as [base e1].
  destruct Ht as (Htr & Hg & Hr & Hol & Hlen & Hmem & Hbase & Hcap). simpl in *.
  set (minLen := Nat.min _ _).
  assert (Hlook : ∀ k a, e_transitions e !! k = Some a → (a < length (e_mem e))%nat ∧ (k ≤ a)%nat).
  { intros k a Ha. split; [|by eapply sorted_lower; [apply Hw|]].
    pose proof (iw_bound e Hw) as Hb. rewrite Forall_lookup in Hb. by eapply Hb. }
  destruct (finalize_loop_spec base minLen (e_transitions e) 0 e1) as (e2 & H2 & Hl2 & J1 & _ & _ & J4).
  - congruence.
  - apply NoDup_alt. intros i j a Hi Hj. destruct (lt_eq_lt_dec i j) as [[?|?]|?]; [|done|];
      exfalso; [pose proof (sorted_lookup_lt _ i j a a (iw_sorted e Hw))
               |pose proof (sorted_lookup_lt _ j i a a (iw_sorted e Hw))]; naive_solver lia.
  - intros k j b Hkj Hj. destruct (Hlook j b Hj). destruct Hbase; lia.
  - intros k b Hb Hle. destruct (Hlook k b Hb) as [Hb1 _]. destruct Hbase as [->|]; [|lia].
    pose proof (iw_region e Hw) as HR. rewrite Forall_lookup in HR. specialize (HR k b Hb).
    pose proof (lookup_lt_Some _ _ _ Hb). unfold minLen in Hle. rewrite Hol in Hle. lia.
  - lia.
  - apply Forall_forall. intros a [k Ha]%list_elem_of_lookup. destruct (Hlook k a Ha) as [Hb _].
    destruct (lookup_lt_is_Some_2 _ _ Hb) as [t Ht]. exists t. rewrite Hmem, Hg by done. split; [done|].
    rewrite Forall_lookup in Hk. apply (Hk k (a, t)). unfold active.
    rewrite list_lookup_fmap, Ha. simpl. unfold cell. by rewrite Ht.
  - rewrite Htr, H2. simpl. eexists base, (length (e_transitions e)), e2. split; [done|]. split.
    + simpl. apply list_eq. intros k. unfold active. rewrite <-list_fmap_compose, list_lookup_fmap.
      destruct (e_transitions e !! k) as [a|] eqn:Ha; simpl.
      * rewrite lookup_take_lt by (by eapply lookup_lt_Some). rewrite lookup_drop.
        specialize (J1 k a Ha). rewrite Nat.add_0_r in J1. rewrite J1.
        destruct (Hlook k a Ha) as [Hb _]. rewrite Hmem by done. unfold cell.
        by destruct (lookup_lt_is_Some_2 _ _ Hb) as [t ->].
      * apply lookup_ge_None in Ha. by apply lookup_take_ge.
    + intros k a t id r Hka Hr' Hp Hu. unfold active in Hka. rewrite list_lookup_fmap in Hka.
      destruct (e_transitions e !! k) as [a'|] eqn:Ha; simpl in Hka; [|done]. injection Hka as -> Hc.
      specialize (J4 k a t id r Ha). rewrite Hg, Nat.add_0_r in J4. apply J4; try done.
      destruct (Hlook k a Ha) as [Hb _]. rewrite Hmem by done. unfold cell in Hc.
      destruct (lookup_lt_is_Some_2 _ _ Hb) as [t' Ht']. rewrite Ht' in *. simpl in Hc. congruence.
Qed.
End finalize.
