(* ===== verification/DmteBoundary.v ===== *)
(** * Process as a sequence of whole settle and dispatch operations

    [estep] (DmteSteps) splits the engine into its smallest steps.  Here an iteration of the settle
    loop ([settled]) and a dispatch ([dispatched]) are kept whole, so that an invariant need only
    hold between them ([Process_invariant]).  A call of Process that reports no change only did
    quiet work ([Process_quiet]). *)

From Stdlib Require Import ZArith Lia String.
From stdpp Require Import base list numbers strings option relations.
From S2P Require Import Prelude IdSet DrbdSize Api Dmte DmteSteps.
Import v1alpha1 dmte.

Set Default Proof Using "Type".

Section boundary.
Context {G R : Type} `{!ContextProvider G R} (clock : nat → Time).
Implicit Types (e : Engine G R) (p : plan G R) (t : Transition) (g : G).

(** ** One iteration of the settle loop *)
Inductive settled (i : nat) (a : ptr) e : bool → Engine G R → Prop :=
| S_unknown t : e_mem e !! a = Some t → reg_get (e_registry e) (t_Type t) (t_PlanID t) = None →
    settled i a e false e
| S_over t p rctx slot e' : e_mem e !! a = Some t →
    reg_get (e_registry e) (t_Type t) (t_PlanID t) = Some p →
    settle_resolve p t e = Ok (rctx, slot) → findCurrentStepIdx t = None →
    completeTransition p i rctx slot e = Ok e' → settled i a e true e'
| S_wait t p rctx slot k ch cr msg ch' e1 s : e_mem e !! a = Some t →
    reg_get (e_registry e) (t_Type t) (t_PlanID t) = Some p →
    settle_resolve p t e = Ok (rctx, slot) → findCurrentStepIdx t = Some k →
    confirmStep p a rctx k (Some ch) e = Ok (cr, msg, ch', e1) → pl_steps p !! k = Some s →
    idset.Intersect (Confirmed cr) (MustConfirm cr) ≠ MustConfirm cr →
    settled i a e false (slot_SetStatus slot rctx msg (st_details s) e1)
| S_advance t p rctx slot k ch cr msg ch' e1 s g e' : e_mem e !! a = Some t →
    reg_get (e_registry e) (t_Type t) (t_PlanID t) = Some p →
    settle_resolve p t e = Ok (rctx, slot) → findCurrentStepIdx t = Some k →
    confirmStep p a rctx k (Some ch) e = Ok (cr, msg, ch', e1) → pl_steps p !! k = Some s →
    idset.Intersect (Confirmed cr) (MustConfirm cr) = MustConfirm cr →
    let e2 := slot_SetStatus slot rctx msg (st_details s) e1 in
    step_callOnComplete s (e_mem e2) (e_g e2) rctx = Ok g →
    settle_advance clock p a rctx slot k (set_g g e2) = Ok e' → settled i a e true e'
| S_complete t p rctx slot k ch cr msg ch' e1 s g e' : e_mem e !! a = Some t →
    reg_get (e_registry e) (t_Type t) (t_PlanID t) = Some p →
    settle_resolve p t e = Ok (rctx, slot) → findCurrentStepIdx t = Some k →
    confirmStep p a rctx k (Some ch) e = Ok (cr, msg, ch', e1) → pl_steps p !! k = Some s →
    idset.Intersect (Confirmed cr) (MustConfirm cr) = MustConfirm cr →
    let e2 := slot_SetStatus slot rctx msg (st_details s) e1 in
    step_callOnComplete s (e_mem e2) (e_g e2) rctx = Ok g →
    completeTransition p i rctx slot (set_g g e2) = Ok e' → settled i a e true e'.

(** An iteration that changes nothing but a replica's status message. *)
Inductive idle (a : ptr) e : Engine G R → Prop :=
| Idle_same : idle a e e
| Idle_status t p rctx slot msg det : e_mem e !! a = Some t →
    reg_get (e_registry e) (t_Type t) (t_PlanID t) = Some p → settle_resolve p t e = Ok (rctx, slot) →
    idle a e (slot_SetStatus slot rctx msg det e).

Lemma confirmStep_change p a rctx k ch e cr msg c e' : confirmStep p a rctx k (Some ch) e = Ok (cr, msg, c, e') →
  ∃ b, c = Some b ∧ (ch = true → b = true) ∧ (b = false → e' = e).
Proof.
  intros H. unfold confirmStep in H. bok H as x _. bok H as y _. bok H as z _. bok H as cr' _. bok H as raw _.
  destruct (String.eqb _ _); [inv_ok; eauto|]. bok H as u _. inv_ok. by exists true.
Qed.
Lemma settle_one_settled i a ch pr e i' ch' pr' e' :
  settle_one clock i a ch pr e = Ok (i', ch', pr', e') →
  ∃ made, settled i a e made e' ∧ (ch = true → ch' = true) ∧ (ch' = false → idle a e e').
Proof.
  unfold settle_one. intros H. bok H as t Ht%index_Ok.
  destruct (reg_get _ _ _) as [p|] eqn:Hp;
    [|inv_ok; exists false; split_and!; [by eapply S_unknown|done|constructor]].
  bok H as [rctx slot] Hs. destruct (findCurrentStepIdx t) as [k|] eqn:Hk.
  2:{ bok H as e1 He1. inv_ok. exists true. split_and!; [by eapply S_over|done|done]. }
  bok H as [[[cr msg] c1] e1] Hc. bok H as s Hs1%index_Ok. cbv zeta in H.
  destruct (confirmStep_change _ _ _ _ _ _ _ _ _ _ Hc) as (b & -> & Hb & Hsame). simpl in H.
  destruct (idset.Intersect _ _ =? _) eqn:Eq; simpl in H.
  - apply Z.eqb_eq in Eq. bok H as g Hg. destruct (_ <? _)%nat; bok H as e3 H3; inv_ok; exists true.
    + split_and!; [by eapply S_advance|done|done].
    + split_and!; [by eapply S_complete|done|done].
  - injection H as <- <- <- <-. exists false. split_and!; [|done|].
    + eapply S_wait; try done. by apply Z.eqb_neq in Eq.
    + intros Hf. rewrite (Hsame Hf) at 1. by eapply Idle_status.
Qed.

(** ** One dispatch *)

(** The subject and the slot a plan is dispatched with. *)
Inductive subject_of e p : option R → option (ReplicaSlotAccessor G R) → Prop :=
| Subj_replica r : pl_scope p = ReplicaScope →
    subject_of e p (Some r) (replicaSlotAccessor (e_registry e) (pl_slot p))
| Subj_global : pl_scope p = GlobalScope → subject_of e p None None.

(** Guards evaluated, or not reached. *)
Inductive guarded p rctx e : Engine G R → Prop :=
| G_not_reached : guarded p rctx e e
| G_evaluated res g : plan_evaluateGuards p (e_mem e) (e_g e) rctx = Ok (res, g) →
    guarded p rctx e (set_g g e).

Inductive dispatched p planID rctx slot e : bool → Engine G R → Prop :=
| D_refused e1 e2 e3 : cancelActive p rctx slot e = Ok e1 → guarded p rctx e1 e2 →
    e3 = e2 ∨ (∃ msg det, e3 = slot_SetStatus slot rctx msg det e2) →
    dispatched p planID rctx slot e false e3
| D_created e1 res g tempT reason det a e3 t g' e5 cr msg c e6 s0 :
    cancelActive p rctx slot e = Ok e1 → slotConflict p rctx slot e1 = Ok NoConflict →
    plan_evaluateGuards p (e_mem e1) (e_g e1) rctx = Ok (res, g) → gr_Blocked res = false →
    let e2 := set_g g e1 in
    plan_callInit p (e_g e2) rctx (blankTransition (pl_transitionType p) (pl_group p) ""
      match pl_scope p, rctx with ReplicaScope, Some r => rctx_Name (e_g e2) r | _, _ => "" end [])
      = Ok tempT →
    trk_CanAdmit (e_tracker e2) tempT (e_g e2) = Ok (true, reason, det) →
    createTransition clock p planID rctx e2 = Ok (a, e3) →
    let e4 := slot_SetActive slot rctx (Some a) e3 in
    load e4 a = Ok t → trk_Add (e_tracker e4) a t (e_g e4) = Ok g' →
    applyStep p a rctx 0 (set_g g' e4) = Ok e5 →
    confirmStep p a rctx 0 None e5 = Ok (cr, msg, c, e6) → pl_steps p !! 0%nat = Some s0 →
    dispatched p planID rctx slot e true (slot_SetStatus slot rctx msg (st_details s0) e6).

Lemma dispatchOne_dispatched p planID rctx slot e res msg e' :
  dispatchOne clock p planID rctx slot e = Ok (res, msg, e') →
  dispatched p planID rctx slot e (match res with Some _ => true | None => false end) e'.
Proof.
  unfold dispatchOne. intros H. bok H as e1 H1. bok H as c Hc. destruct c.
  - bok H as [gr g2] Hg. destruct (gr_Blocked gr) eqn:Eb.
    { inv_ok. eapply D_refused; [done|by eapply G_evaluated|by eauto]. }
    bok H as tempT Htemp. bok H as [[allowed reason] det] Hadm. destruct allowed; simpl in H.
    2:{ inv_ok. eapply D_refused; [done|by eapply G_evaluated|by eauto]. }
    bok H as [a e3] H3. bok H as t4 H4. bok H as g4 Hg4. bok H as e5 H5.
    bok H as [[[cr m6] c6] e6] H6. bok H as s0 Hs0%index_Ok. inv_ok. by eapply D_created.
  - inv_ok. eapply D_refused; [done|constructor|by left].
  - inv_ok. eapply D_refused; [done|constructor|by eauto].
Qed.

(** ** Invariants between operations *)
Section invariant.
Context (reg : Registry G R) (I : Engine G R → Prop).
Context (I_settle : ∀ i a made e e', e_registry e = reg → e_transitions e !! i = Some a →
  settled i a e made e' → I e → e_registry e' = reg ∧ I e').
Context (I_dispatch : ∀ p tt planID rctx slot made e e', e_registry e = reg →
  reg_get reg tt planID = Some p → subject_of e p rctx slot →
  dispatched p planID rctx slot e made e' → I e → e_registry e' = reg ∧ I e').
Context (I_status : ∀ id r msg det e, e_registry e = reg → I e →
  I (slot_SetStatus (replicaSlotAccessor reg id) (Some r) msg det e)).

Let ok e := e_registry e = reg ∧ I e.

Lemma settle_loop_invariant fuel i ch pr e ch' pr' e' : ok e →
  settle_loop clock fuel i ch pr e = Ok (ch', pr', e') → ok e'.
Proof using All.
  revert i ch pr e. induction fuel as [|fuel IH]; intros i ch pr e [Hr Hi] H; simpl in H; [done|].
  destruct (e_transitions e !! i) as [a|] eqn:E; [|inv_ok; by split].
  bok H as [[[i1 c1] p1] e1] H1. apply settle_one_settled in H1 as (made & H1 & _).
  eapply IH; [|exact H]. by eapply I_settle.
Qed.
Lemma settle_until_stable_invariant fuel ch e ch' e' : ok e →
  settle_until_stable clock fuel ch e = Ok (ch', e') → ok e'.
Proof using All.
  revert ch e. induction fuel as [|fuel IH]; intros ch e Hok H; simpl in H; [done|].
  bok H as [[c1 p1] e1] H1. apply settle_loop_invariant in H1; [|done].
  destruct p1; [by eapply IH|]. by inv_ok.
Qed.
Lemma handleDecision_invariant d e c e' : ok e → handleDecision clock d e = Ok (c, e') → ok e'.
Proof using All.
  unfold handleDecision. intros [Hr Hi] H. destruct (String.eqb (d_planID d) "").
  { injection H as <- <-. destruct (d_replicaCtx d) as [r|]; [|by split]. destruct (String.eqb _ _); [by split|].
    rewrite Hr. split; [|by apply I_status]. by rewrite (proj2 (proj2 (slot_SetStatus_fields _ _ _ _ _))). }
  destruct (reg_get _ _ _) as [p|] eqn:Hp; [|done]. rewrite Hr in Hp.
  bok H as [rctx slot] Hrs. bok H as [[t m] e1] H1. injection H as <- <-. apply dispatchOne_dispatched in H1.
  eapply I_dispatch; [done|done| |done|done].
  destruct (pl_scope p) eqn:Esc; [injection Hrs as <- <-; by constructor|].
  destruct (d_replicaCtx d); [|done]. injection Hrs as <- <-. by constructor.
Qed.
Lemma run_decisions_invariant ds ch e ch' e' : ok e → run_decisions clock ds ch e = Ok (ch', e') → ok e'.
Proof using All.
  revert ds ch e. fix IH 1. intros [|d resume] ch e Hok H; simpl in H; [by inv_ok|].
  destruct (handleDecision clock d e) as [[c e1]| |] eqn:Hd; [|done|done].
  apply handleDecision_invariant in Hd; [|done].
  destruct (resume (e_mem e1) (e_g e1)) as [ds| |]; [|done|done]. eapply IH; [exact Hd|exact H].
Qed.
Lemma run_dispatchers_invariant ds ch e ch' e' : ok e → run_dispatchers clock ds ch e = Ok (ch', e') → ok e'.
Proof using All.
  revert ch e. induction ds as [|d ds IH]; intros ch e Hok H; simpl in H; [by inv_ok|].
  bok H as [c e1] H1. unfold runDispatch in H1. bok H1 as dd _.
  apply run_decisions_invariant in H1; [|done]. by eapply IH.
Qed.
Lemma Process_invariant e ch e' : e_registry e = reg → I e → Process clock e = Ok (ch, e') → I e'.
Proof using All.
  intros Hr Hi H. assert (Hok : ok e) by done. cut (ok e'); [by intros []|]. clear Hr Hi. revert H.
  unfold Process. destruct (e_finalized e); [done|].
  generalize false, maxOuter. intros b n. revert e b Hok.
  induction n as [|n IH]; intros e b Hok H; cbn [process_loop] in H; [by inv_ok|].
  bok H as [c1 e1] H1. bok H as [dp e2] H2. cbn beta iota in H.
  apply settle_until_stable_invariant in H1; [|done]. apply run_dispatchers_invariant in H2; [|done].
  destruct dp; [by eapply IH|by inv_ok].
Qed.
End invariant.

(** ** Calls that report no change *)
Section quiet.
Context (reg : Registry G R) (trk : Tracker G) (Q : relation (Engine G R)) `{!PreOrder Q}.
Let conf e := e_registry e = reg ∧ e_tracker e = trk.
Context (Q_conf : ∀ e e', Q e e' → conf e → conf e').
Context (Q_settle : ∀ i a e e', conf e → e_transitions e !! i = Some a → idle a e e' → Q e e').
Context (Q_dispatch : ∀ p tt planID rctx slot e e', conf e →
  reg_get reg tt planID = Some p → subject_of e p rctx slot →
  dispatched p planID rctx slot e false e' → Q e e').
Context (Q_status : ∀ id r msg det e, conf e →
  Q e (slot_SetStatus (replicaSlotAccessor reg id) (Some r) msg det e)).

Lemma settle_loop_quiet fuel i ch pr e ch' pr' e' : conf e →
  settle_loop clock fuel i ch pr e = Ok (ch', pr', e') → (ch = true → ch' = true) ∧ (ch' = false → Q e e').
Proof using All.
  revert i ch pr e. induction fuel as [|fuel IH]; intros i ch pr e Hr H; simpl in H; [done|].
  destruct (e_transitions e !! i) as [a|] eqn:E; [|by inv_ok].
  bok H as [[[i1 c1] p1] e1] H1. apply settle_one_settled in H1 as (made & _ & Hc & Hq). destruct c1.
  - assert (Ht : ch' = true); [|split; [done|by rewrite Ht]].
    clear -H. revert i1 p1 e1 H. induction fuel as [|fuel IH]; intros i pr e H; simpl in H; [done|].
    destruct (e_transitions e !! i); [|by inv_ok]. bok H as [[[i1 c1] p1] e1] H1.
    apply settle_one_settled in H1 as (? & _ & Hc & _). rewrite (Hc eq_refl) in H. by eapply IH.
  - assert (HQ : Q e e1) by (eapply Q_settle; [done|done|auto]).
    apply IH in H as [HA HB]; [|by eapply Q_conf].
    split; [intros Ec; by specialize (Hc Ec)|]. intros Hf. etrans; [exact HQ|auto].
Qed.
Lemma settle_until_stable_quiet fuel ch e ch' e' : conf e →
  settle_until_stable clock fuel ch e = Ok (ch', e') → (ch = true → ch' = true) ∧ (ch' = false → Q e e').
Proof using All.
  revert ch e. induction fuel as [|fuel IH]; intros ch e Hr H; simpl in H; [done|].
  bok H as [[c1 p1] e1] H1. apply settle_loop_quiet in H1 as [_ HQ]; [|done].
  destruct p1; [|inv_ok; split; [by intros ->|by intros [_ ?]%orb_false_elim; auto]].
  destruct c1.
  - rewrite orb_true_r in H. assert (Ht : ch' = true); [|split; [done|by rewrite Ht]].
    clear -H. revert e1 H. induction fuel as [|fuel IH]; intros e H; simpl in H; [done|].
    bok H as [[c1 p1] e1] _. destruct p1; [by eapply IH|by inv_ok].
  - rewrite orb_false_r in H. specialize (HQ eq_refl).
    apply IH in H as [HA HB]; [|by eapply Q_conf]. split; [done|]. intros Hf. etrans; [exact HQ|auto].
Qed.
Lemma run_decisions_true ds e ch' e' : run_decisions clock ds true e = Ok (ch', e') → ch' = true.
Proof.
  revert ds e ch' e'. fix IH 1. intros [|d resume] e ch' e' H; simpl in H; [injection H as <- <-; reflexivity|].
  destruct (handleDecision clock d e) as [[c e1]| |]; [|done|done].
  destruct (resume (e_mem e1) (e_g e1)) as [ds| |]; [|done|done]. exact (IH _ _ _ _ H).
Qed.
Lemma run_decisions_quiet ds ch e ch' e' : conf e →
  run_decisions clock ds ch e = Ok (ch', e') → (ch = true → ch' = true) ∧ (ch' = false → Q e e').
Proof using All.
  revert ds ch e ch' e'. fix IH 1. intros [|d resume] ch e ch' e' Hr H; simpl in H;
    [injection H as <- <-; split; [trivial|reflexivity]|].
  destruct (handleDecision clock d e) as [[c e1]| |] eqn:Hd; [|done|done].
  destruct (resume (e_mem e1) (e_g e1)) as [ds| |]; [|done|done].
  destruct c.
  - rewrite orb_true_r in H. assert (Ht : ch' = true); [|split; [done|by rewrite Ht]].
    by eapply run_decisions_true.
  - rewrite orb_false_r in H. assert (Hq : Q e e1).
    { unfold handleDecision in Hd. destruct (String.eqb (d_planID d) "").
      { injection Hd as <-. destruct (d_replicaCtx d) as [r|]; [|done]. destruct (String.eqb _ _); [done|].
        rewrite (proj1 Hr). by apply Q_status. }
      destruct (reg_get _ _ _) as [p|] eqn:Hp; [|done]. rewrite (proj1 Hr) in Hp.
      bok Hd as [rctx slot] Hrs. bok Hd as [[t m] e2] H1. destruct t; [done|]. injection Hd as <-.
      apply dispatchOne_dispatched in H1. eapply Q_dispatch; [done|done| |done].
      destruct (pl_scope p) eqn:Esc; [injection Hrs as <- <-; by constructor|].
  destruct (d_replicaCtx d); [|done]. injection Hrs as <- <-. by constructor. }
    apply IH in H as [HA HB]; [|by eapply Q_conf]. split; [done|]. intros Hf. etrans; [exact Hq|auto].
Qed.
Lemma run_dispatchers_quiet ds ch e ch' e' : conf e →
  run_dispatchers clock ds ch e = Ok (ch', e') → (ch = true → ch' = true) ∧ (ch' = false → Q e e').
Proof using All.
  revert ch e. induction ds as [|d ds IH]; intros ch e Hr H; simpl in H; [by inv_ok|].
  bok H as [c e1] H1. unfold runDispatch in H1. bok H1 as dd _.
  apply run_decisions_quiet in H1 as [_ HQ]; [|done]. destruct c.
  - rewrite orb_true_r in H. assert (Ht : ch' = true); [|split; [done|by rewrite Ht]].
    clear -H. revert e1 H. induction ds as [|d ds IH]; intros e H; simpl in H; [by inv_ok|].
    bok H as [c e1] _. by eapply IH.
  - rewrite orb_false_r in H. specialize (HQ eq_refl).
    apply IH in H as [HA HB]; [|by eapply Q_conf]. split; [done|]. intros Hf. etrans; [exact HQ|auto].
Qed.
Lemma Process_quiet e e' : conf e → Process clock e = Ok (false, e') → Q e e'.
Proof using All.
  unfold Process. intros Hr H. destruct (e_finalized e); [done|].
  assert (∃ n, maxOuter = S n) as [n En] by (by exists 9%nat). rewrite En in H. cbn [process_loop] in H.
  bok H as [c1 e1] H1. bok H as [dp e2] H2. cbn beta iota in H.
  apply settle_until_stable_quiet in H1 as [_ HQ1]; [|done].
  destruct dp.
  - exfalso. clear -H. revert e2 H. induction n as [|n IH]; intros e H; cbn [process_loop] in H; [done|].
    bok H as [c1 e1] H1. assert (c1 = true) as ->.
    { clear -H1. revert H1. generalize (S (settle_bound e)). intros fuel. revert c1 e1 e.
      induction fuel as [|fuel IH]; intros c1 e1 e H; simpl in H; [done|].
      bok H as [[c p1] e2] _. destruct p1; [by eapply IH|by inv_ok]. }
    bok H as [dp e2] _. destruct dp; [by eapply IH|done].
  - injection H as -> ->. specialize (HQ1 eq_refl). apply run_dispatchers_quiet in H2 as [_ HQ2].
    + etrans; [exact HQ1|auto].
    + by eapply Q_conf.
Qed.
End quiet.
End boundary.
