(* ===== verification/Context.v ===== *)
(** * datamesh: the contexts of one reconciliation cycle

    Source: rv_controller/datamesh/context.go and slots.go.

    [globalContext] is the value of everything reachable from the Go *globalContext.  A replica
    context pointer ([rptr]) is an index into [allReplicas]; nil is [None].  The member of a context
    is kept inline with its provenance: [Some i] for a pointer to the i-th element of
    rv.Status.Datamesh.Members (mutations through it are visible in the slice), [None] for a
    heap-allocated member.  The eligible-node cache is transparent (the RSP view is read-only) and is
    not stored. *)

From Stdlib Require Import ZArith Lia String.
From stdpp Require Import base list numbers strings option.
From S2P Require Import Prelude IdSet DrbdSize Api Dmte.
Import v1alpha1 dmte.

Module datamesh.

Record FeatureFlags := { ShadowDiskful : bool }.

(** RSP: the storage pool view; nil is [None]. *)
Record RSP := {
  FindEligibleNode : string → option EligibleNode;
  GetSystemNetworkNames : list string;
}.

(** Transition tracking state, maintained by the concurrency tracker. *)
Record tracking := {
  hasFormationTransition : bool; hasQuorumTransition : bool; hasMultiattachTransition : bool;
  hasNetworkTransition : bool; hasResizeTransition : bool;
  diskGainingMembershipTransitions : Z;
  votingMembershipTransitions : Z; nonVotingMembershipTransitions : Z;
  attachmentTransitions : Z; emergencyTransitions : Z;
  potentiallyAttached : Z;
  changeSystemNetworksTransition : option ptr;
}.

Section context.
Context `{K : K8s}.

Record datameshContext := {
  dm_quorum : Z; dm_quorumMinimumRedundancy : Z; dm_multiattach : bool;
  dm_systemNetworkNames : list string; dm_size : Quantity;
}.

(** Fields that no callback changes. *)
Record rvInputs := {
  in_deletionTimestamp : option Time; in_configuration : Configuration;
  in_datameshRevision : Z; in_size : Quantity; in_maxAttachments : Z;
  in_replicatedStorageClassName : string; in_rsp : option RSP; in_features : FeatureFlags;
}.

Notation rptr := nat (only parsing).

Record ReplicaContext := {
  rc_id : Z; rc_name : string; rc_nodeName : string;
  rc_rvr : option ReplicatedVolumeReplica;
  rc_member : option (DatameshMember * option nat);
  rc_rvas : list ReplicatedVolumeAttachment;
  rc_membershipRequest : option (DatameshReplicaRequest * nat);
  rc_membershipTransition : option ptr; rc_attachmentTransition : option ptr;
  rc_membershipMessage : string;
  rc_attachmentConditionMessage : string; rc_attachmentConditionReason : string;
}.

Record globalContext := {
  g_in : rvInputs;
  g_datamesh : datameshContext;
  g_baselineGMDR : Z;
  g_replicas : list (option rptr);
  g_allReplicas : list ReplicaContext;
  g_quorumSatisfied : option bool; g_quorumDiagnostic : string;
  g_tracking : tracking;
}.

(** ** Field updates *)
Definition set_datamesh (x : datameshContext) (g : globalContext) : globalContext :=
  {| g_in := g_in g; g_datamesh := x; g_baselineGMDR := g_baselineGMDR g;
     g_replicas := g_replicas g; g_allReplicas := g_allReplicas g;
     g_quorumSatisfied := g_quorumSatisfied g; g_quorumDiagnostic := g_quorumDiagnostic g;
     g_tracking := g_tracking g |}.
Definition set_baselineGMDR (x : Z) (g : globalContext) : globalContext :=
  {| g_in := g_in g; g_datamesh := g_datamesh g; g_baselineGMDR := x;
     g_replicas := g_replicas g; g_allReplicas := g_allReplicas g;
     g_quorumSatisfied := g_quorumSatisfied g; g_quorumDiagnostic := g_quorumDiagnostic g;
     g_tracking := g_tracking g |}.
Definition set_replicas (x : list (option rptr)) (g : globalContext) : globalContext :=
  {| g_in := g_in g; g_datamesh := g_datamesh g; g_baselineGMDR := g_baselineGMDR g;
     g_replicas := x; g_allReplicas := g_allReplicas g;
     g_quorumSatisfied := g_quorumSatisfied g; g_quorumDiagnostic := g_quorumDiagnostic g;
     g_tracking := g_tracking g |}.
Definition set_allReplicas (x : list ReplicaContext) (g : globalContext) : globalContext :=
  {| g_in := g_in g; g_datamesh := g_datamesh g; g_baselineGMDR := g_baselineGMDR g;
     g_replicas := g_replicas g; g_allReplicas := x;
     g_quorumSatisfied := g_quorumSatisfied g; g_quorumDiagnostic := g_quorumDiagnostic g;
     g_tracking := g_tracking g |}.
Definition set_quorumCheck (ok : bool) (diag : string) (g : globalContext) : globalContext :=
  {| g_in := g_in g; g_datamesh := g_datamesh g; g_baselineGMDR := g_baselineGMDR g;
     g_replicas := g_replicas g; g_allReplicas := g_allReplicas g;
     g_quorumSatisfied := Some ok; g_quorumDiagnostic := diag;
     g_tracking := g_tracking g |}.
Definition set_tracking (x : tracking) (g : globalContext) : globalContext :=
  {| g_in := g_in g; g_datamesh := g_datamesh g; g_baselineGMDR := g_baselineGMDR g;
     g_replicas := g_replicas g; g_allReplicas := g_allReplicas g;
     g_quorumSatisfied := g_quorumSatisfied g; g_quorumDiagnostic := g_quorumDiagnostic g;
     g_tracking := x |}.

Definition set_quorum (q : Z) (d : datameshContext) : datameshContext :=
  {| dm_quorum := q; dm_quorumMinimumRedundancy := dm_quorumMinimumRedundancy d;
     dm_multiattach := dm_multiattach d; dm_systemNetworkNames := dm_systemNetworkNames d;
     dm_size := dm_size d |}.
Definition set_qmr (x : Z) (d : datameshContext) : datameshContext :=
  {| dm_quorum := dm_quorum d; dm_quorumMinimumRedundancy := x;
     dm_multiattach := dm_multiattach d; dm_systemNetworkNames := dm_systemNetworkNames d;
     dm_size := dm_size d |}.
Definition set_multiattach (b : bool) (d : datameshContext) : datameshContext :=
  {| dm_quorum := dm_quorum d; dm_quorumMinimumRedundancy := dm_quorumMinimumRedundancy d;
     dm_multiattach := b; dm_systemNetworkNames := dm_systemNetworkNames d;
     dm_size := dm_size d |}.
Definition set_systemNetworkNames (l : list string) (d : datameshContext) : datameshContext :=
  {| dm_quorum := dm_quorum d; dm_quorumMinimumRedundancy := dm_quorumMinimumRedundancy d;
     dm_multiattach := dm_multiattach d; dm_systemNetworkNames := l; dm_size := dm_size d |}.
Definition set_size (s : Quantity) (d : datameshContext) : datameshContext :=
  {| dm_quorum := dm_quorum d; dm_quorumMinimumRedundancy := dm_quorumMinimumRedundancy d;
     dm_multiattach := dm_multiattach d; dm_systemNetworkNames := dm_systemNetworkNames d;
     dm_size := s |}.

Definition emptyContext (id : Z) : ReplicaContext :=
  {| rc_id := id; rc_name := ""; rc_nodeName := ""; rc_rvr := None; rc_member := None;
     rc_rvas := []; rc_membershipRequest := None; rc_membershipTransition := None;
     rc_attachmentTransition := None; rc_membershipMessage := "";
     rc_attachmentConditionMessage := ""; rc_attachmentConditionReason := "" |}.
Definition set_rc_identity (name node : string) (rc : ReplicaContext) : ReplicaContext :=
  {| rc_id := rc_id rc; rc_name := name; rc_nodeName := node; rc_rvr := rc_rvr rc;
     rc_member := rc_member rc; rc_rvas := rc_rvas rc;
     rc_membershipRequest := rc_membershipRequest rc;
     rc_membershipTransition := rc_membershipTransition rc;
     rc_attachmentTransition := rc_attachmentTransition rc;
     rc_membershipMessage := rc_membershipMessage rc;
     rc_attachmentConditionMessage := rc_attachmentConditionMessage rc;
     rc_attachmentConditionReason := rc_attachmentConditionReason rc |}.
Definition set_rc_rvr (x : option ReplicatedVolumeReplica) (rc : ReplicaContext) : ReplicaContext :=
  {| rc_id := rc_id rc; rc_name := rc_name rc; rc_nodeName := rc_nodeName rc; rc_rvr := x;
     rc_member := rc_member rc; rc_rvas := rc_rvas rc;
     rc_membershipRequest := rc_membershipRequest rc;
     rc_membershipTransition := rc_membershipTransition rc;
     rc_attachmentTransition := rc_attachmentTransition rc;
     rc_membershipMessage := rc_membershipMessage rc;
     rc_attachmentConditionMessage := rc_attachmentConditionMessage rc;
     rc_attachmentConditionReason := rc_attachmentConditionReason rc |}.
Definition set_rc_member (x : option (DatameshMember * option nat)) (rc : ReplicaContext) :
    ReplicaContext :=
  {| rc_id := rc_id rc; rc_name := rc_name rc; rc_nodeName := rc_nodeName rc; rc_rvr := rc_rvr rc;
     rc_member := x; rc_rvas := rc_rvas rc;
     rc_membershipRequest := rc_membershipRequest rc;
     rc_membershipTransition := rc_membershipTransition rc;
     rc_attachmentTransition := rc_attachmentTransition rc;
     rc_membershipMessage := rc_membershipMessage rc;
     rc_attachmentConditionMessage := rc_attachmentConditionMessage rc;
     rc_attachmentConditionReason := rc_attachmentConditionReason rc |}.
Definition set_rc_rvas (x : list ReplicatedVolumeAttachment) (rc : ReplicaContext) : ReplicaContext :=
  {| rc_id := rc_id rc; rc_name := rc_name rc; rc_nodeName := rc_nodeName rc; rc_rvr := rc_rvr rc;
     rc_member := rc_member rc; rc_rvas := x;
     rc_membershipRequest := rc_membershipRequest rc;
     rc_membershipTransition := rc_membershipTransition rc;
     rc_attachmentTransition := rc_attachmentTransition rc;
     rc_membershipMessage := rc_membershipMessage rc;
     rc_attachmentConditionMessage := rc_attachmentConditionMessage rc;
     rc_attachmentConditionReason := rc_attachmentConditionReason rc |}.
Definition set_rc_request (x : option (DatameshReplicaRequest * nat)) (rc : ReplicaContext) :
    ReplicaContext :=
  {| rc_id := rc_id rc; rc_name := rc_name rc; rc_nodeName := rc_nodeName rc; rc_rvr := rc_rvr rc;
     rc_member := rc_member rc; rc_rvas := rc_rvas rc; rc_membershipRequest := x;
     rc_membershipTransition := rc_membershipTransition rc;
     rc_attachmentTransition := rc_attachmentTransition rc;
     rc_membershipMessage := rc_membershipMessage rc;
     rc_attachmentConditionMessage := rc_attachmentConditionMessage rc;
     rc_attachmentConditionReason := rc_attachmentConditionReason rc |}.
Definition set_rc_output (mt at_ : option ptr) (mmsg amsg areason : string) (rc : ReplicaContext) :
    ReplicaContext :=
  {| rc_id := rc_id rc; rc_name := rc_name rc; rc_nodeName := rc_nodeName rc; rc_rvr := rc_rvr rc;
     rc_member := rc_member rc; rc_rvas := rc_rvas rc;
     rc_membershipRequest := rc_membershipRequest rc;
     rc_membershipTransition := mt; rc_attachmentTransition := at_;
     rc_membershipMessage := mmsg; rc_attachmentConditionMessage := amsg;
     rc_attachmentConditionReason := areason |}.

(** Write through a replica context pointer. *)
Definition upd_rc (i : rptr) (f : ReplicaContext → ReplicaContext) (g : globalContext) :
    globalContext := set_allReplicas (alter f i (g_allReplicas g)) g.
(** Dereference a replica context pointer. *)
Definition rc_at (g : globalContext) (rctx : option rptr) : outcome ReplicaContext :=
  match rctx with
  | None => Panic "invalid memory address or nil pointer dereference"
  | Some i => index (g_allReplicas g) i
  end.

(** The member value, forgetting where it is stored. *)
Definition memberOf (rc : ReplicaContext) : option DatameshMember := fst <$> rc_member rc.
(** In-place mutation of a member through its pointer. *)
Definition mutate_member (f : DatameshMember → DatameshMember) (rc : ReplicaContext) : ReplicaContext :=
  set_rc_member (prod_map f id <$> rc_member rc) rc.

(** ** Quorum check *)
Definition hasType (f : DatameshMemberType → bool) (rc : ReplicaContext) : bool :=
  match memberOf rc with Some m => f (m_Type m) | None => false end.

Fixpoint quorumScan (rcs : list ReplicaContext) (noQuorum voterAgentNotReady : Z) :
    bool * string :=
  match rcs with
  | [] =>
      (false,
       if negb (idset.IsEmpty noQuorum) && negb (idset.IsEmpty voterAgentNotReady) then
         "no quorum on [" +:+ idset.String noQuorum +:+ "]; agent not ready on ["
         +:+ idset.String voterAgentNotReady +:+ "]"
       else if negb (idset.IsEmpty noQuorum) then
         "no quorum on [" +:+ idset.String noQuorum +:+ "]"
       else if negb (idset.IsEmpty voterAgentNotReady) then
         "agent not ready on [" +:+ idset.String voterAgentNotReady +:+ "]"
       else "no voter members")
  | rc :: rcs =>
      match rc_rvr rc with
      | Some rvr =>
          if negb (hasType IsVoter rc) then quorumScan rcs noQuorum voterAgentNotReady
          else if condReasonEqual rvr CondReadyType ReasonAgentNotReady then
            quorumScan rcs noQuorum (idset.Add voterAgentNotReady (rc_id rc))
          else if bool_decide (rvr_Quorum rvr = Some true) then (true, "")
          else quorumScan rcs (idset.Add noQuorum (rc_id rc)) voterAgentNotReady
      | None => quorumScan rcs noQuorum voterAgentNotReady
      end
  end.
Definition computeQuorumCheck (g : globalContext) : bool * string :=
  quorumScan (g_allReplicas g) 0 0.
Definition isQuorumSatisfied (g : globalContext) : bool * globalContext :=
  match g_quorumSatisfied g with
  | Some b => (b, g)
  | None => let '(ok, diag) := computeQuorumCheck g in (ok, set_quorumCheck ok diag g)
  end.

(** ** Accessors *)
Definition getEligibleNode (g : globalContext) (rc : ReplicaContext) : option EligibleNode :=
  match in_rsp (g_in g) with
  | Some rsp => if String.eqb (rc_nodeName rc) "" then None else FindEligibleNode rsp (rc_nodeName rc)
  | None => None
  end.
Definition rva_active (a : ReplicatedVolumeAttachment) : bool :=
  match rva_DeletionTimestamp a with None => true | Some _ => false end.
Definition hasActiveRVA (rc : ReplicaContext) : bool := existsb rva_active (rc_rvas rc).
Definition earliestActiveRVATimestamp (rc : ReplicaContext) : Time :=
  match List.find rva_active (rc_rvas rc) with
  | Some a => rva_CreationTimestamp a
  | None => 0
  end.

(** provider.Replica: an array access, so an ID above 31 panics. *)
#[export] Instance provider : ContextProvider globalContext rptr := {|
  cp_Replica g id := index (g_replicas g) (Z.to_nat id);
  rctx_ID g r := match g_allReplicas g !! r with Some rc => rc_id rc | None => 0 end;
  rctx_Name g r := match g_allReplicas g !! r with Some rc => rc_name rc | None => "" end;
  rctx_Exists g r := match g_allReplicas g !! r with
                     | Some rc => match rc_rvr rc with Some _ => true | None => false end
                     | None => false
                     end;
  rctx_Generation g r := rc ← index (g_allReplicas g) r; rvr ← deref (rc_rvr rc);
                         Ok (rvr_Generation rvr);
  rctx_Conditions g r := rc ← index (g_allReplicas g) r; rvr ← deref (rc_rvr rc);
                         Ok (rvr_Conditions rvr);
|}.

(** ** buildContexts *)
Definition initTracking : tracking := {|
  hasFormationTransition := false; hasQuorumTransition := false;
  hasMultiattachTransition := false; hasNetworkTransition := false; hasResizeTransition := false;
  diskGainingMembershipTransitions := 0; votingMembershipTransitions := 0;
  nonVotingMembershipTransitions := 0; attachmentTransitions := 0; emergencyTransitions := 0;
  potentiallyAttached := 0; changeSystemNetworksTransition := None |}.

Definition initContext (rv : ReplicatedVolume) (cfg : Configuration) (rsp : option RSP)
    (features : FeatureFlags) : globalContext := {|
  g_in := {| in_deletionTimestamp := rv_DeletionTimestamp rv; in_configuration := cfg;
             in_datameshRevision := rv_DatameshRevision rv; in_size := rv_Spec_Size rv;
             in_maxAttachments := default 1 (rv_Spec_MaxAttachments rv);
             in_replicatedStorageClassName := rv_Spec_ReplicatedStorageClassName rv;
             in_rsp := rsp; in_features := features |};
  g_datamesh := {| dm_quorum := rv_Quorum rv;
                   dm_quorumMinimumRedundancy := rv_QuorumMinimumRedundancy rv;
                   dm_multiattach := rv_Multiattach rv;
                   dm_systemNetworkNames := rv_SystemNetworkNames rv; dm_size := rv_Size rv |};
  g_baselineGMDR := rv_BaselineGMDR rv;
  g_replicas := replicate 32 None; g_allReplicas := [];
  g_quorumSatisfied := None; g_quorumDiagnostic := ""; g_tracking := initTracking |}.

Definition knownIDs (rv : ReplicatedVolume) (rvrs : list ReplicatedVolumeReplica) : Z :=
  idset.Union (idset.Union (idset.Union (idset.FromAll rvr_ID rvrs)
    (idset.FromAll m_ID (rv_Members rv)))
    (idset.FromAll rq_ID (rv_DatameshReplicaRequests rv)))
    (idset.FromFunc (rv_DatameshTransitions rv) (λ t,
       if negb (String.eqb (t_ReplicaName t) "") then (idFromName (t_ReplicaName t), true)
       else (0, false))).

(** Step 1: one context per known ID, and the ID index. *)
Definition allocContexts (ids : Z) (g : globalContext) : globalContext :=
  set_replicas (foldl (λ reps p, <[Z.to_nat p.2 := Some p.1]> reps) (g_replicas g)
                  (imap pair (idset.All ids)))
    (set_allReplicas (map emptyContext (idset.All ids)) g).

(** [rc := gctx.replicas[id]; f(rc)]. *)
Definition with_rc (id : Z) (f : ReplicaContext → ReplicaContext) (g : globalContext) :
    outcome globalContext :=
  r ← index (g_replicas g) (Z.to_nat id);
  i ← deref r;
  Ok (upd_rc i f g).

Fixpoint foldO {A S} (f : A → S → outcome S) (l : list A) (s : S) : outcome S :=
  match l with
  | [] => Ok s
  | x :: l => s ← f x s; foldO f l s
  end.

Definition orEmpty (a b : string) : string := if String.eqb a "" then b else a.

(** Step 2: populate by ID. *)
Definition populateRVRs (rvrs : list ReplicatedVolumeReplica) : globalContext → outcome globalContext :=
  foldO (λ rvr, with_rc (rvr_ID rvr) (λ rc,
    set_rc_identity (rvr_Name rvr) (rvr_Spec_NodeName rvr) (set_rc_rvr (Some rvr) rc))) rvrs.
Definition populateMembers (ms : list DatameshMember) : globalContext → outcome globalContext :=
  foldO (λ im, with_rc (m_ID im.2) (λ rc,
    set_rc_identity (orEmpty (rc_name rc) (m_Name im.2)) (orEmpty (rc_nodeName rc) (m_NodeName im.2))
      (set_rc_member (Some (im.2, Some im.1)) rc))) (imap pair ms).
Definition populateRequests (rs : list DatameshReplicaRequest) : globalContext → outcome globalContext :=
  foldO (λ ir, with_rc (rq_ID ir.2) (λ rc,
    set_rc_identity (orEmpty (rc_name rc) (rq_Name ir.2)) (rc_nodeName rc)
      (set_rc_request (Some (ir.2, ir.1)) rc))) (imap pair rs).

(** Step 3: the RVAs, grouped by consecutive equal node names. *)
Fixpoint groupRVAs (rvas : list ReplicatedVolumeAttachment) :
    list (string * list ReplicatedVolumeAttachment) :=
  match rvas with
  | [] => []
  | a :: rvas =>
      match groupRVAs rvas with
      | (node, grp) :: gs =>
          if String.eqb (rva_NodeName a) node then (node, a :: grp) :: gs
          else (rva_NodeName a, [a]) :: (node, grp) :: gs
      | [] => [(rva_NodeName a, [a])]
      end
  end.
Definition assignRVAs (gs : list (string * list ReplicatedVolumeAttachment)) (g : globalContext) :
    globalContext :=
  foldl (λ g grp,
    match list_find (λ rc, rc_nodeName rc = grp.1) (g_allReplicas g) with
    | Some (i, _) => upd_rc i (set_rc_rvas grp.2) g
    | None => set_allReplicas (g_allReplicas g ++
                [set_rc_rvas grp.2 (set_rc_identity "" grp.1 (emptyContext 0))]) g
    end) g gs.

(** The backing array has room for one orphan; it is reallocated when more are appended, or when
    there was no context to start with.  Then the ID index is rebuilt from the contexts that have a
    name. *)
Definition reindex (known : nat) (g : globalContext) : globalContext :=
  let n := length (g_allReplicas g) in
  if (known + 1 <? n)%nat || ((known =? 0)%nat && (0 <? n)%nat) then
    set_replicas (foldl (λ reps p, if String.eqb (rc_name p.2) "" then reps
                                   else <[Z.to_nat (rc_id p.2) := Some p.1]> reps)
                    (replicate 32 None) (imap pair (g_allReplicas g))) g
  else g.

Definition buildContexts (rv : ReplicatedVolume) (rsp : option RSP)
    (rvrs : list ReplicatedVolumeReplica) (rvas : list ReplicatedVolumeAttachment)
    (features : FeatureFlags) : outcome globalContext :=
  match rv_Configuration rv with
  | None => Panic "datamesh.buildContexts: rv.Status.Configuration must be non-nil"
  | Some cfg =>
      let ids := knownIDs rv rvrs in
      let g := allocContexts ids (initContext rv cfg rsp features) in
      g ← populateRVRs rvrs g;
      g ← populateMembers (rv_Members rv) g;
      g ← populateRequests (rv_DatameshReplicaRequests rv) g;
      Ok (reindex (Z.to_nat (idset.Len ids)) (assignRVAs (groupRVAs rvas) g))
  end.

(** ** Writeback *)

(** The context of an ID, as read through the index by the writeback loops. *)
Definition replicaAt (g : globalContext) (id : Z) : option ReplicaContext :=
  r ← g_replicas g !! Z.to_nat id; i ← r; g_allReplicas g !! i.

(** [rc != nil && rc.member == &orig[i]]: the surviving value of the i-th original member. *)
Definition survivor (g : globalContext) (i : nat) (m : DatameshMember) : option DatameshMember :=
  rc ← replicaAt g (m_ID m);
  mem ← rc_member rc;
  if bool_decide (mem.2 = Some i) then Some mem.1 else None.

Definition activeIDs (g : globalContext) : Z :=
  foldl (λ s id, match replicaAt g id with
                 | Some rc => match rc_member rc with Some _ => idset.Add s id | None => s end
                 | None => s
                 end) 0 bits.ids.

(** rv.Status.Datamesh.Members after writebackMembersFromContexts.  On the fast path the slice is
    left alone; its elements are what the matching pointers hold. *)
Definition writebackMembersFromContexts (orig : list DatameshMember) (g : globalContext) :
    list DatameshMember :=
  let active := activeIDs g in
  let origIDs := foldl (λ s m, idset.Add s (m_ID m)) 0 orig in
  let surv := imap (survivor g) orig in
  if (active =? origIDs) && forallb (λ o, bool_decide (is_Some o)) surv then omap id surv
  else
    let survivingIDs := foldl (λ s p, match p.2 with
                                      | Some _ => idset.Add s (m_ID p.1)
                                      | None => s
                                      end) 0 (zip orig surv) in
    let newIDs := idset.Difference active survivingIDs in
    omap id surv ++ omap (λ id, rc ← replicaAt g id; memberOf rc) (idset.All newIDs).

Definition updateMemberZonesFromRSP (g : globalContext) : bool * globalContext :=
  match in_rsp (g_in g) with
  | None => (false, g)
  | Some rsp =>
      let upd rc :=
        match memberOf rc with
        | Some m =>
            if String.eqb (rc_nodeName rc) "" then (false, rc) else
            match FindEligibleNode rsp (rc_nodeName rc) with
            | Some en => if String.eqb (m_Zone m) (en_ZoneName en) then (false, rc)
                         else (true, mutate_member (set_m_Zone (en_ZoneName en)) rc)
            | None => (false, rc)
            end
        | None => (false, rc)
        end in
      let l := map upd (g_allReplicas g) in
      (existsb fst l, set_allReplicas (map snd l) g)
  end.

(** Requests after writebackRequestMessagesFromContexts, and whether one changed. *)
Definition writebackRequestMessagesFromContexts (requests : list DatameshReplicaRequest)
    (g : globalContext) : bool * list DatameshReplicaRequest :=
  foldl (λ acc id,
    match replicaAt g id with
    | Some rc =>
        match rc_membershipRequest rc with
        | Some (rq, i) =>
            if String.eqb (rq_Message rq) (rc_membershipMessage rc) then acc
            else (true, <[i := {| rq_Name := rq_Name rq; rq_Message := rc_membershipMessage rc;
                                  rq_Request := rq_Request rq; rq_FirstObservedAt := rq_FirstObservedAt rq |}]> acc.2)
        | None => acc
        end
    | None => acc
    end) (false, requests) bits.ids.

(** ** slots.go *)
Definition membershipSlot : nat := 0.
Definition attachmentSlot : nat := 1.

Definition membershipSlotAccessor : ReplicaSlotAccessor globalContext rptr := {|
  GetActiveTransition g r := rc ← g_allReplicas g !! r; rc_membershipTransition rc;
  SetActiveTransition g r t := upd_rc r (λ rc, set_rc_output t (rc_attachmentTransition rc)
    (rc_membershipMessage rc) (rc_attachmentConditionMessage rc) (rc_attachmentConditionReason rc) rc) g;
  SetStatus g r msg _ := upd_rc r (λ rc, set_rc_output (rc_membershipTransition rc)
    (rc_attachmentTransition rc) msg (rc_attachmentConditionMessage rc)
    (rc_attachmentConditionReason rc) rc) g;
|}.
Definition attachmentSlotAccessor : ReplicaSlotAccessor globalContext rptr := {|
  GetActiveTransition g r := rc ← g_allReplicas g !! r; rc_attachmentTransition rc;
  SetActiveTransition g r t := upd_rc r (λ rc, set_rc_output (rc_membershipTransition rc) t
    (rc_membershipMessage rc) (rc_attachmentConditionMessage rc) (rc_attachmentConditionReason rc) rc) g;
  SetStatus g r msg det := upd_rc r (λ rc, set_rc_output (rc_membershipTransition rc)
    (rc_attachmentTransition rc) (rc_membershipMessage rc) msg
    (default (rc_attachmentConditionReason rc) det) rc) g;
|}.
Definition registerSlots (reg : Registry globalContext rptr) : outcome (Registry globalContext rptr) :=
  reg ← RegisterReplicaSlot membershipSlot (Some membershipSlotAccessor) reg;
  RegisterReplicaSlot attachmentSlot (Some attachmentSlotAccessor) reg.

End context.
Notation rptr := nat (only parsing).
End datamesh.
