(* ===== verification/Tracker.v ===== *)
(** * datamesh: the concurrency tracker

    Source: rv_controller/datamesh/concurrency_tracker.go.  The tracker state is the [tracking]
    part of the global context.  The second half discharges the tracker's side of the contract with
    the engine: its state describes the active transitions ([tracks]), and what it admits does not
    conflict with them ([conflict]). *)

From Stdlib Require Import ZArith Lia String.
From stdpp Require Import base sets list numbers strings option.
From S2P Require Import Prelude IdSet DrbdSize Api Dmte DmteSteps DmteInvariants Context.
Import v1alpha1 dmte datamesh.

Module concurrency_tracker.

Definition isDiskGainingTransition (t : Transition) : bool :=
  match t_Type t with
  | AddReplica =>
      bool_decide (t_ReplicaType t = ReplicaTypeDiskful) ||
      bool_decide (t_ReplicaType t = ReplicaTypeShadowDiskful)
  | ChangeReplicaType =>
      bool_decide (t_ToReplicaType t = ReplicaTypeDiskful) ||
      bool_decide (t_ToReplicaType t = ReplicaTypeShadowDiskful)
  | _ => false
  end.

(** Updates of single tracking fields. *)
Definition set_flags (form quor multi net resize : bool) (csn : option ptr) (k : tracking) : tracking :=
  {| hasFormationTransition := form; hasQuorumTransition := quor; hasMultiattachTransition := multi;
     hasNetworkTransition := net; hasResizeTransition := resize;
     diskGainingMembershipTransitions := diskGainingMembershipTransitions k;
     votingMembershipTransitions := votingMembershipTransitions k;
     nonVotingMembershipTransitions := nonVotingMembershipTransitions k;
     attachmentTransitions := attachmentTransitions k; emergencyTransitions := emergencyTransitions k;
     potentiallyAttached := potentiallyAttached k; changeSystemNetworksTransition := csn |}.
Definition set_sets (gain voting nonVoting attach emerg pot : Z) (k : tracking) : tracking :=
  {| hasFormationTransition := hasFormationTransition k; hasQuorumTransition := hasQuorumTransition k;
     hasMultiattachTransition := hasMultiattachTransition k;
     hasNetworkTransition := hasNetworkTransition k; hasResizeTransition := hasResizeTransition k;
     diskGainingMembershipTransitions := gain; votingMembershipTransitions := voting;
     nonVotingMembershipTransitions := nonVoting; attachmentTransitions := attach;
     emergencyTransitions := emerg; potentiallyAttached := pot;
     changeSystemNetworksTransition := changeSystemNetworksTransition k |}.

Definition Add_tracking (a : ptr) (t : Transition) (k : tracking) : outcome tracking :=
  let F := hasFormationTransition k in let Q := hasQuorumTransition k in
  let M := hasMultiattachTransition k in let N := hasNetworkTransition k in
  let S := hasResizeTransition k in let C := changeSystemNetworksTransition k in
  let gain := diskGainingMembershipTransitions k in
  let vot := votingMembershipTransitions k in let non := nonVotingMembershipTransitions k in
  let att := attachmentTransitions k in let eme := emergencyTransitions k in
  let pot := potentiallyAttached k in
  match t_Group t with
  | GroupFormation => Ok (set_flags true Q M N S C k)
  | GroupQuorum => Ok (set_flags F true M N S C k)
  | GroupMultiattach => Ok (set_flags F Q true N S C k)
  | GroupNetwork =>
      Ok (set_flags F Q M true S
            (if bool_decide (t_Type t = ChangeSystemNetworks) then Some a else C) k)
  | GroupResize => Ok (set_flags F Q M N true C k)
  | GroupVotingMembership =>
      id ← ReplicaID t;
      Ok (set_sets (if isDiskGainingTransition t then idset.Add gain id else gain)
            (idset.Add vot id) non att eme pot k)
  | GroupNonVotingMembership =>
      id ← ReplicaID t;
      Ok (set_sets (if isDiskGainingTransition t then idset.Add gain id else gain)
            vot (idset.Add non id) att eme pot k)
  | GroupAttachment =>
      id ← ReplicaID t;
      Ok (set_sets gain vot non (idset.Add att id) eme (idset.Add pot id) k)
  | GroupEmergency => id ← ReplicaID t; Ok (set_sets gain vot non att (idset.Add eme id) pot k)
  | GroupOther _ => Ok k
  end.

Definition Remove_tracking (t : Transition) (k : tracking) : outcome tracking :=
  let F := hasFormationTransition k in let Q := hasQuorumTransition k in
  let M := hasMultiattachTransition k in let N := hasNetworkTransition k in
  let S := hasResizeTransition k in let C := changeSystemNetworksTransition k in
  let gain := diskGainingMembershipTransitions k in
  let vot := votingMembershipTransitions k in let non := nonVotingMembershipTransitions k in
  let att := attachmentTransitions k in let eme := emergencyTransitions k in
  let pot := potentiallyAttached k in
  match t_Group t with
  | GroupFormation => Ok (set_flags false Q M N S C k)
  | GroupQuorum => Ok (set_flags F false M N S C k)
  | GroupMultiattach => Ok (set_flags F Q false N S C k)
  | GroupNetwork => Ok (set_flags F Q M false S None k)
  | GroupResize => Ok (set_flags F Q M N false C k)
  | GroupVotingMembership =>
      id ← ReplicaID t;
      Ok (set_sets (if isDiskGainingTransition t then idset.Remove gain id else gain)
            (idset.Remove vot id) non att eme pot k)
  | GroupNonVotingMembership =>
      id ← ReplicaID t;
      Ok (set_sets (if isDiskGainingTransition t then idset.Remove gain id else gain)
            vot (idset.Remove non id) att eme pot k)
  | GroupAttachment =>
      id ← ReplicaID t;
      Ok (set_sets gain vot non (idset.Remove att id) eme
            (if bool_decide (t_Type t = Detach) then idset.Remove pot id else pot) k)
  | GroupEmergency => id ← ReplicaID t; Ok (set_sets gain vot non att (idset.Remove eme id) pot k)
  | GroupOther _ => Ok k
  end.

Definition blocked (reason : string) (det : details) : outcome (bool * string * details) :=
  Ok (false, reason, det).
Definition admitted : outcome (bool * string * details) := Ok (true, "", None).

(** The per-member checks of CanAdmit: [Some] if blocked. *)
Definition memberCheck (t : Transition) (k : tracking) : outcome (option (string * details)) :=
  if String.eqb (t_ReplicaName t) "" then Ok None else
  id ← ReplicaID t;
  let isMembership := bool_decide (t_Group t = GroupVotingMembership) ||
                      bool_decide (t_Group t = GroupNonVotingMembership) in
  Ok (if isMembership && (idset.Contains (votingMembershipTransitions k) id ||
                          idset.Contains (nonVotingMembershipTransitions k) id)
      then Some ("membership transition in progress for this replica", None)
      else if bool_decide (t_Group t = GroupAttachment) && idset.Contains (attachmentTransitions k) id
      then Some ("attachment transition in progress for this replica", Some AttachedReason.Pending)
      else None).

Definition CanAdmit_tracking (t : Transition) (multiattach : bool) (k : tracking) :
    outcome (bool * string * details) :=
  let proposed := t_Group t in
  let isAttachment := bool_decide (proposed = GroupAttachment) in
  if hasFormationTransition k && negb (bool_decide (proposed = GroupNetwork)) then
    blocked "formation in progress" (if isAttachment then Some AttachedReason.Pending else None)
  else if bool_decide (proposed = GroupEmergency) then admitted
  else
    c ← memberCheck t k;
    match c with
    | Some (msg, det) => blocked msg det
    | None =>
        match proposed with
        | GroupVotingMembership =>
            if 0 <? idset.Len (votingMembershipTransitions k) then
              blocked "voting membership transition in progress" None
            else if hasQuorumTransition k then blocked "quorum change in progress" None
            else if hasNetworkTransition k then blocked "network transition in progress" None
            else if isDiskGainingTransition t && hasResizeTransition k then
              blocked "resize in progress" None
            else admitted
        | GroupNonVotingMembership =>
            if isDiskGainingTransition t && hasResizeTransition k then
              blocked "resize in progress" None
            else admitted
        | GroupQuorum =>
            if hasQuorumTransition k then blocked "quorum change in progress" None
            else if 0 <? idset.Len (votingMembershipTransitions k) then
              blocked "voting membership transition in progress" None
            else if hasNetworkTransition k then blocked "network transition in progress" None
            else admitted
        | GroupAttachment =>
            others ← (if String.eqb (t_ReplicaName t) "" then Ok (potentiallyAttached k)
                      else id ← ReplicaID t;
                           Ok (idset.Difference (potentiallyAttached k) (idset.Of [id])));
            if negb (idset.IsEmpty others) && (negb multiattach || hasMultiattachTransition k) then
              blocked "waiting for multiattach to be enabled" (Some AttachedReason.Attaching)
            else admitted
        | GroupMultiattach =>
            if hasMultiattachTransition k then blocked "multiattach transition in progress" None
            else admitted
        | GroupResize =>
            if hasResizeTransition k then blocked "resize in progress" None
            else if 0 <? idset.Len (diskGainingMembershipTransitions k) then
              blocked "disk-gaining membership transition in progress" None
            else admitted
        | GroupNetwork =>
            if hasNetworkTransition k then blocked "network transition in progress" None
            else admitted
        | _ => admitted
        end
    end.

Section tracker.
Context `{K : K8s}.

Definition newConcurrencyTracker (g : globalContext) : globalContext :=
  let k := g_tracking g in
  set_tracking (set_sets (diskGainingMembershipTransitions k) (votingMembershipTransitions k)
    (nonVotingMembershipTransitions k) (attachmentTransitions k) (emergencyTransitions k)
    (foldl (λ s rc, match memberOf rc with
                    | Some m => if m_Attached m then idset.Add s (rc_id rc) else s
                    | None => s
                    end) (potentiallyAttached k) (g_allReplicas g)) k) g.

Definition Add (a : ptr) (t : Transition) (g : globalContext) : outcome globalContext :=
  k ← Add_tracking a t (g_tracking g); Ok (set_tracking k g).
Definition Remove (t : Transition) (g : globalContext) : outcome globalContext :=
  k ← Remove_tracking t (g_tracking g); Ok (set_tracking k g).
Definition CanAdmit (t : Transition) (g : globalContext) : outcome (bool * string * details) :=
  CanAdmit_tracking t (dm_multiattach (g_datamesh g)) (g_tracking g).

Definition concurrencyTracker : Tracker globalContext :=
  {| trk_Add := Add; trk_Remove := Remove; trk_CanAdmit := CanAdmit |}.
End tracker.
End concurrency_tracker.
Import concurrency_tracker.

(** ** What the tracker state means *)
Definition gid (t : Transition) : Z := idFromName (t_ReplicaName t).
Definition isGroup (grp : TransitionGroup) (t : Transition) : bool := bool_decide (t_Group t = grp).
Definition isMembership (t : Transition) : bool :=
  isGroup GroupVotingMembership t || isGroup GroupNonVotingMembership t.
Definition gaining (t : Transition) : bool := isMembership t && isDiskGainingTransition t.
Definition isCSN (t : Transition) : bool :=
  isGroup GroupNetwork t && bool_decide (t_Type t = ChangeSystemNetworks).

(** A flag that says whether some active transition satisfies [P]. *)
Definition flagged (b : bool) (P : Transition → bool) (l : list (ptr * Transition)) : Prop :=
  b = existsb (λ x, P x.2) l.
(** A set that holds the replica IDs of the active transitions satisfying [P]. *)
Definition describes (s : Z) (P : Transition → bool) (l : list (ptr * Transition)) : Prop :=
  wf_set s ∧ ∀ id, valid_id id → idset.Contains s id = existsb (λ x, P x.2 && (id =? gid x.2)) l.
(** A set that holds at least those IDs. *)
Definition covers (s : Z) (P : Transition → bool) (l : list (ptr * Transition)) : Prop :=
  wf_set s ∧ ∀ id x, valid_id id → x ∈ l → P x.2 = true → gid x.2 = id → idset.Contains s id = true.
Definition csn_of (l : list (ptr * Transition)) : option ptr :=
  foldl (λ acc x, if isCSN x.2 then Some x.1 else acc) None l.

Record tracks_k (k : tracking) (l : list (ptr * Transition)) : Prop := {
  tk_formation : flagged (hasFormationTransition k) (isGroup GroupFormation) l;
  tk_quorum : flagged (hasQuorumTransition k) (isGroup GroupQuorum) l;
  tk_multiattach : flagged (hasMultiattachTransition k) (isGroup GroupMultiattach) l;
  tk_network : flagged (hasNetworkTransition k) (isGroup GroupNetwork) l;
  tk_resize : flagged (hasResizeTransition k) (isGroup GroupResize) l;
  tk_gaining : describes (diskGainingMembershipTransitions k) gaining l;
  tk_voting : describes (votingMembershipTransitions k) (isGroup GroupVotingMembership) l;
  tk_nonVoting : describes (nonVotingMembershipTransitions k) (isGroup GroupNonVotingMembership) l;
  tk_attachment : describes (attachmentTransitions k) (isGroup GroupAttachment) l;
  tk_attached : covers (potentiallyAttached k) (isGroup GroupAttachment) l;
  tk_csn : changeSystemNetworksTransition k = csn_of l;
}.

(** Pairs of transitions the tracker keeps apart.  Replica IDs outside 0..31 (which no valid
    replica name has) are not tracked. *)
Definition conflict (t u : Transition) : Prop :=
  (t_Group t = t_Group u ∧
     (t_Group t = GroupFormation ∨ t_Group t = GroupQuorum ∨ t_Group t = GroupMultiattach ∨
      t_Group t = GroupNetwork ∨ t_Group t = GroupResize)) ∨
  (valid_id (gid t) ∧ valid_id (gid u) ∧
     (t_Group t = GroupVotingMembership ∧ t_Group u = GroupVotingMembership ∨
      gid t = gid u ∧ isMembership t ∧ isMembership u ∨
      gid t = gid u ∧ t_Group t = GroupAttachment ∧ t_Group u = GroupAttachment)) ∨
  (valid_id (gid t) ∧
     (t_Group t = GroupVotingMembership ∧ t_Group u = GroupQuorum ∨
      gaining t ∧ t_Group u = GroupResize)) ∨
  (valid_id (gid u) ∧
     (t_Group u = GroupVotingMembership ∧ t_Group t = GroupQuorum ∨
      gaining u ∧ t_Group t = GroupResize)).

Section theory.
Implicit Types (t u : Transition) (l r : list (ptr * Transition)) (k : tracking).

Lemma gid_nonneg t : 0 ≤ gid t.
Proof. unfold gid, idFromName. apply wrap8_range. Qed.
Hint Resolve gid_nonneg : core.

Lemma ReplicaID_Ok t id : ReplicaID t = Ok id → id = gid t.
Proof. unfold ReplicaID, gid. destruct (String.eqb _ _); intros; by inv_ok. Qed.

Lemma flagged_add b P l a t : flagged b P l → P t = false → flagged b P (l ++ [(a, t)]).
Proof. unfold flagged. rewrite existsb_app. simpl. intros -> ->. by rewrite !orb_false_r. Qed.
Lemma flagged_add_true P l a t : P t = true → flagged true P (l ++ [(a, t)]).
Proof. unfold flagged. rewrite existsb_app. simpl. intros ->. by rewrite orb_true_r. Qed.
Lemma flagged_remove b P l r a t : flagged b P (l ++ (a, t) :: r) → P t = false → flagged b P (l ++ r).
Proof. unfold flagged. rewrite !existsb_app. simpl. by intros -> ->. Qed.
Lemma flagged_clear P l : (∀ x, x ∈ l → P x.2 = false) → flagged false P l.
Proof.
  intros H. unfold flagged. symmetry. apply not_true_is_false. intros (x & Hx & HP)%existsb_exists.
  apply list_elem_of_In in Hx. rewrite H in HP; done.
Qed.
Lemma flagged_false P l x : flagged false P l → x ∈ l → P x.2 = false.
Proof.
  intros H Hx. apply not_true_is_false. intros HP. unfold flagged in H. symmetry in H.
  apply not_true_iff_false in H. apply H, existsb_exists. exists x. by rewrite <-list_elem_of_In.
Qed.

Lemma describes_add s P l a t : describes s P l → P t = false → describes s P (l ++ [(a, t)]).
Proof.
  intros [Hw H] Ht. split; [done|]. intros id Hid. rewrite existsb_app, H by done. simpl.
  by rewrite Ht, orb_false_r.
Qed.
Lemma describes_insert s P l a t : describes s P l → P t = true →
  describes (idset.Add s (gid t)) P (l ++ [(a, t)]).
Proof.
  intros [Hw H] Ht. split; [by auto with go|]. intros id Hid.
  rewrite existsb_app, Contains_Add, H by done. simpl. by rewrite Ht, orb_false_r.
Qed.
Lemma describes_remove s P l r a t : describes s P (l ++ (a, t) :: r) → P t = false →
  describes s P (l ++ r).
Proof.
  intros [Hw H] Ht. split; [done|]. intros id Hid. rewrite H by done.
  rewrite !existsb_app. simpl. by rewrite Ht.
Qed.
Lemma describes_delete s P l r a t : describes s P (l ++ (a, t) :: r) →
  (∀ x, x ∈ l ++ r → valid_id (gid t) → P x.2 = true → gid x.2 ≠ gid t) →
  describes (idset.Remove s (gid t)) P (l ++ r).
Proof.
  intros [Hw H] Hx. split; [by auto with go|]. intros id Hid. rewrite Contains_Remove, H by done.
  destruct (existsb (λ x, P x.2 && (id =? gid x.2)) (l ++ r)) eqn:E.
  - apply existsb_exists in E as (x & Hin & [HP ?%Z.eqb_eq]%andb_prop).
    apply list_elem_of_In in Hin. subst id.
    assert (gid x.2 ≠ gid t) as Hne
      by (intros Eq; apply (Hx x Hin); [unfold valid_id in *; lia|done|done]).
    apply andb_true_intro. split; [|by apply negb_true_iff, Z.eqb_neq].
    apply existsb_exists. exists x. rewrite HP, Z.eqb_refl. split; [|done].
    apply list_elem_of_In. set_solver.
  - apply not_true_iff_false. intros [H1 Hne%negb_true_iff]%andb_prop.
    apply not_true_iff_false in E. apply E.
    apply existsb_exists in H1 as (x & Hin & HP). apply existsb_exists. exists x. split; [|done].
    apply list_elem_of_In in Hin. apply list_elem_of_In.
    apply elem_of_app in Hin as [?|[->|?]%elem_of_cons]; [set_solver| |set_solver].
    simpl in HP. by rewrite Hne, andb_false_r in HP.
Qed.
Lemma describes_In s P l x : describes s P l → x ∈ l → P x.2 = true → valid_id (gid x.2) →
  idset.Contains s (gid x.2) = true.
Proof.
  intros [_ H] Hx HP Hv. rewrite H by done. apply existsb_exists. exists x.
  by rewrite <-list_elem_of_In, HP, Z.eqb_refl.
Qed.
Lemma describes_pos s P l x : describes s P l → x ∈ l → P x.2 = true → valid_id (gid x.2) →
  (0 <? idset.Len s) = true.
Proof. intros. apply Z.ltb_lt, Len_pos. exists (gid x.2). split; [done|]. by eapply describes_In. Qed.

Lemma csn_of_app l r : csn_of (l ++ r) =
  foldl (λ acc x, if isCSN x.2 then Some x.1 else acc) (csn_of l) r.
Proof. unfold csn_of. by rewrite foldl_app. Qed.
Lemma csn_of_none l : (∀ x, x ∈ l → isCSN x.2 = false) → csn_of l = None.
Proof.
  induction l as [|x l IH] using rev_ind; intros H; [done|].
  rewrite csn_of_app. simpl. rewrite H by set_solver. apply IH. set_solver.
Qed.
Lemma csn_of_skip l r a t : isCSN t = false → csn_of (l ++ (a, t) :: r) = csn_of (l ++ r).
Proof. intros H. rewrite !csn_of_app. simpl. by rewrite H. Qed.

(** Two transitions that differ only in their steps look the same to the tracker. *)
Lemma same_meta_fields t u : same_meta t u →
  t_Group t = t_Group u ∧ t_Type t = t_Type u ∧ t_ReplicaName t = t_ReplicaName u ∧
  t_ReplicaType t = t_ReplicaType u ∧ t_ToReplicaType t = t_ToReplicaType u.
Proof. unfold same_meta, set_t_Steps. by intros [=]. Qed.


Lemma existsb_same {P Q : ptr * Transition → bool} l l' : Forall2 same_active l l' →
  (∀ x y, same_active x y → P x = Q y) → existsb P l = existsb Q l'.
Proof. intros HF H. induction HF as [|x y l l' Hxy _ IH]; simpl; [done|]. by rewrite IH, (H x y). Qed.

Lemma same_meta_preds t u : same_meta t u →
  (∀ grp, isGroup grp t = isGroup grp u) ∧ gaining t = gaining u ∧ isCSN t = isCSN u ∧ gid t = gid u.
Proof.
  intros (H1 & H2 & H3 & H4 & H5)%same_meta_fields.
  unfold gaining, isCSN, gid, isMembership, isGroup, isDiskGainingTransition.
  by rewrite H1, H2, H3, H4, H5.
Qed.

Lemma csn_of_same l l' : Forall2 same_active l l' → csn_of l = csn_of l'.
Proof.
  unfold csn_of. generalize (@None ptr). intros o HF. revert o.
  induction HF as [|x y l l' [Hp Hm] _ IH]; intros o; simpl; [done|].
  destruct (same_meta_preds _ _ Hm) as (_ & _ & -> & _). rewrite Hp. apply IH.
Qed.

Lemma tracks_same k l l' : Forall2 same_active l l' → tracks_k k l → tracks_k k l'.
Proof.
  intros HF [H1 H2 H3 H4 H5 H6 H7 H8 H9 H10 H11].
  assert (Hflag : ∀ b P, (∀ t u, same_meta t u → P t = P u) → flagged b P l → flagged b P l').
  { intros b P HP ->. unfold flagged. apply existsb_same; [done|]. intros x y [_ Hm]. by apply HP. }
  assert (Hdesc : ∀ s P, (∀ t u, same_meta t u → P t = P u) → describes s P l → describes s P l').
  { intros s P HP [Hw H]. split; [done|]. intros id Hid. rewrite H by done. apply existsb_same; [done|].
    intros x y [_ Hm]. rewrite (HP _ _ Hm). by destruct (same_meta_preds _ _ Hm) as (_ & _ & _ & ->). }
  assert (HG : ∀ grp t u, same_meta t u → isGroup grp t = isGroup grp u)
    by (intros grp t u Hm; by apply same_meta_preds).
  constructor; try (by apply Hflag; auto); try (by apply Hdesc; auto).
  - apply Hdesc; [|done]. intros t u Hm. by apply same_meta_preds.
  - destruct H10 as [Hw H]. split; [done|]. intros id y Hid [i Hy]%list_elem_of_lookup HP Hg.
    destruct (Forall2_lookup_r _ _ _ _ _ HF Hy) as (x & Hx & _ & Hm).
    eapply H; [done|by eapply list_elem_of_lookup_2|by rewrite (HG _ _ _ Hm)|].
    rewrite <-Hg. by apply same_meta_preds.
  - by rewrite H11, (csn_of_same _ _ HF).
Qed.

(** The predicates of a transition whose group is known. *)
Lemma group_preds t grp : t_Group t = grp →
  (∀ h, isGroup h t = bool_decide (grp = h)) ∧
  isCSN t = bool_decide (grp = GroupNetwork) && bool_decide (t_Type t = ChangeSystemNetworks) ∧
  gaining t = (bool_decide (grp = GroupVotingMembership) || bool_decide (grp = GroupNonVotingMembership))
              && isDiskGainingTransition t.
Proof. by intros <-. Qed.

Lemma covers_add s P l a t : covers s P l → P t = false → covers s P (l ++ [(a, t)]).
Proof.
  intros [Hw H] Ht. split; [done|]. intros id x Hid [Hx|Hx%list_elem_of_singleton]%elem_of_app HP Hg.
  - by eapply H.
  - subst x. simpl in HP. congruence.
Qed.
Lemma covers_insert s P l a t : covers s P l → covers (idset.Add s (gid t)) P (l ++ [(a, t)]).
Proof.
  intros [Hw H]. split; [by auto with go|].
  intros id x Hid [Hx|Hx%list_elem_of_singleton]%elem_of_app HP Hg; rewrite Contains_Add by done.
  - erewrite H; [done|done|exact Hx|done|done].
  - subst x. simpl in Hg. subst id. rewrite Z.eqb_refl. by rewrite orb_true_r.
Qed.
Lemma covers_remove s P l r a t : covers s P (l ++ (a, t) :: r) → covers s P (l ++ r).
Proof. intros [Hw H]. split; [done|]. intros id x Hid Hx. apply H; [done|]. set_solver. Qed.
Lemma covers_delete s P l r a t : covers s P (l ++ (a, t) :: r) →
  (∀ x, x ∈ l ++ r → valid_id (gid t) → P x.2 = true → gid x.2 ≠ gid t) →
  covers (idset.Remove s (gid t)) P (l ++ r).
Proof.
  intros [Hw H] Hne. split; [by auto with go|]. intros id x Hid Hx HP Hg.
  rewrite Contains_Remove by done. erewrite H; [|done| |exact HP|done]; [|set_solver].
  simpl. apply negb_true_iff, Z.eqb_neq. subst id.
  destruct (decide (gid x.2 = gid t)) as [E|]; [|done].
  exfalso. apply (Hne x Hx); [unfold valid_id in *; lia|done|done].
Qed.

Lemma Add_tracks k k' l a t : tracks_k k l → Add_tracking a t k = Ok k' → tracks_k k' (l ++ [(a, t)]).
Proof.
  intros [H1 H2 H3 H4 H5 H6 H7 H8 H9 H10 H11] H. unfold Add_tracking in H.
  destruct (t_Group t) eqn:Hg; destruct (group_preds _ _ Hg) as (HG & HC & HD); simpl in HC, HD;
    try (bok H as id Hid%ReplicaID_Ok); injection H as <-; try subst id;
    (constructor; cbn;
     [ first [apply flagged_add; [done|by rewrite HG] | apply flagged_add_true; by rewrite HG]
     | first [apply flagged_add; [done|by rewrite HG] | apply flagged_add_true; by rewrite HG]
     | first [apply flagged_add; [done|by rewrite HG] | apply flagged_add_true; by rewrite HG]
     | first [apply flagged_add; [done|by rewrite HG] | apply flagged_add_true; by rewrite HG]
     | first [apply flagged_add; [done|by rewrite HG] | apply flagged_add_true; by rewrite HG]
     | first [apply describes_add; [done|done]
             | destruct (isDiskGainingTransition t); [apply describes_insert | apply describes_add]; done]
     | first [apply describes_add; [done|by rewrite HG] | apply describes_insert; [done|by rewrite HG]]
     | first [apply describes_add; [done|by rewrite HG] | apply describes_insert; [done|by rewrite HG]]
     | first [apply describes_add; [done|by rewrite HG] | apply describes_insert; [done|by rewrite HG]]
     | first [apply covers_add; [done|by rewrite HG] | by apply covers_insert]
     | rewrite csn_of_app; simpl; rewrite HC; first [done | by rewrite H11] ]).
Qed.

(** What the absence of conflicts says about the transitions left behind. *)
Lemma no_conflict_group t u grp : ¬ conflict u t → t_Group t = grp →
  (grp = GroupFormation ∨ grp = GroupQuorum ∨ grp = GroupMultiattach ∨ grp = GroupNetwork ∨ grp = GroupResize) →
  isGroup grp u = false.
Proof.
  intros Hc <- Hin. apply bool_decide_eq_false. intros E. apply Hc. left.
  split; [done|]. by rewrite E.
Qed.
Lemma no_conflict_member t u : ¬ conflict u t → isMembership t = true → valid_id (gid t) →
  isMembership u = true → gid u ≠ gid t.
Proof.
  intros Hc Ht Hv Hu E. apply Hc. right; left. rewrite E. split_and!; [done|done|].
  right; left. by rewrite Ht, Hu.
Qed.
Lemma no_conflict_attachment t u : ¬ conflict u t → t_Group t = GroupAttachment → valid_id (gid t) →
  isGroup GroupAttachment u = true → gid u ≠ gid t.
Proof.
  intros Hc Ht Hv Hu%bool_decide_eq_true E. apply Hc. right; left. rewrite E. split_and!; [done|done|].
  right; right. done.
Qed.
Lemma isCSN_network u : isGroup GroupNetwork u = false → isCSN u = false.
Proof. unfold isCSN. by intros ->. Qed.

Lemma Remove_tracks k k' l r a t : tracks_k k (l ++ (a, t) :: r) →
  (∀ x, x ∈ l ++ r → ¬ conflict x.2 t) → Remove_tracking t k = Ok k' → tracks_k k' (l ++ r).
Proof.
  intros [H1 H2 H3 H4 H5 H6 H7 H8 H9 H10 H11] Hc H. unfold Remove_tracking in H.
  assert (Hgrp : ∀ x grp, x ∈ l ++ r → t_Group t = grp → _ → isGroup grp x.2 = false)
    by (intros x grp Hx; apply no_conflict_group, Hc, Hx).
  assert (Hmem : ∀ P, (∀ u, P u = true → isMembership u = true) → isMembership t = true →
    ∀ x, x ∈ l ++ r → valid_id (gid t) → P x.2 = true → gid x.2 ≠ gid t)
    by (intros P HP Ht x Hx Hv Hu; apply no_conflict_member; auto).
  assert (HV : ∀ u, isGroup GroupVotingMembership u = true → isMembership u = true)
    by (intros u Hu; unfold isMembership; by rewrite Hu).
  assert (HN : ∀ u, isGroup GroupNonVotingMembership u = true → isMembership u = true)
    by (intros u Hu; unfold isMembership; by rewrite Hu, orb_true_r).
  assert (HGn : ∀ u, gaining u = true → isMembership u = true)
    by (intros u Hu; apply andb_prop in Hu as [? _]; done).
  destruct (t_Group t) eqn:Hg; destruct (group_preds _ _ Hg) as (HG & HC & HD); simpl in HC, HD;
    try (bok H as id Hid%ReplicaID_Ok); injection H as <-; try subst id;
    (constructor; cbn;
     [ first [eapply flagged_remove; [done|by rewrite HG] | apply flagged_clear; intros; apply Hgrp; tauto]
     | first [eapply flagged_remove; [done|by rewrite HG] | apply flagged_clear; intros; apply Hgrp; tauto]
     | first [eapply flagged_remove; [done|by rewrite HG] | apply flagged_clear; intros; apply Hgrp; tauto]
     | first [eapply flagged_remove; [done|by rewrite HG] | apply flagged_clear; intros; apply Hgrp; tauto]
     | first [eapply flagged_remove; [done|by rewrite HG] | apply flagged_clear; intros; apply Hgrp; tauto]
     | first [eapply describes_remove; [done|done]
             | destruct (isDiskGainingTransition t);
               [eapply describes_delete; [done|apply Hmem; [done|unfold isMembership; by rewrite !HG]]
               |eapply describes_remove; done]]
     | first [eapply describes_remove; [done|by rewrite HG]
             | eapply describes_delete; [done|apply Hmem; [done|unfold isMembership; by rewrite !HG]]]
     | first [eapply describes_remove; [done|by rewrite HG]
             | eapply describes_delete; [done|apply Hmem; [done|unfold isMembership; by rewrite !HG]]]
     | first [eapply describes_remove; [done|by rewrite HG]
             | eapply describes_delete; [done|intros x Hx; apply no_conflict_attachment; auto]]
     | first [exact (covers_remove _ _ _ _ _ _ H10)
             | destruct (bool_decide (t_Type t = Detach)); [|exact (covers_remove _ _ _ _ _ _ H10)];
               eapply covers_delete; [done|intros x Hx; apply no_conflict_attachment; auto]]
     | rewrite ?H11; first [by rewrite csn_of_skip
             | symmetry; apply csn_of_none; intros x Hx; apply isCSN_network, Hgrp; tauto] ]).
Qed.

(** Groups whose transitions carry a replica name. *)
Definition replicaGroup (grp : TransitionGroup) : bool :=
  match grp with
  | GroupVotingMembership | GroupNonVotingMembership | GroupAttachment | GroupEmergency => true
  | _ => false
  end.
(** Groups with at most one active transition. *)
Definition serialGroup (grp : TransitionGroup) : bool :=
  match grp with
  | GroupFormation | GroupQuorum | GroupMultiattach | GroupNetwork | GroupResize => true
  | _ => false
  end.
Lemma Add_named a t k k' : Add_tracking a t k = Ok k' → replicaGroup (t_Group t) = true →
  t_ReplicaName t ≠ "".
Proof.
  unfold Add_tracking, ReplicaID. intros H Hg E.
  destruct (t_Group t); try discriminate Hg; by rewrite E in H.
Qed.

(** The per-member check found no active transition on the replica. *)
Lemma memberCheck_free t k l x : tracks_k k l → memberCheck t k = Ok None → t_ReplicaName t ≠ "" →
  x ∈ l → valid_id (gid t) → gid x.2 = gid t →
  (isMembership t = true → isMembership x.2 = false) ∧
  (isGroup GroupAttachment t = true → isGroup GroupAttachment x.2 = false).
Proof.
  intros HT H Hn Hx Hv E. unfold memberCheck in H.
  destruct (String.eqb_spec (t_ReplicaName t) ""); [done|].
  bok H as id Hid%ReplicaID_Ok. subst id.
  fold (isGroup GroupVotingMembership t) (isGroup GroupNonVotingMembership t) (isGroup GroupAttachment t) in H.
  fold (isMembership t) in H.
  destruct (isMembership t && _) eqn:E1; [done|]. destruct (isGroup GroupAttachment t && _) eqn:E2; [done|].
  split; intros Hm; apply not_true_iff_false; intros Hu.
  - rewrite Hm in E1. apply orb_false_iff in E1 as [EV EN]. rewrite <-E in EV, EN, Hv.
    apply orb_true_iff in Hu as [Hu|Hu].
    + rewrite (describes_In _ _ _ x (tk_voting _ _ HT)) in EV; done.
    + rewrite (describes_In _ _ _ x (tk_nonVoting _ _ HT)) in EN; done.
  - rewrite Hm, <-E, (describes_In _ _ _ x (tk_attachment _ _ HT)) in E2; try done. by rewrite E.
Qed.

Lemma conflict_inv x t : conflict x t →
  (isGroup (t_Group t) x = true ∧ serialGroup (t_Group t) = true) ∨
  (valid_id (gid x) ∧ isGroup GroupVotingMembership x = true ∧
     (t_Group t = GroupVotingMembership ∨ t_Group t = GroupQuorum)) ∨
  (gid x = gid t ∧ valid_id (gid t) ∧
     (isMembership t = true ∧ isMembership x = true ∨
      isGroup GroupAttachment t = true ∧ isGroup GroupAttachment x = true)) ∨
  (valid_id (gid x) ∧ gaining x = true ∧ t_Group t = GroupResize) ∨
  (isGroup GroupQuorum x = true ∧ t_Group t = GroupVotingMembership) ∨
  (gaining t = true ∧ isGroup GroupResize x = true).
Proof.
  intros [[E H]|[(Hx & Ht & H)|[[Hx H]|[Ht H]]]].
  - left. split; [by apply bool_decide_eq_true|]. rewrite <-E. by destruct H as [->|[->|[->|[->| ->]]]].
  - destruct H as [[H1 H2]|[(E & H1 & H2)|(E & H1 & H2)]].
    + right; left. split_and!; [done|by apply bool_decide_eq_true|by left].
    + right; right; left. split_and!; [done|done|left]. by apply Is_true_true in H1, H2.
    + right; right; left. split_and!; [done|done|right]. by split; apply bool_decide_eq_true.
  - destruct H as [[H1 H2]|[H1 H2]].
    + right; left. split_and!; [done|by apply bool_decide_eq_true|by right].
    + right; right; right; left. by apply Is_true_true in H1.
  - destruct H as [[H1 H2]|[H1 H2]].
    + do 4 right; left. by split; [apply bool_decide_eq_true|].
    + do 5 right. apply Is_true_true in H1. by split; [|apply bool_decide_eq_true].
Qed.

Lemma gaining_group t : gaining t = true → isDiskGainingTransition t = true ∧
  (t_Group t = GroupVotingMembership ∨ t_Group t = GroupNonVotingMembership).
Proof.
  intros [H ?]%andb_prop. split; [done|].
  by apply orb_true_iff in H as [H|H]; apply bool_decide_eq_true in H; [left|right].
Qed.

(** An admitted transition conflicts with none of the active ones. *)
Lemma CanAdmit_no_conflict t k ma l reason det : tracks_k k l →
  (replicaGroup (t_Group t) = true → t_ReplicaName t ≠ "") →
  CanAdmit_tracking t ma k = Ok (true, reason, det) → ∀ x, x ∈ l → ¬ conflict x.2 t.
Proof.
  intros HT Hname H x Hx Hc%conflict_inv. unfold CanAdmit_tracking, blocked in H.
  assert (HF : ∀ P b, flagged b P l → b = false → P x.2 = false)
    by (intros P b Hb ->; by eapply flagged_false).
  destruct (_ && _) eqn:EF; [done|].
  destruct (bool_decide (t_Group t = GroupEmergency)) eqn:EE.
  { apply bool_decide_eq_true in EE.
    destruct (group_preds _ _ EE) as (HG & _ & HD). simpl in HD. rewrite EE in Hc.
    unfold isMembership in Hc. rewrite HD, !HG in Hc. simpl in Hc.
    destruct Hc as [[_ ?]|[(_&_&[?|?])|[(_&_&[[? _]|[? _]])|[(_&_&?)|[[_ ?]|[? _]]]]]]; discriminate. }
  bok H as c Hmc. destruct c as [[msg d]|]; [done|].
  destruct Hc as [[H1 H2]|[(Hv & H1 & H2)|[(E & Hv & H1)|[(Hv & H1 & H2)|[[H1 H2]|[H1 H2]]]]]].
  - destruct (t_Group t) eqn:Hg; try done.
    all: simpl in EF; rewrite ?andb_true_r, ?andb_false_r in EF.
    + pose proof (HF _ _ (tk_formation _ _ HT) EF) as Hq. congruence.
    + destruct (hasQuorumTransition k) eqn:Eq; [done|].
      pose proof (HF _ _ (tk_quorum _ _ HT) Eq) as Hq. congruence.
    + destruct (hasMultiattachTransition k) eqn:Eq; [done|].
      pose proof (HF _ _ (tk_multiattach _ _ HT) Eq) as Hq. congruence.
    + destruct (hasNetworkTransition k) eqn:Eq; [done|].
      pose proof (HF _ _ (tk_network _ _ HT) Eq) as Hq. congruence.
    + destruct (hasResizeTransition k) eqn:Eq; [done|].
      pose proof (HF _ _ (tk_resize _ _ HT) Eq) as Hq. congruence.
  - pose proof (describes_pos _ _ _ x (tk_voting _ _ HT) Hx H1 Hv) as Hp.
    destruct H2 as [H2|H2]; rewrite H2, Hp in H; [done|]. by destruct (hasQuorumTransition k).
  - assert (Hn : t_ReplicaName t ≠ "").
    { apply Hname. destruct H1 as [[H1 _]|[H1 _]]; [apply orb_true_iff in H1 as [H1|H1]|];
        apply bool_decide_eq_true in H1; by rewrite H1. }
    destruct (memberCheck_free _ _ _ _ HT Hmc Hn Hx Hv E) as [F1 F2]. naive_solver congruence.
  - rewrite H2, (describes_pos _ _ _ x (tk_gaining _ _ HT) Hx H1 Hv) in H.
    by destruct (hasResizeTransition k).
  - rewrite H2 in H. destruct (0 <? _); [done|]. destruct (hasQuorumTransition k) eqn:Eq; [done|].
    pose proof (HF _ _ (tk_quorum _ _ HT) Eq). congruence.
  - apply gaining_group in H1 as [H1 H3]. destruct (hasResizeTransition k) eqn:Eq.
    + rewrite H1 in H. destruct H3 as [H3|H3]; rewrite H3 in H; [|done].
      destruct (0 <? _); [done|]. destruct (hasQuorumTransition k); [done|].
      by destruct (hasNetworkTransition k).
    + pose proof (HF _ _ (tk_resize _ _ HT) Eq). congruence.
Qed.
End theory.
