(* ===== verification/TrackerSpec.v ===== *)
(** * The concurrency tracker refines its specification

    An abstract tracker keeps the list of active transitions and the set of replicas that are or may
    be attached, and decides admission by looking at every active transition.  The bitmask tracker of
    [Tracker] implements it. *)

From Stdlib Require Import ZArith Lia String.
From stdpp Require Import base gmap sets list numbers strings option relations.
From S2P Require Import Prelude IdSet DrbdSize Api Dmte DmteInvariants Context Tracker.
Import v1alpha1 dmte datamesh concurrency_tracker.

(** ** The specification *)
Record world := { w_active : list (ptr * Transition); w_attached : gset Z }.
Definition w_Add (a : ptr) (t : Transition) (w : world) : world :=
  {| w_active := w_active w ++ [(a, t)];
     w_attached := if isGroup GroupAttachment t then {[gid t]} ∪ w_attached w else w_attached w |}.
(** A removed Detach means the replica is detached; a removed Attach leaves it attached. *)
Definition w_Remove (rest : list (ptr * Transition)) (t : Transition) (w : world) : world :=
  {| w_active := rest;
     w_attached := if isGroup GroupAttachment t && bool_decide (t_Type t = Detach)
                   then w_attached w ∖ {[gid t]} else w_attached w |}.

(** An active transition [u] that keeps [t] from starting. *)
Definition obstructs (t u : Transition) : bool :=
  isGroup GroupFormation u && negb (isGroup GroupNetwork t) ||
  match t_Group t with
  | GroupVotingMembership =>
      isMembership u && (gid t =? gid u) || isGroup GroupVotingMembership u || isGroup GroupQuorum u ||
      isGroup GroupNetwork u || isGroup GroupResize u && isDiskGainingTransition t
  | GroupNonVotingMembership =>
      isMembership u && (gid t =? gid u) || isGroup GroupResize u && isDiskGainingTransition t
  | GroupAttachment => isGroup GroupAttachment u && (gid t =? gid u)
  | GroupQuorum => isGroup GroupQuorum u || isGroup GroupVotingMembership u || isGroup GroupNetwork u
  | GroupMultiattach => isGroup GroupMultiattach u
  | GroupResize => isGroup GroupResize u || gaining u
  | GroupNetwork => isGroup GroupNetwork u
  | GroupFormation | GroupEmergency | GroupOther _ => false
  end.
(** Some active transition satisfies [P]. *)
Definition some (P : Transition → bool) (w : world) : bool := existsb (λ x, P x.2) (w_active w).
(** An attachment beside another one needs multiattach, enabled and not being switched. *)
Definition w_CanAdmit (multiattach : bool) (w : world) (t : Transition) : bool :=
  negb (some (obstructs t) w) &&
  (negb (isGroup GroupAttachment t) || bool_decide (w_attached w ∖ {[gid t]} = ∅) ||
   multiattach && negb (some (isGroup GroupMultiattach) w)).

(** ** The simulation relation *)
Definition named (t : Transition) : Prop :=
  replicaGroup (t_Group t) = true → t_ReplicaName t ≠ "" ∧ valid_id (gid t).
Record represents (k : tracking) (w : world) : Prop := {
  rp_tracks : tracks_k k (w_active w);
  rp_named : ∀ x, x ∈ w_active w → named x.2;
  rp_ids : ∀ id, id ∈ w_attached w → valid_id id;
  rp_wf : wf_set (potentiallyAttached k);
  rp_attached : ∀ id, valid_id id → idset.Contains (potentiallyAttached k) id = bool_decide (id ∈ w_attached w);
}.

Section spec.
Implicit Types (t u : Transition) (l : list (ptr * Transition)) (k : tracking) (w : world).

Lemma ReplicaID_named t : named t → replicaGroup (t_Group t) = true → ReplicaID t = Ok (gid t).
Proof. intros H [Hn _]%H. unfold ReplicaID. by destruct (String.eqb_spec (t_ReplicaName t) ""). Qed.

(** Neither operation panics, and the attached set changes as specified. *)
Lemma Add_attached a t k : named t → ∃ k', Add_tracking a t k = Ok k' ∧ potentiallyAttached k' =
  if isGroup GroupAttachment t then idset.Add (potentiallyAttached k) (gid t) else potentiallyAttached k.
Proof.
  intros Hn. pose proof (ReplicaID_named t Hn) as HI. unfold Add_tracking, isGroup.
  destruct (t_Group t); try rewrite HI by done; by eexists.
Qed.
Lemma Remove_attached t k : named t → ∃ k', Remove_tracking t k = Ok k' ∧ potentiallyAttached k' =
  if isGroup GroupAttachment t && bool_decide (t_Type t = Detach)
  then idset.Remove (potentiallyAttached k) (gid t) else potentiallyAttached k.
Proof.
  intros Hn. pose proof (ReplicaID_named t Hn) as HI. unfold Remove_tracking, isGroup.
  destruct (t_Group t); try rewrite HI by done; by eexists.
Qed.

Lemma Add_represents k w a t : represents k w → named t →
  ∃ k', Add_tracking a t k = Ok k' ∧ represents k' (w_Add a t w).
Proof.
  intros [R1 R2 R3 R4 R5] Hn. destruct (Add_attached a t k Hn) as (k' & E & Hp). exists k'. split; [done|].
  assert (Hv : isGroup GroupAttachment t = true → valid_id (gid t))
    by (intros G%bool_decide_eq_true; apply Hn; by rewrite G).
  split; simpl.
  - by eapply Add_tracks.
  - intros x [Hx| ->%list_elem_of_singleton]%elem_of_app; auto.
  - destruct (isGroup _ t) eqn:G; [|done]. specialize (Hv eq_refl). set_solver.
  - rewrite Hp. destruct (isGroup _ t) eqn:G; [|done]. apply wf_Add; [done|apply gid_nonneg].
  - intros id Hid. rewrite Hp. destruct (isGroup _ t) eqn:G; [|by apply R5].
    rewrite Contains_Add, R5 by (done || apply gid_nonneg).
    apply eq_iff_eq_true. rewrite orb_true_iff, Z.eqb_eq, !bool_decide_eq_true. set_solver.
Qed.
Lemma Remove_represents k w a t l r : represents k w → w_active w = l ++ (a, t) :: r →
  (∀ x, x ∈ l ++ r → ¬ Tracker.conflict x.2 t) →
  ∃ k', Remove_tracking t k = Ok k' ∧ represents k' (w_Remove (l ++ r) t w).
Proof.
  intros [R1 R2 R3 R4 R5] Hw Hc. rewrite Hw in R1, R2.
  destruct (Remove_attached t k) as (k' & E & Hp); [apply (R2 (a, t)); set_solver|]. exists k'. split; [done|].
  split; simpl.
  - by eapply Remove_tracks.
  - intros x Hx. apply R2. set_solver.
  - destruct (_ && _); set_solver.
  - rewrite Hp. destruct (_ && _); [by apply wf_Remove|done].
  - intros id Hid. rewrite Hp. destruct (_ && _); [|by apply R5].
    rewrite Contains_Remove, R5 by (done || apply gid_nonneg).
    apply eq_iff_eq_true. rewrite andb_true_iff, negb_true_iff, Z.eqb_neq, !bool_decide_eq_true. set_solver.
Qed.

(** ** Admission *)
Lemma some_or (P Q : Transition → bool) w : some (λ u, P u || Q u) w = some P w || some Q w.
Proof.
  unfold some. induction (w_active w) as [|x l IH]; [done|]. simpl. rewrite IH.
  destruct (P x.2), (Q x.2); simpl; by rewrite ?orb_true_r.
Qed.
Lemma some_and c (P : Transition → bool) w : some (λ u, P u && c) w = some P w && c.
Proof. unfold some. induction (w_active w) as [|x l IH]; simpl; [done|]. rewrite IH. by rewrite andb_orb_distrib_l. Qed.
Lemma some_none w : some (λ _, false) w = false.
Proof. unfold some. by induction (w_active w). Qed.
Lemma some_ext (P Q : Transition → bool) w : (∀ u, P u = Q u) → some P w = some Q w.
Proof. intros H. unfold some. induction (w_active w) as [|x l IH]; simpl; [done|]. by rewrite H, IH. Qed.

Lemma describes_len s P l : describes s P l → (∀ x, x ∈ l → P x.2 = true → valid_id (gid x.2)) →
  (0 <? idset.Len s) = existsb (λ x, P x.2) l.
Proof.
  intros [Hw H] Hv. apply eq_iff_eq_true. rewrite Z.ltb_lt, Len_pos. split.
  - intros (id & Hid & Hc). rewrite H in Hc by done. apply existsb_exists in Hc as (x & Hx & [HP _]%andb_prop).
    apply existsb_exists. by exists x.
  - intros (x & Hx & HP)%existsb_exists. apply list_elem_of_In in Hx. exists (gid x.2).
    split; [by apply Hv|]. rewrite H by (by apply Hv). apply existsb_exists. exists x.
    by rewrite <-list_elem_of_In, HP, Z.eqb_refl.
Qed.
Lemma named_group k w x (P : Transition → bool) : represents k w → x ∈ w_active w →
  (P x.2 = true → replicaGroup (t_Group x.2) = true) → P x.2 = true → valid_id (gid x.2).
Proof. intros HR Hx H HP. by apply (rp_named _ _ HR x Hx), H. Qed.
Lemma voting_replica u : isGroup GroupVotingMembership u = true → replicaGroup (t_Group u) = true.
Proof. by intros ->%bool_decide_eq_true. Qed.
Lemma gaining_replica u : gaining u = true → replicaGroup (t_Group u) = true.
Proof. by intros [_ [-> | ->]]%gaining_group. Qed.

(** No other replica is attached. *)
Lemma others_empty k w t : represents k w → valid_id (gid t) →
  idset.IsEmpty (idset.Difference (potentiallyAttached k) (idset.Of [gid t])) =
  bool_decide (w_attached w ∖ {[gid t]} = ∅).
Proof.
  intros HR Hv. apply eq_iff_eq_true. unfold idset.IsEmpty.
  rewrite Z.eqb_eq, bool_decide_eq_true, empty_iff by apply wf_Difference, HR.
  split.
  - intros H. apply set_eq. intros id. split; [|set_solver]. intros [Hi Hne]%elem_of_difference.
    pose proof (rp_ids _ _ HR id Hi) as Hid. specialize (H id Hid).
    rewrite Contains_Difference, Contains_Of1, (rp_attached _ _ HR id Hid) in H by (done || apply gid_nonneg).
    apply andb_false_iff in H as [H|H]; [by apply bool_decide_eq_false in H|].
    apply negb_false_iff, Z.eqb_eq in H. set_solver.
  - intros H id Hid. rewrite Contains_Difference, Contains_Of1, (rp_attached _ _ HR id Hid) by (done || apply gid_nonneg).
    apply andb_false_iff. destruct (Z.eqb_spec id (gid t)) as [->|Hne]; [by right|left].
    apply bool_decide_eq_false. set_solver.
Qed.

(** Transitions on the same replica, read off the sets. *)
Lemma same_replica s P l t : describes s P l → valid_id (gid t) →
  existsb (λ x, P x.2 && (gid t =? gid x.2)) l = idset.Contains s (gid t).
Proof. by intros [_ H] Hv; rewrite H. Qed.
Lemma memberCheck_spec k w t : represents k w → named t →
  ∃ c, memberCheck t k = Ok c ∧ (match c with Some _ => true | None => false end) =
    isMembership t && some (λ u, isMembership u && (gid t =? gid u)) w ||
    isGroup GroupAttachment t && some (λ u, isGroup GroupAttachment u && (gid t =? gid u)) w.
Proof.
  intros HR Hn. unfold memberCheck.
  assert (Hrep : isMembership t || isGroup GroupAttachment t = true → replicaGroup (t_Group t) = true).
  { unfold isMembership, isGroup. by destruct (t_Group t). }
  destruct (String.eqb_spec (t_ReplicaName t) "") as [En|En].
  { exists None. split; [done|]. destruct (isMembership t || isGroup GroupAttachment t) eqn:E.
    - by destruct (Hn (Hrep eq_refl)).
    - apply orb_false_iff in E as [-> ->]. done. }
  unfold ReplicaID. destruct (String.eqb_spec (t_ReplicaName t) ""); [done|]. cbn [mbind outcome_bind].
  fold (gid t) (isGroup GroupVotingMembership t) (isGroup GroupNonVotingMembership t) (isGroup GroupAttachment t).
  fold (isMembership t). eexists. split; [reflexivity|].
  destruct (isMembership t || isGroup GroupAttachment t) eqn:E.
  - destruct (Hn (Hrep eq_refl)) as [_ Hv].
    rewrite (some_ext (λ u, isMembership u && (gid t =? gid u)) (λ u, isGroup GroupVotingMembership u && (gid t =? gid u) ||
      isGroup GroupNonVotingMembership u && (gid t =? gid u)))
      by (intros u; unfold isMembership; by rewrite andb_orb_distrib_l).
    rewrite some_or. unfold some. rewrite (same_replica _ _ _ t (tk_voting _ _ (rp_tracks _ _ HR))),
      (same_replica _ _ _ t (tk_nonVoting _ _ (rp_tracks _ _ HR))),
      (same_replica _ _ _ t (tk_attachment _ _ (rp_tracks _ _ HR))) by done.
    repeat case_match; naive_solver.
  - apply orb_false_iff in E as [-> ->]. done.
Qed.


(** Finish a group whose checks are the flags and sets of the specification, in order. *)
Ltac admission := repeat case_match; simplify_eq/=; rewrite ?andb_false_r in *; simplify_eq/=; try done; by eexists _, _.

Lemma CanAdmit_spec ma k w t : represents k w → named t →
  ∃ msg det, CanAdmit_tracking t ma k = Ok (w_CanAdmit ma w t, msg, det).
Proof.
  intros HR Hn. pose proof (rp_tracks _ _ HR) as HT. destruct (memberCheck_spec k w t HR Hn) as (c & Hc & Hcb).
  pose proof (describes_len _ _ _ (tk_voting _ _ HT)
    (λ x Hx, named_group k w x _ HR Hx (voting_replica x.2))) as HV.
  pose proof (describes_len _ _ _ (tk_gaining _ _ HT)
    (λ x Hx, named_group k w x _ HR Hx (gaining_replica x.2))) as HD.
  unfold CanAdmit_tracking, blocked, admitted. rewrite HV, HD, Hc.
  rewrite (tk_formation _ _ HT), (tk_quorum _ _ HT), (tk_multiattach _ _ HT), (tk_network _ _ HT), (tk_resize _ _ HT).
  fold (some (isGroup GroupFormation) w) (some (isGroup GroupQuorum) w) (some (isGroup GroupMultiattach) w)
    (some (isGroup GroupNetwork) w) (some (isGroup GroupResize) w) (some (isGroup GroupVotingMembership) w) (some gaining w).
  clear HV HD Hc. unfold w_CanAdmit, obstructs. rewrite some_or, some_and.
  destruct (t_Group t) eqn:Hg; destruct (group_preds _ _ Hg) as (HG & _ & _);
    unfold isMembership at 1 in Hcb; rewrite !HG in Hcb; rewrite !HG; clear HG; simpl in Hcb |- *;
    rewrite ?orb_false_r in Hcb; rewrite ?some_or, ?some_and, ?some_none, ?andb_true_r, ?andb_false_r; simpl.
  all: try (match type of Hcb with _ = some _ _ => rewrite <-Hcb end).
  all: destruct (some (isGroup GroupFormation) w); try done; try (by eexists _, _); destruct c as [[msg det]|]; try done; try (by eexists _, _).
  all: rewrite ?(andb_comm (isDiskGainingTransition t)); try admission.
  destruct Hn as [Hne Hv]; [by rewrite Hg|]. unfold ReplicaID.
  destruct (String.eqb_spec (t_ReplicaName t) ""); [done|]. cbn [mbind outcome_bind]. fold (gid t).
  rewrite (others_empty _ _ _ HR Hv).
  destruct (bool_decide _), ma, (some (isGroup GroupMultiattach) w); by eexists _, _.
Qed.

(** C20: the tracker refines its specification.  From a state that represents the active transitions
    and the attached replicas: Add and Remove do not panic and lead to a state that represents the
    specification's next state, and CanAdmit answers exactly what the specification answers by
    examining every active transition. *)
Theorem tracker_refines (ma : bool) (k : tracking) (w : world) (a : ptr) (t : Transition) :
  represents k w → named t →
  (∃ k', Add_tracking a t k = Ok k' ∧ represents k' (w_Add a t w)) ∧
  (∀ l r, w_active w = l ++ (a, t) :: r → (∀ x, x ∈ l ++ r → ¬ Tracker.conflict x.2 t) →
     ∃ k', Remove_tracking t k = Ok k' ∧ represents k' (w_Remove (l ++ r) t w)) ∧
  (∃ msg det, CanAdmit_tracking t ma k = Ok (w_CanAdmit ma w t, msg, det)).
Proof.
  intros HR Hn. split_and!; [by apply Add_represents| |by apply CanAdmit_spec].
  intros l r Hw Hc. by eapply Remove_represents.
Qed.

(** Two replicas, the first being attached: the second waits for multiattach. *)
Definition attachOf (name : string) : Transition :=
  {| t_Type := Attach; t_ReplicaName := name; t_ReplicaType := ReplicaTypeDiskful;
     t_FromReplicaType := ReplicaTypeOther ""; t_ToReplicaType := ReplicaTypeOther "";
     t_FromSystemNetworkNames := []; t_ToSystemNetworkNames := [];
     t_Group := GroupAttachment; t_PlanID := "attach/v1"; t_Steps := [] |}.
Definition empty_world : world := {| w_active := []; w_attached := ∅ |}.
Lemma initTracking_represents : represents initTracking empty_world.
Proof.
  split; [|by intros x ?%elem_of_nil|set_solver|by split|].
  - split; try done; (split; [by split|]); intros; try (by rewrite Contains_empty). by apply elem_of_nil in H0.
  - intros id Hid. simpl. rewrite Contains_empty by done. by vm_compute.
Qed.
Lemma tracker_refines_witness :
  ∃ k msg det, Add_tracking 0 (attachOf "vol-0") initTracking = Ok k ∧
    CanAdmit_tracking (attachOf "vol-1") false k = Ok (false, msg, det).
Proof.
  assert (N0 : named (attachOf "vol-0")) by (intros _; vm_compute; split; [discriminate|split; congruence]).
  assert (N1 : named (attachOf "vol-1")) by (intros _; vm_compute; split; [discriminate|split; congruence]).
  destruct (tracker_refines false initTracking empty_world 0 _ initTracking_represents N0) as [(k & E & HR) _].
  destruct (tracker_refines false k _ 1 _ HR N1) as (_ & _ & (msg & det & Hc)).
  exists k, msg, det. split; [done|]. rewrite Hc. vm_compute. reflexivity.
Defined.
End spec.
