(* ===== verification/Helpers.v ===== *)
(** * datamesh: counting, confirmation, connectivity and member-mutation helpers

    Source: rv_controller/datamesh/helpers_confirm.go, membership_helpers.go,
    membership_helpers_apply.go, quorum_helpers.go, tiebreaker_readiness.go and the connection
    verification part of network_helpers.go. *)

From Stdlib Require Import ZArith Lia String.
From stdpp Require Import base list numbers strings option.
From S2P Require Import Prelude IdSet DrbdSize Api Dmte Context.
Import v1alpha1 dmte datamesh.

Module helpers.
Section helpers.
Context `{K : K8s}.
Notation G := globalContext.
Implicit Types (g : G) (rc : ReplicaContext).

(** IDs of the contexts satisfying a predicate, collected in order. *)
Definition idsWhere (p : ReplicaContext → bool) g : Z :=
  foldl (λ s rc, if p rc then idset.Add s (rc_id rc) else s) 0 (g_allReplicas g).

(** ** Confirm helper functions *)
Definition isMember rc : bool := match rc_member rc with Some _ => true | None => false end.
Definition fullMeshMemberIDs g : Z := idsWhere (hasType ConnectsToAllPeers) g.
Definition allMemberIDs g : Z := idsWhere isMember g.
Definition rvrConfirmed (stepRevision : Z) rc : bool :=
  match rc_rvr rc with Some rvr => stepRevision <=? rvr_DatameshRevision rvr | None => false end.
Definition confirmedReplicas g (stepRevision : Z) : Z := idsWhere (rvrConfirmed stepRevision) g.

(** The leaving replica has reset its revision. *)
Definition rvrLeft rc : bool :=
  match rc_rvr rc with Some rvr => rvr_DatameshRevision rvr =? 0 | None => false end.

(** ** Shared confirm callbacks *)
Definition confirmSubjectOnly : ReplicaConfirmFunc G rptr := λ _ g rctx stepRevision,
  rc ← rc_at g rctx;
  Ok {| MustConfirm := idset.Of [rc_id rc];
        Confirmed := if rvrConfirmed stepRevision rc then idset.Add 0 (rc_id rc) else 0 |}.

Definition confirmSubjectOnlyLeaving : ReplicaConfirmFunc G rptr := λ _ g rctx stepRevision,
  rc ← rc_at g rctx;
  Ok {| MustConfirm := idset.Of [rc_id rc];
        Confirmed := if rvrConfirmed stepRevision rc || rvrLeft rc
                     then idset.Add 0 (rc_id rc) else 0 |}.

Definition confirmSubjectOnlyLeavingOrGone : ReplicaConfirmFunc G rptr := λ _ g rctx stepRevision,
  rc ← rc_at g rctx;
  Ok {| MustConfirm := idset.Of [rc_id rc];
        Confirmed := if match rc_rvr rc with
                        | None => true
                        | Some rvr => (rvr_DatameshRevision rvr =? 0) ||
                                      (stepRevision <=? rvr_DatameshRevision rvr)
                        end
                     then idset.Add 0 (rc_id rc) else 0 |}.

Definition confirmFMPlusSubject : ReplicaConfirmFunc G rptr := λ _ g rctx stepRevision,
  rc ← rc_at g rctx;
  let must := idset.Union (fullMeshMemberIDs g) (idset.Of [rc_id rc]) in
  Ok {| MustConfirm := must; Confirmed := idset.Intersect (confirmedReplicas g stepRevision) must |}.

Definition confirmFMPlusSubjectLeaving : ReplicaConfirmFunc G rptr := λ _ g rctx stepRevision,
  rc ← rc_at g rctx;
  let must := idset.Union (fullMeshMemberIDs g) (idset.Of [rc_id rc]) in
  let confirmed := idset.Intersect (confirmedReplicas g stepRevision) must in
  Ok {| MustConfirm := must;
        Confirmed := if rvrLeft rc then idset.Add confirmed (rc_id rc) else confirmed |}.

Definition confirmAllMembers : GlobalConfirmFunc G := λ _ g stepRevision,
  let must := allMemberIDs g in
  Ok {| MustConfirm := must; Confirmed := idset.Intersect (confirmedReplicas g stepRevision) must |}.

Definition confirmAllMembersLeaving : ReplicaConfirmFunc G rptr := λ _ g rctx stepRevision,
  rc ← rc_at g rctx;
  let must := idset.Add (allMemberIDs g) (rc_id rc) in
  let confirmed := idset.Intersect (confirmedReplicas g stepRevision) must in
  Ok {| MustConfirm := must;
        Confirmed := if rvrLeft rc then idset.Add confirmed (rc_id rc) else confirmed |}.

Definition confirmImmediate : ReplicaConfirmFunc G rptr := λ _ _ _ _,
  Ok {| MustConfirm := 0; Confirmed := 0 |}.

(** ** Counts (byte counters) *)
Definition voterCount g : Z := wrap8 (countb (hasType IsVoter) (g_allReplicas g)).

Definition isUpToDateDiskful rc : bool :=
  hasType IsVoter rc && hasType HasBackingVolume rc &&
  match rc_rvr rc with
  | Some rvr => match rvr_BackingVolume rvr with
                | Some bv => String.eqb (bv_State bv) DiskStateUpToDate
                | None => false
                end
  | None => false
  end.
Definition upToDateDiskfulCount g : Z := wrap8 (countb isUpToDateDiskful (g_allReplicas g)).

Definition isTB rc : bool := hasType (λ ty, bool_decide (ty = MemberTypeTieBreaker)) rc.
Definition tbCount g : Z := wrap8 (countb isTB (g_allReplicas g)).

Definition computeTargetQ (voters : Z) : Z := voters / 2 +b 1.

(** ** Per-zone counts *)
Record zoneCount := { zc_Zone : string; zc_Count : Z }.

Definition findZoneCount (zones : list zoneCount) (zone : string) : Z :=
  match List.find (λ zc, String.eqb (zc_Zone zc) zone) zones with
  | Some zc => zc_Count zc
  | None => 0
  end.

(** Increment the count of a zone, appending it when it is new. *)
Fixpoint bumpZone (zone : string) (zcs : list zoneCount) : list zoneCount :=
  match zcs with
  | [] => [{| zc_Zone := zone; zc_Count := 1 |}]
  | zc :: zcs =>
      if String.eqb (zc_Zone zc) zone
      then {| zc_Zone := zc_Zone zc; zc_Count := zc_Count zc +b 1 |} :: zcs
      else zc :: bumpZone zone zcs
  end.
Definition zoneOf rc : string := match memberOf rc with Some m => m_Zone m | None => "" end.
Definition countPerZone g (include : ReplicaContext → bool) : list zoneCount :=
  sort_by (λ a b, string_leb (zc_Zone a) (zc_Zone b))
    (foldl (λ zcs rc, if include rc then bumpZone (zoneOf rc) zcs else zcs) [] (g_allReplicas g)).
Definition voterCountPerZone g : list zoneCount := countPerZone g (hasType IsVoter).
Definition upToDateDiskfulCountPerZone g : list zoneCount := countPerZone g isUpToDateDiskful.
Definition tbCountPerZone g : list zoneCount := countPerZone g isTB.

(** ** Connection verification (network_helpers.go) *)
Definition isAgentReady (rvr : ReplicatedVolumeReplica) : bool :=
  negb (condReasonEqual rvr CondDRBDConfiguredType ReasonAgentNotReady).

Definition peerCheck : Type := ReplicatedVolumeReplica → Z → bool.
Definition peerConnected : peerCheck := λ rvr peerID,
  match List.find (λ p, p_ID p =? peerID) (rvr_Peers rvr) with
  | Some p => String.eqb (p_ConnectionState p) ConnectionStateConnected
  | None => false
  end.
Definition peerConnectedOnNetwork (network : string) : peerCheck := λ rvr peerID,
  match List.find (λ p, p_ID p =? peerID) (rvr_Peers rvr) with
  | Some p => slices_Contains (p_ConnectionEstablishedOn p) network
  | None => false
  end.

Definition expectedPeerIDs (memberType : DatameshMemberType) (id allMembers fmMembers : Z) : Z :=
  if ConnectsToAllPeers memberType then idset.Difference allMembers (idset.Of [id])
  else idset.Difference fmMembers (idset.Of [id]).

(** One side of a connection vouches for it. *)
Definition sideVerifies (a : option ReplicatedVolumeReplica) (peerID minRevision : Z)
    (check : peerCheck) : bool :=
  match a with
  | Some r => isAgentReady r && (minRevision <=? rvr_DatameshRevision r) && check r peerID
  | None => false
  end.
Definition peerConnectionVerified (a b : option ReplicatedVolumeReplica) (aID bID minRevision : Z)
    (check : peerCheck) : bool :=
  if sideVerifies a bID minRevision check then true else sideVerifies b aID minRevision check.
Definition connectionVerified rc (b : option ReplicaContext) (minRevision : Z) (check : peerCheck) :
    bool :=
  match b with
  | None => false
  | Some b => peerConnectionVerified (rc_rvr rc) (rc_rvr b) (rc_id rc) (rc_id b) minRevision check
  end.
(** [rc.member] is dereferenced: callers check it first. *)
Definition allConnectionsOfMemberVerified g rc (minRevision allMembers fmMembers : Z)
    (check : peerCheck) : bool :=
  match memberOf rc with
  | Some m =>
      forallb (λ peerID, connectionVerified rc (replicaAt g peerID) minRevision check)
        (idset.All (expectedPeerIDs (m_Type m) (rc_id rc) allMembers fmMembers))
  | None => false
  end.
Definition allMembersHaveFullConnectivity g (minRevision allMembers fmMembers : Z)
    (check : peerCheck) : bool :=
  forallb (λ rc, if isMember rc
                 then allConnectionsOfMemberVerified g rc minRevision allMembers fmMembers check
                 else true) (g_allReplicas g).

(** ** tiebreaker_readiness.go *)
Record TieBreakerPeer := {
  tp_ID : Z; tp_Name : string; tp_RVR : option ReplicatedVolumeReplica }.
Definition displayName (p : TieBreakerPeer) : string :=
  if String.eqb (tp_Name p) "" then "replica " +:+ itoa (tp_ID p) else tp_Name p.

Definition IsTieBreakerOperational (tb : option ReplicatedVolumeReplica)
    (peers : list TieBreakerPeer) (datameshRevision : Z) : bool * string :=
  match tb with
  | None => (false, "replica object is gone")
  | Some r =>
      if decide (is_Some (rvr_DeletionTimestamp r)) then (false, "replica is terminating")
      else if rvr_DatameshRevision r <? datameshRevision then
        (false, "datamesh revision " +:+ itoa (rvr_DatameshRevision r) +:+ " applied, want "
                +:+ itoa datameshRevision)
      else if negb (condIsTrueCurrent r CondDRBDConfiguredType) then (false, "DRBD is not configured")
      else
        match List.find (λ p, negb (tp_ID p =? rvr_ID r) &&
                negb (peerConnectionVerified tb (tp_RVR p) (rvr_ID r) (tp_ID p) datameshRevision
                        peerConnected)) peers with
        | Some p => (false, "connection to " +:+ displayName p +:+ " is not confirmed")
        | None => (true, "")
        end
  end.

Definition isTieBreakerOperational g rc : bool * string :=
  match memberOf rc with
  | None => (false, "")
  | Some m =>
      let expected := expectedPeerIDs (m_Type m) (rc_id rc) (allMemberIDs g) (fullMeshMemberIDs g) in
      let peers := map (λ peerID,
        match replicaAt g peerID with
        | Some p => {| tp_ID := peerID; tp_Name := rc_name p; tp_RVR := rc_rvr p |}
        | None => {| tp_ID := peerID; tp_Name := ""; tp_RVR := None |}
        end) (idset.All expected) in
      IsTieBreakerOperational (rc_rvr rc) peers (in_datameshRevision (g_in g))
  end.

Definition operationalTieBreakerCount g (excludeID : Z) : Z * list string :=
  let tbs := List.filter (λ rc, isTB rc && negb (rc_id rc =? excludeID)) (g_allReplicas g) in
  (wrap8 (countb (λ rc, (isTieBreakerOperational g rc).1) tbs),
   sort_by string_leb
     (omap (λ rc, let '(ok, why) := isTieBreakerOperational g rc in
                  if ok : bool then None else Some (rc_name rc +:+ ": " +:+ why)) tbs)).

(** ** Apply callbacks (membership_helpers_apply.go) *)

(** Apply a change to the member of the subject; panics when it has none. *)
Definition on_member (f : DatameshMember → bool * DatameshMember) : ReplicaApplyFunc G rptr :=
  λ _ g rctx,
    rc ← rc_at g rctx;
    m ← deref (memberOf rc);
    let '(changed, m') := f m in
    match rctx with
    | Some i => Ok (changed, if changed : bool then upd_rc i (mutate_member (λ _, m')) g else g)
    | None => Ok (changed, g)
    end.

Definition createMember (memberType : DatameshMemberType) : ReplicaApplyFunc G rptr := λ _ g rctx,
  i ← deref rctx;
  rc ← index (g_allReplicas g) i;
  let zone := match getEligibleNode g rc with Some en => en_ZoneName en | None => "" end in
  rvr ← deref (rc_rvr rc);
  Ok (true, upd_rc i (set_rc_member (Some
    ({| m_Name := rc_name rc; m_Type := memberType; m_NodeName := rc_nodeName rc; m_Zone := zone;
        m_Addresses := rvr_Addresses rvr; m_LVMVolumeGroupName := "";
        m_LVMVolumeGroupThinPoolName := ""; m_Attached := false |}, None))) g).

Definition setType (memberType : DatameshMemberType) : ReplicaApplyFunc G rptr :=
  on_member (λ m, let '(c, ty) := SetChanged (m_Type m) memberType in (c, set_m_Type ty m)).

Definition setBackingVolumeFromRequest : ReplicaApplyFunc G rptr := λ mem g rctx,
  rc ← rc_at g rctx;
  m ← deref (memberOf rc);
  '(rq, _) ← deref (rc_membershipRequest rc);
  on_member (λ m,
    let '(c1, vg) := SetChanged (m_LVMVolumeGroupName m) (mr_LVMVolumeGroupName (rq_Request rq)) in
    let '(c2, tp) := SetChanged (m_LVMVolumeGroupThinPoolName m) (mr_ThinPoolName (rq_Request rq)) in
    (c1 || c2, set_m_BackingVolume vg tp m)) mem g rctx.

Definition clearBackingVolume : ReplicaApplyFunc G rptr :=
  on_member (λ m,
    let '(c1, vg) := SetChanged (m_LVMVolumeGroupName m) "" in
    let '(c2, tp) := SetChanged (m_LVMVolumeGroupThinPoolName m) "" in
    (c1 || c2, set_m_BackingVolume vg tp m)).

Definition removeMember : ReplicaApplyFunc G rptr := λ _ g rctx,
  i ← deref rctx;
  rc ← index (g_allReplicas g) i;
  let g := upd_rc i (set_rc_member None) g in
  match rc_rvr rc with
  | Some _ => Ok (true, g)
  | None =>
      _ ← index (g_replicas g) (Z.to_nat (rc_id rc));
      Ok (true, set_replicas (<[Z.to_nat (rc_id rc) := None]> (g_replicas g)) g)
  end.

Definition raiseQ : GlobalApplyFunc G := λ _ g,
  Ok (true, set_datamesh (set_quorum (dm_quorum (g_datamesh g) +b 1) (g_datamesh g)) g).
Definition lowerQ : GlobalApplyFunc G := λ _ g,
  Ok (true, set_datamesh (set_quorum (dm_quorum (g_datamesh g) -b 1) (g_datamesh g)) g).
Definition raiseQMR : GlobalApplyFunc G := λ _ g,
  Ok (true, set_datamesh (set_qmr (dm_quorumMinimumRedundancy (g_datamesh g) +b 1) (g_datamesh g)) g).
Definition lowerQMR : GlobalApplyFunc G := λ _ g,
  Ok (true, set_datamesh (set_qmr (dm_quorumMinimumRedundancy (g_datamesh g) -b 1) (g_datamesh g)) g).

(** ** quorum_helpers.go *)
Definition updateBaselineGMDR : GlobalApplyFunc G := λ _ g,
  let qmr := dm_quorumMinimumRedundancy (g_datamesh g) in
  let gmdr := if 0 <? qmr then qmr -b 1 else 0 in
  let '(c, v) := SetChanged (g_baselineGMDR g)
                   (Z.min gmdr (cfg_GuaranteedMinimumDataRedundancy (in_configuration (g_in g)))) in
  Ok (c, set_baselineGMDR v g).

Definition computeCorrectQuorum g : Z * Z :=
  let q := computeTargetQ (voterCount g) in
  let targetQMR := QuorumMinimumRedundancy (in_configuration (g_in g)) in
  let currentQMR := dm_quorumMinimumRedundancy (g_datamesh g) in
  (q, if targetQMR <=? currentQMR then targetQMR
      else Z.max currentQMR (Z.min targetQMR (upToDateDiskfulCount g))).

Definition setCorrectQ : GlobalApplyFunc G := λ _ g,
  let '(q, _) := computeCorrectQuorum g in
  let '(c, v) := SetChanged (dm_quorum (g_datamesh g)) q in
  Ok (c, set_datamesh (set_quorum v (g_datamesh g)) g).
Definition setCorrectQMR : GlobalApplyFunc G := λ _ g,
  let '(_, qmr) := computeCorrectQuorum g in
  let '(c, v) := SetChanged (dm_quorumMinimumRedundancy (g_datamesh g)) qmr in
  Ok (c, set_datamesh (set_qmr v (g_datamesh g)) g).

(** ** Init and OnComplete callbacks, step constructors (membership_helpers.go) *)
Definition set_t_types (rt from to : ReplicaType) (t : Transition) : Transition :=
  {| t_Type := t_Type t; t_ReplicaName := t_ReplicaName t; t_ReplicaType := rt;
     t_FromReplicaType := from; t_ToReplicaType := to;
     t_FromSystemNetworkNames := t_FromSystemNetworkNames t;
     t_ToSystemNetworkNames := t_ToSystemNetworkNames t;
     t_Group := t_Group t; t_PlanID := t_PlanID t; t_Steps := t_Steps t |}.
Definition setReplicaType (rt : ReplicaType) : ReplicaInitFunc G rptr := λ _ _ t,
  Ok (set_t_types rt (t_FromReplicaType t) (t_ToReplicaType t) t).
Definition setReplicaFromToType (from to : ReplicaType) : ReplicaInitFunc G rptr := λ _ _ t,
  Ok (set_t_types (t_ReplicaType t) from to t).

Definition set_membershipMessage (msg : string) (g : G) (i : rptr) : G :=
  SetStatus membershipSlotAccessor g i msg None.
Definition onJoinComplete : ReplicaOnCompleteFunc G rptr := λ _ g rctx,
  i ← deref rctx; Ok (set_membershipMessage "Joined datamesh successfully" g i).
Definition onLeaveComplete : ReplicaOnCompleteFunc G rptr := λ _ g rctx,
  match rctx with
  | None => Ok g
  | Some i => Ok (set_membershipMessage "Left datamesh successfully" g i)
  end.
Definition onForceRemoveComplete : ReplicaOnCompleteFunc G rptr := λ _ g rctx,
  match rctx with
  | None => Ok g
  | Some i => Ok (set_membershipMessage "Force-removed from datamesh" g i)
  end.
Definition onChangeTypeComplete : ReplicaOnCompleteFunc G rptr := λ _ g rctx,
  i ← deref rctx; Ok (set_membershipMessage "Replica type changed successfully" g i).

Definition mrStep (name : string) (apply : ReplicaApplyFunc G rptr)
    (confirm : ReplicaConfirmFunc G rptr) : outcome ReplicaStepBuilder :=
  b ← ReplicaStep name (Some apply) (Some confirm);
  Ok (rsb_DiagnosticConditions [CondDRBDConfiguredType] b).
Definition mgStep (name : string) (apply : GlobalApplyFunc G) (confirm : GlobalConfirmFunc G) :
    outcome GlobalStepBuilder :=
  b ← GlobalStep name (Some apply) (Some confirm);
  Ok (gsb_DiagnosticConditions [CondDRBDConfiguredType] b).

(** helpers_adapt.go *)
Definition asReplicaApply (fn : GlobalApplyFunc G) : ReplicaApplyFunc G rptr := AdaptGlobalApply fn.
Definition asReplicaConfirm (fn : GlobalConfirmFunc G) : ReplicaConfirmFunc G rptr :=
  AdaptGlobalConfirm fn.
End helpers.
End helpers.
