(* ===== verification/Guards.v ===== *)
(** * datamesh: membership guards

    Source: rv_controller/datamesh/membership_helpers_guards.go.  A guard evaluates the global
    context (and the transitions reachable from it) and the subject; counters are bytes and their
    subtraction wraps. *)

From Stdlib Require Import ZArith Lia String.
From stdpp Require Import base list numbers strings option.
From S2P Require Import Prelude IdSet DrbdSize Api Dmte Context Helpers.
Import v1alpha1 dmte datamesh helpers.

Module guards.
Section guards.
Context `{K : K8s}.
Notation G := globalContext.
Implicit Types (g : G) (rc : ReplicaContext).

Definition pass : GuardResult := zeroGuardResult.
Definition block (msg : string) : GuardResult :=
  {| gr_Blocked := true; gr_Message := msg; gr_Details := None |}.

(** Guards that read the subject, and guards that ignore it. *)
Definition on_subject (f : tmem → G → ReplicaContext → outcome GuardResult) : ReplicaGuardFunc G rptr :=
  λ mem g rctx, rc ← rc_at g rctx; r ← f mem g rc; Ok (r, g).
Definition on_global (f : G → GuardResult) : ReplicaGuardFunc G rptr := λ _ g _, Ok (f g, g).

(** The first blocking message of a loop with early return. *)
Fixpoint firstSome {A B} (f : A → option B) (l : list A) : option B :=
  match l with
  | [] => None
  | x :: l => match f x with Some b => Some b | None => firstSome f l end
  end.
Definition block_if (o : option string) : GuardResult :=
  match o with Some msg => block msg | None => pass end.

(** ** Backing volume capacity *)
Definition maxDiskMembers : Z := 8.

Definition diskMember rc : bool :=
  hasType (λ ty, HasBackingVolume ty || bool_decide (ty = MemberTypeLiminalDiskful)
                 || bool_decide (ty = MemberTypeLiminalShadowDiskful)) rc.
Definition diskType (rt : ReplicaType) : bool :=
  bool_decide (rt = ReplicaTypeDiskful) || bool_decide (rt = ReplicaTypeShadowDiskful).
(** A non-disk member whose membership transition will give it a disk. *)
Definition pendingDisk (mem : tmem) rc : outcome bool :=
  if negb (isMember rc) || diskMember rc then Ok false else
  match rc_membershipTransition rc with
  | None => Ok false
  | Some a =>
      t ← index mem a;
      Ok ((bool_decide (t_Type t = ChangeReplicaType) && diskType (t_ToReplicaType t)) ||
          (bool_decide (t_Type t = AddReplica) && diskType (t_ReplicaType t)))
  end.
Fixpoint pendingCount (mem : tmem) (rcs : list ReplicaContext) : outcome Z :=
  match rcs with
  | [] => Ok 0
  | rc :: rcs => b ← pendingDisk mem rc; n ← pendingCount mem rcs; Ok (Z.b2z b + n)
  end.
Definition guardMaxDiskMembers : ReplicaGuardFunc G rptr := λ mem g _,
  let current := countb diskMember (g_allReplicas g) in
  pending ← pendingCount mem (g_allReplicas g);
  let total := current + pending in
  Ok (if maxDiskMembers <=? total then
        block ("maximum disk members reached (" +:+ itoa total +:+ "/" +:+ itoa maxDiskMembers
               +:+ ", " +:+ itoa current +:+ " current + " +:+ itoa pending +:+ " pending)")
      else pass, g).

(** ** Shared Add guards *)
Definition guardRVNotDeleting : ReplicaGuardFunc G rptr := on_global (λ g,
  match in_deletionTimestamp (g_in g) with
  | Some _ => block "volume is being deleted"
  | None => pass
  end).

Definition guardAddressesPopulated : ReplicaGuardFunc G rptr := on_subject (λ _ _ rc,
  Ok (match rc_rvr rc with
      | Some rvr => if bool_decide (rvr_Addresses rvr = [])
                    then block "waiting for replica addresses to be populated" else pass
      | None => block "waiting for replica addresses to be populated"
      end)).

Definition guardNoMemberOnSameNode : ReplicaGuardFunc G rptr := on_subject (λ _ g subject,
  Ok (block_if (firstSome (λ rc,
    match memberOf rc with
    | Some m => if String.eqb (rc_nodeName rc) (rc_nodeName subject)
                then Some (DatameshMemberType_String (m_Type m) +:+ " member " +:+ m_Name m
                           +:+ " already present on node " +:+ rc_nodeName rc)
                else None
    | None => None
    end) (g_allReplicas g)))).

Definition guardRSPAvailable : ReplicaGuardFunc G rptr := on_global (λ g,
  match in_rsp (g_in g) with
  | None => block "waiting for ReplicatedStoragePool to be available"
  | Some _ => pass
  end).

Definition guardNodeEligible : ReplicaGuardFunc G rptr := on_subject (λ _ g rc,
  Ok (match in_rsp (g_in g) with
      | None => block "waiting for ReplicatedStoragePool to be available"
      | Some _ => match getEligibleNode g rc with
                  | None => block ("node " +:+ rc_nodeName rc +:+ " is not in eligible nodes")
                  | Some _ => pass
                  end
      end)).

Definition guardNodeHasAllSystemNetworks : ReplicaGuardFunc G rptr := on_global (λ _, pass).

(** ** Shared Remove guards *)
Definition guardNotAttached : ReplicaGuardFunc G rptr := on_subject (λ mem _ rc,
  if match memberOf rc with Some m => m_Attached m | None => false end
  then Ok (block "replica is attached, detach required first")
  else match rc_attachmentTransition rc with
       | Some a => t ← index mem a;
                   Ok (block (ToLower (TransitionType_String (t_Type t)) +:+ " transition in progress"))
       | None => Ok pass
       end).

(** ** Leaving-D guards *)
Definition guardVolumeAccessLocalForDemotion : ReplicaGuardFunc G rptr := on_subject (λ _ g rc,
  Ok (if match memberOf rc with Some m => m_Attached m | None => false end
         && bool_decide (cfg_VolumeAccess (in_configuration (g_in g)) = VolumeAccessLocal)
      then block "volumeAccess=Local requires Diskful on attached node" else pass)).

(** UpToDate copies that survive the loss of the subject. *)
Definition survivingUTD g rc : Z :=
  let adr := upToDateDiskfulCount g in
  if isUpToDateDiskful rc && (0 <? adr) then adr -b 1 else adr.
Definition guardGMDRPreserved : ReplicaGuardFunc G rptr := on_subject (λ _ g rc,
  let targetGMDR := cfg_GuaranteedMinimumDataRedundancy (in_configuration (g_in g)) in
  let adr := survivingUTD g rc in
  Ok (if adr <=? targetGMDR
      then block ("would violate GMDR (ADR=" +:+ itoa adr +:+ ", need > " +:+ itoa targetGMDR +:+ ")")
      else pass)).

Definition guardFTTPreserved : ReplicaGuardFunc G rptr := on_global (λ g,
  let cfg := in_configuration (g_in g) in
  let dMin := IntendedDiskfulCount (cfg_FailuresToTolerate cfg)
                (cfg_GuaranteedMinimumDataRedundancy cfg) in
  let voters := voterCount g in
  if voters <=? dMin
  then block ("would violate FTT (Diskful=" +:+ itoa voters +:+ ", need > " +:+ itoa dMin +:+ ")")
  else pass).

(** ** Zonal guards *)

(** The zone of a replica: from its member, else from the RSP. *)
Definition replicaZone g rc : option string :=
  match memberOf rc with
  | Some m => Some (m_Zone m)
  | None => en_ZoneName <$> getEligibleNode g rc
  end.
Definition isTopology (top : Topology) g : bool :=
  bool_decide (cfg_Topology (in_configuration (g_in g)) = top).

Definition maxZoneCount (zcs : list zoneCount) : Z :=
  foldl (λ mx zc, if mx <? zc_Count zc then zc_Count zc else mx) 0 zcs.
Definition guardZonalSameZone : ReplicaGuardFunc G rptr := on_subject (λ _ g rc,
  Ok (if negb (isTopology TopologyZonal g) then pass else
      let perZone := voterCountPerZone g in
      match perZone with
      | [] => pass
      | _ =>
          match replicaZone g rc with
          | None => pass
          | Some zone =>
              if existsb (λ zc, String.eqb (zc_Zone zc) zone && (zc_Count zc =? maxZoneCount perZone)) perZone
              then pass
              else block ("zone " +:+ quote zone +:+ " is not the primary zone for Zonal topology")
          end
      end)).

(** ** TransZonal placement guards (gain) *)
Definition voterPlacementCheck (addedZone : string) (votersAfter qAfter qmr totalTB : Z)
    (tbPerZone : list zoneCount) (zc : zoneCount) : option string :=
  let zone := zc_Zone zc in
  let votersInZ := if String.eqb zone addedZone then zc_Count zc +b 1 else zc_Count zc in
  let dSurviving := votersAfter -b votersInZ in
  let tbSurviving := totalTB -b findZoneCount tbPerZone zone in
  if (dSurviving <? qAfter) && (negb (dSurviving =? qAfter -b 1) || (tbSurviving =? 0)) then
    Some ("adding to zone " +:+ quote addedZone +:+ " would violate zone FTT (losing zone "
          +:+ quote zone +:+ " would leave " +:+ itoa dSurviving +:+ " Diskful voters, q="
          +:+ itoa qAfter +:+ ", TB=" +:+ itoa tbSurviving +:+ ")")
  else if dSurviving <? qmr then
    Some ("adding to zone " +:+ quote addedZone +:+ " would violate zone GMDR (losing zone "
          +:+ quote zone +:+ " would leave " +:+ itoa dSurviving +:+ " Diskful voters, need >= "
          +:+ itoa qmr +:+ ")")
  else None.
Definition newZoneCheck (addedZone : string) (votersAfter qAfter qmr totalTB : Z)
    (tbPerZone : list zoneCount) : option string :=
  let dSurviving := votersAfter -b 1 in
  let tbSurviving := totalTB -b findZoneCount tbPerZone addedZone in
  if (dSurviving <? qAfter) && (negb (dSurviving =? qAfter -b 1) || (tbSurviving =? 0)) then
    Some ("adding to new zone " +:+ quote addedZone +:+ " would violate zone FTT (losing it would leave "
          +:+ itoa dSurviving +:+ " Diskful voters, q=" +:+ itoa qAfter +:+ ")")
  else if dSurviving <? qmr then
    Some ("adding to new zone " +:+ quote addedZone +:+ " would violate zone GMDR (losing it would leave "
          +:+ itoa dSurviving +:+ " Diskful voters, need >= " +:+ itoa qmr +:+ ")")
  else None.
Definition guardTransZonalVoterPlacement : ReplicaGuardFunc G rptr := on_subject (λ _ g rc,
  Ok (if negb (isTopology TopologyTransZonal g) then pass else
      match replicaZone g rc with
      | None => pass
      | Some addedZone =>
          let votersAfter := voterCount g +b 1 in
          let qAfter := computeTargetQ votersAfter in
          let qmr := dm_quorumMinimumRedundancy (g_datamesh g) in
          let votersPerZone := voterCountPerZone g in
          let tbPerZone := tbCountPerZone g in
          let totalTB := tbCount g in
          match firstSome (voterPlacementCheck addedZone votersAfter qAfter qmr totalTB tbPerZone)
                  votersPerZone with
          | Some msg => block msg
          | None =>
              if existsb (λ zc, String.eqb (zc_Zone zc) addedZone) votersPerZone then pass
              else block_if (newZoneCheck addedZone votersAfter qAfter qmr totalTB tbPerZone)
          end
      end)).

Definition guardTransZonalTBPlacement : ReplicaGuardFunc G rptr := on_subject (λ _ g rc,
  Ok (if negb (isTopology TopologyTransZonal g) then pass else
      match replicaZone g rc with
      | None => pass
      | Some tbZone =>
          let votersInTBZone := findZoneCount (voterCountPerZone g) tbZone in
          if 1 <? votersInTBZone
          then block ("zone " +:+ quote tbZone +:+ " already has " +:+ itoa votersInTBZone
                      +:+ " Diskful voters (TB zone must have at most 1)")
          else pass
      end)).

(** ** TransZonal guards (lose) *)
Definition memberZone rc : string := match memberOf rc with Some m => m_Zone m | None => "" end.

Definition zoneGMDRCheck (targetGMDR adjustedTotal : Z) (subjectIsUTD : bool) (removedZone : string)
    (zc : zoneCount) : option string :=
  let adjustedZoneUTD :=
    if subjectIsUTD && String.eqb (zc_Zone zc) removedZone && (0 <? zc_Count zc)
    then zc_Count zc -b 1 else zc_Count zc in
  let surviving := adjustedTotal -b adjustedZoneUTD in
  if surviving <=? targetGMDR then
    Some ("would violate zone GMDR (losing zone " +:+ quote (zc_Zone zc)
          +:+ " after removal would leave " +:+ itoa surviving +:+ " UpToDate Diskful, need > "
          +:+ itoa targetGMDR +:+ ")")
  else None.
Definition guardZoneGMDRPreserved : ReplicaGuardFunc G rptr := on_subject (λ _ g rc,
  Ok (if negb (isTopology TopologyTransZonal g) then pass else
      let targetGMDR := cfg_GuaranteedMinimumDataRedundancy (in_configuration (g_in g)) in
      block_if (firstSome (zoneGMDRCheck targetGMDR (survivingUTD g rc) (isUpToDateDiskful rc)
                             (memberZone rc)) (upToDateDiskfulCountPerZone g)))).

Definition zoneFTTCheck (votersAfter qAfter totalTB : Z) (tbPerZone : list zoneCount)
    (removedZone : string) (subjectBecomesTieBreaker : bool) (zc : zoneCount) : option string :=
  let zone := zc_Zone zc in
  let adjustedZoneVoters :=
    if String.eqb zone removedZone && (0 <? zc_Count zc) then zc_Count zc -b 1 else zc_Count zc in
  let dSurviving := votersAfter -b adjustedZoneVoters in
  let tb := totalTB -b findZoneCount tbPerZone zone in
  let tbSurviving := if subjectBecomesTieBreaker && negb (String.eqb zone removedZone)
                     then tb +b 1 else tb in
  if qAfter <=? dSurviving then None
  else if (dSurviving =? qAfter -b 1) && (0 <? tbSurviving) then None
  else Some ("would violate zone FTT (losing zone " +:+ quote zone +:+ " would leave "
             +:+ itoa dSurviving +:+ " Diskful voters, q=" +:+ itoa qAfter +:+ ", TB="
             +:+ itoa tbSurviving +:+ ")").
Definition evaluateZoneFTT (subjectBecomesTieBreaker : bool) g rc : GuardResult :=
  if negb (isTopology TopologyTransZonal g) then pass else
  let voters := voterCount g in
  if voters =? 0 then pass else
  let votersAfter := voters -b 1 in
  block_if (firstSome (zoneFTTCheck votersAfter (computeTargetQ votersAfter) (tbCount g)
                         (tbCountPerZone g) (memberZone rc) subjectBecomesTieBreaker)
              (voterCountPerZone g)).
Definition guardZoneFTTPreserved : ReplicaGuardFunc G rptr :=
  on_subject (λ _ g rc, Ok (evaluateZoneFTT false g rc)).
Definition guardZoneFTTPreservedForRetypeToTieBreaker : ReplicaGuardFunc G rptr :=
  on_subject (λ _ g rc, Ok (evaluateZoneFTT true g rc)).

(** ** Leaving-TB guards *)
Definition guardTBSufficient : ReplicaGuardFunc G rptr := on_subject (λ _ g rc,
  let voters := voterCount g in
  let targetFTT := cfg_FailuresToTolerate (in_configuration (g_in g)) in
  let tbMin := wrap8 (TieBreakersForDiskful voters targetFTT) in
  Ok (if tbMin =? 0 then pass else
      let '(operationalAfterRemoval, notOperational) := operationalTieBreakerCount g (rc_id rc) in
      if operationalAfterRemoval <? tbMin then
        block ("TieBreaker required for quorum (Diskful=" +:+ itoa voters +:+ " even, FTT="
               +:+ itoa targetFTT +:+ "): " +:+ itoa operationalAfterRemoval
               +:+ " operational TieBreaker(s) would remain, need " +:+ itoa tbMin
               +:+ match notOperational with [] => "" | _ => "; " +:+ join "; " notOperational end)
      else pass)).

Definition guardZoneTBSufficient : ReplicaGuardFunc G rptr := on_subject (λ _ g rc,
  Ok (if negb (isTopology TopologyTransZonal g) then pass else
      if TieBreakersForDiskful (voterCount g) (cfg_FailuresToTolerate (in_configuration (g_in g))) =? 0
      then pass
      else if 1 <? tbCount g then pass
      else block ("would violate zone TB coverage (zone " +:+ quote (memberZone rc) +:+ ")"))).

(** ** ForceRemove guards *)
Definition seesConnected (memberName : string) (rvr : ReplicatedVolumeReplica) : bool :=
  existsb (λ p, String.eqb (p_Name p) memberName
                && String.eqb (p_ConnectionState p) ConnectionStateConnected) (rvr_Peers rvr).
Definition guardMemberUnreachable : ReplicaGuardFunc G rptr := on_subject (λ _ g subject,
  let connectedFrom := idsWhere (λ rc,
    isMember rc && negb (rc_id rc =? rc_id subject) &&
    match rc_rvr rc with
    | Some rvr => isAgentReady rvr && seesConnected (rc_name subject) rvr
    | None => false
    end) g in
  Ok (if negb (idset.IsEmpty connectedFrom) then
        block ("member is reachable (connected from " +:+ itoa (idset.Len connectedFrom)
               +:+ " replica(s): [" +:+ idset.String connectedFrom +:+ "])")
      else pass)).

(** ** Defense-in-depth guards *)
Definition guardVotersEven : ReplicaGuardFunc G rptr := on_global (λ g,
  if negb (voterCount g mod 2 =? 0)
  then block ("internal check: expected even voter count, got " +:+ itoa (voterCount g)) else pass).
Definition guardVotersOdd : ReplicaGuardFunc G rptr := on_global (λ g,
  if voterCount g mod 2 =? 0
  then block ("internal check: expected odd voter count, got " +:+ itoa (voterCount g)) else pass).
Definition guardQMRRaiseNeeded : ReplicaGuardFunc G rptr := on_global (λ g,
  let targetQMR := QuorumMinimumRedundancy (in_configuration (g_in g)) in
  let qmr := dm_quorumMinimumRedundancy (g_datamesh g) in
  if targetQMR <=? qmr
  then block ("internal check: qmr raise not needed (qmr=" +:+ itoa qmr +:+ " >= target "
              +:+ itoa targetQMR +:+ ")") else pass).
Definition guardQMRLowerNeeded : ReplicaGuardFunc G rptr := on_global (λ g,
  let targetQMR := QuorumMinimumRedundancy (in_configuration (g_in g)) in
  let qmr := dm_quorumMinimumRedundancy (g_datamesh g) in
  if qmr <=? targetQMR
  then block ("internal check: qmr lower not needed (qmr=" +:+ itoa qmr +:+ " <= target "
              +:+ itoa targetQMR +:+ ")") else pass).
Definition guardShadowDiskfulSupported : ReplicaGuardFunc G rptr := on_global (λ g,
  if negb (ShadowDiskful (in_features (g_in g)))
  then block "ShadowDiskful not supported (requires Flant DRBD extension, non-voting disk option)"
  else pass).

(** ** Guard groups *)
Definition commonAddGuards : list (ReplicaGuardFunc G rptr) :=
  [guardRVNotDeleting; guardRSPAvailable; guardNodeEligible; guardNodeHasAllSystemNetworks;
   guardNoMemberOnSameNode; guardAddressesPopulated].
Definition commonRemoveGuards : list (ReplicaGuardFunc G rptr) := [guardNotAttached].
Definition loseVoterGuardsCommon : list (ReplicaGuardFunc G rptr) :=
  [guardVolumeAccessLocalForDemotion; guardGMDRPreserved; guardFTTPreserved; guardZoneGMDRPreserved].
Definition loseVoterGuards : list (ReplicaGuardFunc G rptr) :=
  loseVoterGuardsCommon ++ [guardZoneFTTPreserved].
Definition loseVoterToTieBreakerGuards : list (ReplicaGuardFunc G rptr) :=
  loseVoterGuardsCommon ++ [guardZoneFTTPreservedForRetypeToTieBreaker].
Definition loseTBGuards : list (ReplicaGuardFunc G rptr) := [guardTBSufficient; guardZoneTBSufficient].
Definition gainVoterGuards : list (ReplicaGuardFunc G rptr) :=
  [guardZonalSameZone; guardTransZonalVoterPlacement].
Definition gainTBGuards : list (ReplicaGuardFunc G rptr) :=
  [guardZonalSameZone; guardTransZonalTBPlacement].
Definition forceRemoveGuards : list (ReplicaGuardFunc G rptr) :=
  [guardNotAttached; guardMemberUnreachable].
End guards.
End guards.
