(* ===== verification/Network.v ===== *)
(** * datamesh: system networks and address repair

    Source: rv_controller/datamesh/network_helpers.go, network_dispatch.go, network_plans.go. *)

From Stdlib Require Import ZArith Lia String.
From stdpp Require Import base list numbers strings option.
From S2P Require Import Prelude IdSet DrbdSize Api Dmte Context Helpers Guards.
Import v1alpha1 dmte datamesh helpers guards.

Module network.
Section network.
Context `{K : K8s}.
Notation G := globalContext.
Implicit Types (g : G) (rc : ReplicaContext).

Definition ngStep (name : string) (apply : GlobalApplyFunc G) (confirm : GlobalConfirmFunc G) :
    outcome GlobalStepBuilder :=
  b ← GlobalStep name (Some apply) (Some confirm);
  Ok (gsb_DiagnosticConditions [CondDRBDConfiguredType] b).

Definition findAddressByNetwork (addrs : list DRBDResourceAddressStatus) (network : string) :
    option DRBDResourceAddressStatus :=
  List.find (λ a, String.eqb (a_SystemNetworkName a) network) addrs.

(** Init: capture from and to. *)
Definition set_t_networks (from to : list string) (t : Transition) : Transition :=
  {| t_Type := t_Type t; t_ReplicaName := t_ReplicaName t; t_ReplicaType := t_ReplicaType t;
     t_FromReplicaType := t_FromReplicaType t; t_ToReplicaType := t_ToReplicaType t;
     t_FromSystemNetworkNames := from; t_ToSystemNetworkNames := to;
     t_Group := t_Group t; t_PlanID := t_PlanID t; t_Steps := t_Steps t |}.
Definition setSystemNetworks : GlobalInitFunc G := λ g t,
  match in_rsp (g_in g) with
  | None => Panic "setSystemNetworks: RSP is nil — dispatcher should not have dispatched ChangeSystemNetworks"
  | Some rsp => Ok (set_t_networks (dm_systemNetworkNames (g_datamesh g)) (GetSystemNetworkNames rsp) t)
  end.

(** The active ChangeSystemNetworks transition, through the pointer kept by the tracker. *)
Definition csnTransition (mem : tmem) g : outcome (option Transition) :=
  match changeSystemNetworksTransition (g_tracking g) with
  | None => Ok None
  | Some a => t ← index mem a; Ok (Some t)
  end.
Definition diffNames (a b : list string) : list string :=
  List.filter (λ net, negb (slices_Contains b net)) a.
Definition addedNetworks (mem : tmem) g : outcome (list string) :=
  o ← csnTransition mem g;
  Ok (match o with
      | None => []
      | Some t => diffNames (t_ToSystemNetworkNames t) (t_FromSystemNetworkNames t)
      end).
Definition removedNetworks (mem : tmem) g : outcome (list string) :=
  o ← csnTransition mem g;
  Ok (match o with
      | None => []
      | Some t => diffNames (t_FromSystemNetworkNames t) (t_ToSystemNetworkNames t)
      end).

(** ** Apply callbacks *)

(** Visit every context, threading the changed flag. *)
Definition map_contexts (f : ReplicaContext → bool * ReplicaContext) g : bool * G :=
  let l := map f (g_allReplicas g) in
  (existsb fst l, set_allReplicas (map snd l) g).

(** The RVR's addresses on the target networks, in network order. *)
Definition targetAddresses (rvrAddrs : list DRBDResourceAddressStatus) (targetNets : list string) :
    list DRBDResourceAddressStatus := omap (findAddressByNetwork rvrAddrs) targetNets.
Definition addressesEqual (a b : list DRBDResourceAddressStatus) : bool := bool_decide (a = b).
Definition repairMemberAddresses (m : DatameshMember) (rvrAddrs : list DRBDResourceAddressStatus)
    (targetNets : list string) : bool * DatameshMember :=
  let target := targetAddresses rvrAddrs targetNets in
  if addressesEqual (m_Addresses m) target then (false, m) else (true, set_m_Addresses target m).

Definition repairContext (targetNets : list string) rc : bool * ReplicaContext :=
  match memberOf rc, rc_rvr rc with
  | Some m, Some rvr =>
      let '(c, m') := repairMemberAddresses m (rvr_Addresses rvr) targetNets in
      (c, if c : bool then mutate_member (λ _, m') rc else rc)
  | _, _ => (false, rc)
  end.
Definition repairAddresses : GlobalApplyFunc G := λ _ g,
  Ok (map_contexts (repairContext (dm_systemNetworkNames (g_datamesh g))) g).

Definition addNewNetworks : GlobalApplyFunc G := λ mem g,
  added ← addedNetworks mem g;
  let '(changed, nets) := foldl (λ acc net,
      if slices_Contains acc.2 net then acc else (true, acc.2 ++ [net]))
    (false, dm_systemNetworkNames (g_datamesh g)) added in
  Ok (changed, set_datamesh (set_systemNetworkNames nets (g_datamesh g)) g).

Definition removeAddresses (removed : list string) rc : bool * ReplicaContext :=
  match memberOf rc with
  | None => (false, rc)
  | Some m =>
      let kept := List.filter (λ a, negb (slices_Contains removed (a_SystemNetworkName a))) (m_Addresses m) in
      if (length kept =? length (m_Addresses m))%nat then (false, rc)
      else (true, mutate_member (set_m_Addresses kept) rc)
  end.
Definition removeOldNetworksAndAddresses : GlobalApplyFunc G := λ mem g,
  removed ← removedNetworks mem g;
  match removed with
  | [] => Ok (false, g)
  | _ =>
      let nets := dm_systemNetworkNames (g_datamesh g) in
      let kept := List.filter (λ net, negb (slices_Contains removed net)) nets in
      let c1 := negb (length kept =? length nets)%nat in
      let g := set_datamesh (set_systemNetworkNames kept (g_datamesh g)) g in
      let '(c2, g) := map_contexts (removeAddresses removed) g in
      Ok (c1 || c2, g)
  end.

(** Set or append the address of one network. *)
Fixpoint updateAddress (ra : DRBDResourceAddressStatus) (network : string)
    (addrs : list DRBDResourceAddressStatus) : list DRBDResourceAddressStatus :=
  match addrs with
  | [] => [ra]
  | a :: addrs =>
      if String.eqb (a_SystemNetworkName a) network
      then {| a_SystemNetworkName := a_SystemNetworkName a; a_Address := a_Address ra |} :: addrs
      else a :: updateAddress ra network addrs
  end.
Definition addMemberAddress (rvrAddrs : list DRBDResourceAddressStatus)
    (acc : bool * list DRBDResourceAddressStatus) (net : string) :
    bool * list DRBDResourceAddressStatus :=
  match findAddressByNetwork rvrAddrs net with
  | None => acc
  | Some ra =>
      match findAddressByNetwork acc.2 net with
      | Some ma => if bool_decide (a_Address ma = a_Address ra) then acc
                   else (true, updateAddress ra net acc.2)
      | None => (true, acc.2 ++ [ra])
      end
  end.
Definition addAddresses (added : list string) rc : bool * ReplicaContext :=
  match memberOf rc, rc_rvr rc with
  | Some m, Some rvr =>
      let '(c, addrs) := foldl (addMemberAddress (rvr_Addresses rvr)) (false, m_Addresses m) added in
      (c, if c : bool then mutate_member (set_m_Addresses addrs) rc else rc)
  | _, _ => (false, rc)
  end.
Definition addNewAddresses : GlobalApplyFunc G := λ mem g,
  added ← addedNetworks mem g;
  match added with
  | [] => Ok (false, g)
  | _ => Ok (map_contexts (addAddresses added) g)
  end.

(** ** Dispatch detection *)
Fixpoint addressesMismatch (rvrAddrs memberAddrs : list DRBDResourceAddressStatus)
    (nets : list string) (expected : nat) : bool :=
  match nets with
  | [] => negb (length memberAddrs =? expected)%nat
  | net :: nets =>
      match findAddressByNetwork rvrAddrs net with
      | None => addressesMismatch rvrAddrs memberAddrs nets expected
      | Some ra =>
          match findAddressByNetwork memberAddrs net with
          | Some ma => if bool_decide (a_Address ma = a_Address ra)
                       then addressesMismatch rvrAddrs memberAddrs nets (S expected) else true
          | None => true
          end
      end
  end.
Definition needsAddressRepair g : bool :=
  existsb (λ rc, match memberOf rc, rc_rvr rc with
                 | Some m, Some rvr => addressesMismatch (rvr_Addresses rvr) (m_Addresses m)
                                         (dm_systemNetworkNames (g_datamesh g)) 0
                 | _, _ => false
                 end) (g_allReplicas g).

(** ** Confirm callbacks *)

(** IDs of a set whose indexed context satisfies a predicate. *)
Definition confirmIDs g (ids : Z) (p : ReplicaContext → bool) : Z :=
  foldl (λ s id, match replicaAt g id with
                 | Some rc => if p rc then idset.Add s id else s
                 | None => s
                 end) 0 (idset.All ids).

Definition confirmAllConnected : GlobalConfirmFunc G := λ _ g stepRevision,
  let must := allMemberIDs g in
  let revisionConfirmed := idset.Intersect (confirmedReplicas g stepRevision) must in
  Ok {| MustConfirm := must;
        Confirmed := confirmIDs g revisionConfirmed (λ rc, isMember rc &&
          allConnectionsOfMemberVerified g rc stepRevision (allMemberIDs g) (fullMeshMemberIDs g)
            peerConnected) |}.

Definition confirmAddedAddressesAvailable : GlobalConfirmFunc G := λ mem g stepRevision,
  let must := allMemberIDs g in
  let revisionConfirmed := idset.Intersect (confirmedReplicas g stepRevision) must in
  added ← addedNetworks mem g;
  Ok {| MustConfirm := must;
        Confirmed := confirmIDs g revisionConfirmed (λ rc,
          match rc_rvr rc with
          | None => false
          | Some rvr => forallb (λ net, bool_decide (is_Some (findAddressByNetwork (rvr_Addresses rvr) net))) added
          end) |}.

Definition confirmAllConnectedOnAddedNetworks : GlobalConfirmFunc G := λ mem g stepRevision,
  let must := allMemberIDs g in
  let revisionConfirmed := idset.Intersect (confirmedReplicas g stepRevision) must in
  added ← addedNetworks mem g;
  Ok {| MustConfirm := must;
        Confirmed := confirmIDs g revisionConfirmed (λ rc, isMember rc &&
          forallb (λ net, allConnectionsOfMemberVerified g rc stepRevision (allMemberIDs g)
                            (fullMeshMemberIDs g) (peerConnectedOnNetwork net)) added) |}.

(** ** Guards *)
Definition ggate (f : G → GuardResult) : GlobalGuardFunc G := λ _ g, Ok (f g, g).

Definition guardRemainingNetworksConnected : GlobalGuardFunc G := ggate (λ g,
  match in_rsp (g_in g) with
  | None => block "waiting for ReplicatedStoragePool (needed to verify network connectivity)"
  | Some rsp =>
      let intersection := List.filter (slices_Contains (dm_systemNetworkNames (g_datamesh g)))
                            (GetSystemNetworkNames rsp) in
      match intersection with
      | [] => block "no common system networks between datamesh and configuration"
      | _ =>
          if existsb (λ network, allMembersHaveFullConnectivity g 0 (allMemberIDs g)
                        (fullMeshMemberIDs g) (peerConnectedOnNetwork network)) intersection
          then pass
          else block ("no remaining network with full connectivity (checked "
                      +:+ itoa (Z.of_nat (length intersection)) +:+ " networks)")
      end
  end).

Definition networksOutOfSync (targetNets : list string) rc : option string :=
  match rc_rvr rc with
  | Some rvr =>
      if negb (isMember rc) || bool_decide (rvr_Addresses rvr = []) then None else
      let missing := List.filter (λ net, bool_decide (findAddressByNetwork (rvr_Addresses rvr) net = None))
                       targetNets in
      let extra := List.filter (λ n, negb (slices_Contains targetNets n))
                     (map a_SystemNetworkName (rvr_Addresses rvr)) in
      let head := "replica " +:+ rc_name rc +:+ ": system networks out of sync (" in
      match missing, extra with
      | [], [] => None
      | _ :: _, _ :: _ => Some (head +:+ "missing: " +:+ fmt_strings missing +:+ ", extra: "
                                +:+ fmt_strings extra +:+ ")")
      | _ :: _, [] => Some (head +:+ "missing: " +:+ fmt_strings missing +:+ ")")
      | [], _ :: _ => Some (head +:+ "extra: " +:+ fmt_strings extra +:+ ")")
      end
  | None => None
  end.
Definition guardReplicasMatchTargetNetworks : GlobalGuardFunc G := ggate (λ g,
  match dm_systemNetworkNames (g_datamesh g) with
  | [] => pass
  | targetNets => block_if (firstSome (networksOutOfSync targetNets) (g_allReplicas g))
  end).
Definition guardNodesHaveAddedNetworks : GlobalGuardFunc G := ggate (λ _, pass).

(** ** Dispatcher *)
Definition selectNetworkPlan (current target : list string) : option string :=
  let hasAdded := existsb (λ net, negb (slices_Contains current net)) target in
  let hasRemaining := existsb (slices_Contains target) current in
  let hasRemoved := existsb (λ net, negb (slices_Contains target net)) current in
  if negb hasAdded && negb hasRemoved then None
  else if hasAdded && hasRemoved && negb hasRemaining then Some "migrate/v1"
  else if hasAdded && hasRemoved then Some "update/v1"
  else if hasAdded then Some "add/v1"
  else Some "remove/v1".

(** A dispatcher that yields at most one decision. *)
Definition yieldOne (o : option (DispatchDecision rptr)) : decisions G rptr :=
  match o with
  | None => Done
  | Some d => Yield d (λ _ _, Ok Done)
  end.
Definition networkDispatcher : DispatchFunc G rptr := λ _ g,
  Ok (yieldOne
    (if needsAddressRepair g then Some (DispatchGlobal RepairNetworkAddresses "repair/v1")
     else match in_rsp (g_in g) with
          | None => None
          | Some rsp =>
              DispatchGlobal ChangeSystemNetworks <$>
                selectNetworkPlan (dm_systemNetworkNames (g_datamesh g)) (GetSystemNetworkNames rsp)
          end)).
(** ** Plans *)
Definition repairNetworkAddresses : RegisteredTransition := GlobalTransition RepairNetworkAddresses.
Definition changeSystemNetworks : RegisteredTransition := GlobalTransition ChangeSystemNetworks.

Definition repair_v1 (reg : Registry G rptr) : outcome (Registry G rptr) :=
  s ← ngStep "Repair" repairAddresses confirmAllConnected;
  Build (pb_Steps [RawGlobalStep s]
        (pb_Guards [RawGlobalGuard guardReplicasMatchTargetNetworks]
        (pb_DisplayName "Repairing connectivity"
        (pb_Group GroupNetwork (Plan repairNetworkAddresses "repair/v1"))))) reg.
Definition add_v1 (reg : Registry G rptr) : outcome (Registry G rptr) :=
  s1 ← ngStep "Listen" addNewNetworks confirmAddedAddressesAvailable;
  s2 ← ngStep "Connect" addNewAddresses confirmAllConnectedOnAddedNetworks;
  Build (pb_Steps [RawGlobalStep s1; RawGlobalStep s2]
        (pb_Guards [RawGlobalGuard guardNodesHaveAddedNetworks]
        (pb_DisplayName "Adding system networks"
        (pb_Init (RawGlobalInit setSystemNetworks)
        (pb_Group GroupNetwork (Plan changeSystemNetworks "add/v1")))))) reg.
Definition remove_v1 (reg : Registry G rptr) : outcome (Registry G rptr) :=
  s ← ngStep "Disconnect" removeOldNetworksAndAddresses confirmAllMembers;
  Build (pb_Steps [RawGlobalStep s]
        (pb_Guards [RawGlobalGuard guardRemainingNetworksConnected]
        (pb_DisplayName "Removing system networks"
        (pb_Init (RawGlobalInit setSystemNetworks)
        (pb_Group GroupNetwork (Plan changeSystemNetworks "remove/v1")))))) reg.
Definition update_v1 (reg : Registry G rptr) : outcome (Registry G rptr) :=
  s1 ← ngStep "Listen new & Disconnect old"
         (ComposeGlobalApply [removeOldNetworksAndAddresses; addNewNetworks])
         confirmAddedAddressesAvailable;
  s2 ← ngStep "Connect" addNewAddresses confirmAllConnectedOnAddedNetworks;
  Build (pb_Steps [RawGlobalStep s1; RawGlobalStep s2]
        (pb_Guards [RawGlobalGuard guardRemainingNetworksConnected;
                    RawGlobalGuard guardNodesHaveAddedNetworks]
        (pb_DisplayName "Updating system networks"
        (pb_Init (RawGlobalInit setSystemNetworks)
        (pb_Group GroupNetwork (Plan changeSystemNetworks "update/v1")))))) reg.
Definition migrate_v1 (reg : Registry G rptr) : outcome (Registry G rptr) :=
  s1 ← ngStep "Listen new" addNewNetworks confirmAddedAddressesAvailable;
  s2 ← ngStep "Connect new" addNewAddresses confirmAllConnectedOnAddedNetworks;
  s3 ← ngStep "Disconnect old" removeOldNetworksAndAddresses confirmAllMembers;
  Build (pb_Steps [RawGlobalStep s1; RawGlobalStep s2; RawGlobalStep s3]
        (pb_Guards [RawGlobalGuard guardNodesHaveAddedNetworks]
        (pb_DisplayName "Migrating system networks"
        (pb_Init (RawGlobalInit setSystemNetworks)
        (pb_Group GroupNetwork (Plan changeSystemNetworks "migrate/v1")))))) reg.
Definition registerNetworkPlans (reg : Registry G rptr) : outcome (Registry G rptr) :=
  reg ← repair_v1 reg; reg ← add_v1 reg; reg ← remove_v1 reg; reg ← update_v1 reg; migrate_v1 reg.
End network.
End network.
