(* ===== verification/Quorum.v ===== *)
(** * datamesh: quorum reconciliation and volume resize

    Source: rv_controller/datamesh/quorum_dispatch.go and quorum_plans.go (module [quorum]);
    resize_helpers.go, resize_dispatch.go and resize_plans.go (module [resize]). *)

From Stdlib Require Import ZArith Lia String.
From stdpp Require Import base list numbers strings option.
From S2P Require Import Prelude IdSet DrbdSize Api Dmte Context Helpers Guards Network.
Import v1alpha1 dmte datamesh helpers guards network.

Module quorum.
Section quorum.
Context `{K : K8s}.
Notation G := globalContext.
Implicit Types (g : G) (rc : ReplicaContext).

(** ** Dispatcher *)
Definition requestIs (p : DatameshMembershipRequest → bool) rc : bool :=
  match rc_membershipRequest rc with Some (rq, _) => p (rq_Request rq) | None => false end.

Definition hasPendingJoinD g : bool :=
  existsb (λ rc, negb (isMember rc) && requestIs (λ r,
    bool_decide (mr_Operation r = OpJoin) && bool_decide (mr_Type r = ReplicaTypeDiskful)) rc)
    (g_allReplicas g).
Definition hasPendingLeaveD g : bool :=
  existsb (λ rc, isMember rc && requestIs (λ r, bool_decide (mr_Operation r = OpLeave)) rc
                 && hasType IsVoter rc) (g_allReplicas g).

Definition canMembershipHandleQMR g (expectedQMR currentQMR : Z) : bool :=
  if expectedQMR =? currentQMR +b 1 then hasPendingJoinD g
  else if expectedQMR +b 1 =? currentQMR then hasPendingLeaveD g
  else false.

Definition selectQuorumPlan (expectedQ currentQ expectedQMR currentQMR : Z) : string :=
  let qUp := currentQ <? expectedQ in
  let qDown := expectedQ <? currentQ in
  let qmrUp := currentQMR <? expectedQMR in
  let qmrDown := expectedQMR <? currentQMR in
  if qDown && qmrUp then "lower-q-raise-qmr/v1"
  else if qUp && qmrDown then "raise-q-lower-qmr/v1"
  else if qUp || qmrUp then "raise/v1"
  else "lower/v1".

Definition quorumDispatcher : DispatchFunc G rptr := λ _ g,
  Ok (yieldOne
    (if 0 <? idset.Len (votingMembershipTransitions (g_tracking g)) then None else
     let '(expectedQ, expectedQMR) := computeCorrectQuorum g in
     let currentQ := dm_quorum (g_datamesh g) in
     let currentQMR := dm_quorumMinimumRedundancy (g_datamesh g) in
     let qWrong := negb (expectedQ =? currentQ) in
     let qmrWrong := negb (expectedQMR =? currentQMR) in
     if negb qWrong && negb qmrWrong then None
     else if negb qWrong && qmrWrong && canMembershipHandleQMR g expectedQMR currentQMR then None
     else Some (DispatchGlobal ChangeQuorum
                  (selectQuorumPlan expectedQ currentQ expectedQMR currentQMR)))).

(** ** Plans *)
Definition changeQuorum : RegisteredTransition := GlobalTransition ChangeQuorum.
Definition quorumPlan (id : string) (s1 s2 : outcome GlobalStepBuilder)
    (reg : Registry G rptr) : outcome (Registry G rptr) :=
  s1 ← s1; s2 ← s2;
  Build (pb_Steps [RawGlobalStep s1; RawGlobalStep s2]
        (pb_DisplayName "Adjusting quorum"
        (pb_Group GroupQuorum (Plan changeQuorum id)))) reg.

Definition lower_v1 : Registry G rptr → outcome (Registry G rptr) :=
  quorumPlan "lower/v1"
    (mgStep "qmr↓" (ComposeGlobalApply [setCorrectQMR; updateBaselineGMDR]) confirmAllMembers)
    (mgStep "q↓" setCorrectQ confirmAllMembers).
Definition raise_v1 : Registry G rptr → outcome (Registry G rptr) :=
  quorumPlan "raise/v1"
    (mgStep "q↑" setCorrectQ confirmAllMembers)
    (b ← mgStep "qmr↑" setCorrectQMR confirmAllMembers;
     Ok (gsb_OnComplete (AdaptApplyToOnComplete updateBaselineGMDR) b)).
Definition lower_q_raise_qmr_v1 : Registry G rptr → outcome (Registry G rptr) :=
  quorumPlan "lower-q-raise-qmr/v1"
    (mgStep "q↓" setCorrectQ confirmAllMembers)
    (b ← mgStep "qmr↑" setCorrectQMR confirmAllMembers;
     Ok (gsb_OnComplete (AdaptApplyToOnComplete updateBaselineGMDR) b)).
Definition raise_q_lower_qmr_v1 : Registry G rptr → outcome (Registry G rptr) :=
  quorumPlan "raise-q-lower-qmr/v1"
    (mgStep "q↑" setCorrectQ confirmAllMembers)
    (mgStep "qmr↓" (ComposeGlobalApply [setCorrectQMR; updateBaselineGMDR]) confirmAllMembers).

Definition registerQuorumPlans (reg : Registry G rptr) : outcome (Registry G rptr) :=
  reg ← lower_v1 reg; reg ← raise_v1 reg; reg ← lower_q_raise_qmr_v1 reg; raise_q_lower_qmr_v1 reg.
End quorum.
End quorum.


Module resize.
Section resize.
Context `{K : K8s}.
Notation G := globalContext.
Implicit Types (g : G) (rc : ReplicaContext).

(** ** Guards *)

(** A member with a backing volume and a replica object. *)
Definition diskfulRVR rc : option ReplicatedVolumeReplica :=
  if hasType HasBackingVolume rc then rc_rvr rc else None.

Definition guardHasReadyDiskfulMember : GlobalGuardFunc G := ggate (λ g,
  if existsb (λ rc, match diskfulRVR rc with
                    | Some rvr => condIsTrue rvr CondReadyType
                    | None => false
                    end) (g_allReplicas g)
  then pass else block "no ready diskful member").

Definition guardNoActiveResync : GlobalGuardFunc G := ggate (λ g,
  block_if (firstSome (λ rc,
    match diskfulRVR rc with
    | Some rvr => firstSome (λ p, if IsSyncingState (p_ReplicationState p)
                                  then Some ("replica " +:+ rc_name rc +:+ " has peer " +:+ p_Name p
                                             +:+ " in state " +:+ p_ReplicationState p)
                                  else None) (rvr_Peers rvr)
    | None => None
    end) (g_allReplicas g))).

Definition backingVolumeCheck (targetLowerSize : Quantity) rc : option string :=
  match diskfulRVR rc with
  | None => None
  | Some rvr =>
      match (bv ← rvr_BackingVolume rvr; bv_Size bv) with
      | None => Some ("backing volume size not yet reported on replica " +:+ rc_name rc)
      | Some size =>
          if q_Cmp size targetLowerSize <? 0
          then Some ("backing volume on replica " +:+ rc_name rc +:+ " not grown yet ("
                     +:+ q_String size +:+ ", need >= " +:+ q_String targetLowerSize +:+ ")")
          else None
      end
  end.
Definition guardBackingVolumesGrown : GlobalGuardFunc G := λ _ g,
  targetLowerSize ← drbd_size.LowerVolumeSize (drbd_size.AlignTo4Ki (in_size (g_in g)));
  Ok (block_if (firstSome (backingVolumeCheck targetLowerSize) (g_allReplicas g)), g).

(** ** Plan *)
Definition rgStep (name : string) (apply : GlobalApplyFunc G) (confirm : GlobalConfirmFunc G) :
    outcome GlobalStepBuilder :=
  b ← GlobalStep name (Some apply) (Some confirm);
  Ok (gsb_DiagnosticConditions [CondDRBDConfiguredType] b).

Definition applyResizeVolume : GlobalApplyFunc G := λ _ g,
  let aligned := drbd_size.AlignTo4Ki (in_size (g_in g)) in
  if q_Equal (dm_size (g_datamesh g)) aligned then Ok (false, g)
  else Ok (true, set_datamesh (set_size aligned (g_datamesh g)) g).

Definition registerResizePlans (reg : Registry G rptr) : outcome (Registry G rptr) :=
  s ← rgStep "resize" applyResizeVolume confirmAllMembers;
  Build (pb_Steps [RawGlobalStep s]
        (pb_Guards [RawGlobalGuard guardHasReadyDiskfulMember; RawGlobalGuard guardNoActiveResync;
                    RawGlobalGuard guardBackingVolumesGrown]
        (pb_DisplayName "Resizing volume"
        (pb_Group GroupResize (Plan (GlobalTransition ResizeVolume) "resize/v1"))))) reg.

(** ** Dispatcher *)
Definition resizeDispatcher : DispatchFunc G rptr := λ _ g,
  Ok (yieldOne
    (if 0 <=? q_Cmp (dm_size (g_datamesh g)) (drbd_size.AlignTo4Ki (in_size (g_in g))) then None
     else Some (DispatchGlobal ResizeVolume "resize/v1"))).
End resize.
End resize.
