(* ===== verification/Attachment.v ===== *)
(** * datamesh: attachment and multiattach

    Source: rv_controller/datamesh/attachment_plans.go and attachment_dispatch.go.  The dispatcher
    is a generator: after each yielded decision it resumes on the state the engine left. *)

From Stdlib Require Import ZArith Lia String.
From stdpp Require Import base list numbers strings option.
From S2P Require Import Prelude IdSet DrbdSize Api Dmte Context Helpers Guards Network.
Import v1alpha1 dmte datamesh helpers guards network.

Module attachment.
Section attachment.
Context `{K : K8s}.
Notation G := globalContext.
Implicit Types (g : G) (rc : ReplicaContext).

(** ** Step constructors *)
Definition arStep (name : string) (apply : ReplicaApplyFunc G rptr)
    (confirm : ReplicaConfirmFunc G rptr) : outcome ReplicaStepBuilder :=
  b ← ReplicaStep name (Some apply) (Some confirm);
  Ok (rsb_DiagnosticConditions [CondDRBDConfiguredType] b).
Definition agStep (name : string) (apply : GlobalApplyFunc G) (confirm : GlobalConfirmFunc G) :
    outcome GlobalStepBuilder :=
  b ← GlobalStep name (Some apply) (Some confirm);
  Ok (gsb_DiagnosticConditions [CondDRBDConfiguredType] b).

(** ** Guards *)
Definition blockWith (msg reason : string) : GuardResult :=
  {| gr_Blocked := true; gr_Message := msg; gr_Details := Some reason |}.

Definition guardAttachNotDeleting : ReplicaGuardFunc G rptr := on_global (λ g,
  match in_deletionTimestamp (g_in g) with
  | Some _ => blockWith "volume is being deleted" AttachedReason.ReplicatedVolumeTerminating
  | None => pass
  end).

Definition guardSlotAvailable : ReplicaGuardFunc G rptr := on_global (λ g,
  let occupied := idset.Len (potentiallyAttached (g_tracking g)) in
  let max := in_maxAttachments (g_in g) in
  if max <=? occupied
  then blockWith ("waiting for attachment slot (" +:+ itoa occupied +:+ "/" +:+ itoa max
                  +:+ " occupied)") AttachedReason.Pending
  else pass).

Definition guardMaxAttachmentsAllowsMultiattach : GlobalGuardFunc G := ggate (λ g,
  if in_maxAttachments (g_in g) <=? 1 then block "maxAttachments is 1" else pass).

Definition guardCanDisableMultiattach : GlobalGuardFunc G := ggate (λ g,
  let n := idset.Len (potentiallyAttached (g_tracking g)) in
  if 1 <? n then block (itoa n +:+ " nodes potentially attached") else pass).

(** Fills the quorum cache of the global context. *)
Definition guardQuorumSatisfied : ReplicaGuardFunc G rptr := λ _ g _,
  let '(ok, g) := isQuorumSatisfied g in
  Ok (if ok : bool then pass
      else blockWith ("quorum not satisfied: " +:+ g_quorumDiagnostic g) AttachedReason.Pending, g).

Definition guardNodeOperational : ReplicaGuardFunc G rptr := on_subject (λ _ g rc,
  let pool := cfg_ReplicatedStoragePoolName (in_configuration (g_in g)) in
  let rsc := in_replicatedStorageClassName (g_in g) in
  Ok (match in_rsp (g_in g) with
      | None => blockWith "waiting for ReplicatedStoragePool to be available" AttachedReason.Pending
      | Some _ =>
          match getEligibleNode g rc with
          | None =>
              if negb (String.eqb rsc "")
              then blockWith ("node " +:+ rc_nodeName rc +:+ " is not eligible for storage class "
                              +:+ rsc +:+ " (pool " +:+ pool +:+ ")") AttachedReason.NodeNotEligible
              else blockWith ("node " +:+ rc_nodeName rc +:+ " is not eligible for pool " +:+ pool)
                     AttachedReason.NodeNotEligible
          | Some en =>
              if negb (en_NodeReady en) then blockWith "node is not ready" AttachedReason.Pending
              else if negb (en_AgentReady en)
              then blockWith "agent is not ready on node" AttachedReason.Pending
              else pass
          end
      end)).

Definition guardRVRReady : ReplicaGuardFunc G rptr := on_subject (λ _ _ rc,
  Ok (match rc_rvr rc with
      | None => blockWith "waiting for replica" AttachedReason.WaitingForReplica
      | Some rvr =>
          if negb (condIsTrue rvr CondReadyType) then
            let msg := "waiting for replica to become Ready" in
            let msg := match StatusCondition rvr CondReadyType with
                       | Some c => if String.eqb (c_Message c) "" then msg
                                   else msg +:+ ": " +:+ c_Reason c +:+ " — " +:+ c_Message c
                       | None => msg
                       end in
            blockWith msg AttachedReason.WaitingForReplica
          else pass
      end)).

Definition guardVolumeAccessLocalForAttach : ReplicaGuardFunc G rptr := on_subject (λ _ g rc,
  let rsc := in_replicatedStorageClassName (g_in g) in
  Ok (if negb (bool_decide (cfg_VolumeAccess (in_configuration (g_in g)) = VolumeAccessLocal)) then pass
      else if hasType HasBackingVolume rc then pass
      else if negb (isMember rc) && match rc_rvr rc with
                                    | Some rvr => bool_decide (rvr_Spec_Type rvr = ReplicaTypeDiskful)
                                    | None => false
                                    end then pass
      else if negb (String.eqb rsc "")
      then blockWith ("no Diskful replica on this node (volumeAccess is Local for storage class "
                      +:+ rsc +:+ ")") AttachedReason.VolumeAccessLocalityNotSatisfied
      else blockWith "no Diskful replica on this node (volumeAccess is Local)"
             AttachedReason.VolumeAccessLocalityNotSatisfied)).

Definition guardMemberExists : ReplicaGuardFunc G rptr := on_subject (λ _ _ rc,
  let waiting := "waiting for replica [#" +:+ itoa (rc_id rc) +:+ "] to join datamesh" in
  let fallback rvr :=
    match StatusCondition rvr CondReadyType with
    | Some c => if String.eqb (c_Message c) "" then waiting
                else waiting +:+ ": " +:+ c_Reason c +:+ " — " +:+ c_Message c
    | None => waiting
    end in
  Ok (match rc_member rc with
      | Some _ => pass
      | None =>
          blockWith
            match rc_rvr rc with
            | None => "waiting for replica on node"
            | Some rvr =>
                match rc_membershipRequest rc with
                | Some (rq, _) =>
                    if bool_decide (mr_Operation (rq_Request rq) = OpJoin)
                    then waiting +:+ ": " +:+ rq_Message rq else fallback rvr
                | None => fallback rvr
                end
            end AttachedReason.WaitingForReplica
      end)).

Definition guardNoActiveMembershipTransition : ReplicaGuardFunc G rptr := on_subject (λ _ _ rc,
  Ok (match rc_membershipTransition rc with
      | Some _ => blockWith "waiting for membership transition to complete"
                    AttachedReason.WaitingForReplica
      | None => pass
      end)).

Definition guardDeviceNotInUse : ReplicaGuardFunc G rptr := on_subject (λ _ _ rc,
  Ok (if match rc_rvr rc with
         | Some rvr => bool_decide (at_InUse <$> rvr_Attachment rvr = Some true)
         | None => false
         end
      then blockWith "device is in use" AttachedReason.Detaching else pass)).

(** ** Apply and confirm callbacks *)
Definition setAttached (b : bool) : ReplicaApplyFunc G rptr :=
  on_member (λ m, let '(c, v) := SetChanged (m_Attached m) b in (c, set_m_Attached v m)).
Definition applyAttach : ReplicaApplyFunc G rptr := setAttached true.
Definition applyDetach : ReplicaApplyFunc G rptr := setAttached false.
Definition applyMultiattach (b : bool) : GlobalApplyFunc G := λ _ g,
  let '(c, v) := SetChanged (dm_multiattach (g_datamesh g)) b in
  Ok (c, set_datamesh (set_multiattach v (g_datamesh g)) g).
Definition applyEnableMultiattach : GlobalApplyFunc G := applyMultiattach true.
Definition applyDisableMultiattach : GlobalApplyFunc G := applyMultiattach false.

Definition isAttached rc : bool := match memberOf rc with Some m => m_Attached m | None => false end.
Definition confirmMultiattach : GlobalConfirmFunc G := λ _ g stepRevision,
  let mustConfirm := idsWhere (λ rc, hasType HasBackingVolume rc || isAttached rc) g in
  Ok {| MustConfirm := mustConfirm;
        Confirmed := idset.Intersect (confirmedReplicas g stepRevision) mustConfirm |}.

(** ** Plans *)
Definition attach_v1 (reg : Registry G rptr) : outcome (Registry G rptr) :=
  s ← arStep "Attach" applyAttach confirmSubjectOnly;
  Build (pb_Steps [RawReplicaStep (rsb_Details (Some AttachedReason.Attaching) s)]
        (pb_Guards (map RawReplicaGuard
          [guardAttachNotDeleting; guardNodeOperational; guardRVRReady; guardMemberExists;
           guardNoActiveMembershipTransition; guardQuorumSatisfied; guardSlotAvailable;
           guardVolumeAccessLocalForAttach])
        (pb_DisplayName "Attaching volume"
        (pb_Group GroupAttachment
        (Plan (ReplicaTransition Attach attachmentSlot) "attach/v1"))))) reg.
Definition detach_v1 (reg : Registry G rptr) : outcome (Registry G rptr) :=
  s ← arStep "Detach" applyDetach confirmSubjectOnlyLeavingOrGone;
  Build (pb_Steps [RawReplicaStep (rsb_Details (Some AttachedReason.Detaching) s)]
        (pb_Guards (map RawReplicaGuard [guardDeviceNotInUse])
        (pb_DisplayName "Detaching volume"
        (pb_Group GroupAttachment
        (Plan (ReplicaTransition Detach attachmentSlot) "detach/v1"))))) reg.
Definition force_detach_v1 (reg : Registry G rptr) : outcome (Registry G rptr) :=
  s ← arStep "Force detach" applyDetach confirmImmediate;
  Build (pb_Steps [RawReplicaStep s]
        (pb_Guards (map RawReplicaGuard [guardMemberUnreachable])
        (pb_CancelActiveOnCreate true
        (pb_DisplayName "Force-detaching volume"
        (pb_Group GroupEmergency
        (Plan (ReplicaTransition ForceDetach attachmentSlot) "force-detach/v1")))))) reg.
Definition enable_multiattach_v1 (reg : Registry G rptr) : outcome (Registry G rptr) :=
  s ← agStep "Enable multiattach" applyEnableMultiattach confirmMultiattach;
  Build (pb_Steps [RawGlobalStep s]
        (pb_Guards [RawGlobalGuard guardMaxAttachmentsAllowsMultiattach]
        (pb_DisplayName "Enabling multiattach"
        (pb_Group GroupMultiattach
        (Plan (GlobalTransition EnableMultiattach) "enable-multiattach/v1"))))) reg.
Definition disable_multiattach_v1 (reg : Registry G rptr) : outcome (Registry G rptr) :=
  s ← agStep "Disable multiattach" applyDisableMultiattach confirmMultiattach;
  Build (pb_Steps [RawGlobalStep s]
        (pb_Guards [RawGlobalGuard guardCanDisableMultiattach]
        (pb_DisplayName "Disabling multiattach"
        (pb_Group GroupMultiattach
        (Plan (GlobalTransition DisableMultiattach) "disable-multiattach/v1"))))) reg.
Definition registerAttachmentPlans (reg : Registry G rptr) : outcome (Registry G rptr) :=
  reg ← attach_v1 reg; reg ← detach_v1 reg; reg ← force_detach_v1 reg;
  reg ← enable_multiattach_v1 reg; disable_multiattach_v1 reg.

(** ** Dispatcher *)
Definition decideMultiattachToggle g : option (DispatchDecision rptr) :=
  let intendedCount := countb (λ rc, isMember rc && hasActiveRVA rc) (g_allReplicas g) in
  let needMultiattach := (1 <? intendedCount) && (1 <? in_maxAttachments (g_in g)) in
  let multiattach := dm_multiattach (g_datamesh g) in
  let toggling := hasMultiattachTransition (g_tracking g) in
  if needMultiattach && negb multiattach && negb toggling
  then Some (DispatchGlobal EnableMultiattach "enable-multiattach/v1")
  else if negb needMultiattach && multiattach && negb toggling
          && (idset.Len (potentiallyAttached (g_tracking g)) <=? 1)
  then Some (DispatchGlobal DisableMultiattach "disable-multiattach/v1")
  else None.

(** The candidates as pointers, oldest active RVA first, ties by node name.  (The order among equal
    keys is not specified by slices.SortFunc; here it is the order of the contexts.) *)
Definition candidateLeb (a b : nat * ReplicaContext) : bool :=
  let ta := earliestActiveRVATimestamp a.2 in
  let tb := earliestActiveRVATimestamp b.2 in
  (ta <? tb) || ((ta =? tb) && string_leb (rc_nodeName a.2) (rc_nodeName b.2)).
Definition collectAndSortCandidates g : list rptr :=
  map fst (sort_by candidateLeb
    (List.filter (λ p, (0 <? length (rc_rvas p.2))%nat || isAttached p.2)
       (imap pair (g_allReplicas g)))).

Definition decideAttachmentForReplica (_ : tmem) g (i : rptr) : outcome (option (DispatchDecision rptr)) :=
  rc ← index (g_allReplicas g) i;
  let hasActive := hasActiveRVA rc in
  let attached := isAttached rc in
  Ok (if attached && hasActive && bool_decide (rc_attachmentTransition rc = None) then
        let msg := "Volume is attached and ready to serve I/O on the node" in
        Some (NoDispatch i attachmentSlot
                (match in_deletionTimestamp (g_in g) with
                 | Some _ => msg +:+ " (volume is pending deletion)"
                 | None => msg
                 end) (Some AttachedReason.Attached))
      else if hasActive then Some (DispatchReplica i Attach "attach/v1")
      else if attached then Some (DispatchReplica i Detach "detach/v1")
      else if bool_decide (is_Some (rc_attachmentTransition rc)) then None
      else if (0 <? length (rc_rvas rc))%nat then
        Some (NoDispatch i attachmentSlot "Volume has been detached from the node"
                (Some AttachedReason.Detached))
      else None).

(** Visit pointers in order, deciding each on the state at that moment. *)
Fixpoint visit (decide_ : tmem → G → rptr → outcome (option (DispatchDecision rptr)))
    (l : list rptr) (rest : DispatchFunc G rptr) : DispatchFunc G rptr := λ mem g,
  match l with
  | [] => rest mem g
  | i :: l =>
      o ← decide_ mem g i;
      match o with
      | None => visit decide_ l rest mem g
      | Some d => Ok (Yield d (visit decide_ l rest))
      end
  end.

Definition decideForceDetach (_ : tmem) g (i : rptr) : outcome (option (DispatchDecision rptr)) :=
  rc ← index (g_allReplicas g) i;
  Ok (match rc_membershipRequest rc with
      | Some (rq, _) =>
          if bool_decide (mr_Operation (rq_Request rq) = OpForceDetach) && isAttached rc
          then Some (DispatchReplica i ForceDetach "force-detach/v1") else None
      | None => None
      end).
Definition finish : DispatchFunc G rptr := λ _ _, Ok Done.
Definition attachmentCandidates : DispatchFunc G rptr := λ mem g,
  visit decideAttachmentForReplica (collectAndSortCandidates g) finish mem g.
Definition attachmentToggle : DispatchFunc G rptr := λ mem g,
  match decideMultiattachToggle g with
  | Some d => Ok (Yield d attachmentCandidates)
  | None => attachmentCandidates mem g
  end.
Definition attachmentDispatcher : DispatchFunc G rptr := λ mem g,
  visit decideForceDetach (seq 0 (length (g_allReplicas g))) attachmentToggle mem g.
End attachment.
End attachment.
