(* ===== verification/Membership.v ===== *)
(** * datamesh: membership plans and dispatcher

    Source: rv_controller/datamesh/membership_plan_access.go, membership_plan_tiebreaker.go,
    membership_plan_shadow_diskful.go, membership_plan_diskful.go, membership_plan_change_type.go,
    membership_plan_force_remove.go, membership_plans.go and membership_dispatch.go.

    Each registered plan is a definition named after its plan ID, prefixed by the transition type
    where the ID is used by several. *)

From Stdlib Require Import ZArith Lia String.
From stdpp Require Import base list numbers strings option.
From S2P Require Import Prelude IdSet DrbdSize Api Dmte Context Helpers Guards Network Attachment.
Import v1alpha1 dmte datamesh helpers guards network attachment.

Module membership.
Section membership.
Context `{K : K8s}.
Notation G := globalContext.
Notation rawStep := (@rawStep G rptr).
Notation registration := (Registry G rptr → outcome (Registry G rptr)).
Implicit Types (g : G) (rc : ReplicaContext).

(** ** Access-specific guards and helpers *)
Definition guardVolumeAccessNotLocal : ReplicaGuardFunc G rptr := on_global (λ g,
  if bool_decide (cfg_VolumeAccess (in_configuration (g_in g)) = VolumeAccessLocal)
  then block "volumeAccess is Local" else pass).

Definition skipPendingDatameshJoin : SkipErrorFunc G rptr := λ g r id cond,
  (id =? rctx_ID g r) && String.eqb (c_Reason cond) ReasonPendingDatameshJoin.

(** ** Builder chains *)

(** A step argument of the builder's Steps call. *)
Definition rstep (name : string) (apply : ReplicaApplyFunc G rptr) (confirm : ReplicaConfirmFunc G rptr) :
    outcome rawStep := b ← mrStep name apply confirm; Ok (RawReplicaStep b).
Definition gstep (name : string) (apply : GlobalApplyFunc G) (confirm : GlobalConfirmFunc G) :
    outcome rawStep := b ← mgStep name apply confirm; Ok (RawGlobalStep b).
Fixpoint sequenceO {A} (l : list (outcome A)) : outcome (list A) :=
  match l with
  | [] => Ok []
  | o :: l => x ← o; xs ← sequenceO l; Ok (x :: xs)
  end.
Definition allConfirm : ReplicaConfirmFunc G rptr := asReplicaConfirm confirmAllMembers.

Record mspec := {
  ms_type : TransitionType; ms_id : string; ms_group : TransitionGroup; ms_init : ReplicaInitFunc G rptr;
  ms_display : string; ms_cancel : bool; ms_done : ReplicaOnCompleteFunc G rptr;
}.
(** [reg.ReplicaTransition(ty, membershipSlot).Plan(id).Group(..).Init(..).DisplayName(..)
    .CancelActiveOnCreate(..).Guards(..).Steps(..).OnComplete(..).Build()]. *)
Definition memberPlan (ms : mspec) (guards : list (ReplicaGuardFunc G rptr))
    (steps : list (outcome rawStep)) : registration := λ reg,
  ss ← sequenceO steps;
  Build (pb_OnComplete (RawReplicaOnComplete (ms_done ms))
        (pb_Steps ss
        (pb_Guards (map RawReplicaGuard guards)
        (pb_CancelActiveOnCreate (ms_cancel ms)
        (pb_DisplayName (ms_display ms)
        (pb_Init (RawReplicaInit (ms_init ms))
        (pb_Group (ms_group ms)
        (Plan (ReplicaTransition (ms_type ms) membershipSlot) (ms_id ms))))))))) reg.

Definition adding (id : string) (grp : TransitionGroup) (rt : ReplicaType) (display : string) : mspec :=
  {| ms_type := AddReplica; ms_id := id; ms_group := grp; ms_init := setReplicaType rt;
     ms_display := display; ms_cancel := false; ms_done := onJoinComplete |}.
Definition removing (id : string) (grp : TransitionGroup) (rt : ReplicaType) (display : string) : mspec :=
  {| ms_type := RemoveReplica; ms_id := id; ms_group := grp; ms_init := setReplicaType rt;
     ms_display := display; ms_cancel := false; ms_done := onLeaveComplete |}.
Definition changing (id : string) (grp : TransitionGroup) (from to : ReplicaType) : mspec :=
  {| ms_type := ChangeReplicaType; ms_id := id; ms_group := grp; ms_init := setReplicaFromToType from to;
     ms_display := "Changing replica type"; ms_cancel := false; ms_done := onChangeTypeComplete |}.
Definition forcing (id : string) (rt : ReplicaType) : mspec :=
  {| ms_type := ForceRemoveReplica; ms_id := id; ms_group := GroupEmergency;
     ms_init := setReplicaType rt; ms_display := "Force-removing replica"; ms_cancel := true;
     ms_done := onForceRemoveComplete |}.

(** Steps that several plans share. *)
Definition createD0 : outcome rawStep :=
  rstep "✦ → D∅" (ComposeReplicaApply [createMember MemberTypeLiminalDiskful; setBackingVolumeFromRequest])
    allConfirm.
Definition createSD0 : outcome rawStep :=
  rstep "✦ → sD∅" (ComposeReplicaApply [createMember MemberTypeLiminalShadowDiskful; setBackingVolumeFromRequest])
    allConfirm.
Definition createA : outcome rawStep :=
  rstep "✦ → A" (createMember MemberTypeAccess) confirmFMPlusSubject.
Definition d0ToD : outcome rawStep := rstep "D∅ → D" (setType MemberTypeDiskful) confirmSubjectOnly.
Definition dToD0 : outcome rawStep := rstep "D → D∅" (setType MemberTypeLiminalDiskful) confirmSubjectOnly.
Definition sd0ToSD : outcome rawStep := rstep "sD∅ → sD" (setType MemberTypeShadowDiskful) confirmSubjectOnly.
Definition sdToSD0 : outcome rawStep := rstep "sD → sD∅" (setType MemberTypeLiminalShadowDiskful) confirmSubjectOnly.
Definition sdToD : outcome rawStep := rstep "sD → D" (setType MemberTypeDiskful) allConfirm.
(** [.. → sD∅] and [.. → D∅] of a diskless member, with its backing volume. *)
Definition toSD0 (name : string) : outcome rawStep :=
  rstep name (ComposeReplicaApply [setType MemberTypeLiminalShadowDiskful; setBackingVolumeFromRequest]) allConfirm.
Definition toD0 (name : string) : outcome rawStep :=
  rstep name (ComposeReplicaApply [setType MemberTypeLiminalDiskful; setBackingVolumeFromRequest]) allConfirm.
Definition toD0QUp (name : string) : outcome rawStep :=
  rstep name (ComposeReplicaApply [setType MemberTypeLiminalDiskful; setBackingVolumeFromRequest;
                                   asReplicaApply raiseQ]) allConfirm.
(** [sD∅ → D∅ + q↑] where the backing volume is already set. *)
Definition sd0ToD0QUp : outcome rawStep :=
  rstep "sD∅ → D∅ + q↑" (ComposeReplicaApply [setType MemberTypeLiminalDiskful; asReplicaApply raiseQ]) allConfirm.
Definition clearTo (name : string) (ty : DatameshMemberType) : outcome rawStep :=
  rstep name (ComposeReplicaApply [setType ty; clearBackingVolume]) allConfirm.
Definition clearToQDown (name : string) (ty : DatameshMemberType) : outcome rawStep :=
  rstep name (ComposeReplicaApply [setType ty; clearBackingVolume; asReplicaApply lowerQ]) allConfirm.
Definition qmrUp : outcome rawStep :=
  b ← mgStep "qmr↑" raiseQMR confirmAllMembers;
  Ok (RawGlobalStep (gsb_OnComplete (AdaptApplyToOnComplete updateBaselineGMDR) b)).
Definition qmrDown : outcome rawStep :=
  gstep "qmr↓" (ComposeGlobalApply [lowerQMR; updateBaselineGMDR]) confirmAllMembers.

(** ** membership_plan_access.go *)
Definition add_access_v1 : registration :=
  memberPlan (adding "access/v1" GroupNonVotingMembership ReplicaTypeAccess "Joining datamesh")
    (commonAddGuards ++ [guardVolumeAccessNotLocal])
    [b ← mrStep "✦ → A" (createMember MemberTypeAccess) confirmFMPlusSubject;
     Ok (RawReplicaStep (rsb_DiagnosticSkipError skipPendingDatameshJoin b))].
Definition remove_access_v1 : registration :=
  memberPlan (removing "access/v1" GroupNonVotingMembership ReplicaTypeAccess "Leaving datamesh")
    commonRemoveGuards
    [rstep "A → ✕" removeMember confirmFMPlusSubjectLeaving].
Definition registerAccessPlans : registration := λ reg, reg ← add_access_v1 reg; remove_access_v1 reg.

(** ** membership_plan_tiebreaker.go *)
Definition add_tiebreaker_v1 : registration :=
  memberPlan (adding "tiebreaker/v1" GroupNonVotingMembership ReplicaTypeTieBreaker "Joining datamesh")
    (commonAddGuards ++ gainTBGuards)
    [rstep "✦ → TB" (createMember MemberTypeTieBreaker) confirmFMPlusSubject].
Definition remove_tiebreaker_v1 : registration :=
  memberPlan (removing "tiebreaker/v1" GroupNonVotingMembership ReplicaTypeTieBreaker "Leaving datamesh")
    (commonRemoveGuards ++ loseTBGuards)
    [rstep "TB → ✕" removeMember confirmFMPlusSubjectLeaving].
Definition registerTieBreakerPlans : registration := λ reg,
  reg ← add_tiebreaker_v1 reg; remove_tiebreaker_v1 reg.

(** ** membership_plan_shadow_diskful.go *)
Definition add_shadow_diskful_v1 : registration :=
  memberPlan (adding "shadow-diskful/v1" GroupNonVotingMembership ReplicaTypeShadowDiskful "Joining datamesh")
    (commonAddGuards ++ [guardShadowDiskfulSupported; guardMaxDiskMembers])
    [createSD0; sd0ToSD].
Definition remove_shadow_diskful_v1 : registration :=
  memberPlan (removing "shadow-diskful/v1" GroupNonVotingMembership ReplicaTypeShadowDiskful "Leaving datamesh")
    commonRemoveGuards
    [rstep "sD → ✕" removeMember confirmAllMembersLeaving].
Definition registerShadowDiskfulPlans : registration := λ reg,
  reg ← add_shadow_diskful_v1 reg; remove_shadow_diskful_v1 reg.

(** ** membership_plan_diskful.go *)
Definition addingD (id : string) : mspec :=
  adding id GroupVotingMembership ReplicaTypeDiskful "Adding diskful replica".
Definition removingD (id : string) : mspec :=
  removing id GroupVotingMembership ReplicaTypeDiskful "Removing diskful replica".

Definition diskful_v1 : registration :=
  memberPlan (addingD "diskful/v1")
    (commonAddGuards ++ gainVoterGuards ++ [guardVotersEven; guardMaxDiskMembers])
    [createD0; d0ToD].
Definition diskful_qmr_up_v1 : registration :=
  memberPlan (addingD "diskful-qmr-up/v1")
    (commonAddGuards ++ gainVoterGuards ++ [guardVotersEven; guardQMRRaiseNeeded; guardMaxDiskMembers])
    [createD0; d0ToD; qmrUp].
Definition diskful_q_up_v1 : registration :=
  memberPlan (addingD "diskful-q-up/v1")
    (commonAddGuards ++ gainVoterGuards ++ [guardVotersOdd; guardMaxDiskMembers])
    [createA; toD0QUp "A → D∅ + q↑"; d0ToD].
Definition diskful_q_up_qmr_up_v1 : registration :=
  memberPlan (addingD "diskful-q-up-qmr-up/v1")
    (commonAddGuards ++ gainVoterGuards ++ [guardVotersOdd; guardQMRRaiseNeeded; guardMaxDiskMembers])
    [createA; toD0QUp "A → D∅ + q↑"; d0ToD; qmrUp].
Definition diskful_via_sd_v1 : registration :=
  memberPlan (addingD "diskful-via-sd/v1")
    (commonAddGuards ++ gainVoterGuards ++ [guardVotersEven; guardShadowDiskfulSupported; guardMaxDiskMembers])
    [createSD0; sd0ToSD; sdToD].
Definition diskful_via_sd_qmr_up_v1 : registration :=
  memberPlan (addingD "diskful-via-sd-qmr-up/v1")
    (commonAddGuards ++ gainVoterGuards ++
       [guardVotersEven; guardQMRRaiseNeeded; guardShadowDiskfulSupported; guardMaxDiskMembers])
    [createSD0; sd0ToSD; sdToD; qmrUp].
Definition diskful_via_sd_q_up_v1 : registration :=
  memberPlan (addingD "diskful-via-sd-q-up/v1")
    (commonAddGuards ++ gainVoterGuards ++ [guardVotersOdd; guardShadowDiskfulSupported; guardMaxDiskMembers])
    [createSD0; sd0ToSD; sdToSD0; toD0QUp "sD∅ → D∅ + q↑"; d0ToD].
Definition diskful_via_sd_q_up_qmr_up_v1 : registration :=
  memberPlan (addingD "diskful-via-sd-q-up-qmr-up/v1")
    (commonAddGuards ++ gainVoterGuards ++
       [guardVotersOdd; guardQMRRaiseNeeded; guardShadowDiskfulSupported; guardMaxDiskMembers])
    [createSD0; sd0ToSD; sdToSD0; toD0QUp "sD∅ → D∅ + q↑"; d0ToD; qmrUp].
Definition remove_diskful_v1 : registration :=
  memberPlan (removingD "remove-diskful/v1") (commonRemoveGuards ++ loseVoterGuards ++ [guardVotersOdd])
    [dToD0; rstep "D∅ → ✕" removeMember confirmAllMembersLeaving].
Definition remove_diskful_qmr_down_v1 : registration :=
  memberPlan (removingD "remove-diskful-qmr-down/v1")
    (commonRemoveGuards ++ loseVoterGuards ++ [guardVotersOdd; guardQMRLowerNeeded])
    [qmrDown; dToD0; rstep "D∅ → ✕" removeMember confirmAllMembersLeaving].
Definition remove_diskful_q_down_v1 : registration :=
  memberPlan (removingD "remove-diskful-q-down/v1")
    (commonRemoveGuards ++ loseVoterGuards ++ [guardVotersEven])
    [dToD0; clearToQDown "D∅ → A + q↓" MemberTypeAccess;
     rstep "A → ✕" removeMember confirmFMPlusSubjectLeaving].
Definition remove_diskful_qmr_down_q_down_v1 : registration :=
  memberPlan (removingD "remove-diskful-qmr-down-q-down/v1")
    (commonRemoveGuards ++ loseVoterGuards ++ [guardVotersEven; guardQMRLowerNeeded])
    [qmrDown; dToD0; clearToQDown "D∅ → A + q↓" MemberTypeAccess;
     rstep "A → ✕" removeMember confirmFMPlusSubjectLeaving].
Definition registerDiskfulPlans : registration := λ reg,
  reg ← diskful_v1 reg; reg ← diskful_qmr_up_v1 reg; reg ← diskful_q_up_v1 reg;
  reg ← diskful_q_up_qmr_up_v1 reg; reg ← diskful_via_sd_v1 reg; reg ← diskful_via_sd_qmr_up_v1 reg;
  reg ← diskful_via_sd_q_up_v1 reg; reg ← diskful_via_sd_q_up_qmr_up_v1 reg;
  reg ← remove_diskful_v1 reg; reg ← remove_diskful_qmr_down_v1 reg;
  reg ← remove_diskful_q_down_v1 reg; remove_diskful_qmr_down_q_down_v1 reg.

(** ** membership_plan_change_type.go *)
Definition a_to_tb_v1 : registration :=
  memberPlan (changing "a-to-tb/v1" GroupNonVotingMembership ReplicaTypeAccess ReplicaTypeTieBreaker)
    gainTBGuards
    [rstep "A → TB" (setType MemberTypeTieBreaker) confirmFMPlusSubject].
Definition tb_to_a_v1 : registration :=
  memberPlan (changing "tb-to-a/v1" GroupNonVotingMembership ReplicaTypeTieBreaker ReplicaTypeAccess)
    (guardVolumeAccessNotLocal :: loseTBGuards)
    [rstep "TB → A" (setType MemberTypeAccess) confirmFMPlusSubject].
Definition a_to_sd_v1 : registration :=
  memberPlan (changing "a-to-sd/v1" GroupNonVotingMembership ReplicaTypeAccess ReplicaTypeShadowDiskful)
    [guardShadowDiskfulSupported; guardMaxDiskMembers] [toSD0 "A → sD∅"; sd0ToSD].
Definition sd_to_a_v1 : registration :=
  memberPlan (changing "sd-to-a/v1" GroupNonVotingMembership ReplicaTypeShadowDiskful ReplicaTypeAccess)
    [guardVolumeAccessNotLocal] [sdToSD0; clearTo "sD∅ → A" MemberTypeAccess].
Definition tb_to_sd_v1 : registration :=
  memberPlan (changing "tb-to-sd/v1" GroupNonVotingMembership ReplicaTypeTieBreaker ReplicaTypeShadowDiskful)
    ([guardShadowDiskfulSupported; guardMaxDiskMembers] ++ loseTBGuards) [toSD0 "TB → sD∅"; sd0ToSD].
Definition sd_to_tb_v1 : registration :=
  memberPlan (changing "sd-to-tb/v1" GroupNonVotingMembership ReplicaTypeShadowDiskful ReplicaTypeTieBreaker)
    (guardVolumeAccessNotLocal :: gainTBGuards) [sdToSD0; clearTo "sD∅ → TB" MemberTypeTieBreaker].
Definition sd_to_d_v1 : registration :=
  memberPlan (changing "sd-to-d/v1" GroupVotingMembership ReplicaTypeShadowDiskful ReplicaTypeDiskful)
    (gainVoterGuards ++ [guardShadowDiskfulSupported; guardVotersEven]) [sdToD].
Definition sd_to_d_q_up_v1 : registration :=
  memberPlan (changing "sd-to-d-q-up/v1" GroupVotingMembership ReplicaTypeShadowDiskful ReplicaTypeDiskful)
    (gainVoterGuards ++ [guardShadowDiskfulSupported; guardVotersOdd]) [sdToSD0; sd0ToD0QUp; d0ToD].
Definition d_to_sd_v1 : registration :=
  memberPlan (changing "d-to-sd/v1" GroupVotingMembership ReplicaTypeDiskful ReplicaTypeShadowDiskful)
    (loseVoterGuards ++ [guardShadowDiskfulSupported; guardVotersOdd])
    [rstep "D → sD" (setType MemberTypeShadowDiskful) allConfirm].
Definition d_to_sd_q_down_v1 : registration :=
  memberPlan (changing "d-to-sd-q-down/v1" GroupVotingMembership ReplicaTypeDiskful ReplicaTypeShadowDiskful)
    (loseVoterGuards ++ [guardShadowDiskfulSupported; guardVotersEven])
    [dToD0;
     rstep "D∅ → sD∅ + q↓" (ComposeReplicaApply [setType MemberTypeLiminalShadowDiskful; asReplicaApply lowerQ])
       allConfirm;
     sd0ToSD].
Definition a_to_d_v1 : registration :=
  memberPlan (changing "a-to-d/v1" GroupVotingMembership ReplicaTypeAccess ReplicaTypeDiskful)
    (gainVoterGuards ++ [guardVotersEven; guardMaxDiskMembers]) [toD0 "A → D∅"; d0ToD].
Definition a_to_d_q_up_v1 : registration :=
  memberPlan (changing "a-to-d-q-up/v1" GroupVotingMembership ReplicaTypeAccess ReplicaTypeDiskful)
    (gainVoterGuards ++ [guardVotersOdd; guardMaxDiskMembers]) [toD0QUp "A → D∅ + q↑"; d0ToD].
Definition a_to_d_via_sd_v1 : registration :=
  memberPlan (changing "a-to-d-via-sd/v1" GroupVotingMembership ReplicaTypeAccess ReplicaTypeDiskful)
    (gainVoterGuards ++ [guardVotersEven; guardShadowDiskfulSupported; guardMaxDiskMembers])
    [toSD0 "A → sD∅"; sd0ToSD; sdToD].
Definition a_to_d_via_sd_q_up_v1 : registration :=
  memberPlan (changing "a-to-d-via-sd-q-up/v1" GroupVotingMembership ReplicaTypeAccess ReplicaTypeDiskful)
    (gainVoterGuards ++ [guardVotersOdd; guardShadowDiskfulSupported; guardMaxDiskMembers])
    [toSD0 "A → sD∅"; sd0ToSD; sdToSD0; sd0ToD0QUp; d0ToD].
Definition d_to_a_v1 : registration :=
  memberPlan (changing "d-to-a/v1" GroupVotingMembership ReplicaTypeDiskful ReplicaTypeAccess)
    (loseVoterGuards ++ [guardVolumeAccessNotLocal; guardVotersOdd])
    [dToD0; clearTo "D∅ → A" MemberTypeAccess].
Definition d_to_a_q_down_v1 : registration :=
  memberPlan (changing "d-to-a-q-down/v1" GroupVotingMembership ReplicaTypeDiskful ReplicaTypeAccess)
    (loseVoterGuards ++ [guardVolumeAccessNotLocal; guardVotersEven])
    [dToD0; clearToQDown "D∅ → A + q↓" MemberTypeAccess].
Definition tb_to_d_v1 : registration :=
  memberPlan (changing "tb-to-d/v1" GroupVotingMembership ReplicaTypeTieBreaker ReplicaTypeDiskful)
    (loseTBGuards ++ gainVoterGuards ++ [guardVotersEven; guardMaxDiskMembers]) [toD0 "TB → D∅"; d0ToD].
Definition tb_to_d_q_up_v1 : registration :=
  memberPlan (changing "tb-to-d-q-up/v1" GroupVotingMembership ReplicaTypeTieBreaker ReplicaTypeDiskful)
    (loseTBGuards ++ gainVoterGuards ++ [guardVotersOdd; guardMaxDiskMembers])
    [toD0QUp "TB → D∅ + q↑"; d0ToD].
Definition tb_to_d_via_sd_v1 : registration :=
  memberPlan (changing "tb-to-d-via-sd/v1" GroupVotingMembership ReplicaTypeTieBreaker ReplicaTypeDiskful)
    (loseTBGuards ++ gainVoterGuards ++ [guardVotersEven; guardShadowDiskfulSupported; guardMaxDiskMembers])
    [toSD0 "TB → sD∅"; sd0ToSD; sdToD].
Definition tb_to_d_via_sd_q_up_v1 : registration :=
  memberPlan (changing "tb-to-d-via-sd-q-up/v1" GroupVotingMembership ReplicaTypeTieBreaker ReplicaTypeDiskful)
    (loseTBGuards ++ gainVoterGuards ++ [guardVotersOdd; guardShadowDiskfulSupported; guardMaxDiskMembers])
    [toSD0 "TB → sD∅"; sd0ToSD; sdToSD0; sd0ToD0QUp; d0ToD].
Definition d_to_tb_v1 : registration :=
  memberPlan (changing "d-to-tb/v1" GroupVotingMembership ReplicaTypeDiskful ReplicaTypeTieBreaker)
    (loseVoterToTieBreakerGuards ++ [guardVotersOdd])
    [dToD0; clearTo "D∅ → TB" MemberTypeTieBreaker].
Definition d_to_tb_q_down_v1 : registration :=
  memberPlan (changing "d-to-tb-q-down/v1" GroupVotingMembership ReplicaTypeDiskful ReplicaTypeTieBreaker)
    (loseVoterToTieBreakerGuards ++ [guardVotersEven])
    [dToD0; clearToQDown "D∅ → TB + q↓" MemberTypeTieBreaker].
Definition registerChangeTypePlans : registration := λ reg,
  reg ← a_to_tb_v1 reg; reg ← tb_to_a_v1 reg; reg ← a_to_sd_v1 reg; reg ← sd_to_a_v1 reg;
  reg ← tb_to_sd_v1 reg; reg ← sd_to_tb_v1 reg; reg ← sd_to_d_v1 reg; reg ← sd_to_d_q_up_v1 reg;
  reg ← d_to_sd_v1 reg; reg ← d_to_sd_q_down_v1 reg; reg ← a_to_d_v1 reg; reg ← a_to_d_q_up_v1 reg;
  reg ← a_to_d_via_sd_v1 reg; reg ← a_to_d_via_sd_q_up_v1 reg; reg ← d_to_a_v1 reg;
  reg ← d_to_a_q_down_v1 reg; reg ← tb_to_d_v1 reg; reg ← tb_to_d_q_up_v1 reg;
  reg ← tb_to_d_via_sd_v1 reg; reg ← tb_to_d_via_sd_q_up_v1 reg; reg ← d_to_tb_v1 reg;
  d_to_tb_q_down_v1 reg.

(** ** membership_plan_force_remove.go *)
Definition force_access_v1 : registration :=
  memberPlan (forcing "access/v1" ReplicaTypeAccess) forceRemoveGuards
    [rstep "Force remove" removeMember allConfirm].
Definition force_tiebreaker_v1 : registration :=
  memberPlan (forcing "tiebreaker/v1" ReplicaTypeTieBreaker) forceRemoveGuards
    [rstep "Force remove" removeMember allConfirm].
Definition force_shadow_diskful_v1 : registration :=
  memberPlan (forcing "shadow-diskful/v1" ReplicaTypeShadowDiskful) forceRemoveGuards
    [rstep "Force remove" removeMember allConfirm].
Definition force_diskful_v1 : registration :=
  memberPlan (forcing "diskful/v1" ReplicaTypeDiskful) (forceRemoveGuards ++ [guardVotersOdd])
    [rstep "Force remove" removeMember allConfirm].
Definition force_diskful_q_down_v1 : registration :=
  memberPlan (forcing "diskful-q-down/v1" ReplicaTypeDiskful) (forceRemoveGuards ++ [guardVotersEven])
    [rstep "Force remove" (ComposeReplicaApply [removeMember; asReplicaApply lowerQ]) allConfirm].
Definition registerForceRemovePlans : registration := λ reg,
  reg ← force_access_v1 reg; reg ← force_tiebreaker_v1 reg; reg ← force_shadow_diskful_v1 reg;
  reg ← force_diskful_v1 reg; force_diskful_q_down_v1 reg.

(** ** membership_plans.go *)
Definition registerMembershipPlans : registration := λ reg,
  reg ← registerAccessPlans reg; reg ← registerTieBreakerPlans reg;
  reg ← registerShadowDiskfulPlans reg; reg ← registerDiskfulPlans reg;
  reg ← registerChangeTypePlans reg; registerForceRemovePlans reg.

(** ** membership_dispatch.go *)

(** The results (planID, "") , ("", blockedMsg) and ("", ""). *)
Inductive planChoice := Select (planID : string) | Blocked (msg : string) | Skip.

Definition odd8 (voters : Z) : bool := negb (voters mod 2 =? 0).

Definition planForceRemoveReplica g rc : planChoice :=
  match memberOf rc with
  | None => Skip
  | Some m =>
      match m_Type m with
      | MemberTypeAccess => Select "access/v1"
      | MemberTypeTieBreaker => Select "tiebreaker/v1"
      | MemberTypeShadowDiskful | MemberTypeLiminalShadowDiskful => Select "shadow-diskful/v1"
      | MemberTypeDiskful | MemberTypeLiminalDiskful =>
          if odd8 (voterCount g) then Select "diskful/v1" else Select "diskful-q-down/v1"
      | MemberTypeOther _ => Blocked "Not implemented"
      end
  end.

Definition planAddDiskful g : planChoice :=
  let needsQUp := odd8 (voterCount g) in
  let needsQMRUp := dm_quorumMinimumRedundancy (g_datamesh g) <?
                    QuorumMinimumRedundancy (in_configuration (g_in g)) in
  match ShadowDiskful (in_features (g_in g)), needsQUp, needsQMRUp with
  | false, false, false => Select "diskful/v1"
  | false, false, true => Select "diskful-qmr-up/v1"
  | false, true, false => Select "diskful-q-up/v1"
  | false, true, true => Select "diskful-q-up-qmr-up/v1"
  | true, false, false => Select "diskful-via-sd/v1"
  | true, false, true => Select "diskful-via-sd-qmr-up/v1"
  | true, true, false => Select "diskful-via-sd-q-up/v1"
  | true, true, true => Select "diskful-via-sd-q-up-qmr-up/v1"
  end.
Definition planAddReplica g rc (rq : DatameshReplicaRequest) : planChoice :=
  if isMember rc then Skip else
  match mr_Type (rq_Request rq) with
  | ReplicaTypeAccess => Select "access/v1"
  | ReplicaTypeTieBreaker => Select "tiebreaker/v1"
  | ReplicaTypeShadowDiskful => Select "shadow-diskful/v1"
  | ReplicaTypeDiskful => planAddDiskful g
  | ReplicaTypeOther _ => Blocked "Not implemented"
  end.

Definition planRemoveDiskful g : planChoice :=
  let needsQDown := negb (odd8 (voterCount g)) in
  let needsQMRDown := QuorumMinimumRedundancy (in_configuration (g_in g)) <?
                      dm_quorumMinimumRedundancy (g_datamesh g) in
  match needsQDown, needsQMRDown with
  | false, false => Select "remove-diskful/v1"
  | false, true => Select "remove-diskful-qmr-down/v1"
  | true, false => Select "remove-diskful-q-down/v1"
  | true, true => Select "remove-diskful-qmr-down-q-down/v1"
  end.
Definition planRemoveReplica g rc : planChoice :=
  match memberOf rc with
  | None => Skip
  | Some m =>
      match m_Type m with
      | MemberTypeAccess => Select "access/v1"
      | MemberTypeTieBreaker => Select "tiebreaker/v1"
      | MemberTypeShadowDiskful | MemberTypeLiminalShadowDiskful => Select "shadow-diskful/v1"
      | MemberTypeDiskful | MemberTypeLiminalDiskful => planRemoveDiskful g
      | MemberTypeOther _ => Blocked "Not implemented"
      end
  end.

Definition planChangeAToD g : planChoice :=
  match ShadowDiskful (in_features (g_in g)), odd8 (voterCount g) with
  | false, false => Select "a-to-d/v1"
  | false, true => Select "a-to-d-q-up/v1"
  | true, false => Select "a-to-d-via-sd/v1"
  | true, true => Select "a-to-d-via-sd-q-up/v1"
  end.
Definition planChangeDToA g : planChoice :=
  if odd8 (voterCount g) then Select "d-to-a/v1" else Select "d-to-a-q-down/v1".
Definition planChangeTBToD g : planChoice :=
  match ShadowDiskful (in_features (g_in g)), odd8 (voterCount g) with
  | false, false => Select "tb-to-d/v1"
  | false, true => Select "tb-to-d-q-up/v1"
  | true, false => Select "tb-to-d-via-sd/v1"
  | true, true => Select "tb-to-d-via-sd-q-up/v1"
  end.
Definition planChangeDToTB g : planChoice :=
  if odd8 (voterCount g) then Select "d-to-tb/v1" else Select "d-to-tb-q-down/v1".
Definition planChangeSDToD g : planChoice :=
  if odd8 (voterCount g) then Select "sd-to-d-q-up/v1" else Select "sd-to-d/v1".
Definition planChangeDToSD g : planChoice :=
  if odd8 (voterCount g) then Select "d-to-sd/v1" else Select "d-to-sd-q-down/v1".

(** The switch over (member type, target type). *)
Definition changeTypeSwitch g (ty : DatameshMemberType) (target : ReplicaType) : planChoice :=
  match ty, target with
  | MemberTypeAccess, ReplicaTypeTieBreaker => Select "a-to-tb/v1"
  | MemberTypeTieBreaker, ReplicaTypeAccess => Select "tb-to-a/v1"
  | MemberTypeAccess, ReplicaTypeShadowDiskful => Select "a-to-sd/v1"
  | (MemberTypeShadowDiskful | MemberTypeLiminalShadowDiskful), ReplicaTypeAccess => Select "sd-to-a/v1"
  | MemberTypeTieBreaker, ReplicaTypeShadowDiskful => Select "tb-to-sd/v1"
  | (MemberTypeShadowDiskful | MemberTypeLiminalShadowDiskful), ReplicaTypeTieBreaker => Select "sd-to-tb/v1"
  | MemberTypeAccess, ReplicaTypeDiskful => planChangeAToD g
  | (MemberTypeDiskful | MemberTypeLiminalDiskful), ReplicaTypeAccess => planChangeDToA g
  | (MemberTypeShadowDiskful | MemberTypeLiminalShadowDiskful), ReplicaTypeDiskful => planChangeSDToD g
  | (MemberTypeDiskful | MemberTypeLiminalDiskful), ReplicaTypeShadowDiskful => planChangeDToSD g
  | MemberTypeTieBreaker, ReplicaTypeDiskful => planChangeTBToD g
  | (MemberTypeDiskful | MemberTypeLiminalDiskful), ReplicaTypeTieBreaker => planChangeDToTB g
  | _, _ =>
      if String.eqb (DatameshMemberType_String ty)
           (DatameshMemberType_String (MemberTypeOfReplicaType target)) then Skip
      else match ty, target with
           | MemberTypeLiminalDiskful, ReplicaTypeDiskful => Skip
           | MemberTypeLiminalShadowDiskful, ReplicaTypeShadowDiskful => Skip
           | _, _ => Blocked "Not implemented"
           end
  end.
Definition planChangeReplicaType (mem : tmem) g rc (rq : DatameshReplicaRequest) : outcome planChoice :=
  match memberOf rc with
  | None => Ok Skip
  | Some m =>
      adding ← match rc_membershipTransition rc with
               | None => Ok false
               | Some a => t ← index mem a; Ok (bool_decide (t_Type t = AddReplica))
               end;
      Ok (if adding : bool then Skip else changeTypeSwitch g (m_Type m) (mr_Type (rq_Request rq)))
  end.

(** The transition type and plan of one context; [None] to skip it. *)
Definition membershipChoice (mem : tmem) g rc : outcome (option (TransitionType * planChoice)) :=
  if String.eqb (rc_name rc) "" then Ok None else
  match rc_membershipRequest rc with
  | Some (rq, _) =>
      match mr_Operation (rq_Request rq) with
      | OpJoin => Ok (Some (AddReplica, planAddReplica g rc rq))
      | OpLeave => Ok (Some (RemoveReplica, planRemoveReplica g rc))
      | OpChangeRole => c ← planChangeReplicaType mem g rc rq; Ok (Some (ChangeReplicaType, c))
      | OpForceLeave => Ok (Some (ForceRemoveReplica, planForceRemoveReplica g rc))
      | _ => Ok None
      end
  | None =>
      match rc_member rc, rc_rvr rc with
      | Some _, None => Ok (Some (ForceRemoveReplica, planForceRemoveReplica g rc))
      | _, _ => Ok None
      end
  end.
Definition membershipDecision (mem : tmem) g (i : rptr) : outcome (option (DispatchDecision rptr)) :=
  rc ← index (g_allReplicas g) i;
  c ← membershipChoice mem g rc;
  Ok (match c with
      | Some (ty, Select id) => Some (DispatchReplica i ty id)
      | Some (_, Blocked msg) => Some (NoDispatch i membershipSlot msg None)
      | Some (_, Skip) | None => None
      end).
Definition membershipDispatcher : DispatchFunc G rptr := λ mem g,
  visit membershipDecision (seq 0 (length (g_allReplicas g))) finish mem g.
End membership.
End membership.
