(* ===== verification/Layout.v ===== *)
(** * rv_controller: layout convergence

    Source: rv_controller/reconciler.go, "Reconcile: layout convergence" and "Reconcile: layout status".

    The layout of a volume is its number of diskful voters and of tie-breakers.
    [computeTargetLayoutAction] decides the one action, if any, that brings the actual layout closer to
    the one the configuration intends, and the report of the MembershipLayoutConverged condition. *)

From Stdlib Require Import ZArith Lia String.
From stdpp Require Import base gmap list numbers strings option.
From S2P Require Import Prelude IdSet DrbdSize Api Object Storage Flow Client.
Import v1alpha1 objutilv1 flow client.

Module layout.

Definition CondMembershipLayoutConvergedType : string := "MembershipLayoutConverged".
Definition ReasonCannotConverge : string := "CannotConverge".
Definition ReasonConverged : string := "Converged".
Definition ReasonConverging : string := "Converging".
Definition ReasonTransitionUnsupported : string := "TransitionUnsupported".
Definition ReasonVolumeDeleting : string := "VolumeDeleting".
Definition ConditionUnknown : string := "Unknown".
Definition CondScheduledType : string := "Scheduled".

Definition membershipLayoutConvergedVolumeDeletingMessage : string :=
  "volume is being deleted; layout convergence suspended".

Inductive layoutActionKind := layoutActionNone | layoutActionRetypeToTieBreaker | layoutActionCreateTieBreaker.
Record targetLayoutAction := { kind : layoutActionKind; retypeRVRName : string }.
Record membershipLayoutConvergedReport := { status : string; reason : string; message : string }.
#[export] Instance layoutActionKind_eq_dec : EqDecision layoutActionKind.
Proof. solve_decision. Defined.

Definition noAction : targetLayoutAction := {| kind := layoutActionNone; retypeRVRName := "" |}.
Definition report (st rs msg : string) : membershipLayoutConvergedReport :=
  {| status := st; reason := rs; message := msg |}.
Definition converging (msg : string) : membershipLayoutConvergedReport := report ConditionFalse ReasonConverging msg.
Definition cannotConverge (msg : string) : membershipLayoutConvergedReport :=
  report ConditionFalse ReasonCannotConverge msg.

Definition formatLayout (diskful tiebreakers : Z) : string :=
  if tiebreakers =? 0 then itoa diskful +:+ "D" else itoa diskful +:+ "D+" +:+ itoa tiebreakers +:+ "TB".

Section layout.
Context {K : K8s}.
Implicit Types (rv : ReplicatedVolume) (rvr : ReplicatedVolumeReplica) (rvrs : list ReplicatedVolumeReplica)
  (rvas : list ReplicatedVolumeAttachment) (m : DatameshMember).

(** ** Counting *)
Definition isTieBreakerMember m : bool := bool_decide (m_Type m = MemberTypeTieBreaker).
Definition isDiskfulMember m : bool := bool_decide (m_Type m = MemberTypeDiskful).
Definition computeActualLayout rv : Z * Z :=
  (countb (λ m, IsVoter (m_Type m)) (rv_Members rv), countb isTieBreakerMember (rv_Members rv)).

Definition isLayoutReplicaType (t : ReplicaType) : bool :=
  bool_decide (t = ReplicaTypeDiskful) || bool_decide (t = ReplicaTypeTieBreaker).
Definition changesLayout (t : Transition) : bool :=
  match t_Type t with
  | AddReplica | RemoveReplica | ForceRemoveReplica => isLayoutReplicaType (t_ReplicaType t)
  | ChangeReplicaType => isLayoutReplicaType (t_FromReplicaType t) || isLayoutReplicaType (t_ToReplicaType t)
  | _ => false
  end.
Definition hasLayoutChangingTransition rv : bool := existsb changesLayout (rv_DatameshTransitions rv).

Definition findRVRByName rvrs (name : string) : option ReplicatedVolumeReplica :=
  List.find (λ r, String.eqb (rvr_Name r) name) rvrs.
Definition FindMemberByName rv (name : string) : option DatameshMember :=
  List.find (λ m, String.eqb (m_Name m) name) (rv_Members rv).
Definition isMember rv (name : string) : bool := bool_decide (is_Some (FindMemberByName rv name)).
Definition isDeleting rvr : bool := bool_decide (is_Some (rvr_DeletionTimestamp rvr)).

(** Names, sorted, of the members of a type whose replica satisfies a condition. *)
Definition memberNames rv rvrs (member : DatameshMember → bool) (replica : ReplicatedVolumeReplica → bool) : list string :=
  sort_by string_leb (omap (λ m,
    if member m then
      match findRVRByName rvrs (m_Name m) with
      | Some rvr => if replica rvr then Some (m_Name m) else None
      | None => None
      end
    else None) (rv_Members rv)).
Definition deletingTieBreakerMemberNames rv rvrs : list string := memberNames rv rvrs isTieBreakerMember isDeleting.
Definition pendingRetypeToTieBreakerMemberNames rv rvrs : list string :=
  memberNames rv rvrs
    (λ m, bool_decide (m_Type m = MemberTypeDiskful) || bool_decide (m_Type m = MemberTypeLiminalDiskful))
    (λ rvr, bool_decide (rvr_Spec_Type rvr = ReplicaTypeTieBreaker)).

(** A tie-breaker replica that exists and is not yet a member. *)
Definition isPendingTieBreaker rv rvr : bool :=
  bool_decide (rvr_Spec_Type rvr = ReplicaTypeTieBreaker) && negb (isDeleting rvr) && negb (isMember rv (rvr_Name rvr)).
Definition countPendingTieBreakerCreations rv rvrs : Z := countb (isPendingTieBreaker rv) rvrs.
Definition schedulingRefused rvr : bool :=
  chk_Eval (ObservedGenerationCurrent (IsFalse (StatusCondition rvr CondScheduledType))).
Definition addMessage (msgs : list string) (msg : string) : list string :=
  if slices_Contains msgs msg then msgs else msgs ++ [msg].
Definition computeActualPendingTieBreakerSchedulingFailure rv rvrs : string :=
  join " | " (sort_by string_leb (foldl (λ msgs rvr,
    if isPendingTieBreaker rv rvr && schedulingRefused rvr then
      match GetStatusCondition rvr CondScheduledType with
      | Some cond =>
          let detail := if String.eqb (c_Message cond) "" then c_Reason cond else c_Message cond in
          addMessage msgs (rvr_Name rvr +:+ ": " +:+ detail)
      | None => msgs
      end
    else msgs) [] rvrs)).

Definition isMemberAttached m rvas : bool :=
  m_Attached m || existsb (λ rva, bool_decide (rva_DeletionTimestamp rva = None) && String.eqb (rva_NodeName rva) (m_NodeName m)) rvas.

(** ** The candidate for a retype *)
Notation counts := (gmap string Z).
Definition countIn (c : counts) (zone : string) : Z := default 0 (c !! zone).
Definition increment (zone : string) (c : counts) : counts := <[zone := countIn c zone + 1]> c.
(** Voters and tie-breakers per zone, and their totals. *)
Definition zoneCounts (ms : list DatameshMember) : counts * counts * Z * Z :=
  foldl (λ '(votersPerZone, tbPerZone, voters, totalTB) m,
    if IsVoter (m_Type m) then (increment (m_Zone m) votersPerZone, tbPerZone, voters + 1, totalTB)
    else if isTieBreakerMember m then (votersPerZone, increment (m_Zone m) tbPerZone, voters, totalTB + 1)
    else (votersPerZone, tbPerZone, voters, totalTB)) (∅, ∅, 0, 0) ms.
(** The maximum of the counts, as the loop over the map computes it in any order. *)
Definition maxCount (l : list (string * Z)) : Z := foldl (λ mx zc, if mx <? zc.2 then zc.2 else mx) 0 l.

Definition zoneSurvivable (subjectZone : string) (tbPerZone : counts) (votersAfter qAfter totalTB : Z) (zone : string) (zoneVoters : Z) : bool :=
  let adjustedZoneVoters := if String.eqb zone subjectZone && (0 <? zoneVoters) then zoneVoters - 1 else zoneVoters in
  let dSurviving := votersAfter - adjustedZoneVoters in
  let tbSurviving := totalTB - countIn tbPerZone zone + (if String.eqb zone subjectZone then 0 else 1) in
  (qAfter <=? dSurviving) || ((dSurviving =? qAfter - 1) && (0 <? tbSurviving)).
Definition isRetypeToTieBreakerZoneQuorumSafe (subjectZone : string) (votersPerZone tbPerZone : counts) (voters totalTB : Z) : bool :=
  if voters =? 0 then true
  else
    let votersAfter := voters - 1 in
    let qAfter := Z.quot votersAfter 2 + 1 in
    forallb (λ zc, zoneSurvivable subjectZone tbPerZone votersAfter qAfter totalTB zc.1 zc.2) (map_to_list votersPerZone).

Record retypeScan := {
  chosen : string; sawDiskful : bool; sawSpecDiskful : bool; sawUnattachedSpecDF : bool; sawZonePlacementOK : bool;
}.
Definition scanInit : retypeScan :=
  {| chosen := ""; sawDiskful := false; sawSpecDiskful := false; sawUnattachedSpecDF := false; sawZonePlacementOK := false |}.

(** The zone checks on a candidate: gain side, then lose side. *)
Definition placementOK (transZonal zonal : bool) (votersPerZone : counts) (maxZoneVoters : Z) (zone : string) : bool :=
  negb (transZonal && (1 <? countIn votersPerZone zone)) &&
  negb (zonal && (0 <? maxZoneVoters) && negb (countIn votersPerZone zone =? maxZoneVoters)).
Definition specDiskful rvrs m : bool :=
  match findRVRByName rvrs (m_Name m) with
  | Some rvr => bool_decide (rvr_Spec_Type rvr = ReplicaTypeDiskful)
  | None => false
  end.
Definition scanMember (placement quorumSafe : string → bool) rvrs rvas (s : retypeScan) m : retypeScan :=
  if negb (isDiskfulMember m) then s
  else if negb (specDiskful rvrs m) then
    {| chosen := chosen s; sawDiskful := true; sawSpecDiskful := sawSpecDiskful s;
       sawUnattachedSpecDF := sawUnattachedSpecDF s; sawZonePlacementOK := sawZonePlacementOK s |}
  else if isMemberAttached m rvas then
    {| chosen := chosen s; sawDiskful := true; sawSpecDiskful := true;
       sawUnattachedSpecDF := sawUnattachedSpecDF s; sawZonePlacementOK := sawZonePlacementOK s |}
  else if negb (placement (m_Zone m)) then
    {| chosen := chosen s; sawDiskful := true; sawSpecDiskful := true;
       sawUnattachedSpecDF := true; sawZonePlacementOK := sawZonePlacementOK s |}
  else
    {| chosen := if quorumSafe (m_Zone m) && String.ltb (chosen s) (m_Name m) then m_Name m else chosen s;
       sawDiskful := true; sawSpecDiskful := true; sawUnattachedSpecDF := true; sawZonePlacementOK := true |}.

Definition selectRetypeCandidate (topology : Topology) rv rvrs rvas : string * string :=
  let transZonal := bool_decide (topology = TopologyTransZonal) in
  let zonal := bool_decide (topology = TopologyZonal) in
  let '(votersPerZone, tbPerZone, voters, totalTB) :=
    if transZonal || zonal then zoneCounts (rv_Members rv) else (∅, ∅, 0, 0) in
  let maxZoneVoters := if zonal then maxCount (map_to_list votersPerZone) else 0 in
  let s := foldl (scanMember (placementOK transZonal zonal votersPerZone maxZoneVoters)
                    (λ zone, negb transZonal || isRetypeToTieBreakerZoneQuorumSafe zone votersPerZone tbPerZone voters totalTB)
                    rvrs rvas) scanInit (rv_Members rv) in
  if negb (String.eqb (chosen s) "") then (chosen s, "")
  else ("", if negb (sawDiskful s) then "no diskful replicas found"
            else if negb (sawSpecDiskful s) then "all diskful replicas are already being retyped"
            else if negb (sawUnattachedSpecDF s) then "all diskful replicas are attached"
            else if negb (sawZonePlacementOK s)
            then "no diskful replica can become a tie-breaker without violating zone placement"
            else "no diskful replica can become a tie-breaker: after the retype, losing a zone would lose quorum").

(** ** Replacement of a leaving tie-breaker *)
Definition haveWant (actualLayout intendedLayout : string) : string := "have " +:+ actualLayout +:+ ", want " +:+ intendedLayout.
Definition computeTargetTieBreakerReplacement rv rvrs (actualD actualTB intendedD intendedTB : Z)
    (actualLayout intendedLayout : string) : option (targetLayoutAction * membershipLayoutConvergedReport) :=
  let leaving := deletingTieBreakerMemberNames rv rvrs in
  let n := Z.of_nat (length leaving) in
  if (n =? 0) || negb (actualD =? intendedD) then None
  else
    let availableTB := actualTB - n in
    if intendedTB <? availableTB then None
    else
      let subject := if 1 <? n then "tie-breakers " +:+ join ", " leaving +:+ " are terminating"
                     else "tie-breaker " +:+ join ", " leaving +:+ " is terminating" in
      let layouts := haveWant actualLayout intendedLayout in
      if availableTB =? intendedTB then
        let waiting := if 1 <? n then "waiting for them to leave the datamesh"
                       else if 0 <? intendedTB then "its replacement joined the datamesh, waiting for it to leave"
                       else "waiting for it to leave the datamesh" in
        Some (noAction, converging (subject +:+ ": " +:+ waiting +:+ " (" +:+ layouts +:+ ")"))
      else
        let deficit := intendedTB - availableTB in
        if deficit <=? countPendingTieBreakerCreations rv rvrs then
          let failure := computeActualPendingTieBreakerSchedulingFailure rv rvrs in
          if negb (String.eqb failure "") then
            Some (noAction, cannotConverge (subject +:+ ": cannot place a replacement (" +:+ layouts +:+ "): " +:+ failure))
          else Some (noAction, converging (subject +:+ ": replacement tie-breaker creation pending (" +:+ layouts +:+ ")"))
        else Some ({| kind := layoutActionCreateTieBreaker; retypeRVRName := "" |},
                   converging (subject +:+ ": creating a replacement (" +:+ layouts +:+ ")")).

(** ** The decision *)
Definition pendingMessage (actualD actualTB intendedD intendedTB : Z) (actualLayout intendedLayout : string) (pending : list string) : string :=
  if actualTB <? intendedTB then "retype to tie-breaker requested: " +:+ haveWant actualLayout intendedLayout
  else if (actualD =? intendedD) && (actualTB =? intendedTB) then
    "retype to tie-breaker pending on " +:+ join ", " pending
    +:+ ": the layout already matches the intended one (" +:+ actualLayout
    +:+ "); likely a reverted configuration change, and the retype is not rolled back automatically"
  else "retype to tie-breaker pending on " +:+ join ", " pending +:+ ": " +:+ haveWant actualLayout intendedLayout.
(** The whitelist, once nothing is moving. *)
Definition whitelistedAction (topology : Topology) rv rvrs rvas (actualD actualTB intendedD intendedTB : Z)
    (actualLayout intendedLayout : string) : targetLayoutAction * membershipLayoutConvergedReport :=
  if (intendedD <? actualD) && (actualTB <? intendedTB) then
    let '(name, noCandidateReason) := selectRetypeCandidate topology rv rvrs rvas in
    if String.eqb name "" then
      (noAction, cannotConverge ("cannot retype Diskful replica to tie-breaker (" +:+ haveWant actualLayout intendedLayout
                                 +:+ "): " +:+ noCandidateReason))
    else ({| kind := layoutActionRetypeToTieBreaker; retypeRVRName := name |},
          converging ("retyping Diskful replica " +:+ name +:+ " to tie-breaker: " +:+ haveWant actualLayout intendedLayout))
  else if (actualD =? intendedD) && (actualTB <? intendedTB) then
    if intendedTB - actualTB <=? countPendingTieBreakerCreations rv rvrs then
      let failure := computeActualPendingTieBreakerSchedulingFailure rv rvrs in
      if negb (String.eqb failure "") then
        (noAction, cannotConverge ("cannot place tie-breaker replica (" +:+ haveWant actualLayout intendedLayout +:+ "): " +:+ failure))
      else (noAction, converging ("tie-breaker creation pending: " +:+ haveWant actualLayout intendedLayout))
    else ({| kind := layoutActionCreateTieBreaker; retypeRVRName := "" |},
          converging ("creating tie-breaker replica: " +:+ haveWant actualLayout intendedLayout))
  else (noAction, report ConditionFalse ReasonTransitionUnsupported
          ("layout mismatch: " +:+ haveWant actualLayout intendedLayout
           +:+ "; automatic transition is not supported, manual intervention required")).
Definition computeTargetLayoutAction rv rvrs rvas : outcome (targetLayoutAction * membershipLayoutConvergedReport) :=
  match rv_DeletionTimestamp rv with
  | Some _ => Ok (noAction, report ConditionUnknown ReasonVolumeDeleting membershipLayoutConvergedVolumeDeletingMessage)
  | None =>
      cfg ← deref (rv_Configuration rv);
      let '(intendedD, intendedTB) := IntendedLayout cfg in
      let '(actualD, actualTB) := computeActualLayout rv in
      let actualLayout := formatLayout actualD actualTB in
      let intendedLayout := formatLayout intendedD intendedTB in
      if hasLayoutChangingTransition rv then
        Ok (noAction, converging ("layout transition in progress: " +:+ haveWant actualLayout intendedLayout))
      else
        match pendingRetypeToTieBreakerMemberNames rv rvrs with
        | (_ :: _) as pending =>
            Ok (noAction, converging (pendingMessage actualD actualTB intendedD intendedTB actualLayout intendedLayout pending))
        | [] =>
            match computeTargetTieBreakerReplacement rv rvrs actualD actualTB intendedD intendedTB actualLayout intendedLayout with
            | Some res => Ok res
            | None =>
                if (actualD =? intendedD) && (actualTB =? intendedTB) then
                  Ok (noAction, report ConditionTrue ReasonConverged ("layout converged: " +:+ actualLayout))
                else Ok (whitelistedAction (cfg_Topology cfg) rv rvrs rvas actualD actualTB intendedD intendedTB
                           actualLayout intendedLayout)
            end
        end
  end.

(** ** The report *)
Record layoutReport := { lr_membershipLayout : option string; lr_converged : membershipLayoutConvergedReport }.
Definition computeLayoutReport rv rvrs rvas : outcome layoutReport :=
  let '(actualD, actualTB) := computeActualLayout rv in
  '(_, convergedReport) ← computeTargetLayoutAction rv rvrs rvas;
  Ok {| lr_membershipLayout := Some (formatLayout actualD actualTB); lr_converged := convergedReport |}.
Definition applyMembershipLayout rv (layout : option string) : bool * ReplicatedVolume :=
  if bool_decide (rv_MembershipLayout rv = layout) then (false, rv) else (true, rv <| rv_MembershipLayout := layout |>).

Definition applyRVRRetypeToTieBreaker rvr : ReplicatedVolumeReplica :=
  rvr <| rvr_Spec_Type := ReplicaTypeTieBreaker |> <| rvr_Spec_LVMVolumeGroupName := "" |>
      <| rvr_Spec_LVMVolumeGroupThinPoolName := "" |>.
(** The replica found by name is changed in place. *)
Fixpoint replaceByName (name : string) (r : ReplicatedVolumeReplica) rvrs : list ReplicatedVolumeReplica :=
  match rvrs with
  | [] => []
  | x :: l => if String.eqb (rvr_Name x) name then r :: l else x :: replaceByName name r l
  end.
End layout.
End layout.
