(* ===== verification/Datamesh.v ===== *)
(** * datamesh: the effective layout, the registry and one reconciliation cycle

    Source: rv_controller/datamesh/effective_layout.go (module [effective_layout]); datamesh.go and the
    writeback part of context.go (module [process]). *)

From Stdlib Require Import ZArith Lia String.
From stdpp Require Import base list numbers strings option.
From S2P Require Import Prelude IdSet DrbdSize Api Dmte Context Tracker Helpers Guards Network Quorum.
From S2P Require Import Attachment Membership.
Import v1alpha1 dmte datamesh helpers.

Module effective_layout.
Section effective_layout.
Context `{K : K8s}.
Implicit Types (g : globalContext) (rc : ReplicaContext).

(** The sets built by the classification pass. *)
Record classes := {
  cl_voters : Z; cl_tbs : Z; cl_ready : Z; cl_quorumTrue : Z; cl_diskUpToDate : Z;
  cl_peerConnected : Z; cl_peerUpToDate : Z;
}.
Definition noClasses : classes := {|
  cl_voters := 0; cl_tbs := 0; cl_ready := 0; cl_quorumTrue := 0; cl_diskUpToDate := 0;
  cl_peerConnected := 0; cl_peerUpToDate := 0 |}.

Definition addIf (b : bool) (s id : Z) : Z := if b then idset.Add s id else s.

(** Agent ready and quorum reported: the status is fresh. *)
Definition isFresh (rvr : ReplicatedVolumeReplica) : bool :=
  isAgentReady rvr && bool_decide (is_Some (rvr_Quorum rvr)).
Definition observePeer (c : classes) (p : PeerStatus) : classes := {|
  cl_voters := cl_voters c; cl_tbs := cl_tbs c; cl_ready := cl_ready c;
  cl_quorumTrue := cl_quorumTrue c; cl_diskUpToDate := cl_diskUpToDate c;
  cl_peerConnected := addIf (String.eqb (p_ConnectionState p) ConnectionStateConnected)
                        (cl_peerConnected c) (p_ID p);
  cl_peerUpToDate := addIf (String.eqb (p_BackingVolumeState p) DiskStateUpToDate)
                       (cl_peerUpToDate c) (p_ID p) |}.
Definition diskIsUpToDate (rvr : ReplicatedVolumeReplica) : bool :=
  match rvr_BackingVolume rvr with
  | Some bv => String.eqb (bv_State bv) DiskStateUpToDate
  | None => false
  end.
Definition observeSelf (id : Z) (rvr : ReplicatedVolumeReplica) (c : classes) : classes := {|
  cl_voters := cl_voters c; cl_tbs := cl_tbs c; cl_ready := idset.Add (cl_ready c) id;
  cl_quorumTrue := addIf (bool_decide (rvr_Quorum rvr = Some true)) (cl_quorumTrue c) id;
  cl_diskUpToDate := addIf (diskIsUpToDate rvr) (cl_diskUpToDate c) id;
  cl_peerConnected := cl_peerConnected c; cl_peerUpToDate := cl_peerUpToDate c |}.
Definition addRole (voter : bool) (id : Z) (c : classes) : classes := {|
  cl_voters := addIf voter (cl_voters c) id; cl_tbs := addIf (negb voter) (cl_tbs c) id;
  cl_ready := cl_ready c; cl_quorumTrue := cl_quorumTrue c; cl_diskUpToDate := cl_diskUpToDate c;
  cl_peerConnected := cl_peerConnected c; cl_peerUpToDate := cl_peerUpToDate c |}.
(** The loop body. *)
Definition classify (c : classes) rc : classes :=
  match memberOf rc, rc_rvr rc with
  | Some m, Some rvr =>
      if IsVoter (m_Type m) || bool_decide (m_Type m = MemberTypeTieBreaker) then
        let c := addRole (IsVoter (m_Type m)) (rc_id rc) c in
        if negb (isFresh rvr) then c
        else foldl observePeer (observeSelf (rc_id rc) rvr c) (rvr_Peers rvr)
      else c
  | _, _ => c
  end.
Definition classifyAll g : classes := foldl classify noClasses (g_allReplicas g).

Definition staleVoters (c : classes) : Z := idset.Difference (cl_voters c) (cl_ready c).
Definition staleTBs (c : classes) : Z := idset.Difference (cl_tbs c) (cl_ready c).
Definition reachableVoters (c : classes) : Z :=
  idset.Union (idset.Intersect (cl_voters c) (cl_quorumTrue c))
    (idset.Intersect (staleVoters c) (cl_peerConnected c)).
Definition upToDateVoters (c : classes) : Z :=
  idset.Union (idset.Intersect (cl_voters c) (cl_diskUpToDate c))
    (idset.Intersect (staleVoters c) (cl_peerUpToDate c)).
Definition reachableTBs (c : classes) : Z :=
  idset.Intersect (cl_tbs c) (idset.Union (cl_ready c) (cl_peerConnected c)).

Definition canCompute (c : classes) : bool :=
  negb (idset.IsEmpty (cl_voters c)) && negb (idset.IsEmpty (cl_ready c)).

(** int8 arithmetic. *)
Definition tbBonus (reachableD reachableTB : Z) : Z :=
  if (Z.rem reachableD 2 =? 0) && (0 <? reachableTB) then 1 else 0.
Definition effectiveFTT (reachableD upToDateD reachableTB q qmr : Z) : Z :=
  Z.min (wrapS8 (wrapS8 (reachableD - wrapS8 q) + tbBonus reachableD reachableTB))
        (wrapS8 (upToDateD - wrapS8 qmr)).
Definition effectiveGMDR (upToDateD qmr : Z) : Z := wrapS8 (Z.min upToDateD (wrapS8 qmr) - 1).

Definition staleSuffix (s : Z) : string :=
  if idset.IsEmpty s then ""
  else " (" +:+ itoa (idset.Len s) +:+ " stale [" +:+ idset.String s +:+ "])".
Definition setEffectiveLayoutMessage (totalV reachV utdV totalTB reachTB : Z) (c : classes)
    (ftt gmdr : option Z) : string :=
  (if 0 <? totalV
   then itoa reachV +:+ "/" +:+ itoa totalV +:+ " voters reachable" +:+ staleSuffix (staleVoters c)
        +:+ ", " +:+ itoa utdV +:+ "/" +:+ itoa totalV +:+ " UpToDate"
   else "No voters")
  +:+ (if 0 <? totalTB
       then ", " +:+ itoa reachTB +:+ "/" +:+ itoa totalTB +:+ " TB reachable"
            +:+ staleSuffix (staleTBs c)
       else "")
  +:+ match ftt, gmdr with
      | Some f, Some d => "; FTT=" +:+ itoa f +:+ ", GMDR=" +:+ itoa d
      | _, _ => if totalV =? 0 then "; FTT and GMDR unavailable: no voter members"
                else "; FTT and GMDR unavailable: no fresh agent data"
      end.

#[export] Instance EffectiveLayout_eq_dec : EqDecision EffectiveLayout.
Proof. solve_decision. Defined.

(** The layout written into el. *)
Definition effectiveLayout g : EffectiveLayout :=
  let c := classifyAll g in
  let q := dm_quorum (g_datamesh g) in
  let qmr := dm_quorumMinimumRedundancy (g_datamesh g) in
  let totalV := wrapS8 (idset.Len (cl_voters c)) in
  let reachV := wrapS8 (idset.Len (reachableVoters c)) in
  let utdV := wrapS8 (idset.Len (upToDateVoters c)) in
  let totalTB := wrapS8 (idset.Len (cl_tbs c)) in
  let reachTB := wrapS8 (idset.Len (reachableTBs c)) in
  let ftt := if canCompute c then Some (effectiveFTT reachV utdV reachTB q qmr) else None in
  let gmdr := if canCompute c then Some (effectiveGMDR utdV qmr) else None in
  {| el_FailuresToTolerate := ftt; el_GuaranteedMinimumDataRedundancy := gmdr;
     el_TotalVoters := totalV; el_ReachableVoters := reachV; el_UpToDateVoters := utdV;
     el_TotalTieBreakers := totalTB; el_ReachableTieBreakers := reachTB;
     el_StaleAgents := wrapS8 (idset.Len (staleVoters c) + idset.Len (staleTBs c));
     el_Message := setEffectiveLayoutMessage totalV reachV utdV totalTB reachTB c ftt gmdr |}.

(** Every field is compared and set: the layout changed when some field did. *)
Definition updateEffectiveLayout g (el : EffectiveLayout) : bool * EffectiveLayout :=
  SetChanged el (effectiveLayout g).
End effective_layout.
End effective_layout.

Import v1alpha1 dmte datamesh concurrency_tracker.

Module process.
Section process.
Context `{K : K8s}.
Notation G := globalContext.

(** The package variable [registry]; nil is [None]. *)
Definition BuildRegistry (registry : option (Registry G rptr)) : outcome (option (Registry G rptr)) :=
  match registry with
  | Some _ => Panic "datamesh.BuildRegistry: already initialized"
  | None =>
      reg ← registerSlots NewRegistry;
      reg ← membership.registerMembershipPlans reg;
      reg ← quorum.registerQuorumPlans reg;
      reg ← attachment.registerAttachmentPlans reg;
      reg ← network.registerNetworkPlans reg;
      reg ← resize.registerResizePlans reg;
      Ok (Some reg)
  end.

Definition PlanStepCount (registry : option (Registry G rptr)) (ty : TransitionType) (id : string) :
    outcome Z :=
  match registry with
  | None => Panic "datamesh.PlanStepCount: registry not initialized, call BuildRegistry first"
  | Some reg => Ok (dmte.PlanStepCount reg ty id)
  end.
Definition MaxPlanStepCount (registry : option (Registry G rptr)) (ty : TransitionType) : outcome Z :=
  match registry with
  | None => Panic "datamesh.MaxPlanStepCount: registry not initialized, call BuildRegistry first"
  | Some reg => Ok (dmte.MaxPlanStepCount reg ty)
  end.

(** ** Writeback into rv.Status *)
Definition writebackDatameshFromContext (g : G) (rv : ReplicatedVolume) : ReplicatedVolume :=
  let d := g_datamesh g in
  rv <| rv_Quorum := dm_quorum d |> <| rv_QuorumMinimumRedundancy := dm_quorumMinimumRedundancy d |>
     <| rv_Multiattach := dm_multiattach d |> <| rv_SystemNetworkNames := dm_systemNetworkNames d |>
     <| rv_Size := dm_size d |>.

(** The remaining fields, which the cycle writes one by one. *)
Definition set_status (revision : Z) (members : list DatameshMember) (baseline : Z)
    (requests : list DatameshReplicaRequest) (transitions : list Transition) (el : EffectiveLayout)
    (rv : ReplicatedVolume) : ReplicatedVolume :=
  rv <| rv_DatameshRevision := revision |> <| rv_Members := members |> <| rv_BaselineGMDR := baseline |>
     <| rv_DatameshReplicaRequests := requests |> <| rv_DatameshTransitions := transitions |>
     <| rv_EffectiveLayout := el |>.

(** The member slice as seen through the pointers the contexts hold, when it is not rebuilt. *)
Definition membersInPlace (orig : list DatameshMember) (g : G) : list DatameshMember :=
  imap (λ i m, default m (survivor g i m)) orig.

Definition dispatchers : list (DispatchFunc G rptr) :=
  [network.networkDispatcher; quorum.quorumDispatcher; membership.membershipDispatcher;
   attachment.attachmentDispatcher; resize.resizeDispatcher].

(** Steps 1-3: contexts, zones, engine.  [spare] is the content of the transition slice between its
    length and its capacity. *)
Definition newEngine (registry : option (Registry G rptr)) (rv : ReplicatedVolume) (rsp : option RSP)
    (rvrs : list ReplicatedVolumeReplica) (rvas : list ReplicatedVolumeAttachment)
    (features : FeatureFlags) (spare : list Transition) : outcome (bool * Engine G rptr) :=
  g ← buildContexts rv rsp rvrs rvas features;
  let '(zonesChanged, g) := updateMemberZonesFromRSP g in
  let g := newConcurrencyTracker g in
  e ← NewEngine registry (Some concurrencyTracker) dispatchers (Some (rv_DatameshRevision rv))
        (rv_DatameshTransitions rv) spare g;
  Ok (zonesChanged, e).

(** Steps 6-8: write back into rv.Status. *)
Definition writeback (changed zonesChanged : bool) (transitions : list Transition) (revision : Z)
    (g : G) (rv : ReplicatedVolume) : bool * ReplicatedVolume :=
  let members := if changed || zonesChanged then writebackMembersFromContexts (rv_Members rv) g
                 else membersInPlace (rv_Members rv) g in
  let baseline := if changed then g_baselineGMDR g else rv_BaselineGMDR rv in
  let '(rqChanged, requests) :=
    writebackRequestMessagesFromContexts (rv_DatameshReplicaRequests rv) g in
  let '(elChanged, el) := effective_layout.updateEffectiveLayout g (rv_EffectiveLayout rv) in
  let rv := if changed then writebackDatameshFromContext g rv else rv in
  (changed || zonesChanged || rqChanged || elChanged,
   set_status revision members baseline requests transitions el rv).

Definition ProcessTransitions (clock : nat → Time) (registry : option (Registry G rptr))
    (rv : ReplicatedVolume) (rsp : option RSP) (rvrs : list ReplicatedVolumeReplica)
    (rvas : list ReplicatedVolumeAttachment) (features : FeatureFlags) (spare : list Transition) :
    outcome (bool * list ReplicaContext * ReplicatedVolume) :=
  '(zonesChanged, e) ← newEngine registry rv rsp rvrs rvas features spare;
  '(changed, e) ← Process clock e;
  res ← Finalize e;
  let e := res.2 in
  let '(changed, rv) := writeback changed zonesChanged (finalSlice res) (e_revision e) (e_g e) rv in
  Ok (changed, g_allReplicas (e_g e), rv).
End process.
End process.
