(* ===== verification/Rollout.v ===== *)
(** * rv_controller: configuration rollout

    Source: rv_controller/reconciler_rollout.go; reconciler.go, reconcileRVConfiguration and its
    helpers; reconciler_formation.go, isFormationInProgress.

    A volume takes its configuration from its spec (Manual) or from its storage class (Auto).  A class
    that changes its configuration hands it to its volumes in batches: a volume counts the volumes of
    the class that are mid-rollout and its own place among those that wait. *)

From Stdlib Require Import ZArith Lia String.
From stdpp Require Import base gmap list numbers strings option.
From S2P Require Import Prelude IdSet DrbdSize Api Object Storage Flow Client.
Import v1alpha1 objutilv1 storage flow client.

Module rollout.

Definition CondConfigurationReadyType : string := "ConfigurationReady".
Definition ReasonConfigurationRolloutInProgress : string := "ConfigurationRolloutInProgress".
Definition ReasonInvalidConfiguration : string := "InvalidConfiguration".
Definition ReasonNewerConfigurationHeld : string := "NewerConfigurationHeld".
Definition ReasonReady : string := "Ready".
Definition ReasonWaitingForStorageClass : string := "WaitingForStorageClass".
Definition CondMembershipLayoutConvergedType : string := "MembershipLayoutConverged".
Definition ReasonConverged : string := "Converged".

(** 5 * time.Second *)
Definition configurationRolloutRequeueInterval : Z := 5000000000.
Definition defaultConfigurationRolloutMaxParallel : Z := 5.

#[export] Instance Configuration_eq_dec : EqDecision Configuration.
Proof. solve_decision. Defined.

Section rollout.
Context {K : K8s} {Meta : MetaApi}.
Implicit Types (rv : ReplicatedVolume) (rsc : ReplicatedStorageClass).

(** The first step that is not completed, or the first one. *)
Definition firstIncomplete (steps : list TransitionStep) : Z :=
  match list_find (λ s, s_Status s ≠ StepCompleted) steps with Some (j, _) => Z.of_nat j | None => 0 end.
Definition isFormationInProgress rv : bool * Z :=
  if rv_DatameshRevision rv =? 0 then (true, 0)
  else match List.find (λ t, bool_decide (t_Type t = Formation)) (rv_DatameshTransitions rv) with
       | Some t => (true, firstIncomplete (t_Steps t))
       | None => (false, 0)
       end.

(** ** The budget *)
Inductive rolloutRole := rolloutRoleExcluded | rolloutRoleActive | rolloutRoleConverged | rolloutRolePending.
#[export] Instance rolloutRole_eq_dec : EqDecision rolloutRole.
Proof. solve_decision. Defined.
Record rolloutCohort := { activeCount : Z; pendingNames : list string }.

Definition computeIntendedRolloutMaxParallel rsc : Z :=
  match rsc_ConfigurationRolloutStrategy rsc with
  | Some {| rs_RollingUpdate_MaxParallel := Some n |} => if n <=? 0 then defaultConfigurationRolloutMaxParallel else n
  | _ => defaultConfigurationRolloutMaxParallel
  end.

Definition computeActualRolloutConvergence rv : rolloutRole :=
  if chk_Eval (ObservedGenerationCurrent (ReasonEqual ReasonConverged (IsTrue (StatusCondition rv CondMembershipLayoutConvergedType))))
  then rolloutRoleConverged else rolloutRoleActive.
Definition computeActualRolloutRole rv (rscName : string) (intended : Configuration) (intendedGeneration : Z) : rolloutRole :=
  if bool_decide (is_Some (rv_DeletionTimestamp rv)) then rolloutRoleExcluded
  else if bool_decide (rv_Spec_ConfigurationMode rv = ModeManual) || negb (String.eqb (rv_Spec_ReplicatedStorageClassName rv) rscName)
  then rolloutRoleExcluded
  else match rv_Configuration rv with
       | None => rolloutRoleExcluded
       | Some cfg =>
           if (isFormationInProgress rv).1 then rolloutRoleExcluded
           else if negb (bool_decide (cfg = intended)) then rolloutRolePending
           else if negb (rv_ConfigurationGeneration rv =? intendedGeneration) then rolloutRoleActive
           else computeActualRolloutConvergence rv
       end.

(** The listing, where the volume itself replaces its first copy and drops the others; it is appended
    when the listing does not have it. *)
Fixpoint withSelf rv (classRVs : list ReplicatedVolume) (selfIncluded : bool) : list ReplicatedVolume :=
  match classRVs with
  | [] => if selfIncluded then [] else [rv]
  | listed :: rest =>
      if negb (String.eqb (rv_Name listed) (rv_Name rv)) then listed :: withSelf rv rest selfIncluded
      else if selfIncluded then withSelf rv rest true else rv :: withSelf rv rest true
  end.
Definition computeActualRolloutCohort rv (classRVs : list ReplicatedVolume) (intended : Configuration)
    (intendedGeneration : Z) : rolloutCohort :=
  let members := withSelf rv classRVs false in
  let role m := computeActualRolloutRole m (rv_Spec_ReplicatedStorageClassName rv) intended intendedGeneration in
  {| activeCount := countb (λ m, bool_decide (role m = rolloutRoleActive)) members;
     pendingNames := sort_by string_leb
       (map rv_Name (List.filter (λ m, bool_decide (role m = rolloutRolePending)) members)) |}.
Definition computeTargetRolloutAdmission rv (cohort : rolloutCohort) (maxParallel : Z) : bool :=
  match list_find (λ n, n = rv_Name rv) (pendingNames cohort) with
  | None => true
  | Some (position, _) => Z.of_nat position <? maxParallel - activeCount cohort
  end.

Definition isTransZonalZoneCountValid (ftt gmdr zoneCount : Z) : bool :=
  if (ftt =? 0) && (gmdr =? 1) then zoneCount =? 2
  else if (ftt =? 1) && (gmdr =? 0) then zoneCount =? 3
  else if (ftt =? 1) && (gmdr =? 1) then zoneCount =? 3
  else if (ftt =? 1) && (gmdr =? 2) then (zoneCount =? 3) || (zoneCount =? 5)
  else if (ftt =? 2) && (gmdr =? 1) then zoneCount =? 4
  else if (ftt =? 2) && (gmdr =? 2) then (zoneCount =? 3) || (zoneCount =? 5)
  else false.

(** ** The configuration of a volume *)
Context {S : Server}.

Definition applyConfigurationReadyCondTrue rv (reason message : string) : M (bool * ReplicatedVolume) :=
  SetStatusCondition rv (verdict CondConfigurationReadyType ConditionTrue reason message).
Definition applyConfigurationReadyCondFalse rv (reason message : string) : M (bool * ReplicatedVolume) :=
  SetStatusCondition rv (verdict CondConfigurationReadyType ConditionFalse reason message).

(** Why there is no configuration to apply; or the configuration, its generation, and the class it
    comes from. *)
Definition configurationSource rv (rsc : option ReplicatedStorageClass) :
    string + option Configuration * Z * option ReplicatedStorageClass :=
  if bool_decide (rv_Spec_ConfigurationMode rv = ModeManual) then inr (rv_Spec_ManualConfiguration rv, 0, None)
  else match rsc with
       | None => inl ("ReplicatedStorageClass " +:+ quote (rv_Spec_ReplicatedStorageClassName rv) +:+ " not found")
       | Some rsc =>
           match rsc_Configuration rsc with
           | None => inl ("ReplicatedStorageClass " +:+ quote (rsc_Name rsc) +:+ " configuration not ready")
           | Some cfg =>
               if negb (rsc_ConfigurationGeneration rsc =? rsc_Generation rsc)
               then inl ("ReplicatedStorageClass " +:+ quote (rsc_Name rsc) +:+
                         " has not published a configuration for generation " +:+ itoa (rsc_Generation rsc) +:+
                         " yet (published generation: " +:+ itoa (rsc_ConfigurationGeneration rsc) +:+ ")")
               else inr (Some cfg, rsc_ConfigurationGeneration rsc, Some rsc)
           end
       end.
Definition observe rv (gen : Z) : bool * ReplicatedVolume :=
  if rv_ConfigurationObservedGeneration rv =? gen then (false, rv)
  else (true, rv <| rv_ConfigurationObservedGeneration := gen |>).
(** "Fast-path: config content matches intended". *)
Definition restamp rv (gen : Z) : M (ReplicatedVolume * ReconcileOutcome) :=
  let '(c1, rv) := if rv_ConfigurationGeneration rv =? gen then (false, rv)
                   else (true, rv <| rv_ConfigurationGeneration := gen |>) in
  let '(c2, rv) := observe rv gen in
  '(c3, rv) ← applyConfigurationReadyCondTrue rv ReasonReady "Configuration is ready";
  mret (rv, ReportChangedIf Continue (c3 || (c2 || c1))).
(** NewVolumesOnly. *)
Definition holdBack rv (gen : Z) rsc : M (ReplicatedVolume * ReconcileOutcome) :=
  let '(c1, rv) := observe rv gen in
  '(c2, rv) ← applyConfigurationReadyCondFalse rv ReasonNewerConfigurationHeld
     ("ReplicatedStorageClass " +:+ quote (rsc_Name rsc) +:+ " has a newer configuration (generation " +:+ itoa gen +:+ "); " +:+
      "the volume keeps its configuration (generation " +:+ itoa (rv_ConfigurationGeneration rv) +:+
      ") because the rollout strategy is NewVolumesOnly");
  mret (rv, ReportChangedIf Continue (c2 || c1)).

(** "Validate TransZonal zone count": the early return, if any. *)
Definition rejectZones rv (intended : Configuration) : M (option (ReplicatedVolume * ReconcileOutcome)) :=
  if negb (bool_decide (cfg_Topology intended = TopologyTransZonal)) then mret None
  else
    let pool := cfg_ReplicatedStoragePoolName intended in
    let reject msg := '(changed, rv) ← applyConfigurationReadyCondFalse rv ReasonInvalidConfiguration msg;
                      mret (Some (rv, ReportChangedIf Continue changed)) in
    zones ← getRSPZoneCount pool;
    match zones with
    | NotFound _ => reject ("ReplicatedStoragePool " +:+ quote pool +:+ " not found")
    | AlreadyExists e | Refused e => mret (Some (rv, fail e ("getting RSP zone count for " +:+ pool)))
    | Replied n =>
        if isTransZonalZoneCountValid (cfg_FailuresToTolerate intended) (cfg_GuaranteedMinimumDataRedundancy intended) n
        then mret None
        else reject ("TransZonal with FTT=" +:+ itoa (cfg_FailuresToTolerate intended) +:+ ", GMDR=" +:+
                     itoa (cfg_GuaranteedMinimumDataRedundancy intended) +:+
                     " requires a valid zone count, RSP has " +:+ itoa n +:+ " zones")
    end.
(** "Throttle the rollout across the class": the early return, if any. *)
Definition throttle rv (intended : Configuration) (gen : Z) rsc : M (option (ReplicatedVolume * ReconcileOutcome)) :=
  list ← getRVsByRSC (rsc_Name rsc);
  match list with
  | inl e => mret (Some (rv, fail e ("listing ReplicatedVolumes of ReplicatedStorageClass " +:+ rsc_Name rsc)))
  | inr classRVs =>
      let maxParallel := computeIntendedRolloutMaxParallel rsc in
      if computeTargetRolloutAdmission rv (computeActualRolloutCohort rv classRVs intended gen) maxParallel then mret None
      else
        let '(c1, rv) := observe rv gen in
        '(c2, rv) ← applyConfigurationReadyCondFalse rv ReasonConfigurationRolloutInProgress
          ("ReplicatedStorageClass " +:+ quote (rsc_Name rsc) +:+ " rolls its configuration (generation " +:+ itoa gen +:+
           ") out to at most " +:+ itoa maxParallel +:+ " volume(s) at a time; " +:+
           "the volume keeps its configuration (generation " +:+ itoa (rv_ConfigurationGeneration rv) +:+
           ") until a slot is free");
        o ← lift (ContinueAndRequeueAfter configurationRolloutRequeueInterval);
        mret (Some (rv, ReportChangedIf o (c2 || c1)))
  end.
Definition storeConfiguration rv (intended : Configuration) (gen : Z) : M (ReplicatedVolume * ReconcileOutcome) :=
  let rv := rv <| rv_Configuration := Some intended |> <| rv_ConfigurationGeneration := gen |>
               <| rv_ConfigurationObservedGeneration := gen |> in
  '(_, rv) ← applyConfigurationReadyCondTrue rv ReasonReady "Configuration is ready";
  mret (rv, ReportChangedIf Continue true).
Definition adopt rv (intended : Configuration) (gen : Z) (class : option ReplicatedStorageClass) :
    M (ReplicatedVolume * ReconcileOutcome) :=
  rejected ← rejectZones rv intended;
  match rejected with
  | Some r => mret r
  | None =>
      waiting ← match class, rv_Configuration rv with
                | Some rsc, Some _ => throttle rv intended gen rsc
                | _, _ => mret None
                end;
      match waiting with Some r => mret r | None => storeConfiguration rv intended gen end
  end.

Definition isNewVolumesOnly rsc : bool :=
  bool_decide (RolloutStrategy_GetType (rsc_ConfigurationRolloutStrategy rsc) = RolloutNewVolumesOnly).
(** The intended configuration is a pointer that is dereferenced: a manual volume without one panics. *)
Definition reconcileRVConfiguration rv (rsc : option ReplicatedStorageClass) : M (ReplicatedVolume * ReconcileOutcome) :=
  ended <$>
  match configurationSource rv rsc with
  | inl msg =>
      '(changed, rv) ← applyConfigurationReadyCondFalse rv ReasonWaitingForStorageClass msg;
      mret (rv, ReportChangedIf Continue changed)
  | inr (intended, gen, class) =>
      intended ← lift (deref intended);
      if bool_decide (rv_Configuration rv = Some intended) then restamp rv gen
      else match class, rv_Configuration rv with
           | Some rsc, Some _ => if isNewVolumesOnly rsc then holdBack rv gen rsc else adopt rv intended gen class
           | _, _ => adopt rv intended gen class
           end
  end.
End rollout.
End rollout.
