(* ===== verification/Requests.v ===== *)
(** * rv_controller: membership requests and the reported size

    Source: rv_controller/reconciler.go, ensureDatameshReplicaRequests and ensureStatusSize.

    The volume's status mirrors the membership requests of its replicas, each with the time it was
    first observed and a message about its progress. *)

From Stdlib Require Import ZArith Lia String Sorted.
From stdpp Require Import base gmap list numbers strings option relations.
From S2P Require Import Prelude IdSet DrbdSize Api Object Storage Flow Client.
Import idset v1alpha1 objutilv1 flow client.

Module requests.
Section requests.
Context {K : K8s} {S : Server}.
Implicit Types (rv : ReplicatedVolume) (rvr : ReplicatedVolumeReplica) (rvrs : list ReplicatedVolumeReplica)
  (q : DatameshMembershipRequest) (e : DatameshReplicaRequest).

(** DatameshMembershipRequest.Equals on non-nil requests *)
Definition Equals q q' : bool :=
  bool_decide (mr_Operation q = mr_Operation q') && bool_decide (mr_Type q = mr_Type q') &&
  String.eqb (mr_LVMVolumeGroupName q) (mr_LVMVolumeGroupName q') && String.eqb (mr_ThinPoolName q) (mr_ThinPoolName q').
Definition newRequest rvr q : M DatameshReplicaRequest :=
  now ← do Now;
  mret {| rq_Name := rvr_Name rvr; rq_Message := ""; rq_Request := q; rq_FirstObservedAt := now |}.
(** "Drain remaining rvrs". *)
Fixpoint drainRVRs rvrs : M (bool * list DatameshReplicaRequest) :=
  match rvrs with
  | [] => mret (false, [])
  | r :: rvrs =>
      match rvr_DatameshRequest r with
      | None => drainRVRs rvrs
      | Some q => e ← newRequest r q; '(_, l) ← drainRVRs rvrs; mret (true, e :: l)
      end
  end.
(** The merge with two pointers: whether anything changed, and the result. *)
Fixpoint mergeRequests (existing : list DatameshReplicaRequest) : list ReplicatedVolumeReplica → M (bool * list DatameshReplicaRequest) :=
  fix merge rvrs :=
  match existing with
  | [] => drainRVRs rvrs
  | e :: existing' =>
      match rvrs with
      | [] => mret (true, [])
      | r :: rvrs' =>
          match rvr_DatameshRequest r with
          | None => merge rvrs'
          | Some q =>
              match String.compare (rq_Name e) (rvr_Name r) with
              | Lt => '(_, l) ← mergeRequests existing' rvrs; mret (true, l)
              | Gt => n ← newRequest r q; '(_, l) ← merge rvrs'; mret (true, n :: l)
              | Eq =>
                  if Equals (rq_Request e) q
                  then '(c, l) ← mergeRequests existing' rvrs'; mret (c, e :: l)
                  else n ← newRequest r q; '(_, l) ← mergeRequests existing' rvrs'; mret (true, n :: l)
              end
          end
      end
  end.
Definition okEnsure (changed : bool) : EnsureOutcome := {| eo_err := None; eo_changed := changed |}.
(** The entries are sorted in place, even when nothing else changes. *)
Definition ensureDatameshReplicaRequests rv rvrs : M (ReplicatedVolume * EnsureOutcome) :=
  let existing := sort_by (λ a b, rq_ID a <=? rq_ID b) (rv_DatameshReplicaRequests rv) in
  '(changed, result) ← mergeRequests existing rvrs;
  mret (rv <| rv_DatameshReplicaRequests := if changed : bool then result else existing |>, okEnsure changed).

(** ** The reported size *)
Definition minSize (members : IDSet) rvrs : option Quantity :=
  foldl (λ acc rvr,
    if negb (Contains members (rvr_ID rvr)) then acc
    else match rvr_Size rvr, acc with
         | None, _ => acc
         | Some q, None => Some q
         | Some q, Some m => if q_Cmp q m <? 0 then Some q else acc
         end) None rvrs.
Definition ensureStatusSize rv rvrs : ReplicatedVolume * EnsureOutcome :=
  let diskfulMembers := FromWhere m_ID (rv_Members rv) (λ m, HasBackingVolume (m_Type m)) in
  let target := minSize diskfulMembers rvrs in
  let same := match rv_Status_Size rv, target with
              | None, None => true
              | Some q, Some q' => q_Equal q q'
              | _, _ => false
              end in
  if same then (rv, okEnsure false) else (rv <| rv_Status_Size := target |>, okEnsure true).
End requests.
End requests.
Import requests.

(** ** Properties *)
Section theory.
Context {K : K8s} {S : Server}.
Implicit Types (e : DatameshReplicaRequest) (ex : list DatameshReplicaRequest) (rvrs : list ReplicatedVolumeReplica).
Set Default Proof Using "Type".

Definition clockOnly (c : event) : Prop := match ev_call c with Now => True | _ => False end.
Definition entry e : string * DatameshMembershipRequest := (rq_Name e, rq_Request e).
(** The requests of the replicas that make one, in the order of the listing. *)
Definition wanted rvrs : list (string * DatameshMembershipRequest) :=
  omap (λ r, pair (rvr_Name r) <$> rvr_DatameshRequest r) rvrs.
Lemma wanted_cons r rvrs :
  wanted (r :: rvrs) = match rvr_DatameshRequest r with Some q => (rvr_Name r, q) :: wanted rvrs | None => wanted rvrs end.
Proof. unfold wanted. simpl. by destruct (rvr_DatameshRequest r). Qed.
Lemma Equals_eq q q' : Equals q q' = true ↔ q = q'.
Proof.
  unfold Equals. rewrite !andb_true_iff, !bool_decide_eq_true, !String.eqb_eq. destruct q, q'. simpl. naive_solver.
Qed.

Lemma triple_new ok r q (f : DatameshReplicaRequest → M (bool * list DatameshReplicaRequest)) Q :
  (∀ e, entry e = (rvr_Name r, q) → triple ok clockOnly (f e) Q) → triple ok clockOnly (newRequest r q ≫= f) Q.
Proof.
  intros H. apply (triple_bind _ _ _ _ (λ e, entry e = (rvr_Name r, q))); [|done].
  unfold newRequest. step_program; [done|]. intros. by apply triple_ret.
Qed.
Lemma drain_entries ok rvrs : triple ok clockOnly (drainRVRs rvrs)
  (λ y, map entry y.2 = wanted rvrs ∧ (y.1 = false ↔ wanted rvrs = [])).
Proof.
  induction rvrs as [|r rvrs IH]; [by apply triple_ret|]. rewrite wanted_cons. simpl. destruct (rvr_DatameshRequest r) as [q|]; [|done].
  apply triple_new. intros e He. eapply triple_bind; [exact IH|]. intros [c l] [Hl _]. apply triple_ret. simpl in *. by rewrite He, Hl.
Qed.
(** The merge, whatever the order of its inputs. *)
Lemma merge_entries ok ex rvrs : triple ok clockOnly (mergeRequests ex rvrs)
  (λ y, map entry y.2 = wanted rvrs ∧ (y.1 = false ↔ map entry ex = wanted rvrs) ∧ (y.1 = false → y.2 = ex)).
Proof.
  revert rvrs. induction ex as [|e ex IHe]; intros rvrs.
  { replace (mergeRequests [] rvrs) with (drainRVRs rvrs) by (by destruct rvrs). eapply triple_weaken; [apply drain_entries|].
    intros [c l] [Hl Hc]. split; [done|]. simpl in *. split; [naive_solver|]. intros E. rewrite (proj1 Hc E) in Hl. by destruct l. }
  induction rvrs as [|r rvrs IH]; [by apply triple_ret|]. rewrite wanted_cons. simpl. destruct (rvr_DatameshRequest r) as [q|] eqn:Eq; [|exact IH].
  destruct (String.compare (rq_Name e) (rvr_Name r)) eqn:E.
  - apply (cmp_eq (cmp:=String.compare)) in E. destruct (Equals (rq_Request e) q) eqn:Es.
    + apply Equals_eq in Es as <-. eapply triple_bind; [apply IHe|]. intros [c l] (Hl & Hc & Hk). apply triple_ret.
      assert (He : entry e = (rvr_Name r, rq_Request e)) by (unfold entry; by rewrite E). simpl in *. rewrite !He, Hl.
      split; [done|]. split; [|intros ->; by rewrite Hk]. rewrite Hc. split; [by intros ->|by intros [= ->]].
    + apply triple_new. intros n Hn. eapply triple_bind; [apply IHe|]. intros [c l] (Hl & _). apply triple_ret. simpl in *. rewrite Hn, Hl.
      split; [done|]. split; [|done]. split; [done|]. intros [= _ Hq _]. by rewrite (proj2 (Equals_eq _ _) Hq) in Es.
  - eapply triple_bind; [apply IHe|]. intros [c l] (Hl & _). apply triple_ret. rewrite wanted_cons, Eq in Hl. simpl in *.
    split; [done|]. split; [|done]. split; [done|]. intros [= Hn _ _]. by rewrite Hn, (cmp_refl String.compare) in E.
  - apply triple_new. intros n Hn. eapply triple_bind; [exact IH|]. intros [c l] (Hl & _). apply triple_ret. simpl in *. rewrite Hn, Hl.
    split; [done|]. split; [|done]. split; [done|]. intros [= Hn' _ _]. by rewrite Hn', (cmp_refl String.compare) in E.
Qed.

Definition byID : list DatameshReplicaRequest → list DatameshReplicaRequest := sort_by (λ a b, rq_ID a <=? rq_ID b).
(** The requests in the status are those of the replicas.  A pass only reads the clock; afterwards
    the names and requests in the status are exactly those of the replicas that make a request, in the
    order of the listing, and the pass reports a change exactly when the entries it found, in the order
    of their IDs, were not those. *)
Theorem requests_mirrored rv rvrs : triple True clockOnly (ensureDatameshReplicaRequests rv rvrs)
  (λ y, map entry (rv_DatameshReplicaRequests y.1) = wanted rvrs ∧ eo_err y.2 = None ∧
        (eo_changed y.2 = false ↔ map entry (byID (rv_DatameshReplicaRequests rv)) = wanted rvrs)).
Proof.
  unfold ensureDatameshReplicaRequests. fold byID. eapply triple_bind; [apply merge_entries|]. intros [c l] (Hl & Hc & Hk).
  apply triple_ret. simpl in *. split; [|split; [done|exact Hc]]. destruct c; [done|]. by rewrite <-(Hk eq_refl).
Qed.

Definition byName {A} (name : A → string) : list A → Prop := StronglySorted (below String.compare name).
Lemma wanted_above n q rvrs : Forall (λ r, String.compare n (rvr_Name r) = Lt) rvrs → (n, q) ∉ wanted rvrs.
Proof.
  induction 1 as [|r rvrs Hr _ IH]; [by intros ?%not_elem_of_nil|]. rewrite wanted_cons. destruct (rvr_DatameshRequest r); [|done].
  intros [[= -> _]|?]%elem_of_cons; [|done]. by rewrite (cmp_refl String.compare) in Hr.
Qed.
Lemma above_trans n r rvrs : String.compare n (rvr_Name r) = Lt → Forall (below String.compare rvr_Name r) rvrs →
  Forall (λ r, String.compare n (rvr_Name r) = Lt) rvrs.
Proof. intros Hn H. eapply Forall_impl; [exact H|]. intros x Hx. by apply (cmp_lt_trans (cmp:=String.compare) _ (rvr_Name r)). Qed.
Lemma merge_keeps ok ex rvrs : byName rq_Name ex → byName rvr_Name rvrs →
  triple ok clockOnly (mergeRequests ex rvrs) (λ y, ∀ e, e ∈ ex → entry e ∈ wanted rvrs → e ∈ y.2).
Proof.
  intros Hex. revert rvrs. induction Hex as [|e ex Hex IHe He]; intros rvrs Hr.
  { eapply triple_weaken; [apply merge_entries|]. intros y _ e ?%not_elem_of_nil. done. }
  induction Hr as [|r rvrs Hr IH Hlt]; [apply triple_ret; by intros ?? ?%not_elem_of_nil|]. rewrite wanted_cons. simpl.
  destruct (rvr_DatameshRequest r) as [q|] eqn:Eq; [|exact IH].
  destruct (String.compare (rq_Name e) (rvr_Name r)) eqn:E.
  - apply (cmp_eq (cmp:=String.compare)) in E.
    assert (Htail : ∀ x, x ∈ ex → entry x ∈ (rvr_Name r, q) :: wanted rvrs → entry x ∈ wanted rvrs).
    { intros x Hx [[= Hn _]|?]%elem_of_cons; [|done]. rewrite Forall_forall in He. specialize (He x Hx). unfold below in He.
      by rewrite Hn, E, (cmp_refl String.compare) in He. }
    destruct (Equals (rq_Request e) q) eqn:Es.
    + eapply triple_bind; [by apply IHe|]. intros [c l] Hk. apply triple_ret. simpl in *.
      intros x [->|Hx]%elem_of_cons Hw; [by left|]. right. auto.
    + apply triple_new. intros n _. eapply triple_bind; [by apply IHe|]. intros [c l] Hk. apply triple_ret. simpl in *.
      intros x [->|Hx]%elem_of_cons Hw; [|right; auto]. exfalso. apply elem_of_cons in Hw as [[= _ Hq]|Hw].
      * by rewrite (proj2 (Equals_eq _ _) Hq) in Es.
      * revert Hw. apply wanted_above. rewrite E. exact Hlt.
  - eapply triple_bind; [apply IHe; by constructor|]. intros [c l] Hk. apply triple_ret. rewrite wanted_cons, Eq in Hk. simpl in *.
    intros x [->|Hx]%elem_of_cons Hw; [|auto]. exfalso. apply elem_of_cons in Hw as [[= Hn _]|Hw].
    + by rewrite Hn, (cmp_refl String.compare) in E.
    + revert Hw. apply wanted_above. by eapply above_trans.
  - apply triple_new. intros n _. eapply triple_bind; [exact IH|]. intros [c l] Hk. apply triple_ret. simpl in *.
    assert (Hgt : ∀ x, x ∈ e :: ex → entry x ∈ (rvr_Name r, q) :: wanted rvrs → entry x ∈ wanted rvrs).
    { intros x Hx [[= Hn _]|?]%elem_of_cons; [|done]. apply elem_of_cons in Hx as [->|Hx].
      - by rewrite Hn, (cmp_refl String.compare) in E.
      - rewrite Forall_forall in He. specialize (He x Hx). unfold below in He. by rewrite Hn, E in He. }
    intros x Hx Hw. right. apply Hk; auto.
Qed.

(** A request that has not changed keeps its time and its message, when the entries, in the order
    of their IDs, and the replicas are both in the order of their names. *)
Theorem unchanged_requests_kept rv rvrs : byName rq_Name (byID (rv_DatameshReplicaRequests rv)) → byName rvr_Name rvrs →
  triple True clockOnly (ensureDatameshReplicaRequests rv rvrs)
    (λ y, ∀ e, e ∈ rv_DatameshReplicaRequests rv → entry e ∈ wanted rvrs → e ∈ rv_DatameshReplicaRequests y.1).
Proof.
  intros He Hr. unfold ensureDatameshReplicaRequests. fold byID. eapply triple_bind; [by apply merge_keeps|]. intros [c l] Hk.
  apply triple_ret. simpl in *. assert (Hp : byID (rv_DatameshReplicaRequests rv) ≡ₚ rv_DatameshReplicaRequests rv) by apply sort_by_perm.
  intros e Hin Hw. rewrite <-Hp in Hin. destruct c; auto.
Qed.

(** With replicas listed in another order than that of their IDs, no pass is the last one: while
    the requests stay the same, every pass reports a change. *)
Theorem unordered_listing_never_settles rv rvrs :
  ¬ Sorted (λ a b : string * DatameshMembershipRequest, idFromName a.1 ≤ idFromName b.1) (wanted rvrs) →
  triple True clockOnly (ensureDatameshReplicaRequests rv rvrs) (λ y, eo_changed y.2 = true).
Proof.
  intros Hn. unfold ensureDatameshReplicaRequests. fold byID. eapply triple_bind; [apply merge_entries|]. intros [c l] (_ & Hc & _).
  apply triple_ret. simpl in *. destruct c; [done|]. destruct Hn. rewrite <-(proj1 Hc eq_refl).
  assert (Hs : Sorted (λ a b, (rq_ID a <=? rq_ID b) = true) (byID (rv_DatameshReplicaRequests rv))).
  { apply sort_by_sorted. intros a b. rewrite !Z.leb_le. lia. }
  clear Hc. induction Hs as [|e ex Hs IH Hd]; [constructor|]. constructor; [done|]. destruct Hd as [|e' ex Hd]; constructor. by apply Z.leb_le.
Qed.
End theory.

(** ** Two replicas that ask to leave *)
Section concrete.
#[local] Existing Instance K8s_concrete.
Definition leave : DatameshMembershipRequest :=
  {| mr_Operation := OpLeave; mr_Type := ReplicaTypeOther ""; mr_LVMVolumeGroupName := ""; mr_ThinPoolName := "" |}.
Definition leaving (name node : string) : ReplicatedVolumeReplica :=
  zeroRVR <| rvr_Name := name |> <| rvr_Spec_NodeName := node |> <| rvr_DatameshRequest := Some leave |>.
Definition asked (name : string) (since : Time) (msg : string) : DatameshReplicaRequest :=
  {| rq_Name := name; rq_Message := msg; rq_Request := leave; rq_FirstObservedAt := since |}.
Definition zeroRV : ReplicatedVolume :=
  {| rv_Name := ""; rv_Generation := 0; rv_DeletionTimestamp := None; rv_Finalizers := []; rv_Labels := None; rv_Annotations := ∅;
     rv_Spec_Size := 0; rv_Spec_MaxAttachments := None; rv_Spec_ReplicatedStorageClassName := "";
     rv_Spec_ConfigurationMode := ModeOther ""; rv_Spec_ManualConfiguration := None; rv_Conditions := [];
     rv_Configuration := None; rv_ConfigurationGeneration := 0; rv_ConfigurationObservedGeneration := 0;
     rv_Status_Size := None; rv_MembershipLayout := None; rv_DatameshRevision := 0; rv_SharedSecret := ""; rv_SharedSecretAlg := "";
     rv_Quorum := 0; rv_QuorumMinimumRedundancy := 0; rv_Multiattach := false; rv_SystemNetworkNames := []; rv_Size := 0;
     rv_Members := []; rv_BaselineGMDR := 0; rv_DatameshReplicaRequests := []; rv_DatameshTransitions := [];
     rv_EffectiveLayout := {| el_FailuresToTolerate := None; el_GuaranteedMinimumDataRedundancy := None; el_TotalVoters := 0;
       el_ReachableVoters := 0; el_UpToDateVoters := 0; el_TotalTieBreakers := 0; el_ReachableTieBreakers := 0;
       el_StaleAgents := 0; el_Message := "" |} |}.
Definition waiting (l : list DatameshReplicaRequest) : ReplicatedVolume := zeroRV <| rv_DatameshReplicaRequests := l |>.
Definition pass (now : Z) (rv : ReplicatedVolume) rvrs : outcome (ReplicatedVolume * EnsureOutcome) :=
  (@ensureDatameshReplicaRequests _ (store_server zeroStore) rv rvrs now).2.2.
Definition clock500 : @World _ (store_server zeroStore) := 500.

Lemma unchanged_requests_kept_witness : asked "v-1" 7 "waiting" ∈
  rv_DatameshReplicaRequests (match pass 500 (waiting [asked "v-0" 5 ""; asked "v-1" 7 "waiting"]) [leaving "v-1" "a"] with Ok y => y.1 | _ => zeroRV end).
Proof.
  refine (proj2 (unchanged_requests_kept (S:=store_server zeroStore) (waiting [asked "v-0" 5 ""; asked "v-1" 7 "waiting"])
           [leaving "v-1" "a"] _ _ clock500) (asked "v-1" 7 "waiting") _ _).
  - repeat constructor.
  - repeat constructor.
  - set_solver.
  - vm_compute. left.
Defined.
Lemma unordered_listing_never_settles_witness :
  (eo_changed <$> (snd <$> pass 500 (waiting [asked "v-0" 5 ""; asked "v-1" 7 "waiting"]) (sort_by rvrSortedLeb [leaving "v-0" "b"; leaving "v-1" "a"]))) = Ok true.
Proof.
  assert (H : ¬ Sorted (λ a b : string * DatameshMembershipRequest, idFromName a.1 ≤ idFromName b.1)
                 (wanted (sort_by rvrSortedLeb [leaving "v-0" "b"; leaving "v-1" "a"]))).
  { intros [_ Hh]%Sorted_inv. inversion_clear Hh as [|?? Hle]. by vm_compute in Hle. }
  assert (Hgen : ∀ o : outcome (ReplicatedVolume * EnsureOutcome),
    match o with Ok y => eo_changed y.2 = true | _ => ¬ True end → (eo_changed <$> (snd <$> o)) = Ok true).
  { intros [y| |]; simpl; [by intros ->|by intros []..]. }
  apply Hgen. exact (proj2 (unordered_listing_never_settles (S:=store_server zeroStore)
    (waiting [asked "v-0" 5 ""; asked "v-1" 7 "waiting"]) _ H clock500)).
Defined.

(** The listing the controller uses is in the order of the nodes, and the message and the time of an
    unchanged request are lost: with replicas 1 and 0 on nodes a and b, the request of replica 0 is
    written anew at the time of the pass, and so again by the next pass. *)
Theorem unchanged_requests_restamped :
  let rvrs := sort_by rvrSortedLeb [leaving "v-0" "b"; leaving "v-1" "a"] in
  let rv := waiting [asked "v-0" 5 "waiting"; asked "v-1" 7 "waiting"] in
  ∃ rv' rv'', pass 500 rv rvrs = Ok (rv', okEnsure true) ∧
    rv_DatameshReplicaRequests rv' = [asked "v-1" 7 "waiting"; asked "v-0" 500 ""] ∧
    pass 900 rv' rvrs = Ok (rv'', okEnsure true) ∧
    rv_DatameshReplicaRequests rv'' = [asked "v-1" 7 "waiting"; asked "v-0" 900 ""].
Proof. do 2 eexists. split; [vm_compute; reflexivity|]. split; [reflexivity|]. split; [vm_compute; reflexivity|reflexivity]. Qed.
End concrete.
