(* ===== verification/Replicas.v ===== *)
(** * rv_controller: creating, retyping and deleting replicas

    Source: rv_controller/reconciler.go (layout convergence and status, metadata, finalizers, deletion
    predicate, formation helpers, view types, shared helpers) and reconciler_access_replicas.go.

    A method that changes objects in place returns them with its outcome. *)

From Stdlib Require Import ZArith Lia String.
From stdpp Require Import base gmap list numbers strings option.
From S2P Require Import Prelude IdSet DrbdSize Api Object Storage Flow Client Context Layout Rollout.
Import idset v1alpha1 objutilv1 storage flow client datamesh layout rollout.

Module replicas.
Section replicas.
Context {K : K8s} {Meta : MetaApi}.
Implicit Types (rv : ReplicatedVolume) (rvr : ReplicatedVolumeReplica) (rvrs : list ReplicatedVolumeReplica)
  (rvas : list ReplicatedVolumeAttachment) (m : DatameshMember).

(** ** slices.BinarySearchFunc

    [before x] stands for cmp(x, target) < 0; the search narrows [i, j). *)
Fixpoint lowerBound {A} (fuel : nat) (before : A → bool) (l : list A) (i j : nat) : outcome nat :=
  match fuel with
  | O => OutOfFuel
  | Datatypes.S fuel =>
      if (i <? j)%nat then
        let h := ((i + j) / 2)%nat in
        x ← index l h;
        if before x then lowerBound fuel before l (Datatypes.S h) j else lowerBound fuel before l i h
      else Ok i
  end.
Definition binarySearch {A} (before : A → bool) (l : list A) : outcome nat :=
  lowerBound (Datatypes.S (length l)) before l 0 (length l).

(** ** rspView *)
Record rspView := {
  rspv_Type : ReplicatedStoragePoolType; rspv_Zones : list string; rspv_SystemNetworkNames : list string;
  rspv_EligibleNodes : list EligibleNode;
}.
Definition findEligibleNode (v : rspView) (nodeName : string) : outcome (option EligibleNode) :=
  i ← binarySearch (λ en, String.ltb (en_NodeName en) nodeName) (rspv_EligibleNodes v);
  Ok (match rspv_EligibleNodes v !! i with
      | Some en => if String.eqb (en_NodeName en) nodeName then Some en else None
      | None => None
      end).
(** The view as the interface of the datamesh package. *)
Definition asRSP (v : rspView) : RSP :=
  {| FindEligibleNode n := match findEligibleNode v n with Ok en => en | _ => None end;
     GetSystemNetworkNames := rspv_SystemNetworkNames v |}.
Definition wantedNodes rvrs rvas : list string :=
  Compact (sort_by string_leb
    (List.filter (λ n, negb (String.eqb n "")) (map rvr_Spec_NodeName rvrs) ++
     map rva_NodeName (List.filter (λ a, bool_decide (rva_DeletionTimestamp a = None)) rvas))).
(** slices.BinarySearch on the sorted names *)
Definition wantsNode (names : list string) (n : string) : outcome bool :=
  i ← binarySearch (λ x, String.ltb x n) names;
  Ok (match names !! i with Some x => String.eqb x n | None => false end).
Fixpoint filterNodes (names : list string) (nodes : list EligibleNode) : outcome (list EligibleNode) :=
  match nodes with
  | [] => Ok []
  | n :: nodes =>
      b ← wantsNode names (en_NodeName n);
      l ← filterNodes names nodes;
      Ok (if b : bool then n :: l else l)
  end.
Definition viewOf (rsp : ReplicatedStoragePool) rvrs rvas : outcome rspView :=
  nodes ← filterNodes (wantedNodes rvrs rvas) (rsp_EligibleNodes rsp);
  Ok {| rspv_Type := rsp_Spec_Type rsp; rspv_Zones := rsp_Spec_Zones rsp;
        rspv_SystemNetworkNames := rsp_Spec_SystemNetworkNames rsp;
        rspv_EligibleNodes := sort_by (λ a b, string_leb (en_NodeName a) (en_NodeName b)) nodes |}.

(** ** New replicas *)
Definition newRVR rv rvrs (typ : ReplicaType) (nodeName : string) : outcome (error + ReplicatedVolumeReplica) :=
  name ← ChooseNewName (rv_Name rv) rvrs;
  Ok (match name with
      | None => inl (Leaf "no available ID for new RVR" false)
      | Some name =>
          inr (AddFinalizer (zeroRVR <| rvr_Spec_ReplicatedVolumeName := rv_Name rv |> <| rvr_Spec_Type := typ |>
                                     <| rvr_Spec_NodeName := nodeName |> <| rvr_Name := name |>) RVControllerFinalizer).2
      end).
Definition insertRVRSorted rvrs rvr : outcome (list ReplicatedVolumeReplica) :=
  i ← binarySearch (λ r, rvr_ID r <? rvr_ID rvr) rvrs;
  Ok (take i rvrs ++ rvr :: drop i rvrs).

(** ** Deletion and finalizers *)
Definition rvShouldNotExist (rv : option ReplicatedVolume) : bool :=
  match rv with
  | None => true
  | Some rv =>
      if bool_decide (rv_DeletionTimestamp rv = None) then false
      else if HasFinalizersOtherThan rv [RVControllerFinalizer] then false
      else if (isFormationInProgress rv).1 then true
      else if existsb m_Attached (rv_Members rv) then false
      else negb (existsb (λ t, bool_decide (t_Type t = Detach)) (rv_DatameshTransitions rv))
  end.
Definition isRVRMemberOrLeavingDatamesh (rv : option ReplicatedVolume) (rvrName : string) : bool :=
  match rv with
  | None => false
  | Some rv =>
      isMember rv rvrName ||
      existsb (λ t, bool_decide (t_Type t = RemoveReplica) && String.eqb (t_ReplicaName t) rvrName) (rv_DatameshTransitions rv)
  end.

(** ** Metadata *)
Definition ReplicatedStorageClassLabelKey : string := "sds-replicated-volume.deckhouse.io/replicated-storage-class".
Definition isRVMetadataInSync rv (targetFinalizerPresent : bool) : bool :=
  if negb (Bool.eqb (HasFinalizer rv RVControllerFinalizer) targetFinalizerPresent) then false
  else if negb (String.eqb (rv_Spec_ReplicatedStorageClassName rv) "")
  then HasLabelValue rv ReplicatedStorageClassLabelKey (rv_Spec_ReplicatedStorageClassName rv)
  else negb (HasLabel rv ReplicatedStorageClassLabelKey).
Definition applyRVMetadata rv (targetFinalizerPresent : bool) : bool * ReplicatedVolume :=
  let '(c1, rv) := if targetFinalizerPresent then AddFinalizer rv RVControllerFinalizer
                   else RemoveFinalizer rv RVControllerFinalizer in
  let '(c2, rv) := if negb (String.eqb (rv_Spec_ReplicatedStorageClassName rv) "")
                   then SetLabel rv ReplicatedStorageClassLabelKey (rv_Spec_ReplicatedStorageClassName rv)
                   else RemoveLabel rv ReplicatedStorageClassLabelKey in
  (c1 || c2, rv).

(** ** Helpers of the formation *)
Definition memberUpdated m m' : bool :=
  negb (bool_decide (m_Type m = m_Type m') && String.eqb (m_NodeName m) (m_NodeName m') && String.eqb (m_Zone m) (m_Zone m') &&
        bool_decide (m_Addresses m = m_Addresses m') && String.eqb (m_LVMVolumeGroupName m) (m_LVMVolumeGroupName m') &&
        String.eqb (m_LVMVolumeGroupThinPoolName m) (m_LVMVolumeGroupThinPoolName m') && Bool.eqb (m_Attached m) (m_Attached m')).
(** Every field but the name. *)
Definition withMember m m' : DatameshMember :=
  {| m_Name := m_Name m; m_Type := m_Type m'; m_NodeName := m_NodeName m'; m_Zone := m_Zone m';
     m_Addresses := m_Addresses m'; m_LVMVolumeGroupName := m_LVMVolumeGroupName m';
     m_LVMVolumeGroupThinPoolName := m_LVMVolumeGroupThinPoolName m'; m_Attached := m_Attached m' |}.
Fixpoint putMember (members : list DatameshMember) m : bool * list DatameshMember :=
  match members with
  | [] => (true, [m])
  | x :: rest =>
      if m_ID x =? m_ID m then (memberUpdated x m, withMember x m :: rest)
      else let '(c, rest) := putMember rest m in (c, x :: rest)
  end.
Definition applyDatameshMember rv m : bool * ReplicatedVolume :=
  let '(c, members) := putMember (rv_Members rv) m in (c, rv <| rv_Members := members |>).
(** The addresses of the first replica of the member's name, when it reports any. *)
Definition freshAddresses rvrs m : option (list DRBDResourceAddressStatus) :=
  rvr ← findRVRByName rvrs (m_Name m);
  match rvr_Addresses rvr with
  | [] => None
  | addrs => if bool_decide (m_Addresses m = addrs) then None else Some addrs
  end.
Definition ensureDatameshMemberAddresses rv rvrs : bool * ReplicatedVolume :=
  let members := map (λ m, match freshAddresses rvrs m with Some a => set_m_Addresses a m | None => m end) (rv_Members rv) in
  let changed := existsb (λ m, bool_decide (is_Some (freshAddresses rvrs m))) (rv_Members rv) in
  (changed, rv <| rv_Members := members |>
               <| rv_DatameshRevision := if changed then wrapS64 (rv_DatameshRevision rv + 1) else rv_DatameshRevision rv |>).
Definition setMessage (repIDs : IDSet) (message : string) (t : DatameshReplicaRequest) : bool * DatameshReplicaRequest :=
  if Contains repIDs (rq_ID t) && negb (String.eqb (rq_Message t) message)
  then (true, {| rq_Name := rq_Name t; rq_Message := message; rq_Request := rq_Request t; rq_FirstObservedAt := rq_FirstObservedAt t |})
  else (false, t).
Definition applyDatameshReplicaRequestMessages rv (repIDs : IDSet) (message : string) : bool * ReplicatedVolume :=
  let res := map (setMessage repIDs message) (rv_DatameshReplicaRequests rv) in
  (existsb fst res, rv <| rv_DatameshReplicaRequests := map snd res |>).
(** byte arithmetic *)
Definition computeTargetQuorum rv : outcome (Z * Z) :=
  cfg ← deref (rv_Configuration rv);
  let minD := wrap8 (IntendedLayout cfg).1 in
  let minQ := minD / 2 +b 1 in
  let voters := FromWhere m_ID (rv_Members rv) (λ m, IsVoter (m_Type m)) in
  let quorum := wrap8 (Len voters / 2 + 1) in
  Ok (Z.max quorum minQ, QuorumMinimumRedundancy cfg).

(** Messages of the preconfigure step. *)
Definition computeActualSchedulingFailureMessages rvrs (ids : IDSet) : list string :=
  sort_by string_leb (foldl (λ msgs rvr,
    if negb (Contains ids (rvr_ID rvr)) then msgs
    else match GetStatusCondition rvr CondScheduledType with
         | Some c =>
             if negb (String.eqb (c_Status c) ConditionFalse) || String.eqb (c_Message c) "" then msgs
             else if slices_Contains msgs (c_Message c) then msgs else msgs ++ [c_Message c]
         | None => msgs
         end) [] rvrs).
Definition computeFormationPreconfigureWaitMessage rvrs (targetReplicaCount : Z)
    (pendingScheduling schedulingFailed waitingPreconfiguration : IDSet) : string :=
  let reasons :=
    (if IsEmpty pendingScheduling then [] else ["pending scheduling [" +:+ idset.String pendingScheduling +:+ "]"]) ++
    (if IsEmpty schedulingFailed then [] else
       let msgs := computeActualSchedulingFailureMessages rvrs schedulingFailed in
       ["scheduling failed [" +:+ idset.String schedulingFailed +:+ "]" +:+
        (if bool_decide (msgs = []) then "" else " (" +:+ join " | " msgs +:+ ")")]) ++
    (if IsEmpty waitingPreconfiguration then [] else ["preconfiguring [" +:+ idset.String waitingPreconfiguration +:+ "]"]) in
  "Waiting for " +:+ itoa (Len pendingScheduling + Len schedulingFailed + Len waitingPreconfiguration) +:+ "/" +:+
  itoa targetReplicaCount +:+ " replicas: " +:+ join ", " reasons.
End replicas.
End replicas.
