(* ===== verification/RvaStatus.v ===== *)
(** * rv_controller: attachments of a volume

    Source: rv_controller/reconciler_rva.go.

    The conditions, phase and attachment fields of the volume's RVAs come from the contexts of the
    transition engine; the metadata part keeps the finalizer while a node is attached. *)

From Stdlib Require Import ZArith Lia String.
From stdpp Require Import base gmap list numbers strings option.
From S2P Require Import Prelude IdSet DrbdSize Api Object Storage Flow Client Context Layout Rollout Replicas.
Import v1alpha1 objutilv1 storage flow client datamesh layout replicas.

Module rva_status.

Definition CondAttachedType : string := "Attached".
Definition CondRVAReadyType : string := "Ready".
Definition CondReplicaReadyType : string := "ReplicaReady".
Definition ReasonWaitingForReplicatedVolume : string := "WaitingForReplicatedVolume".
Definition ReasonTerminating : string := "Terminating".
Definition ReasonNotAttached : string := "NotAttached".
Definition ReasonRVAReady : string := "Ready".
Definition ReasonReplicaNotReady : string := "ReplicaNotReady".
Definition ReasonWaitingForReplica : string := "WaitingForReplica".
Definition ReplicatedVolumeLabelKey : string := "sds-replicated-volume.deckhouse.io/replicated-volume".

Section rva.
Context {K : K8s} {Meta : MetaApi}.
Implicit Types (rv : ReplicatedVolume) (rva : ReplicatedVolumeAttachment) (rvas : list ReplicatedVolumeAttachment)
  (rvr : option ReplicatedVolumeReplica).

(** ** The conditions *)
Definition computeRVAAttachedCondition (reason message : string) : outcome Condition :=
  if String.eqb reason "" || String.eqb message "" then
    Panic ("computeRVAAttachedCondition: reason and message must be set by upstream flow (reason=" +:+ quote reason +:+
           ", message=" +:+ quote message +:+ ")")
  else Ok (verdict CondAttachedType (if String.eqb reason AttachedReason.Attached then ConditionTrue else ConditionFalse) reason message).
Definition computeRVAPhaseAndMessage (deleting : bool) (attached replicaReady : Condition) : AttachmentPhase * string :=
  let isAttached := String.eqb (c_Status attached) ConditionTrue in
  (if deleting then PhaseTerminating
   else if isAttached then PhaseAttached
   else if String.eqb (c_Reason attached) AttachedReason.Attaching then PhaseAttaching
   else if String.eqb (c_Reason attached) AttachedReason.Detaching then PhaseDetaching
   else PhasePending,
   if isAttached && negb (String.eqb (c_Status replicaReady) ConditionTrue) && negb (String.eqb (c_Message replicaReady) "")
   then c_Message replicaReady else c_Message attached).
Definition computeRVAReplicaReadyCondition rvr : Condition :=
  match rvr with
  | None => verdict CondReplicaReadyType ConditionUnknown ReasonWaitingForReplica "Replica not found on node"
  | Some rvr =>
      match GetStatusCondition rvr CondReadyType with
      | None => verdict CondReplicaReadyType ConditionUnknown ReasonWaitingForReplica "Replica Ready condition not yet available"
      | Some c => verdict CondReplicaReadyType (c_Status c) (c_Reason c) (c_Message c)
      end
  end.
Definition computeRVAReadyCondition (attached replicaReady : Condition) (deleting : bool) : Condition :=
  let ready := verdict CondRVAReadyType in
  if deleting then ready ConditionFalse ReasonTerminating "Attachment is terminating"
  else if String.eqb (c_Status replicaReady) ConditionFalse then ready ConditionFalse ReasonReplicaNotReady "See ReplicaReady condition"
  else if String.eqb (c_Status replicaReady) ConditionUnknown then ready ConditionUnknown ReasonReplicaNotReady "See ReplicaReady condition"
  else if negb (String.eqb (c_Status attached) ConditionTrue) then ready ConditionFalse ReasonNotAttached "See Attached condition"
  else ready ConditionTrue ReasonRVAReady "Attached and replica is ready".

(** ** The attachment fields *)
Definition attachmentOf rvr : option AttachmentStatus := rvr ≫= rvr_Attachment.
Definition clearRVAAttachmentFields rva : ReplicatedVolumeAttachment :=
  rva <| rva_DevicePath := "" |> <| rva_IOSuspended := None |> <| rva_InUse := None |>.
Definition applyRVAAttachmentFields rva rvr : ReplicatedVolumeAttachment :=
  match attachmentOf rvr with
  | None => clearRVAAttachmentFields rva
  | Some att => rva <| rva_DevicePath := at_DevicePath att |> <| rva_IOSuspended := Some (at_IOSuspended att) |>
                    <| rva_InUse := Some (at_InUse att) |>
  end.
Definition isRVAAttachmentFieldsInSync rva rvr : bool :=
  match attachmentOf rvr with
  | None => String.eqb (rva_DevicePath rva) "" && bool_decide (rva_IOSuspended rva = None) && bool_decide (rva_InUse rva = None)
  | Some att => String.eqb (rva_DevicePath rva) (at_DevicePath att) && bool_decide (rva_IOSuspended rva = Some (at_IOSuspended att)) &&
                bool_decide (rva_InUse rva = Some (at_InUse att))
  end.

(** ** Metadata *)
Definition isRVAMetadataInSync rva (rv : option ReplicatedVolume) : bool :=
  HasFinalizer rva RVControllerFinalizer &&
  (String.eqb (rva_Spec_ReplicatedVolumeName rva) "" ||
   HasLabelValue rva ReplicatedVolumeLabelKey (rva_Spec_ReplicatedVolumeName rva)) &&
  match rv with
  | None => true
  | Some rv =>
      if negb (String.eqb (rv_Spec_ReplicatedStorageClassName rv) "")
      then HasLabelValue rva ReplicatedStorageClassLabelKey (rv_Spec_ReplicatedStorageClassName rv)
      else negb (HasLabel rva ReplicatedStorageClassLabelKey)
  end.
Definition applyRVAMetadata rva (rv : option ReplicatedVolume) : ReplicatedVolumeAttachment :=
  let rva := (AddFinalizer rva RVControllerFinalizer).2 in
  let rva := if negb (String.eqb (rva_Spec_ReplicatedVolumeName rva) "")
             then (SetLabel rva ReplicatedVolumeLabelKey (rva_Spec_ReplicatedVolumeName rva)).2 else rva in
  match rv with
  | None => rva
  | Some rv =>
      if negb (String.eqb (rv_Spec_ReplicatedStorageClassName rv) "")
      then (SetLabel rva ReplicatedStorageClassLabelKey (rv_Spec_ReplicatedStorageClassName rv)).2
      else (RemoveLabel rva ReplicatedStorageClassLabelKey).2
  end.
Definition isNodeAttachedOrDetaching (rv : option ReplicatedVolume) (nodeName : string) : bool :=
  match rv with
  | None => false
  | Some rv =>
      existsb (λ m, String.eqb (m_NodeName m) nodeName && m_Attached m) (rv_Members rv) ||
      existsb (λ t, bool_decide (t_Type t = Detach) &&
                    match FindMemberByName rv (t_ReplicaName t) with
                    | Some m => String.eqb (m_NodeName m) nodeName
                    | None => false
                    end) (rv_DatameshTransitions rv)
  end.
Definition hasOtherNonDeletingRVAOnNode rvas (nodeName excludeName : string) : bool :=
  existsb (λ rva, negb (String.eqb (rva_Name rva) excludeName) && bool_decide (rva_DeletionTimestamp rva = None) &&
                  String.eqb (rva_NodeName rva) nodeName) rvas.

(** ** The reconcile methods *)
Context {S : Server}.

(** Whether an attachment already reports what it should. *)
Definition rvaInSync rva (attached replicaReady ready : Condition) (phase : AttachmentPhase) (message : string) rvr : bool :=
  let same c := ConditionSemanticallyEqual (GetStatusCondition rva (c_Type c)) (Some c) in
  same attached && same replicaReady && same ready && isRVAAttachmentFieldsInSync rva rvr &&
  bool_decide (rva_Phase rva = phase) && String.eqb (rva_Message rva) message.
Definition patchFailed rva (e : option error) : option ReconcileOutcome :=
  match e with Some e => Some (fail e ("patching RVA " +:+ rva_Name rva +:+ " status")) | None => None end.
Definition updateRVA (attached replicaReady : Condition) rvr rva : M (ReplicatedVolumeAttachment * option ReconcileOutcome) :=
  let deleting := bool_decide (is_Some (rva_DeletionTimestamp rva)) in
  let ready := computeRVAReadyCondition attached replicaReady deleting in
  let '(phase, phaseMessage) := computeRVAPhaseAndMessage deleting attached replicaReady in
  if rvaInSync rva attached replicaReady ready phase phaseMessage rvr then mret (rva, None)
  else
    let base := rva in
    '(_, rva) ← SetStatusCondition rva attached;
    '(_, rva) ← SetStatusCondition rva replicaReady;
    '(_, rva) ← SetStatusCondition rva ready;
    let rva := applyRVAAttachmentFields (rva <| rva_Phase := phase |> <| rva_Message := phaseMessage |>) rvr in
    '(rva, e) ← patchRVAStatus rva base;
    mret (rva, patchFailed rva e).
Definition updateContext (c : ReplicaContext) : M (list ReplicatedVolumeAttachment * option ReconcileOutcome) :=
  match rc_rvas c with
  | [] => mret ([], None)
  | rvas =>
      attached ← lift (computeRVAAttachedCondition (rc_attachmentConditionReason c) (rc_attachmentConditionMessage c));
      rangeM (updateRVA attached (computeRVAReplicaReadyCondition (rc_rvr c)) (rc_rvr c)) rvas
  end.
(** The attachments as the loop leaves them, with the outcome. *)
Fixpoint updateContexts (cs : list ReplicaContext) : M (list ReplicatedVolumeAttachment * ReconcileOutcome) :=
  match cs with
  | [] => mret ([], Continue)
  | c :: cs =>
      '(rvas, r) ← updateContext c;
      match r with
      | Some r => mret (rvas ++ concat (map rc_rvas cs), r)
      | None => '(rest, r) ← updateContexts cs; mret (rvas ++ rest, r)
      end
  end.
Definition reconcileRVAConditionsFromDatameshReplicaContext (cs : list ReplicaContext) :
    M (list ReplicatedVolumeAttachment * ReconcileOutcome) := ended <$> updateContexts cs.

Definition zeroCondition : Condition := verdict "" "" "" "".
Definition waitRVA (message : string) rva : M (ReplicatedVolumeAttachment * option ReconcileOutcome) :=
  let deleting := bool_decide (is_Some (rva_DeletionTimestamp rva)) in
  let '(phase, phaseMessage) := computeRVAPhaseAndMessage deleting
    (verdict "" ConditionFalse ReasonWaitingForReplicatedVolume message) zeroCondition in
  let attachedInSync := chk_Eval (MessageEqual message (ReasonEqual ReasonWaitingForReplicatedVolume
                          (IsFalse (StatusCondition rva CondAttachedType)))) in
  let readyInSync := chk_Eval (MessageEqual message (ReasonEqual ReasonNotAttached (IsFalse (StatusCondition rva CondRVAReadyType)))) in
  let replicaReadyAbsent := chk_Eval (Absent (StatusCondition rva CondReplicaReadyType)) in
  if attachedInSync && readyInSync && replicaReadyAbsent && isRVAAttachmentFieldsInSync rva None &&
     (bool_decide (rva_Phase rva = phase) && String.eqb (rva_Message rva) phaseMessage)
  then mret (rva, None)
  else
    let base := rva in
    '(_, rva) ← SetStatusCondition rva (verdict CondAttachedType ConditionFalse ReasonWaitingForReplicatedVolume message);
    '(_, rva) ← SetStatusCondition rva (verdict CondRVAReadyType ConditionFalse ReasonNotAttached message);
    let rva := (RemoveStatusCondition rva CondReplicaReadyType).2 in
    let rva := clearRVAAttachmentFields rva <| rva_Phase := phase |> <| rva_Message := phaseMessage |> in
    '(rva, e) ← patchRVAStatus rva base;
    mret (rva, patchFailed rva e).
Definition resultOf {A} (r : A * option ReconcileOutcome) : A * ReconcileOutcome := (r.1, default Continue r.2).
Definition reconcileRVAWaiting rvas (message : string) : M (list ReplicatedVolumeAttachment * ReconcileOutcome) :=
  (λ r, ended (resultOf r)) <$> rangeM (waitRVA message) rvas.

(** The loop reads the other attachments as the iterations before left them. *)
Definition keepRVA (rv : option ReplicatedVolume) (others : list ReplicatedVolumeAttachment) rva :
    M (ReplicatedVolumeAttachment * option ReconcileOutcome) :=
  match rva_DeletionTimestamp rva with
  | None =>
      if isRVAMetadataInSync rva rv then mret (rva, None)
      else
        '(rva, e) ← patchRVA (applyRVAMetadata rva rv) rva;
        mret (rva, (λ e, fail e ("patching RVA " +:+ rva_Name rva +:+ " metadata")) <$> e)
  | Some _ =>
      if negb (HasFinalizer rva RVControllerFinalizer) then mret (rva, None)
      else if negb (hasOtherNonDeletingRVAOnNode others (rva_NodeName rva) (rva_Name rva)) &&
              isNodeAttachedOrDetaching rv (rva_NodeName rva) then mret (rva, None)
      else
        '(rva, e) ← patchRVA (RemoveFinalizer rva RVControllerFinalizer).2 rva;
        mret (rva, (λ e, fail e ("removing finalizer from RVA " +:+ rva_Name rva)) <$> e)
  end.
Fixpoint keepRVAs (rv : option ReplicatedVolume) (done rest : list ReplicatedVolumeAttachment) :
    M (list ReplicatedVolumeAttachment * ReconcileOutcome) :=
  match rest with
  | [] => mret (done, Continue)
  | rva :: rest =>
      '(rva', r) ← keepRVA rv (done ++ rva :: rest) rva;
      match r with
      | Some r => mret (done ++ rva' :: rest, r)
      | None => keepRVAs rv (done ++ [rva']) rest
      end
  end.
Definition reconcileRVAMetadata (rv : option ReplicatedVolume) rvas : M (list ReplicatedVolumeAttachment * ReconcileOutcome) :=
  ended <$> keepRVAs rv [] rvas.

Definition reconcileOrphanedRVAs (rvName : string) : M ReconcileOutcome :=
  list ← getRVAsSorted rvName;
  match list with
  | inl e => mret (OnEnd (fail e "listing RVAs for deleted RV"))
  | inr [] => mret (OnEnd Done)
  | inr rvas =>
      '(rvas, r1) ← reconcileRVAWaiting rvas "ReplicatedVolume not found; waiting for it to appear";
      '(_, r2) ← reconcileRVAMetadata None rvas;
      mret (OnEnd (MergeReconciles [r1; r2]))
  end.
End rva.
End rva_status.
