(* ===== verification/RvrBase.v ===== *)
(** * rvr_controller: metadata of a replica, storage eligibility, single-call helpers

    Source: rvr_controller/reconciler.go.  A pointer that may be nil is an option; objects changed in
    place are returned. *)

From Stdlib Require Import ZArith Lia String Ascii.
From stdpp Require Import base gmap list numbers strings option.
From S2P Require Import Prelude IdSet DrbdSize Api Object Storage Flow Client.
From S2P Require Import Pipeline Context Layout Rollout Replicas RvaStatus.
Import idset drbd_size v1alpha1 objutilv1 storage drbd flow client pipeline layout replicas rva_status.

Module rvr_base.
Section base.
Context {K : K8s} {Meta : MetaApi}.
Implicit Types (rvr : ReplicatedVolumeReplica) (llv : LVMLogicalVolume) (llvs : list LVMLogicalVolume) (d : DRBDResource).

Definition RVRControllerFinalizer : string := "sds-replicated-volume.deckhouse.io/rvr-controller".
Definition LVMVolumeGroupLabelKey : string := "sds-replicated-volume.deckhouse.io/lvm-volume-group".
Definition ReasonNotApplicable : string := "NotApplicable".
Definition ReasonPendingScheduling : string := "PendingScheduling".

(** ** Labels every child of a replica carries *)
Definition classLabelInSync {T} `{MetaObject T} (o : T) (rv : option ReplicatedVolume) : bool :=
  match rv with
  | None => true
  | Some rv =>
      if negb (String.eqb (rv_Spec_ReplicatedStorageClassName rv) "")
      then HasLabelValue o ReplicatedStorageClassLabelKey (rv_Spec_ReplicatedStorageClassName rv)
      else negb (HasLabel o ReplicatedStorageClassLabelKey)
  end.
Definition valueInSync {T} `{MetaObject T} (o : T) (key value : string) : bool :=
  String.eqb value "" || HasLabelValue o key value.
Definition withClassLabel {T} `{MetaObject T} (o : T) (rv : option ReplicatedVolume) : bool * T :=
  match rv with
  | None => (false, o)
  | Some rv =>
      if negb (String.eqb (rv_Spec_ReplicatedStorageClassName rv) "")
      then SetLabel o ReplicatedStorageClassLabelKey (rv_Spec_ReplicatedStorageClassName rv)
      else RemoveLabel o ReplicatedStorageClassLabelKey
  end.
Definition withValue {T} `{MetaObject T} (o : T) (key value : string) : bool * T :=
  if negb (String.eqb value "") then SetLabel o key value else (false, o).

(** ** Metadata of the replica *)
Definition isRVRMetadataInSync rvr (rv : option ReplicatedVolume) (targetFinalizerPresent : bool) (targetLVGName : string) : bool :=
  Bool.eqb targetFinalizerPresent (HasFinalizer rvr RVRControllerFinalizer) &&
  valueInSync rvr ReplicatedVolumeLabelKey (rvr_Spec_ReplicatedVolumeName rvr) && classLabelInSync rvr rv &&
  valueInSync rvr LVMVolumeGroupLabelKey targetLVGName.
Definition applyRVRMetadata rvr (rv : option ReplicatedVolume) (targetFinalizerPresent : bool) (targetLVGName : string) :
    bool * ReplicatedVolumeReplica :=
  let '(c1, rvr) := if targetFinalizerPresent then AddFinalizer rvr RVRControllerFinalizer
                    else RemoveFinalizer rvr RVRControllerFinalizer in
  let '(c2, rvr) := withValue rvr ReplicatedVolumeLabelKey (rvr_Spec_ReplicatedVolumeName rvr) in
  let '(c3, rvr) := withClassLabel rvr rv in
  let '(c4, rvr) := withValue rvr LVMVolumeGroupLabelKey targetLVGName in
  (c4 || (c3 || (c2 || c1)), rvr).
Definition rvrShouldNotExist rvr : bool :=
  match rvr_DeletionTimestamp rvr with
  | None => false
  | Some _ => negb (HasFinalizersOtherThan rvr [RVRControllerFinalizer])
  end.
Definition findLLVByName llvs (name : string) : option LVMLogicalVolume := List.find (λ l, String.eqb (llv_Name l) name) llvs.
(** The volume group of the volume DRBD refers to, or of the first one. *)
Definition actualLVGName llvs (drbdr : option DRBDResource) : string :=
  let referenced := match drbdr with
    | Some d => if negb (String.eqb (ds_LVMLogicalVolumeName (dr_Spec d)) "")
                then match findLLVByName llvs (ds_LVMLogicalVolumeName (dr_Spec d)) with
                     | Some l => llv_LVMVolumeGroupName l | None => "" end
                else ""
    | None => ""
    end in
  if String.eqb referenced "" then match llvs with l :: _ => llv_LVMVolumeGroupName l | [] => "" end else referenced.
Definition targetFinalizer rvr llvs (drbdr : option DRBDResource) : bool :=
  let target := negb (rvrShouldNotExist rvr) || (0 <? Z.of_nat (length llvs)) || bool_decide (is_Some drbdr) in
  if target && bool_decide (is_Some (rvr_DeletionTimestamp rvr)) && negb (HasFinalizer rvr RVRControllerFinalizer)
  then false else target.

(** ** Eligibility *)
Record rspEligibilityView := { ev_EligibleNode : option EligibleNode; ev_Type : ReplicatedStoragePoolType }.
Inductive storageEligibilityCode :=
| storageEligibilityOK | storageEligibilityRSPNotAvailable | storageEligibilityNodeNotEligible
| storageEligibilityTypeMismatch | storageEligibilityLVGNotEligible | storageEligibilityThinPoolNotEligible.
#[export] Instance storageEligibilityCode_eq_dec : EqDecision storageEligibilityCode.
Proof. solve_decision. Defined.
Definition typeMismatch (ty : ReplicatedStoragePoolType) (thinPool : string) : option string :=
  match ty with
  | PoolLVM => if negb (String.eqb thinPool "")
               then Some ("ThinPool " +:+ quote thinPool +:+ " specified but RSP type is LVM (thick); waiting for correct storage assignment")
               else None
  | PoolLVMThin => if String.eqb thinPool ""
                   then Some "ThinPool not specified but RSP type is LVMThin; waiting for correct storage assignment"
                   else None
  | PoolOther _ => None
  end.
Definition isStorageEligible (view : option rspEligibilityView) (lvgName thinPool : string) : storageEligibilityCode * string :=
  match view with
  | None => (storageEligibilityRSPNotAvailable, "ReplicatedStoragePool not found; waiting for it to be present")
  | Some v =>
      match ev_EligibleNode v with
      | None => (storageEligibilityNodeNotEligible, "Node is not eligible in RSP")
      | Some en =>
          match typeMismatch (ev_Type v) thinPool with
          | Some msg => (storageEligibilityTypeMismatch, msg)
          | None =>
              match List.find (λ g, String.eqb (lvg_Name g) lvgName) (en_LVMVolumeGroups en) with
              | Some g =>
                  if bool_decide (ev_Type v = PoolLVM) || String.eqb (lvg_ThinPoolName g) thinPool
                  then (storageEligibilityOK, "")
                  else (storageEligibilityThinPoolNotEligible,
                        "LVG " +:+ quote lvgName +:+ " found but ThinPool " +:+ quote thinPool +:+ " is not eligible on node")
              | None =>
                  (storageEligibilityLVGNotEligible,
                   if bool_decide (ev_Type v = PoolLVMThin)
                   then "LVG " +:+ quote lvgName +:+ " with ThinPool " +:+ quote thinPool +:+ " is not eligible on node"
                   else "LVG " +:+ quote lvgName +:+ " is not eligible on node")
              end
          end
      end
  end.

Definition causePart (c : string * string) : option string :=
  if negb (String.eqb c.1 "") && negb (String.eqb c.2 "") then Some (c.1 +:+ ": " +:+ c.2)
  else if negb (String.eqb c.2 "") then Some c.2
  else if negb (String.eqb c.1 "") then Some c.1
  else None.
Definition computeAPIValidationErrorCauses (e : error) (causes : list (string * string)) : string :=
  match omap causePart causes with [] => errorString e | parts => join "; " parts end.

Context {S : Server}.

(** ** I/O helpers *)
Definition getRVR (name : string) : M (error + option ReplicatedVolumeReplica) := orNil <$> do (GetRVR name).
Definition patchRVRStatus rvr base : M (ReplicatedVolumeReplica * option error) := stored rvr <$> do (PatchRVRStatus base rvr).
Definition getDRBDR (name : string) : M (error + option DRBDResource) := orNil <$> do (GetDRBDR name).
Definition createDRBDR (d : DRBDResource) : M (reply DRBDResource) := do (CreateDRBDR d).
Definition patchDRBDR (d base : DRBDResource) : M (DRBDResource * option error) := stored d <$> do (PatchDRBDR base d).
Definition deleteDRBDR (d : DRBDResource) : M (DRBDResource * option error) :=
  match dr_DeletionTimestamp d with
  | Some _ => mret (d, None)
  | None =>
      r ← do (DeleteDRBDR d);
      match orNil r with
      | inl e => mret (d, Some e)
      | inr _ => now ← do Now; mret (d <| dr_DeletionTimestamp := Some now |>, None)
      end
  end.
Definition getRSPEligibilityView (rspName nodeName : string) : M (error + option rspEligibilityView) :=
  r ← do (GetRSP rspName);
  mret (match orNil r with
        | inl e => inl e
        | inr None => inr None
        | inr (Some rsp) => inr (Some {| ev_Type := rsp_Spec_Type rsp;
            ev_EligibleNode := List.find (λ en, String.eqb (en_NodeName en) nodeName) (rsp_EligibleNodes rsp) |})
        end).
Definition getRVOf (rvr : option ReplicatedVolumeReplica) : M (error + option ReplicatedVolume) :=
  match rvr with
  | None => mret (inr None)
  | Some r => if String.eqb (rvr_Spec_ReplicatedVolumeName r) "" then mret (inr None)
              else orNil <$> do (GetRV (rvr_Spec_ReplicatedVolumeName r))
  end.
Definition getLLVs (rvrName : string) (drbdr : option DRBDResource) : M (error + list LVMLogicalVolume) :=
  r ← do (ListLLVs rvrName);
  match answer r with
  | inl e => mret (inl e)
  | inr llvs =>
      match (d ← drbdr; if String.eqb (ds_LVMLogicalVolumeName (dr_Spec d)) "" then None
                         else Some (ds_LVMLogicalVolumeName (dr_Spec d))) with
      | None => mret (inr llvs)
      | Some llvName =>
          if existsb (λ l, String.eqb (llv_Name l) llvName) llvs then mret (inr llvs)
          else
            g ← do (GetLLV llvName);
            mret (match orNil g with inl e => inl e | inr (Some l) => inr (llvs ++ [l]) | inr None => inr llvs end)
      end
  end.
Definition createLLV llv : M (validated LVMLogicalVolume) := do (CreateLLV llv).
Definition patchLLV llv base : M (validated LVMLogicalVolume) := do (PatchLLV base llv).
(** The callers that do not look for validation errors. *)
Definition storedLLV llv (r : validated LVMLogicalVolume) : LVMLogicalVolume * option error :=
  match r with Valid r => stored llv r | Invalid e _ => (llv, Some e) end.
Definition deleteLLV llv : M (LVMLogicalVolume * option error) :=
  match llv_DeletionTimestamp llv with
  | Some _ => mret (llv, None)
  | None =>
      r ← do (DeleteLLV llv);
      match orNil r with
      | inl e => mret (llv, Some e)
      | inr _ => now ← do Now; mret (llv <| llv_DeletionTimestamp := Some now |>, None)
      end
  end.
Definition getNodeReady (nodeName : string) : M (error + bool) := answer <$> do (GetNodeReady nodeName).
Definition getAgentReady (nodeName : string) : M (error + bool) :=
  r ← do (ListAgentPods nodeName);
  mret (match answer r with inl e => inl e | inr pods => inr (existsb id pods) end).
(** objutilv1.SetControllerRef on the references of an object. *)
Definition SetControllerRef (refs : list OwnerReference) (owner : string) : M (error + (bool * list OwnerReference)) :=
  if IsControlledBy refs owner then mret (inr (false, refs))
  else
    r ← do (SetControllerReference refs owner);
    mret (match r with inl e => inl (Wrapped "setting controller reference" e) | inr refs => inr (true, refs) end).
(** reconcileMetadata *)
Definition reconcileMetadata rvr (rv : option ReplicatedVolume) llvs (drbdr : option DRBDResource) :
    M (ReplicatedVolumeReplica * ReconcileOutcome) :=
  ended <$>
  let target := targetFinalizer rvr llvs drbdr in
  let lvg := actualLVGName llvs drbdr in
  if isRVRMetadataInSync rvr rv target lvg then mret (rvr, Continue)
  else
    let base := rvr in
    let '(_, rvr) := applyRVRMetadata rvr rv target lvg in
    r ← patchRVR rvr base;
    let '(rvr, e) := stored rvr r in
    mret (rvr, match e with
               | Some e => failed e
               | None => if negb target then Done else Continue
               end).
End base.
End rvr_base.
