(* ===== verification/BackingVolume.v ===== *)
(** * rvr_controller: the backing volume of a replica

    Source: rvr_controller/reconciler_backing_volume.go.  A pointer into the list of logical volumes is
    the list split at that element, so that what is written through it is written to the list. *)

From Stdlib Require Import ZArith Lia String.
From stdpp Require Import base gmap list numbers strings option.
From S2P Require Import Prelude IdSet DrbdSize Api Object Storage Flow Client.
From S2P Require Import Pipeline Context Layout Rollout Replicas RvaStatus RvrBase.
Import idset drbd_size v1alpha1 objutilv1 storage drbd flow client pipeline layout replicas rva_status rvr_base.

Module backing.
Section backing.
Context {K : K8s} {Meta : MetaApi}.
Implicit Types (rvr : ReplicatedVolumeReplica) (llv : LVMLogicalVolume) (llvs : list LVMLogicalVolume) (d : DRBDResource).

Definition CondBackingVolumeReadyType : string := "BackingVolumeReady".
Definition ReasonNotReady : string := "NotReady".
Definition ReasonProvisioning : string := "Provisioning".
Definition ReasonProvisioningFailed : string := "ProvisioningFailed".
Definition ReasonReady : string := "Ready".
Definition ReasonReprovisioning : string := "Reprovisioning".
Definition ReasonResizeFailed : string := "ResizeFailed".
Definition ReasonResizing : string := "Resizing".

Record backingVolume := {
  bv_LLVName : string; b_LVMVolumeGroupName : string; b_ThinPoolName : string; b_Size : Quantity;
}.
Definition LLVNameOrEmpty (bv : option backingVolume) : string := match bv with Some bv => bv_LLVName bv | None => "" end.
Definition bv_Equal (a b : option backingVolume) : bool :=
  match a, b with
  | None, None => true
  | Some a, Some b =>
      String.eqb (bv_LLVName a) (bv_LLVName b) && String.eqb (b_LVMVolumeGroupName a) (b_LVMVolumeGroupName b) &&
      String.eqb (b_ThinPoolName a) (b_ThinPoolName b) && (q_Cmp (b_Size a) (b_Size b) =? 0)
  | _, _ => false
  end.
Definition computeActualBackingVolume (drbdr : option DRBDResource) llvs : option backingVolume :=
  d ← drbdr;
  let llvName := ds_LVMLogicalVolumeName (dr_Spec d) in
  if String.eqb llvName "" then None
  else
    llv ← findLLVByName llvs llvName;
    Some {| bv_LLVName := llvName; b_LVMVolumeGroupName := llv_LVMVolumeGroupName llv;
            b_ThinPoolName := default "" (llv_Thin llv);
            b_Size := match llv_Status llv with Some st => ls_ActualSize st | None => NewQuantity 0 end |}.

(** Where the volume belongs, or why there is none: a reason and a message. *)
Definition intendedStorage rvr (rv : ReplicatedVolume) (view : option rspEligibilityView) : (string * string) + (string * string) :=
  match FindMemberByName rv (rvr_Name rvr) with
  | Some m =>
      if negb (NeedsBackingVolume (m_Type m)) then
        if NeedsBackingVolume (MemberTypeOfReplicaType (rvr_Spec_Type rvr))
        then inr (rvr_Spec_LVMVolumeGroupName rvr, rvr_Spec_LVMVolumeGroupThinPoolName rvr)
        else inl (ReasonNotApplicable, "Backing volume is not applicable for diskless replica type")
      else if String.eqb (m_LVMVolumeGroupName m) "" then inl (ReasonPendingScheduling, "Waiting for storage assignment")
      else inr (m_LVMVolumeGroupName m, m_LVMVolumeGroupThinPoolName m)
  | None =>
      if bool_decide (is_Some (rvr_DeletionTimestamp rvr))
      then inl (ReasonNotApplicable, "Backing volume is not applicable for deleting replica")
      else if negb (bool_decide (rvr_Spec_Type rvr = ReplicaTypeDiskful))
      then inl (ReasonNotApplicable, "Backing volume is not applicable for diskless replica type")
      else if String.eqb (rvr_Spec_NodeName rvr) "" then inl (ReasonPendingScheduling, "Waiting for node assignment")
      else if String.eqb (rvr_Spec_LVMVolumeGroupName rvr) "" then inl (ReasonPendingScheduling, "Waiting for storage assignment")
      else
        let '(code, msg) := isStorageEligible view (rvr_Spec_LVMVolumeGroupName rvr) (rvr_Spec_LVMVolumeGroupThinPoolName rvr) in
        match code with
        | storageEligibilityOK => inr (rvr_Spec_LVMVolumeGroupName rvr, rvr_Spec_LVMVolumeGroupThinPoolName rvr)
        | storageEligibilityRSPNotAvailable => inl (ReasonWaitingForReplicatedVolume, msg)
        | _ => inl (ReasonPendingScheduling, msg)
        end
  end.
Definition intendedSize (rv : ReplicatedVolume) : outcome Quantity :=
  let alignedSpecSize := AlignTo4Ki (rv_Spec_Size rv) in
  let size := AlignTo4Ki (rv_Size rv) in
  LowerVolumeSize (if 0 <? q_Cmp alignedSpecSize size then alignedSpecSize else size).
Definition intendedName rvr (actual : option backingVolume) (lvg thin : string) : string :=
  match actual with
  | Some a => if String.eqb (b_LVMVolumeGroupName a) lvg && String.eqb (b_ThinPoolName a) thin then bv_LLVName a
              else ComputeLLVName (rvr_Name rvr) lvg thin
  | None => ComputeLLVName (rvr_Name rvr) lvg thin
  end.
Definition computeIntendedBackingVolume rvr (rv : ReplicatedVolume) (actual : option backingVolume)
    (view : option rspEligibilityView) : outcome ((string * string) + backingVolume) :=
  match intendedStorage rvr rv view with
  | inl why => Ok (inl why)
  | inr (lvg, thin) =>
      size ← intendedSize rv;
      Ok (inr {| bv_LLVName := intendedName rvr actual lvg thin; b_LVMVolumeGroupName := lvg; b_ThinPoolName := thin; b_Size := size |})
  end.

Definition isLLVReady llv : bool :=
  match llv_Status llv with Some st => String.eqb (ls_Phase st) "Created" | None => false end.
Definition isLLVMetadataInSync rvr (rv : option ReplicatedVolume) llv : bool :=
  HasFinalizer llv RVRControllerFinalizer && IsControlledBy (llv_OwnerReferences llv) (rvr_UID rvr) &&
  valueInSync llv ReplicatedVolumeLabelKey (rvr_Spec_ReplicatedVolumeName rvr) && classLabelInSync llv rv.


(** ** Conditions *)
Definition backingVolumeReady (status reason message : string) : Condition := verdict CondBackingVolumeReadyType status reason message.
Definition applyBackingVolumeReadyCondAbsent rvr : bool * ReplicatedVolumeReplica := RemoveStatusCondition rvr CondBackingVolumeReadyType.

(** ** The methods *)
Context {S : Server}.

(** What a logical volume carries once it belongs to a replica; an error of SetControllerRef leaves the
    finalizer and the labels in place. *)
Definition applyLLVMetadata rvr (rv : option ReplicatedVolume) llv : M (bool * LVMLogicalVolume * option error) :=
  let '(c1, llv) := AddFinalizer llv RVRControllerFinalizer in
  let '(c2, llv) := withValue llv ReplicatedVolumeLabelKey (rvr_Spec_ReplicatedVolumeName rvr) in
  let '(c3, llv) := withClassLabel llv rv in
  r ← SetControllerRef (llv_OwnerReferences llv) (rvr_UID rvr);
  mret (match r with
        | inl e => (c1 || c2 || c3, llv, Some (Wrapped "setting controller reference" e))
        | inr (c4, refs) => (c1 || c2 || c3 || c4, llv <| llv_OwnerReferences := refs |>, None)
        end).
Definition newLLV rvr (rv : option ReplicatedVolume) (bv : backingVolume) : M (error + LVMLogicalVolume) :=
  let labels : gmap string string := ∅ in
  let labels := if negb (String.eqb (rvr_Spec_ReplicatedVolumeName rvr) "")
                then <[ReplicatedVolumeLabelKey := rvr_Spec_ReplicatedVolumeName rvr]> labels else labels in
  let labels := match rv with
                | Some rv => if negb (String.eqb (rv_Spec_ReplicatedStorageClassName rv) "")
                             then <[ReplicatedStorageClassLabelKey := rv_Spec_ReplicatedStorageClassName rv]> labels else labels
                | None => labels
                end in
  let thick := String.eqb (b_ThinPoolName bv) "" in
  r ← SetControllerRef [] (rvr_UID rvr);
  mret (match r with
        | inl e => inl (Wrapped "setting controller reference" e)
        | inr (_, refs) =>
            inr {| llv_Name := bv_LLVName bv; llv_DeletionTimestamp := None; llv_Finalizers := [RVRControllerFinalizer];
                   llv_Labels := Some labels; llv_OwnerReferences := refs; llv_ActualLVNameOnTheNode := bv_LLVName bv;
                   llv_Type := if thick then "Thick" else "Thin"; llv_LVMVolumeGroupName := b_LVMVolumeGroupName bv;
                   llv_Size := q_String (b_Size bv); llv_Thin := if thick then None else Some (b_ThinPoolName bv);
                   llv_Status := None |}
        end).

(** Remove the controller's finalizer, if it is there. *)
Definition releaseLLV llv : M (LVMLogicalVolume * option error) :=
  if HasFinalizer llv RVRControllerFinalizer then
    let base := llv in
    let '(_, llv) := RemoveFinalizer llv RVRControllerFinalizer in
    r ← patchLLV llv base; mret (storedLLV llv r)
  else mret (llv, None).
Definition failure (e : option error) (msg : string) : option ReconcileOutcome := (λ e, fail e msg) <$> e.
(** Step 0: no replica. *)
Definition releaseDeleting llv : M (LVMLogicalVolume * option ReconcileOutcome) :=
  match llv_DeletionTimestamp llv with
  | None => mret (llv, None)
  | Some _ =>
      '(llv', e) ← releaseLLV llv;
      mret (llv', failure e ("removing finalizer from deleting LLV " +:+ llv_Name llv'))
  end.

(** The volumes that are not to be kept, deleted from the last to the first.  A volume whose deletion was
    requested leaves the list; an error stops the loop. *)
Definition dropLLV llv : M (LVMLogicalVolume * option ReconcileOutcome) :=
  '(llv, e) ← releaseLLV llv;
  match e with
  | Some e => mret (llv, Some (fail e ("patching LLV " +:+ llv_Name llv)))
  | None => '(llv, e) ← deleteLLV llv; mret (llv, failure e ("deleting LLV " +:+ llv_Name llv))
  end.
Fixpoint dropFromLast (keep : list string) llvs : M (list LVMLogicalVolume * option ReconcileOutcome) :=
  match llvs with
  | [] => mret ([], None)
  | llv :: rest =>
      '(rest, r) ← dropFromLast keep rest;
      match r with
      | Some r => mret (llv :: rest, Some r)
      | None =>
          if slices_Contains keep (llv_Name llv) then mret (llv :: rest, None)
          else '(llv, r) ← dropLLV llv;
               mret (match r with Some r => (llv :: rest, Some r) | None => (rest, None) end)
      end
  end.
Definition deletingNames (keep : list string) llvs : list string :=
  List.filter (λ n, negb (slices_Contains keep n)) (map llv_Name llvs).
Definition reconcileLLVsDeletion llvs (keep : list string) : M (list LVMLogicalVolume * list string * ReconcileOutcome) :=
  '(llvs', r) ← dropFromLast keep llvs;
  mret (llvs', deletingNames keep llvs, OnEnd (default Continue r)).

(** What reconcileBackingVolume leaves and returns: the replica and the list it changed, the target and
    the intended backing volume. *)
Record bvResult := {
  br_rvr : option ReplicatedVolumeReplica; br_llvs : list LVMLogicalVolume;
  br_target : option backingVolume; br_intended : option backingVolume;
}.
Definition bvReturn : Type := bvResult * ReconcileOutcome.
Definition leave rvr llvs (target intended : option backingVolume) (ro : ReconcileOutcome) : bvReturn :=
  ({| br_rvr := Some rvr; br_llvs := llvs; br_target := target; br_intended := intended |}, ro).
(** Set the condition and go on. *)
Definition report rvr llvs (target intended : option backingVolume) (ro : ReconcileOutcome) (status reason message : string) :
    M bvReturn :=
  '(changed, rvr) ← SetStatusCondition rvr (backingVolumeReady status reason message);
  mret (leave rvr llvs target intended (ReportChangedIf ro changed)).
Definition fiveMinutes : Z := 5 * 60 * 10 ^ 9.

(** Steps 1 and 6: no backing volume belongs to the replica. *)
Definition withoutBackingVolume rvr llvs (reason message : string) : M bvReturn :=
  let status := if String.eqb reason ReasonWaitingForReplicatedVolume then ConditionUnknown else ConditionFalse in
  match llvs with
  | _ :: _ =>
      '(llvs, names, ro) ← reconcileLLVsDeletion llvs [];
      if ShouldReturn ro then mret (leave rvr llvs None None ro)
      else report rvr llvs None None Continue status reason (message +:+ "; deleting backing volumes: " +:+ join ", " names)
  | [] =>
      if String.eqb reason ReasonNotApplicable
      then let '(changed, rvr) := applyBackingVolumeReadyCondAbsent rvr in
           mret (leave rvr llvs None None (ReportChangedIf Continue changed))
      else report rvr llvs None None Continue status reason message
  end.
(** Step 8: the previous incarnation of the volume still goes away. *)
Definition waitForOld rvr (before : list LVMLogicalVolume) llv (after : list LVMLogicalVolume) (actual : option backingVolume)
    (intended : backingVolume) : M bvReturn :=
  '(llv, e) ← releaseLLV llv;
  let llvs := before ++ llv :: after in
  match e with
  | Some e => mret (leave rvr llvs None None (fail e ("removing finalizer from deleting LLV " +:+ llv_Name llv)))
  | None => report rvr llvs actual (Some intended) Continue ConditionFalse ReasonProvisioning
              ("Waiting for old backing volume " +:+ bv_LLVName intended +:+ " to be fully deleted")
  end.
(** Step 9 *)
Definition provision rvr (rv : ReplicatedVolume) llvs (actual : option backingVolume) (intended : backingVolume) : M bvReturn :=
  let name := bv_LLVName intended in
  llv ← newLLV rvr (Some rv) intended;
  match llv with
  | inl e => mret (leave rvr llvs None None (fail e ("constructing LLV " +:+ name)))
  | inr llv =>
      r ← createLLV llv;
      match r with
      | Valid (AlreadyExists _) => mret (leave rvr llvs None None DoneAndRequeue)
      | Invalid e causes =>
          ro ← lift (ContinueAndRequeueAfter fiveMinutes);
          report rvr llvs actual (Some intended) ro ConditionFalse ReasonProvisioningFailed
            ("Failed to create backing volume " +:+ name +:+ ": " +:+ computeAPIValidationErrorCauses e causes)
      | Valid (NotFound e) | Valid (Refused e) => mret (leave rvr llvs None None (fail e ("creating LLV " +:+ name)))
      | Valid (Replied llv) =>
          let '(reason, message) := match actual with
            | Some a => (ReasonReprovisioning, "Creating new backing volume " +:+ name +:+ " to replace " +:+ bv_LLVName a)
            | None => (ReasonProvisioning, "Creating backing volume " +:+ name)
            end in
          report rvr (llvs ++ [llv]) actual (Some intended) Continue ConditionFalse reason message
      end
  end.
(** Step 10 *)
Definition ensureLLVMetadata rvr (rv : ReplicatedVolume) llv : M (LVMLogicalVolume * option ReconcileOutcome) :=
  if isLLVMetadataInSync rvr (Some rv) llv then mret (llv, None)
  else
    let base := llv in
    '(_, llv, e) ← applyLLVMetadata rvr (Some rv) llv;
    match e with
    | Some e => mret (llv, Some (fail e ("applying LLV " +:+ llv_Name llv +:+ " metadata")))
    | None =>
        r ← patchLLV llv base;
        let '(llv, e) := storedLLV llv r in
        mret (llv, failure e ("patching LLV " +:+ llv_Name llv +:+ " metadata"))
    end.
(** Step 11 *)
Definition notReady (actual : option backingVolume) (name : string) : string * string :=
  match actual with
  | Some a => if String.eqb (bv_LLVName a) name
              then (ReasonNotReady, "Waiting for backing volume " +:+ name +:+ " to become ready")
              else (ReasonReprovisioning, "Waiting for new backing volume " +:+ name +:+ " to become ready (replacing " +:+ bv_LLVName a +:+ ")")
  | None => (ReasonProvisioning, "Waiting for backing volume " +:+ name +:+ " to become ready")
  end.
(** Step 12 *)
Definition resize rvr (before : list LVMLogicalVolume) llv (after : list LVMLogicalVolume) (actualSize : Quantity)
    (actual : option backingVolume) (intended : backingVolume) : M bvReturn :=
  let name := bv_LLVName intended in
  let target := q_String (b_Size intended) in
  let resizing llv := report rvr (before ++ llv :: after) actual (Some intended) Continue ConditionFalse ReasonResizing
        ("Resizing backing volume " +:+ name +:+ " from " +:+ q_String actualSize +:+ " to " +:+ target) in
  if String.eqb (llv_Size llv) target then resizing llv
  else
    let base := llv in
    let llv := llv <| llv_Size := target |> in
    r ← patchLLV llv base;
    match r with
    | Invalid e causes =>
        ro ← lift (ContinueAndRequeueAfter fiveMinutes);
        report rvr (before ++ llv :: after) actual (Some intended) ro ConditionFalse ReasonResizeFailed
          ("Failed to resize backing volume " +:+ name +:+ ": " +:+ computeAPIValidationErrorCauses e causes)
    | Valid r =>
        let '(llv, e) := stored llv r in
        match e with
        | Some e => mret (leave rvr (before ++ llv :: after) None None (fail e ("patching LLV " +:+ llv_Name llv +:+ " size")))
        | None => resizing llv
        end
    end.
(** Step 13 *)
Definition fullyReady rvr llvs (intended : backingVolume) : M bvReturn :=
  let ready := "Backing volume " +:+ bv_LLVName intended +:+ " is ready" in
  '(llvs, names, ro) ← reconcileLLVsDeletion llvs [bv_LLVName intended];
  if ShouldReturn ro then mret (leave rvr llvs None None ro)
  else
    let message := match names with [] => ready | _ => ready +:+ "; deleting obsolete: " +:+ join ", " names end in
    report rvr llvs (Some intended) (Some intended) Continue ConditionTrue ReasonReady message.

(** Steps 10 to 13: the volume exists and stays. *)
Definition settle rvr (rv : ReplicatedVolume) (before : list LVMLogicalVolume) llv (after : list LVMLogicalVolume)
    (actual : option backingVolume) (intended : backingVolume) : M bvReturn :=
  '(llv, r) ← ensureLLVMetadata rvr rv llv;
  let llvs := before ++ llv :: after in
  match r with
  | Some r => mret (leave rvr llvs None None r)
  | None =>
      match (if isLLVReady llv then llv_Status llv else None) with
      | None =>
          let '(reason, message) := notReady actual (bv_LLVName intended) in
          report rvr llvs actual (Some intended) Continue ConditionFalse reason message
      | Some st =>
          if q_Cmp (ls_ActualSize st) (b_Size intended) <? 0
          then resize rvr before llv after (ls_ActualSize st) actual intended
          else fullyReady rvr llvs intended
      end
  end.
(** The first volume of that name, in its place. *)
Fixpoint splitLLV (name : string) llvs : option (list LVMLogicalVolume * LVMLogicalVolume * list LVMLogicalVolume) :=
  match llvs with
  | [] => None
  | llv :: rest =>
      if String.eqb (llv_Name llv) name then Some ([], llv, rest)
      else '(before, l, after) ← splitLLV name rest; Some (llv :: before, l, after)
  end.
Definition withIntended rvr (rv : ReplicatedVolume) llvs (actual : option backingVolume) (intended : backingVolume) : M bvReturn :=
  match splitLLV (bv_LLVName intended) llvs with
  | None => provision rvr rv llvs actual intended
  | Some (before, llv, after) =>
      if bool_decide (is_Some (llv_DeletionTimestamp llv)) && bool_decide (FindMemberByName rv (rvr_Name rvr) = None)
      then waitForOld rvr before llv after actual intended
      else settle rvr rv before llv after actual intended
  end.

(** reconcileBackingVolume *)
Definition reconcileExisting rvr llvs (rv : option ReplicatedVolume) (drbdr : option DRBDResource) (view : option rspEligibilityView) :
    M bvReturn :=
  if rvrShouldNotExist rvr then withoutBackingVolume rvr llvs ReasonNotApplicable "Replica is being deleted"
  else
    let actual := computeActualBackingVolume drbdr llvs in
    match rv with
    | None => report rvr llvs actual None Continue ConditionUnknown ReasonWaitingForReplicatedVolume
                "ReplicatedVolume not found; waiting for it to be present"
    | Some rv =>
        if rv_DatameshRevision rv =? 0
        then report rvr llvs actual None Continue ConditionUnknown ReasonWaitingForReplicatedVolume
               "Datamesh is not initialized yet; waiting for ReplicatedVolume to initialize it"
        else
          i ← lift (computeIntendedBackingVolume rvr rv actual view);
          match i with
          | inl (reason, message) => withoutBackingVolume rvr llvs reason message
          | inr intended => withIntended rvr rv llvs actual intended
          end
    end.
Definition reconcileBackingVolume (rvr : option ReplicatedVolumeReplica) llvs (rv : option ReplicatedVolume)
    (drbdr : option DRBDResource) (view : option rspEligibilityView) : M bvReturn :=
  ended <$>
  match rvr with
  | None =>
      '(llvs, r) ← rangeM releaseDeleting llvs;
      mret ({| br_rvr := None; br_llvs := llvs; br_target := None; br_intended := None |}, default Continue r)
  | Some rvr => reconcileExisting rvr llvs rv drbdr view
  end.
End backing.
End backing.
