(* ===== verification/DrbdResource.v ===== *)
(** * rvr_controller: the DRBD resource of a replica

    Source: rvr_controller/reconciler_drbd_resource.go. *)

From Stdlib Require Import ZArith Lia String.
From stdpp Require Import base gmap list numbers strings option.
From S2P Require Import Prelude IdSet DrbdSize Api Object Storage Flow Client.
From S2P Require Import Pipeline Context Layout Rollout Replicas RvaStatus RvrBase BackingVolume.
Import idset drbd_size v1alpha1 objutilv1 storage drbd flow client pipeline layout replicas rva_status rvr_base backing.

Module drbd_resource.
Section drbd_resource.
Context {K : K8s} {Meta : MetaApi}.
Implicit Types (rvr : ReplicatedVolumeReplica) (rv : ReplicatedVolume) (d : DRBDResource).

Definition DRBDResourceCondConfiguredType : string := "Configured".
Definition ReasonInMaintenance : string := "InMaintenance".
Definition ReasonApplyingConfiguration : string := "ApplyingConfiguration".
Definition ReasonConfigurationFailed : string := "ConfigurationFailed".
Definition ReasonConfigured : string := "Configured".
Definition ReasonWaitingForBackingVolume : string := "WaitingForBackingVolume".
Definition ReasonWaitingForDRBDResize : string := "WaitingForDRBDResize".

(** ** Types *)
Definition computeIntendedType rvr (member : option DatameshMember) : DatameshMemberType :=
  match member with
  | Some m => m_Type m
  | None => match rvr_DeletionTimestamp rvr with
            | Some _ => MemberTypeAccess
            | None => MemberTypeOfReplicaType (rvr_Spec_Type rvr)
            end
  end.
Definition computeTargetType (intendedType : DatameshMemberType) (targetLLVName : string) : outcome DatameshMemberType :=
  if HasBackingVolume intendedType && String.eqb targetLLVName "" then ToLiminal intendedType else Ok intendedType.
Definition computeDRBDRType (memberType : DatameshMemberType) : DRBDResourceType :=
  if HasBackingVolume memberType then DRBDDiskful else DRBDDiskless.
Definition newDRBDRReconciliationCache (datameshRevision drbdrGeneration : Z) (targetType : DatameshMemberType) :
    DRBDRReconciliationCache :=
  {| rc_DatameshRevision := datameshRevision; rc_DRBDRGeneration := drbdrGeneration; rc_TargetType := targetType |}.
Definition applyRVRDRBDRReconciliationCache rvr (target : DRBDRReconciliationCache) : bool * ReplicatedVolumeReplica :=
  if bool_decide (rvr_DRBDRReconciliationCache rvr = target) then (false, rvr)
  else (true, rvr <| rvr_DRBDRReconciliationCache := target |>).

(** ** Peers *)
Definition buildDRBDRPeerPaths (addresses : list DRBDResourceAddressStatus) : list DRBDResourcePath :=
  map (λ a, {| pa_SystemNetworkName := a_SystemNetworkName a; pa_Address := a_Address a |}) addresses.
Definition peerOf rv (self m : DatameshMember) : option DRBDResourcePeer :=
  if String.eqb (m_Name m) (m_Name self) then None
  else if negb (ConnectsToAllPeers (m_Type self)) && negb (ConnectsToAllPeers (m_Type m)) then None
  else Some {| dp_Name := m_Name m; dp_Type := if ConnectsToAllPeers (m_Type m) then DRBDDiskful else DRBDDiskless;
               dp_AllowRemoteRead := IsVoter (m_Type m) || bool_decide (m_Type m = MemberTypeTieBreaker);
               dp_NodeID := m_ID m; dp_Protocol := DRBDProtocolC; dp_SharedSecret := rv_SharedSecret rv;
               dp_SharedSecretAlg := rv_SharedSecretAlg rv; dp_PauseSync := false;
               dp_Paths := buildDRBDRPeerPaths (m_Addresses m) |}.
Definition peerLeb (a b : DRBDResourcePeer) : bool := string_leb (dp_Name a) (dp_Name b).
Definition computeTargetDRBDRPeers rv (self : DatameshMember) : list DRBDResourcePeer :=
  if Z.of_nat (length (rv_Members rv)) <=? 1 then []
  else sort_by peerLeb (omap (peerOf rv self) (rv_Members rv)).

(** ** The target specification *)
Definition targetSize (datameshSize : Quantity) (current : option Quantity) : option Quantity :=
  let aligned := AlignTo4Ki datameshSize in
  match current with
  | None => Some aligned
  | Some size => if 0 <? q_Cmp aligned size then Some aligned else Some size
  end.
Definition computeTargetDRBDRSpec rvr (drbdr : option DRBDResource) rv (member : option DatameshMember) (targetLLVName : string)
    (targetType : DatameshMemberType) : DRBDResourceSpec :=
  let spec := match drbdr with
              | Some d => dr_Spec d
              | None => zeroSpec <| ds_NodeName := rvr_Spec_NodeName rvr |> <| ds_NodeID := rvr_ID rvr |>
              end in
  let spec := spec <| ds_Type := computeDRBDRType targetType |> <| ds_SystemNetworks := rv_SystemNetworkNames rv |>
                   <| ds_State := DRBDResourceStateUp |> in
  let spec := if bool_decide (computeDRBDRType targetType = DRBDDiskful)
              then spec <| ds_LVMLogicalVolumeName := targetLLVName |> <| ds_Size := targetSize (rv_Size rv) (ds_Size spec) |>
              else spec <| ds_LVMLogicalVolumeName := "" |> <| ds_Size := None |> in
  let spec := spec <| ds_NonVoting := bool_decide (targetType = MemberTypeShadowDiskful) |> in
  match member with
  | None => spec <| ds_Role := DRBDRoleSecondary |> <| ds_AllowTwoPrimaries := false |> <| ds_Quorum := 32 |>
                 <| ds_QuorumMinimumRedundancy := 32 |> <| ds_Peers := [] |>
  | Some m => spec <| ds_Role := if m_Attached m then DRBDRolePrimary else DRBDRoleSecondary |>
                   <| ds_AllowTwoPrimaries := rv_Multiattach rv |>
                   <| ds_Quorum := if IsVoter targetType then rv_Quorum rv else 32 |>
                   <| ds_QuorumMinimumRedundancy := rv_QuorumMinimumRedundancy rv |>
                   <| ds_Peers := computeTargetDRBDRPeers rv m |>
  end.

(** ** Metadata *)
Definition isDRBDRMetadataInSync rvr (rv : option ReplicatedVolume) d : bool :=
  HasFinalizer d RVRControllerFinalizer && IsControlledBy (dr_OwnerReferences d) (rvr_UID rvr) &&
  valueInSync d ReplicatedVolumeLabelKey (rvr_Spec_ReplicatedVolumeName rvr) && classLabelInSync d rv.

Context {S : Server}.
Definition applyDRBDRMetadata rvr (rv : option ReplicatedVolume) d : M (bool * DRBDResource * option error) :=
  let '(c1, d) := AddFinalizer d RVRControllerFinalizer in
  let '(c2, d) := withValue d ReplicatedVolumeLabelKey (rvr_Spec_ReplicatedVolumeName rvr) in
  let '(c3, d) := withClassLabel d rv in
  r ← SetControllerRef (dr_OwnerReferences d) (rvr_UID rvr);
  mret (match r with
        | inl e => (c1 || c2 || c3, d, Some (Wrapped "setting controller reference" e))
        | inr (c4, refs) => (c1 || c2 || c3 || c4, d <| dr_OwnerReferences := refs |>, None)
        end).
Definition newDRBDR rvr (rv : option ReplicatedVolume) (spec : DRBDResourceSpec) : M (error + DRBDResource) :=
  let labels : gmap string string := ∅ in
  let labels := if negb (String.eqb (rvr_Spec_ReplicatedVolumeName rvr) "")
                then <[ReplicatedVolumeLabelKey := rvr_Spec_ReplicatedVolumeName rvr]> labels else labels in
  let labels := match rv with
                | Some rv => if negb (String.eqb (rv_Spec_ReplicatedStorageClassName rv) "")
                             then <[ReplicatedStorageClassLabelKey := rv_Spec_ReplicatedStorageClassName rv]> labels else labels
                | None => labels
                end in
  r ← do (SetControllerReference [] (rvr_UID rvr));
  mret (match r with
        | inl e => inl e
        | inr refs => inr (zeroDRBDR <| dr_Name := rvr_Name rvr |> <| dr_Labels := Some labels |>
                             <| dr_Finalizers := [RVRControllerFinalizer] |> <| dr_Spec := spec |>
                             <| dr_OwnerReferences := refs |>)
        end).

(** ** reconcileDRBDResource *)

(** The replica as the method leaves it, the resource it returns, the outcome. *)
Definition drReturn : Type := option ReplicatedVolumeReplica * option DRBDResource * ReconcileOutcome.
Definition say rvr (drbdr : option DRBDResource) (changed : bool) (status reason message : string) : M drReturn :=
  '(c, rvr) ← SetStatusCondition rvr (verdict CondDRBDConfiguredType status reason message);
  mret (Some rvr, drbdr, ReportChangedIf Continue (c || changed)).
Definition stop rvr d (e : error) (msg : string) : drReturn := (Some rvr, Some d, fail e msg).

(** Remove the controller's finalizer, if it is there. *)
Definition releaseDRBDR d : M (DRBDResource * option error) :=
  if HasFinalizer d RVRControllerFinalizer then
    let base := d in
    let '(_, d) := RemoveFinalizer d RVRControllerFinalizer in patchDRBDR d base
  else mret (d, None).
(** Step 0 *)
Definition withoutReplica (drbdr : option DRBDResource) : M drReturn :=
  match drbdr with
  | None => mret (None, None, Continue)
  | Some d =>
      match dr_DeletionTimestamp d with
      | None => mret (None, Some d, Continue)
      | Some _ =>
          '(d, e) ← releaseDRBDR d;
          mret (None, Some d, match e with
                              | Some e => fail e ("removing finalizer from deleting DRBDResource " +:+ dr_Name d)
                              | None => Continue
                              end)
      end
  end.
(** Step 1 *)
Definition deleteBranch rvr (drbdr : option DRBDResource) : M drReturn :=
  match drbdr with
  | None => say rvr None false ConditionFalse ReasonNotApplicable "Replica is being deleted; DRBD resource has been deleted"
  | Some d =>
      '(d, e) ← releaseDRBDR d;
      match e with
      | Some e => mret (stop rvr d e ("patching DRBDResource " +:+ dr_Name d))
      | None =>
          '(d, e) ← deleteDRBDR d;
          match e with
          | Some e => mret (stop rvr d e ("deleting DRBDResource " +:+ dr_Name d))
          | None => say rvr None false ConditionFalse ReasonNotApplicable
                      ("Replica is being deleted; waiting for DRBD resource " +:+ dr_Name d +:+ " to be deleted")
          end
      end
  end.

(** Step 6: the resource created or updated, with the configuration to cache; or the result of the
    method. *)
Definition createTarget rvr rv (member : option DatameshMember) (targetBV : option backingVolume) (targetType : DatameshMemberType) :
    M (drReturn + DRBDResource * DRBDRReconciliationCache) :=
  let spec := computeTargetDRBDRSpec rvr None rv member (LLVNameOrEmpty targetBV) targetType in
  newObj ← newDRBDR rvr (Some rv) spec;
  match newObj with
  | inl e => mret (inl (Some rvr, None, fail e "constructing DRBDResource"))
  | inr newObj =>
      r ← createDRBDR newObj;
      mret (match r with
            | Replied d => inr (d, newDRBDRReconciliationCache (rv_DatameshRevision rv) (dr_Generation d) targetType)
            | AlreadyExists _ => inl (Some rvr, None, DoneAndRequeue)
            | NotFound e | Refused e => inl (Some rvr, None, fail e "creating DRBDResource")
            end)
  end.
Definition updateTarget rvr rv d (member : option DatameshMember) (targetBV : option backingVolume) (targetType : DatameshMemberType) :
    M (drReturn + DRBDResource * DRBDRReconciliationCache) :=
  let cache := newDRBDRReconciliationCache (rv_DatameshRevision rv) (dr_Generation d) targetType in
  if bool_decide (rvr_DRBDRReconciliationCache rvr = cache) then mret (inr (d, cache))
  else
    let spec := computeTargetDRBDRSpec rvr (Some d) rv member (LLVNameOrEmpty targetBV) targetType in
    if specEqual (dr_Spec d) spec then mret (inr (d, cache))
    else
      '(d, e) ← patchDRBDR (d <| dr_Spec := spec |>) d;
      mret (match e with Some e => inl (stop rvr d e "patching DRBDResource") | None => inr (d, cache) end).
(** Step 7 *)
Definition ensureDRBDRMetadata rvr rv d : M (DRBDResource * option ReconcileOutcome) :=
  if isDRBDRMetadataInSync rvr (Some rv) d then mret (d, None)
  else
    let base := d in
    '(_, d, e) ← applyDRBDRMetadata rvr (Some rv) d;
    match e with
    | Some e => mret (d, Some (fail e ("applying DRBDResource " +:+ dr_Name d +:+ " metadata")))
    | None => '(d, e) ← patchDRBDR d base; mret (d, failure e ("patching DRBDResource " +:+ dr_Name d +:+ " metadata"))
    end.
(** Steps 14 and 15 *)
Definition configured rvr rv d (member : option DatameshMember) (targetBV intendedBV : option backingVolume)
    (targetType : DatameshMemberType) (changed : bool) : M drReturn :=
  match member with
  | None =>
      if negb (rvr_DatameshRevision rvr =? 0) then
        say (rvr <| rvr_DatameshRevision := 0 |> <| rvr_DatameshRevisionObservedByAgent := 0 |>) (Some d) true
          ConditionTrue ReasonConfigured "DRBD configured (removed from datamesh)"
      else
        match rvr_DeletionTimestamp rvr with
        | Some _ => say rvr (Some d) changed ConditionTrue ReasonConfigured "DRBD configured (replica is being deleted)"
        | None => say rvr (Some d) changed ConditionFalse ReasonPendingDatameshJoin "DRBD preconfigured, waiting for datamesh membership"
        end
  | Some _ =>
      if HasBackingVolume targetType && negb (bv_Equal targetBV intendedBV)
      then lift (Panic "BUG: targetBV and intendedBV must be equal for Diskful")
      else if rvr_DatameshRevision rvr =? rv_DatameshRevision rv
      then say rvr (Some d) changed ConditionTrue ReasonConfigured "DRBD fully configured"
      else say (rvr <| rvr_DatameshRevision := rv_DatameshRevision rv |>) (Some d) true
             ConditionTrue ReasonConfigured "DRBD fully configured"
  end.
(** Step 13: why the disk is not yet what it should be: a reason and a message. *)
Definition formatBV (bv : backingVolume) : string :=
  if String.eqb (b_ThinPoolName bv) "" then "LVG " +:+ quote (b_LVMVolumeGroupName bv) +:+ " without thinpool"
  else "LVG " +:+ quote (b_LVMVolumeGroupName bv) +:+ " with thinpool " +:+ quote (b_ThinPoolName bv).
Definition backingVolumePending (targetBV intendedBV : option backingVolume) : option (string * string) :=
  match intendedBV, targetBV with
  | Some i, Some t =>
      if negb (String.eqb (b_LVMVolumeGroupName t) (b_LVMVolumeGroupName i)) || negb (String.eqb (b_ThinPoolName t) (b_ThinPoolName i))
      then Some (ReasonWaitingForBackingVolume, "Backing volume replacement pending: current " +:+ formatBV t +:+ ", expected " +:+ formatBV i)
      else if q_Cmp (b_Size t) (b_Size i) <? 0
      then Some (ReasonWaitingForBackingVolume, "Backing volume resize pending: current size " +:+ q_String (b_Size t) +:+
                                                ", expected size " +:+ q_String (b_Size i))
      else None
  | _, _ => None
  end.
Definition deviceSizePending d : option (string * string) :=
  match ds_Type (dr_Spec d), ds_Size (dr_Spec d) with
  | DRBDDiskful, Some want =>
      match dr_Size d with
      | Some size => if q_Cmp size want <? 0
                     then Some (ReasonWaitingForDRBDResize, "DRBD resize pending: usable size " +:+ q_String size +:+ ", expected " +:+ q_String want)
                     else None
      | None => Some (ReasonWaitingForDRBDResize, "DRBD resize pending: usable size not yet reported, expected " +:+ q_String want)
      end
  | _, _ => None
  end.
Definition diskPending d (targetBV intendedBV : option backingVolume) : option (string * string) :=
  match backingVolumePending targetBV intendedBV with Some p => Some p | None => deviceSizePending d end.
(** Steps 10d to 13 *)
Definition applied rvr rv d (cond : Condition) (member : option DatameshMember) (targetBV intendedBV : option backingVolume)
    (intendedType targetType : DatameshMemberType) (changed : bool) : M drReturn :=
  if String.eqb (c_Reason cond) ReasonInMaintenance
  then say rvr (Some d) changed ConditionUnknown ReasonInMaintenance "DRBD is in maintenance mode"
  else if negb (String.eqb (c_Status cond) ConditionTrue)
  then say rvr (Some d) changed ConditionFalse ReasonConfigurationFailed ("DRBD configuration failed (reason: " +:+ c_Reason cond +:+ ")")
  else if bool_decide (dr_Addresses d = [])
  then say rvr (Some d) changed ConditionUnknown ReasonApplyingConfiguration "Waiting for DRBD addresses"
  else if negb (bool_decide (targetType = intendedType))
  then say rvr (Some d) changed ConditionFalse ReasonWaitingForBackingVolume
         ("DRBD preconfigured as " +:+ DatameshMemberType_String targetType +:+ ", waiting for backing volume to become ready")
  else match diskPending d targetBV intendedBV with
       | Some (reason, message) => say rvr (Some d) changed ConditionFalse reason message
       | None => configured rvr rv d member targetBV intendedBV targetType changed
       end.
(** Step 10 *)
Definition checkConfigured rvr rv d (cacheRevision : Z) (member : option DatameshMember) (targetBV intendedBV : option backingVolume)
    (intendedType targetType : DatameshMemberType) (changed : bool) : M drReturn :=
  match GetStatusCondition d DRBDResourceCondConfiguredType with
  | None => say rvr (Some d) changed ConditionUnknown ReasonApplyingConfiguration
              "Waiting for agent to respond (Configured condition is not set yet)"
  | Some cond =>
      if negb (c_ObservedGeneration cond =? dr_Generation d)
      then say rvr (Some d) changed ConditionUnknown ReasonApplyingConfiguration
             ("Waiting for agent to respond (generation: " +:+ itoa (dr_Generation d) +:+ ", observedGeneration: " +:+
              itoa (c_ObservedGeneration cond) +:+ ")")
      else
        let '(changed, rvr) := if rvr_DatameshRevisionObservedByAgent rvr =? cacheRevision then (changed, rvr)
                               else (true, rvr <| rvr_DatameshRevisionObservedByAgent := cacheRevision |>) in
        applied rvr rv d cond member targetBV intendedBV intendedType targetType changed
  end.
(** Step 9 *)
Definition agentNotReady rvr d (changed : bool) : M drReturn :=
  let nodeName := rvr_Spec_NodeName rvr in
  nodeReady ← getNodeReady nodeName;
  match nodeReady with
  | inl e => mret (stop rvr d e ("getting node readiness for " +:+ nodeName))
  | inr nodeReady =>
      say rvr (Some d) changed ConditionFalse ReasonAgentNotReady
        ("Agent is not ready on node " +:+ nodeName +:+ " (node status: " +:+ (if (nodeReady : bool) then "Ready" else "NotReady") +:+ ")")
  end.
Definition checkAgent rvr rv d (cacheRevision : Z) (member : option DatameshMember) (targetBV intendedBV : option backingVolume)
    (intendedType targetType : DatameshMemberType) (changed : bool) : M drReturn :=
  agentReady ← getAgentReady (rvr_Spec_NodeName rvr);
  match agentReady with
  | inl e => mret (stop rvr d e ("getting agent readiness for " +:+ rvr_Spec_NodeName rvr))
  | inr false => agentNotReady rvr d changed
  | inr true => checkConfigured rvr rv d cacheRevision member targetBV intendedBV intendedType targetType changed
  end.
(** Steps 6 to 15 *)
Definition configure rvr rv (drbdr : option DRBDResource) (targetBV intendedBV : option backingVolume) : M drReturn :=
  let member := FindMemberByName rv (rvr_Name rvr) in
  let intendedType := computeIntendedType rvr member in
  targetType ← lift (computeTargetType intendedType (LLVNameOrEmpty targetBV));
  r ← (match drbdr with
       | None => createTarget rvr rv member targetBV targetType
       | Some d => updateTarget rvr rv d member targetBV targetType
       end);
  match r with
  | inl r => mret r
  | inr (d, cache) =>
      '(d, r) ← ensureDRBDRMetadata rvr rv d;
      match r with
      | Some r => mret (Some rvr, Some d, r)
      | None =>
          let '(changed, rvr) := applyRVRDRBDRReconciliationCache rvr cache in
          checkAgent rvr rv d (rc_DatameshRevision cache) member targetBV intendedBV intendedType targetType changed
      end
  end.
(** Steps 2 to 5 *)
Definition reconcileExistingDRBD rvr (rv : option ReplicatedVolume) (drbdr : option DRBDResource) (targetBV intendedBV : option backingVolume) :
    M drReturn :=
  let wait (message : string) := say rvr drbdr false ConditionUnknown ReasonWaitingForReplicatedVolume message in
  if rvrShouldNotExist rvr then deleteBranch rvr drbdr
  else
    match rv with
    | None => wait "ReplicatedVolume not found; waiting for it to be present"
    | Some rv =>
        if rv_DatameshRevision rv =? 0 then wait "Datamesh is not initialized yet; waiting for ReplicatedVolume to initialize it"
        else if bool_decide (rv_SystemNetworkNames rv = [])
        then wait "No system networks in datamesh; waiting for ReplicatedVolume to configure them"
        else if String.eqb (rvr_Spec_NodeName rvr) ""
        then say rvr drbdr false ConditionFalse ReasonPendingScheduling "Waiting for node assignment"
        else configure rvr rv drbdr targetBV intendedBV
    end.
Definition reconcileDRBDResource (rvr : option ReplicatedVolumeReplica) (rv : option ReplicatedVolume) (drbdr : option DRBDResource)
    (targetBV intendedBV : option backingVolume) : M drReturn :=
  ended <$> (match rvr with
             | None => withoutReplica drbdr
             | Some rvr => reconcileExistingDRBD rvr rv drbdr targetBV intendedBV
             end : M drReturn).
End drbd_resource.
End drbd_resource.
