(* ===== verification/RvrStatus.v ===== *)
(** * rvr_controller: status fields of a replica

    Source: rvr_controller/reconciler_status.go.  Each ensure helper returns the replica it changed and
    an EnsureOutcome. *)

From Stdlib Require Import ZArith Lia String.
From stdpp Require Import base gmap list numbers strings option.
From S2P Require Import Prelude IdSet DrbdSize Api Object Storage Flow Client.
From S2P Require Import Pipeline Context Layout Rollout Replicas RvaStatus RvrBase BackingVolume DrbdResource.
Import idset drbd_size v1alpha1 objutilv1 storage drbd flow client pipeline layout replicas rva_status rvr_base backing drbd_resource.

Module rvr_status.
Section rvr_status.
Context {K : K8s} {Meta : MetaApi}.
Implicit Types (rvr : ReplicatedVolumeReplica) (rv : ReplicatedVolume) (d : DRBDResource) (llvs : list LVMLogicalVolume)
  (drbdr : option DRBDResource) (view : option rspEligibilityView).

Definition ensured : Type := ReplicatedVolumeReplica * EnsureOutcome.
Definition ok rvr (changed : bool) : ensured := (rvr, {| eo_err := None; eo_changed := changed |}).

(** ** Attachment, addresses, size *)
Definition activeRolePrimary drbdr : bool :=
  match drbdr with
  | Some d => match dr_ActiveConfiguration d with Some ac => String.eqb (ac_Role ac) DRBDRolePrimary | None => false end
  | None => false
  end.
Definition applyRVRAttachment rvr (attachment : option AttachmentStatus) : bool * ReplicatedVolumeReplica :=
  if bool_decide (rvr_Attachment rvr = attachment) then (false, rvr) else (true, rvr <| rvr_Attachment := attachment |>).
Definition attachmentOfDRBDR drbdr : option AttachmentStatus :=
  match drbdr with
  | Some d => if activeRolePrimary drbdr
              then Some {| at_DevicePath := dr_Device d; at_IOSuspended := default false (dr_DeviceIOSuspended d);
                           at_InUse := default false (dr_DeviceOpen d) |}
              else None
  | None => None
  end.
Definition ensureStatusAttachment rvr drbdr (agentReady drbdrConfigurationPending : bool) : ensured :=
  if negb agentReady || drbdrConfigurationPending then ok rvr false
  else let '(changed, rvr) := applyRVRAttachment rvr (attachmentOfDRBDR drbdr) in ok rvr changed.
Definition activeType d : DRBDResourceType :=
  match dr_ActiveConfiguration d with Some ac => ac_Type ac | None => DRBDTypeOther "" end.
Definition ensureStatusAddressesAndType rvr drbdr : ensured :=
  let '(addresses, typ) := match drbdr with
                           | None => ([], DRBDTypeOther "")
                           | Some d => (dr_Addresses d, activeType d)
                           end in
  let '(c1, rvr) := if bool_decide (rvr_Addresses rvr = addresses) then (false, rvr) else (true, rvr <| rvr_Addresses := addresses |>) in
  let '(c2, rvr) := if bool_decide (rvr_Status_Type rvr = typ) then (false, rvr) else (true, rvr <| rvr_Status_Type := typ |>) in
  ok rvr (c1 || c2).
Definition ensureStatusSize rvr drbdr : ensured :=
  let target := drbdr ≫= dr_Size in
  if optionRel q_Equal (rvr_Size rvr) target then ok rvr false else ok (rvr <| rvr_Size := target |>) true.

(** ** Peers *)
Definition parseIDSuffix (s : string) : option Z :=
  match String.length s with
  | 1%nat => let d := digitAt s 0 in if d <=? 9 then Some d else None
  | 2%nat =>
      let hi := digitAt s 0 in
      let lo := digitAt s 1 in
      if (1 <=? hi) && (hi <=? 3) && (lo <=? 9) then
        let id := wrap8 (wrap8 (hi * 10) + lo) in
        if id <=? 31 then Some id else None
      else None
  | _ => None
  end.
Definition cutPrefix (prefix s : string) : option string :=
  if String.prefix prefix s then Some (substring (String.length prefix) (String.length s - String.length prefix) s) else None.
(** The name a peer is reported under, or none for a peer that is skipped. *)
Definition normalizePeerName (rvNamePrefix name : string) : option string :=
  suffix ← match cutPrefix rvNamePrefix name with Some s => Some s | None => cutPrefix "peer-" name end;
  _ ← parseIDSuffix suffix;
  Some (rvNamePrefix +:+ suffix).
Definition peerType (rv : option ReplicatedVolume) (peerName : string) (ty : DRBDResourceType) : ReplicaType :=
  match ty with
  | DRBDDiskful => ReplicaTypeDiskful
  | DRBDDiskless =>
      match (rv ← rv; FindMemberByName rv peerName) with
      | Some m => if bool_decide (m_Type m = MemberTypeTieBreaker) then ReplicaTypeTieBreaker else ReplicaTypeAccess
      | None => ReplicaTypeAccess
      end
  | DRBDTypeOther _ => ReplicaTypeOther ""
  end.
Definition peerStatusOf (rv : option ReplicatedVolume) (peerName : string) (src : DRBDResourcePeerStatus) : PeerStatus :=
  {| p_Name := peerName; p_Type := peerType rv peerName (dps_Type src); p_Attached := String.eqb (dps_Role src) DRBDRolePrimary;
     p_ConnectionEstablishedOn := map ps_SystemNetworkName (List.filter ps_Established (dps_Paths src));
     p_ConnectionState := dps_ConnectionState src; p_BackingVolumeState := dps_DiskState src;
     p_ReplicationState := dps_ReplicationState src |}.
#[export] Instance PeerStatus_eq_dec : EqDecision PeerStatus.
Proof. solve_decision. Defined.
Definition zeroPeer : PeerStatus :=
  {| p_Name := ""; p_Type := ReplicaTypeOther ""; p_Attached := false; p_ConnectionEstablishedOn := []; p_ConnectionState := "";
     p_BackingVolumeState := ""; p_ReplicationState := "" |}.
(** The write loop: every recognised peer takes the next position of the list.  Positions past the
    persisted length start out as zero entries (or as what the capacity held; the loop overwrites every
    field, and a longer list is a change anyway). *)
Fixpoint writePeers (rvNamePrefix : string) (rv : option ReplicatedVolume) (old : list PeerStatus) (srcs : list DRBDResourcePeerStatus) :
    bool * list PeerStatus :=
  match srcs with
  | [] => (false, [])
  | src :: srcs =>
      match normalizePeerName rvNamePrefix (dps_Name src) with
      | None => writePeers rvNamePrefix rv old srcs
      | Some name =>
          let p := peerStatusOf rv name src in
          let '(changed, ps) := writePeers rvNamePrefix rv (tail old) srcs in
          (negb (bool_decide (default zeroPeer (head old) = p)) || changed, p :: ps)
      end
  end.
Definition ensureStatusPeers rvr drbdr (rv : option ReplicatedVolume) : ensured :=
  let old := rvr_Peers rvr in
  match (match drbdr with Some d => dr_Peers d | None => [] end) with
  | [] => if 0 <? Z.of_nat (length old) then ok (rvr <| rvr_Peers := [] |>) true else ok rvr false
  | srcs =>
      let '(changed, ps) := writePeers (rvr_Spec_ReplicatedVolumeName rvr +:+ "-") rv old srcs in
      ok (rvr <| rvr_Peers := ps |>) (changed || negb (bool_decide (length old = length ps)))
  end.

(** ** Backing volume *)
Definition clearBackingVolume rvr : ensured :=
  match rvr_BackingVolume rvr with None => ok rvr false | Some _ => ok (rvr <| rvr_BackingVolume := None |>) true end.
Definition sameBackingVolume (a b : BackingVolumeStatus) : bool :=
  String.eqb (bv_State a) (bv_State b) && String.eqb (bv_LVMVolumeGroupName a) (bv_LVMVolumeGroupName b) &&
  String.eqb (bv_LVMVolumeGroupThinPoolName a) (bv_LVMVolumeGroupThinPoolName b) &&
  optionRel (λ q q', q_Cmp q q' =? 0) (bv_Size a) (bv_Size b).
Definition backingVolumeStatus d (llv : LVMLogicalVolume) : BackingVolumeStatus :=
  {| bv_State := dr_DiskState d; bv_LVMVolumeGroupName := llv_LVMVolumeGroupName llv;
     bv_LVMVolumeGroupThinPoolName := default "" (llv_Thin llv);
     bv_Size := st ← llv_Status llv; if q_Cmp (ls_ActualSize st) (NewQuantity 0) =? 0 then None else Some (ls_ActualSize st) |}.
Definition activeLLVName d : string := match dr_ActiveConfiguration d with Some ac => ac_LVMLogicalVolumeName ac | None => "" end.
Definition ensureStatusBackingVolume rvr drbdr llvs : ensured :=
  match drbdr with
  | None => clearBackingVolume rvr
  | Some d =>
      if String.eqb (activeLLVName d) "" then clearBackingVolume rvr
      else
        match findLLVByName llvs (activeLLVName d) with
        | None => (rvr, {| eo_err := Some (Leaf ("active LLV " +:+ quote (activeLLVName d) +:+ " not found") false); eo_changed := false |})
        | Some llv =>
            let target := backingVolumeStatus d llv in
            if (match rvr_BackingVolume rvr with Some current => sameBackingVolume current target | None => false end) then ok rvr false
            else ok (rvr <| rvr_BackingVolume := Some target |>) true
        end
  end.

(** ** Quorum *)
Definition connectedPeer (p : PeerStatus) : bool := String.eqb (p_ConnectionState p) ConnectionStateConnected.
Definition quorumSummary rvr d : QuorumSummary :=
  let ps := List.filter connectedPeer (rvr_Peers rvr) in
  {| qs_ConnectedDiskfulPeers := countb (λ p, bool_decide (p_Type p = ReplicaTypeDiskful)) ps;
     qs_ConnectedTieBreakerPeers := countb (λ p, bool_decide (p_Type p = ReplicaTypeTieBreaker)) ps;
     qs_ConnectedUpToDatePeers := countb (λ p, String.eqb (p_BackingVolumeState p) DiskStateUpToDate) ps;
     qs_Quorum := dr_ActiveConfiguration d ≫= ac_Quorum;
     qs_QuorumMinimumRedundancy := dr_ActiveConfiguration d ≫= ac_QuorumMinimumRedundancy |}.
Definition ensureStatusQuorum rvr drbdr : ensured :=
  let '(summary, quorum) := match drbdr with None => (None, None) | Some d => (Some (quorumSummary rvr d), dr_Quorum d) end in
  let '(c1, rvr) := if bool_decide (rvr_QuorumSummary rvr = summary) then (false, rvr) else (true, rvr <| rvr_QuorumSummary := summary |>) in
  let '(c2, rvr) := if bool_decide (rvr_Quorum rvr = quorum) then (false, rvr) else (true, rvr <| rvr_Quorum := quorum |>) in
  ok rvr (c1 || c2).

(** ** The request to the datamesh *)
Definition CondConfiguredType : string := "Configured".
Definition ConfiguredReasonConfigured : string := "Configured".
Definition ConfiguredReasonNodeNotEligible : string := "NodeNotEligible".
Definition ConfiguredReasonPendingBackingVolumeChange : string := "PendingBackingVolumeChange".
Definition ConfiguredReasonPendingJoin : string := "PendingJoin".
Definition ConfiguredReasonPendingLeave : string := "PendingLeave".
Definition ConfiguredReasonPendingRoleChange : string := "PendingRoleChange".
Definition ConfiguredReasonPendingScheduling : string := "PendingScheduling".
Definition ConfiguredReasonStorageNotEligible : string := "StorageNotEligible".
Definition ConfiguredReasonWaitingForReplicatedVolume : string := "WaitingForReplicatedVolume".

Definition ReplicaType_String (t : ReplicaType) : string := DatameshMemberType_String (MemberTypeOfReplicaType t).
Definition isDiskful rvr : bool := bool_decide (rvr_Spec_Type rvr = ReplicaTypeDiskful).
Definition request (op : RequestOperation) (ty : ReplicaType) (lvg thin : string) : DatameshMembershipRequest :=
  {| mr_Operation := op; mr_Type := ty; mr_LVMVolumeGroupName := lvg; mr_ThinPoolName := thin |}.
(** A request for the replica's type, with its storage when it is Diskful. *)
Definition requestAsSpec rvr (op : RequestOperation) : DatameshMembershipRequest :=
  if isDiskful rvr
  then request op (rvr_Spec_Type rvr) (rvr_Spec_LVMVolumeGroupName rvr) (rvr_Spec_LVMVolumeGroupThinPoolName rvr)
  else request op (rvr_Spec_Type rvr) "" "".
(** A decision: the request, the reason and the message of the Configured condition. *)
Definition decision : Type := option DatameshMembershipRequest * string * string.
Definition waitingForRV (message : string) : decision := (None, ConfiguredReasonWaitingForReplicatedVolume, message).
(** A member: is it what its specification says? *)
Definition typeInSync rvr : bool :=
  match rvr_Spec_Type rvr with
  | ReplicaTypeDiskful => bool_decide (rvr_Status_Type rvr = DRBDDiskful)
  | ReplicaTypeAccess | ReplicaTypeTieBreaker => bool_decide (rvr_Status_Type rvr = DRBDDiskless)
  | _ => false
  end.
Definition bvInSync rvr : bool :=
  match rvr_BackingVolume rvr with
  | Some bv => String.eqb (bv_LVMVolumeGroupName bv) (rvr_Spec_LVMVolumeGroupName rvr) &&
               String.eqb (bv_LVMVolumeGroupThinPoolName bv) (rvr_Spec_LVMVolumeGroupThinPoolName rvr)
  | None => false
  end.
Definition memberRequest rvr : decision :=
  let ty := ReplicaType_String (rvr_Spec_Type rvr) in
  let lvg := rvr_Spec_LVMVolumeGroupName rvr in
  let thin := rvr_Spec_LVMVolumeGroupThinPoolName rvr in
  if negb (typeInSync rvr)
  then (Some (requestAsSpec rvr OpChangeRole), ConfiguredReasonPendingRoleChange, "Waiting to change role to " +:+ ty)
  else if isDiskful rvr && negb (bvInSync rvr)
  then (Some (request OpChangeBackingVolume (ReplicaTypeOther "") lvg thin), ConfiguredReasonPendingBackingVolumeChange,
        "Waiting to change backing volume to " +:+ (if negb (String.eqb thin "") then lvg +:+ "/" +:+ thin else lvg))
  else (None, ConfiguredReasonConfigured, "Replica is configured as intended").
(** The storage of a Diskful replica: why it cannot be requested. *)
Definition storageRefused rvr view : option decision :=
  if negb (isDiskful rvr) then None
  else
    let '(code, msg) := isStorageEligible view (rvr_Spec_LVMVolumeGroupName rvr) (rvr_Spec_LVMVolumeGroupThinPoolName rvr) in
    match code with
    | storageEligibilityOK => None
    | storageEligibilityRSPNotAvailable => Some (None, ConfiguredReasonWaitingForReplicatedVolume, msg)
    | storageEligibilityNodeNotEligible => Some (None, ConfiguredReasonNodeNotEligible, msg)
    | _ => Some (None, ConfiguredReasonStorageNotEligible, msg)
    end.
Definition scheduledRequest rvr view : decision :=
  if String.eqb (rvr_Spec_NodeName rvr) "" then (None, ConfiguredReasonPendingScheduling, "Waiting for node assignment")
  else if isDiskful rvr && String.eqb (rvr_Spec_LVMVolumeGroupName rvr) ""
  then (None, ConfiguredReasonPendingScheduling, "Waiting for storage assignment")
  else
    match view with
    | None => waitingForRV "ReplicatedStoragePool not found; waiting for it to be present"
    | Some v =>
        match ev_EligibleNode v with
        | None => (None, ConfiguredReasonNodeNotEligible, "Node " +:+ quote (rvr_Spec_NodeName rvr) +:+ " is not eligible in storage pool")
        | Some _ =>
            match storageRefused rvr view with
            | Some refused => refused
            | None =>
                if rvr_DatameshRevision rvr =? 0
                then (Some (requestAsSpec rvr OpJoin), ConfiguredReasonPendingJoin,
                      "Waiting to join datamesh as " +:+ ReplicaType_String (rvr_Spec_Type rvr))
                else memberRequest rvr
            end
        end
    end.
Definition computeTargetDatameshRequest rvr (rv : option ReplicatedVolume) view : decision :=
  match rvr_DeletionTimestamp rvr with
  | Some _ =>
      if negb (rvr_DatameshRevision rvr =? 0)
      then (Some (request OpLeave (ReplicaTypeOther "") "" ""), ConfiguredReasonPendingLeave, "Deletion in progress, waiting to leave datamesh")
      else (None, "", "")
  | None =>
      match rv with
      | None => waitingForRV "ReplicatedVolume not found; waiting for it to be present"
      | Some rv =>
          if rv_DatameshRevision rv =? 0 then waitingForRV "Datamesh is not initialized yet; waiting for ReplicatedVolume to initialize it"
          else match rv_Configuration rv with
               | None => waitingForRV "ReplicatedVolume has no configuration yet; waiting for it to appear"
               | Some _ => scheduledRequest rvr view
               end
      end
  end.
Definition sameRequest (a b : DatameshMembershipRequest) : bool :=
  bool_decide (mr_Operation a = mr_Operation b) && bool_decide (mr_Type a = mr_Type b) &&
  String.eqb (mr_LVMVolumeGroupName a) (mr_LVMVolumeGroupName b) && String.eqb (mr_ThinPoolName a) (mr_ThinPoolName b).
(** The fields are compared and copied one by one; a request that was absent is created. *)
Definition applyDatameshRequest rvr (target : option DatameshMembershipRequest) : bool * ReplicatedVolumeReplica :=
  if optionRel sameRequest (rvr_DatameshRequest rvr) target then (false, rvr)
  else (true, rvr <| rvr_DatameshRequest := target |>).
(** The message of the transition engine for this replica, if there is one. *)
Definition engineMessage (rv : option ReplicatedVolume) (name message : string) : string :=
  match (rv ← rv; List.find (λ r, String.eqb (rq_Name r) name) (rv_DatameshReplicaRequests rv)) with
  | Some r => if negb (String.eqb (rq_Message r) "") then rq_Message r else message
  | None => message
  end.

Context {S : Server}.
Definition ensureStatusDatameshRequestAndConfiguredCond rvr (rv : option ReplicatedVolume) view : M ensured :=
  let '(target, reason, message) := computeTargetDatameshRequest rvr rv view in
  let message := match target with Some _ => engineMessage rv (rvr_Name rvr) message | None => message end in
  let '(c1, rvr) := applyDatameshRequest rvr target in
  if String.eqb reason "" then
    let '(c2, rvr) := RemoveStatusCondition rvr CondConfiguredType in mret (ok rvr (c2 || c1))
  else
    let status := if String.eqb reason ConfiguredReasonConfigured then ConditionTrue
                  else if String.eqb reason ConfiguredReasonWaitingForReplicatedVolume then ConditionUnknown
                  else ConditionFalse in
    '(c2, rvr) ← SetStatusCondition rvr (verdict CondConfiguredType status reason message);
    mret (ok rvr (c2 || c1)).
Definition ensureStatusInitialQuorumReachedAt rvr : M ensured :=
  if rvr_DatameshRevision rvr =? 0 then
    match rvr_InitialQuorumReachedAt rvr with
    | Some _ => mret (ok (rvr <| rvr_InitialQuorumReachedAt := None |>) true)
    | None => mret (ok rvr false)
    end
  else if bool_decide (rvr_InitialQuorumReachedAt rvr = None) && default false (rvr_Quorum rvr) then
    now ← do Now; mret (ok (rvr <| rvr_InitialQuorumReachedAt := Some now |>) true)
  else mret (ok rvr false).
End rvr_status.
End rvr_status.
