(* ===== verification/RvrConditions.v ===== *)
(** * rvr_controller: conditions, phase and message of a replica

    Source: rvr_controller/reconciler_conditions.go.  What an ensureCondition helper sets is decided by a
    function of what it reads ([said]); [applyVerdict] sets it.  The phase (module [rvr_phase]) is computed
    from the conditions, the latch of the initial quorum and the phase published before. *)

From Stdlib Require Import ZArith Lia String.
From stdpp Require Import base gmap list numbers strings option.
From S2P Require Import Prelude Flow IdSet DrbdSize Api Object Storage Client Pipeline Context Layout.
From S2P Require Import Rollout Replicas RvaStatus RvrBase BackingVolume DrbdResource RvrStatus.
Import idset drbd_size v1alpha1 objutilv1 storage drbd flow client pipeline layout replicas rva_status rvr_base backing drbd_resource rvr_status.

Module rvr_conditions.

Definition CondAttachedType : string := "Attached".
Definition AttachedReasonAgentNotReady : string := "AgentNotReady".
Definition AttachedReasonApplyingConfiguration : string := "ApplyingConfiguration".
Definition AttachedReasonAttached : string := "Attached".
Definition AttachedReasonAttachmentFailed : string := "AttachmentFailed".
Definition AttachedReasonDetachmentFailed : string := "DetachmentFailed".
Definition AttachedReasonIOSuspended : string := "IOSuspended".
Definition CondFullyConnectedType : string := "FullyConnected".
Definition FullyConnectedReasonAgentNotReady : string := "AgentNotReady".
Definition FullyConnectedReasonConnectedToAllPeers : string := "ConnectedToAllPeers".
Definition FullyConnectedReasonFullyConnected : string := "FullyConnected".
Definition FullyConnectedReasonNoPeers : string := "NoPeers".
Definition FullyConnectedReasonSoleMember : string := "SoleMember".
Definition FullyConnectedReasonNotConnected : string := "NotConnected".
Definition FullyConnectedReasonPartiallyConnected : string := "PartiallyConnected".
Definition CondBackingVolumeUpToDateType : string := "BackingVolumeUpToDate".
Definition BackingVolumeUpToDateReasonAbsent : string := "Absent".
Definition BackingVolumeUpToDateReasonAgentNotReady : string := "AgentNotReady".
Definition BackingVolumeUpToDateReasonApplyingConfiguration : string := "ApplyingConfiguration".
Definition BackingVolumeUpToDateReasonFailed : string := "Failed".
Definition BackingVolumeUpToDateReasonRequiresSynchronization : string := "RequiresSynchronization".
Definition BackingVolumeUpToDateReasonSynchronizing : string := "Synchronizing".
Definition BackingVolumeUpToDateReasonUnknown : string := "Unknown".
Definition BackingVolumeUpToDateReasonUpToDate : string := "UpToDate".
Definition ReadyReasonAgentNotReady : string := "AgentNotReady".
Definition ReadyReasonApplyingConfiguration : string := "ApplyingConfiguration".
Definition ReadyReasonTerminating : string := "Terminating".
Definition ReadyReasonPendingDatameshJoin : string := "PendingDatameshJoin".
Definition ReadyReasonPendingScheduling : string := "PendingScheduling".
Definition ReadyReasonQuorumLost : string := "QuorumLost".
Definition ReadyReasonQuorumViaPeers : string := "QuorumViaPeers".
Definition ReadyReasonReady : string := "Ready".
Definition ReadyReasonWaitingForReplicatedVolume : string := "WaitingForReplicatedVolume".
Definition SatisfyEligibleNodesReasonLVMVolumeGroupMismatch : string := "LVMVolumeGroupMismatch".
Definition SatisfyEligibleNodesReasonNodeMismatch : string := "NodeMismatch".
Definition SatisfyEligibleNodesReasonSatisfied : string := "Satisfied".
Definition SatisfyEligibleNodesReasonThinPoolMismatch : string := "ThinPoolMismatch".
Definition SatisfyEligibleNodesReasonWaitingForReplicatedVolume : string := "WaitingForReplicatedVolume".

Definition DiskStateDiskless : string := "Diskless".
Definition DiskStateAttaching : string := "Attaching".
Definition DiskStateDetaching : string := "Detaching".
Definition DiskStateFailed : string := "Failed".
Definition DiskStateNegotiating : string := "Negotiating".
Definition DiskStateInconsistent : string := "Inconsistent".
Definition DiskStateOutdated : string := "Outdated".
Definition DiskStateConsistent : string := "Consistent".
Definition ReplicationStateEstablished : string := "Established".
Definition ReplicationStateSyncTarget : string := "SyncTarget".
Definition CondSatisfyEligibleNodesType : string := "SatisfyEligibleNodes".

Section conditions.
Context {K : K8s} {Meta : MetaApi}.
Implicit Types (rvr : ReplicatedVolumeReplica) (rv : ReplicatedVolume) (d : DRBDResource)
  (drbdr : option DRBDResource) (view : option rspEligibilityView).

(** ** Verdicts

    A helper decides the status, reason and message of one condition, or that it is absent. *)
Definition said : Type := option (string * string * string).
Definition set_to (status reason message : string) : said := Some (status, reason, message).
Definition agentIsNotReady (reason : string) : said := set_to ConditionUnknown reason "Agent is not ready".
Definition beingApplied (reason : string) : said := set_to ConditionUnknown reason "DRBD configuration is being applied".

(** *** Attached *)
Definition intendedAttached (member : option DatameshMember) : bool := match member with Some m => m_Attached m | None => false end.
Definition attachedVerdict drbdr (member : option DatameshMember) (agentReady pending : bool) : said :=
  let intended := intendedAttached member in
  let actual := activeRolePrimary drbdr in
  match drbdr with
  | None => None
  | Some d =>
      if negb intended && negb actual then None
      else if negb agentReady then agentIsNotReady AttachedReasonAgentNotReady
      else if pending then beingApplied AttachedReasonApplyingConfiguration
      else if intended && negb actual
      then set_to ConditionFalse AttachedReasonAttachmentFailed "Expected to be attached, but not attached; see DRBDConfigured condition"
      else if negb intended && actual
      then set_to ConditionTrue AttachedReasonDetachmentFailed "Expected to be detached, but still attached; see DRBDConfigured condition"
      else if actual && default false (dr_DeviceIOSuspended d)
      then set_to ConditionFalse AttachedReasonIOSuspended "Attached, but I/O is suspended; see Ready and DRBDConfigured conditions"
      else set_to ConditionTrue AttachedReasonAttached "Attached and ready for I/O"
  end.

(** *** FullyConnected *)
Definition allEstablished rvr (p : PeerStatus) : bool :=
  forallb (λ a, slices_Contains (p_ConnectionEstablishedOn p) (a_SystemNetworkName a)) (rvr_Addresses rvr) &&
  (0 <? Z.of_nat (length (rvr_Addresses rvr))).
Definition peersVerdict rvr (isMember : bool) : said :=
  let ps := rvr_Peers rvr in
  let fully := countb (λ p, connectedPeer p && allEstablished rvr p) ps in
  let partially := countb (λ p, connectedPeer p && negb (allEstablished rvr p)) ps in
  let not := countb (λ p, negb (connectedPeer p)) ps in
  let total := Z.of_nat (length ps) in
  let connected := fully + partially in
  if negb isMember && (0 <? connected)
  then set_to ConditionFalse FullyConnectedReasonPartiallyConnected
         ("Connected to " +:+ itoa connected +:+ " peers, but should not be connected to any (not a datamesh member)")
  else if fully =? total then set_to ConditionTrue FullyConnectedReasonFullyConnected "Fully connected to all peers on all paths"
  else if not =? total then set_to ConditionFalse FullyConnectedReasonNotConnected "Not connected to any peer"
  else if not =? 0
  then set_to ConditionTrue FullyConnectedReasonConnectedToAllPeers
         ("Connected to all " +:+ itoa total +:+ " peers, but not all paths are established")
  else set_to ConditionFalse FullyConnectedReasonPartiallyConnected
         ("Connected to " +:+ itoa connected +:+ " of " +:+ itoa total +:+ " peers (" +:+ itoa fully +:+ " fully, " +:+
          itoa partially +:+ " partially, " +:+ itoa not +:+ " not connected)").
Definition isMemberOf rvr (rv : option ReplicatedVolume) : bool :=
  match rv with Some rv => bool_decide (is_Some (FindMemberByName rv (rvr_Name rvr))) | None => false end.
Definition memberCount (rv : option ReplicatedVolume) : Z := match rv with Some rv => Z.of_nat (length (rv_Members rv)) | None => 0 end.
Definition fullyConnectedVerdict rvr drbdr (rv : option ReplicatedVolume) (agentReady : bool) : said :=
  let isMember := isMemberOf rvr rv in
  match drbdr with
  | None => None
  | Some d =>
      if (negb isMember && bool_decide (length (dr_Peers d) = 0%nat)) || bool_decide (rvr_Addresses rvr = []) then None
      else if negb agentReady then agentIsNotReady FullyConnectedReasonAgentNotReady
      else if bool_decide (rvr_Peers rvr = []) then
        if isMember && (memberCount rv =? 1)
        then set_to ConditionTrue FullyConnectedReasonSoleMember "Sole datamesh member, no peers expected"
        else set_to ConditionFalse FullyConnectedReasonNoPeers "No peers configured"
      else peersVerdict rvr isMember
  end.

(** *** BackingVolumeUpToDate *)
Definition servingIO d (ac : DRBDResourceActiveConfiguration) : bool :=
  String.eqb (ac_Role ac) DRBDRolePrimary && match dr_DeviceIOSuspended d with Some suspended => negb suspended | None => false end.
Definition inconsistentVerdict rvr (serving : bool) : string * string :=
  match List.find (λ p, String.eqb (p_ReplicationState p) ReplicationStateSyncTarget) (rvr_Peers rvr) with
  | Some p => (BackingVolumeUpToDateReasonSynchronizing,
               "Backing volume is synchronizing from peer " +:+ p_Name p +:+ (if serving then "; application I/O forwarded to peers" else ""))
  | None =>
      match List.find (λ p, String.eqb (p_BackingVolumeState p) DiskStateUpToDate &&
                            String.eqb (p_ReplicationState p) ReplicationStateEstablished) (rvr_Peers rvr) with
      | Some p => (BackingVolumeUpToDateReasonSynchronizing,
                   "Backing volume synchronized via intermediate peer " +:+ p_Name p +:+
                   ", but no direct connection to an attached peer; cannot transition to UpToDate until a direct peer connection is established")
      | None =>
          (BackingVolumeUpToDateReasonRequiresSynchronization,
           if negb (existsb (λ p, String.eqb (p_BackingVolumeState p) DiskStateUpToDate) (rvr_Peers rvr))
           then "Backing volume requires synchronization, but no up-to-date peers are available"
           else if serving then "Backing volume requires synchronization from an up-to-date peer; application I/O forwarded to peers"
           else "Backing volume requires synchronization from an up-to-date peer")
      end
  end.
(** The reason and message of a disk that is not UpToDate. *)
Definition diskVerdict rvr (disk : string) (serving : bool) : string * string :=
  let fwd (s : string) := if serving then s +:+ "; application I/O forwarded to peers" else s in
  let moving (s : string) := if serving then s +:+ "; application I/O transitioning to peers" else s in
  if String.eqb disk DiskStateDiskless then
    (BackingVolumeUpToDateReasonAbsent, if serving then "No backing volume; application I/O forwarded to peers" else "No backing volume attached")
  else if String.eqb disk DiskStateAttaching then
    (BackingVolumeUpToDateReasonAbsent, fwd "Backing volume is being attached; reading metadata from local device")
  else if String.eqb disk DiskStateDetaching then (BackingVolumeUpToDateReasonAbsent, moving "Backing volume is being detached")
  else if String.eqb disk DiskStateFailed then (BackingVolumeUpToDateReasonFailed, moving "Backing volume failed due to I/O errors")
  else if String.eqb disk DiskStateNegotiating then
    (BackingVolumeUpToDateReasonUnknown, fwd "Backing volume state is not yet determined; negotiating with peers after attach")
  else if String.eqb disk DiskStateOutdated then
    (BackingVolumeUpToDateReasonRequiresSynchronization, fwd "Backing volume data is outdated; awaiting resynchronization from up-to-date peer")
  else if String.eqb disk DiskStateConsistent then
    (BackingVolumeUpToDateReasonUnknown, "Backing volume data was consistent; peer connection required to confirm up-to-date status")
  else if String.eqb disk DiskStateInconsistent then inconsistentVerdict rvr serving
  else (BackingVolumeUpToDateReasonUnknown, fwd ("Unknown backing volume state: " +:+ disk)).
Definition backingVolumeUpToDateVerdict rvr drbdr (member : option DatameshMember) (agentReady pending : bool) : error + said :=
  let relevant := bool_decide (is_Some member) &&
                  (NeedsBackingVolume (computeIntendedType rvr member) || bool_decide (is_Some (rvr_BackingVolume rvr))) in
  match drbdr with
  | None => inr None
  | Some d =>
      if negb relevant then inr None
      else if negb agentReady then inr (agentIsNotReady BackingVolumeUpToDateReasonAgentNotReady)
      else if pending then inr (beingApplied BackingVolumeUpToDateReasonApplyingConfiguration)
      else
        match dr_ActiveConfiguration d with
        | None => inl (Leaf "drbdr.Status.ActiveConfiguration is nil after configuration is no longer pending" false)
        | Some ac =>
            if String.eqb (dr_DiskState d) DiskStateUpToDate
            then inr (set_to ConditionTrue BackingVolumeUpToDateReasonUpToDate
                        (if servingIO d ac then "Backing volume is fully up-to-date; application I/O served locally"
                         else "Backing volume is fully up-to-date"))
            else let '(reason, message) := diskVerdict rvr (dr_DiskState d) (servingIO d ac) in
                 inr (set_to ConditionFalse reason message)
        end
  end.

(** *** Ready *)
Definition numOrUnknown (v : option Z) : string := match v with Some n => itoa n | None => "unknown" end.
Definition quorumMessage rvr (qs : QuorumSummary) : string :=
  let own (f : string → bool) := match rvr_BackingVolume rvr with Some bv => if f (bv_State bv) then 1 else 0 | None => 0 end in
  let diskfulVotes := qs_ConnectedDiskfulPeers qs + own (λ st, negb (String.eqb st DiskStateDiskless) && negb (String.eqb st DiskStateAttaching)) in
  let upToDateVotes := qs_ConnectedUpToDatePeers qs + own (λ st, String.eqb st DiskStateUpToDate) in
  "Quorum: diskful " +:+ itoa diskfulVotes +:+ "/" +:+ numOrUnknown (qs_Quorum qs) +:+
  (if 0 <? qs_ConnectedTieBreakerPeers qs then " + tie-breakers " +:+ itoa (qs_ConnectedTieBreakerPeers qs) else "") +:+
  ", data quorum: " +:+ itoa upToDateVotes +:+ "/" +:+ numOrUnknown (qs_QuorumMinimumRedundancy qs).
Definition quorumVerdict rvr d (qs : QuorumSummary) : said :=
  let status := if default false (dr_Quorum d) then ConditionTrue else ConditionFalse in
  if bool_decide (rvr_Status_Type rvr = DRBDDiskless)
  then set_to status ReadyReasonQuorumViaPeers
         ("Diskless replica; quorum via connected peers (data quorum: " +:+ itoa (qs_ConnectedUpToDatePeers qs) +:+ "/" +:+
          numOrUnknown (qs_QuorumMinimumRedundancy qs) +:+ ")")
  else set_to status (if default false (dr_Quorum d) then ReadyReasonReady else ReadyReasonQuorumLost) (quorumMessage rvr qs).
Definition readyVerdict rvr (rv : option ReplicatedVolume) drbdr (member : option DatameshMember) (agentReady pending : bool) :
    outcome said :=
  let wait (message : string) := Ok (set_to ConditionUnknown ReadyReasonWaitingForReplicatedVolume message) in
  if rvrShouldNotExist rvr then Ok (set_to ConditionFalse ReadyReasonTerminating "Replica is terminating")
  else
    match rv with
    | None => wait "ReplicatedVolume not found; waiting for it to be present"
    | Some rv =>
        if rv_DatameshRevision rv =? 0 then wait "Datamesh is not initialized yet; waiting for ReplicatedVolume to initialize it"
        else if bool_decide (rv_SystemNetworkNames rv = [])
        then wait "No system networks in datamesh; waiting for ReplicatedVolume to configure them"
        else if String.eqb (rvr_Spec_NodeName rvr) ""
        then Ok (set_to ConditionFalse ReadyReasonPendingScheduling "Waiting for node assignment")
        else
          match drbdr with
          | None => Panic ("ensureConditionReady: drbdr is nil for RVR " +:+ rvr_Name rvr +:+ " but all known prerequisites are met")
          | Some d =>
              if negb agentReady then Ok (agentIsNotReady ReadyReasonAgentNotReady)
              else if pending then Ok (beingApplied ReadyReasonApplyingConfiguration)
              else
                match member with
                | None => Ok (match rvr_DeletionTimestamp rvr with
                              | Some _ => set_to ConditionFalse ReadyReasonTerminating "Replica is terminating"
                              | None => set_to ConditionFalse ReadyReasonPendingDatameshJoin "Waiting to join datamesh"
                              end)
                | Some _ => qs ← deref (rvr_QuorumSummary rvr); Ok (quorumVerdict rvr d qs)
                end
          end
    end.

(** *** SatisfyEligibleNodes *)
Definition thinPoolMismatchMessage (rspType : ReplicatedStoragePoolType) (lvgName thinPool : string) : string :=
  if negb (String.eqb thinPool "") && bool_decide (rspType = PoolLVM)
  then "ThinPool " +:+ quote thinPool +:+ " is specified, but ReplicatedStoragePool type is LVM (thick), which does not use ThinPools"
  else if String.eqb thinPool "" && bool_decide (rspType = PoolLVMThin)
  then "ThinPool is not specified, but ReplicatedStoragePool type is LVMThin, which requires a ThinPool"
  else if negb (String.eqb thinPool "")
  then "ThinPool " +:+ quote thinPool +:+ " is not in the allowed list for LVMVolumeGroup " +:+ quote lvgName +:+ " according to ReplicatedStoragePool"
  else "Unexpected state: LVMVolumeGroup " +:+ quote lvgName +:+
       " exists in eligible nodes but no entry matches the expected ThinPool configuration for this ReplicatedStoragePool type".
Definition findLVGInEligibleNodeByName (node : EligibleNode) (lvgName : string) : option EligibleNodeLVMVolumeGroup :=
  List.find (λ g, String.eqb (lvg_Name g) lvgName) (en_LVMVolumeGroups node).
Definition findLVGInEligibleNode (node : EligibleNode) (lvgName thinPoolName : string) : option EligibleNodeLVMVolumeGroup :=
  List.find (λ g, String.eqb (lvg_Name g) lvgName && String.eqb (lvg_ThinPoolName g) thinPoolName) (en_LVMVolumeGroups node).
Definition when (b : bool) (s : string) : list string := if b then [s] else [].
(** Commas and "and" before the last element. *)
Fixpoint serial (l : list string) : string :=
  match l with
  | [] => ""
  | [x] => "and " +:+ x
  | x :: l => x +:+ ", " +:+ serial l
  end.
Definition enumerate (l : list string) : string :=
  match l with
  | [] => ""
  | [x] => x
  | [x; y] => x +:+ " and " +:+ y
  | _ => serial l
  end.
Definition computeEligibilityWarnings (node : EligibleNode) (lvg : option EligibleNodeLVMVolumeGroup) : string :=
  enumerate (when (en_Unschedulable node) "node is unschedulable" ++ when (negb (en_NodeReady node)) "node is not ready" ++
             when (negb (en_AgentReady node)) "agent is not ready" ++
             match lvg with
             | Some g => when (lvg_Unschedulable g) "LVMVolumeGroup is unschedulable" ++
                         when (negb (lvg_Ready g)) "LVMVolumeGroup is not ready"
             | None => []
             end).
Definition satisfied (node : EligibleNode) (lvg : option EligibleNodeLVMVolumeGroup) : said :=
  let warnings := computeEligibilityWarnings node lvg in
  set_to ConditionTrue SatisfyEligibleNodesReasonSatisfied
    ("Replica satisfies eligible nodes requirements" +:+
     (if String.eqb warnings "" then "" else ", however note that currently " +:+ warnings)).
Definition storageVerdict rvr (v : rspEligibilityView) (node : EligibleNode) : said :=
  let lvg := rvr_Spec_LVMVolumeGroupName rvr in
  let thin := rvr_Spec_LVMVolumeGroupThinPoolName rvr in
  if isDiskful rvr && negb (String.eqb lvg "") then
    match findLVGInEligibleNodeByName node lvg with
    | None => set_to ConditionFalse SatisfyEligibleNodesReasonLVMVolumeGroupMismatch
                "Node is eligible, but LVMVolumeGroup is not in the allowed list for this node according to ReplicatedStoragePool"
    | Some _ =>
        match findLVGInEligibleNode node lvg thin with
        | None => set_to ConditionFalse SatisfyEligibleNodesReasonThinPoolMismatch (thinPoolMismatchMessage (ev_Type v) lvg thin)
        | Some g => satisfied node (Some g)
        end
    end
  else satisfied node None.
Definition satisfyEligibleNodesVerdict rvr (rv : option ReplicatedVolume) view : said :=
  let wait (message : string) := set_to ConditionUnknown SatisfyEligibleNodesReasonWaitingForReplicatedVolume message in
  if String.eqb (rvr_Spec_NodeName rvr) "" then None
  else
    match rv with
    | None => wait "ReplicatedVolume not found; waiting for it to be present"
    | Some rv =>
        match rv_Configuration rv with
        | None => wait "ReplicatedVolume has no configuration yet; waiting for it to appear"
        | Some _ =>
            match view with
            | None => wait "ReplicatedStoragePool not found; waiting for it to be present"
            | Some v =>
                match ev_EligibleNode v with
                | None => set_to ConditionFalse SatisfyEligibleNodesReasonNodeMismatch
                            "Node is not in the eligible nodes list according to ReplicatedStoragePool"
                | Some node => storageVerdict rvr v node
                end
            end
        end
    end.

(** *** The ensure helpers *)
Context {S : Server}.
Definition applyVerdict rvr (ty : string) (v : said) : M ensured :=
  match v with
  | None => let '(changed, rvr) := RemoveStatusCondition rvr ty in mret (ok rvr changed)
  | Some (status, reason, message) => '(changed, rvr) ← SetStatusCondition rvr (verdict ty status reason message); mret (ok rvr changed)
  end.
Definition ensureConditionAttached rvr drbdr (member : option DatameshMember) (agentReady pending : bool) : M ensured :=
  applyVerdict rvr CondAttachedType (attachedVerdict drbdr member agentReady pending).
Definition ensureConditionFullyConnected rvr drbdr (rv : option ReplicatedVolume) (agentReady : bool) : M ensured :=
  applyVerdict rvr CondFullyConnectedType (fullyConnectedVerdict rvr drbdr rv agentReady).
Definition ensureConditionBackingVolumeUpToDate rvr drbdr (member : option DatameshMember) (agentReady pending : bool) : M ensured :=
  match backingVolumeUpToDateVerdict rvr drbdr member agentReady pending with
  | inl e => mret (rvr, {| eo_err := Some e; eo_changed := false |})
  | inr v => applyVerdict rvr CondBackingVolumeUpToDateType v
  end.
Definition ensureConditionReady rvr (rv : option ReplicatedVolume) drbdr (member : option DatameshMember) (agentReady pending : bool) :
    M ensured :=
  v ← lift (readyVerdict rvr rv drbdr member agentReady pending); applyVerdict rvr CondReadyType v.
Definition ensureConditionSatisfyEligibleNodes rvr (rv : option ReplicatedVolume) view : M ensured :=
  applyVerdict rvr CondSatisfyEligibleNodesType (satisfyEligibleNodesVerdict rvr rv view).
End conditions.
End rvr_conditions.

Import idset drbd_size v1alpha1 objutilv1 storage drbd flow client pipeline layout replicas rva_status rvr_base backing drbd_resource rvr_status.
Import rvr_conditions.

Module rvr_phase.

Definition ReplicaPhasePending : string := "Pending".
Definition ReplicaPhaseProvisioning : string := "Provisioning".
Definition ReplicaPhaseConfiguring : string := "Configuring".
Definition ReplicaPhaseWaitingForDatamesh : string := "WaitingForDatamesh".
Definition ReplicaPhaseSynchronizing : string := "Synchronizing".
Definition ReplicaPhaseHealthy : string := "Healthy".
Definition ReplicaPhasePartiallyDegraded : string := "PartiallyDegraded".
Definition ReplicaPhaseDegraded : string := "Degraded".
Definition ReplicaPhaseCritical : string := "Critical".
Definition ReplicaPhaseProgressing : string := "Progressing".
Definition ReplicaPhaseAgentNotReady : string := "AgentNotReady".
Definition ReplicaPhaseTerminating : string := "Terminating".

Section phase.
Context {K : K8s} {Meta : MetaApi}.
Implicit Types (rvr : ReplicatedVolumeReplica) (c : option Condition).

Definition isFalse c : bool := match c with Some c => String.eqb (c_Status c) ConditionFalse | None => false end.
Definition isTrue c : bool := match c with Some c => String.eqb (c_Status c) ConditionTrue | None => false end.
(** Present and not True. *)
Definition isNotTrue c : bool := match c with Some c => negb (String.eqb (c_Status c) ConditionTrue) | None => false end.
Definition hasReason c (reason : string) : bool := match c with Some c => String.eqb (c_Reason c) reason | None => false end.
Definition reasonIn c (reasons : list string) : bool := match c with Some c => slices_Contains reasons (c_Reason c) | None => false end.
Definition messageOf c : string := match c with Some c => c_Message c | None => "" end.
(** Present with a message. *)
Definition hasMessage c : bool := negb (String.eqb (messageOf c) "").

(** ** Problems of a member *)
Inductive memberProblemSeverity := severityNone | severityPartiallyDegraded | severityDegraded.
#[export] Instance memberProblemSeverity_eq_dec : EqDecision memberProblemSeverity.
Proof. solve_decision. Defined.
Definition severity_rank (s : memberProblemSeverity) : Z :=
  match s with severityNone => 0 | severityPartiallyDegraded => 1 | severityDegraded => 2 end.
Definition attachmentProblems rvr : list (memberProblemSeverity * string) :=
  let att := GetStatusCondition rvr CondAttachedType in
  if isFalse att && hasReason att AttachedReasonAttachmentFailed then [(severityDegraded, "Attachment failed")]
  else if isTrue att && hasReason att AttachedReasonDetachmentFailed then [(severityPartiallyDegraded, "Detachment failed")]
  else [].
Definition connectionProblems rvr : list (memberProblemSeverity * string) :=
  let fc := GetStatusCondition rvr CondFullyConnectedType in
  if negb (isFalse fc) then []
  else if hasReason fc FullyConnectedReasonNotConnected then [(severityDegraded, "Not connected to any peer")]
  else if hasReason fc FullyConnectedReasonPartiallyConnected then [(severityPartiallyDegraded, "Partially connected to peers")]
  else [].
Definition diskProblems rvr : list (memberProblemSeverity * string) :=
  let bvu := GetStatusCondition rvr CondBackingVolumeUpToDateType in
  if negb (isFalse bvu) then []
  else if hasReason bvu BackingVolumeUpToDateReasonFailed then [(severityDegraded, "Disk failed")]
  else if hasReason bvu BackingVolumeUpToDateReasonRequiresSynchronization
  then [(severityPartiallyDegraded, "Backing volume requires synchronization")]
  else if hasReason bvu BackingVolumeUpToDateReasonUnknown then [(severityPartiallyDegraded, "Backing volume state unknown")]
  else if hasReason bvu BackingVolumeUpToDateReasonAbsent then [(severityPartiallyDegraded, "Backing volume absent")]
  else [].
Definition placementProblems rvr : list (memberProblemSeverity * string) :=
  let sen := GetStatusCondition rvr CondSatisfyEligibleNodesType in
  if negb (isFalse sen) then []
  else if hasReason sen SatisfyEligibleNodesReasonNodeMismatch then [(severityNone, "Node not eligible")]
  else if hasReason sen SatisfyEligibleNodesReasonLVMVolumeGroupMismatch then [(severityNone, "LVG not eligible")]
  else if hasReason sen SatisfyEligibleNodesReasonThinPoolMismatch then [(severityNone, "ThinPool not eligible")]
  else [].
Definition volumeProblems bvReady : list (memberProblemSeverity * string) :=
  if negb (isFalse bvReady) then []
  else if hasReason bvReady ReasonProvisioningFailed then [(severityDegraded, "Provisioning failed")]
  else if hasReason bvReady ReasonResizeFailed then [(severityDegraded, "Resize failed")]
  else [].
Definition drbdProblems drbdConfigured : list (memberProblemSeverity * string) :=
  if isFalse drbdConfigured && hasReason drbdConfigured ReasonConfigurationFailed
  then [(severityDegraded, "DRBD configuration failed")] else [].
Definition memberProblems rvr bvReady drbdConfigured : list (memberProblemSeverity * string) :=
  attachmentProblems rvr ++ connectionProblems rvr ++ diskProblems rvr ++ placementProblems rvr ++
  volumeProblems bvReady ++ drbdProblems drbdConfigured.
Definition maxSeverity (a b : memberProblemSeverity) : memberProblemSeverity := if severity_rank a <? severity_rank b then b else a.
Definition computeMemberProblemsAndSeverity rvr bvReady drbdConfigured : string * memberProblemSeverity :=
  let ps := memberProblems rvr bvReady drbdConfigured in
  (foldr (λ p s, ". " +:+ p.2 +:+ s) "" ps, foldl (λ m p, maxSeverity m p.1) severityNone ps).
Definition computeMemberProblems rvr bvReady drbdConfigured : string := (computeMemberProblemsAndSeverity rvr bvReady drbdConfigured).1.

Definition computeMemberProgress bvReady drbdConfigured : string :=
  join ". "
    ((if negb (isFalse bvReady) then []
      else if hasReason bvReady ReasonProvisioning then ["Provisioning backing volume"]
      else if hasReason bvReady ReasonReprovisioning then ["Reprovisioning backing volume"]
      else if hasReason bvReady ReasonResizing then ["Resizing backing volume"]
      else if hasReason bvReady ReasonNotReady then ["Backing volume not ready"] else []) ++
     when (match drbdConfigured with Some c => String.eqb (c_Status c) ConditionUnknown | None => false end &&
           hasReason drbdConfigured ReasonApplyingConfiguration) "Applying DRBD configuration" ++
     when (isFalse drbdConfigured && hasReason drbdConfigured ReasonWaitingForBackingVolume) "Waiting for backing volume" ++
     when (isFalse drbdConfigured && hasReason drbdConfigured ReasonWaitingForDRBDResize) "Waiting for DRBD resize").

(** ** Members *)
Definition operationalPhases : list string :=
  [ReplicaPhaseHealthy; ReplicaPhasePartiallyDegraded; ReplicaPhaseDegraded; ReplicaPhaseSynchronizing; ReplicaPhaseCritical].
Definition memberEverHadQuorum rvr : bool :=
  bool_decide (is_Some (rvr_InitialQuorumReachedAt rvr)) || slices_Contains operationalPhases (rvr_Phase rvr).
Definition quorumMissing ready : bool := isFalse ready && reasonIn ready [ReadyReasonQuorumLost; ReadyReasonQuorumViaPeers].
Definition ioSuspended rvr : bool :=
  let att := GetStatusCondition rvr CondAttachedType in isFalse att && hasReason att AttachedReasonIOSuspended.
Definition memberFallback ready bvReady drbdConfigured : string :=
  if isNotTrue drbdConfigured && hasMessage drbdConfigured then messageOf drbdConfigured
  else if isNotTrue bvReady && hasMessage bvReady then messageOf bvReady
  else if hasMessage ready then messageOf ready
  else "Unable to determine health status".
Definition memberHealth rvr ready bvReady drbdConfigured : string * string :=
  let '(problems, severity) := computeMemberProblemsAndSeverity rvr bvReady drbdConfigured in
  let progress := computeMemberProgress bvReady drbdConfigured in
  if isTrue ready then
    match severity with
    | severityDegraded => (ReplicaPhaseDegraded, messageOf ready +:+ problems)
    | severityPartiallyDegraded => (ReplicaPhasePartiallyDegraded, messageOf ready +:+ problems)
    | severityNone =>
        if negb (String.eqb progress "") then (ReplicaPhaseProgressing, messageOf ready +:+ ". " +:+ progress +:+ problems)
        else (ReplicaPhaseHealthy, messageOf ready +:+ problems)
    end
  else if negb (String.eqb progress "") then (ReplicaPhaseProgressing, progress +:+ problems)
  else (ReplicaPhasePartiallyDegraded, memberFallback ready bvReady drbdConfigured).
Definition computeMemberPhaseAndMessage rvr ready bvUpToDate bvReady drbdConfigured : string * string :=
  let problems := computeMemberProblems rvr bvReady drbdConfigured in
  if quorumMissing ready then
    if negb (memberEverHadQuorum rvr)
    then (ReplicaPhaseProgressing, "Waiting for initial quorum. " +:+ messageOf ready +:+ problems)
    else (ReplicaPhaseCritical, messageOf ready +:+ problems)
  else if ioSuspended rvr then (ReplicaPhaseCritical, messageOf (GetStatusCondition rvr CondAttachedType) +:+ problems)
  else if isFalse bvUpToDate && hasReason bvUpToDate BackingVolumeUpToDateReasonSynchronizing
  then (ReplicaPhaseSynchronizing, messageOf bvUpToDate +:+ problems)
  else memberHealth rvr ready bvReady drbdConfigured.

(** ** Replicas that are not members *)
Definition preMemberFallback ready bvReady drbdConfigured : string :=
  if isNotTrue drbdConfigured && hasMessage drbdConfigured then messageOf drbdConfigured
  else if isNotTrue bvReady && hasMessage bvReady then messageOf bvReady
  else if isNotTrue ready && hasMessage ready then messageOf ready
  else "Configuring".
Definition provisioningReasons : list string :=
  [ReasonProvisioning; ReasonReprovisioning; ReasonResizing; ReasonProvisioningFailed; ReasonResizeFailed; ReasonNotReady].
Definition configuring drbdConfigured : bool :=
  match drbdConfigured with
  | None => false
  | Some c => (String.eqb (c_Status c) ConditionUnknown && String.eqb (c_Reason c) ReasonApplyingConfiguration) ||
              (String.eqb (c_Status c) ConditionFalse &&
               negb (slices_Contains [ReasonPendingDatameshJoin; ReasonAgentNotReady; ReasonNotApplicable] (c_Reason c)))
  end.
Definition preMemberPhaseAndMessage rvr ready bvReady drbdConfigured : string * string :=
  let scheduled := GetStatusCondition rvr CondScheduledType in
  if String.eqb (rvr_Spec_NodeName rvr) "" || isNotTrue scheduled then
    (ReplicaPhasePending,
     if hasMessage scheduled then messageOf scheduled else if hasMessage bvReady then messageOf bvReady else "Waiting for scheduling")
  else if isFalse bvReady && reasonIn bvReady provisioningReasons then (ReplicaPhaseProvisioning, messageOf bvReady)
  else if configuring drbdConfigured then (ReplicaPhaseConfiguring, messageOf drbdConfigured)
  else if isFalse drbdConfigured && hasReason drbdConfigured ReasonPendingDatameshJoin then
    let configured := GetStatusCondition rvr CondConfiguredType in
    (ReplicaPhaseWaitingForDatamesh, if hasMessage configured then messageOf configured else messageOf drbdConfigured)
  else (ReplicaPhaseConfiguring, preMemberFallback ready bvReady drbdConfigured).

(** ** All replicas *)
Definition computeTerminatingMessage rvr : string :=
  let drbdConfigured := GetStatusCondition rvr CondDRBDConfiguredType in
  let bvReady := GetStatusCondition rvr CondBackingVolumeReadyType in
  if isFalse drbdConfigured && negb (hasReason drbdConfigured ReasonNotApplicable) && hasMessage drbdConfigured
  then messageOf drbdConfigured
  else match app (when (hasMessage drbdConfigured) (messageOf drbdConfigured)) (when (hasMessage bvReady) (messageOf bvReady)) with
       | [] => "Replica is terminating"
       | parts => join "; " parts
       end.
Definition computeDeletionNote rvr : string :=
  let configured := GetStatusCondition rvr CondConfiguredType in
  if hasMessage configured then ". " +:+ messageOf configured else ". Deletion pending".
Definition computeNormalPhaseAndMessage rvr : string * string :=
  let drbdConfigured := GetStatusCondition rvr CondDRBDConfiguredType in
  let bvReady := GetStatusCondition rvr CondBackingVolumeReadyType in
  let ready := GetStatusCondition rvr CondReadyType in
  let bvUpToDate := GetStatusCondition rvr CondBackingVolumeUpToDateType in
  if hasReason drbdConfigured ReasonAgentNotReady then (ReplicaPhaseAgentNotReady, messageOf drbdConfigured)
  else if bool_decide (is_Some (rvr_DeletionTimestamp rvr)) && (rvr_DatameshRevision rvr =? 0)
  then (ReplicaPhaseTerminating, if hasMessage ready then messageOf ready else "Replica is terminating")
  else if 0 <? rvr_DatameshRevision rvr then computeMemberPhaseAndMessage rvr ready bvUpToDate bvReady drbdConfigured
  else preMemberPhaseAndMessage rvr ready bvReady drbdConfigured.
Definition computeRVRPhaseAndMessage rvr : string * string :=
  if rvrShouldNotExist rvr then (ReplicaPhaseTerminating, computeTerminatingMessage rvr)
  else
    let '(phase, msg) := computeNormalPhaseAndMessage rvr in
    (phase, match rvr_DeletionTimestamp rvr with Some _ => msg +:+ computeDeletionNote rvr | None => msg end).
Definition ensureStatusPhaseAndMessage rvr : ensured :=
  let '(phase, message) := computeRVRPhaseAndMessage rvr in
  let changed := negb (String.eqb (rvr_Phase rvr) phase) || negb (String.eqb (rvr_Message rvr) message) in
  ok (rvr <| rvr_Phase := phase |> <| rvr_Message := message |>) changed.
End phase.
End rvr_phase.
