(* ===== verification/RvrController.v ===== *)
(** * rvr_controller: one reconciliation of a replica

    Source: rvr_controller/reconciler.go, Reconcile.  The observations of the metrics have no effect on
    the objects or on the outcome and are left out. *)

From Stdlib Require Import ZArith Lia String.
From stdpp Require Import base gmap list numbers strings option.
From S2P Require Import Prelude IdSet DrbdSize Api Object Storage Flow Client.
From S2P Require Import Pipeline Context Layout Rollout Replicas RvaStatus RvrBase BackingVolume DrbdResource RvrStatus.
From S2P Require Import RvrConditions.
Import idset drbd_size v1alpha1 objutilv1 storage drbd flow client pipeline layout replicas rva_status rvr_base backing drbd_resource rvr_status.
Import rvr_conditions rvr_phase.

Module rvr_controller.
Section controller.
Context {K : K8s} {Meta : MetaApi} {S : Server}.
Implicit Types (rvr : ReplicatedVolumeReplica) (llvs : list LVMLogicalVolume) (view : option rspEligibilityView)
  (drbdr : option DRBDResource).

Definition agentReadyOf rvr : bool :=
  match GetStatusCondition rvr CondDRBDConfiguredType with
  | Some c => negb (String.eqb (c_Reason c) ReasonAgentNotReady) | None => false end.
Definition configurationPending rvr : bool :=
  match GetStatusCondition rvr CondDRBDConfiguredType with
  | Some c => String.eqb (c_Reason c) ReasonApplyingConfiguration | None => false end.

(** The ensure helpers, in order; an error of one does not keep the next from running. *)
Definition ensureFields rvr (rv : option ReplicatedVolume) drbdr llvs (agentReady pending : bool) : M (ReplicatedVolumeReplica * list EnsureOutcome) :=
  let '(rvr, e1) := ensureStatusAddressesAndType rvr drbdr in
  let '(rvr, e2) := ensureStatusSize rvr drbdr in
  let '(rvr, e3) := ensureStatusAttachment rvr drbdr agentReady pending in
  let '(rvr, e4) := ensureStatusPeers rvr drbdr rv in
  let '(rvr, e5) := ensureStatusBackingVolume rvr drbdr llvs in
  let '(rvr, e6) := ensureStatusQuorum rvr drbdr in
  '(rvr, e7) ← ensureStatusInitialQuorumReachedAt rvr;
  mret (rvr, [e1; e2; e3; e4; e5; e6; e7]).
Definition ensureConditions rvr (rv : option ReplicatedVolume) drbdr view (member : option DatameshMember) (agentReady pending : bool) :
    M (ReplicatedVolumeReplica * list EnsureOutcome) :=
  '(rvr, e1) ← ensureConditionAttached rvr drbdr member agentReady pending;
  '(rvr, e2) ← ensureConditionFullyConnected rvr drbdr rv agentReady;
  '(rvr, e3) ← ensureConditionBackingVolumeUpToDate rvr drbdr member agentReady pending;
  '(rvr, e4) ← ensureConditionReady rvr rv drbdr member agentReady pending;
  '(rvr, e5) ← ensureConditionSatisfyEligibleNodes rvr rv view;
  mret (rvr, [e1; e2; e3; e4; e5]).
Definition ensureStatus rvr (rv : option ReplicatedVolume) drbdr llvs view : M ensured :=
  let agentReady := agentReadyOf rvr in
  let pending := configurationPending rvr in
  let member := rv ← rv; FindMemberByName rv (rvr_Name rvr) in
  '(rvr, fields) ← ensureFields rvr rv drbdr llvs agentReady pending;
  '(rvr, conds) ← ensureConditions rvr rv drbdr view member agentReady pending;
  '(rvr, e1) ← ensureStatusDatameshRequestAndConfiguredCond rvr rv view;
  let '(rvr, e2) := ensureStatusPhaseAndMessage rvr in
  mret (rvr, MergeEnsures (fields ++ conds ++ [e1; e2])).

(** The status patch against [base]; a replica that waits for its finalizer is requeued. *)
Definition finish (base rvr : ReplicatedVolumeReplica) (o : ReconcileOutcome) : M ReconcileOutcome :=
  let requeue rvr := if rvrShouldNotExist rvr && HasFinalizer rvr RVRControllerFinalizer then Merge o [ContinueAndRequeue] else o in
  if changed o then
    '(rvr, e) ← patchRVRStatus rvr base;
    mret (match e with Some e => failed e | None => requeue rvr end)
  else mret (requeue rvr).
Definition reconcileStatus (base rvr : ReplicatedVolumeReplica) (rv : option ReplicatedVolume) drbdr llvs view (o : ReconcileOutcome) : M ReconcileOutcome :=
  '(rvr, eo) ← ensureStatus rvr rv drbdr llvs view;
  match eo_err eo with
  | Some e => mret (fail e "ensuring status")
  | None => finish base rvr (WithChangeFrom o eo)
  end.
(** The children, then the status. *)
Definition reconcileChildren (rvr : option ReplicatedVolumeReplica) (rv : option ReplicatedVolume) drbdr llvs view : M ReconcileOutcome :=
  '(bv, o) ← reconcileBackingVolume rvr llvs rv drbdr view;
  if ShouldReturn o then mret o
  else
    '(rvr', drbdr, ro) ← reconcileDRBDResource (br_rvr bv) rv drbdr (br_target bv) (br_intended bv);
    let o := Merge o [ro] in
    if ShouldReturn o then mret o
    else
      match rvr, rvr' with
      | Some base, Some rvr => reconcileStatus base rvr rv drbdr (br_llvs bv) view o
      | _, _ => mret o
      end.
Definition eligibilityView (rvr : option ReplicatedVolumeReplica) (rv : option ReplicatedVolume) : M (error + option rspEligibilityView) :=
  match rvr, (rv ← rv; rv_Configuration rv) with
  | Some r, Some cfg =>
      if String.eqb (rvr_Spec_NodeName r) "" then mret (inr None)
      else
        v ← getRSPEligibilityView (cfg_ReplicatedStoragePoolName cfg) (rvr_Spec_NodeName r);
        mret (match v with
              | inl e => inl (Wrapped ("getting RSP eligibility for " +:+ cfg_ReplicatedStoragePoolName cfg) e)
              | inr v => inr v
              end)
  | _, _ => mret (inr None)
  end.
(** From the objects that were read on. *)
Definition reconcileReplica (rvr : option ReplicatedVolumeReplica) (rv : option ReplicatedVolume) drbdr llvs view : M ReconcileOutcome :=
  match rvr with
  | None => reconcileChildren None rv drbdr llvs view
  | Some r =>
      '(r, o) ← reconcileMetadata r rv llvs drbdr;
      if ShouldReturn o then mret o else reconcileChildren (Some r) rv drbdr llvs view
  end.
Definition reconcileRead (rvr : option ReplicatedVolumeReplica) (name : string) : M ReconcileOutcome :=
  drbdr ← getDRBDR name;
  match drbdr with
  | inl e => mret (fail e "getting DRBDResource")
  | inr drbdr =>
      llvs ← getLLVs name drbdr;
      match llvs with
      | inl e => mret (fail e "listing LVMLogicalVolumes")
      | inr llvs =>
          rv ← getRVOf rvr;
          match rv with
          | inl e => mret (fail e ("getting ReplicatedVolume " +:+ match rvr with Some r => rvr_Spec_ReplicatedVolumeName r | None => "" end))
          | inr rv =>
              view ← eligibilityView rvr rv;
              match view with
              | inl e => mret (failed e)
              | inr view => reconcileReplica rvr rv drbdr llvs view
              end
          end
      end
  end.
Definition Reconcile (name : string) : M (Result * option error) :=
  rvr ← getRVR name;
  o ← match rvr with
      | inl e => mret (failed e)
      | inr rvr => reconcileRead rvr name
      end;
  mret (ToCtrl o).
End controller.
End rvr_controller.
