(* ===== verification/PoolController.v ===== *)
(** * rsp_controller and node_controller: eligible nodes of a pool, and the label of the agent

    Source: rsp_controller/reconciler.go, controller.go and predicates.go; node_controller/reconciler.go,
    controller.go and predicates.go.

    The selectors of apimachinery and the condition of a node are the class parameter [LabelsApi].  A Go
    map that is only looked up is a [gmap]; a set of reconcile requests is a [gset] of names, a queue the
    list of the names added to it. *)

From Stdlib Require Import ZArith Lia String Ascii.
From stdpp Require Import base gmap list numbers strings option sorting.
From S2P Require Import Prelude IdSet DrbdSize Api Object Storage Flow Client.
Import v1alpha1 objutilv1 storage drbd flow client.

(** metav1.LabelSelectorAsSelector (the requirements of the selector, or the text of the error),
    labels.NewRequirement, labels.SelectorFromValidatedSet, Requirement.Matches, json.Marshal of a
    selector, and nodeutil.GetNodeCondition. *)
Class LabelsApi := {
  LabelSelectorAsSelector : LabelSelector → string + list Requirement;
  NewRequirement : string → string → list string → string + Requirement;
  SelectorFromValidatedSet : gmap string string → list Requirement;
  Matches : Requirement → Labels → bool;
  MarshalLabelSelector : LabelSelector → string;
  GetNodeCondition : list NodeCondition → string → option NodeCondition;
}.

(** A look-up in a map that may be nil; a missing key reads as the empty string. *)
Definition label (ls : Labels) (key : string) : string := default "" (default ∅ ls !! key).
Definition LabelTopologyZone : string := "topology.kubernetes.io/zone".

Module rsp_controller.

Definition CondReadyType : string := "Ready".
Definition ReasonInvalidLVMVolumeGroup : string := "InvalidLVMVolumeGroup".
Definition ReasonInvalidNodeLabelSelector : string := "InvalidNodeLabelSelector".
Definition ReasonLVMVolumeGroupNotFound : string := "LVMVolumeGroupNotFound".
Definition ReasonReady : string := "Ready".
Definition LVMVolumeGroupUnschedulableAnnotationKey : string := "sds-replicated-volume.deckhouse.io/unschedulable".
Definition In : string := "in".

Section rsp.
Context {K : K8s} {Meta : MetaApi} {L : LabelsApi}.
Implicit Types (rsp : ReplicatedStoragePool).

(** ** Views *)
Record nodeViewReady := { nr_status : bool; nr_hasCondition : bool; nr_lastTransitionTime : Time }.
Record nodeView := { nv_name : string; nv_zoneName : string; nv_unschedulable : bool; nv_ready : nodeViewReady }.
Definition newNodeView (n : Node) : nodeView :=
  {| nv_name := no_Name n; nv_zoneName := label (no_Labels n) LabelTopologyZone; nv_unschedulable := no_Unschedulable n;
     nv_ready := match GetNodeCondition (no_Conditions n) "Ready" with
                 | Some c => {| nr_status := String.eqb (nc_Status c) "True"; nr_hasCondition := true;
                                nr_lastTransitionTime := nc_LastTransitionTime c |}
                 | None => {| nr_status := false; nr_hasCondition := false; nr_lastTransitionTime := 0 |}
                 end |}.

Record lvgView := {
  lv_name : string; lv_nodeName : string; lv_unschedulable : bool; lv_ready : bool;
  lv_specThinPoolNames : gset string; lv_thinPoolReady : gset string;
}.
Definition unschedulable (g : LVMVolumeGroup) : bool :=
  bool_decide (is_Some (default ∅ (vg_Annotations g) !! LVMVolumeGroupUnschedulableAnnotationKey)).
(** meta.IsStatusConditionTrue *)
Definition isStatusConditionTrue (cs : list Condition) (ty : string) : bool :=
  match FindStatusCondition cs ty with Some c => String.eqb (c_Status c) ConditionTrue | None => false end.
Definition newLVGView (g : LVMVolumeGroup) : lvgView :=
  {| lv_name := vg_Name g; lv_nodeName := vg_NodeName g; lv_unschedulable := unschedulable g;
     lv_ready := isStatusConditionTrue (vg_Conditions g) "Ready";
     lv_specThinPoolNames := list_to_set (vg_Spec_ThinPools g);
     lv_thinPoolReady := list_to_set (map fst (List.filter snd (vg_Status_ThinPools g))) |}.

(** ** Pure helpers *)
Definition isLVGReady (lvg : lvgView) (thinPoolName : string) : bool :=
  lv_ready lvg && (String.eqb thinPoolName "" || bool_decide (thinPoolName ∈ lv_thinPoolReady lvg)).

Definition areLVGsEqual (a b : list EligibleNodeLVMVolumeGroup) : bool :=
  (Nat.eqb (length a) (length b)) &&
  forallb (λ '(x, y), String.eqb (lvg_Name x) (lvg_Name y) && String.eqb (lvg_ThinPoolName x) (lvg_ThinPoolName y) &&
    Bool.eqb (lvg_Unschedulable x) (lvg_Unschedulable y) && Bool.eqb (lvg_Ready x) (lvg_Ready y)) (combine a b).
Definition areEligibleNodesEqual (a b : list EligibleNode) : bool :=
  (Nat.eqb (length a) (length b)) &&
  forallb (λ '(x, y), String.eqb (en_NodeName x) (en_NodeName y) && String.eqb (en_ZoneName x) (en_ZoneName y) &&
    Bool.eqb (en_NodeReady x) (en_NodeReady y) && Bool.eqb (en_Unschedulable x) (en_Unschedulable y) &&
    Bool.eqb (en_AgentReady x) (en_AgentReady y) && areLVGsEqual (en_LVMVolumeGroups x) (en_LVMVolumeGroups y)) (combine a b).

(** The entries of each node, sorted by name and thin pool. *)
Definition lvgEntryLeb (a b : EligibleNodeLVMVolumeGroup) : bool :=
  match String.compare (lvg_Name a) (lvg_Name b) with
  | Lt => true | Gt => false | Eq => string_leb (lvg_ThinPoolName a) (lvg_ThinPoolName b)
  end.
Definition addLVG (lvgs : gmap string lvgView) (m : gmap string (list EligibleNodeLVMVolumeGroup)) (ref : PoolLVMVolumeGroup) :
    gmap string (list EligibleNodeLVMVolumeGroup) :=
  match lvgs !! pg_Name ref with
  | None => m
  | Some lvg =>
      if String.eqb (lv_nodeName lvg) "" then m
      else <[lv_nodeName lvg := default [] (m !! lv_nodeName lvg) ++
               [{| lvg_Name := lv_name lvg; lvg_ThinPoolName := pg_ThinPoolName ref; lvg_Unschedulable := lv_unschedulable lvg;
                   lvg_Ready := isLVGReady lvg (pg_ThinPoolName ref) |}]]> m
  end.
Definition buildLVGByNodeMap (lvgs : gmap string lvgView) rsp : gmap string (list EligibleNodeLVMVolumeGroup) :=
  sort_by lvgEntryLeb <$> foldl (addLVG lvgs) ∅ (rsp_Spec_LVMVolumeGroups rsp).

(** ** Validation: the text of the error *)
Fixpoint validateLVGs (lvgs : gmap string lvgView) (refs : list PoolLVMVolumeGroup) : outcome (option string) :=
  match refs with
  | [] => Ok None
  | ref :: refs =>
      if String.eqb (pg_ThinPoolName ref) ""
      then Ok (Some ("LVMVolumeGroup " +:+ quote (pg_Name ref) +:+ ": thinPoolName is required for LVMThin type"))
      else
        match lvgs !! pg_Name ref with
        | None => Panic ("validateRSPAndLVGs: LVG " +:+ quote (pg_Name ref) +:+ " not found in lvgs (invariant violation)")
        | Some lvg =>
            if bool_decide (pg_ThinPoolName ref ∈ lv_specThinPoolNames lvg) then validateLVGs lvgs refs
            else Ok (Some ("LVMVolumeGroup " +:+ quote (pg_Name ref) +:+ ": thinPool " +:+ quote (pg_ThinPoolName ref) +:+
                           " not found in Spec.ThinPools"))
        end
  end.
Definition validateRSPAndLVGs rsp (lvgs : gmap string lvgView) : outcome (option string) :=
  if bool_decide (rsp_Spec_Type rsp = PoolLVMThin) then validateLVGs lvgs (rsp_Spec_LVMVolumeGroups rsp) else Ok None.

(** ** Apply *)
Definition applyPhase rsp (phase : ReplicatedStoragePoolPhase) (message : string) : bool * ReplicatedStoragePool :=
  let '(c1, rsp) := if bool_decide (rsp_Phase rsp = phase) then (false, rsp) else (true, rsp <| rsp_Phase := phase |>) in
  let '(c2, rsp) := if String.eqb (rsp_Message rsp) message then (false, rsp) else (true, rsp <| rsp_Message := message |>) in
  (c1 || c2, rsp).
Definition applyEligibleNodesAndIncrementRevisionIfChanged rsp (eligibleNodes : list EligibleNode) : bool * ReplicatedStoragePool :=
  if areEligibleNodesEqual (rsp_EligibleNodes rsp) eligibleNodes then (false, rsp)
  else (true, rsp <| rsp_EligibleNodes := eligibleNodes |>
                  <| rsp_EligibleNodesRevision := wrapS64 (rsp_EligibleNodesRevision rsp + 1) |>).

(** ** The selector of the nodes, or the text of the error *)
Definition nodeSelector (dataNodeSelector : gmap string string) rsp : string + list Requirement :=
  let base := SelectorFromValidatedSet dataNodeSelector in
  let withLabels :=
    match rsp_Spec_NodeLabelSelector rsp with
    | None => inr base
    | Some sel =>
        match LabelSelectorAsSelector sel with
        | inl e => inl ("Invalid NodeLabelSelector: " +:+ e)
        | inr reqs => inr (base ++ reqs)
        end
    end in
  match withLabels with
  | inl e => inl e
  | inr reqs =>
      match rsp_Spec_Zones rsp with
      | [] => inr reqs
      | zones =>
          match NewRequirement LabelTopologyZone In zones with
          | inl e => inl ("Invalid Zones: " +:+ e)
          | inr req => inr (reqs ++ [req])
          end
      end
  end.

Section programs.
Context {S : Server}.

Definition applyReadyCondTrue rsp (reason message : string) : M (bool * ReplicatedStoragePool) :=
  SetStatusCondition rsp (verdict CondReadyType ConditionTrue reason message).
Definition applyReadyCondFalse rsp (reason message : string) : M (bool * ReplicatedStoragePool) :=
  SetStatusCondition rsp (verdict CondReadyType ConditionFalse reason message).

(** ** Eligible nodes *)

(** Node readiness, whether it is past its grace period, and the end of that period. *)
Definition isNodeReadyOrWithinGrace (ready : nodeViewReady) (gracePeriod : Z) : M (bool * bool * Time) :=
  if negb (nr_hasCondition ready) then mret (false, false, 0)
  else if nr_status ready then mret (true, false, 0)
  else
    let graceExpiresAt := nr_lastTransitionTime ready + gracePeriod in
    now ← do Now;
    mret (if graceExpiresAt <? now then (false, true, 0) else (false, false, graceExpiresAt)).
Definition earlier (earliest : option Time) (t : Time) : option Time :=
  match earliest with None => Some t | Some e => if t <? e then Some t else Some e end.
Fixpoint eligibleLoop (lvgByNode : gmap string (list EligibleNodeLVMVolumeGroup)) (gracePeriod : Z)
    (agentReadyByNode : gmap string bool) (nodes : list nodeView) (earliest : option Time) : M (list EligibleNode * option Time) :=
  match nodes with
  | [] => mret ([], earliest)
  | node :: nodes =>
      '(nodeReady, beyond, expiresAt) ← isNodeReadyOrWithinGrace (nv_ready node) gracePeriod;
      if beyond : bool then eligibleLoop lvgByNode gracePeriod agentReadyByNode nodes earliest
      else
        let earliest := if negb nodeReady && negb (expiresAt =? 0) then earlier earliest expiresAt else earliest in
        '(rest, earliest) ← eligibleLoop lvgByNode gracePeriod agentReadyByNode nodes earliest;
        mret ({| en_NodeName := nv_name node; en_ZoneName := nv_zoneName node;
                 en_LVMVolumeGroups := default [] (lvgByNode !! nv_name node); en_Unschedulable := nv_unschedulable node;
                 en_NodeReady := nodeReady; en_AgentReady := default false (agentReadyByNode !! nv_name node) |} :: rest, earliest)
  end.
Definition computeActualEligibleNodes rsp (lvgs : gmap string lvgView) (nodes : list nodeView) (agentReadyByNode : gmap string bool) :
    M (list EligibleNode * option Time) :=
  eligibleLoop (buildLVGByNodeMap lvgs rsp) (rsp_Spec_NotReadyGracePeriod rsp) agentReadyByNode nodes None.

(** ** Single-call helpers *)
Definition getRSP (name : string) : M (reply ReplicatedStoragePool) := do (GetRSP name).
Definition patchRSPStatus rsp (base : ReplicatedStoragePool) : M (ReplicatedStoragePool * option error) :=
  stored rsp <$> do (PatchRSPStatus base rsp).
(** The groups that were found, and one message for each one that was not, sorted. *)
Definition getLVGsByRSP rsp : M (error + gmap string lvgView * list string) :=
  match rsp_Spec_LVMVolumeGroups rsp with
  | [] => mret (inr (∅, []))
  | refs =>
      let wantedNames : gset string := list_to_set (map pg_Name refs) in
      r ← do ListLVGs;
      mret (match answer r with
            | inl e => inl e
            | inr items =>
                let lvgs : gmap string lvgView :=
                  foldl (λ m g, if bool_decide (vg_Name g ∈ wantedNames) then <[vg_Name g := newLVGView g]> m else m) ∅ items in
                let missing := List.filter (λ n, bool_decide (lvgs !! n = None)) (elements wantedNames) in
                inr (lvgs, sort_by string_leb (map (λ n, "LVMVolumeGroup " +:+ quote n +:+ " not found") missing))
            end)
  end.
Definition nodeViewLeb (a b : nodeView) : bool := string_leb (nv_name a) (nv_name b).
Definition getSortedNodes (selector : list Requirement) : M (error + list nodeView) :=
  r ← do (ListNodes selector);
  mret (match answer r with inl e => inl e | inr items => inr (sort_by nodeViewLeb (map newNodeView items)) end).
(** The first condition of type Ready decides. *)
Definition isPodReady (p : Pod) : bool :=
  match List.find (λ c, String.eqb (fst c) "Ready") (po_Conditions p) with Some c => String.eqb (snd c) "True" | None => false end.
Definition addAgent (m : gmap string bool) (p : Pod) : gmap string bool :=
  if String.eqb (po_NodeName p) "" then m
  else <[po_NodeName p := default false (m !! po_NodeName p) || isPodReady p]> m.
Definition getAgentReadiness (agentPodNamespace : string) : M (error + gmap string bool) :=
  r ← do (ListPods agentPodNamespace "agent");
  mret (match answer r with inl e => inl e | inr pods => inr (foldl addAgent ∅ pods) end).

(** ** Reconcile *)

(** Ready=False with its phase; the eligible nodes stay as they are. *)
Definition settle (base : ReplicatedStoragePool) (reason : string) (phase : ReplicatedStoragePoolPhase) (message : string) : M ReconcileOutcome :=
  '(c1, rsp) ← applyReadyCondFalse base reason message;
  let '(c2, rsp) := applyPhase rsp phase message in
  if c2 || c1 then '(_, e) ← patchRSPStatus rsp base; mret (DoneOrFail e) else mret Done.
(** time.Until: the duration from now, saturated. *)
Definition Until (t now : Time) : Z := Z.max (- 2 ^ 63) (Z.min (2 ^ 63 - 1) (t - now)).
Definition requeueAtExpiry (worldStateExpiresAt : option Time) : M ReconcileOutcome :=
  match worldStateExpiresAt with
  | None => mret Done
  | Some t => now ← do Now; lift (DoneAndRequeueAfter (Until t now))
  end.
Definition reconcileNodes rsp (lvgs : gmap string lvgView) (nodes : list nodeView) (agentReadyByNode : gmap string bool) : M ReconcileOutcome :=
  let base := rsp in
  '(eligibleNodes, worldStateExpiresAt) ← computeActualEligibleNodes rsp lvgs nodes agentReadyByNode;
  let '(c1, rsp) := applyEligibleNodesAndIncrementRevisionIfChanged rsp eligibleNodes in
  let message := "Eligible nodes calculated successfully: " +:+ itoa (Z.of_nat (length eligibleNodes)) +:+ " nodes" in
  '(c2, rsp) ← applyReadyCondTrue rsp ReasonReady message;
  let '(c3, rsp) := applyPhase rsp PoolPhaseReady message in
  if c3 || (c2 || c1) then
    '(_, e) ← patchRSPStatus rsp base;
    match e with Some e => mret (failed e) | None => requeueAtExpiry worldStateExpiresAt end
  else requeueAtExpiry worldStateExpiresAt.
Definition reconcileSelected (agentPodNamespace : string) rsp (lvgs : gmap string lvgView) (selector : list Requirement) : M ReconcileOutcome :=
  nodes ← getSortedNodes selector;
  match nodes with
  | inl e => mret (fail e "listing Nodes")
  | inr nodes =>
      agents ← getAgentReadiness agentPodNamespace;
      match agents with
      | inl e => mret (fail e "listing agent Pods")
      | inr agents => reconcileNodes rsp lvgs nodes agents
      end
  end.
Definition reconcilePool (agentPodNamespace : string) (dataNodeSelector : gmap string string) rsp : M ReconcileOutcome :=
  r ← getLVGsByRSP rsp;
  match r with
  | inl e => mret (fail e "listing LVMVolumeGroups")
  | inr (lvgs, missing) =>
      match missing with
      | _ :: _ => settle rsp ReasonLVMVolumeGroupNotFound PoolPhaseWaitingForLVMVolumeGroups
                    ("Some LVMVolumeGroups not found: " +:+ join newline missing)
      | [] =>
          invalid ← lift (validateRSPAndLVGs rsp lvgs);
          match invalid with
          | Some e => settle rsp ReasonInvalidLVMVolumeGroup PoolPhaseInvalidConfiguration ("RSP/LVG validation failed: " +:+ e)
          | None =>
              match nodeSelector dataNodeSelector rsp with
              | inl message => settle rsp ReasonInvalidNodeLabelSelector PoolPhaseInvalidConfiguration message
              | inr selector => reconcileSelected agentPodNamespace rsp lvgs selector
              end
          end
      end
  end.
Definition Reconcile (agentPodNamespace : string) (dataNodeSelector : gmap string string) (name : string) : M (Result * option error) :=
  r ← getRSP name;
  o ← match r with
      | NotFound _ => mret Done
      | AlreadyExists e | Refused e => mret (failed e)
      | Replied rsp => reconcilePool agentPodNamespace dataNodeSelector rsp
      end;
  mret (ToCtrl o).
End programs.

(** ** Which events are reacted to *)
Definition nodePredicates (old new : Node) : bool :=
  negb (maps_Equal (no_Labels old) (no_Labels new)) ||
  (match GetNodeCondition (no_Conditions old) "Ready", GetNodeCondition (no_Conditions new) "Ready" with
   | None, None => false
   | Some c, Some c' => negb (String.eqb (nc_Status c) (nc_Status c'))
   | _, _ => true
   end) ||
  negb (Bool.eqb (no_Unschedulable old) (no_Unschedulable new)).
Definition ConditionUnknown : string := "Unknown".
Definition lvgReadyConditionStatus (g : LVMVolumeGroup) : string :=
  match FindStatusCondition (vg_Conditions g) "Ready" with Some c => c_Status c | None => ConditionUnknown end.
Definition areThinPoolsReadyEqual (oldPools newPools : list (string * bool)) : bool :=
  let oldReady : gmap string bool := foldl (λ m tp, <[tp.1 := tp.2]> m) ∅ oldPools in
  Nat.eqb (length oldPools) (length newPools) && forallb (λ tp, Bool.eqb (default false (oldReady !! tp.1)) tp.2) newPools.
Definition lvgPredicates (old new : LVMVolumeGroup) : bool :=
  negb (vg_Generation new =? vg_Generation old) || negb (Bool.eqb (unschedulable old) (unschedulable new)) ||
  negb (String.eqb (lvgReadyConditionStatus old) (lvgReadyConditionStatus new)) ||
  negb (areThinPoolsReadyEqual (vg_Status_ThinPools old) (vg_Status_ThinPools new)).
Definition isAgentPod (podNamespace : string) (p : Pod) : bool :=
  String.eqb (po_Namespace p) podNamespace && String.eqb (label (po_Labels p) "app") "agent".
Definition agentPodUpdate (podNamespace : string) (old new : Pod) : bool :=
  isAgentPod podNamespace new && negb (Bool.eqb (isPodReady old) (isPodReady new)).

(** ** Which pools an event of a node concerns *)
Definition nodeMatchesRSP rsp (nodeLabels : Labels) (nodeZone : string) : bool :=
  if negb (Nat.eqb (length (rsp_Spec_Zones rsp)) 0) && negb (slices_Contains (rsp_Spec_Zones rsp) nodeZone) then false
  else
    match rsp_Spec_NodeLabelSelector rsp with
    | None => true
    | Some sel =>
        match LabelSelectorAsSelector sel with
        | inl _ => true
        | inr reqs => forallb (λ r, Matches r nodeLabels) reqs
        end
    end.
(** From the pools found by the index of eligible nodes and all pools. *)
Definition mapNodeToRSP (byIndex all : list ReplicatedStoragePool) (node : Node) : gset string :=
  list_to_set (map rsp_Name byIndex) ∪
  list_to_set (map rsp_Name (List.filter (λ rsp, nodeMatchesRSP rsp (no_Labels node) (label (no_Labels node) LabelTopologyZone)) all)).
End rsp.
End rsp_controller.

Module node_controller.
Import rsp_controller.

Definition AgentNodeLabelKey : string := "storage.deckhouse.io/sds-replicated-volume-node".
Definition rawPatch (value : string) : string :=
  "{" +:+ dquote +:+ "metadata" +:+ dquote +:+ ":{" +:+ dquote +:+ "labels" +:+ dquote +:+ ":{" +:+ dquote +:+
  AgentNodeLabelKey +:+ dquote +:+ ":" +:+ value +:+ "}}}".
Definition rawPatchSetAgentLabel : string := rawPatch (dquote +:+ dquote).
Definition rawPatchRemoveAgentLabel : string := rawPatch "null".

Section node.
Context {K : K8s} {S : Server}.

(** exists, hasLabel, labelValueCorrect *)
Definition getNodeAgentLabelPresence (name : string) : M (error + bool * bool * bool) :=
  r ← do (GetNode name);
  mret (match orNil r with
        | inl e => inl e
        | inr None => inr (false, false, false)
        | inr (Some n) =>
            let hasLabel := bool_decide (is_Some (default ∅ (no_Labels n) !! AgentNodeLabelKey)) in
            inr (true, hasLabel, hasLabel && String.eqb (label (no_Labels n) AgentNodeLabelKey) "")
        end).
Definition getNumberOfDRBDResourcesByNode (nodeName : string) : M (error + Z) :=
  r ← do (ListDRBDRsByNode nodeName);
  mret (match answer r with inl e => inl e | inr l => inr (Z.of_nat (length l)) end).
Definition getNumberOfRSPByEligibleNode (nodeName : string) : M (error + Z) :=
  r ← do (ListRSPsByEligibleNode nodeName);
  mret (match answer r with inl e => inl e | inr l => inr (Z.of_nat (length l)) end).
Definition patchLabel (nodeName : string) (shouldHaveLabel : bool) : M ReconcileOutcome :=
  r ← do (PatchNode nodeName (if shouldHaveLabel then rawPatchSetAgentLabel else rawPatchRemoveAgentLabel));
  mret (match orNil r with inl e => failed e | inr _ => Done end).
Definition reconcileLabel (nodeName : string) (hasLabel labelValueCorrect : bool) : M ReconcileOutcome :=
  drbdCount ← getNumberOfDRBDResourcesByNode nodeName;
  match drbdCount with
  | inl e => mret (failed e)
  | inr drbdCount =>
      rspCount ← getNumberOfRSPByEligibleNode nodeName;
      match rspCount with
      | inl e => mret (failed e)
      | inr rspCount =>
          let shouldHaveLabel := (0 <? drbdCount) || (0 <? rspCount) in
          let isInSync := (shouldHaveLabel && labelValueCorrect) || (negb shouldHaveLabel && negb hasLabel) in
          if isInSync then mret Done else patchLabel nodeName shouldHaveLabel
      end
  end.
Definition ReconcileNode (nodeName : string) : M (Result * option error) :=
  p ← getNodeAgentLabelPresence nodeName;
  o ← match p with
      | inl e => mret (failed e)
      | inr (nodeExists, hasLabel, labelValueCorrect) =>
          if negb nodeExists then mret Done else reconcileLabel nodeName hasLabel labelValueCorrect
      end;
  mret (ToCtrl o).
End node.

(** ** Which nodes an event concerns *)
Definition labelPredicates (old new : Node) : bool :=
  let l := default ∅ (no_Labels old) !! AgentNodeLabelKey in
  let l' := default ∅ (no_Labels new) !! AgentNodeLabelKey in
  negb (Bool.eqb (bool_decide (is_Some l)) (bool_decide (is_Some l'))) || negb (String.eqb (default "" l) (default "" l')).
(** v1alpha1.NewEligibleNodesSortedIndex: the names of the nodes in their order. *)
Definition sortedIndex (nodes : list EligibleNode) : list string := sort_by string_leb (map en_NodeName nodes).
Definition eligibleNodesEqual (a b : list EligibleNode) : bool := bool_decide (sortedIndex a = sortedIndex b).
Definition rspPredicates (old new : ReplicatedStoragePool) : bool :=
  negb (eligibleNodesEqual (rsp_EligibleNodes old) (rsp_EligibleNodes new)).
Definition enqueue (name : string) : list string := if String.eqb name "" then [] else [name].
Definition enqueueNodesFromRSP (rsp : ReplicatedStoragePool) : list string :=
  flat_map (λ n, enqueue (en_NodeName n)) (rsp_EligibleNodes rsp).
(** The merge of two sorted lists, which queues the names of one of them only. *)
Fixpoint delta (old new : list string) : list string :=
  match old with
  | [] => flat_map enqueue new
  | x :: old' =>
      (fix inner new :=
         match new with
         | [] => flat_map enqueue (x :: old')
         | y :: new' =>
             match String.compare x y with
             | Lt => enqueue x ++ delta old' (y :: new')
             | Gt => enqueue y ++ inner new'
             | Eq => delta old' new'
             end
         end) new
  end.
Definition enqueueEligibleNodesDelta (oldNodes newNodes : list EligibleNode) : list string :=
  delta (sortedIndex oldNodes) (sortedIndex newNodes).
Definition mapDRBDResourceToNode `{K8s} (d : DRBDResource) : list string := enqueue (ds_NodeName (dr_Spec d)).
End node_controller.
