(* ===== verification/ClassStatus.v ===== *)
(** * rsc_controller: the status of a storage class

    Source: rsc_controller/reconciler.go (ensure helpers, view types, phase, validation of the eligible
    nodes, volume summary, pool name) and predicates.go.

    The order in which a range visits the keys of a map is a rank of the keys that the world chooses. *)

From Stdlib Require Import ZArith Lia String Ascii.
From stdpp Require Import base gmap list numbers strings option.
From S2P Require Import Prelude IdSet DrbdSize Api Object Storage Flow Client Pipeline PoolController.
Import v1alpha1 objutilv1 storage drbd flow client.

Module class_status.

Definition CondConfigurationRolledOutType : string := "ConfigurationRolledOut".
Definition ReasonConfigurationRolloutDisabled : string := "ConfigurationRolloutDisabled".
Definition ReasonConfigurationRolloutInProgress : string := "ConfigurationRolloutInProgress".
Definition ReasonNewConfigurationNotYetObserved : string := "NewConfigurationNotYetObserved".
Definition ReasonRolledOutToAllVolumes : string := "RolledOutToAllVolumes".
Definition CondReadyType : string := "Ready".
Definition ReasonInsufficientEligibleNodes : string := "InsufficientEligibleNodes".
Definition ReasonInvalidConfiguration : string := "InvalidConfiguration".
Definition ReasonReady : string := "Ready".
Definition ReasonWaitingForStoragePool : string := "WaitingForStoragePool".
Definition CondStoragePoolReadyType : string := "StoragePoolReady".
Definition ReasonPending : string := "Pending".
Definition ReasonStoragePoolNotFound : string := "StoragePoolNotFound".
Definition CondVolumesSatisfyEligibleNodesType : string := "VolumesSatisfyEligibleNodes".
Definition ReasonAllVolumesSatisfy : string := "AllVolumesSatisfy".
Definition ReasonConflictResolutionInProgress : string := "ConflictResolutionInProgress".
Definition ReasonManualConflictResolution : string := "ManualConflictResolution".
(* conditions of a volume *)
Definition CondSatisfyEligibleNodesType : string := "SatisfyEligibleNodes".
Definition CondConfigurationReadyType : string := "ConfigurationReady".
Definition CondMembershipLayoutConvergedType : string := "MembershipLayoutConverged".
Definition ConditionUnknown : string := "Unknown".

Definition Topology_String (t : Topology) : string :=
  match t with TopologyTransZonal => "TransZonal" | TopologyZonal => "Zonal" | TopologyIgnored => "Ignored" | TopologyOther s => s end.
Definition VolumeAccess_String (a : VolumeAccess) : string :=
  match a with
  | VolumeAccessLocal => "Local" | VolumeAccessPreferablyLocal => "PreferablyLocal"
  | VolumeAccessEventuallyLocal => "EventuallyLocal" | VolumeAccessAny => "Any" | VolumeAccessOther s => s
  end.
Definition PoolType_String (t : ReplicatedStoragePoolType) : string :=
  match t with PoolLVM => "LVM" | PoolLVMThin => "LVMThin" | PoolOther s => s end.
(** A 32-bit signed counter. *)
Definition wrapS32 (x : Z) : Z := (x + 2 ^ 31) mod 2 ^ 32 - 2 ^ 31.

(** The keys of a map in the order of their ranks. *)
Definition inOrder {A} (rank : string → Z) (m : gmap string A) : list (string * A) :=
  sort_by (λ a b, rank a.1 <=? rank b.1) (map_to_list m).

Section status.
Context {K : K8s} {Meta : MetaApi} {L : LabelsApi}.
Implicit Types (rsc : ReplicatedStorageClass) (rsp : ReplicatedStoragePool).

(** ** Views of volumes *)
Record rvViewCondition := { vc_present : bool; vc_status : string; vc_current : bool }.
Record rvView := {
  rw_name : string; rw_configurationMode : ConfigurationMode; rw_replicatedStoragePoolName : string;
  rw_configurationGeneration : Z; rw_configurationObservedGeneration : Z;
  rw_satisfyEligibleNodes : rvViewCondition; rw_configurationReady : rvViewCondition;
  rw_membershipLayoutConverged : rvViewCondition;
}.
Definition hasNoVerdict (c : rvViewCondition) : bool :=
  negb (vc_present c) || negb (vc_current c) || String.eqb (vc_status c) ConditionUnknown.
Definition isFalse (c : rvViewCondition) : bool := vc_present c && String.eqb (vc_status c) ConditionFalse.
Definition isPresentAndNotTrue (c : rvViewCondition) : bool := vc_present c && negb (String.eqb (vc_status c) ConditionTrue).
Definition newRVViewCondition (rv : ReplicatedVolume) (condType : string) : rvViewCondition :=
  match GetStatusCondition rv condType with
  | None => {| vc_present := false; vc_status := ""; vc_current := false |}
  | Some c => {| vc_present := true; vc_status := c_Status c; vc_current := c_ObservedGeneration c =? rv_Generation rv |}
  end.
Definition newRVView (rv : ReplicatedVolume) : rvView :=
  {| rw_name := rv_Name rv; rw_configurationMode := rv_Spec_ConfigurationMode rv;
     rw_replicatedStoragePoolName := match rv_Configuration rv with Some c => cfg_ReplicatedStoragePoolName c | None => "" end;
     rw_configurationGeneration := rv_ConfigurationGeneration rv;
     rw_configurationObservedGeneration := rv_ConfigurationObservedGeneration rv;
     rw_satisfyEligibleNodes := newRVViewCondition rv CondSatisfyEligibleNodesType;
     rw_configurationReady := newRVViewCondition rv CondConfigurationReadyType;
     rw_membershipLayoutConverged := newRVViewCondition rv CondMembershipLayoutConvergedType |}.

(** ** Which events of volumes and pools are reacted to *)
Definition rvPredicates (old new : ReplicatedVolume) : bool :=
  negb (rv_Generation new =? rv_Generation old) ||
  negb (String.eqb (rv_Spec_ReplicatedStorageClassName old) (rv_Spec_ReplicatedStorageClassName new)) ||
  negb (rv_ConfigurationGeneration old =? rv_ConfigurationGeneration new) ||
  negb (rv_ConfigurationObservedGeneration old =? rv_ConfigurationObservedGeneration new) ||
  negb (AreConditionsSemanticallyEqual (Some old) (Some new)
    [CondConfigurationReadyType; CondSatisfyEligibleNodesType; CondMembershipLayoutConvergedType]).
Definition rspPredicates (old new : ReplicatedStoragePool) : bool :=
  negb (rsp_Generation new =? rsp_Generation old) || negb (rsp_EligibleNodesRevision old =? rsp_EligibleNodesRevision new) ||
  negb (AreConditionsSemanticallyEqual (Some old) (Some new) [rsp_controller.CondReadyType]).

(** ** Configuration *)
Definition isConfigurationRolloutEnabled rsc : bool :=
  bool_decide (RolloutStrategy_GetType (rsc_ConfigurationRolloutStrategy rsc) = RolloutRollingUpdate).
Definition isEligibleNodesConflictResolutionEnabled rsc : bool :=
  bool_decide (ConflictResolutionStrategy_GetType (rsc_Spec_ConflictResolutionStrategy rsc) = ResolutionRollingRepair).
Definition makeConfiguration rsc (storagePoolName : string) : Configuration :=
  {| cfg_ReplicatedStoragePoolName := storagePoolName; cfg_Topology := rsc_Spec_Topology rsc;
     cfg_FailuresToTolerate := GetFTT rsc; cfg_GuaranteedMinimumDataRedundancy := GetGMDR rsc;
     cfg_VolumeAccess := rsc_Spec_VolumeAccess rsc |}.
Definition isConfigurationInSync rsc : bool :=
  match rsc_Configuration rsc with Some _ => rsc_ConfigurationGeneration rsc =? rsc_Generation rsc | None => false end.
Definition differs (c : bool) (msg : string) : list string := if c then [msg] else [].
Definition configurationDiffs (cur : Configuration) rsc (targetStoragePoolName : string) : list string :=
  differs (negb (cfg_FailuresToTolerate cur =? GetFTT rsc))
    ("failuresToTolerate " +:+ itoa (cfg_FailuresToTolerate cur) +:+ " -> " +:+ itoa (GetFTT rsc)) ++
  differs (negb (cfg_GuaranteedMinimumDataRedundancy cur =? GetGMDR rsc))
    ("guaranteedMinimumDataRedundancy " +:+ itoa (cfg_GuaranteedMinimumDataRedundancy cur) +:+ " -> " +:+ itoa (GetGMDR rsc)) ++
  differs (negb (bool_decide (cfg_Topology cur = rsc_Spec_Topology rsc)))
    ("topology " +:+ Topology_String (cfg_Topology cur) +:+ " -> " +:+ Topology_String (rsc_Spec_Topology rsc)) ++
  differs (negb (bool_decide (cfg_VolumeAccess cur = rsc_Spec_VolumeAccess rsc)))
    ("volumeAccess " +:+ VolumeAccess_String (cfg_VolumeAccess cur) +:+ " -> " +:+ VolumeAccess_String (rsc_Spec_VolumeAccess rsc)) ++
  differs (negb (String.eqb (cfg_ReplicatedStoragePoolName cur) targetStoragePoolName))
    ("storage: not yet accepted (current pool: " +:+ cfg_ReplicatedStoragePoolName cur +:+ ", pending pool: " +:+ targetStoragePoolName +:+ ")").
Definition computePendingConfigurationDiffMessage rsc (targetStoragePoolName : string) : string :=
  match rsc_Configuration rsc with
  | None => "Pending: initial configuration"
  | Some cur =>
      match configurationDiffs cur rsc targetStoragePoolName with
      | [] => ""
      | diffs => "Pending: " +:+ join ", " diffs
      end
  end.
Definition withDiff (pendingDiffMsg msg : string) : string :=
  if String.eqb pendingDiffMsg "" then msg else pendingDiffMsg +:+ ". " +:+ msg.

(** ** Phase and message; a nil counter panics where the code dereferences it *)
Definition positive (n : option Z) : bool := match n with Some n => 0 <? n | None => false end.
Definition append (buf part : string) : string := if String.eqb buf "" then part else buf +:+ ". " +:+ part.
Definition composeRolloutMessage rsc (hasStaleConfig hasPendingObservation hasNodeConflicts configRolloutEnabled nodesRepairEnabled : bool) :
    outcome string :=
  let v := rsc_Volumes rsc in
  buf ← if hasPendingObservation then
          n ← deref (vs_PendingObservation v);
          Ok ("Waiting for " +:+ itoa n +:+ " volume(s) to observe new configuration")
        else Ok "";
  buf ← if hasStaleConfig then
          if configRolloutEnabled then
            total ← deref (vs_Total v);
            stale ← deref (vs_StaleConfiguration v);
            Ok (append buf ("Configuration rollout in progress: " +:+ itoa (default 0 (vs_Aligned v)) +:+ "/" +:+ itoa total +:+
                            " volumes aligned, " +:+ itoa stale +:+ " stale"))
          else
            stale ← deref (vs_StaleConfiguration v);
            Ok (append buf (itoa stale +:+ " volume(s) have stale configuration (rollout strategy: NewVolumesOnly)"))
        else Ok buf;
  buf ← if hasNodeConflicts then
          n ← deref (vs_InConflictWithEligibleNodes v);
          Ok (append buf (if nodesRepairEnabled
                          then "Eligible nodes conflict resolution in progress: " +:+ itoa n +:+ " volume(s) on non-eligible nodes"
                          else itoa n +:+ " volume(s) on non-eligible nodes (resolution strategy: Manual)"))
        else Ok buf;
  Ok (if String.eqb buf "" then "Volumes are not fully aligned" else buf).
Definition divergence rsc : outcome (ReplicatedStorageClassPhase * string) :=
  let hasStaleConfig := positive (vs_StaleConfiguration (rsc_Volumes rsc)) in
  let hasPendingObservation := positive (vs_PendingObservation (rsc_Volumes rsc)) in
  let hasNodeConflicts := positive (vs_InConflictWithEligibleNodes (rsc_Volumes rsc)) in
  let configRolloutEnabled := isConfigurationRolloutEnabled rsc in
  let nodesRepairEnabled := isEligibleNodesConflictResolutionEnabled rsc in
  let hasActiveAutoFix :=
    ((hasStaleConfig || hasPendingObservation) && configRolloutEnabled) || (hasNodeConflicts && nodesRepairEnabled) ||
    hasPendingObservation in
  message ← composeRolloutMessage rsc hasStaleConfig hasPendingObservation hasNodeConflicts configRolloutEnabled nodesRepairEnabled;
  Ok (if hasActiveAutoFix then ClassRollingOut else ClassPartiallyAligned, message).
Definition computePhaseAndMessage rsc : outcome (ReplicatedStorageClassPhase * string) :=
  match rsc_DeletionTimestamp rsc with
  | Some _ => Ok (ClassTerminating, "Storage class is terminating")
  | None =>
      let spCond := GetStatusCondition rsc CondStoragePoolReadyType in
      if match spCond with Some c => String.eqb (c_Status c) ConditionTrue | None => false end then
        match GetStatusCondition rsc CondReadyType with
        | None => Ok (ClassInvalidConfiguration, "")
        | Some readyCond =>
            if negb (String.eqb (c_Status readyCond) ConditionTrue)
            then Ok (if String.eqb (c_Reason readyCond) ReasonInsufficientEligibleNodes then ClassInsufficientNodes
                     else ClassInvalidConfiguration, c_Message readyCond)
            else if IsStatusConditionPresentAndTrue rsc CondConfigurationRolledOutType &&
                    IsStatusConditionPresentAndTrue rsc CondVolumesSatisfyEligibleNodesType
            then Ok (ClassReady, match vs_Total (rsc_Volumes rsc) with
                                 | Some n => if 0 <? n then "Storage class is ready; " +:+ itoa n +:+ " volumes, all aligned"
                                             else "Storage class is ready"
                                 | None => "Storage class is ready"
                                 end)
            else divergence rsc
        end
      else Ok (ClassWaitingForStoragePool, match spCond with Some c => c_Message c | None => "Waiting for storage pool" end)
  end.
Definition applyPhase rsc (phase : ReplicatedStorageClassPhase) (message : string) : bool * ReplicatedStorageClass :=
  let '(c1, rsc) := if bool_decide (rsc_Phase rsc = phase) then (false, rsc) else (true, rsc <| rsc_Phase := phase |>) in
  let '(c2, rsc) := if String.eqb (rsc_Message rsc) message then (false, rsc) else (true, rsc <| rsc_Message := message |>) in
  (c1 || c2, rsc).

(** ** Validation of the eligible nodes: the text of the error *)
Definition hasDisk (n : EligibleNode) : bool := negb (Nat.eqb (length (en_LVMVolumeGroups n)) 0).
Definition groupByZone (nodes : list EligibleNode) : gmap string (list EligibleNode) :=
  foldl (λ m n, <[en_ZoneName n := default [] (m !! en_ZoneName n) ++ [n]]> m) ∅ nodes.
Definition computeTransZonalMinZones (ftt gmdr : Z) : outcome (Z * Z) :=
  if (ftt =? 0) && (gmdr =? 1) then Ok (2, 2)
  else if (ftt =? 1) && (gmdr =? 0) then Ok (3, 2)
  else if (ftt =? 1) && (gmdr =? 1) then Ok (3, 3)
  else if (ftt =? 1) && (gmdr =? 2) then Ok (3, 3)
  else if (ftt =? 2) && (gmdr =? 1) then Ok (4, 4)
  else if (ftt =? 2) && (gmdr =? 2) then Ok (3, 3)
  else Panic ("transZonalMinZones: unsupported FTT=" +:+ itoa ftt +:+ ", GMDR=" +:+ itoa gmdr +:+ " combination").
Definition layoutText (ftt gmdr : Z) : string := "FTT=" +:+ itoa ftt +:+ ", GMDR=" +:+ itoa gmdr.
Definition zoneError (ftt gmdr d tb : Z) (zone : string * list EligibleNode) : option string :=
  let text what n have := layoutText ftt gmdr +:+ " with Zonal topology requires at least " +:+ itoa n +:+ what +:+
                          " in each zone, zone " +:+ quote zone.1 +:+ " has " +:+ itoa have in
  let nodes := Z.of_nat (length zone.2) in
  let withDisks := countb hasDisk zone.2 in
  if nodes <? d + tb then Some (text " nodes" (d + tb) nodes)
  else if withDisks <? d then Some (text " nodes with disks" d withDisks)
  else None.
(** The first error in the order of the zones. *)
Fixpoint firstError {A} (f : A → option string) (l : list A) : option string :=
  match l with [] => None | x :: l => match f x with Some e => Some e | None => firstError f l end end.
Definition validateEligibleNodes (rank : string → Z) (nodes : list EligibleNode) (topology : Topology) (ftt gmdr : Z) : outcome (option string) :=
  match nodes with
  | [] => Ok (Some "No nodes available in the storage pool")
  | _ =>
      let '(d, tb) := IntendedLayout {| cfg_ReplicatedStoragePoolName := ""; cfg_Topology := TopologyOther "";
                        cfg_FailuresToTolerate := ftt; cfg_GuaranteedMinimumDataRedundancy := gmdr;
                        cfg_VolumeAccess := VolumeAccessOther "" |} in
      let totalNodes := Z.of_nat (length nodes) in
      let nodesWithDisks := countb hasDisk nodes in
      let nodesByZone := groupByZone nodes in
      let zones := Z.of_nat (size nodesByZone) in
      let zonesWithDisks := countb (λ z, existsb hasDisk z.2) (map_to_list nodesByZone) in
      match topology with
      | TopologyTransZonal =>
          '(minZones, minZonesWithDisks) ← computeTransZonalMinZones ftt gmdr;
          let text n what have := layoutText ftt gmdr +:+ " with TransZonal topology requires at least " +:+ itoa n +:+ what +:+
                                  ", have " +:+ itoa have in
          Ok (if zones <? minZones then Some (text minZones " zones" zones)
              else if zonesWithDisks <? minZonesWithDisks then Some (text minZonesWithDisks " zones with disks" zonesWithDisks)
              else None)
      | TopologyZonal => Ok (firstError (zoneError ftt gmdr d tb) (inOrder rank nodesByZone))
      | _ =>
          let text n what have := layoutText ftt gmdr +:+ " requires at least " +:+ itoa n +:+ what +:+ ", have " +:+ itoa have in
          Ok (if totalNodes <? d + tb then Some (text (d + tb) " nodes" totalNodes)
              else if nodesWithDisks <? d then Some (text d " nodes with disks" nodesWithDisks)
              else None)
      end
  end.

(** ** Volume summary *)
Inductive rvConfigurationCategory := categoryPending | categoryStale | categoryAligned.
#[export] Instance rvConfigurationCategory_eq_dec : EqDecision rvConfigurationCategory.
Proof. solve_decision. Defined.
Definition isRVConfigurationPending rsc (rv : rvView) : bool :=
  if negb (rw_configurationObservedGeneration rv =? rsc_ConfigurationGeneration rsc) then true
  else hasNoVerdict (rw_configurationReady rv) || hasNoVerdict (rw_membershipLayoutConverged rv).
Definition isRVConfigurationStale rsc (rv : rvView) : bool :=
  negb (rw_configurationGeneration rv =? rsc_ConfigurationGeneration rsc) || isFalse (rw_configurationReady rv) ||
  isFalse (rw_membershipLayoutConverged rv).
Definition computeActualRVConfigurationCategory rsc (rv : rvView) : rvConfigurationCategory :=
  if isRVConfigurationPending rsc rv then categoryPending
  else if isRVConfigurationStale rsc rv then categoryStale
  else categoryAligned.
Definition isRVTrackedByRSCRollout (rv : rvView) : bool := negb (bool_decide (rw_configurationMode rv = ModeManual)).
Definition countIn rsc (c : rvConfigurationCategory) (rvs : list rvView) : Z :=
  countb (λ rv, isRVTrackedByRSCRollout rv && bool_decide (computeActualRVConfigurationCategory rsc rv = c)) rvs.
Definition computeActualVolumesSummary rsc (rvs : list rvView) : VolumesSummary :=
  let pools : gset string := list_to_set (List.filter (λ n, negb (String.eqb n "")) (map rw_replicatedStoragePoolName rvs)) in
  {| vs_Total := Some (wrapS32 (Z.of_nat (length rvs)));
     vs_PendingObservation := Some (wrapS32 (countIn rsc categoryPending rvs));
     vs_Aligned := Some (wrapS32 (countIn rsc categoryAligned rvs));
     vs_InConflictWithEligibleNodes := Some (wrapS32 (countb (λ rv, isPresentAndNotTrue (rw_satisfyEligibleNodes rv)) rvs));
     vs_StaleConfiguration := Some (wrapS32 (countIn rsc categoryStale rvs));
     vs_UsedStoragePoolNames := sort_by string_leb (elements pools) |}.
(** Only fields that differ are written; afterwards the summary is the target. *)
Definition applyVolumesSummary rsc (summary : VolumesSummary) : bool * ReplicatedStorageClass :=
  if bool_decide (rsc_Volumes rsc = summary) then (false, rsc) else (true, rsc <| rsc_Volumes := summary |>).

(** ** The pool of a class *)
Definition terminated (s : string) : list Z := pipeline.bytes s ++ [0].
Definition groupText (g : PoolLVMVolumeGroup) : string := pg_Name g +:+ ":" +:+ pg_ThinPoolName g.
Definition selectorText (sel : option LabelSelector) : string := match sel with Some sel => MarshalLabelSelector sel | None => "" end.
(** What is written to the hash, a string at a time. *)
Definition checksumInput rsc (storage : ClassStorage) : list Z :=
  terminated (PoolType_String (cs_Type storage)) ++
  flat_map terminated (sort_by string_leb (map groupText (cs_LVMVolumeGroups storage))) ++
  flat_map terminated (sort_by string_leb (rsc_Spec_Zones rsc)) ++
  terminated (selectorText (rsc_Spec_NodeLabelSelector rsc)) ++
  flat_map terminated (sort_by string_leb (default [] (rsc_Spec_SystemNetworkNames rsc))).
Definition computeStoragePoolChecksum rsc (storage : ClassStorage) : string :=
  pipeline.hex 32 (pipeline.fnv128a (checksumInput rsc storage)).
Definition computeTargetStoragePool rsc : outcome string :=
  if (rsc_StoragePoolBasedOnGeneration rsc =? rsc_Generation rsc) && negb (String.eqb (rsc_StoragePoolName rsc) "")
  then Ok (rsc_StoragePoolName rsc)
  else storage ← deref (rsc_Spec_Storage rsc); Ok ("auto-rsp-" +:+ computeStoragePoolChecksum rsc storage).
Definition applyStoragePool rsc (targetName : string) : bool * ReplicatedStorageClass :=
  let '(c1, rsc) := if rsc_StoragePoolBasedOnGeneration rsc =? rsc_Generation rsc then (false, rsc)
                    else (true, rsc <| rsc_StoragePoolBasedOnGeneration := rsc_Generation rsc |>) in
  let '(c2, rsc) := if String.eqb (rsc_StoragePoolName rsc) targetName then (false, rsc)
                    else (true, rsc <| rsc_StoragePoolName := targetName |>) in
  (c1 || c2, rsc).

(** ** Ensure helpers *)
Section ensure.
Context {S : Server}.
Definition ensured : Type := ReplicatedStorageClass * EnsureOutcome.
Definition ok rsc (changed : bool) : ensured := (rsc, {| eo_err := None; eo_changed := changed |}).
Definition applyCond rsc (ty status reason message : string) : M (bool * ReplicatedStorageClass) :=
  SetStatusCondition rsc (verdict ty status reason message).
Definition applyReadyCondTrue rsc (reason message : string) := applyCond rsc CondReadyType ConditionTrue reason message.
Definition applyReadyCondFalse rsc (reason message : string) := applyCond rsc CondReadyType ConditionFalse reason message.
Definition applyStoragePoolReadyCondFalse rsc (reason message : string) :=
  applyCond rsc CondStoragePoolReadyType ConditionFalse reason message.
Definition applyStoragePoolReadyCondFromRSP rsc rsp : M (bool * ReplicatedStorageClass) :=
  match GetStatusCondition rsp rsp_controller.CondReadyType with
  | None => applyCond rsc CondStoragePoolReadyType ConditionUnknown ReasonPending "ReplicatedStoragePool has no Ready condition yet"
  | Some c => applyCond rsc CondStoragePoolReadyType (c_Status c) (c_Reason c) (c_Message c)
  end.

Definition ensurePhaseAndMessage rsc : M ensured :=
  '(phase, message) ← lift (computePhaseAndMessage rsc);
  let '(changed, rsc) := applyPhase rsc phase message in
  mret (ok rsc changed).
Definition ensureStoragePool rsc (targetStoragePoolName : string) (rsp : option ReplicatedStoragePool) : M ensured :=
  let '(c1, rsc) := applyStoragePool rsc targetStoragePoolName in
  '(c2, rsc) ← match rsp with
               | None => applyStoragePoolReadyCondFalse rsc ReasonStoragePoolNotFound
                           ("ReplicatedStoragePool " +:+ quote targetStoragePoolName +:+ " not found")
               | Some rsp => applyStoragePoolReadyCondFromRSP rsc rsp
               end;
  mret (ok rsc (c2 || c1)).

(** The nodes of the pool are checked when they or the configuration changed; the error text, if any. *)
Definition checkNodes rsc (rsp : option ReplicatedStoragePool) : M (option string * bool * ReplicatedStorageClass) :=
  rsp ← lift (deref rsp);
  if negb (rsp_EligibleNodesRevision rsp =? rsc_StoragePoolEligibleNodesRevision rsc) || negb (isConfigurationInSync rsc) then
    rank ← do MapOrder;
    e ← lift (validateEligibleNodes rank (rsp_EligibleNodes rsp) (rsc_Spec_Topology rsc) (GetFTT rsc) (GetGMDR rsc));
    mret (match e with
          | Some e => (Some e, false, rsc)
          | None =>
              if rsc_StoragePoolEligibleNodesRevision rsc =? rsp_EligibleNodesRevision rsp then (None, false, rsc)
              else (None, true, rsc <| rsc_StoragePoolEligibleNodesRevision := rsp_EligibleNodesRevision rsp |>)
          end)
  else mret (None, false, rsc).
Definition acceptConfiguration rsc (changed : bool) : M ensured :=
  if isConfigurationInSync rsc then
    '(c, rsc) ← applyReadyCondTrue rsc ReasonReady "Storage class is ready";
    mret (ok rsc (c || changed))
  else
    let rsc := rsc <| rsc_Configuration := Some (makeConfiguration rsc (rsc_StoragePoolName rsc)) |>
                   <| rsc_ConfigurationGeneration := rsc_Generation rsc |> in
    '(_, rsc) ← applyReadyCondTrue rsc ReasonReady "Storage class is ready";
    mret (ok rsc true).
Definition ensureConfiguration rsc (rsp : option ReplicatedStoragePool) : M ensured :=
  if negb (rsc_StoragePoolBasedOnGeneration rsc =? rsc_Generation rsc)
  then lift (Panic ("ensureConfiguration: StoragePoolBasedOnGeneration (" +:+ itoa (rsc_StoragePoolBasedOnGeneration rsc) +:+
                    ") != Generation (" +:+ itoa (rsc_Generation rsc) +:+ "); ensureStoragePool must be called first"))
  else
    let pendingDiffMsg := computePendingConfigurationDiffMessage rsc (rsc_StoragePoolName rsc) in
    if negb (IsStatusConditionPresentAndTrue rsc CondStoragePoolReadyType) then
      '(c, rsc) ← applyReadyCondFalse rsc ReasonWaitingForStoragePool
                    (withDiff pendingDiffMsg "Waiting for ReplicatedStoragePool to become ready");
      mret (ok rsc c)
    else
      '(e, changed, rsc) ← checkNodes rsc rsp;
      match e with
      | Some e =>
          '(c, rsc) ← applyReadyCondFalse rsc ReasonInsufficientEligibleNodes (withDiff pendingDiffMsg e);
          mret (ok rsc c)
      | None => acceptConfiguration rsc changed
      end.

Definition satisfiedCondition rsc (conflicts : Z) : M (bool * ReplicatedStorageClass) :=
  if 0 <? conflicts then
    applyCond rsc CondVolumesSatisfyEligibleNodesType ConditionFalse
      (if isEligibleNodesConflictResolutionEnabled rsc then ReasonConflictResolutionInProgress else ReasonManualConflictResolution)
      "Not implemented"
  else applyCond rsc CondVolumesSatisfyEligibleNodesType ConditionTrue ReasonAllVolumesSatisfy
         "All volumes have replicas on eligible nodes".
Definition rolledOutCondition rsc (pending stale : Z) : M (bool * ReplicatedStorageClass) :=
  let cond := applyCond rsc CondConfigurationRolledOutType in
  let staleMsg := itoa stale +:+ " volume(s) not yet aligned with the storage class configuration" in
  if 0 <? pending then cond ConditionUnknown ReasonNewConfigurationNotYetObserved (itoa pending +:+ " volume(s) pending observation")
  else if 0 <? stale then
    if isConfigurationRolloutEnabled rsc then cond ConditionFalse ReasonConfigurationRolloutInProgress staleMsg
    else cond ConditionFalse ReasonConfigurationRolloutDisabled (staleMsg +:+ "; automatic rollout is disabled")
  else cond ConditionTrue ReasonRolledOutToAllVolumes "All volumes have configuration matching the storage class".
Definition ensureVolumeSummaryAndConditions rsc (rvs : list rvView) : M ensured :=
  let '(c1, rsc) := applyVolumesSummary rsc (computeActualVolumesSummary rsc rvs) in
  conflicts ← lift (deref (vs_InConflictWithEligibleNodes (rsc_Volumes rsc)));
  '(c2, rsc) ← satisfiedCondition rsc conflicts;
  pending ← lift (deref (vs_PendingObservation (rsc_Volumes rsc)));
  stale ← lift (deref (vs_StaleConfiguration (rsc_Volumes rsc)));
  '(c3, rsc) ← rolledOutCondition rsc pending stale;
  mret (ok rsc (c3 || (c2 || c1))).
End ensure.
End status.
End class_status.
