(* ===== verification/ClassController.v ===== *)
(** * rsc_controller: one reconciliation of a storage class

    Source: rsc_controller/reconciler.go (Reconcile and its phases, the pools and the Kubernetes
    StorageClass of a class, single-call helpers) and controller.go.  A method that changes objects in
    place returns them with its outcome. *)

From Stdlib Require Import ZArith Lia String.
From stdpp Require Import base gmap list numbers strings option.
From S2P Require Import Prelude IdSet DrbdSize Api Object Storage Flow Client.
From S2P Require Import Pipeline Context Layout Rollout Replicas PoolController ClassStatus.
Import v1alpha1 objutilv1 storage drbd flow client class_status.

Module class_controller.

Definition RSCControllerFinalizer : string := "sds-replicated-volume.deckhouse.io/rsc-controller".
Definition RSCControllerFinalizerLegacy : string := "replicatedstorageclass.storage.deckhouse.io".
Definition StorageClassFinalizer : string := "storage.deckhouse.io/sds-replicated-volume".
Definition ManagedByLabelKey : string := "storage.deckhouse.io/managed-by".
Definition ManagedByLabelValue : string := "sds-replicated-volume".
Definition CSIProvisioner : string := "replicated.csi.storage.deckhouse.io".
Definition CSIParamRSCNameKey : string := "replicated.csi.storage.deckhouse.io/replicatedStorageClassName".
Definition CSIParamVolumeBindingModeKey : string := "replicated.csi.storage.deckhouse.io/volume-binding-mode".

Section class.
Context {K : K8s} {Meta : MetaApi} {L : LabelsApi} {S : Server}.
Implicit Types (rsc : ReplicatedStorageClass) (rsp : ReplicatedStoragePool) (sc : StorageClass).

(** ** Single-call helpers *)
Definition getRSC (name : string) : M (error + option ReplicatedStorageClass) := orNil <$> do (GetRSC name).
Definition getRSP (name : string) : M (error + option ReplicatedStoragePool) := orNil <$> do (GetRSP name).
Definition getUsedStoragePoolNames (rscName : string) : M (error + list string) :=
  r ← do (ListRSPsByUsedBy rscName);
  mret (match answer r with inl e => inl e | inr items => inr (map rsp_Name items) end).
Definition getSortedRVsByRSC (rscName : string) : M (error + list rvView) :=
  r ← do (ListRVsByRSC rscName);
  mret (match answer r with
        | inl e => inl e
        | inr items => inr (sort_by (λ a b, string_leb (rw_name a) (rw_name b)) (map newRVView items))
        end).
Definition patchRSC rsc (base : ReplicatedStorageClass) : M (ReplicatedStorageClass * option error) :=
  stored rsc <$> do (PatchRSC base rsc).
Definition patchRSCStatus rsc (base : ReplicatedStorageClass) : M (ReplicatedStorageClass * option error) :=
  stored rsc <$> do (PatchRSCStatus base rsc).
Definition createRSP rsp : M (reply ReplicatedStoragePool) := do (CreateRSP rsp).
Definition patchRSP rsp (base : ReplicatedStoragePool) : M (ReplicatedStoragePool * option error) :=
  stored rsp <$> do (PatchRSP base rsp).
Definition patchRSPStatus rsp (base : ReplicatedStoragePool) : M (ReplicatedStoragePool * option error) :=
  stored rsp <$> do (PatchRSPStatus base rsp).
(** A deletion that finds nothing succeeds; the time of the deletion is noted in the local copy. *)
Definition deleteRSP rsp : M (option error) :=
  match rsp_DeletionTimestamp rsp with
  | Some _ => mret None
  | None => r ← do (DeleteRSP rsp); match orNil r with inl e => mret (Some e) | inr _ => _ ← do Now; mret None end
  end.
Definition getStorageClass (name : string) : M (error + option StorageClass) := orNil <$> do (GetStorageClass name).
Definition createStorageClass sc : M (option error) := r ← do (CreateStorageClass sc); mret (snd (stored sc r)).
Definition patchStorageClass sc (base : StorageClass) : M (StorageClass * option error) :=
  stored sc <$> do (PatchStorageClass base sc).
Definition deleteStorageClass sc : M (option error) :=
  match sc_DeletionTimestamp sc with
  | Some _ => mret None
  | None => r ← do (DeleteStorageClass sc); match orNil r with inl e => mret (Some e) | inr _ => _ ← do Now; mret None end
  end.

(** ** rsp-release *)
Definition applyRSPFinalizer rsp (present : bool) : bool * ReplicatedStoragePool :=
  if present then AddFinalizer rsp RSCControllerFinalizer else RemoveFinalizer rsp RSCControllerFinalizer.
Definition applyRSPUsedBy rsp (rscName : string) : bool * ReplicatedStoragePool :=
  if slices_Contains (rsp_UsedBy rsp) rscName then (false, rsp)
  else (true, rsp <| rsp_UsedBy := sort_by string_leb (rsp_UsedBy rsp ++ [rscName]) |>).
Definition applyRSPRemoveUsedBy rsp (rscName : string) : bool * ReplicatedStoragePool :=
  if slices_Contains (rsp_UsedBy rsp) rscName then (true, rsp <| rsp_UsedBy := removeFirst rscName (rsp_UsedBy rsp) |>)
  else (false, rsp).
Definition deleteUnused rsp : M ReconcileOutcome :=
  '(rsp, e) ← if HasFinalizer rsp RSCControllerFinalizer then patchRSP (applyRSPFinalizer rsp false).2 rsp else mret (rsp, None);
  match e with
  | Some e => mret (failed e)
  | None => e ← deleteRSP rsp; mret (match e with Some e => failed e | None => Continue end)
  end.
Definition reconcileRSPRelease (rscName rspName : string) : M ReconcileOutcome :=
  OnEnd <$> (
    r ← getRSP rspName;
    match r with
    | inl e => mret (failed e)
    | inr None => mret Continue
    | inr (Some rsp) =>
        (* slices.BinarySearch *)
        found ← lift (replicas.wantsNode (rsp_UsedBy rsp) rscName);
        if negb found then mret Continue
        else
          '(rsp, e) ← patchRSPStatus (applyRSPRemoveUsedBy rsp rscName).2 rsp;
          match e with
          | Some e => mret (failed e)
          | None => match rsp_UsedBy rsp with [] => deleteUnused rsp | _ => mret Continue end
          end
    end).
Fixpoint releaseAll (rscName : string) (names : list string) : M (list ReconcileOutcome) :=
  match names with
  | [] => mret []
  | name :: names => o ← reconcileRSPRelease rscName name; os ← releaseAll rscName names; mret (o :: os)
  end.

(** ** unused-rsps *)
Fixpoint unusedOf rsc (names : list string) : outcome (list string) :=
  match names with
  | [] => Ok []
  | name :: names =>
      used ← if String.eqb name (rsc_StoragePoolName rsc) then Ok true
             else replicas.wantsNode (vs_UsedStoragePoolNames (rsc_Volumes rsc)) name;
      rest ← unusedOf rsc names;
      Ok (if used : bool then rest else name :: rest)
  end.
Definition reconcileUnusedRSPs rsc (usedStoragePoolNames : list string) : M ReconcileOutcome :=
  OnEnd <$> (names ← lift (unusedOf rsc usedStoragePoolNames); os ← releaseAll (rsc_Name rsc) names; mret (MergeReconciles os)).

(** ** deletion *)
Definition rscShouldBeDeleted (rsc : option ReplicatedStorageClass) (rvs : list rvView) : bool :=
  match rsc with
  | None => true
  | Some rsc => bool_decide (is_Some (rsc_DeletionTimestamp rsc)) && Nat.eqb (length rvs) 0
  end.
(** Lets go of a Kubernetes StorageClass and deletes it. *)
Definition removeStorageClass sc : M (option error) :=
  '(sc, e) ← if HasFinalizer sc StorageClassFinalizer then patchStorageClass (RemoveFinalizer sc StorageClassFinalizer).2 sc
             else mret (sc, None);
  match e with Some e => mret (Some e) | None => deleteStorageClass sc end.
Definition cleanStorageClass (rscName : string) : M (option error) :=
  oldSC ← getStorageClass rscName;
  match oldSC with
  | inl e => mret (Some e)
  | inr (Some sc) => if String.eqb (sc_Provisioner sc) CSIProvisioner then removeStorageClass sc else mret None
  | inr None => mret None
  end.
Definition removeFinalizers (rsc : option ReplicatedStorageClass) : M ReconcileOutcome :=
  match rsc with
  | None => mret Done
  | Some rsc =>
      let base := rsc in
      let '(c1, rsc) := RemoveFinalizer rsc RSCControllerFinalizer in
      let '(c2, rsc) := RemoveFinalizer rsc RSCControllerFinalizerLegacy in
      if c1 || c2 then '(_, e) ← patchRSC rsc base; mret (match e with Some e => failed e | None => Done end)
      else mret Done
  end.
Definition reconcileDeletion (rscName : string) (rsc : option ReplicatedStorageClass) (usedStoragePoolNames : list string) : M ReconcileOutcome :=
  OnEnd <$> (
    e ← cleanStorageClass rscName;
    match e with
    | Some e => mret (failed e)
    | None =>
        os ← releaseAll rscName usedStoragePoolNames;
        let merged := MergeReconciles os in
        if ShouldReturn merged then mret merged else removeFinalizers rsc
    end).

(** ** migration-from-rsp *)
Definition isStorageInSync rsc (target : ClassStorage) : bool :=
  match rsc_Spec_Storage rsc with
  | None => false
  | Some storage =>
      let sorted l := sort_by (λ a b, string_leb (pg_Name a) (pg_Name b)) l in
      bool_decide (cs_Type storage = cs_Type target) &&
      bool_decide (sorted (cs_LVMVolumeGroups storage) = sorted (cs_LVMVolumeGroups target))
  end.
Definition conflictMessage : string :=
  "spec.storagePool and spec.storage were both set with conflicting content; " +:+
  "the deprecated spec.storagePool was dropped and spec.storage kept unchanged (storage is immutable once set)".
(** The status is patched when it changed; then the pass ends. *)
Definition endWithStatus rsc (base : ReplicatedStorageClass) (changed : bool) : M (ReplicatedStorageClass * ReconcileOutcome) :=
  if changed then '(rsc, e) ← patchRSCStatus rsc base; mret (rsc, match e with Some e => failed e | None => Done end)
  else mret (rsc, Done).
Definition poolMissing rsc : M (ReplicatedStorageClass * ReconcileOutcome) :=
  let base := rsc in
  let pool := rsc_Spec_StoragePool rsc in
  '(c1, rsc) ← applyReadyCondFalse rsc ReasonWaitingForStoragePool
                 ("Cannot migrate from storagePool field: ReplicatedStoragePool " +:+ quote pool +:+ " not found");
  '(c2, rsc) ← applyStoragePoolReadyCondFalse rsc ReasonStoragePoolNotFound ("ReplicatedStoragePool " +:+ quote pool +:+ " not found");
  '(phase, message) ← lift (computePhaseAndMessage rsc);
  let '(c3, rsc) := applyPhase rsc phase message in
  endWithStatus rsc base (c3 || (c2 || c1)).
Definition reportConflict rsc : M (ReplicatedStorageClass * ReconcileOutcome) :=
  let statusBase := rsc in
  '(c1, rsc) ← applyReadyCondFalse rsc ReasonInvalidConfiguration conflictMessage;
  let '(c2, rsc) := applyPhase rsc ClassInvalidConfiguration conflictMessage in
  endWithStatus rsc statusBase (c2 || c1).
Definition patchThen rsc (base : ReplicatedStorageClass) (k : ReplicatedStorageClass → M (ReplicatedStorageClass * ReconcileOutcome)) :
    M (ReplicatedStorageClass * ReconcileOutcome) :=
  '(rsc, e) ← patchRSC rsc base;
  match e with Some e => mret (rsc, failed e) | None => k rsc end.
Definition continue rsc : M (ReplicatedStorageClass * ReconcileOutcome) := mret (rsc, Continue).
Definition reconcileMigrationFromRSP rsc : M (ReplicatedStorageClass * ReconcileOutcome) :=
  ended <$> (
    r ← getRSP (rsc_Spec_StoragePool rsc);
    match r with
    | inl e => mret (rsc, failed e)
    | inr None => poolMissing rsc
    | inr (Some rsp) =>
        let migratedStorage := {| cs_Type := rsp_Spec_Type rsp; cs_LVMVolumeGroups := rsp_Spec_LVMVolumeGroups rsp |} in
        match rsc_Spec_Storage rsc with
        | Some _ =>
            let conflict := negb (isStorageInSync rsc migratedStorage) in
            patchThen (rsc <| rsc_Spec_StoragePool := "" |>) rsc (λ rsc, if conflict then reportConflict rsc else continue rsc)
        | None =>
            patchThen (rsc <| rsc_Spec_Storage := Some migratedStorage |> <| rsc_Spec_StoragePool := "" |>) rsc continue
        end
    end).

(** ** defaults *)
Definition needsDefaults rsc : bool :=
  bool_decide (rsc_Spec_SystemNetworkNames rsc = None) ||
  match rsc_ConfigurationRolloutStrategy rsc with None => true | Some _ => false end ||
  match rsc_Spec_ConflictResolutionStrategy rsc with None => true | Some _ => false end ||
  bool_decide (rsc_Spec_NotReadyGracePeriod rsc = None).
Definition orElse {A} (o : option A) (a : A) : option A := match o with Some _ => o | None => Some a end.
(** 10 * time.Minute *)
Definition defaultNotReadyGracePeriod : Z := 600000000000.
Definition applySpecDefaults rsc : ReplicatedStorageClass :=
  rsc <| rsc_Spec_SystemNetworkNames := orElse (rsc_Spec_SystemNetworkNames rsc) ["Internal"] |>
      <| rsc_ConfigurationRolloutStrategy := orElse (rsc_ConfigurationRolloutStrategy rsc)
           {| rs_Type := RolloutRollingUpdate; rs_RollingUpdate_MaxParallel := Some 5 |} |>
      <| rsc_Spec_ConflictResolutionStrategy := orElse (rsc_Spec_ConflictResolutionStrategy rsc)
           {| cr_Type := ResolutionRollingRepair; cr_RollingRepair_MaxParallel := Some 5 |} |>
      <| rsc_Spec_NotReadyGracePeriod := orElse (rsc_Spec_NotReadyGracePeriod rsc) defaultNotReadyGracePeriod |>.
Definition reconcileDefaults rsc : M (ReplicatedStorageClass * ReconcileOutcome) :=
  ended <$> patchThen (applySpecDefaults rsc) rsc continue.

(** ** migration-configuration-format *)
Definition needsConfigurationFormatMigration rsc : bool :=
  match rsc_Configuration rsc with Some c => String.eqb (cfg_ReplicatedStoragePoolName c) "" | None => false end.
Definition reconcileMigrationConfigurationFormat rsc : M (ReplicatedStorageClass * ReconcileOutcome) :=
  ended <$> (
    '(rsc, e) ← patchRSCStatus (rsc <| rsc_Configuration := None |> <| rsc_ConfigurationGeneration := 0 |>) rsc;
    mret (rsc, match e with Some e => failed e | None => Continue end)).

(** ** metadata *)
Definition reconcileMetadata rsc : M (ReplicatedStorageClass * ReconcileOutcome) :=
  ended <$> (
    let base := rsc in
    let '(c1, rsc) := RemoveFinalizer rsc RSCControllerFinalizerLegacy in
    let '(c2, rsc) := AddFinalizer rsc RSCControllerFinalizer in
    if c1 || c2 then patchThen rsc base continue else continue rsc).

(** ** rsp *)
Definition newRSP (name : string) rsc : outcome ReplicatedStoragePool :=
  storage ← deref (rsc_Spec_Storage rsc);
  gracePeriod ← deref (rsc_Spec_NotReadyGracePeriod rsc);
  Ok (zeroRSP <| rsp_Name := name |> <| rsp_Finalizers := [RSCControllerFinalizer] |>
              <| rsp_Spec_Type := cs_Type storage |> <| rsp_Spec_LVMVolumeGroups := cs_LVMVolumeGroups storage |>
              <| rsp_Spec_Zones := rsc_Spec_Zones rsc |>
              <| rsp_Spec_SystemNetworkNames := default [] (rsc_Spec_SystemNetworkNames rsc) |>
              <| rsp_Spec_NodeLabelSelector := rsc_Spec_NodeLabelSelector rsc |>
              <| rsp_Spec_NotReadyGracePeriod := gracePeriod |>).
Definition claimRSP rsc rsp : M (option ReplicatedStoragePool * ReconcileOutcome) :=
  '(rsp, e) ← if HasFinalizer rsp RSCControllerFinalizer then mret (rsp, None)
              else patchRSP (applyRSPFinalizer rsp true).2 rsp;
  match e with
  | Some e => mret (None, failed e)
  | None =>
      if slices_Contains (rsp_UsedBy rsp) (rsc_Name rsc) then mret (Some rsp, Continue)
      else
        '(rsp, e) ← patchRSPStatus (applyRSPUsedBy rsp (rsc_Name rsc)).2 rsp;
        mret (match e with Some e => (None, failed e) | None => (Some rsp, Continue) end)
  end.
Definition reconcileRSP rsc (targetStoragePoolName : string) : M (option ReplicatedStoragePool * ReconcileOutcome) :=
  ended <$> (
    r ← getRSP targetStoragePoolName;
    match r with
    | inl e => mret (None, failed e)
    | inr (Some rsp) => claimRSP rsc rsp
    | inr None =>
        rsp ← lift (newRSP targetStoragePoolName rsc);
        r ← createRSP rsp;
        match r with
        | Replied rsp => claimRSP rsc rsp
        | AlreadyExists _ => mret (None, DoneAndRequeue)
        | NotFound e | Refused e => mret (None, failed e)
        end
    end).

(** ** storageclass *)
Definition VolumeBindingImmediate : string := "Immediate".
Definition VolumeBindingWaitForFirstConsumer : string := "WaitForFirstConsumer".
Definition bindingMode (a : VolumeAccess) : string :=
  match a with
  | VolumeAccessLocal | VolumeAccessEventuallyLocal | VolumeAccessPreferablyLocal => VolumeBindingWaitForFirstConsumer
  | VolumeAccessAny => VolumeBindingImmediate
  | VolumeAccessOther _ => ""
  end.
Definition computeTargetStorageClass rsc (oldSC : option StorageClass) : StorageClass :=
  let volumeBindingMode := bindingMode (rsc_Spec_VolumeAccess rsc) in
  let sc := {| sc_Name := rsc_Name rsc; sc_DeletionTimestamp := None;
               sc_Finalizers := match oldSC with Some o => sc_Finalizers o | None => [] end;
               sc_Labels := match oldSC with Some o => sc_Labels o | None => None end;
               sc_Annotations := match oldSC with Some o => sc_Annotations o | None => None end;
               sc_Provisioner := CSIProvisioner;
               sc_Parameters := Some (<[CSIParamRSCNameKey := rsc_Name rsc]> {[CSIParamVolumeBindingModeKey := volumeBindingMode]});
               sc_ReclaimPolicy := Some (rsc_Spec_ReclaimPolicy rsc); sc_AllowVolumeExpansion := Some true;
               sc_VolumeBindingMode := Some volumeBindingMode |} in
  let '(_, sc) := AddFinalizer sc StorageClassFinalizer in
  (SetLabel sc ManagedByLabelKey ManagedByLabelValue).2.
Definition isStorageClassSpecInSync (targetSC oldSC : StorageClass) : bool :=
  maps_Equal (sc_Parameters oldSC) (sc_Parameters targetSC) && String.eqb (sc_Provisioner oldSC) (sc_Provisioner targetSC) &&
  bool_decide (sc_ReclaimPolicy oldSC = sc_ReclaimPolicy targetSC) &&
  bool_decide (sc_VolumeBindingMode oldSC = sc_VolumeBindingMode targetSC).
Definition isStorageClassMetadataInSync (targetSC oldSC : StorageClass) : bool :=
  maps_Equal (sc_Labels oldSC) (sc_Labels targetSC) && maps_Equal (sc_Annotations oldSC) (sc_Annotations targetSC) &&
  bool_decide (sc_Finalizers oldSC = sc_Finalizers targetSC).
Definition orContinue (e : option error) : ReconcileOutcome := match e with Some e => failed e | None => Continue end.
Definition reconcileStorageClass rsc : M ReconcileOutcome :=
  OnEnd <$> (
    r ← getStorageClass (rsc_Name rsc);
    match r with
    | inl e => mret (failed e)
    | inr None => orContinue <$> createStorageClass (computeTargetStorageClass rsc None)
    | inr (Some oldSC) =>
        let targetSC := computeTargetStorageClass rsc (Some oldSC) in
        if negb (isStorageClassSpecInSync targetSC oldSC) then
          e ← removeStorageClass oldSC;
          match e with Some e => mret (failed e) | None => orContinue <$> createStorageClass targetSC end
        else if negb (isStorageClassMetadataInSync targetSC oldSC) then
          '(_, e) ← patchStorageClass (oldSC <| sc_Labels := sc_Labels targetSC |> <| sc_Annotations := sc_Annotations targetSC |>
                                             <| sc_Finalizers := sc_Finalizers targetSC |>) oldSC;
          mret (orContinue e)
        else mret Continue
    end).

(** ** Reconcile *)
Definition storageMissing rsc : M ReconcileOutcome :=
  let base := rsc in
  '(_, rsc) ← applyReadyCondFalse rsc ReasonInvalidConfiguration "spec.storage is required";
  '(phase, message) ← lift (computePhaseAndMessage rsc);
  let '(_, rsc) := applyPhase rsc phase message in
  snd <$> endWithStatus rsc base true.
Definition ensureAll rsc (targetStoragePoolName : string) (rsp : option ReplicatedStoragePool) (rvs : list rvView) : M ensured :=
  '(rsc, e1) ← ensureStoragePool rsc targetStoragePoolName rsp;
  '(rsc, e2) ← ensureConfiguration rsc rsp;
  '(rsc, e3) ← ensureVolumeSummaryAndConditions rsc rvs;
  '(rsc, e4) ← ensurePhaseAndMessage rsc;
  mret (rsc, MergeEnsures [e1; e2; e3; e4]).
Definition reconcileStatus rsc (rvs : list rvView) (targetStoragePoolName : string) (rsp : option ReplicatedStoragePool)
    (usedStoragePoolNames : list string) : M ReconcileOutcome :=
  let base := rsc in
  '(rsc, eo) ← ensureAll rsc targetStoragePoolName rsp rvs;
  '(rsc, e) ← if eo_changed eo then patchRSCStatus rsc base else mret (rsc, None);
  match e with Some e => mret (failed e) | None => reconcileUnusedRSPs rsc usedStoragePoolNames end.
Definition andThen (m : M (ReplicatedStorageClass * ReconcileOutcome)) (k : ReplicatedStorageClass → M ReconcileOutcome) : M ReconcileOutcome :=
  '(rsc, o) ← m;
  if ShouldReturn o then mret o else k rsc.
Definition reconcileClass rsc (rvs : list rvView) (usedStoragePoolNames : list string) : M ReconcileOutcome :=
  andThen (if String.eqb (rsc_Spec_StoragePool rsc) "" then continue rsc else reconcileMigrationFromRSP rsc) (λ rsc,
  match rsc_Spec_Storage rsc with
  | None => storageMissing rsc
  | Some _ =>
      andThen (if needsDefaults rsc then reconcileDefaults rsc else continue rsc) (λ rsc,
      andThen (if needsConfigurationFormatMigration rsc then reconcileMigrationConfigurationFormat rsc else continue rsc) (λ rsc,
      andThen (reconcileMetadata rsc) (λ rsc,
        targetStoragePoolName ← lift (computeTargetStoragePool rsc);
        '(rsp, o) ← reconcileRSP rsc targetStoragePoolName;
        if ShouldReturn o then mret o
        else
          o ← reconcileStorageClass rsc;
          if ShouldReturn o then mret o
          else reconcileStatus rsc rvs targetStoragePoolName rsp usedStoragePoolNames)))
  end).
Definition reconcileRead (name : string) (rsc : option ReplicatedStorageClass) : M ReconcileOutcome :=
  rvs ← getSortedRVsByRSC name;
  match rvs with
  | inl e => mret (failed e)
  | inr rvs =>
      used ← getUsedStoragePoolNames name;
      match used with
      | inl e => mret (failed e)
      | inr used =>
          match rsc with
          | Some c => if rscShouldBeDeleted rsc rvs then reconcileDeletion name rsc used else reconcileClass c rvs used
          | None => reconcileDeletion name rsc used
          end
      end
  end.
Definition Reconcile (name : string) : M (Result * option error) :=
  rsc ← getRSC name;
  o ← match rsc with inl e => mret (failed e) | inr rsc => reconcileRead name rsc end;
  mret (ToCtrl o).

(** ** Which classes an event concerns *)
Definition mapRSPToRSC rsp (bySpec byStatus : option (list ReplicatedStorageClass)) : gset string :=
  list_to_set (map rsc_Name (default [] bySpec)) ∪ list_to_set (map rsc_Name (default [] byStatus)) ∪ list_to_set (rsp_UsedBy rsp).
Definition enqueueRSC (name : string) : list string := if String.eqb name "" then [] else [name].
Definition rvCreatedOrDeleted (rv : ReplicatedVolume) : list string := enqueueRSC (rv_Spec_ReplicatedStorageClassName rv).
Definition rvUpdated (old new : ReplicatedVolume) : list string :=
  enqueueRSC (rv_Spec_ReplicatedStorageClassName old) ++ enqueueRSC (rv_Spec_ReplicatedStorageClassName new).
End class.
End class_controller.
