(* ===== verification/DrbdUtils.v ===== *)
(** * images/agent/pkg/drbdutils: the commands of drbdsetup and drbdmeta

    Source: images/agent/pkg/drbdutils.  An Execute function runs one command: its arguments are those
    of the Args function beside it, its known errors are told apart by exit code and output.  A process,
    a file and the shared counter of minors are reached through [hostcall]s; encoding/json and the layout
    of timestamps are the class parameter [TextApi].  Text is ASCII. *)

From Stdlib Require Import ZArith Lia String Ascii.
From stdpp Require Import base gmap list numbers strings option.
From S2P Require Import Prelude IdSet DrbdSize Api Object Storage Flow Client.
Import v1alpha1 objutilv1 storage drbd flow client host.

(** ** Strings of the Go library *)
Module gostrings.
Definition isSpace (c : ascii) : bool := let n := nat_of_ascii c in (n =? 32)%nat || ((9 <=? n)%nat && (n <=? 13)%nat).
(** strings.Split at a separator of one byte. *)
Fixpoint Split (sep : ascii) (s : string) : list string :=
  match s with
  | EmptyString => [""]
  | String c s =>
      if Ascii.eqb c sep then "" :: Split sep s
      else match Split sep s with x :: l => String c x :: l | [] => [String c ""] end
  end.
(** strings.SplitN: at most [n] parts. *)
Fixpoint SplitN (sep : ascii) (s : string) (n : nat) : list string :=
  match n with
  | O => []
  | S O => [s]
  | S n' => (fix go s := match s with
             | EmptyString => [""]
             | String c s =>
                 if Ascii.eqb c sep then "" :: SplitN sep s n'
                 else match go s with x :: l => String c x :: l | [] => [String c ""] end
             end) s
  end.
Definition Contains (s sub : string) : bool := match String.index 0 sub s with Some _ => true | None => false end.
Definition HasPrefix (s p : string) : bool := String.prefix p s.
Definition CutPrefix (s p : string) : string * bool :=
  if String.prefix p s then (String.substring (String.length p) (String.length s - String.length p) s, true) else (s, false).
(** strings.Cut *)
Definition Cut (s sep : string) : string * string * bool :=
  match String.index 0 sep s with
  | Some i => (String.substring 0 i s, String.substring (i + String.length sep) (String.length s - (i + String.length sep)) s, true)
  | None => (s, "", false)
  end.
Fixpoint trimLeft (s : string) : string :=
  match s with String c s' => if isSpace c then trimLeft s' else s | EmptyString => "" end.
Fixpoint trimRight (s : string) : string :=
  match s with
  | EmptyString => ""
  | String c s => match trimRight s with
                  | EmptyString => if isSpace c then "" else String c ""
                  | r => String c r
                  end
  end.
Definition TrimSpace (s : string) : string := trimRight (trimLeft s).
(** strings.Fields *)
Fixpoint fieldsFrom (s word : string) : list string :=
  match s with
  | EmptyString => if String.eqb word "" then [] else [word]
  | String c s =>
      if isSpace c then (if String.eqb word "" then [] else [word]) ++ fieldsFrom s ""
      else fieldsFrom s (word +:+ String c "")
  end.
Definition Fields (s : string) : list string := fieldsFrom s "".
(** strconv.ParseUint in base 10 with a bit size. *)
Definition digit (c : ascii) : option Z :=
  let n := Z.of_nat (nat_of_ascii c) in if (48 <=? n) && (n <=? 57) then Some (n - 48) else None.
Fixpoint digits (s : string) (acc : Z) : option Z :=
  match s with EmptyString => Some acc | String c s => d ← digit c; digits s (10 * acc + d) end.
Definition ParseUint (s : string) (bits : Z) : option Z :=
  match s with
  | EmptyString => None
  | _ => v ← digits s 0; if v <? 2 ^ bits then Some v else None
  end.
(** strings.EqualFold *)
Definition EqualFold (a b : string) : bool := String.eqb (ToLower a) (ToLower b).
(** fmt's [%016X] *)
Definition hexDigit (n : Z) : ascii := ascii_of_nat (Z.to_nat (if n <? 10 then 48 + n else 55 + n)).
Fixpoint hexPad (n : nat) (v : Z) : string :=
  match n with O => "" | S n => String (hexDigit (Z.land (Z.shiftr v (4 * Z.of_nat n)) 15)) (hexPad n v) end.
End gostrings.
Import gostrings.

Class TextApi := {
  UnmarshalStatus : string → error + list drbdstatus.Resource;
  UnmarshalShow : string → error + list drbdstatus.ShowResource;
  ParseRFC3339Nano : string → option Time;
}.

(** ** Errors

    The error values of the agent: errors of calls, package variables told apart by identity, fmt.Errorf
    with one [%w], errors.Join, and the two error types of the drbdr package. *)
Module agent_errors.
Inductive agentError :=
| Plain (e : error)
| Sentinel (name text : string)
| Errorf (before : string) (e : agentError) (after : string)
| Join (es : list agentError)
| configuredReasonError (e : agentError) (reason : string)
| localPortConflictError (ip : string) (e : agentError).
Fixpoint Error (e : agentError) : string :=
  match e with
  | Plain e => errorString e
  | Sentinel _ text => text
  | Errorf before e after => before +:+ Error e +:+ after
  | Join es => join newline (map Error es)
  | configuredReasonError e _ => Error e
  | localPortConflictError ip e => "local port conflict on " +:+ ip +:+ ": " +:+ Error e
  end.
Definition Errorf_ (text : string) : agentError := Plain (Leaf text false).
(** errors.Join of errors that may be nil. *)
Definition errorsJoin (es : list (option agentError)) : option agentError :=
  match omap id es with [] => None | es => Some (Join es) end.
Definition sentinelName (e : agentError) : string := match e with Sentinel name _ => name | _ => "" end.
(** errors.Is for a package variable. *)
Fixpoint isSentinel (name : string) (e : agentError) : bool :=
  match e with
  | Plain _ => false
  | Sentinel n _ => String.eqb n name
  | Errorf _ e _ | configuredReasonError e _ | localPortConflictError _ e => isSentinel name e
  | Join es => existsb (isSentinel name) es
  end.
Definition Is (e target : agentError) : bool := isSentinel (sentinelName target) e.
(** errors.As: the first match, depth first. *)
Fixpoint asReason (e : agentError) : option string :=
  match e with
  | Plain _ | Sentinel _ _ => None
  | configuredReasonError _ reason => Some reason
  | Errorf _ e _ | localPortConflictError _ e => asReason e
  | Join es => head (omap asReason es)
  end.
Fixpoint asPortConflict (e : agentError) : option string :=
  match e with
  | Plain _ | Sentinel _ _ => None
  | localPortConflictError ip _ => Some ip
  | Errorf _ e _ | configuredReasonError e _ => asPortConflict e
  | Join es => head (omap asPortConflict es)
  end.
(** The error as a reconcile outcome carries it: its text, and whether isExpectedTransientError of the
    flow package holds of it. *)
Fixpoint transient (e : agentError) : bool :=
  match e with
  | Plain e => isTransient e
  | Sentinel _ _ => false
  | Errorf _ e _ | configuredReasonError e _ | localPortConflictError _ e => transient e
  | Join es => match es with [] => false | _ => forallb transient es end
  end.
Definition toError (e : agentError) : error := match e with Plain e => e | _ => Leaf (Error e) (transient e) end.
Definition ConfiguredReasonError (err : option agentError) (reason : string) : option agentError :=
  (λ e, configuredReasonError e reason) <$> err.
End agent_errors.
Import agent_errors.

Module drbdutils.
Section drbdutils.
Context {K : K8s} {Srv : Server} {X : TextApi}.
Set Default Proof Using "Type".

(** ** command.go *)
Record KnownError := { ke_ExitCode : Z; ke_OutputSubstring : string; ke_JoinErr : agentError }.
Definition DRBDSetupCommand : string := "drbdsetup".
Definition DRBDMetaCommand : string := "drbdmeta".
Definition withOutput (err : agentError) (out : string) : agentError :=
  if String.eqb out "" then err else Errorf "" err ("; output: " +:+ quote out).
Definition matches (code : Z) (out : string) (ke : KnownError) : bool :=
  (ke_ExitCode ke =? code) && Contains out (ke_OutputSubstring ke).
(** The command is printed as its name and arguments. *)
Definition executeCommand (command : string) (args : list string) (knownErrors : list KnownError) : M (agentError + string) :=
  '(out, err) ← do (OnHost (Exec command args));
  mret (match err with
        | None => inr out
        | Some (e, exitCode) =>
            let err := match List.find (matches exitCode out) knownErrors with
                       | Some ke => Join [ke_JoinErr ke; Plain e]
                       | None => Plain e
                       end in
            inl (Errorf ("running command " +:+ join " " (command :: args) +:+ ": ") (withOutput err out) "")
        end).
Definition errOf {A} (r : agentError + A) : option agentError := match r with inl e => Some e | inr _ => None end.
Definition run (command : string) (args : list string) (knownErrors : list KnownError) : M (option agentError) :=
  errOf <$> executeCommand command args knownErrors.
(** The known errors of drbdsetup: exit code 10 and a number in the output. *)
Definition known (l : list (string * agentError)) : list KnownError :=
  map (λ '(out, e), {| ke_ExitCode := 10; ke_OutputSubstring := out; ke_JoinErr := e |}) l.
Definition FormatUint : Z → string := itoa.
Definition yesno (flag : string) (b : option bool) : list string :=
  match b with Some true => [flag +:+ "=yes"] | Some false => [flag +:+ "=no"] | None => [] end.

(** ** resource.go, resource_options.go, down.go, rename.go, primary.go, secondary.go *)
Definition NewResourceArgs (resource : string) (nodeID : Z) : list string := ["new-resource"; resource; FormatUint nodeID].
Definition ExecuteNewResource (resource : string) (nodeID : Z) : M (option agentError) :=
  run DRBDSetupCommand (NewResourceArgs resource nodeID) [].

Record ResourceOptions := {
  ro_AutoPromote : option bool; ro_OnNoQuorum : string; ro_OnNoDataAccessible : string;
  ro_OnSuspendedPrimaryOutdated : string; ro_Quorum : option Z; ro_QuorumMinimumRedundancy : option Z;
  ro_QuorumDynamicVoters : option bool;
}.
Definition flagText (flag value : string) : list string := if String.eqb value "" then [] else [flag; value].
Definition flagOff (flag : string) (value : option Z) : list string :=
  match value with Some v => [flag; if v =? 0 then "off" else FormatUint v] | None => [] end.
Definition ResourceOptionsArgs (resource : string) (opts : ResourceOptions) : list string :=
  ["resource-options"; resource] ++ yesno "--auto-promote" (ro_AutoPromote opts) ++
  flagText "--on-no-quorum" (ro_OnNoQuorum opts) ++ flagText "--on-no-data-accessible" (ro_OnNoDataAccessible opts) ++
  flagText "--on-suspended-primary-outdated" (ro_OnSuspendedPrimaryOutdated opts) ++
  flagOff "--quorum" (ro_Quorum opts) ++ flagOff "--quorum-minimum-redundancy" (ro_QuorumMinimumRedundancy opts) ++
  yesno "--quorum-dynamic-voters" (ro_QuorumDynamicVoters opts).
Definition ErrResourceOptionsResourceNotFound : agentError := Sentinel "ErrResourceOptionsResourceNotFound" "resource not found".
Definition ResourceOptionsKnownErrors : list KnownError := known [("(158)", ErrResourceOptionsResourceNotFound)].
Definition ExecuteResourceOptions (resource : string) (opts : ResourceOptions) : M (option agentError) :=
  run DRBDSetupCommand (ResourceOptionsArgs resource opts) ResourceOptionsKnownErrors.

Definition DownArgs (resource : string) : list string := ["down"; resource].
Definition ExecuteDown (resource : string) : M (option agentError) := run DRBDSetupCommand (DownArgs resource) [].

Definition ErrRenameUnknownResource : agentError := Sentinel "ErrRenameUnknownResource" "unknown resource".
Definition ErrRenameAlreadyExists : agentError := Sentinel "ErrRenameAlreadyExists" "already exists".
Definition RenameArgs (oldName newName : string) : list string := ["rename-resource"; oldName; newName].
Definition RenameKnownErrors : list KnownError := known [("(158)", ErrRenameUnknownResource); ("(174)", ErrRenameAlreadyExists)].
Definition ExecuteRename (oldName newName : string) : M (option agentError) :=
  run DRBDSetupCommand (RenameArgs oldName newName) RenameKnownErrors.

Definition forced (force : bool) : list string := if force then ["--force"] else [].
Definition PrimaryArgs (resource : string) (force : bool) : list string := ["primary"; resource] ++ forced force.
Definition PrimaryKnownErrors : list KnownError :=
  {| ke_ExitCode := 17; ke_OutputSubstring := "(-2)"; ke_JoinErr := Sentinel "ErrPrimaryNoUpToDateDisk" "no up-to-date disk available" |} ::
  known [("(158)", Sentinel "ErrPrimaryResourceNotFound" "resource not found")].
Definition ExecutePrimary (resource : string) (force : bool) : M (option agentError) :=
  run DRBDSetupCommand (PrimaryArgs resource force) PrimaryKnownErrors.
Definition SecondaryArgs (resource : string) (force : bool) : list string := ["secondary"; resource] ++ forced force.
Definition SecondaryKnownErrors : list KnownError :=
  {| ke_ExitCode := 11; ke_OutputSubstring := "(-12)"; ke_JoinErr := Sentinel "ErrSecondaryDeviceInUse" "device in use, cannot demote" |} ::
  known [("(158)", Sentinel "ErrSecondaryResourceNotFound" "resource not found")].
Definition ExecuteSecondary (resource : string) (force : bool) : M (option agentError) :=
  run DRBDSetupCommand (SecondaryArgs resource force) SecondaryKnownErrors.

(** ** peer.go, connect.go, path.go *)
Record NewPeerOptions := {
  np_Name : string; np_Protocol : string; np_SharedSecret : string; np_CRAMHMACAlg : string; np_RRConflict : string;
  np_VerifyAlg : string;
}.
Definition NewPeerArgs (resource : string) (peerNodeID : Z) (opts : NewPeerOptions) : list string :=
  ["new-peer"; resource; FormatUint peerNodeID] ++
  (if String.eqb (np_Name opts) "" then [] else ["--_name=" +:+ np_Name opts]) ++
  flagText "--protocol" (np_Protocol opts) ++ flagText "--shared-secret" (np_SharedSecret opts) ++
  flagText "--cram-hmac-alg" (ToLower (np_CRAMHMACAlg opts)) ++ flagText "--rr-conflict" (np_RRConflict opts) ++
  flagText "--verify-alg" (np_VerifyAlg opts).
Definition NewPeerKnownErrors : list KnownError :=
  known [("(158)", Sentinel "ErrNewPeerResourceNotFound" "resource not found");
         ("(172)", Sentinel "ErrNewPeerTransportCreateFailed" "failed to create transport")].
Definition ExecuteNewPeer (resource : string) (peerNodeID : Z) (opts : NewPeerOptions) : M (option agentError) :=
  run DRBDSetupCommand (NewPeerArgs resource peerNodeID opts) NewPeerKnownErrors.
Definition DelPeerArgs (resource : string) (peerNodeID : Z) : list string := ["del-peer"; resource; FormatUint peerNodeID].
Definition ExecuteDelPeer (resource : string) (peerNodeID : Z) : M (option agentError) :=
  run DRBDSetupCommand (DelPeerArgs resource peerNodeID) (known [("(158)", Sentinel "ErrDelPeerResourceNotFound" "resource not found")]).
Definition ForgetPeerArgs (resource : string) (peerNodeID : Z) : list string := ["forget-peer"; resource; FormatUint peerNodeID].
Definition ExecuteForgetPeer (resource : string) (peerNodeID : Z) : M (option agentError) :=
  run DRBDSetupCommand (ForgetPeerArgs resource peerNodeID) (known [("(158)", Sentinel "ErrForgetPeerResourceNotFound" "resource not found")]).

Definition ErrConnectNetConfigured : agentError := Sentinel "ErrConnectNetConfigured" "connection already configured".
Definition ConnectArgs (resource : string) (peerNodeID : Z) : list string := ["connect"; resource; FormatUint peerNodeID].
Definition ConnectKnownErrors : list KnownError :=
  known [("(123)", Sentinel "ErrConnectDiscardNotAllowed" "discard-my-data not allowed when primary");
         ("(158)", Sentinel "ErrConnectResourceNotFound" "resource not found"); ("(125)", ErrConnectNetConfigured)].
Definition ExecuteConnect (resource : string) (peerNodeID : Z) : M (option agentError) :=
  run DRBDSetupCommand (ConnectArgs resource peerNodeID) ConnectKnownErrors.
Definition DisconnectArgs (resource : string) (peerNodeID : Z) : list string := ["disconnect"; resource; FormatUint peerNodeID].
Definition ExecuteDisconnect (resource : string) (peerNodeID : Z) : M (option agentError) :=
  run DRBDSetupCommand (DisconnectArgs resource peerNodeID) (known [("(158)", Sentinel "ErrDisconnectResourceNotFound" "resource not found")]).

Definition ErrNewPathLocalAddrInUse : agentError := Sentinel "ErrNewPathLocalAddrInUse" "local address already in use".
Definition NewPathArgs (resource : string) (peerNodeID : Z) (localAddr remoteAddr : string) : list string :=
  ["new-path"; resource; FormatUint peerNodeID; localAddr; remoteAddr].
Definition NewPathKnownErrors : list KnownError :=
  known [("(102)", ErrNewPathLocalAddrInUse); ("(103)", Sentinel "ErrNewPathRemoteAddrInUse" "remote address already in use");
         ("(173)", Sentinel "ErrNewPathAddrPairInUse" "address pair combination already in use")].
Definition ExecuteNewPath (resource : string) (peerNodeID : Z) (localAddr remoteAddr : string) : M (option agentError) :=
  run DRBDSetupCommand (NewPathArgs resource peerNodeID localAddr remoteAddr) NewPathKnownErrors.
Definition ErrDelPathNotFound : agentError := Sentinel "ErrDelPathNotFound" "resource or path not found".
Definition DelPathArgs (resource : string) (peerNodeID : Z) (localAddr remoteAddr : string) : list string :=
  ["del-path"; resource; FormatUint peerNodeID; localAddr; remoteAddr].
Definition DelPathKnownErrors : list KnownError := known [("(158)", ErrDelPathNotFound); ("no such path", ErrDelPathNotFound)].
Definition ExecuteDelPath (resource : string) (peerNodeID : Z) (localAddr remoteAddr : string) : M (option agentError) :=
  run DRBDSetupCommand (DelPathArgs resource peerNodeID localAddr remoteAddr) DelPathKnownErrors.

(** ** net_options.go, peer_device_options.go, disk_options.go *)
Definition flagSet (flag : string) (value : option string) : list string :=
  match value with Some v => [flag +:+ "=" +:+ v] | None => [] end.
Record NetOptions := {
  no_Protocol : option string; no_SharedSecret : option string; no_CRAMHMACAlg : option string;
  no_AllowTwoPrimaries : option bool; no_AllowRemoteRead : option bool; no_VerifyAlg : option string;
}.
Definition NetOptionsArgs (resource : string) (peerNodeID : Z) (opts : NetOptions) : list string :=
  ["net-options"; resource; FormatUint peerNodeID] ++ flagSet "--protocol" (no_Protocol opts) ++
  flagSet "--shared-secret" (no_SharedSecret opts) ++ flagSet "--cram-hmac-alg" (no_CRAMHMACAlg opts) ++
  yesno "--allow-two-primaries" (no_AllowTwoPrimaries opts) ++ yesno "--allow-remote-read" (no_AllowRemoteRead opts) ++
  flagSet "--verify-alg" (no_VerifyAlg opts).
Definition NetOptionsKnownErrors : list KnownError :=
  known [("(163)", Sentinel "ErrNetOptionsProtocolVersion" "protocol version 100+ required for online changes");
         ("(164)", Sentinel "ErrNetOptionsClearTwoPrimaries" "cannot clear allow-two-primaries with both primaries");
         ("(149)", Sentinel "ErrNetOptionsVerifyAlgDuringSync" "cannot change verify-alg during verify");
         ("(148)", Sentinel "ErrNetOptionsCSumsAlgDuringSync" "cannot change csums-alg during resync")].
Definition ExecuteNetOptions (resource : string) (peerNodeID : Z) (opts : NetOptions) : M (option agentError) :=
  run DRBDSetupCommand (NetOptionsArgs resource peerNodeID opts) NetOptionsKnownErrors.

Record PeerDeviceOptions := {
  po_Bitmap : option bool; po_CPlanAhead : option string; po_CDelayTarget : option string; po_CFillTarget : option string;
  po_CMaxRate : option string; po_CMinRate : option string;
}.
Definition PeerDeviceOptionsArgs (resource : string) (peerNodeID volumeNr : Z) (opts : PeerDeviceOptions) : list string :=
  ["peer-device-options"; resource; FormatUint peerNodeID; FormatUint volumeNr] ++ yesno "--bitmap" (po_Bitmap opts) ++
  flagSet "--c-plan-ahead" (po_CPlanAhead opts) ++ flagSet "--c-delay-target" (po_CDelayTarget opts) ++
  flagSet "--c-fill-target" (po_CFillTarget opts) ++ flagSet "--c-max-rate" (po_CMaxRate opts) ++
  flagSet "--c-min-rate" (po_CMinRate opts).
Definition ExecutePeerDeviceOptions (resource : string) (peerNodeID volumeNr : Z) (opts : PeerDeviceOptions) : M (option agentError) :=
  run DRBDSetupCommand (PeerDeviceOptionsArgs resource peerNodeID volumeNr opts) [].

Record DiskOptions := {
  do_DiscardZeroesIfAligned : option bool; do_RsDiscardGranularity : option Z; do_NonVoting : option bool;
}.
Definition DiskOptionsArgs (minor : Z) (opts : DiskOptions) : list string :=
  ["disk-options"; FormatUint minor] ++ yesno "--discard-zeroes-if-aligned" (do_DiscardZeroesIfAligned opts) ++
  match do_RsDiscardGranularity opts with Some v => ["--rs-discard-granularity"; FormatUint v] | None => [] end ++
  yesno "--non-voting" (do_NonVoting opts).
Definition ExecuteDiskOptions (minor : Z) (opts : DiskOptions) : M (option agentError) :=
  run DRBDSetupCommand (DiskOptionsArgs minor opts) (known [("(138)", Sentinel "ErrDiskOptionsNoDiskAttached" "no disk attached")]).

(** ** attach.go, detach.go, resize.go, new_current_uuid.go *)
Definition AttachArgs (minor : Z) (lowerDev metaDev metaIdx : string) : list string :=
  ["attach"; FormatUint minor; lowerDev; metaDev; metaIdx].
Definition AttachKnownErrors : list KnownError :=
  let small := Sentinel "ErrAttachDeviceTooSmall" "device too small" in
  known [("(104)", Sentinel "ErrAttachCannotOpenBackingDevice" "cannot open backing device");
         ("(105)", Sentinel "ErrAttachCannotOpenMetaDevice" "cannot open meta device");
         ("(116)", Sentinel "ErrAttachInvalidMetaDataIndex" "invalid meta-data index");
         ("(124)", Sentinel "ErrAttachAlreadyAttached" "already attached");
         ("(165)", Sentinel "ErrAttachMetaDataUnclean" "meta-data unclean");
         ("(119)", Sentinel "ErrAttachMetaDataInvalid" "meta-data invalid or uninitialized");
         ("(118)", Sentinel "ErrAttachMetaDataIOError" "I/O error on meta-data"); ("(111)", small); ("(112)", small);
         ("(127)", Sentinel "ErrAttachMinorNotAllocated" "minor not allocated")].
Definition ExecuteAttach (minor : Z) (lowerDev metaDev metaIdx : string) : M (option agentError) :=
  run DRBDSetupCommand (AttachArgs minor lowerDev metaDev metaIdx) AttachKnownErrors.
Definition DetachArgs (minor : Z) (diskless : bool) : list string :=
  ["detach"; FormatUint minor] ++ (if diskless then ["--diskless"] else []).
Definition ExecuteDetach (minor : Z) (diskless : bool) : M (option agentError) := run DRBDSetupCommand (DetachArgs minor diskless) [].
Definition ErrResizeBackingNotGrown : agentError := Sentinel "ErrResizeBackingNotGrown" "backing device not grown".
(** Sectors of 512 bytes; a size that is not positive is left to DRBD. *)
Definition ResizeArgs (minor sizeBytes : Z) : list string :=
  ["resize"; FormatUint minor] ++ (if 0 <? sizeBytes then ["--size=" +:+ itoa (sizeBytes / 512)] else []).
Definition ResizeKnownErrors : list KnownError :=
  known [("(111)", ErrResizeBackingNotGrown); ("(131)", Sentinel "ErrResizeNeedPrimary" "need one primary node for resize")].
Definition ExecuteResize (minor sizeBytes : Z) : M (option agentError) := run DRBDSetupCommand (ResizeArgs minor sizeBytes) ResizeKnownErrors.
Definition NewCurrentUUIDArgs (minor : Z) (clearBitmap forceResync : bool) : list string :=
  ["new-current-uuid"; FormatUint minor] ++ (if clearBitmap then ["--clear-bitmap"] else []) ++
  (if forceResync then ["--force-resync"] else []).
Definition ExecuteNewCurrentUUID (minor : Z) (clearBitmap forceResync : bool) : M (option agentError) :=
  run DRBDSetupCommand (NewCurrentUUIDArgs minor clearBitmap forceResync) [].

(** ** create_md.go *)
Definition ErrNoValidMetadata : agentError := Sentinel "ErrNoValidMetadata" "no valid metadata found".
Definition ErrUncleanMetadata : agentError := Sentinel "ErrUncleanMetadata" "metadata is unclean (activity log not applied)".
Definition CreateMDArgs (minor : Z) (backingDev : string) : list string :=
  [FormatUint minor; "v09"; backingDev; "internal"; "create-md"; "--force"; "7"].
Definition DumpMDArgs (minor : Z) (backingDev : string) : list string := [FormatUint minor; "v09"; backingDev; "internal"; "dump-md"].
Definition DumpMDKnownErrors : list KnownError :=
  [{| ke_ExitCode := 1; ke_OutputSubstring := "No valid meta data found"; ke_JoinErr := ErrNoValidMetadata |};
   {| ke_ExitCode := 255; ke_OutputSubstring := "No valid meta data found"; ke_JoinErr := ErrNoValidMetadata |};
   {| ke_ExitCode := 1; ke_OutputSubstring := "unclean"; ke_JoinErr := ErrUncleanMetadata |};
   {| ke_ExitCode := 255; ke_OutputSubstring := "unclean"; ke_JoinErr := ErrUncleanMetadata |}].
Definition ExecuteCreateMD (minor : Z) (backingDev : string) : M (option agentError) := run DRBDMetaCommand (CreateMDArgs minor backingDev) [].
Definition ExecuteCheckMD (minor : Z) (backingDev : string) : M (agentError + bool) :=
  err ← run DRBDMetaCommand (DumpMDArgs minor backingDev) DumpMDKnownErrors;
  mret (match err with
        | None => inr true
        | Some e => if Is e ErrNoValidMetadata then inr false else if Is e ErrUncleanMetadata then inr true else inl e
        end).
Definition ApplyALArgs (minor : Z) (backingDev : string) : list string :=
  ["-f"; FormatUint minor; "v09"; backingDev; "internal"; "apply-al"].
Definition ExecuteApplyAL (minor : Z) (backingDev : string) : M (option agentError) := run DRBDMetaCommand (ApplyALArgs minor backingDev) [].
Definition ReadDevUUIDArgs (backingDev : string) : list string := ["--force"; "-"; "v09"; backingDev; "internal"; "read-dev-uuid"].
Definition WriteDevUUIDArgs (minor : Z) (backingDev uuid : string) : list string :=
  ["-f"; FormatUint minor; "v09"; backingDev; "internal"; "write-dev-uuid"; uuid].
Fixpoint isUpperHex (s : string) : bool :=
  match s with
  | EmptyString => true
  | String c s =>
      let n := nat_of_ascii c in
      (((48 <=? n) && (n <=? 57)) || ((65 <=? n) && (n <=? 70)))%nat && isUpperHex s
  end.
Definition isDevUUID (line : string) : bool := (String.length line =? 16)%nat && isUpperHex line.
Definition parseDevUUID (output : string) : string :=
  default "" (List.find isDevUUID (map TrimSpace (Split (ascii_of_nat 10) output))).
Definition zeroUUID : string := "0000000000000000".
Definition ExecuteReadDevUUID (backingDev : string) : M (agentError + string) :=
  r ← executeCommand DRBDMetaCommand (ReadDevUUIDArgs backingDev) [];
  mret (match r with
        | inl e => inl e
        | inr out =>
            let uuid := parseDevUUID out in
            if String.eqb uuid "" then inl (Errorf_ ("no device-uuid found in drbdmeta output: " +:+ quote out))
            else if String.eqb uuid zeroUUID then inr ""
            else inr uuid
        end).
Definition ExecuteWriteDevUUID (minor : Z) (backingDev uuid : string) : M (option agentError) :=
  run DRBDMetaCommand (WriteDevUUIDArgs minor backingDev uuid) [].

(** ** minor.go *)
Definition MaxDeviceMinor : Z := 1048575.
Definition ErrNewMinorAlreadyExists : agentError := Sentinel "ErrNewMinorAlreadyExists" "minor or volume already exists".
Definition ErrNewMinorNoFreeMinor : agentError := Sentinel "ErrNewMinorNoFreeMinor" "no free device minor available".
Definition NewMinorArgs (resource : string) (minor volume : Z) (diskless : bool) : list string :=
  ["new-minor"; resource; FormatUint minor; FormatUint volume] ++ (if diskless then ["--diskless"] else []).
Definition NewMinorKnownErrors : list KnownError :=
  known [("(161)", ErrNewMinorAlreadyExists); ("(158)", Sentinel "ErrNewMinorResourceNotFound" "resource not found")].
Definition ExecuteNewMinor (resource : string) (minor volume : Z) (diskless : bool) : M (option agentError) :=
  run DRBDSetupCommand (NewMinorArgs resource minor volume diskless) NewMinorKnownErrors.
Definition nextAfter (minor : Z) : Z := let n := wrap64 (minor + 1) in if MaxDeviceMinor <? n then 0 else n.
Definition grabNextMinor : M Z :=
  minor ← do (OnHost LoadNextMinor);
  _ ← do (OnHost (StoreNextMinor (nextAfter minor)));
  mret minor.
Definition minorOf (name : string) : option Z :=
  match CutPrefix name "drbd" with (digits, true) => ParseUint digits 64 | (_, false) => None end.
Definition SysBlockPath : string := "/sys/block".
Definition readUsedMinors : M (agentError + list Z) :=
  r ← do (OnHost (ReadDir SysBlockPath));
  mret (match r with
        | inl e => inl (Errorf ("reading " +:+ SysBlockPath +:+ ": ") (Plain e) "")
        | inr names => inr (sort_by Z.leb (omap minorOf names))
        end).
(** The first gap from 0. *)
Fixpoint firstGap (next : Z) (usedMinors : list Z) : Z :=
  match usedMinors with
  | [] => next
  | m :: l => if next <? m then next else if m =? next then firstGap (next + 1) l else firstGap next l
  end.
(** The next minor to try; None when there is none. *)
Definition advance (next : Z) (usedMinors : list Z) : option Z :=
  if MaxDeviceMinor <? Z.of_nat (length usedMinors) then None
  else
    let next := match list.last usedMinors with Some m => Z.max next (wrap64 (m + 1)) | None => next end in
    Some (if MaxDeviceMinor <? next then firstGap 0 usedMinors else next).
Definition advanceMinorPastUsed (usedMinors : list Z) : M (option agentError) :=
  next ← do (OnHost LoadNextMinor);
  match advance next usedMinors with
  | None => mret (Some ErrNewMinorNoFreeMinor)
  | Some next => _ ← do (OnHost (StoreNextMinor next)); mret None
  end.
(** The loop has no bound in the code. *)
Fixpoint ExecuteNewAutoMinor (fuel : nat) (resource : string) (volume : Z) (diskless : bool) : M (agentError + Z) :=
  match fuel with
  | O => lift OutOfFuel
  | S fuel =>
      minor ← grabNextMinor;
      err ← ExecuteNewMinor resource minor volume diskless;
      match err with
      | None => mret (inr minor)
      | Some e =>
          if negb (Is e ErrNewMinorAlreadyExists) then mret (inl e)
          else
            used ← readUsedMinors;
            match used with
            | inl e => mret (inl (Errorf "reading used minors from sysfs: " e ""))
            | inr usedMinors =>
                err ← advanceMinorPastUsed usedMinors;
                match err with
                | Some e => mret (inl e)
                | None => ExecuteNewAutoMinor fuel resource volume diskless
                end
            end
      end
  end.

(** ** status.go, show.go *)
Definition errStatusNoSuchResource : agentError := Sentinel "errStatusNoSuchResource" "no such resource".
Definition StatusArgs (resourceName : string) : list string := ["status"; "--json"; resourceName].
Definition StatusKnownErrors : list KnownError := known [("No such resource", errStatusNoSuchResource)].
Definition ExecuteStatus (resourceName : string) : M (agentError + list drbdstatus.Resource) :=
  let resourceName := if String.eqb resourceName "" then "all" else resourceName in
  r ← executeCommand DRBDSetupCommand (StatusArgs resourceName) StatusKnownErrors;
  mret (match r with
        | inl e => if negb (String.eqb resourceName "all") && Is e errStatusNoSuchResource then inr [] else inl e
        | inr jsonBytes =>
            match UnmarshalStatus jsonBytes with
            | inl e => inl (Errorf "unmarshaling command output: " (Plain e) ("; output: " +:+ quote jsonBytes))
            | inr result => inr result
            end
        end).
Definition ShowArgs (resourceName : string) (showDefaults : bool) : list string :=
  ["show"; "--json"] ++ (if showDefaults then ["--show-defaults"] else []) ++
  (if String.eqb resourceName "" then [] else [resourceName]).
Definition ExecuteShow (resourceName : string) (showDefaults : bool) : M (agentError + list drbdstatus.ShowResource) :=
  r ← executeCommand DRBDSetupCommand (ShowArgs resourceName showDefaults) [];
  mret (match r with
        | inl e => inl e
        | inr output =>
            match UnmarshalShow output with
            | inl e => inl (Errorf "parsing JSON output: " (Plain e) "")
            | inr results => inr results
            end
        end).

(** ** discard.go *)
(** filepath.Base *)
Definition Base (path : string) : string :=
  if String.eqb path "" then "."
  else default "/" (list.last (List.filter (λ s, negb (String.eqb s "")) (Split "/"%char path))).
Definition ReadDiscardGranularity (devPath : string) : M Z :=
  realPath ← do (OnHost (EvalSymlinks devPath));
  match realPath with
  | None => mret 0
  | Some realPath =>
      data ← do (OnHost (ReadFile ("/sys/block/" +:+ Base realPath +:+ "/queue/discard_granularity")));
      mret (match data with Some data => default 0 (ParseUint (TrimSpace data) 64) | None => 0 end)
  end.

(** ** caps.go *)
Definition ProcDRBDPath : string := "/proc/drbd".
(** The first line of a file; an empty file has none. *)
Definition firstLine (data : string) : option string :=
  if String.eqb data "" then None else head (Split (ascii_of_nat 10) data).
Definition versionOf (line : string) : string :=
  match Cut line "version: " with
  | (_, _, false) => ""
  | (_, after, true) => (Cut after " ").1.1
  end.
Definition readDRBDVersion : M string :=
  f ← do (OnHost (ReadFile ProcDRBDPath));
  mret (match f ≫= firstLine with Some line => versionOf line | None => "" end).
(** The flag FlantExtensionsSupported, and the error of the status command. *)
Definition DetectCapabilities : M (bool * option agentError) :=
  r ← ExecuteStatus "";
  version ← readDRBDVersion;
  mret (Contains version "-flant", errOf r).

(** ** events2.go *)
Inductive EventKind := KindExists | KindCreate | KindDestroy | KindChange | KindCall | KindResponse | KindRename.
Definition ParseEventKind (s : string) : option EventKind :=
  if String.eqb s "exists" then Some KindExists else if String.eqb s "create" then Some KindCreate
  else if String.eqb s "destroy" then Some KindDestroy else if String.eqb s "change" then Some KindChange
  else if String.eqb s "call" then Some KindCall else if String.eqb s "response" then Some KindResponse
  else if String.eqb s "rename" then Some KindRename else None.
Inductive EventObject := ObjectResource | ObjectDevice | ObjectConnection | ObjectPeerDevice | ObjectPath | ObjectHelper | ObjectDumpDone.
Definition ParseEventObject (s : string) : option EventObject :=
  if String.eqb s "resource" then Some ObjectResource else if String.eqb s "device" then Some ObjectDevice
  else if String.eqb s "connection" then Some ObjectConnection else if String.eqb s "peer-device" then Some ObjectPeerDevice
  else if String.eqb s "path" then Some ObjectPath else if String.eqb s "helper" then Some ObjectHelper
  else if String.eqb s "-" then Some ObjectDumpDone else None.
#[export] Instance EventKind_eq_dec : EqDecision EventKind.
Proof. solve_decision. Defined.
#[export] Instance EventObject_eq_dec : EqDecision EventObject.
Proof. solve_decision. Defined.
Inductive Events2Result :=
| Event (timestamp : Time) (kind : EventKind) (object : EventObject) (state : gmap string string)
| UnparsedEvent (rawEventLine err : string).
(** The key-value pairs; a pair without a colon is an error. *)
Fixpoint parseState (fields : list string) (state : gmap string string) : string + gmap string string :=
  match fields with
  | [] => inr state
  | kv :: fields =>
      match SplitN ":"%char kv 2 with
      | [k; v] => parseState fields (<[k := v]> state)
      | _ => inl ("invalid key-value pair: " +:+ kv)
      end
  end.
Definition parseLine (line : string) : Events2Result :=
  match Fields line with
  | tsStr :: kindStr :: objectStr :: kvs =>
      match ParseRFC3339Nano tsStr with
      | None => UnparsedEvent line ("invalid timestamp " +:+ quote tsStr)
      | Some ts =>
          match ParseEventKind kindStr with
          | None => UnparsedEvent line ("unrecognized event kind " +:+ quote kindStr)
          | Some kind =>
              match ParseEventObject objectStr with
              | None => UnparsedEvent line ("unrecognized event object " +:+ quote objectStr)
              | Some object =>
                  match parseState kvs ∅ with
                  | inl e => UnparsedEvent line e
                  | inr state => Event ts kind object state
                  end
              end
          end
      end
  | _ => UnparsedEvent line "line has fewer than 3 fields"
  end.
End drbdutils.
End drbdutils.
