(* ===== verification/Drbdr.v ===== *)
(** * The agent's drbdr controller: actual, intended and target state of a DRBD resource

    Source: images/agent/internal/controllers/drbdr/const.go, actual_drbd_state.go,
    intended_drbd_state.go, target_drbd_state.go, and lib/go/common/maps.

    The actual state is what drbdsetup status and show report, the intended state what the DRBDResource
    asks for; the difference is a list of actions, which DrbdrController executes.  The methods of the
    interfaces are functions on the records that implement them.  Whether the kernel module has the Flant
    extensions, set once at start-up, is the variable [flant]; the order in which a range visits a map is
    a rank of its keys; random bytes are an argument. *)

From Stdlib Require Import ZArith Lia String Ascii.
From stdpp Require Import base gmap list numbers strings option.
From S2P Require Import Prelude IdSet DrbdSize Api Object Storage Flow Client DrbdUtils.
Import v1alpha1 objutilv1 storage drbd flow drbdstatus gostrings agent_errors drbdutils.

(** ** lib/go/common/maps *)
Module maps.
Section maps.
Context {Key : Type} `{Countable Key}.
(** Collecting values under their keys: the last one of a key stays. *)
Definition Collect {V} (key : V → Key) (l : list V) : gmap Key V := foldl (λ m v, <[key v := v]> m) ∅ l.
Definition IntersectItersKeyFunc {VL VR} (left : list VL) (leftKey : VL → Key) (right : list VR) (rightKey : VR → Key) :
    gmap Key VL * gmap Key (VL * VR) * gmap Key VR :=
  let l := Collect leftKey left in
  let r := Collect rightKey right in
  (filter (λ kv, r !! kv.1 = None) l, map_zip l r, filter (λ kv, l !! kv.1 = None) r).
(** [for k, v := range m], in the order of a rank of the keys. *)
Definition range {V} (rank : Key → Z) (m : gmap Key V) : list (Key * V) :=
  sort_by (λ a b, rank a.1 <=? rank b.1) (map_to_list m).
End maps.
End maps.
Import maps.

Module drbdr.

(** ** const.go *)
Definition drbdNamePrefix : string := "sdsrv-".
Definition deviceSymlinkDir : string := "/dev/sdsrv/".
Definition DeviceSymlinkPath (k8sName : string) : string := deviceSymlinkDir +:+ k8sName.
Definition DRBDNameFromK8SName (k8sName : string) : string := drbdNamePrefix +:+ k8sName.
Definition ParseDRBDResourceNameOnTheNode (s : string) : string * bool := CutPrefix s drbdNamePrefix.

Section drbdr.
Context {K : K8s}.
Set Default Proof Using "Type".
Implicit Types (d : DRBDResource).

Definition DRBDResourceNameOnTheNode d : string :=
  if negb (String.eqb (ds_ActualNameOnTheNode (dr_Spec d)) "") then ds_ActualNameOnTheNode (dr_Spec d)
  else DRBDNameFromK8SName (dr_Name d).
Definition DRBDResourceStateDown : string := "Down".
Definition ConnectionStateStandAlone : string := "StandAlone".

(** ** actual_drbd_state.go: the observed state; a nil pointer is None *)
Record actualState := {
  as_status : option Resource; as_show : option ShowResource; as_hasMetadata : bool; as_diskDeviceUUID : string;
}.
#[export] Instance rebuild_actualState : Rebuild actualState := λ a,
  {| as_status := as_status a; as_show := as_show a; as_hasMetadata := as_hasMetadata a;
     as_diskDeviceUUID := as_diskDeviceUUID a |}.
Implicit Types (a : actualState).
Definition zeroState : actualState := {| as_status := None; as_show := None; as_hasMetadata := false; as_diskDeviceUUID := "" |}.
Definition ResourceExists a : bool := bool_decide (is_Some (as_status a)) || bool_decide (is_Some (as_show a)).
Definition Role a : string := from_option rs_Role "" (as_status a).
Definition option_ {A} (f : ShowOptions → A) (zero : A) a : A := from_option (λ s, f (sr_Options s)) zero (as_show a).
Definition a_AutoPromote : actualState → bool := option_ so_AutoPromote false.
Definition a_Quorum : actualState → string := option_ so_Quorum "".
Definition a_QuorumMinimumRedundancy : actualState → string := option_ so_QuorumMinimumRedundancy "".
Definition a_OnNoQuorum : actualState → string := option_ so_OnNoQuorum "".
Definition a_OnNoDataAccessible : actualState → string := option_ so_OnNoDataAccessible "".
Definition a_OnSuspendedPrimaryOutdated : actualState → string := option_ so_OnSuspendedPrimaryOutdated "".
Definition a_QuorumDynamicVoters : actualState → bool := option_ so_QuorumDynamicVoters false.

Record actualVolume := {
  av_minor : Z; av_volumeNr : Z; av_diskState : string; av_hasQuorum : bool; av_sizeBytes : Z; av_showVolume : option ShowVolume;
}.
Implicit Types (v : actualVolume).
Definition BackingDisk v : string := from_option sv_BackingDisk "" (av_showVolume v).
Definition v_DiscardZeroesIfAligned v : bool := from_option (λ s, sd_DiscardZeroesIfAligned (sv_Disk s)) false (av_showVolume v).
Definition v_RsDiscardGranularity v : string := from_option (λ s, sd_RSDiscardGranularity (sv_Disk s)) "" (av_showVolume v).
Definition v_NonVoting v : bool := from_option (λ s, sd_NonVoting (sv_Disk s)) false (av_showVolume v).
Definition Volumes a : list actualVolume :=
  match as_status a with
  | None => []
  | Some s =>
      let showVolumes := Collect sv_VolumeNr (from_option (λ s, sh_Volumes (sr_ThisHost s)) [] (as_show a)) in
      map (λ dev, {| av_minor := dv_Minor dev; av_volumeNr := dv_Volume dev; av_diskState := dv_DiskState dev;
                     av_hasQuorum := dv_Quorum dev; av_sizeBytes := wrapS64 (dv_Size dev * 1024);
                     av_showVolume := showVolumes !! dv_Volume dev |}) (rs_Devices s)
  end.

Record actualPeer := { ap_connection : Connection; ap_showConnection : option ShowConnection }.
Implicit Types (p : actualPeer).
Definition ap_NodeID p : Z := wrap8 (cn_PeerNodeID (ap_connection p)).
Definition ap_ConnectionState p : string := cn_ConnectionState (ap_connection p).
Definition net {A} (f : ShowNet → A) (zero : A) p : A := from_option (λ c, f (sc_Net c)) zero (ap_showConnection p).
Definition ap_Protocol : actualPeer → string := net sn_Protocol "".
Definition ap_SharedSecret : actualPeer → string := net sn_SharedSecret "".
Definition ap_SharedSecretAlg : actualPeer → string := net sn_CRAMHMACAlg "".
Definition ap_AllowTwoPrimaries : actualPeer → bool := net sn_AllowTwoPrimaries false.
Definition ap_AllowRemoteRead : actualPeer → bool := net sn_AllowRemoteRead false.
Definition ap_VerifyAlg : actualPeer → string := net sn_VerifyAlg "".
Definition peerDeviceDisk p : option ShowConnectionVolumeDisk := c ← ap_showConnection p; head (sc_Volumes c).
Definition ap_Bitmap p : option bool := cd_Bitmap <$> peerDeviceDisk p.
Definition ap_CPlanAhead p : string := from_option cd_CPlanAhead "" (peerDeviceDisk p).
Definition ap_CDelayTarget p : string := from_option cd_CDelayTarget "" (peerDeviceDisk p).
Definition ap_CFillTarget p : string := from_option cd_CFillTarget "" (peerDeviceDisk p).
Definition ap_CMaxRate p : string := from_option cd_CMaxRate "" (peerDeviceDisk p).
Definition ap_CMinRate p : string := from_option cd_CMinRate "" (peerDeviceDisk p).
Definition ap_Paths p : list Path := cn_Paths (ap_connection p).
(** formatAddr of target_drbd_state.go. *)
Definition formatAddr (ip : string) (port : Z) : string := ip +:+ ":" +:+ itoa port.
Definition LocalAddr (pt : Path) : string := formatAddr (h_Address (pt_ThisHost pt)) (h_Port (pt_ThisHost pt)).
Definition RemoteAddr (pt : Path) : string := formatAddr (h_Address (pt_RemoteHost pt)) (h_Port (pt_RemoteHost pt)).
Definition Peers a : list actualPeer :=
  match as_status a with
  | None => []
  | Some s =>
      let showConnections := Collect sc_PeerNodeID (from_option sr_Connections [] (as_show a)) in
      map (λ c, {| ap_connection := c; ap_showConnection := showConnections !! cn_PeerNodeID c |}) (rs_Connections s)
  end.

(** ** intended_drbd_state.go *)
Record intendedPath := { ip_systemNetworkName : string; ip_localIPv4 : string; ip_localPort : Z; ip_remoteIPv4 : string; ip_remotePort : Z }.
Record intendedPeer := {
  i_name : string; i_nodeID : Z; i_peerType : DRBDResourceType; i_protocol : string; i_sharedSecret : string;
  i_sharedSecretAlg : string; i_allowRemoteRead : bool; i_paths : list intendedPath;
}.
Definition RRConflict : string := "retry-connect".
Definition VerifyAlg : string := "crct10dif-pclmul".
Record intendedDRBDState := {
  is_isUpAndNotInCleanup : bool; is_resourceName : string; is_symlinkName : string; is_nodeID : Z;
  is_resourceType : DRBDResourceType; is_backingDisk : string; is_rsDiscardGranularity : Z; is_quorum : Z;
  is_quorumMinimumRedundancy : Z; is_allowTwoPrimaries : bool; is_nonVoting : bool; is_role : string;
  is_sizeBytes : Z; is_peers : list intendedPeer; is_statusDeviceUUID : string;
}.
Implicit Types (i : intendedDRBDState) (ip : intendedPeer).
Definition AutoPromote : bool := false.
Definition OnNoQuorum : string := "suspend-io".
Definition OnNoDataAccessible : string := "suspend-io".
Definition OnSuspendedPrimaryOutdated : string := "force-secondary".
Definition DiscardZeroesIfAligned : bool := true.
Definition DefaultCPlanAhead : string := "20".
Definition DefaultCDelayTarget : string := "1".
Definition DefaultCFillTarget : string := "4096s".
Definition DefaultCMaxRate : string := "625000k".
Definition DefaultCMinRate : string := "12500k".
Definition systemNetworkToNodeAddressType (systemNetwork : string) : string :=
  if String.eqb systemNetwork "Internal" then "InternalIP"
  else if String.eqb systemNetwork "External" then "ExternalIP" else systemNetwork +:+ "IP".

(** An address that is missing in the status is the zero value. *)
Definition intendedPathOf (localAddresses : gmap string DRBDResourceAddressStatus) (peerPath : DRBDResourcePath) : intendedPath :=
  let localAddr := from_option a_Address ("", 0) (localAddresses !! pa_SystemNetworkName peerPath) in
  {| ip_systemNetworkName := pa_SystemNetworkName peerPath; ip_localIPv4 := localAddr.1; ip_localPort := localAddr.2;
     ip_remoteIPv4 := (pa_Address peerPath).1; ip_remotePort := (pa_Address peerPath).2 |}.
Definition intendedPeerOf (localAddresses : gmap string DRBDResourceAddressStatus) (peer : DRBDResourcePeer) : intendedPeer :=
  {| i_name := dp_Name peer; i_nodeID := dp_NodeID peer; i_peerType := dp_Type peer; i_protocol := dp_Protocol peer;
     i_sharedSecret := dp_SharedSecret peer; i_sharedSecretAlg := dp_SharedSecretAlg peer;
     i_allowRemoteRead := dp_AllowRemoteRead peer; i_paths := map (intendedPathOf localAddresses) (dp_Paths peer) |}.
Definition intendedState d (backingDisk : string) (isUpAndNotInCleanup : bool) (rsDiscardGran : Z) : intendedDRBDState :=
  let localAddresses := Collect a_SystemNetworkName (dr_Addresses d) in
  {| is_isUpAndNotInCleanup := isUpAndNotInCleanup; is_resourceName := DRBDResourceNameOnTheNode d;
     is_symlinkName := dr_Name d; is_nodeID := ds_NodeID (dr_Spec d); is_resourceType := ds_Type (dr_Spec d);
     is_backingDisk := backingDisk; is_rsDiscardGranularity := rsDiscardGran; is_quorum := ds_Quorum (dr_Spec d);
     is_quorumMinimumRedundancy := ds_QuorumMinimumRedundancy (dr_Spec d);
     is_allowTwoPrimaries := ds_AllowTwoPrimaries (dr_Spec d); is_nonVoting := ds_NonVoting (dr_Spec d);
     is_role := ds_Role (dr_Spec d); is_sizeBytes := from_option q_Value 0 (ds_Size (dr_Spec d));
     is_peers := map (intendedPeerOf localAddresses) (ds_Peers (dr_Spec d)); is_statusDeviceUUID := dr_DeviceUUID d |}.

(** ** drbd_actions.go: the actions

    A minor is a known number or the cell that NewMinorAction fills when it runs. *)
Inductive minorRef := MinorAt (minor : Z) | AllocatedMinor.
Inductive DRBDAction :=
| NewResourceAction (ResourceName : string) (NodeID : Z)
| ResourceOptionsAction (ResourceName : string) (opts : ResourceOptions)
| NewMinorAction (ResourceName : string) (Volume : Z) (Diskless : bool)
| FailAction (Err : agentError)
| WriteDeviceUUIDAction (Minor : option minorRef) (BackingDev UUID : string)
| CreateMetadataAction (Minor : option minorRef) (BackingDev : string)
| ApplyALAction (Minor : option minorRef) (BackingDev : string)
| AttachAction (Minor : option minorRef) (LowerDev MetaDev MetaIdx : string)
| DiskOptionsAction (Minor : option minorRef) (opts : DiskOptions)
| NewPeerAction (ResourceName : string) (PeerNodeID : Z) (opts : NewPeerOptions)
| NetOptionsAction (ResourceName : string) (PeerNodeID : Z) (opts : NetOptions)
| PeerDeviceOptionsAction (ResourceName : string) (PeerNodeID VolumeNr : Z) (opts : PeerDeviceOptions)
| NewPathAction (ResourceName : string) (PeerNodeID : Z) (LocalAddr RemoteAddr : string)
| ConnectAction (ResourceName : string) (PeerNodeID : Z)
| DisconnectAction (ResourceName : string) (PeerNodeID : Z)
| DelPathAction (ResourceName : string) (PeerNodeID : Z) (LocalAddr RemoteAddr : string)
| DelPeerAction (ResourceName : string) (PeerNodeID : Z)
| ForgetPeerAction (ResourceName : string) (PeerNodeID : Z)
| DownAction (ResourceName : string)
| DetachAction (Minor : option minorRef) (IntentionalDiskless : bool)
| RenameAction (OldName NewName : string)
| PrimaryAction (ResourceName : string) (Force : bool)
| SecondaryAction (ResourceName : string) (Force : bool)
| ResizeAction (Minor : option minorRef) (SizeBytes : Z)
| EnsureDeviceSymlinkAction (Name : string) (Minor : option minorRef)
| RemoveDeviceSymlinkAction (Name : string).

(** ** target_drbd_state.go *)
Variable flant : bool.                (* drbdutils.FlantExtensionsSupported *)
Definition QuorumDynamicVoters : bool := negb flant.

(** An option that is set when it differs. *)
Definition differs {A} `{EqDecision A} (intended actual : A) : option A := if decide (intended = actual) then None else Some intended.
Definition isSome {A} (o : option A) : bool := match o with Some _ => true | None => false end.

Definition quorumMatches (intended : Z) (actual : string) : bool :=
  if intended =? 0 then String.eqb actual "off" else String.eqb actual (itoa intended).
Definition quorumDiffers (intended : Z) (actual : string) : option Z := if quorumMatches intended actual then None else Some intended.

Definition computeResourceOptionsAction (resourceName : string) i : list DRBDAction :=
  [ResourceOptionsAction resourceName {|
     ro_AutoPromote := Some AutoPromote; ro_OnNoQuorum := OnNoQuorum; ro_OnNoDataAccessible := OnNoDataAccessible;
     ro_OnSuspendedPrimaryOutdated := OnSuspendedPrimaryOutdated; ro_Quorum := Some (is_quorum i);
     ro_QuorumMinimumRedundancy := Some (is_quorumMinimumRedundancy i);
     ro_QuorumDynamicVoters := if flant || negb QuorumDynamicVoters then Some QuorumDynamicVoters else None |}].
Definition resourceOptionsDiff i a : ResourceOptions :=
  let text (intended actual : string) := if String.eqb intended actual then "" else intended in {|
  ro_AutoPromote := differs AutoPromote (a_AutoPromote a); ro_OnNoQuorum := text OnNoQuorum (a_OnNoQuorum a);
  ro_OnNoDataAccessible := text OnNoDataAccessible (a_OnNoDataAccessible a);
  ro_OnSuspendedPrimaryOutdated := text OnSuspendedPrimaryOutdated (a_OnSuspendedPrimaryOutdated a);
  ro_Quorum := quorumDiffers (is_quorum i) (a_Quorum a);
  ro_QuorumMinimumRedundancy := quorumDiffers (is_quorumMinimumRedundancy i) (a_QuorumMinimumRedundancy a);
  ro_QuorumDynamicVoters :=
    if flant || negb QuorumDynamicVoters then differs QuorumDynamicVoters (a_QuorumDynamicVoters a) else None |}.
Definition computeResourceOptionsActionReconcile (resourceName : string) i a : list DRBDAction :=
  let opts := resourceOptionsDiff i a in
  let changed := isSome (ro_AutoPromote opts) || negb (String.eqb OnNoQuorum (a_OnNoQuorum a)) ||
    negb (String.eqb OnNoDataAccessible (a_OnNoDataAccessible a)) ||
    negb (String.eqb OnSuspendedPrimaryOutdated (a_OnSuspendedPrimaryOutdated a)) || isSome (ro_Quorum opts) ||
    isSome (ro_QuorumMinimumRedundancy opts) || isSome (ro_QuorumDynamicVoters opts) in
  if changed then [ResourceOptionsAction resourceName opts] else [].
Definition computeResourceOptions (resourceName : string) i a : list DRBDAction :=
  if negb (ResourceExists a) then computeResourceOptionsAction resourceName i
  else computeResourceOptionsActionReconcile resourceName i a.

Definition computeMinorActions (resourceName : string) i a : minorRef * list DRBDAction :=
  match Volumes a with
  | v :: _ => (MinorAt (wrap64 (av_minor v)), [])
  | [] => (AllocatedMinor, [NewMinorAction resourceName 0 (bool_decide (is_resourceType i = DRBDDiskless))])
  end.

Definition generateDeviceUUID (random : Z) : string := hexPad 16 random.
Definition ReasonForeignDiskDetected : string := "ForeignDiskDetected".
Definition foreignDisk (backingDev diskUUID statusUUID : string) : agentError :=
  configuredReasonError (Errorf_ ("backing device " +:+ backingDev +:+ " has device-uuid " +:+ diskUUID +:+
    ", DRBDResource expects " +:+ statusUUID)) ReasonForeignDiskDetected.
Definition attach (minor : minorRef) (backingDev : string) : DRBDAction := AttachAction (Some minor) backingDev backingDev "internal".
Definition computeAttachActions (random : Z) a (statusUUID : string) (minor : minorRef) (backingDev : string) : list DRBDAction :=
  if as_hasMetadata a then
    let diskUUID := as_diskDeviceUUID a in
    let write uuid := [WriteDeviceUUIDAction (Some minor) backingDev uuid] in
    let proceed (actions : list DRBDAction) := actions ++ [ApplyALAction (Some minor) backingDev; attach minor backingDev] in
    if negb (String.eqb diskUUID "") && String.eqb statusUUID diskUUID then proceed []
    else if negb (String.eqb diskUUID "") && negb (String.eqb statusUUID "") && negb (String.eqb statusUUID diskUUID)
    then [FailAction (foreignDisk backingDev diskUUID statusUUID)]
    else if negb (String.eqb diskUUID "") && String.eqb statusUUID "" then proceed []
    else if String.eqb diskUUID "" && negb (String.eqb statusUUID "") then proceed (write statusUUID)
    else proceed (write (generateDeviceUUID random))
  else
    let uuid := if String.eqb statusUUID "" then generateDeviceUUID random else statusUUID in
    [CreateMetadataAction (Some minor) backingDev; WriteDeviceUUIDAction (Some minor) backingDev uuid; attach minor backingDev].
(** The backing disk in the observed state, empty when there is none. *)
Definition backingDiskOf a : string := match Volumes a with v :: _ => BackingDisk v | [] => "" end.
Definition actualBackingDisk (aState : option actualState) : string := from_option backingDiskOf "" aState.

Definition computeDiskOptionsAction (minor : minorRef) i : list DRBDAction :=
  [DiskOptionsAction (Some minor) {|
     do_DiscardZeroesIfAligned := Some DiscardZeroesIfAligned; do_RsDiscardGranularity := Some (is_rsDiscardGranularity i);
     do_NonVoting := if flant || is_nonVoting i then Some (is_nonVoting i) else None |}].
Definition diskOptionsDiff i v : DiskOptions := {|
  do_DiscardZeroesIfAligned := differs DiscardZeroesIfAligned (v_DiscardZeroesIfAligned v);
  do_RsDiscardGranularity :=
    if String.eqb (itoa (is_rsDiscardGranularity i)) (v_RsDiscardGranularity v) then None else Some (is_rsDiscardGranularity i);
  do_NonVoting := if flant || is_nonVoting i then differs (is_nonVoting i) (v_NonVoting v) else None |}.
Definition diskOptionsFor i v : list DRBDAction :=
  if String.eqb (BackingDisk v) "" then []
  else
    let opts := diskOptionsDiff i v in
    if isSome (do_DiscardZeroesIfAligned opts) || isSome (do_RsDiscardGranularity opts) || isSome (do_NonVoting opts)
    then [DiskOptionsAction (Some (MinorAt (wrap64 (av_minor v)))) opts] else [].
Definition computeDiskOptionsActionReconcile i a : list DRBDAction := flat_map (diskOptionsFor i) (Volumes a).
Definition computeDiskActions (random : Z) (minor : minorRef) i a : list DRBDAction :=
  let actualDisk := backingDiskOf a in
  let intendedDisk := is_backingDisk i in
  if negb (String.eqb actualDisk "") && negb (String.eqb actualDisk intendedDisk)
  then [DetachAction (Some minor) (bool_decide (is_resourceType i = DRBDDiskless))]
  else if String.eqb actualDisk "" && negb (String.eqb intendedDisk "") && bool_decide (is_resourceType i = DRBDDiskful)
  then computeAttachActions random a (is_statusDeviceUUID i) minor intendedDisk ++ computeDiskOptionsAction minor i
  else if negb (String.eqb actualDisk "") then computeDiskOptionsActionReconcile i a
  else [].

(** *** Peers *)
Definition peerDeviceOptionsDiff ip p : PeerDeviceOptions :=
  let intendedBitmap := negb (bool_decide (i_peerType ip = DRBDDiskless)) in {|
  po_Bitmap := if decide (ap_Bitmap p = Some intendedBitmap) then None else Some intendedBitmap;
  po_CPlanAhead := differs DefaultCPlanAhead (ap_CPlanAhead p);
  po_CDelayTarget := differs DefaultCDelayTarget (ap_CDelayTarget p);
  po_CFillTarget := differs DefaultCFillTarget (ap_CFillTarget p);
  po_CMaxRate := differs DefaultCMaxRate (ap_CMaxRate p);
  po_CMinRate := differs DefaultCMinRate (ap_CMinRate p) |}.
Definition computePeerDeviceOptionsAction (resourceName : string) ip p : list DRBDAction :=
  let o := peerDeviceOptionsDiff ip p in
  if isSome (po_CPlanAhead o) || isSome (po_CDelayTarget o) || isSome (po_CFillTarget o) || isSome (po_CMaxRate o) ||
     isSome (po_CMinRate o) || isSome (po_Bitmap o)
  then [PeerDeviceOptionsAction resourceName (i_nodeID ip) 0 o] else [].
Definition computeNetOptionsAction (resourceName : string) ip (allowTwoPrimaries : bool) : list DRBDAction :=
  [NetOptionsAction resourceName (i_nodeID ip) {|
     no_Protocol := None; no_SharedSecret := None; no_CRAMHMACAlg := None; no_AllowTwoPrimaries := Some allowTwoPrimaries;
     no_AllowRemoteRead := Some (i_allowRemoteRead ip); no_VerifyAlg := Some VerifyAlg |}].
Definition netOptionsDiff ip p (allowTwoPrimaries : bool) : NetOptions := {|
  no_Protocol := differs (i_protocol ip) (ap_Protocol p);
  no_SharedSecret := differs (i_sharedSecret ip) (ap_SharedSecret p);
  no_CRAMHMACAlg := if EqualFold (i_sharedSecretAlg ip) (ap_SharedSecretAlg p) then None else Some (ToLower (i_sharedSecretAlg ip));
  no_AllowTwoPrimaries := differs allowTwoPrimaries (ap_AllowTwoPrimaries p);
  no_AllowRemoteRead := differs (i_allowRemoteRead ip) (ap_AllowRemoteRead p);
  no_VerifyAlg := differs VerifyAlg (ap_VerifyAlg p) |}.
Definition computeNetOptionsActionReconcile (resourceName : string) ip p (allowTwoPrimaries : bool) : list DRBDAction :=
  let o := netOptionsDiff ip p allowTwoPrimaries in
  if isSome (no_Protocol o) || isSome (no_SharedSecret o) || isSome (no_CRAMHMACAlg o) || isSome (no_AllowTwoPrimaries o) ||
     isSome (no_AllowRemoteRead o) || isSome (no_VerifyAlg o)
  then [NetOptionsAction resourceName (i_nodeID ip) o] else [].

Definition pathKey (localAddr remoteAddr : string) : string := localAddr +:+ "->" +:+ remoteAddr.
Definition intendedLocal (pt : intendedPath) : string := formatAddr (ip_localIPv4 pt) (ip_localPort pt).
Definition intendedRemote (pt : intendedPath) : string := formatAddr (ip_remoteIPv4 pt) (ip_remotePort pt).
Definition intendedPathKey (pt : intendedPath) : string := pathKey (intendedLocal pt) (intendedRemote pt).
Definition actualPathKey (pt : Path) : string := pathKey (LocalAddr pt) (RemoteAddr pt).
(** The rank orders the keys of every map that is visited; the paths of a peer have their own. *)
Definition pathRank (rank : string → Z) ip (key : string) : Z := rank (itoa (i_nodeID ip) +:+ "/" +:+ key).
Definition retained (toRemove : gmap string Path) (pt : Path) : bool :=
  bool_decide (toRemove !! actualPathKey pt = None) && pt_Established pt.
Definition computePathActions (rank : string → Z) (resourceName : string) ip (aPeer : option actualPeer) : list DRBDAction :=
  let peerNodeID := i_nodeID ip in
  let actualPaths := from_option ap_Paths [] aPeer in
  let '(toAdd, _, toRemove) := IntersectItersKeyFunc (i_paths ip) intendedPathKey actualPaths actualPathKey in
  let connectionActive := match aPeer with Some p => negb (String.eqb (ap_ConnectionState p) ConnectionStateStandAlone) | None => false end in
  let establishedRetained := countb (retained toRemove) actualPaths in
  map (λ kv, NewPathAction resourceName peerNodeID (intendedLocal kv.2) (intendedRemote kv.2)) (range (pathRank rank ip) toAdd) ++
  map (λ kv, DelPathAction resourceName peerNodeID (LocalAddr kv.2) (RemoteAddr kv.2))
    (List.filter (λ kv, negb (connectionActive && pt_Established kv.2 && (establishedRetained =? 0))) (range (pathRank rank ip) toRemove)).

Definition newPeerActions (rank : string → Z) (resourceName : string) i (kv : Z * intendedPeer) : list DRBDAction :=
  let '(nodeID, ip) := kv in
  NewPeerAction resourceName nodeID {|
    np_Name := "peer-" +:+ itoa nodeID; np_Protocol := i_protocol ip; np_SharedSecret := i_sharedSecret ip;
    np_CRAMHMACAlg := i_sharedSecretAlg ip; np_RRConflict := RRConflict; np_VerifyAlg := VerifyAlg |} ::
  computeNetOptionsAction resourceName ip (is_allowTwoPrimaries i) ++ computePathActions rank resourceName ip None ++
  [ConnectAction resourceName nodeID].
Definition existingPeerActions (rank : string → Z) (resourceName : string) i (kv : Z * (intendedPeer * actualPeer)) : list DRBDAction :=
  let '(nodeID, (ip, p)) := kv in
  computeNetOptionsActionReconcile resourceName ip p (is_allowTwoPrimaries i) ++
  computePeerDeviceOptionsAction resourceName ip p ++ computePathActions rank resourceName ip (Some p) ++
  (if String.eqb (ap_ConnectionState p) ConnectionStateStandAlone then [ConnectAction resourceName nodeID] else []).
Definition removePeerActions (resourceName : string) (kv : Z * actualPeer) : list DRBDAction :=
  [DisconnectAction resourceName kv.1; DelPeerAction resourceName kv.1; ForgetPeerAction resourceName kv.1].
Definition peerActions (rank : string → Z) (resourceName : string) i a : list DRBDAction :=
  let '(toAdd, existing, toRemove) := IntersectItersKeyFunc (is_peers i) i_nodeID (Peers a) ap_NodeID in
  let byNode (nodeID : Z) := rank (itoa nodeID) in
  flat_map (newPeerActions rank resourceName i) (range byNode toAdd) ++
  flat_map (existingPeerActions rank resourceName i) (range byNode existing) ++
  flat_map (removePeerActions resourceName) (range byNode toRemove).

Definition computeResizeAction i a : list DRBDAction :=
  if negb (bool_decide (is_resourceType i = DRBDDiskful)) || (is_sizeBytes i =? 0) then []
  else match Volumes a with
       | [] => []
       | v :: _ =>
           if String.eqb (BackingDisk v) "" || String.eqb (av_diskState v) "Diskless" then []
           else if av_sizeBytes v <? is_sizeBytes i then [ResizeAction (Some (MinorAt (wrap64 (av_minor v)))) (is_sizeBytes i)] else []
       end.
Definition computeRoleAction (resourceName : string) i a : list DRBDAction :=
  (if String.eqb (is_role i) DRBDRolePrimary && negb (String.eqb (Role a) "Primary") then [PrimaryAction resourceName false] else []) ++
  (if String.eqb (is_role i) DRBDRoleSecondary && negb (String.eqb (Role a) "Secondary") then [SecondaryAction resourceName false] else []).

Definition computeBringUpActions (rank : string → Z) (random : Z) i a : list DRBDAction :=
  let resourceName := is_resourceName i in
  let '(minor, minorActions) := computeMinorActions resourceName i a in
  (if negb (ResourceExists a) then [NewResourceAction resourceName (is_nodeID i)] else []) ++
  computeResourceOptions resourceName i a ++ minorActions ++
  [EnsureDeviceSymlinkAction (is_symlinkName i) (Some minor)] ++
  computeDiskActions random minor i a ++ peerActions rank resourceName i a ++
  computeResizeAction i a ++ computeRoleAction resourceName i a.
(** The intended state is never nil; without an observed state nothing is done. *)
Definition computeTargetDRBDActions (rank : string → Z) (random : Z) i (aState : option actualState) : list DRBDAction :=
  match aState with
  | None => []
  | Some a =>
      if negb (is_isUpAndNotInCleanup i) then
        RemoveDeviceSymlinkAction (is_symlinkName i) :: (if ResourceExists a then [DownAction (is_resourceName i)] else [])
      else computeBringUpActions rank random i a
  end.

(** ** actual_drbd_state.go: Report *)
Definition activeConfiguration d : DRBDResourceActiveConfiguration := default zeroAC (dr_ActiveConfiguration d).
(** ensureActiveConfiguration of reconciler.go, followed by a change. *)
Definition withActiveConfiguration (f : DRBDResourceActiveConfiguration → DRBDResourceActiveConfiguration) d : DRBDResource :=
  d <| dr_ActiveConfiguration := Some (f (activeConfiguration d)) |>.
Definition reportedQuorum (q : string) : option Z := if String.eqb q "" || String.eqb q "off" then None else ParseUint q 8.
(** Diskless when drbdsetup show has no backing disk for the volume. *)
Definition isDiskless a (vol : Device) : bool :=
  match List.find (λ sv, sv_VolumeNr sv =? dv_Volume vol) (from_option (λ s, sh_Volumes (sr_ThisHost s)) [] (as_show a)) with
  | Some sv => sd_IsNone (sv_Disk sv) || String.eqb (sv_BackingDisk sv) ""
  | None => false
  end.
Definition reportActiveConfiguration a (volumes : list Device) (ac : DRBDResourceActiveConfiguration) : DRBDResourceActiveConfiguration :=
  ac <| ac_State := DRBDResourceStateUp |> <| ac_Role := Role a |>
     <| ac_Quorum := reportedQuorum (a_Quorum a) |>
     <| ac_QuorumMinimumRedundancy := reportedQuorum (a_QuorumMinimumRedundancy a) |>
     <| ac_AllowTwoPrimaries := (λ c, sn_AllowTwoPrimaries (sc_Net c)) <$> (as_show a ≫= λ s, head (sr_Connections s)) |>
     <| ac_NonVoting := sv ← (as_show a ≫= λ s, head (sh_Volumes (sr_ThisHost s)));
                        if sd_IsNone (sv_Disk sv) then None else Some (sd_NonVoting (sv_Disk sv)) |>
     <| ac_Type := match volumes with
                   | vol :: _ => if isDiskless a vol then DRBDDiskless else DRBDDiskful
                   | [] => DRBDTypeOther ""
                   end |>.

Definition ReplicationStateUnknown : string := "Unknown".
Definition ParseReplicationState (s : string) : string :=
  if slices_Contains ["Off"; "Established"; "StartingSyncS"; "StartingSyncT"; "WFBitMapS"; "WFBitMapT"; "WFSyncUUID";
       "SyncSource"; "SyncTarget"; "PausedSyncS"; "PausedSyncT"; "VerifyS"; "VerifyT"; "Ahead"; "Behind"; "Unknown"] s
  then s else "".
(** The paths of a peer, one for each system network: an established one where there is any. *)
Definition pathStatus (addr : DRBDResourceAddressStatus) (pt : Path) : DRBDResourcePathStatus :=
  {| ps_SystemNetworkName := a_SystemNetworkName addr; ps_Address := (h_Address (pt_ThisHost pt), wrap64 (h_Port (pt_ThisHost pt)));
     ps_Established := pt_Established pt |}.
Fixpoint addPath (new : DRBDResourcePathStatus) (paths : list DRBDResourcePathStatus) : list DRBDResourcePathStatus :=
  match paths with
  | [] => [new]
  | ps :: paths =>
      if String.eqb (ps_SystemNetworkName ps) (ps_SystemNetworkName new)
      then (if ps_Established new && negb (ps_Established ps) then new else ps) :: paths
      else ps :: addPath new paths
  end.
Definition reportPath (addresses : list DRBDResourceAddressStatus) (paths : list DRBDResourcePathStatus) (pt : Path) :
    list DRBDResourcePathStatus :=
  match List.find (λ addr, String.eqb (a_Address addr).1 (h_Address (pt_ThisHost pt))) addresses with
  | Some addr => addPath (pathStatus addr pt) paths
  | None => paths
  end.
Definition reportPeer d (conn : Connection) : DRBDResourcePeerStatus :=
  let nodeID := wrap64 (cn_PeerNodeID conn) in
  let peerDevice := head (cn_PeerDevices conn) in
  let peerDiskState := from_option pd_PeerDiskState "" peerDevice in
  let raw := from_option pd_ReplicationState "" peerDevice in {|
  dps_Name := match List.find (λ x, dp_NodeID x =? nodeID) (ds_Peers (dr_Spec d)) with Some x => dp_Name x | None => cn_Name conn end;
  dps_Type := if String.eqb peerDiskState "Diskless" then DRBDDiskless
              else if negb (String.eqb peerDiskState "") then DRBDDiskful else DRBDTypeOther "";
  dps_Role := ""; dps_NodeID := nodeID;
  dps_Paths := foldl (reportPath (dr_Addresses d)) [] (cn_Paths conn);
  dps_ConnectionState := cn_ConnectionState conn; dps_DiskState := peerDiskState;
  dps_ReplicationState := if String.eqb raw "" then ""
    else if String.eqb (ParseReplicationState raw) "" then ReplicationStateUnknown else ParseReplicationState raw |}.
Definition reportPeers a d : DRBDResource :=
  let connections := from_option rs_Connections [] (as_status a) in
  d <| dr_Peers := sort_by (λ x y, string_leb (dps_Name x) (dps_Name y)) (map (reportPeer d) connections) |>.

Definition reportVolume (vol : Device) d : DRBDResource :=
  let sizeBytes := wrapS64 (dv_Size vol * 1024) in
  d <| dr_Device := DeviceSymlinkPath (dr_Name d) |> <| dr_DiskState := dv_DiskState vol |> <| dr_Quorum := Some (dv_Quorum vol) |>
    <| dr_Size := if String.eqb (dv_DiskState vol) "Diskless" then None
                  else if 0 <? sizeBytes then Some (NewQuantity sizeBytes) else None |>.
Definition Report (aState : option actualState) d : DRBDResource * option agentError :=
  match aState with
  | None => (d, Some (Errorf_ "unable to retrieve actual state"))
  | Some a =>
      if negb (ResourceExists a) then
        (withActiveConfiguration (λ ac, ac <| ac_State := DRBDResourceStateDown |>)
           (d <| dr_Device := "" |> <| dr_Size := None |> <| dr_DiskState := "" |> <| dr_Quorum := None |> <| dr_Peers := [] |>
              <| dr_DeviceOpen := None |> <| dr_DeviceIOSuspended := None |>), None)
      else
        let volumes := from_option rs_Devices [] (as_status a) in
        let '(d, err) :=
          match volumes with
          | [] => (d <| dr_Device := "" |> <| dr_Size := None |> <| dr_DiskState := "" |> <| dr_Quorum := None |>,
                   Some (Join [Errorf_ "expected 1 volume, got 0"]))
          | vol :: rest =>
              (reportVolume vol d,
               match rest with [] => None | _ => Some (Join [Errorf_ ("expected 1 volume, got " +:+ itoa (Z.of_nat (length volumes)))]) end)
          end in
        let d := match as_status a, volumes with
                 | Some s, vol :: _ =>
                     if String.eqb (rs_Role s) "Primary"
                     then d <| dr_DeviceOpen := Some (dv_Open vol) |> <| dr_DeviceIOSuspended := Some (rs_Suspended s) |>
                     else d <| dr_DeviceOpen := None |> <| dr_DeviceIOSuspended := None |>
                 | _, _ => d <| dr_DeviceOpen := None |> <| dr_DeviceIOSuspended := None |>
                 end in
        let d := reportPeers a (withActiveConfiguration (reportActiveConfiguration a volumes) d) in
        (if negb (String.eqb (as_diskDeviceUUID a) "") && String.eqb (dr_DeviceUUID d) ""
         then d <| dr_DeviceUUID := as_diskDeviceUUID a |> else d, err)
  end.

(** ** reconciler_addresses.go *)
(** Ports of the kernel by local address. *)
Definition ExistingPorts : Type := gmap string Z.
Definition existingPortsFromState (aState : option actualState) : ExistingPorts :=
  let conns := from_option rs_Connections [] (aState ≫= as_status) in
  foldl (λ ports pt, let h := pt_ThisHost pt in
           if negb (String.eqb (h_Address h) "") && (0 <? h_Port h) then <[h_Address h := h_Port h]> ports else ports)
    ∅ (flat_map cn_Paths conns).
Record IntendedIP := { ii_SystemNetworkName : string; ii_IPv4 : string }.
Record IntendedPort := { ipo_SystemNetworkName : string; ipo_IPv4 : string; ipo_Port : Z }.
Definition computeIntendedIPs d (node : Node) : list IntendedIP :=
  if String.eqb (ds_State (dr_Spec d)) DRBDResourceStateDown then []
  else
    let nodeAddressesByType := Collect fst (no_Addresses node) in
    omap (λ snn, addr ← nodeAddressesByType !! systemNetworkToNodeAddressType snn;
                 Some {| ii_SystemNetworkName := snn; ii_IPv4 := addr.2 |}) (ds_SystemNetworks (dr_Spec d)).
Definition addrKey (addr : DRBDResourceAddressStatus) : string * string := (a_SystemNetworkName addr, (a_Address addr).1).
Definition applyIPs d (intendedIPs : list IntendedIP) : DRBDResource :=
  let existingPorts := Collect addrKey (dr_Addresses d) in
  d <| dr_Addresses := map (λ x, {| a_SystemNetworkName := ii_SystemNetworkName x;
         a_Address := (ii_IPv4 x, from_option (λ addr, (a_Address addr).2) 0 (existingPorts !! (ii_SystemNetworkName x, ii_IPv4 x))) |})
       intendedIPs |>.
Definition applyPorts d (intendedPorts : list IntendedPort) : DRBDResource :=
  let portMap := Collect (λ x, (ipo_SystemNetworkName x, ipo_IPv4 x)) intendedPorts in
  d <| dr_Addresses := omap (λ addr, port ← portMap !! addrKey addr;
         Some {| a_SystemNetworkName := a_SystemNetworkName addr; a_Address := ((a_Address addr).1, ipo_Port port) |}) (dr_Addresses d) |>.
End drbdr.
End drbdr.
