(* ===== verification/DrbdrController.v ===== *)
(** * The agent: reconciliation of DRBD resources and of operations on them

    Source: images/agent/internal/controllers/drbdr/drbd_port_cache.go, port_registry.go, caches.go,
    drbd_actions.go, errors.go, reconciler.go, reconciler_addresses.go, reconciler_get.go,
    report_state.go, predicates.go and scanner.go; images/agent/internal/controllers/drbdrop.

    The memory that goroutines share is reached through [hostcall]s, one for each access under a lock;
    the port cache is also a state with its operations ([port_cache]), which the scanner drives.  Logging
    and the observations of the metrics are left out. *)

From Stdlib Require Import ZArith Lia String Ascii.
From stdpp Require Import base gmap list numbers strings option.
From S2P Require Import Prelude IdSet DrbdSize Api Object Storage Flow Client DrbdUtils Drbdr.
Import v1alpha1 objutilv1 storage drbd flow client host drbdstatus gostrings agent_errors drbdutils drbdr.

(** ** drbd_port_cache.go *)
Module port_cache.
(** [ready]: the channel is closed; [dumping]: dumpMu is held for writing. *)
Record DRBDPortCache := {
  pc_ready : bool; pc_dumping : bool; pc_byRes : gmap string (gset (string * Z)); pc_byIP : gmap string (gset Z);
}.
#[export] Instance rebuild_cache : Rebuild DRBDPortCache := λ c,
  {| pc_ready := pc_ready c; pc_dumping := pc_dumping c; pc_byRes := pc_byRes c; pc_byIP := pc_byIP c |}.
Implicit Types (c : DRBDPortCache).
Definition NewDRBDPortCache : DRBDPortCache := {| pc_ready := false; pc_dumping := false; pc_byRes := ∅; pc_byIP := ∅ |}.
Definition BeginDump c : DRBDPortCache := c <| pc_dumping := true |> <| pc_byRes := ∅ |> <| pc_byIP := ∅ |>.
Definition EndDump c : DRBDPortCache := c <| pc_ready := true |> <| pc_dumping := false |>.
Definition AbortDump c : DRBDPortCache := c <| pc_dumping := false |>.
(** Adding to and deleting from a set in a map; an empty set is dropped. *)
Definition addTo {A} `{Countable A} (k : string) (x : A) (m : gmap string (gset A)) : gmap string (gset A) :=
  <[k := default ∅ (m !! k) ∪ {[x]}]> m.
Definition dropFrom {A} `{Countable A} (k : string) (x : A) (m : gmap string (gset A)) : gmap string (gset A) :=
  match m !! k with
  | Some s => if decide (s ∖ {[x]} = ∅) then delete k m else <[k := s ∖ {[x]}]> m
  | None => m
  end.
Definition Add (resourceName ip : string) (port : Z) c : DRBDPortCache :=
  c <| pc_byRes := addTo resourceName (ip, port) (pc_byRes c) |> <| pc_byIP := addTo ip port (pc_byIP c) |>.
Definition Remove (resourceName ip : string) (port : Z) c : DRBDPortCache :=
  c <| pc_byRes := dropFrom resourceName (ip, port) (pc_byRes c) |> <| pc_byIP := dropFrom ip port (pc_byIP c) |>.
Definition RemoveResource (resourceName : string) c : DRBDPortCache :=
  c <| pc_byIP := foldr (λ key m, dropFrom key.1 key.2 m) (pc_byIP c) (elements (default ∅ (pc_byRes c !! resourceName))) |>
    <| pc_byRes := delete resourceName (pc_byRes c) |>.
(** None while the reader is blocked. *)
Definition GetUsedPorts c (ip : string) : option (gset Z) :=
  if pc_ready c && negb (pc_dumping c) then Some (default ∅ (pc_byIP c !! ip)) else None.
Definition parseLocalAddr (local : string) : option (string * Z) :=
  match SplitN ":"%char local 3 with
  | [_; ip; port] => p ← ParseUint port 32; Some (ip, p)
  | _ => None
  end.
(** updatePortCache of scanner.go. *)
Definition updatePortCache (kind : EventKind) (object : EventObject) (state : gmap string string) (drbdName : string) c : DRBDPortCache :=
  match object with
  | ObjectPath =>
      match state !! "local" ≫= parseLocalAddr with
      | Some (ip, port) =>
          match kind with
          | KindExists | KindCreate => Add drbdName ip port c
          | KindDestroy => Remove drbdName ip port c
          | _ => c
          end
      | None => c
      end
  | ObjectResource => match kind with KindDestroy => RemoveResource drbdName c | _ => c end
  | _ => c
  end.
End port_cache.

Module drbdr_controller.
Section controller.
Context {K : K8s} {Meta : MetaApi} {Srv : Server} {X : TextApi}.
Set Default Proof Using "Type".
Implicit Types (d : DRBDResource).

(** The fields of the reconciler and of its port registry, the package variable FlantExtensionsSupported,
    and the fuel of the search for a free minor. *)
Variables (nodeName : string) (minPort maxPort ttl : Z) (flant : bool) (fuel : nat).

Definition plain {A} (r : error + A) : agentError + A := match r with inl e => inl (Plain e) | inr a => inr a end.
Definition wrapped {A} (msg : string) (r : error + A) : agentError + A :=
  match r with inl e => inl (Plain (Wrapped msg e)) | inr a => inr a end.
Definition fail (e : agentError) : ReconcileOutcome := failed (toError e).

(** ** port_registry.go *)
Definition cleanExpiredPending (ip : string) : M (list (Z * Time)) :=
  entries ← do (OnHost (LoadPending ip));
  now ← do Now;
  let kept := List.filter (λ e, Z.min (2 ^ 63 - 1) (now - e.2) <=? ttl) entries in
  _ ← do (OnHost (StorePending ip kept));
  mret kept.
Definition portsOf (ip : string) (items : list DRBDResource) : gset Z :=
  list_to_set (map (λ addr, (a_Address addr).2)
    (List.filter (λ addr, String.eqb (a_Address addr).1 ip && negb ((a_Address addr).2 =? 0)) (flat_map dr_Addresses items))).
Definition collectK8sPorts (ip : string) : M (agentError + gset Z) :=
  r ← do (ListDRBDRsByNode nodeName);
  mret (match answer r with
        | inl e => inl (Errorf ("listing DRBDResources on node " +:+ nodeName +:+ ": ") (Plain e) "")
        | inr items => inr (portsOf ip items)
        end).
(** The search from [p] on, over [n] candidates. *)
Fixpoint findPort (ip : string) (usedPorts : gset Z) (pending : list (Z * Time)) (n : nat) (p : Z) : M (agentError + Z) :=
  match n with
  | O => mret (inl (Errorf_ ("no free port in range " +:+ itoa minPort +:+ "-" +:+ itoa maxPort +:+ " for IP " +:+ ip)))
  | Datatypes.S n =>
      if decide (p ∈ usedPorts) then findPort ip usedPorts pending n (p + 1)
      else
        free ← do (OnHost (Listen (formatAddr ip p)));
        if negb free then findPort ip usedPorts pending n (p + 1)
        else
          now ← do Now;
          _ ← do (OnHost (StorePending ip (pending ++ [(p, now)])));
          mret (inr p)
  end.
Definition Allocate (ip : string) : M (agentError + Z) :=
  err ← do (OnHost WaitReady);
  match err with
  | Some e => mret (inl (Errorf "waiting for DRBD port cache: " (Plain e) ""))
  | None =>
      s1 ← do (OnHost (GetUsedPorts ip));
      match s1 with
      | inl e => mret (inl (Errorf "getting DRBD kernel ports: " (Plain e) ""))
      | inr s1Ports =>
          s2 ← collectK8sPorts ip;
          match s2 with
          | inl e => mret (inl (Errorf "collecting K8s ports: " e ""))
          | inr s2Ports =>
              pending ← cleanExpiredPending ip;
              let usedPorts := list_to_set s1Ports ∪ s2Ports ∪ list_to_set (map fst pending) in
              findPort ip usedPorts pending (Z.to_nat (maxPort - minPort + 1)) minPort
          end
      end
  end.

(** ** caches.go *)
Definition fetchStatus (resourceName : string) : M (agentError + option Resource) :=
  r ← ExecuteStatus resourceName;
  mret (match r with inl e => inl (Errorf "executing drbdsetup status: " e "") | inr result => inr (head result) end).
Definition fetchShow (resourceName : string) : M (agentError + option ShowResource) :=
  r ← ExecuteShow resourceName true;
  mret (match r with
        | inl e => inl (Errorf "executing drbdsetup show: " e "")
        | inr results => inr (List.find (λ s, String.eqb (sr_Resource s) resourceName) results)
        end).
(** commandCache.Get, under the lock of the entry. *)
Definition CachesStatus (resourceName : string) : M (agentError + option Resource) :=
  e ← do (OnHost (CachedStatus resourceName));
  match e with
  | Some value => mret (inr value)
  | None =>
      v ← fetchStatus resourceName;
      match v with
      | inl e => mret (inl e)
      | inr v => _ ← do (OnHost (StoreStatus resourceName v)); mret (inr v)
      end
  end.
Definition CachesShow (resourceName : string) : M (agentError + option ShowResource) :=
  e ← do (OnHost (CachedShow resourceName));
  match e with
  | Some value => mret (inr value)
  | None =>
      v ← fetchShow resourceName;
      match v with
      | inl e => mret (inl e)
      | inr v => _ ← do (OnHost (StoreShow resourceName v)); mret (inr v)
      end
  end.

(** ** actual_drbd_state.go: observation *)
Definition observeActualDRBDState (drbdResName : string) : M (agentError + actualState) :=
  status ← CachesStatus drbdResName;
  match status with
  | inl e => mret (inl (Errorf "getting status data: " e ""))
  | inr None => mret (inr zeroState)
  | inr (Some status) =>
      show ← CachesShow drbdResName;
      match show with
      | inl e => mret (inl (Errorf "getting show data: " e ""))
      | inr show => mret (inr (zeroState <| as_status := Some status |> <| as_show := show |>))
      end
  end.
(** The state is changed in place, also when an error is returned. *)
Definition observeActualDiskState (a : actualState) (intendedBackingDev statusDeviceUUID : string) : M (actualState * option agentError) :=
  if String.eqb intendedBackingDev "" then mret (a, None)
  else if negb (String.eqb (backingDiskOf a) "") then
    let a := a <| as_hasMetadata := true |> in
    if String.eqb statusDeviceUUID "" then
      r ← ExecuteReadDevUUID intendedBackingDev;
      mret (match r with
            | inl e => (a, Some (Errorf "reading device-uuid from attached disk: " e ""))
            | inr diskUUID => (a <| as_diskDeviceUUID := diskUUID |>, None)
            end)
    else mret (a, None)
  else
    let checkMDMinor := match Volumes a with v :: _ => wrap64 (av_minor v) | [] => 0 end in
    hasMD ← ExecuteCheckMD checkMDMinor intendedBackingDev;
    match hasMD with
    | inl e => mret (a, Some (Errorf "probing backing device metadata: " e ""))
    | inr hasMD =>
        let a := a <| as_hasMetadata := hasMD |> in
        if hasMD then
          r ← ExecuteReadDevUUID intendedBackingDev;
          mret (match r with
                | inl e => (a, Some (Errorf "reading device-uuid: " e ""))
                | inr diskUUID => (a <| as_diskDeviceUUID := diskUUID |>, None)
                end)
        else mret (a, None)
    end.
Definition computeIntendedDRBDState d (backingDisk : string) (isUpAndNotInCleanup : bool) : M intendedDRBDState :=
  rsDiscardGran ← (if String.eqb backingDisk "" then mret 0 else ReadDiscardGranularity backingDisk);
  mret (intendedState d backingDisk isUpAndNotInCleanup rsDiscardGran).

(** ** drbd_actions.go: execution

    [cell] is the variable allocatedMinor that the actions of one pass share. *)
Definition derefMinor (cell : Z) (m : minorRef) : Z := match m with MinorAt m => m | AllocatedMinor => cell end.
Definition withMinor (cell : Z) (m : option minorRef) (name reason : string) (body : Z → M (option agentError)) : M (option agentError) :=
  match m with
  | None => mret (ConfiguredReasonError (Some (Errorf_ (name +:+ ": minor not set"))) reason)
  | Some m => err ← body (derefMinor cell m); mret (ConfiguredReasonError err reason)
  end.
Definition reasoned (reason : string) (m : M (option agentError)) : M (option agentError) :=
  err ← m; mret (ConfiguredReasonError err reason).
(** net.SplitHostPort on an IPv4 address with a port; the empty string otherwise. *)
Definition hostOf (addr : string) : string := match Split ":"%char addr with [h; _] => h | _ => "" end.
Definition executeNewPath (resource : string) (peerNodeID : Z) (localAddr remoteAddr : string) : M (option agentError) :=
  err ← ExecuteNewPath resource peerNodeID localAddr remoteAddr;
  mret ((λ e, if Is e ErrNewPathLocalAddrInUse then localPortConflictError (hostOf localAddr) e else e) <$> err).
Definition ignoring (target : agentError) (reason : string) (m : M (option agentError)) : M (option agentError) :=
  err ← m;
  mret (match err with Some e => if Is e target then None else ConfiguredReasonError err reason | None => None end).
Definition ReasonSymlinkFailed : string := "SymlinkFailed".
Definition ensureDeviceSymlink (name : string) (minor : Z) : M (option agentError) :=
  let symlinkPath := DeviceSymlinkPath name in
  let target := "/dev/drbd" +:+ itoa minor in
  current ← do (OnHost (Readlink symlinkPath));
  if decide (current = Some target) then mret None
  else
    _ ← do (OnHost (host.Remove symlinkPath));
    err ← do (OnHost (Symlink target symlinkPath));
    mret ((λ e, Errorf ("creating device symlink " +:+ symlinkPath +:+ " -> " +:+ target +:+ ": ") (Plain e) "") <$> err).
Definition removeDeviceSymlink (name : string) : M (option agentError) :=
  err ← do (OnHost (host.Remove (DeviceSymlinkPath name)));
  mret (match err with
        | Some (e, notExist) => if (notExist : bool) then None
                                else ConfiguredReasonError (Some (Errorf "removing device symlink: " (Plain e) "")) ReasonSymlinkFailed
        | None => None
        end).
Definition newMinor (resource : string) (volume : Z) (diskless : bool) (cell : Z) : M (Z * option agentError) :=
  r ← ExecuteNewAutoMinor fuel resource volume diskless;
  mret (match r with inr minor => (minor, None) | inl e => (cell, ConfiguredReasonError (Some e) "NewMinorFailed") end).
(** Execute of the actions, in the order of the file: of a resource, its disk, its peers, their paths, and
    the rest; NewMinorAction is [newMinor]. *)
Definition performResource (action : DRBDAction) : M (option agentError) :=
  match action with
  | NewResourceAction r nodeID => reasoned "NewResourceFailed" (ExecuteNewResource r nodeID)
  | ResourceOptionsAction r opts => reasoned "ResourceOptionsFailed" (ExecuteResourceOptions r opts)
  | _ => mret None
  end.
Definition performDisk (action : DRBDAction) (cell : Z) : M (option agentError) :=
  match action with
  | FailAction e => mret (Some e)
  | WriteDeviceUUIDAction m dev uuid => withMinor cell m "WriteDeviceUUIDAction" "WriteDevUUIDFailed" (λ m, ExecuteWriteDevUUID m dev uuid)
  | CreateMetadataAction m dev => withMinor cell m "CreateMetadataAction" "CreateMetadataFailed" (λ m, ExecuteCreateMD m dev)
  | ApplyALAction m dev => withMinor cell m "ApplyALAction" "ApplyALFailed" (λ m, ExecuteApplyAL m dev)
  | AttachAction m lower meta idx => withMinor cell m "AttachAction" "AttachFailed" (λ m, ExecuteAttach m lower meta idx)
  | DiskOptionsAction m opts => withMinor cell m "DiskOptionsAction" "DiskOptionsFailed" (λ m, ExecuteDiskOptions m opts)
  | _ => mret None
  end.
Definition performPeer (action : DRBDAction) : M (option agentError) :=
  match action with
  | NewPeerAction r n opts => reasoned "NewPeerFailed" (ExecuteNewPeer r n opts)
  | NetOptionsAction r n opts => reasoned "NetOptionsFailed" (ExecuteNetOptions r n opts)
  | PeerDeviceOptionsAction r n vol opts => reasoned "PeerDeviceOptionsFailed" (ExecutePeerDeviceOptions r n vol opts)
  | _ => mret None
  end.
Definition performPath (action : DRBDAction) : M (option agentError) :=
  match action with
  | NewPathAction r n l rem => reasoned "NewPathFailed" (executeNewPath r n l rem)
  | ConnectAction r n => ignoring ErrConnectNetConfigured "ConnectFailed" (ExecuteConnect r n)
  | DisconnectAction r n => reasoned "DisconnectFailed" (ExecuteDisconnect r n)
  | DelPathAction r n l rem => reasoned "DelPathFailed" (ExecuteDelPath r n l rem)
  | DelPeerAction r n => reasoned "DelPeerFailed" (ExecuteDelPeer r n)
  | ForgetPeerAction r n => reasoned "ForgetPeerFailed" (ExecuteForgetPeer r n)
  | _ => mret None
  end.
Definition performOther (action : DRBDAction) (cell : Z) : M (option agentError) :=
  match action with
  | DownAction r => reasoned "DownFailed" (ExecuteDown r)
  | DetachAction m diskless => withMinor cell m "DetachAction" "DetachFailed" (λ m, ExecuteDetach m diskless)
  | RenameAction old new => reasoned "RenameFailed" (ExecuteRename old new)
  | PrimaryAction r force => reasoned "PrimaryFailed" (ExecutePrimary r force)
  | SecondaryAction r force => reasoned "SecondaryFailed" (ExecuteSecondary r force)
  | ResizeAction m size =>
      match m with
      | None => mret (ConfiguredReasonError (Some (Errorf_ "ResizeAction: minor not set")) "ResizeFailed")
      | Some m => ignoring ErrResizeBackingNotGrown "ResizeFailed" (ExecuteResize (derefMinor cell m) size)
      end
  | _ => mret None
  end.
Definition perform (action : DRBDAction) (cell : Z) : M (option agentError) :=
  match action with
  | NewResourceAction _ _ | ResourceOptionsAction _ _ => performResource action
  | FailAction _ | WriteDeviceUUIDAction _ _ _ | CreateMetadataAction _ _ | ApplyALAction _ _ | AttachAction _ _ _ _ | DiskOptionsAction _ _ =>
      performDisk action cell
  | NewPeerAction _ _ _ | NetOptionsAction _ _ _ | PeerDeviceOptionsAction _ _ _ _ => performPeer action
  | NewPathAction _ _ _ _ | ConnectAction _ _ | DisconnectAction _ _ | DelPathAction _ _ _ _ | DelPeerAction _ _ | ForgetPeerAction _ _ =>
      performPath action
  | EnsureDeviceSymlinkAction name m => withMinor cell m "EnsureDeviceSymlinkAction" ReasonSymlinkFailed (ensureDeviceSymlink name)
  | RemoveDeviceSymlinkAction name => removeDeviceSymlink name
  | NewMinorAction _ _ _ => mret None
  | _ => performOther action cell
  end.
Definition Execute (action : DRBDAction) (cell : Z) : M (Z * option agentError) :=
  match action with
  | NewMinorAction r vol diskless => newMinor r vol diskless cell
  | _ => err ← perform action cell; mret (cell, err)
  end.

(** ** reconciler.go: convergence *)
Fixpoint convergeLoop (actions : list DRBDAction) (cell : Z) (refreshNeeded : bool) : M (bool * option agentError) :=
  match actions with
  | [] => mret (refreshNeeded, None)
  | action :: actions =>
      '(cell, err) ← Execute action cell;
      match err with
      | Some e => mret (refreshNeeded, Some e)
      | None => convergeLoop actions cell true
      end
  end.
Definition convergeDRBDState (actions : list DRBDAction) (maintenanceMode : bool) : M (bool * option agentError) :=
  if maintenanceMode then mret (false, None) else convergeLoop actions 0 false.
(** The first address with the conflicting IP gets a new port. *)
Fixpoint reallocate (ip : string) (addrs : list DRBDResourceAddressStatus) :
    M (list DRBDResourceAddressStatus * option (agentError + Z * Z)) :=
  match addrs with
  | [] => mret ([], None)
  | addr :: addrs =>
      if negb (String.eqb (a_Address addr).1 ip) then
        '(addrs, r) ← reallocate ip addrs; mret (addr :: addrs, r)
      else
        let oldPort := (a_Address addr).2 in
        r ← Allocate ip;
        mret (match r with
              | inl e => (addr :: addrs, Some (inl e))
              | inr newPort => ({| a_SystemNetworkName := a_SystemNetworkName addr; a_Address := ((a_Address addr).1, newPort) |} :: addrs,
                                Some (inr (oldPort, newPort)))
              end)
  end.
Definition ensureLocalPortConflictResolved d (drbdErr : option agentError) : M (DRBDResource * option agentError) :=
  match drbdErr ≫= asPortConflict, drbdErr with
  | Some ip, Some e =>
      '(addrs, r) ← reallocate ip (dr_Addresses d);
      let d := d <| dr_Addresses := addrs |> in
      mret (d, Some (match r with
                     | Some (inl allocErr) => Errorf "" e (" (port re-allocation failed: " +:+ agent_errors.Error allocErr +:+ ")")
                     | Some (inr (oldPort, newPort)) => Errorf "" e (" (port re-allocated: " +:+ itoa oldPort +:+ " -> " +:+ itoa newPort +:+ ")")
                     | None => e
                     end))
  | _, _ => mret (d, drbdErr)
  end.

(** ** report_state.go *)
Definition CondConfiguredType : string := "Configured".
Definition getConfiguredReason (e : agentError) : string := default "Failed" (asReason e).
Definition configuredCondition (err : option agentError) (maintenanceMode : bool) : string * string * string :=
  match err with
  | Some e => ("False", getConfiguredReason e, agent_errors.Error e)
  | None => if maintenanceMode then ("False", "InMaintenance", "DRBD resource reconciliation is paused due to maintenance mode")
            else ("True", "Configured", "")
  end.
Definition applyConfiguredCondition d (err : option agentError) (maintenanceMode : bool) : M DRBDResource :=
  let '(status, reason, message) := configuredCondition err maintenanceMode in
  snd <$> SetStatusCondition d {| c_Type := CondConfiguredType; c_Status := status; c_ObservedGeneration := 0;
                                  c_LastTransitionTime := 0; c_Reason := reason; c_Message := message |}.
Definition ensureReportState (aState : option actualState) d (statusLLVName : string) (err : option agentError) (maintenanceMode : bool) :
    M DRBDResource :=
  let '(d, reportErr) := Report aState d in
  d ← applyConfiguredCondition d (errorsJoin [err; reportErr]) maintenanceMode;
  mret (withActiveConfiguration (λ ac, ac <| ac_LVMLogicalVolumeName := statusLLVName |>) d).

(** ** reconciler_get.go *)
Definition getRequiredCurrentNode : M (agentError + Node) :=
  r ← do (GetNode nodeName); mret (wrapped ("getting Node " +:+ quote nodeName) (answer r)).
Definition getLVMLogicalVolume (name : string) : M (agentError + option LVMLogicalVolume) :=
  if String.eqb name "" then mret (inr None)
  else r ← do (GetLLV name); mret (wrapped ("getting LVMLogicalVolume " +:+ quote name) (orNil r)).
Definition required {A} (kind name : string) (r : agentError + option A) : agentError + A :=
  match r with
  | inl e => inl e
  | inr None => inl (Errorf_ (kind +:+ " " +:+ quote name +:+ " not found"))
  | inr (Some a) => inr a
  end.
Definition getRequiredLLV (name : string) : M (agentError + LVMLogicalVolume) :=
  required "LVMLogicalVolume" name <$> getLVMLogicalVolume name.
Definition getLVMVolumeGroup (name : string) : M (agentError + option LVMVolumeGroup) :=
  if String.eqb name "" then mret (inr None)
  else r ← do (GetLVG name); mret (wrapped ("getting LVMVolumeGroup " +:+ quote name) (orNil r)).
Definition getRequiredLVG (name : string) : M (agentError + LVMVolumeGroup) :=
  required "LVMVolumeGroup" name <$> getLVMVolumeGroup name.
Definition getLVGsOnNode : M (agentError + list LVMVolumeGroup) :=
  r ← do (ListLVGsByNode nodeName); mret (wrapped "listing LVMVolumeGroups on node" (answer r)).
Definition getLLVsForLVG (lvgName : string) : M (agentError + list LVMLogicalVolume) :=
  r ← do (ListLLVsByLVG lvgName); mret (wrapped ("listing LVMLogicalVolumes for LVG " +:+ quote lvgName) (answer r)).
Definition getDRBDRsOnNode : M (agentError + list DRBDResource) := r ← do (ListDRBDRsByNode nodeName); mret (plain (answer r)).
Definition getDRBDRByName (name : string) : M (agentError + option DRBDResource) := r ← do (GetDRBDR name); mret (plain (orNil r)).
(** Patches; the object is refreshed from the answer. *)
Definition patchDRBDR d (base : DRBDResource) : M (reply DRBDResource) := do (PatchDRBDR base d).
Definition patchDRBDRStatus d (base : DRBDResource) : M (DRBDResource * option error) := stored d <$> do (PatchDRBDRStatus base d).
Definition patchLLV (obj base : LVMLogicalVolume) : M (reply LVMLogicalVolume) :=
  r ← do (PatchLLV base obj); mret (match r with Valid r => r | Invalid e _ => Refused e end).

(** ** reconciler.go *)
Definition AgentFinalizer : string := "sds-replicated-volume.deckhouse.io/agent".
Definition MaintenanceModeNoResourceReconciliation : string := "NoResourceReconciliation".
Definition ReasonStateQueryFailed : string := "StateQueryFailed".
Definition ReasonBackingVolumeUnavailable : string := "BackingVolumeUnavailable".
Definition ReasonBackingVolumeDeleting : string := "BackingVolumeDeleting".
Definition deleting d : bool := bool_decide (is_Some (dr_DeletionTimestamp d)).
Definition isInCleanup d : bool := deleting d && negb (HasFinalizersOtherThan d [AgentFinalizer]).
Definition isUpAndNotInCleanup d : bool := negb (isInCleanup d) && negb (String.eqb (ds_State (dr_Spec d)) DRBDResourceStateDown).

Definition ensureFinalizer d (adding isUpAndNotInCleanup : bool) : bool * DRBDResource :=
  if adding && isUpAndNotInCleanup && negb (deleting d) then AddFinalizer d AgentFinalizer
  else if negb adding && negb isUpAndNotInCleanup then RemoveFinalizer d AgentFinalizer
  else (false, d).
Definition reconcileFinalizer d (adding isUpAndNotInCleanup : bool) : M (DRBDResource * ReconcileOutcome) :=
  let base := d in
  let '(changed, d) := ensureFinalizer d adding isUpAndNotInCleanup in
  if negb changed then mret (d, OnEnd Continue)
  else
    r ← patchDRBDR d base;
    mret (match r with
          | Replied d => (d, OnEnd Continue)
          | NotFound _ => (d, OnEnd Done)
          | AlreadyExists e | Refused e => (d, OnEnd (failed e))
          end).

(** *** Phase 3: addresses *)
Fixpoint computeIntendedPorts (existingPorts : ExistingPorts) (addrs : list DRBDResourceAddressStatus) (allocErr : option agentError) :
    M (list IntendedPort * option agentError) :=
  match addrs with
  | [] => mret ([], allocErr)
  | addr :: addrs =>
      let ip := (a_Address addr).1 in
      let known := if (a_Address addr).2 =? 0 then default 0 (existingPorts !! ip) else (a_Address addr).2 in
      port ← (if known =? 0 then Allocate ip else mret (inr known));
      match port with
      | inl e => computeIntendedPorts existingPorts addrs (errorsJoin [allocErr; Some e])
      | inr port =>
          '(ports, allocErr) ← computeIntendedPorts existingPorts addrs allocErr;
          mret ({| ipo_SystemNetworkName := a_SystemNetworkName addr; ipo_IPv4 := ip; ipo_Port := port |} :: ports, allocErr)
      end
  end.
Definition ensureAddresses d (node : Node) (existingPorts : ExistingPorts) : M (DRBDResource * option agentError) :=
  let d := applyIPs d (computeIntendedIPs d node) in
  '(intendedPorts, portErr) ← computeIntendedPorts existingPorts (dr_Addresses d) None;
  mret (applyPorts d intendedPorts, portErr).
Definition reconcileAddresses d (existingPorts : ExistingPorts) : M (DRBDResource * ReconcileOutcome) :=
  node ← getRequiredCurrentNode;
  match node with
  | inl e => mret (d, OnEnd (fail e))
  | inr node =>
      let base := d in
      '(d, addrErr) ← ensureAddresses d node existingPorts;
      match addrErr with
      | Some e => mret (d, OnEnd (fail e))
      | None =>
          if decide (dr_Addresses base = dr_Addresses d) then mret (d, OnEnd Continue)
          else
            '(d, err) ← patchDRBDRStatus d base;
            mret (d, OnEnd (match err with Some e => failed e | None => Continue end))
      end
  end.

(** *** Phases 4 and 5: finalizers of logical volumes *)
Definition recordedLLVs d : list string := from_option ac_LLVFinalizersToRelease [] (dr_ActiveConfiguration d).
Definition intendedLLVs d (upAndNotInCleanup maintenanceMode : bool) : list string :=
  let list := recordedLLVs d in
  let llv := ds_LVMLogicalVolumeName (dr_Spec d) in
  if negb maintenanceMode && upAndNotInCleanup && bool_decide (ds_Type (dr_Spec d) = DRBDDiskful) && negb (String.eqb llv "") &&
     negb (slices_Contains list llv)
  then list ++ [llv] else list.
Definition withLLVs (list : list string) d : DRBDResource := withActiveConfiguration (λ ac, ac <| ac_LLVFinalizersToRelease := list |>) d.
Definition reconcileLLVFinalizersToRelease d (upAndNotInCleanup maintenanceMode : bool) : M (DRBDResource * list string * ReconcileOutcome) :=
  let list := intendedLLVs d upAndNotInCleanup maintenanceMode in
  if (length list =? length (recordedLLVs d))%nat then mret (d, list, OnEnd Continue)
  else
    let base := d in
    '(d, err) ← patchDRBDRStatus (withLLVs list d) base;
    mret (d, list, OnEnd (match err with Some e => failed e | None => DoneAndRequeue end)).

Definition formatLVMDevicePath (vgName lvName : string) : string := "/dev/" +:+ vgName +:+ "/" +:+ lvName.
Definition reconcileLLVFinalizerAdd (llvName attachedDisk : string) : M (string * option agentError) :=
  if String.eqb llvName "" then mret ("", None)
  else
    llv ← getRequiredLLV llvName;
    match llv with
    | inl e => mret ("", ConfiguredReasonError (Some e) ReasonBackingVolumeUnavailable)
    | inr llv =>
        if bool_decide (is_Some (llv_DeletionTimestamp llv)) then
          if negb (String.eqb attachedDisk "") then mret (attachedDisk, None)
          else mret ("", ConfiguredReasonError (Some (Errorf_ ("LVMLogicalVolume " +:+ quote llvName +:+ " is being deleted"))) ReasonBackingVolumeDeleting)
        else
          r ← (if HasFinalizer llv AgentFinalizer then mret (llv, None)
               else stored llv <$> patchLLV (AddFinalizer llv AgentFinalizer).2 llv);
          match r with
          | (_, Some e) => mret ("", Some (Plain (Wrapped ("adding finalizer on LLV " +:+ quote (llv_Name llv)) e)))
          | (llv, None) =>
              lvg ← getRequiredLVG (llv_LVMVolumeGroupName llv);
              mret (match lvg with
                    | inl e => ("", ConfiguredReasonError (Some e) ReasonBackingVolumeUnavailable)
                    | inr lvg => (formatLVMDevicePath (vg_Spec_ActualVGNameOnTheNode lvg) (llv_ActualLVNameOnTheNode llv), None)
                    end)
          end
    end.
(** The name behind /dev/<vg>/<lv>. *)
Definition computeLLVNameFromDiskPath (diskPath : string) (lvgs : list LVMVolumeGroup) (llvs : list LVMLogicalVolume) : string :=
  match Split "/"%char diskPath with
  | [""; "dev"; vgName; lvName] =>
      match List.find (λ g, String.eqb (vg_Spec_ActualVGNameOnTheNode g) vgName) lvgs with
      | None => ""
      | Some lvg =>
          from_option llv_Name "" (List.find (λ l, String.eqb (llv_LVMVolumeGroupName l) (vg_Name lvg) &&
                                                   String.eqb (llv_ActualLVNameOnTheNode l) lvName) llvs)
      end
  | _ => ""
  end.
Fixpoint collectLLVs (lvgs : list LVMVolumeGroup) (allLLVs : list LVMLogicalVolume) : M (option (list LVMLogicalVolume)) :=
  match lvgs with
  | [] => mret (Some allLLVs)
  | lvg :: lvgs =>
      llvs ← getLLVsForLVG (vg_Name lvg);
      match llvs with inl _ => mret None | inr llvs => collectLLVs lvgs (allLLVs ++ llvs) end
  end.
Definition computeActualLLVName (aState : option actualState) : M string :=
  let actualDisk := actualBackingDisk aState in
  if String.eqb actualDisk "" then mret ""
  else
    lvgsOnNode ← getLVGsOnNode;
    match lvgsOnNode with
    | inl _ => mret ""
    | inr lvgsOnNode =>
        allLLVs ← collectLLVs lvgsOnNode [];
        mret (match allLLVs with Some allLLVs => computeLLVNameFromDiskPath actualDisk lvgsOnNode allLLVs | None => "" end)
    end.
Definition releaseLLVFinalizer (llvName : string) : M (option agentError) :=
  llv ← getLVMLogicalVolume llvName;
  match llv with
  | inl e => mret (Some (Errorf ("getting LLV " +:+ quote llvName +:+ " for finalizer release: ") e ""))
  | inr None => mret None
  | inr (Some llv) =>
      if negb (HasFinalizer llv AgentFinalizer) then mret None
      else
        r ← patchLLV (RemoveFinalizer llv AgentFinalizer).2 llv;
        mret (match orNil r with
              | inr _ => None
              | inl e => Some (Plain (Wrapped ("releasing finalizer on LLV " +:+ quote llvName) e))
              end)
  end.
(** Phase 7: the names that stay in the list, and the joined errors. *)
Fixpoint releaseLLVs d (upAndNotInCleanup : bool) (currentDiskLLV : string) (llvs : list string) (llvErr : option agentError) :
    M (list string * option agentError) :=
  match llvs with
  | [] => mret ([], llvErr)
  | llv :: llvs =>
      let keep := (upAndNotInCleanup && String.eqb llv (ds_LVMLogicalVolumeName (dr_Spec d))) || String.eqb llv currentDiskLLV in
      releaseErr ← (if keep then mret None else releaseLLVFinalizer llv);
      let llvErr := match releaseErr with Some e => errorsJoin [llvErr; Some e] | None => llvErr end in
      '(kept, llvErr) ← releaseLLVs d upAndNotInCleanup currentDiskLLV llvs llvErr;
      mret (if keep || isSome releaseErr then llv :: kept else kept, llvErr)
  end.

#[local] Instance Condition_eq_dec : EqDecision Condition.
Proof. solve_decision. Defined.
(** equality.Semantic.DeepEqual on the status. *)
Definition statusEqual (a b : DRBDResource) : bool :=
  String.eqb (dr_Device a) (dr_Device b) && bool_decide (dr_DeviceIOSuspended a = dr_DeviceIOSuspended b) &&
  bool_decide (dr_DeviceOpen a = dr_DeviceOpen b) && optionRel (λ q q', q_Cmp q q' =? 0) (dr_Size a) (dr_Size b) &&
  bool_decide (dr_Addresses a = dr_Addresses b) && bool_decide (dr_ActiveConfiguration a = dr_ActiveConfiguration b) &&
  bool_decide (dr_Peers a = dr_Peers b) && String.eqb (dr_DiskState a) (dr_DiskState b) &&
  bool_decide (dr_Quorum a = dr_Quorum b) && String.eqb (dr_DeviceUUID a) (dr_DeviceUUID b) &&
  bool_decide (dr_Conditions a = dr_Conditions b).

(** *** Phase 1: renaming *)
Definition reconcileClearActualName d : M ReconcileOutcome :=
  let base := d in
  let d := d <| dr_Spec := dr_Spec d <| ds_ActualNameOnTheNode := "" |> |> in
  r ← patchDRBDR d base;
  mret (OnEnd (DoneOrFail (stored d r).2)).
Definition reconcileActualNameOnTheNode d : M ReconcileOutcome :=
  let oldName := ds_ActualNameOnTheNode (dr_Spec d) in
  let newName := DRBDNameFromK8SName (dr_Name d) in
  err ← ExecuteRename oldName newName;
  OnEnd <$>
  match err with
  | None => reconcileClearActualName d
  | Some e =>
      if Is e ErrRenameUnknownResource then
        status ← CachesStatus newName;
        match status with
        | inl e => mret (fail e)
        | inr _ => reconcileClearActualName d        (* gone from the node, or renamed before *)
        end
      else if Is e ErrRenameAlreadyExists
      then mret (fail (Errorf ("both DRBD resource names exist: oldName=" +:+ oldName +:+ ", newName=" +:+ newName +:+ ": ") e ""))
      else mret (fail e)
  end.

(** *** Phase 6: convergence

    The rank of map keys and the random bytes are drawn whether they are used or not. *)
Definition stateErr (e : option agentError) : option agentError := ConfiguredReasonError e ReasonStateQueryFailed.
Definition observe (drbdResName : string) : M (option actualState * option agentError) :=
  r ← observeActualDRBDState drbdResName;
  mret (match r with inr a => (Some a, None) | inl e => (None, Some e) end).
Definition observeDisk (aState : option actualState) (intendedDisk : string) d : M (option actualState * option agentError) :=
  match aState with
  | Some a => '(a, err) ← observeActualDiskState a intendedDisk (dr_DeviceUUID d); mret (Some a, err)
  | None => mret (None, None)
  end.
Definition converge d (intendedDisk : string) (aState : option actualState) (upAndNotInCleanup maintenanceMode : bool) :
    M (DRBDResource * bool * option agentError) :=
  iState ← computeIntendedDRBDState d intendedDisk upAndNotInCleanup;
  rank ← do MapOrder;
  random ← do (OnHost RandUUID);
  '(refreshNeeded, drbdErr) ← convergeDRBDState (computeTargetDRBDActions flant rank random iState aState) maintenanceMode;
  '(d, drbdErr) ← ensureLocalPortConflictResolved d drbdErr;
  mret (d, refreshNeeded, drbdErr).
Definition refresh (drbdResName intendedDisk : string) d (aState : option actualState) (refreshNeeded : bool) :
    M (option actualState * option agentError) :=
  if negb refreshNeeded then mret (aState, None)
  else
    _ ← do (OnHost (InvalidateCaches drbdResName));
    '(aState, err) ← observe drbdResName;
    '(aState, err) ← match err with Some e => mret (aState, Some e) | None => observeDisk aState intendedDisk d end;
    mret (aState, stateErr err).

(** *** Phases 8 and 9: status, and the finalizer of the resource *)
Definition reportStatus d (statusBase : DRBDResource) (reconcileErr : option agentError) : M (DRBDResource * option agentError) :=
  if statusEqual statusBase d then mret (d, reconcileErr)
  else
    r ← do (PatchDRBDRStatus statusBase d);
    let '(d, err) := stored d r in
    let tolerated := deleting d && match r with NotFound _ => true | _ => false end in
    mret (d, match err with
             | Some e => if tolerated then reconcileErr else errorsJoin [reconcileErr; Some (Plain e)]
             | None => reconcileErr
             end).
Definition resourceGone (aState : option actualState) : bool := match aState with Some a => negb (ResourceExists a) | None => false end.
Definition dropFinalizer d (llvs : list string) (aState : option actualState) (upAndNotInCleanup : bool) (reconcileErr : option agentError) :
    M (option agentError) :=
  if match llvs with [] => true | _ => false end && resourceGone aState then
    '(_, o) ← reconcileFinalizer d false upAndNotInCleanup;
    mret (match err o with Some e => errorsJoin [reconcileErr; Some (Plain e)] | None => reconcileErr end)
  else mret reconcileErr.

(** Phases 5 to 9, once the list of logical volumes is recorded. *)
Definition finishDRBDR d (statusBase : DRBDResource) (drbdResName : string) (aState : option actualState) (aErr : option agentError)
    (llvs : list string) (upAndNotInCleanup maintenanceMode : bool) : M ReconcileOutcome :=
  '(intendedDisk, llvErr) ←
    (if negb maintenanceMode && bool_decide (ds_Type (dr_Spec d) = DRBDDiskful) && upAndNotInCleanup
     then reconcileLLVFinalizerAdd (ds_LVMLogicalVolumeName (dr_Spec d)) (actualBackingDisk aState) else mret ("", None));
  '(aState, diskErr) ← match aErr with None => observeDisk aState intendedDisk d | Some _ => mret (aState, None) end;
  let aErr := match aErr with Some _ => aErr | None => stateErr diskErr end in
  '(d, refreshNeeded, drbdErr) ← converge d intendedDisk aState upAndNotInCleanup maintenanceMode;
  '(aState, aErr2) ← refresh drbdResName intendedDisk d aState refreshNeeded;
  currentDiskLLV ← computeActualLLVName aState;
  '(llvs, llvErr) ← releaseLLVs d upAndNotInCleanup currentDiskLLV llvs llvErr;
  let reconcileErr := errorsJoin [llvErr; aErr; aErr2; drbdErr] in
  d ← ensureReportState aState d currentDiskLLV reconcileErr maintenanceMode;
  '(d, reconcileErr) ← reportStatus (withLLVs llvs d) statusBase reconcileErr;
  reconcileErr ← dropFinalizer d llvs aState upAndNotInCleanup reconcileErr;
  mret (match reconcileErr with Some e => fail e | None => Done end).
(** Phases 4 to 9. *)
Definition convergeRecorded d (drbdResName : string) (aState : option actualState) (aErr : option agentError)
    (upAndNotInCleanup maintenanceMode : bool) : M ReconcileOutcome :=
  let statusBase := d in
  '(d, llvs, o) ← reconcileLLVFinalizersToRelease d upAndNotInCleanup maintenanceMode;
  if ShouldReturn o then mret o
  else finishDRBDR d statusBase drbdResName aState aErr llvs upAndNotInCleanup maintenanceMode.
Definition reconcileDRBDR d : M ReconcileOutcome :=
  let maintenanceMode := String.eqb (ds_Maintenance (dr_Spec d)) MaintenanceModeNoResourceReconciliation in
  OnEnd <$>
  if negb (String.eqb (ds_ActualNameOnTheNode (dr_Spec d)) "") && negb maintenanceMode then reconcileActualNameOnTheNode d
  else
    '(d, o) ← reconcileFinalizer d true (isUpAndNotInCleanup d);
    if ShouldReturn o then mret (DoneOrFail (err o))
    else
      let upAndNotInCleanup := isUpAndNotInCleanup d in
      let drbdResName := DRBDResourceNameOnTheNode d in
      '(aState, aErr) ← observe drbdResName;
      '(d, o) ← reconcileAddresses d (existingPortsFromState aState);
      if ShouldReturn o then mret (DoneOrFail (err o))
      else
        convergeRecorded d drbdResName aState (stateErr aErr) upAndNotInCleanup maintenanceMode.

(** *** Reconcile *)
Definition reconcileOrphanDRBD (k8sName : string) : M ReconcileOutcome :=
  let drbdName := DRBDNameFromK8SName k8sName in
  status ← CachesStatus drbdName;
  OnEnd <$>
  match status with
  | inl e => mret (fail e)
  | inr None => mret Done
  | inr (Some _) =>
      _ ← do (OnHost (host.Remove (DeviceSymlinkPath k8sName)));
      '(_, e) ← Execute (DownAction drbdName) 0;
      mret (match e with Some e => fail e | None => Done end)
  end.
Definition reconcileByActualName (actualName : string) : M ReconcileOutcome :=
  drbdrs ← getDRBDRsOnNode;
  OnEnd <$>
  match drbdrs with
  | inl e => mret (fail e)
  | inr drbdrs =>
      match List.filter (λ d, String.eqb (ds_ActualNameOnTheNode (dr_Spec d)) actualName) drbdrs with
      | [] => mret Done
      | [d] => reconcileDRBDR d
      | ms => mret (fail (Errorf_ ("multiple DRBDResources (" +:+ itoa (Z.of_nat (length ms)) +:+ ") have ActualNameOnTheNode=" +:+
                                   quote actualName +:+ " on node " +:+ quote nodeName)))
      end
  end.
Record DRBDReconcileRequest := { req_Name : string; req_ActualNameOnTheNode : string }.
Definition Reconcile (req : DRBDReconcileRequest) : M (Result * option error) :=
  ToCtrl <$>
  if negb (String.eqb (req_ActualNameOnTheNode req) "") then reconcileByActualName (req_ActualNameOnTheNode req)
  else
    drbdr ← getDRBDRByName (req_Name req);
    match drbdr with
    | inl e => mret (fail e)
    | inr None => reconcileOrphanDRBD (req_Name req)
    | inr (Some d) => if negb (String.eqb (ds_NodeName (dr_Spec d)) nodeName) then mret Done else reconcileDRBDR d
    end.

(** ** predicates.go *)
Definition drbdrCreated (obj : DRBDResource) : bool := String.eqb (ds_NodeName (dr_Spec obj)) nodeName.
Definition drbdrUpdated (drOld drNew : DRBDResource) : bool :=
  if negb (String.eqb (ds_NodeName (dr_Spec drNew)) nodeName) then false
  else negb (dr_Generation drNew =? dr_Generation drOld) || negb (Bool.eqb (deleting drOld) (deleting drNew)) ||
       negb (bool_decide (dr_Finalizers drOld = dr_Finalizers drNew)).

(** ** scanner.go: one run of the events loop

    The port cache is changed by each event; the requests are those sent to the queue, in order.  Names
    seen before the end of the dump are kept in a map and sent when it ends. *)
Definition requestOf (drbdName : string) : DRBDReconcileRequest :=
  match ParseDRBDResourceNameOnTheNode drbdName with
  | (k8sName, true) => {| req_Name := k8sName; req_ActualNameOnTheNode := "" |}
  | (_, false) => {| req_Name := ""; req_ActualNameOnTheNode := drbdName |}
  end.
Record scan := { sc_online : bool; sc_pending : gset string; sc_ports : port_cache.DRBDPortCache; sc_sent : list DRBDReconcileRequest }.
Definition processName (drbdName : string) (s : scan) : scan :=
  if sc_online s
  then {| sc_online := true; sc_pending := sc_pending s; sc_ports := sc_ports s; sc_sent := sc_sent s ++ [requestOf drbdName] |}
  else {| sc_online := false; sc_pending := {[drbdName]} ∪ sc_pending s; sc_ports := sc_ports s; sc_sent := sc_sent s |}.
Definition dumpDone (rank : string → Z) (s : scan) : scan :=
  {| sc_online := true; sc_pending := ∅; sc_ports := port_cache.EndDump (sc_ports s);
     sc_sent := sc_sent s ++ map requestOf (sort_by (λ a b, rank a <=? rank b) (elements (sc_pending s))) |}.
Definition namedEvent (kind : EventKind) (object : EventObject) (state : gmap string string) (drbdName : string) (s : scan) : scan :=
  let s := processName drbdName s in
  {| sc_online := sc_online s; sc_pending := sc_pending s;
     sc_ports := port_cache.updatePortCache kind object state drbdName (sc_ports s); sc_sent := sc_sent s |}.
Definition invalidate (online : bool) (name : string) : M () := if online then do (OnHost (InvalidateCaches name)) else mret tt.
Definition scanEvent (ev : Events2Result) (s : scan) : M scan :=
  match ev with
  | UnparsedEvent _ _ => mret s
  | drbdutils.Event _ kind object state =>
      if negb (sc_online s) && bool_decide (kind = KindExists) && bool_decide (object = ObjectDumpDone) then
        rank ← do MapOrder; mret (dumpDone rank s)
      else
        match state !! "name" with
        | None => mret s
        | Some drbdName =>
            _ ← invalidate (sc_online s) drbdName;
            let s := namedEvent kind object state drbdName s in
            match (if decide (kind = KindRename) then state !! "new_name" else None) with
            | Some newName => _ ← invalidate (sc_online s) newName; mret (processName newName s)
            | None => mret s
            end
        end
  end.
Fixpoint scanLines (lines : list string) (s : scan) : M scan :=
  match lines with
  | [] => mret s
  | line :: lines => s ← scanEvent (parseLine line) s; scanLines lines s
  end.
(** The lines that events2 prints until it ends; a dump that did not complete is aborted. *)
Definition runEventsLoop (ports : port_cache.DRBDPortCache) (lines : list string) : M scan :=
  let ports := port_cache.BeginDump ports in
  _ ← do (OnHost InvalidateAllCaches);
  s ← scanLines lines {| sc_online := false; sc_pending := ∅; sc_ports := ports; sc_sent := [] |};
  mret (if sc_online s then s
        else {| sc_online := false; sc_pending := sc_pending s; sc_ports := port_cache.AbortDump (sc_ports s); sc_sent := sc_sent s |}).

(** ** drbdrop: operations on a DRBD resource *)
Implicit Types (op : DRBDResourceOperation).
Definition isOperationTerminal op : bool :=
  match op_Phase op with OperationSucceeded | OperationFailed => true | _ => false end.
Definition operationPredicate op : bool := String.eqb (op_NodeName op) nodeName && negb (isOperationTerminal op).
Definition ensureOperationStatusRunning op (startedAt : Time) : bool * DRBDResourceOperation :=
  (negb (bool_decide (op_Phase op = OperationRunning)),
   op <| op_Phase := OperationRunning |> <| op_StartedAt := Some startedAt |> <| op_Message := "" |>).
Definition ensureOperationStatusSucceeded op (completedAt : Time) : DRBDResourceOperation :=
  op <| op_Phase := OperationSucceeded |> <| op_CompletedAt := Some completedAt |> <| op_Message := "" |>.
Definition ensureOperationStatusFailed op (message : string) (completedAt : Time) : DRBDResourceOperation :=
  op <| op_Phase := OperationFailed |> <| op_CompletedAt := Some completedAt |> <| op_Message := message |>.
Definition patchOperationStatus op (base : DRBDResourceOperation) : M (DRBDResourceOperation * option error) :=
  stored op <$> do (PatchDRBDROpStatus base op).
Definition failOperationAndPatch op (message : string) : M (option error) :=
  now ← do Now; snd <$> patchOperationStatus (ensureOperationStatusFailed op message now) op.
Definition succeedOperationAndPatch op : M (option error) :=
  now ← do Now; snd <$> patchOperationStatus (ensureOperationStatusSucceeded op now) op.
Definition failOperation op (message : string) : M ReconcileOutcome := DoneOrFail <$> failOperationAndPatch op message.
Definition executeCreateNewUUID op d : M (option agentError) :=
  let drbdResName := DRBDResourceNameOnTheNode d in
  statusResult ← ExecuteStatus drbdResName;
  match statusResult with
  | inl e => mret (Some (Errorf "querying DRBD status: " e ""))
  | inr [] => mret (Some (Errorf_ ("DRBD resource " +:+ quote drbdResName +:+ " does not exist")))
  | inr (res :: _) =>
      match rs_Devices res with
      | [] => mret (Some (Errorf_ ("DRBD resource " +:+ quote drbdResName +:+ " has no volumes")))
      | dev :: _ =>
          let params := default {| cu_ClearBitmap := false; cu_ForceResync := false |} (op_CreateNewUUID op) in
          err ← ExecuteNewCurrentUUID (wrap64 (dv_Minor dev)) (cu_ClearBitmap params) (cu_ForceResync params);
          mret ((λ e, Errorf "executing new-current-uuid: " e "") <$> err)
      end
  end.
Definition runCreateNewUUID op d : M ReconcileOutcome :=
  now ← do Now;
  let base := op in
  let '(changed, op) := ensureOperationStatusRunning op now in
  '(op, err) ← (if changed then patchOperationStatus op base else mret (op, None));
  match err with
  | Some e => mret (failed e)
  | None =>
      opErr ← executeCreateNewUUID op d;
      match opErr with
      | Some e => failOperation op (agent_errors.Error e)
      | None => DoneOrFail <$> succeedOperationAndPatch op
      end
  end.
Definition exclusive op : bool :=
  match op_CreateNewUUID op with Some p => cu_ClearBitmap p && cu_ForceResync p | None => false end.
Definition reconcileCreateNewUUID op : M ReconcileOutcome :=
  OnEnd <$>
  if exclusive op then failOperation op "clearBitmap and forceResync are mutually exclusive"
  else
    r ← do (GetDRBDR (op_DRBDResourceName op));
    match orNil r with
    | inl e => mret (failed e)
    | inr o =>
        match (if decide ((λ d, ds_NodeName (dr_Spec d)) <$> o = Some nodeName) then o else None) with
        | None => failOperation op ("DRBDResource " +:+ quote (op_DRBDResourceName op) +:+ " not found on node " +:+ quote nodeName)
        | Some d =>
            if String.eqb (ds_Maintenance (dr_Spec d)) MaintenanceModeNoResourceReconciliation
            then failOperation op "DRBD resource is in maintenance mode"
            else runCreateNewUUID op d
        end
    end.
Definition typeText op : string := match op_Type op with OperationCreateNewUUID => "CreateNewUUID" | OperationOther s => s end.
Definition ReconcileOperation (name : string) : M (Result * option error) :=
  ToCtrl <$> (
    r ← do (GetDRBDROp name);
    match orNil r with
    | inl e => mret (failed e)
    | inr None => mret Done
    | inr (Some op) =>
        if isOperationTerminal op then mret Done
        else match op_Type op with
             | OperationCreateNewUUID => reconcileCreateNewUUID op
             | OperationOther _ => OnEnd <$> failOperation op ("operation type " +:+ typeText op +:+ " not implemented")
             end
    end).
End controller.
End drbdr_controller.
