(* ===== verification/Lifecycle.v ===== *)
(** * rv_controller: the steady state and the deletion of a volume

    Source: rv_controller/reconciler.go (orphaned RVRs, layout convergence, layout status, metadata, RVR
    finalizers, deletion, normal operation) and reconciler_access_replicas.go. *)

From Stdlib Require Import ZArith Lia String.
From stdpp Require Import base gmap list numbers strings option.
From S2P Require Import Prelude IdSet DrbdSize Api Object Storage Flow Client Dmte Context Datamesh Layout Rollout Replicas RvaStatus.
Import idset v1alpha1 dmte datamesh process objutilv1 storage flow client layout rollout replicas rva_status.

Module lifecycle.
Section lifecycle.
Context {K : K8s} {Meta : MetaApi} {S : Server}.
Implicit Types (rv : ReplicatedVolume) (rvr : ReplicatedVolumeReplica) (rvrs : list ReplicatedVolumeReplica)
  (rvas : list ReplicatedVolumeAttachment) (m : DatameshMember).

(** The replicas, and the outcome. *)
Notation result := (list ReplicatedVolumeReplica * ReconcileOutcome)%type.

(** A replica is built, owned and created; the result inserts it. *)
Definition createReplica rv rvrs (typ : ReplicaType) (nodeName failure : string)
    (onExists : M result) (onCreated : list ReplicatedVolumeReplica → M result) : M result :=
  new ← lift (newRVR rv rvrs typ nodeName);
  match new with
  | inl e => mret (rvrs, fail e failure)
  | inr rvr =>
      e ← do (ControllerRef rvr rv);
      match e with
      | Some e => mret (rvrs, fail e failure)
      | None =>
          r ← createRVR rvr;
          match r with
          | Replied rvr => rvrs ← lift (insertRVRSorted rvrs rvr); onCreated rvrs
          | AlreadyExists _ => onExists
          | NotFound e | Refused e => mret (rvrs, fail e failure)
          end
      end
  end.

(** ** Layout convergence *)
Definition convergeLayout rv rvrs rvas : M result :=
  match rv_Configuration rv, rv_DeletionTimestamp rv with
  | Some _, None =>
      '(targetAction, _) ← lift (computeTargetLayoutAction rv rvrs rvas);
      match kind targetAction with
      | layoutActionRetypeToTieBreaker =>
          match findRVRByName rvrs (retypeRVRName targetAction) with
          | None => mret (rvrs, Continue)
          | Some rvr =>
              let retyped := applyRVRRetypeToTieBreaker rvr in
              r ← patchRVR retyped rvr;
              match answer r with
              | inr rvr => mret (replaceByName (retypeRVRName targetAction) rvr rvrs, ContinueAndRequeue)
              | inl e => mret (replaceByName (retypeRVRName targetAction) retyped rvrs,
                               fail e ("retyping Diskful RVR " +:+ rvr_Name rvr +:+ " to TieBreaker"))
              end
          end
      | layoutActionCreateTieBreaker =>
          createReplica rv rvrs ReplicaTypeTieBreaker "" "creating tie-breaker RVR"
            (mret (rvrs, ContinueAndRequeue)) (λ rvrs, mret (rvrs, ContinueAndRequeue))
      | layoutActionNone => mret (rvrs, Continue)
      end
  | _, _ => mret (rvrs, Continue)
  end.
Definition reconcileLayoutConvergence rv rvrs rvas : M result := ended <$> convergeLayout rv rvrs rvas.

(** ** Layout status *)
Definition applyMembershipLayoutConvergedCondTrue rv (reason message : string) : M (bool * ReplicatedVolume) :=
  SetStatusCondition rv (verdict layout.CondMembershipLayoutConvergedType ConditionTrue reason message).
Definition applyMembershipLayoutConvergedCondFalse rv (reason message : string) : M (bool * ReplicatedVolume) :=
  SetStatusCondition rv (verdict layout.CondMembershipLayoutConvergedType ConditionFalse reason message).
Definition applyMembershipLayoutConvergedCondUnknown rv (reason message : string) : M (bool * ReplicatedVolume) :=
  SetStatusCondition rv (verdict layout.CondMembershipLayoutConvergedType ConditionUnknown reason message).
Definition reconcileLayoutStatus rv rvrs rvas : M (ReplicatedVolume * ReconcileOutcome) :=
  ended <$>
  match rv_Configuration rv with
  | None => mret (rv, Continue)
  | Some _ =>
      rep ← lift (computeLayoutReport rv rvrs rvas);
      let '(c1, rv) := applyMembershipLayout rv (lr_membershipLayout rep) in
      let r := lr_converged rep in
      '(c2, rv) ← (if String.eqb (status r) ConditionTrue then applyMembershipLayoutConvergedCondTrue
                   else if String.eqb (status r) ConditionUnknown then applyMembershipLayoutConvergedCondUnknown
                   else applyMembershipLayoutConvergedCondFalse) rv (reason r) (message r);
      mret (rv, ReportChangedIf Continue (c2 || c1))
  end.

(** ** Access replicas *)
Fixpoint createAccess rv (rsp : rspView) rvas rvrs (rvrNodes : gset string) : M result :=
  match rvas with
  | [] => mret (rvrs, Continue)
  | rva :: rest =>
      let nodeName := rva_NodeName rva in
      let skip := createAccess rv rsp rest rvrs rvrNodes in
      if bool_decide (is_Some (rva_DeletionTimestamp rva)) then skip
      else if bool_decide (nodeName ∈ rvrNodes) then skip
      else
        en ← lift (findEligibleNode rsp nodeName);
        match en with
        | None => skip
        | Some en =>
            if negb (en_NodeReady en) || negb (en_AgentReady en) then skip
            else if (32 <=? Z.of_nat (length rvrs)) then mret (rvrs, Continue)
            else createReplica rv rvrs ReplicaTypeAccess nodeName ("creating Access RVR for node " +:+ nodeName)
                   (mret (rvrs, DoneAndRequeue))
                   (λ rvrs, createAccess rv rsp rest rvrs ({[nodeName]} ∪ rvrNodes))
        end
  end.
Definition nodesOfRVRs rvrs : gset string :=
  list_to_set (List.filter (λ n, negb (String.eqb n "")) (map rvr_Spec_NodeName rvrs)).
Definition reconcileCreateAccessReplicas rv rvrs rvas (rsp : option rspView) : M result :=
  ended <$>
  match rv_DeletionTimestamp rv with
  | Some _ => mret (rvrs, Continue)
  | None =>
      cfg ← lift (deref (rv_Configuration rv));
      if bool_decide (cfg_VolumeAccess cfg = VolumeAccessLocal) then mret (rvrs, Continue)
      else match rsp with
           | None => mret (rvrs, Continue)
           | Some rsp => createAccess rv rsp rvas rvrs (nodesOfRVRs rvrs)
           end
  end.

Definition activeRVANodes rvas : gset string :=
  list_to_set (map rva_NodeName (List.filter (λ a, bool_decide (rva_DeletionTimestamp a = None)) rvas)).
(** The replicas with a Detach or AddReplica transition; reading the ID of a transition may panic. *)
Fixpoint busyIDs (ts : list Transition) (s : IDSet) : outcome IDSet :=
  match ts with
  | [] => Ok s
  | t :: ts =>
      if bool_decide (t_Type t = Detach) || bool_decide (t_Type t = AddReplica)
      then id ← ReplicaID t; busyIDs ts (Add s id)
      else busyIDs ts s
  end.
Definition isRedundant rv rvr : bool :=
  existsb (λ m, String.eqb (m_NodeName m) (rvr_Spec_NodeName rvr) && negb (String.eqb (m_Name m) (rvr_Name rvr))) (rv_Members rv).
Definition mayDeleteAccess rv (attached transitions : IDSet) (active : gset string) rvr : bool :=
  bool_decide (rvr_Spec_Type rvr = ReplicaTypeAccess) && bool_decide (rvr_DeletionTimestamp rvr = None) &&
  negb (Contains attached (rvr_ID rvr)) && negb (Contains transitions (rvr_ID rvr)) &&
  (isRedundant rv rvr || negb (bool_decide (rvr_Spec_NodeName rvr ∈ active))).
Definition deleteAccess rv (attached transitions : IDSet) (active : gset string) rvr : M (ReplicatedVolumeReplica * option ReconcileOutcome) :=
  if negb (mayDeleteAccess rv attached transitions active rvr) then mret (rvr, None)
  else
    '(rvr, e) ← deleteRVR rvr;
    mret (rvr, (λ e, fail e ("deleting Access RVR " +:+ rvr_Name rvr)) <$> e).
Definition reconcileDeleteAccessReplicas rv rvrs rvas : M result :=
  transitions ← lift (busyIDs (rv_DatameshTransitions rv) 0);
  let attached := FromWhere m_ID (rv_Members rv) m_Attached in
  (λ r, ended (resultOf r)) <$> rangeM (deleteAccess rv attached transitions (activeRVANodes rvas)) rvrs.

(** ** Metadata and finalizers *)
Definition reconcileMetadata rv rvrs : M (ReplicatedVolume * ReconcileOutcome) :=
  ended <$>
  let shouldExist := bool_decide (rv_DeletionTimestamp rv = None) in
  let targetFinalizerPresent := shouldExist || negb (bool_decide (rvrs = [])) in
  if isRVMetadataInSync rv targetFinalizerPresent then mret (rv, Continue)
  else
    '(rv, e) ← patchRV (applyRVMetadata rv targetFinalizerPresent).2 rv;
    mret (rv, match e with
              | Some e => failed e
              | None => if targetFinalizerPresent then Continue else Done
              end).
Definition keepFinalizer (rv : option ReplicatedVolume) rvr : M (ReplicatedVolumeReplica * option ReconcileOutcome) :=
  let patched new msg :=
    r ← patchRVR new rvr;
    mret (match answer r with inr rvr => (rvr, None) | inl e => (new, Some (fail e (msg +:+ rvr_Name rvr))) end) in
  match rvr_DeletionTimestamp rvr with
  | None =>
      if HasFinalizer rvr RVControllerFinalizer then mret (rvr, None)
      else patched (AddFinalizer rvr RVControllerFinalizer).2 "adding finalizer to RVR "
  | Some _ =>
      if negb (HasFinalizer rvr RVControllerFinalizer) then mret (rvr, None)
      else if isRVRMemberOrLeavingDatamesh rv (rvr_Name rvr) then mret (rvr, None)
      else patched (RemoveFinalizer rvr RVControllerFinalizer).2 "removing finalizer from RVR "
  end.
Definition reconcileRVRFinalizers (rv : option ReplicatedVolume) rvrs : M result :=
  (λ r, ended (resultOf r)) <$> rangeM (keepFinalizer rv) rvrs.
Definition reconcileOrphanedRVRs (rvName : string) : M ReconcileOutcome :=
  list ← getRVRsSorted rvName;
  match list with
  | inl e => mret (OnEnd (fail e "listing RVRs for deleted RV"))
  | inr [] => mret (OnEnd Done)
  | inr rvrs => '(_, o) ← reconcileRVRFinalizers None rvrs; mret (OnEnd o)
  end.

(** ** Deletion *)
Definition forceDelete rvr : M (ReplicatedVolumeReplica * option ReconcileOutcome) :=
  '(rvr, e) ← deleteRVRWithForcedFinalizerRemoval rvr;
  mret (rvr, (λ e, fail e ("deleting RVR " +:+ rvr_Name rvr)) <$> e).
Definition deleteVolume rv rvas rvrs :
    M (ReplicatedVolume * list ReplicatedVolumeAttachment * list ReplicatedVolumeReplica * ReconcileOutcome) :=
  '(rvas, o) ← reconcileRVAWaiting rvas "ReplicatedVolume is being deleted";
  if ShouldReturn o then mret (rv, rvas, rvrs, o)
  else
    '(rvrs, r) ← rangeM forceDelete rvrs;
    match r with
    | Some o => mret (rv, rvas, rvrs, o)
    | None =>
        let base := rv in
        '(c1, rv) ← applyMembershipLayoutConvergedCondUnknown rv ReasonVolumeDeleting membershipLayoutConvergedVolumeDeletingMessage;
        let '(c2, rv) := match rv_Members rv with [] => (false, rv) | _ => (true, rv <| rv_Members := [] |>) end in
        if c1 || c2 then
          '(rv, e) ← patchRVStatus rv base;
          mret (rv, rvas, rvrs, match e with Some e => fail e "publishing deletion layout status" | None => Done end)
        else mret (rv, rvas, rvrs, Done)
    end.
Definition reconcileDeletion rv rvas rvrs :
    M (ReplicatedVolume * list ReplicatedVolumeAttachment * list ReplicatedVolumeReplica * ReconcileOutcome) :=
  '(rv, rvas, rvrs, o) ← deleteVolume rv rvas rvrs; mret (rv, rvas, rvrs, OnEnd o).

(** ** Normal operation *)
(** The attachments changed through the contexts are those of the list. *)
Definition sameRVA (a b : ReplicatedVolumeAttachment) : bool := String.eqb (rva_Name a) (rva_Name b).
Definition writeBackRVAs (changed rvas : list ReplicatedVolumeAttachment) : list ReplicatedVolumeAttachment :=
  map (λ a, default a (List.find (sameRVA a) changed)) rvas.
Definition reconcileNormalOperation (registry : option (Registry globalContext rptr)) rv rvrs rvas (rsp : option rspView) :
    M (ReplicatedVolume * list ReplicatedVolumeAttachment * list ReplicatedVolumeReplica * ReconcileOutcome) :=
  '(rvrs, o) ← reconcileCreateAccessReplicas rv rvrs rvas rsp;
  if ShouldReturn o then mret (rv, rvas, rvrs, OnEnd o)
  else
    clock ← do Readings;
    spare ← do SpareCapacity;
    '(changed, contexts, rv) ← lift (ProcessTransitions clock registry rv (asRSP <$> rsp) rvrs rvas {| ShadowDiskful := false |} spare);
    let o := ReportChangedIf o changed in
    '(changedRVAs, o1) ← reconcileRVAConditionsFromDatameshReplicaContext contexts;
    let rvas := writeBackRVAs changedRVAs rvas in
    '(rvrs, o2) ← reconcileDeleteAccessReplicas rv rvrs rvas;
    let o := Merge o [o1; o2] in
    if ShouldReturn o then mret (rv, rvas, rvrs, OnEnd o)
    else
      '(rvrs, o3) ← reconcileLayoutConvergence rv rvrs rvas;
      mret (rv, rvas, rvrs, OnEnd (Merge o [o3])).
End lifecycle.
End lifecycle.
