(* ===== verification/Formation.v ===== *)
(** * rv_controller: formation of a datamesh

    Source: rv_controller/reconciler_formation.go.

    A new volume is formed by the plan create/v1 (replicas are created, joined, connected and given
    their first data) or adopt/v1 (existing replicas are taken over).  The Formation transition in the
    status says which step is active; a step that waits too long restarts the formation.  Pointers to
    the transition and its steps are positions in the status. *)

From Stdlib Require Import ZArith Lia String Ascii.
From stdpp Require Import base gmap list numbers strings option.
From S2P Require Import Prelude IdSet DrbdSize Api Object Storage Flow Client Dmte Context Helpers Layout Rollout Replicas RvaStatus Lifecycle.
Import idset drbd_size v1alpha1 dmte datamesh objutilv1 storage flow client helpers layout rollout replicas rva_status lifecycle.

(** time.Duration.String, on nanoseconds *)
Module duration.
Fixpoint digits (n : nat) (v : Z) : string :=
  match n with O => "" | Datatypes.S n => itoa (v / 10 ^ Z.of_nat n mod 10) +:+ digits n v end.
(** The fraction without trailing zeros, of [n] digits. *)
Fixpoint fraction (n : nat) (v : Z) : string :=
  match n with
  | O => ""
  | Datatypes.S n' => if v mod 10 =? 0 then fraction n' (v / 10) else "." +:+ digits n v
  end.
Definition unit (prec : nat) (name : string) (u : Z) : string :=
  itoa (u / 10 ^ Z.of_nat prec) +:+ fraction prec (u mod 10 ^ Z.of_nat prec) +:+ name.
Definition micro : string := String.String (ascii_of_nat 194) (String.String (ascii_of_nat 181) "s").
Definition positive (u : Z) : string :=
  if u <? 1000 then unit 0 "ns" u
  else if u <? 1000000 then unit 3 micro u
  else if u <? 1000000000 then unit 6 "ms" u
  else
    let secs := u / 1000000000 in
    let tail := itoa (secs mod 60) +:+ fraction 9 (u mod 1000000000) +:+ "s" in
    if secs <? 60 then tail
    else if secs <? 3600 then itoa (secs / 60) +:+ "m" +:+ tail
    else itoa (secs / 3600) +:+ "h" +:+ itoa (secs / 60 mod 60) +:+ "m" +:+ tail.
Definition Duration_String (d : Z) : string :=
  if d =? 0 then "0s" else if d <? 0 then "-" +:+ positive (- d) else positive d.
End duration.
Example duration_90s : duration.Duration_String 90000000000 = "1m30s".
Proof. vm_compute. reflexivity. Qed.
Example duration_frac : duration.Duration_String 3661500000000 = "1h1m1.5s".
Proof. vm_compute. reflexivity. Qed.

Module formation.

Definition formationPlanCreate : string := "create/v1".
Definition formationPlanAdopt : string := "adopt/v1".
Definition formationStepNames : list string := ["Preconfigure"; "Establish connectivity"; "Bootstrap data"].
Definition adoptStepNames : list string := ["Verify prerequisites"; "Populate and verify datamesh"; "Exit maintenance"].
Definition AdoptRVRAnnotationKey : string := "sds-replicated-volume.deckhouse.io/adopt-rvr".
Definition AdoptSharedSecretAnnotationKey : string := "sds-replicated-volume.deckhouse.io/adopt-shared-secret".
Definition maxSharedSecretLen : Z := 64.
Definition SharedSecretAlgSHA256 : string := "SHA256".
Definition CondSatisfyEligibleNodesType : string := "SatisfyEligibleNodes".
Definition ReasonInMaintenance : string := "InMaintenance".
Definition DiskStateInconsistent : string := "Inconsistent".
Definition ReplicationStateEstablished : string := "Established".
Definition second : Z := 1000000000.

Section formation.
Context {K : K8s} {Meta : MetaApi}.
Implicit Types (rv : ReplicatedVolume) (rvr : ReplicatedVolumeReplica) (rvrs : list ReplicatedVolumeReplica)
  (rvas : list ReplicatedVolumeAttachment) (m : DatameshMember) (rsp : rspView).

(** ** The Formation transition *)
Definition isFormation (t : Transition) : Prop := t_Type t = Formation.
#[export] Instance isFormation_dec t : Decision (isFormation t).
Proof. unfold isFormation. apply _. Defined.
Definition formationOf rv : option (nat * Transition) := list_find isFormation (rv_DatameshTransitions rv).
(** Transition.StartedAt: the zero time when it has not started. *)
Definition StartedAt (t : Transition) : Time :=
  match t_Steps t with s :: _ => default 0 (s_StartedAt s) | [] => 0 end.
Definition newStep (name : string) : TransitionStep :=
  {| s_Name := name; s_Status := StepPending; s_DatameshRevision := 0; s_StartedAt := None; s_CompletedAt := None; s_Message := "" |}.
Definition newFormation (planID : string) (now : Time) : Transition :=
  let names := if String.eqb planID formationPlanAdopt then adoptStepNames else formationStepNames in
  {| t_Type := Formation; t_ReplicaName := ""; t_ReplicaType := ReplicaTypeOther ""; t_FromReplicaType := ReplicaTypeOther "";
     t_ToReplicaType := ReplicaTypeOther ""; t_FromSystemNetworkNames := []; t_ToSystemNetworkNames := [];
     t_Group := GroupFormation; t_PlanID := planID;
     t_Steps := alter (λ s, with_started now (with_status StepActive s)) 0%nat (map newStep names) |}.
(** A step of the transition is changed in place. *)
Definition onStep rv (idx : nat) (f : TransitionStep → TransitionStep) : ReplicatedVolume :=
  match formationOf rv with
  | Some (i, t) => rv <| rv_DatameshTransitions := <[i := set_t_Steps (alter f idx (t_Steps t)) t]> (rv_DatameshTransitions rv) |>
  | None => rv
  end.
(** [t.Steps[idx]]: panics when there is no such step. *)
Definition theStep rv (idx : nat) : outcome TransitionStep :=
  match formationOf rv with Some (_, t) => index (t_Steps t) idx | None => Panic "runtime error: invalid memory address or nil pointer dereference" end.
Definition applyFormationTransitionAbsent rv : bool * ReplicatedVolume :=
  match formationOf rv with
  | Some (i, _) => (true, rv <| rv_DatameshTransitions := delete i (rv_DatameshTransitions rv) |>)
  | None => (false, rv)
  end.

(** ** The volume and whether it changed *)
Definition fstate : Type := ReplicatedVolume * bool.
(** applyDatameshTransitionStepMessage *)
Definition say (idx : nat) (msg : string) (s : fstate) : fstate :=
  match theStep s.1 idx with
  | Ok st => if String.eqb (s_Message st) msg then s else (onStep s.1 idx (with_message msg), true)
  | _ => s
  end.
(** applyDatameshReplicaRequestMessages *)
Definition tell (ids : IDSet) (msg : string) (s : fstate) : fstate :=
  let '(c, rv) := applyDatameshReplicaRequestMessages s.1 ids msg in (rv, c || s.2).

(** ** Sets of replicas *)
Definition rvrIDs rvrs (p : ReplicatedVolumeReplica → bool) : IDSet := FromWhere rvr_ID rvrs p.
Definition ofType (ty : ReplicaType) rvr : bool := bool_decide (rvr_Spec_Type rvr = ty).
Definition activeOf (ty : ReplicaType) rvrs : IDSet :=
  rvrIDs rvrs (λ r, ofType ty r && bool_decide (rvr_DeletionTimestamp r = None)).
Definition deletingIDs rvrs : IDSet := rvrIDs rvrs isDeleting.
Definition misplacedIDs rvrs : IDSet :=
  rvrIDs rvrs (λ r, bool_decide (rvr_DeletionTimestamp r = None) &&
    chk_Eval (ObservedGenerationCurrent (IsFalse (StatusCondition r CondSatisfyEligibleNodesType)))).
Definition isScheduled rvr : bool := chk_Eval (ObservedGenerationCurrent (IsTrue (StatusCondition rvr CondScheduledType))).
Definition isPreconfigured rvr : bool :=
  match rvr_DatameshRequest rvr with
  | Some q => bool_decide (mr_Operation q = OpJoin) &&
              chk_Eval (ObservedGenerationCurrent (ReasonEqual ReasonPendingDatameshJoin (StatusCondition rvr CondDRBDConfiguredType)))
  | None => false
  end.
Definition schedulingFailedIDs rvrs (waitingScheduling : IDSet) : IDSet :=
  rvrIDs rvrs (λ r, Contains waitingScheduling (rvr_ID r) && chk_Eval (IsFalse (StatusCondition r CondScheduledType))).
Definition missingAddresses rvrs (replicas : IDSet) (requiredNetworks : list string) : IDSet :=
  rvrIDs rvrs (λ r, Contains replicas (rvr_ID r) &&
    negb (countb (λ a, slices_Contains requiredNetworks (a_SystemNetworkName a)) (rvr_Addresses r) =? Z.of_nat (length requiredNetworks))).
Definition insufficientSize rvrs (replicas : IDSet) (size : Quantity) : IDSet :=
  rvrIDs rvrs (λ r, Contains replicas (rvr_ID r) &&
    match rvr_BackingVolume r ≫= bv_Size with
    | Some q => q_Cmp (UsableSize q) size <? 0
    | None => false
    end).
Definition eligibleNode rsp (nodeName : string) : option EligibleNode := FindEligibleNode (asRSP rsp) nodeName.
Definition notEligible rvrs (replicas : IDSet) rsp : IDSet :=
  rvrIDs rvrs (λ r, Contains replicas (rvr_ID r) && bool_decide (eligibleNode rsp (rvr_Spec_NodeName r) = None)).
Definition specMismatch rvrs (replicas : IDSet) : IDSet :=
  rvrIDs rvrs (λ r, Contains replicas (rvr_ID r) &&
    match rvr_DatameshRequest r with
    | None => false
    | Some q => negb (bool_decide (rvr_Spec_Type r = mr_Type q)) || negb (String.eqb (rvr_Spec_LVMVolumeGroupName r) (mr_LVMVolumeGroupName q)) ||
                negb (String.eqb (rvr_Spec_LVMVolumeGroupThinPoolName r) (mr_ThinPoolName q))
    end).
(** Excess replicas are dropped one at a time: the greatest ID among the least advanced. *)
Fixpoint trimExcess (fuel : nat) (scheduled preconfigured : IDSet) (target : Z) (s : IDSet) : outcome IDSet :=
  if Len s <=? target then Ok s
  else match fuel with
       | O => OutOfFuel
       | Datatypes.S fuel =>
           let ns := Difference s scheduled in
           let np := Difference s preconfigured in
           let candidates := if negb (IsEmpty ns) then ns else if negb (IsEmpty np) then np else s in
           trimExcess fuel scheduled preconfigured target (Remove s (Max candidates))
       end.

(** ** Members *)
Definition memberIDs rv (p : DatameshMemberType → bool) : IDSet := FromWhere m_ID (rv_Members rv) (λ m, p (m_Type m)).
Definition zoneOf rsp (nodeName : string) : string := match eligibleNode rsp nodeName with Some en => en_ZoneName en | None => "" end.
(** Every replica in the set joins with the type and volumes of its request. *)
Fixpoint joinMembers rv rsp (members : IDSet) rvrs : outcome ReplicatedVolume :=
  match rvrs with
  | [] => Ok rv
  | r :: rvrs =>
      if negb (Contains members (rvr_ID r)) then joinMembers rv rsp members rvrs
      else
        q ← deref (rvr_DatameshRequest r);
        let m := {| m_Name := rvr_Name r; m_Type := MemberTypeOfReplicaType (mr_Type q); m_NodeName := rvr_Spec_NodeName r;
                    m_Zone := zoneOf rsp (rvr_Spec_NodeName r); m_Addresses := rvr_Addresses r;
                    m_LVMVolumeGroupName := mr_LVMVolumeGroupName q; m_LVMVolumeGroupThinPoolName := mr_ThinPoolName q;
                    m_Attached := false |} in
        joinMembers (applyDatameshMember rv m).2 rsp members rvrs
  end.
(** Every replica in the set is taken over as it is. *)
Definition adoptedMember rsp rvr : DatameshMember :=
  {| m_Name := rvr_Name rvr; m_Type := MemberTypeOfReplicaType (rvr_Spec_Type rvr); m_NodeName := rvr_Spec_NodeName rvr;
     m_Zone := zoneOf rsp (rvr_Spec_NodeName rvr); m_Addresses := rvr_Addresses rvr;
     m_LVMVolumeGroupName := rvr_Spec_LVMVolumeGroupName rvr; m_LVMVolumeGroupThinPoolName := rvr_Spec_LVMVolumeGroupThinPoolName rvr;
     m_Attached := bool_decide (is_Some (rvr_Attachment rvr)) |}.
Definition adoptMembers rv rsp (all : IDSet) rvrs : ReplicatedVolume :=
  foldl (λ rv r, if Contains all (rvr_ID r) then (applyDatameshMember rv (adoptedMember rsp r)).2 else rv) rv rvrs.

(** ** computeActualTieBreakerReadiness *)
Definition tieBreakerPeers rv rvrs : list TieBreakerPeer :=
  omap (λ m, if ConnectsToAllPeers (m_Type m)
             then Some {| tp_ID := m_ID m; tp_Name := m_Name m; tp_RVR := findRVRByName rvrs (m_Name m) |} else None) (rv_Members rv).
Definition computeActualTieBreakerReadiness rv rvrs : IDSet * string :=
  let activeTieBreakers := activeOf ReplicaTypeTieBreaker rvrs in
  let memberTieBreakers := memberIDs rv (λ ty, bool_decide (ty = MemberTypeTieBreaker)) in
  if negb (memberTieBreakers =? activeTieBreakers) then
    (Union memberTieBreakers activeTieBreakers,
     "Datamesh tie-breaker members mismatch: datamesh has [" +:+ idset.String memberTieBreakers +:+
     "], but active tie-breaker replicas are [" +:+ idset.String activeTieBreakers +:+ "]")
  else if IsEmpty activeTieBreakers then (0, "")
  else
    let peers := tieBreakerPeers rv rvrs in
    let verdicts := omap (λ r, if Contains activeTieBreakers (rvr_ID r)
                               then let '(ok, why) := IsTieBreakerOperational (Some r) peers (rv_DatameshRevision rv) in
                                    if ok : bool then None else Some (rvr_ID r, rvr_Name r +:+ ": " +:+ why)
                               else None) rvrs in
    let notReady := FromAll fst verdicts in
    if IsEmpty notReady then (0, "")
    else (notReady, "Waiting for tie-breakers [" +:+ idset.String notReady +:+ "] to become operational: " +:+
                    join "; " (sort_by string_leb (map snd verdicts))).
End formation.
End formation.
