(* ===== verification/FormationSteps.v ===== *)
(** * rv_controller: the steps of a formation

    Source: rv_controller/reconciler_formation.go, the reconcile methods. *)

From Stdlib Require Import ZArith Lia String.
From stdpp Require Import base gmap list numbers strings option.
From S2P Require Import Prelude IdSet DrbdSize Api Object Storage Flow Client Dmte Context Helpers Layout Rollout Replicas RvaStatus Lifecycle Formation.
Import idset drbd_size v1alpha1 dmte datamesh objutilv1 storage flow client helpers layout rollout replicas rva_status lifecycle formation.

Module formation_steps.
Section steps.
Context {K : K8s} {Meta : MetaApi} {S : Server}.
Implicit Types (rv : ReplicatedVolume) (rvr : ReplicatedVolumeReplica) (rvrs : list ReplicatedVolumeReplica)
  (rvas : list ReplicatedVolumeAttachment) (m : DatameshMember) (rsp : rspView) (rsc : option ReplicatedStorageClass).

(** The volume and its replicas as they are left, and the outcome. *)
Definition fresult : Type := ReplicatedVolume * list ReplicatedVolumeReplica * ReconcileOutcome.
Definition endedF (r : fresult) : fresult := (r.1, OnEnd r.2).

(** ensureFormationTransition *)
Definition ensureFormationTransition rv (planID : string) : M (ReplicatedVolume * bool) :=
  match formationOf rv with
  | Some _ => mret (rv, false)
  | None =>
      now ← do Now;
      mret (rv <| rv_DatameshTransitions := rv_DatameshTransitions rv ++ [newFormation planID now] |>, true)
  end.
(** [t.Steps[fromIdx+1]] panics after the last step. *)
Definition advanceFormationStep rv (fromIdx : nat) : M ReplicatedVolume :=
  now ← do Now;
  _ ← lift (theStep rv fromIdx);
  _ ← lift (theStep rv (Datatypes.S fromIdx));
  let rv := onStep rv fromIdx (λ s, with_message "" (with_completed now (with_status StepCompleted s))) in
  mret (onStep rv (Datatypes.S fromIdx) (λ s, with_started now (with_status StepActive s))).
Definition generateSharedSecret : M (error + string) :=
  r ← do RandRead; mret (match r with inl e => inl (Wrapped "generate shared secret" e) | inr s => inr s end).
Definition resolveAdoptSharedSecret rv : M (error + string) :=
  match rv_Annotations rv !! AdoptSharedSecretAnnotationKey with
  | None => generateSharedSecret
  | Some secret =>
      if String.eqb secret "" then mret (inl (Leaf ("annotation " +:+ AdoptSharedSecretAnnotationKey +:+ " is set but empty") false))
      else if maxSharedSecretLen <? Z.of_nat (String.length secret)
      then mret (inl (Leaf ("annotation " +:+ AdoptSharedSecretAnnotationKey +:+ " value exceeds " +:+ itoa maxSharedSecretLen +:+ " characters") false))
      else mret (inr secret)
  end.

(** ** Restart *)
(** time.Since saturates. *)
Definition since (now start : Time) : Z := Z.max (- 2 ^ 63) (Z.min (2 ^ 63 - 1) (now - start)).
(** "Reset datamesh state only." *)
Definition resetDatamesh rv : ReplicatedVolume :=
  rv <| rv_DatameshRevision := 0 |> <| rv_SharedSecret := "" |> <| rv_SharedSecretAlg := "" |> <| rv_Quorum := 0 |>
     <| rv_QuorumMinimumRedundancy := 0 |> <| rv_Multiattach := false |> <| rv_SystemNetworkNames := [] |>
     <| rv_Size := NewQuantity 0 |> <| rv_Members := [] |> <| rv_BaselineGMDR := 0 |> <| rv_DatameshTransitions := [] |>
     <| rv_DatameshReplicaRequests := [] |>.
Definition opName rv : string := rv_Name rv +:+ "-formation".
Definition restartNow rv rvrs rsc : M fresult :=
  op ← getDRBDROp (opName rv);
  match op with
  | inl e => mret (rv, rvrs, fail e ("getting DRBDResourceOperation " +:+ opName rv))
  | inr op =>
      e ← match op with Some op => deleteDRBDROp op | None => mret None end;
      match e with
      | Some e => mret (rv, rvrs, fail e ("deleting DRBDResourceOperation " +:+ opName rv))
      | None =>
          '(rvrs, r) ← rangeM forceDelete rvrs;
          match r with
          | Some o => mret (rv, rvrs, o)
          | None =>
              '(rv, o) ← reconcileRVConfiguration (resetDatamesh rv) rsc;
              mret (rv, rvrs, if ShouldReturn o then o else ReportChangedIf ContinueAndRequeue true)
          end
      end
  end.
Definition reconcileFormationRestartIfTimeoutPassed rv rvrs rsc (timeout : Z) : M fresult :=
  endedF <$>
  (formationStartedAt ← lift (match formationOf rv with Some (_, t) => Ok (StartedAt t) | None => Panic "runtime error: invalid memory address or nil pointer dereference" end);
   now ← do Now;
   let elapsed := since now formationStartedAt in
   if elapsed <? timeout then o ← lift (ContinueAndRequeueAfter (wrapS64 (timeout - elapsed))); mret (rv, rvrs, o)
   else restartNow rv rvrs rsc).
(** [return r.reconcileFormationRestartIfTimeoutPassed(...).ReportChangedIf(changed)] *)
Definition wait (s : fstate) rvrs rsc (timeout : Z) : M fresult :=
  '(rv, rvrs, o) ← reconcileFormationRestartIfTimeoutPassed s.1 rvrs rsc timeout;
  mret (rv, rvrs, ReportChangedIf o s.2).
Definition proceed (s : fstate) rvrs : M fresult := mret (s.1, rvrs, ReportChangedIf ContinueAndRequeue s.2).

(** ** create/v1: Bootstrap data *)
Definition isThick rsp : bool := bool_decide (rspv_Type rsp = PoolLVM).
Definition isThin rsp : bool := bool_decide (rspv_Type rsp = PoolLVMThin).
Definition bootstrapParams (single : bool) rsp : CreateNewUUIDParams :=
  {| cu_ClearBitmap := single || isThin rsp; cu_ForceResync := negb single && isThick rsp |}.
(** A minute, and the time to transfer the volume at 100 Mbit/s when it is transferred. *)
Definition dataBootstrapTimeout rv (single : bool) rsp : Z :=
  if negb single && isThick rsp
  then wrapS64 (60 * second + wrapS64 (Z.quot (q_Value (rv_Size rv)) 12500000 * second)) else 60 * second.
Definition upToDateIDs rvrs (ids : IDSet) : IDSet :=
  rvrIDs rvrs (λ r, Contains ids (rvr_ID r) &&
    match rvr_BackingVolume r with Some b => String.eqb (bv_State b) DiskStateUpToDate | None => false end).
Definition zeroOp : DRBDResourceOperation :=
  {| op_Name := ""; op_CreationTimestamp := 0; op_DeletionTimestamp := None; op_NodeName := ""; op_DRBDResourceName := "";
     op_Type := OperationOther ""; op_CreateNewUUID := None; op_Phase := OperationPhaseOther ""; op_Message := "";
     op_StartedAt := None; op_CompletedAt := None |}.
Definition newOp rv rvr (params : CreateNewUUIDParams) : DRBDResourceOperation :=
  {| op_Name := opName rv; op_CreationTimestamp := 0; op_DeletionTimestamp := None; op_NodeName := rvr_Spec_NodeName rvr;
     op_DRBDResourceName := rvr_Name rvr; op_Type := OperationCreateNewUUID; op_CreateNewUUID := Some params;
     op_Phase := OperationPhaseOther ""; op_Message := "";
     op_StartedAt := None; op_CompletedAt := None |}.
(** FormatReplicatedVolumeReplicaName panics for no ID of a set. *)
Definition targetsOneOf rv (ids : IDSet) (op : DRBDResourceOperation) : bool :=
  existsb (λ id, match FormatReplicatedVolumeReplicaName (rv_Name rv) id with Ok n => String.eqb (op_DRBDResourceName op) n | _ => false end) (All ids).
Definition opAsExpected rv (ids : IDSet) (params : CreateNewUUIDParams) (op : DRBDResourceOperation) : bool :=
  bool_decide (op_Type op = OperationCreateNewUUID) && targetsOneOf rv ids op && bool_decide (op_CreateNewUUID op = Some params).
(** An operation of an earlier formation is deleted. *)
Definition currentOp rv (startedAt : Time) : M (ReconcileOutcome + option DRBDResourceOperation) :=
  op ← getDRBDROp (opName rv);
  match op with
  | inl e => mret (inl (fail e ("getting DRBDResourceOperation " +:+ opName rv)))
  | inr (Some op) =>
      if op_CreationTimestamp op <? startedAt then
        e ← deleteDRBDROp op;
        mret (match e with
              | Some e => inl (fail e ("deleting stale DRBDResourceOperation " +:+ opName rv))
              | None => inr None
              end)
      else mret (inr (Some op))
  | inr None => mret (inr None)
  end.
(** "Create DRBDResourceOperation for data bootstrap if it doesn't exist yet": the operation, or the
    early return. *)
Definition createOp rv rvrs (dmDiskful : IDSet) (params : CreateNewUUIDParams) : M (ReconcileOutcome + DRBDResourceOperation) :=
  match List.find (λ r, rvr_ID r =? Min dmDiskful) rvrs with
  | None => mret (inl (fail (Leaf ("RVR for diskful member id=" +:+ itoa (Min dmDiskful) +:+ " not found") false)
                          ("resolving source replica for DRBDResourceOperation " +:+ opName rv)))
  | Some source =>
      r ← createDRBDROp rv (newOp rv source params);
      mret (match r with
            | Replied op => inr op
            | AlreadyExists _ => inl DoneAndRequeue
            | NotFound e | Refused e => inl (fail e ("creating DRBDResourceOperation " +:+ opName rv))
            end)
  end.
(** What follows once the operation is there. *)
Definition awaitData rv rvrs rsp rsc (dmDiskful : IDSet) (op : DRBDResourceOperation) : M fresult :=
  let single := Len dmDiskful =? 1 in
  let timeout := dataBootstrapTimeout rv single rsp in
  let mode := if negb single && isThick rsp
    then "Full data synchronization from source replica " +:+ op_DRBDResourceName op +:+ ". Timeout: " +:+ duration.Duration_String timeout
    else "Fast mode: data is assumed identical, no synchronization required" in
  let s : fstate := (rv, false) in
  if bool_decide (op_Phase op = OperationFailed) then
    let s := say 2 "Data bootstrap operation failed, restarting formation" s in
    wait (tell dmDiskful "Datamesh is forming, restarting due to failed data bootstrap operation" s) rvrs rsc (30 * second)
  else if negb (bool_decide (op_Phase op = OperationSucceeded)) then
    let s := say 2 ("Data bootstrap initiated, waiting for operation to complete. " +:+ mode) s in
    wait (tell dmDiskful "Datamesh is forming, waiting for data bootstrap to complete" s) rvrs rsc timeout
  else
    let upToDate := upToDateIDs rvrs dmDiskful in
    if negb (upToDate =? dmDiskful) then
      let notUpToDate := Difference dmDiskful upToDate in
      let s := say 2 ("Data bootstrap in progress, waiting for replicas [" +:+ idset.String notUpToDate +:+ "] to reach UpToDate state. " +:+ mode) s in
      let s := tell notUpToDate "Datamesh is forming, data bootstrap in progress, waiting for backing volume to become UpToDate" s in
      let s := tell upToDate "Datamesh is forming, data bootstrap in progress, replica is UpToDate, waiting for remaining replicas" s in
      wait s rvrs rsc timeout
    else
      let '(notReady, msg) := computeActualTieBreakerReadiness rv rvrs in
      if negb (String.eqb msg "") then
        let s := say 2 msg s in
        let s := tell notReady "Tie-breaker is not operational, blocking datamesh formation completion" s in
        proceed (tell dmDiskful "Datamesh is forming, waiting for the tie-breaker to become operational" s) rvrs
      else
        let '(c, rv) := applyFormationTransitionAbsent rv in proceed (rv, c) rvrs.
Definition reconcileFormationStepBootstrapData rv rvrs rsp rsc : M fresult :=
  endedF <$>
  (_ ← lift (theStep rv 2);
   let dmDiskful := memberIDs rv (λ ty, bool_decide (ty = MemberTypeDiskful)) in
   let startedAt := match formationOf rv with Some (_, t) => StartedAt t | None => 0 end in
   cur ← currentOp rv startedAt;
   match cur with
   | inl o => mret (rv, rvrs, o)
   | inr cur =>
       let params := bootstrapParams (Len dmDiskful =? 1) rsp in
       match cur with
       | None =>
           op ← createOp rv rvrs dmDiskful params;
           match op with inl o => mret (rv, rvrs, o) | inr op => awaitData rv rvrs rsp rsc dmDiskful op end
       | Some op =>
           if negb (opAsExpected rv dmDiskful params op) then
             let s := say 2 "Existing DRBDResourceOperation has unexpected parameters, restarting formation" (rv, false) in
             wait (tell dmDiskful "Datamesh is forming, restarting due to data bootstrap operation parameter mismatch" s) rvrs rsc (30 * second)
           else awaitData rv rvrs rsp rsc dmDiskful op
       end
   end).

(** ** create/v1: Establish connectivity *)
Definition forming_ : string := "Datamesh is forming, ".
(** "Replicas need shared secret to establish peer connections", and the members are added. *)
Definition populate rv rvrs rsp (members : IDSet) (secret : string) : outcome ReplicatedVolume :=
  let rv := rv <| rv_SharedSecretAlg := SharedSecretAlgSHA256 |> <| rv_SharedSecret := secret |> in
  rv ← joinMembers rv rsp members rvrs;
  cfg ← deref (rv_Configuration rv);
  let rv := rv <| rv_BaselineGMDR := cfg_GuaranteedMinimumDataRedundancy cfg |> in
  '(quorum, qmr) ← computeTargetQuorum rv;
  let rv := rv <| rv_Quorum := quorum |> <| rv_QuorumMinimumRedundancy := qmr |>
               <| rv_DatameshRevision := wrapS64 (rv_DatameshRevision rv + 1) |> in
  let rv := onStep rv 1 (with_revision (rv_DatameshRevision rv)) in
  let s := tell members (forming_ +:+ "waiting for replica to apply new configuration") (rv, true) in
  Ok (say 1 ("Replicas [" +:+ idset.String members +:+ "] preconfigured and added to datamesh. Waiting for them to establish connections") s).1.
Definition configuredIDs rv rvrs (ids : IDSet) : IDSet :=
  rvrIDs rvrs (λ r, Contains ids (rvr_ID r) && (rvr_DatameshRevision r =? rv_DatameshRevision rv) &&
    chk_Eval (ObservedGenerationCurrent (IsTrue (StatusCondition r CondDRBDConfiguredType)))).
(** The diskful peers of a replica that satisfy the test. *)
Definition diskfulPeers (test : PeerStatus → bool) rvr : IDSet :=
  FromWhere p_ID (rvr_Peers rvr) (λ p, bool_decide (p_Type p = ReplicaTypeDiskful) && test p).
Definition fullyPeered rvrs (diskful : IDSet) (test : PeerStatus → bool) (also : ReplicatedVolumeReplica → bool) : IDSet :=
  rvrIDs rvrs (λ r, Contains diskful (rvr_ID r) && also r &&
    (diskfulPeers test r =? Difference diskful (Of [rvr_ID r]))).
Definition connectedIDs rvrs (diskful : IDSet) : IDSet :=
  fullyPeered rvrs diskful (λ p, String.eqb (p_ConnectionState p) ConnectionStateConnected) (λ _, true).
Definition readyForBootstrapIDs rvrs (diskful : IDSet) : IDSet :=
  fullyPeered rvrs diskful (λ p, String.eqb (p_ReplicationState p) ReplicationStateEstablished)
    (λ r, match rvr_BackingVolume r with Some b => String.eqb (bv_State b) DiskStateInconsistent | None => false end).
Definition reconcileFormationStepEstablishConnectivity rv rvrs rsp rsc : M fresult :=
  endedF <$>
  (_ ← lift (theStep rv 1);
   let diskful := activeOf ReplicaTypeDiskful rvrs in
   let members := Union diskful (activeOf ReplicaTypeTieBreaker rvrs) in
   let s : fstate := (rv, false) in
   let restart s := wait s rvrs rsc (30 * second) in
   match rv_Members rv with
   | [] =>
       let missingRequest := rvrIDs rvrs (λ r, Contains members (rvr_ID r) && bool_decide (rvr_DatameshRequest r = None)) in
       if negb (IsEmpty missingRequest) then
         restart (say 1 ("Waiting for replicas [" +:+ idset.String missingRequest +:+
           "] to report a datamesh membership request before joining the datamesh. If not resolved automatically, formation will be restarted") s)
       else
         secret ← generateSharedSecret;
         match secret with
         | inl e => mret (rv, rvrs, failed e)
         | inr secret => rv ← lift (populate rv rvrs rsp members secret); mret (rv, rvrs, ReportChangedIf Continue true)
         end
   | _ =>
       let dmDiskful := memberIDs rv (λ ty, bool_decide (ty = MemberTypeDiskful)) in
       let configured := configuredIDs rv rvrs diskful in
       let connected := connectedIDs rvrs diskful in
       let '(notReadyTieBreakers, tbMsg) := computeActualTieBreakerReadiness rv rvrs in
       let ready := readyForBootstrapIDs rvrs diskful in
       if negb (dmDiskful =? diskful) then
         let msg := "Datamesh members mismatch: datamesh has [" +:+ idset.String dmDiskful +:+ "], but active RVRs are [" +:+
           idset.String diskful +:+ "]. This may be caused by manual intervention during formation. If not resolved automatically, formation will be restarted" in
         restart (tell diskful msg (say 1 msg s))
       else if negb (configured =? diskful) then
         let notConfigured := Difference diskful configured in
         let s := say 1 ("Waiting for replicas [" +:+ idset.String notConfigured +:+ "] to be fully configured for datamesh revision " +:+ itoa (rv_DatameshRevision rv)) s in
         let s := tell notConfigured (forming_ +:+ "waiting for DRBD configuration to continue") s in
         restart (tell configured (forming_ +:+ "DRBD configured, waiting for other replicas") s)
       else if negb (connected =? diskful) then
         let s := say 1 ("Waiting for replicas [" +:+ idset.String (Difference diskful connected) +:+ "] to establish connections with all peers") s in
         restart (tell diskful (forming_ +:+ "waiting for all replicas to connect to each other") s)
       else if negb (String.eqb tbMsg "") then
         let s := say 1 tbMsg s in
         let s := tell notReadyTieBreakers "Tie-breaker is not operational yet, blocking datamesh formation" s in
         restart (tell (Difference members notReadyTieBreakers) (forming_ +:+ "waiting for the tie-breaker to become operational") s)
       else if negb (ready =? diskful) then
         let notReady := Difference diskful ready in
         let s := say 1 ("Waiting for replicas [" +:+ idset.String notReady +:+
           "] to be ready for data bootstrap (backing volume Inconsistent + Established replication with all peers)") s in
         let s := tell notReady (forming_ +:+ "waiting for data bootstrap readiness (requires backing volume Inconsistent and replication Established with all peers)") s in
         restart (tell ready (forming_ +:+ "ready for data bootstrap, waiting for other replicas") s)
       else
         rv ← advanceFormationStep rv 1;
         reconcileFormationStepBootstrapData rv rvrs rsp rsc
   end).

(** ** create/v1: Preconfigure *)
Definition initDatamesh rv rsp (idx : nat) (msg : string) : ReplicatedVolume :=
  let rv := rv <| rv_DatameshRevision := 1 |> <| rv_SystemNetworkNames := rspv_SystemNetworkNames rsp |>
               <| rv_Size := AlignTo4Ki (rv_Spec_Size rv) |> in
  (say idx msg (onStep rv idx (with_revision 1), true)).1.
(** [for set.Len() < target]: one replica per iteration; the replica created comes from the response. *)
Fixpoint createMissing (fuel : nat) rv (typ : ReplicaType) (target : Z) (failure : string) (set : IDSet) rvrs :
    M (list ReplicatedVolumeReplica * (ReconcileOutcome + IDSet)) :=
  if target <=? Len set then mret (rvrs, inr set)
  else match fuel with
       | O => lift OutOfFuel
       | Datatypes.S fuel =>
           new ← lift (newRVR rv rvrs typ "");
           match new with
           | inl e => mret (rvrs, inl (fail e failure))
           | inr rvr =>
               e ← do (ControllerRef rvr rv);
               match e with
               | Some e => mret (rvrs, inl (fail e failure))
               | None =>
                   r ← createRVR rvr;
                   match r with
                   | Replied rvr =>
                       rvrs ← lift (insertRVRSorted rvrs rvr);
                       createMissing fuel rv typ target failure (Add set (rvr_ID rvr)) rvrs
                   | AlreadyExists _ => mret (rvrs, inl DoneAndRequeue)
                   | NotFound e | Refused e => mret (rvrs, inl (fail e failure))
                   end
               end
           end
       end.
(** At most as many iterations as IDs. *)
Definition createFuel : nat := 33.
Definition createBoth rv rvrs (diskful tiebreakers : IDSet) (targetD targetTB : Z) :
    M (list ReplicatedVolumeReplica * (ReconcileOutcome + IDSet * IDSet)) :=
  '(rvrs, r) ← createMissing createFuel rv ReplicaTypeDiskful targetD "creating diskful RVR" diskful rvrs;
  match r with
  | inl o => mret (rvrs, inl o)
  | inr diskful =>
      '(rvrs, r) ← createMissing createFuel rv ReplicaTypeTieBreaker targetTB "creating tie-breaker RVR" tiebreakers rvrs;
      mret (rvrs, match r with inl o => inl o | inr tiebreakers => inr (diskful, tiebreakers) end)
  end.
(** "Delete all replicas not participating in formation". *)
Definition dropOthers (formationReplicas : IDSet) rvr : M (ReplicatedVolumeReplica * option ReconcileOutcome) :=
  if Contains formationReplicas (rvr_ID rvr) then mret (rvr, None) else forceDelete rvr.
Definition shouldNot : string := "This should not happen during normal formation. If not resolved automatically, formation will be restarted".
(** The gates, in order: what is said when one is closed. *)
Definition preconfigureGates rv rvrs rsp (scheduled preconfigured diskful tiebreakers : IDSet) (targetCount : Z) (s : fstate) : option fstate :=
  let formationReplicas := Union diskful tiebreakers in
  let deleting := deletingIDs rvrs in
  let waitingScheduling := Difference formationReplicas scheduled in
  let schedulingFailed := schedulingFailedIDs rvrs waitingScheduling in
  let waitingPreconfiguration := Difference (Intersect scheduled formationReplicas) preconfigured in
  let requiredNetworks := rv_SystemNetworkNames rv in
  let missing := missingAddresses rvrs formationReplicas requiredNetworks in
  let stray := notEligible rvrs formationReplicas rsp in
  let mismatch := specMismatch rvrs formationReplicas in
  let small := insufficientSize rvrs diskful (rv_Size rv) in
  let blocked all bad say0 ok why := Some (tell bad why (tell (Difference all bad) (forming_ +:+ ok) (say 0 say0 s))) in
  if negb (IsEmpty deleting) then
    Some (tell diskful (forming_ +:+ "waiting for replica cleanup to complete")
      (say 0 ("Waiting for " +:+ itoa (Len deleting) +:+ " deleting replicas [" +:+ idset.String deleting +:+
              "] to be fully removed before proceeding with formation") s))
  else if negb (IsEmpty waitingScheduling) || negb (IsEmpty waitingPreconfiguration) then
    Some (tell preconfigured (forming_ +:+ "waiting for other replicas to become preconfigured")
      (say 0 (computeFormationPreconfigureWaitMessage rvrs targetCount (Difference waitingScheduling schedulingFailed)
                schedulingFailed waitingPreconfiguration) s))
  else if negb (IsEmpty missing) then
    blocked formationReplicas missing
      ("Address configuration mismatch: replicas [" +:+ idset.String missing +:+ "] do not have addresses for all required networks " +:+
       fmt_strings requiredNetworks +:+ ". " +:+ shouldNot)
      "waiting for other replicas to report required addresses"
      "Replica addresses do not match required network configuration, blocking datamesh formation"
  else if negb (IsEmpty stray) then
    blocked formationReplicas stray
      ("Replicas [" +:+ idset.String stray +:+ "] are placed on nodes not in eligible nodes list. " +:+ shouldNot)
      "waiting for other replicas to be on eligible nodes"
      "Replica is placed on a node not in the eligible nodes list, blocking datamesh formation"
  else if negb (IsEmpty mismatch) then
    blocked formationReplicas mismatch
      ("Replicas [" +:+ idset.String mismatch +:+ "] have spec changes that don't match pending transition. " +:+
       "This may indicate spec changed during formation. If not resolved automatically, formation will be restarted")
      "waiting for other replicas to resolve spec mismatch"
      "Replica spec does not match pending transition, blocking datamesh formation"
  else if negb (IsEmpty small) then
    blocked diskful small
      ("Replicas [" +:+ idset.String small +:+ "] have insufficient backing volume size for datamesh (required: " +:+
       q_String (rv_Size rv) +:+ "). " +:+ shouldNot)
      "waiting for other replicas to resolve backing volume size issue"
      "Replica backing volume size is insufficient for datamesh, blocking formation"
  else None.
Definition reconcileFormationStepPreconfigure rv rvrs rsp rsc (created : bool) : M fresult :=
  endedF <$>
  (_ ← lift (theStep rv 0);
   let rv := if created then initDatamesh rv rsp 0 "Starting preconfigure" else rv in
   let misplaced := misplacedIDs rvrs in
   let deleting := deletingIDs rvrs in
   let diskful := Difference (Difference (rvrIDs rvrs (ofType ReplicaTypeDiskful)) misplaced) deleting in
   let tiebreakers := Difference (Difference (rvrIDs rvrs (ofType ReplicaTypeTieBreaker)) misplaced) deleting in
   cfg ← lift (deref (rv_Configuration rv));
   let targetD := wrap8 (IntendedLayout cfg).1 in
   let targetTB := wrap8 (IntendedLayout cfg).2 in
   '(rvrs, r) ← if IsEmpty deleting && IsEmpty misplaced then createBoth rv rvrs diskful tiebreakers targetD targetTB
                else mret (rvrs, inr (diskful, tiebreakers));
   match r with
   | inl o => mret (rv, rvrs, o)
   | inr (diskful, tiebreakers) =>
       let scheduled := rvrIDs rvrs isScheduled in
       let preconfigured := rvrIDs rvrs isPreconfigured in
       diskful ← lift (trimExcess 32 scheduled preconfigured targetD diskful);
       tiebreakers ← lift (trimExcess 32 scheduled preconfigured targetTB tiebreakers);
       '(rvrs, r) ← rangeM (dropOthers (Union diskful tiebreakers)) rvrs;
       match r with
       | Some o => mret (rv, rvrs, o)
       | None =>
           match preconfigureGates rv rvrs rsp scheduled preconfigured diskful tiebreakers (wrap8 (targetD + targetTB)) (rv, created) with
           | Some s => wait s rvrs rsc (30 * second)
           | None => rv ← advanceFormationStep rv 0; reconcileFormationStepEstablishConnectivity rv rvrs rsp rsc
           end
       end
   end).

(** ** adopt/v1 *)
Definition adoptable rvrs : IDSet :=
  Union (Union (activeOf ReplicaTypeDiskful rvrs) (activeOf ReplicaTypeTieBreaker rvrs)) (activeOf ReplicaTypeAccess rvrs).
Definition inMaintenance rvr : bool := chk_Eval (ReasonEqual ReasonInMaintenance (StatusCondition rvr CondDRBDConfiguredType)).
Definition adoptScheduled rvr : bool :=
  if ofType ReplicaTypeAccess rvr then negb (String.eqb (rvr_Spec_NodeName rvr) "") else isScheduled rvr.
Definition adopting : string := "Datamesh is forming (adopt), ".
Definition memberOfLayoutOrAccess (ty : DatameshMemberType) : bool :=
  bool_decide (ty = MemberTypeDiskful) || bool_decide (ty = MemberTypeTieBreaker) || bool_decide (ty = MemberTypeAccess).

Definition reconcileAdoptStepExitMaintenance rv rvrs : M fresult :=
  endedF <$>
  (_ ← lift (theStep rv 2);
   let dmAll := memberIDs rv memberOfLayoutOrAccess in
   let stillInMaintenance := rvrIDs rvrs (λ r, Contains dmAll (rvr_ID r) && inMaintenance r) in
   if negb (IsEmpty stillInMaintenance) then
     proceed (say 2 ("Waiting for replicas [" +:+ idset.String stillInMaintenance +:+ "] to exit maintenance mode") (rv, false)) rvrs
   else let '(c, rv) := applyFormationTransitionAbsent rv in proceed (rv, c) rvrs).

Definition adoptDatamesh rv rvrs rsp (all : IDSet) : ReplicatedVolume :=
  let rv := adoptMembers rv rsp all rvrs in
  let attachedCount := countb (λ r, Contains all (rvr_ID r) && bool_decide (is_Some (rvr_Attachment r))) rvrs in
  let voters := memberIDs rv IsVoter in
  let rv := rv <| rv_Multiattach := 1 <? attachedCount |> <| rv_BaselineGMDR := 0 |> <| rv_Quorum := wrap8 (Len voters / 2 + 1) |>
               <| rv_QuorumMinimumRedundancy := 1 |> <| rv_DatameshRevision := wrapS64 (rv_DatameshRevision rv + 1) |> in
  let rv := onStep rv 1 (with_revision (rv_DatameshRevision rv)) in
  let s := tell all (adopting +:+ "waiting for replica to apply new configuration") (rv, true) in
  (say 1 ("Replicas [" +:+ idset.String all +:+ "] added to datamesh. Verifying configuration consistency") s).1.
Definition reconcileAdoptStepPopulateAndVerifyDatamesh rv rvrs rsp : M fresult :=
  endedF <$>
  (_ ← lift (theStep rv 1);
   let all := adoptable rvrs in
   let s : fstate := (rv, false) in
   match rv_Members rv with
   | [] =>
       secret ← if String.eqb (rv_SharedSecret rv) "" then resolveAdoptSharedSecret rv else mret (inr (rv_SharedSecret rv));
       match secret with
       | inl e => mret (rv, rvrs, failed e)
       | inr secret =>
           let rv := if String.eqb (rv_SharedSecret rv) ""
                     then rv <| rv_SharedSecretAlg := SharedSecretAlgSHA256 |> <| rv_SharedSecret := secret |> else rv in
           mret (adoptDatamesh rv rvrs rsp all, rvrs, ReportChangedIf Continue true)
       end
   | _ =>
       let '(addressChanged, rv') := ensureDatameshMemberAddresses rv rvrs in
       if addressChanged then mret (rv', rvrs, ReportChangedIf Continue true)
       else
         let observed := rvrIDs rvrs (λ r, Contains all (rvr_ID r) && (rv_DatameshRevision rv <=? rvr_DatameshRevisionObservedByAgent r)) in
         let dmAll := memberIDs rv memberOfLayoutOrAccess in
         if negb (observed =? all) then
           let notObserved := Difference all observed in
           let s := say 1 ("Waiting for replicas [" +:+ idset.String notObserved +:+ "] to observe datamesh revision " +:+ itoa (rv_DatameshRevision rv)) s in
           proceed (tell notObserved (adopting +:+ "waiting for agent to process new configuration") s) rvrs
         else if negb (dmAll =? all) then
           let s := say 1 ("Datamesh members mismatch: datamesh has [" +:+ idset.String dmAll +:+ "], but active RVRs are [" +:+ idset.String all +:+ "]") s in
           proceed (tell all "Datamesh members mismatch, blocking formation" s) rvrs
         else
           rv ← advanceFormationStep rv 1;
           reconcileAdoptStepExitMaintenance rv rvrs
   end).

Definition adoptSchedulingMessage rvrs (all waitingScheduling : IDSet) : string :=
  let schedulingFailed := schedulingFailedIDs rvrs waitingScheduling in
  let pendingScheduling := Difference waitingScheduling schedulingFailed in
  let msgs := computeActualSchedulingFailureMessages rvrs schedulingFailed in
  let parts :=
    (if IsEmpty pendingScheduling then [] else ["pending scheduling [" +:+ idset.String pendingScheduling +:+ "]"]) ++
    (if IsEmpty schedulingFailed then [] else
       ["scheduling failed [" +:+ idset.String schedulingFailed +:+ "]" +:+
        (if bool_decide (msgs = []) then "" else " (" +:+ join " | " msgs +:+ ")")]) in
  "Waiting for " +:+ itoa (Len waitingScheduling) +:+ "/" +:+ itoa (Len all) +:+ " replicas to be scheduled: " +:+ join ", " parts.
(** The gates, in order. *)
Definition adoptGates rv rvrs (s : fstate) : option fstate :=
  let diskful := activeOf ReplicaTypeDiskful rvrs in
  let all := adoptable rvrs in
  let scheduled := rvrIDs rvrs adoptScheduled in
  let waitingScheduling := Difference all scheduled in
  let maintained := rvrIDs rvrs (λ r, Contains all (rvr_ID r) && inMaintenance r) in
  let waitingMaintenance := Difference all maintained in
  let missing := missingAddresses rvrs all (rv_SystemNetworkNames rv) in
  let small := insufficientSize rvrs diskful (rv_Size rv) in
  if negb (IsEmpty waitingScheduling) then
    Some (tell (Intersect scheduled all) (adopting +:+ "waiting for other replicas to be scheduled")
      (say 0 (adoptSchedulingMessage rvrs all waitingScheduling) s))
  else if negb (IsEmpty waitingMaintenance) then
    Some (tell maintained (adopting +:+ "waiting for other replicas to enter maintenance mode")
      (say 0 ("Waiting for " +:+ itoa (Len waitingMaintenance) +:+ "/" +:+ itoa (Len all) +:+ " replicas to enter maintenance mode: [" +:+
              idset.String waitingMaintenance +:+ "]") s))
  else if negb (IsEmpty missing) then
    Some (tell missing "Replica addresses do not match required network configuration, blocking datamesh formation"
      (tell (Difference all missing) (adopting +:+ "waiting for other replicas to report required addresses")
        (say 0 ("Address configuration mismatch: replicas [" +:+ idset.String missing +:+
                "] do not have addresses for all required networks " +:+ fmt_strings (rv_SystemNetworkNames rv)) s)))
  else if negb (IsEmpty small) then
    Some (tell small "Replica backing volume size is insufficient for the requested volume size, blocking formation"
      (tell (Difference diskful small) (adopting +:+ "waiting for other replicas to resolve backing volume size issue")
        (say 0 ("Replicas [" +:+ idset.String small +:+ "] have insufficient backing volume size for the requested volume size (required: " +:+
                q_String (rv_Size rv) +:+ ")") s)))
  else None.
Definition reconcileAdoptStepVerifyPrerequisites rv rvrs rsp (created : bool) : M fresult :=
  endedF <$>
  (_ ← lift (theStep rv 0);
   let rv := if created then initDatamesh rv rsp 0 "Starting adopt: waiting for pre-existing replicas" else rv in
   match adoptGates rv rvrs (rv, created) with
   | Some s => proceed s rvrs
   | None => rv ← advanceFormationStep rv 0; reconcileAdoptStepPopulateAndVerifyDatamesh rv rvrs rsp
   end).

(** ** Dispatch *)
Definition formationStepOf (planID : string) rv rvrs rsp rsc (stepIdx : Z) (created : bool) : M fresult :=
  if String.eqb planID formationPlanAdopt then
    if stepIdx =? 0 then reconcileAdoptStepVerifyPrerequisites rv rvrs rsp created
    else if stepIdx =? 1 then reconcileAdoptStepPopulateAndVerifyDatamesh rv rvrs rsp
    else if stepIdx =? 2 then reconcileAdoptStepExitMaintenance rv rvrs
    else mret (rv, rvrs, failed (Leaf ("invalid adopt formation step index: " +:+ itoa stepIdx) false))
  else if String.eqb planID formationPlanCreate || String.eqb planID "" then
    if stepIdx =? 0 then reconcileFormationStepPreconfigure rv rvrs rsp rsc created
    else if stepIdx =? 1 then reconcileFormationStepEstablishConnectivity rv rvrs rsp rsc
    else if stepIdx =? 2 then reconcileFormationStepBootstrapData rv rvrs rsp rsc
    else mret (rv, rvrs, failed (Leaf ("invalid formation step index: " +:+ itoa stepIdx) false))
  else mret (rv, rvrs, failed (Leaf ("unknown formation plan: " +:+ planID) false)).
Definition knownStep (planID : string) (stepIdx : Z) : bool :=
  (String.eqb planID formationPlanAdopt || String.eqb planID formationPlanCreate || String.eqb planID "") &&
  ((stepIdx =? 0) || (stepIdx =? 1) || (stepIdx =? 2)).
(** An unknown plan or step fails at once; otherwise the attachments are told to wait. *)
Definition reconcileFormation rv rvrs rvas rsp rsc (stepIdx : Z) :
    M (ReplicatedVolume * list ReplicatedVolumeReplica * list ReplicatedVolumeAttachment * ReconcileOutcome) :=
  let planID := if bool_decide (is_Some (rv_Annotations rv !! AdoptRVRAnnotationKey)) then formationPlanAdopt else formationPlanCreate in
  '(rv, created) ← ensureFormationTransition rv planID;
  let planID := match formationOf rv with Some (_, t) => t_PlanID t | None => planID end in
  '(rv, rvrs, o) ← formationStepOf planID rv rvrs rsp rsc stepIdx created;
  if negb (knownStep planID stepIdx) then mret (rv, rvrs, rvas, OnEnd o)
  else
    '(rvas, o') ← reconcileRVAWaiting rvas "Datamesh formation is in progress";
    mret (rv, rvrs, rvas, OnEnd (Merge o [o'])).
End steps.
End formation_steps.
