(* ===== verification/Controller.v ===== *)
(** * rv_controller: one reconciliation of a volume

    Source: rv_controller/reconciler.go, Reconcile and getRSP.

    Metrics are not modelled: the observations have no effect on the objects or on the outcome. *)

From Stdlib Require Import ZArith Lia String.
From stdpp Require Import base gmap list numbers strings option.
From S2P Require Import Prelude IdSet DrbdSize Api Object Storage Flow Client.
From S2P Require Import Dmte Context Datamesh Layout Rollout Requests Replicas RvaStatus Lifecycle Formation FormationSteps.
Import idset v1alpha1 dmte datamesh process objutilv1 storage flow client layout rollout requests replicas rva_status lifecycle
  formation formation_steps.

Module controller.
Section controller.
Context {K : K8s} {Meta : MetaApi} {S : Server}.
Implicit Types (rv : ReplicatedVolume) (rvrs : list ReplicatedVolumeReplica) (rvas : list ReplicatedVolumeAttachment)
  (rsc : option ReplicatedStorageClass).

(** The registry that BuildRegistry stored in the package. *)
Context (registry : option (Registry globalContext rptr)).

Definition getRSP (rspName : string) rvrs rvas : M (error + rspView) :=
  r ← do (GetRSP rspName);
  match answer r with
  | inl e => mret (inl e)
  | inr rsp => v ← lift (viewOf rsp rvrs rvas); mret (inr v)
  end.

(** The objects as they are left, and the outcome. *)
Record pass := { ps_rv : ReplicatedVolume; ps_rvrs : list ReplicatedVolumeReplica; ps_rvas : list ReplicatedVolumeAttachment;
                 ps_outcome : ReconcileOutcome }.

(** "Perform main processing": with a configuration. *)
Definition mainProcessing rv rvrs rvas rsc (o : ReconcileOutcome) : M pass :=
  match rv_Configuration rv with
  | None => mret {| ps_rv := rv; ps_rvrs := rvrs; ps_rvas := rvas; ps_outcome := o |}
  | Some cfg =>
      rsp ← getRSP (cfg_ReplicatedStoragePoolName cfg) rvrs rvas;
      match rsp with
      | inl e => mret {| ps_rv := rv; ps_rvrs := rvrs; ps_rvas := rvas; ps_outcome := fail e "getting RSP" |}
      | inr rsp =>
          let '(forming, formationStepIdx) := isFormationInProgress rv in
          if forming : bool then
            '(rv, rvrs, rvas, o') ← reconcileFormation rv rvrs rvas rsp rsc formationStepIdx;
            mret {| ps_rv := rv; ps_rvrs := rvrs; ps_rvas := rvas; ps_outcome := Merge o [o'] |}
          else
            '(rv, o1) ← reconcileRVConfiguration rv rsc;
            '(rv, rvas, rvrs, o2) ← reconcileNormalOperation registry rv rvrs rvas (Some rsp);
            '(rv, o3) ← reconcileLayoutStatus rv rvrs rvas;
            mret {| ps_rv := rv; ps_rvrs := rvrs; ps_rvas := rvas; ps_outcome := MergeReconciles [o; o1; o2; o3] |}
      end
  end.
(** Finalizers, and the status patch against [base]. *)
Definition finishPass (base : ReplicatedVolume) (p : pass) : M ReconcileOutcome :=
  let o := ps_outcome p in
  if ShouldReturn o then mret o
  else
    let rv := ps_rv p in
    let o := if bool_decide (is_Some (rv_DeletionTimestamp rv)) && rvShouldNotExist (Some rv) then Merge o [ContinueAndRequeue] else o in
    '(_, o1) ← reconcileRVAMetadata (Some rv) (ps_rvas p);
    '(_, o2) ← reconcileRVRFinalizers (Some rv) (ps_rvrs p);
    let o := MergeReconciles [o; o1; o2] in
    if ShouldReturn o then mret o
    else if changed o then
      '(_, e) ← patchRVStatus rv base;
      mret (match e with Some e => failed e | None => o end)
    else mret o.
(** The status part: from the metadata of the volume on. *)
Definition reconcileStatus rv rvrs rvas rsc (o : ReconcileOutcome) : M ReconcileOutcome :=
  let base := rv in
  '(rv, o) ← match rv_Configuration rv with
             | None => '(rv, o') ← reconcileRVConfiguration rv rsc; mret (rv, Merge o [o'])
             | Some _ => mret (rv, o)
             end;
  if ShouldReturn o then mret o
  else
    '(rv, e1) ← ensureDatameshReplicaRequests rv rvrs;
    let '(rv, e2) := ensureStatusSize rv rvrs in
    let eo := MergeEnsures [e1; e2] in
    match eo_err eo with
    | Some e => mret (failed e)
    | None => p ← mainProcessing rv rvrs rvas rsc (WithChangeFrom o eo); finishPass base p
    end.
(** Deletion: force-cleanup of the children, then the finalizer of the volume. *)
Definition reconcileGone rv rvrs rvas : M ReconcileOutcome :=
  '(rv, rvas, rvrs, o1) ← reconcileDeletion rv rvas rvrs;
  '(_, o2) ← reconcileRVAMetadata (Some rv) rvas;
  '(_, o3) ← reconcileMetadata rv rvrs;
  mret (MergeReconciles [o1; o2; o3]).
Definition reconcileVolume (name : string) rv : M ReconcileOutcome :=
  rsc ← if String.eqb (rv_Spec_ReplicatedStorageClassName rv) "" then mret (inr None) else getRSC (rv_Spec_ReplicatedStorageClassName rv);
  match rsc with
  | inl e => mret (fail e "getting ReplicatedStorageClass")
  | inr rsc =>
      rvas ← getRVAsSorted name;
      match rvas with
      | inl e => mret (fail e "listing ReplicatedVolumeAttachments")
      | inr rvas =>
          rvrs ← getRVRsSorted name;
          match rvrs with
          | inl e => mret (fail e "listing ReplicatedVolumeReplicas")
          | inr rvrs =>
              if rvShouldNotExist (Some rv) then reconcileGone rv rvrs rvas
              else
                '(rv, o) ← reconcileMetadata rv rvrs;
                if ShouldReturn o then mret o else reconcileStatus rv rvrs rvas rsc o
          end
      end
  end.
Definition Reconcile (name : string) : M (Result * option error) :=
  rv ← getRV name;
  o ← match rv with
      | inl e => mret (fail e "getting ReplicatedVolume")
      | inr None =>
          o1 ← reconcileOrphanedRVAs name;
          o2 ← reconcileOrphanedRVRs name;
          mret (MergeReconciles [o1; o2])
      | inr (Some rv) => reconcileVolume name rv
      end;
  mret (ToCtrl o).
End controller.
End controller.
