(* ===== verification/Frame.v ===== *)
(** * What the datamesh callbacks may touch

    Every guard, apply, confirm and completion callback of the datamesh plans terminates, and
    leaves alone the inputs of the cycle, the tracking state, the identity of the replica contexts
    and the pointers in their slots; the ID index only ever loses entries ([cb_frame]). *)

From Stdlib Require Import ZArith Lia String.
From stdpp Require Import base list numbers strings option.
From S2P Require Import Prelude IdSet DrbdSize Api Dmte Context Tracker Helpers Guards Network.
From S2P Require Import Quorum Attachment Membership.
Import v1alpha1 dmte datamesh helpers guards network quorum resize attachment membership.

Set Default Proof Using "Type".

(** ** A postcondition for computations that may panic but do not diverge *)
Definition okf {A} (o : outcome A) (P : A → Prop) : Prop :=
  match o with Ok a => P a | Panic _ => True | OutOfFuel => False end.

Lemma okf_bind {A B} (o : outcome A) (f : A → outcome B) (P : A → Prop) (Q : B → Prop) :
  okf o P → (∀ a, P a → okf (f a) Q) → okf (o ≫= f) Q.
Proof. destruct o; simpl; auto. Qed.
Lemma okf_mono {A} (o : outcome A) (P Q : A → Prop) : okf o P → (∀ a, P a → Q a) → okf o Q.
Proof. destruct o; simpl; auto. Qed.
Lemma okf_index {A} (l : list A) i : okf (index l i) (λ a, l !! i = Some a).
Proof. unfold index. by destruct (l !! i). Qed.
Lemma okf_deref {A} (p : option A) : okf (deref p) (λ a, p = Some a).
Proof. by destruct p. Qed.
Lemma okf_Ok {A} (o : outcome A) (P : A → Prop) a : okf o P → o = Ok a → P a.
Proof. by intros H ->. Qed.
Lemma okf_not_fuel {A} (o : outcome A) (P : A → Prop) : okf o P → o ≠ OutOfFuel.
Proof. by intros H ->. Qed.

Lemma Forall_elem {A} (P : A → Prop) l x : Forall P l → x ∈ l → P x.
Proof. intros H Hx. rewrite List.Forall_forall in H. apply H. by apply list_elem_of_In. Qed.

Section frame.
Context `{K : K8s}.
Implicit Types (g : globalContext) (rc : ReplicaContext).

Record same_context rc rc' : Prop := {
  sc_id : rc_id rc' = rc_id rc; sc_name : rc_name rc' = rc_name rc;
  sc_nodeName : rc_nodeName rc' = rc_nodeName rc; sc_rvr : rc_rvr rc' = rc_rvr rc;
  sc_rvas : rc_rvas rc' = rc_rvas rc;
  sc_request : rc_membershipRequest rc' = rc_membershipRequest rc;
  sc_membership : rc_membershipTransition rc' = rc_membershipTransition rc;
  sc_attachment : rc_attachmentTransition rc' = rc_attachmentTransition rc;
}.
#[global] Instance same_context_preorder : PreOrder same_context.
Proof. split; [by intros ?; split|]. by intros ??? [] []; split; etrans. Qed.

Definition loses (o o' : option nat) : Prop := o' = o ∨ o' = None.
#[global] Instance loses_preorder : PreOrder loses.
Proof. split; [by left|]. intros ??? [-> | ->] [-> | ->]; unfold loses; auto. Qed.

Record cb_frame g g' : Prop := {
  cf_in : g_in g' = g_in g;
  cf_tracking : g_tracking g' = g_tracking g;
  cf_ctx : Forall2 same_context (g_allReplicas g) (g_allReplicas g');
  cf_replicas : Forall2 loses (g_replicas g) (g_replicas g');
}.
#[global] Instance cb_frame_preorder : PreOrder cb_frame.
Proof.
  split; [intros ?; by split|].
  intros ??? [] []; split; try (by etrans); by eapply transitivity.
Qed.

(** ** Elementary updates *)
Lemma frame_datamesh d g : cb_frame g (set_datamesh d g).
Proof. by split. Qed.
Lemma frame_baseline b g : cb_frame g (set_baselineGMDR b g).
Proof. by split. Qed.
Lemma frame_quorumCheck ok diag g : cb_frame g (set_quorumCheck ok diag g).
Proof. by split. Qed.
Lemma frame_contexts (f : ReplicaContext → ReplicaContext) g : (∀ rc, same_context rc (f rc)) →
  cb_frame g (set_allReplicas (map f (g_allReplicas g)) g).
Proof. intros Hf. split; simpl; try done. apply Forall2_fmap_r, Forall_Forall2_diag, Forall_true. done. Qed.
Lemma frame_upd_rc i f g : (∀ rc, same_context rc (f rc)) → cb_frame g (upd_rc i f g).
Proof.
  intros Hf. split; simpl; try done.
  apply Forall2_same_length_lookup_2; [by rewrite length_alter|].
  intros j x y Hx Hy. destruct (decide (i = j)) as [->|Hne].
  - rewrite list_lookup_alter_eq, Hx in Hy. by simplify_eq/=.
  - rewrite list_lookup_alter_ne, Hx in Hy by done. by simplify_eq/=.
Qed.
Lemma frame_drop_replica i g : cb_frame g (set_replicas (<[i := None]> (g_replicas g)) g).
Proof.
  split; simpl; try done. apply Forall2_same_length_lookup_2; [by rewrite length_insert|].
  intros j x y Hx Hy. destruct (decide (i = j)) as [->|Hne].
  - rewrite list_lookup_insert_eq in Hy by (by eapply lookup_lt_Some). right. congruence.
  - rewrite list_lookup_insert_ne in Hy by done. left. congruence.
Qed.
Lemma same_set_member m rc : same_context rc (set_rc_member m rc).
Proof. by split. Qed.
Lemma same_mutate f rc : same_context rc (mutate_member f rc).
Proof. by split. Qed.

(** ** Callback specifications *)
Definition rguard_ok (f : ReplicaGuardFunc globalContext nat) : Prop :=
  ∀ mem g r, okf (f mem g r) (λ x, cb_frame g x.2).
Definition gguard_ok (f : GlobalGuardFunc globalContext) : Prop :=
  ∀ mem g, okf (f mem g) (λ x, cb_frame g x.2).
Definition rapply_ok (f : ReplicaApplyFunc globalContext nat) : Prop :=
  ∀ mem g r, okf (f mem g r) (λ x, cb_frame g x.2).
Definition gapply_ok (f : GlobalApplyFunc globalContext) : Prop :=
  ∀ mem g, okf (f mem g) (λ x, cb_frame g x.2).
Definition rconfirm_ok (f : ReplicaConfirmFunc globalContext nat) : Prop :=
  ∀ mem g r rev, okf (f mem g r rev) (λ _, True).
Definition gconfirm_ok (f : GlobalConfirmFunc globalContext) : Prop :=
  ∀ mem g rev, okf (f mem g rev) (λ _, True).
Definition rdone_ok (f : ReplicaOnCompleteFunc globalContext nat) : Prop :=
  ∀ mem g r, okf (f mem g r) (cb_frame g).
Definition gdone_ok (f : GlobalOnCompleteFunc globalContext) : Prop :=
  ∀ mem g, okf (f mem g) (cb_frame g).
(** Init callbacks fill in metadata, the same whatever the plan ID and the steps. *)
Definition same_request (t u : Transition) : Prop :=
  t_Type t = t_Type u ∧ t_Group t = t_Group u ∧ t_ReplicaName t = t_ReplicaName u ∧
  t_ReplicaType t = t_ReplicaType u ∧ t_FromReplicaType t = t_FromReplicaType u ∧
  t_ToReplicaType t = t_ToReplicaType u.
Record init_ok (f : Transition → outcome Transition) : Prop := {
  io_meta t : okf (f t) (λ t', t_Type t' = t_Type t ∧ t_Group t' = t_Group t ∧
    t_PlanID t' = t_PlanID t ∧ t_ReplicaName t' = t_ReplicaName t ∧ t_Steps t' = t_Steps t);
  io_same t u t' u' : same_request t u → f t = Ok t' → f u = Ok u' → same_request t' u';
}.
End frame.

(** Walk through a callback body: bind by bind, branch by branch. *)
Ltac okf_walk :=
  repeat match goal with
  | |- okf (_ ≫= _) _ => eapply okf_bind; [|intros ? ?]
  | |- okf (index _ _) _ => apply okf_index
  | |- okf (deref _) _ => apply okf_deref
  | |- okf (Ok _) _ => simpl
  | |- okf (Panic _) _ => exact I
  | |- okf (match ?x with _ => _ end) _ => destruct x
  end.

Create HintDb frame discriminated.
#[export] Hint Constants Opaque : frame.
#[export] Hint Resolve frame_datamesh frame_baseline frame_quorumCheck frame_drop_replica
  same_set_member same_mutate : frame.

Section callbacks.
Context `{K : K8s}.
Implicit Types (g : globalContext) (rc : ReplicaContext).

Lemma rc_at_okf g r : okf (rc_at g r) (λ rc, ∃ i, r = Some i ∧ g_allReplicas g !! i = Some rc).
Proof. destruct r as [i|]; simpl; [|done]. eapply okf_mono; [apply okf_index|]. eauto. Qed.

(** ** Guards *)
Lemma rguard_on_global f : rguard_ok (on_global f).
Proof. by intros mem g r. Qed.
Lemma rguard_on_subject f : (∀ mem g rc, okf (f mem g rc) (λ _, True)) → rguard_ok (on_subject f).
Proof.
  intros Hf mem g r. eapply okf_bind; [apply rc_at_okf|]. intros rc _.
  eapply okf_bind; [apply Hf|done].
Qed.
Lemma gguard_ggate f : gguard_ok (ggate f).
Proof. by intros mem g. Qed.
Lemma guardMaxDiskMembers_ok : rguard_ok guardMaxDiskMembers.
Proof.
  intros mem g r. unfold guardMaxDiskMembers. eapply (okf_bind _ _ (λ _, True)); [|done].
  induction (g_allReplicas g) as [|rc l IH]; simpl; [done|].
  eapply (okf_bind _ _ (λ _, True)); [unfold pendingDisk; okf_walk; done|intros].
  eapply okf_bind; [apply IH|done].
Qed.
Lemma guardQuorumSatisfied_ok : rguard_ok guardQuorumSatisfied.
Proof.
  intros mem g r. unfold guardQuorumSatisfied, isQuorumSatisfied.
  destruct (g_quorumSatisfied g); [done|]. destruct (computeQuorumCheck g). apply frame_quorumCheck.
Qed.
Lemma LowerVolumeSize_okf q : okf (drbd_size.LowerVolumeSize q) (λ _, True).
Proof.
  assert (H : ∀ n u x, okf (drbd_size.LowerVolumeSize_loop n u x) (λ _, True)); [|apply H].
  induction n as [|n IH]; intros u x; simpl; [done|]. case_match; [done|apply IH].
Qed.
Lemma guardBackingVolumesGrown_ok : gguard_ok guardBackingVolumesGrown.
Proof.
  intros mem g. unfold guardBackingVolumesGrown. eapply okf_bind; [apply LowerVolumeSize_okf|done].
Qed.

(** ** Apply callbacks *)
Lemma on_member_ok f : rapply_ok (on_member f).
Proof.
  intros mem g r. eapply okf_bind; [apply rc_at_okf|]. intros rc (i & -> & Hi).
  eapply okf_bind; [apply okf_deref|]. intros m Hm. destruct (f m) as [[] m']; [|done].
  apply frame_upd_rc. intros rc'. apply same_mutate.
Qed.
Lemma createMember_ok ty : rapply_ok (createMember ty).
Proof. intros mem g r. unfold createMember. okf_walk. apply frame_upd_rc. intros. apply same_set_member. Qed.
Lemma setBackingVolumeFromRequest_ok : rapply_ok setBackingVolumeFromRequest.
Proof.
  intros mem g r. eapply okf_bind; [apply rc_at_okf|]. intros rc _.
  eapply okf_bind; [apply okf_deref|]. intros m _.
  eapply okf_bind; [apply okf_deref|]. intros [rq i] _. apply on_member_ok.
Qed.
Lemma removeMember_ok : rapply_ok removeMember.
Proof.
  intros mem g r. unfold removeMember. okf_walk; [by apply frame_upd_rc|].
  transitivity (upd_rc a (set_rc_member None) g); [by apply frame_upd_rc|exact (frame_drop_replica _ (upd_rc a _ g))].
Qed.
Lemma asReplicaApply_ok f : gapply_ok f → rapply_ok (asReplicaApply f).
Proof. intros Hf mem g r. apply Hf. Qed.
Lemma ComposeReplicaApply_ok fs : Forall rapply_ok fs → rapply_ok (ComposeReplicaApply fs).
Proof.
  induction 1 as [|f fs Hf _ IH]; intros mem g r; simpl; [done|].
  eapply okf_bind; [apply Hf|]. intros [c g1] H1. eapply okf_bind; [apply IH|].
  intros [c' g2] H2. simpl in *. by transitivity g1.
Qed.
Lemma ComposeGlobalApply_ok (fs : list (GlobalApplyFunc globalContext)) :
  Forall gapply_ok fs → gapply_ok (ComposeGlobalApply fs).
Proof.
  induction 1 as [|f fs Hf _ IH]; intros mem g; simpl; [done|].
  eapply okf_bind; [apply Hf|]. intros [c g1] H1. eapply okf_bind; [apply IH|].
  intros [c' g2] H2. simpl in *. by transitivity g1.
Qed.
Lemma set_datamesh_ok (f : globalContext → bool) h : gapply_ok (λ _ g, Ok (f g, set_datamesh (h g) g)).
Proof. intros mem g. apply frame_datamesh. Qed.
Lemma updateBaselineGMDR_ok : gapply_ok updateBaselineGMDR.
Proof. intros mem g. unfold updateBaselineGMDR. destruct (SetChanged _ _). apply frame_baseline. Qed.
Lemma setCorrectQ_ok : gapply_ok setCorrectQ.
Proof.
  intros mem g. unfold setCorrectQ. destruct (computeCorrectQuorum g), (SetChanged _ _). apply frame_datamesh.
Qed.
Lemma setCorrectQMR_ok : gapply_ok setCorrectQMR.
Proof.
  intros mem g. unfold setCorrectQMR. destruct (computeCorrectQuorum g), (SetChanged _ _). apply frame_datamesh.
Qed.
Lemma applyMultiattach_ok b : gapply_ok (applyMultiattach b).
Proof. intros mem g. unfold applyMultiattach. destruct (SetChanged _ _). apply frame_datamesh. Qed.
Lemma applyResizeVolume_ok : gapply_ok applyResizeVolume.
Proof. intros mem g. unfold applyResizeVolume. okf_walk; [done|apply frame_datamesh]. Qed.

Lemma map_contexts_frame f g : (∀ rc, same_context rc (f rc).2) → cb_frame g (map_contexts f g).2.
Proof. intros Hf. unfold map_contexts. simpl. rewrite map_map. by apply frame_contexts. Qed.
Lemma csnTransition_okf mem g : okf (csnTransition mem g) (λ _, True).
Proof. unfold csnTransition. okf_walk; done. Qed.
Lemma addedNetworks_okf mem g : okf (addedNetworks mem g) (λ _, True).
Proof. eapply okf_bind; [apply csnTransition_okf|done]. Qed.
Lemma removedNetworks_okf mem g : okf (removedNetworks mem g) (λ _, True).
Proof. eapply okf_bind; [apply csnTransition_okf|done]. Qed.
Lemma repairAddresses_ok : gapply_ok repairAddresses.
Proof.
  intros mem g. apply map_contexts_frame. intros rc. unfold repairContext.
  destruct (memberOf rc), (rc_rvr rc); try done. destruct (repairMemberAddresses _ _ _) as [[] ?]; done.
Qed.
Lemma addNewNetworks_ok : gapply_ok addNewNetworks.
Proof.
  intros mem g. unfold addNewNetworks. eapply okf_bind; [apply addedNetworks_okf|]. intros l _.
  destruct (foldl _ _ _). apply frame_datamesh.
Qed.
Lemma removeOldNetworksAndAddresses_ok : gapply_ok removeOldNetworksAndAddresses.
Proof.
  intros mem g. unfold removeOldNetworksAndAddresses. eapply okf_bind; [apply removedNetworks_okf|].
  intros [|n l] _; [done|]. cbv zeta. set (g1 := set_datamesh _ g).
  pose proof (map_contexts_frame (removeAddresses (n :: l)) g1) as Hm.
  destruct (map_contexts _ g1) as [c2 g2]. simpl in *. transitivity g1; [apply frame_datamesh|].
  apply Hm. intros rc. unfold removeAddresses. destruct (memberOf rc); [|done]. by case_match.
Qed.
Lemma addNewAddresses_ok : gapply_ok addNewAddresses.
Proof.
  intros mem g. unfold addNewAddresses. eapply okf_bind; [apply addedNetworks_okf|].
  intros [|n l] _; [done|]. apply map_contexts_frame. intros rc. unfold addAddresses.
  destruct (memberOf rc), (rc_rvr rc); try done. by destruct (foldl _ _ _) as [[] ?].
Qed.

(** ** Confirm callbacks *)
Lemma confirm_rc_at g r (f : ReplicaContext → ConfirmResult) :
  okf (rc ← rc_at g r; Ok (f rc)) (λ _, True).
Proof. eapply okf_bind; [apply rc_at_okf|done]. Qed.
Lemma confirm_added mem g (f : list string → ConfirmResult) :
  okf (l ← addedNetworks mem g; Ok (f l)) (λ _, True).
Proof. eapply okf_bind; [apply addedNetworks_okf|done]. Qed.

(** ** Completion and init callbacks *)
Lemma set_membershipMessage_frame msg g i : cb_frame g (set_membershipMessage msg g i).
Proof. apply frame_upd_rc. intros rc. by split. Qed.
Lemma AdaptApplyToOnComplete_ok (f : GlobalApplyFunc globalContext) :
  gapply_ok f → gdone_ok (AdaptApplyToOnComplete f).
Proof.
  intros Hf mem g. eapply okf_bind; [apply Hf|]. by intros [c g'].
Qed.
Lemma onComplete_ok f : f ∈ [onJoinComplete; onLeaveComplete; onForceRemoveComplete; onChangeTypeComplete] →
  rdone_ok f.
Proof.
  intros Hf mem g r. rewrite !elem_of_cons, elem_of_nil in Hf.
  destruct Hf as [-> | [-> | [-> | [-> | []]]]];
    unfold onJoinComplete, onLeaveComplete, onForceRemoveComplete, onChangeTypeComplete; okf_walk;
    try apply set_membershipMessage_frame; done.
Qed.
Lemma setReplicaType_ok rt g r : init_ok (setReplicaType rt g r).
Proof.
  split; [done|]. intros t u t' u' (?&?&?&?&?&?) [= <-] [= <-]. by repeat split.
Qed.
Lemma setReplicaFromToType_ok from to g r : init_ok (setReplicaFromToType from to g r).
Proof.
  split; [done|]. intros t u t' u' (?&?&?&?&?&?) [= <-] [= <-]. by repeat split.
Qed.
Lemma setSystemNetworks_ok g : init_ok (setSystemNetworks g).
Proof.
  unfold setSystemNetworks. destruct (in_rsp (g_in g)); split; try done.
  intros t u t' u' (?&?&?&?&?&?) [= <-] [= <-]. by repeat split.
Qed.
End callbacks.
