(* ===== verification/Plans.v ===== *)
(** * The datamesh registry satisfies what the engine relies on

    [theRegistry] is the value of BuildRegistry, with the callbacks left folded.  The engine's
    theorems are stated against the classes [RegistryLaws], [Terminating], [TrackerLaws] and
    [SlotLaws]; here they are discharged for the datamesh registry, tracker, dispatchers and slots. *)

From Stdlib Require Import ZArith Lia String.
From stdpp Require Import base list numbers strings option.
From S2P Require Import Prelude IdSet DrbdSize Api Dmte DmteSteps DmteTermination DmteInvariants.
From S2P Require Import DmteFinalize Context Tracker Helpers Guards Network.
From S2P Require Import Quorum Attachment Membership Datamesh Frame.
Import v1alpha1 dmte datamesh concurrency_tracker.
Import helpers guards network quorum resize attachment membership process.

Set Default Proof Using "Type".

Section registry.
Context `{K : K8s}.

Definition theRegistry : Registry globalContext nat := Eval cbv -[
  guardRVNotDeleting guardRSPAvailable guardNodeEligible guardNodeHasAllSystemNetworks
  guardNoMemberOnSameNode guardAddressesPopulated guardNotAttached guardVolumeAccessLocalForDemotion
  guardGMDRPreserved guardFTTPreserved guardZoneGMDRPreserved guardZoneFTTPreserved
  guardZoneFTTPreservedForRetypeToTieBreaker guardTBSufficient guardZoneTBSufficient
  guardZonalSameZone guardTransZonalVoterPlacement guardTransZonalTBPlacement guardMemberUnreachable
  guardVotersEven guardVotersOdd guardQMRRaiseNeeded guardQMRLowerNeeded guardShadowDiskfulSupported
  guardMaxDiskMembers guardVolumeAccessNotLocal
  guardAttachNotDeleting guardNodeOperational guardRVRReady guardMemberExists
  guardNoActiveMembershipTransition guardQuorumSatisfied guardSlotAvailable
  guardVolumeAccessLocalForAttach guardDeviceNotInUse guardMaxAttachmentsAllowsMultiattach
  guardCanDisableMultiattach guardReplicasMatchTargetNetworks guardNodesHaveAddedNetworks
  guardRemainingNetworksConnected guardHasReadyDiskfulMember guardNoActiveResync guardBackingVolumesGrown
  createMember setType setBackingVolumeFromRequest clearBackingVolume removeMember raiseQ lowerQ raiseQMR
  lowerQMR updateBaselineGMDR setCorrectQ setCorrectQMR applyAttach applyDetach applyEnableMultiattach
  applyDisableMultiattach repairAddresses addNewNetworks removeOldNetworksAndAddresses addNewAddresses
  applyResizeVolume ComposeReplicaApply ComposeGlobalApply asReplicaApply AdaptApplyToOnComplete
  allConfirm confirmAllMembers confirmSubjectOnly confirmSubjectOnlyLeaving confirmSubjectOnlyLeavingOrGone
  confirmFMPlusSubject confirmFMPlusSubjectLeaving confirmAllMembersLeaving confirmImmediate
  confirmAllConnected confirmAddedAddressesAvailable confirmAllConnectedOnAddedNetworks confirmMultiattach
  setReplicaType setReplicaFromToType setSystemNetworks skipPendingDatameshJoin
  onJoinComplete onLeaveComplete onForceRemoveComplete onChangeTypeComplete
  membershipSlotAccessor attachmentSlotAccessor] in
  match BuildRegistry None with Ok (Some r) => r | _ => NewRegistry end.

Lemma BuildRegistry_value : BuildRegistry None = Ok (Some theRegistry).
Proof. reflexivity. Qed.

(** ** Every callback of every plan is well behaved *)
Record step_ok (s : step globalContext nat) : Prop := {
  so_gapply f : st_globalApply s = Some f → gapply_ok f;
  so_gconfirm f : st_globalConfirm s = Some f → gconfirm_ok f;
  so_gdone f : st_globalOnComplete s = Some f → gdone_ok f;
  so_rapply f : st_replicaApply s = Some f → rapply_ok f;
  so_rconfirm f : st_replicaConfirm s = Some f → rconfirm_ok f;
  so_rdone f : st_replicaOnComplete s = Some f → rdone_ok f;
}.
Record plan_ok (p : plan globalContext nat) : Prop := {
  po_rguards : Forall rguard_ok (pl_replicaGuards p);
  po_gguards : Forall gguard_ok (pl_globalGuards p);
  po_rinit f : pl_replicaInit p = Some f → ∀ g r, init_ok (f g r);
  po_ginit f : pl_globalInit p = Some f → ∀ g, init_ok (f g);
  po_steps : Forall step_ok (pl_steps p);
  po_rdone f : pl_replicaOnComplete p = Some f → rdone_ok f;
  po_gdone f : pl_globalOnComplete p = Some f → gdone_ok f;
}.
End registry.

(** One callback: dispatch on its head, unfolding the guards to their shape. *)
Ltac forall_list := repeat (apply Forall_cons_2; [|]); try apply Forall_nil_2.
Ltac callback :=
  lazymatch goal with
  | |- rguard_ok guardMaxDiskMembers => apply guardMaxDiskMembers_ok
  | |- rguard_ok guardQuorumSatisfied => apply guardQuorumSatisfied_ok
  | |- rguard_ok (on_global _) => apply rguard_on_global
  | |- rguard_ok (on_subject _) => apply rguard_on_subject; intros; cbv beta zeta; okf_walk; done
  | |- rguard_ok ?f => let f' := eval red in f in change (rguard_ok f'); callback
  | |- gguard_ok guardBackingVolumesGrown => apply guardBackingVolumesGrown_ok
  | |- gguard_ok ?f => let f' := eval red in f in change (gguard_ok f'); apply gguard_ggate
  | |- rapply_ok (createMember _) => apply createMember_ok
  | |- rapply_ok setBackingVolumeFromRequest => apply setBackingVolumeFromRequest_ok
  | |- rapply_ok removeMember => apply removeMember_ok
  | |- rapply_ok (asReplicaApply _) => apply asReplicaApply_ok; callback
  | |- rapply_ok (ComposeReplicaApply _) => apply ComposeReplicaApply_ok; forall_list; callback
  | |- rapply_ok _ => apply on_member_ok
  | |- gapply_ok (ComposeGlobalApply _) => apply ComposeGlobalApply_ok; forall_list; callback
  | |- gapply_ok updateBaselineGMDR => apply updateBaselineGMDR_ok
  | |- gapply_ok setCorrectQ => apply setCorrectQ_ok
  | |- gapply_ok setCorrectQMR => apply setCorrectQMR_ok
  | |- gapply_ok applyResizeVolume => apply applyResizeVolume_ok
  | |- gapply_ok repairAddresses => apply repairAddresses_ok
  | |- gapply_ok addNewNetworks => apply addNewNetworks_ok
  | |- gapply_ok removeOldNetworksAndAddresses => apply removeOldNetworksAndAddresses_ok
  | |- gapply_ok addNewAddresses => apply addNewAddresses_ok
  | |- gapply_ok _ => first [apply applyMultiattach_ok | apply set_datamesh_ok]
  | |- gdone_ok _ => apply AdaptApplyToOnComplete_ok; callback
  | |- rdone_ok _ => apply onComplete_ok; rewrite !elem_of_cons; tauto
  | |- init_ok (setReplicaType _ _ _) => apply setReplicaType_ok
  | |- init_ok (setReplicaFromToType _ _ _ _) => apply setReplicaFromToType_ok
  | |- init_ok _ => apply setSystemNetworks_ok
  | |- rconfirm_ok allConfirm => intros ? ? ? ?; exact I
  | |- rconfirm_ok confirmImmediate => intros ? ? ? ?; exact I
  | |- rconfirm_ok _ => intros ? ? ? ?; apply confirm_rc_at
  | |- gconfirm_ok _ => intros ? ? ?; first [exact I | apply confirm_added]
  end.

Section laws.
Context `{K : K8s}.

Lemma steps_ok_intro (s : step globalContext nat) :
  match st_globalApply s with Some f => gapply_ok f | None => True end →
  match st_globalConfirm s with Some f => gconfirm_ok f | None => True end →
  match st_globalOnComplete s with Some f => gdone_ok f | None => True end →
  match st_replicaApply s with Some f => rapply_ok f | None => True end →
  match st_replicaConfirm s with Some f => rconfirm_ok f | None => True end →
  match st_replicaOnComplete s with Some f => rdone_ok f | None => True end → step_ok s.
Proof. intros. split; intros f E; by simplify_option_eq. Qed.
Lemma plan_ok_intro (p : plan globalContext nat) :
  Forall rguard_ok (pl_replicaGuards p) → Forall gguard_ok (pl_globalGuards p) →
  match pl_replicaInit p with Some f => ∀ g r, init_ok (f g r) | None => True end →
  match pl_globalInit p with Some f => ∀ g, init_ok (f g) | None => True end →
  Forall step_ok (pl_steps p) →
  match pl_replicaOnComplete p with Some f => rdone_ok f | None => True end →
  match pl_globalOnComplete p with Some f => gdone_ok f | None => True end → plan_ok p.
Proof. intros. split; try done; intros f E; by simplify_option_eq. Qed.

Lemma all_plans_ok : Forall (λ e, plan_ok e.2) (reg_plans theRegistry).
Proof.
  unfold theRegistry. cbn [reg_plans].
  forall_list.
  all: apply plan_ok_intro; cbn [snd pl_replicaGuards pl_globalGuards pl_replicaInit pl_globalInit
    pl_steps pl_replicaOnComplete pl_globalOnComplete]; try exact I.
  all: lazymatch goal with
       | |- Forall step_ok _ => forall_list; apply steps_ok_intro;
           cbn [st_globalApply st_globalConfirm st_globalOnComplete st_replicaApply
                st_replicaConfirm st_replicaOnComplete]; try exact I; callback
       | |- Forall _ _ => forall_list; callback
       | |- _ => intros; callback
       end.
Qed.

(** ** RegistryLaws *)
Lemma reg_get_In (reg : Registry globalContext nat) ty id p :
  reg_get reg ty id = Some p → (ty, id, p) ∈ reg_plans reg.
Proof.
  unfold reg_get. intros H. apply fmap_Some in H as ([k q] & H & ->).
  apply List.find_some in H as [H E]. apply bool_decide_eq_true in E. simpl in *. subst k.
  by apply list_elem_of_In.
Qed.
Lemma registered_ok p : registered theRegistry p → plan_ok p.
Proof.
  intros (ty & id & H%reg_get_In). exact (Forall_elem _ _ _ all_plans_ok H).
Qed.
Lemma all_plans_typed : Forall (λ e, pl_transitionType e.2 = e.1.1) (reg_plans theRegistry).
Proof. repeat constructor. Qed.

Lemma plan_init_ok p g r : plan_ok p → init_ok (plan_callInit p g r).
Proof.
  intros Hp. unfold plan_callInit. destruct (pl_scope p).
  - destruct (pl_globalInit p) as [f|] eqn:E; [by apply (po_ginit p Hp)|].
    split; [done|]. by intros t u t' u' H [= <-] [= <-].
  - destruct (pl_replicaInit p) as [f|] eqn:E; [by apply (po_rinit p Hp)|].
    split; [done|]. by intros t u t' u' H [= <-] [= <-].
Qed.
#[export] Instance registry_laws : RegistryLaws theRegistry.
Proof.
  split.
  - intros ty id p H%reg_get_In. exact (Forall_elem _ _ _ all_plans_typed H).
  - intros p g r t t' Hp%registered_ok H. exact (okf_Ok _ _ _ (io_meta _ (plan_init_ok p g r Hp) t) H).
Qed.

(** ** Callbacks through the plan *)
Lemma step_apply_okf p s mem g r : plan_ok p → s ∈ pl_steps p →
  okf (step_apply s mem g r) (λ x, cb_frame g x.2).
Proof.
  intros Hp Hs. destruct (Forall_elem _ _ _ (po_steps p Hp) Hs) as [H1 _ _ H2 _ _]. unfold step_apply.
  destruct (st_scope s); (eapply okf_bind; [apply okf_deref|]); intros f E; [by apply H1|by apply H2].
Qed.
Lemma step_confirm_okf p s mem g r rev : plan_ok p → s ∈ pl_steps p →
  okf (step_confirm s mem g r rev) (λ _, True).
Proof.
  intros Hp Hs. destruct (Forall_elem _ _ _ (po_steps p Hp) Hs) as [_ H1 _ _ H2 _]. unfold step_confirm.
  destruct (st_scope s); (eapply okf_bind; [apply okf_deref|]); intros f E; [by apply H1|by apply H2].
Qed.
Lemma stepDone_okf p s mem g r : plan_ok p → s ∈ pl_steps p →
  okf (step_callOnComplete s mem g r) (cb_frame g).
Proof.
  intros Hp Hs. destruct (Forall_elem _ _ _ (po_steps p Hp) Hs) as [_ _ H1 _ _ H2]. unfold step_callOnComplete.
  destruct (st_scope s).
  - destruct (st_globalOnComplete s) as [f|] eqn:E; [by apply H1|simpl; reflexivity].
  - destruct (st_replicaOnComplete s) as [f|] eqn:E; [by apply H2|simpl; reflexivity].
Qed.
Lemma planDone_okf p mem g r : plan_ok p → okf (plan_callOnComplete p mem g r) (cb_frame g).
Proof.
  intros Hp. unfold plan_callOnComplete. destruct (pl_scope p).
  - destruct (pl_globalOnComplete p) as [f|] eqn:E; [by apply (po_gdone p Hp)|simpl; reflexivity].
  - destruct (pl_replicaOnComplete p) as [f|] eqn:E; [by apply (po_rdone p Hp)|simpl; reflexivity].
Qed.
Lemma runGuards_okf (fs : list (globalContext → outcome (GuardResult * globalContext))) g :
  Forall (λ f, ∀ g, okf (f g) (λ x, cb_frame g x.2)) fs → okf (runGuards fs g) (λ x, cb_frame g x.2).
Proof.
  intros H. revert g. induction H as [|f fs Hf _ IH]; intros g; simpl; [reflexivity|].
  eapply okf_bind; [apply Hf|]. intros [res g1] Hg1. simpl in Hg1.
  destruct (gr_Blocked res); [done|]. eapply okf_mono; [apply IH|]. intros [r2 g2] ?. by transitivity g1.
Qed.
Lemma guards_okf p mem g r : plan_ok p → okf (plan_evaluateGuards p mem g r) (λ x, cb_frame g x.2).
Proof.
  intros Hp. unfold plan_evaluateGuards. destruct (pl_scope p); apply runGuards_okf; apply List.Forall_map.
  - refine (List.Forall_impl _ _ (po_gguards p Hp)). intros f Hf g'. apply Hf.
  - refine (List.Forall_impl _ _ (po_rguards p Hp)). intros f Hf g'. apply Hf.
Qed.
Lemma plan_effect_frame p mem g g' : plan_ok p → plan_effect p mem g g' → cb_frame g g'.
Proof.
  intros Hp [r res g1 H|s r g1 Hs H|r g1 H].
  - exact (okf_Ok _ _ _ (guards_okf p mem g r Hp) H).
  - exact (okf_Ok _ _ _ (stepDone_okf p s mem g r Hp Hs) H).
  - exact (okf_Ok _ _ _ (planDone_okf p mem g r Hp) H).
Qed.

(** ** Slots *)
Lemma slot_cases id sl : replicaSlotAccessor theRegistry id = Some sl →
  (id = 0%nat ∧ sl = membershipSlotAccessor) ∨ (id = 1%nat ∧ sl = attachmentSlotAccessor).
Proof. destruct id as [|[|id]]; intros H; [left|right|done]; by injection H as <-. Qed.
Lemma slot_effect_tracking g g' : slot_effect theRegistry g g' → g_tracking g' = g_tracking g.
Proof. by intros [id sl r msg det [[_ ->]|[_ ->]]%slot_cases|id sl r a [[_ ->]|[_ ->]]%slot_cases]. Qed.

Lemma upd_rc_lookup i f g j :
  g_allReplicas (upd_rc i f g) !! j = (if decide (i = j) then f else id) <$> g_allReplicas g !! j.
Proof.
  unfold upd_rc; simpl. case_decide; subst; [apply list_lookup_alter_eq|].
  rewrite list_lookup_alter_ne by done. by destruct (g_allReplicas g !! j).
Qed.
Ltac slot_cbn := cbn [GetActiveTransition SetActiveTransition membershipSlotAccessor attachmentSlotAccessor] in *.
#[export] Instance slot_laws : SlotLaws theRegistry.
Proof.
  split.
  - intros id sl g r a [[_ ->]|[_ ->]]%slot_cases [b Hb]; slot_cbn;
      rewrite upd_rc_lookup, decide_True by done; by destruct (g_allReplicas g !! r).
  - intros id sl id' sl' g r r' a [[-> ->]|[-> ->]]%slot_cases [[-> ->]|[-> ->]]%slot_cases Hne;
      slot_cbn; rewrite upd_rc_lookup; case_decide; subst; destruct (g_allReplicas g !! r); try done;
      by destruct Hne.
  - by intros id sl g r a rid [[_ ->]|[_ ->]]%slot_cases.
Qed.

(** ** TrackerLaws *)
Definition tracks (g : globalContext) (l : list (ptr * Transition)) : Prop := tracks_k (g_tracking g) l.

Lemma conflict_request x t u : same_request t u → Tracker.conflict x u → Tracker.conflict x t.
Proof.
  intros (E1 & E2 & E3 & E4 & E5 & E6).
  assert (Hg : gid t = gid u) by (unfold gid; congruence).
  assert (Hgr : ∀ grp, isGroup grp t = isGroup grp u) by (intros; unfold isGroup; by rewrite E2).
  assert (Hm : isMembership t = isMembership u) by (unfold isMembership; by rewrite !Hgr).
  assert (Hgn : gaining t = gaining u)
    by (unfold gaining, isDiskGainingTransition; by rewrite Hm, E1, E4, E6).
  unfold Tracker.conflict. by rewrite E2, Hg, Hm, Hgn.
Qed.
Lemma conflict_sym t u : Tracker.conflict t u → Tracker.conflict u t.
Proof.
  unfold Tracker.conflict. intros [[E H]|[(H1 & H2 & H)|[H|H]]].
  - left. rewrite <-E. auto.
  - right; left. split_and!; try done.
    destruct H as [[? ?]|[(E & ? & ?)|(E & ? & ?)]]; [by left|right; left|right; right]; by rewrite E.
  - by right; right; right.
  - by right; right; left.
Qed.
#[export] Instance tracker_laws : TrackerLaws theRegistry concurrencyTracker tracks Tracker.conflict.
Proof.
  split; unfold tracks.
  - intros g l l' HF H. by eapply tracks_same.
  - intros t1 t2 t1' t2' H1 H2. intros Hc. assert (Hs : ∀ t u, same_meta t u → same_request t u).
    { intros t u. unfold same_meta, set_t_Steps. intros [=]. by repeat split. }
    eapply conflict_request; [by apply Hs|]. apply conflict_sym.
    eapply conflict_request; [by apply Hs|]. by apply conflict_sym.
  - apply conflict_sym.
  - intros a t g g' l H HA. simpl in HA. unfold Add in HA. bok HA as k Hk. injection HA as <-.
    by eapply Add_tracks.
  - intros a t g g' l r H Hc HR. simpl in HR. unfold Remove in HR. bok HR as k Hk. injection HR as <-.
    by eapply Remove_tracks.
  - intros p g rctx ty grp planID name steps t1 t2 a g1 g' l reason det Hp%registered_ok H1 H2 HT HC HA x Hx Hcf.
    pose proof (plan_init_ok p g rctx Hp) as Hi.
    assert (Hs : same_request t1 t2) by (by eapply (io_same _ Hi); [|done|done]; repeat split).
    simpl in HA. unfold Add in HA. bok HA as k Hk. simpl in HC. unfold CanAdmit in HC.
    refine (CanAdmit_no_conflict t1 _ _ l reason det HT _ HC x Hx _); [|by eapply conflict_request].
    destruct Hs as (_ & Eg & En & _). rewrite Eg, En. by eapply Add_named.
  - intros p mem g g' l Hp%registered_ok He. by rewrite (cf_tracking _ _ (plan_effect_frame p mem g g' Hp He)).
  - intros p s mem g rctx c g' l Hp%registered_ok Hs H.
    pose proof (okf_Ok _ _ _ (step_apply_okf p s mem g rctx Hp Hs) H) as Hf. simpl in Hf.
    by rewrite (cf_tracking _ _ Hf).
  - intros g g' l Hs. by rewrite (slot_effect_tracking _ _ Hs).
Qed.

(** ** Terminating *)
#[export] Instance provider_terminates : ProviderTerminates (G:=globalContext) (R:=nat).
Proof.
  split; simpl; intros.
  - apply index_not_fuel.
  - apply bind_not_fuel; [apply index_not_fuel|]. intros rc _.
    apply bind_not_fuel; [apply deref_not_fuel|done].
  - apply bind_not_fuel; [apply index_not_fuel|]. intros rc _.
    apply bind_not_fuel; [apply deref_not_fuel|done].
Qed.

Definition finite_dispatch (f : DispatchFunc globalContext nat) : Prop :=
  ∀ mem g, okf (f mem g) finite_decisions.
Lemma finite_resume d f : finite_dispatch f → finite_decisions (Yield d f).
Proof.
  intros Hf. constructor.
  - intros mem g. exact (okf_not_fuel _ _ (Hf mem g)).
  - intros mem g ds. exact (okf_Ok _ _ _ (Hf mem g)).
Qed.
Lemma visit_finite dec l rest : (∀ mem g i, okf (dec mem g i) (λ _, True)) → finite_dispatch rest →
  finite_dispatch (visit dec l rest).
Proof.
  intros Hd Hr. induction l as [|i l IH]; intros mem g; simpl; [apply Hr|].
  eapply okf_bind; [apply Hd|]. intros [d|] _; [by apply finite_resume|apply IH].
Qed.
Lemma yieldOne_finite (o : option (DispatchDecision nat)) :
  finite_decisions (yieldOne (K:=K) o).
Proof. destruct o; [|constructor]. apply finite_resume. intros mem g. constructor. Qed.
Lemma attachment_finite : finite_dispatch attachmentDispatcher.
Proof.
  assert (Hc : finite_dispatch attachmentCandidates).
  { intros mem g. apply visit_finite; [|by intros ??; constructor]. intros mem' g' i.
    unfold decideAttachmentForReplica. okf_walk. done. }
  intros mem g. apply visit_finite.
  - intros mem' g' i. unfold decideForceDetach. by okf_walk.
  - intros mem' g'. unfold attachmentToggle. destruct (decideMultiattachToggle g') as [d|]; [|apply Hc].
    by apply finite_resume.
Qed.
Lemma planChangeReplicaType_okf mem g rc rq : okf (planChangeReplicaType mem g rc rq) (λ _, True).
Proof.
  unfold planChangeReplicaType. destruct (memberOf rc); [|done].
  eapply (okf_bind _ _ (λ _, True)); [|done]. by okf_walk.
Qed.
Lemma membershipChoice_okf mem g rc : okf (membershipChoice mem g rc) (λ _, True).
Proof.
  unfold membershipChoice. repeat case_match; try done.
  eapply okf_bind; [apply planChangeReplicaType_okf|done].
Qed.
Lemma membership_finite : finite_dispatch membershipDispatcher.
Proof.
  intros mem g. apply visit_finite; [|by intros ??; constructor]. intros mem' g' i.
  eapply okf_bind; [apply okf_index|]. intros rc _.
  eapply okf_bind; [apply membershipChoice_okf|done].
Qed.

Lemma ReplicaID_okf t : okf (ReplicaID t) (λ _, True).
Proof. unfold ReplicaID. by okf_walk. Qed.
Lemma memberCheck_okf t k : okf (memberCheck t k) (λ _, True).
Proof.
  unfold memberCheck. case_match; [done|]. eapply okf_bind; [apply ReplicaID_okf|]. intros id _. by okf_walk.
Qed.
Lemma CanAdmit_okf t ma k : okf (CanAdmit_tracking t ma k) (λ _, True).
Proof.
  unfold CanAdmit_tracking, blocked, admitted. case_match; [done|]. case_match; [done|].
  eapply okf_bind; [apply memberCheck_okf|]. intros c _.
  destruct c as [[]|]; [done|]. destruct (t_Group t) eqn:E; try by repeat case_match.
  eapply (okf_bind _ _ (λ _, True)); [|intros; by repeat case_match].
  case_match; [done|]. eapply okf_bind; [apply ReplicaID_okf|done].
Qed.
#[export] Instance datamesh_terminates : Terminating theRegistry concurrencyTracker dispatchers.
Proof.
  split.
  - intros p s mem g r Hp%registered_ok Hs. exact (okf_not_fuel _ _ (step_apply_okf p s mem g r Hp Hs)).
  - intros p s mem g r rev Hp%registered_ok Hs. exact (okf_not_fuel _ _ (step_confirm_okf p s mem g r rev Hp Hs)).
  - intros p s mem g r Hp%registered_ok Hs. exact (okf_not_fuel _ _ (stepDone_okf p s mem g r Hp Hs)).
  - intros p mem g r Hp%registered_ok. exact (okf_not_fuel _ _ (planDone_okf p mem g r Hp)).
  - intros p mem g r Hp%registered_ok. exact (okf_not_fuel _ _ (guards_okf p mem g r Hp)).
  - intros p g r t Hp%registered_ok. exact (okf_not_fuel _ _ (io_meta _ (plan_init_ok p g r Hp) t)).
  - intros a t g. apply bind_not_fuel; [|done]. unfold Add_tracking, ReplicaID. by repeat case_match.
  - intros t g. apply bind_not_fuel; [|done]. unfold Remove_tracking, ReplicaID. by repeat case_match.
  - intros t g. exact (okf_not_fuel _ _ (CanAdmit_okf _ _ _)).
  - intros d mem g Hd. assert (Hf : finite_dispatch d).
    { unfold dispatchers in Hd. rewrite !elem_of_cons, elem_of_nil in Hd.
      destruct Hd as [-> | [-> | [-> | [-> | [-> | []]]]]];
        [intros ??; apply yieldOne_finite|intros ??; apply yieldOne_finite|apply membership_finite
        |apply attachment_finite|intros ??; apply yieldOne_finite]. }
    split; [exact (okf_not_fuel _ _ (Hf mem g))|]. intros dd. exact (okf_Ok _ _ _ (Hf mem g)).
Qed.
End laws.
