(* ===== verification/Effects.v ===== *)
(** * What the plans do to the members and to multiattach

    Each apply callback is classified by its [effects]: whether it may create a member, set an
    attached flag, or toggle multiattach.  Only the first step of a plan has effects: it may create
    a member (AddReplica), attach (Attach) or toggle multiattach; no later step, guard or completion
    does ([all_plans_effects]). *)

From Stdlib Require Import ZArith Lia String.
From stdpp Require Import base list numbers strings option relations.
From S2P Require Import Prelude IdSet DrbdSize Api Dmte DmteSteps Context Tracker Helpers Guards Network.
From S2P Require Import Quorum Attachment Membership Datamesh Frame Plans.
Import v1alpha1 dmte datamesh.
Import helpers guards network quorum resize attachment membership process.

Set Default Proof Using "Type".

Record effects := { ef_create : bool; ef_attach : bool; ef_multi : bool }.
Definition noEffect : effects := {| ef_create := false; ef_attach := false; ef_multi := false |}.

(** The effect of the first step of a plan of a given type. *)
Definition headEffect (ty : TransitionType) : effects :=
  {| ef_create := bool_decide (ty = AddReplica);
     ef_attach := bool_decide (ty = Attach);
     ef_multi := bool_decide (ty = EnableMultiattach) || bool_decide (ty = DisableMultiattach) |}.

Section effects.
Context `{K : K8s}.
Implicit Types (g : globalContext) (rc : ReplicaContext) (ef : effects).

Record member_effect ef rc rc' : Prop := {
  me_id : rc_id rc' = rc_id rc;
  me_name : rc_name rc' = rc_name rc;
  me_rvr : rc_rvr rc' = rc_rvr rc;
  me_origin m' o : rc_member rc' = Some (m', o) →
    (∃ m, rc_member rc = Some (m, o) ∧ m_Name m' = m_Name m) ∨
    (ef_create ef = true ∧ o = None ∧ m_Name m' = rc_name rc ∧ is_Some (rc_rvr rc));
  me_attached : isAttached rc' = true → isAttached rc = true ∨ ef_attach ef = true;
}.
Record respects ef g g' : Prop := {
  re_multi : ef_multi ef = true ∨ dm_multiattach (g_datamesh g') = dm_multiattach (g_datamesh g);
  re_ctx : Forall2 (member_effect ef) (g_allReplicas g) (g_allReplicas g');
}.

#[global] Instance member_effect_preorder ef : PreOrder (member_effect ef).
Proof.
  split.
  - intros rc. split; try done; [|by left]. intros m' o H. left. eauto.
  - intros rc1 rc2 rc3 [I1 N1 R1 O1 A1] [I2 N2 R2 O2 A2]. split; [congruence|congruence|congruence| |].
    + intros m' o H. rewrite R1 in O2.
      destruct (O2 _ _ H) as [(m & H2 & E)|(? & ? & E & ?)]; [|right; split_and!; congruence].
      destruct (O1 _ _ H2) as [(m1 & H1 & E1)|(? & ? & E1 & ?)]; [left; exists m1|right]; split_and!; congruence.
    + intros H. destruct (A2 H) as [H2|?]; [|by right]. by apply A1.
Qed.
#[global] Instance respects_preorder ef : PreOrder (respects ef).
Proof.
  split; [intros g; split; [by right|reflexivity]|].
  intros g1 g2 g3 [M1 C1] [M2 C2]. split; [|by etrans].
  destruct M1 as [?|M1]; [by left|]. destruct M2 as [?|M2]; [by left|]. right. congruence.
Qed.
Lemma respects_mono ef ef' g g' : (ef_create ef = true → ef_create ef' = true) →
  (ef_attach ef = true → ef_attach ef' = true) → (ef_multi ef = true → ef_multi ef' = true) →
  respects ef g g' → respects ef' g g'.
Proof.
  intros H1 H2 H3 [M C]. split; [destruct M; auto|]. eapply Forall2_impl; [exact C|].
  intros rc rc' [I N R O A]. split; try done.
  - intros m' o H. destruct (O _ _ H) as [?|(? & ? & ?)]; [by left|right; auto].
  - intros H. destruct (A H); auto.
Qed.
Lemma respects_none ef g g' : respects noEffect g g' → respects ef g g'.
Proof. by apply respects_mono. Qed.

(** ** Elementary updates *)
Lemma ef_datamesh ef d g : ef_multi ef = true ∨ dm_multiattach d = dm_multiattach (g_datamesh g) →
  respects ef g (set_datamesh d g).
Proof. intros H. split; [done|reflexivity]. Qed.
Lemma ef_contexts ef (f : ReplicaContext → ReplicaContext) g : (∀ rc, member_effect ef rc (f rc)) →
  respects ef g (set_allReplicas (map f (g_allReplicas g)) g).
Proof. intros Hf. split; [by right|]. simpl. apply Forall2_fmap_r, Forall_Forall2_diag, Forall_true. done. Qed.
Lemma ef_upd_rc_at ef i f g : (∀ rc, g_allReplicas g !! i = Some rc → member_effect ef rc (f rc)) →
  respects ef g (upd_rc i f g).
Proof.
  intros Hf. split; [by right|]. simpl. apply Forall2_same_length_lookup_2; [by rewrite length_alter|].
  intros j x y Hx Hy. destruct (decide (i = j)) as [->|Hne].
  - rewrite list_lookup_alter_eq, Hx in Hy. injection Hy as <-. auto.
  - rewrite list_lookup_alter_ne, Hx in Hy by done. by simplify_eq.
Qed.
Lemma me_same ef rc rc' : rc_id rc' = rc_id rc → rc_name rc' = rc_name rc → rc_rvr rc' = rc_rvr rc →
  rc_member rc' = rc_member rc → member_effect ef rc rc'.
Proof.
  intros HI HN HR HM. split; try done.
  - intros m' o H. left. exists m'. by rewrite <-HM.
  - unfold isAttached, memberOf. rewrite HM. auto.
Qed.
Lemma me_mutate ef (f : DatameshMember → DatameshMember) rc :
  (∀ m, m_Name (f m) = m_Name m ∧ (m_Attached (f m) = true → m_Attached m = true ∨ ef_attach ef = true)) →
  member_effect ef rc (mutate_member f rc).
Proof.
  intros Hf. unfold mutate_member. split; simpl; try done.
  - intros m' o. destruct (rc_member rc) as [[m o1]|]; simpl; [|done]. intros [= <- <-]. left.
    exists m. split; [done|apply Hf].
  - unfold isAttached, memberOf. simpl. destruct (rc_member rc) as [[m o1]|]; simpl; [apply Hf|done].
Qed.

(** ** Callbacks *)
Definition rapply_ef ef (f : ReplicaApplyFunc globalContext nat) : Prop :=
  ∀ mem g r, okf (f mem g r) (λ x, respects ef g x.2).
Definition gapply_ef ef (f : GlobalApplyFunc globalContext) : Prop :=
  ∀ mem g, okf (f mem g) (λ x, respects ef g x.2).

Lemma on_member_ef ef (f : DatameshMember → bool * DatameshMember) :
  (∀ m, m_Name (f m).2 = m_Name m ∧
        (m_Attached (f m).2 = true → m_Attached m = true ∨ ef_attach ef = true)) →
  rapply_ef ef (on_member f).
Proof.
  intros Hf mem g r. eapply okf_bind; [apply rc_at_okf|]. intros rc (i & -> & Hi).
  eapply okf_bind; [apply okf_deref|]. intros m Hm. specialize (Hf m).
  destruct (f m) as [[] m']; simpl in *; [|reflexivity]. apply ef_upd_rc_at. intros rc' Hrc.
  rewrite Hi in Hrc. injection Hrc as <-. unfold memberOf in Hm.
  destruct (rc_member rc) as [[m1 o]|] eqn:E; [|done]. injection Hm as ->.
  unfold mutate_member. split; simpl; try done.
  - rewrite E. simpl. intros m2 o2 [= <- <-]. left. exists m. split; [done|apply Hf].
  - unfold isAttached, memberOf. simpl. rewrite E. simpl. apply Hf.
Qed.
Lemma setType_ef ef ty : rapply_ef ef (setType ty).
Proof. apply on_member_ef. intros m. destruct (SetChanged _ _). split; [done|]. auto. Qed.
Lemma clearBackingVolume_ef ef : rapply_ef ef clearBackingVolume.
Proof. apply on_member_ef. intros m. destruct (SetChanged _ _), (SetChanged _ _). split; [done|]. auto. Qed.
Lemma setBackingVolumeFromRequest_ef ef : rapply_ef ef setBackingVolumeFromRequest.
Proof.
  intros mem g r. eapply okf_bind; [apply rc_at_okf|]. intros rc _.
  eapply okf_bind; [apply okf_deref|]. intros m _.
  eapply okf_bind; [apply okf_deref|]. intros [rq i] _. apply on_member_ef.
  intros m1. destruct (SetChanged _ _), (SetChanged _ _). split; [done|]. auto.
Qed.
Lemma createMember_ef ef ty : ef_create ef = true → rapply_ef ef (createMember ty).
Proof.
  intros Hc mem g r. unfold createMember. eapply okf_bind; [apply okf_deref|]. intros i _.
  eapply okf_bind; [apply okf_index|]. intros rc Hi. cbv zeta.
  eapply okf_bind; [apply okf_deref|]. intros rvr Hr. simpl. apply ef_upd_rc_at. intros rc' Hrc.
  rewrite Hi in Hrc. injection Hrc as <-. split; simpl; try done.
  intros m' o [= <- <-]. right. by rewrite Hr.
Qed.
Lemma member_removed ef rc : member_effect ef rc (set_rc_member None rc).
Proof. by split. Qed.
Lemma removeMember_ef ef : rapply_ef ef removeMember.
Proof.
  intros mem g r. unfold removeMember. eapply okf_bind; [apply okf_deref|]. intros i _.
  eapply okf_bind; [apply okf_index|]. intros rc Hi. cbv zeta.
  assert (Hr : respects ef g (upd_rc i (set_rc_member None) g))
    by (apply ef_upd_rc_at; intros; apply member_removed).
  destruct (rc_rvr rc); [done|]. eapply okf_bind; [apply okf_index|]. intros o _. simpl.
  transitivity (upd_rc i (set_rc_member None) g); [done|]. split; [by right|reflexivity].
Qed.
Lemma applyAttach_ef ef : ef_attach ef = true → rapply_ef ef applyAttach.
Proof. intros Ha. apply on_member_ef. intros m. destruct (SetChanged _ _). split; [done|]. auto. Qed.
Lemma applyDetach_ef ef : rapply_ef ef applyDetach.
Proof.
  apply on_member_ef. intros m. unfold SetChanged. case_decide; simpl; (split; [done|]); [auto|done].
Qed.
Lemma applyMultiattach_ef ef b : ef_multi ef = true → gapply_ef ef (applyMultiattach b).
Proof. intros Hm mem g. unfold applyMultiattach. destruct (SetChanged _ _). apply ef_datamesh. by left. Qed.
Lemma asReplicaApply_ef ef f : gapply_ef ef f → rapply_ef ef (asReplicaApply f).
Proof. intros Hf mem g r. apply Hf. Qed.
Lemma ComposeReplicaApply_ef ef fs : Forall (rapply_ef ef) fs → rapply_ef ef (ComposeReplicaApply fs).
Proof.
  induction 1 as [|f fs Hf _ IH]; intros mem g r; simpl; [reflexivity|].
  eapply okf_bind; [apply Hf|]. intros [c g1] H1. eapply okf_bind; [apply IH|].
  intros [c' g2] H2. simpl in *. by transitivity g1.
Qed.
Lemma ComposeGlobalApply_ef ef (fs : list (GlobalApplyFunc globalContext)) :
  Forall (gapply_ef ef) fs → gapply_ef ef (ComposeGlobalApply fs).
Proof.
  induction 1 as [|f fs Hf _ IH]; intros mem g; simpl; [reflexivity|].
  eapply okf_bind; [apply Hf|]. intros [c g1] H1. eapply okf_bind; [apply IH|].
  intros [c' g2] H2. simpl in *. by transitivity g1.
Qed.
(** Quorum, redundancy, network names and size. *)
Lemma set_datamesh_ef ef (f : globalContext → bool) h :
  (∀ g, dm_multiattach (h g) = dm_multiattach (g_datamesh g)) →
  gapply_ef ef (λ _ g, Ok (f g, set_datamesh (h g) g)).
Proof. intros Hh mem g. apply ef_datamesh. by right. Qed.
Lemma updateBaselineGMDR_ef ef : gapply_ef ef updateBaselineGMDR.
Proof.
  intros mem g. unfold updateBaselineGMDR. destruct (SetChanged _ _). simpl. split; [by right|reflexivity].
Qed.
Lemma setCorrectQ_ef ef : gapply_ef ef setCorrectQ.
Proof.
  intros mem g. unfold setCorrectQ. destruct (computeCorrectQuorum g), (SetChanged _ _).
  apply ef_datamesh. by right.
Qed.
Lemma setCorrectQMR_ef ef : gapply_ef ef setCorrectQMR.
Proof.
  intros mem g. unfold setCorrectQMR. destruct (computeCorrectQuorum g), (SetChanged _ _).
  apply ef_datamesh. by right.
Qed.
Lemma applyResizeVolume_ef ef : gapply_ef ef applyResizeVolume.
Proof. intros mem g. unfold applyResizeVolume. okf_walk; [reflexivity|]. apply ef_datamesh. by right. Qed.

Lemma map_contexts_ef ef f g : (∀ rc, member_effect ef rc (f rc).2) → respects ef g (map_contexts f g).2.
Proof. intros Hf. unfold map_contexts. simpl. rewrite map_map. by apply ef_contexts. Qed.
Lemma me_addresses ef h rc : member_effect ef rc (mutate_member (λ m, set_m_Addresses (h m) m) rc).
Proof. apply me_mutate. intros m. split; [done|]. auto. Qed.
Lemma repairAddresses_ef ef : gapply_ef ef repairAddresses.
Proof.
  intros mem g. apply map_contexts_ef. intros rc. unfold repairContext.
  destruct (memberOf rc) as [m|] eqn:Em, (rc_rvr rc) as [rvr|]; simpl; try reflexivity.
  unfold repairMemberAddresses. destruct (addressesEqual _ _); simpl; [reflexivity|].
  unfold memberOf in Em. destruct (rc_member rc) as [[m1 o]|] eqn:E; [|done]. injection Em as ->.
  split; simpl; try done.
  - rewrite E. simpl. intros m2 o2 [= <- <-]. left. by exists m.
  - unfold isAttached, memberOf. simpl. rewrite E. simpl. auto.
Qed.
Lemma addNewNetworks_ef ef : gapply_ef ef addNewNetworks.
Proof.
  intros mem g. unfold addNewNetworks. eapply okf_bind; [apply addedNetworks_okf|]. intros l _.
  destruct (foldl _ _ _). apply ef_datamesh. by right.
Qed.
Lemma removeOldNetworksAndAddresses_ef ef : gapply_ef ef removeOldNetworksAndAddresses.
Proof.
  intros mem g. unfold removeOldNetworksAndAddresses. eapply okf_bind; [apply removedNetworks_okf|].
  intros [|n l] _; [simpl; reflexivity|]. cbv zeta. set (g1 := set_datamesh _ g).
  pose proof (map_contexts_ef ef (removeAddresses (n :: l)) g1) as Hm.
  destruct (map_contexts _ g1) as [c2 g2]. simpl in *. transitivity g1; [apply ef_datamesh; by right|].
  apply Hm. intros rc. unfold removeAddresses. destruct (memberOf rc); [|reflexivity].
  case_match; [reflexivity|]. apply (me_addresses ef (λ _, _)).
Qed.
Lemma addNewAddresses_ef ef : gapply_ef ef addNewAddresses.
Proof.
  intros mem g. unfold addNewAddresses. eapply okf_bind; [apply addedNetworks_okf|].
  intros [|n l] _; [simpl; reflexivity|]. apply map_contexts_ef. intros rc. unfold addAddresses.
  destruct (memberOf rc), (rc_rvr rc); simpl; try reflexivity. destruct (foldl _ _ _) as [[] ?]; [|reflexivity].
  apply (me_addresses ef (λ _, _)).
Qed.

(** ** Guards and completions *)
Definition quiet_result {A} g (o : outcome A) (view : A → globalContext) : Prop :=
  okf o (λ x, respects noEffect g (view x)).
Lemma rguard_global_ef f mem g r : quiet_result g (on_global f mem g r) snd.
Proof. unfold quiet_result. simpl. reflexivity. Qed.
Lemma rguard_subject_ef f mem g r : (∀ mem g rc, okf (f mem g rc) (λ _, True)) →
  quiet_result g (on_subject f mem g r) snd.
Proof.
  intros Hf. eapply okf_bind; [apply rc_at_okf|]. intros rc _. eapply okf_bind; [apply Hf|]. intros x _.
  simpl. reflexivity.
Qed.
Lemma gguard_ef f mem g : quiet_result g (ggate f mem g) snd.
Proof. unfold quiet_result. simpl. reflexivity. Qed.
Lemma guardMaxDiskMembers_ef mem g r : quiet_result g (guardMaxDiskMembers mem g r) snd.
Proof.
  unfold quiet_result, guardMaxDiskMembers. eapply (okf_bind _ _ (λ _, True)); [|simpl; reflexivity].
  induction (g_allReplicas g) as [|rc l IH]; simpl; [done|].
  eapply (okf_bind _ _ (λ _, True)); [unfold pendingDisk; okf_walk; done|intros].
  eapply okf_bind; [apply IH|done].
Qed.
Lemma guardQuorumSatisfied_ef mem g r : quiet_result g (guardQuorumSatisfied mem g r) snd.
Proof.
  unfold quiet_result, guardQuorumSatisfied, isQuorumSatisfied.
  destruct (g_quorumSatisfied g); [simpl; reflexivity|]. destruct (computeQuorumCheck g).
  split; [by right|reflexivity].
Qed.
Lemma guardBackingVolumesGrown_ef mem g : quiet_result g (guardBackingVolumesGrown mem g) snd.
Proof.
  unfold quiet_result, guardBackingVolumesGrown. eapply okf_bind; [apply LowerVolumeSize_okf|].
  intros. simpl. reflexivity.
Qed.
Lemma set_membershipMessage_ef msg g i : respects noEffect g (set_membershipMessage msg g i).
Proof. apply ef_upd_rc_at. intros rc _. by apply me_same. Qed.
Lemma onComplete_ef f : f ∈ [onJoinComplete; onLeaveComplete; onForceRemoveComplete; onChangeTypeComplete] →
  ∀ mem g r, quiet_result g (f mem g r) id.
Proof.
  intros Hf mem g r. rewrite !elem_of_cons, elem_of_nil in Hf. unfold quiet_result.
  destruct Hf as [-> | [-> | [-> | [-> | []]]]];
    unfold onJoinComplete, onLeaveComplete, onForceRemoveComplete, onChangeTypeComplete; okf_walk;
    try apply set_membershipMessage_ef; reflexivity.
Qed.
Lemma gdone_ef (f : GlobalApplyFunc globalContext) : gapply_ef noEffect f →
  ∀ mem g, quiet_result g (AdaptApplyToOnComplete f mem g) id.
Proof. intros Hf mem g. eapply okf_bind; [apply Hf|]. by intros [c g']. Qed.

(** ** Plans *)
Record step_ef ef (s : step globalContext nat) : Prop := {
  se_gapply f : st_globalApply s = Some f → gapply_ef ef f;
  se_rapply f : st_replicaApply s = Some f → rapply_ef ef f;
  se_gdone f : st_globalOnComplete s = Some f → ∀ mem g, quiet_result g (f mem g) id;
  se_rdone f : st_replicaOnComplete s = Some f → ∀ mem g r, quiet_result g (f mem g r) id;
}.
Record plan_ef (p : plan globalContext nat) : Prop := {
  pe_rguards : Forall (λ f, ∀ mem g r, quiet_result g (f mem g r) snd) (pl_replicaGuards p);
  pe_gguards : Forall (λ f, ∀ mem g, quiet_result g (f mem g) snd) (pl_globalGuards p);
  pe_head s : pl_steps p !! 0%nat = Some s → step_ef (headEffect (pl_transitionType p)) s;
  pe_tail : Forall (step_ef noEffect) (tail (pl_steps p));
  pe_rdone f : pl_replicaOnComplete p = Some f → ∀ mem g r, quiet_result g (f mem g r) id;
  pe_gdone f : pl_globalOnComplete p = Some f → ∀ mem g, quiet_result g (f mem g) id;
}.
Lemma step_ef_intro ef (s : step globalContext nat) :
  match st_globalApply s with Some f => gapply_ef ef f | None => True end →
  match st_replicaApply s with Some f => rapply_ef ef f | None => True end →
  match st_globalOnComplete s with Some f => ∀ mem g, quiet_result g (f mem g) id | None => True end →
  match st_replicaOnComplete s with Some f => ∀ mem g r, quiet_result g (f mem g r) id | None => True end →
  step_ef ef s.
Proof. intros. split; intros f E; by simplify_option_eq. Qed.
Lemma plan_ef_intro (p : plan globalContext nat) :
  Forall (λ f, ∀ mem g r, quiet_result g (f mem g r) snd) (pl_replicaGuards p) →
  Forall (λ f, ∀ mem g, quiet_result g (f mem g) snd) (pl_globalGuards p) →
  match pl_steps p with
  | [] => True
  | s :: _ => step_ef (headEffect (pl_transitionType p)) s
  end →
  Forall (step_ef noEffect) (tail (pl_steps p)) →
  match pl_replicaOnComplete p with Some f => ∀ mem g r, quiet_result g (f mem g r) id | None => True end →
  match pl_globalOnComplete p with Some f => ∀ mem g, quiet_result g (f mem g) id | None => True end →
  plan_ef p.
Proof.
  intros ?? Hh ???. split; try done; [|intros f E; by simplify_option_eq..].
  intros s Hs. destruct (pl_steps p); [done|]. by injection Hs as <-.
Qed.
End effects.

Ltac effect :=
  lazymatch goal with
  | |- quiet_result _ (guardMaxDiskMembers _ _ _) _ => apply guardMaxDiskMembers_ef
  | |- quiet_result _ (guardQuorumSatisfied _ _ _) _ => apply guardQuorumSatisfied_ef
  | |- quiet_result _ (on_global _ _ _ _) _ => apply rguard_global_ef
  | |- quiet_result _ (on_subject _ _ _ _) _ =>
      apply rguard_subject_ef; intros; cbv beta zeta; okf_walk; done
  | |- quiet_result _ (guardBackingVolumesGrown _ _) _ => apply guardBackingVolumesGrown_ef
  | |- quiet_result _ (ggate _ _ _) _ => apply gguard_ef
  | |- quiet_result _ (AdaptApplyToOnComplete _ _ _) _ => apply gdone_ef; effect
  | |- quiet_result _ (onJoinComplete _ _ _) _ => apply onComplete_ef; rewrite !elem_of_cons; tauto
  | |- quiet_result _ (onLeaveComplete _ _ _) _ => apply onComplete_ef; rewrite !elem_of_cons; tauto
  | |- quiet_result _ (onForceRemoveComplete _ _ _) _ => apply onComplete_ef; rewrite !elem_of_cons; tauto
  | |- quiet_result _ (onChangeTypeComplete _ _ _) _ => apply onComplete_ef; rewrite !elem_of_cons; tauto
  | |- quiet_result ?g (?f ?mem ?g ?r) ?v =>
      let f' := eval red in f in change (quiet_result g (f' mem g r) v); effect
  | |- quiet_result ?g (?f ?mem ?g) ?v =>
      let f' := eval red in f in change (quiet_result g (f' mem g) v); effect
  | |- rapply_ef _ (createMember _) => apply createMember_ef; reflexivity
  | |- rapply_ef _ (setType _) => apply setType_ef
  | |- rapply_ef _ setBackingVolumeFromRequest => apply setBackingVolumeFromRequest_ef
  | |- rapply_ef _ clearBackingVolume => apply clearBackingVolume_ef
  | |- rapply_ef _ removeMember => apply removeMember_ef
  | |- rapply_ef _ applyAttach => apply applyAttach_ef; reflexivity
  | |- rapply_ef _ applyDetach => apply applyDetach_ef
  | |- rapply_ef _ (asReplicaApply _) => apply asReplicaApply_ef; effect
  | |- rapply_ef _ (ComposeReplicaApply _) => apply ComposeReplicaApply_ef; forall_list; effect
  | |- gapply_ef _ (ComposeGlobalApply _) => apply ComposeGlobalApply_ef; forall_list; effect
  | |- gapply_ef _ updateBaselineGMDR => apply updateBaselineGMDR_ef
  | |- gapply_ef _ setCorrectQ => apply setCorrectQ_ef
  | |- gapply_ef _ setCorrectQMR => apply setCorrectQMR_ef
  | |- gapply_ef _ applyResizeVolume => apply applyResizeVolume_ef
  | |- gapply_ef _ repairAddresses => apply repairAddresses_ef
  | |- gapply_ef _ addNewNetworks => apply addNewNetworks_ef
  | |- gapply_ef _ removeOldNetworksAndAddresses => apply removeOldNetworksAndAddresses_ef
  | |- gapply_ef _ addNewAddresses => apply addNewAddresses_ef
  | |- gapply_ef _ applyEnableMultiattach => apply applyMultiattach_ef; reflexivity
  | |- gapply_ef _ applyDisableMultiattach => apply applyMultiattach_ef; reflexivity
  | |- gapply_ef _ _ => apply set_datamesh_ef; reflexivity
  end.

Section plans.
Context `{K : K8s}.
Implicit Types (g : globalContext) (rc : ReplicaContext).

Lemma all_plans_effects : Forall (λ e, plan_ef e.2) (reg_plans theRegistry).
Proof.
  unfold theRegistry. cbn [reg_plans]. forall_list.
  all: apply plan_ef_intro; cbn [snd pl_steps tail pl_transitionType pl_replicaGuards pl_globalGuards
    pl_replicaOnComplete pl_globalOnComplete]; try exact I.
  all: lazymatch goal with
       | |- step_ef _ _ => apply step_ef_intro; cbn [st_globalApply st_replicaApply
             st_globalOnComplete st_replicaOnComplete]; try exact I; intros; effect
       | |- Forall (step_ef _) _ => forall_list; apply step_ef_intro; cbn [st_globalApply st_replicaApply
             st_globalOnComplete st_replicaOnComplete]; try exact I; intros; effect
       | |- Forall _ _ => forall_list; intros; effect
       | |- _ => intros; effect
       end.
Qed.
Lemma registered_ef p : registered theRegistry p → plan_ef p.
Proof. intros (ty & id & H%reg_get_In). exact (Forall_elem _ _ _ all_plans_effects H). Qed.

Lemma step_apply_ef ef s mem g r : step_ef ef s → okf (step_apply s mem g r) (λ x, respects ef g x.2).
Proof.
  intros [H1 H2 _ _]. unfold step_apply.
  destruct (st_scope s); (eapply okf_bind; [apply okf_deref|]); intros f E; [by apply H1|by apply H2].
Qed.
Lemma runGuards_ef (fs : list (globalContext → outcome (GuardResult * globalContext))) g :
  Forall (λ f, ∀ g, quiet_result g (f g) snd) fs → quiet_result g (runGuards fs g) snd.
Proof.
  intros H. revert g. induction H as [|f fs Hf _ IH]; intros g; [unfold quiet_result; simpl; reflexivity|].
  unfold quiet_result. simpl. eapply okf_bind; [apply Hf|]. intros [res g1] Hg1. simpl in Hg1.
  destruct (gr_Blocked res); [done|]. eapply okf_mono; [apply IH|]. intros [r2 g2] ?. by transitivity g1.
Qed.
Lemma plan_effect_ef p mem g g' : plan_ef p → plan_effect p mem g g' → respects noEffect g g'.
Proof.
  intros Hp [r res g1 H|s r g1 Hs H|r g1 H].
  - enough (Hq : quiet_result g (plan_evaluateGuards p mem g r) snd) by exact (okf_Ok _ _ _ Hq H).
    unfold plan_evaluateGuards. destruct (pl_scope p); apply runGuards_ef, List.Forall_map.
    + refine (List.Forall_impl _ _ (pe_gguards p Hp)). auto.
    + refine (List.Forall_impl _ _ (pe_rguards p Hp)). auto.
  - assert (Hse : ∃ ef, step_ef ef s).
    { destruct Hp as [_ _ Hh Ht _ _]. destruct (pl_steps p) as [|s0 ss]; [by apply elem_of_nil in Hs|].
      apply elem_of_cons in Hs as [-> | Hs]; [by eexists; apply Hh|]. eexists. by eapply Forall_elem. }
    destruct Hse as [ef [_ _ H1 H2]]. unfold step_callOnComplete in H.
    destruct (st_scope s).
    + destruct (st_globalOnComplete s) as [f|] eqn:E; [exact (okf_Ok _ _ _ (H1 f eq_refl mem g) H)|].
      injection H as <-. reflexivity.
    + destruct (st_replicaOnComplete s) as [f|] eqn:E; [exact (okf_Ok _ _ _ (H2 f eq_refl mem g r) H)|].
      injection H as <-. reflexivity.
  - unfold plan_callOnComplete in H. destruct (pl_scope p).
    + destruct (pl_globalOnComplete p) as [f|] eqn:E; [exact (okf_Ok _ _ _ (pe_gdone p Hp f E mem g) H)|].
      injection H as <-. reflexivity.
    + destruct (pl_replicaOnComplete p) as [f|] eqn:E; [exact (okf_Ok _ _ _ (pe_rdone p Hp f E mem g r) H)|].
      injection H as <-. reflexivity.
Qed.
Lemma step_apply_effect p k s mem g r c g' : plan_ef p → pl_steps p !! k = Some s →
  step_apply s mem g r = Ok (c, g') →
  respects (match k with O => headEffect (pl_transitionType p) | S _ => noEffect end) g g'.
Proof.
  intros Hp Hs H. destruct k as [|k].
  - exact (okf_Ok _ _ _ (step_apply_ef _ _ mem g r (pe_head p Hp s Hs)) H).
  - destruct (pl_steps p) as [|s0 ss] eqn:E; [done|]. simpl in Hs.
    pose proof (pe_tail p Hp) as Ht. rewrite E in Ht. simpl in Ht. rewrite Forall_lookup in Ht.
    exact (okf_Ok _ _ _ (step_apply_ef _ _ mem g r (Ht _ _ Hs)) H).
Qed.
End plans.
