(* ===== verification/Contexts.v ===== *)
(** * buildContexts and writeback: the ID index and what it finds

    [ctx_wf] is the invariant of the ID index; [buildContexts_wf] establishes it and
    [buildContexts_at] says which object the context of an ID holds. *)

From Stdlib Require Import ZArith Lia String.
From stdpp Require Import base list numbers strings option relations.
From S2P Require Import Prelude IdSet DrbdSize Api Dmte Context.
Import idset v1alpha1 dmte datamesh.

Set Default Proof Using "Type".

Lemma foldl_ext {A B} (f h : B → A → B) b l : (∀ b a, f b a = h b a) → foldl f b l = foldl h b l.
Proof. intros H. revert b. induction l as [|a l IH]; intros b; simpl; [done|]. by rewrite H, IH. Qed.

Definition name_ok (n : string) : Prop := n = "" ∨ valid_id (idFromName n).

Section contexts.
Context `{K : K8s}.
Implicit Types (g : globalContext) (rc : ReplicaContext).

(** A context is named after its ID, or has no name. *)
Definition named rc : Prop := rc_name rc = "" ∨ idFromName (rc_name rc) = rc_id rc.

(** The ID index points to the context of that ID, and finds every named context. *)
Record ctx_wf g : Prop := {
  cw_length : length (g_replicas g) = 32%nat;
  cw_index id i : g_replicas g !! id = Some (Some i) →
    ∃ rc, g_allReplicas g !! i = Some rc ∧ rc_id rc = Z.of_nat id;
  cw_ids : Forall (λ rc, valid_id (rc_id rc)) (g_allReplicas g);
  cw_named i rc : g_allReplicas g !! i = Some rc → rc_name rc ≠ "" →
    g_replicas g !! Z.to_nat (rc_id rc) = Some (Some i);
  cw_names : Forall named (g_allReplicas g);
}.

Lemma replicaAt_Some g id rc : replicaAt g id = Some rc ↔
  ∃ i, g_replicas g !! Z.to_nat id = Some (Some i) ∧ g_allReplicas g !! i = Some rc.
Proof.
  unfold replicaAt. destruct (g_replicas g !! Z.to_nat id) as [[i|]|]; simpl.
  - split; [by exists i|]. by intros (j & [= ->] & H).
  - split; [done|]. by intros (j & ? & _).
  - split; [done|]. by intros (j & ? & _).
Qed.
Lemma index_inj g id id' i : ctx_wf g → g_replicas g !! id = Some (Some i) →
  g_replicas g !! id' = Some (Some i) → id = id'.
Proof.
  intros Hw H1 H2. destruct (cw_index g Hw _ _ H1) as (rc & E & F).
  destruct (cw_index g Hw _ _ H2) as (rc' & E' & F'). simplify_eq. lia.
Qed.

(** ** Writing through the index *)
Lemma with_rc_wf id f g g' : ctx_wf g → 0 ≤ id → (∀ rc, rc_id (f rc) = rc_id rc) →
  (∀ rc, named rc → rc_id rc = id → named (f rc)) →
  with_rc id f g = Ok g' → ctx_wf g' ∧
  ∀ j, 0 ≤ j → replicaAt g' j = (if decide (j = id) then f else λ x, x) <$> replicaAt g j.
Proof.
  intros Hw Hid Hf Hn H. unfold with_rc in H. bok H as r Hr%index_Ok. bok H as i Hi%deref_Ok.
  subst r. injection H as <-.
  assert (Hv : valid_id id).
  { apply lookup_lt_Some in Hr as Hlt. rewrite (cw_length g Hw) in Hlt. unfold valid_id. lia. }
  assert (Hat : ∀ k, g_allReplicas (upd_rc i f g) !! k
                     = (if decide (k = i) then f else λ x, x) <$> g_allReplicas g !! k).
  { intros k. unfold upd_rc. simpl. case_decide; subst; [apply list_lookup_alter_eq|].
    rewrite list_lookup_alter_ne by done. by destruct (g_allReplicas g !! k). }
  assert (Hother : ∀ j k, g_replicas g !! j = Some (Some k) → k = i ↔ j = Z.to_nat id)
    by (intros j k Hj; split; intros ->; [by eapply index_inj|congruence]).
  split; [split; simpl|].
  - apply Hw.
  - intros j k Hj. destruct (cw_index g Hw _ _ Hj) as (rc & E & F). rewrite Hat, E. simpl.
    eexists; split; [done|]. case_decide; [|done]. by rewrite Hf.
  - apply Forall_alter; [apply Hw|]. intros rc _ ?. by rewrite Hf.
  - intros k rc Hk Hne. rewrite Hat in Hk. destruct (g_allReplicas g !! k) as [rc0|] eqn:E; [|done].
    simpl in Hk. injection Hk as <-. destruct (decide (k = i)) as [->|Hki].
    + rewrite Hf. destruct (cw_index g Hw _ _ Hr) as (rc1 & E1 & F1). simplify_eq.
      by rewrite F1, Nat2Z.id.
    + by apply (cw_named g Hw).
  - apply Forall_alter; [apply Hw|]. intros rc Ei ?. apply Hn; [done|].
    destruct (cw_index g Hw _ _ Hr) as (rc1 & E1 & F1). simplify_eq. unfold valid_id in Hv. lia.
  - intros j Hj. unfold replicaAt. simpl. destruct (g_replicas g !! Z.to_nat j) as [[k|]|] eqn:E; simpl; try done.
    rewrite Hat. destruct (Hother _ _ E) as [H1 H2]. destruct (g_allReplicas g !! k); simpl; [|done].
    do 2 case_decide; try done; subst; [|by destruct H2]. exfalso. pose proof (H1 eq_refl). lia.
Qed.

Lemma foldO_with_rc {A} (ID : A → Z) (F : A → ReplicaContext → ReplicaContext) l g g' : ctx_wf g →
  (∀ x, 0 ≤ ID x) → (∀ x rc, rc_id (F x rc) = rc_id rc) →
  (∀ x rc, named rc → rc_id rc = ID x → named (F x rc)) →
  foldO (λ x, with_rc (ID x) (F x)) l g = Ok g' → NoDup (ID <$> l) → ctx_wf g' ∧
  ∀ j, 0 ≤ j → replicaAt g' j =
    match list_find (λ x, ID x = j) l with
    | Some (_, x) => F x <$> replicaAt g j
    | None => replicaAt g j
    end.
Proof.
  intros Hw Hid Hf Hn. revert g Hw. induction l as [|x l IH]; intros g Hw H Hnd; simpl in H.
  { injection H as <-. done. }
  bok H as g1 H1. apply NoDup_cons in Hnd as [Hx Hnd].
  destruct (with_rc_wf _ _ _ _ Hw (Hid x) (Hf x) (Hn x) H1) as [Hw1 Hat].
  destruct (IH g1 Hw1 H Hnd) as [Hw2 Hat2]. split; [done|]. intros j Hj. simpl. rewrite Hat2 by done.
  rewrite Hat by done. case_decide as Hd; case_decide as Hd'; subst; try done.
  - destruct (list_find _ l) as [[k y]|] eqn:E; [|done]. exfalso. apply Hx.
    apply list_find_Some in E as (E & Ey & _). rewrite <-Ey. apply list_elem_of_fmap.
    exists y. split; [done|]. by eapply list_elem_of_lookup_2.
  - destruct (list_find _ l) as [[k y]|]; simpl; by destruct (replicaAt g j).
Qed.

(** ** Allocation *)

(** Successive writes of an index that agree on every position. *)
Definition consistent (l : list (nat * Z)) : Prop :=
  ∀ p q, p ∈ l → q ∈ l → p.2 = q.2 → p.1 = q.1.
Lemma insert_all (l : list (nat * Z)) (reps : list (option nat)) j :
  Forall (λ p, valid_id p.2) l → length reps = 32%nat → consistent l →
  foldl (λ reps p, <[Z.to_nat p.2 := Some p.1]> reps) reps l !! j =
    match list_find (λ p, Z.to_nat p.2 = j) l with
    | Some (_, p) => Some (Some p.1)
    | None => reps !! j
    end.
Proof.
  revert reps. induction l as [|[i id] l IH]; intros reps Hv Hlen Hc; simpl; [done|].
  apply Forall_cons in Hv as [Hid Hv]. simpl in *.
  rewrite IH; [|done|by rewrite length_insert|intros p q Hp Hq; apply Hc; by right].
  case_decide as Hd.
  - subst j. destruct (list_find _ l) as [[k p]|] eqn:E; simpl.
    + apply list_find_Some in E as (E & Ep & _). rewrite Forall_lookup in Hv. specialize (Hv _ _ E).
      f_equal; f_equal. apply (Hc p (i, id)); [right; by eapply list_elem_of_lookup_2|by left|].
      simpl. unfold valid_id in *. lia.
    + rewrite list_lookup_insert_eq; [done|]. unfold valid_id in Hid. lia.
  - destruct (list_find _ l) as [[k p]|]; simpl; [done|]. by rewrite list_lookup_insert_ne.
Qed.
Lemma insert_all_length (l : list (nat * Z)) (reps : list (option nat)) :
  length (foldl (λ reps p, <[Z.to_nat p.2 := Some p.1]> reps) reps l) = length reps.
Proof. revert reps. induction l as [|p l IH]; intros reps; simpl; [done|]. by rewrite IH, length_insert. Qed.

Lemma imap_pair_lookup {A} (l : list A) k p : imap pair l !! k = Some p ↔ l !! k = Some p.2 ∧ p.1 = k.
Proof.
  rewrite list_lookup_imap. destruct (l !! k) as [x|]; simpl; destruct p; naive_solver.
Qed.
Lemma imap_pair_snd {A B} (f : A → B) (l : list A) : (λ x, f x.2) <$> imap pair l = f <$> l.
Proof.
  apply list_eq. intros i. rewrite !list_lookup_fmap, list_lookup_imap. by destruct (l !! i).
Qed.

Lemma alloc_replicas ids g : g_replicas (allocContexts ids g) =
  foldl (λ reps p, <[Z.to_nat p.2 := Some p.1]> reps) (g_replicas g) (imap pair (All ids)).
Proof. unfold allocContexts. cbn [g_replicas set_replicas set_allReplicas]. reflexivity. Qed.
Lemma alloc_allReplicas ids g : g_allReplicas (allocContexts ids g) = emptyContext <$> All ids.
Proof.
  unfold allocContexts. cbn [g_allReplicas set_replicas set_allReplicas].
  generalize (All ids). by induction l as [|x l IH]; simpl; [|f_equal].
Qed.
#[local] Opaque allocContexts All.

Lemma alloc_wf ids g : wf_set ids → g_replicas g = replicate 32 None →
  ctx_wf (allocContexts ids g) ∧
  ∀ j, valid_id j → replicaAt (allocContexts ids g) j =
    if Contains ids j then Some (emptyContext j) else None.
Proof.
  intros Hs Hr. pose proof (λ id, elem_of_All ids id Hs) as Hall.
  assert (Hl : length (replicate 32 (@None nat)) = 32%nat) by done.
  assert (Hv : Forall (λ p : nat * Z, valid_id p.2) (imap pair (All ids))).
  { apply Forall_lookup. intros k p Hp. apply imap_pair_lookup in Hp as [Hp _].
    apply list_elem_of_lookup_2, Hall in Hp. apply Hp. }
  assert (Hnd : NoDup (All ids)) by (rewrite (All_spec _ Hs); apply members_NoDup).
  assert (Hcons : consistent (imap pair (All ids))).
  { intros p q [kp Hp]%list_elem_of_lookup_1 [kq Hq]%list_elem_of_lookup_1 E.
    apply imap_pair_lookup in Hp as [Hp ->], Hq as [Hq ->]. rewrite E in Hp. by eapply NoDup_lookup. }
  assert (Hidx : ∀ j, g_replicas (allocContexts ids g) !! j =
    match list_find (λ p, Z.to_nat p.2 = j) (imap pair (All ids)) with
    | Some (_, p) => Some (Some p.1)
    | None => replicate 32 None !! j
    end) by (intros j; rewrite alloc_replicas, Hr; by apply insert_all).
  assert (Hfind : ∀ k id, All ids !! k = Some id →
    list_find (λ p, Z.to_nat p.2 = Z.to_nat id) (imap pair (All ids)) = Some (k, (k, id))).
  { intros k id Hk. apply list_find_Some. split_and!; [by apply imap_pair_lookup|done|].
    intros k' [i' id'] Hk' Hlt E. apply imap_pair_lookup in Hk' as [Hk' _]. simpl in *.
    assert (id' = id); [|subst; pose proof (NoDup_lookup _ _ _ _ Hnd Hk Hk'); lia].
    apply list_elem_of_lookup_2, Hall in Hk, Hk'. destruct Hk as [Hk _], Hk' as [Hk' _]. unfold valid_id in *. lia. }
  split; [split|].
  - rewrite alloc_replicas, Hr. by rewrite insert_all_length.
  - intros id i Hi. rewrite Hidx in Hi. destruct (list_find _ _) as [[k [k' id']]|] eqn:E.
    + apply list_find_Some in E as (E & Eid & _). apply imap_pair_lookup in E as [E Ek]. simpl in *. simplify_eq/=.
      exists (emptyContext id'). rewrite alloc_allReplicas, list_lookup_fmap, E. split; [done|]. simpl.
      apply list_elem_of_lookup_2, Hall in E as [Hid' _]. unfold valid_id in Hid'. lia.
    + apply lookup_replicate in Hi as [? _]. done.
  - rewrite alloc_allReplicas. apply Forall_fmap, Forall_forall. intros id Hid. by apply Hall in Hid as [? _].
  - intros i rc Hi. rewrite alloc_allReplicas, list_lookup_fmap in Hi. destruct (All ids !! i); simplify_eq/=. done.
  - rewrite alloc_allReplicas. apply Forall_fmap, Forall_forall. intros id _. by left.
  - intros j Hj. unfold replicaAt. rewrite Hidx. destruct (Contains ids j) eqn:Ec.
    + assert (Hin : j ∈ All ids) by (by apply Hall). apply list_elem_of_lookup_1 in Hin as [k Hk].
      rewrite (Hfind k j Hk). simpl. by rewrite alloc_allReplicas, list_lookup_fmap, Hk.
    + destruct (list_find _ _) as [[k p]|] eqn:E.
      * exfalso. apply list_find_Some in E as (E & Ep & _). apply imap_pair_lookup in E as [E _].
        apply list_elem_of_lookup_2, Hall in E as [Hv' Hc]. assert (p.2 = j) by (unfold valid_id in *; lia). congruence.
      * rewrite lookup_replicate_2 by (unfold valid_id in Hj; lia). done.
Qed.

(** ** RVAs *)
Lemma upd_rc_wf i f g : (∀ rc, rc_id (f rc) = rc_id rc ∧ rc_name (f rc) = rc_name rc) → ctx_wf g →
  ctx_wf (upd_rc i f g).
Proof.
  intros Hf Hw.
  assert (Hat : ∀ k rc, g_allReplicas (upd_rc i f g) !! k = Some rc → ∃ rc0, g_allReplicas g !! k = Some rc0 ∧
    rc_id rc = rc_id rc0 ∧ rc_name rc = rc_name rc0).
  { intros k rc. unfold upd_rc. simpl. destruct (decide (i = k)) as [->|Hne].
    - rewrite list_lookup_alter_eq. destruct (g_allReplicas g !! k) as [rc0|]; [|done]. intros [= <-].
      exists rc0. by destruct (Hf rc0).
    - rewrite list_lookup_alter_ne by done. intros. by exists rc. }
  assert (Hex : ∀ k rc0, g_allReplicas g !! k = Some rc0 → is_Some (g_allReplicas (upd_rc i f g) !! k)).
  { intros k rc0 Hk. apply lookup_lt_is_Some. unfold upd_rc. simpl. rewrite length_alter.
    by eapply lookup_lt_Some. }
  split.
  - apply Hw.
  - intros id k Hk. destruct (cw_index g Hw id k Hk) as (rc0 & E & F). destruct (Hex _ _ E) as [rc Hrc].
    destruct (Hat _ _ Hrc) as (rc1 & E1 & F1 & _). exists rc. split; [done|]. congruence.
  - apply Forall_lookup. intros k rc Hk. destruct (Hat _ _ Hk) as (rc0 & E & -> & _).
    pose proof (cw_ids g Hw) as Hi. rewrite Forall_lookup in Hi. by eapply Hi.
  - intros k rc Hk Hn. destruct (Hat _ _ Hk) as (rc0 & E & Ei & En). rewrite Ei.
    apply (cw_named g Hw); [done|congruence].
  - apply Forall_lookup. intros k rc Hk. destruct (Hat _ _ Hk) as (rc0 & E & Ei & En).
    pose proof (cw_names g Hw) as Hi. rewrite Forall_lookup in Hi. unfold named. rewrite Ei, En. by eapply Hi.
Qed.
Lemma append_wf rc g : rc_name rc = "" → valid_id (rc_id rc) → ctx_wf g →
  ctx_wf (set_allReplicas (g_allReplicas g ++ [rc]) g) ∧
  ∀ j, replicaAt (set_allReplicas (g_allReplicas g ++ [rc]) g) j = replicaAt g j.
Proof.
  intros Hn Hi Hw. split; [split; simpl|].
  - apply Hw.
  - intros id k Hk. destruct (cw_index g Hw id k Hk) as (rc0 & E & F). exists rc0. split; [|done].
    by apply lookup_app_l_Some.
  - apply Forall_app_2; [apply Hw|by constructor].
  - intros k rc' Hk Hne. apply lookup_app_Some in Hk as [Hk|[_ Hk]]; [by apply (cw_named g Hw)|].
    apply list_lookup_singleton_Some in Hk as [_ <-]. done.
  - apply Forall_app_2; [apply Hw|]. constructor; [by left|done].
  - intros j. unfold replicaAt. simpl. destruct (g_replicas g !! Z.to_nat j) as [[k|]|] eqn:E; simpl; try done.
    destruct (cw_index g Hw _ _ E) as (rc0 & F & _). rewrite F. by apply lookup_app_l_Some.
Qed.

(** A context up to its RVAs. *)
Definition noRVAs rc : ReplicaContext := set_rc_rvas [] rc.
Lemma assignRVAs_wf gs g : ctx_wf g → ctx_wf (assignRVAs gs g) ∧
  ∀ j, noRVAs <$> replicaAt (assignRVAs gs g) j = noRVAs <$> replicaAt g j.
Proof.
  revert g. induction gs as [|[node grp] gs IH]; intros g Hw; [done|].
  change (assignRVAs ((node, grp) :: gs) g) with (assignRVAs gs
    match list_find (λ rc, rc_nodeName rc = node) (g_allReplicas g) with
    | Some (i, _) => upd_rc i (set_rc_rvas grp) g
    | None => set_allReplicas (g_allReplicas g ++ [set_rc_rvas grp (set_rc_identity "" node (emptyContext 0))]) g
    end).
  destruct (list_find _ _) as [[i rc]|].
  - destruct (IH (upd_rc i (set_rc_rvas grp) g)) as [Hw1 Hat]; [by apply upd_rc_wf|]. split; [done|].
    intros j. rewrite Hat. unfold replicaAt. simpl. destruct (g_replicas g !! Z.to_nat j) as [[k|]|]; simpl; try done.
    destruct (decide (i = k)) as [->|Hne].
    + rewrite list_lookup_alter_eq. by destruct (g_allReplicas g !! k).
    + by rewrite list_lookup_alter_ne.
  - destruct (append_wf (set_rc_rvas grp (set_rc_identity "" node (emptyContext 0))) g) as [Hw1 Hat1]; try done.
    destruct (IH _ Hw1) as [Hw2 Hat2]. split; [done|]. intros j. by rewrite Hat2, Hat1.
Qed.

(** ** Reindexing *)
Definition namedEntry (p : nat * ReplicaContext) : option (nat * Z) :=
  if String.eqb (rc_name p.2) "" then None else Some (p.1, rc_id p.2).
Lemma reindex_fold l (reps : list (option nat)) :
  foldl (λ reps p, if String.eqb (rc_name p.2) "" then reps
                   else <[Z.to_nat (rc_id p.2) := Some p.1]> reps) reps l =
  foldl (λ reps p, <[Z.to_nat p.2 := Some p.1]> reps) reps (omap namedEntry l).
Proof.
  revert reps. induction l as [|p l IH]; intros reps; [done|]. cbn [foldl omap list_omap].
  unfold namedEntry at 1. destruct (String.eqb _ _); simpl; apply IH.
Qed.
Lemma namedEntry_lookup g (p : nat * Z) : p ∈ omap namedEntry (imap pair (g_allReplicas g)) ↔
  ∃ rc, g_allReplicas g !! p.1 = Some rc ∧ rc_name rc ≠ "" ∧ rc_id rc = p.2.
Proof.
  rewrite list_elem_of_omap. split.
  - intros ([i rc] & Hin & He). apply list_elem_of_lookup_1 in Hin as [k Hk].
    apply imap_pair_lookup in Hk as [Hk Ek]. simpl in *. subst i. unfold namedEntry in He. simpl in He.
    destruct (String.eqb_spec (rc_name rc) ""); [done|]. injection He as <-. by exists rc.
  - intros (rc & H & Hn & Hi). exists (p.1, rc). split.
    + apply list_elem_of_lookup. exists p.1. by apply imap_pair_lookup.
    + unfold namedEntry. simpl. destruct (String.eqb_spec (rc_name rc) ""); [done|]. destruct p; simpl in *. by subst.
Qed.
Lemma reindex_wf n g : ctx_wf g → ctx_wf (reindex n g) ∧
  g_allReplicas (reindex n g) = g_allReplicas g ∧
  ∀ j rc, replicaAt (reindex n g) j = Some rc ↔
    replicaAt g j = Some rc ∧ (reindex n g = g ∨ rc_name rc ≠ "").
Proof.
  intros Hw. unfold reindex. cbv zeta. destruct (_ || _); [|split_and!; [done|done|]; naive_solver].
  rewrite reindex_fold. set (l := omap namedEntry _). set (g' := set_replicas _ g).
  assert (Hv : Forall (λ p, valid_id p.2) l).
  { apply Forall_forall. intros p (rc & H & _ & <-)%namedEntry_lookup.
    pose proof (cw_ids g Hw) as Hi. rewrite Forall_lookup in Hi. by eapply Hi. }
  assert (Hc : consistent l).
  { intros p q (rc & H & Hn & Hi)%namedEntry_lookup (rc' & H' & Hn' & Hi')%namedEntry_lookup E.
    apply (cw_named g Hw) in H, H'; try done. rewrite Hi in H. rewrite Hi', <-E in H'. congruence. }
  assert (Hidx : ∀ j i, g_replicas g' !! j = Some (Some i) ↔
    ∃ rc, g_allReplicas g !! i = Some rc ∧ rc_name rc ≠ "" ∧ rc_id rc = Z.of_nat j).
  { intros j i. unfold g'. cbn [g_replicas set_replicas]. rewrite insert_all by done. split.
    - destruct (list_find _ l) as [[k p]|] eqn:E; [|by intros [? _]%lookup_replicate].
      intros [= <-]. apply list_find_Some in E as (E & <- & _).
      rewrite Forall_lookup in Hv. specialize (Hv _ _ E).
      apply list_elem_of_lookup_2, namedEntry_lookup in E as (rc & H & Hn & Hi).
      exists rc. split_and!; try done. unfold valid_id in Hv. lia.
    - intros (rc & H & Hn & Hi). assert (Hin : (i, rc_id rc) ∈ l) by (apply namedEntry_lookup; by exists rc).
      destruct (list_find_elem_of (λ p, Z.to_nat p.2 = j) l (i, rc_id rc) Hin) as [[k p] E]; [simpl; lia|].
      rewrite E. apply list_find_Some in E as (E & Ep & _). f_equal; f_equal.
      rewrite Forall_lookup in Hv. specialize (Hv _ _ E).
      apply (Hc p (i, rc_id rc)); [by eapply list_elem_of_lookup_2|done|]. simpl. unfold valid_id in Hv. lia. }
  split_and!; [split| |].
  - unfold g'. cbn [g_replicas set_replicas]. by rewrite insert_all_length.
  - intros id i (rc & H & _ & Hi)%Hidx. by exists rc.
  - apply Hw.
  - intros i rc Hi Hn. apply Hidx. exists rc. split_and!; try done.
    pose proof (cw_ids g Hw) as Hids. rewrite Forall_lookup in Hids. specialize (Hids _ _ Hi).
    unfold valid_id in Hids. lia.
  - apply Hw.
  - done.
  - intros j rc. rewrite !replicaAt_Some. split.
    + intros (i & H & Hi). apply Hidx in H as (rc' & H & Hn & Hid). simpl in Hi. simplify_eq.
      split; [|by right]. exists i. split; [|done]. rewrite <-(Nat2Z.id (Z.to_nat j)), <-Hid.
      by apply (cw_named g Hw).
    + intros [(i & H & Hi) [E|Hn]]; [by rewrite E; exists i|]. exists i. split; [|done]. apply Hidx.
      destruct (cw_index g Hw _ _ H) as (rc' & Hi' & Hid). simplify_eq. by exists rc.
Qed.

(** ** Populating: success, invariant and existence, without assumptions on the inputs *)
Lemma with_rc_total id f g : is_Some (replicaAt g id) → ∃ g', with_rc id f g = Ok g'.
Proof.
  intros [rc (i & H & _)%replicaAt_Some]. unfold with_rc, index. rewrite H. simpl. by eexists.
Qed.
Lemma with_rc_found id f g g' : ctx_wf g → with_rc id f g = Ok g' → is_Some (replicaAt g id).
Proof.
  intros Hw H. unfold with_rc in H. bok H as r Hr%index_Ok. bok H as i Hi%deref_Ok. subst r.
  destruct (cw_index g Hw _ _ Hr) as (rc & E & _). exists rc. apply replicaAt_Some. by exists i.
Qed.
Lemma foldO_with_rc_found {A} (ID : A → Z) (F : A → ReplicaContext → ReplicaContext) l g g' : ctx_wf g →
  (∀ x, 0 ≤ ID x) → (∀ x rc, rc_id (F x rc) = rc_id rc) →
  (∀ x rc, named rc → rc_id rc = ID x → named (F x rc)) →
  foldO (λ x, with_rc (ID x) (F x)) l g = Ok g' → ctx_wf g' ∧
  (∀ j, 0 ≤ j → is_Some (replicaAt g' j) ↔ is_Some (replicaAt g j)) ∧
  ∀ x, x ∈ l → is_Some (replicaAt g (ID x)).
Proof.
  intros Hw Hid Hf Hn. revert g Hw. induction l as [|x l IH]; intros g Hw H; simpl in H.
  { injection H as <-. split_and!; [done|done|]. by intros x ?%elem_of_nil. }
  bok H as g1 H1. destruct (with_rc_wf _ _ _ _ Hw (Hid x) (Hf x) (Hn x) H1) as [Hw1 Hat].
  destruct (IH g1 Hw1 H) as (Hw2 & Hs & Hx).
  assert (Hs1 : ∀ j, 0 ≤ j → is_Some (replicaAt g1 j) ↔ is_Some (replicaAt g j))
    by (intros j Hj; rewrite Hat by done; apply fmap_is_Some).
  split_and!; [done|intros j Hj; by rewrite Hs, Hs1|]. intros y [->|Hy]%elem_of_cons.
  - by eapply with_rc_found.
  - apply Hs1; [apply Hid|by apply Hx].
Qed.
Lemma foldO_with_rc_total {A} (ID : A → Z) (F : A → ReplicaContext → ReplicaContext) l g : ctx_wf g →
  (∀ x, 0 ≤ ID x) → (∀ x rc, rc_id (F x rc) = rc_id rc) →
  (∀ x rc, named rc → rc_id rc = ID x → named (F x rc)) →
  (∀ x, x ∈ l → is_Some (replicaAt g (ID x))) → ∃ g', foldO (λ x, with_rc (ID x) (F x)) l g = Ok g'.
Proof.
  intros Hw Hid Hf Hn. revert g Hw. induction l as [|x l IH]; intros g Hw Hx; simpl; [by eexists|].
  destruct (with_rc_total (ID x) (F x) g) as [g1 H1]; [apply Hx; by left|]. rewrite H1. simpl.
  destruct (with_rc_wf _ _ _ _ Hw (Hid x) (Hf x) (Hn x) H1) as [Hw1 Hat]. apply IH; [done|].
  intros y Hy. rewrite Hat by done. apply fmap_is_Some, Hx. by right.
Qed.

(** The three population passes, as instances of the fold. *)
Definition setRVR (rvr : ReplicatedVolumeReplica) rc : ReplicaContext :=
  set_rc_identity (rvr_Name rvr) (rvr_Spec_NodeName rvr) (set_rc_rvr (Some rvr) rc).
Definition setMember (im : nat * DatameshMember) rc : ReplicaContext :=
  set_rc_identity (orEmpty (rc_name rc) (m_Name im.2)) (orEmpty (rc_nodeName rc) (m_NodeName im.2))
    (set_rc_member (Some (im.2, Some im.1)) rc).
Definition setRequest (ir : nat * DatameshReplicaRequest) rc : ReplicaContext :=
  set_rc_identity (orEmpty (rc_name rc) (rq_Name ir.2)) (rc_nodeName rc)
    (set_rc_request (Some (ir.2, ir.1)) rc).
Lemma named_orEmpty rc b rc' : named rc → rc_id rc = idFromName b → rc_id rc' = rc_id rc →
  rc_name rc' = orEmpty (rc_name rc) b → named rc'.
Proof.
  unfold named, orEmpty. intros Ha Hb -> ->. destruct (String.eqb_spec (rc_name rc) ""); [by right|].
  by destruct Ha; [|right].
Qed.

Lemma FromFunc_wf {T} (fn : T → Z * bool) l : (∀ x, 0 ≤ (fn x).1) → wf_set (FromFunc l fn).
Proof.
  intros Hf. unfold FromFunc.
  assert (H : ∀ s, wf_set s → wf_set (foldl (λ s x, let '(id, ok) := fn x in if ok : bool then Add s id else s) s l));
    [|apply H, wf_empty].
  induction l as [|x l IH]; intros s Hs; simpl; [done|]. apply IH.
  specialize (Hf x). destruct (fn x) as [id []]; [by apply wf_Add|done].
Qed.
Lemma knownIDs_wf rv rvrs : wf_set (knownIDs rv rvrs).
Proof.
  assert (Hall : ∀ T (ID : T → Z) l, (∀ x, 0 ≤ ID x) → wf_set (FromAll ID l)).
  { intros T ID l H. apply (FromWhere_wf ID l (λ _, true)), Forall_true, H. }
  unfold knownIDs. repeat apply wf_Union; try (apply Hall; intros; apply idFromName_nonneg).
  apply FromFunc_wf. intros t. destruct (negb _); [apply idFromName_nonneg|done].
Qed.
Lemma knownIDs_contains rv rvrs j : valid_id j →
  (∃ r, r ∈ rvrs ∧ rvr_ID r = j) ∨ (∃ m, m ∈ rv_Members rv ∧ m_ID m = j) ∨
  (∃ rq, rq ∈ rv_DatameshReplicaRequests rv ∧ rq_ID rq = j) → Contains (knownIDs rv rvrs) j = true.
Proof.
  intros Hj H. assert (Hall : ∀ T (ID : T → Z) (l : list T), (∀ x, 0 ≤ ID x) → (∃ x, x ∈ l ∧ ID x = j) →
    Contains (FromAll ID l) j = true).
  { intros T ID l Hp (x & Hx & E). change (FromAll ID l) with (FromWhere ID l (λ _, true)).
    rewrite Contains_FromWhere by (try done; apply Forall_true, Hp). apply existsb_exists.
    exists x. split; [by apply list_elem_of_In|]. simpl. by apply Z.eqb_eq. }
  unfold knownIDs. rewrite !Contains_Union by done. rewrite !orb_true_iff.
  destruct H as [H|[H|H]]; [left; left; left|left; left; right|left; right];
    (apply Hall; [intros; apply idFromName_nonneg|done]).
Qed.

Section build.
Variables (rv : ReplicatedVolume) (rsp : option RSP) (rvrs : list ReplicatedVolumeReplica)
  (rvas : list ReplicatedVolumeAttachment) (features : FeatureFlags).

Notation members := (imap pair (rv_Members rv)).
Notation requests := (imap pair (rv_DatameshReplicaRequests rv)).

(** Populating, decomposed. *)
Lemma buildContexts_inv g : buildContexts rv rsp rvrs rvas features = Ok g → ∃ cfg g0 g1 g2 g3,
  rv_Configuration rv = Some cfg ∧
  g0 = allocContexts (knownIDs rv rvrs) (initContext rv cfg rsp features) ∧
  foldO (λ x, with_rc (rvr_ID x) (setRVR x)) rvrs g0 = Ok g1 ∧
  foldO (λ x, with_rc (m_ID x.2) (setMember x)) members g1 = Ok g2 ∧
  foldO (λ x, with_rc (rq_ID x.2) (setRequest x)) requests g2 = Ok g3 ∧
  g = reindex (Z.to_nat (Len (knownIDs rv rvrs))) (assignRVAs (groupRVAs rvas) g3).
Proof.
  unfold buildContexts. destruct (rv_Configuration rv) as [cfg|]; [|done]. cbv zeta. intros H.
  apply bind_Ok in H as (g1 & H1 & H). apply bind_Ok in H as (g2 & H2 & H).
  apply bind_Ok in H as (g3 & H3 & H). injection H as <-.
  by exists cfg, (allocContexts (knownIDs rv rvrs) (initContext rv cfg rsp features)), g1, g2, g3.
Qed.

Lemma setMember_ok (x : nat * DatameshMember) rc : rc_id (setMember x rc) = rc_id rc ∧
  (named rc → rc_id rc = m_ID x.2 → named (setMember x rc)).
Proof. split; [done|]. intros. by eapply named_orEmpty. Qed.
Lemma setRequest_ok (x : nat * DatameshReplicaRequest) rc : rc_id (setRequest x rc) = rc_id rc ∧
  (named rc → rc_id rc = rq_ID x.2 → named (setRequest x rc)).
Proof. split; [done|]. intros. by eapply named_orEmpty. Qed.
Lemma setRVR_ok x rc : rc_id (setRVR x rc) = rc_id rc ∧
  (named rc → rc_id rc = rvr_ID x → named (setRVR x rc)).
Proof. split; [done|]. intros. by right. Qed.

Lemma buildContexts_wf g : buildContexts rv rsp rvrs rvas features = Ok g → ctx_wf g.
Proof.
  intros (cfg & g0 & g1 & g2 & g3 & _ & -> & H1 & H2 & H3 & ->)%buildContexts_inv.
  destruct (alloc_wf (knownIDs rv rvrs) (initContext rv cfg rsp features)) as [Hw _];
    [apply knownIDs_wf|done|].
  apply foldO_with_rc_found in H1 as (Hw1 & _); try done;
    [|intros; apply idFromName_nonneg|intros; by apply setRVR_ok].
  apply foldO_with_rc_found in H2 as (Hw2 & _); try done;
    [|intros; apply idFromName_nonneg|intros; by apply setMember_ok].
  apply foldO_with_rc_found in H3 as (Hw3 & _); try done;
    [|intros; apply idFromName_nonneg|intros; by apply setRequest_ok].
  apply reindex_wf, assignRVAs_wf, Hw3.
Qed.

(** The context of [j] before RVAs are assigned. *)
Definition populated (j : Z) : ReplicaContext :=
  let rc := emptyContext j in
  let rc := match list_find (λ r, rvr_ID r = j) rvrs with Some (_, r) => setRVR r rc | None => rc end in
  let rc := match list_find (λ x, m_ID x.2 = j) members with Some (_, m) => setMember m rc | None => rc end in
  match list_find (λ x, rq_ID x.2 = j) requests with Some (_, r) => setRequest r rc | None => rc end.

Hypothesis Hrvrs : NoDup (rvr_ID <$> rvrs).
Hypothesis Hmembers : NoDup (m_ID <$> rv_Members rv).
Hypothesis Hrequests : NoDup (rq_ID <$> rv_DatameshReplicaRequests rv).

Lemma populate_at g j : buildContexts rv rsp rvrs rvas features = Ok g → valid_id j →
  ∃ g3, ctx_wf g3 ∧ g = reindex (Z.to_nat (Len (knownIDs rv rvrs))) (assignRVAs (groupRVAs rvas) g3) ∧
    replicaAt g3 j = if Contains (knownIDs rv rvrs) j then Some (populated j) else None.
Proof using Hrvrs Hmembers Hrequests.
  intros (cfg & g0 & g1 & g2 & g3 & _ & -> & H1 & H2 & H3 & ->)%buildContexts_inv Hj.
  destruct (alloc_wf (knownIDs rv rvrs) (initContext rv cfg rsp features)) as [Hw Hat];
    [apply knownIDs_wf|done|].
  apply foldO_with_rc in H1 as (Hw1 & Hat1); try done;
    [|intros; apply idFromName_nonneg|intros; by apply setRVR_ok].
  apply foldO_with_rc in H2 as (Hw2 & Hat2); try done;
    [|intros; apply idFromName_nonneg|intros; by apply setMember_ok|].
  2: { by rewrite (imap_pair_snd m_ID). }
  apply foldO_with_rc in H3 as (Hw3 & Hat3); try done;
    [|intros; apply idFromName_nonneg|intros; by apply setRequest_ok|].
  2: { by rewrite (imap_pair_snd rq_ID). }
  exists g3. split_and!; [done|done|]. destruct Hj as [Hj0 Hj].
  rewrite Hat3, Hat2, Hat1, Hat by done. unfold populated.
  destruct (Contains _ j); repeat (destruct (list_find _ _) as [[? ?]|]; simpl; try done).
Qed.

Lemma list_find_imap {A} (ID : A → Z) j (l : list A) :
  list_find (λ x, ID x.2 = j) (imap pair l) = (λ p, (p.1, p)) <$> list_find (λ x, ID x = j) l.
Proof using Type.
  apply option_eq. intros [k [k' x]]. rewrite fmap_Some. setoid_rewrite list_find_Some. split.
  - intros (H & E & Hlt). apply imap_pair_lookup in H as [H Hk]. simpl in *. subst k'.
    exists (k, x). split; [|done]. apply list_find_Some. split_and!; try done. intros n y Hn Hl.
    apply (Hlt n (n, y)); [by apply imap_pair_lookup|done].
  - intros ([k1 x1] & H & E). apply list_find_Some in H as (H & Ex & Hlt). simplify_eq/=.
    split_and!; [by apply imap_pair_lookup|done|]. intros n [n' y] Hn Hl.
    apply imap_pair_lookup in Hn as [Hn _]. by eapply Hlt.
Qed.

(** The objects of an ID in the inputs. *)
Definition inputRVR (j : Z) : option ReplicatedVolumeReplica := snd <$> list_find (λ r, rvr_ID r = j) rvrs.
Definition inputMember (j : Z) : option (DatameshMember * option nat) :=
  (λ p, (p.2, Some p.1)) <$> list_find (λ m, m_ID m = j) (rv_Members rv).
Definition inputRequest (j : Z) : option (DatameshReplicaRequest * nat) :=
  (λ p, (p.2, p.1)) <$> list_find (λ r, rq_ID r = j) (rv_DatameshReplicaRequests rv).

Lemma populated_spec j : rc_id (populated j) = j ∧ rc_rvr (populated j) = inputRVR j ∧
  rc_member (populated j) = inputMember j ∧ rc_membershipRequest (populated j) = inputRequest j ∧
  rc_membershipTransition (populated j) = None ∧ rc_attachmentTransition (populated j) = None.
Proof using Type.
  unfold populated, inputRVR, inputMember, inputRequest. rewrite (list_find_imap m_ID), (list_find_imap rq_ID).
  by destruct (list_find _ rvrs) as [[? ?]|], (list_find _ (rv_Members rv)) as [[? ?]|],
    (list_find _ (rv_DatameshReplicaRequests rv)) as [[? ?]|].
Qed.

Hypothesis Hnames : (∀ r, r ∈ rvrs → rvr_Name r ≠ "") ∧ (∀ m, m ∈ rv_Members rv → m_Name m ≠ "") ∧
  (∀ r, r ∈ rv_DatameshReplicaRequests rv → rq_Name r ≠ "").

Lemma populated_named j : is_Some (inputRVR j) ∨ is_Some (inputMember j) ∨ is_Some (inputRequest j) →
  rc_name (populated j) ≠ "".
Proof using Hnames.
  assert (Hor : ∀ a b, (a = "" → b ≠ "") → orEmpty a b ≠ "").
  { intros a b H. unfold orEmpty. by destruct (String.eqb_spec a ""); [apply H|]. }
  destruct Hnames as (N1 & N2 & N3). unfold populated, inputRVR, inputMember, inputRequest.
  rewrite (list_find_imap m_ID), (list_find_imap rq_ID).
  destruct (list_find _ rvrs) as [[k r]|] eqn:E1, (list_find _ (rv_Members rv)) as [[k' m]|] eqn:E2,
    (list_find _ (rv_DatameshReplicaRequests rv)) as [[k'' q]|] eqn:E3; simpl; intros H.
  all: repeat match goal with
       | E : list_find _ _ = Some _ |- _ => apply list_find_Some in E as (E & _); apply list_elem_of_lookup_2 in E
       end.
  all: try (apply N1; done); try (by destruct H as [[]|[[]|[]]]).
  all: repeat (apply Hor; intros); auto.
  all: intros ?; (by eapply N1) || (by eapply N2) || (by eapply N3) || done.
Qed.
End build.
End contexts.

Section theorems.
Context `{K : K8s}.
Implicit Types (g : globalContext) (rc : ReplicaContext).

(** Inputs with distinct IDs and names, as the API server guarantees them. *)
Record inputs_ok (rv : ReplicatedVolume) (rvrs : list ReplicatedVolumeReplica) : Prop := {
  ik_rvrs : NoDup (rvr_ID <$> rvrs);
  ik_members : NoDup (m_ID <$> rv_Members rv);
  ik_requests : NoDup (rq_ID <$> rv_DatameshReplicaRequests rv);
  ik_names : (∀ r, r ∈ rvrs → rvr_Name r ≠ "") ∧ (∀ m, m ∈ rv_Members rv → m_Name m ≠ "") ∧
    (∀ r, r ∈ rv_DatameshReplicaRequests rv → rq_Name r ≠ "");
}.

Lemma fmap_erase_inv rc (o : option ReplicaContext) (o' : option ReplicaContext) :
  noRVAs <$> o = noRVAs <$> o' → o = Some rc → ∃ rc', o' = Some rc' ∧ noRVAs rc = noRVAs rc'.
Proof.
  intros H ->. destruct o' as [rc'|]; [|done]. apply (inj Some) in H. by exists rc'.
Qed.

Lemma lookup_inputs rv rsp rvrs rvas ff g j : inputs_ok rv rvrs →
  buildContexts rv rsp rvrs rvas ff = Ok g → valid_id j →
  match replicaAt g j with
  | Some rc => noRVAs rc = noRVAs (populated rv rvrs j)
  | None => inputRVR rvrs j = None ∧ inputMember rv j = None ∧ inputRequest rv j = None
  end.
Proof.
  intros [I1 I2 I3 I4] H Hj. destruct (populate_at rv rsp rvrs rvas ff I1 I2 I3 g j H Hj) as (g3 & Hw & -> & Hat).
  destruct (assignRVAs_wf (groupRVAs rvas) g3 Hw) as [Hw1 Hat1].
  destruct (reindex_wf (Z.to_nat (Len (knownIDs rv rvrs))) _ Hw1) as (_ & _ & Hat2).
  set (g4 := assignRVAs _ g3) in *. set (g5 := reindex _ g4) in *. specialize (Hat1 j). rewrite Hat in Hat1.
  destruct (replicaAt g5 j) as [rc|] eqn:E.
  - apply Hat2 in E as [E _]. destruct (fmap_erase_inv _ _ _ Hat1 E) as (rc' & E' & Hr).
    destruct (Contains _ j); [|done]. by injection E' as <-.
  - destruct (decide (is_Some (inputRVR rvrs j) ∨ is_Some (inputMember rv j) ∨ is_Some (inputRequest rv j)))
      as [Hin|Hout].
    + exfalso. pose proof (populated_named rv rvrs I4 j Hin) as Hn.
      assert (Hc : Contains (knownIDs rv rvrs) j = true).
      { apply knownIDs_contains; [done|]. unfold inputRVR, inputMember, inputRequest in Hin.
        rewrite !fmap_is_Some in Hin. destruct Hin as [[[k x] E1]|[[[k x] E1]|[[k x] E1]]];
          apply list_find_Some in E1 as (E1 & Ex & _); apply list_elem_of_lookup_2 in E1; eauto 6. }
      rewrite Hc in Hat1. destruct (replicaAt g4 j) as [rc4|] eqn:E4; [|done]. apply (inj Some) in Hat1 as Hr.
      assert (rc_name rc4 ≠ "") by (by rewrite (f_equal rc_name Hr : rc_name rc4 = _)).
      assert (replicaAt g5 j = Some rc4); [|congruence]. apply Hat2. split; [done|by right].
    + rewrite !eq_None_not_Some. tauto.
Qed.

(** After buildContexts, looking up an ID finds the context holding exactly the replica object,
    the datamesh member (at its position in the member list) and the membership request of that ID,
    and finds nothing only when the inputs have none. *)
Theorem buildContexts_lookup (rv : ReplicatedVolume) (rsp : option RSP)
    (rvrs : list ReplicatedVolumeReplica) (rvas : list ReplicatedVolumeAttachment)
    (ff : FeatureFlags) (g : globalContext) (j : Z) : inputs_ok rv rvrs →
  buildContexts rv rsp rvrs rvas ff = Ok g → valid_id j →
  match replicaAt g j with
  | Some rc => rc_id rc = j ∧ rc_rvr rc = inputRVR rvrs j ∧ rc_member rc = inputMember rv j ∧
               rc_membershipRequest rc = inputRequest rv j
  | None => inputRVR rvrs j = None ∧ inputMember rv j = None ∧ inputRequest rv j = None
  end.
Proof.
  intros Hin H Hj. pose proof (lookup_inputs rv rsp rvrs rvas ff g j Hin H Hj) as HL.
  destruct (replicaAt g j) as [rc|]; [|done].
  destruct (populated_spec rv rvrs j) as (E1 & E2 & E3 & E4 & _).
  rewrite <-E1 at 1. rewrite <-E2, <-E3, <-E4.
  split_and!; [exact (f_equal rc_id HL)|exact (f_equal rc_rvr HL)|exact (f_equal rc_member HL)
              |exact (f_equal rc_membershipRequest HL)].
Qed.

(** One population pass over known IDs. *)
Lemma pass_total {A} (ID : A → Z) (F : A → ReplicaContext → ReplicaContext) l g : ctx_wf g →
  (∀ x, 0 ≤ ID x) →
  (∀ x rc, rc_id (F x rc) = rc_id rc ∧ (named rc → rc_id rc = ID x → named (F x rc))) →
  (∀ x, x ∈ l → is_Some (replicaAt g (ID x))) →
  ∃ g', foldO (λ x, with_rc (ID x) (F x)) l g = Ok g' ∧ ctx_wf g' ∧
    ∀ j, 0 ≤ j → is_Some (replicaAt g' j) ↔ is_Some (replicaAt g j).
Proof.
  intros Hw Hid HF Hx. destruct (foldO_with_rc_total ID F l g) as [g' H]; try done; try (intros; by apply HF).
  exists g'. split; [done|]. apply foldO_with_rc_found in H as (? & ? & _); try done; intros; by apply HF.
Qed.
Lemma elem_of_imap_pair {A} (l : list A) x : x ∈ imap pair l → x.2 ∈ l.
Proof.
  intros [i Hi]%list_elem_of_lookup_1. apply imap_pair_lookup in Hi as [Hi _].
  by eapply list_elem_of_lookup_2.
Qed.

(** BuildContexts succeeds (no nil context, no index out of range) on every volume with a
    configuration whose replica, member and request names end in IDs 0..31. *)
Theorem buildContexts_total (rv : ReplicatedVolume) (rsp : option RSP)
    (rvrs : list ReplicatedVolumeReplica) (rvas : list ReplicatedVolumeAttachment)
    (ff : FeatureFlags) : is_Some (rv_Configuration rv) →
  Forall (λ r, valid_id (rvr_ID r)) rvrs → Forall (λ m, valid_id (m_ID m)) (rv_Members rv) →
  Forall (λ r, valid_id (rq_ID r)) (rv_DatameshReplicaRequests rv) →
  ∃ g, buildContexts rv rsp rvrs rvas ff = Ok g ∧ ctx_wf g.
Proof.
  intros [cfg Hcfg] V1 V2 V3. cut (∃ g, buildContexts rv rsp rvrs rvas ff = Ok g).
  { intros [g Hg]. exists g. split; [done|]. by eapply buildContexts_wf. }
  destruct (alloc_wf (knownIDs rv rvrs) (initContext rv cfg rsp ff)) as [Hw Hat]; [apply knownIDs_wf|done|].
  assert (Hknown : ∀ j, valid_id j → Contains (knownIDs rv rvrs) j = true →
    is_Some (replicaAt (allocContexts (knownIDs rv rvrs) (initContext rv cfg rsp ff)) j))
    by (intros j Hj Hc; rewrite Hat, Hc by done; by eexists).
  unfold buildContexts. rewrite Hcfg. cbv zeta. set (g0 := allocContexts _ _) in *.
  destruct (pass_total rvr_ID setRVR rvrs g0) as (g1 & H1 & Hw1 & Hs1); try done.
  { intros; apply idFromName_nonneg. }
  { intros; by apply setRVR_ok. }
  { intros r Hr. simpl in *. pose proof (proj1 (Forall_forall _ _) V1 r Hr).
    apply Hknown; [done|]. apply knownIDs_contains; [done|]. eauto. }
  destruct (pass_total (λ x, m_ID x.2) setMember (imap pair (rv_Members rv)) g1) as (g2 & H2 & Hw2 & Hs2); try done.
  { intros; apply idFromName_nonneg. }
  { intros; by apply setMember_ok. }
  { intros x Hx%elem_of_imap_pair. pose proof (proj1 (Forall_forall _ _) V2 _ Hx).
    apply Hs1; [apply idFromName_nonneg|]. apply Hknown; [done|]. apply knownIDs_contains; [done|]. eauto. }
  destruct (pass_total (λ x, rq_ID x.2) setRequest (imap pair (rv_DatameshReplicaRequests rv)) g2)
    as (g3 & H3 & _ & _); try done.
  { intros; apply idFromName_nonneg. }
  { intros; by apply setRequest_ok. }
  { intros x Hx%elem_of_imap_pair. pose proof (proj1 (Forall_forall _ _) V3 _ Hx).
    apply Hs2; [apply idFromName_nonneg|]. apply Hs1; [apply idFromName_nonneg|].
    apply Hknown; [done|]. apply knownIDs_contains; [done|]. eauto 7. }
  rewrite (H1 : populateRVRs rvrs g0 = Ok g1). cbn [mbind outcome_bind].
  rewrite (H2 : populateMembers (rv_Members rv) g1 = Ok g2). cbn [mbind outcome_bind].
  rewrite (H3 : populateRequests (rv_DatameshReplicaRequests rv) g2 = Ok g3). by eexists.
Qed.

(** ** Writeback *)
Lemma activeIDs_contains g j : valid_id j →
  Contains (activeIDs g) j = match replicaAt g j with
                             | Some rc => match rc_member rc with Some _ => true | None => false end
                             | None => false
                             end.
Proof.
  intros Hj. unfold activeIDs. set (p := λ id, match replicaAt g id with
    | Some rc => match rc_member rc with Some _ => true | None => false end | None => false end).
  transitivity (Contains (FromWhere (λ x : Z, x) bits.ids p) j).
  { f_equal. apply foldl_ext. intros s id. unfold p.
    by destruct (replicaAt g id) as [rc|]; [destruct (rc_member rc)|]. }
  rewrite Contains_FromWhere; [|done|apply Forall_forall; intros x Hx%elem_of_ids; apply Hx].
  fold (p j). destruct (p j) eqn:E.
  - apply existsb_exists. exists j. split; [by apply list_elem_of_In, elem_of_ids|].
    by rewrite E, Z.eqb_refl.
  - apply not_true_iff_false. rewrite existsb_exists. intros (x & _ & [Hp Hx%Z.eqb_eq]%andb_prop). congruence.
Qed.
Lemma activeIDs_wf g : wf_set (activeIDs g).
Proof.
  unfold activeIDs. assert (Hids : Forall (λ x, 0 ≤ x) bits.ids)
    by (apply Forall_forall; intros x Hx%elem_of_ids; apply Hx).
  generalize wf_empty. generalize (0 : IDSet). induction Hids as [|x l Hx _ IH]; intros s Hs; simpl; [done|].
  apply IH. destruct (replicaAt g x) as [rc|]; [|done]. destruct (rc_member rc); [by apply wf_Add|done].
Qed.

(** A member that points into the slice points to the slot of its own ID. *)
Definition provenance (orig : list DatameshMember) g : Prop :=
  ∀ j rc m i, valid_id j → replicaAt g j = Some rc → rc_member rc = Some (m, Some i) →
    ∃ m0, orig !! i = Some m0 ∧ m_ID m0 = j.

Lemma survivor_Some g i m0 m : survivor g i m0 = Some m ↔
  ∃ rc, replicaAt g (m_ID m0) = Some rc ∧ rc_member rc = Some (m, Some i).
Proof.
  unfold survivor. destruct (replicaAt g (m_ID m0)) as [rc|]; simpl.
  2: { split; [done|]. by intros (rc & ? & _). }
  destruct (rc_member rc) as [[m' o]|] eqn:E; simpl.
  2: { split; [done|]. intros (rc' & [= <-] & H). congruence. }
  split.
  - case_bool_decide as Ho; [|done]. intros [= <-]. exists rc. split; [done|]. by rewrite E, Ho.
  - intros (rc' & [= <-] & H). rewrite E in H. injection H as -> ->. by rewrite bool_decide_true.
Qed.
Lemma elem_of_survivors g orig m : m ∈ omap id (imap (survivor g) orig) ↔
  ∃ i m0 rc, orig !! i = Some m0 ∧ replicaAt g (m_ID m0) = Some rc ∧ rc_member rc = Some (m, Some i).
Proof.
  rewrite list_elem_of_omap. split.
  - intros (o & [i Hi]%list_elem_of_lookup_1 & Ho). simpl in Ho. subst o. rewrite list_lookup_imap in Hi.
    destruct (orig !! i) as [m0|] eqn:E; [|done]. simpl in Hi. apply (inj Some) in Hi.
    apply survivor_Some in Hi as (rc & ? & ?). by exists i, m0, rc.
  - intros (i & m0 & rc & E & H1 & H2). exists (Some m). split; [|done]. apply list_elem_of_lookup.
    exists i. rewrite list_lookup_imap, E. simpl. f_equal. apply survivor_Some. by exists rc.
Qed.
Lemma Contains_survivingIDs (l : list (DatameshMember * option DatameshMember)) j : valid_id j →
  Contains (foldl (λ s p, match p.2 with Some _ => Add s (m_ID p.1) | None => s end) 0 l) j = true ↔
  ∃ p, p ∈ l ∧ is_Some p.2 ∧ m_ID p.1 = j.
Proof.
  intros Hj. set (ok := λ p : DatameshMember * option DatameshMember, match p.2 with Some _ => true | None => false end).
  transitivity (Contains (FromWhere (λ p : DatameshMember * option DatameshMember, m_ID p.1) l ok) j = true).
  { unfold FromWhere. erewrite foldl_ext; [done|]. intros s p. unfold ok. by destruct p.2. }
  rewrite Contains_FromWhere by (try done; apply Forall_true; intros; apply idFromName_nonneg).
  rewrite existsb_exists. split.
  - intros (p & Hp%list_elem_of_In & [Ho Hid%Z.eqb_eq]%andb_prop). exists p. unfold ok in Ho.
    destruct p.2; [|done]. naive_solver.
  - intros (p & Hp & [m Hm] & <-). exists p. split; [by apply list_elem_of_In|]. unfold ok. rewrite Hm. simpl. lia.
Qed.

(** After writeback the member slice holds exactly the members of the contexts: every member a
    context holds is in the slice with its current value, and nothing else is. *)
Theorem writebackMembers_exact (orig : list DatameshMember) (g : globalContext) (m : DatameshMember) :
  provenance orig g → Forall (λ m, valid_id (m_ID m)) orig →
  m ∈ writebackMembersFromContexts orig g ↔
  ∃ j rc, valid_id j ∧ replicaAt g j = Some rc ∧ memberOf rc = Some m.
Proof.
  intros Hp Hv. unfold writebackMembersFromContexts. cbv zeta.
  assert (Hsurv : m ∈ omap id (imap (survivor g) orig) → ∃ j rc, valid_id j ∧ replicaAt g j = Some rc ∧ memberOf rc = Some m).
  { intros (i & m0 & rc & E & H1 & H2)%elem_of_survivors. exists (m_ID m0), rc. split_and!; [|done|].
    - rewrite Forall_lookup in Hv. by eapply Hv.
    - unfold memberOf. by rewrite H2. }
  assert (Hin : ∀ j rc i, valid_id j → replicaAt g j = Some rc → rc_member rc = Some (m, Some i) →
    m ∈ omap id (imap (survivor g) orig)).
  { intros j rc i Hj H1 H2. destruct (Hp j rc m i Hj H1 H2) as (m0 & E & <-). apply elem_of_survivors. by exists i, m0, rc. }
  destruct (_ && _) eqn:Efast.
  - split; [done|]. intros (j & rc & Hj & H1 & H2). apply andb_prop in Efast as [Ea Ef].
    apply Z.eqb_eq in Ea. assert (Hc : Contains (activeIDs g) j = true).
    { rewrite activeIDs_contains, H1 by done. unfold memberOf in H2. by destruct (rc_member rc). }
    rewrite Ea in Hc. change (foldl _ 0 orig) with (FromWhere m_ID orig (λ _, true)) in Hc.
    rewrite Contains_FromWhere in Hc by (try done; apply Forall_true; intros; apply idFromName_nonneg).
    apply existsb_exists in Hc as (m0 & [i Hi]%list_elem_of_In%list_elem_of_lookup_1 & Hid). simpl in Hid.
    apply Z.eqb_eq in Hid. subst j. rewrite forallb_forall in Ef.
    assert (Hs : is_Some (survivor g i m0)).
    { eapply bool_decide_eq_true, Ef, list_elem_of_In, list_elem_of_lookup. exists i.
      by rewrite list_lookup_imap, Hi. }
    destruct Hs as [m' (rc' & H1' & H2')%survivor_Some]. rewrite H1 in H1'. injection H1' as <-.
    unfold memberOf in H2. rewrite H2' in H2. injection H2 as ->. by eapply Hin.
  - rewrite elem_of_app. set (newIDs := Difference _ _). split.
    + intros [H|H]; [by apply Hsurv|]. apply list_elem_of_omap in H as (j & Hj & H).
      apply elem_of_All in Hj as [Hj _]; [|apply wf_Difference, activeIDs_wf].
      destruct (replicaAt g j) as [rc|] eqn:E; [|done]. by exists j, rc.
    + intros (j & rc & Hj & H1 & H2). destruct (rc_member rc) as [[m' [i|]]|] eqn:Em; unfold memberOf in H2;
        rewrite Em in H2; [injection H2 as ->; left; by eapply Hin|injection H2 as ->|done].
      right. apply list_elem_of_omap. exists j. split; [|rewrite H1; simpl; unfold memberOf; by rewrite Em].
      apply elem_of_All; [apply wf_Difference, activeIDs_wf|]. split; [done|].
      unfold newIDs. rewrite Contains_Difference by done. apply andb_true_intro. split.
      * by rewrite activeIDs_contains, H1, Em.
      * apply negb_true_iff, not_true_iff_false. rewrite Contains_survivingIDs by done.
        intros ([m0 o] & Hpz & [m1 Ho] & Hid). simpl in *. subst o.
        apply list_elem_of_lookup_1 in Hpz as [i Hi]. apply lookup_zip_Some in Hi as [Hi1 Hi2].
        simpl in *. rewrite list_lookup_imap, Hi1 in Hi2. simpl in Hi2. apply (inj Some) in Hi2.
        apply survivor_Some in Hi2 as (rc' & H1' & H2'). rewrite Hid, H1 in H1'. injection H1' as <-. congruence.
Qed.
End theorems.
