(* ===== verification/System.v ===== *)
(** * One reconciliation cycle of the datamesh

    The engine's theorems, instantiated with the datamesh registry, tracker, dispatchers and slots,
    for ProcessTransitions. *)

From Stdlib Require Import ZArith Lia String.
From stdpp Require Import base list numbers strings option relations.
From S2P Require Import Prelude IdSet DrbdSize Api Dmte DmteSteps DmteTermination DmteInvariants.
From S2P Require Import DmteInvariants DmteFinalize Context Tracker Datamesh Frame Plans Contexts.
Import idset v1alpha1 dmte datamesh concurrency_tracker process.

Set Default Proof Using "Type".

Section system.
Context `{K : K8s}.
Implicit Types (g : globalContext) (rc : ReplicaContext) (t : Transition).

(** ** What a cycle leaves alone *)

(** Identity and inputs of a replica context. *)
Record same_identity rc rc' : Prop := {
  si_id : rc_id rc' = rc_id rc; si_name : rc_name rc' = rc_name rc;
  si_nodeName : rc_nodeName rc' = rc_nodeName rc; si_rvr : rc_rvr rc' = rc_rvr rc;
  si_rvas : rc_rvas rc' = rc_rvas rc;
  si_request : rc_membershipRequest rc' = rc_membershipRequest rc;
}.
#[export] Instance same_identity_preorder : PreOrder same_identity.
Proof. split; [by intros ?; split|]. by intros ??? [] []; split; etrans. Qed.

Record ctx_rel g g' : Prop := {
  xr_in : g_in g' = g_in g;
  xr_ctx : Forall2 same_identity (g_allReplicas g) (g_allReplicas g');
  xr_replicas : Forall2 loses (g_replicas g) (g_replicas g');
}.
#[export] Instance ctx_rel_preorder : PreOrder ctx_rel.
Proof. split; [intros ?; by split|]. intros ??? [] []; split; by etrans. Qed.
Lemma cb_frame_rel g g' : cb_frame g g' → ctx_rel g g'.
Proof.
  intros [H1 _ H2 H3]. split; [done| |done]. eapply Forall2_impl; [exact H2|]. intros rc rc' []. by split.
Qed.
Lemma upd_rc_rel i f g : (∀ rc, same_identity rc (f rc)) → ctx_rel g (upd_rc i f g).
Proof.
  intros Hf. split; simpl; try done. apply Forall2_same_length_lookup_2; [by rewrite length_alter|].
  intros j x y Hx Hy. destruct (decide (i = j)) as [->|Hne].
  - rewrite list_lookup_alter_eq, Hx in Hy. by simplify_eq/=.
  - rewrite list_lookup_alter_ne, Hx in Hy by done. by simplify_eq/=.
Qed.
#[export] Instance datamesh_context_relation : ContextRelation theRegistry concurrencyTracker ctx_rel.
Proof.
  split; [apply _| | | | |].
  - intros p mem g g' Hp%registered_ok He. apply cb_frame_rel. by eapply plan_effect_frame.
  - intros p s mem g r c g' Hp%registered_ok Hs H. apply cb_frame_rel.
    exact (okf_Ok _ _ _ (step_apply_okf p s mem g r Hp Hs) H).
  - intros g g' [id sl r msg det [[_ ->]|[_ ->]]%slot_cases|id sl r a [[_ ->]|[_ ->]]%slot_cases];
      by apply upd_rc_rel.
  - intros a t g g' H. simpl in H. unfold Add in H. bok H as k _. injection H as <-. by split.
  - intros t g g' H. simpl in H. unfold Remove in H. bok H as k _. injection H as <-. by split.
Qed.

(** Every replica name the provider can return is valid, and stays so. *)
Definition names_ok g : Prop :=
  length (g_replicas g) = 32%nat ∧ Forall (λ rc, named rc ∧ valid_id (rc_id rc)) (g_allReplicas g).
Lemma ctx_wf_names g : ctx_wf g → names_ok g.
Proof.
  intros Hw. split; [apply Hw|]. apply Forall_and. split; [exact (cw_names g Hw)|exact (cw_ids g Hw)].
Qed.
Lemma ctx_rel_names g g' : ctx_rel g g' → names_ok g → names_ok g'.
Proof.
  intros [_ H2 H3] [Hl Hn]. split; [by rewrite <-(Forall2_length _ _ _ H3)|].
  apply Forall_lookup. intros i rc Hi. destruct (Forall2_lookup_r _ _ _ _ _ H2 Hi) as (rc0 & H0 & Hs).
  rewrite Forall_lookup in Hn. unfold named. rewrite (si_name _ _ Hs), (si_id _ _ Hs). by eapply Hn.
Qed.
Lemma names_ok_rctx g r : names_ok g → name_ok (rctx_Name g r).
Proof.
  intros [_ Hn]. simpl. destruct (g_allReplicas g !! r) as [rc|] eqn:E; [|by left].
  rewrite Forall_lookup in Hn. destruct (Hn _ _ E) as [[H|H] Hv]; [by left|right; by rewrite H].
Qed.
Lemma names_ok_known g t : names_ok g → name_ok (t_ReplicaName t) → known_id g t.
Proof.
  intros [Hl _] [?|Hv] Hne; [done|]. simpl. unfold index.
  destruct (lookup_lt_is_Some_2 (g_replicas g) (Z.to_nat (idFromName (t_ReplicaName t)))) as [x Hx].
  { rewrite Hl. unfold valid_id in Hv. lia. }
  rewrite Hx. by eexists.
Qed.

(** ** Stored transitions *)

(** What every stored transition list satisfies: well-shaped steps (Completed* Active Pending* ),
    valid replica names, no two transitions that the concurrency rules keep apart. *)
Record transitions_ok (ts : list Transition) : Prop := {
  to_shaped : Forall shaped ts;
  to_names : Forall (λ t, name_ok (t_ReplicaName t)) ts;
  to_exclusive i j t u : i ≠ j → ts !! i = Some t → ts !! j = Some u → ¬ Tracker.conflict t u;
}.

(** ** The engine ProcessTransitions builds *)
Lemma foldO_tracking {A} (ID : A → Z) F l g g' :
  foldO (λ x, with_rc (ID x) (F x)) l g = Ok g' → g_tracking g' = g_tracking g.
Proof.
  revert g. induction l as [|x l IH]; intros g H; simpl in H; [by injection H as <-|].
  bok H as g1 H1. rewrite (IH _ H). unfold with_rc in H1. bok H1 as r _. bok H1 as i _. by injection H1 as <-.
Qed.
Lemma assignRVAs_tracking gs g : g_tracking (assignRVAs gs g) = g_tracking g.
Proof.
  revert g. induction gs as [|grp gs IH]; intros g; [done|]. unfold assignRVAs in *. simpl. rewrite IH.
  by repeat case_match.
Qed.
Lemma buildContexts_tracking rv rsp rvrs rvas ff g :
  buildContexts rv rsp rvrs rvas ff = Ok g → g_tracking g = initTracking.
Proof.
  intros (cfg & g0 & g1 & g2 & g3 & _ & -> & H1 & H2 & H3 & ->)%buildContexts_inv.
  unfold reindex. cbv zeta. destruct (_ || _); cbn [g_tracking set_replicas];
    rewrite assignRVAs_tracking, (foldO_tracking _ _ _ _ _ H3), (foldO_tracking _ _ _ _ _ H2),
      (foldO_tracking _ _ _ _ _ H1); reflexivity.
Qed.
Lemma updateZones_rel g : ctx_rel g (updateMemberZonesFromRSP g).2 ∧
  g_tracking (updateMemberZonesFromRSP g).2 = g_tracking g.
Proof.
  unfold updateMemberZonesFromRSP. destruct (in_rsp (g_in g)) as [rsp|]; simpl; [|by split].
  split; [|done]. split; simpl; try done.
  rewrite map_map. apply Forall2_fmap_r, Forall_Forall2_diag, Forall_true. intros rc. unfold compose.
  destruct (memberOf rc); [|reflexivity]. destruct (String.eqb _ _); [reflexivity|].
  destruct (FindEligibleNode _ _); [|reflexivity]. destruct (String.eqb _ _); [reflexivity|by split].
Qed.

Lemma tracks_init_ids g : Forall (λ rc, valid_id (rc_id rc)) (g_allReplicas g) → g_tracking g = initTracking → tracks (newConcurrencyTracker g) [].
Proof.
  intros Hw Hk. unfold tracks, newConcurrencyTracker. rewrite Hk. simpl.
  assert (Hpot : ∀ l s, Forall (λ rc, valid_id (rc_id rc)) l → wf_set s →
    wf_set (foldl (λ s rc, match memberOf rc with
                           | Some m => if m_Attached m then idset.Add s (rc_id rc) else s
                           | None => s end) s l)).
  { induction l as [|rc l IH]; intros s Hl Hs; simpl; [done|]. apply Forall_cons in Hl as [Hrc Hl].
    apply IH; [done|]. destruct (memberOf rc) as [m|]; [|done]. destruct (m_Attached m); [|done].
    apply wf_Add; [done|apply Hrc]. }
  assert (Hd : ∀ P, describes 0 P []) by (intros P; split; [apply wf_empty|intros; by apply Contains_empty]).
  constructor; simpl; try done.
  split; [|by intros id x _ ?%elem_of_nil]. apply Hpot; [done|apply wf_empty].
Qed.

(** Everything known about the engine before Process. *)
Record started (ts : list Transition) (e : Engine globalContext nat) : Prop := {
  st_registry : e_registry e = theRegistry;
  st_tracker : e_tracker e = concurrencyTracker;
  st_dispatchers : e_dispatchers e = dispatchers;
  st_fresh : e_finalized e = false;
  st_wf : index_wf e;
  st_active : snd <$> active e = ts;
  st_tracks : tracks (e_g e) (active e);
  st_names : names_ok (e_g e);
}.
Lemma newEngine_started rv rsp rvrs rvas ff spare z e :
  newEngine (Some theRegistry) rv rsp rvrs rvas ff spare = Ok (z, e) →
  started (rv_DatameshTransitions rv) e.
Proof.
  unfold newEngine. intros H. apply bind_Ok in H as (g & Hg & H).
  pose proof (buildContexts_wf _ _ _ _ _ _ Hg) as Hw. pose proof (buildContexts_tracking _ _ _ _ _ _ Hg) as Hk.
  destruct (updateZones_rel g) as [Hz Hzk]. destruct (updateMemberZonesFromRSP g) as [z1 g1]. simpl in Hz, Hzk.
  apply bind_Ok in H as (e1 & He & H). injection H as <- <-.
  apply NewEngine_spec in He as (Hwf & Hact & [= Hreg] & [= Htrk] & Hd & Hfin & Hinit & _).
  assert (Hids : Forall (λ rc, valid_id (rc_id rc)) (g_allReplicas g1)).
  { apply Forall_lookup. intros i rc Hi. destruct (Forall2_lookup_r _ _ _ _ _ (xr_ctx _ _ Hz) Hi) as (rc0 & H0 & Hs).
    rewrite (si_id _ _ Hs). pose proof (cw_ids g Hw) as Hc. rewrite Forall_lookup in Hc. by eapply Hc. }
  assert (Hn1 : names_ok g1) by (eapply ctx_rel_names; [exact Hz|]; by apply ctx_wf_names).
  assert (Ht : tracks (newConcurrencyTracker g1) []).
  { apply tracks_init_ids; [done|]. by rewrite Hzk, Hk. }
  split; try done; try congruence.
  - rewrite Hact. apply list_eq. intros i. rewrite list_lookup_fmap, list_lookup_imap.
    by destruct (rv_DatameshTransitions rv !! i).
  - rewrite Hact. rewrite <-Hreg, <-Htrk in Hinit.
    exact (init_loop_tracks _ _ _ _ tracker_laws _ _ _ _ _ Hinit Ht).
  - rewrite <-Hreg, <-Htrk in Hinit. eapply ctx_rel_names; [by eapply rel_init_loop, Hinit; apply _|]. done.
Qed.

(** ** A completed cycle *)

(** The engine state that Process leaves, for a started engine. *)
Lemma Process_started clock ts e ch e' : started ts e → Process clock e = Ok (ch, e') →
  rtc estep e e' ∧ same_config e e' ∧ index_wf e' ∧ ctx_rel (e_g e) (e_g e') ∧
  (transitions_ok ts → transitions_ok (snd <$> active e')) ∧
  (Forall (λ t, name_ok (t_ReplicaName t)) ts → Forall (λ x, name_ok (t_ReplicaName x.2)) (active e')).
Proof.
  intros [Hreg Htrk Hd Hfin Hwf Hact Htr Hn] H.
  assert (HL : RegistryLaws (e_registry e)) by (rewrite Hreg; apply _).
  pose proof (Process_steps clock e ch e' HL H) as Hst.
  pose proof (index_wf_steps _ _ Hst Hwf) as Hwf'.
  assert (Hrel : ctx_rel (e_g e) (e_g e')) by (by eapply rel_steps; [apply datamesh_context_relation|..]).
  assert (Hnames : Forall (λ t, name_ok (t_ReplicaName t)) ts → Forall (λ x, name_ok (t_ReplicaName x.2)) (active e')).
  { intros HN. eapply (names_steps theRegistry concurrencyTracker ctx_rel _ _ name_ok e e'); try done.
    - by left.
    - intros g Hg r. apply names_ok_rctx. by eapply ctx_rel_names.
    - rewrite <-Hact, Forall_fmap in HN. exact HN. }
  split_and!; try done; [by apply rtc_estep_config|]. intros [S1 S2 S3]. split.
  - rewrite Forall_fmap. eapply all_shaped_steps; try done. rewrite <-Hact, Forall_fmap in S1. exact S1.
  - rewrite Forall_fmap. by apply Hnames.
  - assert (Hex : exclusive Tracker.conflict (active e)).
    { intros i j x y Hij Hx Hy. apply (S3 i j); [done| |]; rewrite <-Hact, list_lookup_fmap; by rewrite ?Hx, ?Hy. }
    destruct (tracked_steps tracks Tracker.conflict theRegistry concurrencyTracker _ _ e e' Hreg Htrk Hwf Hst)
      as [_ Hex']; [by split|].
    intros i j t u Hij Hi Hj. rewrite list_lookup_fmap in Hi, Hj.
    destruct (active e' !! i) as [x|] eqn:Ei, (active e' !! j) as [y|] eqn:Ej; simplify_eq/=. by apply (Hex' i j).
Qed.

Lemma Finalize_not_fuel (e : Engine globalContext nat) : Finalize e ≠ OutOfFuel.
Proof.
  assert (Hrep : ∀ a b (e : Engine globalContext nat), replaceSlotPointer a b e ≠ OutOfFuel).
  { intros a b e0. unfold replaceSlotPointer. apply bind_not_fuel; [apply index_not_fuel|]. intros t _.
    destruct (String.eqb _ _); [done|]. apply bind_not_fuel; [apply ReplicaID_not_fuel|]. intros id _.
    apply bind_not_fuel; [apply index_not_fuel|]. by intros [r|] _. }
  assert (Hloop : ∀ base minLen ptrs i (e : Engine globalContext nat), finalize_loop base minLen i ptrs e ≠ OutOfFuel).
  { intros base minLen. induction ptrs as [|a ptrs IH]; intros i e0; simpl; [done|].
    apply bind_not_fuel; [|intros; apply IH].
    destruct (_ <? _)%nat; [destruct (_ =? _)%nat; [done|]|].
    - apply bind_not_fuel; [apply Hrep|]. intros e1 _. apply bind_not_fuel; [apply index_not_fuel|done].
    - apply bind_not_fuel; [apply index_not_fuel|]. intros t _. apply Hrep. }
  unfold Finalize. destruct (e_finalized e); [done|]. cbv zeta.
  match goal with |- context [let '(_, _) := ?x in _] => destruct x as [base e1] end.
  apply bind_not_fuel; [apply Hloop|done].
Qed.

Lemma foldO_not_fuel {A} (ID : A → Z) F l g : foldO (λ x, with_rc (ID x) (F x)) l g ≠ OutOfFuel.
Proof.
  revert g. induction l as [|x l IH]; intros g; simpl; [done|]. apply bind_not_fuel; [|intros; apply IH].
  apply bind_not_fuel; [apply index_not_fuel|]. intros r _. apply bind_not_fuel; [apply deref_not_fuel|done].
Qed.
Lemma init_loop_not_fuel ts a g : init_loop theRegistry concurrencyTracker a ts g ≠ OutOfFuel.
Proof.
  revert a g. induction ts as [|t ts IH]; intros a g; simpl; [done|].
  apply bind_not_fuel; [exact (tm_add (Terminating := datamesh_terminates) a t g)|]. intros g1 _.
  apply bind_not_fuel; [|intros; apply IH]. unfold initSlot. destruct (String.eqb _ _); [done|].
  destruct (reg_get _ _ _) as [p|]; [|done]. destruct (negb _); [done|].
  destruct (replicaSlotAccessor _ _) as [sl|]; [|done].
  apply bind_not_fuel; [apply ReplicaID_not_fuel|]. intros id _.
  apply bind_not_fuel; [apply index_not_fuel|]. by intros [r|] _.
Qed.
Lemma newEngine_not_fuel rv rsp rvrs rvas ff spare :
  newEngine (Some theRegistry) rv rsp rvrs rvas ff spare ≠ OutOfFuel.
Proof.
  unfold newEngine. apply bind_not_fuel.
  - unfold buildContexts. destruct (rv_Configuration rv); [|done]. cbv zeta.
    apply bind_not_fuel; [exact (foldO_not_fuel rvr_ID setRVR _ _)|]. intros g1 _.
    apply bind_not_fuel; [exact (foldO_not_fuel (λ x, m_ID x.2) setMember _ _)|]. intros g2 _.
    apply bind_not_fuel; [exact (foldO_not_fuel (λ x, rq_ID x.2) setRequest _ _)|]. done.
  - intros g _. destruct (updateMemberZonesFromRSP g) as [z g1]. apply bind_not_fuel; [|done].
    unfold NewEngine. apply bind_not_fuel; [apply init_loop_not_fuel|done].
Qed.

Lemma ProcessTransitions_not_fuel clock rv rsp rvrs rvas ff spare :
  (reg ← BuildRegistry None; ProcessTransitions clock reg rv rsp rvrs rvas ff spare) ≠ OutOfFuel.
Proof.
  rewrite BuildRegistry_value. cbn [mbind outcome_bind]. unfold ProcessTransitions.
  apply bind_not_fuel; [apply newEngine_not_fuel|]. intros [z e] He.
  pose proof (newEngine_started _ _ _ _ _ _ _ _ He) as Hst. apply bind_not_fuel.
  - apply Process_not_fuel; [apply _| |]; [by rewrite (st_registry _ _ Hst); apply _|].
    unfold all_terminate. rewrite (st_registry _ _ Hst), (st_tracker _ _ Hst), (st_dispatchers _ _ Hst). apply _.
  - intros [ch e'] _. apply bind_not_fuel; [apply Finalize_not_fuel|]. intros [[base n] e2] _.
    cbv zeta. by destruct (writeback _ _ _ _ _ _).
Qed.

(** C1: with the registry BuildRegistry builds, ProcessTransitions terminates on every input: the
    settle loops, the dispatch loops and the finalization never run out of steps. *)
Theorem ProcessTransitions_terminates (clock : nat → Time) (rv : ReplicatedVolume) (rsp : option RSP)
    (rvrs : list ReplicatedVolumeReplica) (rvas : list ReplicatedVolumeAttachment)
    (ff : FeatureFlags) (spare : list Transition) :
  (reg ← BuildRegistry None; ProcessTransitions clock reg rv rsp rvrs rvas ff spare) ≠ OutOfFuel.
Proof. apply ProcessTransitions_not_fuel. Qed.

Lemma ProcessTransitions_okf clock rv rsp rvrs rvas ff spare :
  okf (reg ← BuildRegistry None; ProcessTransitions clock reg rv rsp rvrs rvas ff spare)
    (λ res, ∃ z e ch e' base n e2, let '(changed, ctxs, rv') := res in
      newEngine (Some theRegistry) rv rsp rvrs rvas ff spare = Ok (z, e) ∧
      Process clock e = Ok (ch, e') ∧ Finalize e' = Ok (base, n, e2) ∧
      rv_DatameshTransitions rv' = finalSlice (base, n, e2) ∧ ctxs = g_allReplicas (e_g e2) ∧
      (changed, rv') = writeback ch z (finalSlice (base, n, e2)) (e_revision e2) (e_g e2) rv).
Proof.
  pose proof (ProcessTransitions_not_fuel clock rv rsp rvrs rvas ff spare) as Hnf. revert Hnf.
  rewrite BuildRegistry_value. cbn [mbind outcome_bind]. unfold ProcessTransitions.
  destruct (newEngine _ _ _ _ _ _ _) as [[z e]| |] eqn:He; cbn [mbind outcome_bind]; try done.
  destruct (Process clock e) as [[ch e']| |] eqn:HP; cbn [mbind outcome_bind]; try done.
  destruct (Finalize e') as [[[base n] e2]| |] eqn:HF; cbn [mbind outcome_bind snd]; try done. cbv zeta.
  destruct (writeback _ _ _ _ _ _) as [ch2 rv2] eqn:HW. intros _. cbn [okf].
  exists z, e, ch, e', base, n, e2. split_and!; try done.
  unfold writeback in HW. cbv zeta in HW. destruct (writebackRequestMessagesFromContexts _ _), (effective_layout.updateEffectiveLayout _ _).
  by injection HW as _ <-.
Qed.
Lemma Finalize_rel (e : Engine globalContext nat) base n e2 : e_registry e = theRegistry →
  Finalize e = Ok (base, n, e2) → ctx_rel (e_g e) (e_g e2).
Proof.
  assert (Hin : ∀ r old new slots g, ctx_rel g (replaceInSlots theRegistry r old new slots g)).
  { intros r old new. induction slots as [|id slots IH]; intros g; simpl; [reflexivity|].
    destruct (replicaSlotAccessor theRegistry id) as [sl|] eqn:E; [|apply IH].
    destruct (bool_decide _); [|apply IH]. apply (cr_slot (ContextRelation := datamesh_context_relation)). by eapply se_active. }
  assert (Hrep : ∀ a b (e e' : Engine globalContext nat), e_registry e = theRegistry →
    replaceSlotPointer a b e = Ok e' → ctx_rel (e_g e) (e_g e') ∧ e_registry e' = theRegistry).
  { intros a b e0 e' Hr H. unfold replaceSlotPointer in H. bok H as t _.
    destruct (String.eqb _ _); [by injection H as <-|]. bok H as id _. bok H as r _.
    destruct r as [r|]; injection H as <-; [|done].
    cbn [e_g set_g e_registry]. rewrite Hr. split; [exact (Hin r a b (seq 0 MaxReplicaSlots) _)|done]. }
  assert (Hloop : ∀ bs ml ptrs i (e e' : Engine globalContext nat), e_registry e = theRegistry →
    finalize_loop bs ml i ptrs e = Ok e' → ctx_rel (e_g e) (e_g e')).
  { intros bs ml. induction ptrs as [|a ptrs IH]; intros i e0 e' Hr H; simpl in H; [by injection H as <-|].
    bok H as e1 H1. cut (ctx_rel (e_g e0) (e_g e1) ∧ e_registry e1 = theRegistry).
    { intros [HA HB]. etrans; [exact HA|by eapply IH]. }
    destruct (_ <? _)%nat; [destruct (_ =? _)%nat; [by injection H1 as <-|]|].
    - bok H1 as e2' H2. bok H1 as t _. injection H1 as <-. exact (Hrep _ _ e0 e2' Hr H2).
    - bok H1 as t _. exact (Hrep _ _ (store _ _ e0) e1 Hr H1). }
  unfold Finalize. intros Hr H. destruct (e_finalized e); [done|]. cbv zeta in H.
  match type of H with context [let '(_, _) := ?x in _] => destruct x as [b e1] eqn:Et end.
  bok H as e3 H3. injection H as _ _ <-. apply Hloop in H3.
  - assert (e_g e1 = e_g e) as <-; [|done]. destruct (_ <? _)%nat; [|by injection Et as _ <-].
    unfold growArray in Et. destruct (_ <=? _)%nat; by injection Et as _ <-.
  - destruct (_ <? _)%nat; [|by injection Et as _ <-].
    unfold growArray in Et. destruct (_ <=? _)%nat; by injection Et as _ <-.
Qed.

(** Finalize of a processed engine: total, returns the active transitions, keeps the contexts. *)
Lemma Finalize_started clock ts e ch e' : started ts e → Process clock e = Ok (ch, e') →
  Forall (λ t, name_ok (t_ReplicaName t)) ts →
  ∃ base n e2, Finalize e' = Ok (base, n, e2) ∧ finalSlice (base, n, e2) = snd <$> active e' ∧
    ctx_rel (e_g e') (e_g e2).
Proof.
  intros Hst H HN. destruct (Process_started clock ts e ch e' Hst H) as (_ & Hc & Hwf & Hrel & _ & Hn).
  destruct Hc as (Er & _ & _ & _ & _ & Ef).
  destruct (Finalize_props theRegistry slot_laws e') as (base & n & e2 & HF & HS & _).
  - rewrite Er. apply Hst.
  - done.
  - rewrite Ef. apply Hst.
  - refine (List.Forall_impl _ _ (Hn HN)). intros x Hx. apply names_ok_known; [|done].
    eapply ctx_rel_names; [exact Hrel|apply Hst].
  - exists base, n, e2. split_and!; try done. eapply Finalize_rel; [|exact HF]. rewrite Er. apply Hst.
Qed.

(** C2: a cycle keeps the stored transitions well formed: if the volume's transitions have well-shaped
    steps, valid replica names and no pair the concurrency rules keep apart, then so do the transitions
    ProcessTransitions stores. *)
Theorem ProcessTransitions_transitions_ok (clock : nat → Time) (rv : ReplicatedVolume) (rsp : option RSP)
    (rvrs : list ReplicatedVolumeReplica) (rvas : list ReplicatedVolumeAttachment)
    (ff : FeatureFlags) (spare : list Transition) : transitions_ok (rv_DatameshTransitions rv) →
  okf (reg ← BuildRegistry None; ProcessTransitions clock reg rv rsp rvrs rvas ff spare)
    (λ res, transitions_ok (rv_DatameshTransitions res.2)).
Proof.
  intros Hok. eapply okf_mono; [apply ProcessTransitions_okf|]. intros [[ch ctxs] rv'] (z & e & ch' & e' & base & n & e2 & H).
  destruct H as (He & HP & HF & Hrv & _). simpl. rewrite Hrv.
  pose proof (newEngine_started _ _ _ _ _ _ _ _ He) as Hst.
  destruct (Finalize_started clock _ e ch' e' Hst HP (to_names _ Hok)) as (b & k & e3 & HF' & HS & _).
  rewrite HF in HF'. injection HF' as <- <- <-. rewrite HS.
  destruct (Process_started clock _ e ch' e' Hst HP) as (_ & _ & _ & _ & Ht & _). by apply Ht.
Qed.
End system.
