(* ===== verification/Provenance.v ===== *)
(** * Where the members in the contexts come from

    The contexts buildContexts makes hold the stored members under their own IDs ([stored]); setting up
    the engine and finalizing it only move slots and tracker state ([slots_only]); the member slice
    written back holds members of the contexts only ([writebackMembers_held]). *)

From Stdlib Require Import ZArith Lia String.
From stdpp Require Import base list numbers strings option relations.
From S2P Require Import Prelude IdSet DrbdSize Api Dmte DmteSteps DmteInvariants DmteFinalize.
From S2P Require Import Context Tracker Helpers Attachment Datamesh Frame Plans Effects Contexts System.
Import idset v1alpha1 dmte datamesh concurrency_tracker helpers attachment process.

Set Default Proof Using "Type".

Section provenance.
Context `{K : K8s}.
Implicit Types (g : globalContext) (rc : ReplicaContext) (rv : ReplicatedVolume) (e : Engine globalContext nat).

(** ** Population *)

Lemma foldO_with_rc_Forall {A} (P : ReplicaContext → Prop) (ID : A → Z) (F : A → ReplicaContext → ReplicaContext) l g g' :
  ctx_wf g → (∀ x, 0 ≤ ID x) → (∀ x rc, rc_id (F x rc) = rc_id rc ∧ (named rc → rc_id rc = ID x → named (F x rc))) →
  (∀ x rc, x ∈ l → rc_id rc = ID x → P rc → P (F x rc)) →
  foldO (λ x, with_rc (ID x) (F x)) l g = Ok g' → Forall P (g_allReplicas g) → ctx_wf g' ∧ Forall P (g_allReplicas g').
Proof.
  intros Hw Hid Hf HP. revert g Hw. induction l as [|x l IH]; intros g Hw H HF; simpl in H; [by injection H as <-|].
  bok H as g1 H1.
  destruct (with_rc_wf _ _ _ _ Hw (Hid x) (λ rc, proj1 (Hf x rc)) (λ rc, proj2 (Hf x rc)) H1) as [Hw1 _].
  eapply IH; [by intros; apply HP; [right|..]|exact Hw1|exact H|].
  unfold with_rc in H1. bok H1 as r Hr%index_Ok. bok H1 as i Hi%deref_Ok. injection H1 as <-. subst r. simpl.
  apply Forall_alter; [done|]. intros rc Hrc Hp. destruct (cw_index g Hw _ _ Hr) as (rc' & E & Eid).
  assert (rc' = rc) as -> by congruence. apply HP; [left|rewrite Eid; specialize (Hid x); lia|done].
Qed.
(** A property of empty contexts that the three population passes and the RVA assignment preserve
    holds of every context. *)
Lemma buildContexts_Forall (P : ReplicaContext → Prop) rv rsp rvrs rvas ff g :
  (∀ j node, P (set_rc_identity "" node (emptyContext j))) → (∀ rc rvas, P rc → P (set_rc_rvas rvas rc)) →
  (∀ x rc, x ∈ rvrs → rc_id rc = rvr_ID x → P rc → P (setRVR x rc)) →
  (∀ i m rc, rv_Members rv !! i = Some m → rc_id rc = m_ID m → P rc → P (setMember (i, m) rc)) →
  (∀ x rc, rc_id rc = rq_ID x.2 → P rc → P (setRequest x rc)) →
  buildContexts rv rsp rvrs rvas ff = Ok g → Forall P (g_allReplicas g).
Proof.
  intros P0 P1 P2 P3 P4 (cfg & g0 & g1 & g2 & g3 & _ & -> & H1 & H2 & H3 & ->)%buildContexts_inv.
  destruct (alloc_wf (knownIDs rv rvrs) (initContext rv cfg rsp ff)) as [Hw _]; [apply knownIDs_wf|done|].
  apply (foldO_with_rc_Forall P) in H1 as [Hw1 HF1]; [|done|intros; apply idFromName_nonneg|apply setRVR_ok|auto|].
  2:{ rewrite alloc_allReplicas. apply Forall_fmap, Forall_true. intros j. exact (P0 j ""). }
  apply (foldO_with_rc_Forall P) in H2 as [Hw2 HF2]; [|done|intros; apply idFromName_nonneg|apply setMember_ok| |done].
  2:{ intros [i m] rc [k Hk]%list_elem_of_lookup_1. apply imap_pair_lookup in Hk as [Hk Ek]. simpl in *. subst k. by apply P3. }
  apply (foldO_with_rc_Forall P) in H3 as [Hw3 HF3]; [|done|intros; apply idFromName_nonneg|apply setRequest_ok|auto|done].
  destruct (assignRVAs_wf (groupRVAs rvas) g3 Hw3) as [Hw4 _].
  rewrite (proj1 (proj2 (reindex_wf _ _ Hw4))). clear -HF3 P0 P1. revert g3 HF3.
  induction (groupRVAs rvas) as [|grp gs IH]; intros g HF; [done|]. unfold assignRVAs in *. simpl. apply IH.
  destruct (list_find _ _) as [[i rc0]|]; simpl; [apply Forall_alter; auto|].
  apply Forall_app. split; [done|]. apply Forall_singleton, P1. exact (P0 0 grp.1).
Qed.

(** The member of a context is a stored one, of the context's ID. *)
Definition stored (orig : list DatameshMember) rc : Prop :=
  ∀ m o, rc_member rc = Some (m, o) → m_ID m = rc_id rc ∧ ∃ i, o = Some i ∧ orig !! i = Some m.
Lemma buildContexts_stored rv rsp rvrs rvas ff g : buildContexts rv rsp rvrs rvas ff = Ok g →
  Forall (stored (rv_Members rv)) (g_allReplicas g).
Proof.
  apply buildContexts_Forall; try done. intros i m rc Hi Hid _ m' o [= <- <-]. split; [done|]. by exists i.
Qed.
(** A context with a replica object or a member has a name. *)
Definition has_name rc : Prop := is_Some (rc_rvr rc) ∨ is_Some (rc_member rc) → rc_name rc ≠ "".
Lemma buildContexts_has_name rv rsp rvrs rvas ff g : (∀ r, r ∈ rvrs → rvr_Name r ≠ "") →
  (∀ m, m ∈ rv_Members rv → m_Name m ≠ "") → buildContexts rv rsp rvrs rvas ff = Ok g →
  Forall has_name (g_allReplicas g).
Proof.
  intros N1 N2. assert (Hor : ∀ a b, a ≠ "" ∨ b ≠ "" → orEmpty a b ≠ "").
  { intros a b H. unfold orEmpty. destruct (String.eqb_spec a ""); [|done]. by destruct H. }
  apply buildContexts_Forall; try done.
  - by intros j node [[? ?]|[? ?]].
  - intros x rc Hx _ _ _. by apply N1.
  - intros i m rc Hi _ _ _. apply Hor. right. by eapply N2, list_elem_of_lookup_2.
  - intros x rc _ Hn Hs. apply Hor. left. by apply Hn.
Qed.

(** ** Set-up and finalization *)

(** Only slots and tracker state change. *)
Definition keeps_member rc rc' : Prop := same_identity rc rc' ∧ rc_member rc' = rc_member rc.
#[export] Instance keeps_member_preorder : PreOrder keeps_member.
Proof. split; [by intros rc; split|]. intros rc1 rc2 rc3 [S1 M1] [S2 M2]. split; [by etrans|congruence]. Qed.
Record slots_only g g' : Prop := {
  so_in : g_in g' = g_in g;
  so_datamesh : g_datamesh g' = g_datamesh g;
  so_baseline : g_baselineGMDR g' = g_baselineGMDR g;
  so_replicas : g_replicas g' = g_replicas g;
  so_ctx : Forall2 keeps_member (g_allReplicas g) (g_allReplicas g');
}.
#[export] Instance slots_only_preorder : PreOrder slots_only.
Proof.
  split.
  - intros g. by split.
  - intros g1 g2 g3 [I1 A1 B1 C1 D1] [I2 A2 B2 C2 D2]. split; [congruence|congruence|congruence|congruence|by etrans].
Qed.
Lemma slot_effect_slots g g' : slot_effect theRegistry g g' → slots_only g g'.
Proof.
  intros H. assert (Hu : ∀ i f, (∀ rc, same_identity rc (f rc) ∧ rc_member (f rc) = rc_member rc) → slots_only g (upd_rc i f g)).
  { intros i f Hf. split; simpl; try done. apply Forall2_same_length_lookup_2; [by rewrite length_alter|].
    intros j x y Hx Hy. destruct (decide (i = j)) as [->|Hne].
    - rewrite list_lookup_alter_eq, Hx in Hy. injection Hy as <-. apply Hf.
    - rewrite list_lookup_alter_ne, Hx in Hy by done. injection Hy as <-. by split. }
  destruct H as [id sl r msg det [[_ ->]|[_ ->]]%slot_cases|id sl r a [[_ ->]|[_ ->]]%slot_cases];
    apply Hu; intros rc; by repeat split.
Qed.
Lemma slots_respects g g' : slots_only g g' → respects noEffect g g' ∧ dm_multiattach (g_datamesh g') = dm_multiattach (g_datamesh g).
Proof.
  intros [_ A B C D]. split; [split|by rewrite A]; [right; by rewrite A|].
  eapply Forall2_impl; [exact D|]. intros rc rc' [[] ?]. by apply me_same.
Qed.
Lemma slots_rel g g' : slots_only g g' → ctx_rel g g'.
Proof.
  intros [Hin A B C D]. split; [done|eapply Forall2_impl; [exact D|by intros rc rc' [? _]]|by rewrite C].
Qed.
Lemma init_loop_slots ts a g g' : init_loop theRegistry concurrencyTracker a ts g = Ok g' → slots_only g g'.
Proof.
  revert a g. induction ts as [|t ts IH]; intros a g H; simpl in H; [by injection H as <-|].
  bok H as g1 H1. bok H as g2 H2. transitivity g1; [|transitivity g2; [|by eapply IH]].
  - unfold concurrency_tracker.Add in H1. bok H1 as k _. injection H1 as <-. by split.
  - unfold initSlot in H2. destruct (String.eqb _ _); [by injection H2 as <-|].
    destruct (reg_get _ _ _) as [p|]; [|by injection H2 as <-]. destruct (negb _); [by injection H2 as <-|].
    destruct (replicaSlotAccessor _ _) as [sl|] eqn:Esl; [|by injection H2 as <-].
    bok H2 as id _. bok H2 as r _. destruct r; injection H2 as <-; [|done].
    apply slot_effect_slots. by eapply se_active.
Qed.
Lemma Finalize_slots e base n e2 : e_registry e = theRegistry → Finalize e = Ok (base, n, e2) →
  slots_only (e_g e) (e_g e2) ∧ e_revision e2 = e_revision e.
Proof.
  set (R := λ e e' : Engine globalContext nat, slots_only (e_g e) (e_g e') ∧ e_registry e' = e_registry e ∧ e_revision e' = e_revision e).
  assert (Hin : ∀ r old new slots g, slots_only g (replaceInSlots theRegistry r old new slots g)).
  { intros r old new. induction slots as [|id slots IH]; intros g; simpl; [reflexivity|].
    destruct (replicaSlotAccessor theRegistry id) as [sl|] eqn:E; [|apply IH].
    destruct (bool_decide _); [|apply IH]. apply slot_effect_slots. by eapply se_active. }
  assert (Hrep : ∀ a b e e', e_registry e = theRegistry → replaceSlotPointer a b e = Ok e' → R e e').
  { intros a b e0 e' Hr H. unfold replaceSlotPointer in H. bok H as t _.
    destruct (String.eqb _ _); [by injection H as <-|]. bok H as id _. bok H as r _.
    destruct r as [r|]; injection H as <-; [|done]. split; [|done].
    cbn [e_g set_g]. rewrite Hr. exact (Hin r a b (seq 0 MaxReplicaSlots) _). }
  assert (Hloop : ∀ bs ml ptrs i e e', e_registry e = theRegistry → finalize_loop bs ml i ptrs e = Ok e' → R e e').
  { intros bs ml. induction ptrs as [|a ptrs IH]; intros i e0 e' Hr H; simpl in H; [by injection H as <-|].
    bok H as e1 H1. assert (R e0 e1) as (A & B & C).
    { destruct (_ <? _)%nat; [destruct (_ =? _)%nat; [by injection H1 as <-|]|].
      - bok H1 as e2' H2. bok H1 as t _. injection H1 as <-. exact (Hrep _ _ e0 e2' Hr H2).
      - bok H1 as t _. exact (Hrep _ _ (store _ _ e0) e1 Hr H1). }
    rewrite <-B in Hr. destruct (IH _ _ _ Hr H) as (A' & B' & C'). split_and!; [by etrans|congruence|congruence]. }
  unfold Finalize. intros Hr H. destruct (e_finalized e); [done|]. cbv zeta in H.
  match type of H with context [let '(_, _) := ?x in _] => destruct x as [b e1] eqn:Et end.
  assert (e_g e1 = e_g e ∧ e_registry e1 = e_registry e ∧ e_revision e1 = e_revision e) as (E1 & E2 & E3).
  { destruct (_ <? _)%nat; [|by injection Et as _ <-].
    unfold growArray in Et. destruct (_ <=? _)%nat; by injection Et as _ <-. }
  bok H as e3 H3. injection H as _ _ <-. apply Hloop in H3 as (A & B & C); [|congruence].
  rewrite <-E1, <-E3. by split.
Qed.

(** ** Writeback *)
Lemma survivors_held orig g m : Forall (λ m, valid_id (m_ID m)) orig → m ∈ omap id (imap (survivor g) orig) →
  ∃ j rc, valid_id j ∧ replicaAt g j = Some rc ∧ memberOf rc = Some m.
Proof.
  intros Hv (i & m0 & rc & E & H1 & H2)%elem_of_survivors. exists (m_ID m0), rc. split_and!; [|done|].
  - rewrite Forall_lookup in Hv. by eapply Hv.
  - unfold memberOf. by rewrite H2.
Qed.
Lemma writebackMembers_held orig g m : Forall (λ m, valid_id (m_ID m)) orig →
  m ∈ writebackMembersFromContexts orig g → ∃ j rc, valid_id j ∧ replicaAt g j = Some rc ∧ memberOf rc = Some m.
Proof.
  intros Hv. unfold writebackMembersFromContexts. cbv zeta. destruct (_ && _); [by apply survivors_held|].
  rewrite elem_of_app. intros [H|H]; [by eapply survivors_held|]. apply list_elem_of_omap in H as (j & Hj & H).
  apply elem_of_All in Hj as [Hj _]; [|apply wf_Difference, activeIDs_wf].
  destruct (replicaAt g j) as [rc|] eqn:E; [|done]. by exists j, rc.
Qed.
Lemma replicaAt_elem g j rc : replicaAt g j = Some rc → rc ∈ g_allReplicas g.
Proof. intros (i & _ & H)%replicaAt_Some. by eapply list_elem_of_lookup_2. Qed.

Lemma zones_slots g : ∃ z g', updateMemberZonesFromRSP g = (z, g') ∧ ctx_rel g g' ∧ respects noEffect g g' ∧
  g_tracking g' = g_tracking g ∧ g_datamesh g' = g_datamesh g ∧ g_baselineGMDR g' = g_baselineGMDR g ∧
  g_replicas g' = g_replicas g ∧
  Forall2 (λ rc rc', ∀ m' o, rc_member rc' = Some (m', o) → ∃ m, rc_member rc = Some (m, o) ∧
    m_Attached m' = m_Attached m) (g_allReplicas g) (g_allReplicas g') ∧ (z = false → g' = g).
Proof.
  destruct (updateMemberZonesFromRSP g) as [z g'] eqn:E. exists z, g'. split; [done|].
  destruct (updateZones_rel g) as [Hz Hk]. rewrite E in Hz, Hk. simpl in Hz, Hk.
  unfold updateMemberZonesFromRSP in E. destruct (in_rsp (g_in g)) as [rsp|].
  2:{ injection E as <- <-. split_and!; try done. apply Forall_Forall2_diag, Forall_true. eauto. }
  set (upd := λ rc, _) in E. cbv zeta in E. injection E as Ez <-.
  assert (Hu : ∀ rc, (upd rc).2 = rc ∨ ∃ zn, (upd rc).2 = mutate_member (set_m_Zone zn) rc ∧ (upd rc).1 = true).
  { intros rc. unfold upd. repeat case_match; simpl; try (by left). right. by eexists. }
  split_and!; try done.
  - split; [by right|]. simpl. rewrite map_map. apply Forall2_fmap_r, Forall_Forall2_diag, Forall_true. intros rc.
    unfold compose. destruct (Hu rc) as [->|(zn & -> & _)]; [reflexivity|]. apply me_mutate. intros m. split; [done|]. by left.
  - simpl. rewrite map_map. apply Forall2_fmap_r, Forall_Forall2_diag, Forall_true. intros rc m' o.
    unfold compose. destruct (Hu rc) as [->|(zn & -> & _)]; [eauto|]. simpl. destruct (rc_member rc) as [[m o']|]; simpl; [|done].
    intros [= <- <-]. by exists m.
  - intros Hf. assert (Hm : map snd (map upd (g_allReplicas g)) = g_allReplicas g).
    { rewrite map_map. rewrite <-(map_id (g_allReplicas g)) at 2. apply map_ext_in. intros rc Hin.
      destruct (Hu rc) as [H|(zn & _ & H)]; [done|]. exfalso.
      enough (existsb fst (map upd (g_allReplicas g)) = true) by congruence.
      apply existsb_exists. exists (upd rc). split; [by apply in_map|done]. }
    rewrite Hm. by destruct g.
Qed.

(** The engine newEngine returns, decomposed. *)
Lemma newEngine_inv rv rsp rvrs rvas ff spare z e :
  newEngine (Some theRegistry) rv rsp rvrs rvas ff spare = Ok (z, e) →
  ∃ g g1, buildContexts rv rsp rvrs rvas ff = Ok g ∧ updateMemberZonesFromRSP g = (z, g1) ∧
    init_loop theRegistry concurrencyTracker 0 (rv_DatameshTransitions rv) (newConcurrencyTracker g1) = Ok (e_g e) ∧
    slots_only g1 (e_g e) ∧ e_revision e = rv_DatameshRevision rv.
Proof.
  unfold newEngine. intros H. apply bind_Ok in H as (g & Hg & H).
  destruct (updateMemberZonesFromRSP g) as [z1 g1] eqn:Ez. apply bind_Ok in H as (e1 & He & H).
  injection H as <- <-. apply NewEngine_spec in He as (_ & _ & [= Hreg] & [= Htrk] & _ & _ & Hinit & [= Hrev]).
  rewrite <-Hreg, <-Htrk in Hinit. exists g, g1. split_and!; try done. transitivity (newConcurrencyTracker g1); [by split|exact (init_loop_slots _ _ _ _ Hinit)].
Qed.
Lemma buildContexts_datamesh rv rsp rvrs rvas ff g : buildContexts rv rsp rvrs rvas ff = Ok g →
  dm_multiattach (g_datamesh g) = rv_Multiattach rv.
Proof.
  assert (Hfold : ∀ A (ID : A → Z) F l g g', foldO (λ x, with_rc (ID x) (F x)) l g = Ok g' → g_datamesh g' = g_datamesh g).
  { intros A ID F. induction l as [|x l IH]; intros g0 g' H; simpl in H; [by injection H as <-|].
    bok H as g1 H1. rewrite (IH _ _ H). unfold with_rc in H1. bok H1 as r _. bok H1 as i _. by injection H1 as <-. }
  assert (Hrva : ∀ gs g, g_datamesh (assignRVAs gs g) = g_datamesh g).
  { induction gs as [|grp gs IH]; intros g0; [done|]. unfold assignRVAs in *. simpl. rewrite IH. by repeat case_match. }
  intros (cfg & g0 & g1 & g2 & g3 & _ & -> & H1 & H2 & H3 & ->)%buildContexts_inv.
  unfold reindex. cbv zeta. destruct (_ || _); cbn [g_datamesh set_replicas];
    by rewrite Hrva, (Hfold _ _ _ _ _ _ H3), (Hfold _ _ _ _ _ _ H2), (Hfold _ _ _ _ _ _ H1).
Qed.
End provenance.
