(* ===== verification/AttachSafety.v ===== *)
(** * No second attachment without multiattach

    The tracker's set of potentially attached replicas covers the attached members and the replicas
    with an attachment transition; unless multiattach is enabled it never holds two of them.  The
    invariant [attach_inv] holds between the operations of the engine and is carried across a whole
    reconciliation cycle, into the stored volume. *)

From Stdlib Require Import ZArith Lia String.
From stdpp Require Import base list numbers strings option relations.
From S2P Require Import Prelude IdSet DrbdSize Api Dmte DmteSteps DmteInvariants DmteBoundary.
From S2P Require Import DmteFinalize Context Tracker Helpers Guards Network Attachment Membership Datamesh.
From S2P Require Import Datamesh Frame Plans Contexts System Effects.
Import idset v1alpha1 dmte datamesh concurrency_tracker helpers guards network attachment process.

Set Default Proof Using "Type".

Section safety.
Context `{K : K8s}.
Implicit Types (g : globalContext) (rc : ReplicaContext) (t : Transition) (e : Engine globalContext nat).

(** ** The four plans that matter *)
Record kind_of (p : plan globalContext nat) : Prop := {
  ko_group : pl_group p = GroupAttachment → pl_transitionType p = Attach ∨ pl_transitionType p = Detach;
  ko_attach : pl_transitionType p = Attach → pl_scope p = ReplicaScope ∧ pl_group p = GroupAttachment ∧
    ∃ s, pl_steps p = [s] ∧ st_scope s = ReplicaScope ∧ st_replicaApply s = Some applyAttach;
  ko_detach : pl_transitionType p = Detach → pl_scope p = ReplicaScope ∧ pl_group p = GroupAttachment ∧
    ∃ s, pl_steps p = [s] ∧ st_scope s = ReplicaScope ∧ st_replicaApply s = Some applyDetach;
  ko_enable : pl_transitionType p = EnableMultiattach →
    ∃ s, pl_steps p = [s] ∧ st_scope s = GlobalScope ∧ st_globalApply s = Some applyEnableMultiattach;
  ko_disable : pl_transitionType p = DisableMultiattach → pl_scope p = GlobalScope ∧
    pl_globalGuards p = [guardCanDisableMultiattach];
}.
Lemma all_plans_kind : Forall (λ x, kind_of x.2) (reg_plans theRegistry).
Proof.
  unfold theRegistry. cbn [reg_plans]. forall_list.
  all: split; cbn [snd pl_group pl_transitionType pl_scope pl_steps pl_globalGuards]; intros Hx;
    try discriminate Hx; eauto 8.
Qed.
Lemma registered_kind p : registered theRegistry p → kind_of p.
Proof. intros (ty & id & H%reg_get_In). exact (Forall_elem _ _ _ all_plans_kind H). Qed.

(** ** The invariant *)
Definition pot g : IDSet := potentiallyAttached (g_tracking g).
Definition isDetach t : bool := isGroup GroupAttachment t && bool_decide (t_Type t = Detach).

(** Facts about the contexts that no callback changes. *)
Record contexts_ok g : Prop := {
  co_names : names_ok g;
  co_index id i : g_replicas g !! id = Some (Some i) →
    ∃ rc, g_allReplicas g !! i = Some rc ∧ rc_id rc = Z.of_nat id;
  co_distinct i j rc rc' : g_allReplicas g !! i = Some rc → g_allReplicas g !! j = Some rc' →
    rc_name rc ≠ "" → rc_name rc' ≠ "" → rc_id rc = rc_id rc' → i = j;
  co_rvr rc : rc ∈ g_allReplicas g → is_Some (rc_rvr rc) → rc_name rc ≠ "";
}.
(** A member sits in a named context, has a name and carries the context's ID. *)
Definition members_ok g : Prop :=
  ∀ rc m, rc ∈ g_allReplicas g → memberOf rc = Some m → rc_name rc ≠ "" ∧ m_ID m = rc_id rc ∧ m_Name m ≠ "".

Record attached_inv g (l : list (ptr * Transition)) : Prop := {
  av_ctx : contexts_ok g;
  av_members : members_ok g;
  av_wf : wf_set (pot g);
  av_single : dm_multiattach (g_datamesh g) = true ∨ Len (pot g) ≤ 1;
  av_cover rc : rc ∈ g_allReplicas g → isAttached rc = true → Contains (pot g) (rc_id rc) = true;
  av_detach x rc : x ∈ l → isDetach x.2 = true → rc ∈ g_allReplicas g → rc_id rc = gid x.2 →
    isAttached rc = false;
}.
Record attach_inv e : Prop := {
  ai_tracker : e_tracker e = concurrencyTracker;
  ai_wf : index_wf e;
  ai_tracked : tracked tracks Tracker.conflict e;
  ai_inv : attached_inv (e_g e) (active e);
}.

(** ** Work that keeps the invariant for free *)
Record calm e e' : Prop := {
  ca_steps : rtc estep e e';
  ca_respects : respects noEffect (e_g e) (e_g e');
  ca_pot : pot (e_g e') = pot (e_g e);
  ca_active : Forall2 same_active (active e) (active e');
}.
Lemma same_meta_group t t' : same_meta t t' → t_Group t' = t_Group t ∧ t_Type t' = t_Type t ∧ gid t' = gid t.
Proof.
  intros H. split_and!.
  - exact (eq_sym (f_equal t_Group H)).
  - exact (eq_sym (f_equal t_Type H)).
  - exact (f_equal (λ u, idFromName (t_ReplicaName u)) (eq_sym H)).
Qed.
Lemma calm_refl e : calm e e.
Proof. split; [done|reflexivity|done|apply same_active_refl]. Qed.
Lemma calm_trans e1 e2 e3 : calm e1 e2 → calm e2 e3 → calm e1 e3.
Proof.
  intros [S1 R1 P1 A1] [S2 R2 P2 A2]. split; [by etrans|by etrans|congruence|].
  clear -A1 A2. revert A2. generalize (active e3). induction A1 as [|x y l k H1 _ IH]; intros m H; inversion H; subst;
    constructor; [|by apply IH]. destruct H1 as [E1 M1]. match goal with H : same_active y _ |- _ => destruct H as [E2 M2] end.
  split; [congruence|]. unfold same_meta in *. congruence.
Qed.

Lemma ctx_rel_contexts g g' : ctx_rel g g' → contexts_ok g → contexts_ok g'.
Proof.
  intros Hr [N I D R]. split.
  - by eapply ctx_rel_names.
  - intros id i Hi. destruct (Forall2_lookup_r _ _ _ _ _ (xr_replicas _ _ Hr) Hi) as (o & Ho & [E|E]); [|done].
    subst o. destruct (I _ _ Ho) as (rc & Hrc & Hid).
    destruct (Forall2_lookup_l _ _ _ _ _ (xr_ctx _ _ Hr) Hrc) as (rc' & Hrc' & Hs).
    exists rc'. split; [done|]. by rewrite (si_id _ _ Hs).
  - intros i j rc rc' Hi Hj Hn Hn' Hid.
    destruct (Forall2_lookup_r _ _ _ _ _ (xr_ctx _ _ Hr) Hi) as (rc0 & H0 & S0).
    destruct (Forall2_lookup_r _ _ _ _ _ (xr_ctx _ _ Hr) Hj) as (rc1 & H1 & S1).
    rewrite (si_name _ _ S0) in Hn. rewrite (si_name _ _ S1) in Hn'. rewrite (si_id _ _ S0), (si_id _ _ S1) in Hid.
    by eapply D.
  - intros rc [i Hi]%list_elem_of_lookup_1 Hs.
    destruct (Forall2_lookup_r _ _ _ _ _ (xr_ctx _ _ Hr) Hi) as (rc0 & H0 & S0).
    rewrite (si_rvr _ _ S0) in Hs. rewrite (si_name _ _ S0). by eapply R; [eapply list_elem_of_lookup_2|].
Qed.
Lemma respects_members ef g g' : respects ef g g' → contexts_ok g → members_ok g → members_ok g'.
Proof.
  intros Hr Hc Hm rc m [i Hi]%list_elem_of_lookup_1 HM.
  destruct (Forall2_lookup_r _ _ _ _ _ (re_ctx _ _ _ Hr) Hi) as (rc0 & H0 & [I N R O A]).
  unfold memberOf in HM. destruct (rc_member rc) as [[m1 o]|]; [|done]. injection HM as ->.
  apply list_elem_of_lookup_2 in H0. rewrite N, I.
  destruct (O _ _ eq_refl) as [(m0 & H1 & E)|(_ & _ & E & Hs)].
  - destruct (Hm rc0 m0 H0) as (? & Hid & ?); [unfold memberOf; by rewrite H1|].
    unfold m_ID in *. by rewrite E.
  - pose proof (co_rvr g Hc rc0 H0 Hs) as Hne. unfold m_ID. rewrite E. split; [done|split; [|done]].
    pose proof (co_names g Hc) as [_ Hn]. destruct (Forall_elem _ _ _ Hn H0) as [[?|?] _]; done.
Qed.
(** Attached flags after [respects]: the context before. *)
Lemma respects_attached ef g g' rc' : respects ef g g' → rc' ∈ g_allReplicas g' → isAttached rc' = true →
  ∃ rc, rc ∈ g_allReplicas g ∧ rc_id rc' = rc_id rc ∧ (isAttached rc = true ∨ ef_attach ef = true).
Proof.
  intros Hr [i Hi]%list_elem_of_lookup_1 Ha.
  destruct (Forall2_lookup_r _ _ _ _ _ (re_ctx _ _ _ Hr) Hi) as (rc & H0 & [I N R O A]).
  exists rc. split_and!; [by eapply list_elem_of_lookup_2|done|auto].
Qed.

Lemma calm_inv e e' : e_registry e = theRegistry → calm e e' → attach_inv e →
  e_registry e' = theRegistry ∧ attach_inv e'.
Proof.
  intros Hreg [Hst Hr Hp Ha] [Ht Hw Htr [C M W S V D]].
  pose proof (rtc_estep_config _ _ Hst) as (Er & Et & _).
  assert (Hrel : ctx_rel (e_g e) (e_g e')) by (by eapply rel_steps; [apply datamesh_context_relation|..]).
  split; [congruence|]. split; [congruence|by eapply index_wf_steps| |split].
  - exact (tracked_steps tracks Tracker.conflict theRegistry concurrencyTracker _ _ e e' Hreg Ht Hw Hst Htr).
  - by eapply ctx_rel_contexts.
  - by eapply respects_members.
  - by rewrite Hp.
  - rewrite Hp. destruct (re_multi _ _ _ Hr) as [?|E]; [done|]. by rewrite E.
  - intros rc' Hrc Hat. destruct (respects_attached _ _ _ _ Hr Hrc Hat) as (rc & H0 & E & [H1|?]); [|done].
    rewrite Hp, E. by apply V.
  - intros x rc' [k Hk]%list_elem_of_lookup_1 Hd Hrc Hid.
    destruct (Forall2_lookup_r _ _ _ _ _ Ha Hk) as (y & Hy & _ & Hm). apply same_meta_group in Hm as (E1 & E2 & E3).
    destruct (isAttached rc') eqn:Hat; [|done].
    destruct (respects_attached _ _ _ _ Hr Hrc Hat) as (rc & H0 & E & [H1|?]); [|done].
    assert (isAttached rc = false); [|congruence].
    apply (D y); [by eapply list_elem_of_lookup_2| |done|congruence].
    revert Hd. unfold isDetach, isGroup. by rewrite E1, E2.
Qed.

(** ** Pieces of engine work that are calm *)
Lemma calm_g e g' : rtc estep e (set_g g' e) → respects noEffect (e_g e) g' → pot g' = pot (e_g e) →
  calm e (set_g g' e).
Proof. intros. split; [done|done|done|apply same_active_refl]. Qed.
Lemma confirmStep_calm p a rctx k ch e cr msg ch' e' : a ∈ e_transitions e →
  confirmStep p a rctx k ch e = Ok (cr, msg, ch', e') → calm e e'.
Proof.
  intros Ha H. pose proof (confirmStep_steps p a rctx k ch e cr msg ch' e' Ha H) as (Hst & _ & Hg & _).
  split; [by apply rtc_sstep_estep|by rewrite Hg|by rewrite Hg|].
  unfold confirmStep in H. bok H as s _. bok H as t Ht%index_Ok. bok H as ts _. bok H as cr' _. bok H as raw _.
  destruct ch as [c|]; [destruct (String.eqb _ _)|].
  - injection H as <- <- <- <-. apply same_active_refl.
  - bok H as t' Ht'. injection H as <- <- <- <-. eapply active_store; [done|by eapply update_step_meta].
  - bok H as t' Ht'. injection H as <- <- <- <-. eapply active_store; [done|by eapply update_step_meta].
Qed.
Lemma resolved_slot e slot : e_registry e = theRegistry → resolved e slot →
  slot = None ∨ slot = Some membershipSlotAccessor ∨ slot = Some attachmentSlotAccessor.
Proof.
  intros Hr [-> | [id ->]]; [by left|]. rewrite Hr.
  destruct (replicaSlotAccessor theRegistry id) as [sl|] eqn:E; [|by left].
  apply slot_cases in E as [[_ ->]|[_ ->]]; auto.
Qed.
Lemma output_effect mt at_ a b c rc : member_effect noEffect rc (set_rc_output mt at_ a b c rc).
Proof. by apply me_same. Qed.
Lemma SetStatus_calm slot rctx msg det e : e_registry e = theRegistry → resolved e slot →
  calm e (slot_SetStatus slot rctx msg det e).
Proof.
  intros Hr Hs. assert (Hst : rtc estep e (slot_SetStatus slot rctx msg det e))
    by (by apply rtc_sstep_estep, SetStatus_steps).
  destruct (resolved_slot e slot Hr Hs) as [-> | [-> | ->]]; [apply calm_refl|..]; destruct rctx as [r|];
    try apply calm_refl; (apply calm_g; [done| |done]); apply ef_upd_rc_at; intros; apply output_effect.
Qed.
Lemma SetActive_calm slot rctx a e : e_registry e = theRegistry → resolved e slot →
  calm e (slot_SetActive slot rctx a e).
Proof.
  intros Hr Hs. assert (Hst : rtc estep e (slot_SetActive slot rctx a e))
    by (by apply rtc_sstep_estep, SetActive_steps).
  destruct (resolved_slot e slot Hr Hs) as [-> | [-> | ->]]; [apply calm_refl|..]; destruct rctx as [r|];
    try apply calm_refl; (apply calm_g; [done| |done]); apply ef_upd_rc_at; intros; apply output_effect.
Qed.
Lemma plan_effect_calm p e g' : e_registry e = theRegistry → registered theRegistry p →
  plan_effect p (e_mem e) (e_g e) g' → calm e (set_g g' e).
Proof.
  intros Hr Hp He. apply calm_g.
  - apply rtc_once, Es_settle. eapply Es_effect; [by rewrite Hr|done].
  - by eapply plan_effect_ef; [apply registered_ef|].
  - unfold pot. by rewrite (cf_tracking _ _ (plan_effect_frame p _ _ _ (registered_ok p Hp) He)).
Qed.
Lemma advanceStep_calm clock a k e e' t : a ∈ e_transitions e → e_mem e !! a = Some t →
  findCurrentStepIdx t = Some k → advanceStep clock a k e = Ok e' → calm e e'.
Proof.
  intros Ha Ht Hk H. destruct (advanceStep_steps clock a k e e' t Ha Ht Hk H) as (Hp & _).
  unfold advanceStep in H. bok H as t0 Ht0%index_Ok. bok H as t1 Ht1. bok H as t2 Ht2. injection H as <-.
  split; [by apply rtc_sstep_estep, rtc_once, Es_prog|reflexivity|done|].
  eapply (active_store (set_ticks _ e)); [done|]. apply update_step_meta in Ht1, Ht2. unfold same_meta in *. congruence.
Qed.
(** applyStep: the step, the context and the transition it touches. *)
Lemma applyStep_inv p a rctx k e e' : applyStep p a rctx k e = Ok e' →
  ∃ s c g' t t', pl_steps p !! k = Some s ∧ step_apply s (e_mem e) (e_g e) rctx = Ok (c, g') ∧
    e_mem e !! a = Some t ∧ same_meta t t' ∧
    e' = store a t' (set_revision (bump c (e_revision e)) (set_g g' e)).
Proof.
  unfold applyStep. intros H. bok H as s Hs%index_Ok. bok H as [c g'] Hg.
  bok H as t Ht%index_Ok. bok H as t' Ht'. injection H as <-. exists s, c, g', t, t'.
  split_and!; [done|done| |by eapply update_step_meta|]; by destruct c.
Qed.
Lemma applyStep_calm p a rctx k e e' t : e_registry e = theRegistry → registered theRegistry p →
  a ∈ e_transitions e → e_mem e !! a = Some t → findCurrentStepIdx t = Some (S k) →
  applyStep p a rctx (S k) e = Ok e' → calm e e'.
Proof.
  intros Hr Hp Ha Ht Hk H. pose proof (applyStep_steps p a rctx (S k) e e' t) as Hst.
  rewrite Hr in Hst. destruct (Hst Hp Ha Ht Hk H) as (Hst' & _). clear Hst.
  destruct (applyStep_inv _ _ _ _ _ _ H) as (s & c & g' & t0 & t1 & Hs & Hg & Ht0 & Hm & ->).
  split; [by apply rtc_sstep_estep| | |].
  - exact (step_apply_effect p (S k) s _ _ _ _ _ (registered_ef p Hp) Hs Hg).
  - simpl. unfold pot. pose proof (okf_Ok _ _ _ (step_apply_okf p s (e_mem e) (e_g e) rctx (registered_ok p Hp)
      (list_elem_of_lookup_2 _ _ _ Hs)) Hg) as Hf. simpl in Hf. by rewrite (cf_tracking _ _ Hf).
  - eapply (active_store (set_revision _ (set_g g' e))); [exact Ht0|done].
Qed.

Definition safe e : Prop := e_registry e = theRegistry ∧ attach_inv e.
Lemma calm_safe e e' : calm e e' → safe e → safe e'.
Proof. intros H [? ?]. by eapply calm_inv. Qed.

(** ** Deleting a transition *)
Lemma Remove_pot t k k' : Remove_tracking t k = Ok k' → potentiallyAttached k' =
  if isDetach t then idset.Remove (potentiallyAttached k) (gid t) else potentiallyAttached k.
Proof.
  unfold Remove_tracking, isDetach, isGroup. cbv zeta. intros H.
  destruct (t_Group t); simpl in *; try (by injection H as <-); bok H as id Hid%ReplicaID_Ok;
    injection H as <-; subst id; simpl; done.
Qed.
Lemma Add_pot a t k k' : Add_tracking a t k = Ok k' → potentiallyAttached k' =
  if isGroup GroupAttachment t then idset.Add (potentiallyAttached k) (gid t) else potentiallyAttached k.
Proof.
  unfold Add_tracking, isGroup. cbv zeta. intros H.
  destruct (t_Group t); simpl in *; try (by injection H as <-); bok H as id Hid%ReplicaID_Ok;
    injection H as <-; subst id; simpl; done.
Qed.
Lemma tracked_step e e' : estep e e' → safe e →
  e_registry e' = theRegistry ∧ e_tracker e' = concurrencyTracker ∧ index_wf e' ∧ tracked tracks Tracker.conflict e'.
Proof.
  intros Hst%rtc_once [Hreg [Ht Hw Htr _]]. pose proof (rtc_estep_config _ _ Hst) as (Er & Et & _).
  split_and!; [congruence|congruence|by eapply index_wf_steps|].
  exact (tracked_steps tracks Tracker.conflict theRegistry concurrencyTracker _ _ e e' Hreg Ht Hw Hst Htr).
Qed.
Lemma context_valid g rc : contexts_ok g → rc ∈ g_allReplicas g → valid_id (rc_id rc).
Proof. intros [[_ Hn] _ _ _] H. exact (proj2 (Forall_elem _ _ _ Hn H)). Qed.

Lemma delete_safe idx e e' : deleteTransition idx e = Ok e' → safe e → safe e'.
Proof.
  intros H Hs. destruct (tracked_step e e') as (Hr' & Ht' & Hw' & Htr'); [|done|].
  { by eapply Es_settle, Es_prog, deleteTransition_steps. }
  destruct Hs as [_ [Ht _ _ [C M W S V D]]]. split; [done|]. split; [done|done|done|].
  unfold deleteTransition in H. bok H as a Ha%index_Ok. bok H as t Htt%index_Ok. bok H as g' Hg'.
  rewrite Ht in Hg'. simpl in Hg'. unfold concurrency_tracker.Remove in Hg'. bok Hg' as k' Hk. injection Hg' as <-. injection H as <-.
  apply Remove_pot in Hk. fold (pot (e_g e)) in Hk.
  assert (Hin : (a, t) ∈ active e).
  { unfold active. apply list_elem_of_fmap. exists a. split; [|by eapply list_elem_of_lookup_2].
    unfold cell. by rewrite Htt. }
  assert (Hsub : ∀ j, valid_id j → Contains (potentiallyAttached k') j = true → Contains (pot (e_g e)) j = true).
  { intros j Hj. rewrite Hk. destruct (isDetach t); [|done]. rewrite Contains_Remove by (done || apply gid_nonneg).
    by intros [? _]%andb_prop. }
  rewrite active_delete. split; simpl; try done.
  - by eapply (ctx_rel_contexts (e_g e)).
  - change (wf_set (potentiallyAttached k')). rewrite Hk. destruct (isDetach t); [by apply wf_Remove|done].
  - destruct S as [S|S]; [by left|right]. change (Len (potentiallyAttached k') ≤ 1). etrans; [by apply Len_mono|done].
  - intros rc Hrc Hat. change (Contains (potentiallyAttached k') (rc_id rc) = true).
    rewrite Hk. destruct (isDetach t) eqn:Ed; [|by apply V].
    pose proof (context_valid _ _ C Hrc). rewrite Contains_Remove by (done || apply gid_nonneg).
    rewrite (V rc Hrc Hat). simpl. apply negb_true_iff, Z.eqb_neq. intros E.
    pose proof (D (a, t) rc Hin Ed Hrc E). congruence.
  - intros x rc Hx. apply D. apply elem_of_app in Hx as [Hx|Hx]; [by eapply subseteq_take|by eapply subseteq_drop].
Qed.

(** ** One iteration of the settle loop *)
Lemma resolved_calm e e' slot : calm e e' → resolved e slot → resolved e' slot.
Proof. intros H. apply resolved_config, rtc_estep_config, H. Qed.
Lemma registry_calm e e' : calm e e' → e_registry e = theRegistry → e_registry e' = theRegistry.
Proof. intros H <-. apply (rtc_estep_config _ _ (ca_steps _ _ H)). Qed.

Lemma complete_safe p i rctx slot e e' : registered theRegistry p → resolved e slot →
  completeTransition p i rctx slot e = Ok e' → safe e → safe e'.
Proof.
  intros Hp Hs H Hok. unfold completeTransition in H. bok H as g Hg. eapply delete_safe; [exact H|].
  assert (Hc : calm e (set_g g e)).
  { apply plan_effect_calm with p; [apply Hok|done|by eapply pe_planDone]. }
  eapply calm_safe; [|by eapply calm_safe]. apply SetActive_calm; [apply Hok|by eapply resolved_calm].
Qed.
Lemma settle_advance_calm clock p a rctx slot k e e' t : e_registry e = theRegistry → registered theRegistry p →
  resolved e slot → a ∈ e_transitions e → e_mem e !! a = Some t → findCurrentStepIdx t = Some k →
  settle_advance clock p a rctx slot k e = Ok e' → calm e e'.
Proof.
  intros Hr Hp Hs Ha Ht Hk H. unfold settle_advance in H. bok H as e1 Hadv. bok H as e2 Happ.
  bok H as [[[cr msg] ch] e3] Hc. bok H as s _. injection H as <-.
  pose proof (advanceStep_calm clock a k e e1 t Ha Ht Hk Hadv) as C1.
  destruct (advanceStep_steps clock a k e e1 t Ha Ht Hk Hadv) as (_ & Htr1 & t1 & Ht1 & Hi1).
  pose proof (registry_calm _ _ C1 Hr) as Hr1. rewrite <-Htr1 in Ha.
  pose proof (applyStep_calm p a rctx k e1 e2 t1 Hr1 Hp Ha Ht1 Hi1 Happ) as C2.
  rewrite <-(proj2 (applyStep_frame _ _ _ _ _ _ Happ)) in Ha.
  pose proof (confirmStep_calm _ _ _ _ _ _ _ _ _ _ Ha Hc) as C3.
  eapply calm_trans; [exact C1|]. eapply calm_trans; [exact C2|]. eapply calm_trans; [exact C3|].
  apply SetStatus_calm; [by eapply registry_calm, registry_calm|by do 3 (eapply resolved_calm; [done|])].
Qed.
Lemma settled_safe clock i a made e e' : e_transitions e !! i = Some a → settled clock i a e made e' →
  safe e → safe e'.
Proof.
  intros Hi H Hok. assert (Ha : a ∈ e_transitions e) by (by eapply list_elem_of_lookup_2).
  assert (Hr : e_registry e = theRegistry) by apply Hok.
  assert (Hcs : ∀ p t rctx slot k ch cr msg ch' e1 (s : step globalContext nat),
    e_mem e !! a = Some t → settle_resolve p t e = Ok (rctx, slot) → findCurrentStepIdx t = Some k →
    confirmStep p a rctx k (Some ch) e = Ok (cr, msg, ch', e1) →
    let e2 := slot_SetStatus slot rctx msg (st_details s) e1 in
    calm e e2 ∧ resolved e slot ∧ e_transitions e2 = e_transitions e ∧
    ∃ t', e_mem e2 !! a = Some t' ∧ findCurrentStepIdx t' = Some k).
  { intros p t rctx slot k ch cr msg ch' e1 s Ht Hsl Hk Hc e2. apply settle_resolve_resolved in Hsl.
    pose proof (confirmStep_calm _ _ _ _ _ _ _ _ _ _ Ha Hc) as C1.
    apply confirmStep_steps in Hc as (_ & Htr & _ & Hm); [|done]. destruct (Hm t Ht) as (t' & Ht' & Hst).
    destruct (slot_SetStatus_fields slot rctx msg (st_details s) e1) as (F1 & F2 & F3).
    split_and!; [eapply calm_trans; [exact C1|]|done|unfold e2; by rewrite F1|exists t'; split].
    - apply SetStatus_calm; [by eapply registry_calm|by eapply resolved_calm].
    - unfold e2. by rewrite F2.
    - rewrite <-Hk. by apply findStepIdx_status. }
  destruct H as [t|t p rctx slot e' Ht Hp Hsl Hk H|t p rctx slot k ch cr msg ch' e1 s Ht Hp Hsl Hk Hc Hs Hne
    |t p rctx slot k ch cr msg ch' e1 s g e' Ht Hp Hsl Hk Hc Hs Heq e2 Hg H
    |t p rctx slot k ch cr msg ch' e1 s g e' Ht Hp Hsl Hk Hc Hs Heq e2 Hg H]; [done|..];
    rewrite Hr in Hp; apply reg_get_registered in Hp.
  - eapply complete_safe; [done| |done|done]. by eapply settle_resolve_resolved.
  - destruct (Hcs _ _ _ _ _ _ _ _ _ _ s Ht Hsl Hk Hc) as (C & _). by eapply calm_safe.
  - destruct (Hcs _ _ _ _ _ _ _ _ _ _ s Ht Hsl Hk Hc) as (C & Hres & Htr & t' & Ht' & Hk'). fold e2 in C, Htr, Ht'.
    pose proof (registry_calm _ _ C Hr) as Hr2.
    assert (C2 : calm e2 (set_g g e2)).
    { eapply plan_effect_calm; [done|done|]. eapply pe_stepDone; [by eapply list_elem_of_lookup_2|done]. }
    eapply calm_safe; [|eapply calm_safe; [exact C2|by eapply calm_safe]].
    eapply settle_advance_calm; [done|done| | | | |done]; [|simpl; by rewrite Htr|done|done].
    eapply resolved_calm; [exact C2|by eapply resolved_calm].
  - destruct (Hcs _ _ _ _ _ _ _ _ _ _ s Ht Hsl Hk Hc) as (C & Hres & Htr & t' & Ht' & Hk'). fold e2 in C, Htr, Ht'.
    pose proof (registry_calm _ _ C Hr) as Hr2.
    assert (C2 : calm e2 (set_g g e2)).
    { eapply plan_effect_calm; [done|done|]. eapply pe_stepDone; [by eapply list_elem_of_lookup_2|done]. }
    eapply complete_safe; [done| |done|eapply calm_safe; [exact C2|by eapply calm_safe]].
    eapply resolved_calm; [exact C2|by eapply resolved_calm].
Qed.

(** ** A dispatch *)
Lemma cancelActive_safe p rctx slot e e' : resolved e slot → cancelActive p rctx slot e = Ok e' → safe e → safe e'.
Proof.
  unfold cancelActive. intros Hs H Hok. destruct (pl_cancelActiveOnCreate p); [|by injection H as <-].
  destruct (slot_GetActive _ _ _) as [act|]; [|by injection H as <-]. bok H as e1 H1. injection H as <-.
  assert (safe e1 ∧ resolved e1 slot) as [Hok1 Hs1].
  { destruct (indexOf _ _) as [j|]; [|by injection H1 as <-]. split; [by eapply delete_safe|].
    eapply resolved_config; [|exact Hs]. by eapply sstep_config, Es_prog, deleteTransition_steps. }
  eapply calm_safe; [|exact Hok1]. apply SetActive_calm; [apply Hok1|done].
Qed.

(** Changes of the context that attach nothing. *)
Lemma respects_inv ef g g' l : respects ef g g' → ctx_rel g g' → pot g' = pot g → ef_attach ef = false →
  dm_multiattach (g_datamesh g') = true ∨ Len (pot g) ≤ 1 → attached_inv g l → attached_inv g' l.
Proof.
  intros Hr Hrel Hp Hat Hm [C M W S V D]. split.
  - by eapply ctx_rel_contexts.
  - by eapply respects_members.
  - by rewrite Hp.
  - by rewrite Hp.
  - intros rc' Hrc Ha. destruct (respects_attached _ _ _ _ Hr Hrc Ha) as (rc & H0 & E & [H1|?]); [|congruence].
    rewrite Hp, E. by apply V.
  - intros x rc' Hx Hd Hrc Hid. destruct (isAttached rc') eqn:Ha; [|done].
    destruct (respects_attached _ _ _ _ Hr Hrc Ha) as (rc & H0 & E & [H1|?]); [|congruence].
    assert (isAttached rc = false); [|congruence]. apply (D x); [done|done|done|congruence].
Qed.

(** Attach and Detach write the flag of their subject only. *)
Lemma setAttached_inv b mem g r c g' : setAttached b mem g r = Ok (c, g') →
  ∃ i rc m, r = Some i ∧ g_allReplicas g !! i = Some rc ∧ memberOf rc = Some m ∧
    ∀ j rc', g_allReplicas g' !! j = Some rc' →
      (j = i ∧ rc_id rc' = rc_id rc ∧ isAttached rc' = b) ∨ (j ≠ i ∧ g_allReplicas g !! j = Some rc').
Proof.
  intros H. unfold setAttached, on_member in H. bok H as rc Hrc. bok H as m Hm%deref_Ok.
  destruct r as [i|]; [|done]. apply index_Ok in Hrc. destruct (SetChanged (m_Attached m) b) as [c' v] eqn:Es.
  cbv zeta in H. injection H as <- <-. exists i, rc, m. split_and!; [done|done|done|].
  intros j rc' Hj. unfold SetChanged in Es. destruct (decide (j = i)) as [->|Hne].
  - left. split; [done|]. case_decide; injection Es as <- <-; simpl in Hj.
    + rewrite Hrc in Hj. injection Hj as <-. split; [done|]. unfold isAttached. by rewrite Hm.
    + rewrite list_lookup_alter_eq, Hrc in Hj. injection Hj as <-. split; [done|].
      unfold isAttached, memberOf, mutate_member in *. simpl. by destruct (rc_member rc).
  - right. split; [done|]. destruct c'; [|done]. simpl in Hj. by rewrite list_lookup_alter_ne in Hj by done.
Qed.

(** Admission of an attachment transition. *)
Lemma CanAdmit_attachment t ma k reason det : CanAdmit_tracking t ma k = Ok (true, reason, det) →
  t_Group t = GroupAttachment → t_ReplicaName t ≠ "" →
  ma = true ∨ ∀ j, valid_id j → Contains (potentiallyAttached k) j = true → j = gid t.
Proof.
  unfold CanAdmit_tracking. cbv zeta. intros H Hg Hn. rewrite Hg in H. simpl in H.
  destruct (_ && _); [done|]. bok H as c _. destruct c as [[? ?]|]; [done|].
  rewrite (proj2 (String.eqb_neq _ _) Hn) in H. unfold ReplicaID in H. rewrite (proj2 (String.eqb_neq _ _) Hn) in H.
  cbn [mbind outcome_bind] in H. fold (gid t) in H.
  destruct ma; [by left|right]. simpl in H. rewrite andb_true_r in H. destruct (IsEmpty _) eqn:E; [|done].
  apply Z.eqb_eq in E. intros j Hj HC. pose proof (gid_nonneg t). pose proof (Contains_empty j Hj) as He.
  rewrite <-E, Contains_Difference, HC, Contains_Of1 in He by done. simpl in He.
  by apply negb_false_iff, Z.eqb_eq in He.
Qed.

(** The new transition, and the stub that was admitted, carry the type, the group and the subject's
    name. *)
Record created_as (p : plan globalContext nat) g (rctx : option nat) t : Prop := {
  ca_type : t_Type t = pl_transitionType p;
  ca_group : t_Group t = pl_group p;
  ca_name : pl_scope p = ReplicaScope →
    ∃ r rc, rctx = Some r ∧ g_allReplicas g !! r = Some rc ∧ t_ReplicaName t = rc_name rc ∧ rc_name rc ≠ "";
}.
Lemma createTransition_created clock p planID rctx slot e tempT a e3 t : registered theRegistry p →
  plan_callInit p (e_g e) rctx (blankTransition (pl_transitionType p) (pl_group p) ""
    match pl_scope p, rctx with ReplicaScope, Some r => rctx_Name (e_g e) r | _, _ => "" end []) = Ok tempT →
  createTransition clock p planID rctx e = Ok (a, e3) →
  load (slot_SetActive slot rctx (Some a) e3) a = Ok t → index_wf e →
  created_as p (e_g e) rctx tempT ∧ created_as p (e_g e) rctx t ∧
  active (slot_SetActive slot rctx (Some a) e3) = active e ++ [(a, t)] ∧
  e_g e3 = e_g e ∧ e_mem e3 !! a = Some t.
Proof.
  intros Hp Hi H Hl Hw. unfold createTransition in H. bok H as s0 _. bok H as name Hn. bok H as t1 Ht1.
  injection H as <- <-. destruct (slot_SetActive_fields slot rctx (Some (length (e_mem e)))
    (set_transitions (e_transitions e ++ [length (e_mem e)]) (set_mem (e_mem e ++ [t1]) (set_ticks (S (e_ticks e)) e))))
    as (F1 & F2 & _).
  assert (t1 = t) as ->.
  { unfold load in Hl. rewrite F2 in Hl. apply index_Ok in Hl. simpl in Hl.
    rewrite lookup_app_r, Nat.sub_diag in Hl by lia. by injection Hl. }
  apply rl_init in Hi as (T1 & T2 & _ & T3 & _); [|done]. apply rl_init in Ht1 as (U1 & U2 & _ & U3 & _); [|done].
  simpl in T1, T2, T3, U1, U2, U3.
  assert (Hname : pl_scope p = ReplicaScope → ∃ r rc, rctx = Some r ∧ g_allReplicas (e_g e) !! r = Some rc ∧
    name = rc_name rc ∧ rc_name rc ≠ "").
  { intros Es. rewrite Es in Hn. bok Hn as r Hr%deref_Ok.
    destruct (String.eqb_spec (match g_allReplicas (e_g e) !! r with Some rc => rc_name rc | None => "" end) "");
      [done|]. injection Hn as <-. exists r. destruct (g_allReplicas (e_g e) !! r) as [rc|] eqn:E; [|done].
    by exists rc. }
  split_and!; [split|split| |done|].
  - done.
  - done.
  - intros Es. destruct (Hname Es) as (r & rc & Hr & Hrc & -> & Hne). exists r, rc. split_and!; try done.
    rewrite T3, Es, Hr. simpl. by rewrite Hrc.
  - done.
  - done.
  - intros Es. destruct (Hname Es) as (r & rc & Hr & Hrc & E & Hne). exists r, rc. by rewrite U3, E.
  - rewrite <-(active_create e t (e_g e) (S (e_ticks e)) Hw). unfold active, cell. by rewrite F1, F2.
  - simpl. by rewrite lookup_app_r, Nat.sub_diag by lia.
Qed.

Lemma add_inv a t g g' l : concurrency_tracker.Add a t g = Ok g' →
  (isGroup GroupAttachment t = true → dm_multiattach (g_datamesh g) = true ∨
     ∀ j, valid_id j → Contains (pot g) j = true → j = gid t) →
  attached_inv g l → attached_inv g' l ∧
  (isGroup GroupAttachment t = true → valid_id (gid t) → Contains (pot g') (gid t) = true).
Proof.
  unfold concurrency_tracker.Add. intros H Hadm [C M W S V D]. bok H as k Hk%Add_pot. injection H as <-.
  fold (pot g) in Hk. pose proof (gid_nonneg t) as Hg. change (pot (set_tracking k g)) with (potentiallyAttached k).
  rewrite Hk. split; [split|]; try done; change (pot (set_tracking k g)) with (potentiallyAttached k); rewrite ?Hk.
  - by eapply (ctx_rel_contexts g).
  - destruct (isGroup _ _); [by apply wf_Add|done].
  - destruct (isGroup _ _) eqn:E; [|done]. destruct (Hadm eq_refl) as [Hm|Hj]; [by left|right].
    apply (Len_single _ (gid t)). intros j Hv. rewrite Contains_Add by done.
    intros [Hc|Hc]%orb_true_iff; [by apply Hj|by apply Z.eqb_eq].
  - intros rc Hrc Hat. pose proof (context_valid _ _ C Hrc). specialize (V rc Hrc Hat).
    destruct (isGroup _ _); [|done]. rewrite Contains_Add by done. by rewrite V.
  - intros -> Hv. rewrite Contains_Add by done. by rewrite Z.eqb_refl, orb_true_r.
Qed.

(** The subject of an attachment plan: its ID is the transition's replica ID. *)
Lemma subject_gid p g rctx t i rc m : contexts_ok g → members_ok g → created_as p g rctx t →
  pl_scope p = ReplicaScope → rctx = Some i → g_allReplicas g !! i = Some rc → memberOf rc = Some m →
  gid t = rc_id rc ∧ valid_id (rc_id rc) ∧ rc_name rc ≠ "".
Proof.
  intros C M Hcr Hs -> Hi Hm. destruct (ca_name _ _ _ _ Hcr Hs) as (r & rc' & [= <-] & Hr & En & Hne).
  rewrite Hi in Hr. injection Hr as <-. pose proof (list_elem_of_lookup_2 _ _ _ Hi) as Hin.
  split_and!; [|by eapply context_valid|done]. unfold gid. rewrite En.
  destruct C as [[_ Hn] _ _ _]. destruct (Forall_elem _ _ _ Hn Hin) as [[?|?] _]; done.
Qed.

(** What every apply of a first step leaves alone. *)
Lemma head_frame p s mem g rctx c g' : registered theRegistry p → pl_steps p !! 0%nat = Some s →
  step_apply s mem g rctx = Ok (c, g') →
  respects (headEffect (pl_transitionType p)) g g' ∧ ctx_rel g g' ∧ pot g' = pot g.
Proof.
  intros Hp Hs H. split; [exact (step_apply_effect p 0 s _ _ _ _ _ (registered_ef p Hp) Hs H)|].
  pose proof (okf_Ok _ _ _ (step_apply_okf p s mem g rctx (registered_ok p Hp)
    (list_elem_of_lookup_2 _ _ _ Hs)) H) as Hf. simpl in Hf.
  split; [by apply cb_frame_rel|unfold pot; by rewrite (cf_tracking _ _ Hf)].
Qed.
Lemma attach_apply_inv p s mem g rctx c g' a t l : registered theRegistry p → pl_steps p !! 0%nat = Some s →
  pl_transitionType p = Attach → created_as p g rctx t → (∀ x, x ∈ l → ¬ Tracker.conflict x.2 t) →
  (isGroup GroupAttachment t = true → valid_id (gid t) → Contains (pot g) (gid t) = true) →
  step_apply s mem g rctx = Ok (c, g') → attached_inv g l → attached_inv g' (l ++ [(a, t)]).
Proof.
  intros Hp Hs Ha Hcr Hnc Hin H Hinv. destruct (head_frame p s _ _ _ _ _ Hp Hs H) as (Hr & Hrel & Hpot).
  pose proof (av_ctx _ _ Hinv) as HC. pose proof (av_members _ _ Hinv) as HM.
  destruct (ko_attach p (registered_kind p Hp) Ha) as (Hsc & Hg & s' & Hs' & Hss & Hap).
  rewrite Hs' in Hs. injection Hs as ->. unfold step_apply in H. rewrite Hss, Hap in H. simpl in H.
  destruct (setAttached_inv true mem g rctx c g' H) as (i & rc & m & Hi & Hrc & Hm & Hall).
  destruct (subject_gid p g rctx t i rc m HC HM Hcr Hsc Hi Hrc Hm) as (Hgid & Hval & _).
  assert (HgA : t_Group t = GroupAttachment) by (by rewrite (ca_group _ _ _ _ Hcr)).
  assert (Hnd : isDetach t = false) by (unfold isDetach; by rewrite (ca_type _ _ _ _ Hcr), Ha, andb_false_r).
  split; rewrite ?Hpot; [by eapply ctx_rel_contexts|by eapply respects_members|apply Hinv|..].
  - destruct (re_multi _ _ _ Hr) as [E|E]; [by rewrite Ha in E|]. rewrite E. apply Hinv.
  - intros rc' [j Hj]%list_elem_of_lookup_1 Hat. destruct (Hall j rc' Hj) as [(_ & -> & _)|[_ Hj']].
    + rewrite <-Hgid. apply Hin; [by apply bool_decide_eq_true|by rewrite Hgid].
    + apply (av_cover _ _ Hinv); [by eapply list_elem_of_lookup_2|done].
  - intros x rc' [Hx|Hx%list_elem_of_singleton]%elem_of_app Hd [j Hj]%list_elem_of_lookup_1 Hid;
      [|subst x; simpl in Hd; congruence].
    destruct (Hall j rc' Hj) as [(_ & E & _)|[_ Hj']].
    + exfalso. apply (Hnc x Hx). right. left. apply andb_prop in Hd as [Hd _]. apply bool_decide_eq_true in Hd.
      assert (gid x.2 = gid t) as Ex by congruence. rewrite Ex, Hgid. split_and!; try done. by right; right.
    + apply (av_detach _ _ Hinv x); [done|done|by eapply list_elem_of_lookup_2|done].
Qed.
(** After the first step of Detach no context with the subject's ID is attached. *)
Lemma detach_clears p s mem g rctx c g' t rc' : registered theRegistry p → pl_steps p !! 0%nat = Some s →
  pl_transitionType p = Detach → created_as p g rctx t → contexts_ok g → members_ok g →
  step_apply s mem g rctx = Ok (c, g') → rc' ∈ g_allReplicas g' → rc_id rc' = gid t → isAttached rc' = false.
Proof.
  intros Hp Hs Hty Hcr HC HM H [j Hj]%list_elem_of_lookup_1 Hid.
  destruct (ko_detach p (registered_kind p Hp) Hty) as (Hsc & Hg & s' & Hs' & Hss & Hap).
  rewrite Hs' in Hs. injection Hs as ->. unfold step_apply in H. rewrite Hss, Hap in H. simpl in H.
  destruct (setAttached_inv false mem g rctx c g' H) as (i & rc & m & Hi & Hrc & Hm & Hall).
  destruct (subject_gid p g rctx t i rc m HC HM Hcr Hsc Hi Hrc Hm) as (Hgid & Hval & Hne).
  destruct (Hall j rc' Hj) as [(_ & _ & Hb)|[Hji Hj']]; [done|].
  destruct (isAttached rc') eqn:Hat; [|done]. exfalso. unfold isAttached in Hat.
  destruct (memberOf rc') as [m'|] eqn:Em; [|done].
  destruct (HM rc' m' (list_elem_of_lookup_2 _ _ _ Hj') Em) as [Hne' _].
  apply Hji. eapply (co_distinct g HC); [exact Hj'|exact Hrc|done|done|congruence].
Qed.
Lemma apply_inv p s mem g rctx c g' a t l : registered theRegistry p → pl_steps p !! 0%nat = Some s →
  created_as p g rctx t → (∀ x, x ∈ l → ¬ Tracker.conflict x.2 t) →
  (isGroup GroupAttachment t = true → valid_id (gid t) → Contains (pot g) (gid t) = true) →
  (pl_transitionType p = DisableMultiattach → Len (pot g) ≤ 1) →
  step_apply s mem g rctx = Ok (c, g') → attached_inv g l → attached_inv g' (l ++ [(a, t)]).
Proof.
  intros Hp Hs Hcr Hnc Hin Hdis H Hinv.
  destruct (decide (pl_transitionType p = Attach)) as [Ha|Ha]; [by eapply attach_apply_inv|].
  destruct (head_frame p s _ _ _ _ _ Hp Hs H) as (Hr & Hrel & Hpot).
  assert (Hl : attached_inv g' l).
  { eapply respects_inv; [exact Hr|done|done|by apply bool_decide_eq_false| |done].
    destruct (decide (pl_transitionType p = EnableMultiattach)) as [He|He].
    - destruct (ko_enable p (registered_kind p Hp) He) as (s' & Hs' & Hss & Hap). rewrite Hs' in Hs. injection Hs as ->.
      unfold step_apply in H. rewrite Hss, Hap in H. simpl in H. left.
      unfold applyEnableMultiattach, applyMultiattach, SetChanged in H. case_decide as E; injection H as _ <-; done.
    - destruct (decide (pl_transitionType p = DisableMultiattach)) as [Hd|Hd]; [right; auto|].
      destruct (re_multi _ _ _ Hr) as [E|E]; [|rewrite E; apply Hinv].
      simpl in E. by rewrite !bool_decide_eq_false_2 in E. }
  destruct Hl as [C M W S V D]. split; try done.
  intros x rc' [Hx|Hx%list_elem_of_singleton]%elem_of_app Hd Hrc' Hid; [by apply (D x)|]. subst x. simpl in Hd, Hid.
  eapply detach_clears; try done; try apply Hinv. rewrite <-(ca_type _ _ _ _ Hcr).
  apply andb_prop in Hd as [_ Hd]. by apply bool_decide_eq_true in Hd.
Qed.

Lemma created_as_rel p g g' rctx t : ctx_rel g g' → created_as p g rctx t → created_as p g' rctx t.
Proof.
  intros Hr [H1 H2 H3]. split; [done|done|]. intros Hs. destruct (H3 Hs) as (r & rc & -> & Hrc & En & Hne).
  destruct (Forall2_lookup_l _ _ _ _ _ (xr_ctx _ _ Hr) Hrc) as (rc' & Hrc' & Hi).
  exists r, rc'. by rewrite (si_name _ _ Hi).
Qed.
Lemma created_as_gid p g rctx t u : pl_scope p = ReplicaScope → created_as p g rctx t → created_as p g rctx u →
  gid t = gid u ∧ t_ReplicaName t ≠ "".
Proof.
  intros Hs [_ _ Ht] [_ _ Hu]. destruct (Ht Hs) as (r & rc & Hr & Hrc & En & Hne).
  destruct (Hu Hs) as (r' & rc' & Hr' & Hrc' & En' & _). assert (rc' = rc) as -> by congruence.
  unfold gid. split; [by rewrite En, En'|by rewrite En].
Qed.
Lemma attached_inv_meta g l l' : Forall2 same_active l l' → attached_inv g l → attached_inv g l'.
Proof.
  intros Hl [C M W S V D]. split; try done. intros x rc [k Hk]%list_elem_of_lookup_1 Hd.
  destruct (Forall2_lookup_r _ _ _ _ _ Hl Hk) as (y & Hy & _ & (E1 & E2 & E3)%same_meta_group).
  rewrite E3. apply (D y); [by eapply list_elem_of_lookup_2|]. revert Hd. unfold isDetach, isGroup. by rewrite E1, E2.
Qed.
Lemma attachment_scope p g rctx t : registered theRegistry p → created_as p g rctx t →
  isGroup GroupAttachment t = true → pl_scope p = ReplicaScope ∧ pl_group p = GroupAttachment.
Proof.
  intros Hp%registered_kind [_ Hg _] H%bool_decide_eq_true. rewrite Hg in H. split; [|done].
  destruct (ko_group p Hp H) as [E|E]; [apply (ko_attach p Hp E)|apply (ko_detach p Hp E)].
Qed.
Lemma disable_guard p mem g rctx res g' : registered theRegistry p → pl_transitionType p = DisableMultiattach →
  plan_evaluateGuards p mem g rctx = Ok (res, g') → gr_Blocked res = false → Len (pot g') ≤ 1.
Proof.
  intros Hp Hd H Hb. destruct (ko_disable p (registered_kind p Hp) Hd) as [Hs Hg].
  unfold plan_evaluateGuards in H. rewrite Hs, Hg in H. simpl in H.
  destruct (1 <? Len (potentiallyAttached (g_tracking g))) eqn:E; simpl in H; injection H as <- <-; [done|].
  apply Z.ltb_ge in E. exact E.
Qed.

(** Pointing the slot to the new transition. *)
Lemma slot_after_create clock p planID rctx slot e a e3 : e_registry e = theRegistry →
  e_tracker e = concurrencyTracker → resolved e slot → createTransition clock p planID rctx e = Ok (a, e3) →
  let e4 := slot_SetActive slot rctx (Some a) e3 in
  respects noEffect (e_g e) (e_g e4) ∧ pot (e_g e4) = pot (e_g e) ∧ e_tracker e4 = concurrencyTracker ∧
  ctx_rel (e_g e) (e_g e4).
Proof.
  intros Hreg Htrk Hs Hcr e4. unfold createTransition in Hcr. bok Hcr as s0 _. bok Hcr as nm _. bok Hcr as t1 _.
  injection Hcr as <- <-. set (e3 := set_transitions _ _) in *.
  pose proof (SetActive_calm slot rctx (Some (length (e_mem e))) e3 Hreg Hs) as Hc. fold e4 in Hc.
  pose proof (rtc_estep_config _ _ (ca_steps _ _ Hc)) as (_ & Et & _).
  split_and!; [apply Hc|apply Hc|by rewrite Et|].
  exact (rel_steps theRegistry concurrencyTracker ctx_rel _ e3 e4 Hreg Htrk (ca_steps _ _ Hc)).
Qed.

(** From the admitted state to the state after the first apply. *)
Lemma create_safe clock p tt planID rctx slot e tempT reason det a e3 t g' e5 :
  reg_get theRegistry tt planID = Some p → resolved e slot → safe e →
  (pl_transitionType p = DisableMultiattach → Len (pot (e_g e)) ≤ 1) →
  plan_callInit p (e_g e) rctx (blankTransition (pl_transitionType p) (pl_group p) ""
    match pl_scope p, rctx with ReplicaScope, Some r => rctx_Name (e_g e) r | _, _ => "" end []) = Ok tempT →
  trk_CanAdmit (e_tracker e) tempT (e_g e) = Ok (true, reason, det) →
  createTransition clock p planID rctx e = Ok (a, e3) →
  let e4 := slot_SetActive slot rctx (Some a) e3 in
  load e4 a = Ok t → trk_Add (e_tracker e4) a t (e_g e4) = Ok g' →
  applyStep p a rctx 0 (set_g g' e4) = Ok e5 →
  safe e5 ∧ a ∈ e_transitions e5 ∧ resolved e5 slot.
Proof.
  intros Hget Hs Hok Hdis Hinit Hadm Hcr e4 Hl Hadd Happ.
  pose proof (reg_get_registered _ _ _ _ Hget) as Hp. destruct Hok as [Hreg Hinv] eqn:HH. clear HH.
  destruct Hinv as [Htrk Hw Htr Hinv].
  destruct (createTransition_created clock p planID rctx slot e tempT a e3 t Hp Hinit Hcr Hl Hw)
    as (Ctemp & Ct & Hact & Hg3 & Hm3).
  rewrite <-Hreg in Hget.
  destruct (createTransition_steps clock p tt planID rctx slot e e3 a tempT reason det t g' Hget Hs Hinit Hadm Hcr Hl Hadd)
    as (Hec & Ha & Hpos & name & s1 & Hini & Hmem4). fold e4 in Hec, Ha, Hmem4.
  set (eC := set_g g' e4) in *. destruct (tracked_step e eC (Es_new _ _ Hec) Hok) as (HrC & HtC & HwC & HtrC).
  assert (HactC : active eC = active e ++ [(a, t)]) by exact Hact.
  assert (Hrel : ctx_rel (e_g e) g').
  { exact (rel_steps theRegistry concurrencyTracker ctx_rel _ e eC Hreg Htrk (rtc_once _ _ (Es_new _ _ Hec))). }
  destruct (slot_after_create clock p planID rctx slot e a e3 Hreg Htrk Hs Hcr) as (Hre & Hpot4 & Ht4 & Hrel4).
  fold e4 in Hre, Hpot4, Ht4, Hrel4. rewrite Ht4 in Hadd. simpl in Hadd. rewrite Htrk in Hadm. simpl in Hadm.
  assert (Hinv4 : attached_inv (e_g e4) (active e)).
  { eapply respects_inv; [exact Hre|done|done|done| |done]. destruct (re_multi _ _ _ Hre) as [?|E]; [done|].
    rewrite E. apply Hinv. }
  destruct (add_inv a t _ _ (active e) Hadd) as [HinvA HinA]; [|exact Hinv4|].
  { intros HgA. destruct (attachment_scope p _ _ _ Hp Ct HgA) as [Hsc Hgr].
    destruct (created_as_gid p _ _ _ _ Hsc Ctemp Ct) as [Eg Hne].
    destruct (re_multi _ _ _ Hre) as [?|E]; [done|]. rewrite E, Hpot4, <-Eg.
    eapply CanAdmit_attachment; [exact Hadm|by rewrite (ca_group _ _ _ _ Ctemp)|done]. }
  (* the first apply *)
  destruct (applyStep_inv _ _ _ _ _ _ Happ) as (s & c & g5 & t0 & t1 & Hs0 & Hg5 & Ht0 & Hm & He5).
  assert (Hinv5 : attached_inv g5 (active eC)).
  { rewrite HactC. eapply apply_inv; [exact Hp|exact Hs0|exact (created_as_rel p _ g' _ _ Hrel Ct)| |exact HinA| |exact Hg5|exact HinvA].
    - destruct HtrC as [_ Hex]. rewrite HactC in Hex. intros x [i Hi]%list_elem_of_lookup_1 Hcf.
      eapply (Hex i (length (active e)) x (a, t)); [| | |exact Hcf].
      + apply lookup_lt_Some in Hi. lia.
      + by apply lookup_app_l_Some.
      + by rewrite lookup_app_r, Nat.sub_diag by done.
    - intros Hd. unfold concurrency_tracker.Add in Hadd. bok Hadd as k Hk%Add_pot. injection Hadd as <-.
      change (Len (potentiallyAttached k) ≤ 1). rewrite Hk. fold (pot (e_g e4)). rewrite Hpot4.
      destruct (isGroup _ _) eqn:HgA; [|by apply Hdis].
      exfalso. destruct (attachment_scope p _ _ _ Hp Ct HgA) as [Hsc _].
      pose proof (proj1 (ko_disable p (registered_kind p Hp) Hd)). congruence. }
  destruct (applyStep_steps p a rctx 0 eC e5 t) as (Hst5 & Htr5 & _); [by rewrite HrC|exact Ha|exact Hmem4| |done|].
  { apply rl_init in Hini as (_ & _ & _ & _ & Hst); [|done]. unfold findCurrentStepIdx. rewrite Hst. simpl.
    by destruct (pl_steps p); [simpl in Hpos; lia|]. }
  assert (Hst : rtc estep e e5).
  { eapply rtc_l; [by apply Es_new|by apply rtc_sstep_estep]. }
  pose proof (rtc_estep_config _ _ Hst) as Hc5. pose proof Hc5 as (Er & Et & _).
  split_and!; [|by rewrite Htr5|by eapply resolved_config]. split; [congruence|].
  split; [congruence|by eapply index_wf_steps| |].
  - exact (tracked_steps tracks Tracker.conflict theRegistry concurrencyTracker _ _ e e5 Hreg Htrk Hw Hst Htr).
  - subst e5. simpl. eapply attached_inv_meta; [|exact Hinv5].
    eapply (active_store (set_revision _ (set_g g5 eC))); [exact Ht0|done].
Qed.

Lemma subject_resolved e (p : plan globalContext nat) rctx slot : subject_of e p rctx slot → resolved e slot.
Proof. intros [r _|_]; [right; by eexists|by left]. Qed.
Lemma dispatched_safe clock p tt planID rctx slot made e e' : reg_get theRegistry tt planID = Some p →
  subject_of e p rctx slot → dispatched clock p planID rctx slot e made e' → safe e → safe e'.
Proof.
  intros Hget Hs%subject_resolved H Hok. pose proof (reg_get_registered _ _ _ _ Hget) as Hp.
  assert (Hcan : ∀ e1, cancelActive p rctx slot e = Ok e1 → safe e1 ∧ resolved e1 slot).
  { intros e1 H1. split; [by eapply cancelActive_safe|]. eapply resolved_config; [|exact Hs].
    by eapply rtc_sstep_config, cancelActive_steps. }
  assert (Hguard : ∀ e1 res g, safe e1 → plan_evaluateGuards p (e_mem e1) (e_g e1) rctx = Ok (res, g) →
    calm e1 (set_g g e1)).
  { intros e1 res g Hok1 Hg. eapply plan_effect_calm; [apply Hok1|done|by eapply pe_guards]. }
  destruct H as [e1 e2 e3 H1 H2 H3|e1 res g tempT reason det a e3 t g' e5 cr msg c e6 s0 H1 _ Hg Hb e2 Hi Hadm Hcr e4 Hl Hadd Happ Hc Hs0].
  - destruct (Hcan e1 H1) as [Hok1 Hs1].
    assert (safe e2 ∧ resolved e2 slot) as [Hok2 Hs2].
    { destruct H2 as [|res g Hg]; [done|]. pose proof (Hguard _ _ _ Hok1 Hg) as Hc.
      split; [by eapply calm_safe|by eapply resolved_calm]. }
    destruct H3 as [->|(msg & det & ->)]; [done|]. eapply calm_safe; [|exact Hok2].
    apply SetStatus_calm; [apply Hok2|done].
  - destruct (Hcan e1 H1) as [Hok1 Hs1]. pose proof (Hguard _ _ _ Hok1 Hg) as Hcg. fold e2 in Hcg.
    destruct (create_safe clock p tt planID rctx slot e2 tempT reason det a e3 t g' e5) as (Hok5 & Ha5 & Hs5); try done.
    { by eapply calm_safe. }
    { intros Hd. exact (disable_guard p _ _ _ _ _ Hp Hd Hg Hb). }
    pose proof (confirmStep_calm _ _ _ _ _ _ _ _ _ _ Ha5 Hc) as C6.
    eapply calm_safe; [|by eapply calm_safe]. apply SetStatus_calm; [|by eapply resolved_calm].
    eapply registry_calm; [exact C6|apply Hok5].
Qed.

Lemma Process_safe clock e ch e' : Process clock e = Ok (ch, e') → safe e → safe e'.
Proof.
  intros H Hok. pose proof (Process_steps clock e ch e') as Hst.
  rewrite (proj1 Hok) in Hst. specialize (Hst _ H). split.
  - rewrite (proj1 (rtc_estep_config _ _ Hst)). apply Hok.
  - eapply (Process_invariant clock theRegistry attach_inv); [..|apply Hok|apply Hok|exact H].
    + intros i a made e1 e2 Hr Hi Hs HI. by eapply settled_safe.
    + intros p tt planID rctx slot made e1 e2 Hr Hget Hs Hd HI. by eapply dispatched_safe.
    + intros id r msg det e1 Hr HI. eapply calm_safe; [|by split].
      apply SetStatus_calm; [done|]. right. exists id. by rewrite Hr.
Qed.
End safety.
