(* ===== verification/Quiet.v ===== *)
(** * Cycles that report no change

    Guards write nothing but the quorum cache; refused dispatches and idle settle iterations only
    touch status messages, slots and tracker state, and may cancel a transition.  So a cycle that
    reports no change leaves the stored volume alone, up to cancelled transitions. *)

From Stdlib Require Import ZArith Lia String.
From stdpp Require Import base list numbers strings option relations.
From S2P Require Import Prelude IdSet DrbdSize Api Dmte DmteSteps DmteInvariants DmteFinalize DmteBoundary.
From S2P Require Import Context Tracker Helpers Guards Network Quorum Attachment Membership Datamesh.
From S2P Require Import Datamesh Frame Plans Effects Contexts System Provenance.
Import idset v1alpha1 dmte datamesh concurrency_tracker helpers guards network quorum resize attachment membership process.

Set Default Proof Using "Type".

Section guards.
Context `{K : K8s}.
Implicit Types (g : globalContext) (rc : ReplicaContext).

(** ** Guards *)
Definition still {A} g (o : outcome A) (view : A → globalContext) : Prop := okf o (λ x, slots_only g (view x)).
Lemma rguard_global_still f mem g r : still g (on_global f mem g r) snd.
Proof. unfold still. simpl. reflexivity. Qed.
Lemma rguard_subject_still f mem g r : (∀ mem g rc, okf (f mem g rc) (λ _, True)) →
  still g (on_subject f mem g r) snd.
Proof.
  intros Hf. eapply okf_bind; [apply rc_at_okf|]. intros rc _. eapply okf_bind; [apply Hf|]. intros x _.
  simpl. reflexivity.
Qed.
Lemma gguard_still f mem g : still g (ggate f mem g) snd.
Proof. unfold still. simpl. reflexivity. Qed.
Lemma guardMaxDiskMembers_still mem g r : still g (guardMaxDiskMembers mem g r) snd.
Proof.
  unfold still, guardMaxDiskMembers. eapply (okf_bind _ _ (λ _, True)); [|simpl; reflexivity].
  induction (g_allReplicas g) as [|rc l IH]; simpl; [done|].
  eapply (okf_bind _ _ (λ _, True)); [unfold pendingDisk; okf_walk; done|intros].
  eapply okf_bind; [apply IH|done].
Qed.
Lemma guardQuorumSatisfied_still mem g r : still g (guardQuorumSatisfied mem g r) snd.
Proof.
  unfold still, guardQuorumSatisfied, isQuorumSatisfied.
  destruct (g_quorumSatisfied g); [simpl; reflexivity|]. destruct (computeQuorumCheck g). by split.
Qed.
Lemma guardBackingVolumesGrown_still mem g : still g (guardBackingVolumesGrown mem g) snd.
Proof.
  unfold still, guardBackingVolumesGrown. eapply okf_bind; [apply LowerVolumeSize_okf|]. intros. simpl. reflexivity.
Qed.
Record guards_still (p : plan globalContext nat) : Prop := {
  gs_replica : Forall (λ f, ∀ mem g r, still g (f mem g r) snd) (pl_replicaGuards p);
  gs_global : Forall (λ f, ∀ mem g, still g (f mem g) snd) (pl_globalGuards p);
}.
End guards.

Ltac guard_still :=
  lazymatch goal with
  | |- still _ (guardMaxDiskMembers _ _ _) _ => apply guardMaxDiskMembers_still
  | |- still _ (guardQuorumSatisfied _ _ _) _ => apply guardQuorumSatisfied_still
  | |- still _ (on_global _ _ _ _) _ => apply rguard_global_still
  | |- still _ (on_subject _ _ _ _) _ => apply rguard_subject_still; intros; cbv beta zeta; okf_walk; done
  | |- still _ (guardBackingVolumesGrown _ _) _ => apply guardBackingVolumesGrown_still
  | |- still _ (ggate _ _ _) _ => apply gguard_still
  | |- still ?g (?f ?mem ?g ?r) ?v => let f' := eval red in f in change (still g (f' mem g r) v); guard_still
  | |- still ?g (?f ?mem ?g) ?v => let f' := eval red in f in change (still g (f' mem g) v); guard_still
  end.

Section quiet.
Context `{K : K8s}.
Implicit Types (g : globalContext) (rc : ReplicaContext) (rv : ReplicatedVolume) (e : Engine globalContext nat).

Lemma all_guards_still : Forall (λ x, guards_still x.2) (reg_plans theRegistry).
Proof.
  unfold theRegistry. cbn [reg_plans]. forall_list.
  all: split; cbn [snd pl_replicaGuards pl_globalGuards]; forall_list; intros; guard_still.
Qed.
Lemma runGuards_still (fs : list (globalContext → outcome (GuardResult * globalContext))) g :
  Forall (λ f, ∀ g, still g (f g) snd) fs → still g (runGuards fs g) snd.
Proof.
  intros H. revert g. induction H as [|f fs Hf _ IH]; intros g; [unfold still; simpl; reflexivity|].
  unfold still. simpl. eapply okf_bind; [apply Hf|]. intros [res g1] Hg1. simpl in Hg1.
  destruct (gr_Blocked res); [done|]. eapply okf_mono; [apply IH|]. intros [r2 g2] ?. by transitivity g1.
Qed.
Lemma evaluateGuards_still p mem g rctx res g' : registered theRegistry p →
  plan_evaluateGuards p mem g rctx = Ok (res, g') → slots_only g g'.
Proof.
  intros (ty & id & Hp%reg_get_In) H. destruct (Forall_elem _ _ _ all_guards_still Hp) as [Hr Hg]. simpl in Hr, Hg.
  enough (Hq : still g (plan_evaluateGuards p mem g rctx) snd) by exact (okf_Ok _ _ _ Hq H).
  unfold plan_evaluateGuards. destruct (pl_scope p); apply runGuards_still, List.Forall_map.
  - refine (List.Forall_impl _ _ Hg). auto.
  - refine (List.Forall_impl _ _ Hr). auto.
Qed.

(** ** Quiet work *)
Record quiet e e' : Prop := {
  qt_config : same_config e e';
  qt_slots : slots_only (e_g e) (e_g e');
  qt_revision : e_revision e' = e_revision e;
  qt_mem : e_mem e' = e_mem e;
  qt_transitions : sublist (e_transitions e') (e_transitions e);
}.
#[export] Instance quiet_preorder : PreOrder quiet.
Proof.
  split; [by intros e|]. intros e1 e2 e3 [A1 B1 C1 D1 T1] [A2 B2 C2 D2 T2].
  split; [by etrans|by etrans|congruence|congruence|by etrans].
Qed.
Lemma quiet_g g' e : slots_only (e_g e) g' → quiet e (set_g g' e).
Proof. intros H. by split. Qed.
Lemma quiet_status slot rctx msg det e : e_registry e = theRegistry → resolved e slot →
  quiet e (slot_SetStatus slot rctx msg det e).
Proof.
  intros Hr [-> | [id ->]]; [done|]. destruct (replicaSlotAccessor _ id) as [sl|] eqn:E; [|done].
  destruct rctx as [r|]; [|done]. apply quiet_g, slot_effect_slots. rewrite Hr in E. by eapply se_status.
Qed.
Lemma quiet_active slot rctx a e : e_registry e = theRegistry → resolved e slot →
  quiet e (slot_SetActive slot rctx a e).
Proof.
  intros Hr [-> | [id ->]]; [done|]. destruct (replicaSlotAccessor _ id) as [sl|] eqn:E; [|done].
  destruct rctx as [r|]; [|done]. apply quiet_g, slot_effect_slots. rewrite Hr in E. by eapply se_active.
Qed.
Lemma quiet_delete i e e' : e_tracker e = concurrencyTracker → deleteTransition i e = Ok e' → quiet e e'.
Proof.
  intros Ht H. unfold deleteTransition in H. bok H as a _. bok H as t _. bok H as g' Hg. injection H as <-.
  rewrite Ht in Hg. simpl in Hg. unfold concurrency_tracker.Remove in Hg. bok Hg as k _. injection Hg as <-.
  split; try done. simpl. rewrite <-delete_take_drop. apply sublist_delete.
Qed.
Lemma quiet_resolved e e' slot : quiet e e' → resolved e slot → resolved e' slot.
Proof. intros H. apply resolved_config, H. Qed.
Lemma quiet_registry e e' : quiet e e' → e_registry e = theRegistry → e_registry e' = theRegistry.
Proof. intros H <-. apply H. Qed.
Lemma quiet_dispatch clock p tt planID rctx slot e e' : e_registry e = theRegistry →
  e_tracker e = concurrencyTracker → reg_get theRegistry tt planID = Some p → subject_of e p rctx slot →
  dispatched clock p planID rctx slot e false e' → quiet e e'.
Proof.
  intros Hr Ht Hp Hs H. assert (Hres : resolved e slot) by (destruct Hs; [right; by eexists|by left]).
  inversion H as [e1 e2 e3 H1 H2 H3|]; subst.
  assert (Q1 : quiet e e1).
  { unfold cancelActive in H1. destruct (pl_cancelActiveOnCreate p); [|by injection H1 as <-].
    destruct (slot_GetActive _ _ _) as [act|]; [|by injection H1 as <-]. bok H1 as e0 H0. injection H1 as <-.
    assert (quiet e e0) as Q0.
    { destruct (indexOf _ _); [by eapply quiet_delete|by injection H0 as <-]. }
    etrans; [exact Q0|]. apply quiet_active; [by eapply quiet_registry|by eapply quiet_resolved]. }
  assert (Q2 : quiet e1 e2).
  { destruct H2 as [|res g Hg]; [done|]. apply quiet_g. eapply evaluateGuards_still; [|exact Hg].
    by eapply reg_get_registered. }
  assert (Q12 : quiet e e2) by (by etrans).
  destruct H3 as [->|(msg & det & ->)]; [done|]. etrans; [exact Q12|].
  apply quiet_status; [by eapply quiet_registry|by eapply quiet_resolved].
Qed.
Lemma Process_false_quiet clock e e' : e_registry e = theRegistry → e_tracker e = concurrencyTracker →
  Process clock e = Ok (false, e') → quiet e e'.
Proof.
  intros Hr Ht H. apply (Process_quiet clock theRegistry concurrencyTracker quiet); try done.
  - intros e1 e2 Hq [<- <-]. split; apply Hq.
  - intros i a e1 e2 [Hr1 _] _ Hi. destruct Hi as [|t p rctx slot msg det _ _ Hs]; [done|].
    apply quiet_status; [done|by eapply settle_resolve_resolved].
  - intros p tt planID rctx slot e1 e2 [Hr1 Ht1] Hp Hs Hd. by eapply quiet_dispatch.
  - intros id r msg det e1 [Hr1 _]. apply quiet_status; [done|]. right. exists id. by rewrite Hr1.
Qed.

(** ** The stored volume *)
Definition with_transitions (ts : list Transition) rv : ReplicatedVolume :=
  set_status (rv_DatameshRevision rv) (rv_Members rv) (rv_BaselineGMDR rv) (rv_DatameshReplicaRequests rv) ts
    (rv_EffectiveLayout rv) rv.

Lemma slots_lookup g g' rc' : slots_only g g' → rc' ∈ g_allReplicas g' →
  ∃ rc, rc ∈ g_allReplicas g ∧ keeps_member rc rc'.
Proof.
  intros H [i Hi]%list_elem_of_lookup_1. destruct (Forall2_lookup_r _ _ _ _ _ (so_ctx _ _ H) Hi) as (rc & Hrc & ?).
  exists rc. split; [by eapply list_elem_of_lookup_2|done].
Qed.
Lemma membersInPlace_same orig g g' : Forall (stored orig) (g_allReplicas g) → slots_only g g' →
  membersInPlace orig g' = orig.
Proof.
  intros Hst Hs. apply list_eq. intros i. unfold membersInPlace. rewrite list_lookup_imap.
  destruct (orig !! i) as [m0|] eqn:E; simpl; [|done]. f_equal.
  destruct (survivor g' i m0) as [m|] eqn:Es; simpl; [|done].
  apply survivor_Some in Es as (rc' & Hrc%replicaAt_elem & Hm).
  destruct (slots_lookup _ _ _ Hs Hrc) as (rc & Hin & _ & E'). rewrite E' in Hm.
  destruct (Forall_elem _ _ _ Hst Hin _ _ Hm) as (_ & j & [= <-] & Hj). congruence.
Qed.
Lemma requests_same requests g : (writebackRequestMessagesFromContexts requests g).1 = false →
  (writebackRequestMessagesFromContexts requests g).2 = requests.
Proof.
  unfold writebackRequestMessagesFromContexts.
  set (f := λ (acc : bool * list DatameshReplicaRequest) id, _).
  assert (Hf : ∀ acc id, (f acc id).1 = false → f acc id = acc).
  { intros acc id. unfold f. by repeat case_match. }
  assert (H : ∀ l acc, (foldl f acc l).1 = false → foldl f acc l = acc).
  { induction l as [|x l IH]; intros acc H; [done|]. simpl in *. specialize (IH _ H). rewrite IH in *. by apply Hf. }
  intros H1. by rewrite (H _ _ H1).
Qed.

(** C21: a cycle that reports no change leaves the volume alone: the datamesh parameters, revision,
    members, requests, baseline and effective layout are what they were, and the stored transitions
    are some of the former ones, unmodified and in order (a forced plan may have cancelled one
    before it was refused). *)
Theorem ProcessTransitions_unchanged (clock : nat → Time) (rv : ReplicatedVolume) (rsp : option RSP)
    (rvrs : list ReplicatedVolumeReplica) (rvas : list ReplicatedVolumeAttachment)
    (ff : FeatureFlags) (spare : list Transition) :
  Forall (λ t, name_ok (t_ReplicaName t)) (rv_DatameshTransitions rv) →
  okf (reg ← BuildRegistry None; ProcessTransitions clock reg rv rsp rvrs rvas ff spare)
    (λ res, let '(changed, _, rv') := res in changed = false →
      rv' = with_transitions (rv_DatameshTransitions rv') rv ∧
      sublist (rv_DatameshTransitions rv') (rv_DatameshTransitions rv)).
Proof.
  intros HN. eapply okf_mono; [apply ProcessTransitions_okf|]. intros [[changed ctxs] rv'].
  intros (z & e & ch & e' & base & n & e2 & He & HP & HF & Hts & _ & HW) ->.
  unfold writeback in HW. pose proof (requests_same (rv_DatameshReplicaRequests rv) (e_g e2)) as Hrq.
  destruct (writebackRequestMessagesFromContexts _ _) as [rqc rqs]. cbn [fst snd] in Hrq.
  destruct (effective_layout.updateEffectiveLayout _ _) as [elc el] eqn:Eel. injection HW as Hch Hrv.
  symmetry in Hch. apply orb_false_elim in Hch as [Hch ->]. apply orb_false_elim in Hch as [Hch ->].
  apply orb_false_elim in Hch as [-> ->]. rewrite (Hrq eq_refl) in Hrv. cbn [orb] in Hrv.
  assert (el = rv_EffectiveLayout rv) as ->.
  { unfold effective_layout.updateEffectiveLayout, SetChanged in Eel. case_decide; by simplify_eq. }
  pose proof (newEngine_started _ _ _ _ _ _ _ _ He) as Hst.
  destruct (newEngine_inv _ _ _ _ _ _ _ _ He) as (g & g1 & Hg & Hz & _ & Hs1 & Hrev).
  destruct (zones_slots g) as (z' & g1' & Hz' & _ & _ & _ & _ & _ & _ & _ & Hsame). rewrite Hz in Hz'.
  injection Hz' as <- <-. rewrite (Hsame eq_refl) in Hs1.
  pose proof (Process_false_quiet clock e e' (st_registry _ _ Hst) (st_tracker _ _ Hst) HP) as Hq.
  assert (Hr' : e_registry e' = theRegistry) by (eapply quiet_registry; [exact Hq|apply Hst]).
  destruct (Finalize_slots e' base n e2 Hr' HF) as [HsF HrF].
  assert (Hslots : slots_only g (e_g e2)) by (etrans; [exact Hs1|]; etrans; [apply Hq|exact HsF]).
  rewrite (membersInPlace_same _ _ _ (buildContexts_stored _ _ _ _ _ _ Hg) Hslots) in Hrv.
  assert (e_revision e2 = rv_DatameshRevision rv) as Hr2 by (rewrite HrF, (qt_revision _ _ Hq); done).
  rewrite Hr2 in Hrv. split; [subst rv'; done|]. rewrite Hts.
  destruct (Finalize_started clock _ e false e' Hst HP HN) as (b & k & e3 & HF' & HS & _).
  rewrite HF in HF'. injection HF' as <- <- <-. rewrite HS, <-(st_active _ _ Hst). apply fmap_sublist.
  unfold active, cell. rewrite (qt_mem _ _ Hq). apply fmap_sublist, Hq.
Qed.
End quiet.
