(* ===== verification/AttachCycle.v ===== *)
(** * Attachments across a cycle

    The attachment invariant of the engine (AttachSafety), established from a stored volume and
    carried back into it: unless multiattach is enabled, at most one replica is attached or has an
    attachment transition ([attachments_ok]). *)

From Stdlib Require Import ZArith Lia String.
From stdpp Require Import base list numbers strings option relations.
From S2P Require Import Prelude IdSet DrbdSize Api Dmte DmteSteps DmteInvariants DmteFinalize.
From S2P Require Import Context Tracker Helpers Attachment Datamesh Frame Plans Effects Contexts System.
From S2P Require Import AttachSafety Provenance Quiet.
Import idset v1alpha1 dmte datamesh concurrency_tracker helpers attachment process.

Set Default Proof Using "Type".

Section cycle.
Context `{K : K8s}.
Implicit Types (g : globalContext) (rc : ReplicaContext) (rv : ReplicatedVolume) (e : Engine globalContext nat) (t : Transition).

(** The replicas that may be attached: attached members and subjects of attachment transitions. *)
Definition potential rv (j : Z) : Prop :=
  (∃ m, m ∈ rv_Members rv ∧ m_Attached m = true ∧ m_ID m = j) ∨
  (∃ t, t ∈ rv_DatameshTransitions rv ∧ t_Group t = GroupAttachment ∧ gid t = j).
Record attachments_ok rv : Prop := {
  ao_transitions : transitions_ok (rv_DatameshTransitions rv);
  ao_ids : Forall (λ m, valid_id (m_ID m) ∧ m_Name m ≠ "") (rv_Members rv);
  ao_single : rv_Multiattach rv = true ∨ ∀ i j, potential rv i → potential rv j → i = j;
  ao_detach t m : t ∈ rv_DatameshTransitions rv → isDetach t = true → m ∈ rv_Members rv →
    m_ID m = gid t → m_Attached m = false;
}.

(** ** From the stored volume to the engine *)
Lemma ctx_wf_ok g : ctx_wf g → Forall has_name (g_allReplicas g) → contexts_ok g.
Proof.
  intros Hw Hn. split.
  - by apply ctx_wf_names.
  - apply Hw.
  - intros i j rc rc' Hi Hj N N' E. pose proof (cw_named g Hw _ _ Hi N) as H1.
    pose proof (cw_named g Hw _ _ Hj N') as H2. rewrite E in H1. congruence.
  - intros rc Hrc Hs. apply (Forall_elem _ _ _ Hn Hrc). by left.
Qed.
Lemma init_loop_pot ts a g g' j : valid_id j → init_loop theRegistry concurrencyTracker a ts g = Ok g' →
  Contains (pot g') j = Contains (pot g) j || existsb (λ t, isGroup GroupAttachment t && (j =? gid t)) ts.
Proof.
  intros Hj. revert a g. induction ts as [|t ts IH]; intros a g H; cbn [init_loop] in H.
  { injection H as <-. by rewrite orb_false_r. }
  apply bind_Ok in H as (g1 & H1 & H). apply bind_Ok in H as (g2 & H2 & H). rewrite (IH _ _ H). simpl.
  rewrite orb_assoc. f_equal. cbn [trk_Add concurrencyTracker] in H1. unfold concurrency_tracker.Add in H1. apply bind_Ok in H1 as (k & Hk%Add_pot & H1).
  injection H1 as <-.
  assert (pot g2 = potentiallyAttached k) as ->.
  { unfold initSlot in H2. destruct (String.eqb _ _); [by injection H2 as <-|].
    destruct (reg_get _ _ _) as [p|]; [|by injection H2 as <-]. destruct (negb _); [by injection H2 as <-|].
    destruct (replicaSlotAccessor _ _) as [sl|] eqn:Esl; [|by injection H2 as <-].
    bok H2 as id _. bok H2 as r _. destruct r; injection H2 as <-; [|done].
    by apply slot_cases in Esl as [[_ ->]|[_ ->]]. }
  rewrite Hk. destruct (isGroup _ _); simpl; [|by rewrite orb_false_r].
  apply Contains_Add; [done|apply gid_nonneg].
Qed.
Lemma newTracker_pot g j : valid_id j → g_tracking g = initTracking →
  Forall (λ rc, valid_id (rc_id rc)) (g_allReplicas g) →
  Contains (pot (newConcurrencyTracker g)) j = existsb (λ rc, isAttached rc && (j =? rc_id rc)) (g_allReplicas g).
Proof.
  intros Hj Hk Hv. unfold pot, newConcurrencyTracker. rewrite Hk. simpl.
  erewrite foldl_ext; [|intros s rc; instantiate (1 := λ s rc, if isAttached rc then idset.Add s (rc_id rc) else s);
    unfold isAttached; by destruct (memberOf rc) as [m|]; [destruct (m_Attached m)|]].
  rewrite Contains_fold; [|done|refine (List.Forall_impl _ _ Hv); by intros rc []].
  by rewrite Contains_empty.
Qed.
(** Contexts after set-up: the stored members, with their attached flags. *)
Lemma newEngine_members rv rsp rvrs rvas ff spare z e :
  newEngine (Some theRegistry) rv rsp rvrs rvas ff spare = Ok (z, e) →
  ∀ rc m, rc ∈ g_allReplicas (e_g e) → memberOf rc = Some m →
    ∃ m0, m0 ∈ rv_Members rv ∧ m_ID m0 = rc_id rc ∧ m_Attached m = m_Attached m0.
Proof.
  intros He rc m Hrc Hm. destruct (newEngine_inv _ _ _ _ _ _ _ _ He) as (g & g1 & Hg & Hz & _ & Hs & _).
  destruct (slots_lookup _ _ _ Hs Hrc) as (rc1 & Hrc1 & [Hi E1]). unfold memberOf in Hm. rewrite E1 in Hm.
  destruct (zones_slots g) as (z' & g1' & Hz' & Hr & _ & _ & _ & _ & _ & HM & _). rewrite Hz in Hz'. injection Hz' as <- <-.
  apply list_elem_of_lookup_1 in Hrc1 as [i Hrc1].
  destruct (Forall2_lookup_r _ _ _ _ _ HM Hrc1) as (rc0 & Hrc0 & Hm0).
  destruct (Forall2_lookup_l _ _ _ _ _ (xr_ctx _ _ Hr) Hrc0) as (rc1' & Hrc1' & Hi').
  assert (rc1' = rc1) as -> by congruence. destruct (rc_member rc1) as [[m1 o]|]; [|done]. injection Hm as ->.
  destruct (Hm0 _ _ eq_refl) as (m0 & E0 & Ea).
  pose proof (buildContexts_stored _ _ _ _ _ _ Hg) as Hst.
  destruct (Forall_elem _ _ _ Hst (list_elem_of_lookup_2 _ _ _ Hrc0) _ _ E0) as (Hid & k & _ & Hk).
  exists m0. split_and!; [by eapply list_elem_of_lookup_2| |done].
  rewrite Hid, (si_id _ _ Hi), (si_id _ _ Hi'). done.
Qed.
(** The tracker's initial set of potentially attached replicas, exactly. *)
Lemma newEngine_pot rv rsp rvrs rvas ff spare z e j : valid_id j →
  newEngine (Some theRegistry) rv rsp rvrs rvas ff spare = Ok (z, e) →
  Contains (pot (e_g e)) j = true ↔
    (∃ rc, rc ∈ g_allReplicas (e_g e) ∧ isAttached rc = true ∧ rc_id rc = j) ∨
    (∃ t, t ∈ rv_DatameshTransitions rv ∧ t_Group t = GroupAttachment ∧ gid t = j).
Proof.
  intros Hj He. destruct (newEngine_inv _ _ _ _ _ _ _ _ He) as (g & g1 & Hg & Hz & Hinit & Hs & _).
  destruct (zones_slots g) as (z' & g1' & Hz' & Hr & _ & Htk & _). rewrite Hz in Hz'. injection Hz' as <- <-.
  rewrite (init_loop_pot _ _ _ _ _ Hj Hinit), orb_true_iff.
  rewrite newTracker_pot; [|done|by rewrite Htk; eapply buildContexts_tracking|].
  2:{ pose proof (ctx_rel_names _ _ Hr (ctx_wf_names _ (buildContexts_wf _ _ _ _ _ _ Hg))) as [_ Hn].
      refine (List.Forall_impl _ _ Hn). by intros rc [_ ?]. }
  assert (Hat : ∀ rc rc', keeps_member rc rc' → isAttached rc' = isAttached rc ∧ rc_id rc' = rc_id rc).
  { intros rc rc' [Hi E]. split; [unfold isAttached, memberOf; by rewrite E|apply Hi]. }
  rewrite !existsb_exists. setoid_rewrite andb_true_iff. setoid_rewrite Z.eqb_eq.
  f_equiv.
  - split.
    + intros (rc & [i Hi]%list_elem_of_In%list_elem_of_lookup_1 & Ha & ->).
      destruct (Forall2_lookup_l _ _ _ _ _ (so_ctx _ _ Hs) Hi) as (rc' & Hi' & [E1 E2]%Hat).
      exists rc'. rewrite E1, E2. split; [by eapply list_elem_of_lookup_2|done].
    + intros (rc' & Hin & Ha & <-). destruct (slots_lookup _ _ _ Hs Hin) as (rc & Hrc & [E1 E2]%Hat).
      exists rc. rewrite E2, <-E1. split; [by apply list_elem_of_In|done].
  - split.
    + intros (t & Ht%list_elem_of_In & Hgr%bool_decide_eq_true & ->). by exists t.
    + intros (t & Ht%list_elem_of_In & Hgr & <-). exists t. split_and!; [done|by apply bool_decide_eq_true|done].
Qed.
Lemma newEngine_safe rv rsp rvrs rvas ff spare z e : (∀ r, r ∈ rvrs → rvr_Name r ≠ "") → attachments_ok rv →
  newEngine (Some theRegistry) rv rsp rvrs rvas ff spare = Ok (z, e) → safe e.
Proof.
  intros N1 Hok He. pose proof (newEngine_started _ _ _ _ _ _ _ _ He) as Hst.
  pose proof (newEngine_members _ _ _ _ _ _ _ _ He) as HM.
  destruct (newEngine_inv _ _ _ _ _ _ _ _ He) as (g & g1 & Hg & Hz & Hinit & Hs & _).
  destruct (zones_slots g) as (z' & g1' & Hz' & Hr & Hre & Htk & Hdm & _). rewrite Hz in Hz'. injection Hz' as <- <-.
  assert (N2 : ∀ m, m ∈ rv_Members rv → m_Name m ≠ "").
  { intros m Hm. apply (Forall_elem _ _ _ (ao_ids _ Hok) Hm). }
  assert (HC : contexts_ok (e_g e)).
  { eapply ctx_rel_contexts; [|apply ctx_wf_ok; [by eapply buildContexts_wf|by eapply buildContexts_has_name]].
    etrans; [exact Hr|by apply slots_rel]. }
  split; [apply Hst|]. split; [apply Hst|apply Hst| |split].
  - split; [apply Hst|]. intros i j x y Hij Hx Hy. apply (to_exclusive _ (ao_transitions _ Hok) i j); [done|..];
      rewrite <-(st_active _ _ Hst), list_lookup_fmap; by rewrite ?Hx, ?Hy.
  - done.
  - eapply (respects_members noEffect g1); [by apply slots_respects| |].
    { eapply ctx_rel_contexts; [exact Hr|]. apply ctx_wf_ok; [by eapply buildContexts_wf|by eapply buildContexts_has_name]. }
    eapply (respects_members noEffect g); [done| |].
    { apply ctx_wf_ok; [by eapply buildContexts_wf|by eapply buildContexts_has_name]. }
    intros rc m Hrc Hm. unfold memberOf in Hm. destruct (rc_member rc) as [[m1 o]|] eqn:E; [|done]. injection Hm as ->.
    destruct (Forall_elem _ _ _ (buildContexts_stored _ _ _ _ _ _ Hg) Hrc _ _ E) as (Hid & k & _ & Hk).
    split_and!; [|done|by eapply N2, list_elem_of_lookup_2].
    apply (Forall_elem _ _ _ (buildContexts_has_name _ _ _ _ _ _ N1 N2 Hg) Hrc). right. by rewrite E.
  - exact (proj1 (tk_attached _ _ (st_tracks _ _ Hst))).
  - rewrite (so_datamesh _ _ Hs), Hdm, (buildContexts_datamesh _ _ _ _ _ _ Hg).
    destruct (ao_single _ Hok) as [?|Hu]; [by left|right].
    assert (Hp : ∀ j, valid_id j → Contains (pot (e_g e)) j = true → potential rv j).
    { intros j Hj [(rc & Hrc & Ha & <-)|?]%(newEngine_pot _ _ _ _ _ _ _ _ j Hj He); [left|by right].
      unfold isAttached in Ha. destruct (memberOf rc) as [m|] eqn:Em; [|done].
      destruct (HM rc m Hrc Em) as (m0 & ? & ? & Ea). exists m0. by rewrite <-Ea. }
    destruct (decide (Len (pot (e_g e)) ≤ 1)) as [|Hlt]; [done|].
    destruct (proj1 (Len_pos (pot (e_g e)))) as (j0 & Hj0 & Hc0); [lia|].
    apply (Len_single _ j0). intros j Hj Hc. apply Hu; by apply Hp.
  - intros rc Hrc Ha. pose proof (context_valid _ _ HC Hrc) as Hv. apply (newEngine_pot _ _ _ _ _ _ _ _ _ Hv He).
    left. by exists rc.
  - intros [a t] rc Hx Hd Hrc Hid. simpl in Hd, Hid. unfold isAttached.
    destruct (memberOf rc) as [m|] eqn:Em; [|done]. destruct (HM rc m Hrc Em) as (m0 & Hm0 & Hid0 & ->).
    apply (ao_detach _ Hok t); [|done|done|congruence]. rewrite <-(st_active _ _ Hst).
    apply list_elem_of_fmap. by exists (a, t).
Qed.

(** ** From the engine to the stored volume *)
Lemma name_ok_gid t : name_ok (t_ReplicaName t) → valid_id (gid t).
Proof. unfold gid. intros [->|?]; [|done]. by vm_compute. Qed.
Lemma safe_attachments e rv : safe e → transitions_ok (snd <$> active e) →
  rv_DatameshTransitions rv = snd <$> active e → rv_Multiattach rv = dm_multiattach (g_datamesh (e_g e)) →
  (∀ m, m ∈ rv_Members rv → ∃ rc, rc ∈ g_allReplicas (e_g e) ∧ memberOf rc = Some m) → attachments_ok rv.
Proof.
  intros [_ [_ _ [Htk _] [C M W S V D]]] Ht Ets Em Hm. split.
  - by rewrite Ets.
  - apply Forall_forall. intros m Hin. destruct (Hm m Hin) as (rc & Hrc & E).
    destruct (M rc m Hrc E) as (_ & -> & ?). split; [by eapply context_valid|done].
  - rewrite Em. destruct S as [S|S]; [by left|right].
    assert (Hp : ∀ j, potential rv j → valid_id j ∧ Contains (pot (e_g e)) j = true).
    { intros j [(m & Hin & Ha & <-)|(t & Hin & Hg & <-)].
      - destruct (Hm m Hin) as (rc & Hrc & E). destruct (M rc m Hrc E) as (_ & -> & _).
        split; [by eapply context_valid|]. apply V; [done|]. unfold isAttached. by rewrite E.
      - rewrite Ets in Hin.
        assert (Hv : valid_id (gid t)) by (eapply name_ok_gid, (Forall_elem _ _ _ (to_names _ Ht)), Hin).
        split; [done|]. apply list_elem_of_fmap in Hin as (x & -> & Hx).
        eapply (proj2 (tk_attached _ _ Htk)); [done|exact Hx|by apply bool_decide_eq_true|done]. }
    intros i j [Vi Ci]%Hp [Vj Cj]%Hp. by eapply Len_unique.
  - intros t m Hin Hd Hinm Hid. rewrite Ets in Hin. apply list_elem_of_fmap in Hin as (x & -> & Hx).
    destruct (Hm m Hinm) as (rc & Hrc & E). destruct (M rc m Hrc E) as (_ & Hid' & _).
    assert (isAttached rc = false) as Hf by (apply (D x); [done|done|done|congruence]).
    unfold isAttached in Hf. by rewrite E in Hf.
Qed.
Lemma sublist_attachments rv rv' : sublist (rv_DatameshTransitions rv') (rv_DatameshTransitions rv) →
  rv_Members rv' = rv_Members rv → rv_Multiattach rv' = rv_Multiattach rv → transitions_ok (rv_DatameshTransitions rv') →
  attachments_ok rv → attachments_ok rv'.
Proof.
  intros Hsub Em Ema Ht [_ O2 O3 O4].
  assert (Hin : ∀ t, t ∈ rv_DatameshTransitions rv' → t ∈ rv_DatameshTransitions rv).
  { intros t H. apply sublist_submseteq in Hsub. by eapply elem_of_submseteq. }
  split; [done|by rewrite Em| |].
  - rewrite Ema. destruct O3 as [?|O3]; [by left|right].
    assert (Hp : ∀ j, potential rv' j → potential rv j).
    { intros j [H|(t & H & ?)]; [left; by rewrite <-Em|right; exists t; auto]. }
    intros i j Hi Hj. apply O3; auto.
  - intros t m H1 H2 H3. rewrite Em in H3. by apply O4; [apply Hin|..].
Qed.

(** C3: single attachment.  If, unless multiattach is enabled, at most one replica is attached or has
    an Attach or Detach transition (and no replica being detached is still flagged attached), then
    the same holds of the volume after any reconciliation cycle, whatever the requests, attachments
    and replica states are. *)
Theorem ProcessTransitions_attachments_ok (clock : nat → Time) (rv : ReplicatedVolume) (rsp : option RSP)
    (rvrs : list ReplicatedVolumeReplica) (rvas : list ReplicatedVolumeAttachment)
    (ff : FeatureFlags) (spare : list Transition) :
  (∀ r, r ∈ rvrs → rvr_Name r ≠ "") → attachments_ok rv →
  okf (reg ← BuildRegistry None; ProcessTransitions clock reg rv rsp rvrs rvas ff spare)
    (λ res, attachments_ok res.2).
Proof.
  intros N1 Hok. eapply okf_mono; [apply ProcessTransitions_okf|]. intros [[changed ctxs] rv'].
  intros (z & e & ch & e' & base & n & e2 & He & HP & HF & Hts & _ & HW). cbn [snd].
  pose proof (newEngine_started _ _ _ _ _ _ _ _ He) as Hst.
  pose proof (newEngine_safe _ _ _ _ _ _ _ _ N1 Hok He) as Hsafe.
  pose proof (Process_safe clock e ch e' HP Hsafe) as Hsafe'.
  destruct (Process_started clock _ e ch e' Hst HP) as (_ & _ & _ & _ & Ht & _). specialize (Ht (ao_transitions _ Hok)).
  destruct (Finalize_started clock _ e ch e' Hst HP (to_names _ (ao_transitions _ Hok))) as (b & k & e3 & HF' & HS & _).
  rewrite HF in HF'. injection HF' as <- <- <-. rewrite HS in Hts.
  destruct (Finalize_slots e' base n e2 (proj1 Hsafe') HF) as [HsF _].
  destruct (newEngine_inv _ _ _ _ _ _ _ _ He) as (g & g1 & Hg & Hz & _ & Hs1 & _).
  destruct (zones_slots g) as (z' & g1' & Hz' & _ & _ & _ & Hdm & _ & _ & _ & Hsame). rewrite Hz in Hz'. injection Hz' as <- <-.
  assert (Hq : ch = false → quiet e e').
  { intros ->. exact (Process_false_quiet clock e e' (st_registry _ _ Hst) (st_tracker _ _ Hst) HP). }
  unfold writeback in HW. destruct (writebackRequestMessagesFromContexts _ _) as [rqc rqs].
  destruct (effective_layout.updateEffectiveLayout _ _) as [elc el]. injection HW as _ Hrv.
  destruct (ch || z) eqn:Ec.
  - apply (safe_attachments e'); [done|done|done| |].
    + rewrite Hrv. destruct ch; [simpl; by rewrite (so_datamesh _ _ HsF)|]. simpl.
      by rewrite (so_datamesh _ _ (qt_slots _ _ (Hq eq_refl))), (so_datamesh _ _ Hs1), Hdm, (buildContexts_datamesh _ _ _ _ _ _ Hg).
    + intros m Hm. assert (Em : rv_Members rv' = writebackMembersFromContexts (rv_Members rv) (e_g e2)) by (by rewrite Hrv).
      rewrite Em in Hm. apply writebackMembers_held in Hm as (j & rc & _ & Hrc%replicaAt_elem & E).
      * destruct (slots_lookup _ _ _ HsF Hrc) as (rc' & Hin & _ & Ek). exists rc'. split; [done|].
        unfold memberOf in *. by rewrite <-Ek.
      * refine (List.Forall_impl _ _ (ao_ids _ Hok)). by intros m' [].
  - apply orb_false_elim in Ec as [-> ->]. specialize (Hq eq_refl).
    apply (sublist_attachments rv); [| | | |done].
    + rewrite Hts, <-(st_active _ _ Hst). apply fmap_sublist.
      unfold active, cell. rewrite (qt_mem _ _ Hq). apply fmap_sublist, Hq.
    + rewrite Hrv. cbn [rv_Members set_status]. eapply (membersInPlace_same _ g); [by eapply buildContexts_stored|].
      rewrite (Hsame eq_refl) in Hs1. etrans; [exact Hs1|]. etrans; [apply Hq|exact HsF].
    + by rewrite Hrv.
    + by rewrite Hts.
Qed.
End cycle.
