(* ===== verification/QuorumTheory.v ===== *)
(** * Theorems on quorum

    Quorums are majorities; a quorum change ends in the correct values, after which its dispatcher is
    quiet. *)

From Stdlib Require Import ZArith Lia String.
From stdpp Require Import base list numbers strings option relations.
From S2P Require Import Prelude IdSet DrbdSize Api Dmte DmteSteps Context Helpers Guards Network Quorum.
From S2P Require Import Datamesh Plans.
Import idset v1alpha1 dmte datamesh helpers guards network quorum process.

Set Default Proof Using "Type".

Section quorum_theory.
Context `{K : K8s}.
Implicit Types (g : globalContext) (rc : ReplicaContext).

(** ** Majorities *)
Lemma countb_union {A} (f h : A → bool) l :
  countb (λ x, f x || h x) l + countb (λ x, f x && h x) l = countb f l + countb h l.
Proof.
  induction l as [|x l IH]; [done|]. rewrite !countb_cons. destruct (f x), (h x); simpl; lia.
Qed.
Lemma Len_union s t : Len (Union s t) + Len (Intersect s t) = Len s + Len t.
Proof.
  rewrite !Len_countb, <-(countb_union (Contains s) (Contains t)). f_equal; apply countb_ext; intros x Hx%elem_of_ids;
    [by apply Contains_Union|by apply Contains_Intersect].
Qed.
Lemma voterCount_range g : 0 ≤ voterCount g < 256.
Proof. apply wrap8_range. Qed.
Lemma computeTargetQ_small v : 0 ≤ v < 256 → computeTargetQ v = v / 2 + 1.
Proof.
  intros H. unfold computeTargetQ. apply wrap8_small. pose proof (Z.div_pos v 2). pose proof (Z.div_lt_upper_bound v 2 128). lia.
Qed.

(** Quorums intersect.  With the quorum the controller computes for a set of voters, two groups
    of voters that both reach quorum have a replica in common, so they cannot both proceed when the
    network splits them; and the whole set reaches quorum. *)
Theorem computeTargetQ_intersects (voters s t : IDSet) :
  wf_set voters → wf_set s → wf_set t → IsSubsetOf s voters = true → IsSubsetOf t voters = true →
  computeTargetQ (Len voters) ≤ Len s → computeTargetQ (Len voters) ≤ Len t → Overlaps s t = true.
Proof.
  intros Hv Hs Ht S1 S2 Q1 Q2. pose proof (Len_nonneg voters) as HL.
  rewrite computeTargetQ_small in Q1, Q2 by lia. pose proof (Z.mod_pos_bound (Len voters) 2 ltac:(lia)).
  pose proof (Z.div_mod (Len voters) 2 ltac:(lia)).
  assert (Hsub : ∀ x y, IsSubsetOf x y = true → ∀ j, valid_id j → Contains x j = true → Contains y j = true).
  { intros x y Hd%Z.eqb_eq j Hj Hc. pose proof (Contains_empty j Hj) as He.
    change (Z.ldiff x y) with (Difference x y) in Hd.
    rewrite <-Hd, Contains_Difference, Hc in He by done. simpl in He. by apply negb_false_iff in He. }
  assert (HU : Len (Union s t) ≤ Len voters).
  { apply Len_mono. intros j Hj. rewrite Contains_Union by done. intros [Hc|Hc]%orb_true_iff; [exact (Hsub s voters S1 j Hj Hc)|exact (Hsub t voters S2 j Hj Hc)]. }
  pose proof (Len_union s t). assert (0 < Len (Intersect s t)) by lia.
  unfold Overlaps. apply negb_true_iff, Z.eqb_neq. intros E. change (Z.land s t) with (Intersect s t) in E.
  rewrite E in *. rewrite (proj2 (Len_zero 0 wf_empty)) in * by done. lia.
Qed.
Lemma computeTargetQ_intersects_witness :
  computeTargetQ (Len 31) = 3 ∧ Overlaps 7 28 = true.
Proof.
  split; [vm_compute; reflexivity|].
  apply (computeTargetQ_intersects 31 7 28); vm_compute; done.
Defined.

(** ** Quorum changes *)

(** The applies of a plan's steps, one after the other. *)
Fixpoint run_steps (ss : list (step globalContext nat)) (mem : tmem) g (rctx : option nat) : outcome globalContext :=
  match ss with
  | [] => Ok g
  | s :: ss => '(_, g) ← step_apply s mem g rctx; run_steps ss mem g rctx
  end.

Definition quorumOf g : Z * Z := (dm_quorum (g_datamesh g), dm_quorumMinimumRedundancy (g_datamesh g)).
Lemma computeCorrectQuorum_stable g g' : g_in g' = g_in g → g_allReplicas g' = g_allReplicas g →
  (quorumOf g').2 = (quorumOf g).2 ∨ (quorumOf g').2 = (computeCorrectQuorum g).2 →
  computeCorrectQuorum g' = computeCorrectQuorum g.
Proof.
  unfold computeCorrectQuorum, voterCount, upToDateDiskfulCount, quorumOf. cbn [fst snd]. intros -> -> Hq.
  destruct Hq as [-> | ->]; [done|]. f_equal.
  set (t := QuorumMinimumRedundancy _). set (u := wrap8 (countb isUpToDateDiskful _)).
  set (c := dm_quorumMinimumRedundancy _).
  destruct (Z.leb_spec t c); [by rewrite Z.leb_refl|]. destruct (Z.leb_spec t (Z.max c (Z.min t u))); lia.
Qed.
Lemma setCorrectQ_spec mem g : ∃ c g', setCorrectQ mem g = Ok (c, g') ∧ g_in g' = g_in g ∧
  g_allReplicas g' = g_allReplicas g ∧ quorumOf g' = ((computeCorrectQuorum g).1, (quorumOf g).2).
Proof.
  unfold setCorrectQ, SetChanged. destruct (computeCorrectQuorum g) as [q qmr]. case_decide as E; eexists _, _;
    (split; [done|]); unfold quorumOf; simpl; by rewrite ?E.
Qed.
Lemma setCorrectQMR_spec mem g : ∃ c g', setCorrectQMR mem g = Ok (c, g') ∧ g_in g' = g_in g ∧
  g_allReplicas g' = g_allReplicas g ∧ quorumOf g' = ((quorumOf g).1, (computeCorrectQuorum g).2).
Proof.
  unfold setCorrectQMR, SetChanged. destruct (computeCorrectQuorum g) as [q qmr]. case_decide as E; eexists _, _;
    (split; [done|]); unfold quorumOf; simpl; by rewrite ?E.
Qed.
Lemma updateBaselineGMDR_spec mem g : ∃ c g', updateBaselineGMDR mem g = Ok (c, g') ∧ g_in g' = g_in g ∧
  g_allReplicas g' = g_allReplicas g ∧ quorumOf g' = quorumOf g.
Proof.
  unfold updateBaselineGMDR. destruct (SetChanged _ _) as [c v]. by eexists _, _.
Qed.

(** Global applies, composed: each keeps the inputs, and sets the quorum to correct values. *)
Definition sets_quorum (doQ doQMR : bool) (f : GlobalApplyFunc globalContext) : Prop :=
  ∀ mem g, ∃ c g', f mem g = Ok (c, g') ∧ g_in g' = g_in g ∧ g_allReplicas g' = g_allReplicas g ∧
    quorumOf g' = (if doQ then (computeCorrectQuorum g).1 else (quorumOf g).1,
                   if doQMR then (computeCorrectQuorum g).2 else (quorumOf g).2).
Lemma sets_q : sets_quorum true false setCorrectQ.
Proof. intros mem g. apply setCorrectQ_spec. Qed.
Lemma sets_qmr : sets_quorum false true setCorrectQMR.
Proof. intros mem g. apply setCorrectQMR_spec. Qed.
Lemma sets_qmr_baseline : sets_quorum false true (ComposeGlobalApply [setCorrectQMR; updateBaselineGMDR]).
Proof.
  intros mem g. destruct (setCorrectQMR_spec mem g) as (c & g1 & E1 & A1 & B1 & C1).
  destruct (updateBaselineGMDR_spec mem g1) as (c2 & g2 & E2 & A2 & B2 & C2).
  eexists _, g2. cbn [ComposeGlobalApply]. rewrite E1. cbn [mbind outcome_bind]. rewrite E2.
  split; [done|]. split_and!; congruence.
Qed.
(** Both values set, in either order. *)
Lemma sets_both b f1 f2 mem g s1 s2 : sets_quorum b (negb b) f1 → sets_quorum (negb b) b f2 →
  st_scope s1 = GlobalScope → st_scope s2 = GlobalScope →
  st_globalApply s1 = Some f1 → st_globalApply s2 = Some f2 →
  ∃ g', run_steps [s1; s2] mem g None = Ok g' ∧ g_allReplicas g' = g_allReplicas g ∧
    quorumOf g' = computeCorrectQuorum g ∧ computeCorrectQuorum g' = computeCorrectQuorum g.
Proof.
  intros H1 H2 Hs1 Hs2 E1 E2. destruct (H1 mem g) as (c1 & g1 & F1 & A1 & B1 & Q1).
  destruct (H2 mem g1) as (c2 & g2 & F2 & A2 & B2 & Q2). exists g2.
  cbn [run_steps]. unfold step_apply. rewrite Hs1, Hs2, E1, E2. cbn [deref mbind outcome_bind].
  rewrite F1. cbn [mbind outcome_bind]. rewrite F2. cbn [mbind outcome_bind].
  assert (HC1 : computeCorrectQuorum g1 = computeCorrectQuorum g).
  { apply computeCorrectQuorum_stable; [done|done|]. rewrite Q1. destruct b; [by left|by right]. }
  rewrite HC1, Q1 in Q2.
  assert (HQ : quorumOf g2 = computeCorrectQuorum g).
  { rewrite Q2. destruct b; cbn [negb fst snd]; destruct (computeCorrectQuorum g); done. }
  split_and!; [done|congruence|done|]. apply computeCorrectQuorum_stable; [congruence|congruence|].
  right. by rewrite HQ.
Qed.

Lemma quorumDispatcher_quiet mem g : quorumOf g = computeCorrectQuorum g → quorumDispatcher mem g = Ok Done.
Proof.
  unfold quorumDispatcher, quorumOf. intros <-. rewrite !Z.eqb_refl. by destruct (0 <? _).
Qed.

(** A quorum change settles.  Whenever the dispatcher asks for a ChangeQuorum plan, that plan is
    registered, its steps run without error, they leave quorum and quorum minimum redundancy at the
    correct values for the current voters and configuration, and the dispatcher then asks for
    nothing more. *)
Theorem changeQuorum_settles (mem : tmem) (g : globalContext) (d : DispatchDecision nat)
    (k : DispatchFunc globalContext nat) :
  quorumDispatcher mem g = Ok (Yield d k) →
  ∃ p g', reg_get theRegistry (d_transitionType d) (d_planID d) = Some p ∧ pl_scope p = GlobalScope ∧
    run_steps (pl_steps p) mem g None = Ok g' ∧ g_allReplicas g' = g_allReplicas g ∧
    quorumOf g' = computeCorrectQuorum g ∧ quorumDispatcher mem g' = Ok Done.
Proof.
  unfold quorumDispatcher. intros H. destruct (0 <? _); [done|].
  destruct (computeCorrectQuorum g) as [q qmr] eqn:Ec. destruct (_ && _); [done|]. destruct (_ && _); [done|].
  injection H as <- _. simpl.
  assert (Hfin : ∀ id, (∃ p, reg_get theRegistry ChangeQuorum id = Some p ∧ pl_scope p = GlobalScope ∧
      ∃ g', run_steps (pl_steps p) mem g None = Ok g' ∧ g_allReplicas g' = g_allReplicas g ∧
      quorumOf g' = computeCorrectQuorum g ∧ computeCorrectQuorum g' = computeCorrectQuorum g) →
    ∃ p g', reg_get theRegistry ChangeQuorum id = Some p ∧ pl_scope p = GlobalScope ∧
      run_steps (pl_steps p) mem g None = Ok g' ∧ g_allReplicas g' = g_allReplicas g ∧
      quorumOf g' = (q, qmr) ∧ quorumDispatcher mem g' = Ok Done).
  { intros id (p & Hp & Hs & g' & H1 & H2 & H3 & H4). exists p, g'. rewrite <-Ec. split_and!; try done.
    apply quorumDispatcher_quiet. congruence. }
  apply Hfin. unfold selectQuorumPlan. destruct (_ && _); [|destruct (_ && _); [|destruct (_ || _)]];
    (eexists; split; [reflexivity|]; split; [reflexivity|]).
  - by apply (sets_both true setCorrectQ setCorrectQMR); [apply sets_q|apply sets_qmr|..].
  - by apply (sets_both true setCorrectQ (ComposeGlobalApply [setCorrectQMR; updateBaselineGMDR]));
      [apply sets_q|apply sets_qmr_baseline|..].
  - by apply (sets_both true setCorrectQ setCorrectQMR); [apply sets_q|apply sets_qmr|..].
  - by apply (sets_both false (ComposeGlobalApply [setCorrectQMR; updateBaselineGMDR]) setCorrectQ);
      [apply sets_qmr_baseline|apply sets_q|..].
Qed.
End quorum_theory.
