(* ===== verification/MembershipTheory.v ===== *)
(** * Theorems on membership plans

    Each membership plan is reified into the abstract operations its applies perform on the subject's
    member type, the number of voters, the quorum and the quorum minimum redundancy ([aop], [arun]).
    The applies simulate them ([simR], [simS]), so what a plan does to the quorum is decided on the
    abstract state. *)

From Stdlib Require Import ZArith Lia String Bool.
From stdpp Require Import base list numbers strings option relations.
From S2P Require Import Prelude IdSet DrbdSize Api Dmte DmteSteps Context Helpers Guards Network Attachment Membership.
From S2P Require Import Datamesh Plans QuorumTheory.
Import idset v1alpha1 dmte datamesh helpers guards network membership process.

Set Default Proof Using "Type".

(** ** Abstract operations *)
Record astate := {
  a_type : option DatameshMemberType;  (* of the subject *)
  a_voters : Z; a_q : Z; a_qmr : Z;
  a_hasRVR : bool; a_hasRequest : bool;
}.
Inductive aop :=
| ACreate (ty : DatameshMemberType) | ASetType (ty : DatameshMemberType)
| ABacking | AClear | ARemove | ARaiseQ | ALowerQ | ARaiseQMR | ALowerQMR | ABaseline.
Definition votes (o : option DatameshMemberType) : Z :=
  Z.b2z (match o with Some ty => IsVoter ty | None => false end).
Definition retype (o : option DatameshMemberType) (a : astate) : astate :=
  {| a_type := o; a_voters := a_voters a - votes (a_type a) + votes o; a_q := a_q a; a_qmr := a_qmr a;
     a_hasRVR := a_hasRVR a; a_hasRequest := a_hasRequest a |}.
Definition requorum (q qmr : Z) (a : astate) : astate :=
  {| a_type := a_type a; a_voters := a_voters a; a_q := q; a_qmr := qmr;
     a_hasRVR := a_hasRVR a; a_hasRequest := a_hasRequest a |}.
(** [None] where the code dereferences a nil pointer. *)
Definition astep (o : aop) (a : astate) : option astate :=
  match o with
  | ACreate ty => if a_hasRVR a then Some (retype (Some ty) a) else None
  | ASetType ty => match a_type a with Some _ => Some (retype (Some ty) a) | None => None end
  | ABacking => match a_type a with Some _ => if a_hasRequest a then Some a else None | None => None end
  | AClear => match a_type a with Some _ => Some a | None => None end
  | ARemove => Some (retype None a)
  | ARaiseQ => Some (requorum (a_q a +b 1) (a_qmr a) a)
  | ALowerQ => Some (requorum (a_q a -b 1) (a_qmr a) a)
  | ARaiseQMR => Some (requorum (a_q a) (a_qmr a +b 1) a)
  | ALowerQMR => Some (requorum (a_q a) (a_qmr a -b 1) a)
  | ABaseline => Some a
  end.
Fixpoint arun (ops : list aop) (a : astate) : option astate :=
  match ops with [] => Some a | o :: ops => a ← astep o a; arun ops a end.
Lemma arun_app l k a : arun (l ++ k) a = (b ← arun l a; arun k b).
Proof. revert a. induction l as [|o l IH]; intros a; simpl; [done|]. destruct (astep o a); simpl; [apply IH|done]. Qed.

Section simulation.
Context `{K : K8s}.
Implicit Types (g : globalContext) (rc : ReplicaContext) (a : astate).

(** The abstract state of a context, seen from the subject [i]. *)
Record absOf g (i : nat) a : Prop := {
  ab_subject : ∃ rc, g_allReplicas g !! i = Some rc ∧ a_type a = m_Type <$> memberOf rc ∧
    valid_id (rc_id rc) ∧ (a_hasRVR a = true → is_Some (rc_rvr rc)) ∧
    (a_hasRequest a = true → is_Some (rc_membershipRequest rc));
  ab_index : length (g_replicas g) = 32%nat;
  ab_voters : a_voters a = countb (hasType IsVoter) (g_allReplicas g);
  ab_q : a_q a = dm_quorum (g_datamesh g);
  ab_qmr : a_qmr a = dm_quorumMinimumRedundancy (g_datamesh g);
}.
Definition simR (f : ReplicaApplyFunc globalContext nat) (ops : list aop) : Prop :=
  ∀ mem g i a a', absOf g i a → arun ops a = Some a' →
    ∃ c g', f mem g (Some i) = Ok (c, g') ∧ absOf g' i a'.
Definition simS (s : step globalContext nat) (ops : list aop) : Prop :=
  ∀ mem g i a a', absOf g i a → arun ops a = Some a' →
    ∃ c g', step_apply s mem g (Some i) = Ok (c, g') ∧ absOf g' i a'.

Lemma votes_rc rc : Z.b2z (hasType IsVoter rc) = votes (m_Type <$> memberOf rc).
Proof. unfold hasType, votes. by destruct (memberOf rc). Qed.
(** Replacing the subject's member. *)
Lemma absOf_member g i a rc o f : absOf g i a → g_allReplicas g !! i = Some rc →
  m_Type <$> memberOf (f rc) = o → rc_id (f rc) = rc_id rc → rc_rvr (f rc) = rc_rvr rc →
  rc_membershipRequest (f rc) = rc_membershipRequest rc → absOf (upd_rc i f g) i (retype o a).
Proof.
  intros [(rc0 & Hrc & Ht & Hv & Hr & Hq) Hl Hn Hqu Hqmr] Hi Ho E1 E2 E3. assert (rc0 = rc) as -> by congruence.
  split; simpl; [|done| |done|done].
  - exists (f rc). rewrite list_lookup_alter_eq, Hrc, E1, E2, E3. by split_and!.
  - assert (alter f i (g_allReplicas g) = <[i := f rc]> (g_allReplicas g)) as ->.
    { apply list_eq. intros j. destruct (decide (i = j)) as [->|Hne].
      - rewrite list_lookup_alter_eq, Hrc, list_lookup_insert_eq by (by eapply lookup_lt_Some). done.
      - by rewrite list_lookup_alter_ne, list_lookup_insert_ne. }
    rewrite (countb_insert _ _ _ _ _ Hrc), !votes_rc, Ho, Ht, <-Hn. done.
Qed.
Lemma retype_same a : retype (a_type a) a = a.
Proof. unfold retype. destruct a. simpl. f_equal. lia. Qed.
(** A callback that rewrites the member. *)
Lemma sim_on_member (h : DatameshMember → bool * DatameshMember) mem g i a ty ty' : absOf g i a →
  a_type a = Some ty → (∀ m, m_Type m = ty → m_Type (h m).2 = ty') → (∀ m, (h m).1 = false → (h m).2 = m) →
  ∃ c g', on_member h mem g (Some i) = Ok (c, g') ∧ absOf g' i (retype (Some ty') a).
Proof.
  intros Ha Hty Hh Hsame. pose proof Ha as [(rc & Hrc & Ht & _) _ _ _ _]. unfold on_member. simpl.
  unfold index. rewrite Hrc. simpl. rewrite Hty in Ht. unfold memberOf in Ht.
  destruct (rc_member rc) as [[m o]|] eqn:Em; [|done]. simpl in Ht. injection Ht as Ety.
  unfold memberOf. rewrite Em. simpl. specialize (Hh m (eq_sym Ety)). specialize (Hsame m). destruct (h m) as [c m'] eqn:E.
  simpl in Hh, Hsame. exists c. destruct c; (eexists; split; [done|]).
  - eapply absOf_member; [done|done| |done|done|done]. unfold mutate_member, memberOf. simpl. rewrite Em. simpl.
    by rewrite Hh.
  - rewrite (Hsame eq_refl) in Hh. rewrite <-Hh, <-Ety, <-Hty, retype_same. done.
Qed.

Lemma sim_setType ty : simR (setType ty) [ASetType ty].
Proof.
  intros mem g i a a' Ha H. simpl in H. destruct (a_type a) as [ty0|] eqn:E; [|done]. simpl in H. injection H as <-.
  apply (sim_on_member _ _ _ _ _ ty0); [done|done|..]; intros m; unfold SetChanged; case_decide as Ed; simpl; try done.
  intros _. by destruct m.
Qed.
Lemma sim_clear : simR clearBackingVolume [AClear].
Proof.
  intros mem g i a a' Ha H. simpl in H. destruct (a_type a) as [ty0|] eqn:E; [|done]. simpl in H. injection H as <-.
  rewrite <-(retype_same a), E.
  apply (sim_on_member _ _ _ _ _ ty0); [done|done|..]; intros m; unfold SetChanged; repeat case_decide; simpl; try done.
  intros _. by destruct m.
Qed.
Lemma sim_backing : simR setBackingVolumeFromRequest [ABacking].
Proof.
  intros mem g i a a' Ha H. simpl in H. destruct (a_type a) as [ty0|] eqn:E; [|done].
  destruct (a_hasRequest a) eqn:Er; [|done]. simpl in H. injection H as <-.
  pose proof Ha as [(rc & Hrc & Ht & _ & _ & Hq) _ _ _ _]. destruct (Hq Er) as [[rq j] Hrq].
  unfold setBackingVolumeFromRequest. simpl. unfold index. rewrite Hrc. simpl.
  rewrite E in Ht. destruct (memberOf rc) as [m|]; [|done]. simpl. rewrite Hrq. simpl.
  rewrite <-(retype_same a), E.
  apply (sim_on_member _ _ _ _ _ ty0); [done|done|..]; intros m'; unfold SetChanged; repeat case_decide; simpl; try done.
  intros _. by destruct m'.
Qed.
Lemma sim_create ty : simR (createMember ty) [ACreate ty].
Proof.
  intros mem g i a a' Ha H. simpl in H. destruct (a_hasRVR a) eqn:E; [|done]. simpl in H. injection H as <-.
  pose proof Ha as [(rc & Hrc & Ht & _ & Hr & _) _ _ _ _]. destruct (Hr E) as [rvr Hrvr].
  unfold createMember. simpl. unfold index. rewrite Hrc. simpl. rewrite Hrvr. simpl. eexists _, _. split; [done|].
  by eapply absOf_member.
Qed.
Lemma sim_remove : simR removeMember [ARemove].
Proof.
  intros mem g i a a' Ha H. injection H as <-. pose proof Ha as [(rc & Hrc & Ht & Hv & _) Hl _ _ _].
  unfold removeMember. simpl. unfold index. rewrite Hrc. simpl.
  assert (Hm : absOf (upd_rc i (set_rc_member None) g) i (retype None a)) by (by eapply absOf_member).
  destruct (rc_rvr rc); [by eexists _, _|].
  destruct (lookup_lt_is_Some_2 (g_replicas g) (Z.to_nat (rc_id rc))) as [x Hx]; [rewrite Hl; unfold valid_id in Hv; lia|].
  rewrite Hx. simpl. eexists _, _. split; [done|]. destruct Hm as [H1 H2 H3 H4 H5]. split; try done.
  simpl. by rewrite length_insert.
Qed.

(** Global applies. *)
Definition simG (f : GlobalApplyFunc globalContext) (ops : list aop) : Prop :=
  ∀ mem g i a a', absOf g i a → arun ops a = Some a' → ∃ c g', f mem g = Ok (c, g') ∧ absOf g' i a'.
Ltac sim_quorum :=
  intros mem g i a a' Ha H; injection H as <-; eexists _, _; (split; [done|]);
  pose proof Ha as [_ _ _ -> ->]; destruct Ha; by split.
Lemma sim_raiseQ : simG raiseQ [ARaiseQ].
Proof. sim_quorum. Qed.
Lemma sim_lowerQ : simG lowerQ [ALowerQ].
Proof. sim_quorum. Qed.
Lemma sim_raiseQMR : simG raiseQMR [ARaiseQMR].
Proof. sim_quorum. Qed.
Lemma sim_lowerQMR : simG lowerQMR [ALowerQMR].
Proof. sim_quorum. Qed.
Lemma sim_baseline : simG updateBaselineGMDR [ABaseline].
Proof.
  intros mem g i a a' Ha H. injection H as <-. unfold updateBaselineGMDR. destruct (SetChanged _ _) as [c v].
  eexists _, _. split; [done|]. destruct Ha. by split.
Qed.

(** Composition. *)
Lemma arun_split l k a a' : arun (l ++ k) a = Some a' → ∃ b, arun l a = Some b ∧ arun k b = Some a'.
Proof. rewrite arun_app. destruct (arun l a) as [b|]; simpl; [by exists b|done]. Qed.
Lemma sim_as f ops : simG f ops → simR (asReplicaApply f) ops.
Proof. intros H mem g i a a'. apply H. Qed.
Lemma sim_composeR fs opss : Forall2 simR fs opss → simR (ComposeReplicaApply fs) (concat opss).
Proof.
  induction 1 as [|f ops fs opss Hf _ IH]; intros mem g i a a' Ha H; [injection H as <-; by eexists _, _|].
  apply arun_split in H as (b & H1 & H2). destruct (Hf mem g i a b Ha H1) as (c1 & g1 & E1 & A1).
  destruct (IH mem g1 i b a' A1 H2) as (c2 & g2 & E2 & A2). cbn [ComposeReplicaApply]. rewrite E1.
  cbn [mbind outcome_bind]. rewrite E2. by eexists _, _.
Qed.
Lemma sim_composeG fs opss : Forall2 simG fs opss → simG (ComposeGlobalApply fs) (concat opss).
Proof.
  induction 1 as [|f ops fs opss Hf _ IH]; intros mem g i a a' Ha H; [injection H as <-; by eexists _, _|].
  apply arun_split in H as (b & H1 & H2). destruct (Hf mem g i a b Ha H1) as (c1 & g1 & E1 & A1).
  destruct (IH mem g1 i b a' A1 H2) as (c2 & g2 & E2 & A2). cbn [ComposeGlobalApply]. rewrite E1.
  cbn [mbind outcome_bind]. rewrite E2. by eexists _, _.
Qed.
Lemma sim_stepR s f ops : st_scope s = ReplicaScope → st_replicaApply s = Some f → simR f ops → simS s ops.
Proof. intros Hs Hf H mem g i a a' Ha Hr. unfold step_apply. rewrite Hs, Hf. simpl. by eapply H. Qed.
Lemma sim_stepG s f ops : st_scope s = GlobalScope → st_globalApply s = Some f → simG f ops → simS s ops.
Proof. intros Hs Hf H mem g i a a' Ha Hr. unfold step_apply. rewrite Hs, Hf. simpl. by eapply H. Qed.
Lemma sim_run ss opss mem g i a a' : Forall2 simS ss opss → absOf g i a → arun (concat opss) a = Some a' →
  ∃ g', run_steps ss mem g (Some i) = Ok g' ∧ absOf g' i a'.
Proof.
  intros H. revert g a. induction H as [|s ops ss opss Hs _ IH]; intros g a Ha Hr; [injection Hr as <-; by eexists|].
  apply arun_split in Hr as (b & H1 & H2). destruct (Hs mem g i a b Ha H1) as (c & g1 & E1 & A1).
  destruct (IH g1 b A1 H2) as (g2 & E2 & A2). exists g2. cbn [run_steps]. rewrite E1. by cbn [mbind outcome_bind].
Qed.
End simulation.

(** Reification. *)
Ltac simulate :=
  lazymatch goal with
  | |- Forall2 _ [] _ => apply Forall2_nil_2
  | |- Forall2 _ (_ :: _) _ => apply Forall2_cons_2; simulate
  | |- simS _ _ =>
      first [eapply sim_stepR; [reflexivity|reflexivity|] | eapply sim_stepG; [reflexivity|reflexivity|]]; simulate
  | |- simR (ComposeReplicaApply _) _ => eapply sim_composeR; simulate
  | |- simG (ComposeGlobalApply _) _ => eapply sim_composeG; simulate
  | |- simR (asReplicaApply _) _ => apply sim_as; simulate
  | |- simR (createMember _) _ => apply sim_create
  | |- simR (setType _) _ => apply sim_setType
  | |- simR clearBackingVolume _ => apply sim_clear
  | |- simR setBackingVolumeFromRequest _ => apply sim_backing
  | |- simR removeMember _ => apply sim_remove
  | |- simG raiseQ _ => apply sim_raiseQ
  | |- simG lowerQ _ => apply sim_lowerQ
  | |- simG raiseQMR _ => apply sim_raiseQMR
  | |- simG lowerQMR _ => apply sim_lowerQMR
  | |- simG updateBaselineGMDR _ => apply sim_baseline
  end.

(** ** What the plans do *)
Definition majority (a : astate) : Prop := a_q a = a_voters a / 2 + 1 ∧ a_voters a < 102.
(** [P] holds before, between and after the steps. *)
Fixpoint always (P : astate → Prop) (opss : list (list aop)) (Q : astate → Prop) (a : astate) : Prop :=
  P a ∧ match opss with
        | [] => Q a
        | ops :: opss => ∃ a', arun ops a = Some a' ∧ always P opss Q a'
        end.
(** Where a plan of a type is meant to lead. *)
Definition targetType (ty : TransitionType) (rq : option DatameshReplicaRequest) : option DatameshMemberType :=
  match ty with
  | AddReplica | ChangeReplicaType => (λ r, MemberTypeOfReplicaType (mr_Type (rq_Request r))) <$> rq
  | _ => None
  end.

Section plans.
Context `{K : K8s}.
Implicit Types (g : globalContext) (rc : ReplicaContext) (a : astate).

Record starts g rc (ty : TransitionType) a : Prop := {
  sa_type : a_type a = m_Type <$> memberOf rc;
  sa_rvr : ty = AddReplica → a_hasRVR a = true;
  sa_request : is_Some (rc_membershipRequest rc) → a_hasRequest a = true;
  sa_bound : votes (a_type a) ≤ a_voters a < 100;
  sa_voters : a_voters a = voterCount g;
  sa_qmr : a_qmr a = dm_quorumMinimumRedundancy (g_datamesh g);
  sa_qmr_range : 0 ≤ a_qmr a < 256;
  sa_target : 0 ≤ QuorumMinimumRedundancy (in_configuration (g_in g)) < 256;
}.
Definition ends g (ty : TransitionType) (rq : option DatameshReplicaRequest) a a' : Prop :=
  let target := QuorumMinimumRedundancy (in_configuration (g_in g)) in
  a_type a' = targetType ty rq ∧ Z.min (a_qmr a) target ≤ a_qmr a' ≤ Z.max (a_qmr a) target.
Definition plan_spec g rc ty id : Prop :=
  ∃ p opss, reg_get theRegistry ty id = Some p ∧ Forall2 simS (pl_steps p) opss ∧
    ∀ a, starts g rc ty a → majority a → always majority opss (ends g ty (fst <$> rc_membershipRequest rc) a) a.
End plans.

Ltac majority_solve :=
  unfold majority, odd8 in *; cbn [votes a_q a_voters a_type a_qmr requorum retype Z.b2z IsVoter] in *;
  unfold wrap8 in *; Z.to_euclidean_division_equations; lia.

(** One plan: reify its steps, run them on the abstract state, check the majority after each. *)
Ltac plan_walk :=
  eexists _, _; split; [reflexivity|]; split; [cbn [pl_steps snd]; simulate|];
  intros a [S1 S2 S3 S4 S5 S6 S7 S8] Hmaj;
  destruct a as [ty0 n q qmr rvr req];
  cbn [a_type a_hasRVR a_hasRequest a_voters a_qmr a_q fmap option_fmap option_map] in *;
  repeat match goal with
         | H : memberOf _ = _ |- _ => rewrite H in *
         | H : rc_membershipRequest _ = _ |- _ => rewrite H in *
         end;
  cbn [fmap option_fmap option_map] in *;
  try match goal with H : m_Type _ = _ |- _ => rewrite H in * end;
  try specialize (S2 eq_refl); try specialize (S3 ltac:(eauto)); subst;
  cbn [always concat app arun astep mbind option_bind a_hasRVR a_type a_hasRequest retype requorum a_voters a_q a_qmr];
  repeat (split; [majority_solve|]; try (eexists; split; [reflexivity|]));
  (split; [cbn [targetType fmap option_fmap option_map fst a_type retype]; try match goal with H : mr_Type _ = _ |- _ => rewrite H end; reflexivity|majority_solve]).

Section plans.
Context `{K : K8s}.
Implicit Types (g : globalContext) (rc : ReplicaContext) (a : astate).

Lemma add_plans g rc rq j id : rc_membershipRequest rc = Some (rq, j) → planAddReplica g rc rq = Select id →
  plan_spec g rc AddReplica id.
Proof.
  intros Hrq. unfold planAddReplica, isMember. destruct (rc_member rc) as [x|] eqn:Em; [done|].
  assert (Hm : memberOf rc = None) by (unfold memberOf; by rewrite Em). clear Em.
  destruct (mr_Type (rq_Request rq)) eqn:Ht; try done.
  1: unfold planAddDiskful; destruct (ShadowDiskful _), (odd8 (voterCount g)) eqn:Ho, (_ <? _) eqn:Hqmr.
  all: intros [= <-]; plan_walk.
Qed.
Lemma remove_plans g rc id : planRemoveReplica g rc = Select id → plan_spec g rc RemoveReplica id.
Proof.
  unfold planRemoveReplica. destruct (memberOf rc) as [m|] eqn:Hm; [|done].
  destruct (m_Type m) eqn:Hty; try done.
  all: try (unfold planRemoveDiskful; destruct (odd8 (voterCount g)) eqn:Ho, (_ <? _) eqn:Hqmr).
  all: intros [= <-]; plan_walk.
Qed.
Lemma force_plans g rc id : planForceRemoveReplica g rc = Select id → plan_spec g rc ForceRemoveReplica id.
Proof.
  unfold planForceRemoveReplica. destruct (memberOf rc) as [m|] eqn:Hm; [|done].
  destruct (m_Type m) eqn:Hty; try done.
  all: try (destruct (odd8 (voterCount g)) eqn:Ho).
  all: intros [= <-]; plan_walk.
Qed.
Lemma change_plans g rc rq j m id : rc_membershipRequest rc = Some (rq, j) → memberOf rc = Some m →
  changeTypeSwitch g (m_Type m) (mr_Type (rq_Request rq)) = Select id → plan_spec g rc ChangeReplicaType id.
Proof.
  intros Hrq Hm. unfold changeTypeSwitch.
  destruct (m_Type m) eqn:Hty, (mr_Type (rq_Request rq)) eqn:Ht; try (by destruct (String.eqb _ _)); try done.
  all: unfold planChangeAToD, planChangeDToA, planChangeTBToD, planChangeDToTB, planChangeSDToD, planChangeDToSD.
  all: try destruct (ShadowDiskful _); try (destruct (odd8 (voterCount g)) eqn:Ho).
  all: intros [= <-]; plan_walk.
Qed.
Lemma choice_plans mem g rc ty id : membershipChoice mem g rc = Ok (Some (ty, Select id)) → plan_spec g rc ty id.
Proof.
  unfold membershipChoice. destruct (String.eqb _ _); [done|].
  destruct (rc_membershipRequest rc) as [[rq j]|] eqn:Hrq.
  - destruct (mr_Operation (rq_Request rq)); try done.
    + intros [= <- H]. by eapply add_plans.
    + intros [= <- H]. by eapply remove_plans.
    + intros [= <- H]. by eapply force_plans.
    + intros H. bok H as c Hc. injection H as <- ->. unfold planChangeReplicaType in Hc.
      destruct (memberOf rc) as [m|] eqn:Hm; [|done]. bok Hc as ad _. destruct ad; [done|].
      injection Hc as Hc. by eapply change_plans.
  - destruct (rc_member rc), (rc_rvr rc); try done. intros [= <- H]. by eapply force_plans.
Qed.

Lemma always_prefix P opss Q a k : always P opss Q a → ∃ a', arun (concat (take k opss)) a = Some a' ∧ P a'.
Proof.
  revert a k. induction opss as [|ops opss IH]; intros a k [Hp H].
  - rewrite take_nil. by exists a.
  - destruct k as [|k]; [by exists a|]. destruct H as (b & Hb & H). destruct (IH b k H) as (a' & Ha & HP).
    exists a'. simpl. by rewrite arun_app, Hb.
Qed.
Lemma always_end P opss Q a : always P opss Q a → ∃ a', arun (concat opss) a = Some a' ∧ P a' ∧ Q a'.
Proof.
  revert a. induction opss as [|ops opss IH]; intros a [Hp H]; [by exists a|].
  destruct H as (b & Hb & H). destruct (IH b H) as (a' & Ha & HP). exists a'. simpl. by rewrite arun_app, Hb.
Qed.

(** The situation a membership plan is dispatched in. *)
Record dispatchable g (i : nat) rc (ty : TransitionType) : Prop := {
  dp_subject : g_allReplicas g !! i = Some rc;
  dp_id : valid_id (rc_id rc);
  dp_index : length (g_replicas g) = 32%nat;
  dp_rvr : ty = AddReplica → is_Some (rc_rvr rc);
  dp_few : countb (hasType IsVoter) (g_allReplicas g) < 100;
  dp_qmr : 0 ≤ dm_quorumMinimumRedundancy (g_datamesh g) < 256;
  dp_quorum : dm_quorum (g_datamesh g) = computeTargetQ (voterCount g);
}.
Definition astart g rc : astate :=
  {| a_type := m_Type <$> memberOf rc; a_voters := voterCount g; a_q := dm_quorum (g_datamesh g);
     a_qmr := dm_quorumMinimumRedundancy (g_datamesh g);
     a_hasRVR := match rc_rvr rc with Some _ => true | None => false end;
     a_hasRequest := match rc_membershipRequest rc with Some _ => true | None => false end |}.
Lemma voterCount_few g : countb (hasType IsVoter) (g_allReplicas g) < 256 →
  voterCount g = countb (hasType IsVoter) (g_allReplicas g).
Proof. intros H. apply wrap8_small. pose proof (countb_nonneg (hasType IsVoter) (g_allReplicas g)). lia. Qed.
Lemma astart_ok g i rc ty : dispatchable g i rc ty →
  absOf g i (astart g rc) ∧ starts g rc ty (astart g rc) ∧ majority (astart g rc).
Proof.
  intros [D1 D2 D3 D4 D5 D6 D7]. pose proof (voterCount_few g ltac:(lia)) as Hv. split_and!.
  - split; simpl; try done. exists rc. split_and!; try done; by destruct (rc_rvr rc), (rc_membershipRequest rc).
  - split; simpl; try done.
    + intros E. by destruct (D4 E) as [? ->].
    + by intros [? ->].
    + split; [|lia]. rewrite <-votes_rc, Hv. destruct (hasType IsVoter rc) eqn:E; simpl; [|apply countb_nonneg].
      pose proof (countb_pos _ _ _ (list_elem_of_lookup_2 _ _ _ D1) E). lia.
    + apply wrap8_range.
  - split; simpl; [|lia]. rewrite D7. apply computeTargetQ_small, voterCount_range.
Qed.
Lemma absOf_majority g i a : absOf g i a → majority a → dm_quorum (g_datamesh g) = computeTargetQ (voterCount g).
Proof.
  intros [_ _ Hn Hq _] [Hm Hb]. rewrite <-Hq, Hm, Hn. rewrite Hn in Hb. rewrite voterCount_few by lia.
  rewrite computeTargetQ_small; [done|]. pose proof (countb_nonneg (hasType IsVoter) (g_allReplicas g)). lia.
Qed.

(** C6: membership plans keep the quorum a majority.  For every plan the membership dispatcher can
    choose for a replica, if the quorum is the majority of the voters when it starts, then every
    prefix of its steps runs without error and leaves the quorum at the majority of the voters that
    are then in the datamesh: no intermediate configuration can be split into two quorate halves. *)
Theorem membership_plans_majority (mem : tmem) (g : globalContext) (i : nat) (rc : ReplicaContext)
    (ty : TransitionType) (id : string) (k : nat) :
  membershipChoice mem g rc = Ok (Some (ty, Select id)) → dispatchable g i rc ty →
  ∃ p g', reg_get theRegistry ty id = Some p ∧ run_steps (take k (pl_steps p)) mem g (Some i) = Ok g' ∧
    dm_quorum (g_datamesh g') = computeTargetQ (voterCount g').
Proof.
  intros Hc Hd. destruct (choice_plans _ _ _ _ _ Hc) as (p & opss & Hp & Hsim & Hall).
  destruct (astart_ok _ _ _ _ Hd) as (Ha & Hst & Hm).
  destruct (always_prefix _ _ _ _ k (Hall _ Hst Hm)) as (a' & Hr & Hm').
  destruct (sim_run (take k (pl_steps p)) (take k opss) mem g i (astart g rc) a') as (g' & Hrun & Ha'); [by apply Forall2_take|done|done|].
  exists p, g'. split_and!; [done|done|by eapply absOf_majority].
Qed.

(** Membership plans reach their target.  Run to the end, the plan the dispatcher chooses leaves
    the subject with the requested member type (none after a removal), and moves the quorum minimum
    redundancy, if at all, towards the configured value. *)
Theorem membership_plans_target (mem : tmem) (g : globalContext) (i : nat) (rc : ReplicaContext)
    (ty : TransitionType) (id : string) :
  membershipChoice mem g rc = Ok (Some (ty, Select id)) → dispatchable g i rc ty →
  let target := QuorumMinimumRedundancy (in_configuration (g_in g)) in
  let qmr := dm_quorumMinimumRedundancy (g_datamesh g) in
  ∃ p g' rc', reg_get theRegistry ty id = Some p ∧ run_steps (pl_steps p) mem g (Some i) = Ok g' ∧
    g_allReplicas g' !! i = Some rc' ∧
    m_Type <$> memberOf rc' = targetType ty (fst <$> rc_membershipRequest rc) ∧
    Z.min qmr target ≤ dm_quorumMinimumRedundancy (g_datamesh g') ≤ Z.max qmr target.
Proof.
  intros Hc Hd target qmr. destruct (choice_plans _ _ _ _ _ Hc) as (p & opss & Hp & Hsim & Hall).
  destruct (astart_ok _ _ _ _ Hd) as (Ha & Hst & Hm).
  destruct (always_end _ _ _ _ (Hall _ Hst Hm)) as (a' & Hr & _ & Ht & Hq).
  destruct (sim_run (pl_steps p) opss mem g i (astart g rc) a' Hsim Ha Hr) as (g' & Hrun & [(rc' & Hrc & Hty & _) _ _ _ Hqmr]).
  exists p, g', rc'. split_and!; [done|done|done|congruence| |]; rewrite <-Hqmr; apply Hq.
Qed.
End plans.
