(* ===== verification/GuardTheory.v ===== *)
(** * Theorems on zones and membership guards

    The per-zone counters agree with counting the replicas of each zone; what the guards let through
    keeps the redundancy the configuration asks for. *)

From Stdlib Require Import ZArith Lia String Sorted.
From stdpp Require Import base list numbers strings option relations.
From S2P Require Import Prelude IdSet DrbdSize Api Dmte Context Helpers Guards.
Import idset v1alpha1 dmte datamesh helpers guards.

Set Default Proof Using "Type".

Section zones.
Context `{K : K8s}.
Implicit Types (g : globalContext) (rc : ReplicaContext) (zcs : list zoneCount) (z : string).

(** ** Counting per zone *)
Lemma find_bump z zcs z' : findZoneCount (bumpZone z zcs) z' =
  if String.eqb z z' then findZoneCount zcs z' +b 1 else findZoneCount zcs z'.
Proof.
  unfold findZoneCount. induction zcs as [|zc zcs IH]; simpl.
  - by destruct (String.eqb z z').
  - destruct (String.eqb_spec (zc_Zone zc) z) as [<-|Hne]; simpl.
    + by destruct (String.eqb (zc_Zone zc) z').
    + destruct (String.eqb_spec (zc_Zone zc) z') as [<-|Hne']; [|exact IH].
      by destruct (String.eqb_spec z (zc_Zone zc)).
Qed.
Lemma zones_bump z zcs x : x ∈ map zc_Zone (bumpZone z zcs) ↔ x = z ∨ x ∈ map zc_Zone zcs.
Proof.
  induction zcs as [|zc zcs IH]; simpl; [set_solver|].
  destruct (String.eqb_spec (zc_Zone zc) z) as [<-|Hne]; simpl; set_solver.
Qed.
Lemma NoDup_bump z zcs : NoDup (map zc_Zone zcs) → NoDup (map zc_Zone (bumpZone z zcs)).
Proof.
  induction zcs as [|zc zcs IH]; simpl; [by repeat constructor; set_solver|]. intros [Hn Hd]%NoDup_cons.
  destruct (String.eqb_spec (zc_Zone zc) z) as [<-|Hne]; simpl; apply NoDup_cons; split; auto.
  rewrite zones_bump. by intros [?|?].
Qed.

(** With distinct zones, a lookup finds the entry wherever it is. *)
Lemma findZoneCount_In zcs zc : NoDup (map zc_Zone zcs) → zc ∈ zcs → findZoneCount zcs (zc_Zone zc) = zc_Count zc.
Proof.
  unfold findZoneCount. induction zcs as [|zc0 zcs IH]; intros Hn Hx; [by apply elem_of_nil in Hx|].
  apply NoDup_cons in Hn as [Hn Hd]. apply elem_of_cons in Hx as [->|Hx]; simpl; [by rewrite String.eqb_refl|].
  destruct (String.eqb_spec (zc_Zone zc0) (zc_Zone zc)) as [E|E]; [|by apply IH].
  destruct Hn. fold (map zc_Zone zcs). rewrite E. apply list_elem_of_fmap. by exists zc.
Qed.
Lemma findZoneCount_absent zcs z : z ∉ map zc_Zone zcs → findZoneCount zcs z = 0.
Proof.
  unfold findZoneCount. induction zcs as [|zc zcs IH]; simpl; [done|]. intros [H1 H2]%not_elem_of_cons.
  destruct (String.eqb_spec (zc_Zone zc) z); [congruence|by apply IH].
Qed.
Lemma findZoneCount_perm zcs zcs' z : NoDup (map zc_Zone zcs) → zcs ≡ₚ zcs' →
  findZoneCount zcs z = findZoneCount zcs' z.
Proof.
  intros Hn Hp. pose proof (Permutation_map zc_Zone Hp) as Hm. assert (Hn' : NoDup (map zc_Zone zcs')) by (by rewrite <-Hm).
  destruct (decide (z ∈ map zc_Zone zcs)) as [Hz|Hz].
  - apply list_elem_of_fmap in Hz as (zc & -> & Hzc). rewrite !findZoneCount_In; try done. by rewrite <-Hp.
  - rewrite !findZoneCount_absent; try done. by rewrite <-Hm.
Qed.

Definition inZone z (f : ReplicaContext → bool) rc : bool := f rc && String.eqb (zoneOf rc) z.
Definition outsideZone z (f : ReplicaContext → bool) rc : bool := f rc && negb (String.eqb (zoneOf rc) z).

Lemma wrap8_add a b : wrap8 (wrap8 a + b) = wrap8 (a + b).
Proof. unfold wrap8. apply Zplus_mod_idemp_l. Qed.
Lemma count_fold (f : ReplicaContext → bool) l zcs c z : findZoneCount zcs z = wrap8 c →
  findZoneCount (foldl (λ zcs rc, if f rc then bumpZone (zoneOf rc) zcs else zcs) zcs l) z =
  wrap8 (c + countb (inZone z f) l).
Proof.
  revert zcs c. induction l as [|rc l IH]; intros zcs c H; simpl; [by rewrite Z.add_0_r|].
  rewrite countb_cons, Z.add_assoc. apply IH. unfold inZone. destruct (f rc); simpl; [|by rewrite Z.add_0_r].
  rewrite find_bump, H. destruct (String.eqb (zoneOf rc) z); simpl; [apply wrap8_add|by rewrite Z.add_0_r].
Qed.
Lemma zones_fold (f : ReplicaContext → bool) l zcs x :
  x ∈ map zc_Zone (foldl (λ zcs rc, if f rc then bumpZone (zoneOf rc) zcs else zcs) zcs l) ↔
  x ∈ map zc_Zone zcs ∨ ∃ rc, rc ∈ l ∧ f rc = true ∧ zoneOf rc = x.
Proof.
  revert zcs. induction l as [|rc l IH]; intros zcs; simpl; [set_solver|]. rewrite IH. clear IH.
  destruct (f rc) eqn:E; rewrite ?zones_bump; split.
  - intros [[->|H]|(r & Hr & ?)]; [right; exists rc; set_solver|by left|right; exists r; set_solver].
  - intros [H|(r & [-> |Hr]%elem_of_cons & Hf & <-)]; [by left; right|by left; left|right; by exists r].
  - intros [H|(r & Hr & ?)]; [by left|right; exists r; set_solver].
  - intros [H|(r & [-> |Hr]%elem_of_cons & Hf & <-)]; [by left|congruence|right; by exists r].
Qed.
Lemma NoDup_fold (f : ReplicaContext → bool) l zcs : NoDup (map zc_Zone zcs) →
  NoDup (map zc_Zone (foldl (λ zcs rc, if f rc then bumpZone (zoneOf rc) zcs else zcs) zcs l)).
Proof. revert zcs. induction l as [|rc l IH]; intros zcs H; simpl; [done|]. apply IH. destruct (f rc); [by apply NoDup_bump|done]. Qed.

Lemma countPerZone_perm g f : countPerZone g f ≡ₚ
  foldl (λ zcs rc, if f rc then bumpZone (zoneOf rc) zcs else zcs) [] (g_allReplicas g).
Proof. apply sort_by_perm. Qed.
Lemma countPerZone_NoDup g f : NoDup (map zc_Zone (countPerZone g f)).
Proof. rewrite countPerZone_perm. apply NoDup_fold. constructor. Qed.
Lemma countPerZone_find g f z : findZoneCount (countPerZone g f) z = wrap8 (countb (inZone z f) (g_allReplicas g)).
Proof.
  rewrite (findZoneCount_perm _ _ z (countPerZone_NoDup g f) (countPerZone_perm g f)).
  by rewrite (count_fold f _ [] 0 z eq_refl).
Qed.

(** Per-zone counts agree with counting.  The list built by one pass of increments and a sort
    holds each zone of the selected replicas once, in order, and the count of every zone is the
    number of selected replicas in it (as a byte). *)
Theorem countPerZone_counts (g : globalContext) (include : ReplicaContext → bool) :
  Sorted (λ a b, string_leb (zc_Zone a) (zc_Zone b) = true) (countPerZone g include) ∧
  NoDup (map zc_Zone (countPerZone g include)) ∧
  (∀ z, z ∈ map zc_Zone (countPerZone g include) ↔
     ∃ rc, rc ∈ g_allReplicas g ∧ include rc = true ∧ zoneOf rc = z) ∧
  (∀ z, findZoneCount (countPerZone g include) z =
     wrap8 (countb (λ rc, include rc && String.eqb (zoneOf rc) z) (g_allReplicas g))).
Proof.
  split_and!.
  - apply sort_by_sorted. intros. apply string_leb_total.
  - apply countPerZone_NoDup.
  - intros z. rewrite countPerZone_perm, zones_fold. set_solver.
  - apply countPerZone_find.
Qed.
End zones.

(** ** Losing a voter *)
Section lose.
Context `{K : K8s}.
Implicit Types (g : globalContext) (rc : ReplicaContext) (z : string).

(** A guard that lets the dispatch pass. *)
Definition passes (gd : ReplicaGuardFunc globalContext nat) (mem : tmem) g (i : nat) : Prop :=
  ∃ r, gd mem g (Some i) = Ok (r, g) ∧ gr_Blocked r = false.
Definition N (f : ReplicaContext → bool) g : Z := countb f (g_allReplicas g).

Lemma passes_subject f mem g i rc : g_allReplicas g !! i = Some rc → passes (on_subject f) mem g i →
  ∃ r, f mem g rc = Ok r ∧ gr_Blocked r = false.
Proof.
  intros Hi (r & H & Hb). unfold on_subject, rc_at, index in H. rewrite Hi in H. simpl in H.
  bok H as r' E. injection H as ->. by exists r.
Qed.
Lemma passes_global f mem g i : passes (on_global f) mem g i → gr_Blocked (f g) = false.
Proof. intros (r & H & Hb). injection H as ->. done. Qed.
Lemma block_if_pass o : gr_Blocked (block_if o) = false → o = None.
Proof. by destruct o. Qed.
Lemma firstSome_None {A B} (f : A → option B) l x : firstSome f l = None → x ∈ l → f x = None.
Proof.
  induction l as [|y l IH]; intros H Hx; [by apply elem_of_nil in Hx|]. simpl in H.
  destruct (f y) eqn:E; [done|]. apply elem_of_cons in Hx as [->|Hx]; [done|by apply IH].
Qed.

Lemma countb_zone z f l : countb f l = countb (inZone z f) l + countb (outsideZone z f) l.
Proof. apply countb_split. Qed.
Lemma N_zone z f g : N f g = N (inZone z f) g + N (outsideZone z f) g.
Proof. apply countb_zone. Qed.
Lemma N_range f g : Z.of_nat (length (g_allReplicas g)) < 256 → 0 ≤ N f g < 256.
Proof. intros H. unfold N. pose proof (countb_nonneg f (g_allReplicas g)). pose proof (countb_le_length f (g_allReplicas g)). lia. Qed.
Lemma N_pos f g i rc : g_allReplicas g !! i = Some rc → Z.b2z (f rc) ≤ N f g.
Proof.
  intros Hi. unfold N. destruct (f rc) eqn:E; simpl; [|apply countb_nonneg].
  pose proof (countb_pos f _ rc (list_elem_of_lookup_2 _ _ _ Hi) E). lia.
Qed.

Lemma removeMember_counts mem g i rc c g' f : g_allReplicas g !! i = Some rc →
  removeMember mem g (Some i) = Ok (c, g') → f (set_rc_member None rc) = false → N f g' = N f g - Z.b2z (f rc).
Proof.
  intros Hi H Hf. unfold removeMember in H. simpl in H. unfold index in H. rewrite Hi in H. simpl in H.
  assert (Hall : g_allReplicas g' = alter (set_rc_member None) i (g_allReplicas g)).
  { destruct (rc_rvr rc); [by injection H as <- <-|]. bok H as r E. by injection H as <- <-. }
  unfold N. rewrite Hall.
  assert (alter (set_rc_member None) i (g_allReplicas g) = <[i := set_rc_member None rc]> (g_allReplicas g)) as ->.
  { apply list_eq. intros j. destruct (decide (i = j)) as [->|Hne].
    - rewrite list_lookup_alter_eq, Hi, list_lookup_insert_eq by (by eapply lookup_lt_Some). done.
    - by rewrite list_lookup_alter_ne, list_lookup_insert_ne. }
  rewrite (countb_insert _ _ _ _ _ Hi), Hf. simpl. lia.
Qed.
(** No counted role is left without a member. *)
Lemma nomember_roles rc : let rc' := set_rc_member None rc in
  hasType IsVoter rc' = false ∧ isUpToDateDiskful rc' = false ∧ isTB rc' = false.
Proof. done. Qed.

Lemma quorum_of_all v : 1 ≤ v < 256 → 1 ≤ computeTargetQ v ≤ v ∧ computeTargetQ v = v / 2 + 1.
Proof.
  intros H. unfold computeTargetQ. pose proof (Z.div_mod v 2 ltac:(lia)). pose proof (Z.mod_pos_bound v 2 ltac:(lia)).
  rewrite wrap8_small by lia. lia.
Qed.

(** What each guard of a leaving voter establishes, on the counts after the removal. *)
Section leaving.
Context (mem : tmem) (g g' : globalContext) (i : nat) (rc : ReplicaContext) (c : bool).
Hypothesis Hi : g_allReplicas g !! i = Some rc.
Hypothesis Hvoter : hasType IsVoter rc = true.
Hypothesis Hsmall : Z.of_nat (length (g_allReplicas g)) < 256.
Hypothesis Hrm : removeMember mem g (Some i) = Ok (c, g').
Notation voter := (hasType IsVoter).
Notation cfg := (in_configuration (g_in g)).
Notation GMDR := (cfg_GuaranteedMinimumDataRedundancy cfg).
Notation dMin := (IntendedDiskfulCount (cfg_FailuresToTolerate cfg) GMDR).

Lemma after_removal f : f (set_rc_member None rc) = false → N f g' = N f g - Z.b2z (f rc).
Proof using Hi Hrm. by eapply removeMember_counts. Qed.
Lemma voters_after : N voter g' = N voter g - 1.
Proof using Hi Hrm Hvoter. rewrite after_removal, Hvoter by done. done. Qed.
Lemma voterCount_N : voterCount g = N voter g.
Proof using Hsmall. apply wrap8_small, N_range, Hsmall. Qed.
Lemma voter_present : 1 ≤ N voter g.
Proof using Hi Hvoter. pose proof (N_pos voter g i rc Hi). rewrite Hvoter in H. done. Qed.

Lemma survivingUTD_after : survivingUTD g rc = N isUpToDateDiskful g'.
Proof using Hi Hrm Hsmall.
  rewrite after_removal by done. unfold survivingUTD, upToDateDiskfulCount. fold (N isUpToDateDiskful g).
  pose proof (N_range isUpToDateDiskful g Hsmall). pose proof (N_pos isUpToDateDiskful g i rc Hi).
  rewrite wrap8_small by lia. destruct (isUpToDateDiskful rc); simpl in *; [|lia].
  destruct (Z.ltb_spec 0 (N isUpToDateDiskful g)); [|lia]. apply wrap8_small. lia.
Qed.
Lemma gmdr_after : passes guardGMDRPreserved mem g i → GMDR < N isUpToDateDiskful g'.
Proof using Hi Hrm Hsmall.
  intros (r & E & Hb)%(passes_subject _ _ _ _ _ Hi). rewrite survivingUTD_after in E.
  injection E as <-. by destruct (Z.leb_spec (N isUpToDateDiskful g') GMDR).
Qed.
Lemma ftt_after : passes guardFTTPreserved mem g i → dMin ≤ N voter g'.
Proof using Hi Hrm Hsmall Hvoter.
  intros H%passes_global. cbv beta zeta in H. rewrite voterCount_N in H. rewrite voters_after.
  destruct (Z.leb_spec (N voter g) dMin); [done|lia].
Qed.
(** The adjusted count of a zone. *)
Lemma adjusted_zone z f : f (set_rc_member None rc) = false → memberZone rc = zoneOf rc →
  (if f rc && String.eqb z (memberZone rc) && (0 <? wrap8 (N (inZone z f) g))
   then wrap8 (N (inZone z f) g) -b 1 else wrap8 (N (inZone z f) g)) = N (inZone z f) g'.
Proof using Hi Hrm Hsmall.
  intros Hf Hz. pose proof (N_range (inZone z f) g Hsmall). pose proof (N_pos (inZone z f) g i rc Hi) as Hp.
  rewrite after_removal by (unfold inZone; by rewrite Hf). rewrite wrap8_small by lia.
  unfold inZone at 5. unfold inZone at 1 in Hp. rewrite Hz, (String.eqb_sym z).
  destruct (f rc && String.eqb (zoneOf rc) z); simpl in *; [|lia].
  destruct (Z.ltb_spec 0 (N (inZone z f) g)); [|lia]. apply wrap8_small. lia.
Qed.

(** A zone without an entry has nothing to lose. *)
Lemma absent_zone z f : f (set_rc_member None rc) = false → z ∉ map zc_Zone (countPerZone g f) →
  N (outsideZone z f) g' = N f g'.
Proof using Hi Hrm Hsmall.
  intros Hf Hz. pose proof (countPerZone_find g f z) as Hc. rewrite findZoneCount_absent in Hc by done.
  fold (N (inZone z f) g) in Hc. pose proof (N_range (inZone z f) g Hsmall). rewrite wrap8_small in Hc by lia.
  rewrite (N_zone z f g'), (after_removal (inZone z f)) by (unfold inZone; by rewrite Hf).
  pose proof (N_pos (inZone z f) g i rc Hi). destruct (inZone z f rc); simpl in *; lia.
Qed.
Lemma small_after f : 0 ≤ N f g' ∧ (f (set_rc_member None rc) = false → N f g' ≤ N f g).
Proof using Hi Hrm.
  split; [apply countb_nonneg|]. intros Hf. rewrite after_removal by done. destruct (f rc); simpl; lia.
Qed.
Lemma zone_gmdr_after z : passes guardGMDRPreserved mem g i → passes guardZoneGMDRPreserved mem g i →
  cfg_Topology cfg = TopologyTransZonal → GMDR < N (outsideZone z isUpToDateDiskful) g'.
Proof using Hi Hrm Hsmall.
  intros HG (r & E & Hb)%(passes_subject _ _ _ _ _ Hi) Ht. unfold isTopology in E. rewrite Ht in E.
  injection E as <-. apply block_if_pass in Hb. rewrite survivingUTD_after in Hb.
  destruct (decide (z ∈ map zc_Zone (upToDateDiskfulCountPerZone g))) as [Hz|Hz].
  - apply list_elem_of_fmap in Hz as (zc & -> & Hzc).
    pose proof (firstSome_None _ _ _ Hb Hzc) as Hk. unfold zoneGMDRCheck in Hk.
    pose proof (findZoneCount_In _ _ (countPerZone_NoDup g _) Hzc) as Hcnt.
    rewrite countPerZone_find in Hcnt. fold (N (inZone (zc_Zone zc) isUpToDateDiskful) g) in Hcnt.
    rewrite <-Hcnt, adjusted_zone in Hk by done.
    pose proof (N_zone (zc_Zone zc) isUpToDateDiskful g'). pose proof (N_range isUpToDateDiskful g Hsmall).
    pose proof (proj2 (small_after isUpToDateDiskful) eq_refl).
    pose proof (proj1 (small_after (inZone (zc_Zone zc) isUpToDateDiskful))).
    pose proof (proj1 (small_after (outsideZone (zc_Zone zc) isUpToDateDiskful))).
    rewrite wrap8_small in Hk by lia. destruct (Z.leb_spec (N isUpToDateDiskful g' - N (inZone (zc_Zone zc) isUpToDateDiskful) g') GMDR); [done|lia].
  - rewrite absent_zone by done. by apply gmdr_after.
Qed.

(** Quorum once a zone is lost: enough voters, or one short with a tie-breaker left. *)
Definition zoneQuorate (h : globalContext) z : Prop :=
  let q := computeTargetQ (voterCount h) in
  q ≤ N (outsideZone z voter) h ∨
  N (outsideZone z voter) h = q - 1 ∧ 0 < N (outsideZone z isTB) h.
Lemma tb_after z : N (outsideZone z isTB) g' = N isTB g - N (inZone z isTB) g.
Proof using Hi Hrm Hvoter.
  assert (Htb : isTB rc = false).
  { unfold isTB, hasType in *. destruct (memberOf rc) as [m|]; [|done]. by destruct (m_Type m). }
  rewrite after_removal by done. unfold outsideZone at 2. rewrite Htb. simpl. rewrite (N_zone z isTB g). lia.
Qed.
Lemma tb_surviving z : tbCount g -b findZoneCount (tbCountPerZone g) z = N (outsideZone z isTB) g'.
Proof using Hi Hrm Hsmall Hvoter.
  unfold tbCountPerZone. rewrite countPerZone_find, tb_after. fold (N (inZone z isTB) g). unfold tbCount. fold (N isTB g).
  pose proof (N_range isTB g Hsmall). pose proof (N_zone z isTB g). pose proof (N_range (inZone z isTB) g Hsmall).
  pose proof (N_range (outsideZone z isTB) g Hsmall).
  rewrite (wrap8_small (N isTB g)), (wrap8_small (N (inZone z isTB) g)) by lia. apply wrap8_small. lia.
Qed.
Lemma zone_ftt_after z : passes guardZoneFTTPreserved mem g i → 1 ≤ N voter g' →
  cfg_Topology cfg = TopologyTransZonal → zoneQuorate g' z.
Proof using Hi Hrm Hsmall Hvoter.
  intros (r & E & Hb)%(passes_subject _ _ _ _ _ Hi) Hone Ht. injection E as <-.
  pose proof (N_range voter g Hsmall) as Hr. pose proof voters_after as Hva.
  assert (HC' : voterCount g' = N voter g') by (apply wrap8_small; fold (N voter g'); lia).
  destruct (quorum_of_all (N voter g') ltac:(lia)) as [Hq _]. unfold zoneQuorate. rewrite HC'.
  unfold evaluateZoneFTT, isTopology in Hb. rewrite Ht, voterCount_N in Hb. simpl in Hb.
  destruct (Z.eqb_spec (N voter g) 0); [lia|]. rewrite wrap8_small, <-Hva in Hb by lia.
  apply block_if_pass in Hb.
  destruct (decide (z ∈ map zc_Zone (voterCountPerZone g))) as [Hz|Hz].
  - apply list_elem_of_fmap in Hz as (zc & -> & Hzc).
    pose proof (firstSome_None _ _ _ Hb Hzc) as Hk. unfold zoneFTTCheck in Hk.
    pose proof (findZoneCount_In _ _ (countPerZone_NoDup g _) Hzc) as Hcnt.
    rewrite countPerZone_find in Hcnt. fold (N (inZone (zc_Zone zc) voter) g) in Hcnt.
    pose proof (adjusted_zone (zc_Zone zc) voter eq_refl eq_refl) as Hadj. rewrite Hvoter in Hadj. simpl in Hadj.
    rewrite <-Hcnt, Hadj in Hk. simpl in Hk.
    pose proof (N_zone (zc_Zone zc) voter g') as Hsplit.
    pose proof (proj1 (small_after (inZone (zc_Zone zc) voter))).
    pose proof (proj1 (small_after (outsideZone (zc_Zone zc) voter))).
    rewrite !(wrap8_small (N voter g' - _)) in Hk by lia.
    rewrite tb_surviving in Hk.
    destruct (Z.leb_spec (computeTargetQ (N voter g')) (N voter g' - N (inZone (zc_Zone zc) voter) g')); [left; lia|].
    rewrite wrap8_small in Hk by lia.
    destruct (Z.eqb_spec (N voter g' - N (inZone (zc_Zone zc) voter) g') (computeTargetQ (N voter g') - 1)); [|done].
    right. destruct (Z.ltb_spec 0 (N (outsideZone (zc_Zone zc) isTB) g')); [lia|done].
  - left. rewrite absent_zone by done. lia.
Qed.
End leaving.

(** C15: removing a voter keeps the configured redundancy.  When every guard of a leaving voter lets
    it pass, then after its removal more UpToDate copies than GMDR remain and at least the intended
    number of voters; with the TransZonal topology, losing any single zone then still leaves more
    UpToDate copies than GMDR, and a quorum of voters (or one less, with a tie-breaker outside the
    zone). *)
Theorem loseVoter_redundancy (mem : tmem) (g g' : globalContext) (i : nat) (rc : ReplicaContext) (c : bool) :
  let cfg := in_configuration (g_in g) in
  let GMDR := cfg_GuaranteedMinimumDataRedundancy cfg in
  let FTT := cfg_FailuresToTolerate cfg in
  g_allReplicas g !! i = Some rc → hasType IsVoter rc = true →
  Z.of_nat (length (g_allReplicas g)) < 256 → 0 ≤ GMDR → 0 ≤ FTT →
  Forall (λ gd, passes gd mem g i) loseVoterGuards →
  removeMember mem g (Some i) = Ok (c, g') →
  GMDR < N isUpToDateDiskful g' ∧ IntendedDiskfulCount FTT GMDR ≤ N (hasType IsVoter) g' ∧
  (cfg_Topology cfg = TopologyTransZonal → ∀ z,
     GMDR < N (outsideZone z isUpToDateDiskful) g' ∧ zoneQuorate g' z).
Proof.
  intros cfg GMDR FTT Hi Hv Hs HG HF Hp Hrm. unfold loseVoterGuards, loseVoterGuardsCommon in Hp. simpl in Hp.
  rewrite !Forall_cons in Hp. destruct Hp as (_ & P1 & P2 & P3 & P4 & _).
  assert (H2 : IntendedDiskfulCount FTT GMDR ≤ N (hasType IsVoter) g') by (by eapply ftt_after).
  split_and!; [by eapply gmdr_after|done|]. intros Ht z. split; [by eapply zone_gmdr_after|].
  eapply zone_ftt_after; try done. unfold IntendedDiskfulCount in H2. lia.
Qed.
End lose.
