(* ===== verification/NetworkTheory.v ===== *)
(** * Theorems on system networks and resize

    Repairing addresses leaves nothing to repair; a network change ends at the networks of the
    storage pool and passes through no configuration without a network.  The guard lets a resize start
    only when every backing volume can hold the new size; the plan then reaches that size, after which
    the dispatcher is quiet. *)

From Stdlib Require Import ZArith Lia String.
From stdpp Require Import base list numbers strings option relations.
From S2P Require Import Prelude IdSet DrbdSize Api Dmte DmteSteps Context Helpers Guards Network Quorum.
From S2P Require Import Datamesh Plans QuorumTheory GuardTheory.
Import idset v1alpha1 dmte datamesh helpers guards network process.

Set Default Proof Using "Type".

Section network_theory.
Context `{K : K8s}.
Implicit Types (g : globalContext) (rc : ReplicaContext) (nets : list string)
  (addrs : list DRBDResourceAddressStatus) (t : Transition).

(** ** Address repair *)
Lemma findAddress_name addrs net a : findAddressByNetwork addrs net = Some a → a_SystemNetworkName a = net.
Proof. intros [_ H%String.eqb_eq]%List.find_some. done. Qed.
Lemma find_target addrs nets net a : net ∈ nets → findAddressByNetwork addrs net = Some a →
  findAddressByNetwork (targetAddresses addrs nets) net = Some a.
Proof.
  intros Hin Ha. induction nets as [|n nets IH]; [by apply elem_of_nil in Hin|]. unfold targetAddresses. simpl.
  destruct (decide (n = net)) as [->|Hne].
  - rewrite Ha. unfold findAddressByNetwork. simpl. rewrite (findAddress_name _ _ _ Ha), String.eqb_refl. done.
  - apply elem_of_cons in Hin as [->|Hin]; [done|]. destruct (findAddressByNetwork addrs n) as [b|] eqn:E; [|by apply IH].
    unfold findAddressByNetwork. simpl. rewrite (findAddress_name _ _ _ E).
    destruct (String.eqb_spec n net); [done|]. by apply IH.
Qed.
Lemma target_matches addrs all nets expected : (∀ n, n ∈ nets → n ∈ all) →
  addressesMismatch addrs (targetAddresses addrs all) nets expected =
  negb (length (targetAddresses addrs all) =? expected + length (targetAddresses addrs nets))%nat.
Proof.
  revert expected. induction nets as [|n nets IH]; intros expected Hsub; simpl; [by rewrite Nat.add_0_r|].
  destruct (findAddressByNetwork addrs n) as [a|] eqn:E; simpl.
  - rewrite (find_target _ _ _ _ (Hsub n ltac:(set_solver)) E), bool_decide_eq_true_2 by done.
    rewrite IH by set_solver. do 2 f_equal. lia.
  - apply IH. set_solver.
Qed.
Lemma repairMember_target m addrs nets : m_Addresses (repairMemberAddresses m addrs nets).2 = targetAddresses addrs nets.
Proof. unfold repairMemberAddresses, addressesEqual. by case_bool_decide. Qed.
Lemma repairContext_spec nets rc : let rc' := (repairContext nets rc).2 in
  rc_rvr rc' = rc_rvr rc ∧
  ∀ m rvr, memberOf rc' = Some m → rc_rvr rc = Some rvr → m_Addresses m = targetAddresses (rvr_Addresses rvr) nets.
Proof.
  unfold repairContext, memberOf. destruct (rc_member rc) as [[m0 o]|] eqn:Em, (rc_rvr rc) as [rvr0|] eqn:Er; simpl;
    try (by rewrite Em || by rewrite Er).
    pose proof (repairMember_target m0 (rvr_Addresses rvr0) nets) as Ht.
    destruct (repairMemberAddresses m0 (rvr_Addresses rvr0) nets) as [c m'] eqn:E. simpl in Ht. destruct c; simpl.
    + split; [done|]. rewrite Em. simpl. intros m rvr [= <-] [= <-]. done.
    + split; [done|]. rewrite Em. simpl. intros m rvr [= <-] [= <-]. unfold repairMemberAddresses in E.
      destruct (addressesEqual _ _) eqn:Ea in E; [|done]. by apply bool_decide_eq_true in Ea.
Qed.

(** Repairing addresses settles.  After the repair step, every member with a replica object has
    exactly the addresses its replica reports on the datamesh networks, in network order, and the
    dispatcher detects no further repair. *)
Theorem repairAddresses_settles (mem : tmem) (g : globalContext) :
  ∃ changed g', repairAddresses mem g = Ok (changed, g') ∧ g_datamesh g' = g_datamesh g ∧
    (∀ rc m rvr, rc ∈ g_allReplicas g' → memberOf rc = Some m → rc_rvr rc = Some rvr →
       m_Addresses m = targetAddresses (rvr_Addresses rvr) (dm_systemNetworkNames (g_datamesh g))) ∧
    needsAddressRepair g' = false.
Proof.
  unfold repairAddresses, map_contexts. eexists _, _. split; [done|]. split; [done|].
  assert (H : ∀ rc m rvr, rc ∈ map snd (map (repairContext (dm_systemNetworkNames (g_datamesh g))) (g_allReplicas g)) →
    memberOf rc = Some m → rc_rvr rc = Some rvr →
    m_Addresses m = targetAddresses (rvr_Addresses rvr) (dm_systemNetworkNames (g_datamesh g))).
  { intros rc m rvr Hin Hm Hr. rewrite map_map in Hin. apply list_elem_of_fmap in Hin as (rc0 & -> & _).
    destruct (repairContext_spec (dm_systemNetworkNames (g_datamesh g)) rc0) as [Er Ea]. apply Ea; [done|congruence]. }
  split; [exact H|]. unfold needsAddressRepair. apply not_true_iff_false. intros (rc & Hin & Hb)%existsb_exists.
  apply list_elem_of_In in Hin. destruct (memberOf rc) as [m|] eqn:Em; [|done]. destruct (rc_rvr rc) as [rvr|] eqn:Er; [|done].
  simpl in Hin. rewrite (H rc m rvr Hin Em Er) in Hb. simpl in Hb. rewrite target_matches in Hb by done.
  by rewrite Nat.add_0_l, Nat.eqb_refl in Hb.
Qed.

(** ** Network changes *)
Definition names g : list string := dm_systemNetworkNames (g_datamesh g).
Definition addNames (added l : list string) : list string :=
  foldl (λ l net, if slices_Contains l net then l else l ++ [net]) l added.
Definition removeNames (removed l : list string) : list string :=
  List.filter (λ net, negb (slices_Contains removed net)) l.
Lemma elem_addNames added l x : x ∈ addNames added l ↔ x ∈ l ∨ x ∈ added.
Proof.
  unfold addNames. revert l. induction added as [|a added IH]; intros l; simpl; [set_solver|]. rewrite IH.
  unfold slices_Contains. case_bool_decide; set_solver.
Qed.
Lemma elem_removeNames removed l x : x ∈ removeNames removed l ↔ x ∈ l ∧ x ∉ removed.
Proof.
  unfold removeNames. rewrite list_elem_of_In, filter_In, <-list_elem_of_In, negb_true_iff.
  unfold slices_Contains. by rewrite bool_decide_eq_false.
Qed.
Lemma elem_diffNames a b x : x ∈ diffNames a b ↔ x ∈ a ∧ x ∉ b.
Proof. apply (elem_removeNames b a). Qed.

(** What a step does to the network names, given the running transition. *)
Definition on_names (f : GlobalApplyFunc globalContext) (h : Transition → list string → list string) : Prop :=
  ∀ mem g t, csnTransition mem g = Ok (Some t) →
    ∃ c g', f mem g = Ok (c, g') ∧ names g' = h t (names g) ∧ g_tracking g' = g_tracking g.
Definition added t : list string := diffNames (t_ToSystemNetworkNames t) (t_FromSystemNetworkNames t).
Definition removed t : list string := diffNames (t_FromSystemNetworkNames t) (t_ToSystemNetworkNames t).
Lemma addNewNetworks_names : on_names addNewNetworks (λ t, addNames (added t)).
Proof.
  intros mem g t Ht. unfold addNewNetworks, addedNetworks. rewrite Ht. simpl.
  assert (H : ∀ nets b l, (foldl (λ acc net, if slices_Contains acc.2 net then acc else (true, acc.2 ++ [net])) (b, l) nets).2
    = addNames nets l).
  { induction nets as [|n nets IH]; intros b l; [done|]. simpl. unfold addNames. simpl.
    destruct (slices_Contains l n); apply IH. }
  specialize (H (added t) false (names g)). unfold added, names in H. destruct (foldl _ _ _) as [c l]. simpl in H. subst l.
  by eexists _, _.
Qed.
Lemma removeNames_nil l : removeNames [] l = l.
Proof. induction l as [|x l IH]; [done|]. change (x :: removeNames [] l = x :: l). by rewrite IH. Qed.
Lemma removeOld_names : on_names removeOldNetworksAndAddresses (λ t, removeNames (removed t)).
Proof.
  intros mem g t Ht. unfold removeOldNetworksAndAddresses, removedNetworks. rewrite Ht. simpl.
  fold (removed t). destruct (removed t) as [|r rs] eqn:E.
  - eexists _, _. split; [done|]. by rewrite removeNames_nil.
  - by eexists _, _.
Qed.
Lemma addNewAddresses_names : on_names addNewAddresses (λ _ l, l).
Proof.
  intros mem g t Ht. unfold addNewAddresses, addedNetworks. rewrite Ht. simpl.
  destruct (diffNames _ _); by eexists _, _.
Qed.
Lemma csn_tracking mem g g' : g_tracking g' = g_tracking g → csnTransition mem g' = csnTransition mem g.
Proof. unfold csnTransition. by intros ->. Qed.
Lemma compose_names f1 f2 h1 h2 : on_names f1 h1 → on_names f2 h2 →
  on_names (ComposeGlobalApply [f1; f2]) (λ t l, h2 t (h1 t l)).
Proof.
  intros H1 H2 mem g t Ht. destruct (H1 mem g t Ht) as (c1 & g1 & E1 & N1 & T1).
  destruct (H2 mem g1 t) as (c2 & g2 & E2 & N2 & T2); [by rewrite (csn_tracking _ _ _ T1)|].
  eexists _, g2. cbn [ComposeGlobalApply]. rewrite E1. cbn [mbind outcome_bind]. rewrite E2. split; [done|].
  by rewrite N2, N1, T2, T1.
Qed.

(** The steps of a global plan, as changes of the names. *)
Definition step_names (s : step globalContext nat) (h : Transition → list string → list string) : Prop :=
  ∃ f, st_scope s = GlobalScope ∧ st_globalApply s = Some f ∧ on_names f h.
Fixpoint run_names (hs : list (Transition → list string → list string)) t (l : list string) : list string :=
  match hs with [] => l | h :: hs => run_names hs t (h t l) end.
Lemma run_steps_names ss hs mem g t : Forall2 step_names ss hs → csnTransition mem g = Ok (Some t) →
  ∃ g', run_steps ss mem g None = Ok g' ∧ names g' = run_names hs t (names g).
Proof.
  intros H. revert g. induction H as [|s h ss hs (f & Hs & Hf & Hn) _ IH]; intros g Ht; [by exists g|].
  destruct (Hn mem g t Ht) as (c & g1 & E & N1 & T1). destruct (IH g1) as (g' & R & N2); [by rewrite (csn_tracking _ _ _ T1)|].
  exists g'. simpl. unfold step_apply. rewrite Hs, Hf. simpl. rewrite E. simpl. rewrite R. by rewrite N2, N1.
Qed.
Lemma take_names k ss hs : Forall2 step_names ss hs → Forall2 step_names (take k ss) (take k hs).
Proof. apply Forall2_take. Qed.

Lemma not_empty (l : list string) x : x ∈ l → l ≠ [].
Proof. intros Hx ->. by apply elem_of_nil in Hx. Qed.
Lemma selectNetworkPlan_None current target : (∀ x, x ∈ current ↔ x ∈ target) → selectNetworkPlan current target = None.
Proof.
  intros H. unfold selectNetworkPlan, slices_Contains.
  assert (∀ l m : list string, (∀ x, x ∈ l → x ∈ m) → existsb (λ net, negb (bool_decide (net ∈ m))) l = false) as HE.
  { intros l m Hs. apply not_true_iff_false. intros (x & Hx & Hb)%existsb_exists.
    apply negb_true_iff, bool_decide_eq_false in Hb. apply Hb, Hs, list_elem_of_In, Hx. }
  rewrite !HE by (intros x; apply H). done.
Qed.
(** What the choice of a plan says about the two lists of networks. *)
Lemma selectNetworkPlan_Some current target id : selectNetworkPlan current target = Some id →
  (id = "add/v1" ∧ ∀ x, x ∈ current → x ∈ target) ∨ (id = "remove/v1" ∧ ∀ x, x ∈ target → x ∈ current) ∨
  (id = "update/v1" ∧ ∃ x, x ∈ current ∧ x ∈ target) ∨ id = "migrate/v1".
Proof.
  unfold selectNetworkPlan, slices_Contains.
  assert (HN : ∀ l m : list string, existsb (λ net, negb (bool_decide (net ∈ m))) l = false → ∀ x, x ∈ l → x ∈ m).
  { intros l m Hf x Hx. destruct (decide (x ∈ m)); [done|]. apply not_true_iff_false in Hf. destruct Hf.
    apply existsb_exists. exists x. rewrite <-list_elem_of_In. split; [done|]. by apply negb_true_iff, bool_decide_eq_false. }
  destruct (existsb _ target) eqn:EA, (existsb (λ net, negb _) current) eqn:ER; simpl; try done.
  - clear ER. destruct (existsb (λ s, bool_decide _) current) eqn:EX; simpl; intros [= <-]; [|by do 3 right]. right; right; left. split; [done|].
    apply existsb_exists in EX as (x & Hx & Hb). exists x. rewrite list_elem_of_In. by apply bool_decide_eq_true in Hb.
  - intros [= <-]. left. split; [done|]. by apply HN.
  - intros [= <-]. right; left. split; [done|]. by apply HN.
Qed.

(** Run on the names the transition started from. *)
Lemma names_added t x : let cur := t_FromSystemNetworkNames t in let tgt := t_ToSystemNetworkNames t in
  x ∈ addNames (added t) cur ↔ x ∈ cur ∨ x ∈ tgt.
Proof. simpl. rewrite elem_addNames. unfold added. rewrite elem_diffNames. destruct (decide (x ∈ t_FromSystemNetworkNames t)); set_solver. Qed.
Lemma names_removed t l x : x ∈ removeNames (removed t) l ↔
  x ∈ l ∧ (x ∈ t_FromSystemNetworkNames t → x ∈ t_ToSystemNetworkNames t).
Proof.
  rewrite elem_removeNames. unfold removed. rewrite elem_diffNames.
  destruct (decide (x ∈ t_ToSystemNetworkNames t)); set_solver.
Qed.
Lemma names_updated t x : x ∈ addNames (added t) (removeNames (removed t) (t_FromSystemNetworkNames t)) ↔ x ∈ t_ToSystemNetworkNames t.
Proof.
  rewrite elem_addNames, names_removed. unfold added. rewrite elem_diffNames.
  destruct (decide (x ∈ t_FromSystemNetworkNames t)); set_solver.
Qed.

(** The plan chosen for a network change, as changes of the names. *)
Definition network_effects (id : string) : list (Transition → list string → list string) :=
  let add t := addNames (added t) in let remove t := removeNames (removed t) in
  if String.eqb id "add/v1" then [add; λ _ l, l]
  else if String.eqb id "remove/v1" then [remove]
  else if String.eqb id "update/v1" then [λ t l, add t (remove t l); λ _ l, l]
  else [add; λ _ l, l; remove].
Lemma network_plans current target id : selectNetworkPlan current target = Some id →
  ∃ p, reg_get theRegistry ChangeSystemNetworks id = Some p ∧ pl_scope p = GlobalScope ∧
    Forall2 step_names (pl_steps p) (network_effects id).
Proof.
  intros H. apply selectNetworkPlan_Some in H as [[-> _]|[[-> _]|[[-> _]| ->]]];
    (eexists; split; [reflexivity|]; split; [reflexivity|]); repeat constructor.
  all: eexists; (split; [reflexivity|]); (split; [reflexivity|]).
  all: first [exact addNewNetworks_names | exact addNewAddresses_names | exact removeOld_names
             | exact (compose_names _ _ _ _ removeOld_names addNewNetworks_names)].
Qed.

(** The names after some steps of the chosen plan, from the start of the transition. *)
Lemma network_prefix current target id t k : selectNetworkPlan current target = Some id →
  t_FromSystemNetworkNames t = current → t_ToSystemNetworkNames t = target → current ≠ [] → target ≠ [] →
  run_names (take k (network_effects id)) t current ≠ [] ∧
  (length (network_effects id) ≤ k → ∀ x, x ∈ run_names (take k (network_effects id)) t current ↔ x ∈ target)%nat.
Proof.
  intros H%selectNetworkPlan_Some <- <- Hc Ht.
  destruct (t_FromSystemNetworkNames t) as [|c0 cs] eqn:EF; [done|]. destruct (t_ToSystemNetworkNames t) as [|t0 ts] eqn:ET; [done|].
  rewrite <-EF, <-ET in *.
  assert (Hc0 : c0 ∈ t_FromSystemNetworkNames t) by (rewrite EF; set_solver).
  assert (Ht0 : t0 ∈ t_ToSystemNetworkNames t) by (rewrite ET; set_solver).
  pose proof (names_added t) as HA. pose proof (names_removed t) as HR. pose proof (names_updated t) as HU.
  destruct H as [[-> Hsub]|[[-> Hsub]|[[-> (x0 & Hx & Hx')]| ->]]].
  all: destruct k as [|[|[|k]]]; simpl; rewrite ?take_nil; simpl; (split; [|intros Hlen; try lia]).
  all: try (apply (not_empty _ t0); first [apply HA; by right | by apply HU | apply HR; split; [|done]; first [by apply Hsub | apply HA; by right]]).
  all: try (by intros E; rewrite E in Hc0; apply elem_of_nil in Hc0).
  all: intros x; rewrite ?HR, ?HA, ?HU; set_solver.
Qed.

(** A network change reaches the networks of the storage pool.  The plan the dispatcher selects
    for a non-empty target is registered; with the transition recorded by its Init callback, its steps
    run without error, every intermediate configuration keeps at least one network, and the final
    one has exactly the target networks, so that the dispatcher selects no further plan. *)
Theorem networkPlan_reaches_target (mem : tmem) (g : globalContext) (rsp : RSP) (id : string) (t0 t : Transition) :
  in_rsp (g_in g) = Some rsp → names g ≠ [] → GetSystemNetworkNames rsp ≠ [] →
  selectNetworkPlan (names g) (GetSystemNetworkNames rsp) = Some id →
  setSystemNetworks g t0 = Ok t → csnTransition mem g = Ok (Some t) →
  ∃ p, reg_get theRegistry ChangeSystemNetworks id = Some p ∧ pl_scope p = GlobalScope ∧
    (∀ k, ∃ g', run_steps (take k (pl_steps p)) mem g None = Ok g' ∧ names g' ≠ []) ∧
    ∃ g', run_steps (pl_steps p) mem g None = Ok g' ∧
      (∀ x, x ∈ names g' ↔ x ∈ GetSystemNetworkNames rsp) ∧
      selectNetworkPlan (names g') (GetSystemNetworkNames rsp) = None.
Proof.
  intros Hrsp Hne Hnt Hsel Hinit Hcsn. destruct (network_plans _ _ _ Hsel) as (p & Hp & Hs & Hsteps).
  unfold setSystemNetworks in Hinit. rewrite Hrsp in Hinit. injection Hinit as Et.
  assert (EF : t_FromSystemNetworkNames t = names g) by (by rewrite <-Et).
  assert (ET : t_ToSystemNetworkNames t = GetSystemNetworkNames rsp) by (by rewrite <-Et). clear Et.
  assert (HP : ∀ k, ∃ g', run_steps (take k (pl_steps p)) mem g None = Ok g' ∧
    names g' = run_names (take k (network_effects id)) t (names g)).
  { intros k. eapply run_steps_names; [by apply take_names|exact Hcsn]. }
  assert (HN := λ k, network_prefix _ _ _ t k Hsel EF ET Hne Hnt).
  exists p. split_and!; [done|done| |].
  - intros k. destruct (HP k) as (g' & R & N). exists g'. split; [done|]. rewrite N. apply HN.
  - destruct (HP (length (pl_steps p))) as (g' & R & N). rewrite take_ge in R by done. exists g'. split; [done|].
    assert (HF : ∀ x, x ∈ names g' ↔ x ∈ GetSystemNetworkNames rsp).
    { rewrite N. apply HN. by rewrite (Forall2_length _ _ _ Hsteps). }
    split; [done|]. by apply selectNetworkPlan_None.
Qed.
End network_theory.

Import drbd_size v1alpha1 dmte datamesh helpers guards network resize process.

Section resize_theory.
Context `{K : K8s} {L : K8sLaws}.
Implicit Types (g : globalContext) (rc : ReplicaContext).

(** ** Capacity *)
Lemma bitmapBlocks_small d : 0 ≤ d → bitmapBlocks d ≤ d.
Proof.
  intros H. unfold bitmapBlocks. apply cdiv_le_iff; [lia|].
  assert (cdiv d 64 ≤ d) by (apply cdiv_le_iff; lia). lia.
Qed.
(** A larger volume, in whole 4Ki blocks, has at least the same usable capacity. *)
Lemma UsableSize_mono m k : 0 ≤ m ≤ k → k < 2 ^ 51 → bitmapBlocks m + 9 ≤ m →
  q_Value (UsableSize (NewQuantity (512 * (8 * m)))) ≤ q_Value (UsableSize (NewQuantity (512 * (8 * k)))).
Proof using L.
  intros Hm Hk Hmeta. pose proof (bitmapBlocks_subadd m (k - m)) as Hs. replace (m + (k - m)) with k in Hs by lia.
  pose proof (bitmapBlocks_small (k - m)). rewrite !UsableSize_blocks by lia. lia.
Qed.
Lemma AlignTo4Ki_value v : 0 ≤ q_Value v ≤ 2 ^ 61 → ∃ k, AlignTo4Ki v = NewQuantity (4096 * k) ∧
  q_Value v ≤ 4096 * k ≤ 2 ^ 62 ∧ 0 ≤ k.
Proof.
  intros Hv. exists (cdiv (q_Value v) 4096). unfold AlignTo4Ki. pose proof (cdiv_bounds (q_Value v) 4096 ltac:(lia)).
  pose proof (cdiv_nonneg (q_Value v) 4096 ltac:(lia) ltac:(lia)).
  rewrite wrap64_small, align_4096, wrapS64_small by lia. split; [done|]. lia.
Qed.
(** The lower volume computed for an aligned size holds it. *)
Lemma Lower_of_aligned v : 0 ≤ q_Value v ≤ 2 ^ 61 → ∃ m,
  LowerVolumeSize (AlignTo4Ki v) = Ok (NewQuantity (512 * (8 * m))) ∧ 0 ≤ m < 2 ^ 51 ∧ bitmapBlocks m + 9 ≤ m ∧
  q_Value v ≤ q_Value (UsableSize (NewQuantity (512 * (8 * m)))).
Proof using L.
  intros Hv. destruct (AlignTo4Ki_value v Hv) as (k & Ek & Hk & Hk0). rewrite Ek.
  assert (Eq : q_Value (NewQuantity (4096 * k)) = 4096 * k) by (apply q_Value_New; unfold int64; lia).
  destruct (LowerVolumeSize_blocks (NewQuantity (4096 * k))) as (m & HL & Hfix & Hb & _); [lia|].
  replace (q_Value (NewQuantity (4096 * k)) / 512) with (8 * k) in Hfix
    by (rewrite Eq; apply Z.div_unique_exact; lia).
  rewrite cdiv_mul in Hfix by lia. exists m. split_and!; [done|lia|lia|lia|]. rewrite UsableSize_blocks by lia. lia.
Qed.

Lemma Cmp_ge a b : int64 a → int64 b → (q_Cmp (NewQuantity a) (NewQuantity b) <? 0) = false → b ≤ a.
Proof using L. intros Ha Hb. rewrite q_Cmp_New by done. destruct (Z.compare_spec a b); [lia|done|lia]. Qed.

(** The resize guard is sufficient.  When guardBackingVolumesGrown passes, every diskful member
    with a replica object reports the size of its backing volume, and one that is a whole number of
    4Ki blocks has room for the requested volume size beside the DRBD metadata. *)
Theorem guardBackingVolumesGrown_sufficient (mem : tmem) (g : globalContext) (r : GuardResult)
    (rc : ReplicaContext) (rvr : ReplicatedVolumeReplica) :
  0 ≤ q_Value (in_size (g_in g)) ≤ 2 ^ 61 →
  guardBackingVolumesGrown mem g = Ok (r, g) → gr_Blocked r = false →
  rc ∈ g_allReplicas g → hasType HasBackingVolume rc = true → rc_rvr rc = Some rvr →
  ∃ bv size, rvr_BackingVolume rvr = Some bv ∧ bv_Size bv = Some size ∧
    ∀ k, size = NewQuantity (4096 * k) → 0 ≤ k < 2 ^ 51 →
      q_Value (in_size (g_in g)) ≤ q_Value (UsableSize size).
Proof using L.
  intros Hv Hg Hb Hin Ht Hr. unfold guardBackingVolumesGrown in Hg.
  destruct (Lower_of_aligned _ Hv) as (m & Hm & Hmb & Hmeta & Hcap). rewrite Hm in Hg. simpl in Hg. injection Hg as <-.
  apply block_if_pass in Hb. pose proof (firstSome_None _ _ _ Hb Hin) as Hc.
  unfold backingVolumeCheck, diskfulRVR in Hc. rewrite Ht, Hr in Hc.
  destruct (rvr_BackingVolume rvr) as [bv|]; [|done]. simpl in Hc. destruct (bv_Size bv) as [size|] eqn:Es; [|done].
  exists bv, size. split_and!; [done|done|]. intros k -> Hk.
  destruct (q_Cmp _ _ <? 0) eqn:Ecmp in Hc; [done|]. replace (4096 * k) with (512 * (8 * k)) in * by lia.
  apply Cmp_ge in Ecmp; [|unfold int64; lia|unfold int64; lia].
  etransitivity; [exact Hcap|]. apply UsableSize_mono; lia.
Qed.

(** A resize settles.  When the dispatcher asks for a resize, the plan is registered, its step
    runs without error and sets the datamesh size to the requested size rounded up to 4Ki, after
    which the dispatcher asks for nothing more. *)
Theorem resize_settles (mem : tmem) (g : globalContext) (v : Z) (d : DispatchDecision nat)
    (k : DispatchFunc globalContext nat) :
  0 ≤ q_Value (in_size (g_in g)) ≤ 2 ^ 61 → dm_size (g_datamesh g) = NewQuantity v → int64 v →
  resizeDispatcher mem g = Ok (Yield d k) →
  ∃ p g', reg_get theRegistry (d_transitionType d) (d_planID d) = Some p ∧ pl_scope p = GlobalScope ∧
    run_steps (pl_steps p) mem g None = Ok g' ∧
    dm_size (g_datamesh g') = AlignTo4Ki (in_size (g_in g)) ∧ resizeDispatcher mem g' = Ok Done.
Proof using L.
  intros Hv Hs Hi H. destruct (AlignTo4Ki_value _ Hv) as (a & Ea & Ha & _).
  unfold resizeDispatcher in H. destruct (0 <=? _) eqn:Ec; [done|]. injection H as <- _.
  rewrite Hs, Ea, q_Cmp_New in Ec by (done || unfold int64; lia).
  assert (Hne : q_Equal (dm_size (g_datamesh g)) (AlignTo4Ki (in_size (g_in g))) = false).
  { rewrite Hs, Ea, q_Equal_New by (done || unfold int64; lia). apply Z.eqb_neq. intros ->. by rewrite Z.compare_refl in Ec. }
  eexists _, _. split; [reflexivity|]. split; [reflexivity|].
  split; [cbn [snd pl_steps run_steps]; unfold step_apply; cbn [st_scope st_globalApply deref mbind outcome_bind];
    unfold applyResizeVolume; rewrite Hne; reflexivity|]. split; [done|]. unfold resizeDispatcher. simpl.
  rewrite Ea, q_Cmp_New by (unfold int64; lia). by rewrite Z.compare_refl.
Qed.
End resize_theory.
