(* ===== verification/LayoutTheory.v ===== *)
(** * Theorems on the effective layout

    The counters are consistent and do not overflow; the sets behind them hold the replicas they are
    named after. *)

From Stdlib Require Import ZArith Lia String.
From stdpp Require Import base list numbers strings option relations.
From S2P Require Import Prelude IdSet DrbdSize Api Dmte Context Helpers Datamesh.
Import idset v1alpha1 dmte datamesh helpers effective_layout.

Set Default Proof Using "Type".

Section layout_theory.
Context `{K : K8s}.
Implicit Types (g : globalContext) (rc : ReplicaContext) (c : classes).

(** ** The classification pass *)

(** A voter or tie-breaker member with a replica object, and its status if it is fresh. *)
Definition observed rc : option (bool * ReplicatedVolumeReplica) :=
  match memberOf rc, rc_rvr rc with
  | Some m, Some rvr => if IsVoter (m_Type m) || bool_decide (m_Type m = MemberTypeTieBreaker)
                        then Some (IsVoter (m_Type m), rvr) else None
  | _, _ => None
  end.
Definition fresh rc : option ReplicatedVolumeReplica :=
  match observed rc with Some (_, rvr) => if isFresh rvr then Some rvr else None | None => None end.
Definition on_fresh rc (f : ReplicatedVolumeReplica → bool) : bool :=
  match fresh rc with Some rvr => f rvr | None => false end.
Definition isVoterRC rc : bool := match observed rc with Some (v, _) => v | None => false end.
Definition isTieBreakerRC rc : bool := match observed rc with Some (v, _) => negb v | None => false end.
Definition seesPeer (f : PeerStatus → bool) (id : Z) (rvr : ReplicatedVolumeReplica) : bool :=
  existsb (λ p, f p && (id =? p_ID p)) (rvr_Peers rvr).
Definition connectedPeer (p : PeerStatus) : bool := String.eqb (p_ConnectionState p) ConnectionStateConnected.
Definition upToDatePeer (p : PeerStatus) : bool := String.eqb (p_BackingVolumeState p) DiskStateUpToDate.

Lemma p_ID_nonneg p : 0 ≤ p_ID p.
Proof. apply wrap8_range. Qed.
Lemma Contains_addIf b s id j : valid_id j → 0 ≤ id → Contains (addIf b s id) j = Contains s j || (b && (j =? id)).
Proof. intros. unfold addIf. destruct b; simpl; [by rewrite Contains_Add by done|by rewrite orb_false_r]. Qed.

(** The peers a fresh replica reports. *)
Lemma peers_fold f (sel : classes → Z) ps c j : valid_id j →
  (∀ c p, sel (observePeer c p) = addIf (f p) (sel c) (p_ID p)) →
  Contains (sel (foldl observePeer c ps)) j = Contains (sel c) j || existsb (λ p, f p && (j =? p_ID p)) ps.
Proof.
  intros Hj Hs. revert c. induction ps as [|p ps IH]; intros c; simpl; [by rewrite orb_false_r|].
  rewrite IH, Hs, Contains_addIf by (done || apply p_ID_nonneg). by rewrite orb_assoc.
Qed.
Lemma peers_keep (sel : classes → Z) ps c : (∀ c p, sel (observePeer c p) = sel c) → sel (foldl observePeer c ps) = sel c.
Proof. intros H. revert c. induction ps as [|p ps IH]; intros c; simpl; [done|]. by rewrite IH, H. Qed.

(** What one context adds to each set. *)
Record contributes rc (j : Z) c c' : Prop := {
  co_voters : Contains (cl_voters c') j = Contains (cl_voters c) j || isVoterRC rc && (j =? rc_id rc);
  co_tbs : Contains (cl_tbs c') j = Contains (cl_tbs c) j || isTieBreakerRC rc && (j =? rc_id rc);
  co_ready : Contains (cl_ready c') j = Contains (cl_ready c) j || on_fresh rc (λ _, true) && (j =? rc_id rc);
  co_quorum : Contains (cl_quorumTrue c') j = Contains (cl_quorumTrue c) j ||
    on_fresh rc (λ rvr, bool_decide (rvr_Quorum rvr = Some true)) && (j =? rc_id rc);
  co_disk : Contains (cl_diskUpToDate c') j = Contains (cl_diskUpToDate c) j || on_fresh rc diskIsUpToDate && (j =? rc_id rc);
  co_connected : Contains (cl_peerConnected c') j = Contains (cl_peerConnected c) j || on_fresh rc (seesPeer connectedPeer j);
  co_upToDate : Contains (cl_peerUpToDate c') j = Contains (cl_peerUpToDate c) j || on_fresh rc (seesPeer upToDatePeer j);
}.
Lemma classify_contributes rc j c : valid_id j → 0 ≤ rc_id rc → contributes rc j c (classify c rc).
Proof.
  intros Hj Hid. unfold classify.
  assert (Hskip : observed rc = None → contributes rc j c c).
  { intros E. split; unfold isVoterRC, isTieBreakerRC, on_fresh, fresh; rewrite E; simpl; by rewrite orb_false_r. }
  unfold observed in Hskip. destruct (memberOf rc) as [m|] eqn:Em; [|by apply Hskip].
  destruct (rc_rvr rc) as [rvr|] eqn:Er; [|by apply Hskip]. destruct (_ || _) eqn:Ek; [|by apply Hskip]. clear Hskip.
  assert (EO : observed rc = Some (IsVoter (m_Type m), rvr)) by (unfold observed; by rewrite Em, Er, Ek).
  destruct (isFresh rvr) eqn:Ef; simpl.
  - split; unfold isVoterRC, isTieBreakerRC, on_fresh, fresh; rewrite EO, ?Ef; simpl.
    1-5: match goal with |- Contains (?sel (foldl _ _ _)) _ = _ => rewrite (peers_keep sel) by done end; simpl.
    1-5: rewrite ?Contains_addIf by done; try done.
    + by rewrite Contains_Add by done.
    + rewrite (peers_fold connectedPeer cl_peerConnected) by done. done.
    + rewrite (peers_fold upToDatePeer cl_peerUpToDate) by done. done.
  - split; unfold isVoterRC, isTieBreakerRC, on_fresh, fresh; rewrite EO, ?Ef; simpl;
      rewrite ?Contains_addIf by done; by rewrite ?orb_false_r.
Qed.

(** ** The sets of the whole pass *)
Section all.
Context (g : globalContext) (j : Z).
Hypothesis Hj : valid_id j.
Hypothesis Hids : ∀ rc, rc ∈ g_allReplicas g → 0 ≤ rc_id rc.
Notation some f := (existsb f (g_allReplicas g)).

Lemma fold_set (sel : classes → Z) (f : ReplicaContext → bool) :
  (∀ rc c, contributes rc j c (classify c rc) → Contains (sel (classify c rc)) j = Contains (sel c) j || f rc) →
  sel noClasses = 0 → Contains (sel (classifyAll g)) j = some f.
Proof using Hj Hids.
  intros Hs H0. unfold classifyAll.
  assert (H : ∀ l c, (∀ rc, rc ∈ l → 0 ≤ rc_id rc) →
    Contains (sel (foldl classify c l)) j = Contains (sel c) j || existsb f l).
  { induction l as [|rc l IH]; intros c Hl; simpl; [by rewrite orb_false_r|].
    rewrite IH by set_solver. rewrite Hs by (apply classify_contributes; [done|set_solver]). by rewrite orb_assoc. }
  rewrite H, H0, Contains_empty by done. done.
Qed.
Lemma voters_spec : Contains (cl_voters (classifyAll g)) j = some (λ rc, isVoterRC rc && (j =? rc_id rc)).
Proof using Hj Hids. apply fold_set; [|done]. intros rc c H. apply H. Qed.
Lemma tbs_spec : Contains (cl_tbs (classifyAll g)) j = some (λ rc, isTieBreakerRC rc && (j =? rc_id rc)).
Proof using Hj Hids. apply fold_set; [|done]. intros rc c H. apply H. Qed.
Lemma ready_spec : Contains (cl_ready (classifyAll g)) j = some (λ rc, on_fresh rc (λ _, true) && (j =? rc_id rc)).
Proof using Hj Hids. apply fold_set; [|done]. intros rc c H. apply H. Qed.
Lemma quorum_spec : Contains (cl_quorumTrue (classifyAll g)) j =
  some (λ rc, on_fresh rc (λ rvr, bool_decide (rvr_Quorum rvr = Some true)) && (j =? rc_id rc)).
Proof using Hj Hids. apply fold_set; [|done]. intros rc c H. apply H. Qed.
Lemma disk_spec : Contains (cl_diskUpToDate (classifyAll g)) j = some (λ rc, on_fresh rc diskIsUpToDate && (j =? rc_id rc)).
Proof using Hj Hids. apply fold_set; [|done]. intros rc c H. apply H. Qed.
Lemma connected_spec : Contains (cl_peerConnected (classifyAll g)) j = some (λ rc, on_fresh rc (seesPeer connectedPeer j)).
Proof using Hj Hids. apply fold_set; [|done]. intros rc c H. apply H. Qed.
Lemma upToDate_spec : Contains (cl_peerUpToDate (classifyAll g)) j = some (λ rc, on_fresh rc (seesPeer upToDatePeer j)).
Proof using Hj Hids. apply fold_set; [|done]. intros rc c H. apply H. Qed.
End all.

(** With distinct IDs, an existence over the contexts is a property of the context with the ID. *)
Lemma some_at g rc (f : ReplicaContext → bool) : (∀ x y, x ∈ g_allReplicas g → y ∈ g_allReplicas g → rc_id x = rc_id y → x = y) →
  rc ∈ g_allReplicas g → existsb (λ x, f x && (rc_id rc =? rc_id x)) (g_allReplicas g) = f rc.
Proof.
  intros Hd Hin. apply eq_iff_eq_true. rewrite existsb_exists. split.
  - intros (x & Hx & [Hf He%Z.eqb_eq]%andb_prop). apply list_elem_of_In in Hx. by rewrite (Hd rc x Hin Hx He).
  - intros Hf. exists rc. by rewrite <-list_elem_of_In, Hf, Z.eqb_refl.
Qed.

(** Which voters count as reachable and as up to date.  For a voter whose own agent reports
    freshly, it is reachable iff it has quorum and up to date iff its disk is; for a voter whose
    agent is stale, iff some fresh voter or tie-breaker sees it connected, or sees its disk
    UpToDate. *)
Theorem effective_voters (g : globalContext) (rc : ReplicaContext) :
  (∀ x, x ∈ g_allReplicas g → valid_id (rc_id x)) →
  (∀ x y, x ∈ g_allReplicas g → y ∈ g_allReplicas g → rc_id x = rc_id y → x = y) →
  rc ∈ g_allReplicas g → isVoterRC rc = true →
  let someFresh f := existsb (λ x, on_fresh x f) (g_allReplicas g) in
  Contains (reachableVoters (classifyAll g)) (rc_id rc) =
    match fresh rc with
    | Some rvr => bool_decide (rvr_Quorum rvr = Some true)
    | None => someFresh (seesPeer connectedPeer (rc_id rc))
    end ∧
  Contains (upToDateVoters (classifyAll g)) (rc_id rc) =
    match fresh rc with
    | Some rvr => diskIsUpToDate rvr
    | None => someFresh (seesPeer upToDatePeer (rc_id rc))
    end.
Proof.
  intros Hv Hd Hin Hvot. assert (Hj := Hv _ Hin). assert (Hn : ∀ x, x ∈ g_allReplicas g → 0 ≤ rc_id x).
  { intros x Hx. by destruct (Hv x Hx). }
  unfold reachableVoters, upToDateVoters, staleVoters.
  rewrite !Contains_Union, !Contains_Intersect, Contains_Difference by done.
  rewrite voters_spec, ready_spec, quorum_spec, disk_spec, connected_spec, upToDate_spec by done.
  rewrite !(some_at g rc) by done. rewrite Hvot. unfold on_fresh. simpl.
  destruct (fresh rc) as [rvr|]; simpl; by rewrite ?orb_false_r.
Qed.

(** ** Counters *)
Lemma small_len s : wrapS8 (Len s) = Len s.
Proof. apply wrapS8_small. pose proof (Len_nonneg s). lia. Qed.
Lemma reachable_voters c j : valid_id j → Contains (reachableVoters c) j = true → Contains (cl_voters c) j = true.
Proof.
  intros Hj. unfold reachableVoters, staleVoters. rewrite Contains_Union, !Contains_Intersect, Contains_Difference by done.
  by destruct (Contains (cl_voters c) j).
Qed.
Lemma upToDate_voters c j : valid_id j → Contains (upToDateVoters c) j = true → Contains (cl_voters c) j = true.
Proof.
  intros Hj. unfold upToDateVoters, staleVoters. rewrite Contains_Union, !Contains_Intersect, Contains_Difference by done.
  by destruct (Contains (cl_voters c) j).
Qed.
Lemma reachable_tbs c j : valid_id j → Contains (reachableTBs c) j = true → Contains (cl_tbs c) j = true.
Proof. intros Hj. unfold reachableTBs. rewrite Contains_Intersect by done. by destruct (Contains (cl_tbs c) j). Qed.
Lemma stale_subset a c j : valid_id j → Contains (Difference a (cl_ready c)) j = true → Contains a j = true.
Proof. intros Hj. rewrite Contains_Difference by done. by destruct (Contains a j). Qed.

(** C37: the effective layout is consistent.  No counter overflows its int8: reachable and up-to-date
    voters are at most the voters, reachable tie-breakers at most the tie-breakers, and, for quorum
    settings below 96, the reported FTT and GMDR are the exact differences of the reported counters
    from the quorum settings (with one extra failure tolerated when the reachable voters are even and
    a tie-breaker is reachable). *)
Theorem effectiveLayout_consistent (g : globalContext) :
  let el := effectiveLayout g in
  let q := dm_quorum (g_datamesh g) in
  let qmr := dm_quorumMinimumRedundancy (g_datamesh g) in
  0 ≤ q < 96 → 0 ≤ qmr < 96 →
  0 ≤ el_ReachableVoters el ≤ el_TotalVoters el ∧ 0 ≤ el_UpToDateVoters el ≤ el_TotalVoters el ∧
  0 ≤ el_ReachableTieBreakers el ≤ el_TotalTieBreakers el ∧
  0 ≤ el_StaleAgents el ≤ el_TotalVoters el + el_TotalTieBreakers el ≤ 64 ∧
  (∀ ftt, el_FailuresToTolerate el = Some ftt → ftt =
     Z.min (el_ReachableVoters el - q + (if (el_ReachableVoters el mod 2 =? 0) && (0 <? el_ReachableTieBreakers el) then 1 else 0))
           (el_UpToDateVoters el - qmr)) ∧
  (∀ gmdr, el_GuaranteedMinimumDataRedundancy el = Some gmdr → gmdr = Z.min (el_UpToDateVoters el) qmr - 1).
Proof.
  intros el q qmr Hq Hqmr. unfold el, effectiveLayout. simpl. set (c := classifyAll g). rewrite !small_len.
  pose proof (Len_mono _ _ (reachable_voters c)). pose proof (Len_mono _ _ (upToDate_voters c)).
  pose proof (Len_mono _ _ (reachable_tbs c)). pose proof (Len_mono _ _ (stale_subset (cl_voters c) c)).
  pose proof (Len_mono _ _ (stale_subset (cl_tbs c) c)).
  pose proof (Len_nonneg (reachableVoters c)). pose proof (Len_nonneg (upToDateVoters c)).
  pose proof (Len_nonneg (reachableTBs c)). pose proof (Len_nonneg (cl_voters c)). pose proof (Len_nonneg (cl_tbs c)).
  unfold staleVoters, staleTBs. pose proof (Len_nonneg (Difference (cl_voters c) (cl_ready c))).
  pose proof (Len_nonneg (Difference (cl_tbs c) (cl_ready c))). rewrite (wrapS8_small (_ + _)) by lia.
  split_and!; try lia.
  - destruct (canCompute c); [|done]. intros ftt [= <-]. unfold effectiveFTT, tbBonus. fold q qmr.
    rewrite Z.rem_mod_nonneg by lia. rewrite (wrapS8_small q), (wrapS8_small qmr) by lia.
    destruct (_ && _); rewrite (wrapS8_small (Len (reachableVoters c) - q)), !wrapS8_small by lia; done.
  - destruct (canCompute c); [|done]. intros gmdr [= <-]. unfold effectiveGMDR. fold qmr.
    rewrite (wrapS8_small qmr), wrapS8_small by lia. done.
Qed.
End layout_theory.
