(* ===== verification/DispatchTheory.v ===== *)
(** * Theorems on confirmation and dispatch

    When the engine considers a step confirmed, in terms of what the replicas report.  Every decision a
    dispatcher yields, on whatever state the engine resumes it, is one the engine can execute. *)

From Stdlib Require Import ZArith Lia String.
From stdpp Require Import base list numbers strings option relations.
From S2P Require Import Prelude IdSet DrbdSize Api Dmte DmteSteps Context Helpers Guards Network Quorum.
From S2P Require Import Quorum Attachment Membership Datamesh Frame Plans MembershipTheory.
Import idset v1alpha1 dmte datamesh helpers network.

Set Default Proof Using "Type".

Section confirm_theory.
Context `{K : K8s}.
Implicit Types (g : globalContext) (rc : ReplicaContext).

(** The engine's test on a confirmation result. *)
Definition complete (cr : ConfirmResult) : Prop := idset.Intersect (Confirmed cr) (MustConfirm cr) = MustConfirm cr.
(** Some replica with this ID reports the revision. *)
Definition acked g (rev id : Z) : Prop := ∃ rc, rc ∈ g_allReplicas g ∧ rc_id rc = id ∧ rvrConfirmed rev rc = true.
Definition ids_ok g : Prop := ∀ rc, rc ∈ g_allReplicas g → valid_id (rc_id rc).

Lemma ids_nonneg g : ids_ok g → Forall (λ rc, 0 ≤ rc_id rc) (g_allReplicas g).
Proof. intros H. apply Forall_forall. intros rc Hrc. by destruct (H rc Hrc). Qed.
Lemma Contains_idsWhere p g j : ids_ok g → valid_id j →
  Contains (idsWhere p g) j = true ↔ ∃ rc, rc ∈ g_allReplicas g ∧ p rc = true ∧ rc_id rc = j.
Proof.
  intros Hg Hj. change (idsWhere p g) with (FromWhere rc_id (g_allReplicas g) p).
  rewrite Contains_FromWhere, existsb_exists by (done || by apply ids_nonneg). split.
  - intros (rc & Hrc%list_elem_of_In & [Hp He%Z.eqb_eq]%andb_prop). by exists rc.
  - intros (rc & Hrc%list_elem_of_In & Hp & <-). exists rc. by rewrite Hp, Z.eqb_refl.
Qed.
Lemma wf_idsWhere p g : ids_ok g → wf_set (idsWhere p g).
Proof. intros H. apply (FromWhere_wf rc_id). by apply ids_nonneg. Qed.

(** Completeness, member by member. *)
Lemma complete_iff cr : wf_set (MustConfirm cr) → wf_set (Confirmed cr) → complete cr ↔
  ∀ j, valid_id j → Contains (MustConfirm cr) j = true → Contains (Confirmed cr) j = true.
Proof.
  intros Hm Hc. unfold complete. split.
  - intros E j Hj HM. rewrite <-E, Contains_Intersect in HM by done. by apply andb_prop in HM as [? _].
  - intros H. apply set_ext; [by apply wf_Intersect|done|]. intros j Hj. rewrite Contains_Intersect by done.
    specialize (H j Hj). destruct (Contains (MustConfirm cr) j); [by rewrite H|by rewrite andb_false_r].
Qed.
Lemma confirmed_iff g rev j : ids_ok g → valid_id j → Contains (confirmedReplicas g rev) j = true ↔ acked g rev j.
Proof.
  intros Hg Hj. unfold confirmedReplicas. rewrite Contains_idsWhere by done. unfold acked.
  split; intros (rc & ? & ? & ?); by exists rc.
Qed.
(** A step that waits for the replicas of [must], one of which may have left instead. *)
Lemma must_complete g rev must : ids_ok g → wf_set must →
  complete {| MustConfirm := must; Confirmed := Intersect (confirmedReplicas g rev) must |} ↔
  ∀ j, valid_id j → Contains must j = true → acked g rev j.
Proof.
  intros Hg Hm. assert (HC := wf_idsWhere (rvrConfirmed rev) g Hg).
  rewrite complete_iff by (simpl; try done; by apply wf_Intersect). simpl. split; intros H j Hj HM; specialize (H j Hj HM).
  - rewrite Contains_Intersect in H by done. apply andb_prop in H as [H _]. by apply confirmed_iff in H.
  - rewrite Contains_Intersect, HM, andb_true_r by done. by apply confirmed_iff.
Qed.
Lemma must_complete_leaving g rev must i (b : bool) : ids_ok g → wf_set must → valid_id i →
  complete {| MustConfirm := must; Confirmed := if b then idset.Add (Intersect (confirmedReplicas g rev) must) i
                                                else Intersect (confirmedReplicas g rev) must |} ↔
  ∀ j, valid_id j → Contains must j = true → acked g rev j ∨ j = i ∧ b = true.
Proof.
  intros Hg Hm [Hi Hi']. assert (HC := wf_idsWhere (rvrConfirmed rev) g Hg). destruct b.
  - rewrite complete_iff by (simpl; first [done | apply wf_Add; [by apply wf_Intersect|done]]). simpl.
    split; intros H j Hj HM; specialize (H j Hj HM); rewrite ?Contains_Add, ?Contains_Intersect in * by done.
    + apply orb_prop in H as [[H _]%andb_prop|H%Z.eqb_eq]; [left; by apply confirmed_iff in H|by right].
    + destruct H as [H|[-> _]]; [|by rewrite Z.eqb_refl, orb_true_r]. apply confirmed_iff in H; try done. by rewrite H, HM.
  - rewrite must_complete by done. naive_solver.
Qed.

(** A set plus the subject. *)
Lemma union_subject s i (Q : Z → Prop) : valid_id i →
  (∀ j, valid_id j → Contains (Union s (Of [i])) j = true → Q j) ↔ (∀ j, valid_id j → Contains s j = true → Q j) ∧ Q i.
Proof.
  intros Hi. assert (Hn := proj1 Hi). split.
  - intros H. split; [intros j Hj Hs|]; apply H; try done; rewrite Contains_Union, Contains_Of1 by done;
      [by rewrite Hs|by rewrite Z.eqb_refl, orb_true_r].
  - intros [H1 H2] j Hj. rewrite Contains_Union, Contains_Of1 by done. intros [Hs|E%Z.eqb_eq]%orb_prop; [by apply H1|by subst].
Qed.
Lemma add_subject s i (Q : Z → Prop) : valid_id i →
  (∀ j, valid_id j → Contains (idset.Add s i) j = true → Q j) ↔ (∀ j, valid_id j → Contains s j = true → Q j) ∧ Q i.
Proof.
  intros Hi. assert (Hn := proj1 Hi). split.
  - intros H. split; [intros j Hj Hs|]; apply H; try done; rewrite Contains_Add by done;
      [by rewrite Hs|by rewrite Z.eqb_refl, orb_true_r].
  - intros [H1 H2] j Hj. rewrite Contains_Add by done. intros [Hs|E%Z.eqb_eq]%orb_prop; [by apply H1|by subst].
Qed.
Definition allAcked (p : ReplicaContext → bool) g (rev : Z) : Prop :=
  ∀ rc, rc ∈ g_allReplicas g → p rc = true → acked g rev (rc_id rc).
Lemma allAcked_iff p g (Q : Z → Prop) : ids_ok g →
  (∀ j, valid_id j → Contains (idsWhere p g) j = true → Q j) ↔ ∀ rc, rc ∈ g_allReplicas g → p rc = true → Q (rc_id rc).
Proof.
  intros Hg. split.
  - intros H rc Hrc Hp. apply H; [by apply Hg|]. apply Contains_idsWhere; [done|by apply Hg|by exists rc].
  - intros H j Hj (rc & Hrc & Hp & <-)%Contains_idsWhere; try done. by apply H.
Qed.

(** When a step is confirmed.  The engine completes a step exactly when: for an all-members step,
    every member reports the step's revision; for a full-mesh step, every full-mesh member and the
    subject do; for a subject step, the subject does; and in the variants for a leaving replica the
    subject may report revision 0 instead. *)
Theorem confirm_complete (mem : tmem) (g : globalContext) (i : nat) (rc : ReplicaContext) (rev : Z) :
  ids_ok g → g_allReplicas g !! i = Some rc →
  (∃ cr, confirmAllMembers mem g rev = Ok cr ∧ (complete cr ↔ allAcked isMember g rev)) ∧
  (∃ cr, confirmFMPlusSubject mem g (Some i) rev = Ok cr ∧
     (complete cr ↔ allAcked (hasType ConnectsToAllPeers) g rev ∧ acked g rev (rc_id rc))) ∧
  (∃ cr, confirmSubjectOnly mem g (Some i) rev = Ok cr ∧ (complete cr ↔ rvrConfirmed rev rc = true)) ∧
  (∃ cr, confirmAllMembersLeaving mem g (Some i) rev = Ok cr ∧
     (complete cr ↔
        (∀ x, x ∈ g_allReplicas g → isMember x = true → acked g rev (rc_id x) ∨ rc_id x = rc_id rc ∧ rvrLeft rc = true) ∧
        (acked g rev (rc_id rc) ∨ rvrLeft rc = true))) ∧
  (∃ cr, confirmFMPlusSubjectLeaving mem g (Some i) rev = Ok cr ∧
     (complete cr ↔
        (∀ x, x ∈ g_allReplicas g → hasType ConnectsToAllPeers x = true →
           acked g rev (rc_id x) ∨ rc_id x = rc_id rc ∧ rvrLeft rc = true) ∧
        (acked g rev (rc_id rc) ∨ rvrLeft rc = true))).
Proof.
  intros Hg Hi. assert (Hrc := Hg rc (list_elem_of_lookup_2 _ _ _ Hi)). assert (Hn := proj1 Hrc).
  assert (Hall : wf_set (allMemberIDs g)) by (by apply wf_idsWhere).
  assert (Hof : wf_set (Of [rc_id rc])) by (apply Of_wf; by repeat constructor).
  assert (Hfm : wf_set (Union (fullMeshMemberIDs g) (Of [rc_id rc]))) by (apply wf_Union; [by apply wf_idsWhere|done]).
  unfold confirmFMPlusSubject, confirmSubjectOnly, confirmAllMembersLeaving, confirmFMPlusSubjectLeaving, rc_at, index.
  rewrite Hi. simpl. unfold confirmAllMembers, fullMeshMemberIDs, allMemberIDs in *. split_and!; (eexists; split; [reflexivity|]).
  - rewrite must_complete by done. apply (allAcked_iff isMember g (acked g rev)). done.
  - rewrite must_complete, union_subject by done. by rewrite (allAcked_iff _ g (acked g rev)).
  - rewrite complete_iff by (simpl; first [done | case_match; [apply wf_Add; [apply wf_empty|done]|apply wf_empty]]). simpl.
    split.
    + intros H. specialize (H _ Hrc). rewrite Contains_Of1, Z.eqb_refl in H by done. specialize (H eq_refl).
      destruct (rvrConfirmed rev rc); [done|]. by rewrite Contains_empty in H.
    + intros -> j Hj. rewrite Contains_Of1, Contains_Add, Contains_empty by done. done.
  - rewrite must_complete_leaving by (done || by apply wf_Add). rewrite add_subject by done.
    by rewrite (allAcked_iff _ g (λ j, acked g rev j ∨ j = rc_id rc ∧ rvrLeft rc = true)); naive_solver.
  - rewrite must_complete_leaving, union_subject by done.
    by rewrite (allAcked_iff _ g (λ j, acked g rev j ∨ j = rc_id rc ∧ rvrLeft rc = true)); naive_solver.
Qed.
End confirm_theory.

Import v1alpha1 dmte datamesh helpers network quorum resize attachment membership process.

Section dispatch_theory.
Context `{K : K8s}.
Implicit Types (g : globalContext) (rc : ReplicaContext) (d : DispatchDecision nat).

(** A decision either reports the status of a replica in a registered slot, or names a registered
    plan of that transition type and carries a replica exactly when the plan has replica scope. *)
Definition well_typed d : Prop :=
  if String.eqb (d_planID d) "" then
    is_Some (d_replicaCtx d) ∧ is_Some (replicaSlotAccessor theRegistry (d_replicaSlot d))
  else ∃ p, reg_get theRegistry (d_transitionType d) (d_planID d) = Some p ∧
    pl_transitionType p = d_transitionType d ∧
    match pl_scope p with
    | ReplicaScope => is_Some (d_replicaCtx d) ∧ is_Some (replicaSlotAccessor theRegistry (pl_slot p))
    | GlobalScope => d_replicaCtx d = None
    end.
Inductive all_typed : decisions globalContext nat → Prop :=
| at_done : all_typed Done
| at_yield d resume : well_typed d → (∀ mem g ds, resume mem g = Ok ds → all_typed ds) → all_typed (Yield d resume).
Definition typed_dispatch (f : DispatchFunc globalContext nat) : Prop := ∀ mem g, okf (f mem g) all_typed.

Lemma typed_resume d f : well_typed d → typed_dispatch f → all_typed (Yield d f).
Proof. intros Hd Hf. constructor; [done|]. intros mem g ds. exact (okf_Ok _ _ _ (Hf mem g)). Qed.
Lemma typed_finish : typed_dispatch finish.
Proof. intros mem g. constructor. Qed.
Lemma typed_visit dec l rest : (∀ mem g i, okf (dec mem g i) (λ o, ∀ d, o = Some d → well_typed d)) →
  typed_dispatch rest → typed_dispatch (visit dec l rest).
Proof.
  intros Hd Hr. induction l as [|i l IH]; intros mem g; simpl; [apply Hr|].
  eapply okf_bind; [apply Hd|]. intros [d|] Ho; [|apply IH]. apply typed_resume; [by apply Ho|done].
Qed.
Lemma typed_yieldOne (o : option (DispatchDecision nat)) : (∀ d, o = Some d → well_typed d) → all_typed (yieldOne o).
Proof. intros H. destruct o as [d|]; [|constructor]. apply typed_resume; [by apply H|]. apply typed_finish. Qed.

(** Registered plans, by key. *)
Lemma typed_global ty id : (∃ p, reg_get theRegistry ty id = Some p ∧ pl_transitionType p = ty ∧ pl_scope p = GlobalScope) →
  String.eqb id "" = false → well_typed (DispatchGlobal ty id).
Proof. intros (p & Hp & Ht & Hs) Hid. unfold well_typed. simpl. rewrite Hid. exists p. by rewrite Hs. Qed.
Lemma typed_replica i ty id : (∃ p, reg_get theRegistry ty id = Some p ∧ pl_transitionType p = ty ∧
    pl_scope p = ReplicaScope ∧ is_Some (replicaSlotAccessor theRegistry (pl_slot p))) →
  String.eqb id "" = false → well_typed (DispatchReplica i ty id).
Proof. intros (p & Hp & Ht & Hs & Hsl) Hid. unfold well_typed. simpl. rewrite Hid. exists p. rewrite Hs. by split_and!. Qed.
Lemma typed_status i slot msg det : is_Some (replicaSlotAccessor theRegistry slot) → well_typed (NoDispatch i slot msg det).
Proof. intros H. by split. Qed.
Ltac registered := eexists; split; [reflexivity|]; by repeat split.

Lemma network_typed : typed_dispatch networkDispatcher.
Proof.
  intros mem g. apply typed_yieldOne. intros d. destruct (needsAddressRepair g).
  - intros [= <-]. apply typed_global; [registered|done].
  - destruct (in_rsp (g_in g)) as [rsp|]; [|done]. intros (id & Hid & ->)%fmap_Some_1.
    unfold selectNetworkPlan in Hid. repeat case_match; simplify_eq; (apply typed_global; [registered|done]).
Qed.
Lemma quorum_typed : typed_dispatch quorumDispatcher.
Proof.
  intros mem g. unfold quorumDispatcher. destruct (0 <? _); [constructor|]. destruct (computeCorrectQuorum g) as [q qmr].
  destruct (_ && _); [constructor|]. destruct (_ && _); [constructor|]. apply typed_resume; [|apply typed_finish].
  unfold selectQuorumPlan. repeat case_match; (apply typed_global; [registered|done]).
Qed.
Lemma resize_typed : typed_dispatch resizeDispatcher.
Proof.
  intros mem g. apply typed_yieldOne. intros d. case_match; [done|]. intros [= <-]. apply typed_global; [registered|done].
Qed.
Lemma attachment_typed : typed_dispatch attachmentDispatcher.
Proof.
  assert (Hc : typed_dispatch attachmentCandidates).
  { intros mem g. apply typed_visit; [|apply typed_finish]. intros mem' g' i. unfold decideAttachmentForReplica.
    eapply okf_bind; [apply okf_index|]. intros rc _. simpl. intros d Hd.
    repeat case_match; simplify_eq; first [by apply typed_status | apply typed_replica; [registered|done]]. }
  intros mem g. apply typed_visit.
  - intros mem' g' i. unfold decideForceDetach. eapply okf_bind; [apply okf_index|]. intros rc _. simpl. intros d Hd.
    repeat case_match; simplify_eq. apply typed_replica; [registered|done].
  - intros mem' g'. unfold attachmentToggle. destruct (decideMultiattachToggle g') as [d|] eqn:E; [|apply Hc].
    apply typed_resume; [|exact Hc]. unfold decideMultiattachToggle in E.
    repeat case_match; simplify_eq; (apply typed_global; [registered|done]).
Qed.

(** The plans of the membership dispatcher are replica plans in the membership slot. *)
Definition memberPlans_ok (e : TransitionType * string * plan globalContext nat) : Prop :=
  match e.1.1 with
  | AddReplica | RemoveReplica | ChangeReplicaType | ForceRemoveReplica =>
      pl_scope e.2 = ReplicaScope ∧ is_Some (replicaSlotAccessor theRegistry (pl_slot e.2)) ∧ String.eqb e.1.2 "" = false
  | _ => True
  end.
Lemma all_memberPlans_ok : Forall memberPlans_ok (reg_plans theRegistry).
Proof. repeat constructor; simpl; try done; by eexists. Qed.
Lemma membershipChoice_types mem g rc : okf (membershipChoice mem g rc) (λ o, ∀ ty c, o = Some (ty, c) →
  ty = AddReplica ∨ ty = RemoveReplica ∨ ty = ChangeReplicaType ∨ ty = ForceRemoveReplica).
Proof.
  unfold membershipChoice. repeat case_match; simpl; try (intros; simplify_eq; tauto).
  eapply okf_bind; [apply planChangeReplicaType_okf|]. simpl. intros c _ ty c' [= <- <-]. tauto.
Qed.
Lemma membership_typed : typed_dispatch membershipDispatcher.
Proof.
  intros mem g. apply typed_visit; [|apply typed_finish]. intros mem' g' i. unfold membershipDecision.
  eapply okf_bind; [apply okf_index|]. intros rc _. pose proof (membershipChoice_types mem' g' rc) as Hty.
  destruct (membershipChoice mem' g' rc) as [o| |] eqn:E; simpl in *; try done. intros d Hd.
  destruct o as [[ty [id|msg|]]|]; simplify_eq; [|by apply typed_status].
  destruct (choice_plans _ _ _ _ _ E) as (p & _ & Hp & _ & _). pose proof (reg_get_In _ _ _ _ Hp) as Hin.
  pose proof (Forall_elem _ _ _ all_memberPlans_ok Hin) as Hok. pose proof (Forall_elem _ _ _ all_plans_typed Hin) as Ht.
  unfold memberPlans_ok in Hok. simpl in Hok, Ht.
  destruct (Hty _ _ eq_refl) as [->|[->|[->| ->]]]; destruct Hok as (H1 & H2 & H3); (apply typed_replica; [|done]); by exists p.
Qed.

End dispatch_theory.
