(* ===== verification/Scenario.v ===== *)
(** * A concrete volume

    Two diskful members and a tie-breaker on three nodes, healthy and connected, used to instantiate
    the theorems. *)

From Stdlib Require Import ZArith Lia String.
From stdpp Require Import base gmap list numbers strings option.
From S2P Require Import Prelude IdSet DrbdSize Api Dmte Context Datamesh.
Import idset v1alpha1 dmte datamesh process.

Module scenario.
#[export] Existing Instance K8s_concrete.

Definition cond (ty status reason : string) : Condition :=
  {| c_Type := ty; c_Status := status; c_ObservedGeneration := 1; c_LastTransitionTime := 0; c_Reason := reason; c_Message := "" |}.
Definition addr (i : Z) : DRBDResourceAddressStatus :=
  {| a_SystemNetworkName := "Internal"; a_Address := ("10.0.0." +:+ itoa i, 7000) |}.
Definition peer (i : Z) : PeerStatus :=
  {| p_Name := "vol-" +:+ itoa i; p_Type := ReplicaTypeDiskful; p_Attached := false; p_ConnectionEstablishedOn := ["Internal"];
     p_ConnectionState := "Connected"; p_BackingVolumeState := "UpToDate";
     p_ReplicationState := "Established" |}.
Definition node (i : Z) : string := "node-" +:+ itoa i.

Definition rvr (i : Z) (ty : ReplicaType) (peers : list Z) (revision : Z) : ReplicatedVolumeReplica :=
  zeroRVR <| rvr_Name := "vol-" +:+ itoa i |> <| rvr_Generation := 1 |>
    <| rvr_Spec_ReplicatedVolumeName := "vol" |> <| rvr_Spec_NodeName := node i |> <| rvr_Spec_Type := ty |>
    <| rvr_Conditions := [cond "DRBDConfigured" "True" "Configured"; cond "Ready" "True" "Ready"] |>
    <| rvr_DatameshRevision := revision |> <| rvr_Addresses := [addr i] |> <| rvr_Quorum := Some true |>
    <| rvr_BackingVolume := match ty with
                            | ReplicaTypeDiskful => Some {| bv_State := "UpToDate"; bv_Size := Some 1100000000000;
                                                             bv_LVMVolumeGroupName := ""; bv_LVMVolumeGroupThinPoolName := "" |}
                            | _ => None
                            end |>
    <| rvr_Peers := map peer peers |>.
Definition member (i : Z) (ty : DatameshMemberType) : DatameshMember :=
  {| m_Name := "vol-" +:+ itoa i; m_Type := ty; m_NodeName := node i; m_Zone := "a";
     m_Addresses := [addr i]; m_LVMVolumeGroupName := ""; m_LVMVolumeGroupThinPoolName := "";
     m_Attached := false |}.
Definition rvrs (revision : Z) : list ReplicatedVolumeReplica :=
  [rvr 0 ReplicaTypeDiskful [1; 2] revision; rvr 1 ReplicaTypeDiskful [0; 2] revision;
   rvr 2 ReplicaTypeTieBreaker [0; 1] revision].
Definition config : Configuration :=
  {| cfg_ReplicatedStoragePoolName := "pool"; cfg_Topology := TopologyIgnored;
     cfg_FailuresToTolerate := 1; cfg_GuaranteedMinimumDataRedundancy := 0;
     cfg_VolumeAccess := VolumeAccessPreferablyLocal |}.
Definition pool : option RSP := Some
  {| FindEligibleNode n := Some {| en_NodeName := n; en_ZoneName := "a"; en_LVMVolumeGroups := []; en_Unschedulable := false; en_NodeReady := true; en_AgentReady := true |};
     GetSystemNetworkNames := ["Internal"] |}.
Definition emptyLayout : EffectiveLayout :=
  {| el_FailuresToTolerate := None; el_GuaranteedMinimumDataRedundancy := None; el_TotalVoters := 0;
     el_ReachableVoters := 0; el_UpToDateVoters := 0; el_TotalTieBreakers := 0;
     el_ReachableTieBreakers := 0; el_StaleAgents := 0; el_Message := "" |}.
Definition volume : ReplicatedVolume :=
  {| rv_Name := "vol"; rv_Generation := 1; rv_DeletionTimestamp := None;
     rv_Finalizers := []; rv_Labels := None; rv_Annotations := ∅;
     rv_Spec_Size := 1073741824; rv_Spec_MaxAttachments := Some 1;
     rv_Spec_ReplicatedStorageClassName := "class";
     rv_Spec_ConfigurationMode := ModeAuto; rv_Spec_ManualConfiguration := None;
     rv_Conditions := []; rv_Configuration := Some config;
     rv_ConfigurationGeneration := 1; rv_ConfigurationObservedGeneration := 1;
     rv_Status_Size := None; rv_MembershipLayout := None;
     rv_DatameshRevision := 5; rv_SharedSecret := "secret"; rv_SharedSecretAlg := "sha256"; rv_Quorum := 2; rv_QuorumMinimumRedundancy := 1; rv_Multiattach := false;
     rv_SystemNetworkNames := ["Internal"]; rv_Size := 1073741824;
     rv_Members := [member 0 MemberTypeDiskful; member 1 MemberTypeDiskful; member 2 MemberTypeTieBreaker];
     rv_BaselineGMDR := 0; rv_DatameshReplicaRequests := []; rv_DatameshTransitions := [];
     rv_EffectiveLayout := emptyLayout |}.
Definition attachment (i : Z) : ReplicatedVolumeAttachment :=
  {| rva_Name := "rva-" +:+ itoa i; rva_Generation := 1; rva_CreationTimestamp := 10; rva_DeletionTimestamp := None;
     rva_Finalizers := []; rva_Labels := None; rva_Spec_ReplicatedVolumeName := "vol"; rva_NodeName := node i;
     rva_Conditions := []; rva_Phase := PhasePending; rva_Message := ""; rva_DevicePath := "";
     rva_IOSuspended := None; rva_InUse := None |}.
Definition flags : FeatureFlags := {| ShadowDiskful := false |}.
Definition clock : nat → Time := λ n, 100 + Z.of_nat n.

(** One cycle with the registry of BuildRegistry. *)
Definition cycle (rv : ReplicatedVolume) (rs : list ReplicatedVolumeReplica)
    (rvas : list ReplicatedVolumeAttachment) : outcome (bool * list ReplicaContext * ReplicatedVolume) :=
  reg ← BuildRegistry None; ProcessTransitions clock reg rv pool rs rvas flags [].
Definition after (o : outcome (bool * list ReplicaContext * ReplicatedVolume)) : ReplicatedVolume :=
  match o with Ok (_, _, rv) => rv | _ => volume end.
End scenario.
