(* ===== verification/LifecycleTheory.v ===== *)
(** * rv_controller: what the steady state asks of the API server

    The calls of a formed volume; when Access replicas are created and deleted; when a finalizer is
    released; the metadata of a volume; a whole reconciliation. *)

From Stdlib Require Import ZArith Lia String.
From stdpp Require Import base gmap list numbers strings option relations.
From S2P Require Import Prelude Flow IdSet DrbdSize Api Object Storage Client Dmte Context Layout Datamesh.
From S2P Require Import Rollout Requests Replicas RvaStatus Lifecycle Formation FormationSteps Controller.
From S2P Require Import Scenario.
Import idset v1alpha1 dmte datamesh process objutilv1 storage flow client layout rollout requests replicas rva_status lifecycle.

Set Default Proof Using "Type".

Section calm.
Context {K : K8s} {Meta : MetaApi} {S : Server}.
Implicit Types (rv : ReplicatedVolume) (rvr : ReplicatedVolumeReplica) (rvrs : list ReplicatedVolumeReplica)
  (rvas : list ReplicatedVolumeAttachment).

(** The calls of a formed volume: new replicas hold no data, only Access replicas are deleted, and a
    replica is patched to be retyped, to get the finalizer, or to lose it while it is being deleted. *)
Definition calm (e : event) : Prop :=
  match ev_call e with
  | CreateRVR obj => rvr_Spec_Type obj = ReplicaTypeAccess ∨ rvr_Spec_Type obj = ReplicaTypeTieBreaker
  | DeleteRVR obj => rvr_Spec_Type obj = ReplicaTypeAccess ∧ rvr_DeletionTimestamp obj = None
  | PatchRVR base obj =>
      obj = applyRVRRetypeToTieBreaker base ∨
      (rvr_DeletionTimestamp base = None ∧ obj = (AddFinalizer base RVControllerFinalizer).2) ∨
      (is_Some (rvr_DeletionTimestamp base) ∧ obj = (RemoveFinalizer base RVControllerFinalizer).2)
  | PatchRV _ _ | CreateDRBDROp _ | DeleteDRBDROp _ => False
  | _ => True
  end.

Lemma newRVR_props rv rvrs typ node rvr : newRVR rv rvrs typ node = Ok (inr rvr) →
  rvr_Spec_Type rvr = typ ∧ rvr_Spec_NodeName rvr = node ∧ rvr_Spec_ReplicatedVolumeName rvr = rv_Name rv ∧
  rvr_DeletionTimestamp rvr = None ∧ ChooseNewName (rv_Name rv) rvrs = Ok (Some (rvr_Name rvr)).
Proof.
  unfold newRVR. intros H. bok H as name E. destruct name as [n|]; [|done]. injection H as <-. done.
Qed.

Lemma calm_create rv rvrs typ node msg onE onC :
  typ = ReplicaTypeAccess ∨ typ = ReplicaTypeTieBreaker → calls calm onE → (∀ l, calls calm (onC l)) →
  calls calm (createReplica rv rvrs typ node msg onE onC).
Proof.
  intros Ht He Hc. unfold createReplica. apply calls_lift_bind. intros [e|rvr] E; [apply calls_ret|].
  apply newRVR_props in E as (<- & _). unfold createRVR. calls.
Qed.
Lemma calm_convergence rv rvrs rvas : calls calm (reconcileLayoutConvergence rv rvrs rvas).
Proof.
  unfold reconcileLayoutConvergence, convergeLayout, patchRVR. calls; [left; reflexivity|].
  apply calm_create; auto; intros; apply calls_ret.
Qed.
Lemma calm_createAccess rv rsp rvas rvrs nodes : calls calm (createAccess rv rsp rvas rvrs nodes).
Proof.
  revert rvrs nodes. induction rvas as [|a rvas IH]; intros rvrs nodes; simpl; [apply calls_ret|]. calls.
  apply calm_create; auto. apply calls_ret.
Qed.
Lemma calm_deleteRVR rvr : rvr_Spec_Type rvr = ReplicaTypeAccess → calls calm (deleteRVR rvr).
Proof. intros Ht. unfold deleteRVR. calls; simpl; auto. Qed.
Lemma calm_deleteAccess rv a t n rvr : calls calm (deleteAccess rv a t n rvr).
Proof.
  unfold deleteAccess. calls. apply calm_deleteRVR. apply negb_false_iff in E. unfold mayDeleteAccess in E.
  rewrite !andb_true_iff, bool_decide_eq_true in E. tauto.
Qed.
Lemma calm_patchRVAStatus rva base : calls calm (patchRVAStatus rva base).
Proof. unfold patchRVAStatus. calls. Qed.
Hint Resolve calm_createAccess calm_deleteAccess calm_convergence calm_patchRVAStatus : calls.
Lemma calm_updateRVA c c' r rva : calls calm (updateRVA c c' r rva).
Proof. unfold updateRVA. calls. Qed.
Hint Resolve calm_updateRVA : calls.
Lemma calm_updateContexts cs : calls calm (updateContexts cs).
Proof. induction cs as [|c cs IH]; simpl; [apply calls_ret|]. unfold updateContext. calls. Qed.
Hint Resolve calm_updateContexts : calls.
Lemma calm_normal registry rv rvrs rvas rsp : calls calm (reconcileNormalOperation registry rv rvrs rvas rsp).
Proof.
  unfold reconcileNormalOperation, reconcileCreateAccessReplicas, reconcileRVAConditionsFromDatameshReplicaContext,
    reconcileDeleteAccessReplicas. calls.
Qed.
Lemma calm_layoutStatus rv rvrs rvas : calls calm (reconcileLayoutStatus rv rvrs rvas).
Proof.
  unfold reconcileLayoutStatus. calls. repeat case_match;
    unfold applyMembershipLayoutConvergedCondTrue, applyMembershipLayoutConvergedCondFalse, applyMembershipLayoutConvergedCondUnknown; calls.
Qed.
Lemma calm_keepFinalizer (rv : option ReplicatedVolume) rvr : calls calm (keepFinalizer rv rvr).
Proof. unfold keepFinalizer, patchRVR. calls; simpl; [right; right|right; left]; split; try done; by eexists. Qed.
Lemma calm_finalizers (rv : option ReplicatedVolume) rvrs : calls calm (reconcileRVRFinalizers rv rvrs).
Proof. unfold reconcileRVRFinalizers. calls. apply calm_keepFinalizer. Qed.
Lemma calm_rvaMetadata (rv : option ReplicatedVolume) rvas : calls calm (reconcileRVAMetadata rv rvas).
Proof.
  unfold reconcileRVAMetadata. apply calls_fmap. generalize (@nil ReplicatedVolumeAttachment) as prefix.
  induction rvas as [|a rvas IH]; intros prefix; simpl; [apply calls_ret|]. unfold keepRVA, patchRVA. calls.
Qed.
Lemma calm_configuration rv rsc : calls calm (reconcileRVConfiguration rv rsc).
Proof.
  unfold reconcileRVConfiguration, restamp, holdBack, observe, adopt, rejectZones, throttle, storeConfiguration,
    applyConfigurationReadyCondTrue, applyConfigurationReadyCondFalse, getRSPZoneCount, getRVsByRSC. calls.
Qed.
Lemma calm_requests rv rvrs : calls calm (ensureDatameshReplicaRequests rv rvrs).
Proof.
  unfold ensureDatameshReplicaRequests.
  assert (Hd : ∀ l, calls calm (drainRVRs l)) by (induction l; simpl; unfold newRequest; calls).
  assert (Hm : ∀ ex l, calls calm (mergeRequests ex l)).
  { induction ex as [|e ex IHe]; [intros l; destruct l; apply Hd|]. induction l as [|r l IH]; [apply calls_ret|].
    simpl. unfold newRequest. calls. }
  calls.
Qed.
End calm.

(** ** Access replicas *)
Section access.
Context {K : K8s} {Meta : MetaApi} {S : Server}.
Implicit Types (rv : ReplicatedVolume) (rvr : ReplicatedVolumeReplica) (rvrs : list ReplicatedVolumeReplica)
  (rvas : list ReplicatedVolumeAttachment) (rsp : rspView) (node : string) (es : list event).

(** The nodes on which a list of calls creates replicas. *)
Definition createdOn es : list string :=
  omap (λ e, match ev_call e with CreateRVR obj => Some (rvr_Spec_NodeName obj) | _ => None end) es.
Lemma createdOn_app es es' : createdOn (es ++ es') = createdOn es ++ createdOn es'.
Proof. apply omap_app. Qed.
Definition hostable rsp node : Prop :=
  ∃ en, findEligibleNode rsp node = Ok (Some en) ∧ en_NodeReady en = true ∧ en_AgentReady en = true.
Definition wantedOn rvas node : Prop := ∃ a, a ∈ rvas ∧ rva_NodeName a = node ∧ rva_DeletionTimestamp a = None.

(** What creating a replica may call. *)
Definition accessCreation rv rsp rvas (taken : gset string) (e : event) : Prop :=
  match ev_call e with
  | CreateRVR obj => rvr_Spec_Type obj = ReplicaTypeAccess ∧ rvr_Spec_ReplicatedVolumeName obj = rv_Name rv ∧
      rvr_Spec_NodeName obj ∉ taken ∧ wantedOn rvas (rvr_Spec_NodeName obj) ∧ hostable rsp (rvr_Spec_NodeName obj)
  | ControllerRef _ owner => owner = rv
  | _ => False
  end.
Lemma accessCreation_weaken rv rsp rvas rvas' taken taken' e : (∀ a, a ∈ rvas → a ∈ rvas') → taken' ⊆ taken →
  accessCreation rv rsp rvas taken e → accessCreation rv rsp rvas' taken' e.
Proof.
  intros Ha Ht. destruct e as [T c]. unfold accessCreation. simpl. destruct c; try done.
  intros (? & ? & ? & (a & ? & ? & ?) & ?). split_and!; try done; [set_solver|]. exists a. auto.
Qed.
Definition accessRun rv rsp rvas (taken : gset string) es : Prop :=
  Forall (accessCreation rv rsp rvas taken) es ∧ NoDup (createdOn es).
Lemma accessRun_nil rv rsp rvas taken : accessRun rv rsp rvas taken [].
Proof. split; constructor. Qed.
Lemma accessRun_weaken rv rsp rvas rvas' taken taken' es : (∀ a, a ∈ rvas → a ∈ rvas') → taken' ⊆ taken →
  accessRun rv rsp rvas taken es → accessRun rv rsp rvas' taken' es.
Proof. intros ?? [H ?]. split; [|done]. eapply Forall_impl; [exact H|]. intros e. by apply accessCreation_weaken. Qed.
(** A creation on [node], then a run that leaves it alone. *)
Lemma accessRun_cons rv rsp rvas taken node obj es : rvr_Spec_NodeName obj = node →
  accessCreation rv rsp rvas taken (Event _ (CreateRVR obj)) → accessRun rv rsp rvas ({[node]} ∪ taken) es →
  accessRun rv rsp rvas taken (Event _ (ControllerRef obj rv) :: Event _ (CreateRVR obj) :: es).
Proof.
  intros Hn Ho [H Hd]. split.
  - constructor; [done|]. constructor; [done|]. eapply Forall_impl; [exact H|]. intros e. apply accessCreation_weaken; set_solver.
  - unfold createdOn. simpl. rewrite Hn. constructor; [|done]. intros (e & He & E)%list_elem_of_omap. rewrite Forall_forall in H.
    specialize (H e He). unfold accessCreation in H. destruct (ev_call e); try done. injection E as E. set_solver.
Qed.
Lemma createReplica_run rv rvrs typ node msg onE onC w : let es := (createReplica rv rvrs typ node msg onE onC w).2.1 in
  es = [] ∨ ∃ obj, newRVR rv rvrs typ node = Ok (inr obj) ∧ ∃ es', es = Event _ (ControllerRef obj rv) :: es' ∧
    (es' = [] ∨ ∃ es2, es' = Event _ (CreateRVR obj) :: es2 ∧ (es2 = [] ∨ ∃ w', es2 = (onE w').2.1 ∨ ∃ l, es2 = (onC l w').2.1)).
Proof.
  unfold createReplica, createRVR, mbind, M_bind, lift, do. destruct (newRVR rv rvrs typ node) as [[e|obj]|s|]; simpl; try by left.
  destruct (serve (ControllerRef obj rv) w) as [w1 [e|]]; simpl; right; exists obj; (split; [done|]).
  { eexists. split; [done|]. by left. }
  destruct (serve (CreateRVR obj) w1) as [w2 [o|e|e|e]]; simpl.
  - destruct (insertRVRSorted rvrs o) as [l|s|]; simpl; [destruct (onC l w2) as [w3 [es r]] eqn:E; simpl| |];
      (eexists; split; [done|]; right; eexists; split; [done|]); [|by left..]. right. exists w2. right. exists l. by rewrite E.
  - eexists; split; [done|]; right; eexists; split; [done|]. by left.
  - destruct (onE w2) as [w3 [es r]] eqn:E. simpl. eexists; split; [done|]; right; eexists; split; [done|]. right. exists w2. left. by rewrite E.
  - eexists; split; [done|]; right; eexists; split; [done|]. by left.
Qed.
Lemma createAccess_run rv rsp rvas rvrs taken : ∀ w, accessRun rv rsp rvas taken (createAccess rv rsp rvas rvrs taken w).2.1.
Proof.
  revert rvrs taken. induction rvas as [|a rvas IH]; intros rvrs taken w; simpl; [apply accessRun_nil|].
  assert (Hskip : accessRun rv rsp (a :: rvas) taken (createAccess rv rsp rvas rvrs taken w).2.1).
  { eapply accessRun_weaken; [..|apply IH]; set_solver. }
  destruct (bool_decide_reflect (is_Some (rva_DeletionTimestamp a))) as [|Hact]; [exact Hskip|].
  destruct (bool_decide_reflect (rva_NodeName a ∈ taken)) as [|Hfree]; [exact Hskip|].
  unfold mbind at 1, M_bind at 1, lift at 1. destruct (findEligibleNode rsp (rva_NodeName a)) as [[en|]|s|] eqn:Ee; try apply accessRun_nil.
  2: { by destruct (createAccess rv rsp rvas rvrs taken w) as [? [? ?]]. }
  destruct (negb (en_NodeReady en) || negb (en_AgentReady en)) eqn:Er.
  { by destruct (createAccess rv rsp rvas rvrs taken w) as [? [? ?]]. }
  destruct (32 <=? Z.of_nat (length rvrs)); [apply accessRun_nil|]. apply orb_false_iff in Er as [Hn%negb_false_iff Ha%negb_false_iff].
  set (onC := λ l, createAccess rv rsp rvas l ({[rva_NodeName a]} ∪ taken)).
  assert (Hrun : accessRun rv rsp (a :: rvas) taken
    (createReplica rv rvrs ReplicaTypeAccess (rva_NodeName a) ("creating Access RVR for node " +:+ rva_NodeName a) (mret (rvrs, DoneAndRequeue)) onC w).2.1).
  2: { revert Hrun. simpl. by destruct (createReplica _ _ _ _ _ _ _ w) as [? [? ?]]. }
  destruct (createReplica_run rv rvrs ReplicaTypeAccess (rva_NodeName a) ("creating Access RVR for node " +:+ rva_NodeName a)
              (mret (rvrs, DoneAndRequeue)) onC w) as [->|(obj & Hobj & es' & -> & Hes)]; [apply accessRun_nil|].
  apply newRVR_props in Hobj as (Ht & Hnode & Hrv & _).
  assert (Hc : accessCreation rv rsp (a :: rvas) taken (Event _ (CreateRVR obj))).
  { unfold accessCreation. simpl. rewrite Hnode. split_and!; try done; [exists a; split_and!; [left|done|by apply eq_None_not_Some]|by exists en]. }
  destruct Hes as [->|(es2 & -> & Hes)]; [split; [by constructor|constructor]|].
  eapply accessRun_cons; [exact Hnode|exact Hc|]. destruct Hes as [->|(w' & [->|[l ->]])]; [apply accessRun_nil..|].
  eapply accessRun_weaken; [..|apply IH]; set_solver.
Qed.

(** Access replicas are created only where they serve.  Every creation is of an Access replica of
    this volume, on a node with an active attachment, without a replica of the volume, eligible in the
    pool, ready and with a ready agent; no two creations of a pass are on one node; and a volume that
    is being deleted, or whose access is local, or whose pool is unknown, gets none. *)
Theorem access_created_where_needed rv rvrs rvas (rsp : option rspView) w :
  let es := (reconcileCreateAccessReplicas rv rvrs rvas rsp w).2.1 in
  NoDup (createdOn es) ∧
  Forall (λ e, match ev_call e with
    | CreateRVR obj => rvr_Spec_Type obj = ReplicaTypeAccess ∧ rvr_Spec_ReplicatedVolumeName obj = rv_Name rv ∧
        (∀ r, r ∈ rvrs → rvr_Spec_NodeName r = rvr_Spec_NodeName obj → rvr_Spec_NodeName obj = "") ∧
        wantedOn rvas (rvr_Spec_NodeName obj) ∧ (∃ v, rsp = Some v ∧ hostable v (rvr_Spec_NodeName obj)) ∧
        rv_DeletionTimestamp rv = None ∧ ∃ cfg, rv_Configuration rv = Some cfg ∧ cfg_VolumeAccess cfg ≠ VolumeAccessLocal
    | ControllerRef _ _ => True
    | _ => False
    end) es.
Proof.
  intros es.
  assert (Hes : es = [] ∨ ∃ cfg v, rv_DeletionTimestamp rv = None ∧ rv_Configuration rv = Some cfg ∧ cfg_VolumeAccess cfg ≠ VolumeAccessLocal ∧
            rsp = Some v ∧ accessRun rv v rvas (nodesOfRVRs rvrs) es).
  { subst es. unfold reconcileCreateAccessReplicas, fmap, M_fmap, mbind, M_bind. destruct (rv_DeletionTimestamp rv) eqn:Ed; [by left|]. unfold lift.
    destruct (rv_Configuration rv) as [cfg|] eqn:Ec; simpl; [|by left].
    destruct (bool_decide_reflect (cfg_VolumeAccess cfg = VolumeAccessLocal)); [by left|]. destruct rsp as [v|]; [|by left]. right.
    pose proof (createAccess_run rv v rvas rvrs (nodesOfRVRs rvrs) w) as H.
    destruct (createAccess rv v rvas rvrs (nodesOfRVRs rvrs) w) as [w' [es [y|s|]]]; simpl in *; exists cfg, v; rewrite ?app_nil_r; done. }
  destruct Hes as [->|(cfg & v & Hd & Hc & Hl & -> & Hf & Hn)]; [split; constructor|]. split; [done|].
  eapply Forall_impl; [exact Hf|]. intros [T c]. unfold accessCreation. simpl. destruct c; try done.
  intros (? & ? & Hfree & ? & ?). split_and!; try done; [|by exists v|by exists cfg].
  intros r Hr Hnode. destruct (String.eqb_spec (rvr_Spec_NodeName obj) "") as [|Hne]; [done|]. destruct Hfree. unfold nodesOfRVRs.
  apply elem_of_list_to_set. rewrite <-Hnode in Hne |- *. apply list_elem_of_In, List.filter_In. split; [apply in_map; by apply list_elem_of_In|].
  by apply String.eqb_neq in Hne as ->.
Qed.

Lemma ReplicaID_nonneg t id : ReplicaID t = Ok id → 0 ≤ id.
Proof. unfold ReplicaID. destruct (String.eqb _ _); [done|]. intros [= <-]. apply idFromName_nonneg. Qed.
Lemma busyIDs_spec ts s ids : busyIDs ts s = Ok ids →
  ∀ id, valid_id id → Contains s id = true ∨
    (∃ t, t ∈ ts ∧ (t_Type t = Detach ∨ t_Type t = AddReplica) ∧ ReplicaID t = Ok id) → Contains ids id = true.
Proof.
  revert s. induction ts as [|t ts IH]; intros s H id Hid; simpl in H.
  { injection H as <-. intros [?|(t & Ht & _)]; [done|]. by apply elem_of_nil in Ht. }
  destruct (bool_decide (t_Type t = Detach) || bool_decide (t_Type t = AddReplica)) eqn:E.
  - bok H as i Ei. pose proof (ReplicaID_nonneg _ _ Ei) as Hi. intros [Hs|(x & [->|Hx]%elem_of_cons & Hty & Hx')]; eapply IH; try done.
    + left. rewrite Contains_Add by done. by rewrite Hs.
    + left. rewrite Hx' in Ei. injection Ei as <-. rewrite Contains_Add by done. by rewrite Z.eqb_refl, orb_true_r.
    + right. by exists x.
  - intros [Hs|(x & [->|Hx]%elem_of_cons & Hty & Hx')]; eapply IH; try done; [by left| |right; by exists x].
    exfalso. rewrite orb_false_iff, !bool_decide_eq_false in E. tauto.
Qed.

(** an Access replica is deleted only when it is idle.  Every deletion is of an Access replica of
    the listing that is not being deleted yet, whose member is not attached, that no Detach and no
    AddReplica transition is about, and that is either redundant (another member is on its node) or on
    a node without an active attachment. *)
Theorem access_deleted_when_idle rv rvrs rvas :
  calls (λ e, match ev_call e with
    | DeleteRVR obj => obj ∈ rvrs ∧ rvr_Spec_Type obj = ReplicaTypeAccess ∧ rvr_DeletionTimestamp obj = None ∧
        (valid_id (rvr_ID obj) →
          (∀ m, m ∈ rv_Members rv → m_ID m = rvr_ID obj → m_Attached m = false) ∧
          (∀ t, t ∈ rv_DatameshTransitions rv → t_Type t = Detach ∨ t_Type t = AddReplica → ReplicaID t ≠ Ok (rvr_ID obj))) ∧
        ((∃ m, m ∈ rv_Members rv ∧ m_NodeName m = rvr_Spec_NodeName obj ∧ m_Name m ≠ rvr_Name obj) ∨
         ¬ wantedOn rvas (rvr_Spec_NodeName obj))
    | Now => True
    | _ => False
    end) (reconcileDeleteAccessReplicas rv rvrs rvas).
Proof.
  unfold reconcileDeleteAccessReplicas. apply calls_lift_bind. intros busy Hb.
  apply calls_fmap, calls_range. intros r Hr. unfold deleteAccess. destruct (mayDeleteAccess _ _ _ _ r) eqn:E; [|apply calls_ret].
  unfold mayDeleteAccess in E. rewrite !andb_true_iff, !bool_decide_eq_true, !negb_true_iff, orb_true_iff in E.
  destruct E as ((((Hty & Hdel) & Hatt) & Hbusy) & Hwhy). simpl. unfold deleteRVR. rewrite Hdel.
  assert (Hwhy' : (∃ m, m ∈ rv_Members rv ∧ m_NodeName m = rvr_Spec_NodeName r ∧ m_Name m ≠ rvr_Name r) ∨ ¬ wantedOn rvas (rvr_Spec_NodeName r)).
  { destruct Hwhy as [Hred|Hun]; [left|right].
    - unfold isRedundant in Hred. apply existsb_exists in Hred as (m & Hin & [Hn%String.eqb_eq Hne%negb_true_iff%String.eqb_neq]%andb_prop).
      exists m. by rewrite list_elem_of_In.
    - apply negb_true_iff, bool_decide_eq_false in Hun. intros (a & Ha & Hn & Hd). destruct Hun. unfold activeRVANodes.
      apply elem_of_list_to_set. rewrite <-Hn. apply list_elem_of_In, in_map, List.filter_In. split; [by apply list_elem_of_In|]. by rewrite Hd. }
  calls. split_and!; try done. intros Hv. split.
  - intros m Hin Hid. rewrite Contains_FromWhere in Hatt by (done || apply Forall_true; intros; apply idFromName_nonneg). destruct (m_Attached m) eqn:Ea; [|done].
    apply not_true_iff_false in Hatt. destruct Hatt. apply existsb_exists. exists m. rewrite Ea, Hid, Z.eqb_refl.
    split; [by apply list_elem_of_In|done].
  - intros t Hin Hty' Hid. rewrite (busyIDs_spec _ _ _ Hb) in Hbusy; [done|done|]. right. by exists t.
Qed.
End access.

(** ** Finalizers *)
Section finalizers.
Context {K : K8s} {Meta : MetaApi} {S : Server}.
Implicit Types (rv : ReplicatedVolume) (rvr : ReplicatedVolumeReplica) (rvrs : list ReplicatedVolumeReplica)
  (rvas : list ReplicatedVolumeAttachment).

Lemma removeFirst_perm f l : slices_Contains l f = true → l ≡ₚ f :: removeFirst f l.
Proof.
  unfold slices_Contains. rewrite bool_decide_eq_true. induction l as [|x l IH]; [by intros ?%elem_of_nil|]. simpl.
  destruct (String.eqb_spec x f) as [->|Hne]; [done|]. intros [->|Hin]%elem_of_cons; [done|]. rewrite (IH Hin) at 1. apply Permutation_swap.
Qed.

(** the controller's finalizer leaves a replica last.  Every patch of the finalizer pass either gives
    the finalizer to a replica of the listing that is not being deleted and lacks it, or takes it from
    one that is being deleted, is no member of the datamesh, and has no RemoveReplica transition. *)
Theorem finalizer_released_after_leaving rv rvrs :
  calls (λ e, match ev_call e with
    | PatchRVR base obj => base ∈ rvrs ∧
        ((rvr_DeletionTimestamp base = None ∧ HasFinalizer base RVControllerFinalizer = false ∧
          rvr_Finalizers obj = rvr_Finalizers base ++ [RVControllerFinalizer]) ∨
         (is_Some (rvr_DeletionTimestamp base) ∧ HasFinalizer base RVControllerFinalizer = true ∧
          rvr_Finalizers base ≡ₚ RVControllerFinalizer :: rvr_Finalizers obj ∧
          (∀ m, m ∈ rv_Members rv → m_Name m ≠ rvr_Name base) ∧
          (∀ t, t ∈ rv_DatameshTransitions rv → t_Type t = RemoveReplica → t_ReplicaName t ≠ rvr_Name base)))
    | _ => False
    end) (reconcileRVRFinalizers (Some rv) rvrs).
Proof.
  unfold reconcileRVRFinalizers. apply calls_fmap, calls_range. intros r Hr. unfold keepFinalizer, patchRVR.
  destruct (rvr_DeletionTimestamp r) as [since|] eqn:Ed; destruct (HasFinalizer r RVControllerFinalizer) eqn:Ef; simpl; try apply calls_ret.
  - destruct (isMember rv (rvr_Name r) || _) eqn:Em; [apply calls_ret|]. apply orb_false_iff in Em as [Em Et].
    calls. split; [done|right]. unfold RemoveFinalizer. unfold HasFinalizer in Ef. simpl in Ef |- *. rewrite Ef. simpl.
    split_and!; [by eexists|done|by apply removeFirst_perm|..].
    + intros m Hm Hn. unfold isMember, FindMemberByName in Em. apply bool_decide_eq_false in Em. destruct Em.
      destruct (List.find _ _) eqn:E; [by eexists|]. eapply find_none in E; [|by apply list_elem_of_In]. by rewrite Hn, String.eqb_refl in E.
    + intros t Ht Hty Hn. apply not_true_iff_false in Et. destruct Et. apply existsb_exists. exists t.
      rewrite Hty, Hn, String.eqb_refl. split; [by apply list_elem_of_In|done].
  - calls. split; [done|left]. unfold AddFinalizer. unfold HasFinalizer in Ef. simpl in Ef |- *. by rewrite Ef.
Qed.

(** *** The volume *)
Lemma SetLabel_finalizers rv k v : rv_Finalizers (SetLabel rv k v).2 = rv_Finalizers rv.
Proof. unfold SetLabel. by repeat case_match. Qed.
Lemma RemoveLabel_finalizers rv k : rv_Finalizers (RemoveLabel rv k).2 = rv_Finalizers rv.
Proof. unfold RemoveLabel. by repeat case_match. Qed.
Lemma SetLabel_value rv k v : HasLabelValue (SetLabel rv k v).2 k v = true.
Proof.
  unfold SetLabel, HasLabelValue. simpl. destruct (default ∅ (rv_Labels rv) !! k) as [x|] eqn:E.
  - destruct (String.eqb_spec x v) as [->|]; simpl; [|by rewrite lookup_insert_eq; simpl; apply String.eqb_refl].
    destruct (rv_Labels rv); simpl in *; [rewrite E; apply String.eqb_refl|by rewrite lookup_empty in E].
  - simpl. rewrite lookup_insert_eq. apply String.eqb_refl.
Qed.
Lemma RemoveLabel_absent rv k : HasLabel (RemoveLabel rv k).2 k = false.
Proof.
  unfold RemoveLabel, HasLabel. simpl. destruct (rv_Labels rv) as [m|] eqn:E; simpl; [|by rewrite E].
  destruct (bool_decide_reflect (is_Some (m !! k))) as [|Hn]; simpl; [rewrite lookup_delete_eq; by apply bool_decide_false; intros []|].
  rewrite E. by apply bool_decide_false.
Qed.
Definition withFinalizer rv (target : bool) : bool * ReplicatedVolume :=
  if target then AddFinalizer rv RVControllerFinalizer else RemoveFinalizer rv RVControllerFinalizer.
Definition withClassLabel rv : bool * ReplicatedVolume :=
  if negb (String.eqb (rv_Spec_ReplicatedStorageClassName rv) "")
  then SetLabel rv ReplicatedStorageClassLabelKey (rv_Spec_ReplicatedStorageClassName rv)
  else RemoveLabel rv ReplicatedStorageClassLabelKey.
Lemma applyRVMetadata_eq rv target : applyRVMetadata rv target =
  ((withFinalizer rv target).1 || (withClassLabel (withFinalizer rv target).2).1, (withClassLabel (withFinalizer rv target).2).2).
Proof.
  unfold applyRVMetadata. fold (withFinalizer rv target). destruct (withFinalizer rv target) as [c1 rv1].
  fold (withClassLabel rv1). cbn [fst snd]. destruct (withClassLabel rv1). done.
Qed.
Lemma withClassLabel_finalizers rv : rv_Finalizers (withClassLabel rv).2 = rv_Finalizers rv.
Proof. unfold withClassLabel. destruct (negb _); [apply SetLabel_finalizers|apply RemoveLabel_finalizers]. Qed.
Lemma withClassLabel_frame rv : (withClassLabel rv).2 = rv <| rv_Labels := rv_Labels (withClassLabel rv).2 |>.
Proof.
  destruct rv. unfold withClassLabel, SetLabel, RemoveLabel, GetLabels, SetLabels, rv_object, sco_object.
  cbn [rv_Labels rv_Spec_ReplicatedStorageClassName]. repeat case_match; done.
Qed.
Lemma finalizer_target rv target : NoDup (rv_Finalizers rv) →
  let fs := rv_Finalizers (withFinalizer rv target).2 in
  slices_Contains fs RVControllerFinalizer = target ∧ ∀ f, f ≠ RVControllerFinalizer → f ∈ fs ↔ f ∈ rv_Finalizers rv.
Proof.
  intros Hnd. unfold withFinalizer, AddFinalizer, RemoveFinalizer. simpl.
  destruct target, (slices_Contains (rv_Finalizers rv) RVControllerFinalizer) eqn:E; simpl; (split; [try done|try done]).
  - unfold slices_Contains. apply bool_decide_eq_true. set_solver.
  - set_solver.
  - pose proof (removeFirst_perm _ _ E) as Hp. rewrite Hp in Hnd. apply NoDup_cons in Hnd as [Hn _]. by apply bool_decide_eq_false.
  - intros f Hf. rewrite (removeFirst_perm _ _ E) at 2. set_solver.
Qed.
Lemma label_target rv : let k := ReplicatedStorageClassLabelKey in let v := rv_Spec_ReplicatedStorageClassName rv in
  let rv' := (withClassLabel rv).2 in
  (if negb (String.eqb v "") then HasLabelValue rv' k v else negb (HasLabel rv' k)) = true ∧
  ∀ k', k' ≠ k → default ∅ (rv_Labels rv') !! k' = default ∅ (rv_Labels rv) !! k'.
Proof.
  intros k v. unfold withClassLabel. fold k v. destruct (negb (String.eqb v "")); simpl; (split; [|intros k' Hne]).
  - apply SetLabel_value.
  - unfold SetLabel. simpl. destruct (default ∅ (rv_Labels rv) !! k) as [x|]; [destruct (String.eqb x v); [done|]|]; simpl; by rewrite lookup_insert_ne.
  - by rewrite RemoveLabel_absent.
  - unfold RemoveLabel. simpl. destruct (rv_Labels rv) as [m|] eqn:E; simpl; [|by rewrite E].
    destruct (bool_decide _); simpl; [by rewrite lookup_delete_ne|by rewrite E].
Qed.
Lemma in_sync_unchanged rv target : isRVMetadataInSync rv target = true → applyRVMetadata rv target = (false, rv).
Proof.
  rewrite applyRVMetadata_eq. unfold isRVMetadataInSync. destruct (Bool.eqb (HasFinalizer rv RVControllerFinalizer) target) eqn:E; [|done]. simpl.
  apply eqb_prop in E. intros H.
  assert (Hf : withFinalizer rv target = (false, rv)).
  { unfold withFinalizer, AddFinalizer, RemoveFinalizer, HasFinalizer in *; simpl in *. by destruct target; rewrite E. }
  rewrite Hf. unfold withClassLabel. simpl. destruct (String.eqb_spec (rv_Spec_ReplicatedStorageClassName rv) "") as [Hs|Hs]; simpl in *.
  - apply negb_true_iff in H. unfold RemoveLabel, HasLabel in *. simpl in *. destruct (rv_Labels rv) as [m|]; [|done]. by rewrite H.
  - unfold SetLabel, HasLabelValue in *. simpl in *. destruct (rv_Labels rv) as [m|]; [|done]. simpl. apply String.eqb_eq in H.
    destruct (m !! ReplicatedStorageClassLabelKey) as [x|]; simpl in H; [subst x; by rewrite String.eqb_refl|by rewrite <-H in Hs].
Qed.

(** The metadata of a volume settles in one patch.  Applying the target (the finalizer wanted or
    not, the label of the storage class or none) gives an object that is in sync; an object in sync is
    left unchanged; and the other finalizers, the other labels, the spec and the status are kept. *)
Theorem metadata_settles rv target : NoDup (rv_Finalizers rv) →
  let rv' := (applyRVMetadata rv target).2 in
  isRVMetadataInSync rv' target = true ∧ applyRVMetadata rv' target = (false, rv') ∧
  (isRVMetadataInSync rv target = true → applyRVMetadata rv target = (false, rv)) ∧
  (∀ f, f ≠ RVControllerFinalizer → f ∈ rv_Finalizers rv' ↔ f ∈ rv_Finalizers rv) ∧
  (∀ k, k ≠ ReplicatedStorageClassLabelKey → default ∅ (rv_Labels rv') !! k = default ∅ (rv_Labels rv) !! k) ∧
  rv' = rv <| rv_Finalizers := rv_Finalizers rv' |> <| rv_Labels := rv_Labels rv' |>.
Proof.
  intros Hnd rv'. destruct (finalizer_target rv target Hnd) as [Hf Hfo]. cbv zeta in Hf, Hfo.
  assert (E : rv' = (withClassLabel (withFinalizer rv target).2).2) by (unfold rv'; by rewrite applyRVMetadata_eq).
  pose proof (label_target (withFinalizer rv target).2) as [Hl Hlo]. cbv zeta in Hl, Hlo. rewrite <-E in Hl, Hlo.
  pose proof (withClassLabel_finalizers (withFinalizer rv target).2) as Hfs. rewrite <-E in Hfs.
  assert (E1 : (withFinalizer rv target).2 = rv <| rv_Finalizers := rv_Finalizers rv' |>).
  { rewrite Hfs. destruct rv. unfold withFinalizer, AddFinalizer, RemoveFinalizer, GetFinalizers, SetFinalizers, rv_object, sco_object. cbn [rv_Finalizers].
    destruct target; repeat case_match; done. }
  assert (E2 : rv' = rv <| rv_Finalizers := rv_Finalizers rv' |> <| rv_Labels := rv_Labels rv' |>).
  { rewrite <-E1. pose proof (withClassLabel_frame (withFinalizer rv target).2) as H. by rewrite <-E in H. }
  assert (Hs : isRVMetadataInSync rv' target = true).
  { unfold isRVMetadataInSync, HasFinalizer. simpl. rewrite Hfs, Hf, eqb_reflx. simpl.
    rewrite E1 in Hl. simpl in Hl. by rewrite E2. }
  split_and!; [done|by apply in_sync_unchanged|apply in_sync_unchanged| | |exact E2].
  - intros f Hne. rewrite Hfs. by apply Hfo.
  - intros k Hne. rewrite Hlo by done. by rewrite E1.
Qed.
End finalizers.

Lemma metadata_settles_witness :
  @isRVMetadataInSync K8s_concrete scenario.volume true = false ∧
  @isRVMetadataInSync K8s_concrete (@applyRVMetadata K8s_concrete scenario.volume true).2 true = true.
Proof. split; [reflexivity|]. apply (@metadata_settles K8s_concrete scenario.volume true). constructor. Defined.

Import idset v1alpha1 dmte datamesh process objutilv1 storage flow client layout rollout requests replicas rva_status lifecycle
  formation formation_steps controller.

Section controller.
Context {K : K8s} {Meta : MetaApi} {S : Server}.
Context (registry : option (Registry globalContext rptr)).
Implicit Types (rv : ReplicatedVolume) (rvrs : list ReplicatedVolumeReplica) (rvas : list ReplicatedVolumeAttachment)
  (rsc : option ReplicatedStorageClass).

Lemma requests_frame P rv rvrs : calls P (ensureDatameshReplicaRequests rv rvrs) →
  triple False P (ensureDatameshReplicaRequests rv rvrs) (λ y, ∃ l, y.1 = rv <| rv_DatameshReplicaRequests := l |>).
Proof.
  intros H w. split; [apply H|]. unfold ensureDatameshReplicaRequests, mbind, M_bind.
  destruct (mergeRequests _ _ w) as [w' [es [[c l]|s|]]]; simpl; [|tauto..]. by eexists.
Qed.
Lemma calm_finish base p : calls calm (finishPass base p).
Proof.
  unfold finishPass. assert (H1 := λ rv, calm_rvaMetadata (Some rv) (ps_rvas p)). assert (H2 := λ rv, calm_finalizers (Some rv) (ps_rvrs p)).
  assert (H3 : ∀ rv, calls calm (patchRVStatus rv base)) by (intros; unfold patchRVStatus; calls).
  calls; auto.
Qed.


(** *** Deletion *)
Lemma range_length {A R} P (body : A → M (A * option R)) l : calls P (rangeM body l) →
  triple False P (rangeM body l) (λ y, length y.1 = length l).
Proof.
  intros H w. split; [apply H|]. clear H. revert w. induction l as [|x l IH]; intros w; simpl; [done|].
  unfold mbind, M_bind. destruct (body x w) as [w1 [es1 [[y [r|]]|s|]]]; simpl; try tauto.
  specialize (IH w1). unfold mbind, M_bind in IH. destruct (rangeM body l w1) as [w2 [es2 [[l2 r2]|s|]]]; simpl in *; try tauto. by f_equal.
Qed.
Lemma metadata_finalizer rv : HasFinalizer (applyRVMetadata rv true).2 RVControllerFinalizer = true.
Proof.
  rewrite applyRVMetadata_eq. unfold HasFinalizer. simpl. rewrite withClassLabel_finalizers.
  unfold withFinalizer, AddFinalizer. simpl. destruct (slices_Contains (rv_Finalizers rv) RVControllerFinalizer) eqn:E; simpl; [done|].
  apply bool_decide_eq_true. set_solver.
Qed.
(** The calls while a volume goes: its finalizer is kept while there are replicas. *)
Definition releasedAfter rvrs (e : event) : Prop :=
  match ev_call e with
  | PatchRV base obj => HasFinalizer obj RVControllerFinalizer = true ∨ (is_Some (rv_DeletionTimestamp base) ∧ rvrs = [])
  | CreateRVR _ | CreateDRBDROp _ => False
  | _ => True
  end.
Lemma metadata_released rv rvrs : calls (releasedAfter rvrs) (reconcileMetadata rv rvrs).
Proof.
  unfold reconcileMetadata, patchRV. destruct (bool_decide (rv_DeletionTimestamp rv = None) || negb (bool_decide (rvrs = []))) eqn:E; calls; simpl.
  - left. apply metadata_finalizer.
  - right. apply orb_false_iff in E as [E1%bool_decide_eq_false E2%negb_false_iff%bool_decide_eq_true]. split; [by apply not_eq_None_Some|done].
Qed.
Lemma forceDelete_released rvrs rvr : calls (releasedAfter rvrs) (forceDelete rvr).
Proof.
  unfold forceDelete, deleteRVRWithForcedFinalizerRemoval, patchRVR.
  assert (H : ∀ o, calls (releasedAfter rvrs) (deleteRVR o)) by (intros o; unfold deleteRVR; calls). calls; auto.
Qed.
Lemma waiting_released rvrs rvas msg : calls (releasedAfter rvrs) (reconcileRVAWaiting rvas msg).
Proof.
  unfold reconcileRVAWaiting. calls. unfold waitRVA. calls. unfold patchRVAStatus. calls.
Qed.
Lemma rvaMetadata_released (rv : option ReplicatedVolume) rvrs rvas : calls (releasedAfter rvrs) (reconcileRVAMetadata rv rvas).
Proof.
  unfold reconcileRVAMetadata. apply calls_fmap. generalize (@nil ReplicatedVolumeAttachment) as prefix.
  induction rvas as [|a rvas IH]; intros prefix; simpl; [apply calls_ret|]. unfold keepRVA, patchRVA. calls.
Qed.
Lemma deletion_released rv rvas rvrs : triple False (releasedAfter rvrs) (reconcileDeletion rv rvas rvrs)
  (λ y, length y.1.2 = length rvrs).
Proof.
  unfold reconcileDeletion, deleteVolume. eapply (triple_bind _ _ _ _ (λ y, length y.1.2 = length rvrs)).
  2: { intros [[[? ?] ?] ?] H. by apply triple_ret. }
  eapply triple_bind; [apply triple_calls, waiting_released|]. intros [rvas' o] _. destruct (ShouldReturn o); [by apply triple_ret|].
  eapply triple_bind; [apply range_length, calls_range; intros; apply forceDelete_released|]. intros [l [r|]] Hl; [by apply triple_ret|].
  unfold applyMembershipLayoutConvergedCondUnknown. apply triple_condition; [done|..]; intros; destruct (rv_Members _); simpl;
    (destruct (_ || _) || idtac); try (by apply triple_ret); unfold patchRVStatus; apply triple_fmap_call; try done; intros r; destruct (stored _ r);
    by apply triple_ret.
Qed.

(** C23: a volume lets go last.  While a volume is torn down, and whenever its metadata is written, the
    controller's finalizer leaves the volume only when it is being deleted and no replica was listed;
    nothing is created meanwhile. *)
Theorem volume_released_last rv rvrs rvas :
  calls (releasedAfter rvrs) (reconcileGone rv rvrs rvas) ∧ calls (releasedAfter rvrs) (reconcileMetadata rv rvrs).
Proof.
  split; [|apply metadata_released]. unfold reconcileGone. eapply calls_triple_bind; [apply deletion_released|].
  intros [[[rv1 rvas1] rvrs1] o1] Hl. simpl in Hl. apply calls_bind; [apply rvaMetadata_released|]. intros [? o2].
  apply calls_bind; [|intros [? ?]; apply calls_ret]. eapply calls_weaken; [apply metadata_released|]. intros [T c]. unfold releasedAfter. simpl.
  destruct c; try done. intros [?|[? ->]]; [by left|]. right. split; [done|]. by destruct rvrs.
Qed.
End controller.

Section concrete.
Import scenario.
#[local] Existing Instance MetaApi_concrete.
#[local] Instance server : Server := store_server zeroStore.
Definition now0 : @World _ server := 100.
End concrete.
