(* ===== verification/FormationTheory.v ===== *)
(** * rv_controller: theorems on formation

    A restart waits for its timeout and resets the datamesh; a formation ends only with its data in
    place; the replicas that are kept are the most advanced ones.  What the view of a storage pool finds;
    the loop that creates missing replicas ends, and reaches its target unless a call fails. *)

From Stdlib Require Import ZArith Lia String Sorted.
From stdpp Require Import base gmap list numbers strings option relations sorting.
From S2P Require Import Prelude Flow IdSet DrbdSize Api Object Storage Client Dmte Context Helpers Layout.
From S2P Require Import Datamesh Rollout Requests Replicas RvaStatus Lifecycle Formation FormationSteps.
From S2P Require Import Scenario LifecycleTheory.
Import idset drbd_size v1alpha1 dmte datamesh objutilv1 storage flow client helpers layout rollout requests replicas rva_status lifecycle
  formation formation_steps.

Set Default Proof Using "Type".

(** ** Excess replicas *)
Section trim.
Implicit Types (s c scheduled preconfigured : IDSet).

Lemma last_greatest l i : StronglySorted Z.lt l → last l = Some i → ∀ j, j ∈ l → j ≤ i.
Proof.
  intros Hl Hi j Hj. apply last_Some in Hi as [l' ->]. apply elem_of_app in Hj as [Hj|Hj%list_elem_of_singleton]; [|lia].
  apply StronglySorted_app in Hl as (H & _ & _). apply Z.lt_le_incl, H; [done|by left].
Qed.
Lemma Max_greatest c : 0 < Len c → valid_id (Max c) ∧ Contains c (Max c) = true ∧ ∀ j, valid_id j → Contains c j = true → j ≤ Max c.
Proof.
  intros Hc. rewrite Len_countb in Hc. set (l := List.filter (Contains c) bits.ids).
  assert (Hl : List.filter (Z.testbit c) bits.ids = l).
  { apply List.filter_ext_in. intros j Hj%list_elem_of_In%elem_of_ids. by rewrite Contains_testbit. }
  destruct (last l) as [i|] eqn:E.
  2: { apply last_None in E. apply countb_filter_nil in E. lia. }
  assert (Hi : valid_id i ∧ Contains c i = true).
  { assert (Hin : In i l) by (apply list_elem_of_In; by apply last_Some_elem_of). apply List.filter_In in Hin as [?%list_elem_of_In%elem_of_ids ?]. done. }
  assert (Hm : Max c = i).
  { unfold Max, bits.LeadingZeros32. rewrite Hl, E. unfold wrap8, valid_id in *. rewrite Z.mod_small; lia. }
  rewrite Hm. split_and!; [apply Hi|apply Hi|]. intros j Hj Hcj. apply (last_greatest l); [apply ids_filter_sorted|done|].
  apply list_elem_of_In, List.filter_In. split; [by apply list_elem_of_In, elem_of_ids|done].
Qed.
Lemma Len_Remove s i : valid_id i → Contains s i = true → Len (Remove s i) = Len s - 1.
Proof.
  intros Hi Hs. pose proof (Len_single (Of [i]) i) as H1. rewrite !Len_countb in *.
  rewrite (countb_split (Contains s) (λ j, negb (j =? i)) bits.ids).
  rewrite (countb_ext (Contains (Remove s i)) (λ j, Contains s j && negb (j =? i)) bits.ids).
  2: { intros j Hj%elem_of_ids. destruct Hi. by rewrite Contains_Remove. }
  assert (Hof : ∀ j, valid_id j → Contains (Of [i]) j = (j =? i)) by (intros; destruct Hi; by apply Contains_Of1).
  rewrite (countb_ext (λ j, Contains s j && negb (negb (j =? i))) (Contains (Of [i])) bits.ids).
  2: { intros j Hj%elem_of_ids. rewrite Hof, negb_involutive by done. destruct (Z.eqb_spec j i) as [->|]; [by rewrite Hs|apply andb_false_r]. }
  assert (H0 : 0 < countb (Contains (Of [i])) bits.ids).
  { apply (countb_pos _ _ i); [by apply elem_of_ids|]. rewrite Hof by done. apply Z.eqb_refl. }
  assert (H2 : countb (Contains (Of [i])) bits.ids ≤ 1) by (apply H1; intros j Hj; rewrite Hof by done; apply Z.eqb_eq). lia.
Qed.

Lemma Len_Add s i : wf_set s → valid_id i → Contains s i = false → Len (Add s i) = Len s + 1.
Proof.
  intros Hs Hi Hc. assert (E : Remove (Add s i) i = s).
  { apply set_ext; [apply wf_Remove, wf_Add; [done|by destruct Hi]|done|]. intros j Hj. destruct Hi.
    rewrite Contains_Remove, Contains_Add by done. destruct (Z.eqb_spec j i) as [->|]; [by rewrite Hc, andb_false_r|].
    by rewrite orb_false_r, andb_true_r. }
  pose proof (Len_Remove (Add s i) i Hi) as H. rewrite E in H. rewrite H; [lia|]. destruct Hi.
  by rewrite Contains_Add, Z.eqb_refl, orb_true_r.
Qed.

(** How far a replica is: not scheduled, scheduled, preconfigured. *)
Definition progress scheduled preconfigured (i : Z) : Z :=
  if negb (Contains scheduled i) then 0 else if negb (Contains preconfigured i) then 1 else 2.
(** Of two replicas, the first goes before the second. *)
Definition goesFirst scheduled preconfigured (i k : Z) : Prop :=
  progress scheduled preconfigured i < progress scheduled preconfigured k ∨
  (progress scheduled preconfigured i = progress scheduled preconfigured k ∧ k < i).
Definition candidates scheduled preconfigured s : IDSet :=
  let ns := Difference s scheduled in
  let np := Difference s preconfigured in
  if negb (IsEmpty ns) then ns else if negb (IsEmpty np) then np else s.
Lemma candidates_spec scheduled preconfigured s : wf_set s → 0 < Len s →
  let i := Max (candidates scheduled preconfigured s) in
  valid_id i ∧ Contains s i = true ∧ ∀ k, valid_id k → Contains s k = true → k ≠ i → goesFirst scheduled preconfigured i k.
Proof.
  intros Hs Hl i. subst i. unfold candidates. set (ns := Difference s scheduled). set (np := Difference s preconfigured).
  assert (Hin : ∀ c, wf_set c → c ≠ 0 → 0 < Len c).
  { intros c Hc Hne. pose proof (Len_nonneg c). destruct (Z.eq_dec (Len c) 0) as [E|]; [|lia]. by destruct Hne; apply (Len_zero c Hc). }
  assert (Hns : ∀ j, valid_id j → Contains ns j = Contains s j && negb (Contains scheduled j)) by (intros; by apply Contains_Difference).
  assert (Hnp : ∀ j, valid_id j → Contains np j = Contains s j && negb (Contains preconfigured j)) by (intros; by apply Contains_Difference).
  unfold IsEmpty. destruct (Z.eqb_spec ns 0) as [E1|E1]; simpl; [destruct (Z.eqb_spec np 0) as [E2|E2]; simpl|].
  - destruct (Max_greatest s Hl) as (Hv & Hc & Hm). split_and!; [done|done|]. intros k Hk Hck Hne. right.
    assert (Hp : ∀ j, valid_id j → Contains s j = true → progress scheduled preconfigured j = 2).
    { intros j Hj Hcj. specialize (Hns j Hj). specialize (Hnp j Hj). rewrite E1, Hcj, Contains_empty in Hns by done.
      rewrite E2, Hcj, Contains_empty in Hnp by done. unfold progress. cbn [negb andb] in *. simpl in Hns, Hnp. rewrite <-Hns, <-Hnp. done. }
    rewrite !Hp by done. specialize (Hm k Hk Hck). split; [done|lia].
  - destruct (Max_greatest np) as (Hv & Hc & Hm); [apply Hin; [by apply wf_Difference|done]|]. rewrite Hnp in Hc by done.
    apply andb_true_iff in Hc as [Hcs Hcp]. split_and!; [done|done|]. intros k Hk Hck Hne.
    assert (Hsch : ∀ j, valid_id j → Contains s j = true → Contains scheduled j = true).
    { intros j Hj Hcj. specialize (Hns j Hj). rewrite E1, Hcj, Contains_empty in Hns by done. simpl in Hns. apply negb_false_iff. by rewrite <-Hns. }
    unfold goesFirst, progress. rewrite !Hsch, Hcp by done. simpl. destruct (Contains preconfigured k) eqn:Ek; simpl; [left; lia|right].
    split; [done|]. assert (k ≤ Max np) by (apply Hm; [done|]; by rewrite Hnp, Hck, Ek). lia.
  - destruct (Max_greatest ns) as (Hv & Hc & Hm); [apply Hin; [by apply wf_Difference|done]|]. rewrite Hns in Hc by done.
    apply andb_true_iff in Hc as [Hcs Hcp]. split_and!; [done|done|]. intros k Hk Hck Hne.
    unfold goesFirst, progress. rewrite Hcp. destruct (Contains scheduled k) eqn:Ek; simpl; [left; destruct (Contains preconfigured k); simpl; lia|right].
    split; [done|]. assert (k ≤ Max ns) by (apply Hm; [done|]; by rewrite Hns, Hck, Ek). lia.
Qed.
Lemma trim_run fuel scheduled preconfigured target s : wf_set s → 0 ≤ target → Len s ≤ target + Z.of_nat fuel →
  ∃ t, trimExcess fuel scheduled preconfigured target s = Ok t ∧ wf_set t ∧ Len t = Z.min (Len s) target ∧
    (∀ j, valid_id j → Contains t j = true → Contains s j = true) ∧
    (∀ i k, valid_id i → valid_id k → Contains s i = true → Contains t i = false → Contains t k = true → goesFirst scheduled preconfigured i k).
Proof.
  revert s. induction fuel as [|fuel IH]; intros s Hs Ht Hl; simpl; destruct (Z.leb_spec (Len s) target).
  1, 3: exists s; split_and!; [done|done|lia|done|congruence].
  - lia.
  - destruct (candidates_spec scheduled preconfigured s Hs) as (Hv & Hc & Hg); [lia|]. fold (candidates scheduled preconfigured s).
    set (d := Max (candidates scheduled preconfigured s)) in *. pose proof (Len_Remove s d Hv Hc) as HL.
    destruct (IH (Remove s d)) as (t & E & Hwf & HLt & Hsub & Hord); [by apply wf_Remove|done|lia|].
    assert (Hrem : ∀ j, valid_id j → Contains (Remove s d) j = Contains s j && negb (j =? d)) by (intros; destruct Hv; by apply Contains_Remove).
    exists t. split_and!; [done|done|lia|..].
    + intros j Hj Hcj. apply Hsub in Hcj; [|done]. rewrite Hrem in Hcj by done. by apply andb_true_iff in Hcj as [? _].
    + intros i k Hi Hk Hci Hti Htk. destruct (Z.eqb_spec i d) as [->|Hne].
      * pose proof (Hsub k Hk Htk) as Hsk. rewrite Hrem in Hsk by done. apply andb_true_iff in Hsk as [Hsk Hkd%negb_true_iff%Z.eqb_neq]. by apply Hg.
      * apply Hord; try done. rewrite Hrem by done. rewrite Hci. by apply Z.eqb_neq in Hne as ->.
Qed.
(** Excess replicas are dropped from the back.  The trimming always ends; what it keeps is a part of
    the set, of the intended size when there were as many; and every dropped replica goes before every
    kept one: it is less far (unscheduled, then scheduled, then preconfigured), or as far with a
    greater ID. *)
Theorem trimExcess_keeps_most_advanced scheduled preconfigured target s : wf_set s → 0 ≤ target →
  ∃ t, trimExcess 32 scheduled preconfigured target s = Ok t ∧ wf_set t ∧ Len t = Z.min (Len s) target ∧
    (∀ j, valid_id j → Contains t j = true → Contains s j = true) ∧
    (∀ i k, valid_id i → valid_id k → Contains s i = true → Contains t i = false → Contains t k = true → goesFirst scheduled preconfigured i k).
Proof. intros Hs Ht. apply trim_run; [done|done|]. pose proof (Len_nonneg s). lia. Qed.
Lemma trimExcess_keeps_most_advanced_witness : ∃ t, trimExcess 32 6 4 2 31 = Ok t ∧ Len t = 2 ∧ Contains t 2 = true ∧ Contains t 1 = true.
Proof.
  destruct (trimExcess_keeps_most_advanced 6 4 2 31) as (t & E & _ & HL & _); [by split|done|].
  exists t. split; [exact E|]. split; [exact HL|]. vm_compute in E. injection E as <-. by vm_compute.
Defined.
End trim.

(** ** Restart *)
Section restart.
Context {K : K8s} {Meta : MetaApi} {S : Server}.
Implicit Types (rv : ReplicatedVolume) (rvrs : list ReplicatedVolumeReplica) (rsc : option ReplicatedStorageClass) (rsp : rspView).

(** The volume without what a configuration pass may write. *)
Definition unconfigured rv : ReplicatedVolume :=
  rv <| rv_Conditions := [] |> <| rv_Configuration := None |> <| rv_ConfigurationGeneration := 0 |>
     <| rv_ConfigurationObservedGeneration := 0 |>.
Lemma unconfigured_members rv rv' : unconfigured rv = unconfigured rv' → rv_Members rv = rv_Members rv'.
Proof. intros H. by apply (f_equal rv_Members) in H. Qed.
(** A manual volume has a configuration: the only thing a configuration pass dereferences. *)
Definition configurable rv : Prop := rv_Spec_ConfigurationMode rv = ModeManual → is_Some (rv_Spec_ManualConfiguration rv).
Definition reads (e : event) : Prop := match ev_call e with Now | GetRSP _ | ListRVsByRSC _ => True | _ => False end.
Context (ok : Prop).
#[local] Notation frames rv m := (triple ok reads m (λ y, unconfigured y.1 = unconfigured rv)).
Lemma frame_condition rv0 rv cond {A} (f : bool * ReplicatedVolume → M A) Q : unconfigured rv = unconfigured rv0 →
  (∀ b rv', unconfigured rv' = unconfigured rv0 → triple ok reads (f (b, rv')) Q) →
  triple ok reads (SetStatusCondition rv cond ≫= f) Q.
Proof. intros H Hf. apply triple_condition; [done|..]; intros; by apply Hf. Qed.
Lemma frame_verdict rv0 rv ty st rs msg (o : bool → ReconcileOutcome) : unconfigured rv = unconfigured rv0 →
  frames rv0 ('(c, rv) ← SetStatusCondition rv (verdict ty st rs msg); mret (rv, o c)).
Proof. intros H. apply (frame_condition rv0); [done|]. intros b rv' H'. by apply triple_ret. Qed.
Definition early rv (y : option (ReplicatedVolume * ReconcileOutcome)) : Prop :=
  match y with Some y => unconfigured y.1 = unconfigured rv | None => True end.
Lemma frame_adopt rv cfg gen class : frames rv (adopt rv cfg gen class).
Proof.
  unfold adopt. eapply (triple_bind _ _ _ _ (early rv)).
  { unfold rejectZones, getRSPZoneCount. destruct (negb _); [by apply triple_ret|]. eapply (triple_bind _ _ _ _ (λ _, True)).
    { apply triple_call; [done|]. intros. by apply triple_ret. }
    assert (Hr : ∀ msg, triple ok reads ('(changed, rv) ← applyConfigurationReadyCondFalse rv ReasonInvalidConfiguration msg;
      mret (Some (rv, ReportChangedIf Continue changed))) (early rv)).
    { intros msg. apply (frame_condition rv); [done|]. intros. by apply triple_ret. }
    intros [n|e|e|e] _; try (by apply triple_ret); [|apply Hr]. destruct (isTransZonalZoneCountValid _ _ _); [by apply triple_ret|apply Hr]. }
  intros [y|] Hy; [by apply triple_ret|]. eapply (triple_bind _ _ _ _ (early rv)).
  { destruct class as [rsc|], (rv_Configuration rv); try by apply triple_ret. unfold throttle, getRVsByRSC. apply triple_fmap_call; [done|].
    intros r. destruct (answer r) as [e|l]; [by apply triple_ret|]. destruct (computeTargetRolloutAdmission _ _ _); [by apply triple_ret|].
    destruct (observe rv gen) as [c1 rv1] eqn:Eo. apply (frame_condition rv).
    { unfold observe in Eo. by destruct (_ =? _); injection Eo as <- <-. }
    intros b rv' H'. eapply (triple_bind _ _ _ _ (λ _, True)); [by apply (triple_lift _ _ _ (λ _, True))|]. intros. by apply triple_ret. }
  intros [y|] Hy'; [by apply triple_ret|]. apply (frame_verdict rv _ _ _ _ _ (λ _, _)). done.
Qed.
Lemma configuration_frame rv rsc : (ok → configurable rv) → frames rv (reconcileRVConfiguration rv rsc).
Proof.
  intros Hok. unfold reconcileRVConfiguration. apply triple_fmap. unfold ended. simpl. destruct (configurationSource rv rsc) as [msg|[[cfg gen] class]] eqn:Es.
  { by apply (frame_verdict rv). }
  assert (Hobs : ∀ rv', unconfigured rv' = unconfigured rv → unconfigured (observe rv' gen).2 = unconfigured rv).
  { intros rv' H. unfold observe. by destruct (_ =? _). }
  eapply (triple_bind _ _ _ _ (λ _, True)); [apply triple_lift; destruct cfg as [c|]; simpl; [done|]|].
  { intros H%Hok. unfold configurationSource in Es. destruct (bool_decide_reflect (rv_Spec_ConfigurationMode rv = ModeManual)) as [Hm|].
    - destruct (H Hm) as [c Hc]. congruence.
    - destruct rsc as [r|]; [|done]. destruct (rsc_Configuration r); [|done]. by destruct (negb _). }
  intros c _.
  destruct (bool_decide (rv_Configuration rv = Some c)).
  { unfold restamp. destruct (if rv_ConfigurationGeneration rv =? gen then _ else _) as [c1 rv1] eqn:E1.
    assert (H1 : unconfigured rv1 = unconfigured rv) by (by destruct (_ =? _); injection E1 as <- <-).
    specialize (Hobs rv1 H1). destruct (observe rv1 gen) as [c2 rv2]. by apply (frame_verdict rv). }
  assert (Hh : ∀ r, frames rv (holdBack rv gen r)).
  { intros r. unfold holdBack. specialize (Hobs rv eq_refl). destruct (observe rv gen) as [c2 rv2]. by apply (frame_verdict rv). }
  destruct class as [r|], (rv_Configuration rv); try apply frame_adopt. destruct (isNewVolumesOnly r); [apply Hh|apply frame_adopt].
Qed.

(** *** Replicas that must go *)
Definition going (rvr : ReplicatedVolumeReplica) : Prop := is_Some (rvr_DeletionTimestamp rvr).
Definition restartCall rv (e : event) : Prop :=
  match ev_call e with
  | GetDRBDROp name => name = opName rv
  | PatchRVR base obj => obj = (RemoveFinalizer base RVControllerFinalizer).2
  | DeleteDRBDROp _ | DeleteRVR _ | Now | GetRSP _ | ListRVsByRSC _ => True
  | _ => False
  end.
Lemma deleteRVR_going rv rvr : triple ok (restartCall rv) (deleteRVR rvr) (λ y, y.2 = None → going y.1).
Proof.
  unfold deleteRVR. destruct (rvr_DeletionTimestamp rvr) eqn:Ed; [apply triple_ret; intros _; by eexists|].
  apply triple_call; [done|]. intros r. destruct (orNil r); [by apply triple_ret|]. apply triple_call; [done|].
  intros now. apply triple_ret. intros _. by eexists.
Qed.
Lemma forceDelete_going rv rvr : triple ok (restartCall rv) (forceDelete rvr)
  (λ y, match y.2 with Some o => is_Some (err o) | None => going y.1 end).
Proof.
  unfold forceDelete. eapply (triple_bind _ _ _ _ (λ y, y.2 = None → going y.1)).
  - unfold deleteRVRWithForcedFinalizerRemoval. destruct (HasFinalizer _ _); [|apply deleteRVR_going].
    destruct (RemoveFinalizer rvr RVControllerFinalizer) as [c obj] eqn:Ef. apply triple_call.
    { change (obj = (RemoveFinalizer rvr RVControllerFinalizer).2). by rewrite Ef. }
    intros [o|e|e|e]; try (by apply triple_ret); [apply deleteRVR_going|]. apply triple_call; [done|]. intros now. apply triple_ret. intros _. by eexists.
  - intros [r [e|]] H; apply triple_ret; [exact (mk_is_Some _ _ eq_refl)|exact (H eq_refl)].
Qed.
Lemma triple_range_all {A R} P (body : A → M (A * option R)) (l : list A) (Q : A → Prop) (QR : R → Prop) :
  (∀ x, x ∈ l → triple ok P (body x) (λ y, match y.2 with Some r => QR r | None => Q y.1 end)) →
  triple ok P (rangeM body l) (λ y, match y.2 with Some r => QR r | None => Forall Q y.1 end).
Proof.
  induction l as [|x l IH]; intros Hb; simpl; [apply triple_ret; constructor|].
  eapply triple_bind; [apply Hb; set_solver|]. intros [y [r|]] Hy; [by apply triple_ret|].
  eapply triple_bind; [apply IH; set_solver|]. intros [l' [r|]] Hl; apply triple_ret; simpl in *; auto.
Qed.
(** Either an error and the volume as it was, or the datamesh reset and every replica going. *)
Definition restarted rv (y : fresult) : Prop :=
  (y.1.1 = rv ∧ is_Some (err y.2)) ∨ (unconfigured y.1.1 = unconfigured (resetDatamesh rv) ∧ Forall going y.1.2).
Lemma restartNow_restarts rv rvrs rsc : (ok → configurable rv) → triple ok (restartCall rv) (restartNow rv rvrs rsc) (restarted rv).
Proof.
  intros Hok. unfold restartNow, getDRBDROp. apply triple_fmap_call; [done|]. intros r.
  assert (Hfail : ∀ rvrs' e msg, triple ok (restartCall rv) (mret (rv, rvrs', fail e msg)) (restarted rv)).
  { intros. apply triple_ret. left. split; [done|by eexists]. }
  destruct (orNil r) as [e|op]; [apply Hfail|]. eapply (triple_bind _ _ _ _ (λ _, True)).
  { destruct op as [op|]; [|by apply triple_ret]. unfold deleteDRBDROp. destruct (op_DeletionTimestamp op); [by apply triple_ret|].
    apply triple_call; [done|]. intros. by apply triple_ret. }
  intros [e|] _; [apply Hfail|]. eapply triple_bind; [apply triple_range_all; intros; apply forceDelete_going|].
  intros [l [o|]] Hl; simpl in Hl; [apply triple_ret; left; by split|].
  eapply triple_bind; [eapply triple_events; [by apply configuration_frame|]|].
  { intros [T c]. unfold reads, restartCall. simpl. by destruct c. }
  intros [rv' o] Hrv. apply triple_ret. right. by split.
Qed.
End restart.

Section timeout.
Context {K : K8s} {Meta : MetaApi} {S : Server}.
Implicit Types (rv : ReplicatedVolume) (rvrs : list ReplicatedVolumeReplica) (rsc : option ReplicatedStorageClass) (rsp : rspView).

Lemma endedF_run (m : M fresult) w : (endedF <$> m) w =
  ((m w).1, ((m w).2.1, match (m w).2.2 with Ok y => Ok (endedF y) | Panic s => Panic s | OutOfFuel => OutOfFuel end)).
Proof.
  unfold fmap, M_fmap, mbind, M_bind. destruct (m w) as [w' [es [y|s|]]]; simpl; by rewrite ?app_nil_r.
Qed.
Lemma lift_ok_bind {A B} (a : A) (f : A → M B) w : (lift (Ok a) ≫= f) w = f a w.
Proof. unfold mbind, M_bind, lift. by destruct (f a w) as [? [? ?]]. Qed.
Lemma do_bind {A B} (c : call A) (f : A → M B) w : (do c ≫= f) w =
  let w' := (serve c w).1 in let y := f (serve c w).2 w' in (y.1, (Event A c :: y.2.1, y.2.2)).
Proof. unfold mbind, M_bind, do. destruct (serve c w) as [w' a]. simpl. by destruct (f a w') as [? [? ?]]. Qed.
Lemma restarted_ended rv y : restarted rv y → restarted rv (endedF y).
Proof. destruct y as [[rv' rvrs'] o]. done. Qed.
Lemma since_bound a b : - 2 ^ 63 ≤ since a b < 2 ^ 63.
Proof. unfold since. lia. Qed.
End timeout.

(** ** The end of a formation *)
Section completion.
Context {K : K8s} {Meta : MetaApi} {S : Server}.
Implicit Types (rv : ReplicatedVolume) (rvrs : list ReplicatedVolumeReplica) (rsc : option ReplicatedStorageClass) (rsp : rspView)
  (s : fstate).

Definition isForming rv : Prop := is_Some (formationOf rv).
Lemma forming_exists rv : isForming rv ↔ Exists isFormation (rv_DatameshTransitions rv).
Proof.
  unfold isForming, formationOf. split.
  - intros [[i t] H]. apply list_find_Some in H as (Hi & Ht & _). apply Exists_exists. exists t. split; [|done]. by eapply list_elem_of_lookup_2.
  - intros (t & Ht & Hf)%Exists_exists. destruct (list_find isFormation (rv_DatameshTransitions rv)) as [x|] eqn:E; [by eexists|].
    apply list_find_None in E. rewrite Forall_forall in E. by destruct (E t Ht).
Qed.
Lemma onStep_forming rv idx f : isForming rv → isForming (onStep rv idx f).
Proof.
  unfold onStep. intros [[i t] H]. rewrite H. apply list_find_Some in H as (Hi & Ht & _). apply forming_exists, Exists_exists. simpl.
  exists (set_t_Steps (alter f idx (t_Steps t)) t). split; [|done]. eapply list_elem_of_lookup_2, list_lookup_insert_eq. by eapply lookup_lt_Some.
Qed.
Lemma say_forming idx msg s : isForming s.1 → isForming (say idx msg s).1.
Proof. intros H. unfold say. destruct (theStep s.1 idx); [|done..]. destruct (String.eqb _ _); [done|]. by apply onStep_forming. Qed.
Lemma tell_forming ids msg s : isForming s.1 → isForming (tell ids msg s).1.
Proof. done. Qed.
Lemma say_members idx msg s : rv_Members (say idx msg s).1 = rv_Members s.1.
Proof.
  unfold say. destruct (theStep s.1 idx); [|done..]. destruct (String.eqb _ _); [done|]. simpl. unfold onStep.
  by destruct (formationOf s.1) as [[i t]|].
Qed.

(** Nothing but the end of the formation leaves a populated volume without its Formation transition. *)
Definition unlessReset rv (P : Prop) (y : fresult) : Prop := isForming y.1.1 ∨ rv_Members y.1.1 = [] ∨ P.
Lemma wait_unless s rvrs rsc timeout P : isForming s.1 → triple False (λ _, True) (wait s rvrs rsc timeout) (unlessReset s.1 P).
Proof.
  intros Hf. unfold wait, reconcileFormationRestartIfTimeoutPassed.
  eapply (triple_bind _ _ _ _ (unlessReset s.1 P)); [|intros [[rv' rvrs'] o] H; by apply triple_ret].
  apply triple_fmap. destruct Hf as [[i t] Hf]. rewrite Hf. eapply (triple_bind _ _ _ _ (λ _, True)); [by apply triple_lift|]. intros t0 _.
  apply triple_call; [done|]. intros now. destruct (since now t0 <? timeout).
  - eapply (triple_bind _ _ _ _ (λ _, True)); [apply triple_lift; destruct (ContinueAndRequeueAfter _); tauto|]. intros o _.
    apply triple_ret. left. by exists (i, t).
  - eapply triple_weaken; [eapply triple_events; [apply (restartNow_restarts False); tauto|done]|].
    intros [[rv' rvrs'] o] [[H _]|[H _]]; cbn [fst] in H; [left; exists (i, t); by rewrite H|]. right. left. exact (unconfigured_members _ _ H).
Qed.
Lemma proceed_unless s rvrs P : isForming s.1 → triple False (λ _, True) (proceed s rvrs) (unlessReset s.1 P).
Proof. intros Hf. unfold proceed. apply triple_ret. by left. Qed.

(** *** What the last step has verified *)
Definition hasData rv rvrs : Prop := ∀ m, m ∈ rv_Members rv → m_Type m = MemberTypeDiskful → valid_id (m_ID m) →
  ∃ r bv, r ∈ rvrs ∧ rvr_ID r = m_ID m ∧ rvr_BackingVolume r = Some bv ∧ bv_State bv = DiskStateUpToDate.
Definition tieBreakersWork rv rvrs : Prop := ∀ r, r ∈ rvrs → rvr_Spec_Type r = ReplicaTypeTieBreaker → rvr_DeletionTimestamp r = None →
  valid_id (rvr_ID r) → (∃ m, m ∈ rv_Members rv ∧ m_ID m = rvr_ID r ∧ m_Type m = MemberTypeTieBreaker) ∧
    (IsTieBreakerOperational (Some r) (tieBreakerPeers rv rvrs) (rv_DatameshRevision rv)).1 = true.
Lemma in_FromWhere {T} (name : T → string) (p : T → bool) l j : valid_id j →
  Contains (FromWhere (λ x, idFromName (name x)) l p) j = true ↔ ∃ x, x ∈ l ∧ p x = true ∧ idFromName (name x) = j.
Proof.
  intros Hj. rewrite Contains_FromWhere; [|done|apply Forall_true; intros; apply idFromName_nonneg]. rewrite existsb_exists.
  setoid_rewrite <-list_elem_of_In. setoid_rewrite andb_true_iff. setoid_rewrite Z.eqb_eq. naive_solver.
Qed.
Definition diskfulIDs rv : IDSet := memberIDs rv (λ ty, bool_decide (ty = MemberTypeDiskful)).
Lemma upToDate_hasData rv rvrs : upToDateIDs rvrs (diskfulIDs rv) = diskfulIDs rv → hasData rv rvrs.
Proof.
  intros H m Hm Ht Hv. assert (Hc : Contains (diskfulIDs rv) (m_ID m) = true).
  { apply in_FromWhere; [done|]. exists m. rewrite Ht. by split_and!. }
  rewrite <-H in Hc. apply in_FromWhere in Hc as (r & Hr & [_ Hb]%andb_prop & Hid); [|done].
  destruct (rvr_BackingVolume r) as [bv|] eqn:Eb; [|done]. apply String.eqb_eq in Hb. by exists r, bv.
Qed.
Lemma readiness_works rv rvrs : (computeActualTieBreakerReadiness rv rvrs).2 = "" → tieBreakersWork rv rvrs.
Proof.
  unfold computeActualTieBreakerReadiness. set (active := activeOf _ rvrs). set (members := memberIDs rv _).
  destruct (Z.eqb_spec members active) as [Hm|]; [|done]. cbn [negb]. intros H r Hr Ht Hd Hv.
  assert (Ha : Contains active (rvr_ID r) = true).
  { apply in_FromWhere; [done|]. exists r. unfold ofType. rewrite Ht, Hd. by split_and!. }
  split.
  { rewrite <-Hm in Ha. apply in_FromWhere in Ha as (m & ? & Hty%bool_decide_eq_true & ?); [|done]. by exists m. }
  destruct (IsEmpty active) eqn:Ee.
  { apply Z.eqb_eq in Ee. by rewrite Ee, Contains_empty in Ha. }
  set (verdicts := omap _ rvrs) in H. destruct (IsEmpty (FromAll fst verdicts)) eqn:En; [|done]. apply Z.eqb_eq in En.
  destruct (IsTieBreakerOperational (Some r) _ _) as [[] why] eqn:Eo; [done|]. exfalso.
  assert (Hc : Contains (FromWhere fst verdicts (λ _, true)) (rvr_ID r) = true).
  { rewrite Contains_FromWhere; [|done|].
    - apply existsb_exists. exists (rvr_ID r, rvr_Name r +:+ ": " +:+ why). split; [|simpl; apply Z.eqb_refl].
      apply list_elem_of_In, list_elem_of_omap. exists r. split; [done|]. rewrite Ha. by rewrite Eo.
    - apply Forall_forall. intros x (y & Hy & Hx)%list_elem_of_omap.
      repeat case_match; simplify_eq. apply idFromName_nonneg. }
  change (FromWhere fst verdicts (λ _, true)) with (FromAll fst verdicts) in Hc. by rewrite En, Contains_empty in Hc.
Qed.

End completion.

(** ** Two volumes in formation *)
Section concrete.
Import scenario.
#[local] Existing Instance MetaApi_concrete.
Definition seconds (n : Z) : Z := n * second.
(** Its formation began at one minute. *)
Definition young : ReplicatedVolume := volume <| rv_DatameshTransitions := [newFormation formationPlanCreate (seconds 60)] |>.
#[local] Definition empty : Server := store_server zeroStore.

Definition poolView : rspView :=
  {| rspv_Type := PoolLVMThin; rspv_Zones := ["a"]; rspv_SystemNetworkNames := ["Internal"]; rspv_EligibleNodes := [] |}.
Definition finishedOp : DRBDResourceOperation :=
  {| op_Name := "vol-formation"; op_CreationTimestamp := seconds 70; op_DeletionTimestamp := None; op_NodeName := node 0;
     op_DRBDResourceName := "vol-0"; op_Type := OperationCreateNewUUID; op_CreateNewUUID := Some (bootstrapParams false poolView);
     op_Phase := OperationSucceeded; op_Message := ""; op_StartedAt := None; op_CompletedAt := None |}.
#[local] Definition finished : Server := store_server (zeroStore <| st_op := Some finishedOp |>).
Definition completes (r : outcome fresult) : bool :=
  match r with
  | Ok y => match rv_Members y.1.1, formationOf y.1.1 with _ :: _, None => true | _, _ => false end
  | _ => false
  end.
Lemma completes_spec r : completes r = true → ∃ y, r = Ok y ∧ rv_Members y.1.1 ≠ [] ∧ ¬ isForming y.1.1.
Proof.
  destruct r as [y| |]; [|done..]. simpl. unfold isForming. intros H. exists y. destruct (rv_Members y.1.1); [done|].
  destruct (formationOf y.1.1); [done|]. split_and!; [done..|]. by intros [? ?].
Qed.

(** *** Adoption without replicas *)
Definition adoptee : ReplicatedVolume :=
  volume <| rv_Annotations := {[ AdoptRVRAnnotationKey := "" ]} |> <| rv_DatameshRevision := 0 |> <| rv_SharedSecret := "" |>
         <| rv_Members := [] |> <| rv_SystemNetworkNames := [] |>.
(** A replica that the scheduler has not placed, and whose DRBD is not in maintenance. *)
Definition unplaced : ReplicatedVolumeReplica := rvr 0 ReplicaTypeDiskful [] 0 <| rvr_Conditions := [] |>.
Definition adoptionPass (rv : ReplicatedVolume) (rs : list ReplicatedVolumeReplica) (now : Time) : option ReplicatedVolume :=
  match (@reconcileFormation _ _ empty rv rs [] poolView None (isFormationInProgress rv).2 now).2.2 with
  | Ok (rv, _, _, _) => Some rv
  | _ => None
  end.

(** Without listed replicas an adoption verifies nothing.  On an empty listing the prerequisite gates
    of adopt/v1 let the formation go on to its second step, which has nothing to populate; a replica that
    is listed later, neither scheduled nor in maintenance, then becomes a member, although the gates
    would have held it back. *)
Theorem adoption_of_nothing_proceeds : ∃ rv1 rv2,
  adoptionPass adoptee [] (seconds 60) = Some rv1 ∧ isFormationInProgress rv1 = (true, 1) ∧ rv_Members rv1 = [] ∧
  isScheduled unplaced = false ∧ inMaintenance unplaced = false ∧ adoptGates rv1 [unplaced] (rv1, false) ≠ None ∧
  adoptionPass rv1 [unplaced] (seconds 61) = Some rv2 ∧ map m_Name (rv_Members rv2) = ["vol-0"].
Proof.
  assert (H1 : is_Some (adoptionPass adoptee [] (seconds 60))) by (vm_compute; by eexists). destruct H1 as [rv1 E1].
  pose proof E1 as E. vm_compute in E. injection E as <-.
  match goal with |- ∃ _ _, _ = Some _ ∧ _ => eexists; eexists end. split; [exact E1|].
  split_and!; [by vm_compute|by vm_compute|by vm_compute|by vm_compute|by vm_compute|vm_compute; reflexivity|by vm_compute].
Qed.
End concrete.

Import idset v1alpha1 storage layout rollout replicas.

(** ** Binary search *)
Section search.
Context {A : Type}.
Implicit Types (l : list A).

Definition monotone (before : A → bool) l : Prop :=
  ∀ a b x y, (a ≤ b)%nat → l !! a = Some x → l !! b = Some y → before y = true → before x = true.
Lemma lowerBound_total fuel (before : A → bool) l i j : (i ≤ j ≤ length l)%nat → (j - i < fuel)%nat →
  ∃ k, lowerBound fuel before l i j = Ok k ∧ (i ≤ k ≤ j)%nat ∧
    (monotone before l → (∀ a x, (a < i)%nat → l !! a = Some x → before x = true) → (∀ a x, (j ≤ a)%nat → l !! a = Some x → before x = false) →
     (∀ a x, (a < k)%nat → l !! a = Some x → before x = true) ∧ (∀ a x, (k ≤ a)%nat → l !! a = Some x → before x = false)).
Proof.
  revert i j. induction fuel as [|fuel IH]; intros i j Hij Hf; cbn [lowerBound]; [lia|].
  destruct (Nat.ltb_spec i j); [|exists i; split_and!; [done|lia|lia|]; intros _ Hbef Haft; split; [done|]; intros a x Ha; apply Haft; lia].
  set (h := ((i + j) / 2)%nat). assert (Hh : (i ≤ h < j)%nat).
  { unfold h. split; [apply Nat.div_le_lower_bound; lia|apply Nat.Div0.div_lt_upper_bound; lia]. }
  destruct (lookup_lt_is_Some_2 l h) as [x Hx]; [lia|]. pose proof Hx as Hx'. apply index_Ok in Hx'. fold h. rewrite Hx'. cbn [mbind outcome_bind].
  destruct (before x) eqn:Eb; [destruct (IH (Datatypes.S h) j) as (k & ? & ? & Hk)|destruct (IH i h) as (k & ? & ? & Hk)]; try lia;
    exists k; (split_and!; [done|lia|lia|]); intros Hm Hbef Haft; apply Hk; try done.
  - intros a y Ha Hy. by apply (Hm a h y x); [lia|..].
  - intros a y Ha Hy. apply not_true_is_false. intros Hby. by rewrite (Hm h a x y Ha Hx Hy Hby) in Eb.
Qed.
(** The element found, if any, is the one at the lower bound. *)
Lemma binarySearch_total (before : A → bool) l : ∃ k, binarySearch before l = Ok k ∧ (k ≤ length l)%nat ∧
  (monotone before l → (∀ a x, (a < k)%nat → l !! a = Some x → before x = true) ∧ (∀ a x, (k ≤ a)%nat → l !! a = Some x → before x = false)).
Proof.
  unfold binarySearch. destruct (lowerBound_total (Datatypes.S (length l)) before l 0 (length l)) as (k & E & Hk & H); [lia|lia|].
  exists k. split_and!; [done|lia|]. intros Hm. apply H; [done|lia|]. intros a x Ha Hx. apply lookup_lt_Some in Hx. lia.
Qed.

Context (key : A → string).
Definition sortedBy l : Prop := StronglySorted (λ x y, string_leb (key x) (key y) = true) l.
Lemma ltb_leb n a b : String.ltb b n = true → string_leb a b = true → String.ltb a n = true.
Proof.
  unfold String.ltb, string_leb. intros H1 H2. destruct (String.compare b n) eqn:E1; try done. destruct (String.compare a b) eqn:E2; try done.
  - apply (cmp_eq (cmp:=String.compare)) in E2. subst. by rewrite E1.
  - by rewrite (cmp_lt_trans (cmp:=String.compare) _ _ _ E2 E1).
Qed.
Lemma sorted_lookup l a b x y : sortedBy l → (a < b)%nat → l !! a = Some x → l !! b = Some y → string_leb (key x) (key y) = true.
Proof.
  intros Hl. revert a b. induction Hl as [|z l Hl IH Hz]; intros a b Hab Ha Hb; [done|]. destruct b as [|b]; [lia|]. simpl in Hb.
  destruct a as [|a]; simpl in Ha; [|by apply (IH a b); [lia|..]]. injection Ha as <-. rewrite Forall_forall in Hz.
  apply Hz. by eapply list_elem_of_lookup_2.
Qed.
Lemma sorted_monotone n l : sortedBy l → monotone (λ x, String.ltb (key x) n) l.
Proof.
  intros Hl a b x y Hab Ha Hb Hy. destruct (decide (a = b)) as [->|]; [congruence|].
  eapply ltb_leb; [exact Hy|]. by apply (sorted_lookup l a b); [|lia|..].
Qed.
(** Looking a name up. *)
Lemma search_spec n l : sortedBy l → ∃ k, binarySearch (λ x, String.ltb (key x) n) l = Ok k ∧
  match l !! k with
  | Some x => String.eqb (key x) n = true ∨ ∀ y, y ∈ l → key y ≠ n
  | None => ∀ y, y ∈ l → key y ≠ n
  end.
Proof.
  intros Hl. destruct (binarySearch_total (λ x, String.ltb (key x) n) l) as (k & E & _ & H). exists k. split; [done|].
  destruct (H (sorted_monotone n l Hl)) as [Hlt Hge]. clear H.
  assert (Hafter : ∀ a y, l !! a = Some y → key y = n → (k ≤ a)%nat).
  { intros a y Hy Hn. destruct (decide (k ≤ a)%nat); [done|]. specialize (Hlt a y ltac:(lia) Hy). simpl in Hlt.
    unfold String.ltb in Hlt. by rewrite Hn, (cmp_refl String.compare) in Hlt. }
  destruct (l !! k) as [x|] eqn:Ex.
  - destruct (String.eqb_spec (key x) n) as [|Hne]; [by left|]. right. intros y [a Hy]%list_elem_of_lookup Hn.
    pose proof (Hafter a y Hy Hn) as Hka. assert (a ≠ k) by (intros ->; congruence).
    pose proof (sorted_lookup l k a x y Hl ltac:(lia) Ex Hy) as Hle. specialize (Hge k x ltac:(lia) Ex). simpl in Hge.
    rewrite Hn in Hle. unfold String.ltb, string_leb in *. destruct (String.compare (key x) n) eqn:Ec; try done.
    by apply (cmp_eq (cmp:=String.compare)) in Ec.
  - intros y [a Hy]%list_elem_of_lookup Hn. pose proof (Hafter a y Hy Hn). apply lookup_ge_None in Ex. apply lookup_lt_Some in Hy. lia.
Qed.
Lemma sort_sorted l : sortedBy (sort_by (λ x y, string_leb (key x) (key y)) l).
Proof.
  apply Sorted_StronglySorted.
  - intros x y z Hxy Hyz. unfold string_leb in *. destruct (String.compare (key x) (key y)) eqn:E1; try done.
    + apply (cmp_eq (cmp:=String.compare)) in E1. by rewrite E1.
    + destruct (String.compare (key y) (key z)) eqn:E2; try done.
      * apply (cmp_eq (cmp:=String.compare)) in E2. by rewrite <-E2, E1.
      * by rewrite (cmp_lt_trans (cmp:=String.compare) _ _ _ E1 E2).
  - apply sort_by_sorted. intros. apply string_leb_total.
Qed.
End search.

(** ** The view *)
Section view.
Context {K : K8s}.
Implicit Types (rvrs : list ReplicatedVolumeReplica) (rvas : list ReplicatedVolumeAttachment) (rsp : ReplicatedStoragePool) (n : string).

Lemma Compact_spec (l : list string) : sortedBy id l → sortedBy id (Compact l) ∧ ∀ n, n ∈ Compact l ↔ n ∈ l.
Proof.
  unfold sortedBy. induction 1 as [|x l Hl [IHs IHe] Hx]; [split; [constructor|done]|].
  destruct l as [|y l]; [split; [repeat constructor|done]|]. cbn [Compact].
  destruct (String.eqb_spec x y) as [->|Hne].
  - split; [exact IHs|]. intros n. rewrite IHe. set_solver.
  - split; [|intros n; simpl in IHe; rewrite elem_of_cons, IHe; set_solver]. constructor; [exact IHs|]. rewrite Forall_forall in Hx |- *.
    intros n Hn. apply Hx. by apply IHe.
Qed.
(** The nodes the volume needs: those of its replicas and of its active attachments. *)
Definition needed rvrs rvas n : Prop :=
  (n ≠ "" ∧ ∃ r, r ∈ rvrs ∧ rvr_Spec_NodeName r = n) ∨ (∃ a, a ∈ rvas ∧ rva_NodeName a = n ∧ rva_DeletionTimestamp a = None).
Lemma wantedNodes_spec rvrs rvas : sortedBy id (wantedNodes rvrs rvas) ∧ ∀ n, n ∈ wantedNodes rvrs rvas ↔ needed rvrs rvas n.
Proof.
  unfold wantedNodes. set (l := List.filter _ _ ++ _).
  destruct (Compact_spec (sort_by string_leb l) (sort_sorted id l)) as [Hs He]. split; [exact Hs|]. intros n. rewrite He, sort_by_perm.
  unfold l, needed. rewrite elem_of_app, !list_elem_of_In, List.filter_In, !in_map_iff, negb_true_iff, String.eqb_neq.
  setoid_rewrite List.filter_In. setoid_rewrite bool_decide_eq_true. setoid_rewrite <-list_elem_of_In. naive_solver.
Qed.
Lemma wantsNode_spec names n : sortedBy id names → wantsNode names n = Ok (bool_decide (n ∈ names)).
Proof.
  intros Hs. unfold wantsNode. destruct (search_spec id n names Hs) as (k & E & Hk). cbv [id] in E, Hk. rewrite E. cbn [mbind outcome_bind]. f_equal.
  destruct (names !! k) as [x|] eqn:Ex.
  - destruct (String.eqb_spec x n) as [->|Hne].
    + symmetry. apply bool_decide_eq_true. by eapply list_elem_of_lookup_2.
    + destruct Hk as [Hk|Hk]; [done|]. symmetry. apply bool_decide_eq_false. intros Hn. by apply (Hk n Hn).
  - symmetry. apply bool_decide_eq_false. intros Hn. by apply (Hk n Hn).
Qed.
Lemma filterNodes_spec names nodes : sortedBy id names →
  filterNodes names nodes = Ok (List.filter (λ en, bool_decide (en_NodeName en ∈ names)) nodes).
Proof.
  intros Hs. induction nodes as [|en nodes IH]; [done|]. simpl. rewrite wantsNode_spec by done. cbn [mbind outcome_bind]. rewrite IH.
  by destruct (bool_decide _).
Qed.

(** The view finds exactly the eligible nodes the volume needs.  Building the view of a pool and
    looking a node up in it never fail; what is found is an eligible node of the pool with that name,
    which the volume needs; and nothing is found only when the volume does not need the node or the pool
    has no eligible node of that name. *)
Theorem view_finds_needed_nodes rsp rvrs rvas : ∃ v, viewOf rsp rvrs rvas = Ok v ∧
  ∀ n, match findEligibleNode v n with
       | Ok (Some en) => en ∈ rsp_EligibleNodes rsp ∧ en_NodeName en = n ∧ needed rvrs rvas n
       | Ok None => ¬ (needed rvrs rvas n ∧ ∃ en, en ∈ rsp_EligibleNodes rsp ∧ en_NodeName en = n)
       | _ => False
       end.
Proof.
  destruct (wantedNodes_spec rvrs rvas) as [Hs Hw]. unfold viewOf. rewrite filterNodes_spec by done. cbn [mbind outcome_bind]. eexists. split; [done|].
  intros n. unfold findEligibleNode. simpl. set (l := sort_by _ _).
  assert (Hl : ∀ en, en ∈ l ↔ en ∈ rsp_EligibleNodes rsp ∧ needed rvrs rvas (en_NodeName en)).
  { intros en. unfold l. rewrite sort_by_perm, list_elem_of_In, List.filter_In, <-list_elem_of_In, bool_decide_eq_true, Hw. done. }
  destruct (search_spec en_NodeName n l (sort_sorted en_NodeName _)) as (k & E & Hk). rewrite E. cbn [mbind outcome_bind].
  destruct (l !! k) as [en|] eqn:Ex; [destruct (String.eqb_spec (en_NodeName en) n) as [<-|Hne]|].
  - apply list_elem_of_lookup_2, Hl in Ex as [??]. done.
  - destruct Hk as [Hk|Hk]; [done|]. intros (Hn & en' & Hin & <-). apply (Hk en'); [by apply Hl|done].
  - intros (Hn & en' & Hin & <-). apply (Hk en'); [by apply Hl|done].
Qed.
End view.

Import idset drbd_size v1alpha1 dmte datamesh objutilv1 storage flow client helpers layout rollout requests replicas rva_status lifecycle
  formation formation_steps.

(** ** Creating the missing replicas *)
Section creation.
Context {K : K8s} {Meta : MetaApi} {S : Server}.
Implicit Types (rv : ReplicatedVolume) (rvr : ReplicatedVolumeReplica) (rvrs : list ReplicatedVolumeReplica) (set : IDSet).

Lemma insert_total rvrs rvr : ∃ l1 l2, rvrs = l1 ++ l2 ∧ insertRVRSorted rvrs rvr = Ok (l1 ++ rvr :: l2).
Proof.
  unfold insertRVRSorted. destruct (binarySearch_total (λ r, rvr_ID r <? rvr_ID rvr) rvrs) as (k & E & _). rewrite E. exists (take k rvrs), (drop k rvrs). by rewrite take_drop.
Qed.

(** The API keeps the name and the volume of an object it creates. *)
Definition namedCreates : Prop := ∀ obj w r, (serve (CreateRVR obj) w).2 = Replied r →
  rvr_Name r = rvr_Name obj ∧ rvr_Spec_ReplicatedVolumeName r = rvr_Spec_ReplicatedVolumeName obj.
(** The replicas of the set are in the listing. *)
Definition listed rv rvrs set : Prop := ∀ i, valid_id i → Contains set i = true →
  ∃ r, r ∈ rvrs ∧ rvr_Spec_ReplicatedVolumeName r = rv_Name rv ∧ rvr_ID r = i.
Definition createdUpTo rv rvrs set (target : Z) (y : list ReplicatedVolumeReplica * (ReconcileOutcome + IDSet)) : Prop :=
  match y.2 with
  | inl o => ShouldReturn o = true
  | inr set' => wf_set set' ∧ Len set' = Z.max (Len set) target ∧ listed rv y.1 set' ∧
                (∀ i, valid_id i → Contains set i = true → Contains set' i = true)
  end ∧ ∀ r, r ∈ rvrs → r ∈ y.1.
Lemma createMissing_run fuel rv typ target failure set rvrs : namedCreates →
  wf_set set → Forall (λ r, valid_id (rvr_ID r)) rvrs → listed rv rvrs set → 32 - Len set < Z.of_nat fuel →
  triple True (λ _, True) (createMissing fuel rv typ target failure set rvrs) (createdUpTo rv rvrs set target).
Proof.
  intros Hnc. revert set rvrs. induction fuel as [|fuel IH]; intros set rvrs Hset Hrvrs Hl Hf; [pose proof (Len_nonneg set); lia|].
  simpl. destruct (Z.leb_spec target (Len set)) as [Hle|Hlt]; [apply triple_ret; split; [split_and!; try done; lia|done]|].
  assert (Hfail : ∀ e, triple True (λ _, True) (mret (rvrs, inl (fail e failure))) (createdUpTo rv rvrs set target)) by (intros; by apply triple_ret).
  pose proof (ChooseNewName_fresh (rv_Name rv) rvrs Hrvrs) as Hfresh. cbv zeta in Hfresh.
  assert (Hnew : ∃ y, newRVR rv rvrs typ "" = Ok y).
  { unfold newRVR. destruct (ChooseNewName (rv_Name rv) rvrs) as [[n|]|s|]; try done; by eexists. }
  destruct Hnew as [y Hy]. eapply (triple_bind _ _ _ _ (λ y', y' = y)); [apply triple_lift; by rewrite Hy|]. intros ? ->.
  destruct y as [e|rvr]; [apply Hfail|]. apply newRVR_props in Hy as (_ & _ & Hvol & _ & Hname). rewrite Hname in Hfresh.
  destruct Hfresh as (Hv & Hun & _). apply triple_call; [done|]. intros [e|]; [apply Hfail|].
  eapply (triple_bind _ _ _ _ (λ r, ∀ x, r = Replied x → rvr_Name x = rvr_Name rvr ∧ rvr_Spec_ReplicatedVolumeName x = rv_Name rv)).
  { intros w. unfold createRVR, do. destruct (serve (CreateRVR rvr) w) as [w' r] eqn:E. split; [by apply Forall_singleton|]. intros x ->.
    rewrite <-Hvol. apply (Hnc rvr w x). by rewrite E. }
  intros [x|e|e|e] Hx; [|apply Hfail|by apply triple_ret|apply Hfail]. destruct (Hx x eq_refl) as [Hxn Hxv].
  destruct (insert_total rvrs x) as (l1 & l2 & El & Ei). eapply (triple_bind _ _ _ _ (λ y', y' = l1 ++ x :: l2)); [apply triple_lift; by rewrite Ei|].
  intros ? ->. assert (Hid : rvr_ID x = idFromName (rvr_Name rvr)) by (unfold rvr_ID; by rewrite Hxn).
  assert (Hnc' : Contains set (rvr_ID x) = false).
  { rewrite Hid. destruct (Contains set _) eqn:E; [|done]. destruct Hun. destruct (Hl _ Hv E) as (r & ? & ? & ?). by exists r. }
  rewrite <-Hid in Hv. assert (Hin : ∀ r, r ∈ rvrs → r ∈ l1 ++ x :: l2) by (rewrite El; set_solver).
  assert (Hadd : ∀ j, valid_id j → Contains (Add set (rvr_ID x)) j = Contains set j || (j =? rvr_ID x)).
  { intros j Hj. apply Contains_Add; [done|]. by destruct Hv. }
  pose proof (Len_Add set (rvr_ID x) Hset Hv Hnc') as HL.
  eapply triple_weaken; [apply IH; [apply wf_Add; [done|by destruct Hv]| |..]|].
  - rewrite El in Hrvrs. apply Forall_app in Hrvrs as [??]. apply Forall_app. split; [done|]. by constructor.
  - intros j Hj. rewrite Hadd by done. intros [Hc|Hc%Z.eqb_eq]%orb_true_iff.
    + destruct (Hl j Hj Hc) as (r & ? & ? & ?). exists r. auto.
    + exists x. split_and!; [set_solver|done|done].
  - lia.
  - intros [rvrs' [o|set']] [H1 H2]; (split; [|auto]); [exact H1|]. destruct H1 as (? & HL' & ? & Hs). split_and!; [done| |done|].
    + simpl in *. lia.
    + intros j Hj Hc. apply Hs; [done|]. rewrite Hadd by done. by rewrite Hc.
Qed.
(** The creation of missing replicas ends.  When the API keeps the names of what it creates, the loop
    neither panics nor goes on for more than 32 rounds: it returns early, with an error or a requeue, or
    it has created exactly the missing replicas, each under an ID that no listed replica used. *)
Theorem createMissing_ends rv typ target failure set rvrs : namedCreates →
  wf_set set → Forall (λ r, valid_id (rvr_ID r)) rvrs → listed rv rvrs set →
  triple True (λ _, True) (createMissing createFuel rv typ target failure set rvrs) (createdUpTo rv rvrs set target).
Proof. intros Hn Hs Hr Hl. apply createMissing_run; try done. pose proof (Len_nonneg set). unfold createFuel. lia. Qed.
End creation.

Section concrete.
Import scenario.
#[local] Existing Instance MetaApi_concrete.
#[local] Instance server : Server := store_server zeroStore.
Lemma createMissing_ends_witness :
  ∃ rvrs' set', (createMissing createFuel volume ReplicaTypeDiskful 3 "" 0 [] (100 : @World _ server)).2.2 = Ok (rvrs', inr set') ∧ Len set' = 3.
Proof.
  assert (Hn : namedCreates) by (intros obj w r E; cbn in E; by injection E as <-).
  destruct (createMissing_ends volume ReplicaTypeDiskful 3 "" 0 [] Hn) with (w := 100 : @World _ server) as [_ H];
    [by split|constructor|intros i Hi Hc; by rewrite Contains_empty in Hc|].
  destruct (createMissing _ _ _ _ _ _ _ _) as [w' [es r]] eqn:E. vm_compute in E. injection E as <- <- <-. destruct H as [(_ & HL & _) _].
  eexists _, _. split; [reflexivity|exact HL].
Defined.
End concrete.
