(* ===== verification/ConvergenceTheory.v ===== *)
(** * Theorems on layout convergence

    The candidate of a retype passes exactly the zone guards the transition engine applies to the
    transition; the action and the report agree; an action in flight is never issued again. *)

From Stdlib Require Import ZArith Lia String Sorted.
From stdpp Require Import base gmap list numbers strings option relations.
From S2P Require Import Prelude IdSet DrbdSize Api Object Storage Flow Dmte Context Helpers Guards GuardTheory Client Layout Scenario.
Import idset v1alpha1 objutilv1 dmte datamesh helpers guards layout.

Set Default Proof Using "Type".

(** ** Counting members per zone *)
Section counting.
Context {K : K8s}.
Implicit Types (m : DatameshMember) (ms : list DatameshMember) (z : string).

Lemma countb_perm {A} (f : A → bool) l k : l ≡ₚ k → countb f l = countb f k.
Proof. induction 1; rewrite ?countb_nil, ?countb_cons; lia. Qed.
Lemma filter_length_lt {A} (f : A → bool) l x : In x l → f x = false → (length (List.filter f l) < length l)%nat.
Proof.
  induction l as [|y l IH]; intros Hx Hf; [done|]. simpl. destruct Hx as [->|Hx].
  - rewrite Hf. pose proof (List.filter_length_le f l). lia.
  - specialize (IH Hx Hf). destruct (f y); simpl; lia.
Qed.
Lemma countb_omap {A B} (p : A → option B) (f : B → bool) l :
  countb f (omap p l) = countb (λ x, match p x with Some y => f y | None => false end) l.
Proof.
  induction l as [|x l IH]; [done|]. cbn [omap list_omap]. rewrite countb_cons.
  destruct (p x); rewrite ?countb_cons, IH; simpl; lia.
Qed.

Definition voterIn z m : bool := IsVoter (m_Type m) && String.eqb (m_Zone m) z.
Definition tieBreakerIn z m : bool := isTieBreakerMember m && String.eqb (m_Zone m) z.

Lemma countIn_increment z c z' :
  countIn (increment z c) z' = countIn c z' + Z.b2z (String.eqb z z').
Proof.
  unfold increment, countIn. destruct (String.eqb_spec z z') as [->|Hne]; simpl.
  - by rewrite lookup_insert_eq.
  - rewrite lookup_insert_ne by done. lia.
Qed.
Lemma voter_not_tiebreaker m : IsVoter (m_Type m) = true → isTieBreakerMember m = false.
Proof. unfold isTieBreakerMember. by destruct (m_Type m). Qed.

(** What one pass over the members computes. *)
Record countsOf ms (r : gmap string Z * gmap string Z * Z * Z) : Prop := {
  co_voters z : countIn r.1.1.1 z = countb (voterIn z) ms;
  co_tiebreakers z : countIn r.1.1.2 z = countb (tieBreakerIn z) ms;
  co_zones z : is_Some (r.1.1.1 !! z) ↔ ∃ m, m ∈ ms ∧ voterIn z m = true;
  co_total : r.1.2 = countb (λ m, IsVoter (m_Type m)) ms;
  co_totalTB : r.2 = countb isTieBreakerMember ms;
}.
Lemma zoneCounts_spec ms : countsOf ms (zoneCounts ms).
Proof.
  unfold zoneCounts. induction ms as [|m ms IH] using rev_ind.
  { split; try done. intros z. simpl. rewrite lookup_empty. split; [by intros []|intros (m & H & _)]. by apply elem_of_nil in H. }
  rewrite foldl_app. simpl. destruct (foldl _ _ ms) as [[[vz tz] v] t]. destruct IH as [Hv Ht Hz Hn Hb]; simpl in *.
  assert (E : ∀ f : DatameshMember → bool, countb f (ms ++ [m]) = countb f ms + Z.b2z (f m)).
  { intros f. rewrite countb_app, countb_cons, countb_nil. lia. }
  destruct (IsVoter (m_Type m)) eqn:EV; [|destruct (isTieBreakerMember m) eqn:ET]; split; simpl; intros;
    rewrite ?E, ?countIn_increment, ?Hv, ?Ht, ?Hn, ?Hb; unfold voterIn, tieBreakerIn;
    rewrite ?EV, ?ET, ?(voter_not_tiebreaker m EV); simpl; try lia.
  - unfold increment. destruct (decide (m_Zone m = z)) as [<-|Hne].
    + rewrite lookup_insert_eq. split; [|by eexists]. intros _. exists m. rewrite EV, String.eqb_refl. set_solver.
    + rewrite lookup_insert_ne, Hz by done. unfold voterIn. split; intros (m' & Hm & H); exists m'; [set_solver|].
      apply elem_of_app in Hm as [?| ->%list_elem_of_singleton]; [done|].
      apply andb_prop in H as [_ H%String.eqb_eq]. done.
  - rewrite Hz. unfold voterIn. split; intros (m' & Hm & H); exists m'; [set_solver|].
    apply elem_of_app in Hm as [?| ->%list_elem_of_singleton]; [done|]. by rewrite EV in H.
  - rewrite Hz. unfold voterIn. split; intros (m' & Hm & H); exists m'; [set_solver|].
    apply elem_of_app in Hm as [?| ->%list_elem_of_singleton]; [done|]. by rewrite EV in H.
Qed.

(** A maximum computed by a loop, on any order of the entries. *)
Definition maxOf {A} (val : A → Z) (l : list A) : Z := foldl (λ mx x, if mx <? val x then val x else mx) 0 l.
Lemma maxOf_spec {A} (val : A → Z) l :
  (∀ x, x ∈ l → val x ≤ maxOf val l) ∧ (maxOf val l = 0 ∨ ∃ x, x ∈ l ∧ val x = maxOf val l).
Proof.
  unfold maxOf. induction l as [|x l IH] using rev_ind; [split; [intros ? H; by apply elem_of_nil in H|by left]|].
  rewrite foldl_app. simpl. destruct IH as [Hub Hat].
  destruct (Z.ltb_spec (foldl (λ mx x, if mx <? val x then val x else mx) 0 l) (val x)); split.
  - intros y [Hy| ->%list_elem_of_singleton]%elem_of_app; [specialize (Hub y Hy); lia|done].
  - right. exists x. set_solver.
  - intros y [Hy| ->%list_elem_of_singleton]%elem_of_app; [by apply Hub|done].
  - destruct Hat as [?|(y & Hy & ?)]; [by left|right; exists y; set_solver].
Qed.
Lemma maxOf_nonneg {A} (val : A → Z) l : (∀ x, x ∈ l → 0 ≤ val x) → 0 ≤ maxOf val l.
Proof. intros H. destruct (maxOf_spec val l) as [_ [->|(x & Hx & <-)]]; [done|by apply H]. Qed.
Lemma maxOf_same {A B} (u : A → Z) (v : B → Z) l k :
  (∀ x, x ∈ l → 0 ≤ u x ∧ ∃ y, y ∈ k ∧ v y = u x) → (∀ y, y ∈ k → 0 ≤ v y ∧ ∃ x, x ∈ l ∧ u x = v y) →
  maxOf u l = maxOf v k.
Proof.
  intros Hl Hk. destruct (maxOf_spec u l) as [Ul Al], (maxOf_spec v k) as [Uk Ak].
  assert (0 ≤ maxOf u l) by (apply maxOf_nonneg; intros x Hx; apply Hl, Hx).
  assert (0 ≤ maxOf v k) by (apply maxOf_nonneg; intros x Hx; apply Hk, Hx).
  assert (maxOf u l ≤ maxOf v k).
  { destruct Al as [->|(x & Hx & <-)]; [done|]. destruct (Hl x Hx) as [_ (y & Hy & <-)]. by apply Uk. }
  assert (maxOf v k ≤ maxOf u l).
  { destruct Ak as [->|(y & Hy & <-)]; [done|]. destruct (Hk y Hy) as [_ (x & Hx & <-)]. by apply Ul. }
  lia.
Qed.
End counting.

Lemma firstSome_iff {A B} (f : A → option B) l : firstSome f l = None ↔ ∀ x, x ∈ l → f x = None.
Proof.
  split; [intros H x; by apply firstSome_None|]. induction l as [|x l IH]; intros H; [done|]. simpl.
  rewrite (H x) by set_solver. apply IH. set_solver.
Qed.
Lemma block_if_iff o : gr_Blocked (block_if o) = false ↔ o = None.
Proof. by destruct o. Qed.

(** ** The zone checks are the guards of the transition engine *)
Section mirror.
Context {K : K8s} (rv : ReplicatedVolume) (g : globalContext) (mem : tmem).
Notation ms := (rv_Members rv).
Notation counts := (zoneCounts ms).
Notation vz := counts.1.1.1.
Notation tz := counts.1.1.2.
(** The engine works on the members of the volume. *)
Hypothesis Hms : omap memberOf (g_allReplicas g) ≡ₚ ms.
Hypothesis Hsmall : Z.of_nat (length (g_allReplicas g)) < 256.

Lemma N_type p : N (hasType p) g = countb (λ m, p (m_Type m)) ms.
Proof using Hms.
  unfold N. rewrite <-(countb_perm _ _ _ Hms), countb_omap. apply countb_ext. intros rc _.
  unfold hasType. by destruct (memberOf rc).
Qed.
Lemma N_type_in p z : N (inZone z (hasType p)) g = countb (λ m, p (m_Type m) && String.eqb (m_Zone m) z) ms.
Proof using Hms.
  unfold N. rewrite <-(countb_perm _ _ _ Hms), countb_omap. apply countb_ext. intros rc _.
  unfold inZone, hasType, zoneOf. by destruct (memberOf rc).
Qed.
Lemma zone_voters z : findZoneCount (voterCountPerZone g) z = countIn vz z.
Proof using Hms Hsmall.
  unfold voterCountPerZone. rewrite countPerZone_find. fold (N (inZone z (hasType IsVoter)) g).
  rewrite wrap8_small by apply N_range, Hsmall. rewrite N_type_in. symmetry. apply (co_voters _ _ (zoneCounts_spec ms)).
Qed.
Lemma zone_tiebreakers z : findZoneCount (tbCountPerZone g) z = countIn tz z.
Proof using Hms Hsmall.
  unfold tbCountPerZone. rewrite countPerZone_find. fold (N (inZone z isTB) g).
  rewrite wrap8_small by apply N_range, Hsmall. unfold isTB. rewrite N_type_in.
  symmetry. apply (co_tiebreakers _ _ (zoneCounts_spec ms)).
Qed.
Lemma total_voters : voterCount g = counts.1.2.
Proof using Hms Hsmall.
  rewrite voterCount_N by done. rewrite N_type. symmetry. apply (co_total _ _ (zoneCounts_spec ms)).
Qed.
Lemma total_tiebreakers : tbCount g = counts.2.
Proof using Hms Hsmall.
  unfold tbCount. fold (N isTB g). rewrite wrap8_small by apply N_range, Hsmall. unfold isTB. rewrite N_type.
  symmetry. apply (co_totalTB _ _ (zoneCounts_spec ms)).
Qed.
Lemma zones_same z : z ∈ map zc_Zone (voterCountPerZone g) ↔ is_Some (vz !! z).
Proof using Hms.
  unfold voterCountPerZone. rewrite countPerZone_perm, zones_fold, (co_zones _ _ (zoneCounts_spec ms)).
  setoid_rewrite <-Hms. setoid_rewrite list_elem_of_omap. unfold voterIn, hasType, zoneOf. split.
  - intros [H|(rc & Hrc & Ht & Hz)]; [by apply elem_of_nil in H|]. destruct (memberOf rc) as [m|] eqn:Em; [|done].
    exists m. split; [by exists rc|]. rewrite Ht, Hz. apply String.eqb_refl.
  - intros (m & (rc & Hrc & Em) & [Ht Hz%String.eqb_eq]%andb_prop). right. exists rc. by rewrite Em.
Qed.
Lemma entries_same z c : vz !! z = Some c ↔ {| zc_Zone := z; zc_Count := c |} ∈ voterCountPerZone g.
Proof using Hms Hsmall.
  pose proof (countPerZone_NoDup g (hasType IsVoter)) as Hd. fold (voterCountPerZone g) in Hd. split.
  - intros Hz. assert (Hin : z ∈ map zc_Zone (voterCountPerZone g)) by (apply zones_same; by exists c).
    apply list_elem_of_fmap in Hin as ([z' c'] & -> & Hin). simpl in *. pose proof (findZoneCount_In _ _ Hd Hin) as Hc.
    rewrite zone_voters in Hc. simpl in Hc. unfold countIn in Hc. rewrite Hz in Hc. simpl in Hc. by subst.
  - intros Hin. pose proof (findZoneCount_In _ _ Hd Hin) as Hc. rewrite zone_voters in Hc. simpl in Hc.
    assert (is_Some (vz !! z)) as [c' Hz].
    { apply zones_same, list_elem_of_fmap. by exists {| zc_Zone := z; zc_Count := c |}. }
    unfold countIn in Hc. rewrite Hz in *. simpl in Hc. by subst.
Qed.
Lemma max_same : maxZoneCount (voterCountPerZone g) = maxCount (map_to_list vz).
Proof using Hms Hsmall.
  assert (Hpos : ∀ z c, vz !! z = Some c → 0 ≤ c).
  { intros z c Hz. pose proof (co_voters _ _ (zoneCounts_spec ms) z) as E. unfold countIn in E. rewrite Hz in E. simpl in E.
    rewrite E. apply countb_nonneg. }
  change (maxOf zc_Count (voterCountPerZone g) = maxOf snd (map_to_list vz)). apply maxOf_same.
  - intros [z c] H%entries_same. split; [by eapply Hpos|]. exists (z, c). by rewrite elem_of_map_to_list.
  - intros [z c] H%elem_of_map_to_list. split; [by eapply Hpos|].
    exists {| zc_Zone := z; zc_Count := c |}. by rewrite <-entries_same.
Qed.

Context (i : nat) (rc : ReplicaContext) (m : DatameshMember).
Hypothesis Hi : g_allReplicas g !! i = Some rc.
Hypothesis Hm : memberOf rc = Some m.
Hypothesis Hvoter : m_Type m = MemberTypeDiskful.
Notation top := (cfg_Topology (in_configuration (g_in g))).

Lemma passes_ok (F : globalContext → ReplicaContext → GuardResult) :
  passes (on_subject (λ _ g rc, Ok (F g rc))) mem g i ↔ gr_Blocked (F g rc) = false.
Proof using Hi.
  split; [by intros (r & [= <-] & ?)%(passes_subject _ _ _ _ _ Hi)|]. intros H.
  exists (F g rc). unfold on_subject, rc_at, index. rewrite Hi. done.
Qed.
Lemma member_listed : m ∈ ms.
Proof using Hi Hm Hms. rewrite <-Hms, list_elem_of_omap. exists rc. split; [by eapply list_elem_of_lookup_2|done]. Qed.
Lemma own_zone : ∃ c, vz !! m_Zone m = Some c ∧ 0 < c.
Proof using Hi Hm Hms Hvoter.
  assert (Hv : voterIn (m_Zone m) m = true) by (unfold voterIn; by rewrite Hvoter, String.eqb_refl).
  destruct (proj2 (co_zones _ _ (zoneCounts_spec ms) (m_Zone m))) as [c Hc]; [exists m; auto using member_listed|].
  exists c. split; [done|]. pose proof (co_voters _ _ (zoneCounts_spec ms) (m_Zone m)) as E.
  unfold countIn in E. rewrite Hc in E. simpl in E. rewrite E. by apply countb_pos with m; [apply member_listed|].
Qed.
Lemma replicaZone_own : replicaZone g rc = Some (m_Zone m).
Proof using Hm. unfold replicaZone. by rewrite Hm. Qed.

Lemma transZonal_tb_mirror : passes guardTransZonalTBPlacement mem g i ↔
  (top = TopologyTransZonal → countIn vz (m_Zone m) ≤ 1).
Proof using Hi Hm Hms Hsmall.
  unfold guardTransZonalTBPlacement. rewrite passes_ok, replicaZone_own, zone_voters. unfold isTopology.
  destruct (bool_decide_reflect (top = TopologyTransZonal)); simpl; [|naive_solver].
  destruct (Z.ltb_spec 1 (countIn vz (m_Zone m))); cbn; (split; [try done; intros _ _; lia|intros Hle; try done; specialize (Hle e); lia]).
Qed.
Lemma zonal_mirror : passes guardZonalSameZone mem g i ↔
  (top = TopologyZonal → countIn vz (m_Zone m) = maxCount (map_to_list vz)).
Proof using Hi Hm Hms Hsmall Hvoter.
  unfold guardZonalSameZone. rewrite passes_ok, replicaZone_own, max_same. unfold isTopology.
  destruct (bool_decide_reflect (top = TopologyZonal)) as [Ht|]; simpl; [|naive_solver].
  destruct own_zone as (c & Hc & Hpos). pose proof Hc as Hin. apply entries_same in Hin.
  destruct (voterCountPerZone g) as [|zc l] eqn:El; [by apply elem_of_nil in Hin|]. rewrite <-El in *. clear El.
  unfold countIn. rewrite Hc. simpl. destruct (existsb _ (voterCountPerZone g)) eqn:Ex; simpl.
  - split; [|done]. intros _ _. apply existsb_exists in Ex as ([z c'] & Hz%list_elem_of_In & [E1%String.eqb_eq E2%Z.eqb_eq]%andb_prop).
    simpl in *. subst z. apply entries_same in Hz. congruence.
  - split; [done|]. intros H. specialize (H Ht). apply not_true_iff_false in Ex. destruct Ex. apply existsb_exists.
    exists {| zc_Zone := m_Zone m; zc_Count := c |}. rewrite <-list_elem_of_In. split; [done|]. simpl.
    by rewrite String.eqb_refl, H, Z.eqb_refl.
Qed.

(** Sizes, so that the byte counters of the guards do not wrap. *)
Lemma count_bounds z c : vz !! z = Some c →
  0 ≤ c ∧ 1 ≤ counts.1.2 < 256 ∧ (if String.eqb z (m_Zone m) then 1 ≤ c ≤ counts.1.2 else c ≤ counts.1.2 - 1).
Proof using Hi Hm Hms Hsmall Hvoter.
  intros Hz. destruct own_zone as (c0 & Hc0 & Hpos).
  pose proof (co_voters _ _ (zoneCounts_spec ms) z) as E. pose proof (co_voters _ _ (zoneCounts_spec ms) (m_Zone m)) as E0.
  unfold countIn in E, E0. rewrite Hz in E. rewrite Hc0 in E0. simpl in E, E0.
  rewrite (co_total _ _ (zoneCounts_spec ms)), <-(N_type IsVoter). pose proof (N_range (hasType IsVoter) g Hsmall) as HN.
  rewrite (N_type IsVoter) in *. pose proof (countb_nonneg (voterIn z) ms).
  pose proof (countb_split (λ m, IsVoter (m_Type m)) (λ m', String.eqb (m_Zone m') (m_Zone m)) ms) as Hs. cbv beta in Hs.
  fold (voterIn (m_Zone m)) in Hs.
  destruct (String.eqb_spec z (m_Zone m)) as [->|Hne].
  - rewrite Hz in Hc0. injection Hc0 as ->.
    pose proof (countb_nonneg (λ x, IsVoter (m_Type x) && negb (String.eqb (m_Zone x) (m_Zone m))) ms). lia.
  - assert (countb (voterIn z) ms ≤ countb (λ x, IsVoter (m_Type x) && negb (String.eqb (m_Zone x) (m_Zone m))) ms).
    { apply countb_mono. intros x _ [Hx Hxz%String.eqb_eq]%andb_prop. rewrite Hx, Hxz. simpl. by apply negb_true_iff, String.eqb_neq. }
    lia.
Qed.
Lemma tiebreaker_bounds z : 0 ≤ counts.2 - countIn tz z ∧ counts.2 < 255 ∧ 0 ≤ countIn tz z.
Proof using Hi Hm Hms Hsmall Hvoter.
  rewrite (co_tiebreakers _ _ (zoneCounts_spec ms)), (co_totalTB _ _ (zoneCounts_spec ms)).
  assert (countb (tieBreakerIn z) ms ≤ countb isTieBreakerMember ms).
  { apply countb_mono. by intros x _ [? _]%andb_prop. }
  pose proof (countb_nonneg (tieBreakerIn z) ms). split_and!; try lia.
  pose proof (N_type (λ t, bool_decide (t = MemberTypeTieBreaker)) : N isTB g = countb isTieBreakerMember ms) as E.
  rewrite <-E. enough (N isTB g < Z.of_nat (length (g_allReplicas g))) by lia. unfold N, countb.
  apply inj_lt, filter_length_lt with rc; [by apply list_elem_of_In, (list_elem_of_lookup_2 _ i)|].
  unfold isTB, hasType. by rewrite Hm, Hvoter.
Qed.
Lemma zone_check_mirror z c : vz !! z = Some c →
  let va := counts.1.2 - 1 in
  zoneFTTCheck (counts.1.2 -b 1) (computeTargetQ (counts.1.2 -b 1)) (tbCount g) (tbCountPerZone g) (memberZone rc) true
    {| zc_Zone := z; zc_Count := c |} = None ↔
  zoneSurvivable (m_Zone m) tz va (Z.quot va 2 + 1) counts.2 z c = true.
Proof using Hi Hm Hms Hsmall Hvoter.
  intros Hz va. destruct (count_bounds z c Hz) as (Hc & Hv & Hzone). destruct (tiebreaker_bounds z) as (Ht & Ht2 & Ht3).
  assert (Hva : 0 ≤ va < 255) by lia. assert (Hq : Z.quot va 2 = va / 2) by (apply Z.quot_div_nonneg; lia).
  pose proof (Z.div_pos va 2 ltac:(lia) ltac:(lia)). pose proof (Z.div_le_upper_bound va 2 va ltac:(lia) ltac:(lia)).
  unfold zoneFTTCheck, zoneSurvivable, memberZone, computeTargetQ. rewrite Hm, Hq, total_tiebreakers. simpl zc_Zone. simpl zc_Count.
  fold va. rewrite zone_tiebreakers, (wrap8_small va) by lia. rewrite (wrap8_small (va / 2 + 1)) by lia.
  rewrite (wrap8_small (counts.2 - _)) by lia. unfold andb.
  destruct (String.eqb_spec z (m_Zone m)) as [->|Hne]; simpl negb.
  - destruct (Z.ltb_spec 0 c); [|lia]. rewrite (wrap8_small (c - 1)), (wrap8_small (va - (c - 1))) by lia. rewrite Z.add_0_r.
    unfold orb. destruct (Z.leb_spec (va / 2 + 1) (va - (c - 1))); [done|].
    rewrite (wrap8_small (va / 2 + 1 - 1)) by lia. repeat case_match; naive_solver.
  - rewrite (wrap8_small (va - c)), (wrap8_small (counts.2 - countIn tz z + 1)) by lia.
    unfold orb. destruct (Z.leb_spec (va / 2 + 1) (va - c)); [done|].
    rewrite (wrap8_small (va / 2 + 1 - 1)) by lia. repeat case_match; naive_solver.
Qed.
Lemma quorum_mirror : passes guardZoneFTTPreservedForRetypeToTieBreaker mem g i ↔
  (top = TopologyTransZonal → isRetypeToTieBreakerZoneQuorumSafe (m_Zone m) vz tz counts.1.2 counts.2 = true).
Proof using Hi Hm Hms Hsmall Hvoter.
  unfold guardZoneFTTPreservedForRetypeToTieBreaker, evaluateZoneFTT. rewrite passes_ok. unfold isTopology.
  destruct (bool_decide_reflect (top = TopologyTransZonal)) as [Ht|]; simpl negb; cbv iota; [|simpl; naive_solver].
  rewrite total_voters. destruct own_zone as (c0 & Hc0 & _). destruct (count_bounds _ _ Hc0) as (_ & Hv & _).
  unfold isRetypeToTieBreakerZoneQuorumSafe. destruct (Z.eqb_spec counts.1.2 0) as [?|_]; [lia|].
  rewrite block_if_iff, firstSome_iff, forallb_forall. split.
  - intros H _ [z c] Hin%list_elem_of_In%elem_of_map_to_list. apply zone_check_mirror; [done|]. by apply H, entries_same.
  - intros H [z c] Hin%entries_same. apply zone_check_mirror; [done|].
    apply (H Ht (z, c)), list_elem_of_In. by apply elem_of_map_to_list.
Qed.

(** All zone guards of the retype, against the two checks of the preselection. *)
Definition retypeGuards : list (ReplicaGuardFunc globalContext nat) :=
  gainTBGuards ++ [guardZoneFTTPreservedForRetypeToTieBreaker].
Lemma preselection_mirror :
  let transZonal := bool_decide (top = TopologyTransZonal) in
  let zonal := bool_decide (top = TopologyZonal) in
  let '(v, t, n, k) := if transZonal || zonal then counts else (∅, ∅, 0, 0) in
  placementOK transZonal zonal v (if zonal then maxCount (map_to_list v) else 0) (m_Zone m) &&
    (negb transZonal || isRetypeToTieBreakerZoneQuorumSafe (m_Zone m) v t n k) = true ↔
  Forall (λ gd, passes gd mem g i) retypeGuards.
Proof using Hi Hm Hms Hsmall Hvoter.
  assert (HF : Forall (λ gd, passes gd mem g i) retypeGuards ↔ passes guardZonalSameZone mem g i ∧
    passes guardTransZonalTBPlacement mem g i ∧ passes guardZoneFTTPreservedForRetypeToTieBreaker mem g i).
  { unfold retypeGuards, gainTBGuards. cbn [app]. rewrite !Forall_cons, Forall_nil. naive_solver. }
  rewrite zonal_mirror, transZonal_tb_mirror, quorum_mirror in HF.
  destruct own_zone as (c & Hc & Hpos). pose proof (maxOf_spec snd (map_to_list vz)) as [Hub _].
  assert (Hmax : c ≤ maxCount (map_to_list vz)).
  { apply (Hub (m_Zone m, c)). by apply elem_of_map_to_list. }
  clear Hub. revert HF Hmax Hc. unfold placementOK. destruct counts as [[[v t] n] k]. cbn [fst snd]. intros HF Hmax Hc.
  destruct (bool_decide_reflect (top = TopologyTransZonal)) as [E1|E1],
    (bool_decide_reflect (top = TopologyZonal)) as [E2|E2]; cbn [orb andb negb]; rewrite HF; [congruence| | |naive_solver].
  - destruct (Z.ltb_spec 1 (countIn v (m_Zone m))); cbn; [|naive_solver].
    split; [done|]. intros (_ & H' & _). specialize (H' E1). lia.
  - destruct (Z.ltb_spec 0 (maxCount (map_to_list v))); [|lia].
    destruct (Z.eqb_spec (countIn v (m_Zone m)) (maxCount (map_to_list v))); cbn; naive_solver.
Qed.
End mirror.

(** ** The scan keeps the greatest admissible name *)
Section scan.
Context {K : K8s} (placement quorumSafe : string → bool) (rvrs : list ReplicatedVolumeReplica)
  (rvas : list ReplicatedVolumeAttachment).
Definition admissible (m : DatameshMember) : bool :=
  isDiskfulMember m && specDiskful rvrs m && negb (isMemberAttached m rvas) && (placement (m_Zone m) && quorumSafe (m_Zone m)).
Lemma scan_step s m : chosen (scanMember placement quorumSafe rvrs rvas s m) =
  if admissible m && String.ltb (chosen s) (m_Name m) then m_Name m else chosen s.
Proof.
  unfold scanMember, admissible. destruct (isDiskfulMember m), (specDiskful rvrs m), (isMemberAttached m rvas),
    (placement (m_Zone m)), (quorumSafe (m_Zone m)); try done.
Qed.
Lemma ltb_lt a b : String.ltb a b = true ↔ String.compare a b = Lt.
Proof. unfold String.ltb. by destruct (String.compare a b). Qed.
Lemma ltb_trans a b c : String.ltb a b = true → String.ltb b c = true → String.ltb a c = true.
Proof. rewrite !ltb_lt. apply (cmp_lt_trans (cmp:=String.compare)). Qed.
Lemma ltb_irrefl a : String.ltb a a = false.
Proof. unfold String.ltb. by rewrite (cmp_refl String.compare). Qed.
Lemma scan_greatest ms s : let c := chosen (foldl (scanMember placement quorumSafe rvrs rvas) s ms) in
  (c = chosen s ∨ ∃ m, m ∈ ms ∧ admissible m = true ∧ c = m_Name m) ∧
  (∀ m, m ∈ ms → admissible m = true → String.ltb c (m_Name m) = false).
Proof.
  induction ms as [|m ms IH] using rev_ind; [split; [by left|intros ? H; by apply elem_of_nil in H]|].
  rewrite foldl_app. cbn [foldl]. set (t := foldl _ s ms) in *. rewrite scan_step. destruct IH as [Hin Hmax].
  destruct (admissible m) eqn:Ea; simpl; [destruct (String.ltb (chosen t) (m_Name m)) eqn:El|].
  - split; [right; exists m; set_solver|]. intros m' [Hm'| ->%list_elem_of_singleton]%elem_of_app Ha; [|apply ltb_irrefl].
    destruct (String.ltb (m_Name m) (m_Name m')) eqn:E; [|done]. rewrite <-(Hmax m' Hm' Ha). symmetry. by eapply ltb_trans.
  - split; [destruct Hin as [?|(m' & ? & ? & ?)]; [by left|right; exists m'; set_solver]|].
    intros m' [Hm'| ->%list_elem_of_singleton]%elem_of_app Ha; [by apply Hmax|done].
  - split; [destruct Hin as [?|(m' & ? & ? & ?)]; [by left|right; exists m'; set_solver]|].
    intros m' [Hm'| ->%list_elem_of_singleton]%elem_of_app Ha; [by apply Hmax|congruence].
Qed.
End scan.

Section candidate.
Context {K : K8s}.
(** A diskful member whose replica is still diskful, on a node without attachment. *)
Definition eligibleDonor rvrs rvas (m : DatameshMember) : Prop :=
  m_Type m = MemberTypeDiskful ∧ specDiskful rvrs m = true ∧ isMemberAttached m rvas = false.

(** The retype candidate is chosen by the guards of the transition engine.  On the engine's context
    of the volume, the chosen replica is an unattached diskful member that passes every zone guard of
    the transition to tie-breaker, and no such member has a greater name; in particular, when nothing
    is chosen, every such member is held back by a guard. *)
Theorem retype_candidate_mirrors_guards rv rvrs rvas (g : globalContext) (mem : tmem) :
  omap memberOf (g_allReplicas g) ≡ₚ rv_Members rv → Z.of_nat (length (g_allReplicas g)) < 256 →
  let name := (selectRetypeCandidate (cfg_Topology (in_configuration (g_in g))) rv rvrs rvas).1 in
  let allowed i m := eligibleDonor rvrs rvas m ∧ (memberOf <$> g_allReplicas g !! i) = Some (Some m) ∧
    Forall (λ gd, passes gd mem g i) retypeGuards in
  (name ≠ "" → ∃ i m, allowed i m ∧ m_Name m = name) ∧
  (∀ i m, allowed i m → String.ltb name (m_Name m) = false).
Proof.
  intros Hms Hsmall name allowed. subst name. unfold selectRetypeCandidate.
  set (top := cfg_Topology _) in *.
  pose proof (λ i rc m Hi Hm Hv, preselection_mirror rv g mem Hms Hsmall i rc m Hi Hm Hv) as Hmir. fold top in Hmir.
  cbv zeta in Hmir |- *.
  destruct (if bool_decide (top = TopologyTransZonal) || bool_decide (top = TopologyZonal)
            then zoneCounts (rv_Members rv) else (∅, ∅, 0, 0)) as [[[v t] n] k].
  set (pl := placementOK _ _ _ _) in *. set (qs := λ zone, negb (bool_decide (top = TopologyTransZonal)) || _).
  destruct (scan_greatest pl qs rvrs rvas (rv_Members rv) scanInit) as [Hin Hmax].
  set (c := chosen _) in *.
  assert (Hall : ∀ i m, allowed i m ↔ ∃ rc, g_allReplicas g !! i = Some rc ∧ memberOf rc = Some m ∧ m ∈ rv_Members rv ∧
                                          admissible pl qs rvrs rvas m = true).
  { intros i m. unfold allowed, eligibleDonor, admissible, isDiskfulMember. split.
    - intros ((Ht & Hs & Ha) & Hm & Hg). destruct (g_allReplicas g !! i) as [rc|] eqn:Hi; [|done]. injection Hm as Hm.
      exists rc. rewrite Ht, bool_decide_true, Hs, Ha by done. simpl. split_and!; [done|done| |by apply (Hmir i rc m Hi Hm Ht)].
      rewrite <-Hms, list_elem_of_omap. exists rc. split; [by eapply list_elem_of_lookup_2|done].
    - intros (rc & Hi & Hm & _ & [[[Ht%bool_decide_eq_true Hs]%andb_prop Ha%negb_true_iff]%andb_prop Hp]%andb_prop).
      split; [done|]. rewrite Hi. simpl. rewrite Hm. split; [done|]. by apply (Hmir i rc m Hi Hm Ht). }
  destruct (String.eqb_spec c "") as [Hc|Hc]; simpl; (split; [|intros i m (rc & _ & _ & Hm & Ha)%Hall; rewrite <-?Hc; by apply Hmax]).
  { done. }
  intros _. destruct Hin as [?|(m & Hm & Ha & Hn)]; [done|]. pose proof Hm as Hom.
  rewrite <-Hms, list_elem_of_omap in Hom. destruct Hom as (rc & [i Hi]%list_elem_of_lookup & Hom).
  exists i, m. split; [|done]. apply Hall. by exists rc.
Qed.
End candidate.

(** ** The decision *)
Section decision.
Context {K : K8s}.
Implicit Types (rv : ReplicatedVolume) (rvr : ReplicatedVolumeReplica) (rvrs : list ReplicatedVolumeReplica)
  (rvas : list ReplicatedVolumeAttachment) (a : targetLayoutAction) (r : membershipLayoutConvergedReport).

Lemma memberNames_nil rv rvrs p q : memberNames rv rvrs p q = [] ↔
  ∀ m rvr, m ∈ rv_Members rv → p m = true → findRVRByName rvrs (m_Name m) = Some rvr → q rvr = false.
Proof.
  unfold memberNames. set (f := λ m, _).
  assert (sort_by string_leb (omap f (rv_Members rv)) = [] ↔ omap f (rv_Members rv) = []) as ->.
  { rewrite <-!Permutation_nil_r. by rewrite sort_by_perm. }
  induction (rv_Members rv) as [|m ms IH]; cbn [omap list_omap]; [split; [set_solver|done]|]. fold (omap f ms).
  unfold f at 1. split.
  - intros H m' rvr [-> |Hm]%elem_of_cons Hp Hf; [rewrite Hp, Hf in H; by destruct (q rvr)|].
    destruct (p m), (findRVRByName rvrs (m_Name m)) as [x|]; try (by apply (proj1 IH H m')).
    destruct (q x); [done|by apply (proj1 IH H m')].
  - intros H. assert (Ho : omap f ms = []) by (apply IH; intros m' rvr Hm; apply H; set_solver).
    destruct (p m) eqn:Ep; [|done]. destruct (findRVRByName rvrs (m_Name m)) as [x|] eqn:Ef; [|done].
    by rewrite (H m x ltac:(set_solver) Ep Ef).
Qed.
Lemma memberNames_length rv rvrs p q : Z.of_nat (length (memberNames rv rvrs p q)) ≤ countb p (rv_Members rv).
Proof.
  unfold memberNames. rewrite sort_by_perm. induction (rv_Members rv) as [|m ms IH]; [done|].
  cbn [omap list_omap]. rewrite countb_cons. destruct (p m); simpl; [|exact IH].
  destruct (findRVRByName rvrs (m_Name m)) as [x|]; [destruct (q x)|]; simpl; lia.
Qed.
(** Only the replicas found by the names of the members matter. *)
Lemma memberNames_ext rv rvrs rvrs' p q : (∀ m, m ∈ rv_Members rv → findRVRByName rvrs (m_Name m) = findRVRByName rvrs' (m_Name m)) →
  memberNames rv rvrs p q = memberNames rv rvrs' p q.
Proof.
  intros H. unfold memberNames. f_equal. induction (rv_Members rv) as [|m ms IH]; [done|]. cbn [omap list_omap].
  rewrite (H m) by set_solver. rewrite IH by set_solver. done.
Qed.
Lemma intended_tb cfg : 0 ≤ (IntendedLayout cfg).2 ≤ 1.
Proof. unfold IntendedLayout, TieBreakersForDiskful. simpl. destruct (_ && _); lia. Qed.

Definition settled rv rvrs (cfg : Configuration) : Prop :=
  rv_DeletionTimestamp rv = None ∧ computeActualLayout rv = IntendedLayout cfg ∧ hasLayoutChangingTransition rv = false ∧
  ∀ m rvr, m ∈ rv_Members rv → findRVRByName rvrs (m_Name m) = Some rvr →
    (IsVoter (m_Type m) = true → rvr_Spec_Type rvr ≠ ReplicaTypeTieBreaker) ∧
    (m_Type m = MemberTypeTieBreaker → rvr_DeletionTimestamp rvr = None).

Lemma candidate_donor top rv rvrs rvas : let name := (selectRetypeCandidate top rv rvrs rvas).1 in
  name ≠ "" → ∃ m, m ∈ rv_Members rv ∧ m_Name m = name ∧ eligibleDonor rvrs rvas m.
Proof.
  unfold selectRetypeCandidate. destruct (if _ || _ then _ else _) as [[[v t] n] k].
  set (pl := placementOK _ _ _ _). set (qs := λ zone : string, _).
  destruct (scan_greatest pl qs rvrs rvas (rv_Members rv) scanInit) as [[Hin|(m & Hm & Ha & Hn)] _].
  { by rewrite Hin. }
  rewrite Hn. destruct (String.eqb_spec (m_Name m) ""); simpl; [done|]. intros _. exists m. split; [done|]. split; [done|].
  unfold admissible, isDiskfulMember in Ha. apply andb_prop in Ha as [[[Ht%bool_decide_eq_true Hs]%andb_prop Hat%negb_true_iff]%andb_prop _].
  done.
Qed.

(** The outcome by cases: at rest, reported; or one of the two actions. *)
Inductive decided rv rvrs rvas (cfg : Configuration) : targetLayoutAction → membershipLayoutConvergedReport → Prop :=
| DecidedNothing r : status r ≠ ConditionTrue → reason r ≠ ReasonConverged → decided rv rvrs rvas cfg noAction r
| DecidedConverged msg : computeActualLayout rv = IntendedLayout cfg →
    hasLayoutChangingTransition rv = false → pendingRetypeToTieBreakerMemberNames rv rvrs = [] →
    deletingTieBreakerMemberNames rv rvrs = [] → decided rv rvrs rvas cfg noAction (report ConditionTrue ReasonConverged msg)
| DecidedRetype m msg : m ∈ rv_Members rv → eligibleDonor rvrs rvas m →
    hasLayoutChangingTransition rv = false → pendingRetypeToTieBreakerMemberNames rv rvrs = [] →
    (IntendedLayout cfg).1 < (computeActualLayout rv).1 → (computeActualLayout rv).2 < (IntendedLayout cfg).2 →
    decided rv rvrs rvas cfg {| kind := layoutActionRetypeToTieBreaker; retypeRVRName := m_Name m |} (converging msg)
| DecidedCreate msg :
    hasLayoutChangingTransition rv = false → pendingRetypeToTieBreakerMemberNames rv rvrs = [] →
    (computeActualLayout rv).1 = (IntendedLayout cfg).1 →
    countPendingTieBreakerCreations rv rvrs <
      (IntendedLayout cfg).2 - ((computeActualLayout rv).2 - Z.of_nat (length (deletingTieBreakerMemberNames rv rvrs))) →
    decided rv rvrs rvas cfg {| kind := layoutActionCreateTieBreaker; retypeRVRName := "" |} (converging msg).

Lemma replacement_decided rv rvrs rvas cfg a r al il : hasLayoutChangingTransition rv = false →
  pendingRetypeToTieBreakerMemberNames rv rvrs = [] →
  computeTargetTieBreakerReplacement rv rvrs (computeActualLayout rv).1 (computeActualLayout rv).2
    (IntendedLayout cfg).1 (IntendedLayout cfg).2 al il = Some (a, r) → decided rv rvrs rvas cfg a r.
Proof.
  intros Hh Hp. unfold computeTargetTieBreakerReplacement.
  destruct ((_ =? 0) || negb _) eqn:E1; [done|]. apply orb_false_iff in E1 as [_ E1%negb_false_iff%Z.eqb_eq].
  destruct (_ <? _); [done|]. destruct (_ =? (IntendedLayout cfg).2); [intros [= <- <-]; by apply DecidedNothing|].
  destruct (Z.leb_spec ((IntendedLayout cfg).2 - ((computeActualLayout rv).2 - Z.of_nat (length (deletingTieBreakerMemberNames rv rvrs))))
              (countPendingTieBreakerCreations rv rvrs)).
  - destruct (negb _); intros [= <- <-]; by apply DecidedNothing.
  - intros [= <- <-]. by apply DecidedCreate.
Qed.
Lemma replacement_none rv rvrs cfg al il : computeActualLayout rv = IntendedLayout cfg →
  computeTargetTieBreakerReplacement rv rvrs (computeActualLayout rv).1 (computeActualLayout rv).2
    (IntendedLayout cfg).1 (IntendedLayout cfg).2 al il = None ↔ deletingTieBreakerMemberNames rv rvrs = [].
Proof.
  intros E. unfold computeTargetTieBreakerReplacement. rewrite E, Z.eqb_refl, orb_false_r.
  destruct (deletingTieBreakerMemberNames rv rvrs) as [|n l] eqn:El; [done|].
  destruct (Z.eqb_spec (Z.of_nat (length (n :: l))) 0); [simpl in *; lia|].
  destruct (Z.ltb_spec (IntendedLayout cfg).2 ((IntendedLayout cfg).2 - Z.of_nat (length (n :: l)))); [simpl in *; lia|].
  split; [|done]. by repeat case_match.
Qed.
Lemma action_decided rv rvrs rvas cfg : rv_Configuration rv = Some cfg →
  ∃ a r, computeTargetLayoutAction rv rvrs rvas = Ok (a, r) ∧ decided rv rvrs rvas cfg a r ∧
         (kind a ≠ layoutActionNone → rv_DeletionTimestamp rv = None).
Proof.
  intros Hc. unfold computeTargetLayoutAction. destruct (rv_DeletionTimestamp rv); [do 2 eexists; split; [done|]; by split; [apply DecidedNothing|]|].
  rewrite Hc. cbn [deref mbind outcome_bind]. destruct (IntendedLayout cfg) as [iD iT] eqn:EI, (computeActualLayout rv) as [aD aT] eqn:EA.
  destruct (hasLayoutChangingTransition rv) eqn:Eh; [do 2 eexists; split; [done|]; by split; [apply DecidedNothing|]|].
  destruct (pendingRetypeToTieBreakerMemberNames rv rvrs) eqn:Ep; [|do 2 eexists; split; [done|]; by split; [apply DecidedNothing|]].
  destruct (computeTargetTieBreakerReplacement rv rvrs aD aT iD iT _ _) as [[a r]|] eqn:Er.
  { exists a, r. split; [done|]. split; [|done]. eapply replacement_decided; [done..|]. by rewrite EI, EA. }
  destruct ((aD =? iD) && (aT =? iT)) eqn:Eq.
  { apply andb_prop in Eq as [->%Z.eqb_eq ->%Z.eqb_eq]. do 2 eexists. split; [done|]. split; [|done].
    apply DecidedConverged; [by rewrite EI|done..|]. eapply (replacement_none rv rvrs cfg); [by rewrite EI|]. rewrite EA, EI. exact Er. }
  destruct (whitelistedAction _ _ _ _ _ _ _ _ _ _) as [a r] eqn:Ew. exists a, r. split; [done|]. split; [|done]. revert Ew.
  unfold whitelistedAction. destruct ((iD <? aD) && (aT <? iT)) eqn:E1.
  - apply andb_prop in E1 as [?%Z.ltb_lt ?%Z.ltb_lt].
    pose proof (candidate_donor (cfg_Topology cfg) rv rvrs rvas) as Hcand. cbv zeta in Hcand.
    destruct (selectRetypeCandidate _ _ _ _) as [name why]. cbn [fst] in Hcand.
    destruct (String.eqb_spec name ""); intros [= <- <-]; [by apply DecidedNothing|].
    destruct (Hcand ltac:(done)) as (m & Hm & <- & Hdonor). apply DecidedRetype; by rewrite ?EI, ?EA.
  - destruct ((aD =? iD) && (aT <? iT)) eqn:E2; [|intros [= <- <-]; by apply DecidedNothing].
    apply andb_prop in E2 as [?%Z.eqb_eq ?%Z.ltb_lt]. destruct (Z.leb_spec (iT - aT) (countPendingTieBreakerCreations rv rvrs)).
    + destruct (negb _); intros [= <- <-]; by apply DecidedNothing.
    + intros [= <- <-]. apply DecidedCreate; [done|done|by rewrite EA, EI|]. rewrite EA, EI. cbn [fst snd]. lia.
Qed.

Lemma settled_lists rv rvrs cfg : settled rv rvrs cfg ↔
  rv_DeletionTimestamp rv = None ∧ computeActualLayout rv = IntendedLayout cfg ∧ hasLayoutChangingTransition rv = false ∧
  pendingRetypeToTieBreakerMemberNames rv rvrs = [] ∧ deletingTieBreakerMemberNames rv rvrs = [].
Proof.
  unfold settled, pendingRetypeToTieBreakerMemberNames, deletingTieBreakerMemberNames. rewrite !memberNames_nil.
  assert (HV : ∀ m, bool_decide (m_Type m = MemberTypeDiskful) || bool_decide (m_Type m = MemberTypeLiminalDiskful) = IsVoter (m_Type m)).
  { intros m. by destruct (m_Type m). }
  setoid_rewrite HV. unfold isTieBreakerMember, isDeleting. setoid_rewrite bool_decide_eq_false. setoid_rewrite bool_decide_eq_true.
  setoid_rewrite <-eq_None_not_Some. naive_solver.
Qed.
Lemma settled_converged rv rvrs rvas cfg : rv_Configuration rv = Some cfg → settled rv rvrs cfg →
  ∃ msg, computeTargetLayoutAction rv rvrs rvas = Ok (noAction, report ConditionTrue ReasonConverged msg).
Proof.
  intros Hc (Hd & Hl & Hh & Hp & Ht)%settled_lists. unfold computeTargetLayoutAction. rewrite Hd, Hc. cbn [deref mbind outcome_bind].
  pose proof (replacement_none rv rvrs cfg (formatLayout (computeActualLayout rv).1 (computeActualLayout rv).2)
                (formatLayout (IntendedLayout cfg).1 (IntendedLayout cfg).2) Hl) as [_ Hr]. specialize (Hr Ht).
  destruct (IntendedLayout cfg) as [iD iT], (computeActualLayout rv) as [aD aT]. cbn [fst snd] in Hr. injection Hl as -> ->.
  rewrite Hh, Hp, Hr, !Z.eqb_refl. eexists. done.
Qed.

(** The condition is true exactly when nothing is left to do.  With a configuration, the decision
    never fails; MembershipLayoutConverged is True exactly when the volume is not being deleted, its
    voters and tie-breakers are the intended ones, no membership transition touches them, no replica of
    a voter is asked to become a tie-breaker and no replica of a tie-breaker is being deleted; and
    whenever an action is taken the condition says False, Converging. *)
Theorem converged_iff_settled rv rvrs rvas cfg : rv_Configuration rv = Some cfg →
  ∃ a r, computeTargetLayoutAction rv rvrs rvas = Ok (a, r) ∧
    (status r = ConditionTrue ↔ settled rv rvrs cfg) ∧ (reason r = ReasonConverged ↔ status r = ConditionTrue) ∧
    (kind a ≠ layoutActionNone → status r = ConditionFalse ∧ reason r = ReasonConverging).
Proof.
  intros Hc. destruct (action_decided rv rvrs rvas cfg Hc) as (a & r & E & Hd & Hdel). exists a, r. split; [done|].
  assert (Hs : settled rv rvrs cfg → status r = ConditionTrue).
  { intros Hs. destruct (settled_converged rv rvrs rvas cfg Hc Hs) as (msg & E'). rewrite E' in E. by injection E as <- <-. }
  split; [split; [|exact Hs]|]; destruct Hd as [r H1 H2|msg H1 H2 H3 H4| |]; try done.
  - intros _. apply settled_lists. split; [|done]. unfold computeTargetLayoutAction in E.
    by destruct (rv_DeletionTimestamp rv).
Qed.

(** *** After an action *)
Lemma find_replace name (r : ReplicatedVolumeReplica) rvrs (name' : string) : rvr_Name r = name → is_Some (findRVRByName rvrs name) →
  findRVRByName (replaceByName name r rvrs) name' = if String.eqb name name' then Some r else findRVRByName rvrs name'.
Proof.
  intros Hr. unfold findRVRByName. induction rvrs as [|x rvrs IH]; simpl; [by intros []|].
  destruct (String.eqb_spec (rvr_Name x) name) as [Hx|Hx]; simpl.
  - intros _. rewrite Hr, Hx. by destruct (String.eqb name name').
  - intros H. rewrite IH by done. destruct (String.eqb_spec (rvr_Name x) name') as [<-|]; [|done].
    by apply not_eq_sym, String.eqb_neq in Hx as ->.
Qed.
Lemma find_insert l1 l2 (r : ReplicatedVolumeReplica) name : rvr_Name r ≠ name → findRVRByName (l1 ++ r :: l2) name = findRVRByName (l1 ++ l2) name.
Proof.
  intros Hne%String.eqb_neq. unfold findRVRByName. induction l1 as [|x l1 IH]; simpl; [by rewrite Hne|].
  destruct (String.eqb (rvr_Name x) name); [done|exact IH].
Qed.
Lemma in_flight_converging rv rvrs rvas cfg : rv_Configuration rv = Some cfg → rv_DeletionTimestamp rv = None →
  hasLayoutChangingTransition rv = false → pendingRetypeToTieBreakerMemberNames rv rvrs ≠ [] →
  ∃ msg, computeTargetLayoutAction rv rvrs rvas = Ok (noAction, converging msg).
Proof.
  intros Hc Hd Hh Hp. unfold computeTargetLayoutAction. rewrite Hd, Hc. cbn [deref mbind outcome_bind].
  destruct (IntendedLayout cfg), (computeActualLayout rv). rewrite Hh.
  destruct (pendingRetypeToTieBreakerMemberNames rv rvrs); [done|]. by eexists.
Qed.

(** An action in flight is never issued again.  Once the replica chosen for a retype asks for the
    tie-breaker role, or a new tie-breaker replica exists that is not yet a member, the next decision on
    the same volume takes no action (and reports a retype as converging). *)
Theorem no_second_action rv rvrs rvas cfg a r : rv_Configuration rv = Some cfg →
  computeTargetLayoutAction rv rvrs rvas = Ok (a, r) →
  (kind a = layoutActionRetypeToTieBreaker → ∃ rvr, findRVRByName rvrs (retypeRVRName a) = Some rvr ∧
     ∃ msg, computeTargetLayoutAction rv (replaceByName (retypeRVRName a) (applyRVRRetypeToTieBreaker rvr) rvrs) rvas =
              Ok (noAction, converging msg)) ∧
  (kind a = layoutActionCreateTieBreaker → ∀ l1 l2 rvr, rvrs = l1 ++ l2 → rvr_Spec_Type rvr = ReplicaTypeTieBreaker →
     rvr_DeletionTimestamp rvr = None → isMember rv (rvr_Name rvr) = false →
     ∃ r', computeTargetLayoutAction rv (l1 ++ rvr :: l2) rvas = Ok (noAction, r')).
Proof.
  intros Hc E. destruct (action_decided rv rvrs rvas cfg Hc) as (a' & r' & E' & Hd & Hdel). rewrite E in E'. injection E' as <- <-.
  split; intros Hk; rewrite Hk in Hdel; specialize (Hdel ltac:(done));
    destruct Hd as [| |m msg Hm Hdonor Hh Hp _ _|msg Hh Hp HD Hlt]; try done.
  - destruct Hdonor as (Ht & Hs & _). unfold specDiskful in Hs. simpl.
    destruct (findRVRByName rvrs (m_Name m)) as [rvr|] eqn:Ef; [|done]. exists rvr. split; [done|].
    eapply in_flight_converging; [done..|]. intros Hnil. unfold pendingRetypeToTieBreakerMemberNames in Hnil.
    apply find_some in Ef as Hn. destruct Hn as [_ Hn%String.eqb_eq].
    assert (Hf : findRVRByName (replaceByName (m_Name m) (applyRVRRetypeToTieBreaker rvr) rvrs) (m_Name m) = Some (applyRVRRetypeToTieBreaker rvr)).
    { rewrite find_replace, String.eqb_refl; [done|done|]. rewrite Ef. by eexists. }
    pose proof (proj1 (memberNames_nil _ _ _ _) Hnil m (applyRVRRetypeToTieBreaker rvr) Hm) as Hq. cbv beta in Hq. rewrite Ht in Hq.
    by specialize (Hq eq_refl Hf).
  - intros l1 l2 rvr -> Hty Hdl Hmem.
    assert (Hf : ∀ m, m ∈ rv_Members rv → findRVRByName (l1 ++ rvr :: l2) (m_Name m) = findRVRByName (l1 ++ l2) (m_Name m)).
    { intros m Hm. apply find_insert. intros Hn. unfold isMember, FindMemberByName in Hmem. apply bool_decide_eq_false in Hmem.
      destruct Hmem. rewrite Hn. destruct (List.find _ _) eqn:Ex; [by eexists|].
      eapply find_none in Ex; [|by apply list_elem_of_In]. by rewrite String.eqb_refl in Ex. }
    assert (Hcnt : countPendingTieBreakerCreations rv (l1 ++ rvr :: l2) = countPendingTieBreakerCreations rv (l1 ++ l2) + 1).
    { unfold countPendingTieBreakerCreations. rewrite !countb_app, countb_cons. unfold isPendingTieBreaker at 2.
      rewrite Hty, Hmem. unfold isDeleting. rewrite Hdl. simpl. lia. }
    destruct (action_decided rv (l1 ++ rvr :: l2) rvas cfg Hc) as (a2 & r2 & E2 & Hd2 & _). rewrite E2.
    exists r2. do 2 f_equal. destruct Hd2 as [| |m2 msg2 _ _ _ _ HD2 _|msg2 _ _ _ Hlt2]; try done; [lia|].
    exfalso. rewrite Hcnt in Hlt2. unfold deletingTieBreakerMemberNames in *. rewrite (memberNames_ext _ _ _ _ _ Hf) in Hlt2.
    pose proof (memberNames_length rv (l1 ++ l2) isTieBreakerMember isDeleting). pose proof (intended_tb cfg).
    unfold computeActualLayout in Hlt2. cbn [snd] in Hlt2.
    pose proof (countb_nonneg (isPendingTieBreaker rv) (l1 ++ l2)). unfold countPendingTieBreakerCreations in Hlt2. lia.
Qed.

End decision.

(** ** Three diskful replicas where two and a tie-breaker are intended *)
Section concrete.
Import scenario.
Definition wide : ReplicatedVolume :=
  volume <| rv_Members := [member 0 MemberTypeDiskful; member 1 MemberTypeDiskful; member 3 MemberTypeDiskful] |>.
Definition wideRVRs : list ReplicatedVolumeReplica :=
  [rvr 0 ReplicaTypeDiskful [1; 3] 5; rvr 1 ReplicaTypeDiskful [0; 3] 5; rvr 3 ReplicaTypeDiskful [0; 1] 5].
(** The greatest name belongs to an attached node: the next one is taken. *)
Definition wideGlobal : globalContext := Eval vm_compute in
  match buildContexts wide pool wideRVRs [attachment 3] flags with Ok g => g | _ => initContext wide config pool flags end.
Definition wideAction : targetLayoutAction := {| kind := layoutActionRetypeToTieBreaker; retypeRVRName := "vol-1" |}.
Definition wideReport : membershipLayoutConvergedReport :=
  converging "retyping Diskful replica vol-1 to tie-breaker: have 3D, want 2D+1TB".
Lemma wide_decides : computeTargetLayoutAction wide wideRVRs [attachment 3] = Ok (wideAction, wideReport).
Proof. vm_compute. reflexivity. Qed.

Lemma retype_candidate_mirrors_guards_witness :
  ∃ i m, m_Name m = "vol-1" ∧ (memberOf <$> g_allReplicas wideGlobal !! i) = Some (Some m) ∧
    Forall (λ gd, passes gd [] wideGlobal i) retypeGuards.
Proof.
  destruct (retype_candidate_mirrors_guards wide wideRVRs [attachment 3] wideGlobal []) as [H _].
  - vm_compute. reflexivity.
  - vm_compute. reflexivity.
  - destruct H as (i & m & (_ & Hi & Hg) & Hn); [by vm_compute|]. exists i, m. split; [by rewrite Hn|auto].
Defined.
Lemma converged_iff_settled_witness :
  ∃ a r, computeTargetLayoutAction volume (rvrs 5) [attachment 1] = Ok (a, r) ∧ status r = ConditionTrue.
Proof.
  destruct (converged_iff_settled volume (rvrs 5) [attachment 1] config) as (a & r & E & H & _); [reflexivity|].
  exists a, r. split; [exact E|]. apply H. vm_compute in E. injection E as <- <-. apply H. reflexivity.
Defined.
Lemma no_second_action_witness :
  ∃ msg, computeTargetLayoutAction wide (replaceByName "vol-1" (applyRVRRetypeToTieBreaker (rvr 1 ReplicaTypeDiskful [0; 3] 5)) wideRVRs)
           [attachment 3] = Ok (noAction, converging msg).
Proof.
  destruct (no_second_action wide wideRVRs [attachment 3] config wideAction wideReport) as [H _]; [reflexivity|exact wide_decides|].
  destruct (H eq_refl) as (x & Hx & Hm). vm_compute in Hx. injection Hx as <-. exact Hm.
Defined.
End concrete.
