(* ===== verification/RolloutTheory.v ===== *)
(** * rv_controller: properties of the configuration rollout *)

From Stdlib Require Import ZArith Lia String Sorted.
From stdpp Require Import base gmap list numbers strings option relations sorting.
From S2P Require Import Prelude IdSet DrbdSize Api Object Storage Flow Client Rollout Scenario.
Import v1alpha1 objutilv1 storage flow client rollout.

Set Default Proof Using "Type".

(** ** The queue *)
Lemma string_leb_cmp a b : string_leb a b = cmp_leb String.compare a b.
Proof. unfold string_leb, cmp_leb. by destruct (String.compare a b). Qed.
Lemma leb_not_lt a b : string_leb a b = true → String.compare b a ≠ Lt.
Proof. rewrite string_leb_cmp. unfold cmp_leb. rewrite (cmp_flip (cmp:=String.compare) a b). by destruct (String.compare b a). Qed.
Lemma string_leb_trans a b c : string_leb a b = true → string_leb b c = true → string_leb a c = true.
Proof.
  intros H1 H2. rewrite string_leb_cmp in H1, H2 |- *. unfold cmp_leb in H1. destruct (String.compare a b) eqn:E1; [| |done].
  - apply (cmp_eq (cmp:=String.compare)) in E1. by subst.
  - pose proof (below_strict String.compare id a b c E1 H2) as H. unfold below, id in H. unfold cmp_leb. by rewrite H.
Qed.
Lemma sort_names_sorted l : StronglySorted (λ a b, string_leb a b = true) (sort_by string_leb l).
Proof.
  apply Sorted_StronglySorted; [intros a b c; apply string_leb_trans|]. apply sort_by_sorted. apply string_leb_total.
Qed.
(** Everything smaller than the name found stands before it. *)
Lemma position_before l n i : StronglySorted (λ a b, string_leb a b = true) l → l !! i = Some n →
  ∀ x, x ∈ l → String.compare x n = Lt → x ∈ take i l.
Proof.
  intros Hs. revert i. induction Hs as [|y l Hs IH Hy]; intros i Hi x Hx Hlt; [done|].
  destruct i as [|i]; simpl in *.
  - injection Hi as ->. apply elem_of_cons in Hx as [->|Hx].
    + by rewrite (cmp_refl String.compare) in Hlt.
    + rewrite Forall_forall in Hy. by destruct (leb_not_lt n x (Hy x Hx)).
  - apply elem_of_cons in Hx as [->|Hx]; [set_solver|]. apply elem_of_cons. right. by eapply IH.
Qed.

Section cohort.
Context {K : K8s} {Meta : MetaApi}.
Lemma withSelf_other rv l b m : m ∈ l → rv_Name m ≠ rv_Name rv → m ∈ withSelf rv l b.
Proof.
  revert b. induction l as [|x l IH]; intros b Hm Hne; [by apply not_elem_of_nil in Hm|]. simpl.
  apply elem_of_cons in Hm as [->|Hm].
  - apply String.eqb_neq in Hne. rewrite Hne. simpl. set_solver.
  - destruct (negb _); [apply elem_of_cons; right; by apply IH|]. destruct b; [by apply IH|]. apply elem_of_cons. right. by apply IH.
Qed.
Lemma withSelf_self rv l : rv ∈ withSelf rv l false.
Proof.
  induction l as [|x l IH]; simpl; [set_solver|]. destruct (negb _); set_solver.
Qed.
Definition roleOf rv cfg G m : rolloutRole := computeActualRolloutRole m (rv_Spec_ReplicatedStorageClassName rv) cfg G.
(** The room: at admission the volumes seen pending with a smaller name and those seen active are
    fewer than the limit, whatever the listing is. *)
Lemma admission_room rv l cfg G k (W : list string) : roleOf rv cfg G rv = rolloutRolePending →
  computeTargetRolloutAdmission rv (computeActualRolloutCohort rv l cfg G) k = true → NoDup W →
  (∀ w, w ∈ W → String.compare w (rv_Name rv) = Lt ∧
     ∃ m, m ∈ l ∧ rv_Name m = w ∧ (roleOf rv cfg G m = rolloutRolePending ∨ roleOf rv cfg G m = rolloutRoleActive)) →
  Z.of_nat (length W) < k.
Proof.
  intros Hr Ha Hd HW. unfold computeTargetRolloutAdmission, computeActualRolloutCohort in Ha. simpl in Ha.
  set (role := roleOf rv cfg G) in *. set (ms := withSelf rv l false) in *. set (pending := sort_by string_leb _) in Ha.
  assert (Hp : ∀ m, m ∈ ms → role m = rolloutRolePending → rv_Name m ∈ pending).
  { intros m Hm Hrole. unfold pending. rewrite sort_by_perm. apply list_elem_of_fmap. exists m. split; [done|].
    apply list_elem_of_In, filter_In. split; [by apply list_elem_of_In|]. by apply (bool_decide_eq_true_2 (role m = rolloutRolePending)). }
  destruct (list_find _ pending) as [[i n]|] eqn:Ef.
  2:{ apply list_find_None in Ef. rewrite Forall_forall in Ef. exfalso. apply (Ef (rv_Name rv)); [|done].
      apply Hp; [apply withSelf_self|done]. }
  apply list_find_Some in Ef as (Hi & -> & _). apply Z.ltb_lt in Ha.
  set (act := map rv_Name (List.filter (λ m, bool_decide (role m = rolloutRoleActive)) ms)).
  assert (Hact : Z.of_nat (length act) = countb (λ m, bool_decide (computeActualRolloutRole m (rv_Spec_ReplicatedStorageClassName rv) cfg G = rolloutRoleActive)) ms).
  { unfold act, countb. by rewrite length_map. }
  assert (Hlen : (length W ≤ length (take i pending ++ act))%nat).
  { apply submseteq_length, NoDup_submseteq; [done|]. intros w Hw. destruct (HW w Hw) as (Hlt & m & Hm & <- & Hrole).
    assert (Hmm : m ∈ ms). { apply withSelf_other; [done|]. intros E. rewrite E in Hlt. by rewrite (cmp_refl String.compare) in Hlt. }
    apply elem_of_app. destruct Hrole as [Hrole|Hrole].
    - left. eapply position_before; [apply sort_names_sorted|done|by apply Hp|done].
    - right. apply list_elem_of_fmap. exists m. split; [done|]. apply list_elem_of_In, filter_In.
      split; [by apply list_elem_of_In|]. by apply bool_decide_eq_true. }
  rewrite length_app, length_take in Hlen. lia.
Qed.

(** ** The budget, under stale listings

    [history] keeps every version of every volume, newest first.  A volume of the rollout is pending,
    active or converged in all its versions.  A listing shows some version of each of them, however
    old, and anything else. *)
Section budget.
Notation history := (gmap string (list ReplicatedVolume)).
Context (class : string) (cfg : Configuration) (G k : Z).
Definition role (v : ReplicatedVolume) : rolloutRole := computeActualRolloutRole v class cfg G.
Definition inRollout (name : string) (v : ReplicatedVolume) : Prop := rv_Name v = name ∧ role v ≠ rolloutRoleExcluded.
(** At the start the generation is new: no version has reached it. *)
Definition starts (h : history) : Prop :=
  map_Forall (λ name vs, vs ≠ [] ∧ Forall (λ v, inRollout name v ∧ role v ≠ rolloutRoleConverged) vs) h.
Definition shows (h : history) (listing : list ReplicatedVolume) : Prop :=
  ∀ name vs, h !! name = Some vs → ∃ v, v ∈ listing ∧ v ∈ vs.

(** A pass that adopts the configuration, or any other new version of a volume: a pending volume does
    not adopt it otherwise. *)
Inductive advance (h : history) : history → Prop :=
| Admits name v vs v' listing : h !! name = Some (v :: vs) → role v = rolloutRolePending → shows h listing →
    computeTargetRolloutAdmission v (computeActualRolloutCohort v listing cfg G) k = true →
    inRollout name v' → advance h (<[name := v' :: v :: vs]> h)
| Changed name v vs v' : h !! name = Some (v :: vs) → (role v = rolloutRolePending → role v' = rolloutRolePending) →
    inRollout name v' → advance h (<[name := v' :: v :: vs]> h).

Definition isPending (vs : option (list ReplicatedVolume)) : bool :=
  match vs with Some (v :: _) => bool_decide (role v = rolloutRolePending) | _ => false end.
Definition everConverged (vs : list ReplicatedVolume) : bool := existsb (λ v, bool_decide (role v = rolloutRoleConverged)) vs.
(** The volumes that have not converged. *)
Definition unfinished (h : history) : gset string := dom (filter (λ p, everConverged p.2 = false) h).
(** Those among them that adopted the configuration since the start. *)
Definition migrating (h0 h : history) : gset string :=
  filter (λ n, isPending (h0 !! n) = true ∧ isPending (h !! n) = false) (unfinished h).

Lemma pending_class v : role v = rolloutRolePending → rv_Spec_ReplicatedStorageClassName v = class.
Proof.
  unfold role, computeActualRolloutRole. destruct (bool_decide (is_Some _)); [done|]. destruct (bool_decide _); [done|]. simpl.
  by destruct (String.eqb_spec (rv_Spec_ReplicatedStorageClassName v) class).
Qed.
Lemma elem_unfinished h w : w ∈ unfinished h ↔ ∃ vs, h !! w = Some vs ∧ everConverged vs = false.
Proof. unfold unfinished. rewrite elem_of_dom. unfold is_Some. by setoid_rewrite map_lookup_filter_Some. Qed.
Lemma unfinished_grow h name vs v' : h !! name = Some vs → unfinished (<[name := v' :: vs]> h) ⊆ unfinished h.
Proof.
  intros Hn w (ws & Hw & Hc)%elem_unfinished. apply elem_unfinished. destruct (decide (w = name)) as [->|Hne].
  - rewrite lookup_insert_eq in Hw. injection Hw as <-. simpl in Hc. apply orb_false_iff in Hc as [_ Hc]. by exists vs.
  - rewrite lookup_insert_ne in Hw by done. by exists ws.
Qed.
Lemma everConverged_false vs v : everConverged vs = false → v ∈ vs → role v ≠ rolloutRoleConverged.
Proof.
  intros H Hv E. assert (everConverged vs = true); [|congruence]. apply existsb_exists. exists v.
  split; [by apply list_elem_of_In|]. by apply bool_decide_eq_true.
Qed.

Definition atMost (n w : string) : bool := string_leb w n.
(** No more than [k] unfinished volumes up to a given name. *)
Definition roomAt (h : history) (n : string) : Prop := Z.of_nat (size (filter (λ w, atMost n w = true) (unfinished h))) ≤ k.
Record budgetInv (h0 h : history) : Prop := {
  bi_shape : map_Forall (λ name vs, Forall (inRollout name) vs) h;
  bi_room n : isPending (h0 !! n) = true → isPending (h !! n) = false → roomAt h n;
}.
Lemma room_grow (h : history) name vs v' n : h !! name = Some vs → roomAt h n → roomAt (<[name := v' :: vs]> h) n.
Proof.
  intros Hn H. unfold roomAt in *. etrans; [|exact H]. apply inj_le, subseteq_size.
  intros w [Ha Hw]%elem_of_filter. apply elem_of_filter. split; [done|]. by eapply unfinished_grow.
Qed.
Lemma shape_grow (h : history) name v' vs : map_Forall (λ name vs, Forall (inRollout name) vs) h → h !! name = Some vs → inRollout name v' →
  map_Forall (λ name vs, Forall (inRollout name) vs) (<[name := v' :: vs]> h).
Proof. intros H Hn Hv. apply map_Forall_insert_2; [|done]. constructor; [done|]. by apply (H name). Qed.
(** The admission makes room up to the admitted name. *)
Lemma admitted_room (h : history) name v vs listing : map_Forall (λ name vs, Forall (inRollout name) vs) h → h !! name = Some (v :: vs) →
  role v = rolloutRolePending → shows h listing →
  computeTargetRolloutAdmission v (computeActualRolloutCohort v listing cfg G) k = true → roomAt h name.
Proof.
  intros Hs Hn Hr Hl Ha. pose proof (pending_class v Hr) as Hc. pose proof (Hs name _ Hn) as [[Hname _] _]%Forall_cons.
  set (W := filter (λ w, String.compare w name = Lt) (unfinished h)).
  assert (HW : Z.of_nat (length (elements W)) < k).
  { eapply (admission_room v listing cfg G k (elements W)); [by unfold roleOf; rewrite Hc|done|apply NoDup_elements|].
    intros w [Hlt (ws & Hw & Hcv)%elem_unfinished]%elem_of_elements%elem_of_filter. split; [by rewrite Hname|].
    destruct (Hl w ws Hw) as (m & Hm & Hmw). pose proof (Hs w ws Hw) as HF. rewrite Forall_forall in HF.
    destruct (HF m Hmw) as [HN He]. exists m. split; [done|]. split; [done|]. unfold roleOf. rewrite Hc. fold (role m).
    pose proof (everConverged_false ws m Hcv Hmw). destruct (role m); auto; done. }
  unfold roomAt. assert (Hsub : filter (λ w, atMost name w = true) (unfinished h) ⊆ ({[name]} : gset string) ∪ W).
  { intros w [Hle Hw]%elem_of_filter. apply elem_of_union. unfold atMost in Hle. rewrite string_leb_cmp in Hle. unfold cmp_leb in Hle.
    destruct (String.compare w name) eqn:E; [left|right|done].
    - apply (cmp_eq (cmp:=String.compare)) in E. set_solver.
    - by apply elem_of_filter. }
  apply subseteq_size in Hsub. rewrite size_union_alt, size_singleton in Hsub.
  assert (Hd : (size (W ∖ {[name]}) ≤ size W)%nat) by (apply subseteq_size; set_solver).
  change (length (elements W)) with (size W) in HW. lia.
Qed.

Lemma advance_inv h0 h h' : advance h h' → budgetInv h0 h → budgetInv h0 h'.
Proof.
  intros Hstep [Hs Hroom]. destruct Hstep as [name v vs v' listing Hn Hr Hl Ha Hv'|name v vs v' Hn Hp Hv'].
  - pose proof (admitted_room h name v vs listing Hs Hn Hr Hl Ha) as Hnew. split; [by apply shape_grow|].
    intros n H0 H1. apply room_grow; [done|]. destruct (decide (n = name)) as [->|Hne]; [done|].
    rewrite lookup_insert_ne in H1 by done. by apply Hroom.
  - split; [by apply shape_grow|]. intros n H0 H1. apply room_grow; [done|]. apply Hroom; [done|].
    destruct (decide (n = name)) as [->|Hne]; [|by rewrite lookup_insert_ne in H1].
    rewrite lookup_insert_eq in H1. rewrite Hn. simpl in *. apply bool_decide_eq_false in H1. apply bool_decide_eq_false. naive_solver.
Qed.
Lemma greatest (X : gset string) : X ≠ ∅ → ∃ n, n ∈ X ∧ ∀ w, w ∈ X → atMost n w = true.
Proof.
  induction X as [|x X Hx IH] using set_ind_L; [done|]. intros _. destruct (decide (X = ∅)) as [->|Hne].
  - exists x. split; [set_solver|]. intros w Hw. assert (w = x) as -> by set_solver. by destruct (string_leb_total x x).
  - destruct (IH Hne) as (n & Hn & Hg). destruct (atMost n x) eqn:E.
    + exists n. split; [set_solver|]. intros w [->%elem_of_singleton|Hw]%elem_of_union; auto.
    + exists x. split; [set_solver|]. assert (Hnx : atMost x n = true) by (unfold atMost in *; destruct (string_leb_total x n); congruence).
      intros w [->%elem_of_singleton|Hw]%elem_of_union; [by destruct (string_leb_total x x)|].
      unfold atMost in *. eapply string_leb_trans; [by apply Hg|done].
Qed.

End budget.
End cohort.

(** ** Adoption *)
Section adoption.
Context {K : K8s} {Meta : MetaApi} {S : Server}.

Definition readsOnly (e : event) : Prop :=
  match ev_call e with Now | GetRSP _ | ListRVsByRSC _ => True | _ => False end.
(** What the pass may leave of the three fields that track the configuration. *)
Definition kept (rv rv' : ReplicatedVolume) : Prop :=
  rv_Configuration rv' = rv_Configuration rv ∧ rv_ConfigurationGeneration rv' = rv_ConfigurationGeneration rv.
Definition stores (rv' : ReplicatedVolume) cfg gen : Prop :=
  rv_Configuration rv' = Some cfg ∧ rv_ConfigurationGeneration rv' = gen ∧ rv_ConfigurationObservedGeneration rv' = gen.
Definition mayAdopt (rv : ReplicatedVolume) cfg gen (class : option ReplicatedStorageClass) : Prop :=
  (cfg_Topology cfg = TopologyTransZonal →
     ∃ zones, isTransZonalZoneCountValid (cfg_FailuresToTolerate cfg) (cfg_GuaranteedMinimumDataRedundancy cfg) zones = true) ∧
  match class, rv_Configuration rv with
  | Some rsc, Some _ => isNewVolumesOnly rsc = false ∧ ∃ listing,
      computeTargetRolloutAdmission rv (computeActualRolloutCohort rv listing cfg gen) (computeIntendedRolloutMaxParallel rsc) = true
  | _, _ => True
  end.
Definition tracked (rv rv' : ReplicatedVolume) cfg gen class : Prop :=
  (kept rv rv' ∧ (rv_ConfigurationObservedGeneration rv' = gen ∨ rv_ConfigurationObservedGeneration rv' = rv_ConfigurationObservedGeneration rv)) ∨
  (stores rv' cfg gen ∧ (rv_Configuration rv = Some cfg ∨ mayAdopt rv cfg gen class)).

Lemma restamp_tracks ok rv cfg gen class : rv_Configuration rv = Some cfg →
  triple ok readsOnly (restamp rv gen) (λ y, tracked rv y.1 cfg gen class).
Proof.
  intros Hc. unfold restamp, observe, applyConfigurationReadyCondTrue.
  destruct (Z.eqb_spec (rv_ConfigurationGeneration rv) gen); simpl; destruct (Z.eqb_spec (rv_ConfigurationObservedGeneration rv) gen);
    step_program; try done; intros; apply triple_ret; right; (split; [by split_and!|by left]).
Qed.
Lemma holdBack_tracks ok rv cfg gen rsc class : triple ok readsOnly (holdBack rv gen rsc) (λ y, tracked rv y.1 cfg gen class).
Proof.
  unfold holdBack, observe, applyConfigurationReadyCondFalse. destruct (Z.eqb_spec (rv_ConfigurationObservedGeneration rv) gen);
    step_program; try done; intros; apply triple_ret; left; split; try done; simpl; auto.
Qed.
Lemma rejectZones_tracks ok rv cfg gen class :
  triple ok readsOnly (rejectZones rv cfg) (λ y, match y with
    | Some y => tracked rv y.1 cfg gen class
    | None => cfg_Topology cfg = TopologyTransZonal →
        ∃ zones, isTransZonalZoneCountValid (cfg_FailuresToTolerate cfg) (cfg_GuaranteedMinimumDataRedundancy cfg) zones = true
    end).
Proof.
  assert (Hk : ∀ cs, tracked rv (rv <| rv_Conditions := cs |>) cfg gen class) by (left; by repeat split; right).
  assert (Hs : tracked rv rv cfg gen class) by (left; by repeat split; right).
  unfold rejectZones, applyConfigurationReadyCondFalse, getRSPZoneCount. destruct (bool_decide _) eqn:Et; simpl.
  2:{ apply triple_ret. intros E. by rewrite bool_decide_eq_false in Et. }
  eapply (triple_bind _ _ _ _ (λ _, True)); [step_program; [done|]; intros; by apply triple_ret|].
  intros [n|e|e|e] _; [|step_program; intros; try done; by apply triple_ret|by apply triple_ret..].
  destruct (isTransZonalZoneCountValid _ _ _) eqn:En; [apply triple_ret; eauto|].
  step_program; intros; try done; by apply triple_ret.
Qed.
Lemma throttle_tracks ok rv cfg gen rsc class :
  triple ok readsOnly (throttle rv cfg gen rsc) (λ y, match y with
    | Some y => tracked rv y.1 cfg gen class
    | None => ∃ listing, computeTargetRolloutAdmission rv (computeActualRolloutCohort rv listing cfg gen)
                           (computeIntendedRolloutMaxParallel rsc) = true
    end).
Proof.
  unfold throttle, getRVsByRSC, applyConfigurationReadyCondFalse. step_program; [done|]. intros r.
  destruct (answer r) as [e|l]; [apply triple_ret; left; by repeat split; right|].
  destruct (computeTargetRolloutAdmission _ _ _) eqn:Ea; [apply triple_ret; by exists l|].
  unfold observe. destruct (Z.eqb_spec (rv_ConfigurationObservedGeneration rv) gen); step_program; try done; intros;
    (eapply (triple_bind _ _ _ _ (λ _, True)); [by apply triple_lift|]; intros; apply triple_ret; left; split; [done|]; simpl; auto).
Qed.
Lemma adopt_tracks ok rv cfg gen class : (∀ rsc, class = Some rsc → is_Some (rv_Configuration rv) → isNewVolumesOnly rsc = false) →
  triple ok readsOnly (adopt rv cfg gen class) (λ y, tracked rv y.1 cfg gen class).
Proof.
  intros Hn. unfold adopt. eapply triple_bind; [apply (rejectZones_tracks _ _ _ gen class)|]. intros [y|] Hz; [by apply triple_ret|].
  eapply (triple_bind _ _ _ _ (λ y, match y with Some y => tracked rv y.1 cfg gen class | None => mayAdopt rv cfg gen class end)).
  - unfold mayAdopt. destruct class as [rsc|], (rv_Configuration rv) eqn:Ec; try by apply triple_ret.
    eapply triple_weaken; [apply (throttle_tracks _ _ _ _ _ (Some rsc))|]. intros [y|]; [done|]. eauto.
  - intros [y|] Hm; [by apply triple_ret|]. unfold storeConfiguration, applyConfigurationReadyCondTrue.
    step_program; try done; intros; apply triple_ret; right; (split; [by split_and!|by right]).
Qed.

(** The configuration and the generation it came from stay together.  A pass over a volume makes no
    call but reads; without a published configuration it leaves the three tracking fields alone;
    otherwise it either keeps both content and generation, or stores both, with the observed
    generation.  A new content is stored only with an admissible zone count, and, in a volume that
    already has one, never under NewVolumesOnly and only when the budget admits the volume on the
    listing that was answered.  The pass panics only for a manual volume without configuration. *)
Theorem configuration_tracked rv rsc :
  triple (rv_Spec_ConfigurationMode rv = ModeManual → is_Some (rv_Spec_ManualConfiguration rv)) readsOnly
    (reconcileRVConfiguration rv rsc)
    (λ y, match configurationSource rv rsc with
          | inr (Some cfg, gen, class) => tracked rv y.1 cfg gen class
          | _ => kept rv y.1 ∧ rv_ConfigurationObservedGeneration y.1 = rv_ConfigurationObservedGeneration rv
          end).
Proof.
  unfold reconcileRVConfiguration. apply triple_fmap. unfold ended. simpl.
  destruct (configurationSource rv rsc) as [msg|[[intended gen] class]] eqn:Es.
  { unfold applyConfigurationReadyCondFalse. step_program; try done; intros; by apply triple_ret. }
  eapply (triple_bind _ _ _ _ (λ c, intended = Some c)).
  { apply triple_lift. destruct intended as [c|]; [done|]. simpl. intros H. unfold configurationSource in Es.
    destruct (bool_decide_reflect (rv_Spec_ConfigurationMode rv = ModeManual)) as [Hm|].
    - destruct (H Hm) as [c Hc]. congruence.
    - destruct rsc as [rsc|]; [|done]. destruct (rsc_Configuration rsc); [|done]. by destruct (negb _). }
  intros c ->. destruct (bool_decide_reflect (rv_Configuration rv = Some c)); [by apply restamp_tracks|].
  destruct class as [r|], (rv_Configuration rv) eqn:Ec; try (apply adopt_tracks; intros ??; rewrite Ec; intros [? ?]; done).
  destruct (isNewVolumesOnly r) eqn:En; [apply holdBack_tracks|]. apply adopt_tracks. by intros ? [= <-].
Qed.
End adoption.

(** ** A class of two volumes that gets a new configuration, one volume at a time *)
Section concrete.
Import scenario.
#[local] Existing Instance MetaApi_concrete.
Definition newConfig : Configuration :=
  {| cfg_ReplicatedStoragePoolName := "pool"; cfg_Topology := TopologyIgnored;
     cfg_FailuresToTolerate := 0; cfg_GuaranteedMinimumDataRedundancy := 1;
     cfg_VolumeAccess := VolumeAccessPreferablyLocal |}.
Definition named (n : string) : ReplicatedVolume := volume <| rv_Name := n |>.
Definition carrying (n : string) : ReplicatedVolume :=
  named n <| rv_Configuration := Some newConfig |> <| rv_ConfigurationGeneration := 2 |>.
Definition before : gmap string (list ReplicatedVolume) := {[ "a" := [named "a"]; "b" := [named "b"] ]}.

Lemma before_starts : starts "class" newConfig 2 before.
Proof.
  unfold starts, before. apply map_Forall_insert_2; [|apply map_Forall_singleton]; (split; [done|]);
    (apply Forall_singleton; split; [split; [done|]|]; by vm_compute).
Qed.

(** A volume that is still forming, and the same volume a moment later. *)
Definition formation : Transition :=
  {| t_Type := Formation; t_ReplicaName := ""; t_ReplicaType := ReplicaTypeOther ""; t_FromReplicaType := ReplicaTypeOther "";
     t_ToReplicaType := ReplicaTypeOther ""; t_FromSystemNetworkNames := []; t_ToSystemNetworkNames := [];
     t_Group := GroupFormation; t_PlanID := "create/v1"; t_Steps := [] |}.
Definition forming (n : string) : ReplicatedVolume := named n <| rv_DatameshTransitions := [formation] |>.

(** A volume that joins the rollout breaks the budget.  The limit is one.  Volume b decides on a
    listing in which a is still forming, and is admitted; a, whose formation has ended, decides on a
    listing that does not show b's admission yet, and is admitted as well: with both, two volumes are
    mid-rollout. *)
Theorem joining_volume_exceeds_budget :
  let admitted v listing := computeTargetRolloutAdmission v (computeActualRolloutCohort v listing newConfig 2) 1 in
  admitted (named "b") [forming "a"; named "b"] = true ∧
  admitted (named "a") [named "a"; named "b"] = true ∧
  computeActualRolloutRole (named "a") "class" newConfig 2 = rolloutRolePending ∧
  computeActualRolloutRole (named "b") "class" newConfig 2 = rolloutRolePending ∧
  activeCount (computeActualRolloutCohort (carrying "a") [carrying "a"; carrying "b"] newConfig 2) = 2.
Proof. vm_compute. repeat split. Qed.
End concrete.
