(* ===== verification/RvaTheory.v ===== *)
(** * rv_controller: what is written to the attachments *)

From Stdlib Require Import ZArith Lia String.
From stdpp Require Import base gmap list numbers strings option relations.
From S2P Require Import Prelude IdSet DrbdSize Api Object Storage Flow Client Context Layout Rollout Replicas RvaStatus Scenario.
Import v1alpha1 objutilv1 storage flow client datamesh layout replicas rva_status.

Set Default Proof Using "Type".

(** ** Conditions written with SetStatusCondition *)
Section set_condition.
Context {K : K8s} {Meta : MetaApi} {L : MetaLaws} {T : Type} {O : StatusConditionObject T} {OL : StatusConditionLaws T}.
Implicit Types (o : T).
Lemma sameVerdict_fields a b : sameVerdict a b = true ↔
  c_Type a = c_Type b ∧ c_Status a = c_Status b ∧ c_Reason a = c_Reason b ∧ c_Message a = c_Message b ∧
  c_ObservedGeneration a = c_ObservedGeneration b.
Proof. unfold sameVerdict. rewrite !andb_true_iff, !String.eqb_eq, Z.eqb_eq. tauto. Qed.
Lemma conditions_set now o c :
  GetStatusConditions (SetStatusConditionAt now o c).2 = (meta_SetStatusCondition (GetStatusConditions o) (stamped o c now)).2.
Proof using L OL.
  unfold SetStatusConditionAt. pose proof (set_unchanged (GetStatusConditions o) (stamped o c now)) as Hu.
  destruct (meta_SetStatusCondition _ _) as [[] cs]; simpl in *; [by rewrite get_set_conditions|]. by rewrite Hu.
Qed.
Lemma get_set_this now o c : ∃ c', GetStatusCondition (SetStatusConditionAt now o c).2 (c_Type c) = Some c' ∧
  sameVerdict c' (stamped o c now) = true.
Proof using L OL.
  unfold GetStatusCondition. rewrite conditions_set. change (c_Type c) with (c_Type (stamped o c now)). apply set_this.
Qed.
Lemma get_set_other now o c ty : ty ≠ c_Type c →
  GetStatusCondition (SetStatusConditionAt now o c).2 ty = GetStatusCondition o ty.
Proof using L OL. intros H. unfold GetStatusCondition. rewrite conditions_set. by apply set_other. Qed.
Lemma generation_set now o c : GetGeneration (SetStatusConditionAt now o c).2 = GetGeneration o.
Proof using OL.
  unfold SetStatusConditionAt. destruct (meta_SetStatusCondition _ _) as [[] cs]; simpl; [apply generation_set_conditions|done].
Qed.
Lemma get_remove_this o ty : GetStatusCondition (RemoveStatusCondition o ty).2 ty = None.
Proof using L OL.
  unfold GetStatusCondition, RemoveStatusCondition. pose proof (remove_this (GetStatusConditions o) ty) as H.
  pose proof (remove_unchanged (GetStatusConditions o) ty) as Hu.
  destruct (meta_RemoveStatusCondition _ _) as [[] cs]; simpl in *; [by rewrite get_set_conditions|]. by rewrite Hu in H.
Qed.
Lemma get_remove_other o ty ty' : ty' ≠ ty → GetStatusCondition (RemoveStatusCondition o ty).2 ty' = GetStatusCondition o ty'.
Proof using L OL.
  intros Hne. unfold GetStatusCondition, RemoveStatusCondition. pose proof (remove_other (GetStatusConditions o) ty ty' Hne) as H.
  pose proof (remove_unchanged (GetStatusConditions o) ty) as Hu.
  destruct (meta_RemoveStatusCondition _ _) as [[] cs]; simpl in *; [by rewrite get_set_conditions|done].
Qed.
End set_condition.

Section attachments.
Context {K : K8s} {Meta : MetaApi} {L : MetaLaws} {S : Server}.
Implicit Types (rva : ReplicatedVolumeAttachment) (rvr : option ReplicatedVolumeReplica).

(** The object reports the verdict, whatever the generation and the time. *)
Definition says rva (c : Condition) : Prop := ∃ c', GetStatusCondition rva (c_Type c) = Some c' ∧
  c_Status c' = c_Status c ∧ c_Reason c' = c_Reason c ∧ c_Message c' = c_Message c.
Lemma says_set now rva c : says (SetStatusConditionAt now rva c).2 c ∧
  ∃ c', GetStatusCondition (SetStatusConditionAt now rva c).2 (c_Type c) = Some c' ∧ c_ObservedGeneration c' = rva_Generation rva.
Proof using L.
  destruct (get_set_this now rva c) as (c' & Hc & (_ & ? & ? & ? & ?)%sameVerdict_fields). by split; exists c'.
Qed.
Lemma says_other now rva c c' : c_Type c ≠ c_Type c' → says rva c → says (SetStatusConditionAt now rva c').2 c.
Proof using L. intros Hne (x & Hx & ?). exists x. by rewrite get_set_other. Qed.
Lemma says_same rva rva' c : rva_Conditions rva' = rva_Conditions rva → says rva c → says rva' c.
Proof. intros E (x & Hx & ?). exists x. split; [|done]. unfold GetStatusCondition in *. simpl in *. by rewrite E. Qed.
Lemma fields_conditions rva rvr : rva_Conditions (applyRVAAttachmentFields rva rvr) = rva_Conditions rva.
Proof. unfold applyRVAAttachmentFields. by destruct (attachmentOf rvr). Qed.

(** A condition that carries a generation is never semantically equal to a freshly built one. *)
Lemma stored_not_fresh rva ty st rs msg c : GetStatusCondition rva ty = Some c → c_ObservedGeneration c ≠ 0 →
  ConditionSemanticallyEqual (GetStatusCondition rva ty) (Some (verdict ty st rs msg)) = false.
Proof.
  intros -> Hg. simpl. apply not_true_is_false. intros (_ & _ & _ & _ & H)%sameVerdict_fields. by apply Hg.
Qed.

(** an attachment is patched on every pass.  What a pass writes to an attachment reports exactly
    the wanted conditions, phase, message and attachment fields; and yet the check that is to skip the
    patch finds the object it has just written out of sync, because the written conditions carry the
    generation of the object and the wanted ones do not. *)
Theorem attachment_patched_every_pass st rs msg rvr rva : rva_Generation rva ≠ 0 →
  let attached := verdict CondAttachedType st rs msg in
  let replicaReady := computeRVAReplicaReadyCondition rvr in
  let deleting := bool_decide (is_Some (rva_DeletionTimestamp rva)) in
  let ready := computeRVAReadyCondition attached replicaReady deleting in
  let '(phase, phaseMessage) := computeRVAPhaseAndMessage deleting attached replicaReady in
  calls (λ e, match ev_call e with
    | PatchRVAStatus base obj =>
        base = rva ∧ says obj attached ∧ says obj replicaReady ∧ says obj ready ∧
        rva_Phase obj = phase ∧ rva_Message obj = phaseMessage ∧ isRVAAttachmentFieldsInSync obj rvr = true ∧
        rvaInSync obj attached replicaReady ready phase phaseMessage rvr = false
    | Now => True
    | _ => False
    end) (updateRVA attached replicaReady rvr rva).
Proof using L.
  intros Hg attached rr deleting ready. destruct (computeRVAPhaseAndMessage deleting attached rr) as [phase pm] eqn:Ep.
  unfold updateRVA. fold deleting ready. rewrite Ep. destruct (rvaInSync _ _ _ _ _ _ _); [apply calls_ret|].
  apply calls_condition_bind; [done|]. intros n1. destruct (SetStatusConditionAt n1 rva attached) as [b1 o1] eqn:E1.
  apply calls_condition_bind; [done|]. intros n2. destruct (SetStatusConditionAt n2 o1 rr) as [b2 o2] eqn:E2.
  apply calls_condition_bind; [done|]. intros n3. destruct (SetStatusConditionAt n3 o2 ready) as [b3 o3] eqn:E3.
  apply (f_equal snd) in E1, E2, E3. simpl in E1, E2, E3.
  assert (Tr : c_Type rr = CondReplicaReadyType) by (unfold rr, computeRVAReplicaReadyCondition; by repeat case_match).
  assert (Ty : c_Type ready = CondRVAReadyType) by (unfold ready, computeRVAReadyCondition; by repeat case_match).
  assert (G1 : rva_Generation o1 = rva_Generation rva) by (rewrite <-E1; exact (generation_set n1 rva attached)).
  destruct (says_set n1 rva attached) as [S1 (c & Hc & Hcg)]. rewrite E1 in S1, Hc.
  destruct (says_set n2 o1 rr) as [S2 _]. rewrite E2 in S2. destruct (says_set n3 o2 ready) as [S3 _]. rewrite E3 in S3.
  assert (S1' : says o3 attached). { rewrite <-E3. apply says_other; [by rewrite Ty|]. rewrite <-E2. apply says_other; [by rewrite Tr|done]. }
  assert (S2' : says o3 rr). { rewrite <-E3. apply says_other; [by rewrite Tr, Ty|done]. }
  assert (Hc3 : GetStatusCondition o3 CondAttachedType = Some c).
  { rewrite <-E3, get_set_other by (by rewrite Ty). rewrite <-E2, get_set_other by (by rewrite Tr). exact Hc. }
  set (obj := applyRVAAttachmentFields _ rvr).
  assert (Hobj : rva_Conditions obj = rva_Conditions o3) by (unfold obj; by rewrite fields_conditions).
  unfold patchRVAStatus. apply calls_bind; [|intros [? ?]; apply calls_ret]. apply calls_bind; [|intros; apply calls_ret].
  apply calls_do. simpl. split; [done|]. split_and!; try by eapply says_same.
  - unfold obj, applyRVAAttachmentFields. by destruct (attachmentOf rvr).
  - unfold obj, applyRVAAttachmentFields. by destruct (attachmentOf rvr).
  - unfold obj, applyRVAAttachmentFields, isRVAAttachmentFieldsInSync. destruct (attachmentOf rvr); simpl;
      by rewrite ?String.eqb_refl, ?bool_decide_true.
  - assert (Hns : ConditionSemanticallyEqual (GetStatusCondition obj (c_Type attached)) (Some attached) = false).
    { apply (stored_not_fresh obj CondAttachedType st rs msg c); [|by rewrite Hcg]. unfold GetStatusCondition in *. simpl in *. by rewrite Hobj. }
    unfold rvaInSync. cbv zeta. by rewrite Hns.
Qed.

(** A waiting attachment is written once.  On the object that the pass writes when a volume is
    missing, deleted or still forming, the same pass makes no call and changes nothing. *)
Theorem waiting_written_once message rva :
  calls (λ e, match ev_call e with
    | PatchRVAStatus base obj => base = rva ∧ ∀ w, waitRVA message obj w = (w, ([], Ok (obj, None)))
    | Now => True
    | _ => False
    end) (waitRVA message rva).
Proof using L.
  unfold waitRVA at 2. cbv zeta. set (deleting := bool_decide (is_Some (rva_DeletionTimestamp rva))).
  set (va := verdict CondAttachedType ConditionFalse ReasonWaitingForReplicatedVolume message).
  set (vr := verdict CondRVAReadyType ConditionFalse ReasonNotAttached message).
  destruct (computeRVAPhaseAndMessage deleting (verdict "" ConditionFalse ReasonWaitingForReplicatedVolume message) zeroCondition)
    as [phase pm] eqn:Ep.
  cbv beta iota. match goal with |- calls _ (if ?b then _ else _) => destruct b end; [apply calls_ret|].
  apply calls_condition_bind; [done|]. intros n1. destruct (SetStatusConditionAt n1 rva va) as [b1 o1] eqn:E1.
  apply calls_condition_bind; [done|]. intros n2. destruct (SetStatusConditionAt n2 o1 vr) as [b2 o2] eqn:E2.
  apply (f_equal snd) in E1, E2. simpl in E1, E2. set (o3 := (RemoveStatusCondition o2 CondReplicaReadyType).2). set (obj := _ <| rva_Message := pm |>).
  assert (Hc : ∀ ty, GetStatusCondition obj ty = GetStatusCondition o3 ty) by done.
  destruct (says_set n1 rva va) as [S1 _]. rewrite E1 in S1. destruct (says_set n2 o1 vr) as [S2 _]. rewrite E2 in S2.
  assert (S1' : says o2 va) by (rewrite <-E2; by apply says_other).
  assert (Hd : rva_DeletionTimestamp obj = rva_DeletionTimestamp rva).
  { assert (Hset : ∀ n (o : ReplicatedVolumeAttachment) c, rva_DeletionTimestamp (SetStatusConditionAt n o c).2 = rva_DeletionTimestamp o)
      by (intros; unfold SetStatusConditionAt; by destruct (meta_SetStatusCondition _ _) as [[] ?]).
    assert (Hrm : rva_DeletionTimestamp o3 = rva_DeletionTimestamp o2)
      by (unfold o3, RemoveStatusCondition; by destruct (meta_RemoveStatusCondition _ _) as [[] ?]).
    change (rva_DeletionTimestamp obj) with (rva_DeletionTimestamp o3). by rewrite Hrm, <-E2, Hset, <-E1, Hset. }
  unfold patchRVAStatus. apply calls_bind; [|intros [? ?]; apply calls_ret]. apply calls_bind; [|intros; apply calls_ret].
  apply calls_do. simpl. split; [done|]. intros w. unfold waitRVA. rewrite Hd. fold deleting. rewrite Ep.
  destruct S1' as (c1 & Hc1 & A1 & A2 & A3), S2 as (c2 & Hc2 & B1 & B2 & B3).
  assert (F1 : GetStatusCondition obj CondAttachedType = Some c1) by (rewrite Hc; unfold o3; by rewrite get_remove_other).
  assert (F2 : GetStatusCondition obj CondRVAReadyType = Some c2) by (rewrite Hc; unfold o3; by rewrite get_remove_other).
  assert (F3 : GetStatusCondition obj CondReplicaReadyType = None) by (rewrite Hc; apply get_remove_this).
  unfold StatusCondition, chk_Eval, MessageEqual, ReasonEqual, IsFalse, StatusEqual, checked, Absent. cbn [chk_cond chk_obj chk_result].
  rewrite F1, F2, F3, A1, A2, A3, B1, B2, B3. simpl. rewrite !String.eqb_refl, !bool_decide_true by (done || by eexists). done.
Qed.
End attachments.

Section concrete.
#[local] Existing Instance K8s_concrete.
#[local] Existing Instance MetaApi_concrete.
#[local] Existing Instance MetaApi_concrete_laws.
#[local] Instance server : Server := store_server zeroStore.
Definition attachment1 : ReplicatedVolumeAttachment := scenario.attachment 1.
Definition now100 : @World _ server := 100.
Lemma attachment_patched_every_pass_witness : Forall (λ e, match ev_call e with
    | PatchRVAStatus base obj => base = attachment1 ∧ says obj (verdict CondAttachedType ConditionFalse "Pending" "waiting")
    | Now => True
    | _ => False
    end)
  (updateRVA (verdict CondAttachedType ConditionFalse "Pending" "waiting") (computeRVAReplicaReadyCondition None) None attachment1 now100).2.1.
Proof.
  refine (List.Forall_impl _ _ (attachment_patched_every_pass ConditionFalse "Pending" "waiting" None attachment1 _ now100)); [|done].
  intros [A c]. destruct c; simpl; try done. intros (? & ? & _). done.
Defined.
Lemma waiting_written_once_witness : Forall (λ e, match ev_call e with
    | PatchRVAStatus base obj => base = attachment1 ∧ ∀ w, waitRVA "m" obj w = (w, ([], Ok (obj, None)))
    | Now => True
    | _ => False
    end) (waitRVA "m" attachment1 now100).2.1.
Proof. exact (waiting_written_once "m" attachment1 now100). Defined.
End concrete.
