(* ===== verification/PoolTheory.v ===== *)
(** * rsp_controller and node_controller: theorems

    Which nodes a pool lists and until when, what a pass writes, which events reach which pools and
    nodes, and the label of the agent. *)

From Stdlib Require Import ZArith Lia String Ascii Sorted.
From stdpp Require Import base gmap list numbers strings option sorting.
From S2P Require Import Prelude IdSet DrbdSize Api Object Storage Flow Client PoolController.
Import v1alpha1 objutilv1 storage drbd flow client rsp_controller.

Set Default Proof Using "Type".

(** ** Comparison of the listed nodes *)
Lemma forallb_combine_eq {A} (f : A → A → bool) (a b : list A) : (∀ x y, f x y = true ↔ x = y) →
  Nat.eqb (length a) (length b) && forallb (λ '(x, y), f x y) (combine a b) = true ↔ a = b.
Proof.
  intros Hf. revert b. induction a as [|x a IH]; intros [|y b]; simpl; try done. rewrite !andb_true_iff, Hf.
  specialize (IH b). rewrite andb_true_iff in IH. naive_solver.
Qed.
Lemma areLVGsEqual_eq a b : areLVGsEqual a b = true ↔ a = b.
Proof.
  unfold areLVGsEqual. apply (forallb_combine_eq (λ x y, _)). intros [n t u r] [n' t' u' r']. simpl.
  rewrite !andb_true_iff, !String.eqb_eq, !eqb_true_iff. naive_solver.
Qed.
Lemma areEligibleNodesEqual_eq a b : areEligibleNodesEqual a b = true ↔ a = b.
Proof.
  unfold areEligibleNodesEqual. apply (forallb_combine_eq (λ x y, _)). intros [n z l u r g] [n' z' l' u' r' g']. simpl.
  rewrite !andb_true_iff, !String.eqb_eq, !eqb_true_iff, areLVGsEqual_eq. naive_solver.
Qed.

(** ** The volume groups of a node *)
Section groups.
Context (lvgs : gmap string lvgView).
Implicit Types (m : gmap string (list EligibleNodeLVMVolumeGroup)) (refs : list PoolLVMVolumeGroup).

(** The entry that a reference of the pool stands for, on the node of its group. *)
Definition groupEntry (ref : PoolLVMVolumeGroup) (lvg : lvgView) : EligibleNodeLVMVolumeGroup :=
  {| lvg_Name := lv_name lvg; lvg_ThinPoolName := pg_ThinPoolName ref; lvg_Unschedulable := lv_unschedulable lvg;
     lvg_Ready := isLVGReady lvg (pg_ThinPoolName ref) |}.
Definition groupOn (node : string) (g : EligibleNodeLVMVolumeGroup) (ref : PoolLVMVolumeGroup) : Prop :=
  ∃ lvg, lvgs !! pg_Name ref = Some lvg ∧ lv_nodeName lvg = node ∧ node ≠ "" ∧ g = groupEntry ref lvg.

Lemma addLVG_spec m ref node g :
  g ∈ default [] (addLVG lvgs m ref !! node) ↔ g ∈ default [] (m !! node) ∨ groupOn node g ref.
Proof.
  unfold addLVG, groupOn. destruct (lvgs !! pg_Name ref) as [lvg|]; [|naive_solver].
  destruct (String.eqb_spec (lv_nodeName lvg) "") as [E|E]; [naive_solver congruence|].
  destruct (decide (lv_nodeName lvg = node)) as [<-|Hn].
  - rewrite lookup_insert_eq. simpl. rewrite elem_of_app, list_elem_of_singleton. naive_solver.
  - rewrite lookup_insert_ne by done. naive_solver.
Qed.
Lemma addLVG_fold refs m node g :
  g ∈ default [] (foldl (addLVG lvgs) m refs !! node) ↔ g ∈ default [] (m !! node) ∨ ∃ ref, ref ∈ refs ∧ groupOn node g ref.
Proof.
  revert m. induction refs as [|ref refs IH]; intros m; simpl; [set_solver|].
  rewrite IH, addLVG_spec. set_solver.
Qed.
Lemma groups_of_node rsp node g :
  g ∈ default [] (buildLVGByNodeMap lvgs rsp !! node) ↔ ∃ ref, ref ∈ rsp_Spec_LVMVolumeGroups rsp ∧ groupOn node g ref.
Proof.
  unfold buildLVGByNodeMap. rewrite lookup_fmap. pose proof (addLVG_fold (rsp_Spec_LVMVolumeGroups rsp) ∅ node g) as H.
  rewrite lookup_empty in H. destruct (foldl _ _ _ !! node) as [l|]; simpl in *; [rewrite (sort_by_perm lvgEntryLeb l)|]; set_solver.
Qed.
End groups.

(** ** The listed nodes at a point in time *)
Definition notReady (n : nodeView) : bool := nr_hasCondition (nv_ready n) && negb (nr_status (nv_ready n)).
Definition graceEnd (grace : Z) (n : nodeView) : Time := nr_lastTransitionTime (nv_ready n) + grace.
Definition expired (now grace : Z) (n : nodeView) : bool := notReady n && (graceEnd grace n <? now).
Definition entryOf (groups : gmap string (list EligibleNodeLVMVolumeGroup)) (agents : gmap string bool) (n : nodeView) : EligibleNode :=
  {| en_NodeName := nv_name n; en_ZoneName := nv_zoneName n; en_LVMVolumeGroups := default [] (groups !! nv_name n);
     en_Unschedulable := nv_unschedulable n; en_NodeReady := nr_hasCondition (nv_ready n) && nr_status (nv_ready n);
     en_AgentReady := default false (agents !! nv_name n) |}.
(** The ends of the grace periods that run at [now]. *)
Definition running (now grace : Z) (nodes : list nodeView) : list Time :=
  List.filter (λ t, negb (t =? 0)) (map (graceEnd grace) (List.filter (λ n, notReady n && negb (expired now grace n)) nodes)).
Definition earliest (ts : list Time) : option Time := foldl (λ e t, Some (match e with Some u => Z.min u t | None => t end)) None ts.

Section nodes.
Context {K : K8s} {Meta : MetaApi} {L : LabelsApi} {S : Server}.

Lemma earlier_min e t : earlier e t = Some (match e with Some u => Z.min u t | None => t end).
Proof. unfold earlier. destruct e as [u|]; [|done]. destruct (Z.ltb_spec t u); f_equal; lia. Qed.
Lemma eligibleLoop_at now groups grace agents nodes e w : (∀ w, (serve Now w).2 = now) →
  (eligibleLoop groups grace agents nodes e w).2.2 =
  Ok (map (entryOf groups agents) (List.filter (λ n, negb (expired now grace n)) nodes),
      foldl (λ e t, Some (match e with Some u => Z.min u t | None => t end)) e (running now grace nodes)).
Proof.
  intros Hc. revert e w. induction nodes as [|n nodes IH]; intros e w; [done|].
  cbn [eligibleLoop]. unfold isNodeReadyOrWithinGrace, running, expired, notReady, graceEnd in *. cbn [List.filter map].
  destruct (nr_hasCondition (nv_ready n)) eqn:Eh; simpl.
  - destruct (nr_status (nv_ready n)) eqn:Es; simpl.
    + unfold mbind, M_bind in *. specialize (IH e w). simpl. destruct (eligibleLoop _ _ _ nodes e w) as [w' [es r]]. simpl in *. rewrite IH.
      simpl. unfold entryOf at 2. by rewrite Eh, Es.
    + unfold mbind, M_bind, do in *. simpl. specialize (Hc w). destruct (serve Now w) as [w1 t]. simpl in *. subst t.
      destruct (Z.ltb_spec (nr_lastTransitionTime (nv_ready n) + grace) now); simpl.
      * specialize (IH e w1). destruct (eligibleLoop _ _ _ nodes e w1) as [w' [es r]]. simpl in *. by rewrite IH.
      * destruct (Z.eqb_spec (nr_lastTransitionTime (nv_ready n) + grace) 0) as [E|E]; simpl.
        -- specialize (IH e w1). destruct (eligibleLoop _ _ _ nodes e w1) as [w' [es r]]. simpl in *. rewrite IH. simpl.
           unfold entryOf at 2. by rewrite Eh, Es.
        -- rewrite <-earlier_min. set (e' := earlier e _). specialize (IH e' w1). destruct (eligibleLoop _ _ _ nodes e' w1) as [w' [es r]].
           simpl in *. rewrite IH. simpl. unfold entryOf at 2. by rewrite Eh, Es.
  - unfold mbind, M_bind in *. specialize (IH e w). simpl. destruct (eligibleLoop _ _ _ nodes e w) as [w' [es r]]. simpl in *. rewrite IH.
    simpl. unfold entryOf at 2. by rewrite Eh.
Qed.

End nodes.

(** ** A concrete API for the examples: selectors by equality and membership, a clock that stands *)
Definition matches (r : Requirement) (ls : Labels) : bool :=
  match default ∅ ls !! req_Key r with Some v => slices_Contains (req_Values r) v | None => false end.
Definition LabelsApi_concrete : LabelsApi := {|
  LabelSelectorAsSelector sel :=
    match List.find (λ r, negb (String.eqb (lr_Operator r) "In")) (sel_MatchExpressions sel) with
    | Some r => inl (quote (lr_Operator r) +:+ " is not a valid label selector operator")
    | None => inr (map (λ kv, {| req_Key := kv.1; req_Operator := "="; req_Values := [kv.2] |}) (map_to_list (sel_MatchLabels sel)) ++
                   map (λ r, {| req_Key := lr_Key r; req_Operator := In; req_Values := lr_Values r |}) (sel_MatchExpressions sel))
    end;
  NewRequirement key op vals := inr {| req_Key := key; req_Operator := op; req_Values := vals |};
  SelectorFromValidatedSet s := map (λ kv, {| req_Key := kv.1; req_Operator := "="; req_Values := [kv.2] |}) (map_to_list s);
  Matches := matches;
  MarshalLabelSelector sel := "{}";
  GetNodeCondition cs ty := List.find (λ c, String.eqb (nc_Type c) ty) cs;
|}.
Definition standing `{K8s} (now : Time) (st : store) : Server := {|
  World := Z;
  serve A c w := match c in call T return Z * T → Z * T with Now => λ _, (w, now) | _ => λ r, r end (@serve _ (store_server st) A c w) |}.

Section examples.
#[local] Existing Instances K8s_concrete MetaApi_concrete LabelsApi_concrete.
Definition conditionOf (ready : string) (since : Time) : list NodeCondition := [{| nc_Type := "Ready"; nc_Status := ready; nc_LastTransitionTime := since |}].
Definition nodeNamed (name ready : string) (since : Time) : Node :=
  {| no_Name := name; no_Labels := Some {[LabelTopologyZone := "a"]}; no_Unschedulable := false; no_Conditions := conditionOf ready since; no_Addresses := [] |}.
Definition groupOnNode (name node : string) : LVMVolumeGroup :=
  {| vg_Name := name; vg_Generation := 1; vg_Annotations := None; vg_NodeName := node; vg_Spec_ThinPools := []; vg_Spec_ActualVGNameOnTheNode := ""; vg_Status_ThinPools := [];
     vg_Conditions := [verdict "Ready" ConditionTrue "" ""] |}.
Definition aPool : ReplicatedStoragePool :=
  zeroRSP <| rsp_Name := "pool" |> <| rsp_Spec_Type := PoolLVM |> <| rsp_Spec_NotReadyGracePeriod := 100 |>
          <| rsp_Spec_LVMVolumeGroups := [{| pg_Name := "vg-1"; pg_ThinPoolName := "" |}] |>.
Definition someNodes : list Node := [nodeNamed "n-1" "True" 0; nodeNamed "n-2" "False" 850; nodeNamed "n-3" "False" 950].
Definition poolStore : store := zeroStore <| st_rsp := Some aPool |> <| st_lvgs := [groupOnNode "vg-1" "n-1"] |> <| st_nodes := someNodes |>.

End examples.

(** ** What a pass writes *)
Section passes.
Context {K : K8s} {Meta : MetaApi} {L : LabelsApi} {S : Server}.
Implicit Types (rsp base obj : ReplicatedStoragePool).

(** Everything but the conditions, the phase with its message, and the listed nodes with their revision. *)
Record outside_status base obj : Prop := {
  os_name : rsp_Name obj = rsp_Name base; os_finalizers : rsp_Finalizers obj = rsp_Finalizers base;
  os_labels : rsp_Labels obj = rsp_Labels base; os_type : rsp_Spec_Type obj = rsp_Spec_Type base;
  os_groups : rsp_Spec_LVMVolumeGroups obj = rsp_Spec_LVMVolumeGroups base; os_zones : rsp_Spec_Zones obj = rsp_Spec_Zones base;
  os_selector : rsp_Spec_NodeLabelSelector obj = rsp_Spec_NodeLabelSelector base; os_usedBy : rsp_UsedBy obj = rsp_UsedBy base;
}.
Definition counted base obj : Prop :=
  (rsp_EligibleNodes obj = rsp_EligibleNodes base ∧ rsp_EligibleNodesRevision obj = rsp_EligibleNodesRevision base) ∨
  (rsp_EligibleNodes obj ≠ rsp_EligibleNodes base ∧ rsp_EligibleNodesRevision obj = wrapS64 (rsp_EligibleNodesRevision base + 1) ∧
   rsp_Phase obj = PoolPhaseReady).
Definition pool_call (e : event) : Prop :=
  match ev_call e with
  | PatchRSPStatus base obj => outside_status base obj ∧ counted base obj
  | GetRSP _ | ListLVGs | ListNodes _ | ListPods _ _ | Now => True
  | _ => False
  end.

Lemma outside_refl rsp : outside_status rsp rsp.
Proof. by split. Qed.
Lemma phase_outside base rsp phase msg : outside_status base rsp → outside_status base (applyPhase rsp phase msg).2.
Proof. intros []. unfold applyPhase. destruct (bool_decide _), (String.eqb _ _); by split. Qed.
Lemma phase_nodes rsp phase msg : rsp_EligibleNodes (applyPhase rsp phase msg).2 = rsp_EligibleNodes rsp ∧
  rsp_EligibleNodesRevision (applyPhase rsp phase msg).2 = rsp_EligibleNodesRevision rsp ∧ rsp_Phase (applyPhase rsp phase msg).2 = phase.
Proof. unfold applyPhase. destruct (bool_decide_reflect (rsp_Phase rsp = phase)), (String.eqb _ _); by simpl. Qed.
Lemma condition_outside base rsp now c : outside_status base rsp → outside_status base (SetStatusConditionAt now rsp c).2.
Proof. intros []. unfold SetStatusConditionAt. destruct (meta_SetStatusCondition _ _) as [[] cs]; by split. Qed.
Lemma condition_nodes rsp now c : rsp_EligibleNodes (SetStatusConditionAt now rsp c).2 = rsp_EligibleNodes rsp ∧
  rsp_EligibleNodesRevision (SetStatusConditionAt now rsp c).2 = rsp_EligibleNodesRevision rsp.
Proof. unfold SetStatusConditionAt. by destruct (meta_SetStatusCondition _ _) as [[] cs]. Qed.
Lemma nodes_outside rsp l : outside_status rsp (applyEligibleNodesAndIncrementRevisionIfChanged rsp l).2.
Proof. unfold applyEligibleNodesAndIncrementRevisionIfChanged. destruct (areEligibleNodesEqual _ _); by split. Qed.
Lemma nodes_counted rsp l : let r := (applyEligibleNodesAndIncrementRevisionIfChanged rsp l).2 in
  (rsp_EligibleNodes r = rsp_EligibleNodes rsp ∧ rsp_EligibleNodesRevision r = rsp_EligibleNodesRevision rsp) ∨
  (rsp_EligibleNodes r ≠ rsp_EligibleNodes rsp ∧ rsp_EligibleNodesRevision r = wrapS64 (rsp_EligibleNodesRevision rsp + 1)).
Proof.
  unfold applyEligibleNodesAndIncrementRevisionIfChanged. destruct (areEligibleNodesEqual _ _) eqn:E; [by left|]. right.
  split; [|done]. simpl. intros H. by rewrite (proj2 (areEligibleNodesEqual_eq _ _) (eq_sym H)) in E.
Qed.

Lemma calls_settle base reason phase msg : calls pool_call (settle base reason phase msg).
Proof.
  unfold settle. apply calls_condition_bind; [done|]. intros now.
  pose proof (condition_outside base base now (verdict CondReadyType ConditionFalse reason msg) (outside_refl base)) as H1.
  pose proof (condition_nodes base now (verdict CondReadyType ConditionFalse reason msg)) as H2.
  destruct (SetStatusConditionAt now base _) as [c1 rsp]. simpl in *.
  pose proof (phase_outside base rsp phase msg H1) as H3. pose proof (phase_nodes rsp phase msg) as H4.
  destruct (applyPhase rsp phase msg) as [c2 rsp']. simpl in *. destruct (c2 || c1); [|calls].
  apply calls_bind; [|intros [? ?]; calls]. apply calls_fmap, calls_do. split; [done|]. left. intuition congruence.
Qed.
Lemma calls_requeue t : calls pool_call (requeueAtExpiry t).
Proof. unfold requeueAtExpiry. destruct t; [|calls]. apply calls_bind; [by apply calls_do|]. intros ?. apply calls_lift. Qed.
Lemma calls_eligible groups grace agents nodes e : calls pool_call (eligibleLoop groups grace agents nodes e).
Proof.
  revert e. induction nodes as [|n nodes IH]; intros e; [apply calls_ret|]. cbn [eligibleLoop].
  apply calls_bind; [unfold isNodeReadyOrWithinGrace; calls|]. intros [[nodeReady beyond] t]. destruct beyond; [apply IH|].
  apply calls_bind; [apply IH|]. intros [? ?]. calls.
Qed.
Lemma calls_reconcileNodes rsp lvgs nodes agents : calls pool_call (reconcileNodes rsp lvgs nodes agents).
Proof.
  unfold reconcileNodes. apply calls_bind; [apply calls_eligible|]. intros [l expires]. cbv zeta.
  generalize ("Eligible nodes calculated successfully: " +:+ itoa (Z.of_nat (length l)) +:+ " nodes"). intros msg.
  pose proof (nodes_outside rsp l) as O1. pose proof (nodes_counted rsp l) as N1.
  destruct (applyEligibleNodesAndIncrementRevisionIfChanged rsp l) as [c1 r1]. simpl in *.
  apply calls_condition_bind; [done|]. intros now. set (cond := verdict _ _ _ _).
  pose proof (condition_outside rsp r1 now cond O1) as O2. pose proof (condition_nodes r1 now cond) as N2.
  destruct (SetStatusConditionAt now r1 cond) as [c2 r2]. simpl in *.
  pose proof (phase_outside rsp r2 PoolPhaseReady msg O2) as O3. pose proof (phase_nodes r2 PoolPhaseReady msg) as N3.
  destruct (applyPhase r2 PoolPhaseReady msg) as [c3 r3]. simpl in *. destruct (c3 || (c2 || c1)); [|apply calls_requeue].
  apply calls_bind; [|intros [? [e|]]; [calls|apply calls_requeue]]. apply calls_fmap, calls_do. split; [done|].
  destruct N2 as [Hn Hr], N3 as (Hn' & Hr' & Hp). unfold counted. rewrite Hn', Hn, Hr', Hr, Hp.
  destruct N1 as [[? ?]|[? ?]]; [by left|by right].
Qed.

(** C26: A pass over a pool writes nothing but the status of that pool.  Each patch keeps everything
    outside the status; it leaves the listed nodes with their revision alone, or changes the nodes, raises
    the revision by one (64 bits) and reports the pool as Ready.  In particular a pool that is not Ready
    keeps the nodes it had. *)
Theorem pool_pass_calls (agentPodNamespace : string) (dataNodeSelector : gmap string string) (name : string) :
  calls pool_call (rsp_controller.Reconcile agentPodNamespace dataNodeSelector name).
Proof.
  unfold rsp_controller.Reconcile, rsp_controller.getRSP. apply calls_bind; [by apply calls_do|]. intros r. apply calls_bind; [|intros o; calls].
  destruct r as [rsp| | |]; [|calls..]. unfold reconcilePool. apply calls_bind.
  { unfold getLVGsByRSP. destruct (rsp_Spec_LVMVolumeGroups rsp); calls. }
  intros [e|[lvgs [|m missing]]]; [calls| |apply calls_settle]. apply calls_bind; [apply calls_lift|].
  intros [e|]; [apply calls_settle|]. destruct (nodeSelector _ _); [apply calls_settle|]. unfold reconcileSelected.
  apply calls_bind; [unfold getSortedNodes; calls|]. intros [e|nodes]; [calls|].
  apply calls_bind; [unfold getAgentReadiness; calls|]. intros [e|agents]; [calls|]. apply calls_reconcileNodes.
Qed.
End passes.

(** ** Passes and events that go wrong *)
Section wrong.
#[local] Existing Instances K8s_concrete MetaApi_concrete LabelsApi_concrete.

(** A pass over a pool in which the grace period of a node ends between the check of that node and
    the request for the next pass panics: time.Until is then negative, and a requeue must be positive.
    Here the clock advances by one at each reading, and the period ends at the first of them. *)
Theorem expired_grace_panics :
  let pool := aPool <| rsp_Spec_LVMVolumeGroups := [] |> in
  let st := zeroStore <| st_rsp := Some pool |> <| st_nodes := [nodeNamed "n-1" "False" 900] |> in
  (rsp_controller.Reconcile (S := store_server st) "d8-sds" ∅ "pool" 1000).2.2 =
  Panic "flow: DoneAndRequeueAfter: duration must be > 0".
Proof. vm_compute. reflexivity. Qed.

(** An update of a volume group in which its ready thin pool is replaced by one that is not ready, in
    one write of the status, is filtered out, although the group is no longer ready for its users: only
    the entries of the new list are compared, and a name that is missing in the old one counts as not
    ready. *)
Theorem thin_pool_swap_unnoticed :
  let old := groupOnNode "vg-1" "n-1" in
  let thin l := {| vg_Name := vg_Name old; vg_Generation := 1; vg_Annotations := None; vg_NodeName := "n-1";
                   vg_Spec_ThinPools := ["thin-a"; "thin-b"]; vg_Spec_ActualVGNameOnTheNode := ""; vg_Status_ThinPools := l; vg_Conditions := vg_Conditions old |} in
  lvgPredicates (thin [("thin-a", true)]) (thin [("thin-b", false)]) = false ∧
  isLVGReady (newLVGView (thin [("thin-a", true)])) "thin-a" = true ∧
  isLVGReady (newLVGView (thin [("thin-b", false)])) "thin-a" = false.
Proof. vm_compute. auto. Qed.
End wrong.

(** ** Which pools an event of a node reaches *)
Section events.
Context {K : K8s} {Meta : MetaApi} {L : LabelsApi}.

(** Every pool that selects a node is reconciled on an event of that node: when its labels satisfy the
    requirements with which a pass over the pool lists the nodes, the pool is among those the event is
    mapped to, as are the pools that list the node already. *)
Theorem node_events_reach_pools (dataNodeSelector : gmap string string) (byIndex all : list ReplicatedStoragePool) (rsp : ReplicatedStoragePool)
    (node : Node) (reqs : list Requirement) :
  (* In: "requires labels has key and the value is in the set" *)
  (∀ zones r ls, NewRequirement LabelTopologyZone In zones = inr r → Matches r ls = true →
     ∃ z, default ∅ ls !! LabelTopologyZone = Some z ∧ z ∈ zones) →
  rsp ∈ byIndex ∨ (rsp ∈ all ∧ nodeSelector dataNodeSelector rsp = inr reqs ∧ forallb (λ r, Matches r (no_Labels node)) reqs = true) →
  rsp_Name rsp ∈ mapNodeToRSP byIndex all node.
Proof.
  intros HIn [H|(H & Hsel & Hm)]; unfold mapNodeToRSP; apply elem_of_union; [left|right]; apply elem_of_list_to_set, list_elem_of_fmap;
    exists rsp; split; try done. apply list_elem_of_In, filter_In. split; [by apply list_elem_of_In|].
  unfold nodeSelector in Hsel. unfold nodeMatchesRSP. rewrite forallb_forall in Hm.
  assert (Hz : ∀ (base : list Requirement), match rsp_Spec_Zones rsp with
    | [] => inr base
    | zones => match NewRequirement LabelTopologyZone In zones with inl e => inl ("Invalid Zones: " +:+ e) | inr req => inr (base ++ [req]) end
    end = inr reqs → (∃ rest, reqs = base ++ rest) ∧
    negb (Nat.eqb (length (rsp_Spec_Zones rsp)) 0) && negb (slices_Contains (rsp_Spec_Zones rsp) (label (no_Labels node) LabelTopologyZone)) = false).
  { intros base E. destruct (rsp_Spec_Zones rsp) as [|z zs] eqn:Ez; [injection E as <-; split; [by exists []; rewrite app_nil_r|done]|].
    destruct (NewRequirement _ _ _) as [e|r] eqn:Er; [done|]. injection E as <-. split; [by exists [r]|]. simpl.
    destruct (HIn _ _ (no_Labels node) Er) as (v & Hv & Hin); [apply Hm, in_or_app; right; by left|].
    unfold label. rewrite Hv. simpl. unfold slices_Contains. apply negb_false_iff. by apply bool_decide_eq_true. }
  destruct (rsp_Spec_NodeLabelSelector rsp) as [sel|].
  - destruct (LabelSelectorAsSelector sel) as [e|rs]; [done|]. destruct (Hz _ Hsel) as [[rest ->] ->].
    apply forallb_forall. intros r Hr. apply Hm, in_or_app. left. apply in_or_app. by right.
  - by destruct (Hz _ Hsel) as [_ ->].
Qed.
End events.

Section events_example.
#[local] Existing Instances K8s_concrete MetaApi_concrete LabelsApi_concrete.
Lemma node_events_reach_pools_witness :
  let zoned := aPool <| rsp_Spec_Zones := ["a"; "b"] |> in
  rsp_Name zoned ∈ mapNodeToRSP [] [zoned] (nodeNamed "n-1" "True" 0).
Proof.
  intros zoned. apply (node_events_reach_pools ∅ [] [zoned] zoned (nodeNamed "n-1" "True" 0)
    [{| req_Key := LabelTopologyZone; req_Operator := In; req_Values := ["a"; "b"] |}]).
  - intros zones r ls [= <-]. unfold Matches, LabelsApi_concrete, matches. simpl. destruct (_ !! _) as [v|]; [|done].
    intros Hv. exists v. split; [done|]. by apply bool_decide_eq_true in Hv.
  - right. split; [by apply list_elem_of_singleton|]. split; vm_compute; reflexivity.
Defined.
End events_example.

(** ** Which nodes a change of the listed nodes concerns *)
Import node_controller.
Section delta.
Notation lt := (λ x y : string, String.compare x y = Lt).
Implicit Types (a b : list string).

Lemma elem_of_enqueue x l : x ∈ flat_map enqueue l ↔ x ≠ "" ∧ x ∈ l.
Proof.
  induction l as [|y l IH]; simpl; [set_solver|]. rewrite elem_of_app, IH. unfold enqueue.
  destruct (String.eqb_spec y ""); set_solver.
Qed.
Lemma enqueue_elem x y : x ∈ enqueue y ↔ x ≠ "" ∧ x = y.
Proof. unfold enqueue. destruct (String.eqb_spec y ""); set_solver. Qed.
Lemma delta_cons x a y b : delta (x :: a) (y :: b) =
  match String.compare x y with
  | Lt => enqueue x ++ delta a (y :: b) | Gt => enqueue y ++ delta (x :: a) b | Eq => delta a b
  end.
Proof. done. Qed.
Lemma lt_irrefl x : ¬ lt x x.
Proof. cbv beta. by rewrite (cmp_refl String.compare). Qed.
Lemma lt_asym x y : lt x y → lt y x → False.
Proof. intros H1 H2. exact (lt_irrefl x (cmp_lt_trans (cmp := String.compare) x y x H1 H2)). Qed.
Lemma below_all x a : StronglySorted lt (x :: a) → x ∉ a.
Proof. intros [_ H]%StronglySorted_inv Hx. rewrite Forall_forall in H. by eapply lt_irrefl, H. Qed.
Lemma not_in_above x y b : lt x y → StronglySorted lt (y :: b) → x ∉ y :: b.
Proof.
  intros Hxy [_ H]%StronglySorted_inv. rewrite Forall_forall in H. intros [->|Hx]%elem_of_cons; [by eapply lt_irrefl|].
  exact (lt_asym x y Hxy (H x Hx)).
Qed.
Lemma gt_lt x y : String.compare x y = Gt → lt y x.
Proof. intros H. cbv beta. by rewrite (cmp_flip (cmp := String.compare)), H. Qed.
Lemma delta_spec n a b x : (length a + length b ≤ n)%nat → StronglySorted lt a → StronglySorted lt b →
  x ∈ delta a b ↔ x ≠ "" ∧ ((x ∈ a ∧ x ∉ b) ∨ (x ∉ a ∧ x ∈ b)).
Proof.
  revert a b. induction n as [|n IH]; intros [|u a] [|v b] Hl Ha Hb; cbn [length] in Hl; try lia; try (simpl; set_solver).
  - cbn [delta]. rewrite elem_of_enqueue. set_solver.
  - change (delta (u :: a) []) with (flat_map enqueue (u :: a)). rewrite elem_of_enqueue. set_solver.
  - rewrite delta_cons. pose proof Ha as [Ha' _]%StronglySorted_inv. pose proof Hb as [Hb' _]%StronglySorted_inv.
    pose proof (below_all u a Ha). pose proof (below_all v b Hb). destruct (String.compare u v) eqn:E.
    + apply (cmp_eq (cmp := String.compare)) in E as ->. rewrite IH by (done || lia). set_solver.
    + pose proof (not_in_above u v b E Hb). rewrite elem_of_app, enqueue_elem, IH by (done || (cbn [length]; lia)). set_solver.
    + apply gt_lt in E. pose proof (not_in_above v u a E Ha). rewrite elem_of_app, enqueue_elem, IH by (done || (cbn [length]; lia)). set_solver.
Qed.
Lemma sortedIndex_sorted nodes : NoDup (map en_NodeName nodes) → StronglySorted lt (sortedIndex nodes).
Proof.
  intros H. apply (sort_by_strict String.compare (λ x : string, x)). by rewrite map_id.
Qed.
Lemma elem_of_sortedIndex x nodes : x ∈ sortedIndex nodes ↔ x ∈ map en_NodeName nodes.
Proof. unfold sortedIndex. by rewrite sort_by_perm. Qed.

(** When the listed nodes of a pool change, exactly the nodes that were added or removed are
    reconciled, in whatever order the lists are; and the change is noticed exactly when there is such a
    node. *)
Theorem delta_is_symmetric_difference (old new : list EligibleNode) (x : string) :
  NoDup (map en_NodeName old) → NoDup (map en_NodeName new) →
  let olds := map en_NodeName old in
  let news := map en_NodeName new in
  (x ∈ enqueueEligibleNodesDelta old new ↔ x ≠ "" ∧ ((x ∈ olds ∧ x ∉ news) ∨ (x ∉ olds ∧ x ∈ news))) ∧
  (eligibleNodesEqual old new = true ↔ ∀ y, y ∈ olds ↔ y ∈ news).
Proof.
  intros Ho Hn olds news. split.
  - unfold enqueueEligibleNodesDelta. rewrite (delta_spec _ _ _ x (le_n _)) by (by apply sortedIndex_sorted). by rewrite !elem_of_sortedIndex.
  - unfold eligibleNodesEqual. rewrite bool_decide_eq_true. split.
    + intros E y. unfold olds, news. by rewrite <-!elem_of_sortedIndex, E.
    + intros H. apply (StronglySorted_unique_strong lt); [|by apply sortedIndex_sorted..|].
      * intros u v _ _ Huv Hvu. destruct (lt_asym u v Huv Hvu).
      * unfold sortedIndex. rewrite !sort_by_perm. by apply NoDup_Permutation.
Qed.
Definition listed (name : string) : EligibleNode :=
  {| en_NodeName := name; en_ZoneName := ""; en_LVMVolumeGroups := []; en_Unschedulable := false; en_NodeReady := true; en_AgentReady := true |}.
Lemma delta_is_symmetric_difference_witness :
  "n-3" ∈ enqueueEligibleNodesDelta [listed "n-2"; listed "n-1"] [listed "n-1"; listed "n-3"].
Proof.
  apply (delta_is_symmetric_difference [listed "n-2"; listed "n-1"] [listed "n-1"; listed "n-3"] "n-3");
    [apply (bool_decide_unpack _); vm_compute; exact I|apply (bool_decide_unpack _); vm_compute; exact I|].
  split; [discriminate|]. right. split; apply (bool_decide_unpack _); vm_compute; exact I.
Defined.
End delta.

(** ** The label of the agent *)
Section agent.
Context {K : K8s} {S : Server}.
Definition agentLabel (n : Node) : option string := default ∅ (no_Labels n) !! AgentNodeLabelKey.

(** A node is labelled for the agent exactly when a DRBD resource is on it or a pool lists it: a pass
    makes one patch when the label is not what it should be (present and empty, or absent), the one that
    sets it or the one that removes it, and none otherwise. *)
Theorem agent_label_follows_need (name : string) (n : Node) (resources : list DRBDResource) (pools : list ReplicatedStoragePool) :
  (∀ w, (serve (GetNode name) w).2 = Replied n) → (∀ w, (serve (ListDRBDRsByNode name) w).2 = Replied resources) →
  (∀ w, (serve (ListRSPsByEligibleNode name) w).2 = Replied pools) →
  let needed := negb (bool_decide (resources = []) && bool_decide (pools = [])) in
  let wanted : option string := if needed then Some "" else None in
  ∀ w, (node_controller.ReconcileNode name w).2.1 =
    [Event _ (GetNode name); Event _ (ListDRBDRsByNode name); Event _ (ListRSPsByEligibleNode name)] ++
    (if bool_decide (agentLabel n = wanted) then []
     else [Event _ (PatchNode name (if needed then rawPatchSetAgentLabel else rawPatchRemoveAgentLabel))]).
Proof.
  intros Hn Hr Hp needed wanted w. unfold node_controller.ReconcileNode, getNodeAgentLabelPresence, reconcileLabel,
    getNumberOfDRBDResourcesByNode, getNumberOfRSPByEligibleNode, patchLabel, mbind, M_bind, do. simpl.
  pose proof (Hn w) as Hn'. destruct (serve (GetNode name) w) as [w1 a1]. simpl in *. subst a1. simpl.
  pose proof (Hr w1) as Hr'. destruct (serve (ListDRBDRsByNode name) w1) as [w2 a2]. simpl in *. subst a2. simpl.
  pose proof (Hp w2) as Hp'. destruct (serve (ListRSPsByEligibleNode name) w2) as [w3 a3]. simpl in *. subst a3. simpl.
  assert (En : (0 <? Z.of_nat (length resources)) || (0 <? Z.of_nat (length pools)) = needed).
  { unfold needed. by destruct resources, pools. }
  rewrite En. unfold agentLabel, label, wanted. destruct (default ∅ (no_Labels n) !! AgentNodeLabelKey) as [v|]; simpl.
  - destruct needed; simpl.
    + destruct (String.eqb_spec v ""); [by subst; rewrite bool_decide_eq_true_2|]. rewrite bool_decide_eq_false_2 by congruence.
      cbv [orb andb negb]. by destruct (serve (PatchNode name rawPatchSetAgentLabel) w3).
    + cbv [orb andb negb]. by destruct (serve (PatchNode name rawPatchRemoveAgentLabel) w3).
  - destruct needed; simpl; cbv [orb andb negb]; [|done]. by destruct (serve (PatchNode name rawPatchSetAgentLabel) w3).
Qed.
End agent.
Section agent_example.
#[local] Existing Instances K8s_concrete MetaApi_concrete.
Lemma agent_label_follows_need_witness :
  length (node_controller.ReconcileNode (S := store_server (zeroStore <| st_nodes := someNodes |> <| st_rsps := [zeroRSP] |>)) "n-1" 0).2.1 = 4%nat.
Proof.
  rewrite (agent_label_follows_need (S := store_server (zeroStore <| st_nodes := someNodes |> <| st_rsps := [zeroRSP] |>)) "n-1"
    (nodeNamed "n-1" "True" 0) [] [zeroRSP]); [vm_compute; reflexivity|intros w; reflexivity..].
Defined.
End agent_example.
