(* ===== verification/ClassTheory.v ===== *)
(** * rsc_controller: theorems

    The aggregate over the volumes of a class, the nodes its configuration is accepted on, the name of its
    pool, what its phase says, what a pass writes, and which events are not reacted to. *)

From Stdlib Require Import ZArith Lia String Ascii Sorted.
From stdpp Require Import base gmap list numbers strings option sorting.
From S2P Require Import Prelude IdSet DrbdSize Api Object Storage Flow Client.
From S2P Require Import Pipeline Context Layout Rollout Replicas PoolController ClassStatus ClassController RolloutTheory PoolTheory.
Import v1alpha1 objutilv1 storage drbd flow client class_status class_controller.

Set Default Proof Using "Type".

(** ** The aggregate over the volumes *)
Section summary.
Context {K : K8s}.
Implicit Types (rsc : ReplicatedStorageClass) (rv : rvView) (rvs : list rvView).

(** A condition that gave its verdict, and not a denial. *)
Definition affirmed (c : rvViewCondition) : Prop :=
  vc_present c = true ∧ vc_current c = true ∧ vc_status c ≠ ConditionUnknown ∧ vc_status c ≠ ConditionFalse.
Lemma affirmed_spec c : hasNoVerdict c = false ∧ isFalse c = false ↔ affirmed c.
Proof.
  unfold hasNoVerdict, isFalse, affirmed. destruct c as [[] s []]; simpl; rewrite ?String.eqb_neq; naive_solver.
Qed.
Lemma aligned_spec rsc rv : computeActualRVConfigurationCategory rsc rv = categoryAligned ↔
  rw_configurationObservedGeneration rv = rsc_ConfigurationGeneration rsc ∧ rw_configurationGeneration rv = rsc_ConfigurationGeneration rsc ∧
  affirmed (rw_configurationReady rv) ∧ affirmed (rw_membershipLayoutConverged rv).
Proof.
  rewrite <-!affirmed_spec. unfold computeActualRVConfigurationCategory, isRVConfigurationPending, isRVConfigurationStale.
  destruct (Z.eqb_spec (rw_configurationObservedGeneration rv) (rsc_ConfigurationGeneration rsc)); simpl; [|naive_solver].
  destruct (Z.eqb_spec (rw_configurationGeneration rv) (rsc_ConfigurationGeneration rsc)); simpl;
    destruct (hasNoVerdict (rw_configurationReady rv)), (hasNoVerdict (rw_membershipLayoutConverged rv)),
      (isFalse (rw_configurationReady rv)), (isFalse (rw_membershipLayoutConverged rv)); naive_solver.
Qed.
Lemma countIn_sum rsc rvs :
  countIn rsc categoryPending rvs + countIn rsc categoryStale rvs + countIn rsc categoryAligned rvs = countb isRVTrackedByRSCRollout rvs.
Proof.
  unfold countIn. induction rvs as [|rv rvs IH]; [done|]. rewrite !countb_cons, <-IH.
  destruct (isRVTrackedByRSCRollout rv), (computeActualRVConfigurationCategory rsc rv); repeat case_bool_decide; try done; simpl; lia.
Qed.
Lemma wrapS32_small x : 0 ≤ x < 2 ^ 31 → wrapS32 x = x.
Proof. intros H. unfold wrapS32. rewrite Z.mod_small; lia. Qed.
Lemma countb_range {A} (f : A → bool) l : 0 ≤ countb f l ≤ Z.of_nat (length l).
Proof. split; [apply countb_nonneg|apply countb_le_length]. Qed.

(** The volumes of a class that follow its rollout fall into exactly one of three categories, so the
    reported counters add up; a volume counts as aligned exactly when it has seen and applied the current
    configuration and neither tracked condition is missing, outdated, unknown or false; the listed pools
    are exactly those of the volumes' configurations, sorted and without repetition. *)
Theorem class_summary_partitions rsc rvs :
  Z.of_nat (length rvs) < 2 ^ 31 →
  let v := computeActualVolumesSummary rsc rvs in
  let aligned rv := isRVTrackedByRSCRollout rv && bool_decide (computeActualRVConfigurationCategory rsc rv = categoryAligned) in
  (∃ pending stale, vs_PendingObservation v = Some pending ∧ vs_StaleConfiguration v = Some stale ∧ 0 ≤ pending ∧ 0 ≤ stale ∧
     vs_Aligned v = Some (countb aligned rvs) ∧ pending + stale + countb aligned rvs = countb isRVTrackedByRSCRollout rvs) ∧
  vs_Total v = Some (Z.of_nat (length rvs)) ∧
  (∀ rv, aligned rv = true ↔ rw_configurationMode rv ≠ ModeManual ∧
     rw_configurationObservedGeneration rv = rsc_ConfigurationGeneration rsc ∧ rw_configurationGeneration rv = rsc_ConfigurationGeneration rsc ∧
     affirmed (rw_configurationReady rv) ∧ affirmed (rw_membershipLayoutConverged rv)) ∧
  NoDup (vs_UsedStoragePoolNames v) ∧ Sorted (λ a b, string_leb a b = true) (vs_UsedStoragePoolNames v) ∧
  (∀ n, n ∈ vs_UsedStoragePoolNames v ↔ n ≠ "" ∧ ∃ rv, rv ∈ rvs ∧ rw_replicatedStoragePoolName rv = n).
Proof.
  intros Hl v aligned. assert (Hc : ∀ c, wrapS32 (countIn rsc c rvs) = countIn rsc c rvs ∧ 0 ≤ countIn rsc c rvs).
  { intros c. pose proof (countb_range (λ rv, isRVTrackedByRSCRollout rv && bool_decide (computeActualRVConfigurationCategory rsc rv = c)) rvs).
    split; [apply wrapS32_small|]; unfold countIn; lia. }
  split_and!.
  - exists (countIn rsc categoryPending rvs), (countIn rsc categoryStale rvs). unfold v, computeActualVolumesSummary. simpl.
    rewrite !(proj1 (Hc _)). split_and!; try done; try apply Hc. apply countIn_sum.
  - unfold v. simpl. rewrite wrapS32_small by lia. done.
  - intros rv. unfold aligned, isRVTrackedByRSCRollout. rewrite andb_true_iff, negb_true_iff, bool_decide_eq_false, bool_decide_eq_true.
    by rewrite aligned_spec.
  - unfold v. simpl. rewrite sort_by_perm. apply NoDup_elements.
  - unfold v. simpl. apply sort_by_sorted, string_leb_total.
  - intros n. unfold v. simpl. rewrite sort_by_perm, elem_of_elements, elem_of_list_to_set, list_elem_of_In, filter_In, <-list_elem_of_In.
    rewrite negb_true_iff, String.eqb_neq. rewrite list_elem_of_fmap. naive_solver.
Qed.
Definition settledCondition : rvViewCondition := {| vc_present := true; vc_status := ConditionTrue; vc_current := true |}.
Definition volumeAt (name : string) (gen : Z) : rvView :=
  {| rw_name := name; rw_configurationMode := ModeAuto; rw_replicatedStoragePoolName := "pool"; rw_configurationGeneration := gen;
     rw_configurationObservedGeneration := 2; rw_satisfyEligibleNodes := settledCondition; rw_configurationReady := settledCondition;
     rw_membershipLayoutConverged := settledCondition |}.
Lemma class_summary_partitions_witness :
  vs_Total (computeActualVolumesSummary (zeroRSC <| rsc_ConfigurationGeneration := 2 |>) [volumeAt "a" 2; volumeAt "b" 1]) = Some 2.
Proof. apply (class_summary_partitions (zeroRSC <| rsc_ConfigurationGeneration := 2 |>) [volumeAt "a" 2; volumeAt "b" 1]). vm_compute. reflexivity. Defined.
End summary.

(** ** The zones of a list of nodes *)
Section zones.
Implicit Types (nodes : list EligibleNode) (z : string).
Definition inZone z (n : EligibleNode) : bool := String.eqb (en_ZoneName n) z.
Definition zonesOf nodes : gset string := list_to_set (map en_ZoneName nodes).

Lemma group_fold nodes (m : gmap string (list EligibleNode)) z :
  foldl (λ m n, <[en_ZoneName n := default [] (m !! en_ZoneName n) ++ [n]]> m) m nodes !! z =
  match List.filter (inZone z) nodes with [] => m !! z | l => Some (default [] (m !! z) ++ l) end.
Proof.
  revert m. induction nodes as [|n nodes IH]; intros m; [done|]. cbn [foldl List.filter]. rewrite IH. unfold inZone at 2.
  destruct (String.eqb_spec (en_ZoneName n) z) as [->|Hz].
  - rewrite lookup_insert_eq. simpl. destruct (List.filter (inZone z) nodes); [done|]. by rewrite <-app_assoc.
  - by rewrite lookup_insert_ne.
Qed.
Lemma group_lookup nodes z : groupByZone nodes !! z = match List.filter (inZone z) nodes with [] => None | l => Some l end.
Proof. unfold groupByZone. rewrite group_fold, lookup_empty. done. Qed.
Lemma in_zonesOf nodes z : z ∈ zonesOf nodes ↔ List.filter (inZone z) nodes ≠ [].
Proof.
  unfold zonesOf. rewrite elem_of_list_to_set, list_elem_of_fmap. split.
  - intros (n & -> & Hn) E. apply list_elem_of_In in Hn. assert (H : List.In n (List.filter (inZone (en_ZoneName n)) nodes)).
    { apply filter_In. split; [done|]. apply String.eqb_refl. }
    by rewrite E in H.
  - destruct (List.filter (inZone z) nodes) as [|n l] eqn:E; [done|]. intros _. exists n.
    assert (H : List.In n (List.filter (inZone z) nodes)) by (rewrite E; by left). apply filter_In in H as [Hn Hz].
    apply String.eqb_eq in Hz. split; [done|]. by apply list_elem_of_In.
Qed.
Lemma group_in nodes z l : (z, l) ∈ map_to_list (groupByZone nodes) ↔ z ∈ zonesOf nodes ∧ l = List.filter (inZone z) nodes.
Proof.
  rewrite elem_of_map_to_list, group_lookup, in_zonesOf. destruct (List.filter (inZone z) nodes) as [|n l'] eqn:E; [|naive_solver].
  split; [done|]. naive_solver.
Qed.
Lemma same_length {A} `{EqDecision A} (l k : list A) : NoDup l → NoDup k → (∀ x, x ∈ l ↔ x ∈ k) → length l = length k.
Proof. intros Hl Hk H. apply Permutation_length, NoDup_Permutation; done. Qed.
(** The zones of which something holds. *)
Lemma count_zones nodes (f : string * list EligibleNode → bool) (X : gset string) :
  (∀ z, z ∈ X ↔ z ∈ zonesOf nodes ∧ f (z, List.filter (inZone z) nodes) = true) →
  countb f (map_to_list (groupByZone nodes)) = Z.of_nat (size X).
Proof.
  intros HX. unfold countb. f_equal. rewrite <-(length_map fst). change (size X) with (length (elements X)). apply same_length.
  - pose proof (NoDup_fst_map_to_list (groupByZone nodes)) as H. revert H. generalize (map_to_list (groupByZone nodes)). intros l.
    induction l as [|[z g] l IH]; simpl; intros H; [constructor|]. apply NoDup_cons in H as [Hz H]. destruct (f (z, g)); [|by apply IH].
    simpl. constructor; [|by apply IH]. rewrite list_elem_of_fmap. intros ([z' g'] & -> & Hin). apply Hz, list_elem_of_fmap. exists (z', g').
    split; [done|]. apply list_elem_of_In in Hin. apply filter_In in Hin as [Hin _]. by apply list_elem_of_In.
  - apply NoDup_elements.
  - intros z. rewrite elem_of_elements, HX, list_elem_of_fmap. split.
    + intros ([z' g] & -> & Hin). apply list_elem_of_In, filter_In in Hin as [Hin Hf]. apply list_elem_of_In, group_in in Hin as [Hz ->]. done.
    + intros [Hz Hf]. exists (z, List.filter (inZone z) nodes). split; [done|]. apply list_elem_of_In, filter_In. split; [|done].
      apply list_elem_of_In, group_in. done.
Qed.
Lemma zones_size nodes : size (groupByZone nodes) = size (zonesOf nodes).
Proof.
  rewrite <-(size_dom (D := gset string)). f_equal. apply set_eq. intros z. rewrite elem_of_dom, group_lookup, in_zonesOf.
  destruct (List.filter _ nodes); split; intros H; [by destruct H|done|done|by eexists].
Qed.
Lemma zones_with_disks nodes :
  countb (λ p, existsb hasDisk p.2) (map_to_list (groupByZone nodes)) = Z.of_nat (size (zonesOf (List.filter hasDisk nodes))).
Proof.
  apply count_zones. intros z. simpl. rewrite !in_zonesOf. split.
  - intros H. destruct (List.filter (inZone z) (List.filter hasDisk nodes)) as [|n l] eqn:E; [done|].
    assert (Hin : List.In n (List.filter (inZone z) (List.filter hasDisk nodes))) by (rewrite E; by left).
    apply filter_In in Hin as [Hin Hz]. apply filter_In in Hin as [Hin Hd].
    assert (Hz' : List.In n (List.filter (inZone z) nodes)) by by apply filter_In.
    split; [intros E'; by rewrite E' in Hz'|]. apply existsb_exists. by exists n.
  - intros [_ H]. apply existsb_exists in H as (n & Hn & Hd). apply filter_In in Hn as [Hn Hz].
    assert (Hin : List.In n (List.filter (inZone z) (List.filter hasDisk nodes))) by (apply filter_In; split; [by apply filter_In|done]).
    intros E. by rewrite E in Hin.
Qed.
Lemma countb_filter {A} (f g : A → bool) l : countb f (List.filter g l) = countb (λ x, g x && f x) l.
Proof. induction l as [|x l IH]; [done|]. cbn [List.filter]. rewrite countb_cons. destruct (g x); [by rewrite countb_cons, IH|done]. Qed.
Lemma firstError_none {A} (f : A → option string) l : firstError f l = None ↔ ∀ x, x ∈ l → f x = None.
Proof.
  induction l as [|x l IH]; simpl; [set_solver|]. destruct (f x) eqn:E; [|set_solver]. split; [done|]. intros H. specialize (H x ltac:(set_solver)). congruence.
Qed.
Lemma in_inOrder {A} rank (m : gmap string A) x : x ∈ inOrder rank m ↔ x ∈ map_to_list m.
Proof. unfold inOrder. by rewrite sort_by_perm. Qed.
End zones.

(** ** The nodes a configuration is accepted on *)

(** A check of bounds that answers with an error or with none. *)
Ltac bounds :=
  let H := fresh in split; intros H; first [discriminate H | done | destruct_and?; exfalso; lia | split_and?; done || lia].


(** ** Zones and the loss of one *)

(** A spread of [d] diskful replicas over zones that keeps [qmr] of them when any zone is lost. *)
Definition survives (d qmr : Z) (perZone : list Z) : Prop :=
  foldr Z.add 0 perZone = d ∧ Forall (λ x, 0 ≤ x ∧ qmr ≤ d - x) perZone.
Definition configurationOf (ftt gmdr : Z) : Configuration :=
  {| cfg_ReplicatedStoragePoolName := ""; cfg_Topology := TopologyTransZonal; cfg_FailuresToTolerate := ftt;
     cfg_GuaranteedMinimumDataRedundancy := gmdr; cfg_VolumeAccess := VolumeAccessAny |}.

Lemma three_zones_lose l : length l = 3%nat → ¬ survives 4 3 l.
Proof.
  intros Hl [Hs Hall]. destruct l as [|a [|b [|c [|? l]]]]; try done. unfold foldr in Hs.
  repeat match goal with H : Forall _ (_ :: _) |- _ => apply Forall_cons in H as [[? ?] H] end. lia.
Qed.

(** Over the minimum number of zones with disks that a TransZonal configuration with a tolerated
    failure is accepted on, its diskful replicas can be spread so that the loss of any zone leaves as many
    as the quorum needs data copies, except for FTT=1 with GMDR=2. *)
Theorem minimum_zones_survive_a_loss (ftt gmdr minZones minZonesWithDisks : Z) :
  computeTransZonalMinZones ftt gmdr = Ok (minZones, minZonesWithDisks) → 1 ≤ ftt →
  (∃ perZone, Z.of_nat (length perZone) = minZonesWithDisks ∧
     survives (IntendedDiskfulCount ftt gmdr) (QuorumMinimumRedundancy (configurationOf ftt gmdr)) perZone) ↔
  (ftt, gmdr) ≠ (1, 2).
Proof.
  intros E Hf. unfold computeTransZonalMinZones in E. repeat case_match; simplify_eq;
    repeat match goal with H : _ && _ = true |- _ => apply andb_true_iff in H as [?%Z.eqb_eq ?%Z.eqb_eq] end; subst; [lia|..].
  - split; [done|intros _]. exists [1; 1]. split; [done|]. split; [done|]. repeat constructor; done.
  - split; [done|intros _]. exists [1; 1; 1]. split; [done|]. split; [done|]. repeat constructor; done.
  - split; [|done]. intros (l & Hl & Hs). destruct (three_zones_lose l); [lia|exact Hs].
  - split; [done|intros _]. exists [1; 1; 1; 1]. split; [done|]. split; [done|]. repeat constructor; done.
  - split; [done|intros _]. exists [2; 2; 1]. split; [done|]. split; [done|]. repeat constructor; done.
Qed.
Lemma minimum_zones_survive_a_loss_witness :
  ∃ perZone, Z.of_nat (length perZone) = 3 ∧ survives (IntendedDiskfulCount 2 2) (QuorumMinimumRedundancy (configurationOf 2 2)) perZone.
Proof. apply (minimum_zones_survive_a_loss 2 2 3 3); [reflexivity|lia|discriminate]. Defined.

(** C38: FTT=1 with GMDR=2 (four diskful replicas, three of which must stay) is accepted on three zones by
    the class and by its volumes, where every spread of four replicas loses too many with some zone, so
    that the placement guard of the datamesh never admits the fourth; on four zones, where each holds
    one, the volumes refuse it. *)
Theorem four_copies_need_four_zones (rank : string → Z) (nodes : list EligibleNode) :
  size (zonesOf (List.filter hasDisk nodes)) = 3%nat →
  validateEligibleNodes rank nodes TopologyTransZonal 1 2 = Ok None ∧
  rollout.isTransZonalZoneCountValid 1 2 3 = true ∧ rollout.isTransZonalZoneCountValid 1 2 4 = false ∧
  (∀ perZone, length perZone = 3%nat → ¬ survives (IntendedDiskfulCount 1 2) (QuorumMinimumRedundancy (configurationOf 1 2)) perZone) ∧
  survives (IntendedDiskfulCount 1 2) (QuorumMinimumRedundancy (configurationOf 1 2)) [1; 1; 1; 1].
Proof.
  intros H3. split_and!; try done.
  - assert (Hle : (3 ≤ size (zonesOf nodes))%nat).
    { rewrite <-H3. apply subseteq_size. intros z. rewrite !in_zonesOf. intros Hz E. apply Hz.
      destruct (List.filter (inZone z) (List.filter hasDisk nodes)) as [|n l] eqn:E'; [done|].
      assert (Hin : List.In n (List.filter (inZone z) nodes)).
      { assert (Hn : List.In n (List.filter (inZone z) (List.filter hasDisk nodes))) by (rewrite E'; by left).
        apply filter_In in Hn as [Hn ?]. apply filter_In in Hn as [? _]. by apply filter_In. }
      by rewrite E in Hin. }
    destruct nodes as [|n nodes]; [done|]. set (l := n :: nodes) in *. unfold validateEligibleNodes.
    change (match l with [] => _ | _ :: _ => ?x end) with x. clearbody l. cbn [IntendedLayout computeTransZonalMinZones Z.eqb Pos.eqb andb mbind outcome_bind].
    rewrite zones_with_disks, zones_size, H3. f_equal. destruct (Z.ltb_spec (Z.of_nat (size (zonesOf l))) 3); [lia|done].
  - intros l Hl. exact (three_zones_lose l Hl).
  - split; [done|]. repeat constructor; done.
Qed.
Definition diskIn (name zone : string) : EligibleNode :=
  {| en_NodeName := name; en_ZoneName := zone; en_LVMVolumeGroups := [{| lvg_Name := "vg"; lvg_ThinPoolName := ""; lvg_Unschedulable := false; lvg_Ready := true |}];
     en_Unschedulable := false; en_NodeReady := true; en_AgentReady := true |}.
Lemma four_copies_need_four_zones_witness :
  validateEligibleNodes (λ _, 0) [diskIn "n-1" "a"; diskIn "n-2" "a"; diskIn "n-3" "b"; diskIn "n-4" "c"] TopologyTransZonal 1 2 = Ok None.
Proof.
  apply (four_copies_need_four_zones (λ _, 0) [diskIn "n-1" "a"; diskIn "n-2" "a"; diskIn "n-3" "b"; diskIn "n-4" "c"]).
  vm_compute. reflexivity.
Defined.

(** ** The name of the pool *)
Section checksum.
Context {L : LabelsApi}.
Implicit Types (rsc : ReplicatedStorageClass) (l k : list string).

Lemma bytes_inj s t : pipeline.bytes s = pipeline.bytes t → s = t.
Proof.
  revert t. induction s as [|c s IH]; intros [|d t]; simpl; try done. intros [= Hc Ht]. apply IH in Ht as ->.
  f_equal. rewrite <-(ascii_nat_embedding c), <-(ascii_nat_embedding d). f_equal. lia.
Qed.
Definition noNul (s : string) : Prop := 0 ∉ pipeline.bytes s.
(** Up to the first zero byte. *)
Lemma upto_zero (u v x y : list Z) : 0 ∉ u → 0 ∉ v → u ++ 0 :: x = v ++ 0 :: y → u = v ∧ x = y.
Proof.
  revert v. induction u as [|a u IH]; intros [|b v] Hu Hv; simpl.
  - naive_solver.
  - intros [= <- _]. set_solver.
  - intros [= -> _]. set_solver.
  - intros [= <- H]. apply IH in H as [-> ->]; set_solver.
Qed.
Lemma terminated_inj l k : Forall noNul l → Forall noNul k → flat_map terminated l = flat_map terminated k → l = k.
Proof.
  intros Hl. revert k. induction Hl as [|s l Hs Hl IH]; intros k Hk; destruct Hk as [|t k Ht Hk]; simpl; unfold terminated; try done.
  - intros E. by destruct (pipeline.bytes t).
  - intros E. by destruct (pipeline.bytes s).
  - rewrite <-!app_assoc. simpl. intros E. apply upto_zero in E as [E1 E2]; [|done..]. apply bytes_inj in E1 as ->. f_equal. by apply IH.
Qed.
(** Two lists that start with elements of a class are the same up to where it ends. *)
Lemma split_class (P : string → Prop) (a b x y : list string) s t :
  Forall P a → Forall P b → ¬ P s → ¬ P t → a ++ s :: x = b ++ t :: y → a = b ∧ s :: x = t :: y.
Proof.
  intros Ha. revert b. induction Ha as [|u a Hu Ha IH]; intros b Hb Hs Ht; destruct Hb as [|v b Hv Hb]; simpl.
  - done.
  - intros [= -> _]. done.
  - intros [= <- _]. done.
  - intros [= <- E]. by apply IH in E as [-> ?].
Qed.

(** What the validation of names gives: groups and thin pools are names, zones are values of a label, a
    marshalled selector is an object. *)
Definition opens (s : string) : Prop := ∃ s', s = String "{"%char s'.
Definition hasColon (s : string) : Prop := 58 ∈ pipeline.bytes s.
Record named rsc (storage : ClassStorage) : Prop := {
  nm_type : noNul (PoolType_String (cs_Type storage));
  nm_groups : Forall (λ g, noNul (groupText g) ∧ ¬ opens (groupText g)) (cs_LVMVolumeGroups storage);
  nm_zones : Forall (λ z, noNul z ∧ ¬ hasColon z ∧ ¬ opens z ∧ z ≠ "") (rsc_Spec_Zones rsc);
  nm_selector : ∀ sel, rsc_Spec_NodeLabelSelector rsc = Some sel → noNul (MarshalLabelSelector sel) ∧ opens (MarshalLabelSelector sel);
  nm_networks : Forall noNul (default [] (rsc_Spec_SystemNetworkNames rsc));
}.
Definition pieces rsc (storage : ClassStorage) : list string :=
  PoolType_String (cs_Type storage) :: sort_by string_leb (map groupText (cs_LVMVolumeGroups storage)) ++
  sort_by string_leb (rsc_Spec_Zones rsc) ++ selectorText (rsc_Spec_NodeLabelSelector rsc) ::
  sort_by string_leb (default [] (rsc_Spec_SystemNetworkNames rsc)).
Lemma input_pieces rsc storage : checksumInput rsc storage = flat_map terminated (pieces rsc storage).
Proof. unfold checksumInput, pieces. simpl. rewrite !flat_map_app. by rewrite <-?app_assoc. Qed.
Definition isGroup (s : string) : Prop := hasColon s ∧ ¬ opens s.
Lemma groupText_colon g : hasColon (groupText g).
Proof.
  unfold hasColon, groupText. destruct g as [n t]. simpl. induction n as [|c n IH]; simpl; [by left|]. by right.
Qed.
Lemma pieces_noNul rsc storage : named rsc storage → Forall noNul (pieces rsc storage).
Proof.
  intros [Ht Hg Hz Hs Hn]. unfold pieces. constructor; [done|]. apply Forall_app. split.
  - rewrite sort_by_perm, Forall_map. eapply Forall_impl; [exact Hg|]. by intros g [? _].
  - apply Forall_app. split; [rewrite sort_by_perm; eapply Forall_impl; [exact Hz|]; by intros z [? _]|].
    constructor; [|by rewrite sort_by_perm]. destruct (rsc_Spec_NodeLabelSelector rsc) as [sel|]; [by apply Hs|]. by intros ?%elem_of_nil.
Qed.
Lemma selector_no_group rsc storage : named rsc storage → ¬ isGroup (selectorText (rsc_Spec_NodeLabelSelector rsc)) ∧
  ¬ (¬ opens (selectorText (rsc_Spec_NodeLabelSelector rsc)) ∧ selectorText (rsc_Spec_NodeLabelSelector rsc) ≠ "").
Proof.
  intros [_ _ _ Hs _]. destruct (rsc_Spec_NodeLabelSelector rsc) as [sel|]; simpl.
  - destruct (Hs sel eq_refl) as [_ Ho]. unfold isGroup. tauto.
  - split; [|tauto]. intros [H _]. by apply elem_of_nil in H.
Qed.
(** The lists are read back from what is hashed. *)
Lemma pieces_read rsc storage rsc' storage' : named rsc storage → named rsc' storage' → pieces rsc storage = pieces rsc' storage' →
  PoolType_String (cs_Type storage) = PoolType_String (cs_Type storage') ∧
  sort_by string_leb (map groupText (cs_LVMVolumeGroups storage)) = sort_by string_leb (map groupText (cs_LVMVolumeGroups storage')) ∧
  sort_by string_leb (rsc_Spec_Zones rsc) = sort_by string_leb (rsc_Spec_Zones rsc') ∧
  selectorText (rsc_Spec_NodeLabelSelector rsc) = selectorText (rsc_Spec_NodeLabelSelector rsc') ∧
  sort_by string_leb (default [] (rsc_Spec_SystemNetworkNames rsc)) = sort_by string_leb (default [] (rsc_Spec_SystemNetworkNames rsc')).
Proof.
  intros N N' [= Et E]. split; [done|].
  assert (HG : ∀ rsc storage, named rsc storage → Forall isGroup (sort_by string_leb (map groupText (cs_LVMVolumeGroups storage)))).
  { intros r s [_ Hg _ _ _]. rewrite sort_by_perm, Forall_map. eapply Forall_impl; [exact Hg|]. intros g [_ Ho]. split; [apply groupText_colon|done]. }
  set (isZone := λ z, ¬ opens z ∧ z ≠ "").
  assert (HZ : ∀ rsc storage, named rsc storage → Forall (λ z, ¬ isGroup z ∧ isZone z) (sort_by string_leb (rsc_Spec_Zones rsc))).
  { intros r s [_ _ Hz _ _]. rewrite sort_by_perm. eapply Forall_impl; [exact Hz|]. intros z (_ & Hc & Ho & He). unfold isGroup, isZone. tauto. }
  destruct (selector_no_group _ _ N) as [Hs Hz]. destruct (selector_no_group _ _ N') as [Hs' Hz'].
  assert (Hhead : ∀ rsc storage, named rsc storage → ∀ rest, ∃ u x,
    sort_by string_leb (rsc_Spec_Zones rsc) ++ selectorText (rsc_Spec_NodeLabelSelector rsc) :: rest = u :: x ∧ ¬ isGroup u).
  { intros r s Hn rest. pose proof (HZ r s Hn) as H. destruct (sort_by string_leb (rsc_Spec_Zones r)) as [|z zs].
    - eexists _, _. split; [done|]. by apply (selector_no_group r s Hn).
    - apply Forall_cons in H as [[H _] _]. by eexists _, _. }
  destruct (Hhead _ _ N (sort_by string_leb (default [] (rsc_Spec_SystemNetworkNames rsc)))) as (u & x & Eu & Hu).
  destruct (Hhead _ _ N' (sort_by string_leb (default [] (rsc_Spec_SystemNetworkNames rsc')))) as (v & y & Ev & Hv).
  rewrite Eu, Ev in E. apply (split_class isGroup) in E as [EG E]; [|by eapply HG|by eapply HG|done..]. split; [done|].
  rewrite <-Eu, <-Ev in E.
  apply (split_class isZone) in E as [EZ E]; [|eapply Forall_impl; [by eapply HZ|by intros ? [_ ?]]..|done|done]. by injection E.
Qed.
Lemma sort_names_iff l k : sort_by string_leb l = sort_by string_leb k ↔ l ≡ₚ k.
Proof.
  split; [intros E; by rewrite <-(sort_by_perm string_leb l), E, sort_by_perm|]. intros E.
  apply (StronglySorted_unique_strong (λ a b, string_leb a b = true)); [|apply sort_names_sorted..|by rewrite !sort_by_perm].
  intros a b _ _ Hab Hba. apply leb_not_lt in Hba. unfold string_leb in Hab. destruct (String.compare a b) eqn:Ec; try done.
  by apply (cmp_eq (cmp := String.compare)) in Ec.
Qed.

End checksum.

Section checksum_example.
#[local] Existing Instances K8s_concrete MetaApi_concrete LabelsApi_concrete.
Definition groupsOf (l : list (string * string)) : ClassStorage :=
  {| cs_Type := PoolLVMThin; cs_LVMVolumeGroups := map (λ g, {| pg_Name := g.1; pg_ThinPoolName := g.2 |}) l |}.
Definition classIn (zones : list string) : ReplicatedStorageClass := zeroRSC <| rsc_Name := "fast" |> <| rsc_Spec_Zones := zones |>.
Lemma named_by (rsc : ReplicatedStorageClass) (storage : ClassStorage) : rsc_Spec_NodeLabelSelector rsc = None → rsc_Spec_SystemNetworkNames rsc = None →
  bool_decide (0 ∉ pipeline.bytes (PoolType_String (cs_Type storage))) &&
  forallb (λ g, bool_decide (0 ∉ pipeline.bytes (groupText g)) && negb (String.prefix "{" (groupText g))) (cs_LVMVolumeGroups storage) &&
  forallb (λ z, bool_decide (0 ∉ pipeline.bytes z) && bool_decide (58 ∉ pipeline.bytes z) && negb (String.prefix "{" z) && negb (String.eqb z ""))
    (rsc_Spec_Zones rsc) = true → named rsc storage.
Proof.
  intros E1 E2 H. rewrite !andb_true_iff, !forallb_forall in H. destruct H as [[H1 H2] H3].
  assert (Ho : ∀ s, negb (String.prefix "{" s) = true → ¬ opens s) by (intros s Hs [t ->]; by destruct t).
  split.
  - by apply bool_decide_eq_true in H1.
  - apply Forall_forall. intros g Hg. apply list_elem_of_In, H2, andb_true_iff in Hg as [Hg1%bool_decide_eq_true Hg2]. split; [done|]. by apply Ho.
  - apply Forall_forall. intros z Hz. apply list_elem_of_In, H3 in Hz. rewrite !andb_true_iff in Hz. destruct Hz as [[[Ha%bool_decide_eq_true Hb%bool_decide_eq_true] Hc] Hd].
    split_and!; [done|done|by apply Ho|]. by destruct (String.eqb_spec z "").
  - by rewrite E1.
  - rewrite E2. constructor.
Qed.
End checksum_example.

(** ** What the phase says *)
Section phase.
Context {K : K8s} {Meta : MetaApi} {ML : MetaLaws} {L : LabelsApi} {S : Server}.
Implicit Types (rsc : ReplicatedStorageClass) (rvs : list rvView).

Set Default Proof Using "Type ML".

(** Conditions change nothing else. *)
Definition condStatus rsc (ty : string) : option string := c_Status <$> GetStatusCondition rsc ty.
Lemma condition_written (ok : Prop) (P : event → Prop) rsc ty status reason msg : P (Event Time Now) →
  triple ok P (applyCond rsc ty status reason msg) (λ y, ∃ cs, y.2 = rsc <| rsc_Conditions := cs |> ∧
    condStatus y.2 ty = Some status ∧ ∀ ty', ty' ≠ ty → condStatus y.2 ty' = condStatus rsc ty').
Proof.
  intros HP. unfold applyCond, SetStatusCondition. set (cond := verdict ty status reason msg).
  assert (H : ∀ now, let y := SetStatusConditionAt now rsc cond in ∃ cs, y.2 = rsc <| rsc_Conditions := cs |> ∧
    condStatus y.2 ty = Some status ∧ ∀ ty', ty' ≠ ty → condStatus y.2 ty' = condStatus rsc ty').
  { intros now. unfold SetStatusConditionAt. set (c := stamped rsc cond now). pose proof (set_this (rsc_Conditions rsc) c) as (c' & Hc & Hv).
    pose proof (set_other (rsc_Conditions rsc) c) as Ho. pose proof (set_unchanged (rsc_Conditions rsc) c) as Hu.
    change (GetStatusConditions rsc) with (rsc_Conditions rsc). destruct (meta_SetStatusCondition (rsc_Conditions rsc) c) as [b cs]. simpl in *.
    assert (Hs : c_Status c' = status).
    { unfold sameVerdict in Hv. rewrite !andb_true_iff, !String.eqb_eq in Hv. by destruct Hv as [[[[_ ->] _] _] _]. }
    exists cs. assert (E : (if b then rsc <| rsc_Conditions := cs |> else rsc) = rsc <| rsc_Conditions := cs |>).
    { destruct b; [done|]. rewrite (Hu eq_refl). by destruct rsc. }
    change (if b then SetStatusConditions cs rsc else rsc) with (if b then rsc <| rsc_Conditions := cs |> else rsc). rewrite E. split; [done|].
    unfold condStatus, GetStatusCondition. change (GetStatusConditions (rsc <| rsc_Conditions := cs |>)) with cs.
    change (c_Type c) with ty in *. rewrite Hc. simpl. split; [by rewrite Hs|]. intros ty' Hne. by rewrite Ho. }
  destruct (statusChanges rsc cond); [|apply triple_ret, (H 0)].
  apply triple_call; [done|]. intros now. apply triple_ret, H.
Qed.

(** What the ensure helpers never touch. *)
Record frame rsc rsc' : Prop := {
  fr_generation : rsc_Generation rsc' = rsc_Generation rsc; fr_deletion : rsc_DeletionTimestamp rsc' = rsc_DeletionTimestamp rsc;
  fr_topology : rsc_Spec_Topology rsc' = rsc_Spec_Topology rsc; fr_ftt : GetFTT rsc' = GetFTT rsc; fr_gmdr : GetGMDR rsc' = GetGMDR rsc;
}.
Lemma frame_refl rsc : frame rsc rsc.
Proof. by split. Qed.
Lemma frame_trans a b c : frame a b → frame b c → frame a c.
Proof. intros [] []. split; congruence. Qed.
Definition readyStatus (rsp : ReplicatedStoragePool) : option string := c_Status <$> GetStatusCondition rsp rsp_controller.CondReadyType.
Definition quiet_call (e : event) : Prop := match ev_call e with Now | MapOrder => True | _ => False end.

Lemma ensureStoragePool_spec ok rsc target rsp :
  triple ok quiet_call (ensureStoragePool rsc target (Some rsp)) (λ y, frame rsc y.1 ∧ rsc_StoragePoolBasedOnGeneration y.1 = rsc_Generation y.1 ∧
    rsc_StoragePoolName y.1 = target ∧ condStatus y.1 CondStoragePoolReadyType = Some (default ConditionUnknown (readyStatus rsp))).
Proof.
  unfold ensureStoragePool. assert (H : let r := (applyStoragePool rsc target).2 in frame rsc r ∧ rsc_StoragePoolBasedOnGeneration r = rsc_Generation r ∧
    rsc_StoragePoolName r = target).
  { unfold applyStoragePool. destruct (Z.eqb_spec (rsc_StoragePoolBasedOnGeneration rsc) (rsc_Generation rsc)); simpl;
      destruct (String.eqb_spec (rsc_StoragePoolName rsc) target); simpl; split_and!; try done; by split. }
  destruct (applyStoragePool rsc target) as [c1 r]. simpl in H. destruct H as (HF & HB & HN).
  eapply (triple_bind _ _ _ _ (λ y, ∃ cs, y.2 = r <| rsc_Conditions := cs |> ∧ condStatus y.2 CondStoragePoolReadyType = Some (default ConditionUnknown (readyStatus rsp)))).
  - unfold applyStoragePoolReadyCondFromRSP, readyStatus. destruct (GetStatusCondition rsp _) as [c|];
      (eapply triple_weaken; [by apply condition_written|]); intros y (cs & Hy & Hs & _); by exists cs.
  - intros [c2 r'] (cs & Hr & Hs). apply triple_ret. simpl in *. split_and!; [|by rewrite Hr..|done].
    eapply frame_trans; [exact HF|]. rewrite Hr. by split.
Qed.

Definition accepted rsc (rsp : ReplicatedStoragePool) : Prop :=
  isConfigurationInSync rsc = true ∧ rsc_StoragePoolEligibleNodesRevision rsc = rsp_EligibleNodesRevision rsp.
Lemma checkNodes_spec rsc rsp : triple (rsc_Spec_Topology rsc = TopologyTransZonal → ∃ p, computeTransZonalMinZones (GetFTT rsc) (GetGMDR rsc) = Ok p) quiet_call
  (checkNodes rsc (Some rsp)) (λ y, frame rsc y.2 ∧ rsc_Conditions y.2 = rsc_Conditions rsc ∧
     (y.1.1 = None → rsc_StoragePoolEligibleNodesRevision y.2 = rsp_EligibleNodesRevision rsp)).
Proof.
  unfold checkNodes. cbn [deref]. apply (triple_bind _ _ _ _ (λ r, r = rsp)); [by apply triple_lift|]. intros ? ->.
  destruct (negb (rsp_EligibleNodesRevision rsp =? _) || _) eqn:E; simpl.
  - apply triple_call; [done|]. intros rank. apply (triple_bind _ _ _ _ (λ _, True)).
    + apply triple_lift. unfold validateEligibleNodes. destruct (rsp_EligibleNodes rsp); [done|]. destruct (rsc_Spec_Topology rsc) eqn:Et; simpl; try done.
      destruct (computeTransZonalMinZones (GetFTT rsc) (GetGMDR rsc)) as [[mz md]| |] eqn:Ec; simpl; [done|..]; intros H; by destruct (H eq_refl).
    + intros [e|] _; apply triple_ret; simpl; [by split_and!|]. destruct (Z.eqb_spec (rsc_StoragePoolEligibleNodesRevision rsc) (rsp_EligibleNodesRevision rsp)); by split_and!.
  - apply triple_ret. simpl. split_and!; [by split|done|]. intros _. apply orb_false_iff in E as [E _]. apply negb_false_iff, Z.eqb_eq in E. done.
Qed.
Lemma ensureConfiguration_spec rsc rsp : rsc_StoragePoolBasedOnGeneration rsc = rsc_Generation rsc →
  triple (rsc_Spec_Topology rsc = TopologyTransZonal → ∃ p, computeTransZonalMinZones (GetFTT rsc) (GetGMDR rsc) = Ok p) quiet_call
  (ensureConfiguration rsc (Some rsp)) (λ y, frame rsc y.1 ∧ condStatus y.1 CondStoragePoolReadyType = condStatus rsc CondStoragePoolReadyType ∧
     (condStatus y.1 CondReadyType = Some ConditionTrue → accepted y.1 rsp)).
Proof.
  intros HB. unfold ensureConfiguration. rewrite HB, Z.eqb_refl. cbn [negb]. destruct (negb (IsStatusConditionPresentAndTrue _ _)).
  { eapply triple_bind; [by apply condition_written|]. intros [c r] (cs & Hr & Hs & Ho). apply triple_ret. simpl in *. rewrite Hr in *.
    split_and!; [by split|by apply Ho|]. by rewrite Hs. }
  eapply triple_bind; [apply checkNodes_spec|]. intros [[e changed] r] (HF & Hc & Hrev). simpl in *.
  assert (HS : ∀ ty, condStatus r ty = condStatus rsc ty).
  { intros ty. unfold condStatus, GetStatusCondition. change (GetStatusConditions r) with (rsc_Conditions r). by rewrite Hc. }
  destruct e as [e|].
  - eapply triple_bind; [by apply condition_written|]. intros [c r'] (cs & Hr & Hs & Ho). apply triple_ret. simpl in *. rewrite Hr in *.
    split_and!; [eapply frame_trans; [exact HF|by split]|by rewrite Ho, HS|]. by rewrite Hs.
  - unfold acceptConfiguration. destruct (isConfigurationInSync r) eqn:Esync.
    + eapply triple_bind; [by apply condition_written|]. intros [c r'] (cs & Hr & Hs & Ho). apply triple_ret. simpl in *. rewrite Hr in *.
      split_and!; [eapply frame_trans; [exact HF|by split]|by rewrite Ho, HS|]. intros _. split; [done|by apply Hrev].
    + eapply triple_bind; [by apply condition_written|]. intros [c r'] (cs & Hr & Hs & Ho). apply triple_ret. simpl in *. rewrite Hr in *.
      split_and!; [eapply frame_trans; [exact HF|by split]|rewrite Ho by done; exact (HS _)|]. intros _. split; [|by apply Hrev].
      unfold isConfigurationInSync. simpl. apply Z.eqb_refl.
Qed.

(** The counters after the aggregation. *)
Definition counted rsc (pending stale conflicts : Z) : Prop :=
  vs_PendingObservation (rsc_Volumes rsc) = Some pending ∧ vs_StaleConfiguration (rsc_Volumes rsc) = Some stale ∧
  vs_InConflictWithEligibleNodes (rsc_Volumes rsc) = Some conflicts ∧ is_Some (vs_Total (rsc_Volumes rsc)).
Lemma applied_summary rsc summary : (applyVolumesSummary rsc summary).2 = rsc <| rsc_Volumes := summary |>.
Proof. unfold applyVolumesSummary. case_bool_decide as E; [|done]. simpl. destruct rsc. simpl in *. by subst. Qed.
Lemma ensureVolumes_spec ok rsc rvs : let v := computeActualVolumesSummary rsc rvs in
  triple ok quiet_call (ensureVolumeSummaryAndConditions rsc rvs) (λ y, frame rsc y.1 ∧ rsc_Volumes y.1 = v ∧
    condStatus y.1 CondStoragePoolReadyType = condStatus rsc CondStoragePoolReadyType ∧ condStatus y.1 CondReadyType = condStatus rsc CondReadyType ∧
    isConfigurationInSync y.1 = isConfigurationInSync rsc ∧ rsc_StoragePoolEligibleNodesRevision y.1 = rsc_StoragePoolEligibleNodesRevision rsc ∧
    rsc_ConfigurationGeneration y.1 = rsc_ConfigurationGeneration rsc ∧
    (condStatus y.1 CondVolumesSatisfyEligibleNodesType = Some ConditionTrue → ∃ c, vs_InConflictWithEligibleNodes v = Some c ∧ c ≤ 0) ∧
    (condStatus y.1 CondConfigurationRolledOutType = Some ConditionTrue →
       ∃ p s, vs_PendingObservation v = Some p ∧ vs_StaleConfiguration v = Some s ∧ p ≤ 0 ∧ s ≤ 0)).
Proof.
  intros v. unfold ensureVolumeSummaryAndConditions. fold v. pose proof (applied_summary rsc v) as Ha. destruct (applyVolumesSummary rsc v) as [c1 r1]. simpl in Ha.
  rewrite Ha. clear Ha r1. set (r1 := rsc <| rsc_Volumes := v |>).
  assert (Hconf : ∃ c, vs_InConflictWithEligibleNodes v = Some c) by by eexists. assert (Hp : ∃ p, vs_PendingObservation v = Some p) by by eexists.
  assert (Hs : ∃ s, vs_StaleConfiguration v = Some s) by by eexists. destruct Hconf as [conflicts Hconf], Hp as [pending Hp], Hs as [stale Hs].
  change (rsc_Volumes r1) with v. rewrite Hconf. cbn [deref]. apply (triple_bind _ _ _ _ (λ r, r = conflicts)); [by apply triple_lift|]. intros ? ->.
  apply (triple_bind _ _ _ _ (λ y, ∃ cs, y.2 = r1 <| rsc_Conditions := cs |> ∧ (condStatus y.2 CondVolumesSatisfyEligibleNodesType = Some ConditionTrue → conflicts ≤ 0) ∧
    ∀ ty', ty' ≠ CondVolumesSatisfyEligibleNodesType → condStatus y.2 ty' = condStatus r1 ty')).
  { unfold satisfiedCondition. destruct (Z.ltb_spec 0 conflicts); (eapply triple_weaken; [by apply condition_written|]); intros [b r] (cs & Hr & Hst & Ho);
      exists cs; (split_and!; [exact Hr| |exact Ho]); intros HH; first [lia|simpl in *; by rewrite Hst in HH]. }
  intros [c2 r2] (cs & Hr2 & Hsat & Ho2). cbn [fst snd] in Hr2, Hsat, Ho2. rewrite Hr2 in *. set (r2' := r1 <| rsc_Conditions := cs |>) in *.
  apply (triple_bind _ _ _ _ (λ r, r = pending)); [apply triple_lift; change (rsc_Volumes r2') with v; by rewrite Hp|]. intros ? ->.
  apply (triple_bind _ _ _ _ (λ r, r = stale)); [apply triple_lift; change (rsc_Volumes r2') with v; by rewrite Hs|]. intros ? ->.
  apply (triple_bind _ _ _ _ (λ y, ∃ cs, y.2 = r2' <| rsc_Conditions := cs |> ∧ (condStatus y.2 CondConfigurationRolledOutType = Some ConditionTrue → pending ≤ 0 ∧ stale ≤ 0) ∧
    ∀ ty', ty' ≠ CondConfigurationRolledOutType → condStatus y.2 ty' = condStatus r2' ty')).
  { unfold rolledOutCondition. destruct (Z.ltb_spec 0 pending); [|destruct (Z.ltb_spec 0 stale); [destruct (isConfigurationRolloutEnabled _)|]];
      (eapply triple_weaken; [by apply condition_written|]); intros [b r] (cs' & Hr & Hst & Ho); exists cs'; (split_and!; [exact Hr| |exact Ho]); intros HH; first [lia|simpl in *; by rewrite Hst in HH]. }
  intros [c3 r3] (cs3 & Hr3 & Hroll & Ho3). apply triple_ret. cbn [fst snd class_status.ok] in *. rewrite Hr3 in *. split_and!; try done.
  - rewrite Ho3, Ho2 by done. done.
  - rewrite Ho3, Ho2 by done. done.
  - intros H. exists conflicts. split; [done|]. apply Hsat. by rewrite <-Ho3.
  - intros H. exists pending, stale. destruct (Hroll H). done.
Qed.
Lemma compose_total rsc p s c b1 b2 b3 b4 b5 : counted rsc p s c → ∃ msg, composeRolloutMessage rsc b1 b2 b3 b4 b5 = Ok msg.
Proof. intros (Hp & Hs & Hc & [t Ht]). unfold composeRolloutMessage. rewrite Hp, Hs, Hc, Ht. destruct b1, b2, b3, b4; by eexists. Qed.
Lemma true_status rsc ty : IsStatusConditionPresentAndTrue rsc ty = true → condStatus rsc ty = Some ConditionTrue.
Proof.
  unfold IsStatusConditionPresentAndTrue, isStatusConditionPresentAndStatusEqual, condStatus. destruct (GetStatusCondition rsc ty); [|done].
  intros E%String.eqb_eq. simpl. by rewrite E.
Qed.
Lemma phase_spec rsc p s c : counted rsc p s c → ∃ phase msg, computePhaseAndMessage rsc = Ok (phase, msg) ∧
  (phase = ClassReady → rsc_DeletionTimestamp rsc = None ∧ condStatus rsc CondStoragePoolReadyType = Some ConditionTrue ∧
     condStatus rsc CondReadyType = Some ConditionTrue ∧ condStatus rsc CondConfigurationRolledOutType = Some ConditionTrue ∧
     condStatus rsc CondVolumesSatisfyEligibleNodesType = Some ConditionTrue).
Proof.
  intros Hc. unfold computePhaseAndMessage. destruct (rsc_DeletionTimestamp rsc); [by eexists _, _|].
  destruct (GetStatusCondition rsc CondStoragePoolReadyType) as [sp|] eqn:Esp; [|by eexists _, _].
  destruct (String.eqb_spec (c_Status sp) ConditionTrue) as [Es|]; [|by eexists _, _].
  destruct (GetStatusCondition rsc CondReadyType) as [rc|] eqn:Erc; [|by eexists _, _].
  destruct (String.eqb_spec (c_Status rc) ConditionTrue) as [Er|]; cbn [negb]; [|eexists _, _; split; [done|]; by destruct (String.eqb _ _)].
  destruct (IsStatusConditionPresentAndTrue rsc CondConfigurationRolledOutType) eqn:E1, (IsStatusConditionPresentAndTrue rsc CondVolumesSatisfyEligibleNodesType) eqn:E2; cbn [andb].
  { eexists _, _. split; [done|]. intros _. apply true_status in E1, E2. unfold condStatus at 1 2. rewrite Esp, Erc. simpl. by rewrite Es, Er. }
  all: unfold divergence; match goal with |- context [composeRolloutMessage ?r ?b1 ?b2 ?b3 ?b4 ?b5] =>
    destruct (compose_total r p s c b1 b2 b3 b4 b5 Hc) as [msg ->] end; eexists _, _; (split; [done|]);
    match goal with |- (if ?b then _ else _) = _ → _ => by destruct b end.
Qed.
Lemma conflicts_none rsc rvs : Z.of_nat (length rvs) < 2 ^ 31 →
  let v := computeActualVolumesSummary rsc rvs in
  (∃ c, vs_InConflictWithEligibleNodes v = Some c ∧ c ≤ 0) → ∀ rv, rv ∈ rvs → isPresentAndNotTrue (rw_satisfyEligibleNodes rv) = false.
Proof.
  intros Hl v (c & [= <-] & Hc). pose proof (countb_range (λ rv, isPresentAndNotTrue (rw_satisfyEligibleNodes rv)) rvs).
  rewrite wrapS32_small in Hc by lia. apply countb_zero. lia.
Qed.
Lemma all_aligned rsc rvs : Z.of_nat (length rvs) < 2 ^ 31 →
  let v := computeActualVolumesSummary rsc rvs in
  (∃ p s, vs_PendingObservation v = Some p ∧ vs_StaleConfiguration v = Some s ∧ p ≤ 0 ∧ s ≤ 0) →
  ∀ rv, rv ∈ rvs → isRVTrackedByRSCRollout rv = true → computeActualRVConfigurationCategory rsc rv = categoryAligned.
Proof.
  intros Hl v (p & s & [= <-] & [= <-] & Hp & Hs) rv Hin Ht.
  assert (H0 : ∀ c, wrapS32 (countIn rsc c rvs) ≤ 0 → computeActualRVConfigurationCategory rsc rv ≠ c).
  { intros c Hc E. unfold countIn in Hc. pose proof (countb_range (λ rv, isRVTrackedByRSCRollout rv && bool_decide (computeActualRVConfigurationCategory rsc rv = c)) rvs).
    rewrite wrapS32_small in Hc by lia. pose proof (countb_pos (λ rv, isRVTrackedByRSCRollout rv && bool_decide (computeActualRVConfigurationCategory rsc rv = c)) rvs rv Hin) as Hpos.
    simpl in Hpos. rewrite Ht, bool_decide_eq_true_2 in Hpos by done. specialize (Hpos eq_refl). lia. }
  apply H0 in Hp, Hs. by destruct (computeActualRVConfigurationCategory rsc rv).
Qed.

End phase.
Set Default Proof Using "Type".

Section phase_example.
#[local] Existing Instances K8s_concrete MetaApi_concrete LabelsApi_concrete MetaApi_concrete_laws.
Definition readyPool : ReplicatedStoragePool :=
  aPool <| rsp_EligibleNodes := [diskIn "n-1" "a"; diskIn "n-2" "b"; diskIn "n-3" "c"] |> <| rsp_EligibleNodesRevision := 1 |>
        <| rsp_Conditions := [verdict "Ready" ConditionTrue "Ready" ""] |>.
Definition aClass : ReplicatedStorageClass :=
  zeroRSC <| rsc_Name := "fast" |> <| rsc_Generation := 2 |> <| rsc_Spec_Topology := TopologyTransZonal |>
          <| rsc_Spec_FailuresToTolerate := Some 1 |> <| rsc_Spec_GuaranteedMinimumDataRedundancy := Some 1 |>.
Definition aPass := ensureAll (S := store_server zeroStore) aClass "pool" (Some readyPool) [] 0.
End phase_example.

(** ** What a pass writes *)
Section passes.
Context {K : K8s} {Meta : MetaApi} {L : LabelsApi} {S : Server}.
Implicit Types (rsc : ReplicatedStorageClass) (rsp base obj : ReplicatedStoragePool).

Record same_spec base obj : Prop := {
  ss_name : rsp_Name obj = rsp_Name base; ss_type : rsp_Spec_Type obj = rsp_Spec_Type base;
  ss_groups : rsp_Spec_LVMVolumeGroups obj = rsp_Spec_LVMVolumeGroups base; ss_zones : rsp_Spec_Zones obj = rsp_Spec_Zones base;
  ss_selector : rsp_Spec_NodeLabelSelector obj = rsp_Spec_NodeLabelSelector base;
  ss_networks : rsp_Spec_SystemNetworkNames obj = rsp_Spec_SystemNetworkNames base;
  ss_grace : rsp_Spec_NotReadyGracePeriod obj = rsp_Spec_NotReadyGracePeriod base;
  ss_nodes : rsp_EligibleNodes obj = rsp_EligibleNodes base;
}.
Definition holds {T} `{MetaObject T} (o : T) : bool := HasFinalizer o RSCControllerFinalizer.
Definition class_call (e : event) : Prop :=
  match ev_call e with
  | PatchRSC base obj => holds base = true → holds obj = false → is_Some (rsc_DeletionTimestamp base)
  | CreateRSP obj => holds obj = true
  | PatchRSP base obj => same_spec base obj ∧ rsp_UsedBy obj = rsp_UsedBy base ∧ (holds base = true → holds obj = false → rsp_UsedBy base = [])
  | PatchRSPStatus base obj => same_spec base obj ∧ rsp_Finalizers obj = rsp_Finalizers base ∧
      ∃ n, ∀ m, m ≠ n → m ∈ rsp_UsedBy obj ↔ m ∈ rsp_UsedBy base
  | DeleteRSP obj => rsp_UsedBy obj = []
  | PatchRSCStatus base obj => rsc_Finalizers obj = rsc_Finalizers base
  | CreateStorageClass _ | PatchStorageClass _ _ | DeleteStorageClass _ => True
  | GetRSC _ | GetRSP _ | GetStorageClass _ | ListRVsByRSC _ | ListRSPsByUsedBy _ | Now | MapOrder => True
  | _ => False
  end.
Lemma removed_elem (n m : string) l : m ≠ n → m ∈ removeFirst n l ↔ m ∈ l.
Proof. intros Hne. induction l as [|x l IH]; simpl; [done|]. destruct (String.eqb_spec x n); [subst; set_solver|set_solver]. Qed.
(** "A patch with a resource version applies to exactly that version": the answer to a patch of a pool has
    the users that were sent with it. *)
Hypothesis versioned : ∀ base obj rsp w, (serve (PatchRSP base obj) w).2 = Replied rsp → rsp_UsedBy rsp = rsp_UsedBy obj.

Lemma calls_deleteUnused rsp : rsp_UsedBy rsp = [] → calls class_call (deleteUnused rsp).
Proof using versioned.
  intros Hu. unfold deleteUnused. eapply (calls_triple_bind _ _ _ (λ y, y.2 = None → rsp_UsedBy y.1 = [])).
  - destruct (HasFinalizer rsp _) eqn:Eh; [|by apply triple_ret]. unfold patchRSP. set (obj := (applyRSPFinalizer rsp false).2).
    assert (Ho : same_spec rsp obj ∧ rsp_UsedBy obj = rsp_UsedBy rsp).
    { unfold obj, applyRSPFinalizer, RemoveFinalizer. destruct (slices_Contains _ _); by split. }
    intros w. unfold fmap, M_fmap, mbind, M_bind, do. pose proof (versioned rsp obj) as Hv. specialize (λ r, Hv r w).
    destruct (serve (PatchRSP rsp obj) w) as [w' r]. simpl in *. split.
    + apply Forall_singleton. split_and!; [apply Ho|apply Ho|done].
    + destruct r as [r| | |]; simpl; [|done..]. intros _. rewrite (Hv r eq_refl), (proj2 Ho). done.
  - intros [r [e|]] Hr; [apply calls_ret|]. specialize (Hr eq_refl). simpl in Hr. apply calls_bind; [|intros [e|]; apply calls_ret].
    unfold deleteRSP. destruct (rsp_DeletionTimestamp r); [apply calls_ret|]. apply calls_bind; [by apply calls_do|]. intros x.
    destruct (orNil x); [apply calls_ret|]. apply calls_bind; [by apply calls_do|]. intros ?. apply calls_ret.
Qed.
Lemma calls_release name pool : calls class_call (reconcileRSPRelease name pool).
Proof using versioned.
  unfold reconcileRSPRelease. apply calls_fmap. apply calls_bind; [unfold getRSP; apply calls_fmap; by apply calls_do|].
  intros [e|[rsp|]]; [apply calls_ret| |apply calls_ret]. apply calls_bind; [apply calls_lift|]. intros [|]; simpl; [|apply calls_ret].
  apply calls_bind.
  - unfold patchRSPStatus. apply calls_fmap, calls_do. cbn [class_call ev_call]. unfold class_call. simpl. unfold applyRSPRemoveUsedBy.
    destruct (slices_Contains _ _); simpl; (split; [by split|]; split; [done|]); exists name; intros m Hm; [by apply removed_elem|done].
  - intros [r [e|]]; [apply calls_ret|]. destruct (rsp_UsedBy r) eqn:Eu; [by apply calls_deleteUnused|apply calls_ret].
Qed.
Lemma calls_releaseAll name pools : calls class_call (releaseAll name pools).
Proof using versioned.
  induction pools as [|p pools IH]; simpl; [apply calls_ret|]. apply calls_bind; [apply calls_release|]. intros ?.
  apply calls_bind; [apply IH|]. intros ?. apply calls_ret.
Qed.

Lemma patched_class (base obj : ReplicatedStorageClass) : (holds base = true → holds obj = true) → calls class_call (patchRSC obj base).
Proof. intros H. unfold patchRSC. apply calls_fmap, calls_do. unfold class_call. cbn [ev_call]. intros H1 H2. specialize (H H1). congruence. Qed.
Lemma calls_patchThen (obj base : ReplicatedStorageClass) k : (holds base = true → holds obj = true) → (∀ r, calls class_call (k r)) →
  calls class_call (patchThen obj base k).
Proof. intros H Hk. unfold patchThen. apply calls_bind; [by apply patched_class|]. intros [r [e|]]; [apply calls_ret|apply Hk]. Qed.
Lemma calls_continue rsc : calls class_call (continue rsc).
Proof. apply calls_ret. Qed.
Lemma calls_status (obj base : ReplicatedStorageClass) : rsc_Finalizers obj = rsc_Finalizers base → calls class_call (patchRSCStatus obj base).
Proof. intros H. unfold patchRSCStatus. by apply calls_fmap, calls_do. Qed.
Lemma calls_endWithStatus (obj base : ReplicatedStorageClass) c : rsc_Finalizers obj = rsc_Finalizers base → calls class_call (endWithStatus obj base c).
Proof.
  intros H. unfold endWithStatus. destruct c; [|apply calls_ret]. apply calls_bind; [by apply calls_status|]. intros [? [?|]]; apply calls_ret.
Qed.
(** The ensure helpers keep the finalizers. *)
Lemma keeps_condition (base : ReplicatedStorageClass) rsc ty st r m : rsc_Finalizers rsc = rsc_Finalizers base →
  triple False class_call (applyCond rsc ty st r m) (λ y, rsc_Finalizers y.2 = rsc_Finalizers base).
Proof.
  intros H. unfold applyCond, SetStatusCondition. assert (Hs : ∀ now, rsc_Finalizers (SetStatusConditionAt now rsc (verdict ty st r m)).2 = rsc_Finalizers base).
  { intros now. unfold SetStatusConditionAt. by destruct (meta_SetStatusCondition _ _) as [[] cs]. }
  destruct (statusChanges _ _); [|by apply triple_ret]. apply triple_call; [done|]. intros now. by apply triple_ret.
Qed.
Lemma phase_finalizers rsc p m : rsc_Finalizers (applyPhase rsc p m).2 = rsc_Finalizers rsc.
Proof. unfold applyPhase. destruct (bool_decide _), (String.eqb _ _); done. Qed.
Lemma calls_poolMissing rsc : calls class_call (poolMissing rsc).
Proof.
  unfold poolMissing. eapply calls_triple_bind; [by apply (keeps_condition rsc)|]. intros [c1 r1] H1.
  eapply calls_triple_bind; [apply (keeps_condition rsc); exact H1|]. intros [c2 r2] H2. apply calls_bind; [apply calls_lift|]. intros [phase msg].
  pose proof (phase_finalizers r2 phase msg) as H3. destruct (applyPhase r2 phase msg) as [c3 r3]. simpl in *. apply calls_endWithStatus. congruence.
Qed.
Lemma calls_reportConflict rsc : calls class_call (reportConflict rsc).
Proof.
  unfold reportConflict. eapply calls_triple_bind; [by apply (keeps_condition rsc)|]. intros [c1 r1] H1.
  pose proof (phase_finalizers r1 ClassInvalidConfiguration conflictMessage) as H3. destruct (applyPhase r1 _ _) as [c3 r3].
  simpl in *. apply calls_endWithStatus. congruence.
Qed.
Lemma calls_migration rsc : calls class_call (reconcileMigrationFromRSP rsc).
Proof.
  unfold reconcileMigrationFromRSP. apply calls_fmap. apply calls_bind; [unfold getRSP; by apply calls_fmap, calls_do|].
  intros [e|[rsp|]]; [apply calls_ret| |apply calls_poolMissing]. destruct (rsc_Spec_Storage rsc).
  - apply calls_patchThen; [done|]. intros r. destruct (negb _); [apply calls_reportConflict|apply calls_continue].
  - apply calls_patchThen; [done|]. apply calls_continue.
Qed.
Lemma calls_storageMissing rsc : calls class_call (storageMissing rsc).
Proof.
  unfold storageMissing. eapply calls_triple_bind; [by apply (keeps_condition rsc)|]. intros [c1 r1] H1.
  apply calls_bind; [apply calls_lift|]. intros [phase msg]. pose proof (phase_finalizers r1 phase msg) as H3.
  destruct (applyPhase r1 phase msg) as [c3 r3]. apply calls_fmap, calls_endWithStatus. simpl in *. congruence.
Qed.
Lemma holds_added {T} `{MetaObject T} (o : T) : (∀ fs, GetFinalizers (SetFinalizers fs o) = fs) → holds (AddFinalizer o RSCControllerFinalizer).2 = true.
Proof.
  intros HS. unfold holds, HasFinalizer, AddFinalizer. destruct (slices_Contains (GetFinalizers o) RSCControllerFinalizer) eqn:E; [done|]. cbn [snd]. rewrite HS.
  unfold slices_Contains. apply bool_decide_eq_true. clear. set_solver.
Qed.
Lemma calls_metadata rsc : calls class_call (class_controller.reconcileMetadata rsc).
Proof.
  unfold class_controller.reconcileMetadata. apply calls_fmap. destruct (RemoveFinalizer rsc _) as [c1 r1].
  pose proof (holds_added r1 (λ _, eq_refl)) as H. destruct (AddFinalizer r1 _) as [c2 r2]. simpl in H.
  destruct (c1 || c2); [|apply calls_continue]. apply calls_patchThen; [done|]. apply calls_continue.
Qed.
Lemma calls_claim rsc rsp : calls class_call (claimRSP rsc rsp).
Proof.
  unfold claimRSP. apply calls_bind.
  - destruct (HasFinalizer rsp _) eqn:E; [apply calls_ret|]. unfold patchRSP. apply calls_fmap, calls_do. unfold class_call. cbn [ev_call].
    unfold applyRSPFinalizer, AddFinalizer. unfold holds. unfold HasFinalizer in E. rewrite E. split; [by split|]. split; [done|]. unfold HasFinalizer. intros H. congruence.
  - intros [r [e|]]; [apply calls_ret|]. destruct (slices_Contains (rsp_UsedBy r) (rsc_Name rsc)) eqn:E; [apply calls_ret|].
    apply calls_bind; [|intros [? [?|]]; apply calls_ret]. unfold patchRSPStatus. apply calls_fmap, calls_do. unfold class_call. cbn [ev_call].
    unfold applyRSPUsedBy. rewrite E. split; [by split|]. split; [done|]. exists (rsc_Name rsc). intros m Hm. simpl. rewrite sort_by_perm. clear versioned. set_solver.
Qed.
Lemma calls_rsp rsc target : calls class_call (reconcileRSP rsc target).
Proof.
  unfold reconcileRSP. apply calls_fmap. apply calls_bind; [unfold getRSP; by apply calls_fmap, calls_do|].
  intros [e|[rsp|]]; [apply calls_ret|apply calls_claim|]. apply calls_lift_bind. intros rsp Hrsp.
  apply calls_bind.
  - unfold createRSP. apply calls_do. unfold class_call. cbn [ev_call]. unfold newRSP in Hrsp. inv_ok. done.
  - intros [r|?|?|?]; [apply calls_claim|apply calls_ret..].
Qed.
Lemma calls_removeStorageClass sc : calls class_call (removeStorageClass sc).
Proof.
  unfold removeStorageClass. apply calls_bind.
  - destruct (HasFinalizer _ _); [unfold patchStorageClass; by apply calls_fmap, calls_do|apply calls_ret].
  - intros [r [e|]]; [apply calls_ret|]. unfold deleteStorageClass. destruct (sc_DeletionTimestamp r); [apply calls_ret|].
    apply calls_bind; [by apply calls_do|]. intros x. destruct (orNil x); [apply calls_ret|]. apply calls_bind; [by apply calls_do|]. intros ?. apply calls_ret.
Qed.
Lemma calls_createStorageClass sc : calls class_call (createStorageClass sc).
Proof. unfold createStorageClass. apply calls_bind; [by apply calls_do|]. intros ?. apply calls_ret. Qed.
Lemma calls_storageClass rsc : calls class_call (reconcileStorageClass rsc).
Proof.
  unfold reconcileStorageClass. apply calls_fmap. apply calls_bind; [unfold getStorageClass; by apply calls_fmap, calls_do|].
  intros [e|[sc|]]; [apply calls_ret| |by apply calls_fmap, calls_createStorageClass]. destruct (negb (isStorageClassSpecInSync _ _)).
  - apply calls_bind; [apply calls_removeStorageClass|]. intros [e|]; [apply calls_ret|]. by apply calls_fmap, calls_createStorageClass.
  - destruct (negb _); [|apply calls_ret]. apply calls_bind; [unfold patchStorageClass; by apply calls_fmap, calls_do|]. intros [? ?]. apply calls_ret.
Qed.
Lemma calls_unused rsc names : calls class_call (reconcileUnusedRSPs rsc names).
Proof using versioned.
  unfold reconcileUnusedRSPs. apply calls_fmap, calls_bind; [apply calls_lift|]. intros l. apply calls_bind; [apply calls_releaseAll|]. intros ?. apply calls_ret.
Qed.

(** The ensure helpers, whose result is patched against the object they started from. *)
Definition keeps (base : ReplicatedStorageClass) (m : M ensured) : Prop :=
  triple False class_call m (λ y, rsc_Finalizers y.1 = rsc_Finalizers base).
Lemma triple_lifted {A} (o : outcome A) : triple False class_call (lift o) (λ _, True).
Proof. apply triple_lift. destruct o; tauto. Qed.
Lemma keeps_applied (base : ReplicatedStorageClass) rsc ty st r m (f : bool → bool) : rsc_Finalizers rsc = rsc_Finalizers base →
  keeps base ('(c, rsc) ← applyCond rsc ty st r m; mret (class_status.ok rsc (f c))).
Proof. intros H. eapply triple_bind; [by apply keeps_condition|]. intros [c r'] Hr. by apply triple_ret. Qed.
Lemma keeps_storagePool (base : ReplicatedStorageClass) rsc target (rsp : option ReplicatedStoragePool) : rsc_Finalizers rsc = rsc_Finalizers base → keeps base (ensureStoragePool rsc target rsp).
Proof.
  intros H. unfold ensureStoragePool. assert (Ha : rsc_Finalizers (applyStoragePool rsc target).2 = rsc_Finalizers base).
  { unfold applyStoragePool. destruct (_ =? _); simpl; destruct (String.eqb _ _); done. }
  destruct (applyStoragePool rsc target) as [c1 r1]. eapply (triple_bind _ _ _ _ (λ y, rsc_Finalizers y.2 = rsc_Finalizers base)); [|intros [c r'] Hr; apply triple_ret; exact Hr].
  destruct rsp as [rsp|]; [|by apply keeps_condition]. unfold applyStoragePoolReadyCondFromRSP.
  destruct (GetStatusCondition rsp _); by apply keeps_condition.
Qed.
Lemma keeps_configuration (base : ReplicatedStorageClass) rsc (rsp : option ReplicatedStoragePool) : rsc_Finalizers rsc = rsc_Finalizers base → keeps base (ensureConfiguration rsc rsp).
Proof.
  intros H. unfold ensureConfiguration. destruct (negb (_ =? _)); [apply triple_lift; tauto|].
  destruct (negb (IsStatusConditionPresentAndTrue _ _)); [by apply (keeps_applied base rsc _ _ _ _ id)|].
  eapply (triple_bind _ _ _ _ (λ y, rsc_Finalizers y.2 = rsc_Finalizers base)).
  - unfold checkNodes. eapply (triple_bind _ _ _ _ (λ _, True)); [apply triple_lifted|]. intros p _. destruct (negb _ || _); [|by apply triple_ret].
    apply triple_call; [done|]. intros rank. eapply (triple_bind _ _ _ _ (λ _, True)); [apply triple_lifted|].
    intros [e|] _; apply triple_ret; [done|]. by destruct (_ =? _).
  - intros [[[e|] changed] r] Hr; simpl in Hr; [by apply (keeps_applied base r _ _ _ _ id)|]. unfold acceptConfiguration.
    destruct (isConfigurationInSync r); [by apply (keeps_applied base r _ _ _ _ (λ c, c || changed))|]. by apply (keeps_applied base _ _ _ _ _ (λ _, true)).
Qed.
Lemma keeps_volumes (base : ReplicatedStorageClass) rsc rvs : rsc_Finalizers rsc = rsc_Finalizers base → keeps base (ensureVolumeSummaryAndConditions rsc rvs).
Proof.
  intros H. unfold ensureVolumeSummaryAndConditions.
  assert (Ha : rsc_Finalizers (applyVolumesSummary rsc (computeActualVolumesSummary rsc rvs)).2 = rsc_Finalizers base)
    by (unfold applyVolumesSummary; by case_bool_decide).
  destruct (applyVolumesSummary rsc _) as [c1 r1]. simpl in Ha.
  eapply (triple_bind _ _ _ _ (λ _, True)); [apply triple_lifted|]. intros n _.
  eapply triple_bind; [unfold satisfiedCondition; destruct (0 <? n); by apply (keeps_condition base)|]. intros [c2 r2] H2. simpl in H2.
  do 2 (eapply (triple_bind _ _ _ _ (λ _, True)); [apply triple_lifted|]; intros ? _).
  eapply (triple_bind _ _ _ _ (λ y, rsc_Finalizers y.2 = rsc_Finalizers base)); [|intros [c3 r3] H3; apply triple_ret; exact H3].
  unfold rolledOutCondition. repeat case_match; by apply (keeps_condition base).
Qed.
Lemma keeps_phase (base : ReplicatedStorageClass) rsc : rsc_Finalizers rsc = rsc_Finalizers base → keeps base (ensurePhaseAndMessage rsc).
Proof.
  intros H. unfold ensurePhaseAndMessage. eapply (triple_bind _ _ _ _ (λ _, True)); [apply triple_lifted|].
  intros [phase msg] _. pose proof (phase_finalizers rsc phase msg) as H3. destruct (applyPhase rsc phase msg) as [c3 r3]. apply triple_ret. simpl in *. congruence.
Qed.
Lemma calls_reconcileStatus rsc rvs target (rsp : option ReplicatedStoragePool) used : calls class_call (reconcileStatus rsc rvs target rsp used).
Proof using versioned.
  unfold reconcileStatus. eapply (calls_triple_bind _ _ _ (λ y, rsc_Finalizers y.1 = rsc_Finalizers rsc)).
  - unfold ensureAll. eapply triple_bind; [by apply (keeps_storagePool rsc)|]. intros [r1 e1] H1. eapply triple_bind; [by apply (keeps_configuration rsc)|].
    intros [r2 e2] H2. eapply triple_bind; [by apply (keeps_volumes rsc)|]. intros [r3 e3] H3. eapply triple_bind; [by apply (keeps_phase rsc)|].
    intros [r4 e4] H4. by apply triple_ret.
  - intros [r eo] Hr. apply calls_bind; [destruct (eo_changed eo); [by apply calls_status|apply calls_ret]|].
    intros [r' [e|]]; [apply calls_ret|apply calls_unused].
Qed.
Lemma calls_andThen m k : calls class_call m → (∀ r, calls class_call (k r)) → calls class_call (andThen m k).
Proof. intros Hm Hk. unfold andThen. apply calls_bind; [done|]. intros [r o]. destruct (ShouldReturn o); [apply calls_ret|apply Hk]. Qed.
Lemma calls_reconcileClass rsc rvs used : calls class_call (reconcileClass rsc rvs used).
Proof using versioned.
  unfold reconcileClass. apply calls_andThen; [destruct (String.eqb _ _); [apply calls_continue|apply calls_migration]|]. intros r1.
  destruct (rsc_Spec_Storage r1); [|apply calls_storageMissing].
  apply calls_andThen; [destruct (needsDefaults r1); [unfold reconcileDefaults; apply calls_fmap, calls_patchThen; [done|apply calls_continue]|apply calls_continue]|]. intros r2.
  apply calls_andThen; [destruct (needsConfigurationFormatMigration r2); [|apply calls_continue]|].
  { unfold reconcileMigrationConfigurationFormat. apply calls_fmap, calls_bind; [by apply calls_status|]. intros [? ?]. apply calls_ret. }
  intros r3. apply calls_andThen; [apply calls_metadata|]. intros r4. apply calls_bind; [apply calls_lift|]. intros target.
  apply calls_bind; [apply calls_rsp|]. intros [rsp o]. destruct (ShouldReturn o); [apply calls_ret|].
  apply calls_bind; [apply calls_storageClass|]. intros o'. destruct (ShouldReturn o'); [apply calls_ret|apply calls_reconcileStatus].
Qed.
Lemma calls_deletion name (rsc : option ReplicatedStorageClass) used : (∀ c, rsc = Some c → is_Some (rsc_DeletionTimestamp c)) → calls class_call (class_controller.reconcileDeletion name rsc used).
Proof using versioned.
  intros Hd. unfold class_controller.reconcileDeletion. apply calls_fmap, calls_bind.
  - unfold cleanStorageClass. apply calls_bind; [unfold getStorageClass; by apply calls_fmap, calls_do|]. intros [e|[sc|]]; [apply calls_ret| |apply calls_ret].
    destruct (String.eqb _ _); [apply calls_removeStorageClass|apply calls_ret].
  - intros [e|]; [apply calls_ret|]. apply calls_bind; [apply calls_releaseAll|]. intros os. destruct (ShouldReturn _); [apply calls_ret|].
    unfold removeFinalizers. destruct rsc as [c|]; [|apply calls_ret]. destruct (RemoveFinalizer c _) as [c1 r1]. destruct (RemoveFinalizer r1 _) as [c2 r2].
    destruct (c1 || c2); [|apply calls_ret]. apply calls_bind; [|intros [? ?]; apply calls_ret].
    unfold patchRSC. apply calls_fmap, calls_do. unfold class_call. cbn [ev_call]. intros _ _. by apply Hd.
Qed.

(** C24: A pass over a storage class, from any name: the finalizer leaves the class only when it is being
    deleted; an existing pool keeps its specification and its listed nodes, whatever the class says now;
    the users of a pool change in at most one name per patch; the finalizer leaves a pool, and the pool is
    deleted, only when no class uses it; a pool is created with the finalizer. *)
Theorem class_pass_calls (name : string) : calls class_call (class_controller.Reconcile name).
Proof using versioned.
  unfold class_controller.Reconcile. apply calls_bind; [unfold getRSC; by apply calls_fmap, calls_do|]. intros rsc. apply calls_bind; [|intros ?; apply calls_ret].
  destruct rsc as [e|rsc]; [apply calls_ret|]. unfold reconcileRead. apply calls_bind.
  { unfold getSortedRVsByRSC. apply calls_bind; [by apply calls_do|]. intros ?. apply calls_ret. }
  intros [e|rvs]; [apply calls_ret|]. apply calls_bind.
  { unfold getUsedStoragePoolNames. apply calls_bind; [by apply calls_do|]. intros ?. apply calls_ret. }
  intros [e|used]; [apply calls_ret|]. destruct rsc as [c|]; [|by apply calls_deletion].
  destruct (rscShouldBeDeleted (Some c) rvs) eqn:Ed; [|apply calls_reconcileClass]. apply calls_deletion. intros ? [= <-].
  simpl in Ed. apply andb_true_iff in Ed as [Ed _]. by apply bool_decide_eq_true in Ed.
Qed.
End passes.

(** A class of the store that is new to the controller. *)
Section pass_example.
#[local] Existing Instances K8s_concrete MetaApi_concrete LabelsApi_concrete.
Definition newClass : ReplicatedStorageClass :=
  aClass <| rsc_Spec_Storage := Some {| cs_Type := PoolLVMThin; cs_LVMVolumeGroups := [] |} |>.
Definition classServer : Server := store_server (zeroStore <| st_rsc := Some newClass |>).
Lemma class_pass_calls_witness :
  calls (S := classServer) class_call (class_controller.Reconcile (S := classServer) "fast").
Proof. apply (class_pass_calls (S := classServer)). intros base obj rsp w. simpl. congruence. Defined.
End pass_example.

(** ** A storage class of another provisioner *)
Section foreign.
Context {K : K8s} {L : LabelsApi} (st : store).
#[local] Instance stored : Server := store_server st.

Lemma foreign_differs rsc sc : sc_Provisioner sc ≠ CSIProvisioner → isStorageClassSpecInSync (computeTargetStorageClass rsc (Some sc)) sc = false.
Proof.
  intros Hp. unfold isStorageClassSpecInSync. replace (sc_Provisioner (computeTargetStorageClass rsc (Some sc))) with CSIProvisioner.
  - apply String.eqb_neq in Hp. by rewrite Hp, andb_false_r.
  - unfold computeTargetStorageClass, AddFinalizer, SetLabel. repeat (case_match; simplify_eq/=); done.
Qed.
(** The storage class that bears the name of the class belongs to another driver: a pass over the class
    deletes it and creates its own in its place, though the deletion of the class would leave it alone. *)
Theorem foreign_storage_class_replaced (rsc : ReplicatedStorageClass) (sc : StorageClass) (w : World) :
  st_sc st = Some sc → sc_Provisioner sc ≠ CSIProvisioner → HasFinalizer sc StorageClassFinalizer = false → sc_DeletionTimestamp sc = None →
  (reconcileStorageClass rsc w).2.1 =
    [Event _ (GetStorageClass (rsc_Name rsc)); Event _ (DeleteStorageClass sc); Event _ Now;
     Event _ (CreateStorageClass (computeTargetStorageClass rsc (Some sc)))] ∧
  (cleanStorageClass (rsc_Name rsc) w).2.1 = [Event _ (GetStorageClass (rsc_Name rsc))].
Proof.
  intros Hst Hp Hf Hd. pose proof (foreign_differs rsc sc Hp) as Hs. split.
  - unfold reconcileStorageClass, getStorageClass, fmap, M_fmap, mbind, M_bind, do, mret, M_ret. simpl. rewrite Hst. simpl. rewrite Hs. simpl.
    unfold removeStorageClass, deleteStorageClass. rewrite Hf. unfold mbind, M_bind, mret, M_ret, do. simpl. rewrite Hd. done.
  - unfold cleanStorageClass, getStorageClass, fmap, M_fmap, mbind, M_bind, do, mret, M_ret. simpl. rewrite Hst. simpl.
    apply String.eqb_neq in Hp. by rewrite Hp.
Qed.
End foreign.

(** Another driver's storage class, of the same name. *)
Definition foreign : StorageClass :=
  {| sc_Name := "fast"; sc_DeletionTimestamp := None; sc_Finalizers := []; sc_Labels := None; sc_Annotations := None;
     sc_Provisioner := "other.csi.example.com"; sc_Parameters := None; sc_ReclaimPolicy := Some "Delete"; sc_AllowVolumeExpansion := None;
     sc_VolumeBindingMode := Some "Immediate" |}.
Section foreign_example.
#[local] Existing Instances K8s_concrete LabelsApi_concrete.
Lemma foreign_storage_class_replaced_witness :
  (cleanStorageClass (S := stored (zeroStore <| st_sc := Some foreign |>)) "fast" 0).2.1 = [Event _ (GetStorageClass "fast")].
Proof.
  pose proof (foreign_storage_class_replaced (zeroStore <| st_sc := Some foreign |>) (zeroRSC <| rsc_Name := "fast" |>) foreign 0) as H.
  exact (proj2 (H ltac:(reflexivity) ltac:(discriminate) ltac:(reflexivity) ltac:(reflexivity))).
Defined.
End foreign_example.
