(* ===== verification/RvrTheory.v ===== *)
(** * rvr_controller: peers, names and requests of a replica

    The peers written to the DRBD resource of a member, the names peers are reported under, the request a
    replica makes to the datamesh, and the eligibility of its storage. *)

From Stdlib Require Import ZArith Lia String Ascii Sorted.
From stdpp Require Import base gmap list numbers strings option.
From S2P Require Import Prelude IdSet DrbdSize Api Object Storage Flow Client.
From S2P Require Import Pipeline Context Layout Rollout Replicas RvaStatus RvrBase BackingVolume DrbdResource RvrStatus.
From S2P Require Import RvrConditions RvrController.
Import idset drbd_size v1alpha1 objutilv1 storage drbd flow client pipeline layout replicas rva_status rvr_base backing drbd_resource rvr_status.
Import rvr_conditions rvr_phase rvr_controller.

Set Default Proof Using "Type".

(** ** Peers *)
Section peers.
Context {K : K8s}.
Implicit Types (rv : ReplicatedVolume) (a b m self : DatameshMember) (p : DRBDResourcePeer).

(** Whether a member reaches every other one. *)
Definition linked a b : Prop := m_Name a ≠ m_Name b ∧ ConnectsToAllPeers (m_Type a) || ConnectsToAllPeers (m_Type b) = true.
Lemma linked_sym a b : linked a b ↔ linked b a.
Proof. unfold linked. rewrite orb_comm. naive_solver. Qed.
Lemma peerOf_spec rv self m : match peerOf rv self m with
  | Some p => linked self m ∧ dp_Name p = m_Name m ∧ dp_NodeID p = m_ID m ∧
              dp_AllowRemoteRead p = IsVoter (m_Type m) || bool_decide (m_Type m = MemberTypeTieBreaker) ∧
              dp_Paths p = buildDRBDRPeerPaths (m_Addresses m)
  | None => ¬ linked self m end.
Proof.
  unfold peerOf, linked. destruct (String.eqb_spec (m_Name m) (m_Name self)); [intros [? _]; congruence|].
  destruct (ConnectsToAllPeers (m_Type self)), (ConnectsToAllPeers (m_Type m)); simpl; naive_solver.
Qed.
Lemma elem_of_peers rv self p : self ∈ rv_Members rv →
  p ∈ computeTargetDRBDRPeers rv self ↔ ∃ m, m ∈ rv_Members rv ∧ peerOf rv self m = Some p.
Proof.
  intros Hself. unfold computeTargetDRBDRPeers. destruct (Z.leb_spec (Z.of_nat (length (rv_Members rv))) 1).
  - split; [set_solver|]. intros (m & Hm & Hp). destruct (rv_Members rv) as [|x [|y l]]; [set_solver| |simpl in *; lia].
    assert (m = self) as -> by set_solver. pose proof (peerOf_spec rv self self) as Hs. rewrite Hp in Hs.
    by destruct Hs as [[? _] _].
  - rewrite sort_by_perm, list_elem_of_omap. done.
Qed.
Lemma peer_names rv self : map dp_Name (omap (peerOf rv self) (rv_Members rv)) `sublist_of` map m_Name (rv_Members rv).
Proof.
  induction (rv_Members rv) as [|m l IH]; simpl; [constructor|]. pose proof (peerOf_spec rv self m) as Hm.
  destruct (peerOf rv self m) as [p|]; simpl; [destruct Hm as (_ & -> & _)|]; by constructor.
Qed.
Lemma peers_of_unique rv self m p : NoDup (map m_Name (rv_Members rv)) → m ∈ rv_Members rv → self ∈ rv_Members rv →
  p ∈ computeTargetDRBDRPeers rv self → dp_Name p = m_Name m → peerOf rv self m = Some p.
Proof.
  intros Hnd Hm Hself Hp Hn. apply (elem_of_peers rv self p Hself) in Hp as (m' & Hm' & Hp).
  pose proof (peerOf_spec rv self m') as Hs. rewrite Hp in Hs. destruct Hs as (_ & Hn' & _).
  enough (m' = m) as -> by done. apply list_elem_of_lookup in Hm as [i Hi]. apply list_elem_of_lookup in Hm' as [j Hj].
  assert (j = i) as -> by (eapply NoDup_lookup; [exact Hnd|by rewrite list_lookup_fmap, Hj|by rewrite list_lookup_fmap, Hi; simpl; congruence]).
  congruence.
Qed.
Lemma peers_name rv self m : NoDup (map m_Name (rv_Members rv)) → m ∈ rv_Members rv → self ∈ rv_Members rv →
  m_Name m ∈ map dp_Name (computeTargetDRBDRPeers rv self) ↔ linked self m.
Proof.
  intros Hnd Hm Hself. rewrite list_elem_of_fmap. pose proof (peerOf_spec rv self m) as Hs. split.
  - intros (p & Hn & Hp). rewrite (peers_of_unique rv self m p) in Hs by done. apply Hs.
  - intros Hl. destruct (peerOf rv self m) as [p|] eqn:E; [|done]. exists p. split; [symmetry; apply Hs|].
    apply elem_of_peers; [done|]. by exists m.
Qed.

End peers.

(** ** Names of peers *)
Section names.
Implicit Types (s : string).

Definition ids : list nat := seq 0 32.
Lemma parse_itoa : forallb (λ n, bool_decide (parseIDSuffix (itoa (Z.of_nat n)) = Some (Z.of_nat n))) ids = true.
Proof. vm_compute. reflexivity. Qed.
Definition allChars : list ascii := map ascii_of_nat (seq 0 256).
Lemma allChars_all c : c ∈ allChars.
Proof. unfold allChars. apply list_elem_of_fmap. exists (nat_of_ascii c). rewrite ascii_nat_embedding. split; [done|].
  apply elem_of_seq. pose proof (nat_ascii_bounded c). lia. Qed.
(** What a suffix of one or two bytes can be. *)
Definition canonical s : bool := match parseIDSuffix s with Some n => (0 <=? n) && (n <=? 31) && String.eqb s (itoa n) | None => true end.
Lemma canonical_1 : forallb (λ c, canonical (String.String c "")) allChars = true.
Proof. vm_compute. reflexivity. Qed.
Lemma canonical_2 : forallb (λ c, forallb (λ c', canonical (String.String c (String.String c' ""))) allChars) allChars = true.
Proof. vm_compute. reflexivity. Qed.
Lemma canonical_all s : canonical s = true.
Proof.
  pose proof canonical_1 as H1. pose proof canonical_2 as H2. rewrite forallb_forall in H1, H2.
  destruct s as [|c [|c' [|c'' s]]]; [done| | |done].
  - apply H1, list_elem_of_In, allChars_all.
  - specialize (H2 c (proj1 (list_elem_of_In _ _) (allChars_all c))). rewrite forallb_forall in H2. apply H2, list_elem_of_In, allChars_all.
Qed.

(** The suffix of a peer name is accepted exactly when it is the decimal numeral, without leading
    zeros, of a replica ID: parsing inverts printing, on all strings. *)
Theorem parseIDSuffix_roundtrip s n : parseIDSuffix s = Some n ↔ 0 ≤ n ≤ 31 ∧ s = itoa n.
Proof.
  split.
  - intros H. pose proof (canonical_all s) as Hc. unfold canonical in Hc. rewrite H in Hc.
    apply andb_true_iff in Hc as [[H0%Z.leb_le H31%Z.leb_le]%andb_true_iff ->%String.eqb_eq]. done.
  - intros [Hn ->]. pose proof parse_itoa as H. rewrite forallb_forall in H. specialize (H (Z.to_nat n)).
    rewrite Z2Nat.id in H by lia. eapply bool_decide_eq_true_1, H. apply in_seq. lia.
Qed.
End names.

(** ** The reported peers *)
Section reported.
Context {K : K8s}.
Implicit Types (rvr : ReplicatedVolumeReplica) (rv : option ReplicatedVolume).

Lemma writePeers_same prefix rv srcs old : let '(changed, ps) := writePeers prefix rv old srcs in
  (changed = false ∧ length old = length ps) ↔ old = ps.
Proof.
  revert old. induction srcs as [|src srcs IH]; intros old; simpl.
  - split; [intros [_ H]; by apply nil_length_inv in H|intros ->; done].
  - destruct (normalizePeerName prefix (dps_Name src)) as [name|]; [|apply IH].
    specialize (IH (tail old)). destruct (writePeers prefix rv (tail old) srcs) as [changed ps].
    rewrite orb_false_iff, negb_false_iff, bool_decide_eq_true. destruct old as [|o old]; simpl.
    + split; [intros [_ ?]; discriminate|done].
    + split.
      * intros [[-> Hc] Hl]. f_equal. apply IH. split; [done|]. by injection Hl.
      * intros [= -> ->]. destruct IH as [_ IH]. specialize (IH eq_refl) as [-> _]. done.
Qed.
Lemma writePeers_names prefix rv srcs old p : p ∈ (writePeers prefix rv old srcs).2 →
  ∃ n, 0 ≤ n ≤ 31 ∧ p_Name p = prefix +:+ itoa n.
Proof.
  revert old. induction srcs as [|src srcs IH]; intros old; simpl; [set_solver|].
  destruct (normalizePeerName prefix (dps_Name src)) as [name|] eqn:E; [|apply IH].
  specialize (IH (tail old)). destruct (writePeers prefix rv (tail old) srcs) as [changed ps].
  intros [->|Hp]%elem_of_cons; [|by apply IH]. simpl. unfold normalizePeerName in E.
  apply bind_Some in E as (suffix & _ & E). apply bind_Some in E as (n & Hn & [= <-]). exists n.
  pose proof (canonical_all suffix) as Hc. unfold canonical in Hc. rewrite Hn in Hc.
  apply andb_true_iff in Hc as [[?%Z.leb_le ?%Z.leb_le]%andb_true_iff ->%String.eqb_eq]. done.
Qed.

Lemma writePeers_list prefix rv srcs old old' : (writePeers prefix rv old srcs).2 = (writePeers prefix rv old' srcs).2.
Proof.
  revert old old'. induction srcs as [|x srcs IH]; intros old old'; simpl; [done|].
  destruct (normalizePeerName prefix (dps_Name x)); [|apply IH]. specialize (IH (tail old) (tail old')).
  destruct (writePeers prefix rv (tail old) srcs), (writePeers prefix rv (tail old') srcs). simpl in *. congruence.
Qed.
Lemma writePeers_again prefix rv srcs old ps : (writePeers prefix rv old srcs).2 = ps → writePeers prefix rv ps srcs = (false, ps).
Proof.
  intros H. rewrite (writePeers_list _ _ _ _ ps) in H. pose proof (writePeers_same prefix rv srcs ps) as Hs.
  destruct (writePeers prefix rv ps srcs) as [changed ps']. simpl in H. subst ps'. destruct Hs as [_ Hs]. by destruct Hs as [-> _].
Qed.
Lemma peers_written rvr d rv : ensureStatusPeers rvr (Some d) rv =
  let '(changed, ps) := writePeers (rvr_Spec_ReplicatedVolumeName rvr +:+ "-") rv (rvr_Peers rvr) (dr_Peers d) in
  ok (rvr <| rvr_Peers := ps |>) (changed || negb (bool_decide (length (rvr_Peers rvr) = length ps))).
Proof.
  unfold ensureStatusPeers. destruct (dr_Peers d) as [|src srcs]; [|done].
  simpl. destruct (rvr_Peers rvr) as [|p ps] eqn:E; simpl; rewrite ?E; [|done].
  unfold ok. simpl. by destruct rvr; simpl in *; subst.
Qed.

(** Mirroring the peers of the DRBD resource into the status reports a change exactly when the list of
    peers changes, so that an unchanged resource causes no status patch; every reported peer carries the
    name of a replica of the volume, with an ID of 0..31, and mirroring again reports no change. *)
Theorem peers_reported rvr d rv : let '(rvr', eo) := ensureStatusPeers rvr (Some d) rv in
  eo_err eo = None ∧ (eo_changed eo = false ↔ rvr_Peers rvr' = rvr_Peers rvr) ∧
  (∀ p, p ∈ rvr_Peers rvr' → ∃ n, 0 ≤ n ≤ 31 ∧ p_Name p = rvr_Spec_ReplicatedVolumeName rvr +:+ "-" +:+ itoa n) ∧
  eo_changed (ensureStatusPeers rvr' (Some d) rv).2 = false.
Proof.
  rewrite peers_written. set (pre := rvr_Spec_ReplicatedVolumeName rvr +:+ "-").
  pose proof (writePeers_same pre rv (dr_Peers d) (rvr_Peers rvr)) as Hs.
  pose proof (writePeers_names pre rv (dr_Peers d) (rvr_Peers rvr)) as Hn.
  pose proof (writePeers_again pre rv (dr_Peers d) (rvr_Peers rvr) _ eq_refl) as Ha.
  destruct (writePeers pre rv (rvr_Peers rvr) (dr_Peers d)) as [changed ps] eqn:E. simpl in Hn, Ha.
  cbn [ok fst snd]. refine (conj eq_refl (conj _ (conj _ _))).
  - simpl. rewrite orb_false_iff, negb_false_iff, bool_decide_eq_true. split; [intros H; symmetry; by apply Hs|].
    intros H. apply Hs. by symmetry.
  - intros p Hp. destruct (Hn p Hp) as (n & ? & ->). exists n. split; [done|]. unfold pre. by rewrite app_assoc_s.
  - rewrite peers_written. change (rvr_Spec_ReplicatedVolumeName (rvr <| rvr_Peers := ps |>)) with (rvr_Spec_ReplicatedVolumeName rvr).
    fold pre. change (rvr_Peers (rvr <| rvr_Peers := ps |>)) with ps. rewrite Ha. simpl. by rewrite bool_decide_eq_true_2.
Qed.
End reported.

(** ** Requests and eligibility *)
Section requests.
Context {K : K8s}.
Implicit Types (rvr : ReplicatedVolumeReplica) (rv : ReplicatedVolume) (view : option rspEligibilityView).

(** A replica that can be a member: not deleted, scheduled on an eligible node, with eligible storage when
    it is Diskful, in a volume with a configured datamesh. *)
Record requestable rvr (rv : option ReplicatedVolume) view : Prop := {
  rq_alive : rvr_DeletionTimestamp rvr = None;
  rq_volume : ∃ v cfg, rv = Some v ∧ rv_DatameshRevision v ≠ 0 ∧ rv_Configuration v = Some cfg;
  rq_node : rvr_Spec_NodeName rvr ≠ "";
  rq_eligible : ∃ v node, view = Some v ∧ ev_EligibleNode v = Some node;
  rq_storage : rvr_Spec_Type rvr = ReplicaTypeDiskful → rvr_Spec_LVMVolumeGroupName rvr ≠ "" ∧
    (isStorageEligible view (rvr_Spec_LVMVolumeGroupName rvr) (rvr_Spec_LVMVolumeGroupThinPoolName rvr)).1 = storageEligibilityOK;
}.
Definition joinOrMember rvr : decision :=
  if rvr_DatameshRevision rvr =? 0
  then (Some (requestAsSpec rvr OpJoin), ConfiguredReasonPendingJoin, "Waiting to join datamesh as " +:+ ReplicaType_String (rvr_Spec_Type rvr))
  else memberRequest rvr.
Lemma request_of_requestable rvr (rv : option ReplicatedVolume) view : requestable rvr rv view → computeTargetDatameshRequest rvr rv view = joinOrMember rvr.
Proof.
  intros [Ha (v & cfg & -> & Hrev & Hcfg) Hn (w & node & -> & Hw) Hst]. unfold computeTargetDatameshRequest, scheduledRequest.
  rewrite Ha, Hcfg, Hw. apply Z.eqb_neq in Hrev as ->. apply String.eqb_neq in Hn as ->.
  unfold storageRefused, isDiskful. destruct (decide (rvr_Spec_Type rvr = ReplicaTypeDiskful)) as [Hd|Hd].
  - rewrite bool_decide_eq_true_2 by done. destruct (Hst Hd) as [Hl Hok]. apply String.eqb_neq in Hl as ->. cbn [negb andb].
    destruct (isStorageEligible _ _ _) as [code msg]. simpl in Hok. by subst.
  - by rewrite bool_decide_eq_false_2 by done.
Qed.
Lemma request_needs rvr (rv : option ReplicatedVolume) view r : (computeTargetDatameshRequest rvr rv view).1.1 = Some r → mr_Operation r ≠ OpLeave → requestable rvr rv view.
Proof.
  unfold computeTargetDatameshRequest. destruct (rvr_DeletionTimestamp rvr) eqn:Ha.
  { destruct (negb _); simpl; [intros [= <-]; done|done]. }
  destruct rv as [v|]; [|done]. destruct (Z.eqb_spec (rv_DatameshRevision v) 0); [done|].
  destruct (rv_Configuration v) as [cfg|] eqn:Hcfg; [|done]. unfold scheduledRequest.
  destruct (String.eqb_spec (rvr_Spec_NodeName rvr) ""); [done|]. unfold storageRefused, isDiskful.
  destruct (decide (rvr_Spec_Type rvr = ReplicaTypeDiskful)) as [Hd|Hd].
  - rewrite bool_decide_eq_true_2 by done. cbn [negb andb]. destruct (String.eqb_spec (rvr_Spec_LVMVolumeGroupName rvr) ""); [done|].
    destruct view as [w|]; [|done]. destruct (ev_EligibleNode w) as [node|] eqn:Hw; [|done].
    destruct (isStorageEligible _ _ _) as [code msg] eqn:Es. destruct code; try done. intros _ _.
    split; try done; [by exists v, cfg|by exists w, node|]. intros _. by rewrite Es.
  - rewrite bool_decide_eq_false_2 by done. simpl. destruct view as [w|]; [|done].
    destruct (ev_EligibleNode w) as [node|] eqn:Hw; [|done]. intros _ _. split; try done; [by exists v, cfg|by exists w, node].
Qed.

Lemma requestAsSpec_op rvr op : mr_Operation (requestAsSpec rvr op) = op.
Proof. unfold requestAsSpec. by destruct (isDiskful rvr). Qed.
Lemma requestAsSpec_type rvr op : mr_Type (requestAsSpec rvr op) = rvr_Spec_Type rvr.
Proof. unfold requestAsSpec. by destruct (isDiskful rvr). Qed.
Lemma memberRequest_op rvr r : (memberRequest rvr).1.1 = Some r → mr_Operation r = OpChangeRole ∨ mr_Operation r = OpChangeBackingVolume.
Proof.
  unfold memberRequest. destruct (negb (typeInSync rvr)); simpl; [intros [= <-]; left; apply requestAsSpec_op|].
  destruct (isDiskful rvr && negb (bvInSync rvr)); simpl; [intros [= <-]; by right|done].
Qed.
Lemma alive_never_leaves rvr (rv : option ReplicatedVolume) view r : rvr_DeletionTimestamp rvr = None →
  (computeTargetDatameshRequest rvr rv view).1.1 = Some r → mr_Operation r ≠ OpLeave.
Proof.
  intros Ha. unfold computeTargetDatameshRequest. rewrite Ha. destruct rv as [v|]; [|done].
  destruct (rv_DatameshRevision v =? 0); [done|]. destruct (rv_Configuration v); [|done]. unfold scheduledRequest.
  destruct (String.eqb _ _); [done|]. destruct (isDiskful rvr && _); [done|]. destruct view as [w|]; [|done].
  destruct (ev_EligibleNode w); [|done]. destruct (storageRefused rvr (Some w)) as [[[ro reason] msg]|] eqn:E.
  - unfold storageRefused in E. destruct (negb (isDiskful rvr)); [done|].
    destruct (isStorageEligible _ _ _) as [[] m]; simplify_eq/=; done.
  - destruct (rvr_DatameshRevision rvr =? 0); [intros [= <-]; by rewrite requestAsSpec_op|].
    intros H Hl. destruct (memberRequest_op _ _ H); congruence.
Qed.


(** A member that is to change between Access and TieBreaker never asks for it: when everything else
    is in order the replica reports that it is configured as intended, with no request, whatever role the
    datamesh gives it, because both roles are seen as diskless.  A replica of type ShadowDiskful, on the
    other hand, asks for a change of role forever, even when it has it. *)
Theorem role_change_unseen rvr v view (Hq : requestable rvr (Some v) view) (Hm : rvr_DatameshRevision rvr ≠ 0) :
  (rvr_Spec_Type rvr = ReplicaTypeAccess ∨ rvr_Spec_Type rvr = ReplicaTypeTieBreaker → rvr_Status_Type rvr = DRBDDiskless →
     computeTargetDatameshRequest rvr (Some v) view = (None, ConfiguredReasonConfigured, "Replica is configured as intended")) ∧
  (rvr_Spec_Type rvr = ReplicaTypeShadowDiskful →
     (computeTargetDatameshRequest rvr (Some v) view).1.1 = Some (requestAsSpec rvr OpChangeRole)).
Proof.
  rewrite (request_of_requestable _ _ _ Hq). unfold joinOrMember, memberRequest, typeInSync, isDiskful.
  apply Z.eqb_neq in Hm as ->. split; [intros [-> | ->] ->; reflexivity|]. intros ->. done.
Qed.

(** A replica on a second thin pool of a volume group is never admitted.  When the pool's view of the
    node lists the volume group with two thin pools and the replica uses the one listed later, its
    condition SatisfyEligibleNodes says that its storage is eligible, but a diskful replica that waits to
    join or to be changed is refused its request with StorageNotEligible. *)
Theorem second_thin_pool_refused rvr v view w node g1 g2 (cfg : Configuration)
    (Hd : rvr_Spec_Type rvr = ReplicaTypeDiskful ∧ rvr_DeletionTimestamp rvr = None ∧ rvr_Spec_NodeName rvr ≠ "")
    (Hl : rvr_Spec_LVMVolumeGroupName rvr ≠ "" ∧ rvr_Spec_LVMVolumeGroupThinPoolName rvr ≠ "")
    (Hv : rv_DatameshRevision v ≠ 0 ∧ rv_Configuration v = Some cfg)
    (Hw : view = Some w ∧ ev_Type w = PoolLVMThin ∧ ev_EligibleNode w = Some node)
    (H1 : findLVGInEligibleNodeByName node (rvr_Spec_LVMVolumeGroupName rvr) = Some g1 ∧
          lvg_ThinPoolName g1 ≠ rvr_Spec_LVMVolumeGroupThinPoolName rvr)
    (H2 : findLVGInEligibleNode node (rvr_Spec_LVMVolumeGroupName rvr) (rvr_Spec_LVMVolumeGroupThinPoolName rvr) = Some g2) :
  satisfyEligibleNodesVerdict rvr (Some v) view = satisfied node (Some g2) ∧
  (computeTargetDatameshRequest rvr (Some v) view).1 = (None, ConfiguredReasonStorageNotEligible).
Proof.
  destruct Hd as (Hd & Ha & Hn), Hl as [Hl Ht], Hv as [Hrev Hcfg], Hw as (-> & Hty & Hen), H1 as [H1 Hne].
  apply Z.eqb_neq in Hrev. apply String.eqb_neq in Hn, Hl, Ht, Hne. split.
  - unfold satisfyEligibleNodesVerdict, storageVerdict, isDiskful. rewrite Hn, Hcfg, Hen, Hd, Hl, H1, H2. done.
  - unfold computeTargetDatameshRequest, scheduledRequest, storageRefused, isDiskful, isStorageEligible.
    rewrite Ha, Hrev, Hcfg, Hn, Hd, Hl, Hen, Hty. unfold typeMismatch. rewrite Ht.
    unfold findLVGInEligibleNodeByName in H1. rewrite H1, Hne. done.
Qed.
End requests.

(** ** The phase *)
Section phase.
Context {K : K8s}.
Implicit Types (rvr : ReplicatedVolumeReplica).

(** A replica whose health as a member decides the phase. *)
Definition agentMissing rvr : bool := hasReason (GetStatusCondition rvr CondDRBDConfiguredType) ReasonAgentNotReady.
Definition membersPhase rvr : Prop :=
  rvrShouldNotExist rvr = false ∧ agentMissing rvr = false ∧ 0 < rvr_DatameshRevision rvr.
#[export] Instance membersPhase_dec rvr : Decision (membersPhase rvr).
Proof. unfold membersPhase. apply _. Defined.
Lemma phase_of_member rvr : membersPhase rvr → (computeRVRPhaseAndMessage rvr).1 =
  (computeMemberPhaseAndMessage rvr (GetStatusCondition rvr CondReadyType) (GetStatusCondition rvr CondBackingVolumeUpToDateType)
     (GetStatusCondition rvr CondBackingVolumeReadyType) (GetStatusCondition rvr CondDRBDConfiguredType)).1.
Proof.
  intros (Hs & Ha & Hr). unfold computeRVRPhaseAndMessage, computeNormalPhaseAndMessage. unfold agentMissing in Ha.
  rewrite Hs, Ha, (proj2 (Z.eqb_neq _ _)), andb_false_r, (proj2 (Z.ltb_lt _ _)) by lia.
  by destruct (computeMemberPhaseAndMessage _ _ _ _ _).
Qed.
Lemma phase_of_others rvr : ¬ membersPhase rvr →
  (computeRVRPhaseAndMessage rvr).1 ∈ [ReplicaPhaseTerminating; ReplicaPhaseAgentNotReady; ReplicaPhasePending;
    ReplicaPhaseProvisioning; ReplicaPhaseConfiguring; ReplicaPhaseWaitingForDatamesh].
Proof.
  unfold membersPhase, agentMissing, computeRVRPhaseAndMessage, computeNormalPhaseAndMessage, preMemberPhaseAndMessage. intros Hn.
  destruct (rvrShouldNotExist rvr); [set_solver|]. destruct (hasReason _ ReasonAgentNotReady); [set_solver|].
  destruct (_ && (_ =? 0)); [set_solver|]. destruct (Z.ltb_spec 0 (rvr_DatameshRevision rvr)); [naive_solver|].
  destruct (_ || isNotTrue _); [set_solver|]. destruct (isFalse _ && _); [set_solver|].
  destruct (configuring _); [set_solver|]. destruct (isFalse _ && _); set_solver.
Qed.

Lemma severity_none ps : foldl (λ m p, maxSeverity m p.1) severityNone ps = severityNone ↔
  Forall (λ p : memberProblemSeverity * string, p.1 = severityNone) ps.
Proof.
  assert (Hn : ∀ m m', maxSeverity m m' = severityNone ↔ m = severityNone ∧ m' = severityNone) by (intros [] []; cbn; naive_solver).
  assert (H : ∀ m, foldl (λ m p, maxSeverity m p.1) m ps = severityNone ↔ m = severityNone ∧ Forall (λ p : memberProblemSeverity * string, p.1 = severityNone) ps).
  { induction ps as [|p ps IH]; intros m; simpl; [by intuition|]. rewrite IH, Hn, list.Forall_cons. tauto. }
  rewrite H. tauto.
Qed.
Definition synchronizing rvr : bool :=
  let c := GetStatusCondition rvr CondBackingVolumeUpToDateType in isFalse c && hasReason c BackingVolumeUpToDateReasonSynchronizing.
Lemma true_not_missing c : isTrue c = true → quorumMissing c = false.
Proof. destruct c as [c|]; [|done]. unfold quorumMissing, isFalse. simpl. by intros ->%String.eqb_eq. Qed.

(** What the phase of a replica tells.  It is Critical exactly for a member whose I/O is suspended or
    that lost a quorum it is known to have had: a member that waits for its first quorum is never Critical.
    It is Healthy exactly for a member that is Ready, neither suspended nor synchronizing, with no problem
    other than its placement and nothing in progress. *)
Theorem phase_tells rvr : let ready := GetStatusCondition rvr CondReadyType in
  let bvReady := GetStatusCondition rvr CondBackingVolumeReadyType in
  let drbdConfigured := GetStatusCondition rvr CondDRBDConfiguredType in
  ((computeRVRPhaseAndMessage rvr).1 = ReplicaPhaseCritical ↔
     membersPhase rvr ∧ (if quorumMissing ready then memberEverHadQuorum rvr else ioSuspended rvr) = true) ∧
  ((computeRVRPhaseAndMessage rvr).1 = ReplicaPhaseHealthy ↔
     membersPhase rvr ∧ isTrue ready = true ∧ ioSuspended rvr = false ∧ synchronizing rvr = false ∧
     Forall (λ p, p.1 = severityNone) (memberProblems rvr bvReady drbdConfigured) ∧
     computeMemberProgress bvReady drbdConfigured = "").
Proof.
  intros ready bvReady drbdConfigured.
  destruct (decide (membersPhase rvr)) as [Hm|Hm].
  2: { pose proof (phase_of_others rvr Hm) as Hp. split; (split; [intros E; rewrite E in Hp; set_solver|naive_solver]). }
  rewrite (phase_of_member rvr Hm). fold ready bvReady drbdConfigured.
  unfold computeMemberPhaseAndMessage, memberHealth, computeMemberProblemsAndSeverity, synchronizing.
  rewrite <- severity_none.
  set (bvu := GetStatusCondition rvr CondBackingVolumeUpToDateType). pose proof (true_not_missing ready) as Htrue.
  destruct (quorumMissing ready); [destruct (memberEverHadQuorum rvr); simpl; naive_solver|].
  destruct (ioSuspended rvr); [naive_solver|]. destruct (isFalse bvu && _); [naive_solver|].
  destruct (isTrue ready); [|destruct (negb _); naive_solver].
  destruct (foldl _ _ _); [|naive_solver..]. destruct (String.eqb_spec (computeMemberProgress bvReady drbdConfigured) ""); naive_solver.
Qed.
End phase.
