(* ===== verification/RvrSafety.v ===== *)
(** * rvr_controller: what a pass over a replica can do

    Panics of a pass, the revision a replica reports, and the calls that take away logical volumes and
    the replica's own finalizer. *)

From Stdlib Require Import ZArith Lia String.
From stdpp Require Import base gmap list numbers strings option.
From S2P Require Import Prelude Flow IdSet DrbdSize Api Object Storage Client Pipeline Context Layout.
From S2P Require Import Rollout Replicas RvaStatus RvrBase BackingVolume DrbdResource RvrStatus.
From S2P Require Import RvrConditions RvrController.
Import idset drbd_size v1alpha1 objutilv1 storage drbd flow client pipeline layout replicas rva_status rvr_base backing drbd_resource rvr_status.
Import rvr_conditions rvr_phase rvr_controller.

Set Default Proof Using "Type".

(** ** What the methods leave alone in the replica *)
Section kept.
Context {K : K8s} {Meta : MetaApi} {S : Server}.
Implicit Types (rvr : ReplicatedVolumeReplica).

Definition kept (base rvr : ReplicatedVolumeReplica) : Prop :=
  rvr_Name rvr = rvr_Name base ∧ rvr_DeletionTimestamp rvr = rvr_DeletionTimestamp base ∧
  rvr_Finalizers rvr = rvr_Finalizers base ∧ rvr_Spec_NodeName rvr = rvr_Spec_NodeName base.
#[export] Instance kept_refl : Reflexive kept.
Proof. by intros ?. Qed.
#[export] Instance kept_trans : Transitive kept.
Proof. unfold kept. intros ???. intuition congruence. Qed.
Lemma kept_conditions cs rvr : kept rvr (SetStatusConditions cs rvr).
Proof. done. Qed.
Lemma kept_remove rvr ty : kept rvr (RemoveStatusCondition rvr ty).2.
Proof. unfold RemoveStatusCondition. by repeat case_match. Qed.
Lemma kept_exists base rvr : kept base rvr → rvrShouldNotExist rvr = rvrShouldNotExist base.
Proof.
  intros (_ & Hd & Hf & _). unfold rvrShouldNotExist, HasFinalizersOtherThan.
  change (GetFinalizers rvr) with (rvr_Finalizers rvr). change (GetFinalizers base) with (rvr_Finalizers base). by rewrite Hd, Hf.
Qed.

(** Programs that end without a panic, with a result that satisfies [Q]. *)
Notation ends := (triple True (λ _, True)).
Lemma ends_bind {A B} (m : M A) (f : A → M B) (Q : A → Prop) (R : B → Prop) :
  ends m Q → (∀ a, Q a → ends (f a) R) → ends (m ≫= f) R.
Proof. apply triple_bind. Qed.
Lemma ends_then {A B} (m : M A) (f : A → M B) (R : B → Prop) : ends m (λ _, True) → (∀ a, ends (f a) R) → ends (m ≫= f) R.
Proof. intros Hm Hf. apply (ends_bind _ _ (λ _, True)); auto. Qed.
Lemma ends_condition {B} rvr cond (f : bool * ReplicatedVolumeReplica → M B) (R : B → Prop) :
  (∀ b cs, ends (f (b, SetStatusConditions cs rvr)) R) → ends (SetStatusCondition rvr cond ≫= f) R.
Proof.
  intros H. apply triple_condition; [done| |done]. intros b. specialize (H b (GetStatusConditions rvr)).
  by destruct rvr.
Qed.
Lemma ends_any {A} (ok : Prop) (m : M A) (Q : A → Prop) : ends m Q → triple ok (λ _, True) m Q.
Proof. intros H w. destruct (H w) as [He Hr]. split; [done|]. destruct (m w).2.2; tauto. Qed.
Lemma any_then {A B} (ok : Prop) (m : M A) (f : A → M B) (R : B → Prop) : ends m (λ _, True) →
  (∀ a, triple ok (λ _, True) (f a) R) → triple ok (λ _, True) (m ≫= f) R.
Proof. intros Hm Hf. apply (triple_bind _ _ _ _ (λ _, True)); [by apply ends_any|auto]. Qed.
Lemma ends_true {A} (m : M A) : ends m (λ _, True) → ∀ w, ∃ a, (m w).2.2 = Ok a.
Proof. intros H w. destruct (H w) as [_ Ha]. destruct (m w).2.2 as [a|s|]; [by exists a|tauto..]. Qed.
Lemma ends_Ok {A} (m : M A) (Q : A → Prop) : (∀ w, match (m w).2.2 with Ok a => Q a | _ => False end) → ends m Q.
Proof. intros H w. specialize (H w). split; [by apply Forall_true|]. destruct (m w).2.2; tauto. Qed.
End kept.
#[export] Hint Resolve kept_refl kept_conditions : programs.
Notation ends := (triple True (λ _, True)).
(** The structure of a program that cannot panic. *)
Ltac step_ends :=
  match goal with
  | |- triple _ _ (SetStatusCondition _ _ ≫= _) _ => apply ends_condition; intros ? ?
  | |- triple _ _ _ _ => step_program
  | |- ∀ _, _ => intros ?
  | |- _ => first [exact I | done]
  end.
Ltac ends := repeat step_ends.

(** ** No panic *)
Section panics.
Context {K : K8s} {Laws : K8sLaws} {Meta : MetaApi} {S : Server}.
Implicit Types (rvr base : ReplicatedVolumeReplica) (rv : option ReplicatedVolume) (llv : LVMLogicalVolume) (llvs : list LVMLogicalVolume)
  (drbdr : option DRBDResource) (view : option rspEligibilityView) (t : option backingVolume) (i : backingVolume).

(** Whether the method that configures DRBD may find the replica a member that is through with its backing
    volume: then the target is the intended volume. *)
Definition settled base rv t (i : option backingVolume) : Prop := backingVolumePending t i = None → is_Some t → bv_Equal t i = true ∨
  (∀ v, rv = Some v → rv_DatameshRevision v = 0 ∨ FindMemberByName v (rvr_Name base) = None).
Definition bvOk base rv (y : bvReturn) : Prop :=
  (∃ r, br_rvr y.1 = Some r ∧ kept base r) ∧ settled base rv (br_target y.1) (br_intended y.1).
Lemma settled_none base rv (i : option backingVolume) : settled base rv None i.
Proof. by intros ? [??]. Qed.
Lemma leave_ok base rv rvr llvs t (i : option backingVolume) ro : kept base rvr → settled base rv t i → bvOk base rv (leave rvr llvs t i ro).
Proof. intros. split; [by exists rvr|done]. Qed.
Lemma report_ok base rv rvr llvs t (i : option backingVolume) ro status reason message : kept base rvr → settled base rv t i →
  ends (report rvr llvs t i ro status reason message) (bvOk base rv).
Proof. intros. unfold report. ends. by apply leave_ok. Qed.
Lemma releaseLLV_ends llv : ends (releaseLLV llv) (λ _, True).
Proof. unfold releaseLLV, patchLLV. ends. Qed.
Lemma deleteLLV_ends llv : ends (deleteLLV llv) (λ _, True).
Proof. unfold deleteLLV. ends. Qed.
Lemma dropLLV_ends llv : ends (dropLLV llv) (λ _, True).
Proof.
  unfold dropLLV. apply ends_then; [apply releaseLLV_ends|]. intros [l [e|]]; [ends|].
  apply ends_then; [apply deleteLLV_ends|]. intros [? ?]. ends.
Qed.
Lemma dropFromLast_ends keep llvs : ends (dropFromLast keep llvs) (λ _, True).
Proof.
  induction llvs as [|llv llvs IH]; simpl; [ends|]. apply ends_then; [exact IH|]. intros [rest [r|]]; [ends|].
  case_match; [ends|]. apply ends_then; [apply dropLLV_ends|]. intros [? [?|]]; ends.
Qed.
Lemma deletion_ends keep llvs : ends (reconcileLLVsDeletion llvs keep) (λ _, True).
Proof. unfold reconcileLLVsDeletion. apply ends_then; [apply dropFromLast_ends|]. intros [? ?]. ends. Qed.
Lemma SetControllerRef_ends refs owner : ends (SetControllerRef refs owner) (λ _, True).
Proof. unfold SetControllerRef. ends. Qed.
Lemma withoutBackingVolume_ok base rv rvr llvs reason message : kept base rvr →
  ends (withoutBackingVolume rvr llvs reason message) (bvOk base rv).
Proof.
  intros Hk. unfold withoutBackingVolume. destruct llvs as [|l llvs].
  - destruct (String.eqb _ _); [|apply report_ok; [done|apply settled_none]].
    pose proof (kept_remove rvr CondBackingVolumeReadyType) as Hr. unfold applyBackingVolumeReadyCondAbsent.
    destruct (RemoveStatusCondition rvr _) as [changed r]. apply triple_ret, leave_ok; [by etrans|apply settled_none].
  - apply ends_then; [apply deletion_ends|]. intros [[? ?] ro]. destruct (ShouldReturn ro).
    + apply triple_ret, leave_ok; [done|apply settled_none].
    + apply report_ok; [done|apply settled_none].
Qed.

(** *** With an intended volume *)
Definition intendedOf base rv drbdr llvs view (v : ReplicatedVolume) i : Prop :=
  rv = Some v ∧ computeIntendedBackingVolume base v (computeActualBackingVolume drbdr llvs) view = Ok (inr i).
Lemma intended_named rvr (v : ReplicatedVolume) (actual : option backingVolume) view i a : computeIntendedBackingVolume rvr v actual view = Ok (inr i) → actual = Some a →
  b_LVMVolumeGroupName a = b_LVMVolumeGroupName i → b_ThinPoolName a = b_ThinPoolName i → bv_LLVName a = bv_LLVName i.
Proof.
  unfold computeIntendedBackingVolume. intros H -> Hl Ht. destruct (intendedStorage rvr v view) as [?|[lvg thin]]; [done|].
  destruct (intendedSize v); simplify_eq/=. by rewrite !String.eqb_refl.
Qed.
Lemma pending_none a i : backingVolumePending (Some a) (Some i) = None →
  b_LVMVolumeGroupName a = b_LVMVolumeGroupName i ∧ b_ThinPoolName a = b_ThinPoolName i ∧ ¬ q_Cmp (b_Size a) (b_Size i) < 0.
Proof.
  simpl. destruct (String.eqb_spec (b_LVMVolumeGroupName a) (b_LVMVolumeGroupName i)); [|done].
  destruct (String.eqb_spec (b_ThinPoolName a) (b_ThinPoolName i)); [|done]. simpl. case_match; [done|]. intros _. repeat split; [done..|]. lia.
Qed.
(** The volume in use is settled when it is not larger than intended. *)
Lemma settled_actual base rv drbdr llvs view v i : intendedOf base rv drbdr llvs view v i →
  (∀ a, computeActualBackingVolume drbdr llvs = Some a → bv_LLVName a = bv_LLVName i → q_Cmp (b_Size a) (b_Size i) ≤ 0) →
  settled base rv (computeActualBackingVolume drbdr llvs) (Some i).
Proof.
  intros [_ Hi] Hs. destruct (computeActualBackingVolume drbdr llvs) as [a|] eqn:Ha; [|apply settled_none].
  intros Hp _. left. apply pending_none in Hp as (Hl & Ht & Hc). pose proof (intended_named _ _ _ _ _ _ Hi eq_refl Hl Ht) as Hn.
  specialize (Hs a eq_refl Hn). simpl. rewrite Hl, Ht, Hn, !String.eqb_refl. simpl. apply Z.eqb_eq. lia.
Qed.
Lemma settled_outside base rv v t (i : option backingVolume) : rv = Some v → FindMemberByName v (rvr_Name base) = None → settled base rv t i.
Proof. intros -> Hm _ _. right. intros ? [= <-]. by right. Qed.

Lemma newLLV_ends rvr rv i : ends (newLLV rvr rv i) (λ _, True).
Proof. unfold newLLV. apply ends_then; [apply SetControllerRef_ends|]. ends. Qed.
Lemma provision_ok base rv rvr v llvs actual i : kept base rvr → settled base rv actual (Some i) →
  ends (provision rvr v llvs actual i) (bvOk base rv).
Proof.
  intros Hk Hs. unfold provision. apply ends_then; [apply newLLV_ends|]. intros [e|llv].
  { apply triple_ret, leave_ok; [done|apply settled_none]. }
  unfold createLLV. apply triple_call; [done|]. intros [e causes|[r|e|e|e]].
  2: { destruct (match actual with Some _ => _ | None => _ end). by apply report_ok. }
  2-4: apply triple_ret, leave_ok; [done|apply settled_none].
  apply (triple_bind _ _ _ _ (λ _, True)); [by apply triple_lift|]. intros ro _. by apply report_ok.
Qed.
Lemma waitForOld_ok base rv rvr v before llv after actual i : kept base rvr → rv = Some v → FindMemberByName v (rvr_Name base) = None →
  ends (waitForOld rvr before llv after actual i) (bvOk base rv).
Proof.
  intros Hk Hv Hm. unfold waitForOld. apply ends_then; [apply releaseLLV_ends|]. intros [l [e|]].
  - apply triple_ret, leave_ok; [done|apply settled_none].
  - apply report_ok; [done|by eapply settled_outside].
Qed.
Lemma resize_ok base rv rvr before llv after size actual i : kept base rvr → settled base rv actual (Some i) →
  ends (resize rvr before llv after size actual i) (bvOk base rv).
Proof.
  intros Hk Hs. unfold resize. destruct (String.eqb _ _); [by apply report_ok|]. unfold patchLLV. apply triple_call; [done|].
  intros [e causes|r].
  - apply (triple_bind _ _ _ _ (λ _, True)); [by apply triple_lift|]. intros ro _. by apply report_ok.
  - destruct (stored _ r) as [l [e|]]; [|by apply report_ok]. apply triple_ret, leave_ok; [done|apply settled_none].
Qed.
Lemma fullyReady_ok base rv rvr llvs i : kept base rvr → q_Cmp (b_Size i) (b_Size i) = 0 →
  ends (fullyReady rvr llvs i) (bvOk base rv).
Proof.
  intros Hk Hi. unfold fullyReady. apply ends_then; [apply deletion_ends|]. intros [[? ?] ro]. destruct (ShouldReturn ro).
  - apply triple_ret, leave_ok; [done|apply settled_none].
  - apply report_ok; [done|]. intros _ _. left. simpl. by rewrite !String.eqb_refl, Hi.
Qed.
Lemma splitLLV_spec name llvs before llv after : splitLLV name llvs = Some (before, llv, after) →
  findLLVByName llvs name = Some llv ∧ llvs = before ++ llv :: after.
Proof.
  revert before. induction llvs as [|l llvs IH]; intros before; simpl; [done|].
  destruct (String.eqb (llv_Name l) name); [by intros [= <- <- <-]|].
  destruct (splitLLV name llvs) as [[[b l'] a]|]; simpl; [|done]. intros [= <- <- <-]. destruct (IH b eq_refl) as [? ->]. done.
Qed.
Lemma ensureLLVMetadata_ends rvr v llv :
  ends (ensureLLVMetadata rvr v llv) (λ y, isLLVMetadataInSync rvr (Some v) llv = true → y = (llv, None)).
Proof.
  unfold ensureLLVMetadata. destruct (isLLVMetadataInSync rvr (Some v) llv); [by apply triple_ret|].
  apply (triple_weaken _ _ _ (λ _, True)); [|done]. unfold applyLLVMetadata.
  destruct (AddFinalizer _ _), (withValue _ _ _), (withClassLabel _ _). apply ends_then.
  - apply ends_then; [apply SetControllerRef_ends|]. intros. by apply triple_ret.
  - intros [[? ?] [?|]]; [by apply triple_ret|]. unfold patchLLV. apply triple_call; [done|]. intros r. destruct (storedLLV _ r). by apply triple_ret.
Qed.
(** The volume DRBD uses is no larger than intended, or is as it should be. *)
Definition fits base v drbdr llvs i : Prop := ∀ a, computeActualBackingVolume drbdr llvs = Some a → bv_LLVName a = bv_LLVName i →
  q_Cmp (b_Size a) (b_Size i) ≤ 0 ∨
  (∃ l, findLLVByName llvs (bv_LLVName i) = Some l ∧ isLLVMetadataInSync base (Some v) l = true ∧ isLLVReady l = true).
Lemma actual_size drbdr llvs a l : computeActualBackingVolume drbdr llvs = Some a → findLLVByName llvs (bv_LLVName a) = Some l →
  b_Size a = match llv_Status l with Some st => ls_ActualSize st | None => NewQuantity 0 end.
Proof.
  unfold computeActualBackingVolume. destruct drbdr as [d|]; simpl; [|done]. destruct (String.eqb _ _); [done|].
  destruct (findLLVByName llvs (ds_LVMLogicalVolumeName (dr_Spec d))) as [l'|] eqn:E; simpl; [|done]. intros [= <-]. simpl. by rewrite E; intros [= ->].
Qed.
Lemma settle_ok base rv drbdr llvs view v i before llv after : intendedOf base rv drbdr llvs view v i → fits base v drbdr llvs i →
  q_Cmp (b_Size i) (b_Size i) = 0 → findLLVByName llvs (bv_LLVName i) = Some llv →
  ends (settle base v before llv after (computeActualBackingVolume drbdr llvs) i) (bvOk base rv).
Proof.
  intros Hi Hfit Hself Hl. unfold settle. eapply ends_bind; [apply ensureLLVMetadata_ends|]. intros [l r] Hsync. simpl in Hsync.
  destruct r as [r|]; [apply triple_ret, leave_ok; [done|apply settled_none]|].
  assert (Hs : isLLVReady l = false ∨ (∀ st, llv_Status l = Some st → q_Cmp (ls_ActualSize st) (b_Size i) < 0) →
               settled base rv (computeActualBackingVolume drbdr llvs) (Some i)).
  { intros Hnot. eapply settled_actual; [exact Hi|]. intros a Ha Hn. destruct (Hfit a Ha Hn) as [?|(l0 & H0 & Hin & Hready)]; [done|].
    assert (l0 = llv) as -> by congruence. specialize (Hsync Hin). simplify_eq. destruct Hnot as [|Hlt]; [congruence|].
    rewrite (actual_size _ _ _ _ Ha) by (by rewrite Hn). unfold isLLVReady in Hready.
    destruct (llv_Status llv) as [st|]; [|done]. specialize (Hlt st eq_refl). lia. }
  destruct (isLLVReady l) eqn:Hready.
  - destruct (llv_Status l) as [st|] eqn:Hst; [|by unfold isLLVReady in Hready; rewrite Hst in Hready].
    destruct (Z.ltb_spec (q_Cmp (ls_ActualSize st) (b_Size i)) 0); [|by apply fullyReady_ok].
    apply resize_ok; [done|]. apply Hs. right. by intros ? [= <-].
  - destruct (notReady _ _). apply report_ok; [done|]. apply Hs. by left.
Qed.
Lemma settle_outside base rv v before llv after actual i : rv = Some v → FindMemberByName v (rvr_Name base) = None →
  q_Cmp (b_Size i) (b_Size i) = 0 → ends (settle base v before llv after actual i) (bvOk base rv).
Proof.
  intros Hv Hm Hself. unfold settle. eapply ends_bind; [apply ensureLLVMetadata_ends|]. intros [l r] _.
  destruct r as [r|]; [apply triple_ret, leave_ok; [done|apply settled_none]|].
  assert (Hs : settled base rv actual (Some i)) by (by eapply settled_outside).
  destruct (if isLLVReady l then llv_Status l else None) as [st|].
  - destruct (_ <? 0); [by apply resize_ok|by apply fullyReady_ok].
  - destruct (notReady _ _). by apply report_ok.
Qed.
Lemma withIntended_ok base rv drbdr llvs view v i : intendedOf base rv drbdr llvs view v i →
  (FindMemberByName v (rvr_Name base) ≠ None → fits base v drbdr llvs i) → q_Cmp (b_Size i) (b_Size i) = 0 →
  ends (withIntended base v llvs (computeActualBackingVolume drbdr llvs) i) (bvOk base rv).
Proof.
  intros Hi Hfit Hself. pose proof Hi as [Hv _]. unfold withIntended.
  destruct (FindMemberByName v (rvr_Name base)) as [m|] eqn:Hm.
  - specialize (Hfit ltac:(done)).
    destruct (splitLLV (bv_LLVName i) llvs) as [[[before llv] after]|] eqn:Hsplit.
    + rewrite (bool_decide_eq_false_2 (Some m = None)), andb_false_r by done. apply splitLLV_spec in Hsplit as [Hl _]. by eapply settle_ok.
    + apply provision_ok; [done|]. eapply settled_actual; [exact Hi|]. intros a Ha Hn.
      destruct (Hfit a Ha Hn) as [?|(l & Hl & _)]; [done|]. exfalso. revert Hsplit Hl. clear. generalize (bv_LLVName i) as n.
      intros n. induction llvs as [|x llvs IH]; simpl; [done|]. destruct (String.eqb (llv_Name x) n); [done|].
      destruct (splitLLV n llvs) as [[[? ?] ?]|]; [done|]. auto.
  - destruct (splitLLV (bv_LLVName i) llvs) as [[[before llv] after]|].
    + destruct (_ && _); [by eapply waitForOld_ok|]. by apply settle_outside.
    + apply provision_ok; [done|]. by eapply settled_outside.
Qed.

(** Sizes that leave room for the metadata of DRBD. *)
Definition sized (v : ReplicatedVolume) : Prop :=
  0 ≤ q_Value (rv_Spec_Size v) ≤ 2 ^ 61 ∧ 0 ≤ q_Value (rv_Size v) ≤ 2 ^ 61.
Lemma aligned q : 0 ≤ q_Value q ≤ 2 ^ 61 → 0 ≤ q_Value (AlignTo4Ki q) ≤ 2 ^ 62.
Proof using Laws.
  intros Hq. unfold AlignTo4Ki. rewrite wrap64_small by lia. rewrite align_4096 by lia.
  pose proof (cdiv_bounds (q_Value q) 4096 ltac:(lia)). rewrite wrapS64_small by lia. rewrite q_Value_New by (unfold int64; lia). lia.
Qed.
Lemma intendedSize_ok v : sized v → ∃ size, intendedSize v = Ok size ∧ q_Cmp size size = 0.
Proof using Laws.
  intros [H1%aligned H2%aligned]. unfold intendedSize.
  match goal with |- context [LowerVolumeSize ?s] => set (q := s) end.
  assert (Hq : 0 ≤ q_Value q ≤ 2 ^ 62) by (unfold q; case_match; done).
  destruct (LowerVolumeSize_blocks q Hq) as (m & -> & _ & Hm & _). eexists. split; [done|].
  rewrite q_Cmp_New by (unfold int64; lia). by rewrite Z.compare_refl.
Qed.
Lemma intended_size rvr v actual view i : sized v → computeIntendedBackingVolume rvr v actual view = Ok (inr i) → q_Cmp (b_Size i) (b_Size i) = 0.
Proof using Laws.
  intros Hv. destruct (intendedSize_ok v Hv) as (size & Hs & Hc). unfold computeIntendedBackingVolume.
  destruct (intendedStorage rvr v view) as [?|[? ?]]; [done|]. rewrite Hs. by intros [= <-].
Qed.
Lemma intended_total rvr v actual view : sized v → ∃ r, computeIntendedBackingVolume rvr v actual view = Ok r.
Proof using Laws.
  intros Hv. destruct (intendedSize_ok v Hv) as (size & Hs & _). unfold computeIntendedBackingVolume.
  destruct (intendedStorage rvr v view) as [?|[? ?]]; [by eexists|]. rewrite Hs. by eexists.
Qed.
(** What a pass may assume of its inputs. *)
Definition fitting base rv drbdr llvs view : Prop := ∀ v, rv = Some v → sized v ∧
  (∀ i, computeIntendedBackingVolume base v (computeActualBackingVolume drbdr llvs) view = Ok (inr i) →
     FindMemberByName v (rvr_Name base) ≠ None → fits base v drbdr llvs i).
Lemma reconcileExisting_ok base rv drbdr llvs view : fitting base rv drbdr llvs view →
  ends (reconcileExisting base llvs rv drbdr view) (bvOk base rv).
Proof using Laws.
  intros Hf. unfold reconcileExisting. destruct (rvrShouldNotExist base); [by apply withoutBackingVolume_ok|].
  destruct rv as [v|]; [|apply report_ok; [done|by right]].
  destruct (Hf v eq_refl) as [Hsized Hfit]. destruct (Z.eqb_spec (rv_DatameshRevision v) 0).
  { apply report_ok; [done|]. right. intros ? [= <-]. by left. }
  destruct (intended_total base v (computeActualBackingVolume drbdr llvs) view Hsized) as [r Hr]. rewrite Hr.
  apply (triple_bind _ _ _ _ (λ a, a = r)); [by apply triple_lift|]. intros ? ->.
  destruct r as [[reason message]|i]; [by apply withoutBackingVolume_ok|].
  apply (withIntended_ok base (Some v) drbdr llvs view v i); [by split|by apply Hfit|by eapply intended_size].
Qed.
Lemma reconcileBackingVolume_ok base rv drbdr llvs view : fitting base rv drbdr llvs view →
  ends (reconcileBackingVolume (Some base) llvs rv drbdr view) (bvOk base rv).
Proof using Laws. intros Hf. unfold reconcileBackingVolume. apply triple_fmap. eapply triple_weaken; [by apply reconcileExisting_ok|]. by intros []. Qed.
End panics.

(** ** The DRBD resource *)
Section drbd.
Context {K : K8s} {Meta : MetaApi} {S : Server}.
Implicit Types (rvr base r : ReplicatedVolumeReplica) (rv : option ReplicatedVolume) (v : ReplicatedVolume) (d : DRBDResource)
  (drbdr : option DRBDResource) (t i : option backingVolume) (member : option DatameshMember) (y : drReturn).

(** Why there may be no DRBD resource. *)
Definition excused base rv : Prop := rvrShouldNotExist base = true ∨
  match rv with
  | None => True
  | Some v => rv_DatameshRevision v = 0 ∨ rv_SystemNetworkNames v = [] ∨ rvr_Spec_NodeName base = ""
  end.
(** The agent applied the specification of [d] to the replica, which is what the datamesh says of it. *)
Definition agentDone d : Prop := ∃ cond, GetStatusCondition d DRBDResourceCondConfiguredType = Some cond ∧
  c_ObservedGeneration cond = dr_Generation d ∧ c_Status cond = ConditionTrue ∧ c_Reason cond ≠ ReasonInMaintenance.
Definition confirmed base v drbdr t i : Prop := ∃ m d, FindMemberByName v (rvr_Name base) = Some m ∧ drbdr = Some d ∧
  agentDone d ∧ dr_Addresses d ≠ [] ∧
  (HasBackingVolume (m_Type m) = true → is_Some t ∧ bv_Equal t i = true ∧ deviceSizePending d = None).
Definition revisionOk base rv t i r drbdr : Prop :=
  rvr_DatameshRevision r = rvr_DatameshRevision base ∨
  (∃ v, rv = Some v ∧ rvr_DatameshRevision r = 0 ∧ FindMemberByName v (rvr_Name base) = None) ∨
  (∃ v, rv = Some v ∧ rvr_DatameshRevision r = rv_DatameshRevision v ∧ confirmed base v drbdr t i).
Definition drOk base rv t i y : Prop :=
  (∃ r, y.1.1 = Some r ∧ kept base r ∧ revisionOk base rv t i r y.1.2) ∧
  (ShouldReturn y.2 = false → y.1.2 = None → excused base rv).

(** A replica whose revision was not touched yet. *)
Definition untouched base r : Prop := kept base r ∧ rvr_DatameshRevision r = rvr_DatameshRevision base.
Notation some_d := (λ o : option _, ∃ d, o = Some d).

Lemma say_ok ok base rv t i rvr drbdr changed status reason message : kept base rvr → revisionOk base rv t i rvr drbdr →
  (drbdr = None → excused base rv) → triple ok (λ _, True) (say rvr drbdr changed status reason message) (drOk base rv t i).
Proof.
  intros Hk Hr He. unfold say.
  assert (H : ∀ r b, kept base r → rvr_DatameshRevision r = rvr_DatameshRevision rvr → drOk base rv t i (Some r, drbdr, ReportChangedIf Continue b)).
  { intros r b Hkr Hrr. split; [|by intros _]. exists r. split; [done|]. split; [done|]. unfold revisionOk in *. simpl. by rewrite Hrr. }
  apply triple_condition; [done| |]; intros; by apply triple_ret, H.
Qed.
Lemma untouched_ok base rv t i r drbdr : untouched base r → revisionOk base rv t i r drbdr.
Proof. intros [_ H]. by left. Qed.
Lemma say_untouched ok base rv t i rvr d changed status reason message : untouched base rvr →
  triple ok (λ _, True) (say rvr (Some d) changed status reason message) (drOk base rv t i).
Proof. intros H. apply say_ok; [apply H|by apply untouched_ok|done]. Qed.
Lemma drOk_terminal base rv t i r drbdr o : untouched base r → ShouldReturn o = true → drOk base rv t i (Some r, drbdr, o).
Proof. intros Hu Ho. split; [exists r; split; [done|]; split; [apply Hu|by apply untouched_ok]|]. simpl. congruence. Qed.

Lemma releaseDRBDR_ends d : ends (releaseDRBDR d) (λ _, True).
Proof. unfold releaseDRBDR, patchDRBDR. ends. Qed.
Lemma deleteDRBDR_ends d : ends (deleteDRBDR d) (λ _, True).
Proof. unfold deleteDRBDR. ends. Qed.
Lemma deleteBranch_ok ok base rv drbdr t i : rvrShouldNotExist base = true →
  triple ok (λ _, True) (deleteBranch base drbdr) (drOk base rv t i).
Proof.
  intros Hs. assert (He : excused base rv) by by left.
  assert (Hn : ∀ s m, triple ok (λ _, True) (say base None false s ReasonNotApplicable m) (drOk base rv t i)).
  { intros. apply say_ok; [done|by left|done]. }
  unfold deleteBranch. destruct drbdr as [d|]; [|apply Hn].
  apply any_then; [apply releaseDRBDR_ends|]. intros [d' [e|]]; [by apply triple_ret, drOk_terminal|].
  apply any_then; [apply deleteDRBDR_ends|]. intros [d'' [e|]]; [by apply triple_ret, drOk_terminal|]. apply Hn.
Qed.

(** *** Creating and updating the resource *)
Lemma newDRBDR_ends rvr rv spec : ends (newDRBDR rvr rv spec) (λ _, True).
Proof. unfold newDRBDR. ends. Qed.
Lemma createTarget_ok base rv v t member ty :
  ends (createTarget base v member t ty) (λ res, match res with inl o => ∀ i, drOk base rv t i o | inr _ => True end).
Proof.
  unfold createTarget. apply ends_then; [apply newDRBDR_ends|]. intros [e|d].
  - apply triple_ret. intros i. by apply drOk_terminal.
  - unfold createDRBDR. apply triple_call; [done|]. intros [a|e|e|e]; apply triple_ret; try done; intros i; by apply drOk_terminal.
Qed.
Lemma updateTarget_ok base rv v d t member ty :
  ends (updateTarget base v d member t ty) (λ res, match res with inl o => ∀ i, drOk base rv t i o | inr _ => True end).
Proof.
  unfold updateTarget, patchDRBDR. destruct (bool_decide _); [by apply triple_ret|]. destruct (specEqual _ _); [by apply triple_ret|].
  apply triple_fmap_call; [done|]. intros a. destruct (stored _ a) as [d' [e|]]; apply triple_ret; [|done]. intros i. by apply drOk_terminal.
Qed.
Lemma ensureDRBDRMetadata_ok rvr v d :
  ends (ensureDRBDRMetadata rvr v d) (λ res, match res.2 with Some ro => ShouldReturn ro = true | None => True end).
Proof.
  unfold ensureDRBDRMetadata. destruct (isDRBDRMetadataInSync _ _ _); [by apply triple_ret|]. unfold applyDRBDRMetadata.
  destruct (AddFinalizer _ _), (withValue _ _ _), (withClassLabel _ _). apply ends_then.
  - apply ends_then; [apply SetControllerRef_ends|]. ends.
  - intros [[? ?] [e|]]; [by apply triple_ret|]. unfold patchDRBDR. apply triple_fmap_call; [done|]. intros a.
    destruct (stored _ a) as [d' [e|]]; by apply triple_ret.
Qed.

(** *** Following the agent *)
Lemma llv_named t : LLVNameOrEmpty t ≠ "" → is_Some t.
Proof. destruct t; [by eexists|done]. Qed.
Lemma configured_ok ok base v rvr d member t i ty changed : untouched base rvr → member = FindMemberByName v (rvr_Name base) →
  agentDone d → dr_Addresses d ≠ [] → ty = computeIntendedType base member → computeTargetType ty (LLVNameOrEmpty t) = Ok ty →
  diskPending d t i = None → (ok → settled base (Some v) t i ∧ rv_DatameshRevision v ≠ 0) →
  triple ok (λ _, True) (configured rvr v d member t i ty changed) (drOk base (Some v) t i).
Proof.
  intros Hu Hm Hd Ha Hty Ht Hp Hok. pose proof Hu as [Hk Hrev]. unfold configured. destruct member as [m|].
  - assert (Hback : HasBackingVolume ty = true → is_Some t).
    { intros Hb. apply llv_named. intros Hn. unfold computeTargetType in Ht. rewrite Hb, Hn in Ht. simpl in Ht. by destruct ty. }
    assert (Hbv : backingVolumePending t i = None ∧ deviceSizePending d = None) by (unfold diskPending in Hp; by destruct (backingVolumePending t i)).
    destruct (HasBackingVolume ty && negb (bv_Equal t i)) eqn:Hbug.
    + apply triple_lift. intros HOK. destruct (Hok HOK) as [Hs Hr]. apply andb_true_iff in Hbug as [Hb Hne%negb_true_iff].
      destruct (Hs (proj1 Hbv) (Hback Hb)) as [?|H]; [congruence|]. destruct (H v eq_refl); [done|congruence].
    + assert (Hc : confirmed base v (Some d) t i).
      { exists m, d. split; [done|]. split; [done|]. split; [done|]. split; [done|]. intros Hb. simpl in Hty. subst ty.
        rewrite Hb in Hbug. simpl in Hbug. apply negb_false_iff in Hbug. naive_solver. }
      destruct (_ =? _); [by apply say_untouched|]. apply say_ok; [done| |done]. right. right. by exists v.
  - destruct (negb (rvr_DatameshRevision rvr =? 0)).
    + apply say_ok; [done| |done]. right. left. by exists v.
    + destruct (rvr_DeletionTimestamp rvr); by apply say_untouched.
Qed.
Lemma applied_ok ok base v rvr d cond member t i ity ty changed : untouched base rvr → member = FindMemberByName v (rvr_Name base) →
  GetStatusCondition d DRBDResourceCondConfiguredType = Some cond → c_ObservedGeneration cond = dr_Generation d →
  ity = computeIntendedType base member → computeTargetType ity (LLVNameOrEmpty t) = Ok ty →
  (ok → settled base (Some v) t i ∧ rv_DatameshRevision v ≠ 0) →
  triple ok (λ _, True) (applied rvr v d cond member t i ity ty changed) (drOk base (Some v) t i).
Proof.
  intros Hu Hm Hc Hg Hity Hty Hok. unfold applied. destruct (String.eqb_spec (c_Reason cond) ReasonInMaintenance); [by apply say_untouched|].
  destruct (String.eqb_spec (c_Status cond) ConditionTrue); simpl; [|by apply say_untouched].
  destruct (decide (dr_Addresses d = [])).
  { rewrite bool_decide_eq_true_2 by done. by apply say_untouched. }
  rewrite bool_decide_eq_false_2 by done. destruct (decide (ty = ity)) as [->|].
  2: { rewrite bool_decide_eq_false_2 by done. by apply say_untouched. }
  rewrite bool_decide_eq_true_2 by done. simpl. destruct (diskPending d t i) as [[reason message]|] eqn:Hp; [by apply say_untouched|].
  apply configured_ok; try done. by exists cond.
Qed.
Lemma checkConfigured_ok ok base v rvr d rev member t i ity ty changed : untouched base rvr →
  member = FindMemberByName v (rvr_Name base) → ity = computeIntendedType base member →
  computeTargetType ity (LLVNameOrEmpty t) = Ok ty → (ok → settled base (Some v) t i ∧ rv_DatameshRevision v ≠ 0) →
  triple ok (λ _, True) (checkConfigured rvr v d rev member t i ity ty changed) (drOk base (Some v) t i).
Proof.
  intros Hu Hm Hity Hty Hok. unfold checkConfigured.
  destruct (GetStatusCondition d DRBDResourceCondConfiguredType) as [cond|] eqn:Hc; [|by apply say_untouched].
  destruct (Z.eqb_spec (c_ObservedGeneration cond) (dr_Generation d)); simpl; [|by apply say_untouched].
  destruct (_ =? rev); by apply applied_ok.
Qed.
Lemma checkAgent_ok ok base v rvr d rev member t i ity ty changed : untouched base rvr →
  member = FindMemberByName v (rvr_Name base) → ity = computeIntendedType base member →
  computeTargetType ity (LLVNameOrEmpty t) = Ok ty → (ok → settled base (Some v) t i ∧ rv_DatameshRevision v ≠ 0) →
  triple ok (λ _, True) (checkAgent rvr v d rev member t i ity ty changed) (drOk base (Some v) t i).
Proof.
  intros Hu Hm Hity Hty Hok. unfold checkAgent, getAgentReady. apply any_then; [ends|]. intros [e|[]].
  - by apply triple_ret, drOk_terminal.
  - by apply checkConfigured_ok.
  - unfold agentNotReady, getNodeReady. apply any_then; [ends|]. intros [e|ready]; [by apply triple_ret, drOk_terminal|by apply say_untouched].
Qed.
Lemma targetType_total ity name : ∃ ty, computeTargetType ity name = Ok ty.
Proof. unfold computeTargetType. destruct (HasBackingVolume ity && _) eqn:E; [|by eexists]. apply andb_true_iff in E as [E _]. destruct ity; try discriminate; by eexists. Qed.
Lemma configure_ok ok base v drbdr t i : (ok → settled base (Some v) t i ∧ rv_DatameshRevision v ≠ 0) →
  triple ok (λ _, True) (configure base v drbdr t i) (drOk base (Some v) t i).
Proof.
  intros Hok. unfold configure. destruct (targetType_total (computeIntendedType base (FindMemberByName v (rvr_Name base))) (LLVNameOrEmpty t)) as [ty Hty].
  apply (triple_bind _ _ _ _ (λ a, a = ty)); [by apply triple_lift; rewrite Hty|]. intros ? ->.
  eapply triple_bind; [apply ends_any; destruct drbdr; [apply updateTarget_ok|apply createTarget_ok]|].
  intros [o|[d cache]] Ho; [by apply triple_ret|].
  eapply triple_bind; [apply ends_any, ensureDRBDRMetadata_ok|]. intros [d' [ro|]] Hro; [by apply triple_ret, drOk_terminal|].
  unfold applyRVRDRBDRReconciliationCache. destruct (bool_decide _); by apply checkAgent_ok.
Qed.
Lemma reconcileExistingDRBD_ok ok base rv drbdr t i : (ok → settled base rv t i) →
  triple ok (λ _, True) (reconcileExistingDRBD base rv drbdr t i) (drOk base rv t i).
Proof.
  intros Hok. unfold reconcileExistingDRBD. destruct (rvrShouldNotExist base) eqn:Hs; [by apply deleteBranch_ok|].
  assert (Hn : excused base rv → ∀ s reason m, triple ok (λ _, True) (say base drbdr false s reason m) (drOk base rv t i)).
  { intros He s reason m. apply say_ok; [done|by left|done]. }
  destruct rv as [v|]; [|by apply Hn; right]. destruct (Z.eqb_spec (rv_DatameshRevision v) 0); [by apply Hn; right; left|].
  destruct (decide (rv_SystemNetworkNames v = [])).
  { rewrite bool_decide_eq_true_2 by done. by apply Hn; right; right; left. }
  rewrite bool_decide_eq_false_2 by done. destruct (String.eqb_spec (rvr_Spec_NodeName base) ""); [by apply Hn; right; right; right|].
  apply configure_ok. auto.
Qed.
Lemma reconcileDRBDResource_ok ok base rv drbdr t i : (ok → settled base rv t i) →
  triple ok (λ _, True) (reconcileDRBDResource (Some base) rv drbdr t i) (drOk base rv t i).
Proof.
  intros Hok. unfold reconcileDRBDResource. apply triple_fmap. eapply triple_weaken; [by apply reconcileExistingDRBD_ok|]. by intros [[? ?] ?].
Qed.

End drbd.

(** ** The status *)
Section status.
Context {K : K8s} {Laws : K8sLaws} {Meta : MetaApi} {S : Server}.
Implicit Types (rvr base r : ReplicatedVolumeReplica) (rv : option ReplicatedVolume) (v : ReplicatedVolume) (d : DRBDResource)
  (drbdr : option DRBDResource) (llvs : list LVMLogicalVolume) (view : option rspEligibilityView).

(** Besides, the quorum summary stays. *)
Definition keptq base r : Prop := kept base r ∧ rvr_QuorumSummary r = rvr_QuorumSummary base.
#[export] Instance keptq_refl : Reflexive keptq.
Proof. by intros ?. Qed.
#[export] Instance keptq_trans : Transitive keptq.
Proof. intros a b c [H1 E1] [H2 E2]. split; [by etrans|congruence]. Qed.
Lemma keptq_addresses rvr drbdr : keptq rvr (ensureStatusAddressesAndType rvr drbdr).1.
Proof. unfold ensureStatusAddressesAndType. destruct drbdr; simpl; do 2 (destruct (bool_decide _); simpl); done. Qed.
Lemma keptq_size rvr drbdr : keptq rvr (ensureStatusSize rvr drbdr).1.
Proof. unfold ensureStatusSize. by case_match. Qed.
Lemma keptq_attachment rvr drbdr agentReady pending : keptq rvr (ensureStatusAttachment rvr drbdr agentReady pending).1.
Proof. unfold ensureStatusAttachment, applyRVRAttachment. repeat case_match; simplify_eq; done. Qed.
Lemma keptq_peers rvr drbdr rv : keptq rvr (ensureStatusPeers rvr drbdr rv).1.
Proof. unfold ensureStatusPeers. repeat case_match; done. Qed.
Lemma keptq_backing rvr drbdr llvs : keptq rvr (ensureStatusBackingVolume rvr drbdr llvs).1.
Proof. unfold ensureStatusBackingVolume, clearBackingVolume. repeat case_match; done. Qed.
Lemma kept_quorum rvr drbdr : kept rvr (ensureStatusQuorum rvr drbdr).1 ∧ (is_Some drbdr → is_Some (rvr_QuorumSummary (ensureStatusQuorum rvr drbdr).1)).
Proof.
  unfold ensureStatusQuorum. destruct drbdr as [d|]; simpl.
  - destruct (decide (rvr_QuorumSummary rvr = Some (quorumSummary rvr d))) as [E|E].
    + rewrite bool_decide_eq_true_2 by done. simpl; destruct (bool_decide _); simpl; (split; [done|]); intros _; rewrite E; by eexists.
    + rewrite bool_decide_eq_false_2 by done. simpl; destruct (bool_decide _); simpl; (split; [done|]); intros _; by eexists.
  - split; [|by intros [??]]. do 2 (destruct (bool_decide _); simpl); done.
Qed.
Lemma keptq_conditions cs rvr : keptq rvr (SetStatusConditions cs rvr).
Proof. done. Qed.
Lemma keptq_remove rvr ty : keptq rvr (RemoveStatusCondition rvr ty).2.
Proof. unfold RemoveStatusCondition. by repeat case_match. Qed.
Lemma applyVerdict_ends rvr ty said : ends (applyVerdict rvr ty said) (λ res, keptq rvr res.1).
Proof.
  unfold applyVerdict. destruct said as [[[status reason] message]|].
  - apply ends_condition. intros b cs. by apply triple_ret.
  - pose proof (keptq_remove rvr ty) as Hr. destruct (RemoveStatusCondition rvr ty) as [changed r]. by apply triple_ret.
Qed.
Lemma initialQuorum_ends rvr : ends (ensureStatusInitialQuorumReachedAt rvr) (λ res, keptq rvr res.1).
Proof. unfold ensureStatusInitialQuorumReachedAt. ends. Qed.

Lemma ensureFields_ends base rvr rv drbdr llvs agentReady pending : kept base rvr →
  ends (ensureFields rvr rv drbdr llvs agentReady pending) (λ res, kept base res.1 ∧ (is_Some drbdr → is_Some (rvr_QuorumSummary res.1))).
Proof.
  intros Hk. unfold ensureFields.
  pose proof (keptq_addresses rvr drbdr) as H1. destruct (ensureStatusAddressesAndType rvr drbdr) as [r1 e1].
  pose proof (keptq_size r1 drbdr) as H2. destruct (ensureStatusSize r1 drbdr) as [r2 e2].
  pose proof (keptq_attachment r2 drbdr agentReady pending) as H3. destruct (ensureStatusAttachment r2 drbdr agentReady pending) as [r3 e3].
  pose proof (keptq_peers r3 drbdr rv) as H4. destruct (ensureStatusPeers r3 drbdr rv) as [r4 e4].
  pose proof (keptq_backing r4 drbdr llvs) as H5. destruct (ensureStatusBackingVolume r4 drbdr llvs) as [r5 e5].
  pose proof (kept_quorum r5 drbdr) as [H6 Hq]. destruct (ensureStatusQuorum r5 drbdr) as [r6 e6]. simpl in *.
  eapply ends_bind; [apply initialQuorum_ends|]. intros [r7 e7] [H7 Hq7]. apply triple_ret. simpl in *. split; [|by rewrite Hq7].
  by rewrite Hk, (proj1 H1), (proj1 H2), (proj1 H3), (proj1 H4), (proj1 H5), H6, H7.
Qed.
Lemma readyVerdict_ends base rvr rv drbdr member agentReady pending : kept base rvr → (drbdr = None → excused base rv) →
  (is_Some drbdr → is_Some (rvr_QuorumSummary rvr)) → ∃ said, readyVerdict rvr rv drbdr member agentReady pending = Ok said.
Proof.
  intros Hk He Hq. unfold readyVerdict. rewrite (kept_exists _ _ Hk). destruct (rvrShouldNotExist base) eqn:Hs; [by eexists|].
  destruct rv as [v|]; [|by eexists]. destruct (Z.eqb_spec (rv_DatameshRevision v) 0); [by eexists|].
  destruct (decide (rv_SystemNetworkNames v = [])).
  { rewrite bool_decide_eq_true_2 by done. by eexists. }
  rewrite bool_decide_eq_false_2 by done. destruct (String.eqb_spec (rvr_Spec_NodeName rvr) "") as [|Hn]; [by eexists|].
  destruct drbdr as [d|].
  - destruct (negb agentReady); [by eexists|]. destruct pending; [by eexists|]. destruct member; [|by eexists].
    destruct (Hq ltac:(by eexists)) as [q ->]. by eexists.
  - exfalso. destruct Hk as (_ & _ & _ & Hnode). rewrite Hnode in Hn. destruct (He eq_refl) as [?|[?|[?|?]]]; congruence.
Qed.
Lemma ensureConditions_ends base rvr rv drbdr view member agentReady pending : kept base rvr → (drbdr = None → excused base rv) →
  (is_Some drbdr → is_Some (rvr_QuorumSummary rvr)) →
  ends (ensureConditions rvr rv drbdr view member agentReady pending) (λ _, True).
Proof.
  intros Hk He Hq. unfold ensureConditions, ensureConditionAttached, ensureConditionFullyConnected.
  eapply ends_bind; [apply applyVerdict_ends|]. intros [r1 e1] H1. eapply ends_bind; [apply applyVerdict_ends|]. intros [r2 e2] H2.
  simpl in H1, H2. assert (H12 : keptq rvr r2) by by etrans.
  assert (Hbv : ends (ensureConditionBackingVolumeUpToDate r2 drbdr member agentReady pending) (λ res, keptq rvr res.1)).
  { unfold ensureConditionBackingVolumeUpToDate. case_match; [by apply triple_ret|].
    eapply triple_weaken; [apply applyVerdict_ends|]. intros res Hres. by etrans. }
  eapply ends_bind; [exact Hbv|]. intros [r3 e3] [H3 Hq3]. simpl in H3, Hq3.
  destruct (readyVerdict_ends base r3 rv drbdr member agentReady pending) as [said Hsaid]; [by etrans|done|by rewrite Hq3|].
  unfold ensureConditionReady. rewrite Hsaid. apply ends_then; [|intros [r4 e4]].
  - apply (triple_bind _ _ _ _ (λ _, True)); [by apply triple_lift|]. intros said' _.
    eapply triple_weaken; [apply applyVerdict_ends|done].
  - apply ends_then; [eapply triple_weaken; [apply applyVerdict_ends|done]|]. intros [? ?]. by apply triple_ret.
Qed.
Lemma request_ends rvr rv view : ends (ensureStatusDatameshRequestAndConfiguredCond rvr rv view) (λ _, True).
Proof.
  unfold ensureStatusDatameshRequestAndConfiguredCond. destruct (computeTargetDatameshRequest rvr rv view) as [[target reason] message].
  destruct (applyDatameshRequest rvr target) as [c1 r]. destruct (String.eqb reason "").
  - destruct (RemoveStatusCondition r _). by apply triple_ret.
  - apply ends_condition. intros b cs. by apply triple_ret.
Qed.
Lemma ensureStatus_ends base rvr rv drbdr llvs view : kept base rvr → (drbdr = None → excused base rv) →
  ends (ensureStatus rvr rv drbdr llvs view) (λ _, True).
Proof.
  intros Hk He. unfold ensureStatus. eapply ends_bind; [by apply (ensureFields_ends base)|]. intros [r1 fields] [H1 Hq]. simpl in H1, Hq.
  apply ends_then; [by apply (ensureConditions_ends base)|]. intros [r2 conds]. apply ends_then; [apply request_ends|]. intros [r3 e3].
  destruct (ensureStatusPhaseAndMessage r3). by apply triple_ret.
Qed.
Lemma reconcileStatus_ends base rvr0 rvr rv drbdr llvs view o : kept base rvr → (drbdr = None → excused base rv) →
  ends (reconcileStatus rvr0 rvr rv drbdr llvs view o) (λ _, True).
Proof.
  intros Hk He. unfold reconcileStatus. apply ends_then; [by eapply ensureStatus_ends|]. intros [r eo].
  destruct (eo_err eo); [by apply triple_ret|]. unfold finish. destruct (changed _); [|by apply triple_ret].
  unfold patchRVRStatus. apply triple_fmap_call; [done|]. intros a. destruct (stored _ a) as [? [?|]]; by apply triple_ret.
Qed.
Lemma excused_kept base rvr rv : kept base rvr → excused rvr rv → excused base rv.
Proof. intros Hk He. unfold excused in *. rewrite (kept_exists _ _ Hk) in He. destruct Hk as (_ & _ & _ & Hn). by rewrite Hn in He. Qed.
Lemma Merge_return o ro : ShouldReturn (Merge o [ro]) = false → ShouldReturn ro = false.
Proof.
  unfold ShouldReturn, Merge, MergeReconciles, mergeResult. destruct (errors_Join _); [done|]. cbn. by destruct (terminal o), (terminal ro).
Qed.
Lemma settled_kept base rvr rv t (i : option backingVolume) : kept base rvr → settled base rv t i → settled rvr rv t i.
Proof. intros (Hn & _) Hs. unfold settled in *. by rewrite Hn. Qed.

(** C7: A pass over the children of a replica and its status never panics, whatever the API server
    answers, as long as the sizes of the volume leave room for DRBD's metadata and the logical volume a
    member runs on is either no larger than intended or in sync and ready: DRBD is never found on another
    volume than intended once everything is reported configured, a missing DRBD resource always has an
    excuse, and a quorum summary is there when it is read. *)
Theorem replica_pass_never_panics base rv drbdr llvs view (Hf : fitting base rv drbdr llvs view) w :
  ∃ o, (reconcileChildren (Some base) rv drbdr llvs view w).2.2 = Ok o.
Proof using Laws.
  apply ends_true. unfold reconcileChildren. eapply ends_bind; [by apply reconcileBackingVolume_ok|].
  intros [bv o] [(r & Hr & Hk) Hs]. simpl in Hr, Hs. destruct (ShouldReturn o); [by apply triple_ret|]. rewrite Hr.
  eapply ends_bind; [apply reconcileDRBDResource_ok; intros _; by eapply settled_kept|].
  intros [[r' drbdr'] ro] [(r0 & Hr0 & Hk0 & _) He]. simpl in Hr0, He. subst r'.
  destruct (ShouldReturn (Merge o [ro])) eqn:Hm; [by apply triple_ret|]. apply Merge_return in Hm.
  apply (reconcileStatus_ends base); [by etrans|]. intros Hd. by eapply excused_kept, He.
Qed.
End status.


(** ** Logical volumes *)
Section llvs.
Context {K : K8s} {Meta : MetaApi} {S : Server}.
Implicit Types (rvr : ReplicatedVolumeReplica) (rv : option ReplicatedVolume) (v : ReplicatedVolume) (llv l x : LVMLogicalVolume)
  (llvs : list LVMLogicalVolume) (drbdr : option DRBDResource) (view : option rspEligibilityView) (i : backingVolume).

(** The name of the logical volume a call deletes, or takes the controller's finalizer from. *)
Definition released {T} `{MetaObject T} (before after : T) : bool :=
  HasFinalizer before RVRControllerFinalizer && negb (HasFinalizer after RVRControllerFinalizer).
Definition takenLLV (e : event) : option string :=
  match ev_call e with
  | DeleteLLV l => Some (llv_Name l)
  | PatchLLV b l => if released b l then Some (llv_Name b) else None
  | _ => None
  end.
(** Only names in [D] are taken. *)
Definition takes (D : string → Prop) (e : event) : Prop := ∀ n, takenLLV e = Some n → D n.

(** The API server answers a patch with the object of that name. *)
Hypothesis patch_keeps_name : ∀ b l w l', (serve (PatchLLV b l) w).2 = Valid (Replied l') → llv_Name l' = llv_Name l.

Context (D : string → Prop).
Notation spec := (triple False (takes D)).
Lemma takes_quiet {T} (c : call T) : takenLLV (Event T c) = None → takes D (Event T c).
Proof. intros E n. by rewrite E. Qed.
Lemma patch_spec l b (Q : LVMLogicalVolume * option error → Prop) : (released b l = true → D (llv_Name b)) → 
  (∀ l' e, llv_Name l' = llv_Name l → Q (l', e)) → spec (r ← patchLLV l b; mret (storedLLV l r)) Q.
Proof using patch_keeps_name.
  intros HD HQ w. unfold patchLLV, mbind, M_bind, do. pose proof (patch_keeps_name b l w) as Hn.
  destruct (serve (PatchLLV b l) w) as [w' r]. simpl in Hn. split.
  - simpl. apply Forall_singleton. intros n. unfold takenLLV. simpl. destruct (released b l); [intros [= <-]; auto|done].
  - simpl. unfold storedLLV, stored. destruct r as [e causes|[l'|e|e|e]]; simpl; apply HQ; auto.
Qed.
Lemma removed_name l : llv_Name (RemoveFinalizer l RVRControllerFinalizer).2 = llv_Name l.
Proof. unfold RemoveFinalizer. by case_match. Qed.
Lemma releaseLLV_spec l : D (llv_Name l) → spec (releaseLLV l) (λ res, llv_Name res.1 = llv_Name l).
Proof using patch_keeps_name.
  intros HD. unfold releaseLLV. destruct (HasFinalizer l _); [|by apply triple_ret]. pose proof (removed_name l) as Hn.
  destruct (RemoveFinalizer l _) as [c l']. apply patch_spec; [done|]. intros l'' e H. simpl in *. congruence.
Qed.
Lemma deleteLLV_takes l : D (llv_Name l) → calls (takes D) (deleteLLV l).
Proof. intros HD. unfold deleteLLV. calls. by intros n [= <-]. Qed.
Lemma dropLLV_takes l : D (llv_Name l) → calls (takes D) (dropLLV l).
Proof using patch_keeps_name.
  intros HD. unfold dropLLV. eapply calls_triple_bind; [by apply releaseLLV_spec|]. intros [l' e] Hn. simpl in Hn.
  destruct e; [apply calls_ret|]. apply calls_bind; [apply deleteLLV_takes; congruence|]. intros [? ?]. apply calls_ret.
Qed.
Lemma dropFromLast_takes keep llvs : (∀ n, n ∉ keep → D n) → calls (takes D) (dropFromLast keep llvs).
Proof using patch_keeps_name.
  intros HD. induction llvs as [|l llvs IH]; simpl; [apply calls_ret|]. apply calls_bind; [done|]. intros [rest [r|]]; [apply calls_ret|].
  destruct (slices_Contains keep (llv_Name l)) eqn:E; [apply calls_ret|]. apply calls_bind; [|intros [? ?]; apply calls_ret].
  apply dropLLV_takes, HD. intros Hin. unfold slices_Contains in E. by apply bool_decide_eq_false in E.
Qed.
Lemma deletion_takes keep llvs : (∀ n, n ∉ keep → D n) → calls (takes D) (reconcileLLVsDeletion llvs keep).
Proof using patch_keeps_name.
  intros HD. unfold reconcileLLVsDeletion. apply calls_bind; [by apply dropFromLast_takes|]. intros [? ?]. apply calls_ret.
Qed.
Lemma report_takes rvr llvs t (i : option backingVolume) ro status reason message :
  calls (takes D) (report rvr llvs t i ro status reason message).
Proof. unfold report. calls. Qed.
Lemma SetControllerRef_takes refs owner : calls (takes D) (SetControllerRef refs owner).
Proof. unfold SetControllerRef. calls. Qed.
Lemma withoutBackingVolume_takes rvr llvs reason message : (∀ n, D n) → calls (takes D) (withoutBackingVolume rvr llvs reason message).
Proof using patch_keeps_name.
  intros HD. unfold withoutBackingVolume. destruct llvs as [|l llvs].
  - destruct (String.eqb _ _); [|apply report_takes]. destruct (applyBackingVolumeReadyCondAbsent rvr). apply calls_ret.
  - apply calls_bind; [apply deletion_takes; auto|]. intros [[? ?] ro]. destruct (ShouldReturn ro); [apply calls_ret|apply report_takes].
Qed.
Lemma waitForOld_takes rvr before l after actual i : D (llv_Name l) → calls (takes D) (waitForOld rvr before l after actual i).
Proof using patch_keeps_name.
  intros HD. unfold waitForOld. eapply calls_triple_bind; [by apply releaseLLV_spec|]. intros [? [?|]] _; [apply calls_ret|apply report_takes].
Qed.
Lemma provision_takes rvr v llvs actual i : calls (takes D) (provision rvr v llvs actual i).
Proof.
  pose proof report_takes as Hr. pose proof SetControllerRef_takes as Hs. unfold provision, newLLV, createLLV. calls; auto.
Qed.
Lemma label_finalizers l key value : llv_Finalizers (SetLabel l key value).2 = llv_Finalizers l.
Proof. unfold SetLabel. by repeat case_match. Qed.
Lemma metadata_kept l n rv : llv_Finalizers (withClassLabel (withValue l ReplicatedVolumeLabelKey n).2 rv).2 = llv_Finalizers l.
Proof.
  unfold withClassLabel, withValue. destruct rv as [v|]; [destruct (negb _)|]; rewrite ?label_finalizers; destruct (negb _); rewrite ?label_finalizers; try done.
  all: unfold RemoveLabel; repeat case_match; try done; apply label_finalizers.
Qed.
Lemma added_finalizer l : HasFinalizer (AddFinalizer l RVRControllerFinalizer).2 RVRControllerFinalizer = true.
Proof.
  unfold AddFinalizer, HasFinalizer. destruct (slices_Contains (GetFinalizers l) RVRControllerFinalizer) eqn:E; [done|].
  unfold slices_Contains. simpl. apply bool_decide_eq_true_2, elem_of_app. right. constructor.
Qed.
Lemma applyLLVMetadata_keeps rvr rv l : triple False (takes D) (applyLLVMetadata rvr rv l) (λ res, HasFinalizer res.1.2 RVRControllerFinalizer = true).
Proof.
  unfold applyLLVMetadata. pose proof (added_finalizer l) as Ha. destruct (AddFinalizer l _) as [c1 l1]. simpl in Ha.
  pose proof (metadata_kept l1 (rvr_Spec_ReplicatedVolumeName rvr) rv) as Hm.
  destruct (withValue l1 _ _) as [c2 l2]. simpl in Hm. destruct (withClassLabel l2 rv) as [c3 l3]. simpl in Hm.
  assert (H3 : HasFinalizer l3 RVRControllerFinalizer = true) by (unfold HasFinalizer in *; simpl in *; by rewrite Hm).
  eapply triple_bind; [apply triple_calls, SetControllerRef_takes|]. intros [e|[c4 refs]] _; by apply triple_ret.
Qed.
Lemma ensureLLVMetadata_takes rvr v l : triple False (takes D) (ensureLLVMetadata rvr v l) (λ res, isLLVMetadataInSync rvr (Some v) l = true → res = (l, None)).
Proof.
  unfold ensureLLVMetadata. destruct (isLLVMetadataInSync rvr (Some v) l); [by apply triple_ret|].
  eapply triple_bind; [apply applyLLVMetadata_keeps|]. intros [[c l'] [e|]] Hl; simpl in Hl; [by apply triple_ret|].
  unfold patchLLV. apply triple_call; [|intros a; destruct (storedLLV l' a); by apply triple_ret].
  apply takes_quiet. unfold takenLLV, released. simpl. by rewrite Hl, andb_false_r.
Qed.
Lemma resize_takes rvr before l after size actual i : calls (takes D) (resize rvr before l after size actual i).
Proof.
  pose proof report_takes as Hr. unfold resize, patchLLV. destruct (String.eqb _ _); [apply Hr|]. apply calls_bind.
  - apply calls_do, takes_quiet. unfold takenLLV, released, HasFinalizer. simpl. by rewrite andb_negb_r.
  - intros a. destruct a as [e causes|a]; [|destruct (stored _ a) as [? [?|]]; [apply calls_ret|apply Hr]].
    apply calls_bind; [apply calls_lift|]. intros. apply Hr.
Qed.
Lemma fullyReady_takes rvr llvs i : (∀ n, n ≠ bv_LLVName i → D n) → calls (takes D) (fullyReady rvr llvs i).
Proof using patch_keeps_name.
  intros HD. unfold fullyReady. apply calls_bind; [apply deletion_takes; intros n Hn; apply HD; set_solver|].
  intros [[? ?] ro]. destruct (ShouldReturn ro); [apply calls_ret|apply report_takes].
Qed.
(** A volume that holds the data at the intended size, unless its metadata has to be written first. *)
Definition inPlace rvr v x i : Prop := isLLVMetadataInSync rvr (Some v) x = true →
  isLLVReady x = true ∧ ∃ st, llv_Status x = Some st ∧ ¬ q_Cmp (ls_ActualSize st) (b_Size i) < 0.
Lemma settle_takes rvr v before l after actual i : (inPlace rvr v l i → ∀ n, n ≠ bv_LLVName i → D n) →
  calls (takes D) (settle rvr v before l after actual i).
Proof using patch_keeps_name.
  intros HD. unfold settle. eapply calls_triple_bind; [apply ensureLLVMetadata_takes|]. intros [l' r] Hl. simpl in Hl.
  destruct r; [apply calls_ret|]. destruct (if isLLVReady l' then llv_Status l' else None) as [st|] eqn:Hst.
  - destruct (Z.ltb_spec (q_Cmp (ls_ActualSize st) (b_Size i)) 0); [apply resize_takes|]. apply fullyReady_takes, HD.
    intros Hin. specialize (Hl Hin). simplify_eq. destruct (isLLVReady l); [|done]. split; [done|]. exists st. split; [done|]. lia.
  - destruct (notReady _ _). apply report_takes.
Qed.
Lemma provided name llvs : splitLLV name llvs = None → findLLVByName llvs name = None.
Proof.
  induction llvs as [|x llvs IH]; simpl; [done|]. destruct (String.eqb (llv_Name x) name); [done|].
  destruct (splitLLV name llvs) as [[[? ?] ?]|]; simpl; [done|]. auto.
Qed.
Lemma split_found name llvs before l after : splitLLV name llvs = Some (before, l, after) → findLLVByName llvs name = Some l.
Proof.
  revert before. induction llvs as [|x llvs IH]; intros before; simpl; [done|].
  destruct (String.eqb (llv_Name x) name); [by intros [= <- <- <-]|].
  destruct (splitLLV name llvs) as [[[b l'] a]|]; simpl; [|done]. intros [= <- <- <-]. by apply (IH b).
Qed.
Lemma found_name name llvs l : findLLVByName llvs name = Some l → llv_Name l = name.
Proof. intros [_ H]%List.find_some. by apply String.eqb_eq. Qed.
End llvs.

(** When a replica, or the absence of one, lets the volume named [n] go. *)
Section dispensable.
Context {K : K8s} {Meta : MetaApi} {S : Server}.
Implicit Types (rvr : ReplicatedVolumeReplica) (rv : option ReplicatedVolume) (v : ReplicatedVolume) (l : LVMLogicalVolume)
  (llvs : list LVMLogicalVolume) (drbdr : option DRBDResource) (view : option rspEligibilityView) (i : backingVolume).
Hypothesis patch_keeps_name : ∀ b l w l', (serve (PatchLLV b l) w).2 = Valid (Replied l') → llv_Name l' = llv_Name l.

(** The intended volume is another one and is in place; or it is its predecessor of the same name that is
    being deleted, for a replica outside the datamesh. *)
Definition superseded rvr v llvs i (n : string) : Prop := ∃ l, findLLVByName llvs (bv_LLVName i) = Some l ∧
  ((n ≠ bv_LLVName i ∧ inPlace rvr v l i) ∨
   (n = bv_LLVName i ∧ is_Some (llv_DeletionTimestamp l) ∧ FindMemberByName v (rvr_Name rvr) = None)).
Definition dispensable rvr rv drbdr llvs view (n : string) : Prop := rvrShouldNotExist rvr = true ∨
  ∃ v, rv = Some v ∧ rv_DatameshRevision v ≠ 0 ∧
    match computeIntendedBackingVolume rvr v (computeActualBackingVolume drbdr llvs) view with
    | Ok (inl _) => True
    | Ok (inr i) => superseded rvr v llvs i n
    | _ => False
    end.
Lemma withIntended_takes rvr v llvs actual i : calls (takes (superseded rvr v llvs i)) (withIntended rvr v llvs actual i).
Proof using patch_keeps_name.
  unfold withIntended. destruct (splitLLV (bv_LLVName i) llvs) as [[[before l] after]|] eqn:Hs; [|apply provision_takes].
  apply split_found in Hs. destruct (bool_decide (is_Some (llv_DeletionTimestamp l))) eqn:Hd;
    [apply bool_decide_eq_true in Hd; destruct (decide (FindMemberByName v (rvr_Name rvr) = None)) as [Hm|Hm]|].
  - rewrite bool_decide_eq_true_2 by done. apply waitForOld_takes; [done|]. exists l. split; [done|]. right.
    by rewrite (found_name _ _ _ Hs).
  - rewrite bool_decide_eq_false_2 by done. apply settle_takes; [done|]. intros Hin n Hn. exists l. auto.
  - apply settle_takes; [done|]. intros Hin n Hn. exists l. auto.
Qed.
Lemma reconcileExisting_takes rvr rv drbdr llvs view :
  calls (takes (dispensable rvr rv drbdr llvs view)) (reconcileExisting rvr llvs rv drbdr view).
Proof using patch_keeps_name.
  unfold reconcileExisting. destruct (rvrShouldNotExist rvr) eqn:Hs.
  { apply withoutBackingVolume_takes; [done|]. by left. }
  destruct rv as [v|]; [|apply report_takes]. destruct (Z.eqb_spec (rv_DatameshRevision v) 0); [apply report_takes|].
  apply calls_lift_bind. intros [[reason message]|i] Hi.
  - apply withoutBackingVolume_takes; [done|]. right. exists v. by rewrite Hi.
  - eapply calls_weaken; [apply withIntended_takes|]. intros e He k Hk. right. exists v. rewrite Hi. auto.
Qed.

End dispensable.

(** ** The replica's own finalizer *)
Section replica.
Context {K : K8s} {Meta : MetaApi} {S : Server}.
Implicit Types (rvr : ReplicatedVolumeReplica) (rv : option ReplicatedVolume) (llvs : list LVMLogicalVolume) (drbdr : option DRBDResource).

Lemma rvr_added rvr : HasFinalizer (AddFinalizer rvr RVRControllerFinalizer).2 RVRControllerFinalizer = true.
Proof.
  unfold AddFinalizer, HasFinalizer. destruct (slices_Contains (GetFinalizers rvr) RVRControllerFinalizer) eqn:E; [done|].
  unfold slices_Contains. simpl. apply bool_decide_eq_true_2, elem_of_app. right. constructor.
Qed.
Lemma rvr_label rvr key value : rvr_Finalizers (withValue rvr key value).2 = rvr_Finalizers rvr.
Proof. unfold withValue, SetLabel. by repeat case_match. Qed.
Lemma rvr_class rvr rv : rvr_Finalizers (withClassLabel rvr rv).2 = rvr_Finalizers rvr.
Proof. unfold withClassLabel, SetLabel, RemoveLabel. by repeat case_match. Qed.
Lemma rvr_metadata_keeps rvr rv lvg : HasFinalizer (applyRVRMetadata rvr rv true lvg).2 RVRControllerFinalizer = true.
Proof.
  unfold applyRVRMetadata. pose proof (rvr_added rvr) as H. destruct (AddFinalizer rvr _) as [c1 r1]. simpl in H.
  pose proof (rvr_label r1 ReplicatedVolumeLabelKey (rvr_Spec_ReplicatedVolumeName r1)) as H2. destruct (withValue r1 _ _) as [c2 r2]. simpl in H2.
  pose proof (rvr_class r2 rv) as H3. destruct (withClassLabel r2 rv) as [c3 r3]. simpl in H3.
  pose proof (rvr_label r3 LVMVolumeGroupLabelKey lvg) as H4. destruct (withValue r3 _ _) as [c4 r4]. simpl in *.
  unfold HasFinalizer in *. simpl in *. congruence.
Qed.

(** A replica disappears last.  The metadata step makes no other call than one patch of the replica it
    was given, and that patch takes the controller's finalizer only when the replica is being deleted and
    held by no other finalizer, none of its logical volumes was listed and its DRBD resource was not found;
    the pass then ends. *)
Theorem replica_released_last rvr rv llvs drbdr w : let '(_, (es, r)) := reconcileMetadata rvr rv llvs drbdr w in
  (∀ e, e ∈ es → ∃ obj, e = Event _ (PatchRVR rvr obj) ∧
     (released rvr obj = true → is_Some (rvr_DeletionTimestamp rvr) ∧ rvrShouldNotExist rvr = true ∧ llvs = [] ∧ drbdr = None ∧
        (∀ rvr' o, r = Ok (rvr', o) → ShouldReturn o = true))).
Proof.
  unfold reconcileMetadata, fmap, M_fmap, mbind, M_bind. destruct (isRVRMetadataInSync _ _ _ _); [by intros e ?%elem_of_nil|].
  pose proof (rvr_metadata_keeps rvr rv (actualLVGName llvs drbdr)) as Hkeep.
  destruct (targetFinalizer rvr llvs drbdr) eqn:Ht.
  - destruct (applyRVRMetadata rvr rv true _) as [c r]. simpl in Hkeep. unfold patchRVR, do.
    destruct (serve (PatchRVR rvr r) w) as [w' a]. cbn. destruct (stored r a) as [r' e]. cbn. intros ev ->%list_elem_of_singleton.
    exists r. split; [done|]. unfold released. by rewrite Hkeep, andb_false_r.
  - destruct (applyRVRMetadata rvr rv false _) as [c r]. unfold patchRVR, do.
    destruct (serve (PatchRVR rvr r) w) as [w' a]. cbn. destruct (stored r a) as [r' e]. cbn. intros ev ->%list_elem_of_singleton.
    exists r. split; [done|]. intros [Hf _]%andb_true_iff. unfold targetFinalizer, HasFinalizer in *. simpl in Hf, Ht. rewrite Hf, andb_false_r in Ht.
    apply orb_false_iff in Ht as [[Hs%negb_false_iff Hl]%orb_false_iff Hd].
    assert (Hdel : is_Some (rvr_DeletionTimestamp rvr)) by (unfold rvrShouldNotExist in Hs; by case_match).
    split; [done|]. split; [done|]. split; [by destruct llvs|]. split.
    { apply bool_decide_eq_false in Hd. by destruct drbdr; [destruct Hd; eexists|]. }
    intros rvr' o [= <- <-]. by destruct e.
Qed.
End replica.
