(* ===== verification/DrbdrTheory.v ===== *)
(** * The agent: theorems on minors, device UUIDs, paths, reports and the scanner

    A free minor is found; device UUIDs read back as they were generated; the paths of a peer converge
    without the connection losing its last one; what is reported of peers; which ports the cache of the
    scanner holds, and that every resource it hears of is queued.  The passes over a resource are in
    DrbdrSafety. *)

From Stdlib Require Import ZArith Lia String Ascii Sorted DecimalString DecimalZ.
From stdpp Require Import base gmap list numbers strings option sorting.
From S2P Require Import Prelude IdSet DrbdSize Api Object Storage Flow Client DrbdUtils Drbdr DrbdrController.
Import v1alpha1 objutilv1 storage drbd flow client host drbdstatus gostrings agent_errors drbdutils maps drbdr port_cache drbdr_controller.

Set Default Proof Using "Type".

(** ** UUIDs of devices *)
Section uuids.
Lemma nibble_cases n : 0 ≤ n < 16 → n ∈ seqZ 0 16.
Proof. intros. apply elem_of_seqZ. lia. Qed.
(** What holds of the sixteen digits holds of every digit. *)
Lemma hexDigit_all (P : Z → ascii → bool) : forallb (λ n, P n (hexDigit n)) (seqZ 0 16) = true → ∀ n, 0 ≤ n < 16 → P n (hexDigit n) = true.
Proof. intros Hall n Hn. rewrite forallb_forall in Hall. apply Hall, list_elem_of_In, nibble_cases, Hn. Qed.
Definition hexValue (c : ascii) : Z := let n := Z.of_nat (nat_of_ascii c) in if n <? 58 then n - 48 else n - 55.
Lemma hexDigit_value n : 0 ≤ n < 16 → hexValue (hexDigit n) = n.
Proof. intros Hn. apply Z.eqb_eq. revert n Hn. apply (hexDigit_all (λ n c, hexValue c =? n)). reflexivity. Qed.
Lemma hexDigit_upper n s : 0 ≤ n < 16 → isUpperHex (String (hexDigit n) s) = isUpperHex s.
Proof.
  intros Hn. cbn [isUpperHex]. pose proof (hexDigit_all (λ _ c, isUpperHex (String c "")) eq_refl n Hn) as H. cbn [isUpperHex] in H.
  by rewrite andb_true_r in H; rewrite H.
Qed.
Lemma nibble_range v n : 0 ≤ Z.land (Z.shiftr v n) 15 < 16.
Proof. change 15 with (Z.ones 4). rewrite Z.land_ones by lia. apply Z.mod_pos_bound. lia. Qed.
Lemma hexPad_upper n v : isUpperHex (hexPad n v) = true.
Proof. induction n as [|n IH]; [done|]. cbn [hexPad]. rewrite hexDigit_upper; [done|apply nibble_range]. Qed.
Lemma hexPad_length n v : String.length (hexPad n v) = n.
Proof. induction n; simpl; congruence. Qed.
(** Sixteen digits read back as the number. *)
Fixpoint hexNumber (s : string) (acc : Z) : Z := match s with EmptyString => acc | String c s => hexNumber s (16 * acc + hexValue c) end.
Lemma nibble_split v n : 0 ≤ n → Z.shiftr v n = 16 * Z.shiftr v (n + 4) + Z.land (Z.shiftr v n) 15.
Proof.
  intros Hn. change 15 with (Z.ones 4). rewrite Z.land_ones, <-Z.shiftr_shiftr by lia. rewrite (Z.shiftr_div_pow2 _ 4) by lia.
  change (2 ^ 4) with 16. pose proof (Z.div_mod (Z.shiftr v n) 16). lia.
Qed.
Lemma hexNumber_hexPad n v : hexNumber (hexPad n v) (Z.shiftr v (4 * Z.of_nat n)) = v.
Proof.
  induction n as [|n IH]; [apply Z.shiftr_0_r|]. cbn [hexPad hexNumber]. rewrite hexDigit_value by apply nibble_range.
  rewrite <-IH at 4. f_equal. symmetry. etrans; [apply nibble_split; lia|]. do 3 f_equal. lia.
Qed.

Lemma upper_not_space c s : isUpperHex (String c s) = true → isSpace c = false ∧ Ascii.eqb c (ascii_of_nat 10) = false ∧ isUpperHex s = true.
Proof.
  cbn [isUpperHex]. intros [Hc Hs]%andb_prop. split_and!; [|apply Ascii.eqb_neq; intros ->; by vm_compute in Hc|done].
  unfold isSpace. apply not_true_is_false. intros Hsp. repeat (rewrite ?orb_true_iff, ?andb_true_iff in * ).
  rewrite ?Nat.eqb_eq, ?Nat.leb_le in *. lia.
Qed.
Lemma upper_split s : isUpperHex s = true → Split (ascii_of_nat 10) (s +:+ newline) = [s; ""].
Proof.
  induction s as [|c s IH]; [done|]. intros (_ & Hc & Hs)%upper_not_space. change (String c s +:+ newline) with (String c (s +:+ newline)).
  cbn [Split]. rewrite Hc. by rewrite (IH Hs).
Qed.
Lemma upper_trimLeft s : isUpperHex s = true → trimLeft s = s.
Proof. destruct s; [done|]. intros (Hc & _)%upper_not_space. cbn [trimLeft]. by rewrite Hc. Qed.
Lemma upper_trimRight s : isUpperHex s = true → trimRight s = s.
Proof. induction s as [|c s IH]; [done|]. intros (Hc & _ & Hs)%upper_not_space. cbn [trimRight]. rewrite (IH Hs). destruct s; [by rewrite Hc|done]. Qed.
Lemma parseDevUUID_line s : isDevUUID s = true → parseDevUUID (s +:+ newline) = s.
Proof.
  intros Hd. pose proof Hd as [_ Hu]%andb_prop. unfold parseDevUUID. rewrite upper_split by done.
  unfold TrimSpace. cbn [map List.find]. rewrite upper_trimLeft, upper_trimRight by done. by rewrite Hd.
Qed.
Section read_back.
Context {K : K8s} {Srv : Server}.
Lemma generated_value random : 0 ≤ random < 2 ^ 64 → hexNumber (generateDeviceUUID random) 0 = random.
Proof.
  intros Hr. rewrite <-(hexNumber_hexPad 16 random) at 2. unfold generateDeviceUUID. f_equal. symmetry. apply Z.shiftr_eq_0; [lia|].
  destruct (decide (random = 0)) as [->|]; [by vm_compute|]. apply Z.log2_lt_pow2; [lia|]. apply Hr.
Qed.
(** C33 A generated device UUID is sixteen upper-case hexadecimal digits that determine the number they were
    drawn from; printed by drbdmeta on a line it is read back, but the number 0 reads as no UUID. *)
Theorem device_uuid_roundtrip random dev w : 0 ≤ random < 2 ^ 64 →
  (serve (OnHost (Exec DRBDMetaCommand (ReadDevUUIDArgs dev))) w).2 = (generateDeviceUUID random +:+ newline, None) →
  isDevUUID (generateDeviceUUID random) = true ∧ hexNumber (generateDeviceUUID random) 0 = random ∧
  (ExecuteReadDevUUID dev w).2.2 = Ok (inr (if random =? 0 then "" else generateDeviceUUID random)).
Proof.
  intros Hr Hs. assert (Hd : isDevUUID (generateDeviceUUID random) = true).
  { unfold isDevUUID, generateDeviceUUID. by rewrite hexPad_length, hexPad_upper. }
  split; [done|]. split; [by apply generated_value|].
  unfold ExecuteReadDevUUID, executeCommand, do, mbind, M_bind, mret, M_ret. destruct (serve _ w) as [w' o]. simpl in Hs. subst o. cbn [snd].
  rewrite parseDevUUID_line by done.
  assert (Hz : String.eqb (generateDeviceUUID random) zeroUUID = (random =? 0)).
  { apply eq_bool_prop_intro. rewrite !Is_true_true, String.eqb_eq, Z.eqb_eq. split; [|by intros ->].
    intros Heq%(f_equal (λ s, hexNumber s 0)). by rewrite generated_value in Heq. }
  rewrite Hz. destruct (String.eqb_spec (generateDeviceUUID random) "") as [He|He].
  - by apply (f_equal String.length) in He; unfold generateDeviceUUID in He; rewrite hexPad_length in He.
  - by destruct (random =? 0).
Qed.
End read_back.
Definition printing (out : string) : Server := {|
  World := Z;
  serve A c := match c in call T return Z → Z * T with
    | OnHost c => match c in hostcall T return Z → Z * T with
        | Exec _ _ => λ n, (n, (out, None))
        | c => λ n, (n, quietHost c)
        end
    | c => λ n, (n, (serve (Server := store_server (K := K8s_concrete) zeroStore) c 0).2)
    end |}.
Lemma device_uuid_roundtrip_witness : let uuid := generateDeviceUUID 255 in
  isDevUUID uuid = true ∧ hexNumber uuid 0 = 255 ∧
  (ExecuteReadDevUUID (Srv := printing (uuid +:+ newline)) "/dev/vg/lv" 0).2.2 = Ok (inr "00000000000000FF").
Proof. apply (device_uuid_roundtrip (Srv := printing (generateDeviceUUID 255 +:+ newline)) 255 "/dev/vg/lv" 0); [lia|reflexivity]. Defined.
End uuids.

(** ** Minors *)
Section minors.
Lemma firstGap_spec next l :
  StronglySorted Z.le l → next ≤ firstGap next l ≤ next + Z.of_nat (length l) ∧ firstGap next l ∉ l.
Proof.
  intros Hs. revert next. induction Hs as [|m l Hs IH Hm]; intros next; [split; [simpl; lia|set_solver]|].
  cbn [firstGap length]. rewrite Forall_forall in Hm. destruct (Z.ltb_spec next m) as [Hlt|Hge].
  - split; [lia|]. intros [->|Hl]%elem_of_cons; [lia|]. specialize (Hm _ Hl). lia.
  - destruct (Z.eqb_spec m next) as [->|Hne].
    + destruct (IH (next + 1)) as [Hb Hn]. split; [lia|]. intros [Heq|Hl]%elem_of_cons; [lia|done].
    + destruct (IH next) as [Hb Hn]. split; [lia|]. intros [Heq|Hl]%elem_of_cons; [lia|done].
Qed.
Lemma sorted_last l m : StronglySorted Z.le l → list.last l = Some m → ∀ x, x ∈ l → x ≤ m.
Proof.
  intros Hs. induction Hs as [|y l Hs IH Hy]; [done|]. intros Hl x Hx. rewrite Forall_forall in Hy.
  destruct l as [|z l]; [by simplify_eq/=; set_solver|].
  change (list.last (y :: z :: l)) with (list.last (z :: l)) in Hl. apply elem_of_cons in Hx as [->|Hx]; [|auto].
  apply Hy. by apply last_Some_elem_of.
Qed.
Definition sizes_ok (l : list Z) : Prop := StronglySorted Z.le l ∧ ∀ m, m ∈ l → 0 ≤ m < 2 ^ 64 - 1.
Lemma advance_free next used n : 
  0 ≤ next ≤ MaxDeviceMinor → sizes_ok used → advance next used = Some n → 0 ≤ n ≤ MaxDeviceMinor ∧ n ∉ used.
Proof.
  intros Hnext [Hs Hr]. unfold advance. destruct (Z.ltb_spec MaxDeviceMinor (Z.of_nat (length used))) as [|Hlen]; [done|].
  intros [= <-]. set (next' := match list.last used with Some m => _ | None => next end).
  assert (Hn' : 0 ≤ next' ∧ ∀ x, x ∈ used → x < next').
  { subst next'. destruct (list.last used) as [m|] eqn:El.
    - assert (m ∈ used) as Hm%Hr by by apply last_Some_elem_of. unfold wrap64. rewrite Z.mod_small by lia. split; [lia|].
      intros x Hx%(sorted_last _ _ Hs El). lia.
    - apply last_None in El as ->. split; [lia|set_solver]. }
  destruct Hn' as [Hp Hlast]. destruct (Z.ltb_spec MaxDeviceMinor next').
  - destruct (firstGap_spec 0 used Hs). split; [lia|done].
  - split; [lia|]. intros Hx%Hlast. lia.
Qed.
Lemma sorted_minors l : (∀ m, m ∈ l → 0 ≤ m < 2 ^ 64 - 1) → sizes_ok (sort_by Z.leb l).
Proof.
  intros Hl. split; [|intros m; rewrite sort_by_perm; auto].
  apply Sorted_StronglySorted; [intros ???; lia|]. assert (HS : Sorted (λ x y, (x <=? y) = true) (sort_by Z.leb l)) by (apply sort_by_sorted; intros; lia).
  induction HS as [|x k Hk IH Hd]; constructor; [done|]. destruct Hd; constructor. lia.
Qed.
End minors.

(** A node whose devices are [names]: the counter of minors is only changed by storing it, and drbdsetup
    refuses a minor exactly when a device has it. *)
Section new_minor.
Context {K : K8s} {Srv : Server}.
Variables (resource : string) (volume : Z) (diskless : bool) (names : list string) (counter : World → Z).
Let usedMinors : list Z := omap minorOf names.
Record minor_laws : Prop := {
  ml_load w : let '(w', n) := serve (OnHost LoadNextMinor) w in n = counter w ∧ counter w' = n;
  ml_store n w : counter (serve (OnHost (StoreNextMinor n)) w).1 = n;
  ml_readdir w : let '(w', r) := serve (OnHost (ReadDir SysBlockPath)) w in r = inr names ∧ counter w' = counter w;
  ml_exec minor w :
    let '(w', (out, err)) := serve (OnHost (Exec DRBDSetupCommand (NewMinorArgs resource minor volume diskless))) w in
    counter w' = counter w ∧
    if decide (minor ∈ usedMinors) then ∃ e, err = Some (e, 10) ∧ Contains out "(161)" = true else err = None;
}.
Hypothesis laws : minor_laws.


Lemma ExecuteNewMinor_free minor w : minor ∉ usedMinors →
  ∃ w' es, ExecuteNewMinor resource minor volume diskless w = (w', (es, Ok None)) ∧ counter w' = counter w.
Proof using laws.
  intros Hm. pose proof (ml_exec laws minor w) as Hx. unfold ExecuteNewMinor, run, executeCommand, do, fmap, M_fmap, mbind, M_bind, mret, M_ret.
  destruct (serve _ w) as [w' [out err]]. rewrite decide_False in Hx by done. destruct Hx as [Hc ->]. by eexists _, _.
Qed.
Lemma ExecuteNewMinor_used minor w : minor ∈ usedMinors →
  ∃ w' es e, ExecuteNewMinor resource minor volume diskless w = (w', (es, Ok (Some e))) ∧ Is e ErrNewMinorAlreadyExists = true ∧ counter w' = counter w.
Proof using laws.
  intros Hm. pose proof (ml_exec laws minor w) as Hx. unfold ExecuteNewMinor, run, executeCommand, do, fmap, M_fmap, mbind, M_bind, mret, M_ret.
  destruct (serve _ w) as [w' [out err]]. rewrite decide_True in Hx by done. destruct Hx as [Hc (e & -> & Ho)].
  eexists _, _, _. split; [reflexivity|]. split; [|done]. unfold NewMinorKnownErrors, known, matches. cbn [map List.find ke_ExitCode ke_OutputSubstring].
  rewrite Ho. cbn [Z.eqb Pos.eqb andb]. unfold withOutput. by destruct (String.eqb out "").
Qed.
Lemma grabNextMinor_spec w : ∃ w' es, grabNextMinor w = (w', (es, Ok (counter w))) ∧ counter w' = nextAfter (counter w).
Proof using laws.
  pose proof (ml_load laws w) as Hl. unfold grabNextMinor, do, mbind, M_bind, mret, M_ret. destruct (serve _ w) as [w1 n]. destruct Hl as [-> Hc].
  pose proof (ml_store laws (nextAfter (counter w)) w1) as Hs. destruct (serve _ w1) as [w2 []]. by eexists _, _.
Qed.
Lemma advance_spec w n : advance (counter w) (sort_by Z.leb usedMinors) = Some n →
  ∃ w' es, advanceMinorPastUsed (sort_by Z.leb usedMinors) w = (w', (es, Ok None)) ∧ counter w' = n.
Proof using laws.
  intros Ha. pose proof (ml_load laws w) as Hl. unfold advanceMinorPastUsed, do, mbind, M_bind, mret, M_ret. destruct (serve _ w) as [w1 m].
  destruct Hl as [-> Hc]. rewrite Ha. pose proof (ml_store laws n w1) as Hs. destruct (serve _ w1) as [w2 []]. by eexists _, _.
Qed.
Lemma readUsedMinors_spec w : ∃ w' es, readUsedMinors w = (w', (es, Ok (inr (sort_by Z.leb usedMinors)))) ∧ counter w' = counter w.
Proof using laws.
  pose proof (ml_readdir laws w) as Hr. unfold readUsedMinors, do, mbind, M_bind, mret, M_ret. destruct (serve _ w) as [w1 r].
  destruct Hr as [-> Hc]. by eexists _, _.
Qed.
Lemma nextAfter_range n : 0 ≤ n ≤ MaxDeviceMinor → 0 ≤ nextAfter n ≤ MaxDeviceMinor.
Proof. intros. unfold nextAfter, wrap64, MaxDeviceMinor in *. rewrite Z.mod_small by lia. destruct (Z.ltb_spec 1048575 (n + 1)); lia. Qed.
Lemma seq_ok {A B} (m : M A) (f : A → M B) w w' es a : m w = (w', (es, Ok a)) →
  (m ≫= f) w = let '(w'', (es', r)) := f a w' in (w'', (es ++ es', r)).
Proof. intros H. unfold mbind, M_bind. by rewrite H. Qed.
(** One round: a free minor is taken; otherwise the counter moves to a free one. *)
Lemma round fuel w : counter w ∉ usedMinors → ∃ w' es,
  ExecuteNewAutoMinor (Datatypes.S fuel) resource volume diskless w = (w', (es, Ok (inr (counter w)))).
Proof using laws.
  intros Hf. destruct (grabNextMinor_spec w) as (w1 & e1 & Hg & _). destruct (ExecuteNewMinor_free _ w1 Hf) as (w2 & e2 & Hx & _).
  cbn [ExecuteNewAutoMinor]. erewrite seq_ok by exact Hg. erewrite seq_ok by exact Hx. by eexists _, _.
Qed.

(** C18 A minor is found in at most two rounds when not every minor is taken and drbdsetup refuses only
    minors in use: the search ends, and its result is free and in range. *)
Theorem new_minor_found fuel w :
  0 ≤ counter w ≤ MaxDeviceMinor → (∀ m, m ∈ usedMinors → 0 ≤ m < 2 ^ 64 - 1) → Z.of_nat (length usedMinors) ≤ MaxDeviceMinor →
  ∃ w' es minor, ExecuteNewAutoMinor (Datatypes.S (Datatypes.S fuel)) resource volume diskless w = (w', (es, Ok (inr minor))) ∧
    minor ∉ usedMinors ∧ 0 ≤ minor ≤ MaxDeviceMinor.
Proof using laws.
  intros Hc Hr Hlen. destruct (decide (counter w ∈ usedMinors)) as [Hu|Hu].
  2: { destruct (round (Datatypes.S fuel) w Hu) as (w' & es & H). by eexists _, _, _. }
  destruct (grabNextMinor_spec w) as (w1 & e1 & Hg & Hc1). destruct (ExecuteNewMinor_used _ w1 Hu) as (w2 & e2 & e & Hx & He & Hc2).
  destruct (readUsedMinors_spec w2) as (w3 & e3 & Hrd & Hc3).
  assert (Hn : 0 ≤ counter w3 ≤ MaxDeviceMinor) by (rewrite Hc3, Hc2, Hc1; by apply nextAfter_range).
  destruct (advance (counter w3) (sort_by Z.leb usedMinors)) as [n|] eqn:Ha.
  2: { unfold advance in Ha. rewrite (Permutation_length (sort_by_perm _ _)) in Ha. case_match; [lia|done]. }
  destruct (advance_free _ _ _ Hn (sorted_minors _ Hr) Ha) as [Hnr Hnf]. rewrite sort_by_perm in Hnf.
  destruct (advance_spec w3 n Ha) as (w4 & e4 & Hadv & Hc4). rewrite <-Hc4 in Hnf.
  destruct (round fuel w4 Hnf) as (w5 & e5 & H5).
  remember (Datatypes.S fuel) as f1. cbn [ExecuteNewAutoMinor]. erewrite seq_ok by exact Hg. erewrite seq_ok by exact Hx. cbv beta iota. rewrite He. cbn [negb].
  erewrite seq_ok by exact Hrd. cbv beta iota. erewrite seq_ok by exact Hadv. cbv beta iota. rewrite H5. eexists _, _, _. split; [reflexivity|]. by rewrite Hc4 in *.
Qed.

End new_minor.

(** Exit code 10 with (161) also means that the resource has the volume already. *)
Section volume_exists.
Context {K : K8s} {Srv : Server}.
Variables (resource : string) (volume : Z) (diskless : bool) (names : list string).
Record volume_exists_laws : Prop := {
  ve_readdir w : (serve (OnHost (ReadDir SysBlockPath)) w).2 = inr names;
  ve_exec minor w : ∃ e out, (serve (OnHost (Exec DRBDSetupCommand (NewMinorArgs resource minor volume diskless))) w).2 = (out, Some (e, 10)) ∧
    Contains out "(161)" = true;
}.
(** When drbdsetup answers every new-minor with (161), which also means that the volume exists, the
    search never ends while some minor is free: no amount of fuel is enough. *)
Theorem new_minor_retries_forever fuel w :
  volume_exists_laws → Z.of_nat (length (omap minorOf names)) ≤ MaxDeviceMinor →
  (ExecuteNewAutoMinor fuel resource volume diskless w).2.2 = OutOfFuel.
Proof.
  intros laws Hlen. revert w. induction fuel as [|fuel IH]; intros w; [done|]. cbn [ExecuteNewAutoMinor].
  unfold grabNextMinor, ExecuteNewMinor, run, executeCommand, readUsedMinors, advanceMinorPastUsed, do, fmap, M_fmap, mbind, M_bind, mret, M_ret.
  destruct (serve (OnHost LoadNextMinor) w) as [w1 m]. destruct (serve _ w1) as [w2 []].
  destruct (ve_exec laws m w2) as (e & out & Hx & Ho). destruct (serve _ w2) as [w3 r]. simpl in Hx. subst r.
  unfold NewMinorKnownErrors, known, matches. cbn [map List.find ke_ExitCode ke_OutputSubstring]. rewrite Ho. cbn [Z.eqb Pos.eqb andb errOf].
  match goal with |- context [Is ?err ErrNewMinorAlreadyExists] =>
    replace (Is err ErrNewMinorAlreadyExists) with true by (unfold withOutput; by destruct (String.eqb out "")) end. cbn [negb].
  pose proof (ve_readdir laws w3) as Hr. destruct (serve _ w3) as [w4 r]. simpl in Hr. subst r.
  destruct (serve (OnHost LoadNextMinor) w4) as [w5 n]. unfold advance. rewrite (Permutation_length (sort_by_perm _ _)).
  destruct (Z.ltb_spec MaxDeviceMinor (Z.of_nat (length (omap minorOf names)))); [lia|].
  destruct (serve _ w5) as [w6 []]. specialize (IH w6). destruct (ExecuteNewAutoMinor _ _ _ _ _) as [w7 [es r]]. done.
Qed.
End volume_exists.

(** *** A node with the minors 0 and 2 taken *)
Section a_node.
Lemma itoa_inj a b : itoa a = itoa b → a = b.
Proof.
  intros H%(f_equal NilZero.int_of_string). unfold itoa in H.
  assert (Hn : ∀ z, Z.to_int z ≠ Decimal.Pos Decimal.Nil ∧ Z.to_int z ≠ Decimal.Neg Decimal.Nil).
  { intros z. pose proof (DecimalZ.to_of (Z.to_int z)) as Hz. rewrite DecimalZ.of_to in Hz. by split; intros Heq; rewrite Heq in Hz. }
  rewrite !NilZero.isi in H by apply Hn. simplify_eq. by apply DecimalZ.to_int_inj.
Qed.
#[local] Existing Instance K8s_concrete.
Definition taken (minors : list Z) : Server := {|
  World := Z;
  serve A c := match c in call T return Z → Z * T with
    | OnHost c => match c in hostcall T return Z → Z * T with
        | LoadNextMinor => λ n, (n, n)
        | StoreNextMinor m => λ _, (m, tt)
        | ReadDir _ => λ n, (n, inr (map (λ m, "drbd" +:+ itoa m) minors))
        | Exec _ args => λ n, (n, if decide (args !! 2%nat ∈ map (λ m, Some (itoa m)) minors) then ("(161)", Some (Leaf "exit status 10" false, 10)) else ("", None))
        | c => λ n, (n, quietHost c)
        end
    | c => λ n, (n, (serve (Server := store_server zeroStore) c 0).2)
    end |}.

Lemma taken_laws minors : omap minorOf (map (λ m, "drbd" +:+ itoa m) minors) = minors →
  minor_laws (Srv := taken minors) "sdsrv-a" 0 false (map (λ m, "drbd" +:+ itoa m) minors) id.
Proof.
  intros Hm. split; [done..|]. intros minor w. cbv beta iota delta [serve taken NewMinorArgs]. rewrite Hm. cbn [app lookup list_lookup].
  assert (Hiff : Some (itoa minor) ∈ map (λ m, Some (itoa m)) minors ↔ minor ∈ minors).
  { rewrite list_elem_of_fmap. split; [intros (m & Heq & Hin); simplify_eq; by apply itoa_inj in Heq as ->|eauto]. }
  change (FormatUint minor) with (itoa minor). destruct (decide (Some (itoa minor) ∈ _)), (decide (minor ∈ minors)); try tauto; split; eauto.
Qed.
Lemma new_minor_found_witness :
  ∃ w' es minor, ExecuteNewAutoMinor (Srv := taken [0; 2]) 2 "sdsrv-a" 0 false 0 = (w', (es, Ok (inr minor))) ∧
    minor ∉ [0; 2] ∧ 0 ≤ minor ≤ MaxDeviceMinor.
Proof.
  apply (new_minor_found (Srv := taken [0; 2]) "sdsrv-a" 0 false ["drbd0"; "drbd2"] id).
  - apply (taken_laws [0; 2]); reflexivity.
  - done.
  - intros m. change (omap minorOf _) with [0; 2]. rewrite !elem_of_cons. intros [->|[->|[]%elem_of_nil]]; lia.
  - vm_compute. congruence.
Defined.
(** drbdsetup answers as if the volume existed. *)
Definition volume_taken : Server := {|
  World := Z;
  serve A c := match c in call T return Z → Z * T with
    | OnHost c => match c in hostcall T return Z → Z * T with
        | Exec _ _ => λ n, (n, ("(161)", Some (Leaf "exit status 10" false, 10)))
        | c => λ n, (n, quietHost c)
        end
    | c => λ n, (n, (serve (Server := store_server zeroStore) c 0).2)
    end |}.
Lemma new_minor_retries_forever_witness : ∀ fuel, (ExecuteNewAutoMinor (Srv := volume_taken) fuel "sdsrv-a" 0 false 0).2.2 = OutOfFuel.
Proof.
  intros fuel. apply (new_minor_retries_forever (Srv := volume_taken) "sdsrv-a" 0 false []); [|vm_compute; congruence].
  split; [done|]. intros minor w. by eexists _, _.
Defined.
End a_node.

(** ** Collected maps and ranges *)
Section maps.
Context {Key : Type} `{Countable Key}.
Lemma Collect_snoc {V} (key : V → Key) l v : Collect key (l ++ [v]) = <[key v := v]> (Collect key l).
Proof. unfold Collect. by rewrite foldl_app. Qed.
Lemma Collect_some {V} (key : V → Key) (l : list V) k v : Collect key l !! k = Some v → v ∈ l ∧ key v = k.
Proof.
  induction l as [|x l IH] using rev_ind; [done|]. rewrite Collect_snoc, lookup_insert_Some, elem_of_app, list_elem_of_singleton. naive_solver.
Qed.
Lemma Collect_none {V} (key : V → Key) (l : list V) k : Collect key l !! k = None ↔ ∀ v, v ∈ l → key v ≠ k.
Proof.
  induction l as [|x l IH] using rev_ind; [split; [by intros _ v ?%elem_of_nil|done]|].
  rewrite Collect_snoc, lookup_insert_None, IH. setoid_rewrite elem_of_app. setoid_rewrite list_elem_of_singleton. naive_solver.
Qed.
Lemma Collect_is_some {V} (key : V → Key) (l : list V) k : is_Some (Collect key l !! k) ↔ ∃ v, v ∈ l ∧ key v = k.
Proof.
  split; [intros [v Hv]; exists v; by apply Collect_some|]. intros (v & Hv & Hk). apply not_eq_None_Some. rewrite Collect_none. naive_solver.
Qed.
Lemma NoDup_key_inj {V} (key : V → Key) (l : list V) u v : NoDup (map key l) → u ∈ l → v ∈ l → key u = key v → u = v.
Proof.
  intros Hd [i Hi]%list_elem_of_lookup [j Hj]%list_elem_of_lookup Hk.
  assert (i = j); [|congruence]. eapply NoDup_lookup; [exact Hd|by rewrite list_lookup_fmap, Hi|by rewrite list_lookup_fmap, Hj, Hk].
Qed.
Lemma elem_of_range {V} (rank : Key → Z) (m : gmap Key V) kv : kv ∈ range rank m ↔ m !! kv.1 = Some kv.2.
Proof. unfold range. rewrite sort_by_perm. destruct kv. apply elem_of_map_to_list. Qed.
Lemma range_empty {V} (rank : Key → Z) (m : gmap Key V) : range rank m = [] ↔ m = ∅.
Proof.
  unfold range. split; [|intros ->; by rewrite map_to_list_empty]. intros Hn. apply map_to_list_empty_iff.
  apply Permutation_nil. by rewrite <-(sort_by_perm (λ a b, rank a.1 <=? rank b.1) (map_to_list m)), Hn.
Qed.
End maps.

Lemma countb_some {A} (f : A → bool) l : countb f l ≠ 0 → ∃ x, x ∈ l ∧ f x = true.
Proof.
  intros Hz. destruct (existsb f l) eqn:E; [apply List.existsb_exists in E as (x & Hx & Hf); exists x; by rewrite list_elem_of_In|].
  destruct Hz. apply countb_zero. intros x Hx. apply not_true_is_false. intros Hf. apply not_true_iff_false in E. apply E, List.existsb_exists.
  exists x. by rewrite <-list_elem_of_In.
Qed.

Section intersect.
Context {Key : Type} `{Countable Key} {VL VR : Type}.
Variables (left : list VL) (leftKey : VL → Key) (right : list VR) (rightKey : VR → Key).
Lemma intersect_left k v : (IntersectItersKeyFunc left leftKey right rightKey).1.1 !! k = Some v →
  v ∈ left ∧ leftKey v = k ∧ ∀ u, u ∈ right → rightKey u ≠ k.
Proof. simpl. rewrite map_lookup_filter_Some. simpl. intros [[Hv Hk]%Collect_some Hn]. by rewrite Collect_none in Hn. Qed.
Lemma intersect_left_is_some k : is_Some ((IntersectItersKeyFunc left leftKey right rightKey).1.1 !! k) ↔
  (∃ v, v ∈ left ∧ leftKey v = k) ∧ ∀ u, u ∈ right → rightKey u ≠ k.
Proof.
  rewrite <-Collect_is_some, <-Collect_none. simpl. unfold is_Some. setoid_rewrite map_lookup_filter_Some. simpl. naive_solver.
Qed.
Lemma intersect_right k v : (IntersectItersKeyFunc left leftKey right rightKey).2 !! k = Some v →
  v ∈ right ∧ rightKey v = k ∧ ∀ u, u ∈ left → leftKey u ≠ k.
Proof. simpl. rewrite map_lookup_filter_Some. simpl. intros [[Hv Hk]%Collect_some Hn]. by rewrite Collect_none in Hn. Qed.
Lemma intersect_right_is_some k : is_Some ((IntersectItersKeyFunc left leftKey right rightKey).2 !! k) ↔
  (∃ v, v ∈ right ∧ rightKey v = k) ∧ ∀ u, u ∈ left → leftKey u ≠ k.
Proof.
  rewrite <-Collect_is_some, <-Collect_none. simpl. unfold is_Some. setoid_rewrite map_lookup_filter_Some. simpl. naive_solver.
Qed.
End intersect.

(** ** The paths of a peer *)
Section paths.
Context {K : K8s}.
Variables (rank : string → Z) (resourceName : string) (ip : intendedPeer) (p : actualPeer).
Let actions := computePathActions rank resourceName ip (Some p).
Let toRemove := (IntersectItersKeyFunc (i_paths ip) intendedPathKey (ap_Paths p) actualPathKey).2.
Let toAdd := (IntersectItersKeyFunc (i_paths ip) intendedPathKey (ap_Paths p) actualPathKey).1.1.
Lemma computePathActions_eq : actions =
  map (λ kv, NewPathAction resourceName (i_nodeID ip) (intendedLocal kv.2) (intendedRemote kv.2)) (range (pathRank rank ip) toAdd) ++
  map (λ kv, DelPathAction resourceName (i_nodeID ip) (LocalAddr kv.2) (RemoteAddr kv.2))
    (List.filter (λ kv, negb (negb (String.eqb (ap_ConnectionState p) ConnectionStateStandAlone) && pt_Established kv.2 &&
                              (countb (retained toRemove) (ap_Paths p) =? 0))) (range (pathRank rank ip) toRemove)).
Proof. done. Qed.
Definition deletes (l : list DRBDAction) (pt : Path) : Prop := DelPathAction resourceName (i_nodeID ip) (LocalAddr pt) (RemoteAddr pt) ∈ l.
Definition adds (l : list DRBDAction) (pt : intendedPath) : Prop :=
  ∃ localAddr remoteAddr, NewPathAction resourceName (i_nodeID ip) localAddr remoteAddr ∈ l ∧ pathKey localAddr remoteAddr = intendedPathKey pt.
Definition wanted (pt : Path) : Prop := ∃ w, w ∈ i_paths ip ∧ intendedPathKey w = actualPathKey pt.
Definition connected : Prop := ap_ConnectionState p ≠ ConnectionStateStandAlone.

Lemma toRemove_none pt : pt ∈ ap_Paths p → toRemove !! actualPathKey pt = None ↔ wanted pt.
Proof.
  intros Hpt. pose proof (intersect_right_is_some (i_paths ip) intendedPathKey (ap_Paths p) actualPathKey (actualPathKey pt)) as Hi.
  rewrite eq_None_not_Some. fold toRemove in Hi. rewrite Hi. unfold wanted. split.
  - intros Hn. destruct (decide (Exists (λ w, intendedPathKey w = actualPathKey pt) (i_paths ip))) as [He|He].
    + by apply Exists_exists in He as (w & ? & ?); exists w.
    + destruct Hn. split; [by exists pt|]. intros u Hu Heq. apply He, Exists_exists. by exists u.
  - intros (w & Hw & Heq) [_ Hall]. by apply (Hall w).
Qed.
Lemma retained_wanted pt : pt ∈ ap_Paths p → retained toRemove pt = true ↔ wanted pt ∧ pt_Established pt = true.
Proof. intros Hpt. unfold retained. rewrite andb_true_iff, bool_decide_eq_true. by rewrite toRemove_none. Qed.
Lemma none_retained : countb (retained toRemove) (ap_Paths p) = 0 ↔ ∀ q, q ∈ ap_Paths p → pt_Established q = true → ¬ wanted q.
Proof.
  rewrite countb_zero. split; intros H q Hq.
  - intros He Hw. specialize (H q Hq). apply not_true_iff_false in H. apply H, retained_wanted; auto.
  - apply not_true_iff_false. rewrite retained_wanted by done. intros [? ?]. by apply (H q).
Qed.
Lemma active_connected : negb (String.eqb (ap_ConnectionState p) ConnectionStateStandAlone) = true ↔ connected.
Proof. unfold connected. by rewrite negb_true_iff, String.eqb_neq. Qed.
Lemma deletes_iff pt : NoDup (map actualPathKey (ap_Paths p)) → pt ∈ ap_Paths p →
  deletes actions pt ↔ ¬ wanted pt ∧ ¬ (connected ∧ pt_Established pt = true ∧ ∀ q, q ∈ ap_Paths p → pt_Established q = true → ¬ wanted q).
Proof.
  intros Hd Hpt. unfold deletes. rewrite computePathActions_eq, elem_of_app, !list_elem_of_fmap. split.
  - intros [([k w] & Heq & _)|([k q] & [= Hl Hr] & Hin)]; [done|]. rewrite list_elem_of_In, List.filter_In, <-list_elem_of_In, elem_of_range in Hin.
    destruct Hin as [Hq Hb]. simpl in *. apply intersect_right in Hq as (Hq & <- & Hn).
    assert (actualPathKey q = actualPathKey pt) as Hk by (unfold actualPathKey; congruence).
    assert (q = pt) as -> by (eapply NoDup_key_inj; eauto).
    split; [intros (w & Hw & ?); by apply (Hn w)|]. rewrite <-active_connected, <-none_retained, <-Z.eqb_eq. intros (Hc & He & Hz).
    by rewrite Hc, He, Hz in Hb.
  - intros [Hw Hk]. right. exists (actualPathKey pt, pt). split; [done|]. rewrite list_elem_of_In, List.filter_In, <-list_elem_of_In, elem_of_range.
    assert (Hs : toRemove !! actualPathKey pt = Some pt).
    { destruct (toRemove !! actualPathKey pt) as [q|] eqn:E; [|by apply toRemove_none in E].
      apply intersect_right in E as (Hq & Heq & _). f_equal. eapply NoDup_key_inj; eauto. }
    split; [done|]. apply negb_true_iff, not_true_iff_false. rewrite !andb_true_iff, active_connected, Z.eqb_eq, none_retained. simpl. tauto.
Qed.
Lemma adds_iff w : w ∈ i_paths ip → adds actions w ↔ ¬ ∃ pt, pt ∈ ap_Paths p ∧ actualPathKey pt = intendedPathKey w.
Proof.
  intros Hw. unfold adds. rewrite computePathActions_eq. split.
  - intros (l & r & Hin & Hk). rewrite elem_of_app, !list_elem_of_fmap in Hin. destruct Hin as [([k u] & [= -> ->] & Hin)|(? & [=] & _)].
    rewrite elem_of_range in Hin. simpl in *. apply intersect_left in Hin as (Hu & <- & Hn).
    intros (pt & Hpt & Heq). apply (Hn pt Hpt). unfold intendedPathKey in *. congruence.
  - intros Hn. destruct (proj2 (intersect_left_is_some (i_paths ip) intendedPathKey (ap_Paths p) actualPathKey (intendedPathKey w))) as [u Hu].
    { split; [by exists w|]. intros q Hq Heq. apply Hn. by exists q. }
    exists (intendedLocal u), (intendedRemote u). split; [|by apply intersect_left in Hu as (_ & Hk & _)].
    rewrite elem_of_app, list_elem_of_fmap. left. exists (intendedPathKey w, u). by rewrite elem_of_range.
Qed.
End paths.

(** A connection that is up over a path that is no longer wanted; the wanted one does not exist yet. *)
Definition established : Path :=
  {| pt_ThisHost := {| h_Address := "10.0.0.1"; h_Port := 7000 |}; pt_RemoteHost := {| h_Address := "10.0.0.2"; h_Port := 7000 |};
     pt_Established := true |}.
Definition overIt : actualPeer :=
  {| ap_connection := {| cn_PeerNodeID := 1; cn_Name := "peer-1"; cn_ConnectionState := "Connected"; cn_Paths := [established]; cn_PeerDevices := [] |};
     ap_showConnection := None |}.
Definition onNewPort : intendedPeer :=
  {| i_name := "b"; i_nodeID := 1; i_peerType := DRBDDiskful; i_protocol := "C"; i_sharedSecret := ""; i_sharedSecretAlg := ""; i_allowRemoteRead := false;
     i_paths := [{| ip_systemNetworkName := "Internal"; ip_localIPv4 := "10.0.0.1"; ip_localPort := 7001; ip_remoteIPv4 := "10.0.0.2"; ip_remotePort := 7000 |}] |}.

(** ** The report on peers *)
Section report.
Context {K : K8s}.
Local Notation name := ps_SystemNetworkName.
Lemma addPath_spec new paths : NoDup (map name paths) →
  NoDup (map name (addPath new paths)) ∧
  (∀ n, n ∈ map name (addPath new paths) ↔ n = name new ∨ n ∈ map name paths) ∧
  (∀ s, s ∈ addPath new paths → (name s ≠ name new ∧ s ∈ paths) ∨
     (name s = name new ∧ (ps_Established s = true ↔ ps_Established new = true ∨ ∃ s0, s0 ∈ paths ∧ name s0 = name new ∧ ps_Established s0 = true))).
Proof.
  induction paths as [|ps paths IH]; intros Hd.
  - cbn [addPath map]. split_and!; [apply NoDup_singleton|intros n; set_solver|]. intros s ->%list_elem_of_singleton. right. set_solver.
  - cbn [map] in Hd. apply NoDup_cons in Hd as [Hps Hd]. cbn [addPath]. destruct (String.eqb_spec (name ps) (name new)) as [Heq|Hne].
    + assert (Hh : ∀ x : DRBDResourcePathStatus, name x = name new → ∀ s, s ∈ paths → name s ≠ name x).
      { intros x Hx s Hs Hn. apply Hps. rewrite Heq, <-Hx, <-Hn. by apply list_elem_of_fmap_2. }
      destruct (ps_Established new && negb (ps_Established ps)) eqn:E; cbn [map];
        (split_and!; [constructor; by rewrite <-?Heq|intros n; rewrite !elem_of_cons; naive_solver|]);
        intros s [->|Hs]%elem_of_cons.
      * right. split; [done|]. apply andb_prop in E as [E _]. tauto.
      * left. split; [by apply (Hh new)|set_solver].
      * right. split; [done|]. split; [intros ?; right; exists ps; set_solver|].
        intros [Hn|(s0 & [->|Hs0]%elem_of_cons & Hn0 & He)]; [by rewrite Hn in E; apply negb_false_iff in E|done|].
        by destruct (Hh new eq_refl s0 Hs0).
      * left. split; [by apply (Hh new)|set_solver].
    + destruct (IH Hd) as (Hd' & Hn & Hs). cbn [map]. split_and!.
      * constructor; [|done]. rewrite Hn. naive_solver.
      * intros n. rewrite !elem_of_cons, Hn. naive_solver.
      * intros s [->|Hin]%elem_of_cons; [left; set_solver|]. destruct (Hs s Hin) as [[? ?]|[? He]]; [left; set_solver|right].
        split; [done|]. rewrite He. set_solver.
Qed.

Section network.
Variable addresses : list DRBDResourceAddressStatus.
(** The system network of a path: that of the first address with its local IP. *)
Definition networkOf (pt : Path) : option string :=
  a_SystemNetworkName <$> List.find (λ addr, String.eqb (a_Address addr).1 (h_Address (pt_ThisHost pt))) addresses.
Lemma reportPath_spec pts : let l := foldl (reportPath addresses) [] pts in
  NoDup (map name l) ∧ (∀ n, n ∈ map name l ↔ ∃ pt, pt ∈ pts ∧ networkOf pt = Some n) ∧
  (∀ s, s ∈ l → ps_Established s = true ↔ ∃ pt, pt ∈ pts ∧ networkOf pt = Some (name s) ∧ pt_Established pt = true).
Proof.
  induction pts as [|pt pts IH] using rev_ind; [cbn [foldl]; split_and!; [constructor|set_solver..]|].
  rewrite foldl_app. cbn [foldl]. set (l := foldl _ _ pts) in *. destruct IH as (Hd & Hn & He).
  unfold reportPath at 1 2 3. destruct (List.find _ addresses) as [addr|] eqn:E.
  - assert (Hnet : networkOf pt = Some (a_SystemNetworkName addr)) by (unfold networkOf; by rewrite E).
    destruct (addPath_spec (pathStatus addr pt) l Hd) as (Hd' & Hn' & He'). split; [done|]. split.
    + intros n. rewrite Hn', Hn. setoid_rewrite elem_of_app. setoid_rewrite list_elem_of_singleton. cbn. split.
      * intros [->|(q & ? & ?)]; eauto 6.
      * intros (q & [?| ->] & Hq); [eauto|]. left. congruence.
    + intros s Hs. setoid_rewrite elem_of_app. setoid_rewrite list_elem_of_singleton. destruct (He' s Hs) as [[Hne Hin]|[Heq Hest]].
      * rewrite (He s Hin). cbn in Hne. split; [naive_solver|]. intros (q & [?| ->] & Hq & ?); [eauto|]. congruence.
      * rewrite Hest, Heq. cbn. split.
        -- intros [?|(s0 & Hs0 & Hn0 & Hest0)]; [eauto 8|]. apply (He s0 Hs0) in Hest0 as (q & ? & Hq & ?). exists q. rewrite Hq, Hn0. auto.
        -- intros (q & [Hq| ->] & Hnq & Heq'); [|auto]. right.
           assert (Hin : a_SystemNetworkName addr ∈ map name l) by (apply Hn; eauto). apply list_elem_of_fmap in Hin as (s0 & Heqn & Hs0).
           exists s0. split_and!; [done|done|]. apply He; [done|]. exists q. by rewrite <-Heqn.
  - assert (Hnet : networkOf pt = None) by (unfold networkOf; by rewrite E).
    split; [done|]. split.
    + intros n. rewrite Hn. setoid_rewrite elem_of_app. setoid_rewrite list_elem_of_singleton. split; [naive_solver|]. intros (q & [?| ->] & Hq); [eauto|congruence].
    + intros s Hs. rewrite (He s Hs). setoid_rewrite elem_of_app. setoid_rewrite list_elem_of_singleton. split; [naive_solver|].
      intros (q & [?| ->] & Hq & ?); [eauto|congruence].
Qed.
End network.

(** C32 The reported peers are one for each connection, sorted by name.  Each lists every system network
    that one of its paths belongs to, once, as established exactly when some path of that network is. *)
Theorem connections_reported a d :
  dr_Peers (reportPeers a d) ≡ₚ map (reportPeer d) (from_option rs_Connections [] (as_status a)) ∧
  Sorted (λ x y, string_leb (dps_Name x) (dps_Name y) = true) (dr_Peers (reportPeers a d)) ∧
  ∀ conn, let paths := dps_Paths (reportPeer d conn) in let network := networkOf (dr_Addresses d) in
    NoDup (map name paths) ∧
    (∀ n, n ∈ map name paths ↔ ∃ pt, pt ∈ cn_Paths conn ∧ network pt = Some n) ∧
    ∀ s, s ∈ paths → ps_Established s = true ↔ ∃ pt, pt ∈ cn_Paths conn ∧ network pt = Some (name s) ∧ pt_Established pt = true.
Proof.
  split; [apply sort_by_perm|]. split; [|intros conn; apply reportPath_spec].
  apply sort_by_sorted. intros. apply string_leb_total.
Qed.
End report.

(** ** The cache of ports *)
Section ports.
Implicit Types (c : DRBDPortCache).
Lemma dropFrom_lookup {A} `{Countable A} (k : string) (x : A) (m : gmap string (gset A)) k' :
  default ∅ (dropFrom k x m !! k') = if decide (k = k') then default ∅ (m !! k') ∖ {[x]} else default ∅ (m !! k').
Proof.
  unfold dropFrom. destruct (m !! k) as [s|] eqn:E; repeat case_decide; simplify_map_eq; try done; try (by set_solver).
Qed.
Lemma addTo_lookup {A} `{Countable A} (k : string) (x : A) (m : gmap string (gset A)) k' :
  default ∅ (addTo k x m !! k') = if decide (k = k') then default ∅ (m !! k') ∪ {[x]} else default ∅ (m !! k').
Proof. unfold addTo. case_decide; by simplify_map_eq. Qed.
(** The kernel's answer to whether a port is in use, while no dump runs. *)
Definition used c (ip : string) : gset Z := default ∅ (pc_byIP c !! ip).
Lemma GetUsedPorts_used c ip : GetUsedPorts c ip = if pc_ready c && negb (pc_dumping c) then Some (used c ip) else None.
Proof. done. Qed.
Lemma used_Add name ip port c ip' : used (Add name ip port c) ip' = if decide (ip = ip') then used c ip' ∪ {[port]} else used c ip'.
Proof. apply addTo_lookup. Qed.
Lemma used_Remove name ip port c ip' : used (Remove name ip port c) ip' = if decide (ip = ip') then used c ip' ∖ {[port]} else used c ip'.
Proof. apply dropFrom_lookup. Qed.

(** The paths of a DRBD resource to its peers share one local address; when one of them is destroyed the
    cache reports the port as unused although the others still hold it. *)
Theorem shared_port_forgotten c (created created' destroyed : gmap string string) (name ip : string) (port : Z) :
  created !! "local" ≫= parseLocalAddr = Some (ip, port) → created' !! "local" = created !! "local" → destroyed !! "local" = created !! "local" →
  let c' := updatePortCache KindCreate ObjectPath created' name (updatePortCache KindCreate ObjectPath created name c) in
  port ∈ used c' ip ∧ port ∉ used (updatePortCache KindDestroy ObjectPath destroyed name c') ip.
Proof.
  intros Hl H1 H2. unfold updatePortCache. rewrite H1, H2, Hl. rewrite used_Remove, used_Add, !decide_True by done. set_solver.
Qed.
Definition pathTo (peerIP : string) : gmap string string :=
  <["local" := "ipv4:10.0.0.1:7000"]> (<["peer" := "ipv4:" +:+ peerIP +:+ ":7000"]> ∅).
Lemma shared_port_forgotten_witness :
  let c' := updatePortCache KindCreate ObjectPath (pathTo "10.0.0.3") "sdsrv-a" (updatePortCache KindCreate ObjectPath (pathTo "10.0.0.2") "sdsrv-a" (EndDump (BeginDump NewDRBDPortCache))) in
  7000 ∈ used c' "10.0.0.1" ∧ 7000 ∉ used (updatePortCache KindDestroy ObjectPath (pathTo "10.0.0.3") "sdsrv-a" c') "10.0.0.1".
Proof.
  exact (shared_port_forgotten (EndDump (BeginDump NewDRBDPortCache)) (pathTo "10.0.0.2") (pathTo "10.0.0.3") (pathTo "10.0.0.3") "sdsrv-a" "10.0.0.1" 7000
           eq_refl eq_refl eq_refl).
Defined.
End ports.

(** ** The scanner *)
Section scanner.
Context {K : K8s} {Srv : Server} {X : TextApi}.
(** The names an event is about. *)
Definition eventNames (ev : Events2Result) : list string :=
  match ev with
  | UnparsedEvent _ _ => []
  | drbdutils.Event _ kind object state =>
      if decide (object = ObjectDumpDone) then []
      else match state !! "name" with
           | Some name => name :: (if decide (kind = KindRename) then option_list (state !! "new_name") else [])
           | None => []
           end
  end.
(** A name is queued, or waits for the end of the dump. *)
Definition reported (s : scan) (name : string) : Prop :=
  if sc_online s then requestOf name ∈ sc_sent s else name ∈ sc_pending s.
(** The ports can be read once the dump has ended; before, nothing is queued. *)
Definition phase_ok (s : scan) : Prop :=
  if sc_online s then pc_ready (sc_ports s) = true ∧ pc_dumping (sc_ports s) = false else sc_sent s = [].
Lemma updatePortCache_phase kind object state name c :
  pc_ready (updatePortCache kind object state name c) = pc_ready c ∧ pc_dumping (updatePortCache kind object state name c) = pc_dumping c.
Proof. unfold updatePortCache. repeat case_match; done. Qed.
Lemma namedEvent_phase kind object state name s : phase_ok s → phase_ok (namedEvent kind object state name s).
Proof.
  unfold phase_ok, namedEvent, processName. destruct (updatePortCache_phase kind object state name (sc_ports s)) as [Hr Hd].
  destruct (sc_online s) eqn:E; cbn; by rewrite ?Hr, ?Hd.
Qed.
Lemma processName_phase name s : phase_ok s → phase_ok (processName name s).
Proof. unfold phase_ok, processName. by destruct (sc_online s) eqn:E. Qed.
Lemma processName_reported name s : reported (processName name s) name.
Proof. unfold reported, processName. destruct (sc_online s); cbn; set_solver. Qed.
Lemma processName_keeps name s n : reported s n → reported (processName name s) n.
Proof. unfold reported, processName. destruct (sc_online s); cbn; set_solver. Qed.
Lemma dumpDone_keeps rank s n : sc_online s = false → reported s n → reported (dumpDone rank s) n.
Proof.
  unfold reported. intros -> Hn. cbn. rewrite elem_of_app. right. apply list_elem_of_fmap. exists n. split; [done|].
  rewrite sort_by_perm. by apply elem_of_elements.
Qed.
Lemma scanEvent_reports ev s :
  triple True (λ _, True) (scanEvent ev s) (λ s', (phase_ok s → phase_ok s') ∧ (∀ n, reported s n → reported s' n) ∧ ∀ n, n ∈ eventNames ev → reported s' n).
Proof.
  unfold scanEvent, invalidate. destruct ev as [ts kind object state|]; [|apply triple_ret; set_solver].
  destruct (negb (sc_online s) && _ && _) eqn:Ed.
  - apply andb_prop in Ed as [[Hoff%negb_true_iff _]%andb_prop ->%bool_decide_eq_true]. apply triple_call; [done|]. intros rank.
    apply triple_ret. split; [done|]. split; [intros n; by apply dumpDone_keeps|]. cbn. set_solver.
  - destruct (state !! "name") as [name|] eqn:En; [|apply triple_ret; split; [done|]; split; [done|]; intros n; unfold eventNames; rewrite En; destruct (decide (object = ObjectDumpDone)); set_solver].
    eapply (triple_bind _ _ _ _ (λ _, True)); [case_match; [by apply triple_do|by apply triple_ret]|]. intros _ _.
    assert (Hk : ∀ n, reported s n → reported (namedEvent kind object state name s) n) by (intros n; apply processName_keeps).
    assert (Hn : reported (namedEvent kind object state name s) name) by apply processName_reported.
    cbn [eventNames]. rewrite En. destruct (decide (kind = KindRename)); [destruct (state !! "new_name") as [newName|]|].
    + eapply (triple_bind _ _ _ _ (λ _, True)); [case_match; [by apply triple_do|by apply triple_ret]|]. intros _ _. apply triple_ret.
      split; [intros; by apply processName_phase, namedEvent_phase|]. split; [intros; by apply processName_keeps, Hk|]. intros n. destruct (decide (object = ObjectDumpDone)); [set_solver|].
      intros [->|Hin]%elem_of_cons; [by apply processName_keeps|]. apply list_elem_of_singleton in Hin as ->. apply processName_reported.
    + apply triple_ret. split; [apply namedEvent_phase|]. split; [done|]. destruct (decide (object = ObjectDumpDone)); set_solver.
    + apply triple_ret. split; [apply namedEvent_phase|]. split; [done|]. destruct (decide (object = ObjectDumpDone)); set_solver.
Qed.
Lemma scanLines_reports lines s :
  triple True (λ _, True) (scanLines lines s) (λ s', (phase_ok s → phase_ok s') ∧ (∀ n, reported s n → reported s' n) ∧
    ∀ line n, line ∈ lines → n ∈ eventNames (parseLine line) → reported s' n).
Proof.
  revert s. induction lines as [|line lines IH]; intros s; [apply triple_ret; set_solver|]. cbn [scanLines].
  eapply triple_bind; [apply scanEvent_reports|]. intros s1 (Hp & Hk & Hn). eapply triple_weaken; [apply IH|]. intros s2 (Hp' & Hk' & Hn').
  split; [auto|]. split; [auto|]. intros l n [->|Hl]%elem_of_cons; eauto.
Qed.
(** C17 When the initial dump has ended, every resource that an event names, also during the dump and also
    the new name of a renamed one, is sent to the queue, and the ports can be read; before, nothing is sent. *)
Theorem scanner_reports_all ports lines w :
  match (runEventsLoop ports lines w).2.2 with
  | Ok s => if sc_online s
            then (∀ line n, line ∈ lines → n ∈ eventNames (parseLine line) → requestOf n ∈ sc_sent s) ∧
                 ∀ ip, is_Some (GetUsedPorts (sc_ports s) ip)
            else sc_sent s = []
  | _ => False
  end.
Proof.
  assert (H : triple True (λ _, True) (runEventsLoop ports lines) (λ s,
    if sc_online s then (∀ line n, line ∈ lines → n ∈ eventNames (parseLine line) → requestOf n ∈ sc_sent s) ∧
                        ∀ ip, is_Some (GetUsedPorts (sc_ports s) ip)
    else sc_sent s = [])).
  { unfold runEventsLoop. apply triple_call; [done|]. intros _. eapply triple_bind; [apply scanLines_reports|]. intros s (Hp & _ & Hn).
    specialize (Hp eq_refl). unfold phase_ok in Hp. apply triple_ret. destruct (sc_online s) eqn:E; rewrite ?E; [|done].
    split; [|intros ip; destruct Hp as [Hr Hd]; unfold GetUsedPorts; rewrite Hr, Hd; by eexists].
    intros line n Hl Hin. specialize (Hn _ _ Hl Hin). unfold reported in Hn. by rewrite E in Hn. }
  destruct (H w) as [_ Hq]. by destruct (runEventsLoop ports lines w).2.2.
Qed.
End scanner.
