(* ===== verification/DrbdrSafety.v ===== *)
(** * The agent: theorems on the passes over DRBD resources

    Which commands a pass can run and on which disks, how the finalizers of logical volumes follow the
    disks, and which port is given out; and three passes that go wrong when a probe or a lookup fails. *)

From Stdlib Require Import ZArith Lia String Ascii.
From stdpp Require Import base gmap list numbers strings option sorting.
From S2P Require Import Prelude IdSet DrbdSize Api Object Storage Flow Client DrbdUtils Drbdr DrbdrController.
Import v1alpha1 objutilv1 storage drbd flow client host drbdstatus gostrings agent_errors drbdutils maps drbdr port_cache drbdr_controller.

Set Default Proof Using "Type".

Section agent.
Context {K : K8s} {Meta : MetaApi} {Srv : Server} {X : TextApi}.
Variables (nodeName : string) (minPort maxPort ttl : Z) (flant : bool) (fuel : nat).
Implicit Types (e : client.event) (d : DRBDResource).

(** ** The calls of a pass *)
(** The command of an event, and the disk whose contents it changes or that it attaches. *)
Definition command_of e : option (string * list string) :=
  match ev_call e with
  | OnHost c => match c with Exec command args => Some (command, args) | _ => None end
  | _ => None
  end.
Definition written (cmd : string * list string) : option string :=
  let '(command, args) := cmd in
  if String.eqb command DRBDMetaCommand then
    if decide (args !! 4%nat = Some "create-md") then args !! 2%nat
    else if decide (args !! 5%nat = Some "apply-al" ∨ args !! 5%nat = Some "write-dev-uuid") then args !! 3%nat
    else None
  else if decide (head args = Some "attach") then args !! 2%nat else None.
Definition no_write (dev : string) e : Prop := match command_of e with Some cmd => written cmd ≠ Some dev | None => True end.
(** Status and show only observe. *)
Definition observes (cmd : string * list string) : bool :=
  String.eqb cmd.1 DRBDSetupCommand && bool_decide (head cmd.2 = Some "status" ∨ head cmd.2 = Some "show").
(** A pass in maintenance: nothing on the node is changed. *)
Definition harmless e : Prop :=
  match ev_call e with
  | OnHost c => match c with
                | Exec command args => observes (command, args) = true
                | host.Remove _ | Symlink _ _ | StoreNextMinor _ => False
                | _ => True
                end
  | _ => True
  end.
(** Neither the node nor the metadata of an object is changed. *)
Definition inert e : Prop :=
  match ev_call e with
  | OnHost c => match c with Exec _ _ | host.Remove _ | Symlink _ _ | StoreNextMinor _ => False | _ => True end
  | PatchLLV _ _ | PatchDRBDR _ _ => False
  | _ => True
  end.
(** Only status and show are run, and no finalizer changes. *)
Definition only_observes e : Prop :=
  match ev_call e with
  | OnHost c => match c with Exec command args => observes (command, args) = true | host.Remove _ | Symlink _ _ | StoreNextMinor _ => False | _ => True end
  | PatchLLV _ _ | PatchDRBDR _ _ => False
  | _ => True
  end.
Lemma inert_only_observes e : inert e → only_observes e.
Proof. unfold inert, only_observes. destruct (ev_call e); try done. by destruct c. Qed.
Lemma inert_no_write dev e : inert e → no_write dev e.
Proof. unfold inert, no_write, command_of. destruct (ev_call e); try done. by destruct c. Qed.
Lemma only_observes_harmless e : only_observes e → harmless e.
Proof. unfold only_observes, harmless. destruct (ev_call e); try done. Qed.
Lemma only_observes_no_write dev e : only_observes e → no_write dev e.
Proof.
  unfold only_observes, no_write, command_of. destruct (ev_call e); try done. destruct c; try done.
  unfold observes, written. cbn. intros [->%String.eqb_eq Hh]%andb_prop. apply bool_decide_eq_true in Hh. cbn.
  destruct Hh as [-> | ->]; rewrite decide_False by done; done.
Qed.

(** A call whose answer is one of the server's. *)
Lemma calls_answer {A B} (P : client.event → Prop) (c : call A) (f : A → M B) :
  P (client.Event A c) → (∀ w, calls P (f (serve c w).2)) → calls P (do c ≫= f).
Proof.
  intros HP Hf w. unfold do, mbind, M_bind. specialize (Hf w (serve c w).1). destruct (serve c w) as [w1 a]. simpl in *.
  destruct (f a w1) as [w2 [es r]]. simpl in *. by constructor.
Qed.

(** *** Programs that are inert *)
Lemma findPort_inert ip usedPorts pending n port : calls inert (findPort minPort maxPort ip usedPorts pending n port).
Proof. revert port. induction n; intros port; cbn [findPort]; calls. Qed.
Lemma Allocate_inert ip : calls inert (Allocate nodeName minPort maxPort ttl ip).
Proof. unfold Allocate, collectK8sPorts, cleanExpiredPending. calls. apply findPort_inert. Qed.
Lemma reallocate_inert ip addrs : calls inert (reallocate nodeName minPort maxPort ttl ip addrs).
Proof. induction addrs; cbn [reallocate]; calls. apply Allocate_inert. Qed.
Lemma resolved_inert d err : calls inert (ensureLocalPortConflictResolved nodeName minPort maxPort ttl d err).
Proof. unfold ensureLocalPortConflictResolved. calls. apply reallocate_inert. Qed.
Lemma intended_inert d disk up : calls inert (computeIntendedDRBDState d disk up).
Proof. unfold computeIntendedDRBDState, ReadDiscardGranularity. calls. Qed.
Lemma reported_inert a d llv err maint : calls inert (ensureReportState a d llv err maint).
Proof. unfold ensureReportState, applyConfiguredCondition. calls. Qed.
Lemma getLVMLogicalVolume_inert name : calls inert (getLVMLogicalVolume name).
Proof. unfold getLVMLogicalVolume. calls. Qed.
Lemma getRequiredLLV_inert name : calls inert (getRequiredLLV name).
Proof. unfold getRequiredLLV. calls. apply getLVMLogicalVolume_inert. Qed.
Lemma getRequiredLVG_inert name : calls inert (getRequiredLVG name).
Proof. unfold getRequiredLVG, getLVMVolumeGroup. calls. Qed.
Lemma collectLLVs_inert lvgs llvs : calls inert (collectLLVs lvgs llvs).
Proof. revert llvs. induction lvgs; intros llvs; cbn [collectLLVs]; unfold getLLVsForLVG; calls. Qed.
Lemma computeActualLLVName_inert a : calls inert (computeActualLLVName nodeName a).
Proof. unfold computeActualLLVName, getLVGsOnNode. calls. apply collectLLVs_inert. Qed.
Lemma computeIntendedPorts_inert ports addrs err : calls inert (computeIntendedPorts nodeName minPort maxPort ttl ports addrs err).
Proof. revert err. induction addrs; intros err; cbn [computeIntendedPorts]; calls. apply Allocate_inert. Qed.
Lemma reconcileAddresses_inert d ports : calls inert (reconcileAddresses nodeName minPort maxPort ttl d ports).
Proof.
  unfold reconcileAddresses, getRequiredCurrentNode, ensureAddresses, patchDRBDRStatus. calls. apply computeIntendedPorts_inert.
Qed.
Lemma record_inert d up maint : calls inert (reconcileLLVFinalizersToRelease d up maint).
Proof. unfold reconcileLLVFinalizersToRelease, patchDRBDRStatus. calls. Qed.
Lemma reportStatus_inert d base err : calls inert (reportStatus d base err).
Proof. unfold reportStatus. calls. Qed.

(** *** Observation *)
Lemma run_calls (P : client.event → Prop) command args errs :
  P (client.Event _ (OnHost (Exec command args))) → calls P (run command args errs).
Proof. intros HP. unfold run, executeCommand. by calls. Qed.
Lemma CachesStatus_observes name : calls only_observes (CachesStatus name).
Proof. unfold CachesStatus, fetchStatus, ExecuteStatus, executeCommand. calls. Qed.
Lemma CachesShow_observes name : calls only_observes (CachesShow name).
Proof. unfold CachesShow, fetchShow, ExecuteShow, executeCommand. calls. Qed.
Lemma observe_observes name : calls only_observes (observe name).
Proof. unfold observe, observeActualDRBDState. calls; [apply CachesStatus_observes|apply CachesShow_observes]. Qed.
(** The disk is only read: its metadata is dumped, its device UUID printed. *)
Lemma ExecuteReadDevUUID_no_write dev disk : calls (no_write dev) (ExecuteReadDevUUID disk).
Proof. unfold ExecuteReadDevUUID, executeCommand. calls. Qed.
Lemma ExecuteCheckMD_no_write dev minor disk : calls (no_write dev) (ExecuteCheckMD minor disk).
Proof. unfold ExecuteCheckMD. calls; apply run_calls; done. Qed.
Lemma observeDisk_no_write dev a disk d : calls (no_write dev) (observeDisk a disk d).
Proof.
  unfold observeDisk, observeActualDiskState. calls; solve [apply ExecuteReadDevUUID_no_write|apply ExecuteCheckMD_no_write].
Qed.
Lemma observeDisk_none a d : calls inert (observeDisk a "" d).
Proof. unfold observeDisk, observeActualDiskState. destruct a; simpl; calls. Qed.

(** *** Actions *)
Definition action_disk (action : DRBDAction) : option string :=
  match action with
  | WriteDeviceUUIDAction _ dev _ | CreateMetadataAction _ dev | ApplyALAction _ dev | AttachAction _ dev _ _ => Some dev
  | _ => None
  end.
Lemma setup_no_write dev args errs : head args ≠ Some "attach" → calls (no_write dev) (run DRBDSetupCommand args errs).
Proof. intros Hh. apply run_calls. unfold no_write, command_of, written. cbn. by rewrite decide_False. Qed.
Lemma newMinor_no_write dev r vol diskless cell : calls (no_write dev) (newMinor fuel r vol diskless cell).
Proof.
  unfold newMinor. calls. generalize fuel. intros n. induction n as [|n IH]; cbn [ExecuteNewAutoMinor]; [apply calls_lift|].
  unfold grabNextMinor, ExecuteNewMinor, readUsedMinors, advanceMinorPastUsed. calls; try done. by apply setup_no_write.
Qed.
Lemma perform_no_write dev action cell : action_disk action ≠ Some dev → calls (no_write dev) (perform action cell).
Proof.
  intros Ha. destruct action; simpl in Ha; unfold perform, performResource, performDisk, performPeer, performPath, performOther, reasoned, withMinor, ignoring, executeNewPath, ensureDeviceSymlink, removeDeviceSymlink; calls;
    try done; try (by apply setup_no_write); apply run_calls; exact Ha.
Qed.
Lemma Execute_no_write dev action cell : action_disk action ≠ Some dev → calls (no_write dev) (Execute fuel action cell).
Proof. intros Ha. unfold Execute. destruct action; calls; try (by apply perform_no_write); apply newMinor_no_write. Qed.
Lemma convergeLoop_no_write dev actions cell refreshed : Forall (λ x, action_disk x ≠ Some dev) actions →
  calls (no_write dev) (convergeLoop fuel actions cell refreshed).
Proof.
  intros Ha. revert cell refreshed. induction Ha as [|x actions Hx Ha IH]; intros cell refreshed; cbn [convergeLoop]; calls. by apply Execute_no_write.
Qed.
(** Only the actions on the disk of the intended state name one. *)
Lemma actions_disk random rank (i : intendedDRBDState) a dev :
  Forall (λ x, action_disk x ≠ Some dev) (computeDiskActions flant random (computeMinorActions (is_resourceName i) i a).1 i a) →
  Forall (λ x, action_disk x ≠ Some dev) (computeTargetDRBDActions flant rank random i (Some a)).
Proof.
  intros Hd. unfold computeTargetDRBDActions. destruct (negb (is_isUpAndNotInCleanup i)).
  { constructor; [done|]. destruct (ResourceExists a); by repeat constructor. }
  unfold computeBringUpActions. destruct (computeMinorActions _ i a) as [minor minorActions] eqn:Em. simpl in Hd.
  rewrite !Forall_app. split_and!; try done.
  - by destruct (negb (ResourceExists a)); repeat constructor.
  - unfold computeResourceOptions, computeResourceOptionsActionReconcile. repeat case_match; by repeat constructor.
  - unfold computeMinorActions in Em. repeat case_match; simplify_eq; by repeat constructor.
  - by repeat constructor.
  - unfold peerActions. destruct (IntersectItersKeyFunc _ _ _ _) as [[toAdd existing] toRemove]. 
    assert (Hpaths : ∀ ip p, Forall (λ x, action_disk x ≠ Some dev) (computePathActions rank (is_resourceName i) ip p)).
    { intros ip p. unfold computePathActions. destruct (IntersectItersKeyFunc _ _ _ _) as [[add both] del]. rewrite Forall_app, !Forall_forall.
      split; intros x (? & -> & _)%list_elem_of_fmap; done. }
    rewrite !Forall_app, !Forall_forall. split_and!; intros x Hx; apply list_elem_of_In, in_flat_map in Hx as ([k v] & _ & Hx%list_elem_of_In);
      revert x Hx; rewrite <-Forall_forall.
    + unfold newPeerActions. constructor; [done|]. rewrite !Forall_app. split_and!; [by repeat constructor|apply Hpaths|by repeat constructor].
    + unfold existingPeerActions. destruct v as [ip p]. rewrite !Forall_app. unfold computeNetOptionsActionReconcile, computePeerDeviceOptionsAction.
      split_and!; [by case_match; repeat constructor|by case_match; repeat constructor|apply Hpaths|by case_match; repeat constructor].
    + by repeat constructor.
  - unfold computeResizeAction. repeat case_match; by repeat constructor.
  - unfold computeRoleAction. rewrite Forall_app. split; case_match; by repeat constructor.
Qed.

Lemma triple_with_calls {A} (P : client.event → Prop) (m : M A) (Q : A → Prop) : calls P m → triple False (λ _, True) m Q → triple False P m Q.
Proof. intros HP HQ w. split; [apply HP|apply HQ]. Qed.
Lemma triple_all {A} (P : client.event → Prop) (m : M A) (Q : A → Prop) : (∀ a, Q a) → calls P m → triple False P m Q.
Proof. intros HQ HP w. split; [apply HP|]. destruct (m w).2.2; auto. Qed.

(** *** Finalizers: calls of the API server only *)
Definition remote e : Prop := match ev_call e with OnHost _ => False | _ => True end.
Lemma remote_no_write dev e : remote e → no_write dev e.
Proof. unfold remote, no_write, command_of. by destruct (ev_call e). Qed.
Lemma remote_harmless e : remote e → harmless e.
Proof. unfold remote, harmless. by destruct (ev_call e). Qed.
Lemma getLLV_remote name : calls remote (getLVMLogicalVolume name).
Proof. unfold getLVMLogicalVolume. calls. Qed.
Lemma addLLV_remote llv disk : calls remote (reconcileLLVFinalizerAdd llv disk).
Proof. unfold reconcileLLVFinalizerAdd, getRequiredLLV, getRequiredLVG, getLVMVolumeGroup, patchLLV. calls; apply getLLV_remote. Qed.
Lemma releaseLLVs_remote d up llv llvs err : calls remote (releaseLLVs d up llv llvs err).
Proof. revert err. induction llvs; intros err; cbn [releaseLLVs]; unfold releaseLLVFinalizer, patchLLV; calls; apply getLLV_remote. Qed.
Lemma reconcileFinalizer_remote d adding up : calls remote (reconcileFinalizer d adding up).
Proof. unfold reconcileFinalizer, patchDRBDR. calls. Qed.
Lemma dropFinalizer_remote d llvs a up err : calls remote (dropFinalizer d llvs a up err).
Proof. unfold dropFinalizer. calls. apply reconcileFinalizer_remote. Qed.

(** A pass goes on past the record of finalizers only when nothing had to be recorded. *)
Lemma record_spec d up maint : triple False inert (reconcileLLVFinalizersToRelease d up maint)
  (λ r, ShouldReturn r.2 = false → r.1 = (d, intendedLLVs d up maint) ∧ length (intendedLLVs d up maint) = length (recordedLLVs d)).
Proof.
  unfold reconcileLLVFinalizersToRelease, patchDRBDRStatus. destruct (Nat.eqb_spec (length (intendedLLVs d up maint)) (length (recordedLLVs d))) as [Hl|Hl].
  - by apply triple_ret.
  - apply triple_fmap_call; [done|]. intros r. destruct (stored _ r) as [d' [e|]]; by apply triple_ret.
Qed.
Lemma recorded_calls (P : client.event → Prop) d name aState aErr up maint :
  (∀ e, inert e → P e) →
  (length (intendedLLVs d up maint) = length (recordedLLVs d) →
   calls P (finishDRBDR nodeName minPort maxPort ttl flant fuel d d name aState aErr (intendedLLVs d up maint) up maint)) →
  calls P (convergeRecorded nodeName minPort maxPort ttl flant fuel d name aState aErr up maint).
Proof.
  intros HP Hf. unfold convergeRecorded. eapply calls_triple_bind; [eapply triple_events; [apply record_spec|done]|].
  intros [[d' llvs] o] Hr. simpl in *. destruct (ShouldReturn o); [apply calls_ret|]. destruct (Hr eq_refl) as [[= -> ->] Hl]. by apply Hf.
Qed.

(** ** A pass that may not write a disk *)
Lemma refresh_no_write dev name disk d a refreshed : calls (no_write dev) (refresh name disk d a refreshed).
Proof.
  unfold refresh. calls.
  - eapply calls_weaken; [apply observe_observes|apply only_observes_no_write].
  - apply observeDisk_no_write.
Qed.
(** It is enough that convergence does not, in any state the observation of the disk can give. *)
Lemma finish_no_write dev d base name aState aErr llvs up maint :
  (∀ disk, triple False (no_write dev) (match aErr with None => observeDisk aState disk d | Some _ => mret (aState, None) end)
     (λ r, calls (no_write dev) (converge nodeName minPort maxPort ttl flant fuel d disk r.1 up maint))) →
  calls (no_write dev) (finishDRBDR nodeName minPort maxPort ttl flant fuel d base name aState aErr llvs up maint).
Proof.
  intros Hc. unfold finishDRBDR. apply calls_bind.
  { calls. eapply calls_weaken; [apply addLLV_remote|apply remote_no_write]. }
  intros [disk llvErr]. eapply calls_triple_bind; [apply Hc|]. intros [aState' diskErr] Hconv. simpl in Hconv.
  apply calls_bind; [exact Hconv|]. intros [[d' refreshed] drbdErr]. apply calls_bind; [apply refresh_no_write|]. intros [a2 err2].
  apply calls_bind; [eapply calls_weaken; [apply computeActualLLVName_inert|apply inert_no_write]|]. intros llv.
  apply calls_bind; [eapply calls_weaken; [apply releaseLLVs_remote|apply remote_no_write]|]. intros [llvs' llvErr'].
  apply calls_bind; [eapply calls_weaken; [apply reported_inert|apply inert_no_write]|]. intros d2.
  apply calls_bind; [eapply calls_weaken; [apply reportStatus_inert|apply inert_no_write]|]. intros [d3 err3].
  apply calls_bind; [eapply calls_weaken; [apply dropFinalizer_remote|apply remote_no_write]|]. intros err4. apply calls_ret.
Qed.
Lemma converge_no_write dev d disk aState up maint :
  (∀ rank random gran, Forall (λ x, action_disk x ≠ Some dev) (computeTargetDRBDActions flant rank random (intendedState d disk up gran) aState)) →
  calls (no_write dev) (converge nodeName minPort maxPort ttl flant fuel d disk aState up maint).
Proof.
  intros Ha. unfold converge, computeIntendedDRBDState.
  eapply (calls_triple_bind _ _ _ (λ i, ∃ gran, i = intendedState d disk up gran)).
  { eapply (triple_bind _ _ _ _ (λ _, True)); [|intros gran _; apply triple_ret; by exists gran].
    apply triple_calls. unfold ReadDiscardGranularity. calls. }
  intros i [gran ->]. calls.
  - unfold convergeDRBDState. calls. by apply convergeLoop_no_write.
  - eapply calls_weaken; [apply resolved_inert|apply inert_no_write].
Qed.

(** *** A disk with the device UUID of another resource *)
Section foreign.
Variables (dev uuid : string).
Record foreign_laws : Prop := {
  fl_dump minor w : (serve (OnHost (Exec DRBDMetaCommand (DumpMDArgs minor dev))) w).2.2 = None;
  fl_read w : let '(out, err) := (serve (OnHost (Exec DRBDMetaCommand (ReadDevUUIDArgs dev))) w).2 in err = None ∧ parseDevUUID out = uuid;
  fl_uuid : uuid ≠ "" ∧ uuid ≠ zeroUUID;
}.
Hypothesis laws : foreign_laws.
Lemma ExecuteReadDevUUID_foreign : triple False (λ _, True) (ExecuteReadDevUUID dev) (λ r, r = inr uuid).
Proof using laws.
  intros w. split; [by apply List.Forall_forall|]. pose proof (fl_read laws w) as Hr. destruct (fl_uuid laws) as [Hne Hz].
  unfold ExecuteReadDevUUID, executeCommand, do, mbind, M_bind, mret, M_ret. destruct (serve _ w) as [w' [out err]]. simpl in Hr. destruct Hr as [-> Hr].
  simpl. rewrite Hr. apply String.eqb_neq in Hne, Hz. by rewrite Hne, Hz.
Qed.
Lemma ExecuteCheckMD_foreign minor : triple False (λ _, True) (ExecuteCheckMD minor dev) (λ r, r = inr true).
Proof using laws.
  intros w. split; [by apply List.Forall_forall|]. pose proof (fl_dump laws minor w) as Hr.
  unfold ExecuteCheckMD, run, executeCommand, do, fmap, M_fmap, mbind, M_bind, mret, M_ret. destruct (serve _ w) as [w' [out err]]. simpl in Hr. by subst err.
Qed.
(** A detached foreign disk is recognised. *)
Definition recognised (a' : actualState) : Prop := backingDiskOf a' = "" → as_hasMetadata a' = true ∧ as_diskDeviceUUID a' = uuid.
Lemma observeDisk_foreign a d : dev ≠ "" →
  triple False (λ _, True) (observeDisk (Some a) dev d) (λ r, ∃ a', r.1 = Some a' ∧ recognised a').
Proof using laws.
  intros Hdev%String.eqb_neq. unfold observeDisk, observeActualDiskState. rewrite Hdev.
  eapply (triple_bind _ _ _ _ (λ r, recognised r.1)); [|intros [a' err] Ha; apply triple_ret; by exists a'].
  destruct (String.eqb_spec (backingDiskOf a) "") as [Hb|Hb]; cbn [negb].
  - eapply triple_bind; [apply ExecuteCheckMD_foreign|]. intros ? ->. eapply triple_bind; [apply ExecuteReadDevUUID_foreign|]. intros ? ->.
    apply triple_ret. by split.
  - assert (Hr : ∀ u, recognised (a <| as_hasMetadata := true |> <| as_diskDeviceUUID := u |>)) by (intros u Hn; by destruct Hb).
    destruct (String.eqb (dr_DeviceUUID d) "").
    + eapply triple_bind; [apply ExecuteReadDevUUID_foreign|]. intros ? ->. apply triple_ret. apply Hr.
    + apply triple_ret. intros Hn. by destruct Hb.
Qed.
Lemma foreign_disk_actions d a up minor random gran : dr_DeviceUUID d ≠ "" → dr_DeviceUUID d ≠ uuid → recognised a →
  Forall (λ x, action_disk x ≠ Some dev) (computeDiskActions flant random minor (intendedState d dev up gran) a).
Proof using laws.
  intros Hn%String.eqb_neq Hu%String.eqb_neq Ha. destruct (fl_uuid laws) as [Hne%String.eqb_neq _]. unfold computeDiskActions.
  destruct (String.eqb_spec (backingDiskOf a) "") as [Hb|Hb]; cbn [negb andb].
  - destruct (Ha Hb) as [Hm Hd]. case_match; [|constructor]. unfold computeAttachActions. cbn [is_statusDeviceUUID intendedState].
    rewrite Hm, Hd, Hne, Hu, Hn. cbn [negb andb]. by repeat constructor.
  - case_match; [by repeat constructor|]. unfold computeDiskOptionsActionReconcile, diskOptionsFor. apply Forall_forall. intros x Hx.
    apply list_elem_of_In, in_flat_map in Hx as (v & _ & Hx). repeat case_match; simpl in Hx; naive_solver.
Qed.
Lemma other_disk_actions disk d a up minor random gran : disk ≠ dev →
  Forall (λ x, action_disk x ≠ Some dev) (computeDiskActions flant random minor (intendedState d disk up gran) a).
Proof.
  intros Hne. unfold computeDiskActions, computeAttachActions, computeDiskOptionsActionReconcile. cbn [is_backingDisk intendedState].
  repeat case_match; rewrite ?Forall_app; repeat constructor; simpl; try congruence.
  apply Forall_forall. intros x Hx. apply list_elem_of_In, in_flat_map in Hx as (v & _ & Hx). unfold diskOptionsFor in Hx.
  repeat case_match; simpl in Hx; naive_solver.
Qed.
End foreign.

(** ** Maintenance *)
Lemma inert_harmless e : inert e → harmless e.
Proof. intros. by apply only_observes_harmless, inert_only_observes. Qed.
Hint Resolve inert_harmless remote_harmless only_observes_harmless : core.
Lemma converge_maintenance d disk aState up :
  triple False harmless (converge nodeName minPort maxPort ttl flant fuel d disk aState up true) (λ r, r.1.2 = false).
Proof.
  unfold converge. eapply (triple_bind _ _ _ _ (λ _, True)); [apply triple_calls; eapply calls_weaken; [apply intended_inert|auto]|]. intros i _.
  apply triple_call; [done|]. intros rank. apply triple_call; [done|]. intros random. cbn [convergeDRBDState].
  eapply (triple_bind _ _ _ _ (λ r, r = (false, None))); [by apply triple_ret|]. intros ? ->. cbv beta iota.
  eapply (triple_bind _ _ _ _ (λ _, True)); [apply triple_calls; eapply calls_weaken; [apply resolved_inert|auto]|]. intros [d' e] _.
  by apply triple_ret.
Qed.
Lemma finish_maintenance d base name aState aErr llvs up :
  calls harmless (finishDRBDR nodeName minPort maxPort ttl flant fuel d base name aState aErr llvs up true).
Proof.
  unfold finishDRBDR. cbn [negb andb]. apply calls_ret_bind. apply calls_bind.
  { calls. eapply calls_weaken; [apply observeDisk_none|auto]. }
  intros [a' diskErr]. eapply calls_triple_bind; [apply converge_maintenance|]. intros [[d' refreshed] drbdErr] Hr. simpl in Hr. subst refreshed.
  apply calls_bind; [unfold refresh; cbn [negb]; apply calls_ret|]. intros [a2 err2].
  apply calls_bind; [eapply calls_weaken; [apply computeActualLLVName_inert|auto]|]. intros llv.
  apply calls_bind; [eapply calls_weaken; [apply releaseLLVs_remote|auto]|]. intros [llvs' llvErr'].
  apply calls_bind; [eapply calls_weaken; [apply reported_inert|auto]|]. intros d2.
  apply calls_bind; [eapply calls_weaken; [apply reportStatus_inert|auto]|]. intros [d3 err3].
  apply calls_bind; [eapply calls_weaken; [apply dropFinalizer_remote|auto]|]. intros err4. apply calls_ret.
Qed.
(** C12 While a resource is in maintenance a whole pass over it changes nothing on the node: the only commands
    are status and show, no link is made or removed, and no minor is taken. *)
Theorem maintenance_changes_nothing d : ds_Maintenance (dr_Spec d) = MaintenanceModeNoResourceReconciliation →
  calls harmless (reconcileDRBDR nodeName minPort maxPort ttl flant fuel d).
Proof.
  intros Hm. unfold reconcileDRBDR. rewrite Hm. apply calls_fmap. rewrite andb_false_r. cbn [negb].
  apply calls_bind; [eapply calls_weaken; [apply reconcileFinalizer_remote|auto]|]. intros [d1 o1]. destruct (ShouldReturn o1); [apply calls_ret|].
  apply calls_bind; [eapply calls_weaken; [apply observe_observes|auto]|]. intros [aState aErr].
  apply calls_bind; [eapply calls_weaken; [apply reconcileAddresses_inert|auto]|]. intros [d2 o2]. destruct (ShouldReturn o2); [apply calls_ret|].
  apply recorded_calls; [auto|]. intros _. apply finish_maintenance.
Qed.

(** ** Finalizers of logical volumes *)
(** What a pass from the state of [d] may do to finalizers. *)
Definition finalizer_discipline d (up maint : bool) e : Prop :=
  let spec := ds_LVMLogicalVolumeName (dr_Spec d) in
  match ev_call e with
  | PatchLLV base obj =>
      (obj = (AddFinalizer base AgentFinalizer).2 ∧ llv_Name base = spec ∧ llv_DeletionTimestamp base = None ∧
       up = true ∧ maint = false ∧ ds_Type (dr_Spec d) = DRBDDiskful ∧ spec ∈ recordedLLVs d) ∨
      (obj = (RemoveFinalizer base AgentFinalizer).2 ∧ llv_Name base ∈ recordedLLVs d ∧ (up = true → llv_Name base ≠ spec))
  | PatchDRBDR base obj => up = false ∧ obj = (RemoveFinalizer base AgentFinalizer).2
  | _ => True
  end.
Lemma inert_discipline d up maint e : inert e → finalizer_discipline d up maint e.
Proof. unfold inert, finalizer_discipline. by destruct (ev_call e). Qed.
Hint Resolve inert_discipline : core.
(** Calls that write no finalizer. *)
Definition on_host e : Prop := match ev_call e with PatchLLV _ _ | PatchDRBDR _ _ => False | _ => True end.
Lemma on_host_discipline d up maint e : on_host e → finalizer_discipline d up maint e.
Proof. unfold on_host, finalizer_discipline. by destruct (ev_call e). Qed.
Lemma inert_on_host e : inert e → on_host e.
Proof. unfold inert, on_host. by destruct (ev_call e). Qed.
Lemma only_observes_on_host e : only_observes e → on_host e.
Proof. unfold only_observes, on_host. by destruct (ev_call e). Qed.
Hint Resolve on_host_discipline inert_on_host only_observes_on_host : core.
Lemma Execute_on_host action cell : calls on_host (Execute fuel action cell).
Proof.
  assert (Hp : calls on_host (perform action cell)).
  { destruct action; unfold perform, performResource, performDisk, performPeer, performPath, performOther, reasoned, withMinor, ignoring, executeNewPath, ensureDeviceSymlink, removeDeviceSymlink; calls; by apply run_calls. }
  unfold Execute. destruct action; calls; try done. unfold newMinor. calls. generalize fuel. intros n.
  induction n as [|n IH]; cbn [ExecuteNewAutoMinor]; [apply calls_lift|].
  unfold grabNextMinor, ExecuteNewMinor, readUsedMinors, advanceMinorPastUsed. calls; try done. by apply run_calls.
Qed.
Lemma converge_on_host d disk aState up maint : calls on_host (converge nodeName minPort maxPort ttl flant fuel d disk aState up maint).
Proof.
  unfold converge. calls; try solve [eapply calls_weaken; [apply intended_inert|auto]|eapply calls_weaken; [apply resolved_inert|auto]].
  unfold convergeDRBDState. calls. generalize (computeTargetDRBDActions flant a0 a1 a aState) 0 false. intros actions.
  induction actions as [|x actions IH]; intros cell refreshed; cbn [convergeLoop]; calls. apply Execute_on_host.
Qed.
Lemma converge_spec d disk aState up maint :
  triple False on_host (converge nodeName minPort maxPort ttl flant fuel d disk aState up maint) (λ r, dr_Spec r.1.1 = dr_Spec d).
Proof.
  intros w. split; [apply converge_on_host|]. revert w.
  enough (H : triple False (λ _, True) (converge nodeName minPort maxPort ttl flant fuel d disk aState up maint) (λ r, dr_Spec r.1.1 = dr_Spec d)) by apply H.
  assert (Hall : ∀ A (m : M A), calls (λ _, True) m) by (intros A m w; by apply List.Forall_forall).
  unfold converge. eapply (triple_bind _ _ _ _ (λ _, True)); [apply triple_calls, Hall|]. intros i _.
  apply triple_call; [done|]. intros rank. apply triple_call; [done|]. intros random.
  eapply (triple_bind _ _ _ _ (λ _, True)); [apply triple_calls, Hall|]. intros [refreshed err] _.
  eapply (triple_bind _ _ _ _ (λ r, dr_Spec r.1 = dr_Spec d)); [|intros [d' err'] Hd; by apply triple_ret].
  unfold ensureLocalPortConflictResolved. repeat case_match; try (by apply triple_ret).
  eapply (triple_bind _ _ _ _ (λ _, True)); [apply triple_calls, Hall|]. intros [addrs r] _. by apply triple_ret.
Qed.
Lemma observeDisk_on_host a disk d : calls on_host (observeDisk a disk d).
Proof. unfold observeDisk, observeActualDiskState, ExecuteReadDevUUID, ExecuteCheckMD, executeCommand. calls; by apply run_calls. Qed.
Lemma refresh_on_host name disk d a refreshed : calls on_host (refresh name disk d a refreshed).
Proof. unfold refresh. calls; [eapply calls_weaken; [apply observe_observes|auto]|apply observeDisk_on_host]. Qed.

Section discipline.
(** The API server answers a request for a name with the object of that name. *)
Hypothesis named : ∀ name w llv, (serve (GetLLV name) w).2 = Replied llv → llv_Name llv = name.
Lemma getLVMLogicalVolume_named name : triple False inert (getLVMLogicalVolume name)
  (λ r, match r with inr (Some llv) => llv_Name llv = name | _ => True end).
Proof using named.
  unfold getLVMLogicalVolume. destruct (String.eqb name ""); [by apply triple_ret|]. intros w. pose proof (named name w) as Hn.
  unfold do, mbind, M_bind, mret, M_ret. destruct (serve (GetLLV name) w) as [w' r]. simpl in *. split; [by repeat constructor|].
  unfold orNil, wrapped. destruct r; auto.
Qed.
Lemma addLLV_discipline d up disk : ds_Type (dr_Spec d) = DRBDDiskful → up = true → ds_LVMLogicalVolumeName (dr_Spec d) ∈ recordedLLVs d ∨ ds_LVMLogicalVolumeName (dr_Spec d) = "" →
  calls (finalizer_discipline d up false) (reconcileLLVFinalizerAdd (ds_LVMLogicalVolumeName (dr_Spec d)) disk).
Proof using named.
  intros Ht Hup Hrec. unfold reconcileLLVFinalizerAdd. destruct (String.eqb_spec (ds_LVMLogicalVolumeName (dr_Spec d)) "") as [|Hne]; [calls|].
  destruct Hrec as [Hrec|]; [|done]. unfold getRequiredLLV.
  eapply (calls_triple_bind _ _ _ (λ r, match r with inr llv => llv_Name llv = ds_LVMLogicalVolumeName (dr_Spec d) | _ => True end)).
  { apply triple_fmap. eapply triple_weaken; [eapply triple_events; [apply getLVMLogicalVolume_named|auto]|]. by intros [|[]]. }
  intros [e|llv] Hname; [apply calls_ret|]. destruct (bool_decide (is_Some (llv_DeletionTimestamp llv))) eqn:Ed; [calls|].
  apply bool_decide_eq_false in Ed. rewrite <-eq_None_not_Some in Ed. apply calls_bind.
  - destruct (HasFinalizer llv AgentFinalizer); [apply calls_ret|]. apply calls_fmap. unfold patchLLV. calls. left. by rewrite Hname.
  - intros [llv' [e|]]; [apply calls_ret|]. calls. eapply calls_weaken; [apply getRequiredLVG_inert|auto].
Qed.
Lemma releaseLLVs_discipline d d' up maint disk llvs err : dr_Spec d' = dr_Spec d → (∀ llv, llv ∈ llvs → llv ∈ recordedLLVs d) →
  calls (finalizer_discipline d up maint) (releaseLLVs d' up disk llvs err).
Proof using named.
  intros Hs. revert err. induction llvs as [|llv llvs IH]; intros err Hl; cbn [releaseLLVs]; [apply calls_ret|]. rewrite Hs. apply calls_bind.
  - destruct ((up && _) || _) eqn:Ek; [apply calls_ret|]. apply orb_false_elim in Ek as [Ek _]. unfold releaseLLVFinalizer.
    eapply calls_triple_bind; [eapply triple_events; [apply getLVMLogicalVolume_named|auto]|].
    intros [e|[obj|]] Hname; [apply calls_ret| |apply calls_ret]. destruct (negb (HasFinalizer obj AgentFinalizer)); [apply calls_ret|].
    unfold patchLLV. calls. right. rewrite Hname. split; [done|]. split; [set_solver|]. intros ->. by apply String.eqb_neq in Ek.
  - intros releaseErr. apply calls_bind; [apply IH; set_solver|]. intros [kept e]. apply calls_ret.
Qed.
Lemma dropFinalizer_discipline d d' up maint llvs a err : calls (finalizer_discipline d up maint) (dropFinalizer d' llvs a up err).
Proof.
  unfold dropFinalizer. destruct (_ && _); [|apply calls_ret]. apply calls_bind; [|intros [? o]; calls].
  unfold reconcileFinalizer, ensureFinalizer, patchDRBDR. cbn [andb negb]. destruct up; cbn [negb]; [calls|].
  destruct (RemoveFinalizer d' AgentFinalizer) as [changed d2] eqn:E.
  assert (Hd2 : d2 = (RemoveFinalizer d' AgentFinalizer).2) by (by rewrite E). destruct (negb changed); calls.
Qed.
(** C10 A pass adds its finalizer only to the logical volume of the specification, unless that is being deleted,
    for a diskful resource that is up and not in maintenance, and only after the name was recorded in the
    status; it takes it only from recorded ones, never from that of the specification while the resource is
    up; the finalizer of the resource itself is taken only when it is not up. *)
Theorem llv_finalizers_recorded_first d name aState aErr up maint :
  calls (finalizer_discipline d up maint) (convergeRecorded nodeName minPort maxPort ttl flant fuel d name aState aErr up maint).
Proof using named.
  apply recorded_calls; [auto|]. intros Hl.
  assert (Hi : intendedLLVs d up maint = recordedLLVs d).
  { unfold intendedLLVs in *. case_match; [|done]. rewrite length_app in Hl. simpl in Hl. lia. }
  rewrite Hi. unfold finishDRBDR. apply calls_bind.
  - destruct (negb maint && _ && _) eqn:E; [|apply calls_ret]. apply andb_prop in E as [[Hm%negb_true_iff Ht%bool_decide_eq_true]%andb_prop Hup].
    rewrite Hm in *. apply addLLV_discipline; [done..|]. unfold intendedLLVs in Hi. rewrite Hup, Ht, bool_decide_eq_true_2 in Hi by done. cbn [negb andb] in Hi.
    destruct (String.eqb_spec (ds_LVMLogicalVolumeName (dr_Spec d)) "") as [|Hne]; [by right|left]. cbn [negb andb] in Hi.
    unfold slices_Contains in Hi. destruct (bool_decide _) eqn:Eb in Hi; [by apply bool_decide_eq_true in Eb|].
    apply (f_equal length) in Hi. cbn [negb] in Hi. rewrite length_app in Hi. simpl in Hi. lia.
  - intros [disk llvErr]. apply calls_bind; [calls; eapply calls_weaken; [apply observeDisk_on_host|auto]|]. intros [a1 diskErr].
    eapply calls_triple_bind; [eapply triple_events; [apply converge_spec|auto]|]. intros [[d1 refreshed] drbdErr] Hs. simpl in Hs.
    apply calls_bind; [eapply calls_weaken; [apply refresh_on_host|auto]|]. intros [a2 err2].
    apply calls_bind; [eapply calls_weaken; [apply computeActualLLVName_inert|auto]|]. intros llv.
    apply calls_bind; [by apply releaseLLVs_discipline|]. intros [llvs' llvErr'].
    apply calls_bind; [eapply calls_weaken; [apply reported_inert|auto]|]. intros d2.
    apply calls_bind; [eapply calls_weaken; [apply reportStatus_inert|auto]|]. intros [d3 err3].
    apply calls_bind; [apply dropFinalizer_discipline|]. intros err4. apply calls_ret.
Qed.
End discipline.

(** ** The port that is given out *)
Lemma request_bind {A B} (c : call A) (f : A → M B) w : (do c ≫= f) w =
  let '(w', (es, r)) := f (serve c w).2 (serve c w).1 in (w', (client.Event A c :: es, r)).
Proof. unfold do, mbind, M_bind. destruct (serve c w) as [w1 a]. simpl. by destruct (f a w1) as [w2 [es r]]. Qed.
Lemma ret_bind {A B} (a : A) (f : A → M B) w : (mret a ≫= f) w = f a w.
Proof. unfold mbind, M_bind, mret, M_ret. by destruct (f a w) as [w2 [es r]]. Qed.
Lemma bind_assoc {A B C} (m : M A) (f : A → M B) (g : B → M C) w : ((m ≫= f) ≫= g) w = (m ≫= λ a, f a ≫= g) w.
Proof.
  unfold mbind, M_bind. destruct (m w) as [w1 [es1 [a|s|]]]; [|done..]. destruct (f a w1) as [w2 [es2 [b|s|]]]; [|done..].
  destruct (g b w2) as [w3 [es3 r]]. by rewrite app_assoc.
Qed.

Section allocate.
Variables (ip : string) (kernel : list Z) (items : list DRBDResource) (pending : list (Z * Time)) (listens : Z → bool).
(** What is known of the ports of the address: the kernel's, those of the resources on the node, those promised
    less than [ttl] ago, and those a socket can be bound to. *)
Record port_laws : Prop := {
  pl_ready w : (serve (OnHost WaitReady) w).2 = None;
  pl_kernel w : (serve (OnHost (host.GetUsedPorts ip)) w).2 = inr kernel;
  pl_items w : (serve (ListDRBDRsByNode nodeName) w).2 = Replied items;
  pl_pending w : (serve (OnHost (LoadPending ip)) w).2 = pending;
  pl_promised w x : x ∈ pending → (serve Now w).2 - x.2 ≤ ttl;
  pl_listen p w : (serve (OnHost (Listen (formatAddr ip p))) w).2 = listens p;
}.
Hypothesis laws : port_laws.
Definition taken : gset Z := list_to_set kernel ∪ portsOf ip items ∪ list_to_set (map fst pending).
Definition free (p : Z) : bool := bool_decide (p ∉ taken) && listens p.
Definition promises (p : Z) e : Prop := ∃ t, e = client.Event _ (OnHost (StorePending ip (pending ++ [(p, t)]))).
Definition given (r : outcome (agentError + Z)) (o : option Z) (es : list client.event) : Prop :=
  match o with
  | Some p => r = Ok (inr p) ∧ Exists (promises p) es
  | None => ∃ err, r = Ok (inl err)
  end.
Lemma given_cons e r o es : given r o es → given r o (e :: es).
Proof. unfold given. destruct o; [intros [? ?]; by split; [|right]|done]. Qed.
Lemma given_run_cons {A} (c : call A) (x : World * (list client.event * outcome (agentError + Z))) o :
  given x.2.2 o x.2.1 → given (let '(w, (es, r)) := x in (w, (client.Event A c :: es, r))).2.2 o (let '(w, (es, r)) := x in (w, (client.Event A c :: es, r))).2.1.
Proof. destruct x as [w [es r]]. apply given_cons. Qed.
Lemma findPort_given n p w :
  given (findPort minPort maxPort ip taken pending n p w).2.2 (List.find free (seqZ p (Z.of_nat n))) (findPort minPort maxPort ip taken pending n p w).2.1.
Proof using laws.
  revert p w. induction n as [|n IH]; intros p w; [by eexists|]. rewrite Nat2Z.inj_succ, seqZ_cons by lia. rewrite Z.pred_succ. cbn [findPort List.find].
  unfold free at 1. destruct (decide (p ∈ taken)) as [Hin|Hin].
  { rewrite bool_decide_eq_false_2 by tauto. apply IH. }
  rewrite bool_decide_eq_true_2 by done. cbn [andb]. rewrite request_bind, (pl_listen laws). apply given_run_cons.
  destruct (listens p); cbn [negb].
  - rewrite !request_bind. apply given_run_cons. split; [done|]. left. by eexists.
  - replace (p + 1) with (Z.succ p) by lia. apply IH.
Qed.
Lemma fresh_kept w : List.filter (λ x, Z.min (2 ^ 63 - 1) ((serve Now w).2 - x.2) <=? ttl) pending = pending.
Proof using laws.
  apply forallb_filter_id, forallb_forall. intros x Hx%list_elem_of_In. apply Z.leb_le. pose proof (pl_promised laws w x Hx). lia.
Qed.
End allocate.
End agent.

(** ** A node with one diskful resource *)
Section a_node.
#[local] Existing Instance K8s_concrete.
#[local] Existing Instance MetaApi_concrete.
Definition resource : DRBDResource :=
  zeroDRBDR <| dr_Name := "a" |> <| dr_Generation := 1 |> <| dr_Finalizers := [AgentFinalizer] |>
    <| dr_Spec := zeroSpec <| ds_Type := DRBDDiskful |> <| ds_State := "Up" |> <| ds_NodeName := "n1" |>
         <| ds_SystemNetworks := ["Internal"] |> <| ds_LVMLogicalVolumeName := "llv-a" |> <| ds_Size := Some 4096 |> |>
    <| dr_Addresses := [{| a_SystemNetworkName := "Internal"; a_Address := ("10.0.0.1", 7000) |}] |>
    <| dr_ActiveConfiguration := Some (zeroAC <| ac_LLVFinalizersToRelease := ["llv-a"] |>) |>.
Definition diskOf (name : string) : LVMLogicalVolume :=
  {| llv_Name := "llv-" +:+ name; llv_DeletionTimestamp := None; llv_Finalizers := [AgentFinalizer]; llv_Labels := None; llv_OwnerReferences := [];
     llv_ActualLVNameOnTheNode := name; llv_Type := "Thick"; llv_LVMVolumeGroupName := "lvg"; llv_Size := "4Ki"; llv_Thin := None; llv_Status := None |}.
Definition group : LVMVolumeGroup :=
  {| vg_Name := "lvg"; vg_Generation := 1; vg_Annotations := None; vg_NodeName := "n1"; vg_Spec_ThinPools := [];
     vg_Spec_ActualVGNameOnTheNode := "vg"; vg_Status_ThinPools := []; vg_Conditions := [] |}.
Definition n1 : Node :=
  {| no_Name := "n1"; no_Labels := None; no_Unschedulable := false; no_Conditions := []; no_Addresses := [("InternalIP", "10.0.0.1")] |}.
(** Commands answer by [exec]; the caches hold the status and the configuration of the resource, or nothing. *)
Definition hostWith (exec : string → list string → string * option (error * Z)) (cached : option (option Resource * option ShowResource)) {A} (c : hostcall A) : A :=
  match c with
  | Exec command args => exec command args
  | CachedStatus _ => fst <$> cached
  | CachedShow _ => snd <$> cached
  | c => quietHost c
  end.
Definition world (exec : string → list string → string * option (error * Z)) (cached : option (option Resource * option ShowResource))
    (d : DRBDResource) (llvs : list LVMLogicalVolume) : Server :=
  store_server (zeroStore <| st_drbdr := Some d |> <| st_llvs := llvs |> <| st_lvgs := [group] |> <| st_nodes := [n1] |>
    <| st_host := @hostWith exec cached |>).
#[local] Instance text : TextApi := {| UnmarshalStatus _ := inr []; UnmarshalShow _ := inr []; ParseRFC3339Nano _ := None |}.
Definition fine (command : string) (args : list string) : string * option (error * Z) := ("", None).
Definition failing (bad : list string → bool) (command : string) (args : list string) : string * option (error * Z) :=
  if bad args then ("open failed", Some (Leaf "exit status 20" false, 20)) else ("", None).
Definition passEvents (Srv : Server) (w : World) (req : string) : list client.event * option (Result * option error) :=
  let '(_, (es, o)) := Reconcile "n1" 7000 7999 1000 false 3 {| req_Name := req; req_ActualNameOnTheNode := "" |} w in
  (es, match o with Ok r => Some r | _ => None end).
Definition commands (es : list client.event) : list string := map (λ cmd, join " " (cmd.1 :: cmd.2)) (omap command_of es).
(** The finalizers of logical volumes that a pass takes away. *)
Definition released (es : list client.event) : list string :=
  omap (λ e, match ev_call e with
             | PatchLLV base obj => if HasFinalizer base AgentFinalizer && negb (HasFinalizer obj AgentFinalizer) then Some (llv_Name base) else None
             | _ => None
             end) es.


Definition resourceDown : DRBDResource := resource <| dr_Spec := dr_Spec resource <| ds_State := "Down" |> |>.

(** The resource runs on its disk, in use. *)
Definition running : Resource :=
  {| rs_Name := "sdsrv-a"; rs_NodeID := 0; rs_Role := "Primary"; rs_Suspended := false;
     rs_Devices := [{| dv_Volume := 0; dv_Minor := 3; dv_DiskState := "UpToDate"; dv_Open := true; dv_Quorum := true; dv_Size := 4 |}];
     rs_Connections := [] |}.
Definition shown : ShowResource :=
  {| sr_Resource := "sdsrv-a";
     sr_Options := {| so_AutoPromote := false; so_Quorum := "off"; so_QuorumMinimumRedundancy := "off"; so_OnNoQuorum := "suspend-io";
                      so_OnNoDataAccessible := "suspend-io"; so_OnSuspendedPrimaryOutdated := "force-secondary"; so_QuorumDynamicVoters := true |};
     sr_ThisHost := {| sh_NodeID := 0; sh_Volumes := [{| sv_VolumeNr := 0; sv_BackingDisk := "/dev/vg/a";
       sv_Disk := {| sd_IsNone := false; sd_DiscardZeroesIfAligned := true; sd_RSDiscardGranularity := "0"; sd_NonVoting := false |} |}] |};
     sr_Connections := [] |}.
(** The API server does not answer requests for logical volumes. *)
Definition refusing (Srv0 : Server) : Server := {|
  World := @World _ Srv0;
  serve A c := match c in call T return World → World * T with
    | GetLLV _ => λ w, (w, Refused (Leaf "timeout" true))
    | c => serve c
    end |}.
(** One failed request for the logical volume of a running resource makes the pass detach its disk; with the
    request answered the pass only reads. *)
Theorem failed_lookup_detaches_disk :
  let server := world fine (Some (Some running, Some shown)) resource [diskOf "a"] in
  commands (passEvents server 0 "a").1 =
    ["drbdmeta --force - v09 /dev/vg/a internal read-dev-uuid"; "drbdmeta --force - v09 /dev/vg/a internal read-dev-uuid"] ∧
  commands (passEvents (refusing server) 0 "a").1 = ["drbdsetup detach 3"].
Proof. split; vm_compute; reflexivity. Qed.

(** *** The theorems at this resource *)
Definition knowing (uuid : string) (d : DRBDResource) : DRBDResource := d <| dr_DeviceUUID := uuid |>.
Definition printsUUID (uuid : string) (command : string) (args : list string) : string * option (error * Z) :=
  if bool_decide (list.last args = Some "read-dev-uuid") then (uuid +:+ newline, None) else ("", None).
Definition paused : DRBDResource := resource <| dr_Spec := dr_Spec resource <| ds_Maintenance := MaintenanceModeNoResourceReconciliation |> |>.
Lemma maintenance_changes_nothing_witness :
  calls (S := world fine (Some (None, None)) paused [diskOf "a"]) harmless
    (reconcileDRBDR (Srv := world fine (Some (None, None)) paused [diskOf "a"]) "n1" 7000 7999 1000 false 3 paused).
Proof. exact (maintenance_changes_nothing (Srv := world fine (Some (None, None)) paused [diskOf "a"]) "n1" 7000 7999 1000 false 3 paused eq_refl). Defined.
Lemma llv_finalizers_recorded_first_witness :
  calls (S := world fine (Some (None, None)) resource [diskOf "a"]) (finalizer_discipline resource true false)
    (convergeRecorded (Srv := world fine (Some (None, None)) resource [diskOf "a"]) "n1" 7000 7999 1000 false 3 resource "sdsrv-a" (Some zeroState) None true false).
Proof.
  apply (llv_finalizers_recorded_first (Srv := world fine (Some (None, None)) resource [diskOf "a"]) "n1" 7000 7999 1000 false 3).
  intros name w llv Hl. change (found (List.find (λ l, String.eqb (llv_Name l) name) [diskOf "a"]) = Replied llv) in Hl.
  destruct (List.find _ _) as [obj|] eqn:E; [|done]. apply List.find_some in E as [_ E%String.eqb_eq]. simpl in Hl. congruence.
Defined.
(** Port 7000 is the kernel's, 7001 is promised, 7002 cannot be bound. *)
Definition portHost {A} (c : hostcall A) : A :=
  match c with
  | host.GetUsedPorts _ => inr [7000]
  | LoadPending _ => [(7001, 0)]
  | Listen address => negb (String.eqb address "10.0.0.1:7002")
  | c => quietHost c
  end.
Definition portServer : Server := store_server (zeroStore <| st_host := @portHost |>).
Definition timeless (Srv0 : Server) : Server := {|
  World := @World _ Srv0;
  serve A c := match c in call T return World → World * T with Now => λ w, (w, 500) | c => serve c end |}.
End a_node.
