(* ===== verification/Examples.v ===== *)
(** * The theorems at concrete volumes

    First the theorems on scheduling: an environment in which every call succeeds and every volume group
    scores 5, a TransZonal pool of three zones, and a volume with two replicas to place.  Then the theorems
    on cycles and on plans at the volume of [Scenario], which in the last part a fourth replica asks to
    join and whose quorum is then off by one. *)

From Stdlib Require Import ZArith Lia String.
From stdpp Require Import base gmap list numbers strings option relations.
From S2P Require Import Prelude Flow IdSet DrbdSize Api Object Storage Pipeline PipelineTheory Scheduling.
From S2P Require Import SchedulingTheory ZoneTheory Dmte DmteInvariants Context Tracker Helpers Quorum.
From S2P Require Import Membership Datamesh Frame Plans Contexts System AttachSafety Quiet AttachCycle.
From S2P Require Import QuorumTheory MembershipTheory Scenario.
Import idset v1alpha1 storage pipeline scheduling scenario.

#[export] Instance sampleEnv : @Env K8s_concrete := {|
  World := unit;
  now _ := (tt, 100);
  rangeMap m _ := (tt, map_to_list m);
  getRV_ _ _ := (tt, ApiNotFound);
  getRSP_ _ _ := (tt, ApiNotFound);
  listRVRs _ _ := (tt, inr []);
  listRVAs _ _ := (tt, inr []);
  Patch _ r _ := (tt, ApiOk r);
  StatusPatch _ r _ := (tt, ApiOk r);
  FilterAndScore _ _ _ lvgs _ := (tt, inr (map (λ g, {| s_LVG := g; s_Score := 5 |}) lvgs));
  NarrowReservation _ _ _ _ := (tt, None);
  env_meta := MetaApi_concrete;
|}.
#[export] Instance sampleEnvLaws : EnvLaws.
Proof. split; [done|by intros base r w w' r' [= _ ->]|by intros base r w w' r' [= _ ->]]. Qed.

Definition replica (i : Z) (node : string) : ReplicatedVolumeReplica :=
  set_Placement node "" "" (rvr i ReplicaTypeDiskful [] 0).
Definition samplePool : ReplicatedStoragePool :=
  zeroRSP <| rsp_Spec_Type := PoolLVM |>
    <| rsp_EligibleNodes := [eligibleNode "node-c" "c" ["vg-c"]; eligibleNode "node-a" "a" ["vg-a"]; eligibleNode "node-b" "b" ["vg-b"]] |>.
Definition sampleConfig : Configuration :=
  {| cfg_ReplicatedStoragePoolName := "pool"; cfg_Topology := TopologyTransZonal; cfg_FailuresToTolerate := 1;
     cfg_GuaranteedMinimumDataRedundancy := 1; cfg_VolumeAccess := VolumeAccessAny |}.
Definition idle : io := {| io_world := tt; io_sent := [] |}.
(** Replica 0 is placed on node-a; replicas 1 and 2 are not placed. *)
Definition sampleReplicas : list ReplicatedVolumeReplica :=
  [set_Placement "node-a" "vg-a" "" (replica 0 "node-a"); replica 1 ""; replica 2 ""].
Definition sampleContext (rvrs : list ReplicatedVolumeReplica) : schedulingContext :=
  computeSchedulingContext volume sampleConfig samplePool rvrs [].

(** The remaining zones get one replica each. *)
Example sample_placements :
  map (λ p, (rvr_Name p.2, rvr_Spec_NodeName p.2, rvr_Spec_LVMVolumeGroupName p.2))
    (io_sent (scheduleReplicas (sampleContext sampleReplicas) sampleReplicas idle).1.1) =
  [("vol-1", "node-b", "vg-b"); ("vol-2", "node-c", "vg-c")].
Proof. vm_compute. reflexivity. Qed.

Ltac distinct := apply NoDup_ListNoDup; vm_compute; repeat constructor; simpl; intuition congruence.
Ltac valid_ids := vm_compute; repeat (constructor; [split; congruence|]); constructor.

Lemma computeReplicasByZone_exact_witness :
  NoDup (map en_NodeName (rsp_EligibleNodes samplePool)) ∧ valid_id 0 ∧
  match computeReplicasByZone (sort_by (λ a b, cmp_leb String.compare (en_NodeName a) (en_NodeName b)) (rsp_EligibleNodes samplePool))
          sampleReplicas !! "a" with
  | Some s => Contains s 0 = true
  | None => False
  end.
Proof.
  assert (Hd : NoDup (map en_NodeName (rsp_EligibleNodes samplePool))) by distinct.
  assert (Hv : valid_id 0) by (vm_compute; split; congruence). split; [exact Hd|]. split; [exact Hv|].
  pose proof (computeReplicasByZone_exact (rsp_EligibleNodes samplePool) sampleReplicas "a" 0 Hd Hv) as H.
  destruct (computeReplicasByZone _ sampleReplicas !! "a") as [s|]; [|apply H; set_solver].
  apply H. exists (set_Placement "node-a" "vg-a" "" (replica 0 "node-a")), (eligibleNode "node-a" "a" ["vg-a"]).
  split; [set_solver|]. split; [reflexivity|]. split; [discriminate|]. split; [set_solver|]. split; reflexivity.
Defined.

Lemma preferredZones_best_witness :
  let sctx := sampleContext sampleReplicas in
  let m := sc_ReplicasByZone sctx in
  "b" ∈ computePreferredZones (map_to_list m) (rev (map_to_list m)) (transZonalCompare sctx true).
Proof.
  intros sctx m.
  apply (preferredZones_best sctx (Some true) m (map_to_list m) (rev (map_to_list m)) "b");
    [reflexivity|symmetry; apply Permutation_rev|].
  exists 0. split; [vm_compute; reflexivity|]. intros z' s' _. apply (transZonalCompare_ge sctx true). apply Len_nonneg.
Defined.

Lemma transZonal_balanced_witness :
  balanced (rsp_EligibleNodes samplePool) sampleReplicas ∧
  balanced (rsp_EligibleNodes samplePool) (scheduleReplicas (sampleContext sampleReplicas) sampleReplicas idle).2.1.
Proof.
  assert (Hb : balanced (rsp_EligibleNodes samplePool) sampleReplicas).
  { intros z1 z2 H1 H2. repeat (apply elem_of_cons in H1 as [->|H1]); try (by apply not_elem_of_nil in H1);
      repeat (apply elem_of_cons in H2 as [->|H2]); try (by apply not_elem_of_nil in H2); vm_compute; congruence. }
  split; [exact Hb|].
  apply (@transZonal_balanced K8s_concrete sampleEnv sampleEnvLaws volume sampleConfig samplePool sampleReplicas [] tt); [reflexivity|distinct| |distinct|valid_ids|exact Hb].
  repeat (constructor; [discriminate|]); constructor.
Defined.

(** A volume whose only replica has a node in zone a but no volume group. *)
Lemma partial_transzonal_unplaced_witness :
  let rvrs := [replica 0 "node-a"] in
  let '((s', sctx'), (r', _)) := reconcileOneRVRScheduling (replica 0 "node-a") (idle, sampleContext rvrs) in
  io_sent s' = [] ∧ rvr_Spec_LVMVolumeGroupName r' = "" ∧
  c_Message <$> StatusCondition r' "Scheduled" =
    Some "3 candidates (node×LVG) from 3 eligible nodes; 2 excluded: node mismatch (assigned); 1 excluded: zone (transZonal min replicas)".
Proof.
  pose proof (@partial_transzonal_unplaced K8s_concrete sampleEnv sampleEnvLaws volume sampleConfig samplePool [replica 0 "node-a"] [] idle (replica 0 "node-a")
    (eligibleNode "node-a" "a" ["vg-a"]) "b" eq_refl ltac:(distinct) ltac:(distinct) ltac:(valid_ids) ltac:(set_solver) eq_refl
    ltac:(set_solver) eq_refl ltac:(discriminate) ltac:(set_solver) ltac:(vm_compute; reflexivity)) as H.
  revert H. cbv zeta. fold (sampleContext [replica 0 "node-a"]).
  destruct (reconcileOneRVRScheduling (replica 0 "node-a") (idle, sampleContext [replica 0 "node-a"])) as [[s' sctx'] [r' o]] eqn:Er.
  intros [Hs _]. split; [exact Hs|].
  replace r' with (reconcileOneRVRScheduling (replica 0 "node-a") (idle, sampleContext [replica 0 "node-a"])).2.1 by (by rewrite Er).
  clear. split; vm_compute; reflexivity.
Defined.

Import idset v1alpha1 dmte datamesh process scenario.

(** The volume after a first cycle that attached it: one stored transition. *)
Definition attaching : ReplicatedVolume := Eval vm_compute in after (cycle volume (rvrs 5) [attachment 0]).

Lemma NoDup_ids (l : list Z) : bool_decide (NoDup l) = true → NoDup l.
Proof. by rewrite bool_decide_eq_true. Qed.
Lemma volume_inputs_ok : inputs_ok volume (rvrs 5).
Proof.
  split; [apply NoDup_ids; vm_compute; reflexivity|apply NoDup_ids; vm_compute; reflexivity|constructor|].
  split_and!; intros x Hx; repeat (apply elem_of_cons in Hx as [-> | Hx]; [vm_compute; discriminate|]);
    by apply elem_of_nil in Hx.
Qed.

Definition contexts_g : globalContext := Eval vm_compute in
  match buildContexts volume pool (rvrs 5) [attachment 0] flags with
  | Ok g => g
  | _ => initContext volume config pool flags
  end.
Lemma contexts_Ok : buildContexts volume pool (rvrs 5) [attachment 0] flags = Ok contexts_g.
Proof. vm_compute. reflexivity. Qed.

Lemma buildContexts_lookup_witness :
  buildContexts volume pool (rvrs 5) [attachment 0] flags = Ok contexts_g ∧ ∃ rc, replicaAt contexts_g 1 = Some rc ∧
    rc_id rc = 1 ∧ rc_rvr rc = inputRVR (rvrs 5) 1 ∧ is_Some (rc_member rc).
Proof.
  split; [exact contexts_Ok|].
  pose proof (buildContexts_lookup volume pool (rvrs 5) [attachment 0] flags contexts_g 1
    volume_inputs_ok contexts_Ok) as H.
  specialize (H ltac:(split; lia)).
  destruct (replicaAt contexts_g 1) as [rc|] eqn:E.
  - destruct H as (H1 & H2 & H3 & _). exists rc. split_and!; try done. rewrite H3. vm_compute. by eexists.
  - exfalso. revert E. vm_compute. discriminate.
Defined.

Lemma buildContexts_total_witness :
  ∃ g, buildContexts volume pool (rvrs 5) [attachment 0] flags = Ok g ∧ ctx_wf g.
Proof.
  apply buildContexts_total; [by eexists| | |constructor];
    repeat (constructor; [vm_compute; split; congruence|]); constructor.
Defined.

Lemma provenance_contexts : provenance (rv_Members volume) contexts_g.
Proof.
  intros j rc m i Hj Hat Hm.
  pose proof (lookup_inputs volume pool (rvrs 5) [attachment 0] flags contexts_g j
    volume_inputs_ok contexts_Ok Hj) as H. rewrite Hat in H.
  assert (E : rc_member rc = inputMember volume j).
  { rewrite (f_equal rc_member H : rc_member rc = _). by apply populated_spec. }
  rewrite E in Hm. unfold inputMember in Hm. destruct (list_find _ _) as [[k m0]|] eqn:F; [|done].
  apply list_find_Some in F as (F1 & F2 & _). simpl in Hm. injection Hm as <- <-. by exists m0.
Qed.
Lemma writebackMembers_exact_witness :
  member 1 MemberTypeDiskful ∈ writebackMembersFromContexts (rv_Members volume) contexts_g.
Proof.
  apply (writebackMembers_exact (rv_Members volume) contexts_g (member 1 MemberTypeDiskful) provenance_contexts).
  - repeat (constructor; [vm_compute; split; congruence|]). constructor.
  - exists 1, (default (emptyContext 1) (replicaAt contexts_g 1)).
    split_and!; [split; lia|vm_compute; reflexivity|vm_compute; reflexivity].
Defined.

Lemma attaching_ok : transitions_ok (rv_DatameshTransitions attaching).
Proof.
  split.
  - repeat (constructor; [vm_compute; reflexivity|]). constructor.
  - repeat (constructor; [right; vm_compute; split; congruence|]). constructor.
  - intros [|[|i]] [|[|j]] t u Hij Hi Hj; try done.
Qed.
(** The next cycle, in which the replicas report the revision of the attach step. *)
Lemma ProcessTransitions_transitions_ok_witness :
  ∃ changed ctxs rv', cycle attaching (rvrs 6) [attachment 0] = Ok (changed, ctxs, rv') ∧
    transitions_ok (rv_DatameshTransitions rv').
Proof.
  pose proof (ProcessTransitions_transitions_ok clock attaching pool (rvrs 6) [attachment 0] flags []
    attaching_ok) as H.
  unfold cycle. match type of H with okf ?o _ =>
    assert (Hok : match o with Ok _ => true | _ => false end = true) by (vm_compute; reflexivity);
    destruct o as [[[ch ctxs] rv']| |]; [|discriminate Hok|discriminate Hok] end.
  by exists ch, ctxs, rv'.
Defined.

(** ** Single attachment *)
Lemma attaching_attachments : attachments_ok attaching.
Proof.
  split; [exact attaching_ok| | |].
  - repeat (constructor; [vm_compute; split; [split; congruence|congruence]|]). constructor.
  - right. assert (H : ∀ i, potential attaching i → i = 0).
    { intros i [(m & Hm & Ha & <-)|(t & Ht & _ & <-)].
      - repeat (apply elem_of_cons in Hm as [-> | Hm]; [revert Ha; vm_compute; congruence|]). by apply elem_of_nil in Hm.
      - repeat (apply elem_of_cons in Ht as [-> | Ht]; [vm_compute; reflexivity|]). by apply elem_of_nil in Ht. }
    intros i j ->%H ->%H. done.
  - intros t m Ht Hd. exfalso. repeat (apply elem_of_cons in Ht as [-> | Ht]; [revert Hd; vm_compute; congruence|]).
    by apply elem_of_nil in Ht.
Qed.
Lemma rvrs_named n r : r ∈ rvrs n → rvr_Name r ≠ "".
Proof.
  intros Hr. repeat (apply elem_of_cons in Hr as [-> | Hr]; [vm_compute; discriminate|]). by apply elem_of_nil in Hr.
Qed.
(** The next cycle asks to attach a second node, too. *)
Lemma ProcessTransitions_attachments_ok_witness :
  ∃ changed ctxs rv', cycle attaching (rvrs 6) [attachment 0; attachment 1] = Ok (changed, ctxs, rv') ∧
    attachments_ok rv'.
Proof.
  pose proof (ProcessTransitions_attachments_ok clock attaching pool (rvrs 6) [attachment 0; attachment 1] flags []
    (rvrs_named 6) attaching_attachments) as H.
  unfold cycle. match type of H with okf ?o _ =>
    assert (Hok : match o with Ok _ => true | _ => false end = true) by (vm_compute; reflexivity);
    destruct o as [[[ch ctxs] rv']| |]; [|discriminate Hok|discriminate Hok] end.
  by exists ch, ctxs, rv'.
Defined.

(** ** A cancelled transition is not reported *)

(** The volume being attached, with a force-detach request for the replica. *)
Definition forced : ReplicatedVolume :=
  set_status (rv_DatameshRevision attaching) (rv_Members attaching) (rv_BaselineGMDR attaching)
    [{| rq_Name := "vol-0"; rq_Message := ""; rq_FirstObservedAt := 0;
        rq_Request := {| mr_Operation := OpForceDetach; mr_Type := ReplicaTypeOther "";
          mr_LVMVolumeGroupName := ""; mr_ThinPoolName := "" |} |}]
    (rv_DatameshTransitions attaching) (rv_EffectiveLayout attaching) attaching.
Definition summary (o : outcome (bool * list ReplicaContext * ReplicatedVolume)) : option (bool * nat) :=
  match o with Ok (changed, _, rv) => Some (changed, length (rv_DatameshTransitions rv)) | _ => None end.

(** a cycle can drop a stored transition and still report no change: with a force-detach request
    for a replica whose Attach is in progress, the Attach is cancelled before the plan's guard (the
    replica is still reachable) refuses the dispatch, and ProcessTransitions returns false. *)
Theorem cancel_unreported :
  summary (cycle forced (rvrs 5) [attachment 0]) = Some (false, 0%nat) ∧
  length (rv_DatameshTransitions forced) = 1%nat.
Proof. split; vm_compute; reflexivity. Qed.

Lemma ProcessTransitions_unchanged_witness :
  ∃ ctxs rv', cycle forced (rvrs 5) [attachment 0] = Ok (false, ctxs, rv') ∧
    rv' = with_transitions (rv_DatameshTransitions rv') forced.
Proof.
  assert (HN : Forall (λ t, name_ok (t_ReplicaName t)) (rv_DatameshTransitions forced)) by exact (to_names _ attaching_ok).
  pose proof (ProcessTransitions_unchanged clock forced pool (rvrs 5) [attachment 0] flags [] HN) as H.
  unfold cycle. match type of H with okf ?o _ =>
    assert (Hok : match o with Ok (b, _, _) => negb b | _ => false end = true) by (vm_compute; reflexivity);
    destruct o as [[[[] ctxs] rv']| |]; [discriminate Hok| |discriminate Hok|discriminate Hok] end.
  exists ctxs, rv'. split; [done|]. by apply H.
Defined.

Import idset v1alpha1 dmte datamesh helpers membership quorum process scenario.

(** ** A replica joins *)
Definition request (i : Z) (op : RequestOperation) (ty : ReplicaType) : DatameshReplicaRequest :=
  {| rq_Name := "vol-" +:+ itoa i; rq_Message := ""; rq_FirstObservedAt := 0;
     rq_Request := {| mr_Operation := op; mr_Type := ty; mr_LVMVolumeGroupName := "vg";
       mr_ThinPoolName := "" |} |}.
Definition with_requests (rqs : list DatameshReplicaRequest) (rv : ReplicatedVolume) : ReplicatedVolume :=
  set_status (rv_DatameshRevision rv) (rv_Members rv) (rv_BaselineGMDR rv) rqs
    (rv_DatameshTransitions rv) (rv_EffectiveLayout rv) rv.
Definition built (rv : ReplicatedVolume) (rs : list ReplicatedVolumeReplica) : globalContext :=
  match buildContexts rv pool rs [] flags with
  | Ok g => g
  | _ => initContext rv config pool flags
  end.
Definition joining : globalContext := Eval vm_compute in
  built (with_requests [request 3 OpJoin ReplicaTypeDiskful] volume)
    (rvrs 5 ++ [rvr 3 ReplicaTypeDiskful [] 0]).
Definition joiner : ReplicaContext := Eval vm_compute in
  default (emptyContext 3) (replicaAt joining 3).

Lemma joining_dispatchable : dispatchable joining 3 joiner AddReplica.
Proof.
  split; try (vm_compute; reflexivity); try (vm_compute; by split).
  intros _. by eexists.
Qed.
Lemma membership_plans_majority_witness :
  membershipChoice [] joining joiner = Ok (Some (AddReplica, Select "diskful/v1")) ∧
  ∃ p g', reg_get theRegistry AddReplica "diskful/v1" = Some p ∧
    run_steps (take 1 (pl_steps p)) [] joining (Some 3%nat) = Ok g' ∧
    dm_quorum (g_datamesh g') = computeTargetQ (voterCount g').
Proof.
  split; [vm_compute; reflexivity|].
  apply (membership_plans_majority [] joining 3 joiner AddReplica "diskful/v1" 1);
    [vm_compute; reflexivity|exact joining_dispatchable].
Defined.
Lemma membership_plans_target_witness :
  ∃ p g' rc', reg_get theRegistry AddReplica "diskful/v1" = Some p ∧
    run_steps (pl_steps p) [] joining (Some 3%nat) = Ok g' ∧
    g_allReplicas g' !! 3%nat = Some rc' ∧ m_Type <$> memberOf rc' = Some MemberTypeDiskful.
Proof.
  destruct (membership_plans_target [] joining 3 joiner AddReplica "diskful/v1")
    as (p & g' & rc' & H1 & H2 & H3 & H4 & _);
    [vm_compute; reflexivity|exact joining_dispatchable|].
  by exists p, g', rc'.
Defined.

(** ** A wrong quorum *)
Definition wrongQuorum : globalContext := set_datamesh (set_quorum 1 (g_datamesh joining)) joining.
Lemma changeQuorum_settles_witness :
  ∃ p g', reg_get theRegistry ChangeQuorum "raise/v1" = Some p ∧
    run_steps (pl_steps p) [] wrongQuorum None = Ok g' ∧
    quorumDispatcher [] g' = Ok Done.
Proof.
  destruct (changeQuorum_settles [] wrongQuorum (DispatchGlobal ChangeQuorum "raise/v1") (λ _ _, Ok Done))
    as (p & g' & H1 & _ & H2 & _ & _ & H3); [vm_compute; reflexivity|].
  by exists p, g'.
Defined.
