(* ===== verification/ExamplesTheory.v ===== *)
(** * The component theorems at a concrete volume, and two panics

    Instances of the theorems on guards, networks, resize, layout, confirmation and dispatch at the
    volume of [Scenario]; then two concrete cycles that end in a nil-pointer panic. *)

From Stdlib Require Import ZArith Lia String.
From stdpp Require Import base list numbers strings option relations.
From S2P Require Import Prelude IdSet DrbdSize Api Dmte Context Tracker Helpers Guards Network Quorum Datamesh Plans.
From S2P Require Import QuorumTheory GuardTheory NetworkTheory LayoutTheory DispatchTheory.
From S2P Require Import Scenario Examples.
Import idset v1alpha1 dmte datamesh helpers guards network resize effective_layout process scenario.
#[local] Existing Instance K8s_concrete_laws.

(** ** Losing a voter *)
Definition zoned (zone : string) (m : DatameshMember) : DatameshMember :=
  {| m_Name := m_Name m; m_Type := m_Type m; m_NodeName := m_NodeName m; m_Zone := zone;
     m_Addresses := m_Addresses m; m_LVMVolumeGroupName := m_LVMVolumeGroupName m;
     m_LVMVolumeGroupThinPoolName := m_LVMVolumeGroupThinPoolName m; m_Attached := m_Attached m |}.
Definition with_members (ms : list DatameshMember) (rv : ReplicatedVolume) : ReplicatedVolume :=
  set_status (rv_DatameshRevision rv) ms (rv_BaselineGMDR rv) (rv_DatameshReplicaRequests rv)
    (rv_DatameshTransitions rv) (rv_EffectiveLayout rv) rv.
Definition transZonal : Configuration :=
  {| cfg_ReplicatedStoragePoolName := "pool"; cfg_Topology := TopologyTransZonal;
     cfg_FailuresToTolerate := 1; cfg_GuaranteedMinimumDataRedundancy := 0;
     cfg_VolumeAccess := VolumeAccessAny |}.
Definition with_config (cfg : Configuration) (g : globalContext) : globalContext :=
  {| g_in := {| in_deletionTimestamp := in_deletionTimestamp (g_in g); in_configuration := cfg;
                in_datameshRevision := in_datameshRevision (g_in g); in_size := in_size (g_in g);
                in_maxAttachments := in_maxAttachments (g_in g);
                in_replicatedStorageClassName := in_replicatedStorageClassName (g_in g);
                in_rsp := in_rsp (g_in g); in_features := in_features (g_in g) |};
     g_datamesh := g_datamesh g; g_baselineGMDR := g_baselineGMDR g; g_replicas := g_replicas g;
     g_allReplicas := g_allReplicas g; g_quorumSatisfied := g_quorumSatisfied g;
     g_quorumDiagnostic := g_quorumDiagnostic g; g_tracking := g_tracking g |}.
(** Voters in zones a, b and c, and a tie-breaker in c. *)
Definition threeZones : globalContext := Eval vm_compute in
  with_config transZonal
    (built (with_members [zoned "a" (member 0 MemberTypeDiskful); zoned "b" (member 1 MemberTypeDiskful);
                          zoned "c" (member 2 MemberTypeTieBreaker); zoned "c" (member 3 MemberTypeDiskful)] volume)
       (rvrs 5 ++ [rvr 3 ReplicaTypeDiskful [0; 1; 2] 5])).
Definition leaver : ReplicaContext := Eval vm_compute in default (emptyContext 3) (replicaAt threeZones 3).
Definition twoZones : globalContext := Eval vm_compute in
  match removeMember [] threeZones (Some 3%nat) with Ok (_, g) => g | _ => threeZones end.
Lemma loseVoter_redundancy_witness :
  Forall (λ gd, passes gd [] threeZones 3) loseVoterGuards ∧ zoneQuorate twoZones "a".
Proof.
  assert (HF : Forall (λ gd, passes gd [] threeZones 3) loseVoterGuards).
  { repeat constructor; eexists; (split; [vm_compute; reflexivity|reflexivity]). }
  split; [exact HF|].
  apply (loseVoter_redundancy [] threeZones twoZones 3 leaver true); try (vm_compute; first [reflexivity|discriminate]).
  exact HF.
Defined.

(** ** Networks *)
(** The pool has moved to another network. *)
Definition newPool : RSP :=
  {| FindEligibleNode n := None; GetSystemNetworkNames := ["Internal2"] |}.
Definition blankChange : Transition :=
  {| t_Type := ChangeSystemNetworks; t_ReplicaName := ""; t_ReplicaType := ReplicaTypeOther "";
     t_FromReplicaType := ReplicaTypeOther ""; t_ToReplicaType := ReplicaTypeOther "";
     t_FromSystemNetworkNames := []; t_ToSystemNetworkNames := [];
     t_Group := GroupNetwork; t_PlanID := "migrate/v1"; t_Steps := [] |}.
Definition migrating : globalContext := Eval vm_compute in
  set_tracking {| hasFormationTransition := false; hasQuorumTransition := false; hasMultiattachTransition := false;
     hasNetworkTransition := true; hasResizeTransition := false; diskGainingMembershipTransitions := 0;
     votingMembershipTransitions := 0; nonVotingMembershipTransitions := 0; attachmentTransitions := 0;
     emergencyTransitions := 0; potentiallyAttached := 0; changeSystemNetworksTransition := Some 0%nat |}
   (match buildContexts volume (Some newPool) (rvrs 5) [] flags with
    | Ok g => g | _ => initContext volume config pool flags end).
Definition change : Transition := set_t_networks ["Internal"] ["Internal2"] blankChange.
Lemma networkPlan_reaches_target_witness :
  ∃ p, reg_get theRegistry ChangeSystemNetworks "migrate/v1" = Some p ∧
    ∃ g', run_steps (pl_steps p) [change] migrating None = Ok g' ∧ ∀ x, x ∈ names g' ↔ x ∈ ["Internal2"].
Proof.
  destruct (networkPlan_reaches_target [change] migrating newPool "migrate/v1" blankChange change)
    as (p & Hp & _ & _ & g' & Hr & Hn & _);
    [reflexivity|discriminate|discriminate|vm_compute; reflexivity|reflexivity|reflexivity|].
  exists p. split; [exact Hp|]. exists g'. split; [exact Hr|exact Hn].
Defined.

(** ** Resize *)
(** The volume asks for two gibibytes; the backing volumes are large enough. *)
Definition larger : globalContext := Eval vm_compute in
  let g := built volume (rvrs 5) in
  {| g_in := {| in_deletionTimestamp := in_deletionTimestamp (g_in g); in_configuration := in_configuration (g_in g);
                in_datameshRevision := in_datameshRevision (g_in g); in_size := 2147483648;
                in_maxAttachments := in_maxAttachments (g_in g);
                in_replicatedStorageClassName := in_replicatedStorageClassName (g_in g);
                in_rsp := in_rsp (g_in g); in_features := in_features (g_in g) |};
     g_datamesh := g_datamesh g; g_baselineGMDR := g_baselineGMDR g; g_replicas := g_replicas g;
     g_allReplicas := g_allReplicas g; g_quorumSatisfied := g_quorumSatisfied g;
     g_quorumDiagnostic := g_quorumDiagnostic g; g_tracking := g_tracking g |}.
Definition firstDisk : ReplicaContext := Eval vm_compute in default (emptyContext 0) (replicaAt larger 0).
Lemma guardBackingVolumesGrown_sufficient_witness :
  guardBackingVolumesGrown [] larger = Ok (pass, larger) ∧
  ∃ bv size, rvr_BackingVolume (rvr 0 ReplicaTypeDiskful [1; 2] 5) = Some bv ∧ bv_Size bv = Some size ∧
    ∀ k, size = 4096 * k → 0 ≤ k < 2 ^ 51 → 2147483648 ≤ @q_Value ZQuantity (drbd_size.UsableSize size).
Proof.
  split; [vm_compute; reflexivity|].
  apply (guardBackingVolumesGrown_sufficient [] larger pass firstDisk (rvr 0 ReplicaTypeDiskful [1; 2] 5)).
  - vm_compute. split; discriminate.
  - vm_compute. reflexivity.
  - reflexivity.
  - unfold larger, firstDisk. simpl. left.
  - vm_compute. reflexivity.
  - vm_compute. reflexivity.
Defined.
Lemma resize_settles_witness :
  ∃ p g', reg_get theRegistry ResizeVolume "resize/v1" = Some p ∧
    run_steps (pl_steps p) [] larger None = Ok g' ∧ resizeDispatcher [] g' = Ok Done.
Proof.
  destruct (resize_settles [] larger 1073741824 (DispatchGlobal ResizeVolume "resize/v1") (λ _ _, Ok Done))
    as (p & g' & Hp & _ & Hr & _ & Hd).
  - vm_compute. split; discriminate.
  - vm_compute. reflexivity.
  - unfold int64. lia.
  - vm_compute. reflexivity.
  - exists p, g'. split; [exact Hp|]. split; [exact Hr|exact Hd].
Defined.

(** ** Layout, confirmation and dispatch *)
Lemma larger_ids x : x ∈ g_allReplicas larger → valid_id (rc_id x).
Proof.
  intros Hx. repeat (apply elem_of_cons in Hx as [-> | Hx]; [vm_compute; split; congruence|]). by apply elem_of_nil in Hx.
Qed.
Lemma larger_distinct x y : x ∈ g_allReplicas larger → y ∈ g_allReplicas larger → rc_id x = rc_id y → x = y.
Proof.
  intros Hx Hy. repeat (apply elem_of_cons in Hx as [-> | Hx]); try (by apply elem_of_nil in Hx);
    repeat (apply elem_of_cons in Hy as [-> | Hy]); try (by apply elem_of_nil in Hy); vm_compute; congruence.
Qed.
Lemma effective_voters_witness : Contains (reachableVoters (classifyAll larger)) 0 = true.
Proof.
  destruct (effective_voters larger firstDisk larger_ids larger_distinct) as [H _].
  - unfold larger, firstDisk. simpl. left.
  - vm_compute. reflexivity.
  - refine (eq_trans H _). vm_compute. reflexivity.
Defined.
Lemma effectiveLayout_consistent_witness :
  el_ReachableVoters (effectiveLayout larger) ≤ el_TotalVoters (effectiveLayout larger).
Proof.
  apply (effectiveLayout_consistent larger); vm_compute; split; congruence.
Defined.
Lemma confirm_complete_witness :
  ∃ cr, confirmSubjectOnly [] larger (Some 0%nat) 5 = Ok cr ∧ complete cr.
Proof.
  destruct (confirm_complete [] larger 0 firstDisk 5 larger_ids eq_refl) as (_ & _ & (cr & E & H) & _).
  exists cr. split; [exact E|]. apply H. vm_compute. reflexivity.
Defined.

(** ** Two panics *)
Definition panics {A} (o : outcome A) : bool := match o with Panic _ => true | _ => false end.

(** A fourth diskful replica joins three: its plan first adds it as an access replica. *)
Definition threeDiskful (revision : Z) : list ReplicatedVolumeReplica :=
  [rvr 0 ReplicaTypeDiskful [1; 2] revision; rvr 1 ReplicaTypeDiskful [0; 2] revision;
   rvr 2 ReplicaTypeDiskful [0; 1] revision].
Definition joinVolume : ReplicatedVolume := Eval vm_compute in
  after (cycle (with_requests [request 3 OpJoin ReplicaTypeDiskful]
    (with_members [member 0 MemberTypeDiskful; member 1 MemberTypeDiskful; member 2 MemberTypeDiskful] volume))
    (threeDiskful 5 ++ [rvr 3 ReplicaTypeDiskful [] 0]) []).

(** a withdrawn request panics.  While a diskful replica joins by the plan diskful-q-up/v1, its
    request may disappear after the first step (its type is changed to Access, say); the second step
    reads the backing volume from the request, and once all replicas have confirmed the first step
    the cycle ends in a nil-pointer dereference.  With the request still there it proceeds. *)
Theorem withdrawn_request_panics :
  map t_PlanID (rv_DatameshTransitions joinVolume) = ["diskful-q-up/v1"] ∧
  panics (cycle joinVolume (threeDiskful 6 ++ [rvr 3 ReplicaTypeDiskful [0; 1; 2] 6]) []) = false ∧
  panics (cycle (with_requests [] joinVolume) (threeDiskful 6 ++ [rvr 3 ReplicaTypeDiskful [0; 1; 2] 6]) []) = true.
Proof. split_and!; vm_compute; reflexivity. Qed.

(** An access replica is being removed, and its replica object disappears. *)
Definition removeVolume : ReplicatedVolume := Eval vm_compute in
  with_requests [] (after (cycle (with_requests [request 3 OpLeave ReplicaTypeAccess]
    (with_members [member 0 MemberTypeDiskful; member 1 MemberTypeDiskful; member 2 MemberTypeTieBreaker;
                   member 3 MemberTypeAccess] volume)) (rvrs 5 ++ [rvr 3 ReplicaTypeAccess [0; 1; 2] 5]) [])).

(** Attachments on two foreign nodes panic.  While the removal of a replica whose object is gone
    is still stored, one attachment on a node without a replica is tolerated, but two make
    buildContexts reallocate the contexts and rebuild the ID index from those with a name, which
    drops the removed replica's context: confirming its step then dereferences a nil pointer. *)
Theorem orphan_attachments_panic :
  map t_Type (rv_DatameshTransitions removeVolume) = [RemoveReplica] ∧
  panics (cycle removeVolume (rvrs 6) [attachment 7]) = false ∧
  panics (cycle removeVolume (rvrs 6) [attachment 7; attachment 8]) = true.
Proof. split_and!; vm_compute; reflexivity. Qed.
