(* ===== verification/ExamplesRvr.v ===== *)
(** * The replica controller at concrete replicas

    The theorems of [RvrTheory], [RvrSafety] and [RvrCalls] at the volume of [Scenario], and passes that
    go wrong. *)

From Stdlib Require Import ZArith Lia String.
From stdpp Require Import base gmap list numbers strings option.
From S2P Require Import Prelude IdSet DrbdSize Api Object Storage Flow Client.
From S2P Require Import Pipeline Context Layout Rollout Replicas RvaStatus RvrBase BackingVolume DrbdResource RvrStatus.
From S2P Require Import RvrConditions RvrController Scenario RvrTheory RvrSafety.
Import idset drbd_size v1alpha1 objutilv1 storage drbd flow client pipeline layout replicas rva_status rvr_base backing drbd_resource rvr_status.
Import rvr_conditions rvr_phase rvr_controller scenario.

#[local] Existing Instance K8s_concrete_laws.
#[local] Existing Instance MetaApi_concrete.

(** The agent of the node is ready; other objects come from the arguments of a pass. *)
#[local] Instance server : Server := store_server (zeroStore <| st_agents := [true] |>).
Definition now0 : @World _ server := 100.
Definition passOf (rvr : ReplicatedVolumeReplica) (rv : option ReplicatedVolume) (d : DRBDResource) (llvs : list LVMLogicalVolume) :
    outcome ReconcileOutcome * list event :=
  let '(_, (es, o)) := reconcileChildren (Some rvr) rv (Some d) llvs None now0 in (o, es).
(** The status a pass writes, and the DRBD resources and volumes it changes. *)
Definition written (es : list event) : list ReplicatedVolumeReplica :=
  omap (λ e, match ev_call e with PatchRVRStatus _ o => Some o | _ => None end) es.
Definition patchedDRBDR (es : list event) : list DRBDResource :=
  omap (λ e, match ev_call e with PatchDRBDR _ o => Some o | _ => None end) es.
Definition deletedLLV (es : list event) : list string :=
  omap (λ e, match ev_call e with DeleteLLV l => Some (llv_Name l) | _ => None end) es.

(** ** A tie-breaker that never had quorum *)
Definition diskless : DRBDResource :=
  zeroDRBDR <| dr_Name := "vol-2" |> <| dr_Generation := 1 |> <| dr_Finalizers := [RVRControllerFinalizer] |>
    <| dr_Spec := zeroSpec <| ds_Type := DRBDDiskless |> <| ds_NodeName := node 2 |> <| ds_NodeID := 2 |> |>
    <| dr_Addresses := [addr 2] |> <| dr_Quorum := Some false |>
    <| dr_ActiveConfiguration := Some (zeroAC <| ac_Quorum := Some 2 |> <| ac_QuorumMinimumRedundancy := Some 1 |>
         <| ac_Role := DRBDRoleSecondary |> <| ac_Type := DRBDDiskless |>) |>
    <| dr_Conditions := [cond "Configured" "True" "Configured"] |>.
Definition joining : ReplicatedVolumeReplica :=
  rvr 2 ReplicaTypeTieBreaker [] 5 <| rvr_Conditions := [] |> <| rvr_Quorum := Some false |> <| rvr_Phase := ReplicaPhaseProgressing |>.
Definition firstPass := passOf joining None diskless [].
Definition secondPass := match written firstPass.2 with r :: _ => passOf r (Some volume) diskless [] | [] => firstPass end.

(** A member that never had quorum becomes Critical.  A tie-breaker whose first quorum is awaited is
    reported as Progressing; but when its volume is not found in one pass it is reported as
    PartiallyDegraded, and that phase counts as proof of an earlier quorum: in the next pass, with the
    volume back and still no quorum recorded, it is Critical. *)
Example unreached_quorum_critical :
  map rvr_Phase (written (passOf joining (Some volume) diskless []).2) = [ReplicaPhaseProgressing] ∧
  map (λ r, (rvr_Phase r, rvr_InitialQuorumReachedAt r)) (written firstPass.2) = [(ReplicaPhasePartiallyDegraded, None)] ∧
  map (λ r, (rvr_Phase r, rvr_InitialQuorumReachedAt r)) (written secondPass.2) = [(ReplicaPhaseCritical, None)].
Proof. vm_compute. done. Qed.

(** ** A diskful member *)
Definition diskfulMember (lvg : string) : DatameshMember :=
  {| m_Name := "vol-0"; m_Type := MemberTypeDiskful; m_NodeName := node 0; m_Zone := "a"; m_Addresses := [addr 0];
     m_LVMVolumeGroupName := lvg; m_LVMVolumeGroupThinPoolName := ""; m_Attached := false |}.
Definition volumeOn (lvg : string) : ReplicatedVolume := volume <| rv_Members := [diskfulMember lvg] |>.
Definition llvName (lvg : string) : string := ComputeLLVName "vol-0" lvg "".
Definition intended (lvg : string) : Quantity := match intendedSize (volumeOn lvg) with Ok q => q | _ => 0 end.
Definition diskLLV (lvg phase : string) (size : Quantity) : LVMLogicalVolume :=
  {| llv_Name := llvName lvg; llv_DeletionTimestamp := None; llv_Finalizers := [RVRControllerFinalizer];
     llv_Labels := Some {[ReplicatedVolumeLabelKey := "vol"; ReplicatedStorageClassLabelKey := "class"]};
     llv_OwnerReferences := [{| or_UID := "uid-0"; or_Controller := true |}]; llv_ActualLVNameOnTheNode := llvName lvg; llv_Type := "Thick";
     llv_LVMVolumeGroupName := lvg; llv_Size := q_String size; llv_Thin := None;
     llv_Status := Some {| ls_Phase := phase; ls_ActualSize := size |} |}.
Definition diskful : ReplicatedVolumeReplica :=
  rvr 0 ReplicaTypeDiskful [] 5 <| rvr_UID := "uid-0" |> <| rvr_Conditions := [] |> <| rvr_Status_Type := DRBDDiskful |>.
(** DRBD runs on the volume of [lvg]; the agent is done. *)
Definition diskDRBDR (lvg : string) : DRBDResource :=
  diskless <| dr_Name := "vol-0" |>
    <| dr_Labels := Some {[ReplicatedVolumeLabelKey := "vol"; ReplicatedStorageClassLabelKey := "class"]} |>
    <| dr_OwnerReferences := [{| or_UID := "uid-0"; or_Controller := true |}] |>
    <| dr_Spec := computeTargetDRBDRSpec diskful None (volumeOn lvg) (Some (diskfulMember lvg)) (llvName lvg) MemberTypeDiskful |>
    <| dr_Addresses := [addr 0] |> <| dr_Size := Some 1073741824 |> <| dr_Quorum := Some true |> <| dr_DiskState := "UpToDate" |>
    <| dr_ActiveConfiguration := Some (zeroAC <| ac_Quorum := Some 2 |> <| ac_QuorumMinimumRedundancy := Some 1 |>
         <| ac_Role := DRBDRoleSecondary |> <| ac_Type := DRBDDiskful |> <| ac_LVMLogicalVolumeName := llvName lvg |>) |>.

(** A logical volume that is larger than intended, as rounding up to LVM extents makes it, crashes the
    pass over its replica while it is in another phase than Created: DRBD is configured on it and nothing
    is pending, but its size is not the intended one. *)
Example oversized_volume_panics :
  q_Cmp (intended "vg") 1077936128 = -1 ∧
  (passOf diskful (Some (volumeOn "vg")) (diskDRBDR "vg") [diskLLV "vg" "Created" 1077936128]).1 ≠
    Panic "BUG: targetBV and intendedBV must be equal for Diskful" ∧
  (passOf diskful (Some (volumeOn "vg")) (diskDRBDR "vg") [diskLLV "vg" "Pending" 1077936128]).1 =
    Panic "BUG: targetBV and intendedBV must be equal for Diskful".
Proof. vm_compute. done. Qed.

(** The member moves to the volume group vg-new: first its volume is missing, then it is there. *)
Definition beforePass := passOf diskful (Some (volumeOn "vg-new")) (diskDRBDR "vg") [diskLLV "vg" "Created" (intended "vg")].
Definition afterwards (llvs : list LVMLogicalVolume) :=
  match written beforePass.2 with r :: _ => passOf r (Some (volumeOn "vg-new")) (diskDRBDR "vg") llvs | [] => beforePass end.
Definition replacementPass := afterwards [diskLLV "vg" "Created" (intended "vg"); diskLLV "vg-new" "Created" (intended "vg")].
Definition laterPass := afterwards [diskLLV "vg-new" "Created" (intended "vg")].
Definition errorOf (o : outcome ReconcileOutcome) : option string :=
  match o with Ok o => errorString <$> err o | _ => None end.
(** A replaced backing volume is deleted under DRBD.  When the new volume is ready the old one is
    deleted, but the specification of the DRBD resource keeps naming the old one, because the
    configuration cache holds only the revision, the generation and the type; from then on every pass
    fails, for want of the volume DRBD runs on, and changes nothing. *)
Example replacement_not_followed :
  deletedLLV replacementPass.2 = [llvName "vg"] ∧ patchedDRBDR replacementPass.2 = [] ∧
  errorOf laterPass.1 = Some ("ensuring status: active LLV " +:+ quote (llvName "vg") +:+ " not found") ∧
  patchedDRBDR laterPass.2 = [] ∧ written laterPass.2 = [].
Proof. vm_compute. done. Qed.


(** An Access replica that the datamesh knows as a tie-breaker, in the view of its pool. *)
Definition accessRole : ReplicatedVolumeReplica := rvr 2 ReplicaTypeAccess [0; 1] 5 <| rvr_Status_Type := DRBDDiskless |>.
Definition groupOn (lvg thin : string) : EligibleNodeLVMVolumeGroup :=
  {| lvg_Name := lvg; lvg_ThinPoolName := thin; lvg_Unschedulable := false; lvg_Ready := true |}.
Definition viewOn (ty : ReplicatedStoragePoolType) (n : string) (groups : list EligibleNodeLVMVolumeGroup) : option rspEligibilityView :=
  Some {| ev_Type := ty; ev_EligibleNode := Some {| en_NodeName := n; en_ZoneName := "a"; en_LVMVolumeGroups := groups;
                                                     en_Unschedulable := false; en_NodeReady := true; en_AgentReady := true |} |}.
Lemma role_change_unseen_witness : let view := viewOn PoolLVM (node 2) [] in
  option_map m_Type (FindMemberByName volume (rvr_Name accessRole)) = Some MemberTypeTieBreaker ∧
  requestable accessRole (Some volume) view ∧
  computeTargetDatameshRequest accessRole (Some volume) view = (None, ConfiguredReasonConfigured, "Replica is configured as intended").
Proof.
  intros view. split; [vm_compute; reflexivity|].
  assert (Hq : requestable accessRole (Some volume) view).
  { split; [done|by exists volume, config|done|by do 2 eexists|done]. }
  split; [exact Hq|]. apply (role_change_unseen accessRole volume view Hq); [done|by left|done].
Defined.

Definition onSecondPool : ReplicatedVolumeReplica :=
  rvr 3 ReplicaTypeDiskful [] 0 <| rvr_Spec_LVMVolumeGroupName := "vg" |> <| rvr_Spec_LVMVolumeGroupThinPoolName := "thin-b" |>.
Lemma second_thin_pool_refused_witness : let view := viewOn PoolLVMThin (node 3) [groupOn "vg" "thin-a"; groupOn "vg" "thin-b"] in
  (computeTargetDatameshRequest onSecondPool (Some volume) view).1 = (None, ConfiguredReasonStorageNotEligible).
Proof.
  intros view. eapply (second_thin_pool_refused onSecondPool volume view _ _ (groupOn "vg" "thin-a") (groupOn "vg" "thin-b") config);
    [done|done|done|done|done|done].
Defined.

Lemma replica_pass_never_panics_witness : let llvs := [diskLLV "vg" "Created" (intended "vg")] in
  fitting diskful (Some (volumeOn "vg")) (Some (diskDRBDR "vg")) llvs None ∧
  ∃ o, (reconcileChildren (Some diskful) (Some (volumeOn "vg")) (Some (diskDRBDR "vg")) llvs None now0).2.2 = Ok o.
Proof.
  intros llvs. assert (Hf : fitting diskful (Some (volumeOn "vg")) (Some (diskDRBDR "vg")) llvs None).
  { intros v [= <-]. split; [vm_compute; by repeat split|]. intros i _ _ a Ha Hn. right.
    exists (diskLLV "vg" "Created" (intended "vg")). rewrite <- Hn. apply (f_equal (option_map bv_LLVName)) in Ha.
    assert (Hv : option_map bv_LLVName (computeActualBackingVolume (Some (diskDRBDR "vg")) llvs) = Some (llvName "vg")) by (vm_compute; reflexivity).
    rewrite Hv in Ha. injection Ha as Ha. rewrite <- Ha.
    split; [|split]; vm_compute; reflexivity. }
  split; [exact Hf|]. apply (replica_pass_never_panics diskful _ _ llvs None Hf now0).
Defined.

